(* ===== verification/_CoqProject ===== *)
-Q . S2P
Prelude.v
Types.v
Store.v
Memory.v
Rocks.v
RocksLaws.v
Overlay.v
Staking.v
Governance.v
Vesting.v
Guardian.v
Bridge.v
Treasury.v
Rollup.v
Codec.v
State.v
SysCommon.v
SysStaking.v
SysVesting.v
SysGovernance.v
SysGuardian.v
SysIntent.v
SysBridge.v
SystemCalls.v
Fees.v
Auth.v
Session.v
Rewards.v
Executor.v
Blocks.v
Validators.v
Mempool.v
Intents.v
Checkpoint.v
EngineState.v
EngineVotes.v
EngineBlocks.v
EngineRecovery.v
EngineFrames.v
EngineSafety.v
EngineSteps.v
EngineStore.v
EngineRuns.v
Address.v
Settlement.v
Reputation.v
Network.v
Vm.v
Base64.v
Rpc.v
RpcViews.v
RpcLaws.v
RpcEvents.v
Indexer.v
IndexerLaws.v
Explorer.v
ExplorerLaws.v
Transfer.v
Genesis.v
Boot.v
EngineEpoch.v
NodeRecovery.v
NodeLoop.v
NodeRuns.v
StSolen.v
StSolenLedger.v
StSolenRate.v
StSolenQueue.v
Token.v
Nft.v
Keystore.v
KeystoreLaws.v
Cli.v
CliLaws.v
CliOrders.v
CliChecks.v
WalletSdk.v
Faucet.v
FaucetLaws.v
Tools.v
