(* ===== verification/Prelude.v ===== *)
(** * Solen: a verification development

    Solen is a proof-of-stake chain. A node keeps its state in a key-value store
    ([crates/solen-storage]); blocks of signed operations are executed by the
    block executor ([crates/solen-execution/src/executor.rs]), which checks
    authorisation, moves balances, runs WASM contracts in a virtual machine,
    settles fees and pays epoch rewards; calls to reserved addresses are routed
    ([system_calls.rs]) to the system contracts
    ([crates/solen-system-contracts]), each of which keeps its whole state as
    one serialised record. Rollups post attested batches and bridge withdrawals
    through the bridge contract ([crates/solen-rollup-kit] on their side). Which
    blocks are executed is decided by the consensus engine
    ([crates/solen-consensus]): it collects operations in a mempool and intents
    in a pool ([crates/solen-intents]), proposes blocks in turn, votes on them,
    finalises them with a quorum of stake, and repairs, rolls back or
    resynchronises its store when it has gone astray. The node
    ([crates/solen-node]) starts from a genesis or a snapshot, feeds the engine
    with what peers send it ([crates/solen-p2p]), drives its production, and
    recovers it when it diverges; the RPC server ([crates/solen-rpc]) admits
    operations and answers queries. Users sign with the command line
    ([crates/solen-cli]) or the wallet library ([sdks/wallet-sdk-rs]); a faucet
    ([crates/solen-faucet]) gives out test tokens. A liquid
    staking contract, a token and an NFT contract ([examples/contracts]) run in
    the virtual machine ([crates/solen-vm]).

    The development translates this path, from the store over the block to its
    finality and to the node around it, into executable functions, and proves
    what makes each part correct.

    ** Files

    - [Prelude]: machine integers with their wrap-around and saturation, byte
      strings, results, generic lemmas, tactics and hints.
    - [Types]: identifiers, accounts, authentication methods, actions,
      operations, receipts, system addresses ([crates/solen-types],
      [receipt.rs]); the class [Codec] of a serialisation and its laws.
    - [Store], [Memory], [Overlay]: the trait [StateStore] as a class with its
      laws ([traits.rs]), the in-memory backend with its cached Merkle root
      ([memory.rs]) and incremental tree ([merkle.rs]), the copy-on-write
      overlay ([overlay.rs]). Clients are proved against the classes; the two
      are instances. [Rocks], [RocksLaws]: the store on a RocksDB database
      ([rocks.rs]), with its errors, batches and checkpoints, and its agreement
      with the store in memory.
    - [Staking], [Governance], [Vesting], [Guardian], [Bridge], [Treasury]
      (with the proof registry and the epoch randomness): the system contracts,
      one function per method; [Staking] also has what the slash of the system
      call does to the contract.
    - [Rollup]: committee and mock provers, sequencer, batch commitments,
      cross-domain messenger, relayer queue.
    - [Codec]: a concrete serialisation that satisfies the laws.
    - [State]: account records, transfers, nonces, bytecode and contract
      storage ([state.rs]).
    - [SysCommon], [SysStaking], [SysVesting], [SysGovernance], [SysGuardian],
      [SysIntent], [SysBridge], [SystemCalls]: every method of every system
      call ([system_calls.rs]) as a function from store, sender and argument
      bytes to store and result.
    - [Fees], [Auth], [Session], [Rewards], [Executor], [Blocks]: fees
      ([fees.rs]); signature schemes and the signing message; validation and
      session keys; epoch rewards; actions, contract calls, rollback and fee
      settlement; blocks, staging, commits and their undo
      ([executor.rs]).
    - [Validators]: the validator set with its quorum test and proposer
      schedules, epochs and slashing ([validator.rs], [epoch.rs],
      [slashing.rs]). [Mempool]: the mempool and the encrypted mempool.
      [Intents]: the intent pool, the solver and what a block includes of them.
      [Checkpoint]: checkpoints and state snapshots.
    - [EngineState], [EngineVotes], [EngineBlocks]: the consensus engine
      ([engine.rs]), one record [Engine] with a field per lock of the source
      and one function per method: persistence, rollback, reset and start-up;
      votes, fork choice and finalisation; proposals, production,
      synchronisation and timeouts. Blocks are executed through the class
      [BlockExec], of which [EngineRecovery] makes the executor of [Blocks] an
      instance that satisfies [BlockExecLaws].
    - [EngineRecovery], [EngineFrames], [EngineSafety], [EngineSteps],
      [EngineStore], [EngineEpoch]: the theorems about the engine: the journal
      as a refinement of a history of states; what each operation leaves
      alone; fork choice, finality, agreement and progress; the transition
      system [step] and its invariants; stored blocks; the set across epochs and
      wherever the node writes it (after [Boot], whose reconciliation it covers).
      [EngineRuns]: runs of a network of four validators.
    - [Address]: Base58 and hexadecimal text ([encoding.rs]). [Settlement]: the
      registry that verifies rollup batches, and the genesis allocation
      ([proof.rs], [genesis.rs]).
    - [Reputation], [Network]: scores and bans of peers; the wire format and the
      event loop of the network service ([reputation.rs], [messages.rs],
      [network.rs]).
    - [Vm]: host functions, metering, module caches and the two engines of the
      virtual machine, the start function and the call of a module ([host.rs],
      [metering.rs], [runtime.rs]).
    - [Base64], [Rpc], [RpcViews], [RpcLaws], [RpcEvents], [Transfer]: the RPC
      server ([methods.rs]): parsing and limits, submission and confirmation;
      queries, view calls, simulation, intents and rollup batches; their
      theorems; events and subscriptions; snapshots and their download.
    - [Indexer], [IndexerLaws], [Explorer], [ExplorerLaws]: the indexer and its
      HTTP handlers ([crates/solen-indexer]): the query store and what a block
      adds to it, the queries, published sources, supply, the rich list, the
      yield of the liquid staking contract; their theorems.
    - [Genesis], [Boot]: the genesis configuration ([genesis_config.rs]) and
      start-up ([main.rs] of [crates/solen-node]): the choice of a snapshot, the
      validator set, the engine.
    - [NodeRecovery], [NodeLoop], [NodeRuns]: the rest of [main.rs]: the tiers of
      the recovery with the rings of checkpoints they use; the tasks that handle
      messages, announce the status and drive the engine; runs of a node.
    - [StSolen], [StSolenLedger], [StSolenRate], [StSolenQueue]: the liquid
      staking contract over the calls of the contract SDK, an abstract ledger
      that it refines, its exchange rate, its withdrawal queue. [Token], [Nft]:
      the token, the NFT contract and the counter.
    - [Keystore], [KeystoreLaws]: signers and the key file of the command line
      with its lock ([wallet.rs]); their theorems, up to the validation of a
      signed operation by the node.
    - [Cli], [CliLaws], [CliOrders], [CliChecks]: the commands ([commands.rs],
      [main.rs], [rpc.rs]) in a monad of the key file, the requests and the
      lines printed; the rules to reason about them; what the texts of a command
      mean, by their spelling, and what it submits, as the handlers of the node
      read it; amounts, upgrades and defects.
    - [WalletSdk]: the wallet library.
    - [Faucet], [FaucetLaws]: the faucet as tasks between whose sections others
      run; its limits per recipient and per client. [Tools]: the tools that
      deploy, fund and administer the liquid staking contract, and the census of
      accounts ([tools/stsolen-*], [tools/account-census]).

    ** How the code is modelled

    Functions of the source are functions of the same name; [&mut self] and
    [&mut dyn StateStore] become a state that is passed and returned, also on
    error where the code may have written before it fails; [Result] and
    [Option] are the types [result] and [option]; error values carry the texts
    of the source. Integers are [Z] with the width written out at every
    operation that can leave it: plain arithmetic wraps (the node is built
    without overflow checks), [saturating_*] saturates. Hash maps are finite
    maps, vectors are lists, byte strings are lists of integers.

    A method of the engine is a function from engine to engine, and runs are
    sequences of whole methods: the relation [step], and for the tasks of a node
    the relation [node_step], whose steps are whole messages, ticks and rounds.
    This is a simplification. The code takes a lock per field, and some methods
    take several one after the other, so that methods of two tasks can overlap
    between them; such overlaps are not covered by the theorems about runs. Where
    a task reads the engine and the store at two moments and the result shows it,
    the two readings are separate arguments (the height of a snapshot in
    [Transfer], the sections of a faucet request). Clocks ([now_ms], the
    instant [inst], [now_secs]) and the signing key are arguments. The order in
    which a hash map is enumerated is an argument where a result could depend
    on it.

    Parameters: the hash function and the signature checks (class [Crypto] and
    the [blake3], [verify] arguments), the serialisations [borsh] and
    [serde_json] (class [Codec], with the round trip as its only law), the
    [{:?}] rendering of strings, compression (class [Deflate], with the round
    trip as its law), and the WASM engine: the class [Vm] for the executor, and
    the class [Wasmtime] for the runtime, where compiled code is a finite tree
    of instructions and host calls. The compiler that checks published sources,
    the conversion of bytes to text and the power function are arguments. What
    other nodes answer to HTTP requests,
    the restoring of a database directory and the emptying of a store are
    arguments. The RocksDB library is the class [RocksDb], with laws for the
    calls that succeed; a database that never fails is the separate class
    [RocksDbHealthy]. Signing keys (class
    [Signing]), Argon2 and AES-GCM (class [Vault]), the terminal, the disk and
    the random generator (class [Host]) and the node a command talks to (class
    [Node]) are parameters of the clients. Each closed example instantiates them with concrete functions.

    ** What the theorems show

    - Blocks: a block of payments never creates tokens; a block with the wrong
      root leaves no trace; a committed block is undone exactly by its journal
      entry, also by the durable one, which stays outside the state root;
      checking signatures beforehand is sequential execution.
    - Operations: a failed operation leaves only its nonce and a bounded fee;
      nothing but the proposer's marked calls of [fulfill] and [slash] runs
      without a signature of the account, and what is signed runs once; session
      keys stay within their grant, as far as the executor counts amounts;
      threshold and passkey signatures bind what they should; deployments are
      sound.
    - Store: the root depends on the bindings alone; an overlay commits to what
      it answered; savepoints restore; the two backends agree on every sequence
      of calls up to the first in which the database fails, reported or not; a
      refused batch leaves no trace, and a checkpoint restores to the store it was
      made of.
    - Staking and rewards: the books of the contract balance along every run,
      slashes included; a staking call conserves tokens unless its guard
      overflows; rewards never exceed the pool. Validator keys stay distinct as
      long as nobody takes a key that another validator has announced.
    - Governance, guardians, vesting, bridge, intents, rollups: execution needs
      a passed vote and, but for the emergency track, the timelock, and happens
      once; recovery needs a majority of recorded
      guardians; vesting pays the curve exactly; releases happen once; batches
      extend the attested chain by one; fulfilment respects its constraints.
    - Consensus: two quorums share a correct validator; nodes agree on the
      block of a height unless more than a third of the stake is counted for
      two hashes; a block is finalised only with a quorum of votes for its
      hash, and at once when there is one; the leader does not depend on the
      order of votes; along every run in which votes decide, rollbacks and resets
      included, the heights are contiguous; finalised blocks stay as long as
      nothing is rolled back or reset, and attested blocks link to their parents
      as long as nothing is rolled back; an accepted proposal is a signed child
      of the tip.
    - Recovery: the journal refines the history of states, so that a rollback
      that reports success is at the state of its target; a crash after an
      eager commit loses nothing; stored blocks and snapshots come back as they
      were written, and the loop that reads a snapshot ends.
    - Sets and pools: the validator set stays well formed and changes its
      members by at most a third of the stake per epoch; the mempool keeps its
      order, index and counts; an intent is included at most once.
    - Contracts: an execution, with the start function of its module, has paid
      for what it stored and sent; the liquid staking contract, while the fuel of
      its calls pays for all their host calls, refines its ledger, conserves
      receipts, never lowers the rate without slashing, and settles withdrawals
      in order; every call of the
      token is a move of its ledger and conserves the supply; only its owner
      moves an NFT.
    - Clients: a command whose texts are well formed submits at most one
      operation, signed with the named key, which is the order those texts spell
      as the node decodes it; what a key
      signs passes the validation of the node; locking the key file hides the
      seeds and loses nothing; an upgraded key still controls its account;
      amounts are read as they are printed; a policy of the wallet library
      bounds what it allows, and its recovery needs distinct guardians. The
      faucet sends nothing but its drips, at most ten for a client in the time of
      one cooldown; the deployment tool configures the contract that it deploys;
      the census finds every account that a change of layout would break.
    - Peers: no peer gets more than its share of messages to the decoder; scores
      decay and bans escalate as stated; every spelling of an address parses
      back; batches served to peers are at most eight per second.
    - RPC: what is submitted passed the checks of the account and the limit per
      second; a view sees the storage that was saved; constraints survive their
      text form; a subscriber in time is told exactly of what was finalised; a
      snapshot downloaded in chunks, within the rate limit and before the server
      replaces it, restores to the store it was made of.
    - Explorer: the pages of an account and the lookups by hash are those of a
      search through the whole history, the pages of transfers those of the
      newest 2,000 transactions of the account; the rich list is complete and sorted; a published
      source is served, also after a restart, and stays outside the state root.
    - The node: a genesis of a valid configuration has sound books; on mainnet a
      snapshot comes with the signatures of a majority of the genesis
      validators; the recovery uses the node's own past only on the evidence of
      another node; along every sequence of messages, ticks and rounds the heights
      of the chain are contiguous, and without a recovery it stays and is linked.
    - Some theorems state defects of the code as it is: a vesting claim through
      the system call is not recorded, finalising pays the deposit again, a
      balance guard overflows, the session cap does not see the bridge, failed
      contract calls are free, rejected disputes overpay. [EngineRuns] has runs
      of correct validators that finalise different blocks because votes move,
      of attestations that count for another block, of a height finalised twice,
      and of a candidate that survives a rollback and is finalised on the wrong
      parent. [Boot] restores a forged snapshot under genuine signatures;
      [NodeRecovery] empties the store for a snapshot that it then refuses;
      [NodeRuns] stops production with two unsigned announcements and stops a
      synchronisation with one unsigned block.
      [ExplorerLaws] replaces a verified source by an unverified one.
      [RocksLaws] keeps a stale root after a failed restore and skips entries
      that it cannot read; [Token] shows that
      allowances always trap and that anyone can take the token over, [Nft]
      the same of token 1; [CliChecks] has amounts that wrap, a locked file
      with a seed in the clear and accounts lost to repeated signers;
      [WalletSdk] a spending limit that wraps; [FaucetLaws] two drips to one
      recipient at once, a burst at the edge of a window, and a request that
      stops the faucet for good.

    ** Bounds and fuel

    Recursion is structural wherever the code loops over a list. The Merkle
    loops take the number of leaves as fuel, which [merkle_root_terminates]
    shows is enough; the recursion of contract calls is structural on the
    number of levels left, 9 minus the depth, which is where the code stops.
    The loop that loads a snapshot takes one more than the number of bytes as
    fuel; running out is an outcome of its own, which [snapshot_loop_terminates]
    shows does not occur. Steps of the engine are stated
    for heights below the last 64-bit number.
    Hypotheses that a total fits 128 bits are stated where saturation would
    otherwise lose tokens.

    ** Not modelled

    The RocksDB library, the WASM engine and the cryptographic primitives
    (third-party), HTTP and libp2p transport, timers and logging, the load
    generators and test vectors under [tools], and the contract that probes the
    limits of the virtual machine. The errors of the RocksDB store are
    modelled in [Rocks]; the rest of the node is proved against the class of
    stores that do not fail. Of the engine the unused legacy distribution of
    rewards is left out. The contracts of [examples] are modelled above the host
    functions, with every host call paid for; what a contract does when its fuel
    runs short is left to [Vm]. Overlapping methods of the engine are left out, as
    said above. The prompts of the terminal and the text of a
    floating-point amount are not part of what a command prints in [Cli]. *)

From Stdlib Require Export ZArith Lia Bool String.
From stdpp Require Export base tactics list gmap strings sorting.

Open Scope Z_scope.

(** ** Machine integers

    The node is built with the release profile (deploy/testnet/setup.sh,
    .github/workflows/release.yml) and the workspace sets no
    [overflow-checks], so a plain [+], [-], [*] of the source wraps around.
    A [u64] and a [u128] are a [Z] here; an operation the source writes with
    a plain operator is the wrapped one below, and the [saturating_] methods
    are the [sat_] ones. *)
Abbreviation u8 := Z (only parsing).
Abbreviation u64 := Z (only parsing).
Abbreviation u128 := Z (only parsing).
Abbreviation usize := nat (only parsing).

Definition u64_max : Z := 2 ^ 64 - 1.
Definition u128_max : Z := 2 ^ 128 - 1.

Definition u64_add (a b : Z) : Z := (a + b) mod 2 ^ 64.
Definition u64_sub (a b : Z) : Z := (a - b) mod 2 ^ 64.
Definition u128_add (a b : Z) : Z := (a + b) mod 2 ^ 128.
Definition u128_sub (a b : Z) : Z := (a - b) mod 2 ^ 128.
Definition u128_mul (a b : Z) : Z := (a * b) mod 2 ^ 128.

(** [saturating_add], [saturating_sub] and [saturating_mul]; the subtraction
    does not depend on the width. *)
Definition sat_sub (a b : Z) : Z := Z.max 0 (a - b).
Definition sat_add64 (a b : Z) : Z := Z.min (a + b) u64_max.
Definition sat_add128 (a b : Z) : Z := Z.min (a + b) u128_max.
Definition sat_mul128 (a b : Z) : Z := Z.min (a * b) u128_max.

(** [Iterator::sum] over u128: plain additions, from the left. *)
Definition u128_sum (l : list Z) : Z := fold_left u128_add l 0.

Definition in_u64 (z : Z) : Prop := 0 <= z <= u64_max.
Definition in_u128 (z : Z) : Prop := 0 <= z <= u128_max.

(** Exact sum of a list of integers. *)
Fixpoint sumZ (l : list Z) : Z :=
  match l with
  | [] => 0
  | x :: l => x + sumZ l
  end.

(** ** Lists as the source uses them *)

(** [v.iter_mut().find(p)] followed by an update of the found element. *)
Fixpoint update_first {A} (p : A -> bool) (f : A -> A) (l : list A) : list A :=
  match l with
  | [] => []
  | x :: l => if p x then f x :: l else x :: update_first p f l
  end.

(** [v.iter().any(p)] is [existsb p v], [v.iter().find(p)] is [List.find p v]
    and [v.iter().filter(p)] is [List.filter p v]. *)

(** ** Results *)

Inductive result (T E : Type) : Type :=
| Ok (t : T)
| Err (e : E).
Arguments Ok {T E} t.
Arguments Err {T E} e.

Definition rbind {T U E} (m : result T E) (f : T -> result U E) : result U E :=
  match m with Ok t => f t | Err e => Err e end.

Definition ok_or {T E} (o : option T) (e : E) : result T E :=
  match o with Some t => Ok t | None => Err e end.

Declare Scope solen_scope.
Delimit Scope solen_scope with solen.
Notation "'let!' x ':=' m 'in' k" := (rbind m (fun x => k))
  (at level 10, x name, m at level 100, k at level 200) : solen_scope.
Open Scope solen_scope.

(** ** Bytes *)

(** A byte string: [Vec<u8>], [&[u8]], [[u8; 32]]. *)
Abbreviation bytes := (list Z).

Fixpoint bytes_of_string (s : string) : bytes :=
  match s with
  | EmptyString => []
  | String c s => Z.of_nat (Ascii.nat_of_ascii c) :: bytes_of_string s
  end.

(** [to_le_bytes] of an integer of [n] bytes and [from_le_bytes]. *)
Fixpoint le_bytes (n : nat) (z : Z) : bytes :=
  match n with
  | O => []
  | S n => z mod 256 :: le_bytes n (z / 256)
  end.

Fixpoint from_le (b : bytes) : Z :=
  match b with
  | [] => 0
  | x :: b => x + 256 * from_le b
  end.

(** [&args[off..off + len]] when it is in range, as the readers of
    [system_calls.rs] check first. *)
Definition slice (off len : nat) (b : bytes) : bytes := take len (drop off b).
(** [u32::from_le_bytes([b[off], .., b[off + 3]]) as usize]. *)
Definition read_u32_at (b : bytes) (off : nat) : nat := Z.to_nat (from_le (slice off 4 b)).

Definition bytes_eqb (a b : bytes) : bool := bool_decide (a = b).

(** [key.starts_with(prefix)]. *)
Fixpoint starts_with (prefix b : bytes) : bool :=
  match prefix, b with
  | [], _ => true
  | x :: p, y :: b => (x =? y) && starts_with p b
  | _ :: _, [] => false
  end.

(** ** Tactics *)

(** Split the innermost [match] or [if] of a hypothesis, keeping the equation. *)
Ltac split_match_in H :=
  match type of H with
  | context [match ?x with _ => _ end] =>
      lazymatch x with
      | context [match _ with _ => _ end] => fail
      | _ => let E := fresh "E" in destruct x eqn:E
      end
  end.

(** Follow every branch of a fallible computation that returned [Ok]; the
    branches that return [Err] are closed. *)
Ltac inv_ok H := unfold rbind, ok_or in H; simpl in H;
  repeat (split_match_in H; simplify_eq/=); simplify_eq/=.

(** Boolean tests of the hypotheses as propositions. *)
Ltac prop_bool := repeat match goal with
  | H : (_ && _) = true |- _ => apply andb_true_iff in H as [? ?]
  | H : (_ && _) = false |- _ => apply andb_false_iff in H
  | H : (_ || _) = true |- _ => apply orb_true_iff in H
  | H : (_ || _) = false |- _ => apply orb_false_iff in H as [? ?]
  | H : negb _ = true |- _ => apply negb_true_iff in H
  | H : negb _ = false |- _ => apply negb_false_iff in H
  | H : (_ <? _) = true |- _ => apply Z.ltb_lt in H
  | H : (_ <? _) = false |- _ => apply Z.ltb_ge in H
  | H : (_ <=? _) = true |- _ => apply Z.leb_le in H
  | H : (_ <=? _) = false |- _ => apply Z.leb_gt in H
  | H : (_ =? _) = true |- _ => apply Z.eqb_eq in H
  | H : (_ =? _) = false |- _ => apply Z.eqb_neq in H
  | H : bytes_eqb _ _ = true |- _ => apply bool_decide_eq_true in H
  | H : bytes_eqb _ _ = false |- _ => apply bool_decide_eq_false in H
  | H : bool_decide _ = true |- _ => apply bool_decide_eq_true in H
  | H : bool_decide _ = false |- _ => apply bool_decide_eq_false in H
  end.

(** ** Lemmas on machine integers *)

Create HintDb machine.
Create Rewrite HintDb machine.

Lemma u128_max_val : u128_max + 1 = 2 ^ 128.
Proof. reflexivity. Qed.

Lemma u64_max_val : u64_max + 1 = 2 ^ 64.
Proof. reflexivity. Qed.

Lemma u128_add_exact a b : 0 <= a + b <= u128_max -> u128_add a b = a + b.
Proof. intros H. unfold u128_add. apply Z.mod_small. pose proof u128_max_val. lia. Qed.

Lemma u64_sub_exact a b : 0 <= a - b <= u64_max -> u64_sub a b = a - b.
Proof. intros H. unfold u64_sub. apply Z.mod_small. unfold u64_max in H. lia. Qed.

Lemma u128_sub_exact a b : 0 <= a - b <= u128_max -> u128_sub a b = a - b.
Proof. intros H. unfold u128_sub. apply Z.mod_small. pose proof u128_max_val. lia. Qed.

Lemma u128_mul_exact a b : 0 <= a * b <= u128_max -> u128_mul a b = a * b.
Proof. intros H. unfold u128_mul. apply Z.mod_small. pose proof u128_max_val. lia. Qed.

Lemma u64_add_exact a b : 0 <= a + b <= u64_max -> u64_add a b = a + b.
Proof. intros H. unfold u64_add. apply Z.mod_small. pose proof u64_max_val. lia. Qed.

Lemma u128_add_range a b : in_u128 (u128_add a b).
Proof.
  unfold in_u128, u128_add. pose proof (Z.mod_pos_bound (a + b) (2 ^ 128)).
  pose proof u128_max_val. lia.
Qed.

Lemma u128_sub_range a b : in_u128 (u128_sub a b).
Proof.
  unfold in_u128, u128_sub. pose proof (Z.mod_pos_bound (a - b) (2 ^ 128)).
  pose proof u128_max_val. lia.
Qed.

Lemma u64_add_range a b : in_u64 (u64_add a b).
Proof.
  unfold in_u64, u64_add. pose proof (Z.mod_pos_bound (a + b) (2 ^ 64)).
  pose proof u64_max_val. lia.
Qed.

Lemma sat_add128_exact a b : a + b <= u128_max -> sat_add128 a b = a + b.
Proof. unfold sat_add128. lia. Qed.

Lemma sat_sub_exact a b : b <= a -> sat_sub a b = a - b.
Proof. unfold sat_sub. lia. Qed.

Lemma sat_mul128_exact a b : a * b <= u128_max -> sat_mul128 a b = a * b.
Proof. unfold sat_mul128. lia. Qed.

Lemma sat_add128_range a b : in_u128 a -> in_u128 b -> in_u128 (sat_add128 a b).
Proof. unfold in_u128, sat_add128. pose proof u128_max_val. lia. Qed.

Lemma sat_sub_range a b : in_u128 a -> in_u128 b -> in_u128 (sat_sub a b).
Proof. unfold in_u128, sat_sub. lia. Qed.

#[export] Hint Resolve u128_add_range u128_sub_range u64_add_range
  sat_add128_range sat_sub_range : machine.
#[export] Hint Rewrite u128_add_exact u128_sub_exact u128_mul_exact u64_add_exact
  sat_add128_exact sat_sub_exact sat_mul128_exact using lia : machine.

(** A proportional share never exceeds what is shared: the pattern
    [x.saturating_mul(part) / whole]. *)
Lemma share_le x part whole :
  0 <= x -> 0 <= part <= whole -> 0 < whole -> 0 <= sat_mul128 x part / whole <= x.
Proof.
  intros Hx Hp Hw. unfold sat_mul128.
  assert (0 <= u128_max) by (unfold u128_max; lia).
  split.
  - apply Z.div_pos; nia.
  - apply Z.div_le_upper_bound; [lia|]. nia.
Qed.

(** ** Lemmas on sums *)

Lemma sumZ_app l1 l2 : sumZ (l1 ++ l2) = sumZ l1 + sumZ l2.
Proof. induction l1 as [|x l1 IH]; simpl; lia. Qed.

Lemma sumZ_nonneg l : Forall (fun x => 0 <= x) l -> 0 <= sumZ l.
Proof. induction 1; simpl; lia. Qed.

Lemma sumZ_perm l1 l2 : l1 ≡ₚ l2 -> sumZ l1 = sumZ l2.
Proof. induction 1; simpl; lia. Qed.

#[export] Instance sumZ_proper : Proper ((≡ₚ) ==> (=)) sumZ.
Proof. intros l1 l2 H. by apply sumZ_perm. Qed.

Lemma sumZ_map_le {A} (f g : A -> Z) l :
  (forall x, x ∈ l -> f x <= g x) -> sumZ (map f l) <= sumZ (map g l).
Proof.
  induction l as [|x l IH]; simpl; intros H; [lia|].
  pose proof (H x ltac:(set_solver)). specialize (IH ltac:(set_solver)). lia.
Qed.

Lemma sumZ_map_ext {A} (f g : A -> Z) l :
  (forall x, x ∈ l -> f x = g x) -> sumZ (map f l) = sumZ (map g l).
Proof.
  induction l as [|x l IH]; simpl; intros H; [done|].
  rewrite (H x), IH; set_solver.
Qed.

Lemma sumZ_map_add {A} (f g : A -> Z) l :
  sumZ (map (fun x => f x + g x) l) = sumZ (map f l) + sumZ (map g l).
Proof. induction l as [|x l IH]; simpl; lia. Qed.

Lemma sumZ_map_nonneg {A} (f : A -> Z) l :
  (forall x, x ∈ l -> 0 <= f x) -> 0 <= sumZ (map f l).
Proof.
  intros H. apply sumZ_nonneg, Forall_forall. intros y Hy.
  apply list_elem_of_fmap in Hy as (x & -> & ?). auto.
Qed.

Lemma sumZ_elem_le {A} (f : A -> Z) l x :
  (forall y, y ∈ l -> 0 <= f y) -> x ∈ l -> f x <= sumZ (map f l).
Proof.
  intros Hpos Hx. apply list_elem_of_split in Hx as (l1 & l2 & ->).
  rewrite map_app, sumZ_app. simpl.
  assert (0 <= sumZ (map f l1)) by (apply sumZ_map_nonneg; set_solver).
  assert (0 <= sumZ (map f l2)) by (apply sumZ_map_nonneg; set_solver).
  lia.
Qed.

Lemma sumZ_filter_le {A} (f : A -> Z) (p : A -> bool) l :
  (forall y, y ∈ l -> 0 <= f y) ->
  sumZ (map f (List.filter p l)) <= sumZ (map f l).
Proof.
  induction l as [|x l IH]; simpl; intros H; [lia|].
  pose proof (H x ltac:(set_solver)). specialize (IH ltac:(set_solver)).
  destruct (p x); simpl; lia.
Qed.

Lemma sumZ_filter_split {A} (f : A -> Z) (p : A -> bool) l :
  sumZ (map f l) = sumZ (map f (List.filter p l))
                   + sumZ (map f (List.filter (fun x => negb (p x)) l)).
Proof. induction l as [|x l IH]; simpl; [lia|]. destruct (p x); simpl; lia. Qed.

Lemma u128_sum_from acc l :
  0 <= acc -> Forall (fun x => 0 <= x) l -> acc + sumZ l <= u128_max ->
  fold_left u128_add l acc = acc + sumZ l.
Proof.
  revert acc. induction l as [|x l IH]; simpl; intros acc Ha Hl Hm; [lia|].
  inversion_clear Hl as [|? ? Hx Hl']. pose proof (sumZ_nonneg _ Hl').
  rewrite u128_add_exact by lia. rewrite IH by (try done; lia). lia.
Qed.

(** A machine sum is exact as long as the total fits. *)
Lemma u128_sum_exact l :
  Forall (fun x => 0 <= x) l -> sumZ l <= u128_max -> u128_sum l = sumZ l.
Proof. intros Hl Hm. unfold u128_sum. rewrite u128_sum_from by (try done; lia). lia. Qed.

(** ** Lemmas on [find] and [update_first] *)

Lemma find_elem {A} (p : A -> bool) l x :
  List.find p l = Some x -> x ∈ l /\ p x = true.
Proof. intros H. apply List.find_some in H as [? ?]. by rewrite list_elem_of_In. Qed.

Lemma find_none_elem {A} (p : A -> bool) l :
  List.find p l = None -> forall x, x ∈ l -> p x = false.
Proof. intros H x Hx. apply (List.find_none p l H). by apply list_elem_of_In. Qed.

Lemma find_none_intro {A} (p : A -> bool) l :
  Forall (fun x => p x = false) l -> List.find p l = None.
Proof. induction 1 as [|x l Hx _ IH]; simpl; [done|]. by rewrite Hx. Qed.

Lemma find_app_l {A} (p : A -> bool) l1 l2 x :
  List.find p l1 = Some x -> List.find p (l1 ++ l2) = Some x.
Proof. induction l1 as [|y l1 IH]; simpl; [done|]. by destruct (p y). Qed.

(** [iter().find_map(f)], and the loops that return the first error. *)
Fixpoint find_map {A E} (f : A -> option E) (l : list A) : option E :=
  match l with
  | [] => None
  | x :: l => match f x with Some e => Some e | None => find_map f l end
  end.

Lemma find_map_none {A E} (f : A -> option E) l :
  find_map f l = None <-> Forall (fun x => f x = None) l.
Proof.
  induction l as [|x l IH]; simpl; [by split|]. destruct (f x) eqn:Ex; rewrite Forall_cons; naive_solver.
Qed.

Lemma find_map_same {A} (p : A -> bool) (g : A -> A) l :
  (forall x, p (g x) = p x) -> List.find p (map g l) = g <$> List.find p l.
Proof. intros H. induction l as [|x l IH]; simpl; [done|]. rewrite H. by destruct (p x). Qed.

Lemma existsb_false_elem {A} (p : A -> bool) l :
  existsb p l = false -> forall x, x ∈ l -> p x = false.
Proof.
  intros H x Hx. destruct (p x) eqn:E; [|done].
  rewrite <- H. symmetry. apply existsb_exists. exists x. by rewrite <- list_elem_of_In.
Qed.

Lemma existsb_true_elem {A} (p : A -> bool) l :
  existsb p l = true -> exists x, x ∈ l /\ p x = true.
Proof. intros (x & Hx & ?)%existsb_exists. exists x. by rewrite list_elem_of_In. Qed.

(** Where the found element sits: everything before it fails the test. *)
Lemma find_split {A} (p : A -> bool) l x :
  List.find p l = Some x ->
  exists l1 l2, l = l1 ++ x :: l2 /\ p x = true /\ Forall (fun y => p y = false) l1.
Proof.
  induction l as [|y l IH]; simpl; [done|]. destruct (p y) eqn:E; intros H.
  - simplify_eq. exists [], l. repeat split; auto.
  - destruct (IH H) as (l1 & l2 & -> & ? & ?). exists (y :: l1), l2. repeat split; auto.
Qed.

Lemma update_first_split {A} (p : A -> bool) f l1 x l2 :
  p x = true -> Forall (fun y => p y = false) l1 ->
  update_first p f (l1 ++ x :: l2) = l1 ++ f x :: l2.
Proof.
  intros Hx. induction 1 as [|y l1 Hy _ IH]; simpl; [by rewrite Hx|]. by rewrite Hy, IH.
Qed.

Lemma update_first_none {A} (p : A -> bool) f l :
  List.find p l = None -> update_first p f l = l.
Proof.
  induction l as [|x l IH]; simpl; [done|]. destruct (p x); [done|].
  intros H. by rewrite IH.
Qed.

Lemma update_first_length {A} (p : A -> bool) f (l : list A) :
  length (update_first p f l) = length l.
Proof. induction l as [|x l IH]; simpl; [done|]. destruct (p x); simpl; auto. Qed.

Lemma find_update_first {A} (p : A -> bool) f l :
  (forall x, p x = true -> p (f x) = true) ->
  List.find p (update_first p f l) = f <$> List.find p l.
Proof.
  intros Hf. induction l as [|x l IH]; simpl; [done|].
  destruct (p x) eqn:E; simpl; [by rewrite Hf|]. by rewrite E.
Qed.

(** A test that the update does not disturb sees the same elements. *)
Lemma find_update_first_other {A} (p q : A -> bool) f l :
  (forall x, p x = true -> q (f x) = q x) -> (forall x, p x = true -> q x = false) ->
  List.find q (update_first p f l) = List.find q l.
Proof.
  intros Hf Hpq. induction l as [|x l IH]; simpl; [done|].
  destruct (p x) eqn:E; simpl.
  - by rewrite Hf, Hpq.
  - by rewrite IH.
Qed.

Lemma update_first_map {A B} (p : A -> bool) f (g : A -> B) l :
  (forall x, p x = true -> g (f x) = g x) -> map g (update_first p f l) = map g l.
Proof.
  intros Hf. induction l as [|x l IH]; simpl; [done|].
  destruct (p x) eqn:E; simpl; [by rewrite Hf|]. by rewrite IH.
Qed.

Lemma update_first_same {A} (p : A -> bool) f l :
  (forall x, f x = x) -> update_first p f l = l.
Proof.
  intros Hf. induction l as [|x l IH]; simpl; [done|]. rewrite Hf. destruct (p x); by rewrite ?IH.
Qed.

Lemma sumZ_update_first {A} (p : A -> bool) f (g : A -> Z) l x :
  List.find p l = Some x ->
  sumZ (map g (update_first p f l)) = sumZ (map g l) - g x + g (f x).
Proof.
  intros H. apply find_split in H as (l1 & l2 & -> & Hx & Hl1).
  rewrite update_first_split by done. rewrite !map_app, !sumZ_app. simpl. lia.
Qed.

Lemma update_first_elem {A} (p : A -> bool) f l y :
  y ∈ update_first p f l -> y ∈ l \/ exists x, x ∈ l /\ p x = true /\ y = f x.
Proof.
  induction l as [|x l IH]; simpl; [by left|].
  destruct (p x) eqn:E; rewrite !elem_of_cons.
  - intros [->|?]; [right; exists x; set_solver|auto].
  - intros [->|?]; [auto|]. destruct IH as [?|(z & ? & ? & ?)]; eauto 6.
    right. exists z. set_solver.
Qed.

Lemma update_first_Forall {A} (P : A -> Prop) (p : A -> bool) f l :
  Forall P l -> (forall x, p x = true -> P x -> P (f x)) -> Forall P (update_first p f l).
Proof.
  intros Hl Hf. induction Hl as [|x l Hx Hl IH]; simpl; [constructor|].
  destruct (p x) eqn:E; constructor; auto.
Qed.

(** When the keys are distinct, the update of the first match is the update of
    every match. *)
Lemma update_first_unique {A K} (key : A -> K) (k : K) (p : A -> bool) f l :
  (forall x, p x = true <-> key x = k) -> NoDup (map key l) ->
  update_first p f l = map (fun x => if p x then f x else x) l.
Proof.
  intros Hp. induction l as [|x l IH]; simpl; [done|]. intros [Hx Hl]%NoDup_cons.
  destruct (p x) eqn:E; [|by rewrite IH].
  f_equal. symmetry. rewrite <- (map_id l) at 2. apply map_ext_in.
  intros y Hy%list_elem_of_In. destruct (p y) eqn:Ey; [|done].
  apply Hp in E, Ey. destruct Hx. rewrite E, <- Ey. by apply list_elem_of_fmap_2.
Qed.

(** With distinct keys a member is the one that is found. *)
Lemma find_unique {A K} (key : A -> K) (k : K) (p : A -> bool) l x :
  (forall x, p x = true <-> key x = k) -> NoDup (map key l) ->
  x ∈ l -> key x = k -> List.find p l = Some x.
Proof.
  intros Hp. induction l as [|y l IH]; simpl; [set_solver|].
  intros [Hy Hl]%NoDup_cons Hx Hk. destruct (p y) eqn:E.
  - apply Hp in E. apply elem_of_cons in Hx as [->|Hx]; [done|].
    destruct Hy. rewrite E, <- Hk. by apply list_elem_of_fmap_2.
  - apply elem_of_cons in Hx as [->|Hx]; [|auto]. apply Hp in Hk. congruence.
Qed.

(** Dropping elements that count for nothing leaves the sum. *)
Lemma sumZ_filter_zero {A} (g : A -> Z) (p : A -> bool) l :
  (forall x, x ∈ l -> p x = false -> g x = 0) ->
  sumZ (map g (List.filter p l)) = sumZ (map g l).
Proof.
  induction l as [|x l IH]; simpl; intros H; [done|].
  assert (IH' := IH ltac:(set_solver)).
  destruct (p x) eqn:E; simpl; [lia|]. rewrite (H x); [lia|set_solver|done].
Qed.

Lemma NoDup_map_filter {A K} (key : A -> K) (p : A -> bool) l :
  NoDup (map key l) -> NoDup (map key (List.filter p l)).
Proof.
  induction l as [|x l IH]; simpl; [done|]. intros [Hx Hl]%NoDup_cons.
  destruct (p x); simpl; [|auto]. apply NoDup_cons; split; [|auto].
  intros Hin. destruct Hx. apply list_elem_of_fmap in Hin as (y & -> & Hy).
  apply list_elem_of_fmap_2. apply list_elem_of_In in Hy. apply list_elem_of_In.
  by apply filter_In in Hy as [? _].
Qed.

Lemma map_id_ext {A} (f : A -> A) l : (forall x, f x = x) -> map f l = l.
Proof. intros H. rewrite (map_ext _ (fun x => x) H). apply map_id. Qed.

Lemma Forall_filter_bool {A} (P : A -> Prop) (p : A -> bool) l :
  Forall P l -> Forall P (List.filter p l).
Proof. induction 1; simpl; [constructor|]. destruct (p x); auto. Qed.

(** ** Lemmas on bytes *)

Lemma bytes_eqb_true a b : bytes_eqb a b = true <-> a = b.
Proof. apply bool_decide_eq_true. Qed.

Lemma bytes_eqb_refl a : bytes_eqb a a = true.
Proof. by apply bytes_eqb_true. Qed.

Lemma bytes_eqb_false a b : bytes_eqb a b = false <-> a <> b.
Proof. apply bool_decide_eq_false. Qed.

Lemma length_le_bytes n z : length (le_bytes n z) = n.
Proof. revert z. induction n as [|n IH]; intros z; simpl; auto. Qed.

Lemma from_le_bytes n z : 0 <= z < 256 ^ Z.of_nat n -> from_le (le_bytes n z) = z.
Proof.
  revert z. induction n as [|n IH]; intros z Hz.
  - simpl in *. lia.
  - cbn [le_bytes from_le]. rewrite Nat2Z.inj_succ, Z.pow_succ_r in Hz by lia.
    rewrite IH.
    + pose proof (Z.div_mod z 256). lia.
    + split; [apply Z.div_pos; lia|]. apply Z.div_lt_upper_bound; lia.
Qed.

Lemma from_le_u128 z : in_u128 z -> from_le (le_bytes 16 z) = z.
Proof. intros [? ?]. apply from_le_bytes. pose proof u128_max_val. change (256 ^ Z.of_nat 16) with (2 ^ 128). lia. Qed.

Lemma from_le_u64 z : in_u64 z -> from_le (le_bytes 8 z) = z.
Proof. intros [? ?]. apply from_le_bytes. pose proof u64_max_val. change (256 ^ Z.of_nat 8) with (2 ^ 64). lia. Qed.

Lemma starts_with_app p b : starts_with p (p ++ b) = true.
Proof. induction p as [|x p IH]; simpl; [done|]. by rewrite Z.eqb_refl, IH. Qed.

Lemma starts_with_spec p b : starts_with p b = true <-> exists c, b = p ++ c.
Proof.
  split; [|intros [c ->]; apply starts_with_app].
  revert b. induction p as [|x p IH]; intros b; simpl; [by exists b|].
  destruct b as [|y b]; [done|]. intros [->%Z.eqb_eq [c ->]%IH]%andb_true_iff. by exists c.
Qed.

Lemma bytes_of_string_app a b :
  bytes_of_string (a +:+ b) = bytes_of_string a ++ bytes_of_string b.
Proof. induction a as [|c a IH]; simpl; [done|]. by rewrite IH. Qed.

(** ** Stable sorting

    [sort_by] and [sort_by_key]: elements that compare equal keep their order. *)
Fixpoint insert_sorted {A} (le : A -> A -> bool) (x : A) (l : list A) : list A :=
  match l with
  | [] => [x]
  | y :: l => if le x y then x :: y :: l else y :: insert_sorted le x l
  end.

Definition stable_sort {A} (le : A -> A -> bool) (l : list A) : list A :=
  foldr (insert_sorted le) [] l.

Lemma insert_sorted_perm {A} (le : A -> A -> bool) x l : insert_sorted le x l ≡ₚ x :: l.
Proof.
  induction l as [|y l IH]; simpl; [done|]. destruct (le x y); [done|]. rewrite IH. constructor.
Qed.

Lemma stable_sort_perm {A} (le : A -> A -> bool) l : stable_sort le l ≡ₚ l.
Proof.
  induction l as [|x l IH]; simpl; [done|]. by rewrite insert_sorted_perm, IH.
Qed.

Section stable_sort.
Context {A : Type} (le : A -> A -> bool).
Context (le_total : forall x y, le x y = true \/ le y x = true)
        (le_trans : forall x y z, le x y = true -> le y z = true -> le x z = true).

Lemma insert_sorted_sorted x l :
  StronglySorted (fun a b => le a b = true) l ->
  StronglySorted (fun a b => le a b = true) (insert_sorted le x l).
Proof.
  induction 1 as [|y l Hs IH Hy]; simpl; [repeat constructor|].
  destruct (le x y) eqn:E.
  - constructor; [by constructor|]. constructor; [done|].
    eapply Forall_impl; [exact Hy|]. intros z Hz. by eapply le_trans.
  - constructor; [done|]. rewrite insert_sorted_perm. constructor; [|done].
    destruct (le_total x y); congruence.
Qed.

Lemma stable_sort_sorted l : StronglySorted (fun a b => le a b = true) (stable_sort le l).
Proof. induction l as [|x l IH]; simpl; [constructor|]. by apply insert_sorted_sorted. Qed.

(** The order of the input does not matter when equal elements are the same. *)
Lemma stable_sort_unique l1 l2 :
  l1 ≡ₚ l2 -> (forall x y, x ∈ l1 -> y ∈ l1 -> le x y = true -> le y x = true -> x = y) ->
  stable_sort le l1 = stable_sort le l2.
Proof.
  intros Hp Ha. apply (StronglySorted_unique_strong (fun a b => le a b = true)).
  - intros x y Hx Hy. rewrite stable_sort_perm in Hx. rewrite stable_sort_perm, <- Hp in Hy. eauto.
  - apply stable_sort_sorted.
  - apply stable_sort_sorted.
  - by rewrite !stable_sort_perm.
Qed.
End stable_sort.
