(* ===== verification/Types.v ===== *)
(** Core data of [crates/solen-types]: identifiers, accounts and their
    authentication methods, user operations, system addresses, receipts, and
    the serialisation interface ([Codec]) behind which [serde_json] and
    [borsh] stay. *)

From stdpp Require Export pretty.
From S2P Require Import Prelude.
Open Scope Z_scope.

(** ** Identifiers ([solen-types/src/lib.rs]) *)

Abbreviation Hash := (list Z) (only parsing).
Abbreviation AccountId := (list Z) (only parsing).
Abbreviation ValidatorId := (list Z) (only parsing).
Abbreviation RollupId := Z (only parsing).

(** [[0u8; 32]]. *)
Definition zero_hash : Hash := replicate 32 0.

(** ** Accounts ([solen-types/src/account.rs]) *)

Inductive AuthMethod : Type :=
| Passkey (credential_id : bytes) (public_key_x public_key_y : bytes)
          (rp_id : string) (origins : list string)
| Ed25519 (public_key : bytes)
| Threshold (signers : list bytes) (threshold : Z)
| Guardian (guardian_id : AccountId)
| Session (session_key : bytes) (expires_at : u64) (spending_limit budget_total : u128)
          (allowed_targets : list AccountId) (allowed_methods : list string)
          (restrict_subcalls : bool)
| MlDsa (ml_public_key : bytes)
| Hybrid (ed25519_public_key ml_dsa_public_key : bytes).

#[export] Instance AuthMethod_eq_dec : EqDecision AuthMethod.
Proof. solve_decision. Defined.

Record Account : Type := mkAccount {
  acc_id : AccountId;
  code_hash : Hash;
  auth_methods : list AuthMethod;
  nonce : u64;
  balance : u128;
}.

#[export] Instance Account_eq_dec : EqDecision Account.
Proof. solve_decision. Defined.

Definition set_balance (b : u128) (a : Account) : Account :=
  mkAccount (acc_id a) (code_hash a) (auth_methods a) (nonce a) b.
Definition set_nonce (n : u64) (a : Account) : Account :=
  mkAccount (acc_id a) (code_hash a) (auth_methods a) n (balance a).
Definition set_auth_methods (m : list AuthMethod) (a : Account) : Account :=
  mkAccount (acc_id a) (code_hash a) m (nonce a) (balance a).

(** The account several calls create when the recipient does not exist:
    no code, no authentication method, nonce 0. *)
Definition bare_account (id : AccountId) (b : u128) : Account :=
  mkAccount id zero_hash [] 0 b.

(** ** Operations ([solen-types/src/transaction.rs]) *)

Inductive Action : Type :=
| Transfer (to : AccountId) (amount : u128)
| Call (target : AccountId) (method : string) (args : bytes)
| Deploy (code : bytes) (salt : bytes)
| SetAuth (new_methods : list AuthMethod).

Record UserOperation : Type := mkUserOperation {
  op_sender : AccountId;
  op_nonce : u64;
  op_actions : list Action;
  op_max_fee : u128;
  op_signature : bytes;
}.

(** ** Receipts ([solen-execution/src/receipt.rs]) *)

Record Event : Type := mkEvent {
  emitter : AccountId;
  topic : bytes;
  data : bytes;
}.

Record ExecutionReceipt : Type := mkReceipt {
  r_sender : AccountId;
  r_nonce : u64;
  r_success : bool;
  r_gas_used : u64;
  r_error : option string;
  r_events : list Event;
  r_auth_method : string;
}.

(** ** System addresses ([solen-types/src/system.rs]) *)

Definition addr (id : u8) : AccountId := replicate 31 255 ++ [id].

Definition STAKING_ADDRESS : AccountId := addr 1.
Definition GOVERNANCE_ADDRESS : AccountId := addr 2.
Definition BRIDGE_ADDRESS : AccountId := addr 3.
Definition TREASURY_ADDRESS : AccountId := addr 4.
Definition INTENT_ADDRESS : AccountId := addr 5.
Definition VESTING_ADDRESS : AccountId := addr 6.
Definition PAYMASTER_REGISTRY_ADDRESS : AccountId := addr 7.
Definition GUARDIAN_ADDRESS : AccountId := addr 8.
Definition STAKING_POOL_ADDRESS : AccountId := addr 16.
Definition TEAM_POOL_ADDRESS : AccountId := addr 35.

(** [id[..30] == [0xFF; 30]]. *)
Definition is_system_contract (id : AccountId) : bool :=
  bytes_eqb (take 30 id) (replicate 30 255).

(** [format!("{b:02x}")] of every byte. *)
Definition hex_digit (d : Z) : Ascii.ascii :=
  Ascii.ascii_of_nat (Z.to_nat (if d <? 10 then 48 + d else 87 + d)).
Definition hex_encode (b : bytes) : string :=
  String.concat "" (map (fun x => String (hex_digit (x / 16)) (String (hex_digit (x mod 16)) "")) b).

Lemma addr_inj i j : addr i = addr j -> i = j.
Proof. unfold addr. intros H. by simplify_list_eq. Qed.

Lemma addr_is_system i : is_system_contract (addr i) = true.
Proof. reflexivity. Qed.

(** The identifiers of the examples. *)
Definition demo_key (n : Z) : bytes := replicate 32 n.

(** ** Serialisation

    [serde_json] (contract states) and [borsh] (accounts, undo records) are
    libraries; the model takes them as a pair of functions per type. [ser]
    is [to_vec], which may fail, and [de] is [from_slice]; [ser_error] and
    [de_error] are the texts of their errors. *)
Class Codec (A : Type) : Type := {
  ser : A -> option bytes;
  de : bytes -> option A;
  ser_error : A -> string;
  de_error : bytes -> string;
}.

(** The documented round trip: a value of a plain data type serialises, and
    parsing what was written gives the value back. *)
Class CodecLaws (A : Type) `{!Codec A} : Prop := {
  ser_de : forall a, exists b, ser a = Some b /\ de b = Some a;
}.
