(* ===== verification/Store.v ===== *)
(** The key-value stores of [crates/solen-storage]: the [StateStore] trait as
    a class with its laws ([traits.rs]), staged change sets and their atomic
    application, and the sorted maps the backends are built on. *)

From S2P Require Import Prelude Types.
Open Scope Z_scope.

(** ** The trait ([traits.rs]) *)

(** Every backend modelled here is infallible, so the [Result] of the trait
    methods is left out; the [let _ =] and [if let Ok] of the callers are then
    the success branch. *)
Class StateStore (S : Type) : Type := {
  Savepoint : Type;
  st_get : S -> bytes -> option bytes;
  st_put : S -> bytes -> bytes -> S;
  st_delete : S -> bytes -> S;
  st_state_root : S -> Hash;
  st_commit_root : S -> S;
  st_savepoint : S -> Savepoint;
  st_restore : S -> Savepoint -> S;
  st_scan_prefix : S -> bytes -> list (bytes * bytes);
  st_scan_all : S -> list (bytes * bytes);
}.

(** What a client of the trait relies on. *)
Class StateStoreLaws (S : Type) `{!StateStore S} : Prop := {
  get_put_eq : forall s k v, st_get (st_put s k v) k = Some v;
  get_put_ne : forall s k k' v, k <> k' -> st_get (st_put s k v) k' = st_get s k';
  get_delete_eq : forall s k, st_get (st_delete s k) k = None;
  get_delete_ne : forall s k k', k <> k' -> st_get (st_delete s k) k' = st_get s k';
  get_commit_root : forall s k, st_get (st_commit_root s) k = st_get s k;
  get_restore : forall s s' k, st_get (st_restore s' (st_savepoint s)) k = st_get s k;
}.

(** Scans agree with point reads on the states the operations produce, which
    [st_inv] describes. *)
Class StateStoreScanLaws (S : Type) `{!StateStore S} : Type := {
  st_inv : S -> Prop;
  inv_put : forall s k v, st_inv s -> st_inv (st_put s k v);
  inv_delete : forall s k, st_inv s -> st_inv (st_delete s k);
  inv_commit_root : forall s, st_inv s -> st_inv (st_commit_root s);
  inv_restore : forall s s', st_inv s -> st_inv s' -> st_inv (st_restore s' (st_savepoint s));
  scan_prefix_spec : forall s p k v, st_inv s ->
    (k, v) ∈ st_scan_prefix s p <-> starts_with p k = true /\ st_get s k = Some v;
  scan_all_spec : forall s k v, st_inv s -> (k, v) ∈ st_scan_all s <-> st_get s k = Some v;
}.

#[export] Hint Rewrite @get_put_eq @get_delete_eq @get_commit_root @get_restore
  using typeclasses eauto : machine.

(** Two stores hold the same bindings. This is the equality of stores the
    protocol sees; caches and overlay layers are below it. *)
Definition store_eq {S1 S2} `{!StateStore S1} `{!StateStore S2} (s1 : S1) (s2 : S2) : Prop :=
  forall k, st_get s1 k = st_get s2 k.

(** A set of staged changes: [Some v] writes, [None] deletes. *)
Abbreviation Changes := (gmap bytes (option bytes)).

Section batch.
Context {S : Type} `{!StateStore S}.

(** [apply_batch_atomic]: one change after the other, in the order of the
    hash map. *)
Definition apply_change (k : bytes) (v : option bytes) (s : S) : S :=
  match v with
  | Some v => st_put s k v
  | None => st_delete s k
  end.

Definition apply_batch (changes : Changes) (s : S) : S :=
  map_fold apply_change s changes.

Context `{!StateStoreLaws S}.

Lemma get_apply_change k v s k' :
  st_get (apply_change k v s) k' = if decide (k = k') then v else st_get s k'.
Proof.
  unfold apply_change. destruct v as [v|], (decide (k = k')) as [->|Hne];
    auto using get_put_eq, get_put_ne, get_delete_eq, get_delete_ne.
Qed.

Lemma get_apply_batch changes s k :
  st_get (apply_batch changes s) k
  = match changes !! k with Some v => v | None => st_get s k end.
Proof.
  unfold apply_batch.
  apply (map_fold_weak_ind (fun r m =>
    st_get r k = match m !! k with Some v => v | None => st_get s k end)); [done|].
  intros i x m r Hi IH. rewrite get_apply_change, lookup_insert.
  destruct (decide (i = k)); [done|]. exact IH.
Qed.

(** The store after a batch depends on the bindings only. *)
Lemma apply_batch_eq changes s1 s2 :
  store_eq s1 s2 -> store_eq (apply_batch changes s1) (apply_batch changes s2).
Proof. intros H k. rewrite !get_apply_batch. by rewrite (H k). Qed.
End batch.

#[export] Instance store_eq_equiv {S} `{!StateStore S} : Equivalence (@store_eq S S _ _).
Proof. split; [by intros s k|by intros s1 s2 H k|by intros s1 s2 s3 H1 H2 k; rewrite H1]. Qed.

(** ** Contract records

    Every system contract keeps its whole state as one serialised record under
    a key of its own; [load] falls back to the default when the key is absent
    or does not parse, and [save] writes only if the record serialises. *)
Section records.
Context {S : Type} `{!StateStore S} {A : Type} `{!Codec A}.

Definition load_record (key : bytes) (dflt : A) (s : S) : A :=
  match st_get s key with
  | Some data => default dflt (de data)
  | None => dflt
  end.

Definition save_record (key : bytes) (a : A) (s : S) : S :=
  match ser a with
  | Some data => st_put s key data
  | None => s
  end.

Context `{!StateStoreLaws S} `{!CodecLaws A}.

Lemma load_save key dflt a s : load_record key dflt (save_record key a s) = a.
Proof.
  unfold load_record, save_record. destruct (ser_de a) as (b & -> & Hb).
  by rewrite get_put_eq, Hb.
Qed.

Lemma get_save_ne key key' a s : key <> key' -> st_get (save_record key a s) key' = st_get s key'.
Proof. intros H. unfold save_record. destruct (ser a); [by apply get_put_ne|done]. Qed.

Lemma load_get_eq key dflt s1 s2 :
  st_get s1 key = st_get s2 key -> load_record key dflt s1 = load_record key dflt s2.
Proof. unfold load_record. by intros ->. Qed.
End records.

(** ** Sorted maps *)

(** Lexicographic order of byte strings, the order of [BTreeMap<Vec<u8>, _>]. *)
Fixpoint bytes_leb (a b : bytes) : bool :=
  match a, b with
  | [], _ => true
  | _ :: _, [] => false
  | x :: a, y :: b => (x <? y) || ((x =? y) && bytes_leb a b)
  end.

Definition key_le {V} (x y : bytes * V) : Prop := bytes_leb (fst x) (fst y) = true.

#[export] Instance key_le_dec {V} (x y : bytes * V) : Decision (key_le x y).
Proof. unfold key_le. apply _. Defined.

(** The entries of a [BTreeMap] in key order. *)
Definition btree_entries {V} (m : gmap bytes V) : list (bytes * V) :=
  merge_sort key_le (map_to_list m).

Fixpoint drop_below {V} (p : bytes) (l : list (bytes * V)) : list (bytes * V) :=
  match l with
  | [] => []
  | x :: l' => if bytes_leb p (fst x) then l else drop_below p l'
  end.

Fixpoint take_prefix {V} (p : bytes) (l : list (bytes * V)) : list (bytes * V) :=
  match l with
  | [] => []
  | x :: l => if starts_with p (fst x) then x :: take_prefix p l else []
  end.

(** [map.range(prefix..).take_while(|(k, _)| k.starts_with(prefix))]. *)
Definition btree_range_prefix {V} (p : bytes) (m : gmap bytes V) : list (bytes * V) :=
  take_prefix p (drop_below p (btree_entries m)).

Lemma bytes_leb_trans a b c :
  bytes_leb a b = true -> bytes_leb b c = true -> bytes_leb a c = true.
Proof.
  revert b c. induction a as [|x a IH]; intros [|y b] [|z c]; simpl; try done.
  rewrite !orb_true_iff, !andb_true_iff, !Z.ltb_lt, !Z.eqb_eq.
  intros [?|[-> ?]] [?|[-> ?]]; eauto; left; lia.
Qed.

Lemma bytes_leb_total a b : bytes_leb a b = true \/ bytes_leb b a = true.
Proof.
  revert b. induction a as [|x a IH]; intros [|y b]; simpl; auto.
  rewrite !orb_true_iff, !andb_true_iff, !Z.ltb_lt, !Z.eqb_eq.
  destruct (Z.lt_trichotomy x y) as [?|[->|?]]; auto. destruct (IH b); auto.
Qed.

#[export] Instance key_le_trans {V} : Transitive (@key_le V).
Proof. intros x y z. apply bytes_leb_trans. Qed.

#[export] Instance key_le_total {V} : Total (@key_le V).
Proof. intros x y. apply bytes_leb_total. Qed.

Lemma prefix_leb p k : starts_with p k = true -> bytes_leb p k = true.
Proof.
  revert k. induction p as [|x p IH]; intros [|y k]; simpl; try done.
  intros [-> ?]%andb_true_iff. rewrite IH by done. by rewrite orb_true_r.
Qed.

(** Past the keys with a prefix, no later key has it. *)
Lemma prefix_interval p k k' :
  bytes_leb p k = true -> starts_with p k = false -> bytes_leb k k' = true ->
  starts_with p k' = false.
Proof.
  revert k k'. induction p as [|x p IH]; intros [|y k] [|z k']; simpl; try done.
  rewrite !orb_true_iff, !andb_true_iff, !andb_false_iff, !Z.ltb_lt, !Z.eqb_eq, !Z.eqb_neq.
  intros [?|[-> ?]] [?|?] [?|[-> ?]]; try lia; auto; try (left; lia). right. eauto.
Qed.

Lemma btree_entries_elem {V} (m : gmap bytes V) (k : bytes) (v : V) :
  (k, v) ∈ btree_entries m <-> m !! k = Some v.
Proof.
  unfold btree_entries. rewrite (merge_sort_Permutation key_le (map_to_list m)).
  apply elem_of_map_to_list.
Qed.

Lemma btree_entries_sorted {V} (m : gmap bytes V) :
  StronglySorted key_le (btree_entries m).
Proof. apply StronglySorted_merge_sort; apply _. Qed.

Lemma drop_below_elem {V} p (l : list (bytes * V)) x :
  StronglySorted key_le l ->
  x ∈ drop_below p l <-> x ∈ l /\ bytes_leb p (fst x) = true.
Proof.
  induction 1 as [|y l Hs IH Hy]; simpl; [set_solver|].
  destruct (bytes_leb p (fst y)) eqn:E.
  - split; [|tauto]. intros Hx. split; [done|].
    apply elem_of_cons in Hx as [->|Hx]; [done|].
    rewrite Forall_forall in Hy. eapply bytes_leb_trans; [exact E|]. by apply Hy.
  - rewrite IH, elem_of_cons. split; [tauto|]. intros [[->|?] ?]; [congruence|tauto].
Qed.

Lemma drop_below_sorted {V} p (l : list (bytes * V)) :
  StronglySorted key_le l -> StronglySorted key_le (drop_below p l).
Proof.
  induction 1 as [|y l Hs IH Hy]; simpl; [constructor|].
  destruct (bytes_leb p (fst y)); [by constructor|done].
Qed.

Lemma take_prefix_elem {V} p (l : list (bytes * V)) x :
  StronglySorted key_le l -> Forall (fun y => bytes_leb p (fst y) = true) l ->
  x ∈ take_prefix p l <-> x ∈ l /\ starts_with p (fst x) = true.
Proof.
  induction 1 as [|y l Hs IH Hy]; intros Hp; simpl; [set_solver|].
  inversion_clear Hp as [|? ? Hpy Hpl]. rewrite Forall_forall in Hy.
  destruct (starts_with p (fst y)) eqn:E; rewrite !elem_of_cons.
  - rewrite IH by done. split; [intros [->|?]; tauto|tauto].
  - split; [set_solver|]. intros [[->|Hx] Hsx]; [congruence|].
    rewrite (prefix_interval p (fst y) (fst x)) in Hsx; [done|done|done|]. by apply Hy.
Qed.

(** The range scan the stores use returns exactly the keys with the prefix. *)
Lemma btree_range_prefix_elem {V} (p : bytes) (m : gmap bytes V) (k : bytes) (v : V) :
  (k, v) ∈ btree_range_prefix p m <-> starts_with p k = true /\ m !! k = Some v.
Proof.
  unfold btree_range_prefix. pose proof (btree_entries_sorted m) as Hs.
  rewrite take_prefix_elem; [|by apply drop_below_sorted|].
  2:{ apply Forall_forall. intros x. rewrite drop_below_elem by done. tauto. }
  rewrite drop_below_elem by done. rewrite btree_entries_elem. simpl.
  split; [tauto|]. intros [? ?]. auto using prefix_leb.
Qed.
