(* ===== verification/Memory.v ===== *)
(** The in-memory backend of [crates/solen-storage]: sorted map, leaf hashes,
    cached Merkle root ([memory.rs]), and the incremental Merkle tree
    ([merkle.rs]). The hash function is a parameter. *)

From S2P Require Import Prelude Types Store.
Open Scope Z_scope.

(** ** Merkle roots ([memory.rs]) *)

Section memory.
(** [blake3::Hasher]: one [update] per slice and [finalize], that is the hash
    of the concatenation. *)
Context (blake3 : bytes -> Hash).

Definition hash_leaf (key value : bytes) : Hash := blake3 (key ++ value).

(** Keys left out of the state root. *)
Definition is_non_state_key (key : bytes) : bool :=
  starts_with (bytes_of_string "block/") key
  || starts_with (bytes_of_string "__chain_meta__") key
  || starts_with (bytes_of_string "__chain_id__") key
  || starts_with (bytes_of_string "slash/") key
  || starts_with (bytes_of_string "source/") key
  || starts_with (bytes_of_string "__finalized_checkpoint__") key
  || starts_with (bytes_of_string "__last_attestation__") key
  || starts_with (bytes_of_string "__eager_revert__/") key.

(** One round of the bottom-up loop: hash pairs, promote an odd last node. *)
Fixpoint merkle_level (current : list Hash) : list Hash :=
  match current with
  | a :: b :: rest => blake3 (a ++ b) :: merkle_level rest
  | rest => rest
  end.

Fixpoint merkle_loop (fuel : nat) (current : list Hash) : list Hash :=
  match fuel with
  | O => current
  | S fuel => if (1 <? length current)%nat then merkle_loop fuel (merkle_level current)
              else current
  end.

Definition merkle_root (leaves : list Hash) : Hash :=
  match leaves with
  | [] => zero_hash
  | [x] => x
  | _ => match merkle_loop (length leaves) leaves with
         | x :: _ => x
         | [] => zero_hash
         end
  end.

(** *** The store *)

Record MemoryStore : Type := mkMemoryStore {
  mem_data : gmap bytes bytes;
  leaf_hashes : gmap bytes Hash;
  tree_cache : option Hash;
}.

Definition mem_new : MemoryStore := mkMemoryStore ∅ ∅ None.

Definition mem_get (s : MemoryStore) (key : bytes) : option bytes := mem_data s !! key.

Definition mem_put (s : MemoryStore) (key value : bytes) : MemoryStore :=
  let leaf_hash := hash_leaf key value in
  let is_new_key := match leaf_hashes s !! key with Some _ => false | None => true end in
  let value_changed := match leaf_hashes s !! key with
                       | Some h => negb (bytes_eqb h leaf_hash)
                       | None => true
                       end in
  mkMemoryStore (<[key := value]> (mem_data s)) (<[key := leaf_hash]> (leaf_hashes s))
    (if is_new_key then None else if value_changed then None else tree_cache s).

Definition mem_delete (s : MemoryStore) (key : bytes) : MemoryStore :=
  match mem_data s !! key with
  | Some _ => mkMemoryStore (delete key (mem_data s)) (delete key (leaf_hashes s)) None
  | None => s
  end.

(** The leaves of the tree, in key order, without the non-state keys. *)
Definition state_leaves (lh : gmap bytes Hash) : list Hash :=
  map snd (List.filter (fun kv => negb (is_non_state_key (fst kv))) (btree_entries lh)).

Definition mem_compute_root (s : MemoryStore) : Hash :=
  if bool_decide (leaf_hashes s = ∅) then zero_hash
  else match state_leaves (leaf_hashes s) with
       | [] => zero_hash
       | leaves => merkle_root leaves
       end.

Definition mem_state_root (s : MemoryStore) : Hash :=
  match tree_cache s with
  | Some root => root
  | None => mem_compute_root s
  end.

Definition mem_commit_root (s : MemoryStore) : MemoryStore :=
  match tree_cache s with
  | Some _ => s
  | None => mkMemoryStore (mem_data s) (leaf_hashes s) (Some (mem_compute_root s))
  end.

Definition mem_snapshot (s : MemoryStore) : MemoryStore :=
  mkMemoryStore (mem_data s) (leaf_hashes s) None.

Definition mem_scan_prefix (s : MemoryStore) (prefix : bytes) : list (bytes * bytes) :=
  btree_range_prefix prefix (mem_data s).

Definition mem_scan_all (s : MemoryStore) : list (bytes * bytes) := btree_entries (mem_data s).

(** [delete_prefix]: the removed keys and their count. *)
Definition mem_delete_prefix (s : MemoryStore) (prefix : bytes) : MemoryStore * nat :=
  let keys := map fst (btree_range_prefix prefix (mem_data s)) in
  let d := foldl (fun m k => delete k m) (mem_data s) keys in
  let lh := foldl (fun m k => delete k m) (leaf_hashes s) keys in
  (mkMemoryStore d lh (if (0 <? length keys)%nat then None else tree_cache s), length keys).

(** The trait's default [restore_savepoint] on a [Full] savepoint. *)
Definition mem_restore (s snap : MemoryStore) : MemoryStore :=
  let snap_entries := mem_scan_all snap in
  let snap_keys := map fst snap_entries in
  let s1 := foldl (fun s kv => if bool_decide (fst kv ∈ snap_keys) then s
                               else mem_delete s (fst kv)) s (mem_scan_all s) in
  foldl (fun s kv => mem_put s (fst kv) (snd kv)) s1 snap_entries.

#[export] Instance memory_store : StateStore MemoryStore := {|
  Savepoint := MemoryStore;
  st_get := mem_get;
  st_put := mem_put;
  st_delete := mem_delete;
  st_state_root := mem_state_root;
  st_commit_root := mem_commit_root;
  st_savepoint := mem_snapshot;
  st_restore := mem_restore;
  st_scan_prefix := mem_scan_prefix;
  st_scan_all := mem_scan_all;
|}.

(** *** The incremental tree ([merkle.rs]) *)

(** [merkle_root_from_leaves]: split in two halves at [n / 2]; the recursion
    is on the length, a fuel of [length leaves] is enough. *)
Fixpoint merkle_root_from_leaves_fuel (fuel : nat) (leaves : list Hash) : Hash :=
  match fuel with
  | O => zero_hash
  | S fuel =>
      match leaves with
      | [] => zero_hash
      | [x] => x
      | _ => let mid := (length leaves / 2)%nat in
             blake3 (merkle_root_from_leaves_fuel fuel (take mid leaves)
                     ++ merkle_root_from_leaves_fuel fuel (drop mid leaves))
      end
  end.

Definition merkle_root_from_leaves (leaves : list Hash) : Hash :=
  merkle_root_from_leaves_fuel (length leaves) leaves.

Record IncrementalMerkle : Type := mkIncrementalMerkle {
  inc_root_hash : option Hash;
  inc_dirty : bool;
  inc_entries : gmap bytes Hash;
  inc_dirty_keys : list bytes;
}.

Definition inc_new : IncrementalMerkle := mkIncrementalMerkle (Some zero_hash) false ∅ [].

Definition inc_insert (m : IncrementalMerkle) (key value : bytes) : IncrementalMerkle :=
  let value_hash := blake3 (key ++ value) in
  let changed := match inc_entries m !! key with
                 | Some h => negb (bytes_eqb h value_hash)
                 | None => true
                 end in
  mkIncrementalMerkle (inc_root_hash m) (changed || inc_dirty m)
    (<[key := value_hash]> (inc_entries m))
    (if changed then inc_dirty_keys m ++ [key] else inc_dirty_keys m).

Definition inc_remove (m : IncrementalMerkle) (key : bytes) : IncrementalMerkle :=
  match inc_entries m !! key with
  | Some _ => mkIncrementalMerkle (inc_root_hash m) true (delete key (inc_entries m))
                (inc_dirty_keys m ++ [key])
  | None => m
  end.

(** The recomputation [root] does when dirty. *)
Definition inc_compute (m : IncrementalMerkle) : Hash :=
  if bool_decide (inc_entries m = ∅) then zero_hash
  else merkle_root_from_leaves (map snd (btree_entries (inc_entries m))).

Definition inc_root (m : IncrementalMerkle) : Hash * IncrementalMerkle :=
  if inc_dirty m then
    let root := inc_compute m in
    (root, mkIncrementalMerkle (Some root) false (inc_entries m) [])
  else (match inc_root_hash m with Some r => r | None => zero_hash end, m).

(** ** Lemmas *)

(** *** Representation invariant *)

(** The leaf hashes are those of the data, and a cached root is the root of
    the leaves. *)
Definition mem_wf (s : MemoryStore) : Prop :=
  leaf_hashes s = map_imap (fun k v => Some (hash_leaf k v)) (mem_data s) /\
  (forall r, tree_cache s = Some r -> r = mem_compute_root s).

Lemma leaf_lookup s k :
  mem_wf s -> leaf_hashes s !! k = hash_leaf k <$> mem_data s !! k.
Proof. intros [-> _]. rewrite map_lookup_imap. by destruct (mem_data s !! k). Qed.

Lemma mem_compute_root_leaves s1 s2 :
  leaf_hashes s1 = leaf_hashes s2 -> mem_compute_root s1 = mem_compute_root s2.
Proof. unfold mem_compute_root. by intros ->. Qed.

Lemma mem_new_wf : mem_wf mem_new.
Proof. split; simpl; [by rewrite map_imap_empty|done]. Qed.

Lemma mem_put_wf s k v : mem_wf s -> mem_wf (mem_put s k v).
Proof.
  intros Hwf. pose proof (leaf_lookup s k Hwf) as Hk. destruct Hwf as [Hl Hc].
  unfold mem_put. split; simpl.
  - rewrite map_imap_insert. by rewrite Hl.
  - intros r Hr. destruct (leaf_hashes s !! k) as [h|] eqn:E; [|done].
    destruct (bytes_eqb h (hash_leaf k v)) eqn:Eh; simpl in Hr; [|done].
    prop_bool. subst h. rewrite (Hc r Hr). apply mem_compute_root_leaves. simpl.
    by rewrite insert_id.
Qed.

Lemma mem_delete_wf s k : mem_wf s -> mem_wf (mem_delete s k).
Proof.
  intros [Hl Hc]. unfold mem_delete. destruct (mem_data s !! k); [|done].
  split; simpl; [|done]. rewrite map_imap_delete. by rewrite Hl.
Qed.

Lemma mem_commit_root_wf s : mem_wf s -> mem_wf (mem_commit_root s).
Proof.
  intros Hwf. unfold mem_commit_root. destruct (tree_cache s) eqn:E; [done|]. destruct Hwf as [Hl _].
  split; simpl; [done|]. intros r [= <-]. by apply mem_compute_root_leaves.
Qed.

Lemma mem_state_root_wf s : mem_wf s -> mem_state_root s = mem_compute_root s.
Proof. intros [_ Hc]. unfold mem_state_root. destruct (tree_cache s); auto. Qed.

(** *** The store laws *)

Lemma mem_get_put_eq s k v : mem_get (mem_put s k v) k = Some v.
Proof. unfold mem_get, mem_put. simpl. apply lookup_insert_eq. Qed.

Lemma mem_get_put_ne s k k' v : k <> k' -> mem_get (mem_put s k v) k' = mem_get s k'.
Proof. intros. unfold mem_get, mem_put. simpl. by apply lookup_insert_ne. Qed.

Lemma mem_get_delete s k k' :
  mem_get (mem_delete s k) k' = if decide (k = k') then None else mem_get s k'.
Proof.
  unfold mem_get, mem_delete. destruct (mem_data s !! k) eqn:E; simpl.
  - rewrite lookup_delete. done.
  - destruct (decide (k = k')) as [->|]; done.
Qed.

Lemma mem_get_commit_root s k : mem_get (mem_commit_root s) k = mem_get s k.
Proof. unfold mem_get, mem_commit_root. by destruct (tree_cache s). Qed.

(** Deleting the entries of [l] that are not among [keep]. *)
Lemma mem_delete_others_get (keep : list bytes) (l : list (bytes * bytes)) s k :
  mem_get (foldl (fun s kv => if bool_decide (fst kv ∈ keep) then s
                              else mem_delete s (fst kv)) s l) k
  = if bool_decide (k ∈ keep) then mem_get s k
    else if bool_decide (k ∈ map fst l) then None else mem_get s k.
Proof.
  revert s. induction l as [|[k0 v0] l IH]; intros s; simpl.
  - by destruct (bool_decide (k ∈ keep)).
  - rewrite IH. clear IH. destruct (bool_decide (k ∈ keep)) eqn:Hk; prop_bool.
    + case_bool_decide; [done|]. rewrite mem_get_delete. destruct (decide (k0 = k)); set_solver.
    + destruct (bool_decide (k ∈ map fst l)) eqn:Hl; prop_bool.
      * rewrite bool_decide_eq_true_2; [done|set_solver].
      * case_bool_decide as Hk0.
        -- destruct (bool_decide (k ∈ k0 :: map fst l)) eqn:Hc; prop_bool; [set_solver|done].
        -- rewrite mem_get_delete. destruct (decide (k0 = k)) as [->|].
           ++ rewrite bool_decide_eq_true_2; [done|set_solver].
           ++ rewrite bool_decide_eq_false_2; [done|set_solver].
Qed.

(** Re-inserting the entries of [l], whose keys are distinct. *)
Lemma mem_put_all_get (l : list (bytes * bytes)) s k :
  NoDup (map fst l) ->
  mem_get (foldl (fun s kv => mem_put s (fst kv) (snd kv)) s l) k
  = match list_to_map (M := gmap bytes bytes) l !! k with Some v => Some v | None => mem_get s k end.
Proof.
  revert s. induction l as [|[k0 v0] l IH]; intros s Hnd; simpl in *; [by rewrite lookup_empty|].
  inversion_clear Hnd as [|? ? Hk0 Hl]. rewrite IH by done. clear IH.
  destruct (decide (k0 = k)) as [->|Hne].
  - rewrite lookup_insert_eq, not_elem_of_list_to_map_1 by done. apply mem_get_put_eq.
  - rewrite lookup_insert_ne by done. by rewrite mem_get_put_ne.
Qed.

Lemma btree_entries_NoDup {V} (m : gmap bytes V) : NoDup (map fst (btree_entries m)).
Proof.
  unfold btree_entries. rewrite (merge_sort_Permutation key_le (map_to_list m)).
  apply NoDup_fst_map_to_list.
Qed.

Lemma btree_entries_map {V} (m : gmap bytes V) : list_to_map (btree_entries m) = m.
Proof.
  rewrite <- (list_to_map_to_list m) at 2. symmetry.
  apply list_to_map_proper; [apply NoDup_fst_map_to_list|].
  symmetry. apply merge_sort_Permutation.
Qed.

Lemma btree_entries_keys {V} (m : gmap bytes V) k :
  k ∈ map fst (btree_entries m) <-> is_Some (m !! k).
Proof.
  rewrite list_elem_of_fmap. split.
  - intros ([k' v] & -> & H). apply btree_entries_elem in H. eauto.
  - intros [v H]. exists (k, v). by rewrite btree_entries_elem.
Qed.

Lemma mem_get_restore s s' k : mem_get (mem_restore s' (mem_snapshot s)) k = mem_get s k.
Proof.
  unfold mem_restore, mem_scan_all. simpl.
  rewrite mem_put_all_get by apply btree_entries_NoDup. rewrite btree_entries_map.
  destruct (mem_data s !! k) as [v|] eqn:E; [by unfold mem_get|].
  rewrite mem_delete_others_get. rewrite bool_decide_eq_false_2.
  2:{ rewrite btree_entries_keys, E. by intros [? ?]. }
  unfold mem_get in *. rewrite E. case_bool_decide as H; [done|].
  rewrite btree_entries_keys in H. by rewrite eq_None_not_Some.
Qed.

#[export] Instance mem_laws : @StateStoreLaws MemoryStore memory_store.
Proof.
  split; simpl.
  - apply mem_get_put_eq.
  - apply mem_get_put_ne.
  - intros s k. rewrite mem_get_delete. by destruct (decide (k = k)).
  - intros s k k' ?. rewrite mem_get_delete. by destruct (decide (k = k')).
  - apply mem_get_commit_root.
  - apply mem_get_restore.
Qed.

#[export] Instance mem_scan_laws : @StateStoreScanLaws MemoryStore memory_store.
Proof.
  refine {| st_inv := fun _ => True |}; simpl; auto.
  - intros. apply btree_range_prefix_elem.
  - intros. apply btree_entries_elem.
Defined.

(** *** The root as a function of the bindings *)

Lemma foldl_inv {A B} (P : A -> Prop) (f : A -> B -> A) l a :
  P a -> (forall a b, P a -> P (f a b)) -> P (foldl f a l).
Proof. revert a. induction l as [|b l IH]; simpl; auto. Qed.

Lemma foldl_delete_lookup {V} (keys : list bytes) (m : gmap bytes V) k :
  foldl (fun m k => delete k m) m keys !! k
  = if bool_decide (k ∈ keys) then None else m !! k.
Proof.
  revert m. induction keys as [|k0 keys IH]; intros m; simpl; [done|].
  rewrite IH, lookup_delete.
  destruct (decide (k0 = k)) as [->|]; repeat case_bool_decide; set_solver.
Qed.

Lemma mem_delete_prefix_wf s p : mem_wf s -> mem_wf (fst (mem_delete_prefix s p)).
Proof.
  intros [Hl Hc]. unfold mem_delete_prefix. set (keys := map fst _). split; simpl.
  - apply map_eq. intros k. rewrite map_lookup_imap, !foldl_delete_lookup.
    case_bool_decide; [done|]. by rewrite Hl, map_lookup_imap.
  - intros r Hr. destruct keys as [|k0 keys']; simpl in Hr; [|done].
    rewrite (Hc r Hr). by apply mem_compute_root_leaves.
Qed.

Lemma mem_snapshot_wf s : mem_wf s -> mem_wf (mem_snapshot s).
Proof. by intros [Hl _]. Qed.

Lemma mem_restore_wf s snap : mem_wf s -> mem_wf (mem_restore s snap).
Proof.
  intros Hwf. unfold mem_restore. apply foldl_inv; [|auto using mem_put_wf].
  apply foldl_inv; [done|]. intros s' kv ?. case_bool_decide; auto using mem_delete_wf.
Qed.

(** The stores a node can hold: what the operations build from the empty one. *)
Inductive mem_reachable : MemoryStore -> Prop :=
| reach_new : mem_reachable mem_new
| reach_put s k v : mem_reachable s -> mem_reachable (mem_put s k v)
| reach_delete s k : mem_reachable s -> mem_reachable (mem_delete s k)
| reach_delete_prefix s p : mem_reachable s -> mem_reachable (fst (mem_delete_prefix s p))
| reach_commit s : mem_reachable s -> mem_reachable (mem_commit_root s)
| reach_snapshot s : mem_reachable s -> mem_reachable (mem_snapshot s)
| reach_restore s snap :
    mem_reachable s -> mem_reachable snap -> mem_reachable (mem_restore s snap).

Lemma mem_reachable_wf s : mem_reachable s -> mem_wf s.
Proof.
  induction 1; auto using mem_new_wf, mem_put_wf, mem_delete_wf, mem_delete_prefix_wf,
    mem_commit_root_wf, mem_snapshot_wf, mem_restore_wf.
Qed.

Lemma filter_StronglySorted {A} (R : relation A) (p : A -> bool) l :
  StronglySorted R l -> StronglySorted R (List.filter p l).
Proof.
  induction 1 as [|x l Hs IH Hx]; simpl; [constructor|].
  destruct (p x); [|done]. constructor; [done|].
  rewrite Forall_forall in *. intros y [Hy _]%list_elem_of_In%List.filter_In.
  apply Hx. by apply list_elem_of_In.
Qed.

Lemma bytes_leb_antisym a b : bytes_leb a b = true -> bytes_leb b a = true -> a = b.
Proof.
  revert b. induction a as [|x a IH]; intros [|y b]; simpl; try done.
  rewrite !orb_true_iff, !andb_true_iff, !Z.ltb_lt, !Z.eqb_eq.
  intros [?|[-> ?]] [?|[? ?]]; try lia. f_equal. auto.
Qed.

Lemma state_entry_elem (m : gmap bytes Hash) (k : bytes) (h : Hash) :
  (k, h) ∈ List.filter (fun kv => negb (is_non_state_key (fst kv))) (btree_entries m)
  <-> m !! k = Some h /\ is_non_state_key k = false.
Proof.
  rewrite list_elem_of_In, List.filter_In, <- list_elem_of_In, btree_entries_elem.
  by rewrite negb_true_iff.
Qed.

(** Two leaf maps that agree on the state keys have the same leaves. *)
Lemma state_leaves_agree (m1 m2 : gmap bytes Hash) :
  (forall k, is_non_state_key k = false -> m1 !! k = m2 !! k) ->
  state_leaves m1 = state_leaves m2.
Proof.
  intros Hag. unfold state_leaves. f_equal.
  assert (Hmem : forall x,
    x ∈ List.filter (fun kv => negb (is_non_state_key (fst kv))) (btree_entries m1)
    <-> x ∈ List.filter (fun kv => negb (is_non_state_key (fst kv))) (btree_entries m2)).
  { intros [k h]. rewrite !state_entry_elem. split; intros [? Hk]; split; auto.
    - by rewrite <- Hag.
    - by rewrite Hag. }
  apply (StronglySorted_unique_strong key_le).
  - intros [k h] [k' h'] [H1 Hk]%state_entry_elem [H2 _]%state_entry_elem Hle Hge.
    pose proof (bytes_leb_antisym k k' Hle Hge). subst k'.
    rewrite Hag in H1 by done. congruence.
  - apply filter_StronglySorted, btree_entries_sorted.
  - apply filter_StronglySorted, btree_entries_sorted.
  - apply NoDup_Permutation; [| |done]; rewrite NoDup_ListNoDup; apply List.NoDup_filter;
      rewrite <- NoDup_ListNoDup; eapply NoDup_fmap_1, btree_entries_NoDup.
Qed.

Lemma mem_compute_root_alt s :
  mem_compute_root s = match state_leaves (leaf_hashes s) with
                       | [] => zero_hash
                       | leaves => merkle_root leaves
                       end.
Proof. unfold mem_compute_root. case_bool_decide as E; [by rewrite E|done]. Qed.

Lemma mem_root_agree s1 s2 :
  mem_reachable s1 -> mem_reachable s2 ->
  (forall k, is_non_state_key k = false -> mem_get s1 k = mem_get s2 k) ->
  mem_state_root s1 = mem_state_root s2.
Proof.
  intros H1%mem_reachable_wf H2%mem_reachable_wf Hag.
  rewrite !mem_state_root_wf, !mem_compute_root_alt by done.
  rewrite (state_leaves_agree (leaf_hashes s1) (leaf_hashes s2)); [done|].
  intros k Hk. unfold mem_get in Hag. rewrite !leaf_lookup by done. by rewrite Hag.
Qed.

(** C20: the state root of a store is a function of the bindings of its state
    keys alone: whatever sequence of puts, deletes, prefix deletes, commits,
    snapshots and rollbacks produced them, and whether or not a root is
    cached, two stores with equal bindings on the keys that are part of the
    state have the same root. *)
Theorem mem_root_of_bindings s1 s2 :
  mem_reachable s1 -> mem_reachable s2 ->
  (forall k, is_non_state_key k = false -> mem_get s1 k = mem_get s2 k) ->
  mem_state_root s1 = mem_state_root s2.
Proof. apply mem_root_agree. Qed.

(** *** The bottom-up loop *)

Lemma merkle_level_length l : length (merkle_level l) = ((length l + 1) / 2)%nat.
Proof.
  induction l as [l IH] using (induction_ltof1 _ (@length Hash)). unfold ltof in IH.
  destruct l as [|a [|b l]]; [done|done|]. cbn [merkle_level length].
  rewrite IH by (simpl; lia).
  replace (S (S (length l)) + 1)%nat with (length l + 1 + 1 * 2)%nat by lia.
  rewrite Nat.div_add by lia. lia.
Qed.

Lemma merkle_loop_one n l :
  l <> [] -> (length l <= n)%nat -> length (merkle_loop n l) = 1%nat.
Proof.
  revert l. induction n as [|n IH]; intros l Hl Hn.
  - destruct l; [done|]. simpl in Hn. lia.
  - cbn [merkle_loop]. destruct (Nat.ltb_spec 1 (length l)) as [Hlt|Hge].
    + pose proof (merkle_level_length l) as Hlen.
      assert (1 <= (length l + 1) / 2 <= n)%nat
        by (pose proof (Nat.div_mod_eq (length l + 1) 2);
            pose proof (Nat.mod_upper_bound (length l + 1) 2); lia).
      apply IH; [|lia]. intros E%(f_equal length). change (length (@nil Hash)) with 0%nat in E. lia.
    + destruct l as [|x [|y l]]; [done|done|]. simpl in Hge. lia.
Qed.

(** The bottom-up Merkle loop terminates for every non-empty list of
    leaves: a number of rounds bounded by the number of leaves leaves exactly
    one node, which is the root returned. *)
Theorem merkle_root_terminates leaves :
  leaves <> [] ->
  exists root, merkle_loop (length leaves) leaves = [root] /\ merkle_root leaves = root.
Proof.
  intros Hl. pose proof (merkle_loop_one (length leaves) leaves Hl (Nat.le_refl _)) as H1.
  destruct (merkle_loop (length leaves) leaves) as [|r [|? ?]] eqn:E; try done.
  exists r. split; [done|]. unfold merkle_root.
  destruct leaves as [|x [|y l]]; [done| |by rewrite E]. simpl in E. congruence.
Qed.

(** The leaf hash does not separate the key from the value, so whatever
    the hash function, a store that binds "a" to "bc" and a store that binds
    "ab" to "c" have different contents and the same state root. *)
Theorem state_root_leaf_ambiguity :
  let s1 := mem_put mem_new (bytes_of_string "a") (bytes_of_string "bc") in
  let s2 := mem_put mem_new (bytes_of_string "ab") (bytes_of_string "c") in
  mem_get s1 (bytes_of_string "a") <> mem_get s2 (bytes_of_string "a") /\
  mem_state_root s1 = mem_state_root s2.
Proof. split; [done|]. reflexivity. Qed.

(** *** The incremental tree *)

Definition inc_wf (m : IncrementalMerkle) : Prop :=
  inc_dirty m = false -> inc_root_hash m = Some (inc_compute m).

Lemma inc_compute_entries m1 m2 :
  inc_entries m1 = inc_entries m2 -> inc_compute m1 = inc_compute m2.
Proof. unfold inc_compute. by intros ->. Qed.

Lemma inc_insert_wf m k v : inc_wf m -> inc_wf (inc_insert m k v).
Proof.
  intros Hwf. unfold inc_wf, inc_insert. cbn -[inc_compute].
  destruct (inc_entries m !! k) as [h|] eqn:E; [|done].
  destruct (bytes_eqb h (blake3 (k ++ v))) eqn:Eh; [|done]. prop_bool. simpl. intros Hd.
  rewrite (Hwf Hd). f_equal. apply inc_compute_entries. simpl. subst h. by rewrite insert_id.
Qed.

Lemma inc_remove_wf m k : inc_wf m -> inc_wf (inc_remove m k).
Proof. intros Hwf. unfold inc_wf, inc_remove. by destruct (inc_entries m !! k). Qed.

Inductive inc_reachable : IncrementalMerkle -> Prop :=
| inc_reach_new : inc_reachable inc_new
| inc_reach_insert m k v : inc_reachable m -> inc_reachable (inc_insert m k v)
| inc_reach_remove m k : inc_reachable m -> inc_reachable (inc_remove m k)
| inc_reach_root m : inc_reachable m -> inc_reachable (snd (inc_root m)).

Lemma inc_reachable_wf m : inc_reachable m -> inc_wf m.
Proof.
  induction 1 as [| | |m ? IH]; auto using inc_insert_wf, inc_remove_wf; [done|].
  unfold inc_root. destruct (inc_dirty m) eqn:E; simpl; [|done].
  by intros _.
Qed.

(** The incremental Merkle tree answers the root a full recomputation
    over its current entries gives, after any sequence of inserts, removals
    and root queries, and a query changes no entry. *)
Theorem inc_root_correct m :
  inc_reachable m ->
  fst (inc_root m) = inc_compute m /\ inc_entries (snd (inc_root m)) = inc_entries m.
Proof.
  intros Hwf%inc_reachable_wf. unfold inc_root. destruct (inc_dirty m) eqn:E; [done|].
  split; [|done]. simpl. by rewrite (Hwf E).
Qed.
End memory.

(** ** Witnesses *)

Lemma mem_root_of_bindings_witness :
  let h := fun b : bytes => b in
  let s1 := mem_put h (mem_put h mem_new (bytes_of_string "a") [1]) (bytes_of_string "block/7") [9] in
  let s2 := mem_commit_root h (mem_put h (mem_delete (mem_put h mem_new (bytes_of_string "b") [2])
              (bytes_of_string "b")) (bytes_of_string "a") [1]) in
  mem_get s1 (bytes_of_string "block/7") <> mem_get s2 (bytes_of_string "block/7") /\
  mem_state_root h s1 = mem_state_root h s2.
Proof.
  split; [done|]. apply mem_root_of_bindings.
  - repeat constructor.
  - repeat constructor.
  - intros k Hk. destruct (decide (k = bytes_of_string "block/7")) as [->|H7]; [done|].
    rewrite mem_get_commit_root. rewrite mem_get_put_ne by done.
    destruct (decide (bytes_of_string "a" = k)) as [<-|Ha]; [by rewrite !mem_get_put_eq|].
    rewrite !mem_get_put_ne, mem_get_delete by done.
    destruct (decide (bytes_of_string "b" = k)) as [|]; [|by rewrite mem_get_put_ne].
    done.
Defined.

Lemma merkle_root_terminates_witness :
  exists root, merkle_loop (fun b => b) 3 [[1]; [2]; [3]] = [root]
               /\ merkle_root (fun b => b) [[1]; [2]; [3]] = root.
Proof. by apply (merkle_root_terminates (fun b => b) [[1]; [2]; [3]]). Defined.

Lemma inc_root_correct_witness :
  let m := inc_insert (fun b => b) inc_new [1] [2] in
  fst (inc_root (fun b => b) m) = inc_compute (fun b => b) m
  /\ inc_entries (snd (inc_root (fun b => b) m)) = inc_entries m.
Proof. apply inc_root_correct. repeat constructor. Defined.
