(* ===== verification/Rocks.v ===== *)
(** The persistent backend ([crates/solen-storage/src/rocks.rs]): the store on
    RocksDB with its cached root, read-only checkpoints, atomic batches and the
    restoring of a checkpoint. RocksDB itself is a parameter, the class
    [RocksDb] with the laws [RocksDbLaws]; every operation can fail. The theorems
    compare the store with the one in memory, operation by operation. *)

From S2P Require Import Prelude Types Store Memory.
Open Scope Z_scope.

(** ** The database *)

(** One entry of an iterator, which can be unreadable. *)
Abbreviation Item := (result (bytes * bytes) string).
(** A write batch: puts and deletions in order. *)
Abbreviation Batch := (list (bytes * option bytes)).

Class RocksDb : Type := {
  DB : Type;
  db_get : DB -> bytes -> result (option bytes) string;
  db_put : DB -> bytes -> bytes -> DB * result unit string;
  db_delete : DB -> bytes -> DB * result unit string;
  (** [write] and [write_opt], with the flag that syncs the log. *)
  db_write : DB -> Batch -> bool -> DB * result unit string;
  (** [iterator(IteratorMode::Start)]. *)
  db_iterate : DB -> list Item;
  (** [prefix_iterator], which without a prefix extractor seeks to the key. *)
  db_prefix_iterate : DB -> bytes -> list Item;
  (** [Checkpoint::new], and [create_checkpoint]: the database in the new
      directory. *)
  db_checkpoint_new : DB -> result unit string;
  db_checkpoint : DB -> result DB string;
}.

Definition apply_write (m : gmap bytes bytes) (w : bytes * option bytes) : gmap bytes bytes :=
  match snd w with Some v => <[fst w := v]> m | None => delete (fst w) m end.

Definition item_ok (i : Item) : bool := match i with Ok _ => true | Err _ => false end.

(** What the documentation of RocksDB says of operations that succeed; a batch
    that fails has no effect. *)
Class RocksDbLaws {rdb : RocksDb} : Type := {
  contents : DB -> gmap bytes bytes;
  db_get_ok : forall d k r, db_get d k = Ok r -> r = contents d !! k;
  db_put_ok : forall d k v d', db_put d k v = (d', Ok tt) -> contents d' = <[k := v]> (contents d);
  db_delete_ok : forall d k d', db_delete d k = (d', Ok tt) -> contents d' = delete k (contents d);
  db_write_ok : forall d b y d', db_write d b y = (d', Ok tt) -> contents d' = foldl apply_write (contents d) b;
  db_write_err : forall d b y d' e, db_write d b y = (d', Err e) -> contents d' = contents d;
  db_iterate_ok : forall d, forallb item_ok (db_iterate d) = true -> db_iterate d = map Ok (btree_entries (contents d));
  db_prefix_ok : forall d p, forallb item_ok (db_prefix_iterate d p) = true ->
    db_prefix_iterate d p = map Ok (drop_below p (btree_entries (contents d)));
  db_checkpoint_ok : forall d d', db_checkpoint d = Ok d' -> contents d' = contents d;
}.

(** No operation fails, and every entry of an iterator can be read. *)
Class RocksDbHealthy {rdb : RocksDb} : Prop := {
  iterate_works : forall d, forallb item_ok (db_iterate d) = true;
  prefix_works : forall d p, forallb item_ok (db_prefix_iterate d p) = true;
  get_works : forall d k, exists r, db_get d k = Ok r;
  put_works : forall d k v, snd (db_put d k v) = Ok tt;
  delete_works : forall d k, snd (db_delete d k) = Ok tt;
  write_works : forall d b y, snd (db_write d b y) = Ok tt;
}.

(** ** The store *)

Inductive StorageError : Type := NotFound | Backend (msg : string).

Definition backend {T} (r : result T string) : result T StorageError :=
  match r with Ok t => Ok t | Err e => Err (Backend e) end.
Definition backend_at {T} (what : string) (r : result T string) : result T StorageError :=
  match r with Ok t => Ok t | Err e => Err (Backend (what +:+ ": " +:+ e)) end.

(** [filter_map(|item| item.ok())]. *)
Definition readable (items : list Item) : list (bytes * bytes) :=
  omap (fun i : Item => match i with Ok kv => Some kv | Err _ => None end) items.

Section rocks.
Context (blake3 : bytes -> Hash) {rdb : RocksDb}.

Record RocksStore : Type := mkRocks { rs_db : DB; rs_cached_root : option Hash }.

(** [DB::open], then the store without a root. *)
Definition rocks_open (opened : result DB string) : result RocksStore StorageError :=
  match backend opened with Ok db => Ok (mkRocks db None) | Err e => Err e end.

Definition invalidate_root_cache (rs : RocksStore) : RocksStore := mkRocks (rs_db rs) None.

(** The loop over the database; [None] is the panic on an unreadable entry. *)
Fixpoint collect_leaves (items : list Item) : option (list Hash) :=
  match items with
  | [] => Some []
  | Err _ :: _ => None
  | Ok (k, v) :: items =>
    if is_non_state_key k then collect_leaves items
    else leaves ← collect_leaves items; Some (blake3 (k ++ v) :: leaves)
  end.
(** The function [merkle_root] of the file: the inner loop over the pairs, with
    an odd leaf promoted, and the outer one, of which every round but the last
    shortens the list. *)
Fixpoint rocks_level (current : list Hash) : list Hash :=
  match current with
  | a :: b :: rest => blake3 (a ++ b) :: rocks_level rest
  | rest => rest
  end.
Fixpoint rocks_levels (fuel : nat) (current : list Hash) : list Hash :=
  match fuel with
  | O => current
  | S fuel => if (1 <? length current)%nat then rocks_levels fuel (rocks_level current) else current
  end.
Definition rocks_merkle_root (leaves : list Hash) : Hash :=
  match leaves with
  | [] => zero_hash
  | [x] => x
  | _ => match rocks_levels (length leaves) leaves with x :: _ => x | [] => zero_hash end
  end.
Definition compute_state_root (rs : RocksStore) : option Hash :=
  rocks_merkle_root <$> collect_leaves (db_iterate (rs_db rs)).

Definition rocks_get (rs : RocksStore) (key : bytes) : result (option bytes) StorageError :=
  backend (db_get (rs_db rs) key).
Definition rocks_put (rs : RocksStore) (key value : bytes) : RocksStore * result unit StorageError :=
  let rs := invalidate_root_cache rs in
  let '(db, r) := db_put (rs_db rs) key value in
  (mkRocks db (rs_cached_root rs), backend r).
Definition rocks_delete (rs : RocksStore) (key : bytes) : RocksStore * result unit StorageError :=
  let rs := invalidate_root_cache rs in
  let '(db, r) := db_delete (rs_db rs) key in
  (mkRocks db (rs_cached_root rs), backend r).

Definition rocks_state_root (rs : RocksStore) : option (RocksStore * Hash) :=
  match rs_cached_root rs with
  | Some root => Some (rs, root)
  | None => root ← compute_state_root rs; Some (mkRocks (rs_db rs) (Some root), root)
  end.
Definition rocks_commit_root (rs : RocksStore) : option RocksStore :=
  match rs_cached_root rs with
  | Some _ => Some rs
  | None => root ← compute_state_root rs; Some (mkRocks (rs_db rs) (Some root))
  end.

(** The changes in the order in which the hash map is enumerated. *)
Definition rocks_apply_batch (rs : RocksStore) (changes : Batch) (sync : bool) :
    RocksStore * result unit StorageError :=
  if bool_decide (changes = []) then (rs, Ok tt)
  else
  let rs := invalidate_root_cache rs in
  let '(db, r) := db_write (rs_db rs) changes sync in
  (mkRocks db (rs_cached_root rs), backend r).

Definition rocks_len (rs : RocksStore) : nat := length (db_iterate (rs_db rs)).
Definition rocks_scan_prefix (rs : RocksStore) (prefix : bytes) : list (bytes * bytes) :=
  take_prefix prefix (readable (db_prefix_iterate (rs_db rs) prefix)).
Definition rocks_scan_all (rs : RocksStore) : list (bytes * bytes) := readable (db_iterate (rs_db rs)).

(** Deletions one by one, up to the first that fails. *)
Fixpoint delete_keys (db : DB) (keys : list bytes) : DB * result unit StorageError :=
  match keys with
  | [] => (db, Ok tt)
  | k :: keys =>
    let '(db, r) := db_delete db k in
    match backend r with Ok _ => delete_keys db keys | Err e => (db, Err e) end
  end.
Definition rocks_delete_prefix (rs : RocksStore) (prefix : bytes) : RocksStore * result nat StorageError :=
  let keys := map fst (rocks_scan_prefix rs prefix) in
  let count := length keys in
  let rs := if (0 <? count)%nat then invalidate_root_cache rs else rs in
  let '(db, r) := delete_keys (rs_db rs) keys in
  (mkRocks db (rs_cached_root rs), match r with Ok _ => Ok count | Err e => Err e end).

(** The trait's [clear] through [delete]. *)
Fixpoint clear_keys (rs : RocksStore) (keys : list bytes) : RocksStore * result unit StorageError :=
  match keys with
  | [] => (rs, Ok tt)
  | k :: keys =>
    let '(rs, r) := rocks_delete rs k in
    match r with Ok _ => clear_keys rs keys | Err e => (rs, Err e) end
  end.
Definition rocks_clear (rs : RocksStore) : RocksStore * result unit StorageError :=
  clear_keys rs (map fst (rocks_scan_all rs)).

(** ** Checkpoints *)

Definition make_checkpoint (rs : RocksStore) : result DB StorageError :=
  let! _ := backend_at "checkpoint create" (db_checkpoint_new (rs_db rs)) in
  backend_at "checkpoint write" (db_checkpoint (rs_db rs)).
Definition create_checkpoint_at (rs : RocksStore) : result DB StorageError := make_checkpoint rs.

Definition RESTORE_BATCH : nat := Z.to_nat 10000.

(** The loop that streams the checkpoint, with the batch under construction. *)
Fixpoint restore_loop (items : list Item) (batch : Batch) (db : DB) : DB * result Batch StorageError :=
  match items with
  | [] => (db, Ok batch)
  | Err e :: _ => (db, Err (Backend e))
  | Ok (k, v) :: items =>
    let batch := batch ++ [(k, Some v)] in
    if (RESTORE_BATCH <=? length batch)%nat then
      let '(db, r) := db_write db batch false in
      match backend r with Ok _ => restore_loop items [] db | Err e => (db, Err e) end
    else restore_loop items batch db
  end.
Definition restore_from_checkpoint (opened : result DB string) (rs : RocksStore) :
    RocksStore * result unit StorageError :=
  match backend_at "checkpoint open" opened with
  | Err e => (rs, Err e)
  | Ok src =>
    let '(rs, r) := rocks_clear rs in
    match r with
    | Err e => (rs, Err e)
    | Ok _ =>
      let '(db, r) := restore_loop (db_iterate src) [] (rs_db rs) in
      match r with
      | Err e => (mkRocks db (rs_cached_root rs), Err e)
      | Ok batch =>
        let '(db, r) := db_write db batch false in
        match backend r with
        | Err e => (mkRocks db (rs_cached_root rs), Err e)
        | Ok _ => (invalidate_root_cache (mkRocks db (rs_cached_root rs)), Ok tt)
        end
      end
    end
  end.

(** [CheckpointStore]: the same reads, unreadable entries left out. *)
Definition cp_get (cp : DB) (key : bytes) : result (option bytes) StorageError := backend (db_get cp key).
Definition cp_put (cp : DB) (key value : bytes) : result unit StorageError := Err (Backend "checkpoint is read-only").
Definition cp_delete (cp : DB) (key : bytes) : result unit StorageError := Err (Backend "checkpoint is read-only").
Definition cp_state_root (cp : DB) : Hash :=
  rocks_merkle_root (map (fun kv => blake3 (fst kv ++ snd kv))
    (List.filter (fun kv => negb (is_non_state_key (fst kv))) (readable (db_iterate cp)))).
(** A copy in memory. *)
Definition copy_to_memory (items : list Item) : MemoryStore :=
  foldl (fun m kv => mem_put blake3 m (fst kv) (snd kv)) mem_new (readable items).
Definition cp_snapshot (cp : DB) : MemoryStore := copy_to_memory (db_iterate cp).
Definition cp_len (cp : DB) : nat := length (db_iterate cp).
Definition cp_scan_prefix (cp : DB) (prefix : bytes) : list (bytes * bytes) :=
  take_prefix prefix (readable (db_prefix_iterate cp prefix)).
Definition cp_scan_all (cp : DB) : list (bytes * bytes) := readable (db_iterate cp).

(** A snapshot is a checkpoint or, where none can be made, a copy in memory.
    The outcome of making the temporary directory and the opening of the
    checkpoint in it are arguments. *)
Inductive Snapshot : Type := SnapCheckpoint (cp : DB) | SnapMemory (m : MemoryStore).
Definition rocks_checkpoint (tempdir : result unit string) (opened : DB -> result DB string) (rs : RocksStore) :
    result DB StorageError :=
  let! _ := backend_at "checkpoint tempdir" tempdir in
  let! dir := make_checkpoint rs in
  backend_at "checkpoint open" (opened dir).
Definition rocks_snapshot (tempdir : result unit string) (opened : DB -> result DB string) (rs : RocksStore) :
    Snapshot :=
  match rocks_checkpoint tempdir opened rs with
  | Ok cp => SnapCheckpoint cp
  | Err _ => SnapMemory (copy_to_memory (db_iterate (rs_db rs)))
  end.
End rocks.
