(* ===== verification/RocksLaws.v ===== *)
(** The persistent store against the one in memory: the same answers and the
    same roots, operation by operation; batches that fail have no effect; a
    restored checkpoint is the store it was made of. *)

From S2P Require Import Prelude Types Store Memory Rocks.
Open Scope Z_scope.

(** ** The root of a database *)

Section laws.
Context (blake3 : bytes -> Hash) {rdb : RocksDb} {laws : RocksDbLaws}.
Implicit Types (rs : RocksStore) (ms : MemoryStore) (d : DB).

(** The root of a set of bindings: the leaves of the state keys in key order. *)
Definition root_of (m : gmap bytes bytes) : Hash :=
  merkle_root blake3 (map (fun kv => hash_leaf blake3 (fst kv) (snd kv))
    (List.filter (fun kv => negb (is_non_state_key (fst kv))) (btree_entries m))).

(** The two files hash the leaves in the same tree. *)
Lemma rocks_merkle_root_eq leaves : rocks_merkle_root blake3 leaves = merkle_root blake3 leaves.
Proof.
  assert (H1 : forall l, rocks_level blake3 l = merkle_level blake3 l) by reflexivity.
  assert (H2 : forall n l, rocks_levels blake3 n l = merkle_loop blake3 n l).
  { induction n as [|n IH]; intros l; [done|]. cbn [rocks_levels merkle_loop]. by rewrite H1, IH. }
  unfold rocks_merkle_root, merkle_root. by rewrite H2.
Qed.

Lemma readable_ok l : readable (map Ok l) = l.
Proof. induction l as [|x l IH]; [done|]. cbn. by f_equal. Qed.

Lemma iterate_readable d : forallb item_ok (db_iterate d) = true -> readable (db_iterate d) = btree_entries (contents d).
Proof. intros H. rewrite db_iterate_ok by done. apply readable_ok. Qed.

Lemma collect_leaves_ok l :
  collect_leaves blake3 (map Ok l)
  = Some (map (fun kv => hash_leaf blake3 (fst kv) (snd kv)) (List.filter (fun kv => negb (is_non_state_key (fst kv))) l)).
Proof.
  induction l as [|[k v] l IH]; [done|]. cbn [map collect_leaves List.filter fst]. rewrite IH.
  by destruct (is_non_state_key k).
Qed.

Lemma collect_leaves_some items leaves : collect_leaves blake3 items = Some leaves -> forallb item_ok items = true.
Proof.
  revert leaves. induction items as [|[[k v]|e] items IH]; intros leaves; [done| |done]. cbn [collect_leaves forallb item_ok].
  destruct (is_non_state_key k); [apply IH|]. destruct (collect_leaves blake3 items); [|done]. intros _. by eapply IH.
Qed.

(** A root that is returned is the root of the contents. *)
Lemma compute_root_ok rs root : compute_state_root blake3 rs = Some root -> root = root_of (contents (rs_db rs)).
Proof.
  unfold compute_state_root. destruct (collect_leaves _ _) as [leaves|] eqn:E; [|done]. intros [= <-].
  pose proof (collect_leaves_some _ _ E) as Hok. rewrite db_iterate_ok, collect_leaves_ok in E by done.
  injection E as <-. apply rocks_merkle_root_eq.
Qed.

Lemma compute_root_works rs :
  forallb item_ok (db_iterate (rs_db rs)) = true -> compute_state_root blake3 rs = Some (root_of (contents (rs_db rs))).
Proof.
  intros H. unfold compute_state_root. rewrite db_iterate_ok, collect_leaves_ok by done. cbn.
  by rewrite rocks_merkle_root_eq.
Qed.

(** ** The root in memory *)

Definition hashed_entry (kv : bytes * bytes) : bytes * Hash := (fst kv, hash_leaf blake3 (fst kv) (snd kv)).

Lemma sorted_hashed l : StronglySorted key_le l -> StronglySorted key_le (map hashed_entry l).
Proof.
  induction 1 as [|x l Hs IH Hx]; cbn [map]; constructor; [done|]. apply Forall_map.
  eapply Forall_impl; [exact Hx|]. done.
Qed.

Lemma entries_hashed (m : gmap bytes bytes) :
  btree_entries (map_imap (fun k v => Some (hash_leaf blake3 k v)) m) = map hashed_entry (btree_entries m).
Proof.
  apply (StronglySorted_unique_strong key_le).
  - intros [k h] [k' h'] H1 H2 Hle Hge. pose proof (bytes_leb_antisym k k' Hle Hge). subst k'.
    apply btree_entries_elem in H1. apply list_elem_of_fmap in H2 as ([k2 v] & E & H2). injection E as -> ->.
    apply btree_entries_elem in H2. rewrite map_lookup_imap, H2 in H1. by injection H1 as <-.
  - apply btree_entries_sorted.
  - apply sorted_hashed, btree_entries_sorted.
  - apply NoDup_Permutation.
    + eapply NoDup_fmap_1, btree_entries_NoDup.
    + eapply (NoDup_fmap_1 fst). change (NoDup (map fst (map hashed_entry (btree_entries m)))).
      rewrite map_map. apply btree_entries_NoDup.
    + intros [k h]. rewrite btree_entries_elem, map_lookup_imap. split.
      * destruct (m !! k) as [v|] eqn:E; [|done]. intros [= <-]. apply list_elem_of_fmap. exists (k, v).
        split; [done|]. by apply btree_entries_elem.
      * intros ([k' v] & [= -> ->] & Hk)%list_elem_of_fmap. apply btree_entries_elem in Hk. by rewrite Hk.
Qed.

Lemma filter_hashed l :
  List.filter (fun kv => negb (is_non_state_key (fst kv))) (map hashed_entry l)
  = map hashed_entry (List.filter (fun kv => negb (is_non_state_key (fst kv))) l).
Proof. induction l as [|[k v] l IH]; [done|]. cbn. rewrite IH. by destruct (is_non_state_key k). Qed.

Lemma mem_root ms : mem_wf blake3 ms -> mem_state_root blake3 ms = root_of (mem_data ms).
Proof.
  intros Hw. rewrite mem_state_root_wf, mem_compute_root_alt by done. destruct Hw as [Hl _].
  assert (E : state_leaves (leaf_hashes ms) = map (fun kv => hash_leaf blake3 (fst kv) (snd kv))
    (List.filter (fun kv => negb (is_non_state_key (fst kv))) (btree_entries (mem_data ms)))).
  { unfold state_leaves. rewrite Hl, entries_hashed, filter_hashed, map_map. done. }
  rewrite E. unfold root_of. by destruct (map _ _).
Qed.

(** ** Runs of both backends *)

(** A call of the storage trait, and its answer. *)
Inductive StoreOp : Type :=
| OpGet (k : bytes) | OpPut (k v : bytes) | OpDelete (k : bytes) | OpRoot | OpCommit
| OpBatch (changes : Batch) (sync : bool) | OpScan (p : bytes) | OpScanAll | OpLen
| OpDeletePrefix (p : bytes) | OpClear.
Inductive Answer : Type :=
| ADone | AValue (v : option bytes) | ARoot (h : Hash) | AEntries (l : list (bytes * bytes)) | ACount (n : nat).
(** An error that is returned, or a panic. *)
Inductive Failure : Type := Returned (e : StorageError) | Panicked.

(** In memory nothing fails; batches and [clear] are those of the trait. *)
Definition mem_apply_change ms (w : bytes * option bytes) : MemoryStore :=
  match snd w with Some v => mem_put blake3 ms (fst w) v | None => mem_delete ms (fst w) end.
Definition mem_step (op : StoreOp) ms : MemoryStore * Answer :=
  match op with
  | OpGet k => (ms, AValue (mem_get ms k))
  | OpPut k v => (mem_put blake3 ms k v, ADone)
  | OpDelete k => (mem_delete ms k, ADone)
  | OpRoot => (ms, ARoot (mem_state_root blake3 ms))
  | OpCommit => (mem_commit_root blake3 ms, ADone)
  | OpBatch changes _ => (foldl mem_apply_change ms changes, ADone)
  | OpScan p => (ms, AEntries (mem_scan_prefix ms p))
  | OpScanAll => (ms, AEntries (mem_scan_all ms))
  | OpLen => (ms, ACount (length (mem_scan_all ms)))
  | OpDeletePrefix p => let '(ms, n) := mem_delete_prefix ms p in (ms, ACount n)
  | OpClear => (foldl mem_delete ms (map fst (mem_scan_all ms)), ADone)
  end.

Definition answered {T} (f : T -> Answer) (x : RocksStore * result T StorageError) : RocksStore * (Answer + Failure) :=
  (fst x, match snd x with Ok t => inl (f t) | Err e => inr (Returned e) end).
Definition rocks_step (op : StoreOp) rs : RocksStore * (Answer + Failure) :=
  match op with
  | OpGet k => answered AValue (rs, rocks_get rs k)
  | OpPut k v => answered (fun _ => ADone) (rocks_put rs k v)
  | OpDelete k => answered (fun _ => ADone) (rocks_delete rs k)
  | OpRoot => match rocks_state_root blake3 rs with
              | Some (rs, h) => (rs, inl (ARoot h))
              | None => (rs, inr Panicked)
              end
  | OpCommit => match rocks_commit_root blake3 rs with Some rs => (rs, inl ADone) | None => (rs, inr Panicked) end
  | OpBatch changes sync => answered (fun _ => ADone) (rocks_apply_batch rs changes sync)
  | OpScan p => (rs, inl (AEntries (rocks_scan_prefix rs p)))
  | OpScanAll => (rs, inl (AEntries (rocks_scan_all rs)))
  | OpLen => (rs, inl (ACount (rocks_len rs)))
  | OpDeletePrefix p => answered ACount (rocks_delete_prefix rs p)
  | OpClear => answered (fun _ => ADone) (rocks_clear rs)
  end.

(** The answers up to the first failure. *)
Fixpoint mem_run (ops : list StoreOp) ms : MemoryStore * list Answer :=
  match ops with
  | [] => (ms, [])
  | op :: ops => let '(ms, a) := mem_step op ms in let '(ms, l) := mem_run ops ms in (ms, a :: l)
  end.
Fixpoint rocks_run (ops : list StoreOp) rs : RocksStore * list Answer * option Failure :=
  match ops with
  | [] => (rs, [], None)
  | op :: ops =>
    match rocks_step op rs with
    | (rs, inl a) => let '(rs, l, f) := rocks_run ops rs in (rs, a :: l, f)
    | (rs, inr f) => (rs, [], Some f)
    end
  end.

(** Whether the database can read every entry that the call takes from an
    iterator and skips where it cannot; the root panics instead. *)
Definition call_reads (op : StoreOp) rs : bool :=
  match op with
  | OpScan p | OpDeletePrefix p => forallb item_ok (db_prefix_iterate (rs_db rs) p)
  | OpScanAll | OpLen | OpClear => forallb item_ok (db_iterate (rs_db rs))
  | _ => true
  end.
(** The number of calls before the first in which the database fails, whether
    the call reports it or not. *)
Fixpoint intact (ops : list StoreOp) rs : nat :=
  match ops with
  | [] => 0
  | op :: ops =>
    if call_reads op rs
    then match rocks_step op rs with (rs, inl _) => S (intact ops rs) | (_, inr _) => 0 end
    else 0
  end.

(** *** The simulation *)

Definition cache_ok rs : Prop :=
  match rs_cached_root rs with Some root => root = root_of (contents (rs_db rs)) | None => True end.
Record sim rs ms : Prop := {
  sim_contents : contents (rs_db rs) = mem_data ms;
  sim_cache : cache_ok rs;
  sim_mem : mem_wf blake3 ms;
}.

Lemma mem_delete_data ms k : mem_data (mem_delete ms k) = delete k (mem_data ms).
Proof. unfold mem_delete. destruct (mem_data ms !! k) eqn:E; [done|]. by rewrite delete_id. Qed.

Lemma sim_get rs ms k r : sim rs ms -> rocks_get rs k = Ok r -> r = mem_get ms k.
Proof.
  intros Hs. unfold rocks_get. destruct (db_get (rs_db rs) k) eqn:E; [|done]. intros [= ->].
  rewrite (db_get_ok _ _ _ E). by rewrite (sim_contents _ _ Hs).
Qed.

Lemma sim_put rs ms k v rs' : sim rs ms -> rocks_put rs k v = (rs', Ok tt) -> sim rs' (mem_put blake3 ms k v).
Proof.
  intros [Hc _ Hm]. unfold rocks_put. cbn. destruct (db_put (rs_db rs) k v) as [d [[]|e]] eqn:E; [|done].
  intros [= <-]. split; [|done|by apply mem_put_wf]. cbn. by rewrite (db_put_ok _ _ _ _ E), Hc.
Qed.

Lemma sim_delete rs ms k rs' : sim rs ms -> rocks_delete rs k = (rs', Ok tt) -> sim rs' (mem_delete ms k).
Proof.
  intros [Hc _ Hm]. unfold rocks_delete. cbn. destruct (db_delete (rs_db rs) k) as [d [[]|e]] eqn:E; [|done].
  intros [= <-]. split; [|done|by apply mem_delete_wf]. cbn. by rewrite (db_delete_ok _ _ _ E), Hc, mem_delete_data.
Qed.

Lemma sim_root rs ms rs' h :
  sim rs ms -> rocks_state_root blake3 rs = Some (rs', h) -> sim rs' ms /\ h = mem_state_root blake3 ms.
Proof.
  intros [Hc Hr Hm]. rewrite mem_root, <- Hc by done. unfold rocks_state_root, cache_ok in *.
  destruct (rs_cached_root rs) as [root|] eqn:Er.
  - intros [= <- <-]. split; [|done]. split; [done| |done]. unfold cache_ok. by rewrite Er.
  - destruct (compute_state_root blake3 rs) as [root|] eqn:E; [|done]. intros [= <- <-].
    apply compute_root_ok in E. split; [|done]. by split.
Qed.

Lemma sim_commit rs ms rs' :
  sim rs ms -> rocks_commit_root blake3 rs = Some rs' -> sim rs' (mem_commit_root blake3 ms).
Proof.
  intros [Hc Hr Hm]. unfold rocks_commit_root.
  assert (Hd : mem_data (mem_commit_root blake3 ms) = mem_data ms).
  { unfold mem_commit_root. by destruct (tree_cache ms). }
  destruct (rs_cached_root rs) as [root|] eqn:Er.
  - intros [= <-]. split; [by rewrite Hd|done|by apply mem_commit_root_wf].
  - destruct (compute_state_root blake3 rs) as [root|] eqn:E; [|done]. intros [= <-].
    apply compute_root_ok in E. split; [by rewrite Hd|done|by apply mem_commit_root_wf].
Qed.

Lemma mem_changes_data changes ms :
  mem_wf blake3 ms ->
  mem_data (foldl mem_apply_change ms changes) = foldl apply_write (mem_data ms) changes
  /\ mem_wf blake3 (foldl mem_apply_change ms changes).
Proof.
  revert ms. induction changes as [|[k [v|]] changes IH]; intros ms Hw; [done| |]; cbn [foldl].
  - apply (IH (mem_put blake3 ms k v)). by apply mem_put_wf.
  - destruct (IH (mem_delete ms k)) as [E Hw']; [by apply mem_delete_wf|]. split; [|done].
    change (mem_apply_change ms (k, None)) with (mem_delete ms k). rewrite E, mem_delete_data. done.
Qed.

Lemma sim_batch rs ms changes sync rs' :
  sim rs ms -> rocks_apply_batch rs changes sync = (rs', Ok tt) -> sim rs' (foldl mem_apply_change ms changes).
Proof.
  intros Hs. unfold rocks_apply_batch. case_bool_decide as En; [by subst; intros [= <-]|]. destruct Hs as [Hc _ Hm].
  cbn. destruct (db_write (rs_db rs) changes sync) as [d [[]|e]] eqn:E; [|done]. intros [= <-].
  destruct (mem_changes_data changes ms Hm) as [Ed Hw]. split; [|done|done]. cbn.
  by rewrite (db_write_ok _ _ _ _ E), Hc, Ed.
Qed.

Lemma scan_prefix_readable rs p :
  forallb item_ok (db_prefix_iterate (rs_db rs) p) = true ->
  rocks_scan_prefix rs p = btree_range_prefix p (contents (rs_db rs)).
Proof. intros Hr. unfold rocks_scan_prefix. by rewrite db_prefix_ok, readable_ok. Qed.

Lemma delete_keys_contents keys d d' :
  delete_keys d keys = (d', Ok tt) -> contents d' = foldl (fun m k => delete k m) (contents d) keys.
Proof.
  revert d. induction keys as [|k keys IH]; intros d; cbn [delete_keys foldl]; [by intros [= <-]|].
  destruct (db_delete d k) as [d1 [[]|e]] eqn:E; [|done]. cbn. intros Hd. by rewrite (IH _ Hd), (db_delete_ok _ _ _ E).
Qed.

Lemma sim_delete_prefix rs ms p rs' n :
  forallb item_ok (db_prefix_iterate (rs_db rs) p) = true -> sim rs ms ->
  rocks_delete_prefix rs p = (rs', Ok n) -> sim rs' (fst (mem_delete_prefix ms p)) /\ n = snd (mem_delete_prefix ms p).
Proof.
  intros Hr [Hc Hk Hm]. unfold rocks_delete_prefix. rewrite scan_prefix_readable, Hc by done.
  set (keys := map fst (btree_range_prefix p (mem_data ms))). intros Hd.
  assert (Hd' : exists d, delete_keys (rs_db rs) keys = (d, Ok tt)
    /\ rs' = mkRocks d (if (0 <? length keys)%nat then None else rs_cached_root rs) /\ n = length keys).
  { exists (fst (delete_keys (rs_db rs) keys)). cbv zeta in Hd.
    destruct (0 <? length keys)%nat; cbn [invalidate_root_cache rs_db rs_cached_root] in Hd;
      destruct (delete_keys (rs_db rs) keys) as [d [[]|e]]; try done; injection Hd as <- <-; done. }
  destruct Hd' as (d & Ed & -> & ->).
  split; [|done]. split; [|..|by apply mem_delete_prefix_wf].
  - cbn. by rewrite (delete_keys_contents _ _ _ Ed), Hc.
  - unfold cache_ok. cbn [rs_cached_root rs_db]. destruct (0 <? length keys)%nat eqn:E0; [done|].
    apply Nat.ltb_ge in E0. destruct keys; [|cbn in E0; lia]. cbn in Ed. injection Ed as <-. exact Hk.
Qed.

Lemma sim_clear_keys keys rs ms rs' :
  sim rs ms -> clear_keys rs keys = (rs', Ok tt) -> sim rs' (foldl mem_delete ms keys).
Proof.
  revert rs ms. induction keys as [|k keys IH]; intros rs ms Hs; cbn [clear_keys foldl]; [by intros [= <-]|].
  destruct (rocks_delete rs k) as [rs1 [[]|e]] eqn:E; [|done]. intros Hr. eapply IH; [|exact Hr]. by eapply sim_delete.
Qed.

Lemma scan_all_readable rs :
  forallb item_ok (db_iterate (rs_db rs)) = true -> rocks_scan_all rs = btree_entries (contents (rs_db rs)).
Proof. apply iterate_readable. Qed.

(** One call in which the database does not fail: the same answer as in memory. *)
Lemma sim_step op rs ms rs' a :
  sim rs ms -> call_reads op rs = true -> rocks_step op rs = (rs', inl a) -> sim rs' (fst (mem_step op ms)) /\ a = snd (mem_step op ms).
Proof.
  intros Hs Hok. pose proof (sim_contents _ _ Hs) as Hc.
  destruct op; cbn [call_reads rocks_step mem_step answered fst snd] in *.
  - destruct (rocks_get rs k) eqn:E; [|done]. intros [= <- <-]. split; [done|]. f_equal. by eapply sim_get.
  - destruct (rocks_put rs k v) as [rs1 [[]|]] eqn:E; [|done]. intros [= <- <-]. split; [by eapply sim_put|done].
  - destruct (rocks_delete rs k) as [rs1 [[]|]] eqn:E; [|done]. intros [= <- <-]. split; [by eapply sim_delete|done].
  - destruct (rocks_state_root blake3 rs) as [[rs1 h]|] eqn:E; [|done]. intros [= <- <-].
    destruct (sim_root _ _ _ _ Hs E) as [H1 ->]. by split.
  - destruct (rocks_commit_root blake3 rs) as [rs1|] eqn:E; [|done]. intros [= <- <-]. split; [by eapply sim_commit|done].
  - destruct (rocks_apply_batch rs changes sync) as [rs1 [[]|]] eqn:E; [|done]. intros [= <- <-].
    split; [by eapply sim_batch|done].
  - intros [= <- <-]. split; [done|]. f_equal. rewrite scan_prefix_readable by done. by rewrite Hc.
  - intros [= <- <-]. split; [done|]. f_equal. rewrite scan_all_readable by done. by rewrite Hc.
  - intros [= <- <-]. split; [done|]. f_equal. unfold rocks_len. rewrite db_iterate_ok by done.
    by rewrite length_map, Hc.
  - destruct (rocks_delete_prefix rs p) as [rs1 [n|]] eqn:E; [|done]. intros [= <- <-].
    destruct (sim_delete_prefix _ _ _ _ _ Hok Hs E) as [H1 ->].
    by destruct (mem_delete_prefix ms p).
  - destruct (rocks_clear rs) as [rs1 [[]|]] eqn:E; [|done]. intros [= <- <-]. split; [|done].
    unfold rocks_clear in E. rewrite scan_all_readable, Hc in E by done. by eapply sim_clear_keys.
Qed.

Lemma sim_run ops rs ms :
  sim rs ms ->
  let n := intact ops rs in
  let '(rs', answers, failed) := rocks_run ops rs in
  let '(ms', expected) := mem_run ops ms in
  take n answers = take n expected
  /\ (n = length ops -> failed = None /\ answers = expected /\ sim rs' ms').
Proof.
  revert rs ms. induction ops as [|op ops IH]; intros rs ms Hs; cbn [intact rocks_run mem_run length]; [done|].
  destruct (call_reads op rs) eqn:Eok.
  2: { destruct (rocks_step op rs) as [rs1 [a|f]]; [destruct (rocks_run ops rs1) as [[? ?] ?]|];
         destruct (mem_step op ms) as [ms1 ?]; destruct (mem_run ops ms1); done. }
  destruct (rocks_step op rs) as [rs1 [a|f]] eqn:E.
  - destruct (sim_step _ _ _ _ _ Hs Eok E) as [H1 ->]. destruct (mem_step op ms) as [ms1 a]. cbn [fst snd] in *.
    specialize (IH rs1 ms1 H1). destruct (rocks_run ops rs1) as [[rs' l] fl]. destruct (mem_run ops ms1) as [ms' l'].
    destruct IH as [Hp Hf]. cbn [take]. split; [by f_equal|]. intros [= En].
    destruct (Hf En) as (-> & -> & H2). done.
  - destruct (mem_step op ms) as [ms1 a]. destruct (mem_run ops ms1). done.
Qed.

Lemma delete_keys_works `{!RocksDbHealthy} keys d : snd (delete_keys d keys) = Ok tt.
Proof.
  revert d. induction keys as [|k keys IH]; intros d; cbn [delete_keys]; [done|].
  pose proof (delete_works d k) as Hd. destruct (db_delete d k) as [d1 r]. cbn in Hd. subst r. apply IH.
Qed.

Lemma rocks_delete_works `{!RocksDbHealthy} rs k : snd (rocks_delete rs k) = Ok tt.
Proof.
  unfold rocks_delete. cbn. pose proof (delete_works (rs_db rs) k) as Hd. destruct (db_delete (rs_db rs) k) as [d r].
  cbn in Hd. by subst r.
Qed.

Lemma clear_keys_works `{!RocksDbHealthy} keys rs : snd (clear_keys rs keys) = Ok tt.
Proof.
  revert rs. induction keys as [|k keys IH]; intros rs; cbn [clear_keys]; [done|].
  pose proof (rocks_delete_works rs k) as Hd. destruct (rocks_delete rs k) as [rs1 r]. cbn in Hd. subst r. apply IH.
Qed.

Lemma step_works `{!RocksDbHealthy} op rs : exists a, snd (rocks_step op rs) = inl a.
Proof.
  destruct op; cbn [rocks_step answered fst snd]; try (eexists; reflexivity).
  - destruct (get_works (rs_db rs) k) as [r Hr]. unfold rocks_get. rewrite Hr. by eexists.
  - unfold rocks_put. cbn. pose proof (put_works (rs_db rs) k v) as Hd. destruct (db_put _ _ _) as [d r].
    cbn in Hd. subst r. by eexists.
  - rewrite rocks_delete_works. by eexists.
  - unfold rocks_state_root. destruct (rs_cached_root rs); [by eexists|].
    rewrite compute_root_works by apply iterate_works. by eexists.
  - unfold rocks_commit_root. destruct (rs_cached_root rs); [by eexists|].
    rewrite compute_root_works by apply iterate_works. by eexists.
  - unfold rocks_apply_batch. case_bool_decide; [by eexists|]. cbn.
    pose proof (write_works (rs_db rs) changes sync) as Hd. destruct (db_write _ _ _) as [d r]. cbn in Hd. subst r.
    by eexists.
  - unfold rocks_delete_prefix. set (keys := map fst _). cbv zeta.
    match goal with |- context [delete_keys ?d keys] => pose proof (delete_keys_works keys d) as Hd end.
    destruct (delete_keys _ _) as [d r]. cbn in Hd. subst r. by eexists.
  - unfold rocks_clear. rewrite clear_keys_works. by eexists.
Qed.

Lemma intact_all `{!RocksDbHealthy} ops rs : intact ops rs = length ops.
Proof.
  revert rs. induction ops as [|op ops IH]; intros rs; cbn [intact length]; [done|].
  assert (Hr : call_reads op rs = true) by (destruct op; cbn; auto using iterate_works, prefix_works). rewrite Hr.
  destruct (step_works op rs) as [a Ha]. destruct (rocks_step op rs) as [rs1 r]. cbn in Ha. subst r. by rewrite IH.
Qed.

(** C34: The two storage backends agree. Whatever calls are made, from an empty
    database, the store on RocksDB answers every read, scan and count, and every
    state root, as the store in memory does, up to the first call in which the
    database fails. A failure need not be reported: a point read, a write or a
    deletion returns an error and a state root panics, but scans, counts and
    deletions by prefix skip an entry that cannot be read. If the database never
    fails, no call fails and all answers agree. *)
Theorem backends_agree ops d0 :
  contents d0 = ∅ ->
  let n := intact ops (mkRocks d0 None) in
  let '(rs, answers, failed) := rocks_run ops (mkRocks d0 None) in
  let '(ms, expected) := mem_run ops mem_new in
  take n answers = take n expected
  /\ (n = length ops -> failed = None /\ answers = expected)
  /\ (RocksDbHealthy -> n = length ops).
Proof.
  intros Hd n. assert (Hs : sim (mkRocks d0 None) mem_new) by (split; [done|done|apply mem_new_wf]).
  pose proof (sim_run ops _ _ Hs) as Hr. assert (Hw : RocksDbHealthy -> n = length ops) by (intros ?; apply intact_all).
  fold n in Hr. cbv zeta in Hr.
  destruct (rocks_run ops (mkRocks d0 None)) as [[rs answers] failed]. destruct (mem_run ops mem_new) as [ms expected].
  destruct Hr as [Hp Hf]. split; [done|]. split; [|exact Hw]. intros Hn. by destruct (Hf Hn) as (-> & -> & _).
Qed.

(** *** Failures *)

(** No call leaves a stale root behind, also if it fails. *)
Theorem root_never_stale op rs : cache_ok rs -> cache_ok (fst (rocks_step op rs)).
Proof.
  intros Hc. destruct op; cbn [rocks_step answered fst]; try exact Hc.
  - unfold rocks_put. cbn. by destruct (db_put _ _ _).
  - unfold rocks_delete. cbn. by destruct (db_delete _ _).
  - unfold rocks_state_root. destruct (rs_cached_root rs); [done|]. destruct (compute_state_root _ rs) eqn:E; [|done].
    by apply compute_root_ok in E.
  - unfold rocks_commit_root. destruct (rs_cached_root rs); [done|]. destruct (compute_state_root _ rs) eqn:E; [|done].
    by apply compute_root_ok in E.
  - unfold rocks_apply_batch. case_bool_decide; [done|]. cbn. by destruct (db_write _ _ _).
  - unfold rocks_delete_prefix. destruct (map fst (rocks_scan_prefix rs p)) as [|k l]; [exact Hc|].
    cbn [length]. by destruct (delete_keys _ _).
  - unfold rocks_clear. generalize (map fst (rocks_scan_all rs)). intros keys. revert rs Hc.
    induction keys as [|k keys IH]; intros rs Hc; [done|]. cbn [clear_keys].
    assert (Hd : cache_ok (fst (rocks_delete rs k))) by (unfold rocks_delete; cbn; by destruct (db_delete _ _)).
    destruct (rocks_delete rs k) as [rs1 [?|e]]; [by apply IH|done].
Qed.

(** A block whose batch is refused leaves every binding as it was. *)
Theorem failed_batch_atomic rs changes sync rs' e :
  rocks_apply_batch rs changes sync = (rs', Err e) -> contents (rs_db rs') = contents (rs_db rs).
Proof.
  unfold rocks_apply_batch. case_bool_decide; [done|]. cbn.
  destruct (db_write (rs_db rs) changes sync) as [d [?|er]] eqn:E; [done|]. intros [= <- _].
  by apply db_write_err in E.
Qed.

(** *** Checkpoints *)

Definition puts (l : list (bytes * bytes)) : Batch := map (fun kv => (fst kv, Some (snd kv))) l.

Lemma puts_lookup l m k :
  NoDup (map fst l) ->
  foldl apply_write m (puts l) !! k
  = match list_to_map (M := gmap bytes bytes) l !! k with Some v => Some v | None => m !! k end.
Proof.
  revert m. induction l as [|[k0 v0] l IH]; intros m Hnd; cbn in *; [by rewrite lookup_empty|].
  inversion_clear Hnd as [|? ? Hk0 Hl]. rewrite IH by done. unfold apply_write. cbn.
  destruct (decide (k0 = k)) as [->|Hne].
  - rewrite (not_elem_of_list_to_map_1 l) by done. by rewrite !lookup_insert_eq.
  - rewrite !lookup_insert_ne by done. done.
Qed.

Lemma puts_entries m : foldl apply_write ∅ (puts (btree_entries m)) = m.
Proof.
  apply map_eq. intros k. rewrite puts_lookup by apply btree_entries_NoDup. rewrite btree_entries_map, lookup_empty.
  by destruct (m !! k).
Qed.

Lemma restore_loop_ok items batch d d' batch' :
  restore_loop items batch d = (d', Ok batch') ->
  forallb item_ok items = true
  /\ foldl apply_write (contents d') batch' = foldl apply_write (contents d) (batch ++ puts (readable items)).
Proof.
  revert batch d. induction items as [|[[k v]|e] items IH]; intros batch d; cbn [restore_loop]; [|cbv zeta|done].
  { intros [= <- <-]. cbn. by rewrite app_nil_r. }
  assert (E : (batch ++ [(k, Some v)]) ++ puts (readable items)
    = batch ++ puts (readable (Ok (k, v) :: items))) by by rewrite <- app_assoc.
  destruct (RESTORE_BATCH <=? _)%nat.
  - destruct (db_write d _ false) as [d1 [[]|e]] eqn:Ew; [|done]. cbn [backend]. intros Hr.
    destruct (IH _ _ Hr) as [Hok Hc]. split; [exact Hok|]. rewrite Hc, (db_write_ok _ _ _ _ Ew), <- E. by rewrite (foldl_app _ (batch ++ [(k, Some v)])).
  - intros Hr. destruct (IH _ _ Hr) as [Hok Hc]. split; [exact Hok|]. by rewrite Hc, E.
Qed.

Lemma foldl_delete_all (m : gmap bytes bytes) : foldl (fun m k => delete k m) m (map fst (btree_entries m)) = ∅.
Proof.
  apply map_eq. intros k. rewrite (foldl_delete_lookup blake3), lookup_empty. case_bool_decide as Hk; [done|].
  rewrite btree_entries_keys in Hk. by apply eq_None_not_Some.
Qed.

Lemma clear_keys_contents keys rs rs' :
  clear_keys rs keys = (rs', Ok tt) -> contents (rs_db rs') = foldl (fun m k => delete k m) (contents (rs_db rs)) keys.
Proof.
  revert rs. induction keys as [|k keys IH]; intros rs; cbn [clear_keys foldl]; [by intros [= <-]|].
  destruct (rocks_delete rs k) as [rs1 [[]|e]] eqn:E; [|done]. intros Hc. rewrite (IH _ Hc). f_equal.
  unfold rocks_delete in E. cbn in E. destruct (db_delete (rs_db rs) k) as [d [[]|?]] eqn:Ed; [|done].
  injection E as <-. by rewrite (db_delete_ok _ _ _ Ed).
Qed.

(** A checkpoint that is restored over a store whose entries can be read brings
    back exactly the bindings, and the root, of the store it was made of, whatever
    happened in between. An entry that cannot be read would survive the clearing. *)
Theorem checkpoint_restores rs0 cp rs rs' :
  forallb item_ok (db_iterate (rs_db rs)) = true ->
  create_checkpoint_at rs0 = Ok cp -> restore_from_checkpoint (Ok cp) rs = (rs', Ok tt) ->
  contents (rs_db rs') = contents (rs_db rs0)
  /\ (forall rs1 root, rocks_state_root blake3 rs' = Some (rs1, root) -> root = root_of (contents (rs_db rs0))).
Proof.
  intros Hread Hcp Hr. assert (Hc : contents cp = contents (rs_db rs0)).
  { unfold create_checkpoint_at, make_checkpoint in Hcp. destruct (db_checkpoint_new _); [|done].
    cbn in Hcp. destruct (db_checkpoint (rs_db rs0)) as [d|] eqn:E; [|done]. injection Hcp as ->.
    by apply db_checkpoint_ok in E. }
  unfold restore_from_checkpoint in Hr. cbn [backend_at] in Hr. destruct (rocks_clear rs) as [rs1 [[]|]] eqn:Ec; [|done].
  unfold rocks_clear in Ec. rewrite scan_all_readable in Ec by done.
  apply clear_keys_contents in Ec. rewrite foldl_delete_all in Ec.
  destruct (restore_loop (db_iterate cp) [] (rs_db rs1)) as [d1 [batch|]] eqn:El; [|done].
  apply restore_loop_ok in El as [Hok El]. rewrite iterate_readable, Ec in El by done.
  destruct (db_write d1 batch false) as [d2 [[]|]] eqn:Ew; [|done]. injection Hr as <-.
  assert (E : contents d2 = contents (rs_db rs0)).
  { rewrite (db_write_ok _ _ _ _ Ew), El, <- Hc. apply puts_entries. }
  split; [exact E|]. unfold rocks_state_root. cbn [invalidate_root_cache rs_cached_root rs_db].
  intros rs2 root. destruct (compute_state_root _ _) as [root'|] eqn:Er; [|done]. intros [= _ <-].
  apply compute_root_ok in Er. by rewrite Er, <- E.
Qed.

(** Reading through a checkpoint whose entries can be read is reading the store
    at that time. *)
Theorem checkpoint_reads rs cp k r :
  forallb item_ok (db_iterate cp) = true -> create_checkpoint_at rs = Ok cp -> cp_get cp k = Ok r ->
  r = contents (rs_db rs) !! k /\ cp_state_root blake3 cp = root_of (contents (rs_db rs)).
Proof.
  intros Hread Hcp Hg. unfold create_checkpoint_at, make_checkpoint in Hcp. destruct (db_checkpoint_new _); [|done].
  cbn in Hcp. destruct (db_checkpoint (rs_db rs)) as [d|] eqn:E; [|done]. injection Hcp as ->.
  apply db_checkpoint_ok in E. unfold cp_get in Hg. destruct (db_get cp k) eqn:Eg; [|done]. injection Hg as ->.
  rewrite (db_get_ok _ _ _ Eg), E. split; [done|]. unfold cp_state_root.
  rewrite iterate_readable, E by done. apply rocks_merkle_root_eq.
Qed.

(** A restore that fails once the emptied store has been written to keeps the
    root that was cached: it is not discarded on that path. *)
Theorem failed_restore_keeps_root cp rs d e :
  db_iterate (rs_db rs) = [] -> restore_loop (db_iterate cp) [] (rs_db rs) = (d, Err e) ->
  fst (restore_from_checkpoint (Ok cp) rs) = mkRocks d (rs_cached_root rs).
Proof.
  intros He Hl. unfold restore_from_checkpoint. cbn [backend_at].
  assert (Hc : rocks_clear rs = (rs, Ok tt)) by (unfold rocks_clear, rocks_scan_all; by rewrite He).
  rewrite Hc. by rewrite Hl.
Qed.
End laws.

(** ** A database *)

(** A map that never fails. *)
#[export] Instance map_db : RocksDb := {|
  DB := gmap bytes bytes;
  db_get m k := Ok (m !! k);
  db_put m k v := (<[k := v]> m, Ok tt);
  db_delete m k := (delete k m, Ok tt);
  db_write m b _ := (foldl apply_write m b, Ok tt);
  db_iterate m := map Ok (btree_entries m);
  db_prefix_iterate m p := map Ok (drop_below p (btree_entries m));
  db_checkpoint_new _ := Ok tt;
  db_checkpoint m := Ok m;
|}.

#[export] Instance map_db_laws : RocksDbLaws (rdb := map_db).
Proof.
  refine {| contents := fun m : DB (RocksDb := map_db) => m |}; cbn; intros; try congruence.
Defined.

Lemma items_ok (l : list (bytes * bytes)) : forallb item_ok (map Ok l) = true.
Proof. by induction l. Qed.
#[export] Instance map_db_healthy : RocksDbHealthy (rdb := map_db).
Proof. split; intros; try apply items_ok; try done. by eexists. Qed.

Definition sample_ops : list StoreOp :=
  [OpPut [98] [2]; OpPut [97] [1]; OpRoot; OpBatch [([97], None); ([99], Some [3])] true; OpCommit; OpScan [98];
   OpPut (bytes_of_string "block/1") [7]; OpRoot; OpDeletePrefix [99]; OpLen; OpRoot].

Lemma backends_agree_witness :
  (contents (RocksDbLaws := map_db_laws) (∅ : gmap bytes bytes) = ∅)
  /\ snd (fst (rocks_run (fun b => b) sample_ops (mkRocks (rdb := map_db) ∅ None)))
     = snd (mem_run (fun b => b) sample_ops mem_new).
Proof.
  split; [done|].
  pose proof (backends_agree (fun b => b) (rdb := map_db) (laws := map_db_laws)
    sample_ops ∅ eq_refl) as H.
  destruct (rocks_run (fun b => b) sample_ops (mkRocks ∅ None)) as [[rs answers] failed].
  destruct (mem_run (fun b => b) sample_ops mem_new) as [ms expected]. destruct H as (_ & Hf & Hw).
  exact (proj2 (Hf (Hw map_db_healthy))).
Defined.

(** The same map with one entry, of key 97, that iterators cannot read. *)
Definition worn_item (kv : bytes * bytes) : Item := if bool_decide (fst kv = [97]) then Err "corruption"%string else Ok kv.
Definition worn_db : RocksDb := {|
  DB := gmap bytes bytes;
  db_get m k := Ok (m !! k);
  db_put m k v := (<[k := v]> m, Ok tt);
  db_delete m k := (delete k m, Ok tt);
  db_write m b _ := (foldl apply_write m b, Ok tt);
  db_iterate m := map worn_item (btree_entries m);
  db_prefix_iterate m p := map worn_item (drop_below p (btree_entries m));
  db_checkpoint_new _ := Ok tt;
  db_checkpoint m := Ok m;
|}.

(** A scan leaves the entry out and clearing the store leaves it behind; both
    report success, where a state root panics. *)
Example unreadable_entry_skipped :
  let ops := [OpPut [97] [1]; OpPut [98] [2]; OpScanAll; OpClear; OpGet [97]; OpRoot] in
  let '(_, answers, failed) := rocks_run (rdb := worn_db) (fun b => b) ops (mkRocks (rdb := worn_db) ∅ None) in
  answers = [ADone; ADone; AEntries [([98], [2])]; ADone; AValue (Some [1])] /\ failed = Some Panicked
  /\ intact (rdb := worn_db) (fun b => b) ops (mkRocks (rdb := worn_db) ∅ None) = 2%nat.
Proof. vm_compute. done. Qed.
