(* ===== verification/Overlay.v ===== *)
(** The copy-on-write overlay of [crates/solen-storage/src/overlay.rs]: the
    store every block and every simulation executes against. *)

From S2P Require Import Prelude Types Store Memory.
Open Scope Z_scope.

(** An overlay on [base]: the base is borrowed and never written, so it is an
    index of the type; the two fields are the staged writes and deletes. *)
Record OverlayStore {B : Type} (base : B) : Type := mkOverlay {
  writes : gmap bytes bytes;
  deletes : gset bytes;
}.
Arguments mkOverlay {B} base writes deletes.
Arguments writes {B base} _.
Arguments deletes {B base} _.

Section overlay.
Context {B : Type} `{!StateStore B} {base : B}.

Definition ov_new : OverlayStore base := mkOverlay base ∅ ∅.

Definition ov_get (o : OverlayStore base) (key : bytes) : option bytes :=
  if bool_decide (key ∈ deletes o) then None
  else match writes o !! key with
       | Some v => Some v
       | None => st_get base key
       end.

Definition ov_put (o : OverlayStore base) (key value : bytes) : OverlayStore base :=
  mkOverlay base (<[key := value]> (writes o)) (deletes o ∖ {[key]}).

Definition ov_delete (o : OverlayStore base) (key : bytes) : OverlayStore base :=
  mkOverlay base (delete key (writes o)) ({[key]} ∪ deletes o).

(** [into_changes], and the delta a [savepoint] clones: the writes, then the
    deletes. *)
Definition ov_into_changes (o : OverlayStore base) : Changes :=
  set_fold (fun k (m : Changes) => <[k := None]> m) (Some <$> writes o) (deletes o).

Definition ov_savepoint (o : OverlayStore base) : Changes := ov_into_changes o.

(** [restore_savepoint] of a [Delta]: clear, then sort each entry back. *)
Definition ov_restore (o : OverlayStore base) (delta : Changes) : OverlayStore base :=
  map_fold (fun k v (o : OverlayStore base) =>
    match v with
    | Some val => mkOverlay base (<[k := val]> (writes o)) (deletes o)
    | None => mkOverlay base (writes o) ({[k]} ∪ deletes o)
    end) (mkOverlay base ∅ ∅) delta.

Definition ov_state_root (o : OverlayStore base) : Hash := st_state_root base.

(** Base entries that are not deleted, then the staged writes on top, as one
    sorted map. *)
Definition ov_merge (base_entries over : list (bytes * bytes)) (dels : gset bytes)
    : gmap bytes bytes :=
  foldl (fun m kv => <[fst kv := snd kv]> m)
    (foldl (fun m kv => if bool_decide (fst kv ∈ dels) then m else <[fst kv := snd kv]> m)
       ∅ base_entries)
    over.

Definition ov_scan_prefix (o : OverlayStore base) (prefix : bytes) : list (bytes * bytes) :=
  btree_entries (ov_merge (st_scan_prefix base prefix)
                   (btree_range_prefix prefix (writes o)) (deletes o)).

Definition ov_scan_all (o : OverlayStore base) : list (bytes * bytes) :=
  btree_entries (ov_merge (st_scan_all base) (btree_entries (writes o)) (deletes o)).

(** [delete_prefix] looks at the staged writes only. *)
Definition ov_delete_prefix (o : OverlayStore base) (prefix : bytes)
    : OverlayStore base * nat :=
  let keys := map fst (btree_range_prefix prefix (writes o)) in
  (foldl (fun o k => mkOverlay base (delete k (writes o)) ({[k]} ∪ deletes o)) o keys,
   length keys).

#[export] Instance overlay_store : StateStore (OverlayStore base) := {|
  Savepoint := Changes;
  st_get := ov_get;
  st_put := ov_put;
  st_delete := ov_delete;
  st_state_root := ov_state_root;
  st_commit_root := fun o => o;
  st_savepoint := ov_savepoint;
  st_restore := ov_restore;
  st_scan_prefix := ov_scan_prefix;
  st_scan_all := ov_scan_all;
|}.

(** ** Lemmas *)

Context `{!StateStoreLaws B}.

Lemma ov_into_changes_lookup o k :
  ov_into_changes o !! k
  = if bool_decide (k ∈ deletes o) then Some None else Some <$> writes o !! k.
Proof.
  unfold ov_into_changes.
  set (P := fun (m : Changes) (X : gset bytes) =>
    m !! k = if bool_decide (k ∈ X) then Some None else Some <$> writes o !! k).
  apply (set_fold_ind_L P); unfold P.
  - rewrite bool_decide_eq_false_2 by set_solver. apply lookup_fmap.
  - intros x X m Hx IH. rewrite lookup_insert. destruct (decide (x = k)) as [->|Hne].
    + rewrite bool_decide_eq_true_2 by set_solver. done.
    + rewrite IH. repeat case_bool_decide; set_solver.
Qed.

Lemma ov_restore_lookup o delta k :
  writes (ov_restore o delta) !! k = match delta !! k with Some (Some v) => Some v | _ => None end
  /\ (k ∈ deletes (ov_restore o delta) <-> delta !! k = Some None).
Proof.
  unfold ov_restore.
  apply (map_fold_weak_ind (fun (r : OverlayStore base) m =>
    writes r !! k = match m !! k with Some (Some v) => Some v | _ => None end
    /\ (k ∈ deletes r <-> m !! k = Some None))); [by split; [|set_solver]|].
  intros i [v|] m r Hi [IHw IHd]; simpl; rewrite !lookup_insert.
  - destruct (decide (i = k)) as [->|]; [|done].
    split; [done|]. rewrite IHd, Hi. done.
  - rewrite elem_of_union, elem_of_singleton.
    destruct (decide (i = k)) as [->|].
    + split; [by rewrite IHw, Hi|]. tauto.
    + split; [done|]. rewrite IHd. split; [intros [?|?]; congruence|auto].
Qed.

Lemma ov_get_restore o o' k : ov_get (ov_restore o' (ov_savepoint o)) k = ov_get o k.
Proof.
  unfold ov_get. destruct (ov_restore_lookup o' (ov_savepoint o) k) as [Hw Hd].
  unfold ov_savepoint in *. rewrite ov_into_changes_lookup in Hw, Hd.
  destruct (bool_decide (k ∈ deletes o)) eqn:E; prop_bool.
  - by rewrite bool_decide_eq_true_2 by tauto.
  - rewrite bool_decide_eq_false_2; [|rewrite Hd; by destruct (writes o !! k)].
    rewrite Hw. by destruct (writes o !! k).
Qed.

Lemma foldl_insert_lookup (l : list (bytes * bytes)) (m : gmap bytes bytes) (f : bytes -> option bytes) k :
  (forall k v, (k, v) ∈ l <-> f k = Some v) ->
  foldl (fun m kv => <[fst kv := snd kv]> m) m l !! k
  = match f k with Some v => Some v | None => m !! k end.
Proof.
  intros Hl.
  assert (Hex : forall l' (m' : gmap bytes bytes), (forall kv, kv ∈ l' -> f (fst kv) = Some (snd kv)) ->
    foldl (fun m kv => <[fst kv := snd kv]> m) m' l' !! k
    = if bool_decide (k ∈ map fst l') then f k else m' !! k).
  { clear. induction l' as [|[k0 v0] l' IH]; intros m' H; simpl; [done|].
    rewrite IH by set_solver. rewrite lookup_insert.
    destruct (decide (k0 = k)) as [->|].
    - pose proof (H (k, v0) ltac:(set_solver)) as E. simpl in E.
      repeat case_bool_decide; auto; set_solver.
    - repeat case_bool_decide; set_solver. }
  rewrite Hex by (intros [k' v'] ?; by apply Hl).
  case_bool_decide as H.
  - apply list_elem_of_fmap in H as ([k' v'] & -> & H'). apply Hl in H'. simpl. by rewrite H'.
  - destruct (f k) as [v|] eqn:E; [|done]. exfalso. apply H, list_elem_of_fmap.
    exists (k, v). by rewrite Hl.
Qed.

Lemma foldl_insert_undeleted_lookup (l : list (bytes * bytes)) (dels : gset bytes)
    (m : gmap bytes bytes) (f : bytes -> option bytes) k :
  (forall kv, kv ∈ l -> f (fst kv) = Some (snd kv)) ->
  foldl (fun m kv => if bool_decide (fst kv ∈ dels) then m else <[fst kv := snd kv]> m) m l !! k
  = if bool_decide (k ∈ dels) then m !! k
    else if bool_decide (k ∈ map fst l) then f k else m !! k.
Proof.
  revert m. induction l as [|[k0 v0] l IH]; intros m H; cbn [foldl map fst snd].
  - rewrite (bool_decide_eq_false_2 (k ∈ [])) by set_solver. by destruct (bool_decide _).
  - rewrite IH by set_solver. pose proof (H (k0, v0) ltac:(set_solver)) as E. simpl in E.
    clear IH. destruct (decide (k0 = k)) as [->|Hne].
    + destruct (bool_decide (k ∈ dels)); [done|].
      rewrite (bool_decide_eq_true_2 (k ∈ k :: map fst l)) by set_solver.
      rewrite lookup_insert_eq. by destruct (bool_decide _).
    + rewrite (bool_decide_ext (k ∈ k0 :: map fst l) (k ∈ map fst l)) by set_solver.
      destruct (bool_decide (k0 ∈ dels)); [done|]. by rewrite lookup_insert_ne.
Qed.

(** The merged scan answers the binding the overlay answers. *)
Lemma ov_merge_lookup o (be over : list (bytes * bytes)) k :
  (forall k v, (k, v) ∈ be -> st_get base k = Some v) ->
  (forall k v, (k, v) ∈ over -> writes o !! k = Some v) ->
  (is_Some (st_get base k) -> k ∈ map fst be) ->
  (is_Some (writes o !! k) -> k ∈ map fst over) ->
  (k ∈ deletes o -> writes o !! k = None) ->
  ov_merge be over (deletes o) !! k = ov_get o k.
Proof.
  intros Hbe Hov Hbk Hok Hdis. unfold ov_merge.
  rewrite (foldl_insert_lookup over _ (fun k => if bool_decide (k ∈ map fst over)
             then writes o !! k else None)).
  2:{ intros k' v'. split.
      - intros H. rewrite bool_decide_eq_true_2 by (apply list_elem_of_fmap; by exists (k', v')).
        by apply Hov.
      - case_bool_decide as H; [|done]. apply list_elem_of_fmap in H as ([k2 v2] & -> & H).
        simpl. rewrite (Hov _ _ H). by intros [= ->]. }
  rewrite (foldl_insert_undeleted_lookup be (deletes o) ∅ (st_get base))
    by (intros [? ?] ?; simpl; auto).
  rewrite lookup_empty. unfold ov_get.
  destruct (bool_decide (k ∈ deletes o)) eqn:Hd; prop_bool.
  - rewrite Hdis by done. by destruct (bool_decide _).
  - destruct (writes o !! k) as [v|] eqn:Hw.
    + rewrite bool_decide_eq_true_2 by (apply Hok; eauto). done.
    + replace (if bool_decide (k ∈ map fst over) then None else None)
        with (@None bytes) by (by destruct (bool_decide _)).
      destruct (st_get base k) as [v|] eqn:Hb.
      * rewrite bool_decide_eq_true_2; [done|]. apply Hbk. eauto.
      * by destruct (bool_decide _).
Qed.

(** Staged writes and deletes never overlap. *)
Definition ov_wf (o : OverlayStore base) : Prop :=
  forall k, k ∈ deletes o -> writes o !! k = None.

Lemma ov_new_wf : ov_wf ov_new.
Proof. intros k. unfold ov_new. simpl. set_solver. Qed.

Lemma ov_put_wf o k v : ov_wf o -> ov_wf (ov_put o k v).
Proof.
  intros H k' Hk'. unfold ov_put in *. simpl in *.
  rewrite lookup_insert_ne by set_solver. apply H. set_solver.
Qed.

Lemma ov_delete_wf o k : ov_wf o -> ov_wf (ov_delete o k).
Proof.
  intros H k' Hk'. unfold ov_delete in *. simpl in *. rewrite lookup_delete.
  destruct (decide (k = k')); [done|]. apply H. set_solver.
Qed.

Lemma ov_restore_wf o delta : ov_wf (ov_restore o delta).
Proof.
  intros k Hk. destruct (ov_restore_lookup o delta k) as [Hw Hd].
  apply Hd in Hk. by rewrite Hw, Hk.
Qed.

Lemma ov_get_put o k v k' :
  ov_get (ov_put o k v) k' = if decide (k = k') then Some v else ov_get o k'.
Proof.
  unfold ov_get, ov_put. simpl. destruct (decide (k = k')) as [->|Hne].
  - rewrite bool_decide_eq_false_2 by set_solver. by rewrite lookup_insert_eq.
  - rewrite lookup_insert_ne by done.
    by rewrite (bool_decide_ext (k' ∈ deletes o ∖ {[k]}) (k' ∈ deletes o)) by set_solver.
Qed.

Lemma ov_get_delete o k k' :
  ov_get (ov_delete o k) k' = if decide (k = k') then None else ov_get o k'.
Proof.
  unfold ov_get, ov_delete. simpl. destruct (decide (k = k')) as [->|Hne].
  - by rewrite bool_decide_eq_true_2 by set_solver.
  - rewrite lookup_delete_ne by done.
    by rewrite (bool_decide_ext (k' ∈ {[k]} ∪ deletes o) (k' ∈ deletes o)) by set_solver.
Qed.

#[export] Instance ov_laws : StateStoreLaws (OverlayStore base).
Proof.
  split; simpl.
  - intros. rewrite ov_get_put. by destruct (decide _).
  - intros. rewrite ov_get_put. by destruct (decide _).
  - intros. rewrite ov_get_delete. by destruct (decide _).
  - intros. rewrite ov_get_delete. by destruct (decide _).
  - done.
  - intros. apply ov_get_restore.
Qed.

Lemma keys_elem (l : list (bytes * bytes)) k v : (k, v) ∈ l -> k ∈ map fst l.
Proof. intros H. apply list_elem_of_fmap. by exists (k, v). Qed.

Context `{!StateStoreScanLaws B} (base_inv : st_inv base).

Lemma ov_scan_all_spec o k v : ov_wf o -> (k, v) ∈ ov_scan_all o <-> ov_get o k = Some v.
Proof.
  intros Hwf. unfold ov_scan_all. rewrite btree_entries_elem, ov_merge_lookup; [done|..].
  - intros k' v' H. by apply scan_all_spec in H.
  - intros k' v' H. by apply btree_entries_elem in H.
  - intros [v' H]. apply (keys_elem _ _ v'). by apply scan_all_spec.
  - intros [v' H]. apply (keys_elem _ _ v'). by apply btree_entries_elem.
  - apply Hwf.
Qed.

Lemma ov_scan_prefix_spec o p k v :
  ov_wf o -> (k, v) ∈ ov_scan_prefix o p <-> starts_with p k = true /\ ov_get o k = Some v.
Proof.
  intros Hwf. unfold ov_scan_prefix. rewrite btree_entries_elem.
  destruct (starts_with p k) eqn:Hp.
  - rewrite ov_merge_lookup; [tauto|..].
    + intros k' v' H. by apply scan_prefix_spec in H as [_ ?].
    + intros k' v' H. by apply btree_range_prefix_elem in H as [_ ?].
    + intros [v' H]. apply (keys_elem _ _ v'). by apply scan_prefix_spec.
    + intros [v' H]. apply (keys_elem _ _ v'). by apply btree_range_prefix_elem.
    + apply Hwf.
  - split; [|by intros [? ?]]. unfold ov_merge.
    rewrite (foldl_insert_lookup _ _ (fun k => if starts_with p k then writes o !! k else None)).
    2:{ intros k' v'. rewrite btree_range_prefix_elem. destruct (starts_with p k'); naive_solver. }
    rewrite Hp, (foldl_insert_undeleted_lookup _ _ ∅ (st_get base)).
    2:{ intros [? ?] H. by apply scan_prefix_spec in H as [_ ?]. }
    rewrite lookup_empty. rewrite (bool_decide_eq_false_2 (k ∈ map fst _)).
    { by destruct (bool_decide _). }
    intros ([k' v'] & -> & H)%list_elem_of_fmap. apply scan_prefix_spec in H as [? _]; [|done].
    simpl in Hp. congruence.
Qed.

(** The scan laws of an overlay whose base satisfies them. *)
Definition ov_scan_laws : StateStoreScanLaws (OverlayStore base).
Proof.
  refine {| st_inv := ov_wf |}; simpl.
  - apply ov_put_wf.
  - apply ov_delete_wf.
  - done.
  - intros. apply ov_restore_wf.
  - intros. by apply ov_scan_prefix_spec.
  - intros. by apply ov_scan_all_spec.
Defined.
End overlay.

(** ** Commit *)

Lemma commit_changes_eq {B} `{!StateStore B} `{!StateStoreLaws B} (base : B) (o : OverlayStore base) :
  store_eq (apply_batch (ov_into_changes o) base) o.
Proof.
  intros k. rewrite get_apply_batch, ov_into_changes_lookup. simpl. unfold ov_get.
  destruct (bool_decide (k ∈ deletes o)); [done|]. by destruct (writes o !! k).
Qed.

Lemma ov_new_eq {B} `{!StateStore B} (base : B) : store_eq (ov_new (base := base)) base.
Proof.
  intros k. simpl. unfold ov_get. simpl. rewrite bool_decide_eq_false_2 by set_solver.
  by rewrite lookup_empty.
Qed.

(** Flushing an overlay into its base as one batch gives, on every key, the
    value the overlay answered: a block staged in an overlay and committed is
    the block executed in place. *)
Theorem overlay_commit_refines {B} `{!StateStore B} `{!StateStoreLaws B}
    (base : B) (o : OverlayStore base) :
  store_eq (apply_batch (ov_into_changes o) base) o.
Proof. apply commit_changes_eq. Qed.

(** The trait documents [delete_prefix] as deleting every key with the
    prefix. On an overlay it reaches the staged writes only: a key of the base
    with the prefix survives it. *)
Theorem overlay_delete_prefix_misses_base {B} `{!StateStore B} `{!StateStoreLaws B}
    (base : B) (prefix k v : bytes) :
  starts_with prefix k = true -> st_get base k = Some v ->
  ov_get (fst (ov_delete_prefix (ov_new (base := base)) prefix)) k = Some v.
Proof.
  intros Hp Hk. unfold ov_delete_prefix, btree_range_prefix, btree_entries. simpl.
  rewrite map_to_list_empty. simpl. unfold ov_get. simpl.
  rewrite bool_decide_eq_false_2 by set_solver. by rewrite lookup_empty.
Qed.

(** ** Witnesses *)

Section witnesses.
#[local] Existing Instance memory_store.

Definition ov_demo_base : MemoryStore :=
  mem_put (fun b => b) mem_new (bytes_of_string "keep") [1].

Lemma overlay_commit_refines_witness :
  let o := ov_delete (ov_put (ov_new (base := ov_demo_base)) [7] [8]) (bytes_of_string "keep") in
  @store_eq _ _ (memory_store (fun b => b)) (@overlay_store _ (memory_store (fun b => b)) _)
    (@apply_batch _ (memory_store (fun b => b)) (ov_into_changes o) ov_demo_base) o.
Proof. apply (@overlay_commit_refines _ (memory_store (fun b => b)) (mem_laws (fun b => b))). Defined.

Lemma overlay_delete_prefix_misses_base_witness :
  @ov_get _ (memory_store (fun b => b)) _
    (fst (ov_delete_prefix (ov_new (base := ov_demo_base)) (bytes_of_string "ke")))
    (bytes_of_string "keep") = Some [1].
Proof.
  apply (@overlay_delete_prefix_misses_base _ (memory_store (fun b => b)) (mem_laws (fun b => b)));
    reflexivity.
Defined.
End witnesses.
