(* ===== verification/Staking.v ===== *)
(** The staking system contract ([crates/solen-system-contracts/src/staking.rs]):
    validator registration, delegation, unbonding, rewards, key rotation.

    Every operation takes the contract and returns the contract it leaves
    together with its value, or the error. All errors of this contract are
    raised before the first mutation, so an [Err] carries no state. *)

From S2P Require Import Prelude Types Store.
Open Scope Z_scope.

(** ** Constants *)

Definition DEFAULT_UNBONDING_PERIOD : u64 := 7.
Definition DEFAULT_MIN_VALIDATOR_STAKE : u128 := 500000 * 100000000.
Definition UNBONDING_PERIOD : u64 := DEFAULT_UNBONDING_PERIOD.
Definition MIN_VALIDATOR_STAKE : u128 := DEFAULT_MIN_VALIDATOR_STAKE.
Definition MIN_VALIDATOR_COUNT : usize := 20%nat.
Definition GENESIS_LOCK_EPOCHS : u64 := 157680.
Definition DEFAULT_COMMISSION_BPS : u64 := 1000.
Definition MAX_UNDELEGATION_ENTRIES : usize := 7%nat.

(** ** Data *)

Inductive StakingError : Type :=
| InsufficientStake (need have : u128)
| ValidatorNotFound
| DelegationNotFound
| UnbondingNotReady (remaining : u64)
| AlreadyRegistered
| GenesisLocked (unlock_epoch current_epoch : u64)
| BelowMinValidators (min : usize)
| RotationAlreadyPending
| KeyAlreadyInUse
| TooManyUndelegations.

Record Delegation : Type := mkDelegation {
  d_delegator : AccountId;
  d_validator : ValidatorId;
  d_amount : u128;
  d_reward_debt : u128;
  d_eligible_from_epoch : u64;
}.

Record Undelegation : Type := mkUndelegation {
  u_delegator : AccountId;
  u_validator : ValidatorId;
  u_amount : u128;
  u_unlock_epoch : u64;
}.

Record StakingValidator : Type := mkStakingValidator {
  sv_id : ValidatorId;
  self_stake : u128;
  total_delegated : u128;
  accumulated_reward_per_token : u128;
  is_active : bool;
  is_genesis : bool;
  genesis_lock_until : u64;
  commission_rate_bps : u64;
  sv_eligible_from_epoch : u64;
  pending_new_key : option ValidatorId;
  key_rotation_epoch : u64;
}.

Record StakingContract : Type := mkStakingContract {
  validators : list StakingValidator;
  delegations : list Delegation;
  undelegations : list Undelegation;
  min_validator_stake : option u128;
  unbonding_period : option u64;
}.

(** *** Field updates *)

Definition set_self_stake (x : u128) (v : StakingValidator) : StakingValidator :=
  mkStakingValidator (sv_id v) x (total_delegated v) (accumulated_reward_per_token v)
    (is_active v) (is_genesis v) (genesis_lock_until v) (commission_rate_bps v)
    (sv_eligible_from_epoch v) (pending_new_key v) (key_rotation_epoch v).
Definition set_total_delegated (x : u128) (v : StakingValidator) : StakingValidator :=
  mkStakingValidator (sv_id v) (self_stake v) x (accumulated_reward_per_token v)
    (is_active v) (is_genesis v) (genesis_lock_until v) (commission_rate_bps v)
    (sv_eligible_from_epoch v) (pending_new_key v) (key_rotation_epoch v).
Definition set_accumulated_reward (x : u128) (v : StakingValidator) : StakingValidator :=
  mkStakingValidator (sv_id v) (self_stake v) (total_delegated v) x
    (is_active v) (is_genesis v) (genesis_lock_until v) (commission_rate_bps v)
    (sv_eligible_from_epoch v) (pending_new_key v) (key_rotation_epoch v).
Definition set_is_active (x : bool) (v : StakingValidator) : StakingValidator :=
  mkStakingValidator (sv_id v) (self_stake v) (total_delegated v)
    (accumulated_reward_per_token v) x (is_genesis v) (genesis_lock_until v)
    (commission_rate_bps v) (sv_eligible_from_epoch v) (pending_new_key v)
    (key_rotation_epoch v).
Definition set_commission_rate (x : u64) (v : StakingValidator) : StakingValidator :=
  mkStakingValidator (sv_id v) (self_stake v) (total_delegated v)
    (accumulated_reward_per_token v) (is_active v) (is_genesis v) (genesis_lock_until v)
    x (sv_eligible_from_epoch v) (pending_new_key v) (key_rotation_epoch v).
Definition set_pending_key (k : option ValidatorId) (e : u64) (v : StakingValidator) :
    StakingValidator :=
  mkStakingValidator (sv_id v) (self_stake v) (total_delegated v)
    (accumulated_reward_per_token v) (is_active v) (is_genesis v) (genesis_lock_until v)
    (commission_rate_bps v) (sv_eligible_from_epoch v) k e.
Definition set_sv_id (k : ValidatorId) (v : StakingValidator) : StakingValidator :=
  mkStakingValidator k (self_stake v) (total_delegated v) (accumulated_reward_per_token v)
    (is_active v) (is_genesis v) (genesis_lock_until v) (commission_rate_bps v)
    (sv_eligible_from_epoch v) (pending_new_key v) (key_rotation_epoch v).

Definition set_sv_eligible (e : u64) (v : StakingValidator) : StakingValidator :=
  mkStakingValidator (sv_id v) (self_stake v) (total_delegated v)
    (accumulated_reward_per_token v) (is_active v) (is_genesis v) (genesis_lock_until v)
    (commission_rate_bps v) e (pending_new_key v) (key_rotation_epoch v).

Definition set_d_amount (x : u128) (d : Delegation) : Delegation :=
  mkDelegation (d_delegator d) (d_validator d) x (d_reward_debt d) (d_eligible_from_epoch d).
Definition set_d_reward_debt (x : u128) (d : Delegation) : Delegation :=
  mkDelegation (d_delegator d) (d_validator d) (d_amount d) x (d_eligible_from_epoch d).
Definition set_d_validator (x : ValidatorId) (d : Delegation) : Delegation :=
  mkDelegation (d_delegator d) x (d_amount d) (d_reward_debt d) (d_eligible_from_epoch d).
Definition set_u_validator (x : ValidatorId) (u : Undelegation) : Undelegation :=
  mkUndelegation (u_delegator u) x (u_amount u) (u_unlock_epoch u).

Definition with_validators (l : list StakingValidator) (c : StakingContract) : StakingContract :=
  mkStakingContract l (delegations c) (undelegations c) (min_validator_stake c)
    (unbonding_period c).
Definition with_delegations (l : list Delegation) (c : StakingContract) : StakingContract :=
  mkStakingContract (validators c) l (undelegations c) (min_validator_stake c)
    (unbonding_period c).
Definition with_undelegations (l : list Undelegation) (c : StakingContract) : StakingContract :=
  mkStakingContract (validators c) (delegations c) l (min_validator_stake c)
    (unbonding_period c).

(** [v.id == id] and the pair test of a delegation. *)
Definition has_id (id : ValidatorId) (v : StakingValidator) : bool := bytes_eqb (sv_id v) id.
Definition is_pair (del : AccountId) (val : ValidatorId) (d : Delegation) : bool :=
  bytes_eqb (d_delegator d) del && bytes_eqb (d_validator d) val.
Definition is_upair (del : AccountId) (val : ValidatorId) (u : Undelegation) : bool :=
  bytes_eqb (u_delegator u) del && bytes_eqb (u_validator u) val.

(** ** Operations *)

Definition staking_default : StakingContract := mkStakingContract [] [] [] None None.

Definition total_stake (v : StakingValidator) : u128 :=
  u128_add (self_stake v) (total_delegated v).

Definition register_validator_with_min_stake (id : ValidatorId) (stake min_stake : u128)
    (c : StakingContract) : result StakingContract StakingError :=
  if stake <? min_stake then Err (InsufficientStake min_stake stake)
  else if existsb (has_id id) (validators c) then Err AlreadyRegistered
  else Ok (with_validators (validators c ++
    [mkStakingValidator id stake 0 0 true false 0 DEFAULT_COMMISSION_BPS u64_max None 0]) c).

Definition register_validator (id : ValidatorId) (stake : u128) (c : StakingContract) :
    result StakingContract StakingError :=
  register_validator_with_min_stake id stake MIN_VALIDATOR_STAKE c.

Definition register_validator_at_epoch_with_config (id : ValidatorId) (stake : u128)
    (current_epoch : u64) (min_stake : u128) (c : StakingContract) :
    result StakingContract StakingError :=
  if stake <? min_stake then Err (InsufficientStake min_stake stake)
  else if existsb (has_id id) (validators c) then Err AlreadyRegistered
  else Ok (with_validators (validators c ++
    [mkStakingValidator id stake 0 0 true false 0 DEFAULT_COMMISSION_BPS
       (u64_add current_epoch 1) None 0]) c).

Definition register_validator_at_epoch (id : ValidatorId) (stake : u128)
    (current_epoch : u64) (c : StakingContract) : result StakingContract StakingError :=
  register_validator_at_epoch_with_config id stake current_epoch MIN_VALIDATOR_STAKE c.

Definition register_genesis_validator (id : ValidatorId) (stake : u128)
    (c : StakingContract) : result StakingContract StakingError :=
  if existsb (has_id id) (validators c) then Err AlreadyRegistered
  else Ok (with_validators (validators c ++
    [mkStakingValidator id stake 0 0 true true GENESIS_LOCK_EPOCHS DEFAULT_COMMISSION_BPS
       0 None 0]) c).

Definition active_validators (c : StakingContract) : list StakingValidator :=
  List.filter is_active (validators c).

Definition active_validator_count (c : StakingContract) : usize :=
  length (active_validators c).

Definition deregister_validator (id : ValidatorId) (current_epoch : u64)
    (c : StakingContract) : result (StakingContract * u128) StakingError :=
  let! v := ok_or (List.find (has_id id) (validators c)) ValidatorNotFound in
  if is_genesis v && (current_epoch <? genesis_lock_until v)
  then Err (GenesisLocked (genesis_lock_until v) current_epoch)
  else if (active_validator_count c <=? MIN_VALIDATOR_COUNT)%nat
  then Err (BelowMinValidators MIN_VALIDATOR_COUNT)
  else Ok (with_validators
             (update_first (has_id id) (fun v => set_self_stake 0 (set_is_active false v))
                (validators c)) c,
           self_stake v).

Definition delegate_at_epoch (delegator : AccountId) (validator : ValidatorId) (amount : u128)
    (current_epoch : u64) (c : StakingContract) : result StakingContract StakingError :=
  let! v := ok_or (List.find (has_id validator) (validators c)) ValidatorNotFound in
  let c := with_validators (update_first (has_id validator)
             (fun v => set_total_delegated (sat_add128 (total_delegated v) amount) v)
             (validators c)) c in
  let reward_debt := sat_mul128 (accumulated_reward_per_token v) amount / 1000000 in
  match List.find (is_pair delegator validator) (delegations c) with
  | Some _ =>
      Ok (with_delegations (update_first (is_pair delegator validator)
            (fun d => set_d_reward_debt (sat_add128 (d_reward_debt d) reward_debt)
                        (set_d_amount (sat_add128 (d_amount d) amount) d))
            (delegations c)) c)
  | None =>
      Ok (with_delegations (delegations c ++
            [mkDelegation delegator validator amount reward_debt (u64_add current_epoch 1)]) c)
  end.

Definition delegate (delegator : AccountId) (validator : ValidatorId) (amount : u128)
    (c : StakingContract) : result StakingContract StakingError :=
  delegate_at_epoch delegator validator amount 0 c.

Definition undelegate (delegator : AccountId) (validator : ValidatorId) (amount : u128)
    (current_epoch : u64) (c : StakingContract) : result StakingContract StakingError :=
  let! d := ok_or (List.find (is_pair delegator validator) (delegations c))
                  DelegationNotFound in
  if d_amount d <? amount then Err (InsufficientStake amount (d_amount d))
  else
  let existing_count :=
    length (List.filter (is_upair delegator validator) (undelegations c)) in
  if (MAX_UNDELEGATION_ENTRIES <=? existing_count)%nat then Err TooManyUndelegations
  else
  let rest := u128_sub (d_amount d) amount in
  let c := with_delegations
             (update_first (is_pair delegator validator) (set_d_amount rest) (delegations c)) c in
  let c := if rest =? 0
           then with_delegations
                  (List.filter (fun d => negb (is_pair delegator validator d && (d_amount d =? 0)))
                     (delegations c)) c
           else c in
  let c := with_validators (update_first (has_id validator)
             (fun v => set_total_delegated (sat_sub (total_delegated v) amount) v)
             (validators c)) c in
  Ok (with_undelegations (undelegations c ++
        [mkUndelegation delegator validator amount
           (u64_add current_epoch (default UNBONDING_PERIOD (unbonding_period c)))]) c).

(** The test the retaining closure makes; what it drops is added up. *)
Definition withdrawable (delegator : AccountId) (current_epoch : u64) (u : Undelegation) : bool :=
  bytes_eqb (u_delegator u) delegator && (u_unlock_epoch u <=? current_epoch).

Definition withdraw_undelegated (delegator : AccountId) (current_epoch : u64)
    (c : StakingContract) : StakingContract * u128 :=
  (with_undelegations
     (List.filter (fun u => negb (withdrawable delegator current_epoch u)) (undelegations c)) c,
   u128_sum (map u_amount
     (List.filter (withdrawable delegator current_epoch) (undelegations c)))).

Definition distribute_rewards (validator : ValidatorId) (reward : u128) (c : StakingContract) :
    result StakingContract StakingError :=
  let! v := ok_or (List.find (has_id validator) (validators c)) ValidatorNotFound in
  if 0 <? total_stake v
  then Ok (with_validators (update_first (has_id validator)
         (fun v => set_accumulated_reward
            (u128_add (accumulated_reward_per_token v)
               (u128_mul reward 1000000 / total_stake v)) v)
         (validators c)) c)
  else Ok c.

Definition get_validator (id : ValidatorId) (c : StakingContract) : option StakingValidator :=
  List.find (has_id id) (validators c).

Definition delegator_total_stake (delegator : AccountId) (c : StakingContract) : u128 :=
  u128_sum (map d_amount
    (List.filter (fun d => bytes_eqb (d_delegator d) delegator) (delegations c))).

Definition set_commission (validator_id : ValidatorId) (commission_bps : u64)
    (c : StakingContract) : result StakingContract StakingError :=
  let! _ := ok_or (List.find (has_id validator_id) (validators c)) ValidatorNotFound in
  Ok (with_validators (update_first (has_id validator_id)
        (set_commission_rate (Z.min commission_bps 10000)) (validators c)) c).

Definition unjail (validator_id : ValidatorId) (c : StakingContract) :
    result StakingContract StakingError :=
  let! v := ok_or (List.find (has_id validator_id) (validators c)) ValidatorNotFound in
  if is_active v then Ok c
  else
  let min_stake := default MIN_VALIDATOR_STAKE (min_validator_stake c) in
  if self_stake v <? min_stake then Err (InsufficientStake min_stake (self_stake v))
  else Ok (with_validators (update_first (has_id validator_id) (set_is_active true)
             (validators c)) c).

Definition rotate_key (validator_id : ValidatorId) (new_key : ValidatorId)
    (current_epoch : u64) (c : StakingContract) : result StakingContract StakingError :=
  if existsb (has_id new_key) (validators c) then Err KeyAlreadyInUse
  else
  let! v := ok_or (List.find (has_id validator_id) (validators c)) ValidatorNotFound in
  match pending_new_key v with
  | Some _ => Err RotationAlreadyPending
  | None => Ok (with_validators (update_first (has_id validator_id)
                  (set_pending_key (Some new_key) (u64_add current_epoch 1))
                  (validators c)) c)
  end.

(** One turn of the first loop: the validator it leaves and the pair it
    records. *)
Definition rotate_one (current_epoch : u64) (v : StakingValidator) :
    StakingValidator * list (ValidatorId * ValidatorId) :=
  match pending_new_key v with
  | Some new_key =>
      if key_rotation_epoch v <=? current_epoch
      then (set_pending_key None 0 (set_sv_id new_key v), [(sv_id v, new_key)])
      else (v, [])
  | None => (v, [])
  end.

Definition rename_delegation (p : ValidatorId * ValidatorId) (d : Delegation) : Delegation :=
  if bytes_eqb (d_validator d) (fst p) then set_d_validator (snd p) d else d.
Definition rename_undelegation (p : ValidatorId * ValidatorId) (u : Undelegation) :
    Undelegation :=
  if bytes_eqb (u_validator u) (fst p) then set_u_validator (snd p) u else u.

Definition apply_pending_rotations (current_epoch : u64) (c : StakingContract) :
    StakingContract * list (ValidatorId * ValidatorId) :=
  let vs := map (fun v => fst (rotate_one current_epoch v)) (validators c) in
  let rotated := concat (map (fun v => snd (rotate_one current_epoch v)) (validators c)) in
  let '(ds, us) := fold_left
    (fun acc p => (map (rename_delegation p) (fst acc), map (rename_undelegation p) (snd acc)))
    rotated (delegations c, undelegations c) in
  (with_undelegations us (with_delegations ds (with_validators vs c)), rotated).

(** *** Slashing ([call_slash] of
    [crates/solen-execution/src/system_calls.rs], on the contract record) *)

Definition MAX_SLASH_BPS : u64 := 1000.

Definition self_penalty (penalty_bps : u64) (v : StakingValidator) : u128 :=
  sat_mul128 (self_stake v) penalty_bps / 10000.
Definition delegation_penalty (penalty_bps : u64) (d : Delegation) : u128 :=
  sat_mul128 (d_amount d) penalty_bps / 10000.

(** The loop over the delegations to the offender: the records it leaves and
    the penalties it adds up. *)
Definition slash_delegations (offender : ValidatorId) (penalty_bps : u64)
    (ds : list Delegation) : list Delegation * u128 :=
  fold_left (fun acc d =>
    if bytes_eqb (d_validator d) offender then
      let p := delegation_penalty penalty_bps d in
      (fst acc ++ [set_d_amount (sat_sub (d_amount d) p) d], sat_add128 (snd acc) p)
    else (fst acc ++ [d], snd acc)) ds ([], 0).

(** The contract after the penalty, and what was taken. *)
Definition slash_contract (offender : ValidatorId) (penalty_bps : u64) (current_epoch : u64)
    (c : StakingContract) : StakingContract * u128 :=
  let total_penalty :=
    match List.find (has_id offender) (validators c) with
    | Some v => sat_add128 0 (self_penalty penalty_bps v)
    | None => 0
    end in
  let c := with_validators (update_first (has_id offender)
    (fun v => set_sv_eligible (u64_add current_epoch 1) (set_is_active false
       (set_self_stake (sat_sub (self_stake v) (self_penalty penalty_bps v)) v)))
    (validators c)) c in
  let '(ds, delegated_penalty) := slash_delegations offender penalty_bps (delegations c) in
  let c := with_delegations ds c in
  if 0 <? delegated_penalty
  then (with_validators (update_first (has_id offender)
          (fun v => set_total_delegated (sat_sub (total_delegated v) delegated_penalty) v)
          (validators c)) c,
        sat_add128 total_penalty delegated_penalty)
  else (c, total_penalty).

Definition delegations_for_validator (id : ValidatorId) (c : StakingContract) : list Delegation :=
  List.filter (fun d => bytes_eqb (d_validator d) id) (delegations c).

Definition eligible_delegations_for_validator (id : ValidatorId) (epoch : u64)
    (c : StakingContract) : list Delegation :=
  List.filter (fun d => bytes_eqb (d_validator d) id && (d_eligible_from_epoch d <=? epoch))
    (delegations c).

Definition eligible_validators (epoch : u64) (c : StakingContract) : list StakingValidator :=
  List.filter (fun v => is_active v && (sv_eligible_from_epoch v <=? epoch)) (validators c).

Definition total_active_stake (c : StakingContract) : u128 :=
  u128_sum (map total_stake (active_validators c)).

Definition STAKING_STORAGE_KEY : bytes := Eval vm_compute in bytes_of_string "__staking_state__".

Definition staking_load {S} `{!StateStore S, !Codec StakingContract} (s : S) : StakingContract :=
  load_record STAKING_STORAGE_KEY staking_default s.
Definition staking_save {S} `{!StateStore S, !Codec StakingContract} (c : StakingContract) (s : S) :
    S := save_record STAKING_STORAGE_KEY c s.

(** ** The invariant

    [delegated_to] is what the delegation records say a validator holds, and
    [locked_tokens] everything the contract owes: self stakes, delegations
    and undelegations on their way out. *)

Definition d_share (id : ValidatorId) (d : Delegation) : Z :=
  if bytes_eqb (d_validator d) id then d_amount d else 0.
Definition delegated_to (id : ValidatorId) (c : StakingContract) : Z :=
  sumZ (map (d_share id) (delegations c)).
Definition locked_tokens (c : StakingContract) : Z :=
  sumZ (map self_stake (validators c)) + sumZ (map d_amount (delegations c))
  + sumZ (map u_amount (undelegations c)).
Definition pending_keys (c : StakingContract) : list ValidatorId :=
  omap pending_new_key (validators c).
Definition d_pair (d : Delegation) : AccountId * ValidatorId := (d_delegator d, d_validator d).

Record staking_wf (c : StakingContract) : Prop := {
  wf_ids : NoDup (map sv_id (validators c) ++ pending_keys c);
  wf_pairs : NoDup (map d_pair (delegations c));
  wf_known : Forall (fun d => d_validator d ∈ map sv_id (validators c)) (delegations c);
  wf_totals : Forall (fun v => total_delegated v = delegated_to (sv_id v) c) (validators c);
  wf_self : Forall (fun v => 0 <= self_stake v) (validators c);
  wf_damounts : Forall (fun d => 0 <= d_amount d) (delegations c);
  wf_uamounts : Forall (fun u => 0 <= u_amount u) (undelegations c);
  wf_bound : locked_tokens c <= u128_max;
}.

(** *** Lookups *)

Lemma has_id_spec id v : has_id id v = true <-> sv_id v = id.
Proof. apply bytes_eqb_true. Qed.

Lemma is_pair_spec del val d : is_pair del val d = true <-> d_pair d = (del, val).
Proof. unfold is_pair, d_pair. rewrite andb_true_iff, !bytes_eqb_true. naive_solver. Qed.

Lemma wf_ids_nodup c : staking_wf c -> NoDup (map sv_id (validators c)).
Proof. intros [H _]%wf_ids%NoDup_app. exact H. Qed.

Lemma d_share_sum_le id l :
  Forall (fun d => 0 <= d_amount d) l ->
  0 <= sumZ (map (d_share id) l) <= sumZ (map d_amount l).
Proof.
  intros Hl. rewrite Forall_forall in Hl.
  assert (Hd : forall d, d ∈ l -> 0 <= d_share id d <= d_amount d).
  { intros d Hd. unfold d_share. specialize (Hl d Hd). destruct bytes_eqb; lia. }
  split; [apply sumZ_map_nonneg|apply sumZ_map_le]; intros d Hin; apply Hd; done.
Qed.

Lemma find_by_pair c del val d :
  List.find (is_pair del val) (delegations c) = Some d ->
  d ∈ delegations c /\ d_delegator d = del /\ d_validator d = val.
Proof. intros [? H]%find_elem. apply is_pair_spec in H. unfold d_pair in H. by simplify_eq. Qed.

(** The three parts of the locked tokens are not negative. *)
Lemma wf_parts c : staking_wf c ->
  0 <= sumZ (map self_stake (validators c)) /\ 0 <= sumZ (map d_amount (delegations c))
  /\ 0 <= sumZ (map u_amount (undelegations c)).
Proof.
  intros []. repeat split; apply sumZ_map_nonneg; by apply Forall_forall.
Qed.

Lemma wf_delegated_le c id : staking_wf c ->
  0 <= delegated_to id c <= sumZ (map d_amount (delegations c)).
Proof. intros Hc. apply d_share_sum_le, Hc. Qed.

(** The delegation records add up to the totals of the validators. *)
Lemma delegated_sum c :
  staking_wf c -> sumZ (map d_amount (delegations c)) = sumZ (map total_delegated (validators c)).
Proof.
  intros Hc. pose proof (wf_totals c Hc) as Ht. rewrite Forall_forall in Ht.
  rewrite (sumZ_map_ext total_delegated (fun v => delegated_to (sv_id v) c)) by done.
  pose proof (wf_known c Hc) as Hk. pose proof (wf_ids_nodup c Hc) as Hn. clear Ht.
  unfold delegated_to. induction (delegations c) as [|d ds IH]; simpl.
  - clear. induction (validators c); simpl; lia.
  - apply Forall_cons in Hk as [Hd Hk]. rewrite IH by done.
    assert (Hsplit : forall vs, sumZ (map (fun v => d_share (sv_id v) d
        + sumZ (map (d_share (sv_id v)) ds)) vs)
      = sumZ (map (fun v => d_share (sv_id v) d) vs)
        + sumZ (map (fun v => sumZ (map (d_share (sv_id v)) ds)) vs)).
    { induction vs; simpl; lia. }
    rewrite Hsplit. f_equal. clear -Hd Hn.
    induction (validators c) as [|v vs IH]; [by apply not_elem_of_nil in Hd|]. simpl in *.
    apply NoDup_cons in Hn as [Hv Hn]. unfold d_share at 1.
    destruct (bytes_eqb (d_validator d) (sv_id v)) eqn:E.
    + apply bytes_eqb_true in E. rewrite (sumZ_map_ext _ (fun _ => 0)).
      * clear. induction vs; simpl; lia.
      * intros w Hw. unfold d_share. destruct (bytes_eqb _ (sv_id w)) eqn:E2; [|done].
        apply bytes_eqb_true in E2. destruct Hv. rewrite <- E, E2. by apply list_elem_of_fmap_2.
    + apply bytes_eqb_false in E. apply elem_of_cons in Hd as [?|Hd]; [congruence|].
      rewrite <- IH by done. lia.
Qed.

(** The stake of a registered validator does not wrap. *)
Lemma total_stake_exact c v : staking_wf c -> v ∈ validators c ->
  total_stake v = self_stake v + total_delegated v
  /\ 0 <= self_stake v /\ 0 <= total_delegated v
  /\ total_delegated v = delegated_to (sv_id v) c.
Proof.
  intros Hc Hv. pose proof (wf_parts c Hc) as (? & ? & ?). pose proof (wf_bound c Hc) as Hb.
  unfold locked_tokens in Hb.
  pose proof (proj1 (Forall_forall _ _) (wf_self c Hc) v Hv) as Hs.
  pose proof (proj1 (Forall_forall _ _) (wf_totals c Hc) v Hv) as Ht.
  pose proof (sumZ_elem_le self_stake _ v (proj1 (Forall_forall _ _) (wf_self c Hc)) Hv).
  pose proof (wf_delegated_le c (sv_id v) Hc). simpl in *. unfold total_stake.
  rewrite u128_add_exact by lia. split; [done|]. split; [done|]. split; [lia|done].
Qed.

(** The total stake of a selection of the validators. *)
Lemma stake_sum_exact p c : staking_wf c ->
  u128_sum (map total_stake (List.filter p (validators c)))
  = sumZ (map self_stake (List.filter p (validators c)))
    + sumZ (map total_delegated (List.filter p (validators c))).
Proof.
  intros Hc. pose proof (wf_parts c Hc) as (? & ? & ?). pose proof (wf_bound c Hc) as Hb.
  unfold locked_tokens in Hb. set (l := List.filter p (validators c)).
  assert (Hin : forall v, v ∈ l -> v ∈ validators c).
  { intros v Hv. apply list_elem_of_In, filter_In in Hv as [Hv _]. by apply list_elem_of_In. }
  assert (Hex : forall v, v ∈ validators c -> total_stake v = self_stake v + total_delegated v
    /\ 0 <= self_stake v /\ 0 <= total_delegated v)
    by (intros v Hv; destruct (total_stake_exact c v Hc Hv) as (? & ? & ? & _); auto).
  pose proof (sumZ_filter_le self_stake p (validators c) ltac:(intros y Hy; by apply Hex)) as Hf1.
  pose proof (sumZ_filter_le total_delegated p (validators c) ltac:(intros y Hy; by apply Hex)) as Hf2.
  pose proof (delegated_sum c Hc) as Hsum. fold l in Hf1, Hf2.
  rewrite <- sumZ_map_add.
  rewrite (map_ext_in total_stake (fun v => self_stake v + total_delegated v) l)
    by (intros v Hv%list_elem_of_In; by apply Hex, Hin).
  apply u128_sum_exact; [|rewrite sumZ_map_add; lia].
  apply Forall_map, Forall_forall. intros v Hv%Hin. destruct (Hex v Hv) as (_ & ? & ?). lia.
Qed.

(** A delegation record never exceeds the total of its validator. *)
Lemma wf_amount_le c del val d : staking_wf c ->
  List.find (is_pair del val) (delegations c) = Some d ->
  0 <= d_amount d <= delegated_to val c.
Proof.
  intros Hc (Hin & _ & Hval)%find_by_pair. pose proof (wf_damounts c Hc) as Hp.
  rewrite Forall_forall in Hp. split; [by apply Hp|].
  transitivity (d_share val d); [unfold d_share; by rewrite Hval, bytes_eqb_refl|].
  apply (sumZ_elem_le (d_share val)); [|done].
  intros y Hy. unfold d_share. specialize (Hp y Hy). destruct bytes_eqb; lia.
Qed.

Lemma wf_find_total c val v : staking_wf c ->
  List.find (has_id val) (validators c) = Some v ->
  total_delegated v = delegated_to val c.
Proof.
  intros Hc [Hin Hid]%find_elem. apply has_id_spec in Hid. subst.
  pose proof (wf_totals c Hc) as Ht. rewrite Forall_forall in Ht. by apply Ht.
Qed.

(** *** Updates of one validator

    An update that keeps identifier, pending key and stakes keeps the
    invariant and the locked tokens. *)

Definition benign (f : StakingValidator -> StakingValidator) : Prop :=
  forall v, sv_id (f v) = sv_id v /\ pending_new_key (f v) = pending_new_key v
            /\ self_stake (f v) = self_stake v /\ total_delegated (f v) = total_delegated v.

Lemma omap_update_first {A B} (p : A -> bool) f (g : A -> option B) l :
  (forall x, g (f x) = g x) -> omap g (update_first p f l) = omap g l.
Proof.
  intros Hf. induction l as [|x l IH]; csimpl; [done|].
  destruct (p x); csimpl; [by rewrite Hf|by rewrite IH].
Qed.

Lemma benign_update_wf c p f :
  benign f -> staking_wf c -> staking_wf (with_validators (update_first p f (validators c)) c).
Proof.
  intros Hf Hc.
  assert (Hid : map sv_id (update_first p f (validators c)) = map sv_id (validators c)).
  { apply update_first_map. intros v _. apply Hf. }
  assert (Hss : map self_stake (update_first p f (validators c)) = map self_stake (validators c)).
  { apply update_first_map. intros v _. apply Hf. }
  destruct Hc. split; simpl; rewrite ?Hid; auto.
  - unfold pending_keys. simpl. rewrite omap_update_first; [done|]. intros v. apply Hf.
  - apply update_first_Forall; [done|]. intros v _ Hv. destruct (Hf v) as (Hi & _ & _ & Ht).
    unfold delegated_to in *. simpl. by rewrite Hi, Ht.
  - apply update_first_Forall; [done|]. intros v _ Hv. destruct (Hf v) as (_ & _ & Hs & _). lia.
  - unfold locked_tokens in *. simpl. by rewrite Hss.
Qed.

Lemma benign_update_locked c p f :
  benign f ->
  locked_tokens (with_validators (update_first p f (validators c)) c) = locked_tokens c.
Proof.
  intros Hf. unfold locked_tokens. simpl. rewrite update_first_map; [done|].
  intros v _. apply Hf.
Qed.

(** *** Registration and exit *)

Lemma delegated_to_unknown c id :
  staking_wf c -> id ∉ map sv_id (validators c) -> delegated_to id c = 0.
Proof.
  intros Hc Hid. pose proof (wf_known c Hc) as Hk. rewrite Forall_forall in Hk.
  unfold delegated_to. rewrite (sumZ_map_ext _ (fun _ => 0)).
  - induction (delegations c) as [|d ds IH]; simpl; [done|]. rewrite IH; [done|]. set_solver.
  - intros d Hd. unfold d_share. destruct (bytes_eqb _ _) eqn:E; [|done].
    apply bytes_eqb_true in E. destruct Hid. rewrite <- E. auto.
Qed.

Lemma push_validator_wf c v :
  staking_wf c -> sv_id v ∉ map sv_id (validators c) -> sv_id v ∉ pending_keys c ->
  pending_new_key v = None -> total_delegated v = 0 -> 0 <= self_stake v ->
  locked_tokens c + self_stake v <= u128_max ->
  staking_wf (with_validators (validators c ++ [v]) c)
  /\ locked_tokens (with_validators (validators c ++ [v]) c) = locked_tokens c + self_stake v.
Proof.
  intros Hc Hid Hpk Hnone Htot Hss Hb.
  assert (Hl : locked_tokens (with_validators (validators c ++ [v]) c)
               = locked_tokens c + self_stake v).
  { unfold locked_tokens. simpl. rewrite map_app, sumZ_app. simpl. lia. }
  split; [|done]. pose proof (delegated_to_unknown c _ Hc Hid) as Hz.
  destruct Hc. split; simpl; auto.
  - unfold pending_keys in *. simpl. rewrite omap_app. csimpl. rewrite Hnone, app_nil_r.
    rewrite map_app, <- app_assoc. simpl. apply NoDup_app in wf_ids0 as (? & Hd & ?).
    apply NoDup_app. split; [done|]. split; [|apply NoDup_cons; split; [done|done]].
    intros x Hx. specialize (Hd x Hx).
    assert (x <> sv_id v) by (by intros ->). set_solver.
  - eapply Forall_impl; [exact wf_known0|]. intros d Hd. rewrite map_app. apply elem_of_app. by left.
  - apply Forall_app. split; [done|]. constructor; [|done]. by rewrite Htot.
  - apply Forall_app. split; [done|]. by constructor.
  - lia.
Qed.

Lemma retire_validator_wf c id v :
  staking_wf c -> List.find (has_id id) (validators c) = Some v ->
  let c' := with_validators
              (update_first (has_id id) (fun v => set_self_stake 0 (set_is_active false v))
                 (validators c)) c in
  staking_wf c' /\ locked_tokens c' = locked_tokens c - self_stake v.
Proof.
  intros Hc Hf. simpl.
  assert (Hl : locked_tokens (with_validators
                 (update_first (has_id id) (fun v => set_self_stake 0 (set_is_active false v))
                    (validators c)) c) = locked_tokens c - self_stake v).
  { unfold locked_tokens. simpl. rewrite (sumZ_update_first _ _ _ _ _ Hf). simpl. lia. }
  split; [|done]. apply find_elem in Hf as [Hin _].
  destruct Hc. split; simpl; auto.
  - rewrite update_first_map by done. unfold pending_keys. simpl.
    by rewrite omap_update_first.
  - by rewrite update_first_map.
  - by apply update_first_Forall.
  - apply update_first_Forall; [done|]. simpl. lia.
  - rewrite Hl. rewrite Forall_forall in wf_self0. specialize (wf_self0 v Hin). lia.
Qed.

(** *** Delegation and undelegation

    Both change one delegation record and the total of its validator by the
    same amount. *)

Lemma retarget_wf c val g delta ds us :
  staking_wf c ->
  (forall id, sumZ (map (d_share id) ds)
              = delegated_to id c + (if bytes_eqb val id then delta else 0)) ->
  (forall v, total_delegated v = delegated_to val c -> g v = delegated_to val c + delta) ->
  NoDup (map d_pair ds) ->
  Forall (fun d => d_validator d ∈ map sv_id (validators c)) ds ->
  Forall (fun d => 0 <= d_amount d) ds -> Forall (fun u => 0 <= u_amount u) us ->
  let c' := with_undelegations us (with_delegations ds (with_validators
    (update_first (has_id val) (fun v => set_total_delegated (g v) v) (validators c)) c)) in
  locked_tokens c' <= u128_max -> staking_wf c'.
Proof.
  intros Hc Hsh Hg Hnd Hk Hda Hua c' Hb.
  assert (Hid : map sv_id (validators c') = map sv_id (validators c)).
  { unfold c'. simpl. by apply update_first_map. }
  split; try done; simpl; fold c'.
  - change (update_first _ _ _) with (validators c'). rewrite Hid.
    unfold pending_keys, c'. simpl. rewrite omap_update_first by done. apply (wf_ids c Hc).
  - change (update_first _ _ _) with (validators c'). by rewrite Hid.
  - rewrite (update_first_unique sv_id val) by eauto using has_id_spec, wf_ids_nodup.
    apply Forall_map. eapply Forall_impl; [apply (wf_totals c Hc)|]. intros v Hv. simpl in *.
    unfold has_id, delegated_to at 1. simpl. rewrite Hsh.
    destruct (bytes_eqb (sv_id v) val) eqn:E; simpl.
    + apply bytes_eqb_true in E. rewrite E in *. rewrite bytes_eqb_refl. by apply Hg.
    + assert (bytes_eqb val (sv_id v) = false) as ->
        by (apply bytes_eqb_false in E; by apply bytes_eqb_false).
      rewrite Z.add_0_r. exact Hv.
  - apply update_first_Forall; [apply (wf_self c Hc)|done].
Qed.

Lemma find_known c val v :
  List.find (has_id val) (validators c) = Some v -> val ∈ map sv_id (validators c).
Proof. intros [Hin <-%has_id_spec]%find_elem. by apply list_elem_of_fmap_2. Qed.

(** The delegation records after a delegation of [amount]. *)
Lemma delegate_records c del val amount rd ep :
  staking_wf c -> val ∈ map sv_id (validators c) -> 0 <= amount ->
  locked_tokens c + amount <= u128_max ->
  let ds := match List.find (is_pair del val) (delegations c) with
            | Some _ => update_first (is_pair del val)
                (fun d => set_d_reward_debt (sat_add128 (d_reward_debt d) rd)
                            (set_d_amount (sat_add128 (d_amount d) amount) d)) (delegations c)
            | None => delegations c ++ [mkDelegation del val amount rd ep]
            end in
  NoDup (map d_pair ds)
  /\ Forall (fun d => d_validator d ∈ map sv_id (validators c)) ds
  /\ Forall (fun d => 0 <= d_amount d) ds
  /\ sumZ (map d_amount ds) = sumZ (map d_amount (delegations c)) + amount
  /\ (forall id, sumZ (map (d_share id) ds)
        = delegated_to id c + (if bytes_eqb val id then amount else 0)).
Proof.
  intros Hc Hval Ha Hb ds. unfold ds. clear ds.
  pose proof (wf_parts c Hc) as (? & ? & ?).
  destruct (List.find _ _) as [d|] eqn:Hf.
  - pose proof (wf_amount_le _ _ _ _ Hc Hf). pose proof (wf_delegated_le c val Hc).
    assert (Hsat : sat_add128 (d_amount d) amount = d_amount d + amount).
    { apply sat_add128_exact. unfold locked_tokens in Hb. lia. }
    pose proof (find_by_pair _ _ _ _ Hf) as (_ & _ & Hdv).
    repeat split.
    + rewrite update_first_map by done. apply (wf_pairs c Hc).
    + apply update_first_Forall; [apply (wf_known c Hc)|done].
    + apply update_first_Forall; [apply (wf_damounts c Hc)|]. intros x _ Hx. simpl.
      unfold sat_add128, u128_max. lia.
    + rewrite (sumZ_update_first _ _ _ _ _ Hf). simpl. lia.
    + intros id. rewrite (sumZ_update_first _ _ _ _ _ Hf). unfold delegated_to, d_share at 2 3.
      simpl. rewrite Hdv. destruct (bytes_eqb val id); lia.
  - repeat split.
    + rewrite map_app. apply NoDup_app. split; [apply (wf_pairs c Hc)|].
      split; [|apply NoDup_singleton]. intros p Hp. simpl. intros ->%list_elem_of_singleton.
      apply list_elem_of_fmap in Hp as (d & Hd & Hin).
      pose proof (find_none_elem _ _ Hf d Hin) as Hn.
      assert (is_pair del val d = true) by (apply is_pair_spec; by rewrite <- Hd). congruence.
    + apply Forall_app. split; [apply (wf_known c Hc)|]. by constructor.
    + apply Forall_app. split; [apply (wf_damounts c Hc)|]. by constructor.
    + rewrite map_app, sumZ_app. simpl. lia.
    + intros id. rewrite map_app, sumZ_app. unfold delegated_to, d_share at 2. simpl. lia.
Qed.

Lemma delegate_wf c del val amount ep c' :
  staking_wf c -> 0 <= amount -> locked_tokens c + amount <= u128_max ->
  delegate_at_epoch del val amount ep c = Ok c' ->
  staking_wf c' /\ locked_tokens c' = locked_tokens c + amount.
Proof.
  intros Hc Ha Hb Hd. unfold delegate_at_epoch, ok_or in Hd. simpl in Hd.
  destruct (List.find (has_id val) _) as [v|] eqn:Hf; [|done]. simpl in Hd.
  pose proof (find_known _ _ _ Hf) as Hval.
  set (rd := sat_mul128 _ _ / _) in Hd.
  pose proof (delegate_records c del val amount rd (u64_add ep 1) Hc Hval Ha Hb)
    as (Hnd & Hk & Hda & Hsum & Hsh).
  set (ds := match List.find _ _ with Some _ => update_first _ _ _ | None => _ end) in *.
  assert (c' = with_undelegations (undelegations c) (with_delegations ds (with_validators
    (update_first (has_id val)
       (fun v => set_total_delegated (sat_add128 (total_delegated v) amount) v)
       (validators c)) c))) as ->.
  { unfold ds. destruct (List.find (is_pair _ _) _); by simplify_eq. }
  assert (Hl : forall vs', map self_stake vs' = map self_stake (validators c) ->
    locked_tokens (with_undelegations (undelegations c) (with_delegations ds
      (with_validators vs' c))) = locked_tokens c + amount).
  { intros vs' Hvs. unfold locked_tokens. simpl. rewrite Hvs, Hsum. lia. }
  specialize (Hl _ (update_first_map (has_id val) (fun v => set_total_delegated
    (sat_add128 (total_delegated v) amount) v) self_stake (validators c) ltac:(done))).
  split; [|exact Hl]. apply (retarget_wf _ _ _ amount); auto using wf_uamounts; [|lia].
  intros w Hw. rewrite Hw. apply sat_add128_exact.
  pose proof (wf_parts c Hc) as (? & ? & ?). pose proof (wf_delegated_le c val Hc).
  unfold locked_tokens in Hb. lia.
Qed.

(** The delegation records after an undelegation of [amount] from [d]. *)
Lemma undelegate_records c del val amount d :
  staking_wf c -> List.find (is_pair del val) (delegations c) = Some d ->
  0 <= amount <= d_amount d ->
  let rest := u128_sub (d_amount d) amount in
  let ds1 := update_first (is_pair del val) (set_d_amount rest) (delegations c) in
  let ds := if rest =? 0
            then List.filter (fun d => negb (is_pair del val d && (d_amount d =? 0))) ds1
            else ds1 in
  NoDup (map d_pair ds)
  /\ Forall (fun d => d_validator d ∈ map sv_id (validators c)) ds
  /\ Forall (fun d => 0 <= d_amount d) ds
  /\ sumZ (map d_amount ds) = sumZ (map d_amount (delegations c)) - amount
  /\ (forall id, sumZ (map (d_share id) ds)
        = delegated_to id c + (if bytes_eqb val id then - amount else 0)).
Proof.
  intros Hc Hf Ha rest ds1 ds.
  pose proof (wf_parts c Hc) as (? & ? & ?). pose proof (wf_bound c Hc) as Hb.
  pose proof (wf_amount_le _ _ _ _ Hc Hf). pose proof (wf_delegated_le c val Hc).
  assert (Hrest : rest = d_amount d - amount).
  { apply u128_sub_exact. unfold locked_tokens in Hb. lia. }
  pose proof (find_by_pair _ _ _ _ Hf) as (_ & _ & Hdv).
  assert (Hd1 : NoDup (map d_pair ds1)
    /\ Forall (fun d => d_validator d ∈ map sv_id (validators c)) ds1
    /\ Forall (fun d => 0 <= d_amount d) ds1).
  { repeat split.
    - unfold ds1. rewrite update_first_map by done. apply (wf_pairs c Hc).
    - apply update_first_Forall; [apply (wf_known c Hc)|done].
    - apply update_first_Forall; [apply (wf_damounts c Hc)|]. simpl. lia. }
  assert (Hsum : forall g, (forall x, d_amount x = 0 -> g x = 0) ->
                 sumZ (map g ds) = sumZ (map g ds1)).
  { intros g Hg. unfold ds. destruct (rest =? 0); [|done]. apply sumZ_filter_zero.
    intros x _ Hx. prop_bool. auto. }
  destruct Hd1 as (Hnd & Hk & Hda).
  split; [|split; [|split]].
  - unfold ds. destruct (rest =? 0); [by apply NoDup_map_filter|done].
  - unfold ds. destruct (rest =? 0); [by apply Forall_filter_bool|done].
  - unfold ds. destruct (rest =? 0); [by apply Forall_filter_bool|done].
  - split.
    + rewrite Hsum by done. unfold ds1. rewrite (sumZ_update_first _ _ _ _ _ Hf). simpl. lia.
    + intros id. rewrite Hsum by (intros x Hx; unfold d_share; rewrite Hx; by destruct bytes_eqb).
      unfold ds1. rewrite (sumZ_update_first _ _ _ _ _ Hf). unfold delegated_to, d_share at 2 3.
      simpl. rewrite Hdv. destruct (bytes_eqb val id); lia.
Qed.

Lemma undelegate_ok c del val amount ep c' :
  undelegate del val amount ep c = Ok c' ->
  exists d, List.find (is_pair del val) (delegations c) = Some d /\ amount <= d_amount d
    /\ (length (List.filter (is_upair del val) (undelegations c)) < MAX_UNDELEGATION_ENTRIES)%nat
    /\ let rest := u128_sub (d_amount d) amount in
       let ds1 := update_first (is_pair del val) (set_d_amount rest) (delegations c) in
       c' = with_undelegations
              (undelegations c ++ [mkUndelegation del val amount
                 (u64_add ep (default UNBONDING_PERIOD (unbonding_period c)))])
              (with_delegations
                 (if rest =? 0
                  then List.filter (fun d => negb (is_pair del val d && (d_amount d =? 0))) ds1
                  else ds1)
                 (with_validators (update_first (has_id val)
                    (fun v => set_total_delegated (sat_sub (total_delegated v) amount) v)
                    (validators c)) c)).
Proof.
  unfold undelegate, ok_or. intros H.
  destruct (List.find _ _) as [d|] eqn:Hf; [|done]. cbn [rbind] in H.
  destruct (d_amount d <? amount) eqn:E1; [done|].
  destruct (Nat.leb _ _) eqn:E2; [done|]. apply Nat.leb_gt in E2. prop_bool.
  exists d. repeat split; auto.
  destruct (_ =? 0); by simplify_eq.
Qed.

Lemma undelegate_wf c del val amount ep c' :
  staking_wf c -> 0 <= amount -> undelegate del val amount ep c = Ok c' ->
  staking_wf c' /\ locked_tokens c' = locked_tokens c.
Proof.
  intros Hc Ha (d & Hf & Hle & _ & ->)%undelegate_ok.
  pose proof (undelegate_records c del val amount d Hc Hf ltac:(lia))
    as (Hnd & Hk & Hda & Hsum & Hsh).
  cbv zeta in *. set (ds := if _ =? 0 then _ else _) in *.
  set (us := undelegations c ++ _).
  assert (Hl : locked_tokens (with_undelegations us (with_delegations ds (with_validators
    (update_first (has_id val)
       (fun v => set_total_delegated (sat_sub (total_delegated v) amount) v)
       (validators c)) c))) = locked_tokens c).
  { unfold locked_tokens. simpl. rewrite Hsum, update_first_map by done.
    unfold us. rewrite map_app, sumZ_app. simpl. lia. }
  split; [|exact Hl]. apply (retarget_wf _ _ _ (- amount)); auto.
  - intros w Hw. rewrite Hw. pose proof (wf_amount_le _ _ _ _ Hc Hf).
    rewrite sat_sub_exact; lia.
  - apply Forall_app. split; [apply (wf_uamounts c Hc)|]. by constructor.
  - rewrite Hl. apply (wf_bound c Hc).
Qed.

(** *** Key rotation

    [rename_id] is what the second loop does to one identifier. *)

Definition rename_step (x : ValidatorId) (p : ValidatorId * ValidatorId) : ValidatorId :=
  if bytes_eqb x (fst p) then snd p else x.
Definition rename_id (rotated : list (ValidatorId * ValidatorId)) (x : ValidatorId) :
    ValidatorId := fold_left rename_step rotated x.
Definition rotated_pairs (e : u64) (vs : list StakingValidator) :
    list (ValidatorId * ValidatorId) := concat (map (fun v => snd (rotate_one e v)) vs).
Definition v_keys (v : StakingValidator) : list ValidatorId :=
  sv_id v :: match pending_new_key v with Some k => [k] | None => [] end.

Lemma rename_fold rotated ds us :
  fold_left (fun acc p => (map (rename_delegation p) (fst acc),
                           map (rename_undelegation p) (snd acc))) rotated (ds, us)
  = (map (fun d => set_d_validator (rename_id rotated (d_validator d)) d) ds,
     map (fun u => set_u_validator (rename_id rotated (u_validator u)) u) us).
Proof.
  revert ds us. induction rotated as [|p rot IH]; intros ds us; simpl.
  - f_equal; symmetry; apply map_id_ext; by intros [].
  - rewrite IH, !map_map. f_equal; apply map_ext; intros x;
      unfold rename_delegation, rename_undelegation, rename_step; by destruct (bytes_eqb _ _).
Qed.

Lemma rotated_fst e vs p : p ∈ rotated_pairs e vs -> fst p ∈ map sv_id vs.
Proof.
  unfold rotated_pairs. rewrite list_elem_of_In, in_concat. intros (l & Hl & Hp).
  apply in_map_iff in Hl as (v & <- & Hv). unfold rotate_one in Hp.
  destruct (pending_new_key v); [|done]. destruct (_ <=? _); [|done].
  simpl in Hp. destruct Hp as [<-|[]]. simpl. by apply list_elem_of_fmap_2, list_elem_of_In.
Qed.

Lemma rename_id_other e vs x : x ∉ map sv_id vs -> rename_id (rotated_pairs e vs) x = x.
Proof.
  intros Hx. assert (Hp : forall p, p ∈ rotated_pairs e vs -> x <> fst p).
  { intros p Hp ->. by apply Hx, (rotated_fst e). }
  induction (rotated_pairs e vs) as [|p l IH]; simpl; [done|].
  assert (rename_step x p = x) as ->.
  { unfold rename_step. destruct (bytes_eqb _ _) eqn:E; [|done].
    apply bytes_eqb_true in E. destruct (Hp p); set_solver. }
  apply IH. set_solver.
Qed.

Lemma keys_perm vs :
  map sv_id vs ++ omap pending_new_key vs ≡ₚ concat (map v_keys vs).
Proof.
  induction vs as [|v vs IH]; csimpl; [done|]. rewrite <- IH.
  unfold v_keys. destruct (pending_new_key v) as [k|]; simpl; [|done].
  by rewrite <- Permutation_middle.
Qed.

Lemma rotate_keys_sublist e vs :
  concat (map v_keys (map (fun v => fst (rotate_one e v)) vs)) `sublist_of` concat (map v_keys vs).
Proof.
  induction vs as [|v vs IH]; cbn [map concat]; [done|]. apply sublist_app; [|done].
  unfold rotate_one, v_keys. destruct (pending_new_key v) as [k|] eqn:E; simpl; [|by rewrite E].
  destruct (_ <=? _); simpl; [by repeat constructor|by rewrite E].
Qed.

Lemma rotate_keys_nodup e vs :
  NoDup (map sv_id vs ++ omap pending_new_key vs) ->
  let vs' := map (fun v => fst (rotate_one e v)) vs in
  NoDup (map sv_id vs' ++ omap pending_new_key vs').
Proof.
  intros H vs'. rewrite keys_perm in *. exact (sublist_NoDup _ _ H (rotate_keys_sublist e vs)).
Qed.

(** Under distinct keys the renaming of an identifier is the rotation of its
    validator. *)
Lemma rename_id_rotate e vs v :
  NoDup (map sv_id vs ++ omap pending_new_key vs) -> v ∈ vs ->
  rename_id (rotated_pairs e vs) (sv_id v) = sv_id (fst (rotate_one e v)).
Proof.
  rewrite keys_perm. induction vs as [|w vs IH]; [set_solver|]. cbn [map concat].
  intros (Hw & Hd & Hvs)%NoDup_app Hin.
  assert (Hids : forall x, x ∈ v_keys w -> x ∉ map sv_id vs).
  { intros x Hx Hc. apply (Hd x Hx). rewrite <- keys_perm. set_solver. }
  assert (Hfold : forall x, rename_id (rotated_pairs e (w :: vs)) x
            = rename_id (rotated_pairs e vs) (rename_id (snd (rotate_one e w)) x)).
  { intros x. unfold rename_id, rotated_pairs. simpl. apply fold_left_app. }
  rewrite Hfold. apply elem_of_cons in Hin as [->|Hin].
  - unfold rotate_one, v_keys in *. destruct (pending_new_key w) as [k|]; simpl.
    + destruct (_ <=? e); simpl; unfold rename_step; simpl.
      * rewrite bytes_eqb_refl. apply rename_id_other, Hids. set_solver.
      * apply rename_id_other, Hids. set_solver.
    + apply rename_id_other, Hids. set_solver.
  - rewrite <- (IH Hvs Hin). f_equal.
    assert (sv_id v <> sv_id w).
    { intros Heq. apply (Hids (sv_id w)); [unfold v_keys; set_solver|].
      rewrite <- Heq. by apply list_elem_of_fmap_2. }
    unfold rotate_one. destruct (pending_new_key w); [|done].
    destruct (_ <=? e); [|done]. simpl. unfold rename_step. simpl.
    by assert (bytes_eqb (sv_id v) (sv_id w) = false) as -> by (by apply bytes_eqb_false).
Qed.

Lemma apply_rotations_eq e c :
  apply_pending_rotations e c =
  (let rot := rotated_pairs e (validators c) in
   with_undelegations (map (fun u => set_u_validator (rename_id rot (u_validator u)) u)
                         (undelegations c))
     (with_delegations (map (fun d => set_d_validator (rename_id rot (d_validator d)) d)
                          (delegations c))
        (with_validators (map (fun v => fst (rotate_one e v)) (validators c)) c)),
   rotated_pairs e (validators c)).
Proof. unfold apply_pending_rotations. fold (rotated_pairs e (validators c)). by rewrite rename_fold. Qed.

Lemma rotate_one_stakes e v :
  self_stake (fst (rotate_one e v)) = self_stake v
  /\ total_delegated (fst (rotate_one e v)) = total_delegated v.
Proof. unfold rotate_one. destruct (pending_new_key v); [|done]. by destruct (_ <=? _). Qed.

(** The renaming does not merge two known identifiers. *)
Lemma rename_id_inj e c x y :
  staking_wf c -> x ∈ map sv_id (validators c) -> y ∈ map sv_id (validators c) ->
  rename_id (rotated_pairs e (validators c)) x = rename_id (rotated_pairs e (validators c)) y ->
  x = y.
Proof.
  intros Hc Hx Hy Heq. pose proof (wf_ids c Hc) as Hids. unfold pending_keys in Hids.
  apply list_elem_of_fmap in Hx as (v & -> & Hv), Hy as (w & -> & Hw).
  rewrite !rename_id_rotate in Heq by done.
  pose proof (rotate_keys_nodup e _ Hids) as [Hnd _]%NoDup_app.
  rewrite map_map in Hnd. apply list_elem_of_lookup in Hv as [i Hi], Hw as [j Hj].
  assert (i = j) as ->; [|by simplify_eq].
  apply (NoDup_lookup _ i j (sv_id (fst (rotate_one e v))) Hnd);
    rewrite list_lookup_fmap, ?Hi, ?Hj; simpl; by rewrite ?Heq.
Qed.

Lemma apply_rotations_wf e c :
  staking_wf c ->
  staking_wf (fst (apply_pending_rotations e c))
  /\ locked_tokens (fst (apply_pending_rotations e c)) = locked_tokens c.
Proof.
  intros Hc. rewrite apply_rotations_eq. cbv zeta. simpl.
  set (rot := rotated_pairs e (validators c)). set (c' := with_undelegations _ _).
  pose proof (wf_ids c Hc) as Hids. unfold pending_keys in Hids.
  assert (Hl : locked_tokens c' = locked_tokens c).
  { unfold locked_tokens, c'. simpl. rewrite !map_map. simpl. do 2 f_equal.
    f_equal. apply map_ext. intros v. apply rotate_one_stakes. }
  pose proof (wf_known c Hc) as Hkn. rewrite Forall_forall in Hkn.
  split; [|done]. split; simpl.
  - apply (rotate_keys_nodup e _ Hids).
  - rewrite map_map. rewrite <- (map_map d_pair (fun p => (p.1, rename_id rot p.2))).
    apply NoDup_fmap_2_strong; [|apply (wf_pairs c Hc)].
    intros [a x] [b y] Hx Hy Heq. simplify_eq/=. f_equal.
    apply list_elem_of_fmap in Hx as (d1 & H1 & ?), Hy as (d2 & H2 & ?).
    unfold d_pair in *. simplify_eq/=. apply (rename_id_inj e c); auto.
  - apply Forall_map, Forall_forall. intros d Hd. simpl.
    pose proof (Hkn d Hd) as (v & -> & Hv)%list_elem_of_fmap. unfold rot.
    rewrite rename_id_rotate by done. rewrite map_map.
    by apply (list_elem_of_fmap_2 (fun v => sv_id (fst (rotate_one e v)))).
  - apply Forall_map, Forall_forall. intros v Hv.
    destruct (rotate_one_stakes e v) as [_ ->].
    pose proof (wf_totals c Hc) as Ht. rewrite Forall_forall in Ht. rewrite (Ht v Hv).
    rewrite <- (rename_id_rotate e (validators c)) by done.
    unfold delegated_to, c'. simpl. rewrite map_map. apply sumZ_map_ext. intros d Hd.
    unfold d_share. simpl. fold rot. destruct (bytes_eqb (d_validator d) (sv_id v)) eqn:E.
    + apply bytes_eqb_true in E. by rewrite E, bytes_eqb_refl.
    + destruct (bytes_eqb (rename_id rot _) _) eqn:E'; [|done].
      apply bytes_eqb_true, (rename_id_inj e c) in E'; auto using list_elem_of_fmap_2.
      apply bytes_eqb_false in E. congruence.
  - apply Forall_map. eapply Forall_impl; [apply (wf_self c Hc)|]. intros v Hv. simpl.
    by destruct (rotate_one_stakes e v) as [-> _].
  - apply Forall_map. eapply Forall_impl; [apply (wf_damounts c Hc)|]. done.
  - apply Forall_map. eapply Forall_impl; [apply (wf_uamounts c Hc)|]. done.
  - rewrite Hl. apply (wf_bound c Hc).
Qed.

Lemma withdraw_wf del e c :
  staking_wf c ->
  staking_wf (fst (withdraw_undelegated del e c))
  /\ locked_tokens (fst (withdraw_undelegated del e c))
     = locked_tokens c - snd (withdraw_undelegated del e c)
  /\ snd (withdraw_undelegated del e c)
     = sumZ (map u_amount (List.filter (withdrawable del e) (undelegations c))).
Proof.
  intros Hc. simpl. pose proof (wf_parts c Hc) as (? & ? & ?).
  pose proof (wf_uamounts c Hc) as Hu.
  pose proof (sumZ_filter_split u_amount (withdrawable del e) (undelegations c)) as Hsp.
  assert (Hnn : forall p, Forall (fun x => 0 <= x) (map u_amount (List.filter p (undelegations c)))).
  { intros p. by apply Forall_map, Forall_filter_bool. }
  pose proof (sumZ_nonneg _ (Hnn (withdrawable del e))).
  pose proof (sumZ_nonneg _ (Hnn (fun u => negb (withdrawable del e u)))).
  pose proof (wf_bound c Hc) as Hb. unfold locked_tokens in Hb.
  rewrite u128_sum_exact by (auto; lia).
  assert (Hl : locked_tokens (with_undelegations (List.filter
      (fun u => negb (withdrawable del e u)) (undelegations c)) c) = locked_tokens c -
      sumZ (map u_amount (List.filter (withdrawable del e) (undelegations c)))).
  { unfold locked_tokens. simpl. lia. }
  split; [|by rewrite Hl]. destruct Hc. split; simpl; auto.
  - by apply Forall_filter_bool.
  - rewrite Hl. unfold locked_tokens. lia.
Qed.

(** *** Slashing on the contract record *)

Definition slashed (offender : ValidatorId) (bps : u64) (d : Delegation) : Delegation :=
  if bytes_eqb (d_validator d) offender
  then set_d_amount (d_amount d - delegation_penalty bps d) d else d.
Definition slash_share (offender : ValidatorId) (bps : u64) (d : Delegation) : Z :=
  if bytes_eqb (d_validator d) offender then delegation_penalty bps d else 0.

Lemma penalty_le x bps : 0 <= x -> 0 <= bps <= MAX_SLASH_BPS -> 0 <= sat_mul128 x bps / 10000 <= x.
Proof. unfold MAX_SLASH_BPS. intros. apply share_le; lia. Qed.

Lemma slash_share_sum offender bps ds :
  0 <= bps <= MAX_SLASH_BPS -> Forall (fun d => 0 <= d_amount d) ds ->
  0 <= sumZ (map (slash_share offender bps) ds) <= sumZ (map (d_share offender) ds).
Proof.
  intros Hb Hd. rewrite Forall_forall in Hd.
  assert (H : forall d, d ∈ ds -> 0 <= slash_share offender bps d <= d_share offender d).
  { intros d Hin. unfold slash_share, d_share. specialize (Hd d Hin).
    pose proof (penalty_le (d_amount d) bps Hd Hb). unfold delegation_penalty.
    destruct (bytes_eqb _ _); lia. }
  split; [apply sumZ_map_nonneg|apply sumZ_map_le]; intros d Hin; by apply H.
Qed.

Lemma slash_delegations_spec offender bps ds :
  0 <= bps <= MAX_SLASH_BPS -> Forall (fun d => 0 <= d_amount d) ds ->
  sumZ (map d_amount ds) <= u128_max ->
  slash_delegations offender bps ds
  = (map (slashed offender bps) ds, sumZ (map (slash_share offender bps) ds)).
Proof.
  intros Hb Hd Hm. unfold slash_delegations.
  assert (Hgen : forall acc n, 0 <= n -> n + sumZ (map d_amount ds) <= u128_max ->
    fold_left (fun acc d =>
      if bytes_eqb (d_validator d) offender then
        let p := delegation_penalty bps d in
        (fst acc ++ [set_d_amount (sat_sub (d_amount d) p) d], sat_add128 (snd acc) p)
      else (fst acc ++ [d], snd acc)) ds (acc, n)
    = (acc ++ map (slashed offender bps) ds, n + sumZ (map (slash_share offender bps) ds))).
  { clear Hm. induction Hd as [|d ds Hd0 Hd IH]; intros acc n Hn Hm.
    - simpl. rewrite app_nil_r. f_equal. lia.
    - assert (0 <= sumZ (map d_amount ds)) by (apply sumZ_nonneg, Forall_map, Hd).
      pose proof (penalty_le (d_amount d) bps Hd0 Hb) as Hp. simpl in Hm.
      simpl. unfold slashed at 1, slash_share at 1. unfold delegation_penalty in *.
      destruct (bytes_eqb _ _); simpl.
      + rewrite sat_sub_exact, sat_add128_exact by lia. rewrite IH by lia.
        rewrite <- app_assoc. simpl. f_equal. lia.
      + rewrite IH by lia. rewrite <- app_assoc. simpl. f_equal. }
  by rewrite Hgen by lia.
Qed.

(** Lowering the self stake of one validator. *)
Lemma self_update_wf c id f v :
  staking_wf c -> List.find (has_id id) (validators c) = Some v ->
  (forall v, sv_id (f v) = sv_id v /\ pending_new_key (f v) = pending_new_key v
             /\ total_delegated (f v) = total_delegated v) ->
  0 <= self_stake (f v) <= self_stake v ->
  let c' := with_validators (update_first (has_id id) f (validators c)) c in
  staking_wf c' /\ locked_tokens c' = locked_tokens c - (self_stake v - self_stake (f v)).
Proof.
  intros Hc Hf Hk Hs c'.
  assert (Hl : locked_tokens c' = locked_tokens c - (self_stake v - self_stake (f v))).
  { unfold locked_tokens, c'. simpl. rewrite (sumZ_update_first _ _ _ _ _ Hf). lia. }
  assert (Hid : map sv_id (validators c') = map sv_id (validators c)).
  { unfold c'. simpl. apply update_first_map. intros x _. apply Hk. }
  pose proof (find_split _ _ _ Hf) as (l1 & l2 & Hv & Hpv & Hl1).
  split; [|done]. pose proof (wf_bound c Hc). destruct Hc.
  split; simpl; change (update_first _ _ _) with (validators c'); rewrite ?Hid; auto.
  - unfold pending_keys, c'. simpl. rewrite omap_update_first; [done|]. intros x. apply Hk.
  - apply update_first_Forall; [done|]. intros x _ Hx. destruct (Hk x) as (-> & _ & ->). exact Hx.
  - unfold c'. simpl. rewrite Hv in *. rewrite update_first_split by done.
    apply Forall_app in wf_self0 as [? Hr]. apply Forall_cons in Hr as [_ ?].
    apply Forall_app. split; [done|]. constructor; [lia|done].
  - lia.
Qed.

Lemma slashed_records offender bps c :
  staking_wf c -> 0 <= bps <= MAX_SLASH_BPS ->
  let ds := map (slashed offender bps) (delegations c) in
  let pen := sumZ (map (slash_share offender bps) (delegations c)) in
  NoDup (map d_pair ds)
  /\ Forall (fun d => d_validator d ∈ map sv_id (validators c)) ds
  /\ Forall (fun d => 0 <= d_amount d) ds
  /\ sumZ (map d_amount ds) = sumZ (map d_amount (delegations c)) - pen
  /\ (forall id, sumZ (map (d_share id) ds)
        = delegated_to id c + (if bytes_eqb offender id then - pen else 0)).
Proof.
  intros Hc Hb ds pen.
  assert (Hkeep : forall d, d_pair (slashed offender bps d) = d_pair d
                            /\ d_validator (slashed offender bps d) = d_validator d).
  { intros d. unfold slashed. by destruct (bytes_eqb _ _). }
  assert (Ham : forall d, d_amount (slashed offender bps d)
                          = d_amount d - slash_share offender bps d).
  { intros d. unfold slashed, slash_share. destruct (bytes_eqb _ _); simpl; lia. }
  assert (Hsub : forall f g (l : list Delegation),
    sumZ (map (fun d => f d - g d) l) = sumZ (map f l) - sumZ (map g l)).
  { intros f g l. induction l as [|d l IH]; simpl; lia. }
  unfold ds, pen. rewrite !map_map. repeat split.
  - rewrite (map_ext _ d_pair) by (intros; apply Hkeep). apply (wf_pairs c Hc).
  - apply Forall_map. eapply Forall_impl; [apply (wf_known c Hc)|]. intros d. simpl.
    by destruct (Hkeep d) as [_ ->].
  - apply Forall_map. eapply Forall_impl; [apply (wf_damounts c Hc)|]. intros d Hd. simpl.
    rewrite Ham. unfold slash_share. pose proof (penalty_le (d_amount d) bps Hd Hb).
    unfold delegation_penalty. destruct (bytes_eqb _ _); lia.
  - rewrite (map_ext _ _ Ham). apply Hsub.
  - intros id. rewrite map_map. unfold delegated_to.
    destruct (bytes_eqb offender id) eqn:E.
    + apply bytes_eqb_true in E as <-. rewrite <- Z.sub_opp_r, Z.opp_involutive.
      rewrite <- Hsub. f_equal. apply map_ext. intros d. unfold d_share.
      destruct (Hkeep d) as [_ ->]. rewrite Ham. unfold slash_share. destruct (bytes_eqb _ _); lia.
    + rewrite Z.add_0_r. f_equal. apply map_ext. intros d. unfold d_share.
      destruct (Hkeep d) as [_ ->]. rewrite Ham. unfold slash_share.
      destruct (bytes_eqb (d_validator d) id) eqn:E1; [|done].
      destruct (bytes_eqb (d_validator d) offender) eqn:E2; [|lia].
      apply bytes_eqb_true in E1, E2. apply bytes_eqb_false in E. congruence.
Qed.

Lemma slash_contract_wf offender bps e c v :
  staking_wf c -> 0 <= bps <= MAX_SLASH_BPS ->
  List.find (has_id offender) (validators c) = Some v ->
  staking_wf (fst (slash_contract offender bps e c))
  /\ locked_tokens (fst (slash_contract offender bps e c))
     = locked_tokens c - snd (slash_contract offender bps e c)
  /\ snd (slash_contract offender bps e c)
     = self_penalty bps v + sumZ (map (slash_share offender bps) (delegations c)).
Proof.
  intros Hc Hb Hf. unfold slash_contract. rewrite Hf. cbv zeta.
  pose proof (find_elem _ _ _ Hf) as [Hin _].
  pose proof (wf_self c Hc) as Hself. rewrite Forall_forall in Hself.
  pose proof (penalty_le (self_stake v) bps (Hself v Hin) Hb) as Hp.
  fold (self_penalty bps v) in Hp.
  set (f := fun v => set_sv_eligible _ _).
  destruct (self_update_wf c offender f v Hc Hf) as [Hc1 Hl1]; [done| |].
  { simpl. rewrite sat_sub_exact; lia. }
  set (c1 := with_validators _ c) in *. simpl in Hl1. rewrite sat_sub_exact in Hl1 by lia.
  change (delegations c) with (delegations c1). clearbody c1.
  pose proof (wf_parts c1 Hc1) as (H1 & H2 & H3). pose proof (wf_bound c1 Hc1) as Hbd.
  unfold locked_tokens in Hbd.
  rewrite slash_delegations_spec; [|done|apply Hc1|lia].
  pose proof (slash_share_sum offender bps _ Hb (wf_damounts c1 Hc1)) as Hsh.
  pose proof (wf_delegated_le c1 offender Hc1) as Hle. unfold delegated_to in Hle.
  pose proof (slashed_records offender bps c1 Hc1 Hb) as (Hnd & Hk & Hda & Hsum & Hsh').
  set (ds := map (slashed offender bps) (delegations c1)) in *.
  set (pen := sumZ (map (slash_share offender bps) (delegations c1))) in *.
  assert (Hself1 : self_penalty bps v + pen <= u128_max).
  { pose proof (wf_bound c Hc). assert (pen <= locked_tokens c1) by (unfold locked_tokens; lia). lia. }
  assert (Hcase : forall g, (forall w, total_delegated w = delegated_to offender c1 ->
      g w = delegated_to offender c1 + - pen) ->
    let c' := with_undelegations (undelegations c1) (with_delegations ds (with_validators
      (update_first (has_id offender) (fun v => set_total_delegated (g v) v) (validators c1)) c1)) in
    staking_wf c' /\ locked_tokens c' = locked_tokens c1 - pen).
  { intros g Hg c'. assert (Hl : locked_tokens c' = locked_tokens c1 - pen).
    { unfold locked_tokens, c'. simpl. rewrite Hsum, update_first_map by done. lia. }
    split; [|done]. apply (retarget_wf c1 offender g (- pen)); auto using wf_uamounts.
    fold c'. pose proof (wf_bound c1 Hc1). lia. }
  rewrite (sat_add128_exact 0) by lia.
  destruct (0 <? pen) eqn:E; prop_bool; cbn [fst snd].
  - destruct (Hcase (fun v => sat_sub (total_delegated v) pen)) as [Hw Hl].
    { intros w ->. unfold delegated_to. rewrite sat_sub_exact; lia. }
    rewrite sat_add128_exact by lia. split; [exact Hw|]. split; [|lia]. etrans; [exact Hl|]. lia.
  - assert (pen = 0) as Hz by lia.
    destruct (Hcase total_delegated) as [Hw Hl]; [intros w ->; lia|].
    rewrite update_first_same in Hw, Hl by (by intros []).
    split; [exact Hw|]. split; [|lia]. etrans; [exact Hl|]. lia.
Qed.

(** ** Amounts alone

    What holds of the records even if keys are not fresh: no amount is negative
    and everything owed fits in a u128. *)

Record amounts_ok (c : StakingContract) : Prop := {
  ao_self : Forall (fun v => 0 <= self_stake v) (validators c);
  ao_damounts : Forall (fun d => 0 <= d_amount d) (delegations c);
  ao_uamounts : Forall (fun u => 0 <= u_amount u) (undelegations c);
  ao_bound : locked_tokens c <= u128_max;
}.

Lemma wf_amounts c : staking_wf c -> amounts_ok c.
Proof. intros []. by split. Qed.

Lemma ao_parts c : amounts_ok c ->
  0 <= sumZ (map self_stake (validators c)) /\ 0 <= sumZ (map d_amount (delegations c))
  /\ 0 <= sumZ (map u_amount (undelegations c)).
Proof. intros []. repeat split; apply sumZ_map_nonneg; by apply Forall_forall. Qed.

Lemma same_stakes_nonneg vs vs' :
  map self_stake vs = map self_stake vs' -> Forall (fun v => 0 <= self_stake v) vs' ->
  Forall (fun v => 0 <= self_stake v) vs.
Proof.
  intros E Hs. assert (H : Forall (fun x => 0 <= x) (map self_stake vs)) by (rewrite E; by apply Forall_map).
  apply Forall_forall. intros v Hv. apply (proj1 (Forall_forall _ _) H). by apply list_elem_of_fmap_2.
Qed.

(** Changing validators without touching their own stake. *)
Lemma same_stakes_amounts c vs :
  amounts_ok c -> map self_stake vs = map self_stake (validators c) ->
  amounts_ok (with_validators vs c) /\ locked_tokens (with_validators vs c) = locked_tokens c.
Proof.
  intros [Hs Hd Hu Hb] E. assert (El : locked_tokens (with_validators vs c) = locked_tokens c).
  { unfold locked_tokens. simpl. by rewrite E. }
  split; [|done]. split; simpl; [by eapply same_stakes_nonneg|done|done|by rewrite El].
Qed.

Lemma push_validator_amounts c v :
  amounts_ok c -> 0 <= self_stake v -> locked_tokens c + self_stake v <= u128_max ->
  amounts_ok (with_validators (validators c ++ [v]) c)
  /\ locked_tokens (with_validators (validators c ++ [v]) c) = locked_tokens c + self_stake v.
Proof.
  intros [Hs Hd Hu Hb] H0 Hm.
  assert (El : locked_tokens (with_validators (validators c ++ [v]) c) = locked_tokens c + self_stake v).
  { unfold locked_tokens. simpl. rewrite map_app, sumZ_app. simpl. lia. }
  split; [|done]. split; simpl; [|done|done|lia]. apply Forall_app. split; [done|]. by apply Forall_singleton.
Qed.

(** Lowering the own stake of one validator. *)
Lemma lower_stake_amounts c id f v :
  amounts_ok c -> List.find (has_id id) (validators c) = Some v -> 0 <= self_stake (f v) <= self_stake v ->
  let c' := with_validators (update_first (has_id id) f (validators c)) c in
  amounts_ok c' /\ locked_tokens c' = locked_tokens c - (self_stake v - self_stake (f v)).
Proof.
  intros [Hs Hd Hu Hb] Hf Hv c'.
  assert (El : locked_tokens c' = locked_tokens c - (self_stake v - self_stake (f v))).
  { unfold locked_tokens, c'. simpl. rewrite (sumZ_update_first _ _ _ _ _ Hf). lia. }
  split; [|done]. split; simpl; [|done|done|lia].
  pose proof (find_split _ _ _ Hf) as (l1 & l2 & E & Hp & Hl1). rewrite E in *.
  rewrite update_first_split by done. apply Forall_app in Hs as [? Hr]. apply Forall_cons in Hr as [_ ?].
  apply Forall_app. split; [done|]. constructor; [lia|done].
Qed.

(** New lists of delegations and undelegations, any totals of the validators. *)
Lemma records_amounts c vs ds us :
  amounts_ok c -> map self_stake vs = map self_stake (validators c) ->
  Forall (fun d => 0 <= d_amount d) ds -> Forall (fun u => 0 <= u_amount u) us ->
  let c' := with_undelegations us (with_delegations ds (with_validators vs c)) in
  locked_tokens c' <= u128_max ->
  amounts_ok c'
  /\ locked_tokens c' = locked_tokens c + (sumZ (map d_amount ds) - sumZ (map d_amount (delegations c)))
                        + (sumZ (map u_amount us) - sumZ (map u_amount (undelegations c))).
Proof.
  intros [Hs Hd Hu Hb] E Hd' Hu' c' Hb'. split.
  - split; simpl; [by eapply same_stakes_nonneg|done|done|done].
  - unfold locked_tokens, c'. simpl. rewrite E. lia.
Qed.

Lemma d_amount_bound c p d :
  amounts_ok c -> List.find p (delegations c) = Some d ->
  0 <= d_amount d <= sumZ (map d_amount (delegations c)).
Proof.
  intros Hc [Hin _]%find_elem. pose proof (proj1 (Forall_forall _ _) (ao_damounts c Hc)) as Hd.
  split; [by apply Hd|]. by apply sumZ_elem_le.
Qed.

Lemma delegate_amounts c del val amount ep c' :
  amounts_ok c -> 0 <= amount -> locked_tokens c + amount <= u128_max ->
  delegate_at_epoch del val amount ep c = Ok c' ->
  amounts_ok c' /\ locked_tokens c' = locked_tokens c + amount.
Proof.
  intros Hc Ha Hm. pose proof (ao_parts c Hc) as (? & ? & ?).
  unfold delegate_at_epoch, ok_or, rbind. destruct (List.find (has_id val) _) as [v|]; [|done].
  cbn [delegations with_validators].
  set (vs := update_first (has_id val) _ _). set (debt := sat_mul128 _ _ / _).
  assert (Es : map self_stake vs = map self_stake (validators c)) by (by apply update_first_map).
  assert (Hgo : forall ds, Forall (fun d => 0 <= d_amount d) ds ->
    sumZ (map d_amount ds) = sumZ (map d_amount (delegations c)) + amount ->
    amounts_ok (with_delegations ds (with_validators vs c))
    /\ locked_tokens (with_delegations ds (with_validators vs c)) = locked_tokens c + amount).
  { intros ds Hds Hsum.
    destruct (records_amounts c vs ds (undelegations c) Hc Es Hds (ao_uamounts c Hc)) as [? El].
    - unfold locked_tokens in *. simpl. rewrite Es. lia.
    - split; [done|]. etrans; [exact El|]. lia. }
  destruct (List.find (is_pair del val) (delegations c)) as [d|] eqn:Ef; intros [= <-].
  - pose proof (d_amount_bound c _ d Hc Ef). apply Hgo.
    + apply update_first_Forall; [apply Hc|]. intros x _ Hx. simpl. unfold sat_add128, u128_max. lia.
    + rewrite (sumZ_update_first _ _ _ _ _ Ef). simpl.
      rewrite sat_add128_exact by (unfold locked_tokens in Hm; lia). lia.
  - apply Hgo.
    + apply Forall_app. split; [apply Hc|]. by apply Forall_singleton.
    + rewrite map_app, sumZ_app. simpl. lia.
Qed.

Lemma undelegate_amounts c del val amount ep c' :
  amounts_ok c -> 0 <= amount -> undelegate del val amount ep c = Ok c' ->
  amounts_ok c' /\ locked_tokens c' = locked_tokens c.
Proof.
  intros Hc Ha (d & Hf & Hle & _ & ->)%undelegate_ok. cbv zeta.
  pose proof (d_amount_bound c _ d Hc Hf). pose proof (ao_parts c Hc) as (? & ? & ?).
  pose proof (ao_bound c Hc) as Hb. unfold locked_tokens in Hb.
  rewrite u128_sub_exact by lia. set (rest := d_amount d - amount).
  set (ds1 := update_first _ (set_d_amount rest) _). set (ds := if rest =? 0 then _ else _).
  assert (Hd1 : Forall (fun d => 0 <= d_amount d) ds1).
  { apply update_first_Forall; [apply Hc|]. intros x _ _. simpl. lia. }
  assert (Hds : Forall (fun d => 0 <= d_amount d) ds) by (unfold ds; destruct (_ =? _); [by apply Forall_filter_bool|done]).
  assert (Hsum : sumZ (map d_amount ds) = sumZ (map d_amount (delegations c)) - amount).
  { assert (E : sumZ (map d_amount ds) = sumZ (map d_amount ds1)).
    { unfold ds. destruct (rest =? 0); [|done]. apply sumZ_filter_zero. intros x _ Hx. prop_bool. auto. }
    rewrite E. unfold ds1. rewrite (sumZ_update_first _ _ _ _ _ Hf). simpl. lia. }
  set (us := undelegations c ++ _).
  assert (Hus : sumZ (map u_amount us) = sumZ (map u_amount (undelegations c)) + amount).
  { unfold us. rewrite map_app, sumZ_app. simpl. lia. }
  set (vs := update_first (has_id val) _ _).
  assert (Es : map self_stake vs = map self_stake (validators c)) by (by apply update_first_map).
  destruct (records_amounts c vs ds us Hc Es Hds) as [? El].
  - apply Forall_app. split; [apply Hc|]. by apply Forall_singleton.
  - unfold locked_tokens. simpl. rewrite Es. lia.
  - split; [done|]. etrans; [exact El|]. lia.
Qed.

Lemma withdraw_amounts del e c :
  amounts_ok c ->
  amounts_ok (fst (withdraw_undelegated del e c))
  /\ locked_tokens (fst (withdraw_undelegated del e c)) = locked_tokens c - snd (withdraw_undelegated del e c)
  /\ 0 <= snd (withdraw_undelegated del e c) <= locked_tokens c.
Proof.
  intros Hc. simpl. pose proof (ao_parts c Hc) as (? & ? & ?). pose proof (ao_uamounts c Hc) as Hu.
  pose proof (sumZ_filter_split u_amount (withdrawable del e) (undelegations c)) as Hsp.
  assert (Hnn : forall p, Forall (fun x => 0 <= x) (map u_amount (List.filter p (undelegations c)))).
  { intros p. by apply Forall_map, Forall_filter_bool. }
  pose proof (sumZ_nonneg _ (Hnn (withdrawable del e))).
  pose proof (sumZ_nonneg _ (Hnn (fun u => negb (withdrawable del e u)))).
  pose proof (ao_bound c Hc) as Hb. unfold locked_tokens in Hb |- *. simpl.
  rewrite u128_sum_exact by (auto; lia). split; [|lia]. destruct Hc. split; simpl; auto.
  - by apply Forall_filter_bool.
  - unfold locked_tokens. simpl. lia.
Qed.

Lemma rotations_amounts e c :
  amounts_ok c ->
  amounts_ok (fst (apply_pending_rotations e c))
  /\ locked_tokens (fst (apply_pending_rotations e c)) = locked_tokens c.
Proof.
  intros Hc. rewrite apply_rotations_eq. cbv zeta. simpl. set (c' := with_undelegations _ _).
  assert (Hl : locked_tokens c' = locked_tokens c).
  { unfold locked_tokens, c'. simpl. rewrite !map_map. simpl. do 2 f_equal.
    f_equal. apply map_ext. intros v. apply rotate_one_stakes. }
  split; [|done]. split; simpl; [| | |rewrite Hl; apply Hc]; apply Forall_map.
  - eapply Forall_impl; [apply (ao_self c Hc)|]. intros v Hv. simpl. by destruct (rotate_one_stakes e v) as [-> _].
  - eapply Forall_impl; [apply (ao_damounts c Hc)|]. done.
  - eapply Forall_impl; [apply (ao_uamounts c Hc)|]. done.
Qed.

Lemma slash_amounts offender bps e c v :
  amounts_ok c -> 0 <= bps <= MAX_SLASH_BPS -> List.find (has_id offender) (validators c) = Some v ->
  amounts_ok (fst (slash_contract offender bps e c))
  /\ locked_tokens (fst (slash_contract offender bps e c))
     = locked_tokens c - snd (slash_contract offender bps e c)
  /\ 0 <= snd (slash_contract offender bps e c).
Proof.
  intros Hc Hb Hf. unfold slash_contract. rewrite Hf. cbv zeta.
  pose proof (find_elem _ _ _ Hf) as [Hin _].
  pose proof (proj1 (Forall_forall _ _) (ao_self c Hc) v Hin) as Hself.
  pose proof (penalty_le (self_stake v) bps Hself Hb) as Hp. fold (self_penalty bps v) in Hp.
  set (f := fun v => set_sv_eligible _ _).
  destruct (lower_stake_amounts c offender f v Hc Hf) as [Hc1 Hl1].
  { simpl. rewrite sat_sub_exact; lia. }
  set (c1 := with_validators _ c) in *. simpl in Hl1. rewrite sat_sub_exact in Hl1 by lia.
  change (delegations c) with (delegations c1). clearbody c1.
  pose proof (ao_parts c1 Hc1) as (H1 & H2 & H3). pose proof (ao_bound c1 Hc1) as Hbd.
  pose proof (ao_bound c Hc) as Hbd0. unfold locked_tokens in Hbd.
  rewrite slash_delegations_spec; [|done|apply Hc1|lia].
  pose proof (slash_share_sum offender bps _ Hb (ao_damounts c1 Hc1)) as Hsh.
  pose proof (d_share_sum_le offender _ (ao_damounts c1 Hc1)) as Hle.
  set (pen := sumZ (map (slash_share offender bps) (delegations c1))) in *.
  set (ds := map (slashed offender bps) (delegations c1)).
  assert (Hds : Forall (fun d => 0 <= d_amount d) ds
    /\ sumZ (map d_amount ds) = sumZ (map d_amount (delegations c1)) - pen).
  { unfold ds, pen. pose proof (ao_damounts c1 Hc1) as Hd. clear -Hd Hb.
    induction Hd as [|d l Hd _ [IH1 IH2]]; [split; [constructor|done]|]. cbn [map sumZ].
    assert (E : d_amount (slashed offender bps d) = d_amount d - slash_share offender bps d
      /\ 0 <= d_amount (slashed offender bps d)).
    { pose proof (penalty_le (d_amount d) bps Hd Hb). unfold slashed, slash_share, delegation_penalty.
      destruct (bytes_eqb _ _); simpl; lia. }
    destruct E as [E1 E2]. split; [by constructor|]. rewrite E1, IH2. lia. }
  destruct Hds as [Hds Hsum].
  assert (Hcase : forall vs, map self_stake vs = map self_stake (validators c1) ->
    amounts_ok (with_undelegations (undelegations c1) (with_delegations ds (with_validators vs c1)))
    /\ locked_tokens (with_undelegations (undelegations c1) (with_delegations ds (with_validators vs c1)))
       = locked_tokens c1 - pen).
  { intros vs Es. destruct (records_amounts c1 vs ds (undelegations c1) Hc1 Es Hds (ao_uamounts c1 Hc1)) as [? El].
    - unfold locked_tokens. simpl. rewrite Es. lia.
    - split; [done|]. etrans; [exact El|]. lia. }
  assert (0 <= locked_tokens c1) by (unfold locked_tokens; lia).
  rewrite (sat_add128_exact 0) by lia.
  destruct (0 <? pen) eqn:E; prop_bool; cbn [fst snd].
  - assert (self_penalty bps v + pen <= u128_max).
    { assert (pen <= locked_tokens c1) by (unfold locked_tokens; lia). lia. }
    rewrite sat_add128_exact by lia.
    destruct (Hcase (update_first (has_id offender)
      (fun v => set_total_delegated (sat_sub (total_delegated v) pen) v) (validators c1))) as [Hw Hl];
      [by apply update_first_map|].
    split; [exact Hw|]. split; [|lia]. etrans; [exact Hl|]. lia.
  - destruct (Hcase (validators c1) eq_refl) as [Hw Hl]. destruct c1 as [cv cd cu cm cb]. simpl in *.
    split; [exact Hw|]. split; [|lia]. etrans; [exact Hl|]. lia.
Qed.

(** ** Runs of the contract

    [staking_exec] performs one operation; a failing one leaves the contract.
    The second component is what the operation moves: positive for tokens
    taken into the contract, negative for tokens handed back. *)

Inductive StakingOp : Type :=
| OpRegister (id : ValidatorId) (stake : u128) (epoch : u64) (min_stake : u128)
| OpRegisterGenesis (id : ValidatorId) (stake : u128)
| OpDeregister (id : ValidatorId) (epoch : u64)
| OpDelegate (del : AccountId) (val : ValidatorId) (amount : u128) (epoch : u64)
| OpUndelegate (del : AccountId) (val : ValidatorId) (amount : u128) (epoch : u64)
| OpWithdraw (del : AccountId) (epoch : u64)
| OpDistribute (val : ValidatorId) (reward : u128)
| OpSetCommission (val : ValidatorId) (bps : u64)
| OpUnjail (val : ValidatorId)
| OpRotateKey (val new_key : ValidatorId) (epoch : u64)
| OpApplyRotations (epoch : u64)
| OpSlash (offender : ValidatorId) (bps : u64) (epoch : u64).

Definition or_same (c : StakingContract) (flow : Z) (r : result StakingContract StakingError) :
    StakingContract * Z :=
  match r with Ok c' => (c', flow) | Err _ => (c, 0) end.

(** A slash, under the conditions the call checks on the contract: a penalty of
    at most a tenth, and a registered, active offender. *)
Definition slash_exec (offender : ValidatorId) (bps e : u64) (c : StakingContract) : StakingContract * Z :=
  if MAX_SLASH_BPS <? bps then (c, 0)
  else match List.find (has_id offender) (validators c) with
       | None => (c, 0)
       | Some v => if negb (is_active v) then (c, 0)
                   else let '(c', penalty) := slash_contract offender bps e c in (c', - penalty)
       end.

Definition staking_exec (op : StakingOp) (c : StakingContract) : StakingContract * Z :=
  match op with
  | OpRegister id stake e m =>
      or_same c stake (register_validator_at_epoch_with_config id stake e m c)
  | OpRegisterGenesis id stake => or_same c stake (register_genesis_validator id stake c)
  | OpDeregister id e =>
      match deregister_validator id e c with
      | Ok (c', stake) => (c', - stake)
      | Err _ => (c, 0)
      end
  | OpDelegate del val a e => or_same c a (delegate_at_epoch del val a e c)
  | OpUndelegate del val a e => or_same c 0 (undelegate del val a e c)
  | OpWithdraw del e => let '(c', a) := withdraw_undelegated del e c in (c', - a)
  | OpDistribute val r => or_same c 0 (distribute_rewards val r c)
  | OpSetCommission val b => or_same c 0 (set_commission val b c)
  | OpUnjail val => or_same c 0 (unjail val c)
  | OpRotateKey val k e => or_same c 0 (rotate_key val k e c)
  | OpApplyRotations e => (fst (apply_pending_rotations e c), 0)
  | OpSlash offender bps e => slash_exec offender bps e c
  end.

Fixpoint staking_run (ops : list StakingOp) (c : StakingContract) : StakingContract * Z :=
  match ops with
  | [] => (c, 0)
  | op :: ops =>
      let '(c1, f1) := staking_exec op c in
      let '(c2, f2) := staking_run ops c1 in (c2, f1 + f2)
  end.

(** What a caller has to supply: amounts that are not negative and fit in a u128
    together with what is there. *)
Definition op_amounts (op : StakingOp) (c : StakingContract) : Prop :=
  match op with
  | OpRegister _ stake _ _ | OpRegisterGenesis _ stake => 0 <= stake /\ locked_tokens c + stake <= u128_max
  | OpDelegate _ _ a _ => 0 <= a /\ locked_tokens c + a <= u128_max
  | OpUndelegate _ _ a _ => 0 <= a
  | OpSlash _ bps _ => 0 <= bps
  | _ => True
  end.

(** A key that is registered or rotated to is not somebody's pending key. The
    contract does not check that. *)
Definition op_fresh (op : StakingOp) (c : StakingContract) : Prop :=
  match op with
  | OpRegister id _ _ _ | OpRegisterGenesis id _ => id ∉ pending_keys c
  | OpRotateKey _ k _ => k ∉ pending_keys c
  | _ => True
  end.
Definition op_fits (op : StakingOp) (c : StakingContract) : Prop := op_amounts op c /\ op_fresh op c.

#[export] Instance op_amounts_dec op c : Decision (op_amounts op c).
Proof. destruct op; simpl; apply _. Defined.
#[export] Instance op_fresh_dec op c : Decision (op_fresh op c).
Proof. destruct op; simpl; apply _. Defined.
#[export] Instance op_fits_dec op c : Decision (op_fits op c).
Proof. unfold op_fits. apply _. Defined.

(** A condition along a run. *)
Fixpoint run_all (P : StakingOp -> StakingContract -> Prop) (ops : list StakingOp) (c : StakingContract) : Prop :=
  match ops with
  | [] => True
  | op :: ops => P op c /\ run_all P ops (fst (staking_exec op c))
  end.

#[export] Instance run_all_dec P `{!forall op c, Decision (P op c)} ops c : Decision (run_all P ops c).
Proof. revert c. induction ops; intros c; simpl; apply _. Defined.

Fixpoint run_fits (ops : list StakingOp) (c : StakingContract) : Prop :=
  match ops with
  | [] => True
  | op :: ops => op_fits op c /\ run_fits ops (fst (staking_exec op c))
  end.

#[export] Instance run_fits_dec ops c : Decision (run_fits ops c).
Proof. revert c. induction ops; intros c; simpl; apply _. Defined.

Lemma not_registered c id :
  existsb (has_id id) (validators c) = false -> id ∉ map sv_id (validators c).
Proof.
  intros H (v & -> & Hv)%list_elem_of_fmap.
  pose proof (existsb_false_elem _ _ H v Hv) as E. unfold has_id in E.
  by rewrite bytes_eqb_refl in E.
Qed.

Lemma rotate_key_wf c val k e c' :
  staking_wf c -> k ∉ pending_keys c -> rotate_key val k e c = Ok c' ->
  staking_wf c' /\ locked_tokens c' = locked_tokens c.
Proof.
  intros Hc Hk. unfold rotate_key. destruct (existsb _ _) eqn:Hex; [done|].
  unfold ok_or, rbind. destruct (List.find _ _) as [v|] eqn:Hf; [|done].
  destruct (pending_new_key v) eqn:Hp; [done|]. intros [= <-].
  apply not_registered in Hex.
  set (f := set_pending_key _ _).
  split; [|unfold locked_tokens; simpl; by rewrite update_first_map].
  pose proof (find_split _ _ _ Hf) as (l1 & l2 & Hv & Hpv & Hl1).
  assert (Hid : map sv_id (update_first (has_id val) f (validators c)) = map sv_id (validators c))
    by (by apply update_first_map).
  destruct Hc. split; simpl; rewrite ?Hid; auto.
  - unfold pending_keys in *. simpl. rewrite Hv in *. rewrite update_first_split by done.
    rewrite !omap_app in *. csimpl. csimpl in *. rewrite Hp in *.
    rewrite <- (Permutation_middle (omap pending_new_key l1)),
      <- (Permutation_middle (map sv_id (l1 ++ v :: l2))).
    apply NoDup_cons. split; [|done]. rewrite elem_of_app. tauto.
  - by apply update_first_Forall.
  - by apply update_first_Forall.
  - unfold locked_tokens in *. simpl. by rewrite update_first_map.
Qed.

Lemma staking_exec_wf op c :
  staking_wf c -> op_fits op c ->
  staking_wf (fst (staking_exec op c))
  /\ locked_tokens (fst (staking_exec op c)) = locked_tokens c + snd (staking_exec op c).
Proof.
  intros Hc Hop.
  assert (Hsame : staking_wf c /\ locked_tokens c = locked_tokens c + 0) by (split; [done|lia]).
  destruct op; simpl in *.
  - unfold register_validator_at_epoch_with_config. destruct (_ <? _); [done|].
    destruct (existsb _ _) eqn:E; [done|]. apply not_registered in E. simpl.
    destruct Hop as ([? ?] & ?). by apply push_validator_wf.
  - unfold register_genesis_validator.
    destruct (existsb _ _) eqn:E; [done|]. apply not_registered in E. simpl.
    destruct Hop as ([? ?] & ?). by apply push_validator_wf.
  - unfold deregister_validator, ok_or, rbind. destruct (List.find _ _) as [v|] eqn:E; [|done].
    destruct (_ && _); [done|]. destruct (Nat.leb _ _); [done|]. cbn [fst snd].
    by apply retire_validator_wf.
  - destruct (delegate_at_epoch _ _ _ _ _) eqn:E; [|done]. simpl. destruct Hop as [[? ?] _].
    by apply (delegate_wf c del val amount epoch).
  - destruct (undelegate _ _ _ _ _) eqn:E; [|done]. simpl. rewrite Z.add_0_r.
    destruct Hop as [? _]. by apply (undelegate_wf c del val amount epoch).
  - pose proof (withdraw_wf del epoch c Hc) as (? & Hl & _).
    simpl in *. split; [done|]. rewrite Hl. lia.
  - unfold distribute_rewards, ok_or, rbind. destruct (List.find _ _); [|done].
    destruct (_ <? _); [|done]. simpl. rewrite Z.add_0_r.
    split; [by apply benign_update_wf|by apply benign_update_locked].
  - unfold set_commission, ok_or, rbind. destruct (List.find _ _); [|done]. simpl.
    rewrite Z.add_0_r. split; [by apply benign_update_wf|by apply benign_update_locked].
  - unfold unjail, ok_or, rbind. destruct (List.find _ _) as [v|]; [|done].
    destruct (is_active v); [done|]. destruct (_ <? _); [done|]. simpl. rewrite Z.add_0_r.
    split; [by apply benign_update_wf|by apply benign_update_locked].
  - destruct (rotate_key _ _ _ _) eqn:E; [|done]. simpl. rewrite Z.add_0_r.
    destruct Hop as [_ ?]. by apply (rotate_key_wf c val new_key epoch).
  - rewrite Z.add_0_r. by apply apply_rotations_wf.
  - unfold slash_exec. destruct (_ <? bps) eqn:E; [done|]. destruct (List.find _ _) as [v|] eqn:Ef; [|done].
    destruct (negb _); [done|]. prop_bool. destruct Hop as [Hbps _]. cbn in Hbps.
    destruct (slash_contract_wf offender bps epoch c v Hc ltac:(lia) Ef) as (Hw & Hl & _).
    destruct (slash_contract _ _ _ _) as [c' p]. simpl in *. split; [done|lia].
Qed.

(** The same of the amounts, whatever the keys. *)
Lemma staking_exec_amounts op c :
  amounts_ok c -> op_amounts op c ->
  amounts_ok (fst (staking_exec op c))
  /\ locked_tokens (fst (staking_exec op c)) = locked_tokens c + snd (staking_exec op c).
Proof.
  intros Hc Hop.
  assert (Hsame : amounts_ok c /\ locked_tokens c = locked_tokens c + 0) by (split; [done|lia]).
  assert (Hben : forall p f, (forall v, self_stake (f v) = self_stake v) ->
    amounts_ok (with_validators (update_first p f (validators c)) c)
    /\ locked_tokens (with_validators (update_first p f (validators c)) c) = locked_tokens c + 0).
  { intros p f Hf. rewrite Z.add_0_r. apply same_stakes_amounts; [done|]. by apply update_first_map. }
  destruct op; simpl in *.
  - unfold register_validator_at_epoch_with_config. destruct (_ <? _); [done|].
    destruct (existsb _ _); [done|]. destruct Hop. by apply push_validator_amounts.
  - unfold register_genesis_validator. destruct (existsb _ _); [done|]. destruct Hop. by apply push_validator_amounts.
  - unfold deregister_validator, ok_or, rbind. destruct (List.find _ _) as [v|] eqn:E; [|done].
    destruct (_ && _); [done|]. destruct (Nat.leb _ _); [done|]. cbn [fst snd].
    pose proof (find_elem _ _ _ E) as [Hin _].
    pose proof (proj1 (Forall_forall _ _) (ao_self c Hc) v Hin) as Hs. cbn beta in Hs.
    destruct (lower_stake_amounts c id (fun v => set_self_stake 0 (set_is_active false v)) v Hc E) as [? Hl].
    + simpl. lia.
    + split; [done|]. rewrite Hl. simpl. lia.
  - destruct (delegate_at_epoch _ _ _ _ _) eqn:E; [|done]. destruct Hop. by apply (delegate_amounts c del val amount epoch).
  - destruct (undelegate _ _ _ _ _) eqn:E; [|done]. simpl. rewrite Z.add_0_r.
    by apply (undelegate_amounts c del val amount epoch).
  - pose proof (withdraw_amounts del epoch c Hc) as (? & Hl & _). simpl in *. split; [done|]. rewrite Hl. lia.
  - unfold distribute_rewards, ok_or, rbind. destruct (List.find _ _); [|done]. destruct (_ <? _); [|done]. by apply Hben.
  - unfold set_commission, ok_or, rbind. destruct (List.find _ _); [|done]. by apply Hben.
  - unfold unjail, ok_or, rbind. destruct (List.find _ _) as [v|]; [|done].
    destruct (is_active v); [done|]. destruct (_ <? _); [done|]. by apply Hben.
  - unfold rotate_key. destruct (existsb _ _); [done|]. unfold ok_or, rbind.
    destruct (List.find _ _) as [v|]; [|done]. destruct (pending_new_key v); [done|]. by apply Hben.
  - rewrite Z.add_0_r. by apply rotations_amounts.
  - unfold slash_exec. destruct (_ <? bps) eqn:E; [done|]. destruct (List.find _ _) as [v|] eqn:Ef; [|done].
    destruct (negb _); [done|]. prop_bool.
    destruct (slash_amounts offender bps epoch c v Hc ltac:(lia) Ef) as (Hw & Hl & _).
    destruct (slash_contract _ _ _ _) as [c' p]. simpl in *. split; [done|lia].
Qed.

Lemma staking_run_amounts ops c :
  amounts_ok c -> run_all op_amounts ops c ->
  amounts_ok (fst (staking_run ops c))
  /\ locked_tokens (fst (staking_run ops c)) = locked_tokens c + snd (staking_run ops c).
Proof.
  revert c. induction ops as [|op ops IH]; intros c Hc Hf; simpl in *; [split; [done|lia]|].
  destruct Hf as [Hop Hf]. pose proof (staking_exec_amounts op c Hc Hop) as [Hc1 Hl1].
  destruct (staking_exec op c) as [c1 f1]. simpl in *.
  pose proof (IH c1 Hc1 Hf) as [Hc2 Hl2]. destruct (staking_run ops c1) as [c2 f2].
  simpl in *. split; [done|lia].
Qed.

Lemma run_fits_split ops c : run_all op_amounts ops c -> run_all op_fresh ops c -> run_fits ops c.
Proof.
  revert c. induction ops as [|op ops IH]; intros c; simpl; [done|].
  intros [H1 H2] [H3 H4]. split; [by split|by apply IH].
Qed.

Lemma staking_run_wf ops c :
  staking_wf c -> run_fits ops c ->
  staking_wf (fst (staking_run ops c))
  /\ locked_tokens (fst (staking_run ops c)) = locked_tokens c + snd (staking_run ops c).
Proof.
  revert c. induction ops as [|op ops IH]; intros c Hc Hf; simpl in *; [split; [done|lia]|].
  destruct Hf as [Hop Hf]. pose proof (staking_exec_wf op c Hc Hop) as [Hc1 Hl1].
  destruct (staking_exec op c) as [c1 f1]. simpl in *.
  pose proof (IH c1 Hc1 Hf) as [Hc2 Hl2]. destruct (staking_run ops c1) as [c2 f2].
  simpl in *. split; [done|lia].
Qed.

Lemma staking_default_wf : staking_wf staking_default.
Proof. split; simpl; try constructor. unfold locked_tokens, u128_max. simpl. lia. Qed.

(** C13: along every run of the staking contract from the empty state, with
    registrations, exits, delegations, undelegations, withdrawals, rewards,
    commissions, key rotations and slashes, failing ones included, as long as
    the amounts put in fit in a u128 together with what is there: no record is
    negative, and the tokens the contract owes are exactly what the operations
    took in less what they paid out or slashed. If moreover nobody registers or
    rotates to a key that another validator is about to take, which the contract
    does not check, the keys of the validators stay distinct, there is one
    delegation record per delegator and validator, and every validator's
    [total_delegated] is the sum of its delegation records. *)
Theorem staking_run_sound ops :
  run_all op_amounts ops staking_default ->
  amounts_ok (fst (staking_run ops staking_default))
  /\ locked_tokens (fst (staking_run ops staking_default)) = snd (staking_run ops staking_default)
  /\ (run_all op_fresh ops staking_default -> staking_wf (fst (staking_run ops staking_default))).
Proof.
  intros H. destruct (staking_run_amounts ops staking_default (wf_amounts _ staking_default_wf) H) as [Ha Hl].
  split; [done|]. split; [exact Hl|]. intros Hf.
  apply (staking_run_wf ops staking_default staking_default_wf). by apply run_fits_split.
Qed.

Definition demo_ops : list StakingOp :=
  [OpRegisterGenesis (demo_key 1) 1000; OpDelegate (demo_key 9) (demo_key 1) 300 4;
   OpRotateKey (demo_key 1) (demo_key 2) 4; OpUndelegate (demo_key 9) (demo_key 1) 100 5;
   OpApplyRotations 5; OpDelegate (demo_key 8) (demo_key 2) 50 6; OpSlash (demo_key 2) 1000 6;
   OpWithdraw (demo_key 9) 12].

(** A run with fresh keys, and one in which two validators take the same key. *)
Definition same_key_ops : list StakingOp :=
  [OpRegisterGenesis (demo_key 1) 1000; OpRegisterGenesis (demo_key 2) 500; OpDelegate (demo_key 9) (demo_key 2) 300 4;
   OpRotateKey (demo_key 1) (demo_key 3) 4; OpRotateKey (demo_key 2) (demo_key 3) 4; OpApplyRotations 5;
   OpSlash (demo_key 3) 1000 6; OpUndelegate (demo_key 9) (demo_key 3) 100 7].

Lemma staking_run_sound_witness :
  (snd (staking_run demo_ops staking_default) = 1125
   /\ locked_tokens (fst (staking_run demo_ops staking_default)) = 1125
   /\ staking_wf (fst (staking_run demo_ops staking_default)))
  /\ map sv_id (validators (fst (staking_run same_key_ops staking_default))) = [demo_key 3; demo_key 3]
  /\ locked_tokens (fst (staking_run same_key_ops staking_default)) = snd (staking_run same_key_ops staking_default).
Proof.
  assert (H1 : run_all op_amounts demo_ops staking_default)
    by (apply (bool_decide_unpack _); vm_compute; exact I).
  assert (F1 : run_all op_fresh demo_ops staking_default)
    by (apply (bool_decide_unpack _); vm_compute; exact I).
  assert (H2 : run_all op_amounts same_key_ops staking_default)
    by (apply (bool_decide_unpack _); vm_compute; exact I).
  destruct (staking_run_sound demo_ops H1) as (_ & L1 & W1).
  destruct (staking_run_sound same_key_ops H2) as (_ & L2 & _).
  split; [|split; [vm_compute; reflexivity|exact L2]].
  split; [vm_compute; reflexivity|]. split; [|exact (W1 F1)]. rewrite L1. vm_compute. reflexivity.
Defined.

(** ** Exits *)

Lemma filter_update_first_length {A} (q p : A -> bool) f l :
  (length (List.filter q l) <= S (length (List.filter q (update_first p f l))))%nat.
Proof.
  induction l as [|x l IH]; simpl; [lia|].
  destruct (p x); simpl; destruct (q x), (q (f x)) || idtac; simpl; try lia.
Qed.

(** A validator leaves only if it is registered, past its genesis lock, and
    at least [MIN_VALIDATOR_COUNT] validators stay active; it gets its self
    stake back, and is left inactive with no self stake, so that it can
    neither be paid twice nor reactivated with [unjail] while a positive
    minimum stake is in force. *)
Theorem deregister_safe c id e c' stake :
  deregister_validator id e c = Ok (c', stake) ->
  (exists v, get_validator id c = Some v /\ stake = self_stake v
     /\ (is_genesis v = true -> genesis_lock_until v <= e))
  /\ (MIN_VALIDATOR_COUNT <= active_validator_count c')%nat
  /\ (exists v', get_validator id c' = Some v' /\ self_stake v' = 0 /\ is_active v' = false)
  /\ (0 < default MIN_VALIDATOR_STAKE (min_validator_stake c) ->
      exists err, unjail id c' = Err err)
  /\ (forall e2 c2 stake2, deregister_validator id e2 c' = Ok (c2, stake2) -> stake2 = 0).
Proof.
  intros H. unfold deregister_validator, ok_or, rbind in H.
  destruct (List.find _ _) as [v|] eqn:Hf; [|done].
  destruct (_ && _) eqn:Hg; [done|]. destruct (Nat.leb _ _) eqn:Hn; [done|].
  injection H as <- <-. apply Nat.leb_gt in Hn.
  set (f := fun v => set_self_stake 0 (set_is_active false v)).
  assert (Hf' : List.find (has_id id) (update_first (has_id id) f (validators c)) = Some (f v)).
  { rewrite find_update_first by done. by rewrite Hf. }
  repeat split.
  - exists v. repeat split; [done|]. intros Hgen. rewrite Hgen in Hg. simpl in Hg. by prop_bool.
  - pose proof (filter_update_first_length is_active (has_id id) f (validators c)).
    unfold active_validator_count, active_validators in *. cbn [validators with_validators]. lia.
  - exists (f v). by repeat split.
  - intros Hm. unfold unjail, ok_or, rbind. cbn [validators with_validators]. rewrite Hf'. simpl.
    destruct (0 <? _) eqn:E; [by eexists|]. prop_bool. lia.
  - intros e2 c2 s2. unfold deregister_validator, ok_or, rbind.
    cbn [validators with_validators]. rewrite Hf'.
    destruct (is_genesis (f v) && _); [done|]. destruct (Nat.leb _ _); [done|]. by intros [= <- <-].
Qed.

Definition demo_twentyone : StakingContract :=
  fst (staking_run (map (fun i => OpRegister (demo_key (Z.of_nat i)) 7 3 5) (seq 0 21))
         staking_default).

Lemma deregister_safe_witness :
  exists c', deregister_validator (demo_key 4) 9 demo_twentyone = Ok (c', 7)
    /\ (20 <= active_validator_count c')%nat.
Proof.
  destruct (deregister_validator (demo_key 4) 9 demo_twentyone) as [[c' s]|] eqn:E;
    [|vm_compute in E; discriminate E].
  exists c'. pose proof (deregister_safe _ _ _ _ _ E) as (_ & Hc & _).
  split; [|exact Hc]. f_equal. f_equal. vm_compute in E. congruence.
Defined.

(** Undelegating moves the amount out of the delegation record at once and
    makes it withdrawable exactly from the end of the unbonding period:
    before the unlock epoch a withdrawal pays what it paid before, from then on
    it pays the amount more, and nobody else's withdrawal changes. *)
Theorem undelegate_unlocks c del val amount e c' :
  staking_wf c -> 0 <= amount ->
  undelegate del val amount e c = Ok c' ->
  let unlock := u64_add e (default UNBONDING_PERIOD (unbonding_period c)) in
  delegated_to val c' = delegated_to val c - amount
  /\ (forall e', snd (withdraw_undelegated del e' c')
        = snd (withdraw_undelegated del e' c) + (if unlock <=? e' then amount else 0))
  /\ (forall other e', other <> del ->
        snd (withdraw_undelegated other e' c') = snd (withdraw_undelegated other e' c)).
Proof.
  intros Hc Ha Hu unlock. pose proof (undelegate_wf _ _ _ _ _ _ Hc Ha Hu) as [Hc' _].
  apply undelegate_ok in Hu as (d & Hf & Hle & _ & Heq).
  pose proof (undelegate_records c del val amount d Hc Hf ltac:(lia)) as (_ & _ & _ & _ & Hsh).
  assert (Hw : forall who e', snd (withdraw_undelegated who e' c')
     = snd (withdraw_undelegated who e' c)
       + (if bytes_eqb del who && (unlock <=? e') then amount else 0)).
  { intros who e'. pose proof (withdraw_wf who e' c Hc) as (_ & _ & ->).
    pose proof (withdraw_wf who e' c' Hc') as (_ & _ & ->). rewrite Heq. cbn [undelegations with_undelegations].
    rewrite List.filter_app, map_app, sumZ_app. cbn [List.filter]. unfold withdrawable at 2.
    cbn [u_delegator u_unlock_epoch]. fold unlock.
    destruct (bytes_eqb del who && (unlock <=? e')); simpl; lia. }
  split; [|split].
  - specialize (Hsh val). rewrite bytes_eqb_refl in Hsh. rewrite Heq.
    unfold delegated_to at 1. simpl. simpl in Hsh. lia.
  - intros e'. rewrite Hw, bytes_eqb_refl. done.
  - intros who e' Hne. rewrite Hw.
    assert (bytes_eqb del who = false) as -> by (by apply bytes_eqb_false). simpl. lia.
Qed.

Definition demo_delegated : StakingContract :=
  fst (staking_run [OpRegisterGenesis (demo_key 1) 1000;
                    OpDelegate (demo_key 9) (demo_key 1) 300 4] staking_default).

Lemma undelegate_unlocks_witness :
  exists c', undelegate (demo_key 9) (demo_key 1) 120 5 demo_delegated = Ok c'
    /\ snd (withdraw_undelegated (demo_key 9) 11 c') = 0
    /\ snd (withdraw_undelegated (demo_key 9) 12 c') = 120.
Proof.
  assert (Hwf : staking_wf demo_delegated).
  { apply staking_run_wf; [exact staking_default_wf|].
    apply (bool_decide_unpack _); vm_compute; exact I. }
  destruct (undelegate (demo_key 9) (demo_key 1) 120 5 demo_delegated) as [c'|] eqn:E;
    [|vm_compute in E; discriminate E].
  exists c'. split; [reflexivity|].
  pose proof (undelegate_unlocks _ (demo_key 9) _ 120 5 _ Hwf ltac:(lia) E) as (_ & Hw & _).
  split; rewrite Hw; reflexivity.
Defined.

(** ** Rotations that collide

    [rotate_key] looks at the current keys and at the pending key of the
    validator that asks, not at the pending keys of the others. *)

Lemma rotate_key_ok c val k e v :
  List.find (has_id val) (validators c) = Some v -> pending_new_key v = None ->
  k ∉ map sv_id (validators c) ->
  rotate_key val k e c = Ok (with_validators (update_first (has_id val)
                               (set_pending_key (Some k) (u64_add e 1)) (validators c)) c).
Proof.
  intros Hf Hp Hk. unfold rotate_key, ok_or, rbind.
  destruct (existsb _ _) eqn:E.
  - apply existsb_true_elem in E as (w & Hw & Hid). apply has_id_spec in Hid. subst.
    destruct Hk. by apply list_elem_of_fmap_2.
  - by rewrite Hf, Hp.
Qed.

Lemma rotate_due e v k :
  pending_new_key v = Some k -> key_rotation_epoch v <= e -> sv_id (fst (rotate_one e v)) = k.
Proof.
  intros Hp He. unfold rotate_one. rewrite Hp.
  destruct (_ <=? _) eqn:E; [done|]. prop_bool. lia.
Qed.

(** Two validators can both announce the same new key; when the rotations
    take effect the validator set holds that key twice. *)
Theorem rotation_can_duplicate_key c a b k e e' va vb :
  staking_wf c -> a <> b -> k ∉ map sv_id (validators c) ->
  get_validator a c = Some va -> pending_new_key va = None ->
  get_validator b c = Some vb -> pending_new_key vb = None ->
  u64_add e 1 <= e' ->
  exists c1 c2, rotate_key a k e c = Ok c1 /\ rotate_key b k e c1 = Ok c2
    /\ ~ NoDup (map sv_id (validators (fst (apply_pending_rotations e' c2)))).
Proof.
  intros Hc Hab Hk Ha Hpa Hb Hpb He.
  set (f := set_pending_key (Some k) (u64_add e 1)).
  set (vs1 := update_first (has_id a) f (validators c)).
  assert (Hne : forall x y v, x <> y -> has_id x v = true -> has_id y v = false).
  { intros x y v Hxy <-%has_id_spec. by apply bytes_eqb_false. }
  assert (Hb1 : List.find (has_id b) vs1 = Some vb).
  { unfold vs1. rewrite find_update_first_other; eauto. }
  assert (Hid1 : map sv_id vs1 = map sv_id (validators c)) by (by apply update_first_map).
  exists (with_validators vs1 c),
         (with_validators (update_first (has_id b) f vs1) (with_validators vs1 c)).
  split; [by apply (rotate_key_ok c a k e va)|].
  split; [apply (rotate_key_ok (with_validators vs1 c) b k e vb); simpl; by rewrite ?Hid1|].
  rewrite apply_rotations_eq. cbv zeta. simpl. set (vs2 := update_first (has_id b) f vs1).
  intros Hnd.
  assert (Hfa : List.find (has_id a) vs2 = Some (f va)).
  { unfold vs2. rewrite find_update_first_other by eauto.
    unfold vs1. rewrite find_update_first by done. unfold get_validator in Ha. by rewrite Ha. }
  assert (Hfb : List.find (has_id b) vs2 = Some (f vb)).
  { unfold vs2. rewrite find_update_first by done. by rewrite Hb1. }
  apply find_elem in Hfa as [Hina Hida], Hfb as [Hinb Hidb].
  apply has_id_spec in Hida, Hidb.
  apply list_elem_of_lookup in Hina as [i Hi], Hinb as [j Hj].
  assert (i = j) as ->; [|congruence].
  rewrite map_map in Hnd. apply (NoDup_lookup _ i j k Hnd);
    rewrite list_lookup_fmap, ?Hi, ?Hj; simpl; f_equal; by apply rotate_due.
Qed.

Definition demo_two : StakingContract :=
  fst (staking_run [OpRegister (demo_key 1) 9 0 5; OpRegister (demo_key 2) 9 0 5] staking_default).

Lemma rotation_can_duplicate_key_witness :
  exists c1 c2, rotate_key (demo_key 1) (demo_key 3) 4 demo_two = Ok c1
    /\ rotate_key (demo_key 2) (demo_key 3) 4 c1 = Ok c2
    /\ ~ NoDup (map sv_id (validators (fst (apply_pending_rotations 5 c2)))).
Proof.
  assert (Hwf : staking_wf demo_two).
  { apply staking_run_wf; [exact staking_default_wf|].
    apply (bool_decide_unpack _); vm_compute; exact I. }
  eapply (rotation_can_duplicate_key demo_two (demo_key 1) (demo_key 2) (demo_key 3) 4 5);
    [exact Hwf|..]; try reflexivity; try (apply (bool_decide_unpack _); vm_compute; exact I).
Defined.
