(* ===== verification/Governance.v ===== *)
(** The governance system contract
    ([crates/solen-system-contracts/src/governance.rs]): proposals, stake
    weighted votes, quorum and supermajority, timelocked execution. Errors are
    raised before the first mutation. *)

From S2P Require Import Prelude Types Store.
Open Scope Z_scope.

(** ** Constants *)

Definition DEFAULT_VOTING_PERIOD : u64 := 14.
Definition MAX_SANE_VOTING_PERIOD : u64 := 50000.
Definition SANE_VOTING_PERIOD : u64 := 2016.
Definition TIMELOCK_DELAY : u64 := 3.
Definition QUORUM_BPS : u64 := 3000.
Definition PASS_THRESHOLD_BPS : u64 := 6667.
Definition EMERGENCY_FASTTRACK_ACTIVATION_EPOCH : u64 := u64_max.
Definition PROPOSAL_DEPOSIT : u128 := 1000 * 100000000.

(** ** Data *)

Inductive GovernanceError : Type :=
| ProposalNotFound | VotingEnded | VotingNotEnded | AlreadyVoted | ProposalNotPassed
| TimelockNotExpired | AlreadyExecuted | InvalidProposalType.

Inductive ProposalAction : Type :=
| SetBaseFee (new_fee : u128)
| SetBlockTime (new_block_time_ms : u64)
| SetMaxOpsPerBlock (new_max : Z)
| RegisterRollup (rollup_id : u64) (name : string)
| SetBurnRate (new_burn_rate_bps : u64)
| SetEpochReward (new_reward : u128)
| SetMinValidatorStake (new_min_stake : u128)
| SetUnbondingPeriod (new_period : u64)
| EmergencyPause
| EmergencyResume
| SetBridgeRelayer (relayer : AccountId)
| SetVestingAdmin (admin : AccountId)
| MigrateTeamPoolToVesting
| SetGovernanceVotingPeriod (epochs : u64).

Inductive ProposalStatus : Type := Active | Passed | Rejected | Executed | Expired.

#[export] Instance ProposalStatus_eq_dec : EqDecision ProposalStatus.
Proof. solve_decision. Defined.

Record Vote : Type := mkVote {
  voter : AccountId;
  support : bool;
  stake_weight : u128;
}.

Record Proposal : Type := mkProposal {
  p_id : u64;
  proposer : AccountId;
  p_action : ProposalAction;
  p_description : string;
  created_epoch : u64;
  voting_end_epoch : u64;
  execute_after_epoch : u64;
  p_status : ProposalStatus;
  votes : list Vote;
  total_for : u128;
  total_against : u128;
  p_deposit : u128;
}.

Record GovernanceContract : Type := mkGovernance {
  proposals : list Proposal;
  next_proposal_id : u64;
  is_paused : bool;
  voting_period : u64;
}.

Definition set_p_status (st : ProposalStatus) (p : Proposal) : Proposal :=
  mkProposal (p_id p) (proposer p) (p_action p) (p_description p) (created_epoch p)
    (voting_end_epoch p) (execute_after_epoch p) st (votes p) (total_for p) (total_against p)
    (p_deposit p).
Definition set_ballot (vs : list Vote) (tf ta : u128) (p : Proposal) : Proposal :=
  mkProposal (p_id p) (proposer p) (p_action p) (p_description p) (created_epoch p)
    (voting_end_epoch p) (execute_after_epoch p) (p_status p) vs tf ta (p_deposit p).
Definition with_proposals (l : list Proposal) (c : GovernanceContract) : GovernanceContract :=
  mkGovernance l (next_proposal_id c) (is_paused c) (voting_period c).
Definition with_paused (b : bool) (c : GovernanceContract) : GovernanceContract :=
  mkGovernance (proposals c) (next_proposal_id c) b (voting_period c).
Definition with_voting_period (n : u64) (c : GovernanceContract) : GovernanceContract :=
  mkGovernance (proposals c) (next_proposal_id c) (is_paused c) n.

Definition is_proposal (id : u64) (p : Proposal) : bool := p_id p =? id.

(** ** Operations *)

Definition emergency_fasttrack_active (epoch : u64) : bool :=
  if EMERGENCY_FASTTRACK_ACTIVATION_EPOCH =? u64_max then false
  else EMERGENCY_FASTTRACK_ACTIVATION_EPOCH <=? epoch.

Definition is_emergency (a : ProposalAction) : bool :=
  match a with EmergencyPause | EmergencyResume => true | _ => false end.

(** [Default::default()] has a voting period of 0, [new()] of 14. *)
Definition governance_default : GovernanceContract := mkGovernance [] 0 false 0.
Definition governance_new : GovernanceContract := mkGovernance [] 0 false DEFAULT_VOTING_PERIOD.

Definition effective_voting_period (c : GovernanceContract) : u64 :=
  if (voting_period c =? 0) || (MAX_SANE_VOTING_PERIOD <? voting_period c)
  then SANE_VOTING_PERIOD else voting_period c.

Definition create_proposal (proposer : AccountId) (action : ProposalAction)
    (description : string) (current_epoch : u64) (c : GovernanceContract) :
    GovernanceContract * u64 :=
  let id := next_proposal_id c in
  let voting_end := u64_add current_epoch (effective_voting_period c) in
  let execute_after := u64_add voting_end TIMELOCK_DELAY in
  (mkGovernance
     (proposals c ++ [mkProposal id proposer action description current_epoch voting_end
        execute_after Active [] 0 0 PROPOSAL_DEPOSIT])
     (u64_add id 1) (is_paused c) (voting_period c), id).

Definition vote (proposal_id : u64) (who : AccountId) (sup : bool) (weight : u128)
    (current_epoch : u64) (c : GovernanceContract) :
    result GovernanceContract GovernanceError :=
  let! p := ok_or (List.find (is_proposal proposal_id) (proposals c)) ProposalNotFound in
  if negb (bool_decide (p_status p = Active)) then Err VotingEnded
  else if voting_end_epoch p <? current_epoch then Err VotingEnded
  else if existsb (fun v => bytes_eqb (voter v) who) (votes p) then Err AlreadyVoted
  else Ok (with_proposals (update_first (is_proposal proposal_id)
    (fun p => set_ballot (votes p ++ [mkVote who sup weight])
                (if sup then u128_add (total_for p) weight else total_for p)
                (if sup then total_against p else u128_add (total_against p) weight) p)
    (proposals c)) c).

Definition quorum_met (total_voted total_stake : u128) : bool :=
  (0 <? total_stake)
  && (sat_mul128 total_stake QUORUM_BPS <=? sat_mul128 total_voted 10000).

Definition threshold_met (total_for total_voted : u128) : bool :=
  (0 <? total_voted)
  && (sat_mul128 total_voted PASS_THRESHOLD_BPS <=? sat_mul128 total_for 10000).

Definition finalize (proposal_id : u64) (total_stake : u128) (current_epoch : u64)
    (emergency_fasttrack : bool) (c : GovernanceContract) :
    result (GovernanceContract * ProposalStatus) GovernanceError :=
  let! p := ok_or (List.find (is_proposal proposal_id) (proposals c)) ProposalNotFound in
  let emergency := emergency_fasttrack && is_emergency (p_action p) in
  if negb emergency && (current_epoch <=? voting_end_epoch p) then Err VotingNotEnded
  else if negb (bool_decide (p_status p = Active)) then Ok (c, p_status p)
  else
  let total_voted := u128_add (total_for p) (total_against p) in
  let set st := with_proposals
    (update_first (is_proposal proposal_id) (set_p_status st) (proposals c)) c in
  if quorum_met total_voted total_stake && threshold_met (total_for p) total_voted
  then Ok (set Passed, Passed)
  else if emergency && (current_epoch <=? voting_end_epoch p) then Ok (c, Active)
  else Ok (set Rejected, Rejected).

Definition execute (proposal_id : u64) (current_epoch : u64) (emergency_fasttrack : bool)
    (c : GovernanceContract) : result (GovernanceContract * ProposalAction) GovernanceError :=
  let! p := ok_or (List.find (is_proposal proposal_id) (proposals c)) ProposalNotFound in
  if negb (bool_decide (p_status p = Passed)) then Err ProposalNotPassed
  else
  let emergency := emergency_fasttrack && is_emergency (p_action p) in
  if negb emergency && (current_epoch <? execute_after_epoch p) then Err TimelockNotExpired
  else
  let c := with_proposals
    (update_first (is_proposal proposal_id) (set_p_status Executed) (proposals c)) c in
  Ok (match p_action p with
      | EmergencyPause => with_paused true c
      | EmergencyResume => with_paused false c
      | _ => c
      end, p_action p).

Definition get_proposal (id : u64) (c : GovernanceContract) : option Proposal :=
  List.find (is_proposal id) (proposals c).

Definition GOVERNANCE_STORAGE_KEY : bytes :=
  Eval vm_compute in bytes_of_string "__governance_state__".

Definition governance_load {S} `{!StateStore S, !Codec GovernanceContract} (s : S) :
    GovernanceContract := load_record GOVERNANCE_STORAGE_KEY governance_default s.
Definition governance_save {S} `{!StateStore S, !Codec GovernanceContract}
    (c : GovernanceContract) (s : S) : S := save_record GOVERNANCE_STORAGE_KEY c s.

(** ** The invariant of a proposal *)

Definition weight_for (p : Proposal) : Z :=
  sumZ (map stake_weight (List.filter support (votes p))).
Definition weight_against (p : Proposal) : Z :=
  sumZ (map stake_weight (List.filter (fun v => negb (support v)) (votes p))).

(** Totals are kept far enough below the u128 range for the basis point
    comparisons not to saturate; the whole supply is below [10 ^ 18]. *)
Definition VOTE_CAP : Z := u128_max / 10000.

Record proposal_wf (p : Proposal) : Prop := {
  pw_distinct : NoDup (map voter (votes p));
  pw_weights : Forall (fun v => 0 <= stake_weight v) (votes p);
  pw_for : total_for p = weight_for p;
  pw_against : total_against p = weight_against p;
  pw_cap : weight_for p + weight_against p <= VOTE_CAP;
  pw_timelock : execute_after_epoch p = u64_add (voting_end_epoch p) TIMELOCK_DELAY;
  pw_passed : p_status p = Passed \/ p_status p = Executed ->
    0 < weight_for p + weight_against p
    /\ (weight_for p + weight_against p) * PASS_THRESHOLD_BPS <= weight_for p * 10000;
}.

Definition governance_wf (c : GovernanceContract) : Prop :=
  Forall proposal_wf (proposals c)
  /\ NoDup (map p_id (proposals c))
  /\ 0 <= next_proposal_id c
  /\ Forall (fun p => 0 <= p_id p < next_proposal_id c) (proposals c).

(** ** Runs *)

Inductive GovOp : Type :=
| GCreate (who : AccountId) (a : ProposalAction) (desc : string) (epoch : u64)
| GVote (id : u64) (who : AccountId) (sup : bool) (weight : u128) (epoch : u64)
| GFinalize (id : u64) (total_stake : u128) (epoch : u64) (fasttrack : bool)
| GExecute (id : u64) (epoch : u64) (fasttrack : bool)
| GSetPeriod (n : u64).

Definition gov_exec (op : GovOp) (c : GovernanceContract) : GovernanceContract :=
  match op with
  | GCreate who a d e => fst (create_proposal who a d e c)
  | GVote id who sup w e =>
      match vote id who sup w e c with Ok c' => c' | Err _ => c end
  | GFinalize id ts e ft =>
      match finalize id ts e ft c with Ok (c', _) => c' | Err _ => c end
  | GExecute id e ft =>
      match execute id e ft c with Ok (c', _) => c' | Err _ => c end
  | GSetPeriod n => with_voting_period n c
  end.

Definition gov_run (ops : list GovOp) (c : GovernanceContract) : GovernanceContract :=
  fold_left (fun c op => gov_exec op c) ops c.

(** The weight of a vote is a stake, so the weights on one proposal stay below
    the cap; proposal numbers do not wrap around. *)
Definition gov_fits (op : GovOp) (c : GovernanceContract) : Prop :=
  match op with
  | GCreate _ _ _ _ => next_proposal_id c < u64_max
  | GVote id _ _ w _ => 0 <= w /\
      Forall (fun p => p_id p = id -> weight_for p + weight_against p + w <= VOTE_CAP)
        (proposals c)
  | _ => True
  end.

#[export] Instance gov_fits_dec op c : Decision (gov_fits op c).
Proof. destruct op; simpl; apply _. Defined.

Fixpoint gov_run_fits (ops : list GovOp) (c : GovernanceContract) : Prop :=
  match ops with
  | [] => True
  | op :: ops => gov_fits op c /\ gov_run_fits ops (gov_exec op c)
  end.

#[export] Instance gov_run_fits_dec ops c : Decision (gov_run_fits ops c).
Proof. revert c. induction ops; intros c; simpl; apply _. Defined.

Lemma is_proposal_spec id p : is_proposal id p = true <-> p_id p = id.
Proof. apply Z.eqb_eq. Qed.

Lemma weights_nonneg p : Forall (fun v => 0 <= stake_weight v) (votes p) ->
  0 <= weight_for p /\ 0 <= weight_against p.
Proof.
  intros H. split; apply sumZ_nonneg, Forall_map, Forall_filter_bool, H.
Qed.

Lemma vote_cap_mul x : 0 <= x <= VOTE_CAP -> x * 10000 <= u128_max.
Proof.
  unfold VOTE_CAP. intros H. pose proof (Z.mul_div_le u128_max 10000 ltac:(lia)). lia.
Qed.

(** The saturating comparison is the exact one below the cap. *)
Lemma threshold_met_exact f v :
  0 <= f <= v -> v <= VOTE_CAP ->
  threshold_met f v = true -> 0 < v /\ v * PASS_THRESHOLD_BPS <= f * 10000.
Proof.
  unfold threshold_met, PASS_THRESHOLD_BPS. intros Hf Hv H. prop_bool.
  pose proof (vote_cap_mul v ltac:(lia)). pose proof (vote_cap_mul f ltac:(lia)).
  rewrite !sat_mul128_exact in * by lia. lia.
Qed.

Lemma update_proposal_wf c id f :
  governance_wf c -> (forall p, p_id (f p) = p_id p) ->
  (forall p, p ∈ proposals c -> p_id p = id -> proposal_wf p -> proposal_wf (f p)) ->
  governance_wf (with_proposals (update_first (is_proposal id) f (proposals c)) c).
Proof.
  intros (Hp & Hn & Hz & Hlt) Hid Hf. split; [|split; [|split]]; simpl; auto.
  - rewrite (update_first_unique p_id id) by auto using is_proposal_spec.
    apply Forall_map, Forall_forall. intros p Hin. rewrite Forall_forall in Hp.
    destruct (is_proposal id p) eqn:E; [|auto]. apply is_proposal_spec in E. auto.
  - rewrite update_first_map by auto. done.
  - apply update_first_Forall; [done|]. intros p _. by rewrite Hid.
Qed.

Lemma ballot_wf p who sup w :
  proposal_wf p -> who ∉ map voter (votes p) -> 0 <= w -> p_status p = Active ->
  weight_for p + weight_against p + w <= VOTE_CAP ->
  proposal_wf (set_ballot (votes p ++ [mkVote who sup w])
                (if sup then u128_add (total_for p) w else total_for p)
                (if sup then total_against p else u128_add (total_against p) w) p).
Proof.
  intros [Hd Hw Hf Ha Hc Ht Hp] Hwho H0 Hact Hcap.
  pose proof (weights_nonneg p Hw) as [? ?].
  assert (VOTE_CAP <= u128_max) by (unfold VOTE_CAP, u128_max; apply Z.div_le_upper_bound; lia).
  set (q := set_ballot _ _ _ _).
  assert (HF : weight_for q = weight_for p + (if sup then w else 0)).
  { unfold weight_for, q. simpl. rewrite List.filter_app, map_app, sumZ_app. simpl.
    destruct sup; simpl; lia. }
  assert (HA : weight_against q = weight_against p + (if sup then 0 else w)).
  { unfold weight_against, q. simpl. rewrite List.filter_app, map_app, sumZ_app. simpl.
    destruct sup; simpl; lia. }
  split; rewrite ?HF, ?HA; unfold q; simpl.
  - rewrite map_app. apply NoDup_app. split; [done|]. split; [|apply NoDup_singleton].
    intros x Hx ->%list_elem_of_singleton. done.
  - apply Forall_app. split; [done|]. by repeat constructor.
  - destruct sup; rewrite Hf, ?u128_add_exact by lia; lia.
  - destruct sup; rewrite Ha, ?u128_add_exact by lia; lia.
  - destruct sup; lia.
  - done.
  - rewrite Hact. by intros [?|?].
Qed.

Lemma passed_wf p total_stake :
  proposal_wf p ->
  quorum_met (u128_add (total_for p) (total_against p)) total_stake
  && threshold_met (total_for p) (u128_add (total_for p) (total_against p)) = true ->
  proposal_wf (set_p_status Passed p).
Proof.
  intros [Hd Hw Hf Ha Hc Ht _] H. pose proof (weights_nonneg p Hw) as [? ?].
  assert (VOTE_CAP <= u128_max) by (unfold VOTE_CAP, u128_max; apply Z.div_le_upper_bound; lia).
  rewrite u128_add_exact in H by lia. apply andb_true_iff in H as [_ Hth].
  apply threshold_met_exact in Hth; [|lia|lia]. rewrite Hf, Ha in Hth. by split.
Qed.

Lemma create_wf c who a d e :
  governance_wf c -> next_proposal_id c < u64_max ->
  governance_wf (fst (create_proposal who a d e c)).
Proof.
  intros (Hp & Hn & Hz & Hlt) Hmax.
  assert (Hs : u64_add (next_proposal_id c) 1 = next_proposal_id c + 1)
    by (apply u64_add_exact; lia).
  split; [|split; [|split]]; simpl; rewrite ?Hs.
  - apply Forall_app. split; [done|]. repeat constructor; simpl; try done.
    by destruct H.
  - rewrite map_app. apply NoDup_app. split; [done|]. split; [|apply NoDup_singleton].
    intros x Hx ->%list_elem_of_singleton. apply list_elem_of_fmap in Hx as (p & Heq & Hin).
    rewrite Forall_forall in Hlt. specialize (Hlt p Hin). simpl in *. lia.
  - lia.
  - apply Forall_app. split; [|repeat constructor; simpl; lia].
    eapply Forall_impl; [exact Hlt|]. simpl. lia.
Qed.

(** The proposal with a given number is the one that is found. *)
Lemma found_is_member c id p q :
  governance_wf c -> List.find (is_proposal id) (proposals c) = Some p ->
  q ∈ proposals c -> p_id q = id -> q = p.
Proof.
  intros (_ & Hn & _) Hf Hq Hid.
  pose proof (find_unique p_id id (is_proposal id) _ q (is_proposal_spec id) Hn Hq Hid).
  congruence.
Qed.

Lemma not_voted who l :
  existsb (fun v => bytes_eqb (voter v) who) l = false -> who ∉ map voter l.
Proof.
  intros H (v & -> & Hv)%list_elem_of_fmap.
  pose proof (existsb_false_elem _ _ H v Hv) as E. simpl in E. by rewrite bytes_eqb_refl in E.
Qed.

Lemma gov_exec_wf op c : governance_wf c -> gov_fits op c -> governance_wf (gov_exec op c).
Proof.
  intros Hc Hop. destruct op; simpl in *.
  - by apply create_wf.
  - unfold vote, ok_or, rbind. destruct (List.find _ _) as [p|] eqn:Hf; [|done].
    destruct (negb _) eqn:Ea; [done|]. destruct (_ <? _); [done|].
    destruct (existsb _ _) eqn:Ev; [done|]. destruct Hop as [Hw Hcap]. prop_bool.
    rewrite Forall_forall in Hcap.
    apply update_proposal_wf; [done|done|]. intros q Hq Hqid Hwf.
    assert (q = p) as -> by (by apply (found_is_member c id)).
    apply ballot_wf; auto. by apply not_voted.
  - unfold finalize, ok_or, rbind. destruct (List.find _ _) as [p|] eqn:Hf; [|done].
    destruct (negb (_ && _) && _); [done|]. destruct (negb _) eqn:Ea; [done|].
    destruct (quorum_met _ _ && _) eqn:Eq.
    + apply update_proposal_wf; [done|done|]. intros q Hq Hqid Hwf.
      assert (q = p) as -> by (by apply (found_is_member c id)). by apply (passed_wf p total_stake).
    + destruct (_ && _ && _); [done|]. apply update_proposal_wf; [done|done|].
      intros q _ _ []. split; auto. simpl. by intros [?|?].
  - unfold execute, ok_or, rbind. destruct (List.find _ _) as [p|] eqn:Hf; [|done].
    destruct (negb _) eqn:Ea; [done|]. destruct (negb (_ && _) && _); [done|]. prop_bool.
    assert (governance_wf (with_proposals
      (update_first (is_proposal id) (set_p_status Executed) (proposals c)) c)) as Hc'.
    { apply update_proposal_wf; [done|done|]. intros q Hq Hqid Hwf.
      assert (q = p) as -> by (by apply (found_is_member c id)).
      destruct Hwf as [? ? ? ? ? ? Hp]. split; auto. }
    by destruct (p_action p).
  - by destruct Hc.
Qed.

Lemma gov_run_wf ops c : governance_wf c -> gov_run_fits ops c -> governance_wf (gov_run ops c).
Proof.
  revert c. induction ops as [|op ops IH]; intros c Hc Hf; simpl in *; [done|].
  destruct Hf. apply IH; [|done]. by apply gov_exec_wf.
Qed.

Lemma governance_default_wf : governance_wf governance_default.
Proof. repeat split; try constructor. simpl. lia. Qed.

(** An executed proposal stays so. *)
Definition is_executed (id : u64) (c : GovernanceContract) : Prop :=
  exists p, List.find (is_proposal id) (proposals c) = Some p /\ p_status p = Executed.

(** Changing the proposal of another number, or one that is not executed. *)
Lemma update_keeps_executed id id' f c :
  (forall p, p_id (f p) = p_id p) -> is_executed id c ->
  (forall p, List.find (is_proposal id') (proposals c) = Some p -> p_status p <> Executed) ->
  is_executed id (with_proposals (update_first (is_proposal id') f (proposals c)) c).
Proof.
  intros Hid (p & Hf & Hp) Hne. exists p. split; [|done]. simpl.
  assert (id' <> id) as Hd by (intros ->; by apply (Hne p)).
  rewrite find_update_first_other; [done| |].
  - intros q _. unfold is_proposal. by rewrite Hid.
  - intros q E. apply is_proposal_spec in E. apply Z.eqb_neq. congruence.
Qed.

Lemma find_app_some {A} (p : A -> bool) l1 l2 x : List.find p l1 = Some x -> List.find p (l1 ++ l2) = Some x.
Proof. induction l1 as [|y l1 IH]; simpl; [done|]. by destruct (p y). Qed.

Lemma gov_exec_executed op id c : is_executed id c -> is_executed id (gov_exec op c).
Proof.
  intros He. destruct op as [who a d e|id' who sup w e|id' ts e ft|id' e ft|n]; simpl.
  - destruct He as (p & Hf & Hp). exists p. split; [|done]. simpl. by apply find_app_some.
  - unfold vote, ok_or, rbind. destruct (List.find _ _) as [p|] eqn:Hf; [|done].
    destruct (negb _) eqn:Ea; [done|]. destruct (_ <? _); [done|]. destruct (existsb _ _); [done|].
    apply update_keeps_executed; [done|done|]. intros q Hq. rewrite Hf in Hq. injection Hq as <-. prop_bool. congruence.
  - unfold finalize, ok_or, rbind. destruct (List.find _ _) as [p|] eqn:Hf; [|done].
    destruct (negb (_ && _) && _); [done|]. destruct (negb _) eqn:Ea; [done|].
    assert (Hne : forall q, List.find (is_proposal id') (proposals c) = Some q -> p_status q <> Executed).
    { intros q Hq. rewrite Hf in Hq. injection Hq as <-. prop_bool. congruence. }
    destruct (quorum_met _ _ && _); [by apply update_keeps_executed|].
    destruct (_ && _ && _); [done|]. by apply update_keeps_executed.
  - unfold execute, ok_or, rbind. destruct (List.find _ _) as [p|] eqn:Hf; [|done].
    destruct (negb _) eqn:Ea; [done|]. destruct (negb (_ && _) && _); [done|].
    assert (is_executed id (with_proposals
      (update_first (is_proposal id') (set_p_status Executed) (proposals c)) c)) as (q & ? & ?).
    { apply update_keeps_executed; [done|done|]. intros q Hq. rewrite Hf in Hq. injection Hq as <-. prop_bool. congruence. }
    exists q. by destruct (p_action p).
  - exact He.
Qed.

Lemma gov_run_executed ops id c : is_executed id c -> is_executed id (gov_run ops c).
Proof. revert c. induction ops as [|op ops IH]; intros c He; simpl; [done|]. by apply IH, gov_exec_executed. Qed.

Lemma executed_refuses id c e ft : is_executed id c -> execute id e ft c = Err ProposalNotPassed.
Proof. intros (p & Hf & Hp). unfold execute, ok_or, rbind. by rewrite Hf, Hp. Qed.

(** C29: an executed proposal had passed, whatever the history of the contract,
    as long as the weights on a proposal stay below a ten-thousandth of the u128
    range and proposal numbers do not wrap around: its voters are distinct, the
    recorded totals are the sums of their weights, and at least 66.67% of the
    voting weight supported it. The timelock after
    the end of voting has expired, unless the emergency track is active and the
    action is an emergency pause or resume, which it lets through at once. From
    then on the proposal is refused, whatever the contract does afterwards: it
    executes at most once. *)
Theorem execute_safe ops id e fasttrack c' action :
  let c := gov_run ops governance_default in
  gov_run_fits ops governance_default ->
  execute id e fasttrack c = Ok (c', action) ->
  exists p, get_proposal id c = Some p /\ action = p_action p
    /\ NoDup (map voter (votes p))
    /\ total_for p = weight_for p /\ total_against p = weight_against p
    /\ 0 < weight_for p + weight_against p
    /\ (weight_for p + weight_against p) * 6667 <= weight_for p * 10000
    /\ (fasttrack && is_emergency action = false ->
        u64_add (voting_end_epoch p) TIMELOCK_DELAY <= e)
    /\ (forall later e2 ft2, execute id e2 ft2 (gov_run later c') = Err ProposalNotPassed).
Proof.
  intros c Hfit H. pose proof (gov_run_wf ops _ governance_default_wf Hfit) as Hc. fold c in Hc.
  unfold execute, ok_or, rbind in H. destruct (List.find _ _) as [p|] eqn:Hf; [|done].
  destruct (negb _) eqn:Ea; [done|]. destruct (negb (_ && _) && _) eqn:Et; [done|]. prop_bool.
  injection H as Hc' <-. pose proof (find_elem _ _ _ Hf) as [Hin _].
  destruct Hc as (Hwf & _). rewrite Forall_forall in Hwf. destruct (Hwf p Hin).
  destruct pw_passed0 as [Hpos Hth]; [by left|].
  exists p. repeat split; auto.
  - intros He. rewrite <- pw_timelock0.
    destruct Et as [Et%negb_false_iff|Et%Z.ltb_ge]; [congruence|done].
  - intros later e2 ft2. apply executed_refuses, gov_run_executed.
    assert (Hp : proposals c' = update_first (is_proposal id) (set_p_status Executed) (proposals c))
      by (rewrite <- Hc'; by destruct (p_action p)).
    exists (set_p_status Executed p). rewrite Hp, find_update_first by done. by rewrite Hf.
Qed.

Definition gov_demo_ops : list GovOp :=
  [GCreate (replicate 32 7) EmergencyPause "halt" 10;
   GVote 0 (replicate 32 1) true 70 11; GVote 0 (replicate 32 2) false 30 12;
   GVote 0 (replicate 32 2) true 30 13; GFinalize 0 200 2027 false].

Lemma execute_safe_witness :
  exists c', execute 0 2029 false (gov_run gov_demo_ops governance_default)
             = Ok (c', EmergencyPause)
    /\ execute 0 2040 false (gov_run [GFinalize 0 200 2030 false; GExecute 0 2031 true] c') = Err ProposalNotPassed.
Proof.
  assert (Hf : gov_run_fits gov_demo_ops governance_default)
    by (apply (bool_decide_unpack _); vm_compute; exact I).
  destruct (execute 0 2029 false (gov_run gov_demo_ops governance_default)) as [[c' a]|] eqn:E;
    [|vm_compute in E; discriminate E].
  exists c'. assert (a = EmergencyPause) as -> by (vm_compute in E; congruence).
  split; [reflexivity|].
  destruct (execute_safe _ _ _ _ _ _ Hf E) as (p & _ & _ & _ & _ & _ & _ & _ & _ & Hx).
  apply Hx.
Defined.

(** Outside the emergency track, finalising a well-formed active proposal
    after its voting period passes it exactly when the participating weight
    reaches 30% of the stake and the supporting weight 66.67% of the
    participating weight, and rejects it otherwise; a proposal that is no
    longer active is left as it is, and no vote is accepted after. *)
Theorem finalize_decides c id p total_stake e fasttrack :
  governance_wf c -> get_proposal id c = Some p -> p_status p = Active ->
  fasttrack && is_emergency (p_action p) = false ->
  voting_end_epoch p < e -> 0 <= total_stake <= VOTE_CAP ->
  let voted := weight_for p + weight_against p in
  let passes := bool_decide (0 < total_stake /\ total_stake * 3000 <= voted * 10000
                             /\ 0 < voted /\ voted * 6667 <= weight_for p * 10000) in
  let st := if passes then Passed else Rejected in
  exists c', finalize id total_stake e fasttrack c = Ok (c', st)
    /\ get_proposal id c' = Some (set_p_status st p)
    /\ (forall e2 ts2 ft2, negb (ft2 && is_emergency (p_action p)) && (e2 <=? voting_end_epoch p) = false ->
         finalize id ts2 e2 ft2 c' = Ok (c', st))
    /\ (forall who sup w e2, vote id who sup w e2 c' = Err VotingEnded).
Proof.
  intros (Hwf & _) Hget Hact Hem He Hts voted passes st.
  unfold get_proposal in Hget. pose proof (find_elem _ _ _ Hget) as [Hin _].
  rewrite Forall_forall in Hwf. destruct (Hwf p Hin) as [_ Hw HF HA Hcap _ _].
  pose proof (weights_nonneg p Hw) as [? ?].
  assert (VOTE_CAP <= u128_max) by (unfold VOTE_CAP, u128_max; apply Z.div_le_upper_bound; lia).
  assert (Hvoted : u128_add (total_for p) (total_against p) = voted)
    by (rewrite HF, HA; apply u128_add_exact; lia).
  assert (Hpass : quorum_met voted total_stake && threshold_met (total_for p) voted = passes).
  { pose proof (vote_cap_mul total_stake Hts). pose proof (vote_cap_mul voted ltac:(lia)).
    unfold quorum_met, threshold_met, QUORUM_BPS, PASS_THRESHOLD_BPS, passes. rewrite HF.
    rewrite !sat_mul128_exact by lia. apply eq_true_iff_eq.
    rewrite bool_decide_eq_true, !andb_true_iff, !Z.leb_le, !Z.ltb_lt. tauto. }
  set (c' := with_proposals (update_first (is_proposal id) (set_p_status st) (proposals c)) c).
  assert (Hget' : List.find (is_proposal id) (proposals c') = Some (set_p_status st p)).
  { unfold c'. simpl. rewrite find_update_first by done. by rewrite Hget. }
  assert (Hst : bool_decide (st = Active) = false) by (unfold st; by destruct passes).
  exists c'. repeat split.
  - unfold finalize, ok_or, rbind. rewrite Hget, Hem, Hact. simpl.
    destruct (e <=? _) eqn:E; [prop_bool; lia|]. rewrite Hvoted, Hpass.
    unfold c', st. by destruct passes.
  - done.
  - intros e2 ts2 ft2 Hg. unfold finalize, ok_or, rbind. rewrite Hget'. simpl.
    rewrite Hg, Hst. done.
  - intros who sup w e2. unfold vote, ok_or, rbind. rewrite Hget'. simpl. by rewrite Hst.
Qed.

Lemma finalize_decides_witness :
  exists c', finalize 0 200 2027 false (gov_run (take 4 gov_demo_ops) governance_default)
             = Ok (c', Passed)
    /\ vote 0 (replicate 32 5) true 9 12 c' = Err VotingEnded.
Proof.
  set (c := gov_run (take 4 gov_demo_ops) governance_default).
  assert (Hc : governance_wf c).
  { apply gov_run_wf; [exact governance_default_wf|].
    apply (bool_decide_unpack _); vm_compute; exact I. }
  destruct (get_proposal 0 c) as [p|] eqn:E; [|vm_compute in E; discriminate E].
  destruct (finalize_decides c 0 p 200 2027 false) as (c' & H1 & _ & _ & H4);
    [exact Hc|exact E|vm_compute in E; injection E as <-; reflexivity|reflexivity|
     vm_compute in E; injection E as <-; reflexivity|vm_compute; split; discriminate|].
  exists c'. split; [|apply H4].
  rewrite H1. vm_compute in E. injection E as <-. reflexivity.
Defined.
