(* ===== verification/Vesting.v ===== *)
(** The vesting system contract
    ([crates/solen-system-contracts/src/vesting.rs]): cliff and linear
    schedules, claims and the admin role. *)

From S2P Require Import Prelude Types Store.
Open Scope Z_scope.

Definition EPOCHS_PER_YEAR : u64 := 52596.
Definition EPOCHS_PER_MONTH : u64 := EPOCHS_PER_YEAR / 12.

Inductive VestingError : Type := VestNotFound | CliffNotReached | FullyClaimed | NotAdmin.

Inductive VestingType : Type :=
| Team | Investor | Validator | Custom (cliff_epochs total_epochs : u64).

(** ** Schedules *)

Definition cliff_epochs (t : VestingType) : u64 :=
  match t with
  | Team => EPOCHS_PER_YEAR
  | Investor => EPOCHS_PER_MONTH * 6
  | Validator => EPOCHS_PER_MONTH * 3
  | Custom c _ => c
  end.

Definition total_epochs (t : VestingType) : u64 :=
  match t with
  | Team => EPOCHS_PER_YEAR * 4
  | Investor => EPOCHS_PER_MONTH * 30
  | Validator => EPOCHS_PER_MONTH * 15
  | Custom _ t => t
  end.

Record VestingSchedule : Type := mkSchedule {
  recipient : AccountId;
  total_amount : u128;
  claimed : u128;
  vesting_type : VestingType;
  start_epoch : u64;
}.

Definition set_claimed (x : u128) (s : VestingSchedule) : VestingSchedule :=
  mkSchedule (recipient s) (total_amount s) x (vesting_type s) (start_epoch s).

Definition vested_at (s : VestingSchedule) (current_epoch : u64) : u128 :=
  let elapsed := sat_sub current_epoch (start_epoch s) in
  let cliff := cliff_epochs (vesting_type s) in
  let total_duration := total_epochs (vesting_type s) in
  if elapsed <? cliff then 0
  else if total_duration <=? elapsed then total_amount s
  else
  let vesting_period := u64_sub total_duration cliff in
  if vesting_period =? 0 then total_amount s
  else
  let elapsed_after_cliff := u64_sub elapsed cliff in
  sat_mul128 (total_amount s) elapsed_after_cliff / vesting_period.

Definition claimable_at (s : VestingSchedule) (current_epoch : u64) : u128 :=
  sat_sub (vested_at s current_epoch) (claimed s).

(** ** The contract *)

Record VestingContract : Type := mkVesting {
  schedules : list VestingSchedule;
  vesting_admin : option AccountId;
}.

Definition vesting_default : VestingContract := mkVesting [] None.

Definition is_recipient (r : AccountId) (s : VestingSchedule) : bool :=
  bytes_eqb (recipient s) r.

Definition add_schedule (r : AccountId) (amount : u128) (t : VestingType) (start : u64)
    (c : VestingContract) : VestingContract :=
  mkVesting (schedules c ++ [mkSchedule r amount 0 t start]) (vesting_admin c).

Definition claim (r : AccountId) (current_epoch : u64) (c : VestingContract) :
    result (VestingContract * u128) VestingError :=
  let! s := ok_or (List.find (is_recipient r) (schedules c)) VestNotFound in
  let claimable := claimable_at s current_epoch in
  if claimable =? 0 then
    if total_amount s <=? claimed s then Err FullyClaimed else Err CliffNotReached
  else
  Ok (mkVesting (update_first (is_recipient r)
                   (fun s => set_claimed (u128_add (claimed s) claimable) s) (schedules c))
        (vesting_admin c), claimable).

Definition get_schedule (r : AccountId) (c : VestingContract) : option VestingSchedule :=
  List.find (is_recipient r) (schedules c).

Definition set_admin (caller new_admin : AccountId) (c : VestingContract) :
    result VestingContract VestingError :=
  match vesting_admin c with
  | Some current =>
      if bytes_eqb current caller then Ok (mkVesting (schedules c) (Some new_admin))
      else Err NotAdmin
  | None => Err NotAdmin
  end.

Definition governance_set_admin (new_admin : AccountId) (c : VestingContract) :
    VestingContract := mkVesting (schedules c) (Some new_admin).

Definition add_schedule_admin (caller r : AccountId) (amount : u128) (t : VestingType)
    (start : u64) (c : VestingContract) : result VestingContract VestingError :=
  match vesting_admin c with
  | Some admin =>
      if bytes_eqb admin caller
      then Ok (mkVesting (schedules c ++ [mkSchedule r amount 0 t start]) (vesting_admin c))
      else Err NotAdmin
  | None => Err NotAdmin
  end.

Definition total_locked (c : VestingContract) : u128 :=
  u128_sum (map (fun s => sat_sub (total_amount s) (claimed s)) (schedules c)).

Definition VESTING_STORAGE_KEY : bytes := Eval vm_compute in bytes_of_string "__vesting_state__".

Definition vesting_load {S} `{!StateStore S, !Codec VestingContract} (s : S) : VestingContract :=
  load_record VESTING_STORAGE_KEY vesting_default s.
Definition vesting_save {S} `{!StateStore S, !Codec VestingContract} (c : VestingContract) (s : S) :
    S := save_record VESTING_STORAGE_KEY c s.

(** ** What a schedule releases *)

(** The fields a machine can hold. *)
Record schedule_wf (s : VestingSchedule) : Prop := {
  sw_total : in_u128 (total_amount s);
  sw_start : 0 <= start_epoch s;
  sw_cliff : in_u64 (cliff_epochs (vesting_type s));
  sw_duration : in_u64 (total_epochs (vesting_type s));
}.

(** [vested_at] without the machine arithmetic of the middle part. *)
Definition vested_spec (s : VestingSchedule) (e : Z) : Z :=
  let elapsed := Z.max 0 (e - start_epoch s) in
  let cliff := cliff_epochs (vesting_type s) in
  let total := total_epochs (vesting_type s) in
  if elapsed <? cliff then 0
  else if total <=? elapsed then total_amount s
  else sat_mul128 (total_amount s) (elapsed - cliff) / (total - cliff).

Lemma vested_at_spec s e : schedule_wf s -> vested_at s e = vested_spec s e.
Proof.
  intros [[? ?] ? [? ?] [? ?]]. unfold vested_at, vested_spec, sat_sub. cbv zeta.
  set (elapsed := Z.max 0 (e - start_epoch s)).
  destruct (_ <? _) eqn:E1; [done|]. destruct (_ <=? _) eqn:E2; [done|]. prop_bool.
  assert (Hsub : forall a b, 0 <= a - b <= u64_max -> u64_sub a b = a - b).
  { intros a b Hab. unfold u64_sub. apply Z.mod_small. pose proof u64_max_val. lia. }
  rewrite !Hsub by lia.
  destruct (_ =? 0) eqn:E3; [prop_bool; lia|done].
Qed.

Lemma vested_bounds s e : schedule_wf s -> 0 <= vested_at s e <= total_amount s.
Proof.
  intros Hs. rewrite vested_at_spec by done. destruct Hs as [[? ?] ? ? ?]. unfold vested_spec.
  cbv zeta. set (elapsed := Z.max 0 _).
  destruct (_ <? _) eqn:E1; [lia|]. destruct (_ <=? _) eqn:E2; [lia|]. prop_bool.
  apply share_le; lia.
Qed.

Lemma vested_mono s e1 e2 : schedule_wf s -> e1 <= e2 -> vested_at s e1 <= vested_at s e2.
Proof.
  intros Hs He. pose proof (vested_bounds s e1 Hs) as [Hlo Hhi].
  pose proof (vested_bounds s e2 Hs) as [Hlo2 _].
  rewrite !vested_at_spec in * by done. destruct Hs as [[? ?] ? ? ?].
  unfold vested_spec in *. cbv zeta in *.
  set (l1 := Z.max 0 (e1 - start_epoch s)) in *. set (l2 := Z.max 0 (e2 - start_epoch s)) in *.
  assert (l1 <= l2) by lia.
  destruct (l1 <? _) eqn:E1; [lia|]. destruct (l2 <? _) eqn:E1'; [prop_bool; lia|].
  destruct (_ <=? l2) eqn:E2'; [lia|]. destruct (_ <=? l1) eqn:E2; [prop_bool; lia|]. prop_bool.
  apply Z.div_le_mono; [lia|]. unfold sat_mul128. nia.
Qed.

(** A schedule releases nothing before its cliff, never less at a later
    epoch than at an earlier one, never more than its total, and everything
    from the end of the vesting period on. *)
Theorem vesting_curve s e1 e2 :
  schedule_wf s -> e1 <= e2 ->
  (sat_sub e1 (start_epoch s) < cliff_epochs (vesting_type s) -> vested_at s e1 = 0)
  /\ vested_at s e1 <= vested_at s e2
  /\ 0 <= vested_at s e1 <= total_amount s
  /\ (cliff_epochs (vesting_type s) <= total_epochs (vesting_type s) <=
        sat_sub e2 (start_epoch s) -> vested_at s e2 = total_amount s).
Proof.
  intros Hs He. split; [|split; [|split]].
  - intros Hc. unfold vested_at. destruct (_ <? _) eqn:E; [done|]. prop_bool. lia.
  - by apply vested_mono.
  - by apply vested_bounds.
  - intros [Hc Ht]. unfold vested_at. destruct (_ <? _) eqn:E; [prop_bool; lia|].
    destruct (_ <=? _) eqn:E2; [done|]. prop_bool. lia.
Qed.

Definition vest_demo : VestingSchedule := mkSchedule (replicate 32 5) 1000 0 (Custom 10 110) 3.

Lemma vesting_curve_witness :
  vested_at vest_demo 12 = 0 /\ vested_at vest_demo 63 = 500 /\ vested_at vest_demo 113 = 1000
  /\ vested_at vest_demo 63 <= vested_at vest_demo 113.
Proof.
  assert (Hs : schedule_wf vest_demo).
  { split; unfold in_u128, in_u64, u128_max, u64_max; simpl; lia. }
  pose proof (vesting_curve vest_demo 12 113 Hs ltac:(lia)) as (H0 & _ & _ & H1).
  pose proof (vesting_curve vest_demo 63 113 Hs ltac:(lia)) as (_ & Hm & _).
  split; [apply H0; reflexivity|]. split; [reflexivity|].
  split; [apply H1; simpl; unfold sat_sub; lia|exact Hm].
Defined.

(** ** Claims

    A run of claims, each by some account at some epoch; [paid_to] adds up
    what one account receives, [claim_state] is the contract after. *)

Definition claim_step (cl : AccountId * u64) (c : VestingContract) : VestingContract * Z :=
  match claim (fst cl) (snd cl) c with
  | Ok (c', a) => (c', a)
  | Err _ => (c, 0)
  end.

Fixpoint paid_to (r : AccountId) (cls : list (AccountId * u64)) (c : VestingContract) : Z :=
  match cls with
  | [] => 0
  | cl :: cls =>
      let '(c', a) := claim_step cl c in
      (if bytes_eqb (fst cl) r then a else 0) + paid_to r cls c'
  end.

(** What had vested at the latest of the epochs at which [r] asked. *)
Fixpoint best_vested (r : AccountId) (s : VestingSchedule) (cls : list (AccountId * u64)) : Z :=
  match cls with
  | [] => claimed s
  | cl :: cls =>
      if bytes_eqb (fst cl) r
      then Z.max (vested_at s (snd cl)) (best_vested r s cls) else best_vested r s cls
  end.

Lemma is_recipient_spec r s : is_recipient r s = true <-> recipient s = r.
Proof. apply bytes_eqb_true. Qed.

(** A claim raises the claimed amount to what has vested, and pays the
    difference. *)
Lemma claim_step_own c r e s :
  schedule_wf s -> 0 <= claimed s -> get_schedule r c = Some s ->
  claimed s <= total_amount s ->
  exists c', claim_step (r, e) c = (c', Z.max (claimed s) (vested_at s e) - claimed s)
    /\ get_schedule r c' = Some (set_claimed (Z.max (claimed s) (vested_at s e)) s).
Proof.
  intros Hs H0 Hg Hle. pose proof (vested_bounds s e Hs) as Hv. unfold get_schedule in *.
  destruct Hs as [[? ?] ? ? ?].
  unfold claim_step, claim, ok_or, rbind. simpl. rewrite Hg.
  unfold claimable_at, sat_sub.
  destruct (_ =? 0) eqn:E; prop_bool.
  - exists c. assert (Z.max (claimed s) (vested_at s e) = claimed s) as -> by lia.
    split; [destruct (_ <=? _); f_equal; lia|]. rewrite Hg. by destruct s.
  - eexists. split; [f_equal; lia|]. simpl. rewrite find_update_first by done. rewrite Hg. simpl.
    do 2 f_equal. rewrite u128_add_exact by lia. lia.
Qed.

Lemma claim_step_other c r q e :
  q <> r -> get_schedule r (fst (claim_step (q, e) c)) = get_schedule r c.
Proof.
  intros Hne. unfold claim_step, claim, ok_or, rbind, get_schedule. simpl.
  destruct (List.find (is_recipient q) _) as [s|]; [|done]. destruct (_ =? 0); [by destruct (_ <=? _)|].
  simpl. apply find_update_first_other; [done|].
  intros x <-%is_recipient_spec. by apply bytes_eqb_false.
Qed.

Lemma vested_set_claimed s x e : vested_at (set_claimed x s) e = vested_at s e.
Proof. done. Qed.

Lemma best_vested_claimed r s cls x :
  claimed s <= x -> best_vested r (set_claimed x s) cls = Z.max x (best_vested r s cls).
Proof.
  intros Hx. induction cls as [|cl cls IH]; simpl; [lia|].
  destruct (bytes_eqb _ _); [|done]. rewrite vested_set_claimed, IH. lia.
Qed.

Lemma best_vested_ge r s cls : claimed s <= best_vested r s cls.
Proof. induction cls as [|cl cls IH]; simpl; [lia|]. destruct (bytes_eqb _ _); lia. Qed.

(** Whatever claims others make in between, an account receives in total
    exactly what its schedule had vested at the latest epoch it claimed at,
    less what it had claimed before; so never more than the schedule's total.
    Only the first schedule of an account is ever paid. *)
Theorem claims_exact r cls c s :
  get_schedule r c = Some s -> schedule_wf s -> 0 <= claimed s <= total_amount s ->
  paid_to r cls c = best_vested r s cls - claimed s
  /\ 0 <= paid_to r cls c <= total_amount s - claimed s.
Proof.
  revert c s. induction cls as [|[q e] cls IH]; intros c s Hg Hs Hcl; simpl; [lia|].
  destruct (bytes_eqb q r) eqn:E.
  - apply bytes_eqb_true in E as ->.
    destruct (claim_step_own c r e s Hs ltac:(lia) Hg ltac:(lia)) as (c' & -> & Hg').
    pose proof (vested_bounds s e Hs) as Hv.
    destruct (IH c' _ Hg') as [Heq Hb]; [by destruct Hs|simpl; lia|].
    rewrite best_vested_claimed in Heq by lia. cbn [claimed total_amount set_claimed] in *.
    pose proof (best_vested_ge r s cls). lia.
  - apply bytes_eqb_false in E. pose proof (claim_step_other c r q e E) as Ho.
    destruct (claim_step (q, e) c) as [c' a]. simpl in Ho. rewrite Hg in Ho.
    destruct (IH c' s Ho Hs Hcl). lia.
Qed.

Lemma claims_exact_witness :
  let c := add_schedule (replicate 32 6) 70 Team 0
             (add_schedule (replicate 32 5) 1000 (Custom 10 110) 3 vesting_default) in
  let cls := [(replicate 32 5, 63); (replicate 32 6, 400000); (replicate 32 5, 63);
              (replicate 32 5, 88)] in
  paid_to (replicate 32 5) cls c = 750
  /\ 0 <= paid_to (replicate 32 5) cls c <= 1000 - 0.
Proof.
  intros c cls. destruct (claims_exact (replicate 32 5) cls c vest_demo) as [H1 H2];
    [reflexivity| |simpl; lia|].
  - split; unfold in_u128, in_u64, u128_max, u64_max; simpl; lia.
  - split; [rewrite H1; reflexivity|exact H2].
Defined.
