(* ===== verification/Guardian.v ===== *)
(** The guardian recovery contract
    ([crates/solen-system-contracts/src/guardian.rs]): recovery requests with a
    timelock and a majority of the guardians recorded at initiation. *)

From S2P Require Import Prelude Types Store.
Open Scope Z_scope.

Definition RECOVERY_TIMELOCK_BLOCKS : u64 := 151200.
Definition MIN_CONFIRMATIONS : usize := 2%nat.

(** ** Data *)

Inductive RecoveryStatus : Type := RPending | RCancelled | RExecuted.

#[export] Instance RecoveryStatus_eq_dec : EqDecision RecoveryStatus.
Proof. solve_decision. Defined.

Record RecoveryRequest : Type := mkRecovery {
  rr_id : u64;
  target_account : AccountId;
  new_auth_methods : list AuthMethod;
  initiated_at : u64;
  execute_after : u64;
  confirmations : list AccountId;
  guardian_ids : list AccountId;
  rr_threshold : usize;
  rr_status : RecoveryStatus;
}.

Record GuardianContract : Type := mkGuardian {
  recovery_requests : list RecoveryRequest;
  next_id : u64;
}.

Definition set_rr_status (st : RecoveryStatus) (r : RecoveryRequest) : RecoveryRequest :=
  mkRecovery (rr_id r) (target_account r) (new_auth_methods r) (initiated_at r)
    (execute_after r) (confirmations r) (guardian_ids r) (rr_threshold r) st.
Definition set_confirmations (l : list AccountId) (r : RecoveryRequest) : RecoveryRequest :=
  mkRecovery (rr_id r) (target_account r) (new_auth_methods r) (initiated_at r)
    (execute_after r) l (guardian_ids r) (rr_threshold r) (rr_status r).
Definition with_requests (l : list RecoveryRequest) (c : GuardianContract) : GuardianContract :=
  mkGuardian l (next_id c).

Definition guardian_default : GuardianContract := mkGuardian [] 0.

Definition is_pending (r : RecoveryRequest) : bool := bool_decide (rr_status r = RPending).
(** [r.id == recovery_id && r.status == Pending]. *)
Definition pending_id (id : u64) (r : RecoveryRequest) : bool := (rr_id r =? id) && is_pending r.
Definition pending_for (a : AccountId) (r : RecoveryRequest) : bool :=
  bytes_eqb (target_account r) a && is_pending r.

(** [slice.contains(&x)]. *)
Definition contains (x : bytes) (l : list bytes) : bool := existsb (bytes_eqb x) l.

(** ** Operations *)

Definition recovery_threshold (guardians : list AccountId) : usize :=
  if (length guardians <? MIN_CONFIRMATIONS)%nat then length guardians
  else (length guardians / 2 + 1)%nat.

Definition initiate_recovery (target initiator : AccountId) (methods : list AuthMethod)
    (guardians : list AccountId) (current_height : u64) (c : GuardianContract) :
    result (GuardianContract * u64) string :=
  if bool_decide (guardians = []) then Err "target account has no guardians"%string
  else if negb (contains initiator guardians)
  then Err "sender is not a guardian of the target account"%string
  else if existsb (pending_for target) (recovery_requests c)
  then Err "active recovery already exists for this account"%string
  else if bool_decide (methods = []) then Err "new_auth_methods cannot be empty"%string
  else
  let id := next_id c in
  Ok (mkGuardian (recovery_requests c ++
        [mkRecovery id target methods current_height
           (sat_add64 current_height RECOVERY_TIMELOCK_BLOCKS) [initiator] guardians
           (recovery_threshold guardians) RPending])
        (u64_add id 1), id).

Definition confirm_recovery (recovery_id : u64) (confirmer : AccountId) (c : GuardianContract) :
    result GuardianContract string :=
  let! r := ok_or (List.find (pending_id recovery_id) (recovery_requests c))
              "recovery request not found or not pending"%string in
  if negb (contains confirmer (guardian_ids r))
  then Err "sender is not a guardian of the target account"%string
  else if contains confirmer (confirmations r) then Err "already confirmed"%string
  else Ok (with_requests (update_first (pending_id recovery_id)
             (fun r => set_confirmations (confirmations r ++ [confirmer]) r)
             (recovery_requests c)) c).

Definition cancel_recovery (recovery_id : u64) (sender : AccountId) (c : GuardianContract) :
    result GuardianContract string :=
  let! r := ok_or (List.find (pending_id recovery_id) (recovery_requests c))
              "recovery request not found or not pending"%string in
  if negb (bytes_eqb (target_account r) sender)
  then Err "only the account owner can cancel recovery"%string
  else Ok (with_requests (update_first (pending_id recovery_id) (set_rr_status RCancelled)
             (recovery_requests c)) c).

Definition can_execute (recovery_id : u64) (current_height : u64) (c : GuardianContract) :
    result RecoveryRequest string :=
  let! r := ok_or (List.find (pending_id recovery_id) (recovery_requests c))
              "recovery request not found or not pending"%string in
  if current_height <? execute_after r
  then Err ("timelock not expired: " +:+ pretty (execute_after r - current_height)
            +:+ " blocks remaining")
  else if (length (confirmations r) <? rr_threshold r)%nat
  then Err ("insufficient confirmations: " +:+ pretty (length (confirmations r)) +:+ " of "
            +:+ pretty (rr_threshold r) +:+ " required")
  else Ok r.

Definition mark_executed (recovery_id : u64) (c : GuardianContract) :
    result (GuardianContract * RecoveryRequest) string :=
  let! r := ok_or (List.find (pending_id recovery_id) (recovery_requests c))
              "recovery request not found or not pending"%string in
  Ok (with_requests (update_first (pending_id recovery_id) (set_rr_status RExecuted)
        (recovery_requests c)) c, set_rr_status RExecuted r).

Definition active_recovery (account : AccountId) (c : GuardianContract) :
    option RecoveryRequest :=
  List.find (pending_for account) (recovery_requests c).

Definition GUARDIAN_STORAGE_KEY : bytes :=
  Eval vm_compute in bytes_of_string "__guardian_state__".

Definition guardian_load {S} `{!StateStore S, !Codec GuardianContract} (s : S) :
    GuardianContract := load_record GUARDIAN_STORAGE_KEY guardian_default s.
Definition guardian_save {S} `{!StateStore S, !Codec GuardianContract} (c : GuardianContract)
    (s : S) : S := save_record GUARDIAN_STORAGE_KEY c s.

(** ** The life of a request

    One step of the contract as the system call drives it: an execution first
    asks [can_execute], then marks the request. *)
Inductive guardian_step : GuardianContract -> GuardianContract -> Prop :=
| gs_initiate target who ms gs h c c' id :
    initiate_recovery target who ms gs h c = Ok (c', id) -> next_id c < u64_max ->
    guardian_step c c'
| gs_confirm id who c c' : confirm_recovery id who c = Ok c' -> guardian_step c c'
| gs_cancel id who c c' : cancel_recovery id who c = Ok c' -> guardian_step c c'
| gs_execute id h r c c' r' :
    can_execute id h c = Ok r -> mark_executed id c = Ok (c', r') -> guardian_step c c'.

Record request_wf (r : RecoveryRequest) : Prop := {
  rw_distinct : NoDup (confirmations r);
  rw_known : Forall (fun g => g ∈ guardian_ids r) (confirmations r);
  rw_threshold : rr_threshold r = recovery_threshold (guardian_ids r);
  rw_guardians : guardian_ids r <> [];
  rw_timelock : execute_after r = sat_add64 (initiated_at r) RECOVERY_TIMELOCK_BLOCKS;
  rw_done : rr_status r = RExecuted -> (rr_threshold r <= length (confirmations r))%nat;
}.

Definition guardian_wf (c : GuardianContract) : Prop :=
  Forall request_wf (recovery_requests c)
  /\ NoDup (map rr_id (recovery_requests c))
  /\ NoDup (map target_account (List.filter is_pending (recovery_requests c)))
  /\ 0 <= next_id c
  /\ Forall (fun r => 0 <= rr_id r < next_id c) (recovery_requests c).

Lemma contains_spec x l : contains x l = true <-> x ∈ l.
Proof.
  unfold contains. rewrite existsb_exists. split.
  - intros (y & Hy & ->%bytes_eqb_true). by apply list_elem_of_In.
  - intros Hx. exists x. split; [by apply list_elem_of_In|]. apply bytes_eqb_refl.
Qed.

Lemma pending_id_spec id r : pending_id id r = true <-> rr_id r = id /\ rr_status r = RPending.
Proof.
  unfold pending_id, is_pending. rewrite andb_true_iff, Z.eqb_eq, bool_decide_eq_true. done.
Qed.

(** Closing or confirming a request adds no pending request for its account. *)
Lemma update_pending_sublist p f l :
  (forall r, target_account (f r) = target_account r) ->
  (forall r, p r = true -> is_pending r = true) ->
  map target_account (List.filter is_pending (update_first p f l))
  `sublist_of` map target_account (List.filter is_pending l).
Proof.
  intros Ht Hp. induction l as [|r l IH]; simpl; [done|]. destruct (p r) eqn:E; simpl.
  - rewrite (Hp r E). destruct (is_pending (f r)); simpl; [rewrite Ht|apply sublist_cons]; done.
  - destruct (is_pending r); simpl; [by apply sublist_skip|done].
Qed.

Lemma update_request_wf c id f :
  guardian_wf c -> (forall r, rr_id (f r) = rr_id r) ->
  (forall r, target_account (f r) = target_account r) ->
  (forall r, List.find (pending_id id) (recovery_requests c) = Some r ->
     request_wf r -> request_wf (f r)) ->
  guardian_wf (with_requests (update_first (pending_id id) f (recovery_requests c)) c).
Proof.
  intros (Hw & Hn & Hp & Hz & Hlt) Hid Ht Hf. repeat split; simpl; auto.
  - destruct (List.find (pending_id id) (recovery_requests c)) as [r|] eqn:E;
      [|by rewrite update_first_none].
    apply find_split in E as (l1 & l2 & Hl & Hr & Hl1). rewrite Hl in *.
    rewrite update_first_split by done.
    apply Forall_app in Hw as [? Hw]. apply Forall_cons in Hw as [? ?].
    apply Forall_app. split; [done|]. constructor; auto.
  - rewrite update_first_map by auto. done.
  - eapply sublist_NoDup; [exact Hp|]. apply update_pending_sublist; [done|].
    intros r [_ Hr]%pending_id_spec. by apply bool_decide_eq_true.
  - apply update_first_Forall; [done|]. intros r _. by rewrite Hid.
Qed.

Lemma initiate_wf c target who ms gs h c' id :
  guardian_wf c -> next_id c < u64_max ->
  initiate_recovery target who ms gs h c = Ok (c', id) -> guardian_wf c'.
Proof.
  intros (Hw & Hn & Hp & Hz & Hlt) Hmax H. unfold initiate_recovery in H.
  destruct (bool_decide (gs = [])) eqn:Eg; [done|]. destruct (negb _) eqn:Ec; [done|].
  destruct (existsb _ _) eqn:Ee; [done|]. destruct (bool_decide (ms = [])); [done|].
  injection H as <- <-. prop_bool. apply contains_spec in Ec.
  assert (Hs : u64_add (next_id c) 1 = next_id c + 1) by (apply u64_add_exact; lia).
  rewrite Forall_forall in Hlt.
  repeat split; simpl; rewrite ?Hs.
  - apply Forall_app. split; [done|]. constructor; [|done].
    split; simpl; auto; [apply NoDup_singleton|by repeat constructor].
  - rewrite map_app. apply NoDup_app. split; [done|]. split; [|apply NoDup_singleton].
    intros x (r & -> & Hr)%list_elem_of_fmap Hx%list_elem_of_singleton.
    specialize (Hlt r Hr). simpl in Hx. lia.
  - rewrite List.filter_app, map_app. apply NoDup_app. split; [done|].
    split; [|apply NoDup_singleton]. simpl.
    intros x (r & -> & Hr)%list_elem_of_fmap Hx%list_elem_of_singleton.
    apply list_elem_of_In, filter_In in Hr as [Hr Hpend].
    apply list_elem_of_In in Hr.
    pose proof (existsb_false_elem _ _ Ee r Hr) as Hf. unfold pending_for in Hf.
    rewrite Hx, bytes_eqb_refl, Hpend in Hf. done.
  - lia.
  - apply Forall_app. split; [|repeat constructor; simpl; lia].
    apply Forall_forall. intros r Hr. specialize (Hlt r Hr). lia.
Qed.

Lemma guardian_step_wf c c' : guardian_step c c' -> guardian_wf c -> guardian_wf c'.
Proof.
  intros Hstep Hc. destruct Hstep as [t w ms gs h c c' id H Hm|id w c c' H|id w c c' H|id h r c c' r' H H'].
  - by eapply initiate_wf.
  - unfold confirm_recovery, ok_or, rbind in H. destruct (List.find _ _) as [r|] eqn:Hf; [|done].
    destruct (negb _) eqn:Ek; [done|]. destruct (contains _ (confirmations _)) eqn:Ed; [done|].
    injection H as <-. prop_bool. apply contains_spec in Ek.
    apply update_request_wf; [done|done|done|]. intros q Hq [? ? ? ? ? ?].
    assert (q = r) as -> by congruence. split; simpl; auto.
    + apply NoDup_app. split; [done|]. split; [|apply NoDup_singleton].
      intros x Hx ->%list_elem_of_singleton. apply contains_spec in Hx. congruence.
    + apply Forall_app. split; [done|]. by constructor.
    + rewrite length_app. simpl. intros ?%rw_done0. lia.
  - unfold cancel_recovery, ok_or, rbind in H. destruct (List.find _ _) as [r|] eqn:Hf; [|done].
    destruct (negb _); [done|]. injection H as <-.
    apply update_request_wf; [done|done|done|]. intros q _ []. by split.
  - unfold mark_executed, ok_or, rbind in H'. unfold can_execute, ok_or, rbind in H.
    destruct (List.find _ _) as [q|] eqn:Hf; [|done]. injection H' as <- <-.
    destruct (_ <? _); [done|]. destruct (Nat.ltb _ _) eqn:En; [done|]. apply Nat.ltb_ge in En.
    apply update_request_wf; [done|done|done|]. intros x Hx [].
    assert (x = q) as -> by congruence. by split.
Qed.

Lemma guardian_rtc_wf c c' : rtc guardian_step c c' -> guardian_wf c -> guardian_wf c'.
Proof. induction 1; eauto using guardian_step_wf. Qed.

Lemma guardian_reach_wf c : rtc guardian_step guardian_default c -> guardian_wf c.
Proof.
  intros H. apply (guardian_rtc_wf _ _ H). repeat split; try constructor. simpl. lia.
Qed.

(** A request that is not pending any more never changes status again. *)
Lemma guardian_step_closed c c' r :
  guardian_step c c' -> r ∈ recovery_requests c -> is_pending r = false ->
  r ∈ recovery_requests c'.
Proof.
  intros Hs Hr Hp.
  assert (Hu : forall id f, r ∈ update_first (pending_id id) f (recovery_requests c)).
  { intros id f. destruct (List.find (pending_id id) (recovery_requests c)) as [q|] eqn:E;
      [|by rewrite update_first_none].
    apply find_split in E as (l1 & l2 & Hl & Hq & Hl1). rewrite Hl in *.
    rewrite update_first_split by done. apply elem_of_app in Hr as [?|Hr]; [set_solver|].
    apply elem_of_cons in Hr as [->|?]; [|set_solver].
    unfold pending_id in Hq. rewrite Hp in Hq. by rewrite andb_false_r in Hq. }
  destruct Hs as [t w ms gs h c c' id H Hm|id w c c' H|id w c c' H|id h q c c' r' H H'].
  - unfold initiate_recovery in H. inv_ok H. simpl. set_solver.
  - unfold confirm_recovery in H. inv_ok H. apply Hu.
  - unfold cancel_recovery in H. inv_ok H. apply Hu.
  - unfold mark_executed in H'. inv_ok H'. apply Hu.
Qed.

Lemma guardian_rtc_closed c c' r :
  rtc guardian_step c c' -> r ∈ recovery_requests c -> is_pending r = false ->
  r ∈ recovery_requests c'.
Proof. induction 1; eauto using guardian_step_closed. Qed.

Lemma closed_not_executable c r h :
  guardian_wf c -> r ∈ recovery_requests c -> is_pending r = false ->
  exists e, can_execute (rr_id r) h c = Err e.
Proof.
  intros (_ & Hn & _) Hr Hp. unfold can_execute, ok_or, rbind.
  destruct (List.find _ _) as [q|] eqn:E; [|by eexists].
  apply find_elem in E as [Hq [Hid Hst]%pending_id_spec].
  assert (q = r) as ->; [|unfold is_pending in Hp; prop_bool; congruence].
  pose proof (find_unique rr_id (rr_id r) (fun x => rr_id x =? rr_id r) _ q
    (fun x => Z.eqb_eq _ _) Hn Hq Hid) as H1.
  pose proof (find_unique rr_id (rr_id r) (fun x => rr_id x =? rr_id r) _ r
    (fun x => Z.eqb_eq _ _) Hn Hr eq_refl) as H2. congruence.
Qed.

(** A recovery is backed by distinct recorded guardians, a majority of them when
    there are at least two. *)
Definition majority_backed (r : RecoveryRequest) : Prop :=
  NoDup (confirmations r)
  /\ Forall (fun g => g ∈ guardian_ids r) (confirmations r)
  /\ (1 <= length (confirmations r))%nat
  /\ (2 <= length (guardian_ids r) ->
      length (guardian_ids r) < 2 * length (confirmations r))%nat.

Lemma can_execute_majority c id h r :
  guardian_wf c -> can_execute id h c = Ok r ->
  r ∈ recovery_requests c /\ rr_status r = RPending
  /\ sat_add64 (initiated_at r) RECOVERY_TIMELOCK_BLOCKS <= h /\ majority_backed r.
Proof.
  intros (Hw & _) H.
  unfold can_execute, ok_or, rbind in H. destruct (List.find _ _) as [q|] eqn:Hf; [|done].
  destruct (_ <? _) eqn:Et; [done|]. destruct (Nat.ltb _ _) eqn:En; [done|].
  injection H as ->. apply Nat.ltb_ge in En. prop_bool.
  apply find_elem in Hf as [Hin [_ Hst]%pending_id_spec].
  rewrite Forall_forall in Hw. destruct (Hw r Hin).
  rewrite rw_threshold0 in En. unfold recovery_threshold, MIN_CONFIRMATIONS in En.
  assert (length (guardian_ids r) <> 0)%nat by (by destruct (guardian_ids r)).
  pose proof (Nat.div_mod_eq (length (guardian_ids r)) 2).
  pose proof (Nat.mod_upper_bound (length (guardian_ids r)) 2 ltac:(lia)).
  split; [done|]. split; [done|]. split; [by rewrite <- rw_timelock0|].
  split; [done|]. split; [done|].
  destruct (Nat.ltb (length (guardian_ids r)) 2) eqn:E2;
    [apply Nat.ltb_lt in E2|apply Nat.ltb_ge in E2]; split; lia.
Qed.

(** In every reachable state, a recovery that can be executed has waited for
    the whole timelock since it was initiated and carries the confirmations of
    pairwise distinct accounts, all of them guardians recorded at initiation,
    in number at least the majority of that list. *)
Theorem recovery_needs_majority c id h r :
  rtc guardian_step guardian_default c -> can_execute id h c = Ok r ->
  r ∈ recovery_requests c /\ rr_status r = RPending
  /\ sat_add64 (initiated_at r) RECOVERY_TIMELOCK_BLOCKS <= h /\ majority_backed r.
Proof. intros Hreach. apply can_execute_majority. by apply guardian_reach_wf. Qed.

(** An owner's cancellation is final: once the target account has cancelled a
    recovery, no sequence of later steps makes that request executable. *)
Theorem cancel_is_final c id owner c1 c2 h :
  rtc guardian_step guardian_default c -> cancel_recovery id owner c = Ok c1 ->
  rtc guardian_step c1 c2 ->
  (exists r, active_recovery owner c = Some r /\ rr_id r = id)
  /\ exists e, can_execute id h c2 = Err e.
Proof.
  intros Hreach Hc Hrest. pose proof (guardian_reach_wf c Hreach) as Hwf.
  assert (Hwf2 : guardian_wf c2).
  { apply guardian_reach_wf. etrans; [exact Hreach|].
    eapply rtc_l; [by eapply gs_cancel|done]. }
  unfold cancel_recovery, ok_or, rbind in Hc. destruct (List.find _ _) as [r|] eqn:Hf; [|done].
  destruct (negb _) eqn:Eo; [done|]. injection Hc as <-. prop_bool. subst owner.
  pose proof (find_elem _ _ _ Hf) as [Hin [Hid Hst]%pending_id_spec]. split.
  - exists r. split; [|done]. unfold active_recovery.
    destruct Hwf as (_ & _ & Hp & _).
    assert (Hfe : forall l, List.find (pending_for (target_account r)) l
      = List.find (fun x => bytes_eqb (target_account x) (target_account r))
          (List.filter is_pending l)).
    { induction l as [|x l IH]; simpl; [done|]. unfold pending_for at 1.
      destruct (is_pending x) eqn:Ex; simpl; rewrite ?andb_true_r, ?andb_false_r; [|done].
      by destruct (bytes_eqb _ _). }
    rewrite Hfe. apply (find_unique target_account (target_account r)); auto.
    + intros x. apply bytes_eqb_true.
    + apply list_elem_of_In, filter_In. split; [by apply list_elem_of_In|].
      by apply bool_decide_eq_true.
  - assert (Hr1 : set_rr_status RCancelled r ∈ update_first (pending_id id)
                    (set_rr_status RCancelled) (recovery_requests c)).
    { apply find_split in Hf as (l1 & l2 & -> & ? & ?). rewrite update_first_split by done.
      set_solver. }
    eapply guardian_rtc_closed in Hrest; [|exact Hr1|done].
    rewrite <- Hid. by apply (closed_not_executable c2 (set_rr_status RCancelled r)).
Qed.

Definition rec_owner : AccountId := replicate 32 1.
Definition rec_guardians : list AccountId := [replicate 32 2; replicate 32 3; replicate 32 4].
Definition rec_key : list AuthMethod := [Ed25519 (replicate 32 9)].
Definition rec_request (confs : list AccountId) : GuardianContract :=
  mkGuardian [mkRecovery 0 rec_owner rec_key 50 151250 confs rec_guardians 2 RPending] 1.

Lemma rec_reach : rtc guardian_step guardian_default (rec_request (take 2 rec_guardians)).
Proof.
  eapply rtc_l; [apply (gs_initiate rec_owner (replicate 32 2) rec_key rec_guardians 50 _
    (rec_request (take 1 rec_guardians)) 0); [reflexivity|reflexivity]|].
  apply rtc_once, (gs_confirm 0 (replicate 32 3)). reflexivity.
Qed.

Lemma recovery_needs_majority_witness :
  exists r, can_execute 0 151250 (rec_request (take 2 rec_guardians)) = Ok r
    /\ NoDup (confirmations r)
    /\ (2 <= length (guardian_ids r) -> length (guardian_ids r) < 2 * length (confirmations r))%nat.
Proof.
  eexists. split; [reflexivity|].
  pose proof (recovery_needs_majority _ 0 151250 _ rec_reach eq_refl)
    as (_ & _ & _ & Hn & _ & _ & Hm).
  exact (conj Hn Hm).
Defined.

Lemma cancel_is_final_witness :
  exists c1, cancel_recovery 0 rec_owner (rec_request (take 2 rec_guardians)) = Ok c1
    /\ exists e, can_execute 0 200000 c1 = Err e.
Proof.
  eexists. split; [reflexivity|].
  exact (proj2 (cancel_is_final _ 0 rec_owner _ _ 200000 rec_reach eq_refl (rtc_refl _ _))).
Defined.
