(* ===== verification/Bridge.v ===== *)
(** The canonical bridge contract
    ([crates/solen-system-contracts/src/bridge.rs]): one vault per rollup,
    deposits, withdrawals with a challenge window, disputes with a bond.

    [finalize_withdrawal] can fail after marking the withdrawal (no vault); its
    only caller discards the contract on an error, so an [Err] carries no
    state here either. *)

From S2P Require Import Prelude Types Store.
Open Scope Z_scope.

Definition DEFAULT_CHALLENGE_WINDOW : u64 := 100.
Definition DEFAULT_WITHDRAWAL_DELAY : u64 := 50.
Definition DISPUTE_BOND : u128 := 100 * 100000000.

(** ** Data *)

Inductive BridgeError : Type :=
| VaultNotFound (r : RollupId)
| InsufficientVaultBalance (have need : u128)
| WithdrawalNotFound
| WithdrawalNotReady (remaining : u64)
| WithdrawalDisputed
| VaultAlreadyExists (r : RollupId)
| RollupAlreadyRegistered (r : RollupId).

Inductive WithdrawalStatus : Type := WPending | WDisputed | WFinalized.

#[export] Instance WithdrawalStatus_eq_dec : EqDecision WithdrawalStatus.
Proof. solve_decision. Defined.

Record PendingWithdrawal : Type := mkWithdrawal {
  w_id : u64;
  w_rollup_id : RollupId;
  w_recipient : AccountId;
  w_amount : u128;
  w_initiated_block : u64;
  w_finalize_after_block : u64;
  w_proof_hash : Hash;
  w_status : WithdrawalStatus;
  w_disputer : option AccountId;
  w_dispute_bond : u128;
}.

Record BridgeVault : Type := mkVault {
  v_rollup_id : RollupId;
  v_balance : u128;
  total_deposited : u128;
  total_withdrawn : u128;
  challenge_window : u64;
  withdrawal_delay : u64;
}.

Record RegisteredRollup : Type := mkRollup {
  rl_rollup_id : RollupId;
  rl_name : string;
  rl_proof_type : string;
  rl_sequencer : AccountId;
  rl_genesis_state_root : Hash;
  rl_registered_at_height : u64;
}.

Record BridgeContract : Type := mkBridge {
  vaults : list BridgeVault;
  pending_withdrawals : list PendingWithdrawal;
  registered_rollups : list RegisteredRollup;
  next_withdrawal_id : u64;
}.

Definition set_w_status (st : WithdrawalStatus) (w : PendingWithdrawal) : PendingWithdrawal :=
  mkWithdrawal (w_id w) (w_rollup_id w) (w_recipient w) (w_amount w) (w_initiated_block w)
    (w_finalize_after_block w) (w_proof_hash w) st (w_disputer w) (w_dispute_bond w).
Definition set_w_dispute (d : option AccountId) (b : u128) (w : PendingWithdrawal) :
    PendingWithdrawal :=
  mkWithdrawal (w_id w) (w_rollup_id w) (w_recipient w) (w_amount w) (w_initiated_block w)
    (w_finalize_after_block w) (w_proof_hash w) (w_status w) d b.
Definition set_vault (bal dep wd : u128) (v : BridgeVault) : BridgeVault :=
  mkVault (v_rollup_id v) bal dep wd (challenge_window v) (withdrawal_delay v).
Definition with_vaults (l : list BridgeVault) (c : BridgeContract) : BridgeContract :=
  mkBridge l (pending_withdrawals c) (registered_rollups c) (next_withdrawal_id c).
Definition with_withdrawals (l : list PendingWithdrawal) (c : BridgeContract) : BridgeContract :=
  mkBridge (vaults c) l (registered_rollups c) (next_withdrawal_id c).

Definition is_vault (r : RollupId) (v : BridgeVault) : bool := v_rollup_id v =? r.
Definition is_withdrawal (id : u64) (w : PendingWithdrawal) : bool := w_id w =? id.
Definition w_is_pending (w : PendingWithdrawal) : bool := bool_decide (w_status w = WPending).

(** ** Operations *)

Definition bridge_default : BridgeContract := mkBridge [] [] [] 0.

Definition new_vault (r : RollupId) : BridgeVault :=
  mkVault r 0 0 0 DEFAULT_CHALLENGE_WINDOW DEFAULT_WITHDRAWAL_DELAY.

Definition register_rollup (r : RollupId) (name proof_type : string) (sequencer : AccountId)
    (genesis_state_root : Hash) (height : u64) (c : BridgeContract) :
    result BridgeContract BridgeError :=
  if existsb (fun x => rl_rollup_id x =? r) (registered_rollups c)
  then Err (RollupAlreadyRegistered r)
  else Ok (mkBridge
    (if negb (existsb (is_vault r) (vaults c)) then vaults c ++ [new_vault r] else vaults c)
    (pending_withdrawals c)
    (registered_rollups c ++ [mkRollup r name proof_type sequencer genesis_state_root height])
    (next_withdrawal_id c)).

Definition get_rollup (r : RollupId) (c : BridgeContract) : option RegisteredRollup :=
  List.find (fun x => rl_rollup_id x =? r) (registered_rollups c).

Definition register_vault (r : RollupId) (c : BridgeContract) : result BridgeContract BridgeError :=
  if existsb (is_vault r) (vaults c) then Err (VaultAlreadyExists r)
  else Ok (with_vaults (vaults c ++ [new_vault r]) c).

Definition deposit (r : RollupId) (amount : u128) (c : BridgeContract) :
    result BridgeContract BridgeError :=
  let! _ := ok_or (List.find (is_vault r) (vaults c)) (VaultNotFound r) in
  Ok (with_vaults (update_first (is_vault r)
        (fun v => set_vault (u128_add (v_balance v) amount) (u128_add (total_deposited v) amount)
                    (total_withdrawn v) v) (vaults c)) c).

Definition pending_amount (r : RollupId) (c : BridgeContract) : u128 :=
  u128_sum (map w_amount (List.filter
    (fun w => (w_rollup_id w =? r) && w_is_pending w) (pending_withdrawals c))).

Definition initiate_withdrawal (r : RollupId) (recipient : AccountId) (amount : u128)
    (current_block : u64) (proof_hash : Hash) (c : BridgeContract) :
    result (BridgeContract * u64) BridgeError :=
  let! v := ok_or (List.find (is_vault r) (vaults c)) (VaultNotFound r) in
  let available := sat_sub (v_balance v) (pending_amount r c) in
  if available <? amount then Err (InsufficientVaultBalance available amount)
  else
  let id := next_withdrawal_id c in
  let finalize_after :=
    u64_add (u64_add current_block (challenge_window v)) (withdrawal_delay v) in
  Ok (mkBridge (vaults c)
        (pending_withdrawals c ++ [mkWithdrawal id r recipient amount current_block
           finalize_after proof_hash WPending None 0])
        (registered_rollups c) (u64_add id 1), id).

Definition dispute_withdrawal (withdrawal_id : u64) (disputer : AccountId) (c : BridgeContract) :
    result (BridgeContract * u128) BridgeError :=
  let! w := ok_or (List.find (is_withdrawal withdrawal_id) (pending_withdrawals c))
              WithdrawalNotFound in
  if negb (w_is_pending w) then Err WithdrawalNotFound
  else Ok (with_withdrawals (update_first (is_withdrawal withdrawal_id)
             (fun w => set_w_dispute (Some disputer) DISPUTE_BOND (set_w_status WDisputed w))
             (pending_withdrawals c)) c, DISPUTE_BOND).

Definition resolve_dispute (withdrawal_id : u64) (valid_dispute : bool) (c : BridgeContract) :
    result (BridgeContract * (option AccountId * u128)) BridgeError :=
  let! w := ok_or (List.find (is_withdrawal withdrawal_id) (pending_withdrawals c))
              WithdrawalNotFound in
  if negb (bool_decide (w_status w = WDisputed)) then Err WithdrawalNotFound
  else
  let disputer := w_disputer w in
  let bond := w_dispute_bond w in
  if valid_dispute
  then Ok (with_withdrawals (update_first (is_withdrawal withdrawal_id) (set_w_dispute None 0)
             (pending_withdrawals c)) c, (disputer, bond))
  else Ok (with_vaults (update_first (is_vault (w_rollup_id w))
               (fun v => set_vault (sat_add128 (v_balance v) bond) (total_deposited v)
                           (total_withdrawn v) v) (vaults c))
             (with_withdrawals (update_first (is_withdrawal withdrawal_id)
               (fun w => set_w_status WPending (set_w_dispute None 0 w))
               (pending_withdrawals c)) c), (None, 0)).

Definition finalize_withdrawal (withdrawal_id : u64) (current_block : u64) (c : BridgeContract) :
    result (BridgeContract * (AccountId * u128)) BridgeError :=
  let! w := ok_or (List.find (is_withdrawal withdrawal_id) (pending_withdrawals c))
              WithdrawalNotFound in
  match w_status w with
  | WDisputed => Err WithdrawalDisputed
  | WFinalized => Err WithdrawalNotFound
  | WPending =>
    if current_block <? w_finalize_after_block w
    then Err (WithdrawalNotReady (u64_sub (w_finalize_after_block w) current_block))
    else
    let c := with_withdrawals (update_first (is_withdrawal withdrawal_id)
               (set_w_status WFinalized) (pending_withdrawals c)) c in
    let! _ := ok_or (List.find (is_vault (w_rollup_id w)) (vaults c))
                (VaultNotFound (w_rollup_id w)) in
    Ok (with_vaults (update_first (is_vault (w_rollup_id w))
          (fun v => set_vault (sat_sub (v_balance v) (w_amount w)) (total_deposited v)
                      (u128_add (total_withdrawn v) (w_amount w)) v) (vaults c)) c,
        (w_recipient w, w_amount w))
  end.

Definition get_vault (r : RollupId) (c : BridgeContract) : option BridgeVault :=
  List.find (is_vault r) (vaults c).

Definition pending_for_recipient (who : AccountId) (c : BridgeContract) : list PendingWithdrawal :=
  List.filter (fun w => bytes_eqb (w_recipient w) who && w_is_pending w) (pending_withdrawals c).

Definition BRIDGE_STORAGE_KEY : bytes := Eval vm_compute in bytes_of_string "__bridge_state__".

Definition bridge_load {S} `{!StateStore S, !Codec BridgeContract} (s : S) : BridgeContract :=
  load_record BRIDGE_STORAGE_KEY bridge_default s.
Definition bridge_save {S} `{!StateStore S, !Codec BridgeContract} (c : BridgeContract) (s : S) :
    S := save_record BRIDGE_STORAGE_KEY c s.

(** ** Coverage of the pending withdrawals *)

Definition w_due (r : RollupId) (w : PendingWithdrawal) : Z :=
  if (w_rollup_id w =? r) && w_is_pending w then w_amount w else 0.
Definition due (r : RollupId) (ws : list PendingWithdrawal) : Z := sumZ (map (w_due r) ws).

Record vault_wf (ws : list PendingWithdrawal) (v : BridgeVault) : Prop := {
  vw_withdrawn : 0 <= total_withdrawn v;
  vw_deposited : total_deposited v <= u128_max;
  vw_balance : v_balance v = total_deposited v - total_withdrawn v;
  vw_covered : due (v_rollup_id v) ws <= v_balance v;
}.

Record bridge_wf (c : BridgeContract) : Prop := {
  bw_vaults : NoDup (map v_rollup_id (vaults c));
  bw_ids : NoDup (map w_id (pending_withdrawals c));
  bw_next : 0 <= next_withdrawal_id c;
  bw_lt : Forall (fun w => 0 <= w_id w < next_withdrawal_id c) (pending_withdrawals c);
  bw_amounts : Forall (fun w => 0 <= w_amount w) (pending_withdrawals c);
  bw_known : Forall (fun w => w_rollup_id w ∈ map v_rollup_id (vaults c)) (pending_withdrawals c);
  bw_ok : Forall (vault_wf (pending_withdrawals c)) (vaults c);
}.

Lemma is_vault_spec r v : is_vault r v = true <-> v_rollup_id v = r.
Proof. apply Z.eqb_eq. Qed.

Lemma is_withdrawal_spec id w : is_withdrawal id w = true <-> w_id w = id.
Proof. apply Z.eqb_eq. Qed.

Lemma due_filter r ws :
  sumZ (map w_amount (List.filter (fun w => (w_rollup_id w =? r) && w_is_pending w) ws))
  = due r ws.
Proof.
  unfold due. induction ws as [|w ws IH]; simpl; [done|]. unfold w_due at 1.
  destruct (_ && _); simpl; lia.
Qed.

Lemma due_nonneg r ws : Forall (fun w => 0 <= w_amount w) ws -> 0 <= due r ws.
Proof.
  intros H. apply sumZ_map_nonneg. rewrite Forall_forall in H.
  intros w Hw. unfold w_due. specialize (H w Hw). destruct (_ && _); lia.
Qed.

Lemma pending_amount_due r c v :
  bridge_wf c -> List.find (is_vault r) (vaults c) = Some v ->
  pending_amount r c = due r (pending_withdrawals c) /\ vault_wf (pending_withdrawals c) v
  /\ v_rollup_id v = r.
Proof.
  intros Hc [Hin Hid%is_vault_spec]%find_elem. destruct Hc.
  rewrite Forall_forall in bw_ok0. pose proof (bw_ok0 v Hin) as Hv. split; [|done].
  unfold pending_amount. rewrite u128_sum_exact; rewrite ?due_filter; auto.
  - by apply Forall_map, Forall_filter_bool.
  - destruct Hv. subst r. lia.
Qed.

(** The vaults of a new withdrawal list: what is due did not grow, except in
    the vault that was asked, where it stays covered. *)
Lemma withdrawals_wf c ws next :
  bridge_wf c -> NoDup (map w_id ws) -> 0 <= next ->
  Forall (fun w => 0 <= w_id w < next) ws ->
  Forall (fun w => 0 <= w_amount w) ws ->
  Forall (fun w => w_rollup_id w ∈ map v_rollup_id (vaults c)) ws ->
  Forall (fun v => due (v_rollup_id v) ws <= v_balance v) (vaults c) ->
  bridge_wf (mkBridge (vaults c) ws (registered_rollups c) next).
Proof.
  intros [] ? ? ? ? ? Hd. split; simpl; auto. rewrite Forall_forall in *.
  intros v Hv. destruct (bw_ok0 v Hv). split; auto.
Qed.

Lemma close_withdrawal_wf c id f :
  bridge_wf c -> (forall w, w_id (f w) = w_id w /\ w_rollup_id (f w) = w_rollup_id w
    /\ w_amount (f w) = w_amount w) ->
  (forall w, w_id w = id -> w_is_pending (f w) = true -> w_is_pending w = true) ->
  bridge_wf (with_withdrawals
    (update_first (is_withdrawal id) f (pending_withdrawals c)) c).
Proof.
  intros Hc Hf Hp. apply withdrawals_wf; try apply Hc.
  - rewrite update_first_map; [apply Hc|]. intros w _. apply Hf.
  - apply update_first_Forall; [apply Hc|]. intros w _. destruct (Hf w) as (-> & _). done.
  - apply update_first_Forall; [apply Hc|]. intros w _. destruct (Hf w) as (_ & _ & ->). done.
  - apply update_first_Forall; [apply Hc|]. intros w _. destruct (Hf w) as (_ & -> & _). done.
  - eapply Forall_impl; [apply (bw_ok c Hc)|]. intros v []. etrans; [|exact vw_covered0].
    pose proof (bw_amounts c Hc) as Ha. clear - Hf Hp Ha.
    unfold due. induction Ha as [|w ws Hw Ha IH]; simpl; [lia|].
    destruct (is_withdrawal id w) eqn:E; simpl; [|lia].
    apply is_withdrawal_spec in E. destruct (Hf w) as (_ & Hr & Ham).
    unfold w_due. rewrite Hr, Ham. specialize (Hp w E).
    destruct (w_is_pending (f w)), (w_is_pending w), (_ =? _); simpl; try lia; by specialize (Hp eq_refl).
Qed.

Lemma push_vault_wf c r :
  bridge_wf c -> existsb (is_vault r) (vaults c) = false ->
  bridge_wf (with_vaults (vaults c ++ [new_vault r]) c).
Proof.
  intros Hc He. assert (Hr : r ∉ map v_rollup_id (vaults c)).
  { intros (v & -> & Hv)%list_elem_of_fmap. pose proof (existsb_false_elem _ _ He v Hv) as E.
    unfold is_vault in E. by rewrite Z.eqb_refl in E. }
  assert (Hz : due r (pending_withdrawals c) = 0).
  { pose proof (bw_known c Hc) as Hk. unfold due.
    induction Hk as [|w ws Hw Hk IH]; simpl; [done|]. rewrite IH. unfold w_due.
    destruct (w_rollup_id w =? r) eqn:E; [|done]. prop_bool. congruence. }
  destruct Hc. split; simpl; auto.
  - rewrite map_app. apply NoDup_app. split; [done|]. split; [|apply NoDup_singleton].
    intros x Hx ->%list_elem_of_singleton. done.
  - eapply Forall_impl; [exact bw_known0|]. intros w Hw. rewrite map_app. apply elem_of_app. by left.
  - apply Forall_app. split; [done|]. constructor; [|done]. split; simpl; try lia.
    unfold u128_max. lia.
Qed.

(** ** Runs

    Every operation but the rejection of a dispute. The second component is
    what the vaults take in or pay out. *)
Inductive BridgeOp : Type :=
| BRegisterRollup (r : RollupId) (name ptype : string) (seq : AccountId) (root : Hash) (h : u64)
| BRegisterVault (r : RollupId)
| BDeposit (r : RollupId) (amount : u128)
| BInitiate (r : RollupId) (who : AccountId) (amount : u128) (block : u64) (proof : Hash)
| BDispute (id : u64) (who : AccountId)
| BUphold (id : u64)
| BFinalize (id : u64) (block : u64).

Definition bridge_exec (op : BridgeOp) (c : BridgeContract) : BridgeContract * Z :=
  let keep flow (r : result BridgeContract BridgeError) :=
    match r with Ok c' => (c', flow) | Err _ => (c, 0) end in
  match op with
  | BRegisterRollup r n p q g h => keep 0 (register_rollup r n p q g h c)
  | BRegisterVault r => keep 0 (register_vault r c)
  | BDeposit r a => keep a (deposit r a c)
  | BInitiate r w a b p =>
      match initiate_withdrawal r w a b p c with Ok (c', _) => (c', 0) | Err _ => (c, 0) end
  | BDispute id w =>
      match dispute_withdrawal id w c with Ok (c', _) => (c', 0) | Err _ => (c, 0) end
  | BUphold id =>
      match resolve_dispute id true c with Ok (c', _) => (c', 0) | Err _ => (c, 0) end
  | BFinalize id b =>
      match finalize_withdrawal id b c with
      | Ok (c', (_, a)) => (c', - a)
      | Err _ => (c, 0)
      end
  end.

Fixpoint bridge_run (ops : list BridgeOp) (c : BridgeContract) : BridgeContract * Z :=
  match ops with
  | [] => (c, 0)
  | op :: ops =>
      let '(c1, f1) := bridge_exec op c in
      let '(c2, f2) := bridge_run ops c1 in (c2, f1 + f2)
  end.

Definition bridge_fits (op : BridgeOp) (c : BridgeContract) : Prop :=
  match op with
  | BDeposit r a => 0 <= a
      /\ Forall (fun v => v_rollup_id v = r -> total_deposited v + a <= u128_max) (vaults c)
  | BInitiate _ _ a _ _ => 0 <= a /\ next_withdrawal_id c < u64_max
  | _ => True
  end.

#[export] Instance bridge_fits_dec op c : Decision (bridge_fits op c).
Proof. destruct op; simpl; apply _. Defined.

Fixpoint bridge_run_fits (ops : list BridgeOp) (c : BridgeContract) : Prop :=
  match ops with
  | [] => True
  | op :: ops => bridge_fits op c /\ bridge_run_fits ops (fst (bridge_exec op c))
  end.

#[export] Instance bridge_run_fits_dec ops c : Decision (bridge_run_fits ops c).
Proof. revert c. induction ops; intros c; simpl; apply _. Defined.

Definition vault_total (c : BridgeContract) : Z := sumZ (map v_balance (vaults c)).

Lemma vault_is_found c r v w :
  bridge_wf c -> List.find (is_vault r) (vaults c) = Some v ->
  w ∈ vaults c -> v_rollup_id w = r -> w = v.
Proof.
  intros Hc Hf Hw Hr.
  pose proof (find_unique v_rollup_id r (is_vault r) _ w (is_vault_spec r) (bw_vaults c Hc) Hw Hr).
  congruence.
Qed.

(** Changing the numbers of one vault, keeping it sound. *)
Lemma update_vault_wf c r v f :
  bridge_wf c -> List.find (is_vault r) (vaults c) = Some v ->
  (forall v, v_rollup_id (f v) = v_rollup_id v) ->
  vault_wf (pending_withdrawals c) (f v) ->
  bridge_wf (with_vaults (update_first (is_vault r) f (vaults c)) c)
  /\ vault_total (with_vaults (update_first (is_vault r) f (vaults c)) c)
     = vault_total c - v_balance v + v_balance (f v).
Proof.
  intros Hc Hf Hid Hv. split; [|unfold vault_total; by apply sumZ_update_first].
  assert (Hids : map v_rollup_id (update_first (is_vault r) f (vaults c))
                 = map v_rollup_id (vaults c)) by (by apply update_first_map).
  split; simpl; rewrite ?Hids; try apply Hc.
  rewrite (update_first_unique v_rollup_id r) by eauto using is_vault_spec, bw_vaults.
  apply Forall_map, Forall_forall. intros w Hw. destruct (is_vault r w) eqn:E.
  - apply is_vault_spec in E. by rewrite (vault_is_found c r v w Hc Hf Hw E).
  - pose proof (bw_ok c Hc) as Hok. rewrite Forall_forall in Hok. auto.
Qed.

Lemma deposit_wf c r a c' :
  bridge_wf c -> 0 <= a ->
  Forall (fun v => v_rollup_id v = r -> total_deposited v + a <= u128_max) (vaults c) ->
  deposit r a c = Ok c' -> bridge_wf c' /\ vault_total c' = vault_total c + a.
Proof.
  intros Hc Ha Hfit H. unfold deposit, ok_or, rbind in H.
  destruct (List.find _ _) as [v|] eqn:Hf; [|done]. injection H as <-.
  rewrite Forall_forall in Hfit. pose proof (find_elem _ _ _ Hf) as [Hin Hid%is_vault_spec].
  pose proof (pending_amount_due r c v Hc Hf) as (_ & [] & _).
  pose proof (due_nonneg (v_rollup_id v) _ (bw_amounts c Hc)).
  specialize (Hfit v Hin Hid).
  destruct (update_vault_wf c r v (fun v => set_vault (u128_add (v_balance v) a)
    (u128_add (total_deposited v) a) (total_withdrawn v) v) Hc Hf) as [Hw Ht]; [done| |].
  - split; simpl; rewrite ?u128_add_exact by lia; lia.
  - split; [done|]. rewrite Ht. simpl. rewrite u128_add_exact by lia. lia.
Qed.

Lemma initiate_withdrawal_wf c r who a b p c' id :
  bridge_wf c -> 0 <= a -> next_withdrawal_id c < u64_max ->
  initiate_withdrawal r who a b p c = Ok (c', id) ->
  bridge_wf c' /\ vault_total c' = vault_total c.
Proof.
  intros Hc Ha Hmax H. unfold initiate_withdrawal, ok_or, rbind in H.
  destruct (List.find _ _) as [v|] eqn:Hf; [|done].
  pose proof (pending_amount_due r c v Hc Hf) as (Hpa & Hv & Hvr). rewrite Hpa in H.
  destruct (_ <? a) eqn:Eav; [done|]. injection H as <- <-. prop_bool.
  pose proof (bw_next c Hc). pose proof (bw_lt c Hc) as Hlt. rewrite Forall_forall in Hlt.
  assert (Hs : u64_add (next_withdrawal_id c) 1 = next_withdrawal_id c + 1)
    by (apply u64_add_exact; lia).
  split; [|done]. rewrite Hs. apply withdrawals_wf; try done.
  - rewrite map_app. apply NoDup_app. split; [apply (bw_ids c Hc)|].
    split; [|apply NoDup_singleton].
    intros x (w & -> & Hw)%list_elem_of_fmap Hx%list_elem_of_singleton.
    specialize (Hlt w Hw). simpl in Hx. lia.
  - lia.
  - apply Forall_app. split; [|repeat constructor; simpl; lia].
    apply Forall_forall. intros w Hw. specialize (Hlt w Hw). lia.
  - apply Forall_app. split; [apply (bw_amounts c Hc)|]. by repeat constructor.
  - apply Forall_app. split; [apply (bw_known c Hc)|]. constructor; [|done]. simpl.
    rewrite <- Hvr. apply find_elem in Hf as [? _]. by apply list_elem_of_fmap_2.
  - apply Forall_forall. intros w Hw. unfold due. rewrite map_app, sumZ_app. simpl.
    unfold w_due at 2. simpl. fold (due (v_rollup_id w) (pending_withdrawals c)).
    pose proof (bw_ok c Hc) as Hok. rewrite Forall_forall in Hok. destruct (Hok w Hw).
    destruct (r =? v_rollup_id w) eqn:E; simpl; [|lia]. prop_bool.
    assert (w = v) as -> by (by apply (vault_is_found c r)).
    rewrite Hvr. unfold sat_sub in Eav. rewrite Hvr in *. lia.
Qed.

(** A payout comes out of the vault and out of what is due. *)
Lemma finalize_wf c id b c' who a :
  bridge_wf c -> finalize_withdrawal id b c = Ok (c', (who, a)) ->
  bridge_wf c' /\ vault_total c' = vault_total c - a.
Proof.
  intros Hc H. unfold finalize_withdrawal, ok_or, rbind in H.
  destruct (List.find _ _) as [w|] eqn:Hw; [|done]. destruct (w_status w) eqn:Est; [|done|done].
  destruct (_ <? _); [done|]. cbn [vaults with_withdrawals] in H.
  destruct (List.find _ (vaults c)) as [v|] eqn:Hf; [|done]. injection H as <- <- <-.
  set (ws := update_first _ _ (pending_withdrawals c)).
  pose proof (pending_amount_due _ c v Hc Hf) as (_ & [] & Hr).
  pose proof (find_elem _ _ _ Hw) as [Hin _].
  pose proof (bw_amounts c Hc) as Ha. rewrite Forall_forall in Ha. pose proof (Ha w Hin).
  assert (Hdue : due (v_rollup_id v) ws
                 = due (v_rollup_id v) (pending_withdrawals c) - w_amount w).
  { unfold due, ws. rewrite (sumZ_update_first _ _ _ _ _ Hw). unfold w_due at 2 3.
    unfold w_is_pending. simpl. rewrite Est, Hr, Z.eqb_refl. simpl. lia. }
  assert (Hc1 : bridge_wf (with_withdrawals ws c)) by (by apply close_withdrawal_wf).
  pose proof (due_nonneg (v_rollup_id v) ws (bw_amounts _ Hc1)).
  destruct (update_vault_wf (with_withdrawals ws c) (w_rollup_id w) v
    (fun v => set_vault (sat_sub (v_balance v) (w_amount w)) (total_deposited v)
       (u128_add (total_withdrawn v) (w_amount w)) v) Hc1 Hf) as [Hwf Ht]; [done| |].
  - split; simpl; rewrite ?u128_add_exact, ?sat_sub_exact by lia; lia.
  - split; [done|]. etrans; [exact Ht|]. simpl. rewrite sat_sub_exact by lia.
    unfold vault_total. simpl. lia.
Qed.

Lemma bridge_exec_wf op c :
  bridge_wf c -> bridge_fits op c ->
  bridge_wf (fst (bridge_exec op c))
  /\ vault_total (fst (bridge_exec op c)) = vault_total c + snd (bridge_exec op c).
Proof.
  intros Hc Hop.
  assert (Hsame : bridge_wf c /\ vault_total c = vault_total c + 0) by (split; [done|lia]).
  assert (Hpush : forall r, existsb (is_vault r) (vaults c) = false ->
    bridge_wf (with_vaults (vaults c ++ [new_vault r]) c)
    /\ vault_total (with_vaults (vaults c ++ [new_vault r]) c) = vault_total c + 0).
  { intros r Hr. split; [by apply push_vault_wf|]. unfold vault_total. simpl.
    rewrite map_app, sumZ_app. simpl. lia. }
  destruct op; simpl in *.
  - unfold register_rollup. destruct (existsb _ _); [done|]. simpl.
    destruct (existsb (is_vault r) _) eqn:E; simpl.
    + split; [|apply Hsame]. destruct Hc. by split.
    + destruct (Hpush r E) as [[] Ht]. split; [by split|exact Ht].
  - unfold register_vault. destruct (existsb _ _) eqn:E; [done|]. by apply Hpush.
  - destruct (deposit r amount c) eqn:E; [|done]. simpl. destruct Hop. by apply (deposit_wf c r).
  - destruct (initiate_withdrawal _ _ _ _ _ _) as [[c' id]|] eqn:E; [|done]. simpl. destruct Hop.
    rewrite Z.add_0_r. by eapply initiate_withdrawal_wf.
  - unfold dispute_withdrawal, ok_or, rbind. destruct (List.find _ _) as [w|]; [|done].
    destruct (negb _); [done|]. simpl. rewrite Z.add_0_r. split; [by apply close_withdrawal_wf|done].
  - unfold resolve_dispute, ok_or, rbind. destruct (List.find _ _) as [w|]; [|done].
    destruct (negb _); [done|]. simpl. rewrite Z.add_0_r. split; [by apply close_withdrawal_wf|done].
  - destruct (finalize_withdrawal _ _ _) as [[c' [who a]]|] eqn:E; [|done]. simpl.
    apply finalize_wf in E as [? ->]; [|done]. split; [done|lia].
Qed.

Lemma bridge_default_wf : bridge_wf bridge_default.
Proof. split; simpl; try constructor; lia. Qed.

Lemma bridge_run_wf ops c :
  bridge_wf c -> bridge_run_fits ops c ->
  bridge_wf (fst (bridge_run ops c))
  /\ vault_total (fst (bridge_run ops c)) = vault_total c + snd (bridge_run ops c).
Proof.
  revert c. induction ops as [|op ops IH]; intros c Hc Hf; simpl in *; [split; [done|lia]|].
  destruct Hf as [Hop Hf]. pose proof (bridge_exec_wf op c Hc Hop) as [Hc1 Hl1].
  destruct (bridge_exec op c) as [c1 f1]. simpl in *.
  pose proof (IH c1 Hc1 Hf) as [Hc2 Hl2]. destruct (bridge_run ops c1) as [c2 f2].
  simpl in *. split; [done|lia].
Qed.

(** C30: as long as no dispute is rejected, the vaults hold exactly what was
    deposited less what was paid out, every vault covers all withdrawals
    pending against it, and a withdrawal that is finalised after its window is
    paid in full from the vault. *)
Theorem bridge_solvent ops :
  bridge_run_fits ops bridge_default ->
  let c := fst (bridge_run ops bridge_default) in
  vault_total c = snd (bridge_run ops bridge_default)
  /\ Forall (fun v => v_balance v = total_deposited v - total_withdrawn v
       /\ due (v_rollup_id v) (pending_withdrawals c) <= v_balance v) (vaults c)
  /\ (forall w, w ∈ pending_withdrawals c -> w_status w = WPending ->
       exists c', finalize_withdrawal (w_id w) (w_finalize_after_block w) c
                  = Ok (c', (w_recipient w, w_amount w))
         /\ vault_total c' = vault_total c - w_amount w).
Proof.
  intros Hfit c. pose proof (bridge_run_wf ops _ bridge_default_wf Hfit) as [Hc Ht]. fold c in Hc, Ht.
  split; [exact Ht|]. split.
  - eapply Forall_impl; [apply (bw_ok c Hc)|]. by intros v [].
  - intros w Hw Hst.
    pose proof (find_unique w_id (w_id w) (is_withdrawal (w_id w)) _ w
      (is_withdrawal_spec _) (bw_ids c Hc) Hw eq_refl) as Hf.
    pose proof (bw_known c Hc) as Hk. rewrite Forall_forall in Hk.
    destruct (list_elem_of_fmap_1 _ _ _ (Hk w Hw)) as (v & Hv & Hin).
    pose proof (find_unique v_rollup_id (w_rollup_id w) (is_vault (w_rollup_id w)) _ v
      (is_vault_spec _) (bw_vaults c Hc) Hin (eq_sym Hv)) as Hfv.
    destruct (finalize_withdrawal (w_id w) (w_finalize_after_block w) c)
      as [[c' [who a]]|e] eqn:E.
    + pose proof (finalize_wf _ _ _ _ _ _ Hc E) as [_ Htot].
      unfold finalize_withdrawal, ok_or, rbind in E. rewrite Hf, Hst in E.
      rewrite Z.ltb_irrefl in E. cbn [vaults with_withdrawals] in E. rewrite Hfv in E.
      injection E as <- <- <-. eauto.
    + unfold finalize_withdrawal, ok_or, rbind in E. rewrite Hf, Hst in E.
      rewrite Z.ltb_irrefl in E. cbn [vaults with_withdrawals] in E. by rewrite Hfv in E.
Qed.

Definition bridge_demo : list BridgeOp :=
  [BRegisterVault 7; BDeposit 7 500; BInitiate 7 (replicate 32 1) 200 10 zero_hash;
   BInitiate 7 (replicate 32 2) 250 11 zero_hash; BFinalize 0 160].

Lemma bridge_solvent_witness :
  vault_total (fst (bridge_run bridge_demo bridge_default)) = 300
  /\ exists c', finalize_withdrawal 1 161 (fst (bridge_run bridge_demo bridge_default))
                = Ok (c', (replicate 32 2, 250)).
Proof.
  destruct (bridge_solvent bridge_demo) as (Ht & _ & Hp);
    [apply (bool_decide_unpack _); vm_compute; exact I|].
  split; [exact Ht|].
  destruct (Hp (mkWithdrawal 1 7 (replicate 32 2) 250 11 161 zero_hash WPending None 0))
    as (c' & Hf & _); [|reflexivity|exists c'; exact Hf].
  apply list_elem_of_In. vm_compute. right. left. reflexivity.
Defined.

(** ** Rejected disputes

    A disputed withdrawal is not counted against the vault, so the same funds
    can be promised again; rejecting the dispute makes it payable as well. *)

Definition overcommit (amount : u128) : list BridgeOp :=
  [BRegisterVault 7; BDeposit 7 amount; BInitiate 7 (replicate 32 1) amount 10 zero_hash;
   BDispute 0 (replicate 32 9); BInitiate 7 (replicate 32 2) amount 11 zero_hash;
   BFinalize 1 161].

Lemma overcommit_run amount :
  0 <= amount -> 2 * amount <= u128_max ->
  bridge_run (overcommit amount) bridge_default
  = (mkBridge [mkVault 7 0 amount amount 100 50]
      [mkWithdrawal 0 7 (replicate 32 1) amount 10 160 zero_hash WDisputed
         (Some (replicate 32 9)) DISPUTE_BOND;
       mkWithdrawal 1 7 (replicate 32 2) amount 11 161 zero_hash WFinalized None 0] [] 2,
     amount + - amount).
Proof.
  intros H0 Hm.
  assert (Ha : u128_add 0 amount = amount) by (rewrite u128_add_exact; lia).
  assert (Hs : sat_sub amount 0 = amount) by (rewrite sat_sub_exact; lia).
  unfold overcommit. cbn [bridge_run bridge_exec]. cbv beta zeta.
  unfold register_vault, deposit at 1. simpl. rewrite Ha.
  unfold initiate_withdrawal at 1. simpl. unfold pending_amount at 1. simpl.
  change (u128_sum []) with 0. rewrite Hs, Z.ltb_irrefl.
  unfold dispute_withdrawal at 1. simpl.
  unfold initiate_withdrawal at 1. simpl. unfold pending_amount at 1. simpl.
  change (u128_sum []) with 0. rewrite Hs, Z.ltb_irrefl.
  unfold finalize_withdrawal at 1. simpl.
  rewrite (sat_sub_exact amount amount), Z.sub_diag, Ha by lia. f_equal. lia.
Qed.

(** For every amount above the dispute bond, a vault that took in one
    deposit of it pays it out twice once a dispute is rejected: the second
    payout exceeds what the vault holds, and the vault is left at zero. *)
Theorem rejected_dispute_overpays amount :
  DISPUTE_BOND < amount -> 2 * amount <= u128_max ->
  let c := fst (bridge_run (overcommit amount) bridge_default) in
  snd (bridge_run (overcommit amount) bridge_default) = 0
  /\ exists c1 c2 v, resolve_dispute 0 false c = Ok (c1, (None, 0))
    /\ finalize_withdrawal 0 161 c1 = Ok (c2, (replicate 32 1, amount))
    /\ vault_total c1 = DISPUTE_BOND
    /\ get_vault 7 c2 = Some v /\ v_balance v = 0
    /\ total_deposited v = amount /\ total_withdrawn v = 2 * amount.
Proof.
  intros Hb Hm. assert (Hbond : 0 < DISPUTE_BOND) by (unfold DISPUTE_BOND; lia).
  rewrite overcommit_run by lia. cbv zeta. cbn [fst snd]. split; [lia|].
  eexists _, _, _. split; [reflexivity|].
  split; [reflexivity|]. split; [reflexivity|]. split; [reflexivity|].
  cbn [v_balance total_deposited total_withdrawn set_vault w_dispute_bond w_amount set_w_status set_w_dispute].
  assert (sat_add128 0 DISPUTE_BOND = DISPUTE_BOND) as -> by reflexivity.
  split; [unfold sat_sub; lia|]. split; [done|]. rewrite u128_add_exact; lia.
Qed.

Lemma rejected_dispute_overpays_witness :
  snd (bridge_run (overcommit 20000000000) bridge_default) = 0
  /\ exists v c1 c2, finalize_withdrawal 0 161 c1 = Ok (c2, (replicate 32 1, 20000000000))
    /\ get_vault 7 c2 = Some v /\ total_deposited v = 20000000000
    /\ total_withdrawn v = 2 * 20000000000.
Proof.
  destruct (rejected_dispute_overpays 20000000000) as (H0 & c1 & c2 & v & _ & Hf & _ & Hv & _ & Hd & Hw);
    [reflexivity|vm_compute; discriminate|].
  split; [exact H0|]. exists v, c1, c2. exact (conj Hf (conj Hv (conj Hd Hw))).
Defined.

(** Upholding a dispute does not close it: the withdrawal stays disputed
    with its bond already returned, and a later rejection makes it payable. *)
Theorem upheld_dispute_reopens c id who w v :
  bridge_wf c -> w ∈ pending_withdrawals c -> w_id w = id ->
  w_status w = WDisputed -> w_disputer w = Some who -> get_vault (w_rollup_id w) c = Some v ->
  exists c1 c2 c3, resolve_dispute id true c = Ok (c1, (Some who, w_dispute_bond w))
    /\ resolve_dispute id false c1 = Ok (c2, (None, 0))
    /\ finalize_withdrawal id (w_finalize_after_block w) c2
       = Ok (c3, (w_recipient w, w_amount w)).
Proof.
  intros Hc Hw <- Hst Hd Hv. unfold get_vault in Hv.
  pose proof (find_unique w_id (w_id w) (is_withdrawal (w_id w)) _ w
    (is_withdrawal_spec _) (bw_ids c Hc) Hw eq_refl) as Hf.
  eexists _, _, _. split; [|split].
  - unfold resolve_dispute, ok_or, rbind. rewrite Hf, Hst, Hd. reflexivity.
  - unfold resolve_dispute, ok_or, rbind. cbn [pending_withdrawals with_withdrawals].
    rewrite find_update_first by done. rewrite Hf. simpl. rewrite Hst. reflexivity.
  - unfold finalize_withdrawal, ok_or, rbind.
    cbn [pending_withdrawals with_withdrawals with_vaults vaults].
    rewrite !find_update_first by done. rewrite Hf. simpl. rewrite Z.ltb_irrefl.
    rewrite find_update_first by done. rewrite Hv. reflexivity.
Qed.

Lemma upheld_dispute_reopens_witness :
  let c := fst (bridge_run (take 4 (overcommit 90)) bridge_default) in
  exists c1 c2 c3, resolve_dispute 0 true c = Ok (c1, (Some (replicate 32 9), DISPUTE_BOND))
    /\ resolve_dispute 0 false c1 = Ok (c2, (None, 0))
    /\ finalize_withdrawal 0 160 c2 = Ok (c3, (replicate 32 1, 90)).
Proof.
  intros c.
  apply (upheld_dispute_reopens c 0 (replicate 32 9)
    (mkWithdrawal 0 7 (replicate 32 1) 90 10 160 zero_hash WDisputed
       (Some (replicate 32 9)) DISPUTE_BOND) (mkVault 7 90 90 0 100 50)); try reflexivity.
  - apply bridge_run_wf; [exact bridge_default_wf|].
    apply (bool_decide_unpack _); vm_compute; exact I.
  - apply list_elem_of_In. vm_compute. left. reflexivity.
Defined.
