(* ===== verification/Treasury.v ===== *)
(** Three small contracts of [crates/solen-system-contracts/src]: the treasury
    ([treasury.rs]), the proof system registry ([proof_registry.rs]) and the
    epoch randomness accumulator ([epoch_randomness.rs]). *)

From S2P Require Import Prelude Types Store.
Open Scope Z_scope.

(** ** Treasury *)

Inductive TreasuryError : Type :=
| InsufficientBalance (have need : u128) | Unauthorized | GrantNotFound.

Record Grant : Type := mkGrant {
  g_id : u64;
  g_recipient : AccountId;
  g_amount : u128;
  g_description : string;
  g_disbursed : bool;
}.

Record TreasuryContract : Type := mkTreasury {
  t_balance : u128;
  total_fees_collected : u128;
  total_burned : u128;
  total_grants_disbursed : u128;
  grants : list Grant;
  next_grant_id : u64;
}.

Definition treasury_default : TreasuryContract := mkTreasury 0 0 0 0 [] 0.

Definition collect_fee (amount burn_amount : u128) (t : TreasuryContract) : TreasuryContract :=
  mkTreasury (u128_add (t_balance t) (sat_sub amount burn_amount))
    (u128_add (total_fees_collected t) amount) (u128_add (total_burned t) burn_amount)
    (total_grants_disbursed t) (grants t) (next_grant_id t).

Definition create_grant (who : AccountId) (amount : u128) (description : string)
    (t : TreasuryContract) : result (TreasuryContract * u64) TreasuryError :=
  if t_balance t <? amount then Err (InsufficientBalance (t_balance t) amount)
  else
  let id := next_grant_id t in
  Ok (mkTreasury (t_balance t) (total_fees_collected t) (total_burned t)
        (total_grants_disbursed t) (grants t ++ [mkGrant id who amount description false])
        (u64_add id 1), id).

(** [g.id == grant_id && !g.disbursed]. *)
Definition open_grant (id : u64) (g : Grant) : bool := (g_id g =? id) && negb (g_disbursed g).

Definition disburse_grant (grant_id : u64) (t : TreasuryContract) :
    result (TreasuryContract * (AccountId * u128)) TreasuryError :=
  let! g := ok_or (List.find (open_grant grant_id) (grants t)) GrantNotFound in
  if t_balance t <? g_amount g then Err (InsufficientBalance (t_balance t) (g_amount g))
  else Ok (mkTreasury (u128_sub (t_balance t) (g_amount g)) (total_fees_collected t)
             (total_burned t) (u128_add (total_grants_disbursed t) (g_amount g))
             (update_first (open_grant grant_id)
                (fun g => mkGrant (g_id g) (g_recipient g) (g_amount g) (g_description g) true)
                (grants t))
             (next_grant_id t), (g_recipient g, g_amount g)).

Definition TREASURY_STORAGE_KEY : bytes := Eval vm_compute in bytes_of_string "__treasury_state__".

Definition treasury_load {S} `{!StateStore S, !Codec TreasuryContract} (s : S) : TreasuryContract :=
  load_record TREASURY_STORAGE_KEY treasury_default s.
Definition treasury_save {S} `{!StateStore S, !Codec TreasuryContract} (t : TreasuryContract)
    (s : S) : S := save_record TREASURY_STORAGE_KEY t s.

(** ** Proof registry *)

Inductive RegistryError : Type :=
| ProofAlreadyRegistered (name : string) | ProofNotFound (name : string).

Record ProofSystemInfo : Type := mkProofSystem {
  ps_name : string;
  ps_description : string;
  ps_is_active : bool;
  rollups_using : list RollupId;
}.

Definition ProofRegistry : Type := list ProofSystemInfo.

Definition registry_register (name description : string) (r : ProofRegistry) :
    result ProofRegistry RegistryError :=
  if existsb (fun s => String.eqb (ps_name s) name) r then Err (ProofAlreadyRegistered name)
  else Ok (r ++ [mkProofSystem name description true []]).

Definition add_rollup (proof_type : string) (rollup_id : RollupId) (r : ProofRegistry) :
    result ProofRegistry RegistryError :=
  let! _ := ok_or (List.find (fun s => String.eqb (ps_name s) proof_type) r)
              (ProofNotFound proof_type) in
  Ok (update_first (fun s => String.eqb (ps_name s) proof_type)
        (fun s => if existsb (Z.eqb rollup_id) (rollups_using s) then s
                  else mkProofSystem (ps_name s) (ps_description s) (ps_is_active s)
                         (rollups_using s ++ [rollup_id])) r).

Definition active_systems (r : ProofRegistry) : list string :=
  map ps_name (List.filter ps_is_active r).

(** ** Epoch randomness *)

Definition EPOCH_LENGTH : u64 := 100.

Record EpochRandomness : Type := mkRandomness { er_acc : Hash; er_seed : Hash }.

Definition randomness_default : EpochRandomness := mkRandomness zero_hash zero_hash.
Definition RANDOMNESS_STORAGE_KEY : bytes :=
  Eval vm_compute in bytes_of_string "__sys_epoch_randomness__".

Definition randomness_load {S} `{!StateStore S, !Codec EpochRandomness} (s : S) : EpochRandomness :=
  load_record RANDOMNESS_STORAGE_KEY randomness_default s.
Definition randomness_save {S} `{!StateStore S, !Codec EpochRandomness} (r : EpochRandomness)
    (s : S) : S := save_record RANDOMNESS_STORAGE_KEY r s.

Definition mix_block (blake3 : bytes -> Hash) (contribution : Hash) (height : u64)
    (r : EpochRandomness) : EpochRandomness :=
  let acc := blake3 (er_acc r ++ contribution ++ le_bytes 8 height) in
  if (0 <? height) && (height mod EPOCH_LENGTH =? 0)
  then let seed := blake3 acc in mkRandomness seed seed
  else mkRandomness acc (er_seed r).

(** ** Properties *)

(** The treasury's books: everything collected is burned, granted or still
    there. *)
Definition treasury_wf (t : TreasuryContract) : Prop :=
  0 <= t_balance t /\ 0 <= total_burned t /\ 0 <= total_grants_disbursed t
  /\ total_fees_collected t <= u128_max
  /\ total_fees_collected t = t_balance t + total_burned t + total_grants_disbursed t
  /\ Forall (fun g => 0 <= g_amount g) (grants t).

Lemma collect_fee_wf amount burn t :
  treasury_wf t -> 0 <= burn <= amount -> total_fees_collected t + amount <= u128_max ->
  treasury_wf (collect_fee amount burn t).
Proof.
  intros (? & ? & ? & ? & ? & ?) Hb Hm. unfold collect_fee. rewrite sat_sub_exact by lia.
  repeat split; simpl; rewrite ?u128_add_exact by lia; auto; lia.
Qed.

Lemma create_grant_wf who amount d t t' id :
  treasury_wf t -> 0 <= amount -> create_grant who amount d t = Ok (t', id) -> treasury_wf t'.
Proof.
  intros (? & ? & ? & ? & ? & ?) Ha. unfold create_grant. destruct (_ <? _); [done|].
  intros [= <- <-]. repeat split; simpl; auto. apply Forall_app. split; [done|]. by constructor.
Qed.

(** A grant is paid at most once, only out of what the treasury holds, and
    the books stay balanced: collected fees equal balance plus burned plus
    disbursed. *)
Theorem disburse_grant_sound id t t' who amount :
  treasury_wf t -> NoDup (map g_id (grants t)) ->
  disburse_grant id t = Ok (t', (who, amount)) ->
  treasury_wf t' /\ amount <= t_balance t /\ t_balance t' = t_balance t - amount
  /\ disburse_grant id t' = Err GrantNotFound.
Proof.
  intros (? & ? & ? & ? & Hbal & Hg) Hnd H'. unfold disburse_grant, ok_or, rbind in H'.
  destruct (List.find _ _) as [g|] eqn:Hf; [|done]. destruct (_ <? _) eqn:E; [done|].
  injection H' as <- <- <-. prop_bool. pose proof (find_elem _ _ _ Hf) as [Hin _].
  rewrite Forall_forall in Hg. pose proof (Hg g Hin).
  rewrite u128_sub_exact, u128_add_exact by lia. split; [|split; [done|split; [done|]]].
  - repeat split; simpl; try lia. apply update_first_Forall; [by apply Forall_forall|done].
  - unfold disburse_grant, ok_or, rbind. simpl.
    apply find_split in Hf as (l1 & l2 & Hl & Hp & Hl1). rewrite Hl in *.
    rewrite update_first_split by done. unfold open_grant in Hp. prop_bool. subst id.
    rewrite map_app in Hnd. simpl in Hnd. apply NoDup_app in Hnd as (_ & _ & [Hni _]%NoDup_cons).
    assert (List.find (open_grant (g_id g)) (l1 ++ mkGrant (g_id g) (g_recipient g) (g_amount g)
      (g_description g) true :: l2) = None) as ->; [|done].
    apply find_none_intro, Forall_app. split; [done|]. constructor.
    + unfold open_grant. simpl. by rewrite andb_false_r.
    + apply Forall_forall. intros x Hx. unfold open_grant.
      destruct (g_id x =? g_id g) eqn:Ex; [|done]. prop_bool.
      destruct Hni. rewrite <- Ex. by apply list_elem_of_fmap_2.
Qed.

Lemma disburse_grant_sound_witness :
  exists t', disburse_grant 0 (mkTreasury 60 100 40 0 [mkGrant 0 (replicate 32 1) 25 "g" false] 1)
             = Ok (t', (replicate 32 1, 25))
    /\ t_balance t' = 35 /\ disburse_grant 0 t' = Err GrantNotFound.
Proof.
  eexists. split; [reflexivity|].
  refine ((fun H => proj2 (proj2 H)) (disburse_grant_sound 0
    (mkTreasury 60 100 40 0 [mkGrant 0 (replicate 32 1) 25 "g" false] 1) _ _ _ _ _ eq_refl)).
  - repeat split; simpl; try lia; [unfold u128_max; lia|repeat constructor; simpl; lia].
  - apply NoDup_singleton.
Defined.

(** Blocks of one epoch: mixing heights [h], [h+1], ... *)
Fixpoint mix_blocks (blake3 : bytes -> Hash) (cs : list Hash) (h : u64) (r : EpochRandomness) :
    EpochRandomness :=
  match cs with
  | [] => r
  | c :: cs => mix_blocks blake3 cs (h + 1) (mix_block blake3 c h r)
  end.

(** The proposer seed changes only at an epoch boundary: mixing any number
    of blocks strictly between two boundaries keeps it, and the block at the
    boundary sets seed and accumulator to the same hash, so that two nodes that
    agree on the contributions of an epoch and on the state at its start agree
    on the next seed. *)
Theorem seed_fixed_within_epoch blake3 cs c e r :
  0 <= e -> Z.of_nat (length cs) = EPOCH_LENGTH - 1 ->
  let before := mix_blocks blake3 cs (e * EPOCH_LENGTH + 1) r in
  let after := mix_block blake3 c ((e + 1) * EPOCH_LENGTH) before in
  er_seed before = er_seed r
  /\ (forall cs1 cs2, cs = cs1 ++ cs2 ->
       er_seed (mix_blocks blake3 cs1 (e * EPOCH_LENGTH + 1) r) = er_seed r)
  /\ er_seed after
     = blake3 (blake3 (er_acc before ++ c ++ le_bytes 8 ((e + 1) * EPOCH_LENGTH)))
  /\ er_acc after = er_seed after.
Proof.
  intros He Hlen before after.
  assert (Hkeep : forall l h x, e * EPOCH_LENGTH < h ->
    h + Z.of_nat (length l) <= (e + 1) * EPOCH_LENGTH ->
    er_seed (mix_blocks blake3 l h x) = er_seed x).
  { induction l as [|y l IH]; intros h x Hh Hl; simpl; [done|]. simpl in Hl.
    rewrite IH by lia. unfold mix_block.
    destruct ((0 <? h) && _) eqn:E; [|done]. prop_bool. unfold EPOCH_LENGTH in *.
    pose proof (Z.div_mod h 100 ltac:(lia)). nia. }
  split; [apply Hkeep; unfold EPOCH_LENGTH in *; lia|]. split.
  - intros cs1 cs2 ->. rewrite length_app in Hlen.
    apply Hkeep; unfold EPOCH_LENGTH in *; lia.
  - unfold after, mix_block.
    assert ((0 <? (e + 1) * EPOCH_LENGTH) && (((e + 1) * EPOCH_LENGTH) mod EPOCH_LENGTH =? 0) = true)
      as ->; [|done].
    rewrite Z.mod_mul by (unfold EPOCH_LENGTH; lia).
    apply andb_true_iff. split; [|done]. apply Z.ltb_lt. unfold EPOCH_LENGTH. lia.
Qed.

Lemma seed_fixed_within_epoch_witness :
  let sum b := [sumZ b mod 251] in
  let before := mix_blocks sum (replicate 99 [7]) 1 randomness_default in
  er_seed before = zero_hash /\ er_acc (mix_block sum [7] 100 before)
                               = er_seed (mix_block sum [7] 100 before).
Proof.
  intros sum before.
  destruct (seed_fixed_within_epoch sum (replicate 99 [7]) [7] 0 randomness_default)
    as (H1 & _ & _ & H3); [lia|reflexivity|].
  exact (conj H1 H3).
Defined.
