(* ===== verification/Rollup.v ===== *)
(** The rollup kit ([crates/solen-rollup-kit/src]): the provers ([prover.rs]),
    the sequencer ([sequencer.rs]), the batch publisher ([batch.rs]), the
    cross-domain messenger ([messenger.rs]) and the relayer queue
    ([relayer.rs]). *)

From S2P Require Import Prelude Types.
Open Scope Z_scope.

(** ** Provers ([prover.rs]) *)

Inductive ProverError : Type :=
| GenerationFailed (why : string) | VerificationFailed | InvalidFormat.

Section mock_prover.
(** [blake3_hash] of [solen-crypto]. *)
Context (blake3 : bytes -> Hash).

Definition MOCK_TAG : bytes := Eval vm_compute in bytes_of_string "mock_proof:".

Definition mock_generate_proof (pre post : Hash) (batch_data : bytes) : result bytes ProverError :=
  Ok (blake3 (MOCK_TAG ++ pre ++ post ++ blake3 batch_data)).

Definition mock_verify_proof (pre post data_hash : Hash) (proof : bytes) :
    result bool ProverError :=
  if negb (length proof =? 32)%nat then Err InvalidFormat
  else Ok (bytes_eqb proof (blake3 (MOCK_TAG ++ pre ++ post ++ data_hash))).

(** The mock proof that is generated is the one that verifies. *)
Lemma mock_proof_roundtrip pre post data proof :
  (forall b, length (blake3 b) = 32%nat) ->
  mock_generate_proof pre post data = Ok proof ->
  mock_verify_proof pre post (blake3 data) proof = Ok true.
Proof.
  intros Hlen [= <-]. unfold mock_verify_proof. rewrite Hlen. simpl. by rewrite bytes_eqb_refl.
Qed.
End mock_prover.

Section provers.
(** The Ed25519 verification of [solen-crypto]: [verify key message signature]
    says whether the signature is accepted. *)
Context (verify : bytes -> bytes -> bytes -> bool).

Definition ATTESTATION_DOMAIN : bytes :=
  Eval vm_compute in bytes_of_string "solen-rollup-attestation:v1".

Definition committee_attestation_message (rollup_id batch_index : u64)
    (pre post data_hash : Hash) : bytes :=
  ATTESTATION_DOMAIN ++ le_bytes 8 rollup_id ++ le_bytes 8 batch_index ++ pre ++ post ++ data_hash.

(** The loop over the entries: [count] rounds from [off], the set of attestors
    counted so far ([BTreeSet<usize>]). *)
Fixpoint count_attestations (count : nat) (msg : bytes) (attestors : list bytes) (proof : bytes)
    (off : nat) (valid_signers : gset nat) : result (gset nat) ProverError :=
  match count with
  | O => Ok valid_signers
  | S count =>
    if (length proof <? off + 68)%nat then Err InvalidFormat
    else
    let idx := read_u32_at proof off in
    let sig := slice (off + 4) 64 proof in
    let continue := count_attestations count msg attestors proof (off + 68) in
    match attestors !! idx with
    | Some key =>
      if bool_decide (idx ∈ valid_signers) then continue valid_signers
      else if verify key msg sig then continue ({[idx]} ∪ valid_signers)
      else continue valid_signers
    | None => continue valid_signers
    end
  end.

Definition verify_committee_attestation (rollup_id batch_index : u64) (pre post data_hash : Hash)
    (attestors : list bytes) (threshold : nat) (proof : bytes) : result bool ProverError :=
  if (threshold =? 0)%nat || bool_decide (attestors = []) || (length attestors <? threshold)%nat
  then Err InvalidFormat
  else if (length proof <? 4)%nat then Err InvalidFormat
  else
  let msg := committee_attestation_message rollup_id batch_index pre post data_hash in
  let! signers := count_attestations (read_u32_at proof 0) msg attestors proof 4 ∅ in
  Ok (threshold <=? size signers)%nat.

(** ** What a committee proof shows *)

(** Entry [i] of a proof. *)
Definition entry_index (proof : bytes) (i : nat) : nat := read_u32_at proof (4 + 68 * i).
Definition entry_signature (proof : bytes) (i : nat) : bytes := slice (4 + 68 * i + 4) 64 proof.

(** Attestor [idx] signed [msg] in one of the first [n] entries from entry [from]. *)
Definition signed_in (msg : bytes) (attestors : list bytes) (proof : bytes) (from n idx : nat) : Prop :=
  exists i key, (from <= i < from + n)%nat /\ entry_index proof i = idx
    /\ attestors !! idx = Some key /\ verify key msg (entry_signature proof i) = true.

Lemma signed_in_step msg attestors proof from n idx :
  signed_in msg attestors proof from (S n) idx
  <-> signed_in msg attestors proof from 1 idx \/ signed_in msg attestors proof (S from) n idx.
Proof.
  split.
  - intros (i & key & Hi & H). destruct (decide (i = from)) as [->|].
    + left. exists from, key. split; [lia|done].
    + right. exists i, key. split; [lia|done].
  - intros [(i & key & Hi & H)|(i & key & Hi & H)]; exists i, key; split; auto; lia.
Qed.

(** The loop counts exactly the attestors with a valid entry. *)
Lemma count_attestations_spec n msg attestors proof from acc res :
  count_attestations n msg attestors proof (4 + 68 * from) acc = Ok res ->
  forall idx, idx ∈ res <-> idx ∈ acc \/ signed_in msg attestors proof from n idx.
Proof.
  revert from acc. induction n as [|n IH]; intros from acc H idx; cbn [count_attestations] in H.
  - injection H as <-. split; [by left|]. intros [?|(i & _ & ? & _)]; [done|lia].
  - destruct (Nat.ltb _ _); [done|]. change (read_u32_at proof _) with (entry_index proof from) in H.
    change (slice _ 64 proof) with (entry_signature proof from) in H.
    replace (4 + 68 * from + 68)%nat with (4 + 68 * S from)%nat in H by lia.
    rewrite signed_in_step.
    assert (H1 : signed_in msg attestors proof from 1 idx <-> idx = entry_index proof from /\
      exists key, attestors !! idx = Some key /\ verify key msg (entry_signature proof from) = true).
    { split.
      - intros (i & key & Hi & Hx & Hk). assert (i = from) as -> by lia. naive_solver.
      - intros (-> & key & Hk). exists from, key. split; [lia|done]. }
    destruct (attestors !! entry_index proof from) as [key|] eqn:Ek.
    + case_bool_decide as Hin; [|destruct (verify _ _ _) eqn:Ev]; rewrite (IH _ _ H);
        rewrite ?elem_of_union, ?elem_of_singleton.
      * split; [tauto|]. intros [|[(-> & _)%H1|]]; tauto.
      * assert (Hx : idx = entry_index proof from -> signed_in msg attestors proof from 1 idx)
          by (intros Heq; apply H1; split; [done|]; exists key; by rewrite Heq). tauto.
      * split; [tauto|]. intros [|[(-> & k & Hk & Hv)%H1|]]; [tauto| |tauto].
        rewrite Ek in Hk. injection Hk as <-. congruence.
    + rewrite (IH _ _ H). split; [tauto|]. intros [|[(-> & k & Hk & _)%H1|]]; [tauto|congruence|tauto].
Qed.

Lemma committee_signers rollup_id batch_index pre post data_hash attestors threshold proof b :
  verify_committee_attestation rollup_id batch_index pre post data_hash attestors threshold proof
    = Ok b ->
  (0 < threshold <= length attestors)%nat
  /\ (b = true <-> exists signers, NoDup signers /\ length signers = threshold
        /\ Forall (signed_in
             (committee_attestation_message rollup_id batch_index pre post data_hash)
             attestors proof 0 (read_u32_at proof 0)) signers).
Proof.
  unfold verify_committee_attestation.
  destruct (threshold =? 0)%nat eqn:E0; [done|]. apply Nat.eqb_neq in E0.
  case_bool_decide; [done|]. destruct (Nat.ltb_spec (length attestors) threshold); [done|]. simpl.
  destruct (Nat.ltb _ _); [done|]. unfold rbind.
  destruct (count_attestations _ _ _ _ _ _) as [res|] eqn:E; [|done]. intros [= <-].
  pose proof (count_attestations_spec _ _ _ _ 0 _ _ E) as Hs. split; [lia|].
  rewrite Nat.leb_le. split.
  - intros Hle. exists (take threshold (elements res)). split; [|split].
    + apply (NoDup_app _ (drop threshold (elements res))). rewrite take_drop. apply NoDup_elements.
    + rewrite length_take. change (length (elements res)) with (size res). lia.
    + apply Forall_take, Forall_forall. intros x Hx%elem_of_elements. apply Hs in Hx. set_solver.
  - intros (l & Hn & <- & Hl). rewrite <- (size_list_to_set (C := gset nat) l Hn).
    apply subseteq_size. intros x Hx%elem_of_list_to_set. apply Hs. right.
    by apply (proj1 (Forall_forall _ _) Hl).
Qed.

(** C26: the committee check accepts a batch exactly when at least [threshold]
    pairwise distinct members of the committee have a valid signature, in one
    of the listed entries, over the message that binds this rollup, batch
    index, pre root, post root and data hash; entries that are repeated, out of
    range or wrongly signed count nothing. *)
Theorem committee_exact rollup_id batch_index pre post data_hash attestors threshold proof b :
  verify_committee_attestation rollup_id batch_index pre post data_hash attestors threshold proof
    = Ok b ->
  (0 < threshold <= length attestors)%nat
  /\ (b = true <-> exists signers, NoDup signers /\ length signers = threshold
        /\ Forall (signed_in
             (committee_attestation_message rollup_id batch_index pre post data_hash)
             attestors proof 0 (read_u32_at proof 0)) signers).
Proof. apply committee_signers. Qed.
End provers.

(** ** Sequencer ([sequencer.rs]) *)

Record L2Transaction : Type := mkL2 {
  l2_sender : bytes;
  l2_nonce : u64;
  l2_data : bytes;
  l2_gas_limit : u64;
}.

Record SequencerConfig : Type := mkSeqConfig {
  sq_rollup_id : RollupId;
  max_pending : usize;
  max_batch_size : usize;
  batch_interval_ms : u64;
}.

Record TransactionBatch : Type := mkBatch {
  tb_rollup_id : RollupId;
  tb_batch_index : u64;
  tb_transactions : list L2Transaction;
  tb_timestamp_ms : u64;
}.

(** The contents of the two mutexes. *)
Record Sequencer : Type := mkSequencer {
  sq_config : SequencerConfig;
  sq_pending : list L2Transaction;
  batch_counter : u64;
}.

Inductive SequencerError : Type := SeqFull | SeqStopped.

Definition seq_default_config : SequencerConfig := mkSeqConfig 1 (Z.to_nat 10000) 100 1000.
Definition seq_new (c : SequencerConfig) : Sequencer := mkSequencer c [] 0.

Definition submit (tx : L2Transaction) (q : Sequencer) : result Sequencer SequencerError :=
  if (max_pending (sq_config q) <=? length (sq_pending q))%nat then Err SeqFull
  else Ok (mkSequencer (sq_config q) (sq_pending q ++ [tx]) (batch_counter q)).

(** [now] is the clock reading of the call. *)
Definition produce_batch (now : u64) (q : Sequencer) : option (Sequencer * TransactionBatch) :=
  match sq_pending q with
  | [] => None
  | _ =>
    let n := Nat.min (max_batch_size (sq_config q)) (length (sq_pending q)) in
    let batch_index := u64_add (batch_counter q) 1 in
    Some (mkSequencer (sq_config q) (drop n (sq_pending q)) batch_index,
          mkBatch (sq_rollup_id (sq_config q)) batch_index (take n (sq_pending q)) now)
  end.

(** A run of the sequencer: submissions and batch requests. The log holds the
    accepted transactions and the batches, in order. *)
Inductive SeqOp : Type := SqSubmit (tx : L2Transaction) | SqProduce (now : u64).

Fixpoint seq_run (ops : list SeqOp) (q : Sequencer) :
    Sequencer * list L2Transaction * list TransactionBatch :=
  match ops with
  | [] => (q, [], [])
  | SqSubmit tx :: ops =>
    match submit tx q with
    | Ok q => let '(q, txs, bs) := seq_run ops q in (q, tx :: txs, bs)
    | Err _ => seq_run ops q
    end
  | SqProduce now :: ops =>
    match produce_batch now q with
    | Some (q, b) => let '(q, txs, bs) := seq_run ops q in (q, txs, b :: bs)
    | None => seq_run ops q
    end
  end.

Lemma seq_run_fifo ops q q' txs bs :
  seq_run ops q = (q', txs, bs) -> 0 <= batch_counter q ->
  batch_counter q + Z.of_nat (length ops) <= u64_max ->
  concat (map tb_transactions bs) ++ sq_pending q' = sq_pending q ++ txs
  /\ map tb_batch_index bs = map (fun i => batch_counter q + 1 + Z.of_nat i) (seq 0 (length bs))
  /\ Forall (fun b => length (tb_transactions b) <= max_batch_size (sq_config q))%nat bs
  /\ (length (sq_pending q) <= max_pending (sq_config q) ->
      length (sq_pending q') <= max_pending (sq_config q))%nat.
Proof.
  revert q q' txs bs. induction ops as [|[tx|now] ops IH]; intros q q' txs bs H H0 Hm; simpl in H, Hm.
  - injection H as <- <- <-. by rewrite app_nil_r.
  - unfold submit in H. destruct (Nat.leb_spec (max_pending (sq_config q)) (length (sq_pending q))) as [Hfull|Hfree].
    { apply (IH q); auto. lia. }
    destruct (seq_run ops _) as [[q1 txs1] bs1] eqn:E. injection H as <- <- <-.
    destruct (IH _ _ _ _ E) as (H1 & H2 & H3 & H4); simpl; [done|lia|]. simpl in *.
    rewrite H1, <- app_assoc. split; [done|]. split; [done|]. split; [done|]. intros _. apply H4.
    rewrite length_app. simpl. lia.
  - unfold produce_batch in H. destruct (sq_pending q) as [|t0 pend] eqn:Ep.
    { rewrite <- Ep. apply (IH q); auto. lia. }
    rewrite <- Ep in H |- *. set (n := Nat.min _ _) in H.
    destruct (seq_run ops _) as [[q1 txs1] bs1] eqn:E. injection H as <- <- <-.
    rewrite u64_add_exact in E by lia.
    destruct (IH _ _ _ _ E) as (H1 & H2 & H3 & H4); simpl; [lia|lia|]. simpl in *.
    rewrite u64_add_exact by lia. split; [|split; [|split]].
    + by rewrite <- app_assoc, H1, app_assoc, take_drop.
    + f_equal; [lia|]. rewrite H2, <- seq_shift, map_map. apply map_ext. intros i. lia.
    + constructor; [cbn [tb_transactions]; rewrite length_take; lia|done].
    + intros Hp. apply H4. rewrite length_drop. lia.
Qed.

(** The sequencer is a queue: along every run from an empty one, the batches
    hold the accepted transactions in the order of submission, none lost and
    none twice, followed by what is still pending; the batches are numbered
    1, 2, 3, ..., and neither a batch nor the queue exceeds its limit. *)
Theorem sequencer_fifo config ops q' txs bs :
  seq_run ops (seq_new config) = (q', txs, bs) -> Z.of_nat (length ops) <= u64_max ->
  concat (map tb_transactions bs) ++ sq_pending q' = txs
  /\ map tb_batch_index bs = map (fun i => 1 + Z.of_nat i) (seq 0 (length bs))
  /\ Forall (fun b => length (tb_transactions b) <= max_batch_size config)%nat bs
  /\ (length (sq_pending q') <= max_pending config)%nat.
Proof.
  intros H Hm. destruct (seq_run_fifo _ _ _ _ _ H) as (H1 & H2 & H3 & H4); simpl in *; [lia|lia|].
  split; [done|]. split; [done|]. split; [done|]. apply H4. lia.
Qed.

(** ** Batch publisher ([batch.rs]) *)

Record BatchCommitment : Type := mkCommitment {
  bc_rollup_id : RollupId;
  bc_batch_index : u64;
  bc_state_root : Hash;
  bc_data_hash : Hash;
  bc_proof : bytes;
}.

Definition compress_batch `{!Codec (list L2Transaction)} (b : TransactionBatch) :
    result bytes string :=
  match ser (tb_transactions b) with
  | Some data => Ok data
  | None => Err ("serialization failed: " +:+ ser_error (tb_transactions b))
  end.

Definition prepare_commitment `{!Codec (list L2Transaction)} (blake3 : bytes -> Hash)
    (rollup_id : RollupId) (b : TransactionBatch) (post_state_root : Hash) (proof : bytes) :
    result BatchCommitment string :=
  let! batch_data := compress_batch b in
  Ok (mkCommitment rollup_id (tb_batch_index b) post_state_root (blake3 batch_data) proof).

(** ** Cross-domain messenger ([messenger.rs]) *)

Inductive MessageStatus : Type := MPending | MExecuted | MExpired | MFailed.

#[export] Instance MessageStatus_eq_dec : EqDecision MessageStatus.
Proof. solve_decision. Defined.

Inductive MessengerError : Type :=
| DuplicateNonce (n : u64) | MsgExpired (block : u64) | MsgNotFound | AlreadyExecuted.

Record MessageReceipt : Type := mkMessage {
  m_id : u64;
  m_source : RollupId;
  m_destination : RollupId;
  m_nonce : u64;
  m_sender : bytes;
  m_payload : bytes;
  m_payload_hash : Hash;
  m_timeout_block : u64;
  m_proof_reference : Hash;
  m_status : MessageStatus;
}.

Record Messenger : Type := mkMessenger {
  messages : list MessageReceipt;
  nonces : gmap (RollupId * RollupId) u64;
  m_next_id : u64;
}.

Definition set_m_status (st : MessageStatus) (m : MessageReceipt) : MessageReceipt :=
  mkMessage (m_id m) (m_source m) (m_destination m) (m_nonce m) (m_sender m) (m_payload m)
    (m_payload_hash m) (m_timeout_block m) (m_proof_reference m) st.

Definition messenger_new : Messenger := mkMessenger [] ∅ 0.

Definition send_message (blake3 : bytes -> Hash) (source destination : RollupId) (sender payload : bytes)
    (timeout_block : u64) (c : Messenger) : Messenger * u64 :=
  let current_nonce := default 0 (nonces c !! (source, destination)) in
  let id := m_next_id c in
  (mkMessenger
     (messages c ++ [mkMessage id source destination current_nonce sender payload (blake3 payload)
                       timeout_block zero_hash MPending])
     (<[(source, destination) := u64_add current_nonce 1]> (nonces c)) (u64_add id 1), id).

Definition has_m_id (id : u64) (m : MessageReceipt) : bool := m_id m =? id.

(** An expired message is marked also when the call fails, so the state comes
    back in both cases. *)
Definition execute_message (message_id current_block : u64) (c : Messenger) :
    Messenger * result MessageReceipt MessengerError :=
  let mark st := mkMessenger (update_first (has_m_id message_id) (set_m_status st) (messages c))
                   (nonces c) (m_next_id c) in
  match List.find (has_m_id message_id) (messages c) with
  | None => (c, Err MsgNotFound)
  | Some msg =>
    if bool_decide (m_status msg = MExecuted) then (c, Err AlreadyExecuted)
    else if m_timeout_block msg <? current_block
    then (mark MExpired, Err (MsgExpired (m_timeout_block msg)))
    else (mark MExecuted, Ok (set_m_status MExecuted msg))
  end.

Definition pending_for_destination (d : RollupId) (c : Messenger) : list MessageReceipt :=
  List.filter (fun m => (m_destination m =? d) && bool_decide (m_status m = MPending)) (messages c).

Definition past_timeout (current_block : u64) (m : MessageReceipt) : bool :=
  bool_decide (m_status m = MPending) && (m_timeout_block m <? current_block).

Definition expire_messages (current_block : u64) (c : Messenger) : Messenger * usize :=
  (mkMessenger (map (fun m => if past_timeout current_block m then set_m_status MExpired m else m)
                  (messages c)) (nonces c) (m_next_id c),
   length (List.filter (past_timeout current_block) (messages c))).

(** ** Replay protection *)

Inductive messenger_step (blake3 : bytes -> Hash) : Messenger -> Messenger -> Prop :=
| ms_send src dst who p t c :
    m_next_id c < u64_max -> default 0 (nonces c !! (src, dst)) < u64_max ->
    messenger_step blake3 c (fst (send_message blake3 src dst who p t c))
| ms_execute id b c : messenger_step blake3 c (fst (execute_message id b c))
| ms_expire b c : messenger_step blake3 c (fst (expire_messages b c)).

Definition route (m : MessageReceipt) : RollupId * RollupId * u64 :=
  (m_source m, m_destination m, m_nonce m).

Record messenger_wf (c : Messenger) : Prop := {
  mw_ids : NoDup (map m_id (messages c));
  mw_routes : NoDup (map route (messages c));
  mw_next : 0 <= m_next_id c;
  mw_below : Forall (fun m => 0 <= m_id m < m_next_id c) (messages c);
  mw_counters : forall r n, nonces c !! r = Some n -> 0 <= n;
  mw_nonces : Forall (fun m => 0 <= m_nonce m
    < default 0 (nonces c !! (m_source m, m_destination m))) (messages c);
}.

Lemma messenger_new_wf : messenger_wf messenger_new.
Proof. split; simpl; try constructor; try lia. intros r n H. by rewrite lookup_empty in H. Qed.

(** Changing statuses keeps the invariant. *)
Lemma messenger_relabel_wf c l :
  messenger_wf c -> map m_id l = map m_id (messages c) -> map route l = map route (messages c) ->
  messenger_wf (mkMessenger l (nonces c) (m_next_id c)).
Proof.
  intros [] Hi Hr. split; simpl; rewrite ?Hi, ?Hr; auto.
  - apply Forall_forall. intros m Hm. assert (Hx : m_id m ∈ map m_id (messages c))
      by (rewrite <- Hi; by apply list_elem_of_fmap_2).
    apply list_elem_of_fmap in Hx as (y & -> & Hy). by apply (proj1 (Forall_forall _ _) mw_below0).
  - apply Forall_forall. intros m Hm. assert (Hx : route m ∈ map route (messages c))
      by (rewrite <- Hr; by apply list_elem_of_fmap_2).
    apply list_elem_of_fmap in Hx as (y & [= -> -> ->] & Hy).
    by apply (proj1 (Forall_forall _ _) mw_nonces0).
Qed.

Lemma messenger_send_wf blake3 src dst who p t c :
  messenger_wf c -> m_next_id c < u64_max -> default 0 (nonces c !! (src, dst)) < u64_max ->
  messenger_wf (fst (send_message blake3 src dst who p t c)).
Proof.
  intros [] Hid Hn. unfold send_message. cbv zeta. set (n := default 0 _) in *.
  assert (Hn0 : 0 <= n).
  { unfold n. destruct (nonces c !! (src, dst)) eqn:E; simpl; [by eapply mw_counters0|lia]. }
  rewrite !u64_add_exact by lia. split; simpl.
  - rewrite map_app. apply NoDup_app. split; [done|]. split; [|apply NoDup_singleton].
    intros x (m & -> & Hm)%list_elem_of_fmap Hx%list_elem_of_singleton. simpl in Hx.
    pose proof (proj1 (Forall_forall _ _) mw_below0 m Hm) as Hb. simpl in Hb. lia.
  - rewrite map_app. apply NoDup_app. split; [done|]. split; [|apply NoDup_singleton].
    intros x (m & -> & Hm)%list_elem_of_fmap Hx%list_elem_of_singleton. injection Hx as Hs Hd Hx.
    pose proof (proj1 (Forall_forall _ _) mw_nonces0 m Hm) as Hb. simpl in Hb.
    rewrite Hs, Hd in Hb. fold n in Hb. lia.
  - lia.
  - apply Forall_app. split; [|constructor; [simpl; lia|done]].
    eapply Forall_impl; [exact mw_below0|]. simpl. intros m Hm. lia.
  - intros r k. rewrite lookup_insert. case_decide; [intros [= <-]; lia|apply mw_counters0].
  - apply Forall_app. split.
    + eapply Forall_impl; [exact mw_nonces0|]. simpl. intros m Hm. rewrite lookup_insert.
      case_decide as Hd; [|done]. rewrite <- Hd in Hm. fold n in Hm. simpl. lia.
    + constructor; [|done]. simpl. rewrite lookup_insert, decide_True by done. simpl. lia.
Qed.

Lemma messenger_step_wf blake3 c c' : messenger_step blake3 c c' -> messenger_wf c -> messenger_wf c'.
Proof.
  intros [src dst who p t c1|id b c1|b c1] Hc; [by apply messenger_send_wf| |].
  - unfold execute_message. destruct (List.find _ _) as [m|]; [|done].
    case_bool_decide; [done|]. destruct (_ <? _); apply messenger_relabel_wf; auto;
      by rewrite update_first_map.
  - apply messenger_relabel_wf; auto; rewrite map_map; apply map_ext; intros m;
      by destruct (past_timeout b m).
Qed.

Lemma messenger_reach_wf blake3 c : rtc (messenger_step blake3) messenger_new c -> messenger_wf c.
Proof.
  intros H. pose proof messenger_new_wf as Hw. revert Hw.
  induction H; eauto using messenger_step_wf.
Qed.

Definition executed (id : u64) (c : Messenger) : Prop :=
  exists m, List.find (has_m_id id) (messages c) = Some m /\ m_status m = MExecuted.

(** Once executed, a message stays executed. *)
Lemma executed_stays blake3 id c c' : messenger_step blake3 c c' -> executed id c -> executed id c'.
Proof.
  intros [src dst who p t c1|id' b c1|b c1] (m & Hf & He).
  - exists m. split; [|done]. by apply find_app_l.
  - destruct (decide (id' = id)) as [->|Hne].
    { unfold execute_message. rewrite Hf, bool_decide_true by done. by exists m. }
    unfold execute_message. destruct (List.find (has_m_id id') _); [|by exists m].
    case_bool_decide; [by exists m|].
    assert (Hother : forall st, List.find (has_m_id id)
      (update_first (has_m_id id') (set_m_status st) (messages c1)) = Some m).
    { intros st. rewrite find_update_first_other; auto.
      intros x Hx%Z.eqb_eq. apply Z.eqb_neq. congruence. }
    destruct (_ <? _); exists m; (split; [apply Hother|done]).
  - exists m. split; [|done]. simpl. rewrite find_map_same, Hf; simpl.
    + unfold past_timeout. by rewrite He.
    + intros x. by destruct (past_timeout b x).
Qed.

(** No message is executed twice and no two messages of a route carry the same
    nonce: in every state reached by sends, executions and expirations, message
    identifiers are pairwise distinct, so are the nonces of each
    source-destination pair, and once a message has been executed every later
    execution of it fails, whatever happens in between. *)
Theorem messenger_no_replay blake3 c id block c1 m c2 block2 :
  rtc (messenger_step blake3) messenger_new c ->
  execute_message id block c = (c1, Ok m) -> rtc (messenger_step blake3) c1 c2 ->
  block <= m_timeout_block m
  /\ NoDup (map route (messages c2)) /\ NoDup (map m_id (messages c2))
  /\ execute_message id block2 c2 = (c2, Err AlreadyExecuted).
Proof.
  intros Hreach Hex Hrest. pose proof (messenger_reach_wf _ _ Hreach) as Hc.
  assert (Hstep : messenger_step blake3 c c1).
  { pose proof (ms_execute blake3 id block c) as H. by rewrite Hex in H. }
  assert (Hc2 : messenger_wf c2).
  { apply (messenger_reach_wf blake3). etrans; [exact Hreach|]. eapply rtc_l; eauto. }
  unfold execute_message in Hex. destruct (List.find _ _) as [q|] eqn:Ef; [|done].
  case_bool_decide; [done|]. destruct (Z.ltb_spec (m_timeout_block q) block); [done|].
  injection Hex as <- <-. split; [done|]. split; [apply Hc2|]. split; [apply Hc2|].
  assert (He : executed id c2).
  { assert (H1 : executed id (mkMessenger (update_first (has_m_id id) (set_m_status MExecuted)
      (messages c)) (nonces c) (m_next_id c))).
    { exists (set_m_status MExecuted q). simpl. by rewrite find_update_first, Ef. }
    clear - Hrest H1. induction Hrest; eauto using executed_stays. }
  destruct He as (x & Hx & Hst). unfold execute_message. by rewrite Hx, bool_decide_true.
Qed.

(** ** Relayer ([relayer.rs]) *)

Inductive RelayerEvent : Type :=
| RDeposit (rollup_id : RollupId) (recipient : bytes) (amount : u128) (l1_block : u64)
| RWithdrawalFinalized (rollup_id : RollupId) (withdrawal_id l1_block : u64)
| RBatchPublished (rollup_id : RollupId) (batch_index : u64) (state_root : bytes).

Record BridgeRelayer : Type := mkRelayer {
  rel_rollup_id : RollupId;
  rel_events : list RelayerEvent;
  last_processed_l1_block : u64;
}.

Definition process_event (e : RelayerEvent) (r : BridgeRelayer) : BridgeRelayer :=
  mkRelayer (rel_rollup_id r) (rel_events r ++ [e]) (last_processed_l1_block r).
Definition drain_events (r : BridgeRelayer) : BridgeRelayer * list RelayerEvent :=
  (mkRelayer (rel_rollup_id r) [] (last_processed_l1_block r), rel_events r).
Definition set_last_processed (block : u64) (r : BridgeRelayer) : BridgeRelayer :=
  mkRelayer (rel_rollup_id r) (rel_events r) block.

(** ** Examples *)

(** Two of three attestors sign; the stand-in scheme accepts a signature that
    repeats the first byte of the key. *)
Definition toy_verify (key msg sig : bytes) : bool := bytes_eqb (take 1 sig) (take 1 key).
Definition toy_attestors : list bytes := [demo_key 1; demo_key 2; demo_key 3].
Definition toy_proof : bytes :=
  le_bytes 4 3 ++ le_bytes 4 0 ++ replicate 64 1 ++ le_bytes 4 0 ++ replicate 64 1
  ++ le_bytes 4 2 ++ replicate 64 3.

Lemma committee_exact_witness :
  verify_committee_attestation toy_verify 1 0 zero_hash (demo_key 9) (demo_key 8) toy_attestors 2
    toy_proof = Ok true
  /\ (0 < 2 <= 3)%nat
  /\ exists signers, NoDup signers /\ length signers = 2%nat
     /\ Forall (signed_in toy_verify (committee_attestation_message 1 0 zero_hash (demo_key 9)
          (demo_key 8)) toy_attestors toy_proof 0 (read_u32_at toy_proof 0)) signers.
Proof.
  assert (H : verify_committee_attestation toy_verify 1 0 zero_hash (demo_key 9) (demo_key 8)
    toy_attestors 2 toy_proof = Ok true) by (vm_compute; reflexivity).
  split; [exact H|]. destruct (committee_exact toy_verify 1 0 zero_hash (demo_key 9) (demo_key 8) toy_attestors 2
    toy_proof true H) as [Hb Hi].
  split; [exact Hb|]. exact (proj1 Hi eq_refl).
Defined.

Definition toy_tx (n : Z) : L2Transaction := mkL2 (demo_key 1) n [] 100.
Definition toy_seq_ops : list SeqOp :=
  [SqSubmit (toy_tx 0); SqSubmit (toy_tx 1); SqProduce 5; SqSubmit (toy_tx 2); SqProduce 6].

Lemma sequencer_fifo_witness :
  exists q' txs bs, seq_run toy_seq_ops (seq_new (mkSeqConfig 1 2 1 1000)) = (q', txs, bs)
    /\ concat (map tb_transactions bs) ++ sq_pending q' = [toy_tx 0; toy_tx 1; toy_tx 2]
    /\ map tb_batch_index bs = [1; 2].
Proof.
  destruct (seq_run toy_seq_ops (seq_new (mkSeqConfig 1 2 1 1000))) as [[q' txs] bs] eqn:E.
  exists q', txs, bs. split; [reflexivity|].
  destruct (sequencer_fifo _ _ _ _ _ E) as (H1 & H2 & _); [by vm_compute|].
  rewrite H1, H2. vm_compute in E. injection E as _ <- <-. by vm_compute.
Defined.

Lemma messenger_no_replay_witness :
  let c := fst (send_message (fun b => b) 1 2 (demo_key 3) [7] 50 messenger_new) in
  exists c1 m, execute_message 0 40 c = (c1, Ok m)
    /\ execute_message 0 41 c1 = (c1, Err AlreadyExecuted).
Proof.
  intros c. destruct (execute_message 0 40 c) as [c1 [m|]] eqn:E; [|vm_compute in E; discriminate E].
  exists c1, m. split; [reflexivity|].
  apply (messenger_no_replay (fun b => b) c 0 40 c1 m c1 41).
  - eapply rtc_once, ms_send; by vm_compute.
  - exact E.
  - apply rtc_refl.
Defined.
