(* ===== verification/Codec.v ===== *)
(** A concrete serialisation with the round trip law, built from small
    combinators on lists of integers. The system uses [borsh] and
    [serde_json]; this one shows that the laws the development assumes of them
    can hold, and lets the closed examples run. *)

From S2P Require Import Prelude Types Store Staking Governance Vesting Guardian Bridge Treasury.
Open Scope Z_scope.

Class Enc (A : Type) : Type := {
  put : A -> list Z;
  get : list Z -> option (A * list Z);
}.
Class EncLaws (A : Type) `{!Enc A} : Prop := {
  get_put : forall a r, get (put a ++ r) = Some (a, r);
}.

Definition enc_codec (A : Type) `{!Enc A} : Codec A := {|
  ser a := Some (put a);
  de b := match get b with Some (a, []) => Some a | _ => None end;
  ser_error _ := "serialise"%string;
  de_error _ := "parse"%string;
|}.

Lemma enc_codec_laws A `{!Enc A} `{!EncLaws A} : @CodecLaws A (enc_codec A).
Proof.
  split. intros a. exists (put a). split; [done|]. simpl.
  pose proof (get_put a []) as H. rewrite app_nil_r in H. by rewrite H.
Qed.

(** ** Base types *)

#[export] Instance enc_Z : Enc Z := {|
  put z := [z]; get l := match l with z :: r => Some (z, r) | [] => None end |}.
#[export] Instance enc_Z_laws : EncLaws Z.
Proof. by split. Qed.

(** Through an injection with a partial inverse. *)
Definition enc_via {A B} `{!Enc B} (f : A -> B) (g : B -> option A) : Enc A := {|
  put a := put (f a);
  get l := match get l with
           | Some (b, r) => match g b with Some a => Some (a, r) | None => None end
           | None => None
           end |}.
Lemma enc_via_laws {A B} `{!Enc B} `{!EncLaws B} (f : A -> B) (g : B -> option A) :
  (forall a, g (f a) = Some a) -> @EncLaws A (enc_via f g).
Proof. intros H. split. intros a r. simpl. by rewrite get_put, H. Qed.

#[export] Instance enc_pair {A B} `{!Enc A, !Enc B} : Enc (A * B) := {|
  put p := put (fst p) ++ put (snd p);
  get l := match get l with
           | Some (a, r) => match get r with Some (b, r') => Some ((a, b), r') | None => None end
           | None => None
           end |}.
#[export] Instance enc_pair_laws {A B} `{!Enc A, !EncLaws A, !Enc B, !EncLaws B} : EncLaws (A * B).
Proof. split. intros [a b] r. simpl. by rewrite <- app_assoc, !get_put. Qed.

#[export] Instance enc_sum {A B} `{!Enc A, !Enc B} : Enc (A + B) := {|
  put x := match x with inl a => 0 :: put a | inr b => 1 :: put b end;
  get l := match l with
           | 0 :: r => match get r with Some (a, r') => Some (inl a, r') | None => None end
           | 1 :: r => match get r with Some (b, r') => Some (inr b, r') | None => None end
           | _ => None
           end |}.
#[export] Instance enc_sum_laws {A B} `{!Enc A, !EncLaws A, !Enc B, !EncLaws B} : EncLaws (A + B).
Proof. split. intros [a|b] r; simpl; by rewrite get_put. Qed.

#[export] Instance enc_unit : Enc unit := {| put _ := []; get l := Some (tt, l) |}.
#[export] Instance enc_unit_laws : EncLaws unit.
Proof. split. by intros []. Qed.

Definition opt_sum {A} (o : option A) : unit + A :=
  match o with None => inl tt | Some a => inr a end.
Definition sum_opt {A} (x : unit + A) : option (option A) :=
  Some (match x with inl _ => None | inr a => Some a end).
#[export] Instance enc_option {A} `{!Enc A} : Enc (option A) := enc_via opt_sum sum_opt.
#[export] Instance enc_option_laws {A} `{!Enc A, !EncLaws A} : EncLaws (option A).
Proof. apply enc_via_laws. by intros []. Qed.

#[export] Instance enc_bool : Enc bool :=
  enc_via (fun b : bool => if b then 1 else 0) (fun z => Some (z =? 1)).
#[export] Instance enc_bool_laws : EncLaws bool.
Proof. apply enc_via_laws. by intros []. Qed.

#[export] Instance enc_nat : Enc nat := enc_via Z.of_nat (fun z => Some (Z.to_nat z)).
#[export] Instance enc_nat_laws : EncLaws nat.
Proof. apply enc_via_laws. intros n. by rewrite Nat2Z.id. Qed.

(** ** Lists, with their length first *)

Fixpoint get_n {A} `{!Enc A} (n : nat) (l : list Z) : option (list A * list Z) :=
  match n with
  | O => Some ([], l)
  | S n => match get l with
           | Some (a, r) => match get_n n r with Some (xs, r') => Some (a :: xs, r') | None => None end
           | None => None
           end
  end.

#[export] Instance enc_list {A} `{!Enc A} : Enc (list A) := {|
  put xs := Z.of_nat (length xs) :: concat (map put xs);
  get l := match l with n :: r => get_n (Z.to_nat n) r | [] => None end |}.
#[export] Instance enc_list_laws {A} `{!Enc A, !EncLaws A} : EncLaws (list A).
Proof.
  split. intros xs r. simpl. rewrite Nat2Z.id.
  induction xs as [|x xs IH]; simpl; [done|]. by rewrite <- app_assoc, get_put, IH.
Qed.

#[export] Instance enc_ascii : Enc Ascii.ascii :=
  enc_via (fun c => Z.of_nat (Ascii.nat_of_ascii c)) (fun z => Some (Ascii.ascii_of_nat (Z.to_nat z))).
#[export] Instance enc_ascii_laws : EncLaws Ascii.ascii.
Proof. apply enc_via_laws. intros c. by rewrite Nat2Z.id, Ascii.ascii_nat_embedding. Qed.

#[export] Instance enc_string : Enc string :=
  enc_via String.list_ascii_of_string (fun l => Some (String.string_of_list_ascii l)).
#[export] Instance enc_string_laws : EncLaws string.
Proof. apply enc_via_laws. intros s. by rewrite String.string_of_list_ascii_of_string. Qed.

(** ** Records and enumerations of the development *)

(** Tags an enumeration's constructor and encodes its fields as a tuple. *)
Ltac enc_enum := apply enc_via_laws; by intros [].

#[export] Instance enc_AuthMethod : Enc AuthMethod := enc_via
  (fun m => match m with
   | Passkey c x y r o => inl (inl (inl (c, x, y, r, o)))
   | Ed25519 k => inl (inl (inr k))
   | Threshold s t => inl (inr (inl (s, t)))
   | Guardian g => inl (inr (inr g))
   | Session k e l b ts ms r => inr (inl (k, e, l, b, ts, ms, r))
   | MlDsa k => inr (inr (inl k))
   | Hybrid a b => inr (inr (inr (a, b)))
   end)
  (fun x : ((bytes * bytes * bytes * string * list string) + bytes + (list bytes * Z + bytes))
         + ((bytes * Z * Z * Z * list bytes * list string * bool) + (bytes + (bytes * bytes))) =>
   Some (match x with
   | inl (inl (inl (c, x, y, r, o))) => Passkey c x y r o
   | inl (inl (inr k)) => Ed25519 k
   | inl (inr (inl (s, t))) => Threshold s t
   | inl (inr (inr g)) => Guardian g
   | inr (inl (k, e, l, b, ts, ms, r)) => Session k e l b ts ms r
   | inr (inr (inl k)) => MlDsa k
   | inr (inr (inr (a, b))) => Hybrid a b
   end)).
#[export] Instance enc_AuthMethod_laws : EncLaws AuthMethod.
Proof. enc_enum. Qed.

#[export] Instance enc_Account : Enc Account := enc_via
  (fun a => (acc_id a, code_hash a, auth_methods a, nonce a, balance a))
  (fun '(i, c, m, n, b) => Some (mkAccount i c m n b)).
#[export] Instance enc_Account_laws : EncLaws Account.
Proof. enc_enum. Qed.

#[export] Instance enc_Delegation : Enc Delegation := enc_via
  (fun d => (d_delegator d, d_validator d, d_amount d, d_reward_debt d, d_eligible_from_epoch d))
  (fun '(a, b, c, d, e) => Some (mkDelegation a b c d e)).
#[export] Instance enc_Delegation_laws : EncLaws Delegation.
Proof. enc_enum. Qed.

#[export] Instance enc_Undelegation : Enc Undelegation := enc_via
  (fun u => (u_delegator u, u_validator u, u_amount u, u_unlock_epoch u))
  (fun '(a, b, c, d) => Some (mkUndelegation a b c d)).
#[export] Instance enc_Undelegation_laws : EncLaws Undelegation.
Proof. enc_enum. Qed.

#[export] Instance enc_StakingValidator : Enc StakingValidator := enc_via
  (fun v => (sv_id v, self_stake v, Staking.total_delegated v, accumulated_reward_per_token v,
             is_active v, is_genesis v, genesis_lock_until v, commission_rate_bps v,
             sv_eligible_from_epoch v, pending_new_key v, key_rotation_epoch v))
  (fun '(a, b, c, d, e, f, g, h, i, j, k) => Some (mkStakingValidator a b c d e f g h i j k)).
#[export] Instance enc_StakingValidator_laws : EncLaws StakingValidator.
Proof. enc_enum. Qed.

#[export] Instance enc_StakingContract : Enc StakingContract := enc_via
  (fun c => (validators c, delegations c, undelegations c, min_validator_stake c, unbonding_period c))
  (fun '(a, b, c, d, e) => Some (mkStakingContract a b c d e)).
#[export] Instance enc_StakingContract_laws : EncLaws StakingContract.
Proof. enc_enum. Qed.

#[export] Instance enc_ProposalAction : Enc ProposalAction := enc_via
  (fun a : ProposalAction => match a with
   | SetBaseFee n => (0, n, [] : bytes, ""%string)
   | SetBlockTime n => (1, n, [], ""%string)
   | SetMaxOpsPerBlock n => (2, n, [], ""%string)
   | RegisterRollup n s => (3, n, [], s)
   | SetBurnRate n => (4, n, [], ""%string)
   | SetEpochReward n => (5, n, [], ""%string)
   | SetMinValidatorStake n => (6, n, [], ""%string)
   | SetUnbondingPeriod n => (7, n, [], ""%string)
   | EmergencyPause => (8, 0, [], ""%string)
   | EmergencyResume => (9, 0, [], ""%string)
   | SetBridgeRelayer b => (10, 0, b, ""%string)
   | SetVestingAdmin b => (11, 0, b, ""%string)
   | MigrateTeamPoolToVesting => (12, 0, [], ""%string)
   | SetGovernanceVotingPeriod n => (13, n, [], ""%string)
   end)
  (fun '(t, n, b, s) => Some (match t with
   | 0 => SetBaseFee n | 1 => SetBlockTime n | 2 => SetMaxOpsPerBlock n
   | 3 => RegisterRollup n s | 4 => SetBurnRate n | 5 => SetEpochReward n
   | 6 => SetMinValidatorStake n | 7 => SetUnbondingPeriod n | 8 => EmergencyPause
   | 9 => EmergencyResume | 10 => SetBridgeRelayer b | 11 => SetVestingAdmin b
   | 12 => MigrateTeamPoolToVesting | _ => SetGovernanceVotingPeriod n
   end)).
#[export] Instance enc_ProposalAction_laws : EncLaws ProposalAction.
Proof. enc_enum. Qed.

#[export] Instance enc_ProposalStatus : Enc ProposalStatus := enc_via
  (fun s => match s with Active => 0 | Passed => 1 | Rejected => 2 | Executed => 3 | Expired => 4 end)
  (fun z => Some (match z with 0 => Active | 1 => Passed | 2 => Rejected | 3 => Executed | _ => Expired end)).
#[export] Instance enc_ProposalStatus_laws : EncLaws ProposalStatus.
Proof. enc_enum. Qed.

#[export] Instance enc_Vote : Enc Vote := enc_via
  (fun v => (voter v, support v, stake_weight v)) (fun '(a, b, c) => Some (mkVote a b c)).
#[export] Instance enc_Vote_laws : EncLaws Vote.
Proof. enc_enum. Qed.

#[export] Instance enc_Proposal : Enc Proposal := enc_via
  (fun p => (p_id p, proposer p, p_action p, p_description p, created_epoch p,
     voting_end_epoch p, execute_after_epoch p, p_status p, votes p, total_for p,
     total_against p, p_deposit p))
  (fun '(a, b, c, d, e, f, g, h, i, j, k, l) => Some (mkProposal a b c d e f g h i j k l)).
#[export] Instance enc_Proposal_laws : EncLaws Proposal.
Proof. enc_enum. Qed.

#[export] Instance enc_Governance : Enc GovernanceContract := enc_via
  (fun c => (proposals c, next_proposal_id c, is_paused c, voting_period c))
  (fun '(a, b, c, d) => Some (mkGovernance a b c d)).
#[export] Instance enc_Governance_laws : EncLaws GovernanceContract.
Proof. enc_enum. Qed.

#[export] Instance enc_VestingType : Enc VestingType := enc_via
  (fun t => match t with
   | Team => (0, 0, 0) | Investor => (1, 0, 0) | Validator => (2, 0, 0) | Custom a b => (3, a, b)
   end)
  (fun '(t, a, b) => Some (match t with
   | 0 => Team | 1 => Investor | 2 => Validator | _ => Custom a b
   end)).
#[export] Instance enc_VestingType_laws : EncLaws VestingType.
Proof. enc_enum. Qed.

#[export] Instance enc_VestingSchedule : Enc VestingSchedule := enc_via
  (fun s => (recipient s, total_amount s, claimed s, vesting_type s, start_epoch s))
  (fun '(a, b, c, d, e) => Some (mkSchedule a b c d e)).
#[export] Instance enc_VestingSchedule_laws : EncLaws VestingSchedule.
Proof. enc_enum. Qed.

#[export] Instance enc_Vesting : Enc VestingContract := enc_via
  (fun c => (schedules c, vesting_admin c)) (fun '(a, b) => Some (mkVesting a b)).
#[export] Instance enc_Vesting_laws : EncLaws VestingContract.
Proof. enc_enum. Qed.

#[export] Instance enc_RecoveryStatus : Enc RecoveryStatus := enc_via
  (fun s => match s with RPending => 0 | RCancelled => 1 | RExecuted => 2 end)
  (fun z => Some (match z with 0 => RPending | 1 => RCancelled | _ => RExecuted end)).
#[export] Instance enc_RecoveryStatus_laws : EncLaws RecoveryStatus.
Proof. enc_enum. Qed.

#[export] Instance enc_RecoveryRequest : Enc RecoveryRequest := enc_via
  (fun r => (rr_id r, target_account r, new_auth_methods r, initiated_at r, execute_after r,
     confirmations r, guardian_ids r, rr_threshold r, rr_status r))
  (fun '(a, b, c, d, e, f, g, h, i) => Some (mkRecovery a b c d e f g h i)).
#[export] Instance enc_RecoveryRequest_laws : EncLaws RecoveryRequest.
Proof. enc_enum. Qed.

#[export] Instance enc_Guardian : Enc GuardianContract := enc_via
  (fun c => (recovery_requests c, next_id c)) (fun '(a, b) => Some (mkGuardian a b)).
#[export] Instance enc_Guardian_laws : EncLaws GuardianContract.
Proof. enc_enum. Qed.

#[export] Instance enc_WithdrawalStatus : Enc WithdrawalStatus := enc_via
  (fun s => match s with WPending => 0 | WDisputed => 1 | WFinalized => 2 end)
  (fun z => Some (match z with 0 => WPending | 1 => WDisputed | _ => WFinalized end)).
#[export] Instance enc_WithdrawalStatus_laws : EncLaws WithdrawalStatus.
Proof. enc_enum. Qed.

#[export] Instance enc_Withdrawal : Enc PendingWithdrawal := enc_via
  (fun w => (w_id w, w_rollup_id w, w_recipient w, w_amount w, w_initiated_block w,
     w_finalize_after_block w, w_proof_hash w, w_status w, w_disputer w, w_dispute_bond w))
  (fun '(a, b, c, d, e, f, g, h, i, j) => Some (mkWithdrawal a b c d e f g h i j)).
#[export] Instance enc_Withdrawal_laws : EncLaws PendingWithdrawal.
Proof. enc_enum. Qed.

#[export] Instance enc_Vault : Enc BridgeVault := enc_via
  (fun v => (v_rollup_id v, v_balance v, Bridge.total_deposited v, total_withdrawn v,
     challenge_window v, withdrawal_delay v))
  (fun '(a, b, c, d, e, f) => Some (mkVault a b c d e f)).
#[export] Instance enc_Vault_laws : EncLaws BridgeVault.
Proof. enc_enum. Qed.

#[export] Instance enc_Rollup : Enc RegisteredRollup := enc_via
  (fun r => (rl_rollup_id r, rl_name r, rl_proof_type r, rl_sequencer r,
     rl_genesis_state_root r, rl_registered_at_height r))
  (fun '(a, b, c, d, e, f) => Some (mkRollup a b c d e f)).
#[export] Instance enc_Rollup_laws : EncLaws RegisteredRollup.
Proof. enc_enum. Qed.

#[export] Instance enc_Bridge : Enc BridgeContract := enc_via
  (fun c => (vaults c, pending_withdrawals c, registered_rollups c, next_withdrawal_id c))
  (fun '(a, b, c, d) => Some (mkBridge a b c d)).
#[export] Instance enc_Bridge_laws : EncLaws BridgeContract.
Proof. enc_enum. Qed.

#[export] Instance enc_Randomness : Enc EpochRandomness := enc_via
  (fun r => (er_acc r, er_seed r)) (fun '(a, b) => Some (mkRandomness a b)).
#[export] Instance enc_Randomness_laws : EncLaws EpochRandomness.
Proof. enc_enum. Qed.

#[export] Instance enc_Grant : Enc Grant := enc_via
  (fun g => (g_id g, g_recipient g, g_amount g, g_description g, g_disbursed g))
  (fun '(a, b, c, d, e) => Some (mkGrant a b c d e)).
#[export] Instance enc_Grant_laws : EncLaws Grant.
Proof. enc_enum. Qed.

#[export] Instance enc_Treasury : Enc TreasuryContract := enc_via
  (fun c => (t_balance c, total_fees_collected c, total_burned c, total_grants_disbursed c,
             grants c, next_grant_id c))
  (fun '(a, b, c, d, e, f) => Some (mkTreasury a b c d e f)).
#[export] Instance enc_Treasury_laws : EncLaws TreasuryContract.
Proof. enc_enum. Qed.

#[export] Instance enc_Action : Enc Action := enc_via
  (fun a => match a with
   | Transfer t n => inl (t, n)
   | Call t m b => inr (inl (t, m, b))
   | Deploy c x => inr (inr (inl (c, x)))
   | SetAuth l => inr (inr (inr l))
   end)
  (fun x : (list Z * Z) + ((list Z * string * list Z) + ((list Z * list Z) + list AuthMethod)) =>
   match x with
   | inl (t, n) => Some (Transfer t n)
   | inr (inl (t, m, b)) => Some (Call t m b)
   | inr (inr (inl (c, x))) => Some (Deploy c x)
   | inr (inr (inr l)) => Some (SetAuth l)
   end).
#[export] Instance enc_Action_laws : EncLaws Action.
Proof. enc_enum. Qed.
