(* ===== verification/State.v ===== *)
(** Account state ([crates/solen-execution/src/state.rs]): loading and saving
    accounts, transfers, nonces, bytecode and contract storage, on any store.

    A [StateManager] only borrows a store, so its methods take the store and,
    where they write, return the store they leave. [transfer] can fail after
    its first write: it returns the store in both cases. *)

From S2P Require Import Prelude Types Store Memory Codec.
Open Scope Z_scope.

Inductive StateError : Type :=
| AccountNotFound (what : string)
| InsufficientFunds (have need : u128)
| InvalidNonce (expected got : u64)
| Serialization (what : string).

(** The [Display] texts. *)
Definition state_error_msg (e : StateError) : string :=
  match e with
  | AccountNotFound w => "account not found: " +:+ w
  | InsufficientFunds h n =>
      "insufficient balance: have " +:+ pretty h +:+ ", need " +:+ pretty n
  | InvalidNonce e g => "invalid nonce: expected " +:+ pretty e +:+ ", got " +:+ pretty g
  | Serialization w => "serialization error: " +:+ w
  end.

Definition ACC_PREFIX : bytes := Eval vm_compute in bytes_of_string "acc/".
Definition CODE_PREFIX : bytes := Eval vm_compute in bytes_of_string "code/".
Definition CS_PREFIX : bytes := Eval vm_compute in bytes_of_string "cs/".
Definition CHAIN_META_KEY : bytes := Eval vm_compute in bytes_of_string "__chain_meta__".
Definition KEYS_MANIFEST : bytes := Eval vm_compute in bytes_of_string "__keys__".

Definition account_key (id : AccountId) : bytes := ACC_PREFIX ++ id.
Definition bytecode_key (h : Hash) : bytes := CODE_PREFIX ++ h.
Definition contract_storage_prefix (id : AccountId) : bytes := CS_PREFIX ++ id ++ [47].
Definition contract_storage_key (id : AccountId) (key : bytes) : bytes :=
  CS_PREFIX ++ id ++ [47] ++ key.

Section state.
Context {S : Type} `{!StateStore S} `{!Codec Account}.

Definition load_account (s : S) (id : AccountId) : result (option Account) StateError :=
  match st_get s (account_key id) with
  | Some data =>
      match de data with
      | Some a => Ok (Some a)
      | None => Err (Serialization (de_error data))
      end
  | None => Ok None
  end.

Definition require_account (s : S) (id : AccountId) : result Account StateError :=
  let! o := load_account s id in ok_or o (AccountNotFound (hex_encode id)).

Definition save_account (s : S) (a : Account) : result S StateError :=
  match ser a with
  | Some data => Ok (st_put s (account_key (acc_id a)) data)
  | None => Err (Serialization (ser_error a))
  end.

(** [let _ = state.save_account(&acct)]: a failure leaves the store. *)
Definition save_account_or_keep (s : S) (a : Account) : S :=
  match save_account s a with Ok s' => s' | Err _ => s end.

Definition get_balance (s : S) (id : AccountId) : result u128 StateError :=
  let! o := load_account s id in
  Ok (match o with Some a => balance a | None => 0 end).

Definition create_account (s : S) (id : AccountId) (methods : list AuthMethod)
    (initial_balance : u128) : result (S * Account) StateError :=
  let a := mkAccount id zero_hash methods 0 initial_balance in
  let! s := save_account s a in Ok (s, a).

Definition transfer (s : S) (from to : AccountId) (amount : u128) :
    S * result unit StateError :=
  match require_account s from with
  | Err e => (s, Err e)
  | Ok sender =>
    if balance sender <? amount
    then (s, Err (InsufficientFunds (balance sender) amount))
    else
    match save_account s (set_balance (u128_sub (balance sender) amount) sender) with
    | Err e => (s, Err e)
    | Ok s =>
      let receive (s : S) (receiver : Account) :=
        match save_account s (set_balance (sat_add128 (balance receiver) amount) receiver) with
        | Err e => (s, Err e)
        | Ok s => (s, Ok tt)
        end in
      match load_account s to with
      | Err e => (s, Err e)
      | Ok (Some acc) => receive s acc
      | Ok None =>
        if is_system_contract to
        then (s, Err (AccountNotFound "cannot transfer to system contract"))
        else
        match create_account s to [Ed25519 to] 0 with
        | Err e => (s, Err e)
        | Ok (s, _) =>
          match require_account s to with
          | Err e => (s, Err e)
          | Ok acc => receive s acc
          end
        end
      end
    end
  end.

Definition consume_nonce (s : S) (id : AccountId) (n : u64) : result S StateError :=
  let! a := require_account s id in
  if negb (n =? nonce a) then Err (InvalidNonce (nonce a) n)
  else if nonce a =? u64_max then Err (Serialization "nonce overflow")
  else save_account s (set_nonce (nonce a + 1) a).

Definition current_height (s : S) : option u64 :=
  match st_get s CHAIN_META_KEY with
  | Some data => if (8 <=? length data)%nat then Some (from_le (take 8 data)) else None
  | None => None
  end.

(** ** Bytecode and contract storage *)

Definition store_bytecode (blake3 : bytes -> Hash) (s : S) (code : bytes) : S * Hash :=
  let h := blake3 code in (st_put s (bytecode_key h) code, h).

Definition load_bytecode (s : S) (h : Hash) : option bytes := st_get s (bytecode_key h).

Definition contract_storage_get (s : S) (id : AccountId) (key : bytes) : option bytes :=
  st_get s (contract_storage_key id key).

Definition contract_storage_set (s : S) (id : AccountId) (key value : bytes) : S :=
  st_put s (contract_storage_key id key) value.

Definition load_contract_storage (s : S) (id : AccountId) : gmap bytes bytes :=
  let prefix := contract_storage_prefix id in
  fold_left (fun m kv => <[drop (length prefix) (fst kv) := snd kv]> m)
    (st_scan_prefix s prefix) ∅.

(** [keys.sort()] of the storage map's keys, which the manifest lists. *)
Definition sorted_keys (m : gmap bytes bytes) : list bytes := map fst (btree_entries m).

Definition save_contract_storage `{!Codec (list bytes)} (s : S) (id : AccountId)
    (storage : gmap bytes bytes) : S * result unit StateError :=
  let keys := sorted_keys storage in
  let s := map_fold (fun k v s => st_put s (contract_storage_key id k) v) s storage in
  match ser keys with
  | Some data => (st_put s (contract_storage_key id KEYS_MANIFEST) data, Ok tt)
  | None => (s, Err (Serialization (ser_error keys)))
  end.
End state.

(** ** Keys do not collide *)

Lemma account_key_inj a b : account_key a = account_key b -> a = b.
Proof. unfold account_key. apply app_inv_head. Qed.

Lemma contract_storage_key_prefix id k :
  contract_storage_key id k = contract_storage_prefix id ++ k.
Proof. unfold contract_storage_key, contract_storage_prefix. by rewrite <- !app_assoc. Qed.

Lemma contract_storage_key_inj id k k' :
  contract_storage_key id k = contract_storage_key id k' -> k = k'.
Proof. rewrite !contract_storage_key_prefix. apply app_inv_head. Qed.

(** ** Reading what was written *)

(** A store whose account records are filed under their own identifier and
    hold a machine balance. *)
Definition accounts_wf {S} `{!StateStore S} `{!Codec Account} (s : S) : Prop :=
  forall id a, load_account s id = Ok (Some a) ->
    acc_id a = id /\ in_u128 (balance a) /\ in_u64 (nonce a).

(** What an account holds; an account that is absent or unreadable counts
    nothing. *)
Definition balance_of {S} `{!StateStore S} `{!Codec Account} (s : S) (id : AccountId) : Z :=
  match load_account s id with Ok (Some a) => balance a | _ => 0 end.

Definition supply {S} `{!StateStore S} `{!Codec Account} (ids : list AccountId) (s : S) : Z :=
  sumZ (map (balance_of s) ids).

(** The two stores hold the same account records. *)
Definition accounts_same {S} `{!StateStore S} (s s' : S) : Prop :=
  forall id, st_get s' (account_key id) = st_get s (account_key id).

Section state_laws.
Context {S : Type} `{!StateStore S} `{!StateStoreLaws S}
        `{!Codec Account} `{!CodecLaws Account}.
Implicit Types s : S.

(** Saving always succeeds, and is a write of one key. *)
Lemma save_account_ok s a : exists s', save_account s a = Ok s'
  /\ st_get s' (account_key (acc_id a)) = ser a
  /\ (forall k, k <> account_key (acc_id a) -> st_get s' k = st_get s k).
Proof.
  unfold save_account. destruct (ser_de a) as (b & -> & _).
  exists (st_put s (account_key (acc_id a)) b). split; [done|]. split.
  - by rewrite get_put_eq.
  - intros k Hk. by apply get_put_ne.
Qed.

Lemma save_or_keep_eq s a : save_account s a = Ok (save_account_or_keep s a).
Proof. unfold save_account_or_keep. by destruct (save_account_ok s a) as (s' & -> & _). Qed.

Lemma load_save_account s a id :
  load_account (save_account_or_keep s a) id
  = if decide (id = acc_id a) then Ok (Some a) else load_account s id.
Proof.
  destruct (save_account_ok s a) as (s' & Hs & Heq & Hne).
  unfold save_account_or_keep. rewrite Hs. unfold load_account. case_decide as Hd.
  - subst. rewrite Heq. destruct (ser_de a) as (b & -> & ->). done.
  - rewrite Hne; [done|]. intros ?%account_key_inj. done.
Qed.

Lemma get_save_account s a k :
  k <> account_key (acc_id a) -> st_get (save_account_or_keep s a) k = st_get s k.
Proof.
  intros Hk. destruct (save_account_ok s a) as (s' & Hs & _ & Hne).
  unfold save_account_or_keep. rewrite Hs. by apply Hne.
Qed.

Lemma load_account_same s s' id :
  accounts_same s s' -> load_account s' id = load_account s id.
Proof. intros H. unfold load_account. by rewrite (H id). Qed.

Lemma balance_of_same s s' id : accounts_same s s' -> balance_of s' id = balance_of s id.
Proof. intros H. unfold balance_of. by rewrite (load_account_same s s'). Qed.

Lemma supply_same s s' ids : accounts_same s s' -> supply ids s' = supply ids s.
Proof. intros H. apply sumZ_map_ext. intros id _. by apply balance_of_same. Qed.

Lemma accounts_wf_same s s' : accounts_same s s' -> accounts_wf s -> accounts_wf s'.
Proof. intros H Hw id a. rewrite (load_account_same s s') by done. apply Hw. Qed.

Lemma accounts_wf_save s a :
  accounts_wf s -> in_u128 (balance a) -> in_u64 (nonce a) ->
  accounts_wf (save_account_or_keep s a).
Proof.
  intros Hw Hb Hn id x. rewrite load_save_account. case_decide; [|apply Hw].
  by intros [= <-].
Qed.

Lemma balance_of_save s a id :
  balance_of (save_account_or_keep s a) id
  = if decide (id = acc_id a) then balance a else balance_of s id.
Proof. unfold balance_of. rewrite load_save_account. by case_decide. Qed.

(** A write to one account changes the total by the change of its balance. *)
Lemma supply_save s a ids :
  NoDup ids -> acc_id a ∈ ids ->
  supply ids (save_account_or_keep s a) = supply ids s - balance_of s (acc_id a) + balance a.
Proof.
  unfold supply. induction ids as [|x ids IH]; [set_solver|].
  intros [Hx Hn]%NoDup_cons Hin. simpl. rewrite balance_of_save.
  destruct (decide (x = acc_id a)) as [->|Hne].
  - rewrite (sumZ_map_ext _ (balance_of s)); [lia|]. intros y Hy. rewrite balance_of_save.
    destruct (decide (y = acc_id a)) as [->|]; [done|done].
  - rewrite IH; [lia|done|]. set_solver.
Qed.

Lemma require_account_spec s id a :
  require_account s id = Ok a <-> load_account s id = Ok (Some a).
Proof.
  unfold require_account, rbind, ok_or. destruct (load_account s id) as [[x|]|]; naive_solver.
Qed.

Lemma balance_of_require s id a : require_account s id = Ok a -> balance_of s id = balance a.
Proof. intros H%require_account_spec. unfold balance_of. by rewrite H. Qed.

Lemma balance_of_nonneg s id : accounts_wf s -> 0 <= balance_of s id <= u128_max.
Proof.
  intros Hw. unfold balance_of. destruct (load_account s id) as [[a|]|] eqn:E;
    try (unfold u128_max; lia). by destruct (Hw _ _ E) as (_ & ? & _).
Qed.

Lemma supply_ge s ids id : accounts_wf s -> id ∈ ids -> balance_of s id <= supply ids s.
Proof.
  intros Hw Hin. apply (sumZ_elem_le (balance_of s)); [|done].
  intros y _. by apply balance_of_nonneg.
Qed.

Lemma supply_nonneg s ids : accounts_wf s -> 0 <= supply ids s.
Proof. intros Hw. apply sumZ_map_nonneg. intros y _. by apply balance_of_nonneg. Qed.

Lemma supply_ge_two s ids a b :
  accounts_wf s -> NoDup ids -> a ∈ ids -> b ∈ ids -> a <> b ->
  balance_of s a + balance_of s b <= supply ids s.
Proof.
  intros Hw Hn Ha Hb Hab. unfold supply.
  apply list_elem_of_split in Ha as (l1 & l2 & ->). rewrite map_app, sumZ_app. simpl.
  assert (Hb' : b ∈ l1 ++ l2) by set_solver.
  pose proof (supply_ge s (l1 ++ l2) b Hw Hb') as H. unfold supply in H.
  rewrite map_app, sumZ_app in H. lia.
Qed.
End state_laws.

(** The ledger depends on the bindings only, whatever the two backends are. *)
Section across_stores.
Context {S1 S2 : Type} `{!StateStore S1} `{!StateStore S2} `{!Codec Account}.
Implicit Types (s : S1) (o : S2).

Lemma load_store_eq s o id : store_eq s o -> load_account s id = load_account o id.
Proof. intros He. unfold load_account. by rewrite (He (account_key id)). Qed.

Lemma supply_store_eq s o ids : store_eq s o -> supply ids s = supply ids o.
Proof.
  intros He. apply sumZ_map_ext. intros id _. unfold balance_of. by rewrite (load_store_eq s o id).
Qed.

Lemma accounts_wf_store_eq s o : store_eq s o -> accounts_wf s -> accounts_wf o.
Proof. intros He Hw id a Hl. apply Hw. by rewrite (load_store_eq s o id). Qed.
End across_stores.

(** ** Transfers *)
Section transfers.
Context {S : Type} `{!StateStore S} `{!StateStoreLaws S}
        `{!Codec Account} `{!CodecLaws Account}.
Implicit Types s : S.

(** The recipient a transfer credits: the stored account, or a fresh one. *)
Definition recipient_of s (to : AccountId) : Account :=
  match load_account s to with
  | Ok (Some a) => a
  | _ => mkAccount to zero_hash [Ed25519 to] 0 0
  end.

(** A successful transfer is two writes, the debit and the credit (and the
    creation of the recipient in between, which the credit overwrites). *)
Lemma transfer_ok s from to amount s' :
  accounts_wf s -> 0 <= amount -> transfer s from to amount = (s', Ok tt) ->
  exists sender, load_account s from = Ok (Some sender) /\ amount <= balance sender
    /\ let s1 := save_account_or_keep s (set_balance (balance sender - amount) sender) in
       let r := recipient_of s1 to in
       acc_id r = to /\ 0 <= balance r
       /\ store_eq s' (save_account_or_keep s1 (set_balance (sat_add128 (balance r) amount) r)).
Proof.
  intros Hw Ha H. unfold transfer in H.
  destruct (require_account s from) as [sender|] eqn:Hr; [|done].
  apply require_account_spec in Hr. destruct (Hw _ _ Hr) as (Hid & [Hb0 Hb1] & Hn).
  destruct (_ <? _) eqn:E; [done|]. prop_bool.
  rewrite u128_sub_exact in H by lia. rewrite save_or_keep_eq in H.
  exists sender. split; [done|]. split; [done|]. cbv zeta.
  set (s1 := save_account_or_keep s _) in *. unfold recipient_of.
  assert (Hw1 : accounts_wf s1).
  { apply accounts_wf_save; simpl; auto. unfold in_u128. lia. }
  destruct (load_account s1 to) as [[acc|]|] eqn:Hl; [| |done].
  - rewrite save_or_keep_eq in H. injection H as <-.
    destruct (Hw1 _ _ Hl) as (? & [? ?] & ?). split; [done|]. split; [lia|]. by intros k.
  - destruct (is_system_contract to); [done|]. unfold create_account, rbind in H.
    rewrite save_or_keep_eq in H. simpl in H.
    assert (Hreq : require_account (save_account_or_keep s1
      (mkAccount to zero_hash [Ed25519 to] 0 0)) to = Ok (mkAccount to zero_hash [Ed25519 to] 0 0)).
    { apply require_account_spec. rewrite load_save_account. simpl. by rewrite decide_True. }
    rewrite Hreq, save_or_keep_eq in H. injection H as <-.
    split; [done|]. split; [done|]. intros k.
    set (r := mkAccount to zero_hash [Ed25519 to] 0 0). set (r' := set_balance _ r).
    destruct (decide (k = account_key to)) as [->|Hk].
    + destruct (save_account_ok (save_account_or_keep s1 r) r') as (x & E1 & Ex & _).
      destruct (save_account_ok s1 r') as (y & E2 & Ey & _).
      unfold save_account_or_keep at 1 3. rewrite E1, E2. simpl in Ex, Ey. congruence.
    + rewrite !get_save_account by done. done.
Qed.

Lemma transfer_balances s from to amount s' :
  accounts_wf s -> 0 <= amount -> transfer s from to amount = (s', Ok tt) ->
  amount <= balance_of s from
  /\ accounts_wf s'
  /\ (forall id, balance_of s' id
       = let b := if decide (id = from) then balance_of s id - amount else balance_of s id in
         if decide (id = to) then sat_add128 b amount else b)
  /\ (forall k, k <> account_key from -> k <> account_key to -> st_get s' k = st_get s k).
Proof.
  intros Hw Ha H.
  destruct (transfer_ok _ _ _ _ _ Hw Ha H) as (sender & Hl & Hle & Hr & Hr0 & Heq).
  destruct (Hw _ _ Hl) as (Hid & [Hb0 Hb1] & Hn). set (s1 := save_account_or_keep s _) in *.
  set (r := recipient_of s1 to) in *.
  assert (Hw1 : accounts_wf s1) by (apply accounts_wf_save; simpl; auto; unfold in_u128; lia).
  assert (Hb1' : forall id, balance_of s1 id
            = if decide (id = from) then balance_of s id - amount else balance_of s id).
  { intros id. unfold s1. rewrite balance_of_save. simpl. rewrite Hid.
    destruct (decide (id = from)) as [->|]; [|done]. unfold balance_of. by rewrite Hl. }
  assert (Hbr : balance r = balance_of s1 to).
  { unfold r, recipient_of, balance_of. by destruct (load_account s1 to) as [[?|]|]. }
  assert (Hnr : in_u64 (nonce r)).
  { unfold r, recipient_of. destruct (load_account s1 to) as [[x|]|] eqn:E;
      try (unfold in_u64, u64_max; simpl; lia). by destruct (Hw1 _ _ E) as (_ & _ & ?). }
  assert (Hsame : accounts_same (save_account_or_keep s1
            (set_balance (sat_add128 (balance r) amount) r)) s') by (intros id; apply Heq).
  split; [unfold balance_of; by rewrite Hl|]. split; [|split].
  - eapply accounts_wf_same; [exact Hsame|]. apply accounts_wf_save; simpl; auto.
    unfold in_u128, sat_add128. unfold u128_max in *. lia.
  - intros id. rewrite (balance_of_same _ _ id Hsame), balance_of_save. simpl. rewrite Hr.
    destruct (decide (id = to)) as [->|]; [by rewrite Hbr, Hb1'|apply Hb1'].
  - intros k Hkf Hkt. rewrite Heq. unfold s1.
    rewrite !get_save_account; [done| |]; simpl; rewrite ?Hr, ?Hid; done.
Qed.

Lemma transfer_supply s from to amount s' ids :
  accounts_wf s -> 0 <= amount -> NoDup ids -> from ∈ ids -> to ∈ ids ->
  supply ids s <= u128_max -> transfer s from to amount = (s', Ok tt) ->
  supply ids s' = supply ids s.
Proof.
  intros Hw Ha Hn Hf Ht Hs H.
  destruct (transfer_ok _ _ _ _ _ Hw Ha H) as (sender & Hl & Hle & Hr & _ & Heq).
  destruct (Hw _ _ Hl) as (Hid & _). set (s1 := save_account_or_keep s _) in *.
  assert (Hbr : balance (recipient_of s1 to) = balance_of s1 to).
  { unfold recipient_of, balance_of. by destruct (load_account s1 to) as [[?|]|]. }
  assert (Hs1 : supply ids s1 = supply ids s - amount).
  { unfold s1. rewrite supply_save by (simpl; by rewrite ?Hid). simpl.
    unfold balance_of. rewrite Hid, Hl. lia. }
  assert (Hw1 : accounts_wf s1).
  { unfold s1. destruct (Hw _ _ Hl) as (_ & ? & ?).
    apply accounts_wf_save; simpl; auto. unfold in_u128 in *. lia. }
  pose proof (supply_ge s1 ids to Hw1 Ht).
  rewrite (supply_same (save_account_or_keep s1 (set_balance
    (sat_add128 (balance (recipient_of s1 to)) amount) (recipient_of s1 to))) s' ids)
    by (intros id; apply Heq).
  rewrite supply_save by (simpl; by rewrite ?Hr). simpl.
  rewrite Hr, Hbr, sat_add128_exact; lia.
Qed.

(** A successful transfer moves exactly [amount]: the sender had it, the
    sender's and the recipient's balances change by it (a transfer to oneself
    changes nothing), no other account and no other key changes, and the total
    over any set of accounts containing both is the same. *)
Theorem transfer_conserves s from to amount s' ids :
  accounts_wf s -> 0 <= amount -> NoDup ids -> from ∈ ids -> to ∈ ids ->
  supply ids s <= u128_max ->
  transfer s from to amount = (s', Ok tt) ->
  amount <= balance_of s from
  /\ supply ids s' = supply ids s
  /\ (from <> to -> balance_of s' from = balance_of s from - amount
                    /\ balance_of s' to = balance_of s to + amount)
  /\ (from = to -> balance_of s' from = balance_of s from)
  /\ (forall k, k <> account_key from -> k <> account_key to -> st_get s' k = st_get s k).
Proof.
  intros Hw Ha Hn Hf Ht Hs H.
  destruct (transfer_balances _ _ _ _ _ Hw Ha H) as (Hle & Hw' & Hb & Hk).
  pose proof (balance_of_nonneg s from Hw). pose proof (balance_of_nonneg s to Hw).
  assert (Hfrom : balance_of s' from = if decide (from = to) then balance_of s from
                                       else balance_of s from - amount).
  { rewrite Hb. cbv zeta. rewrite (decide_True (P := from = from)) by done.
    case_decide as Hd; [|done]. rewrite sat_add128_exact; lia. }
  assert (Hto : from <> to -> balance_of s' to = balance_of s to + amount).
  { intros Hne. pose proof (supply_ge_two s ids from to Hw Hn Hf Ht Hne).
    rewrite Hb. cbv zeta. rewrite (decide_True (P := to = to)) by done.
    rewrite decide_False by congruence. apply sat_add128_exact. lia. }
  split; [done|]. split; [|split; [|split]].
  - by apply (transfer_supply s from to amount).
  - intros Hne. rewrite decide_False in Hfrom by done. auto.
  - intros Heq. rewrite decide_True in Hfrom by done. done.
  - done.
Qed.
End transfers.

(** ** Nonces *)
Section nonces.
Context {S : Type} `{!StateStore S} `{!StateStoreLaws S}
        `{!Codec Account} `{!CodecLaws Account}.
Implicit Types s : S.

(** A nonce is consumed only when it is the account's current one; after
    that the account carries the next one, the same nonce is rejected for
    good, and nothing else of the store has changed. *)
Theorem nonce_consumed_once s id n s' :
  accounts_wf s -> consume_nonce s id n = Ok s' ->
  (exists a, load_account s id = Ok (Some a) /\ nonce a = n /\ n < u64_max
     /\ load_account s' id = Ok (Some (set_nonce (n + 1) a)))
  /\ consume_nonce s' id n = Err (InvalidNonce (n + 1) n)
  /\ (forall k, k <> account_key id -> st_get s' k = st_get s k)
  /\ accounts_wf s'.
Proof.
  intros Hw H. unfold consume_nonce, rbind in H.
  destruct (require_account s id) as [a|] eqn:Hr; [|done]. apply require_account_spec in Hr.
  destruct (Hw _ _ Hr) as (Hid & Hb & [Hn0 Hn1]).
  destruct (negb _) eqn:E1; [done|]. destruct (_ =? u64_max) eqn:E2; [done|]. prop_bool. subst n.
  rewrite save_or_keep_eq in H. injection H as <-.
  set (a' := set_nonce (nonce a + 1) a). set (s' := save_account_or_keep s a').
  assert (Hl : load_account s' id = Ok (Some a')).
  { unfold s'. rewrite load_save_account. by rewrite decide_True. }
  split; [|split; [|split]].
  - exists a. repeat split; auto; lia.
  - unfold consume_nonce, rbind. apply require_account_spec in Hl. rewrite Hl. simpl.
    destruct (negb _) eqn:E3; [done|]. prop_bool. lia.
  - intros k Hk. apply get_save_account. simpl. by rewrite Hid.
  - apply accounts_wf_save; [done|done|]. unfold in_u64. simpl. lia.
Qed.
End nonces.

(** ** Contract storage *)
Section contract_storage.
Context {S : Type} `{!StateStore S} `{!StateStoreLaws S} `{!StateStoreScanLaws S}
        `{!Codec (list bytes)} `{!CodecLaws (list bytes)}.
Implicit Types s : S.

Lemma get_put_all (id : AccountId) (m : gmap bytes bytes) s (k : bytes) :
  st_get (map_fold (fun k v s => st_put s (contract_storage_key id k) v) s m)
    (contract_storage_key id k)
  = match m !! k with Some v => Some v | None => st_get s (contract_storage_key id k) end.
Proof.
  apply (map_fold_weak_ind (fun r (m : gmap bytes bytes) =>
    st_get r (contract_storage_key id k)
    = match m !! k with Some v => Some v | None => st_get s (contract_storage_key id k) end)); [done|].
  intros i x m' r Hi IH. rewrite lookup_insert. destruct (decide (i = k)) as [->|Hne].
  - apply get_put_eq.
  - rewrite get_put_ne; [done|]. by intros ?%contract_storage_key_inj.
Qed.

Lemma put_all_inv (id : AccountId) (m : gmap bytes bytes) s :
  st_inv s -> st_inv (map_fold (fun k v s => st_put s (contract_storage_key id k) v) s m).
Proof.
  intros Hs. apply (map_fold_weak_ind (fun r _ => st_inv r)); [done|].
  intros i x m' r _ IH. by apply inv_put.
Qed.

(** Loading reads exactly the keys under the contract's prefix. *)
Lemma lookup_load_contract_storage s (id : AccountId) (k : bytes) :
  st_inv s -> load_contract_storage s id !! k = st_get s (contract_storage_key id k).
Proof.
  intros Hs. unfold load_contract_storage. cbv zeta.
  set (p := contract_storage_prefix id). set (l := st_scan_prefix s p).
  assert (Hl : forall kv, kv ∈ l ->
    fst kv = p ++ drop (length p) (fst kv) /\ st_get s (fst kv) = Some (snd kv)).
  { intros [k' v'] Hin. apply scan_prefix_spec in Hin as [[c Hc]%starts_with_spec Hg]; [|done].
    cbn [fst snd]. subst k'. by rewrite drop_app_length. }
  assert (Hfold : forall m0 : gmap bytes bytes,
    fold_left (fun m kv => <[drop (length p) (fst kv) := snd kv]> m) l m0 !! k
    = if decide (Exists (fun kv => drop (length p) (fst kv) = k) l)
      then st_get s (p ++ k) else m0 !! k).
  { clear -Hl. induction l as [|kv l IH]; intros m0; cbn [fold_left].
    - rewrite decide_False; [done|]. by intros ?%Exists_nil.
    - rewrite IH by set_solver. destruct (Hl kv ltac:(set_solver)) as [Hk Hg].
      destruct (decide (Exists _ l)) as [He|Hne].
      + rewrite decide_True; [done|]. by apply Exists_cons_tl.
      + rewrite lookup_insert. destruct (decide (_ = k)) as [Heq|Hne2].
        * rewrite decide_True by (by apply Exists_cons_hd). rewrite <- Heq, <- Hk. done.
        * rewrite decide_False; [done|]. by intros [?|?]%Exists_cons. }
  rewrite Hfold, contract_storage_key_prefix. fold p. case_decide as Hd; [done|].
  rewrite lookup_empty. destruct (st_get s (p ++ k)) as [v|] eqn:E; [|done]. destruct Hd.
  apply Exists_exists. exists (p ++ k, v). split; [|cbn [fst]; apply drop_app_length].
  apply scan_prefix_spec; [done|]. split; [|done]. apply starts_with_app.
Qed.

(** What a contract call leaves in storage is what the next call finds: after
    saving a storage map that still has every key loaded before, loading gives
    the map back, with the key manifest added. *)
Theorem contract_storage_roundtrip s (id : AccountId) (m : gmap bytes bytes) :
  st_inv s -> dom (load_contract_storage s id) ⊆ dom m ->
  exists s' manifest, save_contract_storage s id m = (s', Ok tt)
    /\ de manifest = Some (sorted_keys m)
    /\ load_contract_storage s' id = <[KEYS_MANIFEST := manifest]> m.
Proof.
  intros Hs Hdom. unfold save_contract_storage.
  destruct (ser_de (sorted_keys m)) as (b & -> & Hde). eexists _, b.
  split; [reflexivity|]. split; [done|]. apply map_eq. intros k.
  rewrite lookup_load_contract_storage by (by apply inv_put, put_all_inv).
  rewrite lookup_insert. destruct (decide (KEYS_MANIFEST = k)) as [<-|Hne]; [apply get_put_eq|].
  rewrite get_put_ne by (by intros ?%contract_storage_key_inj).
  rewrite get_put_all. destruct (m !! k) eqn:E; [done|].
  rewrite <- lookup_load_contract_storage by done. apply not_elem_of_dom.
  intros Hk%Hdom. apply not_elem_of_dom in E. done.
Qed.
End contract_storage.

(** ** A concrete ledger for the examples *)

#[export] Existing Instance enc_codec | 100.
#[export] Existing Instance enc_codec_laws | 100.
#[export] Instance demo_store_instance : StateStore MemoryStore := memory_store (fun b => b).
#[export] Instance demo_store_laws : StateStoreLaws MemoryStore := mem_laws (fun b => b).

Definition demo_account (n b : Z) : Account :=
  mkAccount (replicate 32 n) zero_hash [Ed25519 (replicate 32 n)] 0 b.

Fixpoint demo_ledger (accs : list Account) : MemoryStore :=
  match accs with
  | [] => mem_new
  | a :: accs => save_account_or_keep (demo_ledger accs) a
  end.

Lemma demo_ledger_wf accs :
  Forall (fun a => in_u128 (balance a) /\ in_u64 (nonce a)) accs -> accounts_wf (demo_ledger accs).
Proof.
  induction 1 as [|a accs [? ?] _ IH]; simpl.
  - intros id a. unfold load_account. simpl. done.
  - by apply accounts_wf_save.
Qed.

Ltac solve_ledger_wf := apply demo_ledger_wf; repeat constructor;
  unfold in_u128, in_u64, u128_max, u64_max; simpl; lia.

Lemma transfer_conserves_witness :
  let s := demo_ledger [demo_account 1 100; demo_account 2 5] in
  let ids := [replicate 32 1; replicate 32 2; replicate 32 3] in
  exists s', transfer s (replicate 32 1) (replicate 32 2) 40 = (s', Ok tt)
    /\ supply ids s' = supply ids s
    /\ balance_of s' (replicate 32 1) = 60 /\ balance_of s' (replicate 32 2) = 45.
Proof.
  intros s ids.
  assert (Hr : snd (transfer s (replicate 32 1) (replicate 32 2) 40) = Ok tt) by (vm_compute; reflexivity).
  destruct (transfer s (replicate 32 1) (replicate 32 2) 40) as [s' r] eqn:E.
  cbn [snd] in Hr. subst r.
  exists s'. split; [reflexivity|].
  assert (Hw : accounts_wf s) by solve_ledger_wf.
  destruct (transfer_conserves s (replicate 32 1) (replicate 32 2) 40 s' ids Hw)
    as (_ & Hs & Hb & _); [lia| | | | |exact E|].
  - apply (bool_decide_unpack _); vm_compute; exact I.
  - apply (bool_decide_unpack _); vm_compute; exact I.
  - apply (bool_decide_unpack _); vm_compute; exact I.
  - vm_compute. discriminate.
  - split; [exact Hs|]. destruct Hb as [H1 H2]; [discriminate|]. rewrite H1, H2. by vm_compute.
Defined.

Lemma nonce_consumed_once_witness :
  exists s', consume_nonce (demo_ledger [demo_account 1 100]) (replicate 32 1) 0 = Ok s'
    /\ consume_nonce s' (replicate 32 1) 0 = Err (InvalidNonce 1 0).
Proof.
  destruct (consume_nonce (demo_ledger [demo_account 1 100]) (replicate 32 1) 0) as [s'|] eqn:E;
    [|vm_compute in E; discriminate E].
  exists s'. split; [reflexivity|].
  assert (Hw : accounts_wf (demo_ledger [demo_account 1 100])) by solve_ledger_wf.
  exact (proj1 (proj2 (nonce_consumed_once _ _ _ _ Hw E))).
Defined.

#[export] Instance demo_scan_laws : @StateStoreScanLaws MemoryStore demo_store_instance :=
  mem_scan_laws (fun b => b).

Lemma contract_storage_roundtrip_witness :
  exists s' manifest,
    save_contract_storage mem_new (replicate 32 7) {[ [1] := [2; 3] ]} = (s', Ok tt)
    /\ load_contract_storage s' (replicate 32 7)
       = <[KEYS_MANIFEST := manifest]> {[ [1] := [2; 3] ]}.
Proof.
  destruct (contract_storage_roundtrip mem_new (replicate 32 7) {[ [1] := [2; 3] ]})
    as (s' & b & H1 & _ & H3).
  - vm_compute. done.
  - vm_compute. done.
  - exists s', b. exact (conj H1 H3).
Defined.
