(* ===== verification/SysCommon.v ===== *)
(** What the system calls share ([crates/solen-execution/src/system_calls.rs]):
    the result type, the readers of argument bytes and configuration, and the
    debit and credit of an account. *)

From S2P Require Import Prelude Types Store Codec State.
Open Scope Z_scope.

Record SystemCallResult : Type := mkSysResult {
  gas_used : u64;
  sc_events : list Event;
  sc_error : option string;
}.

Definition SYSTEM_CALL_GAS : u64 := 200.
Definition MIN_FEE_RESERVE : u128 := 10000.

Definition err (msg : string) : SystemCallResult := mkSysResult SYSTEM_CALL_GAS [] (Some msg).

(** The last [match] of every call: the result of the chosen method, with the
    events it pushed. *)
Definition finish (events : list Event) (r : result unit string) : SystemCallResult :=
  match r with
  | Ok _ => mkSysResult SYSTEM_CALL_GAS events None
  | Err e => mkSysResult SYSTEM_CALL_GAS events (Some e)
  end.

(** The outcome of one method of a call on a contract record of type [C]: an
    early [return], or the values the code after the [match] goes on with. *)
Inductive arm (S C : Type) : Type :=
| Return (s : S) (r : SystemCallResult)
| Fall (s : S) (c : C) (events : list Event) (r : result unit string).
Arguments Return {S C} s r.
Arguments Fall {S C} s c events r.

(** ** Argument bytes *)

Definition read_account_id (args : bytes) (offset : nat) : option AccountId :=
  if (length args <? offset + 32)%nat then None else Some (slice offset 32 args).
Definition read_u128 (args : bytes) (offset : nat) : option u128 :=
  if (length args <? offset + 16)%nat then None else Some (from_le (slice offset 16 args)).
Definition read_u64 (args : bytes) (offset : nat) : option u64 :=
  if (length args <? offset + 8)%nat then None else Some (from_le (slice offset 8 args)).

Lemma from_le_nonneg (b : bytes) : Forall (fun x => 0 <= x <= 255) b -> 0 <= from_le b.
Proof. induction 1; simpl; lia. Qed.

Lemma read_u128_nonneg args off a :
  Forall (fun b => 0 <= b <= 255) args -> read_u128 args off = Some a -> 0 <= a.
Proof.
  intros Ha. unfold read_u128. destruct (Nat.ltb _ _); [done|]. intros [= <-].
  apply from_le_nonneg. unfold slice. by apply Forall_take, Forall_drop.
Qed.

Lemma read_u64_nonneg args off a :
  Forall (fun b => 0 <= b <= 255) args -> read_u64 args off = Some a -> 0 <= a.
Proof.
  intros Ha. unfold read_u64. destruct (Nat.ltb _ _); [done|]. intros [= <-].
  apply from_le_nonneg. unfold slice. by apply Forall_take, Forall_drop.
Qed.

(** [String::from_utf8_lossy]: valid UTF-8 is kept, every maximal invalid part
    becomes U+FFFD. *)
Definition in_range (lo hi x : Z) : bool := (lo <=? x) && (x <=? hi).
Definition is_cont (x : Z) : bool := in_range 128 191 x.
Definition second3_ok (a b : Z) : bool :=
  if a =? 224 then in_range 160 191 b else if a =? 237 then in_range 128 159 b else is_cont b.
Definition second4_ok (a b : Z) : bool :=
  if a =? 240 then in_range 144 191 b else if a =? 244 then in_range 128 143 b else is_cont b.
Definition REPLACEMENT : bytes := [239; 191; 189].

Fixpoint utf8_lossy (b : bytes) : bytes :=
  match b with
  | [] => []
  | x :: b1 =>
    if x <? 128 then x :: utf8_lossy b1
    else if in_range 194 223 x then
      match b1 with
      | y :: b2 => if is_cont y then x :: y :: utf8_lossy b2 else REPLACEMENT ++ utf8_lossy b1
      | [] => REPLACEMENT
      end
    else if in_range 224 239 x then
      match b1 with
      | y :: b2 =>
        if second3_ok x y then
          match b2 with
          | z :: b3 => if is_cont z then x :: y :: z :: utf8_lossy b3
                       else REPLACEMENT ++ utf8_lossy b2
          | [] => REPLACEMENT
          end
        else REPLACEMENT ++ utf8_lossy b1
      | [] => REPLACEMENT
      end
    else if in_range 240 244 x then
      match b1 with
      | y :: b2 =>
        if second4_ok x y then
          match b2 with
          | z :: b3 =>
            if is_cont z then
              match b3 with
              | t :: b4 => if is_cont t then x :: y :: z :: t :: utf8_lossy b4
                           else REPLACEMENT ++ utf8_lossy b3
              | [] => REPLACEMENT
              end
            else REPLACEMENT ++ utf8_lossy b2
          | [] => REPLACEMENT
          end
        else REPLACEMENT ++ utf8_lossy b1
      | [] => REPLACEMENT
      end
    else REPLACEMENT ++ utf8_lossy b1
  end.

Fixpoint string_of_bytes (b : bytes) : string :=
  match b with
  | [] => EmptyString
  | x :: b => String (Ascii.ascii_of_nat (Z.to_nat x)) (string_of_bytes b)
  end.

Definition from_utf8_lossy (b : bytes) : string := string_of_bytes (utf8_lossy b).

Section common.
Context {S : Type} `{!StateStore S} `{!Codec Account}.

(** ** Chain metadata and configuration *)

Definition read_current_epoch (s : S) : u64 :=
  match st_get s CHAIN_META_KEY with
  | Some data => if (16 <=? length data)%nat then from_le (take 8 data) / 100 else 0
  | None => 0
  end.

Definition read_config_u128 (s : S) (key : bytes) : option u128 :=
  match st_get s key with
  | Some data => if (16 <=? length data)%nat then Some (from_le (take 16 data)) else None
  | None => None
  end.

(** ** Balances *)

(** [if let Ok(mut acct) = state.require_account(id) { acct.balance =
    acct.balance.saturating_add(amount); let _ = state.save_account(&acct) }]. *)
Definition credit_if_present (s : S) (id : AccountId) (amount : u128) : S :=
  match require_account s id with
  | Ok a => save_account_or_keep s (set_balance (sat_add128 (balance a) amount) a)
  | Err _ => s
  end.

(** The deduction of [amount] from the sender that has to leave
    [MIN_FEE_RESERVE]; the sum of the guard is a plain [+]. *)
Definition debit_with_reserve (s : S) (sender : AccountId) (amount : u128) (msg : string) :
    result S SystemCallResult :=
  match require_account s sender with
  | Ok a =>
      if balance a <? u128_add amount MIN_FEE_RESERVE then Err (err msg)
      else match save_account s (set_balance (u128_sub (balance a) amount) a) with
           | Ok s => Ok s
           | Err e => Err (err ("state save failed: " +:+ state_error_msg e))
           end
  | Err e => Err (err (state_error_msg e))
  end.

(** [get_account(id).ok().flatten().unwrap_or_else(|| Account { .. })]. *)
Definition account_or_bare (s : S) (id : AccountId) : Account :=
  match load_account s id with
  | Ok (Some a) => a
  | _ => bare_account id 0
  end.

(** Crediting an account that is created when it is missing. *)
Definition credit_or_create (s : S) (id : AccountId) (amount : u128) : S :=
  let a := account_or_bare s id in
  save_account_or_keep s (set_balance (sat_add128 (balance a) amount) a).

(** [acct.balance -= amount; let _ = state.save_account(&acct)] on a loaded
    account: a plain subtraction. *)
Definition debit_loaded (s : S) (a : Account) (amount : u128) : S :=
  save_account_or_keep s (set_balance (u128_sub (balance a) amount) a).

Context `{!StateStoreLaws S} `{!CodecLaws Account}.
Implicit Types s : S.

Lemma credit_wf s id amount :
  accounts_wf s -> 0 <= amount -> accounts_wf (credit_if_present s id amount).
Proof.
  intros Hw Ha. unfold credit_if_present. destruct (require_account s id) as [a|] eqn:E; [|done].
  apply require_account_spec in E. destruct (Hw _ _ E) as (_ & [? ?] & ?).
  apply accounts_wf_save; simpl; auto. unfold in_u128, sat_add128, u128_max in *. lia.
Qed.

Lemma credit_get s id amount k :
  accounts_wf s -> k <> account_key id -> st_get (credit_if_present s id amount) k = st_get s k.
Proof.
  intros Hw Hk. unfold credit_if_present. destruct (require_account s id) as [a|] eqn:E; [|done].
  apply require_account_spec in E. destruct (Hw _ _ E) as (Hid & _).
  apply get_save_account. simpl. by rewrite Hid.
Qed.

Definition has_account s id : Prop := exists a, load_account s id = Ok (Some a).

Lemma credit_supply s id amount ids :
  accounts_wf s -> NoDup ids -> id ∈ ids -> has_account s id ->
  0 <= amount -> supply ids s + amount <= u128_max ->
  supply ids (credit_if_present s id amount) = supply ids s + amount.
Proof.
  intros Hw Hn Hin [a Hl] Ha Hm. unfold credit_if_present.
  pose proof Hl as Hr. apply require_account_spec in Hr. rewrite Hr.
  destruct (Hw _ _ Hl) as (Hid & [? ?] & _). rewrite supply_save by (simpl; by rewrite ?Hid).
  simpl. rewrite Hid. pose proof (supply_ge s ids id Hw Hin) as Hge.
  rewrite (balance_of_require _ _ _ Hr) in *. rewrite sat_add128_exact; lia.
Qed.

Lemma credit_has_account s id amount x :
  accounts_wf s -> has_account s x -> has_account (credit_if_present s id amount) x.
Proof.
  intros Hw [a Ha]. unfold credit_if_present, has_account.
  destruct (require_account s id) as [b|] eqn:E; [|eauto]. rewrite load_save_account.
  case_decide; eauto.
Qed.

(** A debit that succeeded, when the amount and the reserve do not overflow. *)
Lemma debit_ok s sender amount msg s' :
  accounts_wf s -> 0 <= amount -> amount + MIN_FEE_RESERVE <= u128_max ->
  debit_with_reserve s sender amount msg = Ok s' ->
  exists a, load_account s sender = Ok (Some a) /\ acc_id a = sender
    /\ amount + MIN_FEE_RESERVE <= balance a
    /\ s' = save_account_or_keep s (set_balance (balance a - amount) a).
Proof.
  intros Hw Ha Hm. unfold debit_with_reserve. destruct (require_account s sender) as [a|] eqn:E; [|done].
  apply require_account_spec in E. destruct (Hw _ _ E) as (Hid & [? ?] & _).
  rewrite u128_add_exact by (unfold MIN_FEE_RESERVE in *; lia).
  destruct (_ <? _) eqn:El; [done|]. prop_bool. unfold MIN_FEE_RESERVE in *.
  rewrite save_or_keep_eq. intros [= <-]. exists a. rewrite u128_sub_exact by lia. auto.
Qed.

(** What a successful debit changes: one account record, by the amount. *)
Lemma debit_effect s sender amount msg s' ids :
  accounts_wf s -> 0 <= amount -> amount + MIN_FEE_RESERVE <= u128_max ->
  debit_with_reserve s sender amount msg = Ok s' ->
  accounts_wf s' /\ has_account s' sender
  /\ (forall k, k <> account_key sender -> st_get s' k = st_get s k)
  /\ balance_of s' sender = balance_of s sender - amount
  /\ amount <= balance_of s sender
  /\ (NoDup ids -> sender ∈ ids -> supply ids s' = supply ids s - amount).
Proof.
  intros Hw Ha Hm H. destruct (debit_ok _ _ _ _ _ Hw Ha Hm H) as (a & Hl & Hid & Hle & ->).
  destruct (Hw _ _ Hl) as (_ & [? ?] & ?).
  assert (Hb : balance_of s sender = balance a) by (unfold balance_of; by rewrite Hl).
  unfold MIN_FEE_RESERVE in *. split; [|split; [|split; [|split; [|split]]]].
  - apply accounts_wf_save; simpl; auto. unfold in_u128. lia.
  - eexists. rewrite load_save_account. simpl. rewrite Hid. by rewrite decide_True.
  - intros k Hk. apply get_save_account. simpl. by rewrite Hid.
  - rewrite balance_of_save. simpl. rewrite Hid, decide_True by done. lia.
  - lia.
  - intros Hn Hin. rewrite supply_save by (simpl; by rewrite ?Hid). simpl. rewrite Hid. lia.
Qed.

(** ** A payment: a debit, then a credit that may create the account *)

Lemma account_or_bare_spec s id :
  accounts_wf s -> acc_id (account_or_bare s id) = id
    /\ balance (account_or_bare s id) = balance_of s id
    /\ in_u64 (nonce (account_or_bare s id)).
Proof.
  intros Hw. unfold account_or_bare, balance_of.
  destruct (load_account s id) as [[a|]|] eqn:E; try (repeat split; unfold u64_max; simpl; lia).
  by destruct (Hw _ _ E) as (? & _ & ?).
Qed.

Lemma credit_or_create_effect s id amount :
  accounts_wf s -> 0 <= amount -> balance_of s id + amount <= u128_max ->
  accounts_wf (credit_or_create s id amount)
  /\ (forall x, balance_of (credit_or_create s id amount) x
        = balance_of s x + (if decide (x = id) then amount else 0))
  /\ (forall k, k <> account_key id -> st_get (credit_or_create s id amount) k = st_get s k).
Proof.
  intros Hw Ha Hm. destruct (account_or_bare_spec s id Hw) as (Hid & Hb & Hn).
  pose proof (balance_of_nonneg s id Hw). unfold credit_or_create.
  rewrite sat_add128_exact by lia. split; [|split].
  - apply accounts_wf_save; simpl; auto. unfold in_u128. lia.
  - intros x. rewrite balance_of_save. simpl. rewrite Hid. case_decide; subst; lia.
  - intros k Hk. apply get_save_account. simpl. by rewrite Hid.
Qed.

Lemma debit_loaded_effect s id a amount :
  accounts_wf s -> load_account s id = Ok (Some a) -> 0 <= amount <= balance_of s id ->
  accounts_wf (debit_loaded s a amount)
  /\ (forall x, balance_of (debit_loaded s a amount) x
        = balance_of s x - (if decide (x = id) then amount else 0))
  /\ (forall k, k <> account_key id -> st_get (debit_loaded s a amount) k = st_get s k).
Proof.
  intros Hw Hl Ha. destruct (Hw _ _ Hl) as (Hid & [? ?] & Hn).
  assert (Hb : balance_of s id = balance a) by (unfold balance_of; by rewrite Hl).
  unfold debit_loaded. rewrite u128_sub_exact by lia. split; [|split].
  - apply accounts_wf_save; simpl; auto. unfold in_u128. lia.
  - intros x. rewrite balance_of_save. simpl. rewrite Hid. case_decide; subst; lia.
  - intros k Hk. apply get_save_account. simpl. by rewrite Hid.
Qed.

(** The total of a pointwise change. *)
Lemma supply_change s s' ids (d : AccountId -> Z) :
  (forall x, balance_of s' x = balance_of s x + d x) ->
  supply ids s' = supply ids s + sumZ (map d ids).
Proof. intros H. unfold supply. induction ids as [|x ids IH]; simpl; [lia|]. rewrite H. lia. Qed.

Lemma sum_at_one (ids : list AccountId) id amount :
  NoDup ids -> id ∈ ids -> sumZ (map (fun x => if decide (x = id) then amount else 0) ids) = amount.
Proof.
  induction ids as [|y ids IH]; [set_solver|]. intros [Hy Hn]%NoDup_cons Hin. simpl.
  destruct (decide (y = id)) as [->|Hne].
  - rewrite (sumZ_map_ext _ (fun _ => 0)); [|intros z Hz; by rewrite decide_False by set_solver].
    clear. induction ids; simpl in *; lia.
  - rewrite IH by set_solver. lia.
Qed.

(** Paying [amount] from [from] to [to]. *)
Lemma payment_effect s from a to amount :
  accounts_wf s -> load_account s from = Ok (Some a) -> 0 <= amount <= balance_of s from ->
  (to <> from -> balance_of s to + balance_of s from <= u128_max) ->
  let s' := credit_or_create (debit_loaded s a amount) to amount in
  accounts_wf s'
  /\ (forall x, balance_of s' x = balance_of s x - (if decide (x = from) then amount else 0)
                                   + (if decide (x = to) then amount else 0))
  /\ (forall k, k <> account_key from -> k <> account_key to -> st_get s' k = st_get s k).
Proof.
  intros Hw Hl Ha Hm. destruct (debit_loaded_effect s from a amount Hw Hl Ha) as (Hw1 & Hb1 & Hk1).
  pose proof (balance_of_nonneg s from Hw). pose proof (balance_of_nonneg s to Hw).
  destruct (credit_or_create_effect (debit_loaded s a amount) to amount Hw1) as (Hw2 & Hb2 & Hk2);
    [lia|rewrite Hb1; case_decide; [|specialize (Hm ltac:(done))]; subst; lia|].
  cbv zeta. split; [done|]. split.
  - intros x. by rewrite Hb2, Hb1.
  - intros k Hf Ht. by rewrite Hk2, Hk1.
Qed.

Lemma payment_supply s s' ids from to amount :
  NoDup ids -> from ∈ ids -> to ∈ ids ->
  (forall x, balance_of s' x = balance_of s x - (if decide (x = from) then amount else 0)
                               + (if decide (x = to) then amount else 0)) ->
  supply ids s' = supply ids s.
Proof.
  intros Hn Hf Ht H.
  rewrite (supply_change s s' ids (fun x => (if decide (x = from) then - amount else 0)
                                            + (if decide (x = to) then amount else 0))).
  - rewrite sumZ_map_add, !sum_at_one by done. lia.
  - intros x. rewrite H. repeat case_decide; lia.
Qed.
End common.
