(* ===== verification/SysStaking.v ===== *)
(** The staking calls ([execute_staking_call] of
    [crates/solen-execution/src/system_calls.rs]): one definition per method,
    on the stored contract record and the account records. *)

From S2P Require Import Prelude Types Store Memory Codec State SysCommon Staking.
Open Scope Z_scope.

Definition staking_error_msg (e : StakingError) : string :=
  match e with
  | InsufficientStake need have =>
      "insufficient stake: need " +:+ pretty need +:+ ", have " +:+ pretty have
  | ValidatorNotFound => "validator not found"
  | DelegationNotFound => "delegation not found"
  | UnbondingNotReady r => "unbonding not ready: " +:+ pretty r +:+ " epochs remaining"
  | AlreadyRegistered => "already registered"
  | GenesisLocked u c => "genesis validator locked until epoch " +:+ pretty u +:+ " (current: "
      +:+ pretty c +:+ ")"
  | BelowMinValidators m =>
      "cannot deregister: would drop below minimum validator count (" +:+ pretty m +:+ ")"
  | RotationAlreadyPending => "key rotation already pending"
  | KeyAlreadyInUse => "new key already in use by another validator"
  | TooManyUndelegations => "too many pending undelegations (max 7 per delegator-validator pair)"
  end.

Definition CONFIG_MIN_STAKE_KEY : bytes :=
  Eval vm_compute in bytes_of_string "__config_min_validator_stake__".
Definition staking_event (topic : string) (data : bytes) : Event :=
  mkEvent STAKING_ADDRESS (bytes_of_string topic) data.

Section calls.
Context {S : Type} `{!StateStore S} `{!Codec Account} `{!Codec StakingContract}.

Abbreviation staking_arm := (arm S StakingContract).

Definition call_register (s : S) (sender : AccountId) (args : bytes) : staking_arm :=
  match read_u128 args 0 with
  | None => Return s (err "invalid args: need amount[16]")
  | Some amount =>
    let min_stake := default MIN_VALIDATOR_STAKE (read_config_u128 s CONFIG_MIN_STAKE_KEY) in
    if amount <? min_stake
    then Return s (err ("insufficient stake: need " +:+ pretty min_stake +:+ " but got "
                        +:+ pretty amount))
    else
    match debit_with_reserve s sender amount
            "insufficient balance for registration (need fee reserve)" with
    | Err r => Return s r
    | Ok s =>
      let staking := staking_load s in
      let current_epoch := read_current_epoch s in
      match register_validator_at_epoch_with_config sender amount current_epoch min_stake staking with
      | Ok staking =>
          Fall s staking [staking_event "validator_registered" (sender ++ le_bytes 16 amount)] (Ok tt)
      | Err e => Fall (credit_if_present s sender amount) staking [] (Err (staking_error_msg e))
      end
    end
  end.

Definition call_delegate (s : S) (sender : AccountId) (args : bytes) : staking_arm :=
  match read_account_id args 0 with
  | None => Return s (err "invalid args: need validator[32] + amount[16]")
  | Some validator =>
    match read_u128 args 32 with
    | None => Return s (err "invalid args: need amount[16]")
    | Some amount =>
      match debit_with_reserve s sender amount
              "insufficient balance for delegation (need fee reserve)" with
      | Err r => Return s r
      | Ok s =>
        let staking := staking_load s in
        let current_epoch := read_current_epoch s in
        match delegate_at_epoch sender validator amount current_epoch staking with
        | Ok staking =>
            Fall s staking [staking_event "delegate" (validator ++ le_bytes 16 amount)] (Ok tt)
        | Err e => Fall (credit_if_present s sender amount) staking [] (Err (staking_error_msg e))
        end
      end
    end
  end.

Definition call_undelegate (s : S) (staking : StakingContract) (sender : AccountId)
    (args : bytes) : staking_arm :=
  match read_account_id args 0 with
  | None => Return s (err "invalid args")
  | Some validator =>
    match read_u128 args 32 with
    | None => Return s (err "invalid args")
    | Some amount =>
      let current_epoch := read_current_epoch s in
      let '(staking, auto_withdrawn) := withdraw_undelegated sender current_epoch staking in
      let '(s, staking, events) :=
        if 0 <? auto_withdrawn then
          let s := staking_save staking s in
          let s := credit_if_present s sender auto_withdrawn in
          (s, staking_load s, [staking_event "withdraw" (le_bytes 16 auto_withdrawn)])
        else (s, staking, []) in
      match undelegate sender validator amount current_epoch staking with
      | Ok staking =>
          Fall s staking (events ++ [staking_event "undelegate" (validator ++ le_bytes 16 amount)])
            (Ok tt)
      | Err e => Fall s staking events (Err (staking_error_msg e))
      end
    end
  end.

Definition call_withdraw (s : S) (staking : StakingContract) (sender : AccountId) : staking_arm :=
  let current_epoch := read_current_epoch s in
  let '(staking, withdrawn) := withdraw_undelegated sender current_epoch staking in
  if 0 <? withdrawn then
    let s := staking_save staking s in
    let credited :=
      match require_account s sender with
      | Ok a => save_account s (set_balance (sat_add128 (balance a) withdrawn) a)
      | Err _ => Ok s
      end in
    match credited with
    | Err e => Return s (err ("state save failed: " +:+ state_error_msg e))
    | Ok s => Fall s (staking_load s) [staking_event "withdraw" (le_bytes 16 withdrawn)] (Ok tt)
    end
  else Fall s staking [] (Ok tt).

(** [slash/<hex of the offender>] entries, or a [downtime/<hex>] record. *)
Definition has_slash_evidence (s : S) (offender : AccountId) : bool :=
  let offender_hex := hex_encode offender in
  negb (bool_decide (st_scan_prefix s (bytes_of_string ("slash/" +:+ offender_hex)) = []))
  || match st_get s (bytes_of_string ("downtime/" +:+ offender_hex)) with
     | Some _ => true
     | None => false
     end.

Definition call_slash (s : S) (staking : StakingContract) (args : bytes) : staking_arm :=
  match read_account_id args 0 with
  | None => Return s (err "invalid args: need offender[32] + penalty_bps[8]")
  | Some offender =>
    let penalty_bps := default 100 (read_u64 args 32) in
    if MAX_SLASH_BPS <? penalty_bps
    then Return s (err "slash penalty exceeds maximum (10%)")
    else if negb (has_slash_evidence s offender)
    then Return s (err "no slashing evidence found for validator")
    else
    match List.find (has_id offender) (validators staking) with
    | None => Return s (err "validator not found")
    | Some v =>
      if negb (is_active v) then Return s (err "validator already inactive")
      else
      let current_epoch := read_current_epoch s in
      let '(staking, total_penalty) := slash_contract offender penalty_bps current_epoch staking in
      let '(s, staking) :=
        if 0 <? total_penalty then
          let s := staking_save staking s in
          let s := credit_if_present s TREASURY_ADDRESS total_penalty in
          (s, staking_load s)
        else (s, staking) in
      Fall s staking [staking_event "slashed" (offender ++ le_bytes 16 total_penalty)] (Ok tt)
    end
  end.

Definition call_unjail (s : S) (staking : StakingContract) (sender : AccountId) : staking_arm :=
  let current_epoch := read_current_epoch s in
  let go :=
    match unjail sender staking with
    | Ok staking => Fall s staking [staking_event "unjailed" sender] (Ok tt)
    | Err e => Fall s staking [] (Err (staking_error_msg e))
    end in
  match List.find (has_id sender) (validators staking) with
  | Some v =>
      if negb (is_active v) && (current_epoch <? sv_eligible_from_epoch v)
      then Return s (err ("unjail cooldown: wait until epoch " +:+ pretty (sv_eligible_from_epoch v)
                          +:+ " (current: " +:+ pretty current_epoch +:+ ")"))
      else go
  | None => go
  end.

Definition call_rotate_key (s : S) (staking : StakingContract) (sender : AccountId)
    (args : bytes) : staking_arm :=
  match read_account_id args 0 with
  | None => Return s (err "invalid args: need new_key[32]")
  | Some new_key =>
    match rotate_key sender new_key (read_current_epoch s) staking with
    | Ok staking =>
        Fall s staking [staking_event "key_rotation_requested" (sender ++ new_key)] (Ok tt)
    | Err e => Fall s staking [] (Err (staking_error_msg e))
    end
  end.

Definition execute_staking_call (s : S) (sender : AccountId) (method : string) (args : bytes) :
    S * SystemCallResult :=
  let staking := staking_load s in
  let a :=
    if String.eqb method "register" then call_register s sender args
    else if String.eqb method "delegate" then call_delegate s sender args
    else if String.eqb method "undelegate" then call_undelegate s staking sender args
    else if String.eqb method "withdraw" then call_withdraw s staking sender
    else if String.eqb method "slash" then call_slash s staking args
    else if String.eqb method "unjail" then call_unjail s staking sender
    else if String.eqb method "rotate_key" then call_rotate_key s staking sender args
    else Fall s staking [] (Err ("unknown staking method: " +:+ method)) in
  match a with
  | Return s r => (s, r)
  | Fall s staking events r => (staking_save staking s, finish events r)
  end.
End calls.

(** ** Token conservation

    The tokens of the system as staking sees it: account balances plus
    everything the staking contract owes. *)
Section conservation.
Context {S : Type} `{!StateStore S} `{!StateStoreLaws S}
        `{!Codec Account} `{!CodecLaws Account}
        `{!Codec StakingContract} `{!CodecLaws StakingContract}.
Implicit Types s : S.

Definition staking_total (ids : list AccountId) s : Z :=
  supply ids s + locked_tokens (staking_load s).

(** The state a staking call is made in. *)
Record staking_ready (ids : list AccountId) (sender : AccountId) s : Prop := {
  sr_accounts : accounts_wf s;
  sr_staking : amounts_ok (staking_load s);
  sr_ids : NoDup ids;
  sr_sender : sender ∈ ids;
  sr_treasury : TREASURY_ADDRESS ∈ ids;
  sr_has_sender : has_account s sender;
  sr_has_treasury : has_account s TREASURY_ADDRESS;
  sr_bound : staking_total ids s <= u128_max;
}.

(** A deposit whose sum with the fee reserve does not fit in a u128: the guard
    of the call compares the wrapped sum. *)
Definition deposit_overflows (method : string) (args : bytes) : Prop :=
  (method = "register"%string /\ exists a, read_u128 args 0 = Some a /\ u128_max < a + MIN_FEE_RESERVE)
  \/ (method = "delegate"%string /\ exists a, read_u128 args 32 = Some a /\ u128_max < a + MIN_FEE_RESERVE).

(** The key that is registered or rotated to is not somebody's pending key. *)
Definition fresh_key (method : string) (sender : AccountId) (args : bytes) (c : StakingContract) : Prop :=
  (method = "register"%string -> sender ∉ pending_keys c)
  /\ (method = "rotate_key"%string -> forall k, read_account_id args 0 = Some k -> k ∉ pending_keys c).

(** [wf] tells whether the invariant is claimed of the contract. *)
Definition arm_sound (ids : list AccountId) (total : Z) (wf : Prop) (a : arm S StakingContract) : Prop :=
  match a with
  | Return _ r => sc_error r <> None
  | Fall s' c' _ (Ok _) =>
      accounts_wf s' /\ amounts_ok c' /\ supply ids s' + locked_tokens c' = total /\ (wf -> staking_wf c')
  | Fall _ _ _ (Err _) => True
  end.

(** One operation of the contract, seen from both invariants. *)
Lemma exec_both op c c' flow (wf : Prop) :
  staking_exec op c = (c', flow) -> amounts_ok c -> op_amounts op c ->
  (wf -> staking_wf c /\ op_fresh op c) ->
  amounts_ok c' /\ locked_tokens c' = locked_tokens c + flow /\ (wf -> staking_wf c').
Proof.
  intros E Ha Ho Hw. pose proof (staking_exec_amounts op c Ha Ho) as [H1 H2]. rewrite E in H1, H2.
  split; [done|]. split; [done|]. intros W. destruct (Hw W) as [Hc Hf].
  pose proof (staking_exec_wf op c Hc (conj Ho Hf)) as [H3 _]. by rewrite E in H3.
Qed.

Lemma staking_key_ne id : STAKING_STORAGE_KEY <> account_key id.
Proof. discriminate. Qed.

Lemma staking_save_same c s : accounts_same s (staking_save c s).
Proof. intros id. apply get_save_ne, staking_key_ne. Qed.

Lemma staking_load_save c s : staking_load (staking_save c s) = c.
Proof. apply load_save. Qed.

Lemma staking_load_get s s' :
  st_get s' STAKING_STORAGE_KEY = st_get s STAKING_STORAGE_KEY -> staking_load s' = staking_load s.
Proof. intros H. by apply load_get_eq. Qed.

Lemma debit_error s sender amount msg r :
  debit_with_reserve s sender amount msg = Err r -> sc_error r <> None.
Proof.
  unfold debit_with_reserve. destruct (require_account s sender); [|by intros [= <-]].
  destruct (_ <? _); [by intros [= <-]|]. destruct (save_account _ _); [done|by intros [= <-]].
Qed.

(** The debit of a deposit: the sender pays, the contract record is the same. *)
Lemma debit_ready ids sender s amount msg s' :
  staking_ready ids sender s -> 0 <= amount -> amount + MIN_FEE_RESERVE <= u128_max ->
  debit_with_reserve s sender amount msg = Ok s' ->
  accounts_wf s' /\ staking_load s' = staking_load s /\ read_current_epoch s' = read_current_epoch s
  /\ supply ids s' = supply ids s - amount /\ locked_tokens (staking_load s) + amount <= u128_max.
Proof.
  intros [] Ha Hm H.
  destruct (debit_effect _ _ _ _ _ ids sr_accounts0 Ha Hm H) as (Hw & _ & Hk & _ & Hle & Hs).
  specialize (Hs sr_ids0 sr_sender0). split; [done|].
  split; [apply staking_load_get, Hk, staking_key_ne|].
  split; [unfold read_current_epoch; rewrite Hk; [done|discriminate]|]. split; [done|].
  pose proof (supply_ge s ids sender sr_accounts0 sr_sender0). unfold staking_total in *. lia.
Qed.

Lemma register_sound ids sender s args (wf : Prop) :
  staking_ready ids sender s -> Forall (fun b => 0 <= b <= 255) args ->
  (forall a, read_u128 args 0 = Some a -> a + MIN_FEE_RESERVE <= u128_max) ->
  (wf -> staking_wf (staking_load s) /\ sender ∉ pending_keys (staking_load s)) ->
  arm_sound ids (staking_total ids s) wf (call_register s sender args).
Proof.
  intros Hr Hb Hfit Hwf. unfold call_register.
  destruct (read_u128 args 0) as [amount|] eqn:Ea; [|done].
  pose proof (read_u128_nonneg _ _ _ Hb Ea) as H0. specialize (Hfit _ eq_refl).
  destruct (_ <? _); [done|].
  destruct (debit_with_reserve _ _ _ _) as [s'|r] eqn:Ed; [|by eapply debit_error].
  destruct (debit_ready _ _ _ _ _ _ Hr H0 Hfit Ed) as (Hw & Hl & _ & Hs & Hm). rewrite Hl.
  set (m := default _ _).
  destruct (register_validator_at_epoch_with_config _ _ _ _ _) as [c'|] eqn:E; [|done].
  destruct (exec_both (OpRegister sender amount (read_current_epoch s') m) (staking_load s) c' amount wf)
    as (H1 & H2 & H3); [simpl; by rewrite E|apply Hr|done|done|].
  split; [done|]. split; [done|]. split; [unfold staking_total; lia|done].
Qed.

Lemma delegate_sound ids sender s args (wf : Prop) :
  staking_ready ids sender s -> Forall (fun b => 0 <= b <= 255) args ->
  (forall a, read_u128 args 32 = Some a -> a + MIN_FEE_RESERVE <= u128_max) ->
  (wf -> staking_wf (staking_load s)) ->
  arm_sound ids (staking_total ids s) wf (call_delegate s sender args).
Proof.
  intros Hr Hb Hdel Hwf. unfold call_delegate.
  destruct (read_account_id args 0) as [val|]; [|done].
  destruct (read_u128 args 32) as [amount|] eqn:Ea; [|done].
  pose proof (read_u128_nonneg _ _ _ Hb Ea) as H0. specialize (Hdel _ eq_refl).
  destruct (debit_with_reserve _ _ _ _) as [s'|r] eqn:Ed; [|by eapply debit_error].
  destruct (debit_ready _ _ _ _ _ _ Hr H0 Hdel Ed) as (Hw & Hl & _ & Hs & Hm). rewrite Hl.
  destruct (delegate_at_epoch _ _ _ _ _) as [c'|] eqn:E; [|done].
  destruct (exec_both (OpDelegate sender val amount (read_current_epoch s')) (staking_load s) c' amount wf)
    as (H1 & H2 & H3); [simpl; by rewrite E|apply Hr|done|intros W; by split; [apply Hwf|]|].
  split; [done|]. split; [done|]. split; [unfold staking_total; lia|done].
Qed.

(** A payout: the record is saved with the tokens gone, then the account is
    credited. *)
Lemma payout ids sender s who c' a :
  staking_ready ids sender s -> who ∈ ids -> has_account s who -> 0 <= a ->
  a <= locked_tokens (staking_load s) ->
  let s' := credit_if_present (staking_save c' s) who a in
  accounts_wf s' /\ staking_load s' = c' /\ supply ids s' = supply ids s + a.
Proof.
  intros [] Hin [x Hx] Ha Hle s'.
  pose proof (staking_save_same c' s) as Hsame.
  assert (Hw1 : accounts_wf (staking_save c' s)) by (by eapply accounts_wf_same).
  assert (Hh : has_account (staking_save c' s) who).
  { exists x. by rewrite (load_account_same s). }
  split; [by apply credit_wf|]. split.
  - etrans; [|apply (staking_load_save c' s)]. apply staking_load_get.
    apply credit_get; [done|apply staking_key_ne].
  - unfold s'. pose proof (supply_same s (staking_save c' s) ids Hsame) as Hs.
    pose proof (supply_nonneg s ids sr_accounts0). unfold staking_total in *.
    rewrite credit_supply; auto; lia.
Qed.

(** Withdrawing, seen from both invariants. *)
Lemma withdraw_both del e c c1 a (wf : Prop) :
  withdraw_undelegated del e c = (c1, a) -> amounts_ok c -> (wf -> staking_wf c) ->
  amounts_ok c1 /\ locked_tokens c1 = locked_tokens c - a /\ (wf -> staking_wf c1)
  /\ 0 <= a <= locked_tokens c.
Proof.
  intros E Ha Hw. pose proof (withdraw_amounts del e c Ha) as (H1 & H2 & H3).
  rewrite E in H1, H2, H3. cbn [fst snd] in *. split; [done|]. split; [done|]. split; [|done].
  intros W. pose proof (withdraw_wf del e c (Hw W)) as (H4 & _). by rewrite E in H4.
Qed.

Lemma withdraw_sound ids sender s (wf : Prop) :
  staking_ready ids sender s -> (wf -> staking_wf (staking_load s)) ->
  arm_sound ids (staking_total ids s) wf (call_withdraw s (staking_load s) sender).
Proof.
  intros Hr Hwf. unfold call_withdraw. pose proof Hr as [].
  destruct (withdraw_undelegated _ _ _) as [c' a] eqn:Ew.
  destruct (withdraw_both _ _ _ _ _ wf Ew sr_staking0 Hwf) as (Ha & Hl & Hw & Hb).
  destruct (0 <? a) eqn:E; prop_bool; simpl.
  - destruct (payout ids sender s sender c' a Hr sr_sender0 sr_has_sender0 ltac:(lia) ltac:(lia))
      as (Hw' & Hl' & Hs'). unfold credit_if_present in *.
    destruct (require_account _ sender) as [x|] eqn:Ex; rewrite ?save_or_keep_eq; simpl;
      (split; [done|]); rewrite Hl'; (split; [done|]); (split; [unfold staking_total; lia|done]).
  - split; [done|]. split; [done|]. split; [unfold staking_total; lia|done].
Qed.

Lemma undelegate_sound ids sender s args (wf : Prop) :
  staking_ready ids sender s -> Forall (fun b => 0 <= b <= 255) args -> (wf -> staking_wf (staking_load s)) ->
  arm_sound ids (staking_total ids s) wf (call_undelegate s (staking_load s) sender args).
Proof.
  intros Hr Hbytes Hwf. unfold call_undelegate. pose proof Hr as [].
  destruct (read_account_id args 0) as [val|]; [|done].
  destruct (read_u128 args 32) as [amount|] eqn:Ea; [|done].
  pose proof (read_u128_nonneg _ _ _ Hbytes Ea) as H0.
  set (e := read_current_epoch s) in *.
  destruct (withdraw_undelegated _ _ _) as [c1 a] eqn:Ew.
  destruct (withdraw_both _ _ _ _ _ wf Ew sr_staking0 Hwf) as (Ha1 & Hl & Hw & Hb).
  assert (Hund : forall c2 s2 evs, amounts_ok c2 -> (wf -> staking_wf c2) -> accounts_wf s2 ->
    supply ids s2 + locked_tokens c2 = staking_total ids s ->
    arm_sound ids (staking_total ids s) wf
      match undelegate sender val amount e c2 with
      | Ok c3 => Fall s2 c3 (evs ++ [staking_event "undelegate" (val ++ le_bytes 16 amount)]) (Ok tt)
      | Err er => Fall s2 c2 evs (Err (staking_error_msg er))
      end).
  { intros c2 s2 evs Hc2 Hw2 Hs2 Ht. destruct (undelegate _ _ _ _ _) as [c3|] eqn:E; [|done].
    destruct (exec_both (OpUndelegate sender val amount e) c2 c3 0 wf)
      as (H1 & H2 & H3); [simpl; by rewrite E|done|done|intros W; by split; [apply Hw2|]|].
    split; [done|]. split; [done|]. split; [lia|done]. }
  destruct (0 <? a) eqn:E; prop_bool.
  - destruct (payout ids sender s sender c1 a Hr sr_sender0 sr_has_sender0 ltac:(lia) ltac:(lia))
      as (Hw' & Hl' & Hs').
    apply Hund; rewrite ?Hl'; auto. unfold staking_total. lia.
  - apply Hund; auto. unfold staking_total. lia.
Qed.

Lemma slash_sound ids sender s args (wf : Prop) :
  staking_ready ids sender s -> Forall (fun b => 0 <= b <= 255) args -> (wf -> staking_wf (staking_load s)) ->
  arm_sound ids (staking_total ids s) wf (call_slash s (staking_load s) args).
Proof.
  intros Hr Hbytes Hwf. unfold call_slash. pose proof Hr as [].
  destruct (read_account_id args 0) as [off|]; [|done].
  set (bps := default 100 (read_u64 args 32)).
  assert (Hbps : 0 <= bps).
  { unfold bps. destruct (read_u64 args 32) eqn:E; simpl; [by eapply read_u64_nonneg|lia]. }
  destruct (MAX_SLASH_BPS <? bps) eqn:Emax; [done|]. prop_bool.
  destruct (negb _); [done|]. destruct (List.find _ _) as [v|] eqn:Hf; [|done].
  destruct (negb _); [done|].
  destruct (slash_amounts off bps (read_current_epoch s) _ v sr_staking0 ltac:(lia) Hf) as (Hw & Hl & Hp).
  assert (Hw2 : wf -> staking_wf (fst (slash_contract off bps (read_current_epoch s) (staking_load s)))).
  { intros W. by destruct (slash_contract_wf off bps (read_current_epoch s) _ v (Hwf W) ltac:(lia) Hf). }
  destruct (slash_contract _ _ _ _) as [c' p]. cbn [fst snd] in *.
  assert (Hlk : 0 <= locked_tokens c').
  { pose proof (ao_parts _ Hw) as (? & ? & ?). unfold locked_tokens. lia. }
  destruct (0 <? p) eqn:E; prop_bool.
  - destruct (payout ids sender s TREASURY_ADDRESS c' p Hr sr_treasury0 sr_has_treasury0
      ltac:(lia) ltac:(lia)) as (Hw' & Hl' & Hs').
    simpl. rewrite Hl'. split; [done|]. split; [done|]. split; [unfold staking_total; lia|done].
  - simpl. split; [done|]. split; [done|]. split; [unfold staking_total; lia|done].
Qed.

Lemma unjail_sound ids sender s (wf : Prop) :
  staking_ready ids sender s -> (wf -> staking_wf (staking_load s)) ->
  arm_sound ids (staking_total ids s) wf (call_unjail s (staking_load s) sender).
Proof.
  intros Hr Hwf. unfold call_unjail.
  assert (Hgo : arm_sound ids (staking_total ids s) wf match unjail sender (staking_load s) with
    | Ok c => Fall s c [staking_event "unjailed" sender] (Ok tt)
    | Err e => Fall s (staking_load s) [] (Err (staking_error_msg e)) end).
  { destruct (unjail _ _) as [c'|] eqn:E; [|done].
    destruct (exec_both (OpUnjail sender) (staking_load s) c' 0 wf)
      as (H1 & H2 & H3); [simpl; by rewrite E|apply Hr|done|intros W; by split; [apply Hwf|]|].
    split; [apply Hr|]. split; [done|]. split; [unfold staking_total; lia|done]. }
  destruct (List.find _ _) as [v|]; [|done]. by destruct (_ && _).
Qed.

Lemma rotate_sound ids sender s args (wf : Prop) :
  staking_ready ids sender s ->
  (wf -> staking_wf (staking_load s)
         /\ forall k, read_account_id args 0 = Some k -> k ∉ pending_keys (staking_load s)) ->
  arm_sound ids (staking_total ids s) wf (call_rotate_key s (staking_load s) sender args).
Proof.
  intros Hr Hwf. unfold call_rotate_key. destruct (read_account_id args 0) as [k|]; [|done].
  destruct (rotate_key _ _ _ _) as [c'|] eqn:E; [|done].
  destruct (exec_both (OpRotateKey sender k (read_current_epoch s)) (staking_load s) c' 0 wf)
    as (H1 & H2 & H3); [simpl; by rewrite E|apply Hr|done| |].
  { intros W. destruct (Hwf W) as [? Hk]. split; [done|]. by apply Hk. }
  split; [apply Hr|]. split; [done|]. split; [unfold staking_total; lia|done].
Qed.

(** C14: what a staking call that succeeds does to the tokens, in any state in
    which the sender and the treasury have accounts, no record is negative and
    all tokens together fit in a u128. Unless it is a registration or delegation
    whose amount and fee reserve overflow a u128, which the guard of the call
    lets through, it conserves them: the account balances together with the self
    stakes, delegations and pending undelegations of the contract add up to the
    same total, also when a validator is slashed (the penalty of the validator
    and of its delegators goes to the treasury). The contract's invariant
    survives, provided that nobody registers or rotates to a key which another
    validator is about to take. *)
Theorem staking_call_conserves ids sender method args s s' r :
  staking_ready ids sender s -> Forall (fun b => 0 <= b <= 255) args ->
  execute_staking_call s sender method args = (s', r) -> sc_error r = None ->
  deposit_overflows method args
  \/ (accounts_wf s' /\ amounts_ok (staking_load s') /\ staking_total ids s' = staking_total ids s
      /\ (staking_wf (staking_load s) -> fresh_key method sender args (staking_load s) ->
          staking_wf (staking_load s'))).
Proof.
  intros Hr Hbytes Hcall Hok. unfold execute_staking_call in Hcall.
  set (a := if String.eqb method "register" then _ else _) in Hcall.
  set (wf := staking_wf (staking_load s) /\ fresh_key method sender args (staking_load s)).
  assert (Ha : deposit_overflows method args \/ arm_sound ids (staking_total ids s) wf a).
  { assert (Hw : wf -> staking_wf (staking_load s)) by (by intros [? _]). unfold a.
    repeat (match goal with |- context [String.eqb method ?m] =>
      destruct (String.eqb_spec method m) as [->|_] end).
    - destruct (read_u128 args 0) as [x|] eqn:Ex.
      + destruct (decide (u128_max < x + MIN_FEE_RESERVE)); [left; left; eauto|right].
        apply register_sound; [done|done|intros ? [= <-]%(eq_trans (eq_sym Ex)); lia|].
        intros [W1 [W2 _]]. split; [done|by apply W2].
      + right. apply register_sound; [done|done|intros ? E; congruence|].
        intros [W1 [W2 _]]. split; [done|by apply W2].
    - destruct (read_u128 args 32) as [x|] eqn:Ex.
      + destruct (decide (u128_max < x + MIN_FEE_RESERVE)); [left; right; eauto|right].
        apply delegate_sound; [done|done|intros ? [= <-]%(eq_trans (eq_sym Ex)); lia|done].
      + right. apply delegate_sound; [done|done|intros ? E; congruence|done].
    - right. by apply undelegate_sound.
    - right. by apply withdraw_sound.
    - right. by eapply slash_sound.
    - right. by apply unjail_sound.
    - right. apply rotate_sound; [done|]. intros [W1 [_ W2]]. split; [done|by apply W2].
    - by right. }
  destruct Ha as [Ha|Ha]; [by left|right].
  destruct a as [s1 r1|s1 c1 evs [[]|e]]; simplify_eq/=; try done.
  destruct Ha as (Hw & Hc & Ht & Hwf). pose proof (staking_save_same c1 s1) as Hsame.
  rewrite staking_load_save. split; [by eapply accounts_wf_same|]. split; [done|].
  split; [|intros H1 H2; by apply Hwf].
  unfold staking_total. rewrite staking_load_save, (supply_same s1) by done. exact Ht.
Qed.
End conservation.

(** ** The guard of the deposits overflows *)
Section overflow.
Context {S : Type} `{!StateStore S} `{!StateStoreLaws S}
        `{!Codec Account} `{!CodecLaws Account}
        `{!Codec StakingContract} `{!CodecLaws StakingContract}.
Implicit Types s : S.

Lemma read_u128_at args (pre : bytes) z :
  args = pre ++ le_bytes 16 z -> in_u128 z -> read_u128 args (length pre) = Some z.
Proof.
  intros -> Hz. unfold read_u128, slice.
  assert (Nat.ltb (length (pre ++ le_bytes 16 z)) (length pre + 16) = false) as ->.
  { apply Nat.ltb_ge. by rewrite length_app, length_le_bytes. }
  f_equal. rewrite drop_app_length, take_ge by (by rewrite length_le_bytes).
  by apply from_le_u128.
Qed.

Lemma read_account_id_at (id rest : bytes) :
  length id = 32%nat -> read_account_id (id ++ rest) 0 = Some id.
Proof.
  intros Hl. unfold read_account_id, slice.
  assert (Nat.ltb (length (id ++ rest)) (0 + 32) = false) as ->.
  { apply Nat.ltb_ge. rewrite length_app. lia. }
  f_equal. rewrite drop_0, <- Hl. apply take_app_length.
Qed.

(** delegating the largest u128 amount passes the balance check of any
    account that holds at least 9,999 base units: the sum with the fee reserve
    wraps around, the debit wraps around to one unit more than before, and
    the validator is credited with the whole u128 range. *)
Theorem delegate_guard_overflows s sender val v a :
  accounts_wf s -> load_account s sender = Ok (Some a) ->
  9999 <= balance a < u128_max -> length val = 32%nat ->
  get_validator val (staking_load s) = Some v -> 0 <= total_delegated v ->
  List.find (is_pair sender val) (delegations (staking_load s)) = None ->
  exists s' r, execute_staking_call s sender "delegate" (val ++ le_bytes 16 u128_max) = (s', r)
    /\ sc_error r = None
    /\ balance_of s' sender = balance a + 1
    /\ (exists d, d ∈ delegations (staking_load s') /\ d_delegator d = sender
         /\ d_validator d = val /\ d_amount d = u128_max)
    /\ (exists v', get_validator val (staking_load s') = Some v'
         /\ total_delegated v' = u128_max).
Proof.
  intros Hw Hl [Hb1 Hb2] Hval Hv Hv0 Hnone.
  destruct (Hw _ _ Hl) as (Hid & [? ?] & Hn).
  assert (Hd : exists s1, debit_with_reserve s sender u128_max
    "insufficient balance for delegation (need fee reserve)" = Ok s1
    /\ s1 = save_account_or_keep s (set_balance (balance a + 1) a)).
  { eexists. split; [|reflexivity]. unfold debit_with_reserve.
    apply require_account_spec in Hl. rewrite Hl.
    change (u128_add u128_max MIN_FEE_RESERVE) with 9999.
    destruct (_ <? _) eqn:E; [prop_bool; lia|].
    assert (u128_sub (balance a) u128_max = balance a + 1) as ->.
    { pose proof u128_max_val. unfold u128_sub.
      replace (balance a - u128_max) with (balance a + 1 + (-1) * 2 ^ 128) by lia.
      rewrite Z_mod_plus_full. apply Z.mod_small. lia. }
    by rewrite save_or_keep_eq. }
  destruct Hd as (s1 & Hd & ->). set (s1 := save_account_or_keep s _) in *.
  assert (Hload : staking_load s1 = staking_load s).
  { apply staking_load_get. unfold s1. apply get_save_account. simpl. rewrite Hid.
    apply staking_key_ne. }
  unfold execute_staking_call, call_delegate. simpl.
  rewrite read_account_id_at by done. rewrite <- Hval.
  rewrite (read_u128_at _ val u128_max) by (done || unfold in_u128, u128_max; lia).
  rewrite Hd, Hload. unfold delegate_at_epoch, ok_or, rbind.
  unfold get_validator in Hv. rewrite Hv. cbn [delegations with_validators]. rewrite Hnone.
  eexists _, _. split; [reflexivity|]. split; [done|].
  set (c' := with_delegations _ _).
  split; [|rewrite staking_load_save; split].
  - rewrite (balance_of_same s1) by apply staking_save_same. unfold s1.
    rewrite balance_of_save. simpl. rewrite Hid. by rewrite decide_True.
  - eexists. split; [unfold c'; simpl; apply elem_of_app; right; by left|]. done.
  - unfold c', get_validator. simpl. rewrite find_update_first by done. rewrite Hv.
    eexists. split; [reflexivity|]. simpl. unfold sat_add128. lia.
Qed.
End overflow.

(** ** Examples *)

Definition staking_demo : MemoryStore :=
  staking_save (fst (staking_run [OpRegisterGenesis (replicate 32 1) 1000;
                       OpDelegate (replicate 32 2) (replicate 32 1) 300 4] staking_default))
    (demo_ledger [demo_account 2 50000; mkAccount TREASURY_ADDRESS zero_hash [] 0 7]).

Definition staking_demo_ids : list AccountId := [replicate 32 2; TREASURY_ADDRESS].

Lemma staking_demo_ready : staking_ready staking_demo_ids (replicate 32 2) staking_demo.
Proof.
  assert (Hs : accounts_same (demo_ledger [demo_account 2 50000;
    mkAccount TREASURY_ADDRESS zero_hash [] 0 7]) staking_demo) by apply staking_save_same.
  split.
  - apply (accounts_wf_same _ _ Hs). solve_ledger_wf.
  - unfold staking_demo. rewrite staking_load_save. apply wf_amounts, staking_run_wf; [exact staking_default_wf|].
    apply (bool_decide_unpack _); vm_compute; exact I.
  - apply (bool_decide_unpack _); vm_compute; exact I.
  - apply (bool_decide_unpack _); vm_compute; exact I.
  - apply (bool_decide_unpack _); vm_compute; exact I.
  - eexists. rewrite (load_account_same _ _ _ Hs). vm_compute. reflexivity.
  - eexists. rewrite (load_account_same _ _ _ Hs). vm_compute. reflexivity.
  - vm_compute. discriminate.
Qed.

Lemma staking_call_conserves_witness :
  exists s' r, execute_staking_call staking_demo (replicate 32 2) "delegate"
      (replicate 32 1 ++ le_bytes 16 700) = (s', r)
    /\ sc_error r = None
    /\ staking_total staking_demo_ids s' = staking_total staking_demo_ids staking_demo.
Proof.
  assert (Hr : sc_error (snd (execute_staking_call staking_demo (replicate 32 2) "delegate"
    (replicate 32 1 ++ le_bytes 16 700))) = None) by (vm_compute; reflexivity).
  destruct (execute_staking_call staking_demo (replicate 32 2) "delegate"
    (replicate 32 1 ++ le_bytes 16 700)) as [s' r] eqn:E.
  exists s', r. split; [reflexivity|]. cbn [snd] in Hr.
  split; [exact Hr|].
  assert (Hb : Forall (fun b => 0 <= b <= 255) (replicate 32 1 ++ le_bytes 16 700))
    by (apply (bool_decide_unpack _); vm_compute; exact I).
  destruct (staking_call_conserves _ _ _ _ _ _ _ staking_demo_ready Hb E Hr)
    as [[[Hm _]|[_ (a & Ha & Hlt)]]|(_ & _ & Ht & _)]; [discriminate Hm| |exact Ht].
  exfalso. vm_compute in Ha. injection Ha as <-. vm_compute in Hlt. discriminate.
Defined.

Lemma delegate_guard_overflows_witness :
  exists s' r, execute_staking_call
      (staking_save (fst (staking_run [OpRegisterGenesis (replicate 32 1) 1000] staking_default))
         (demo_ledger [demo_account 2 50000])) (replicate 32 2) "delegate"
      (replicate 32 1 ++ le_bytes 16 u128_max) = (s', r)
    /\ sc_error r = None /\ balance_of s' (replicate 32 2) = 50001.
Proof.
  set (c := fst (staking_run [OpRegisterGenesis (replicate 32 1) 1000] staking_default)).
  set (s := staking_save c (demo_ledger [demo_account 2 50000])).
  assert (Hs : accounts_same (demo_ledger [demo_account 2 50000]) s) by apply staking_save_same.
  destruct (delegate_guard_overflows s (replicate 32 2) (replicate 32 1)
    (mkStakingValidator (replicate 32 1) 1000 0 0 true true 157680 1000 0 None 0)
    (demo_account 2 50000)) as (s' & r & H1 & H2 & H3 & _).
  - apply (accounts_wf_same _ _ Hs). solve_ledger_wf.
  - rewrite (load_account_same _ _ _ Hs). vm_compute. reflexivity.
  - simpl. unfold u128_max. lia.
  - reflexivity.
  - unfold s. rewrite staking_load_save. reflexivity.
  - simpl. lia.
  - unfold s. rewrite staking_load_save. reflexivity.
  - exists s', r. exact (conj H1 (conj H2 H3)).
Defined.
