(* ===== verification/SysVesting.v ===== *)
(** The vesting calls ([execute_vesting_call] of
    [crates/solen-execution/src/system_calls.rs]). *)

From S2P Require Import Prelude Types Store Memory Codec State SysCommon Vesting.
Open Scope Z_scope.

Definition vesting_error_msg (e : VestingError) : string :=
  match e with
  | VestNotFound => "no vesting schedule found for this account"
  | CliffNotReached => "nothing to claim yet (cliff not reached)"
  | FullyClaimed => "nothing to claim (already fully claimed)"
  | NotAdmin => "not authorized (admin only)"
  end.

(** [{:?}] of a vesting type. *)
Definition vesting_type_debug (t : VestingType) : string :=
  match t with
  | Team => "Team"
  | Investor => "Investor"
  | Validator => "Validator"
  | Custom c t => "Custom { cliff_epochs: " +:+ pretty c +:+ ", total_epochs: " +:+ pretty t +:+ " }"
  end.

Definition vesting_event (topic : string) (data : bytes) : Event :=
  mkEvent VESTING_ADDRESS (bytes_of_string topic) data.

Section calls.
Context {S : Type} `{!StateStore S} `{!Codec Account} `{!Codec VestingContract}.

Abbreviation vesting_arm := (arm S VestingContract).

Definition call_vesting_claim (s : S) (vesting : VestingContract) (sender : AccountId) :
    vesting_arm :=
  match claim sender (read_current_epoch s) vesting with
  | Err e => Fall s vesting [] (Err (vesting_error_msg e))
  | Ok (vesting, amount) =>
    let underfunded := Return s
      (err "vesting vault underfunded — claim unavailable until the vault is funded") in
    match load_account s VESTING_ADDRESS with
    | Ok (Some vault) =>
      if amount <=? balance vault then
        let s := save_account_or_keep s (set_balance (u128_sub (balance vault) amount) vault) in
        let credited :=
          match require_account s sender with
          | Ok a => save_account s (set_balance (sat_add128 (balance a) amount) a)
          | Err _ => Ok s
          end in
        match credited with
        | Err e => Return s (err ("state save failed: " +:+ state_error_msg e))
        | Ok s =>
          let vesting := vesting_load s in
          Fall s vesting [vesting_event "vesting_claim" (sender ++ le_bytes 16 amount)] (Ok tt)
        end
      else underfunded
    | _ => underfunded
    end
  end.

Definition call_vesting_status (s : S) (vesting : VestingContract) (sender : AccountId) :
    vesting_arm :=
  match get_schedule sender vesting with
  | Some schedule =>
    let current_epoch := read_current_epoch s in
    let vested := vested_at schedule current_epoch in
    let claimable := claimable_at schedule current_epoch in
    let text := "total=" +:+ pretty (total_amount schedule) +:+ ",vested=" +:+ pretty vested
      +:+ ",claimed=" +:+ pretty (claimed schedule) +:+ ",claimable=" +:+ pretty claimable
      +:+ ",type=" +:+ vesting_type_debug (vesting_type schedule) in
    Fall s vesting [vesting_event "vesting_status" (bytes_of_string text)] (Ok tt)
  | None => Fall s vesting [] (Err "no vesting schedule for this account"%string)
  end.

(** The vesting type in the arguments from byte 48 on. *)
Definition read_vesting_type (args : bytes) : result VestingType string :=
  match args !!! 48%nat with
  | 0 => Ok Team
  | 1 => Ok Investor
  | 2 => Ok Validator
  | 3 =>
      if (length args <? 65)%nat
      then Err "add_vesting: Custom type needs cliff_epochs[8] + total_epochs[8]"%string
      else Ok (Custom (from_le (slice 49 8 args)) (from_le (slice 57 8 args)))
  | _ => Err "add_vesting: invalid vesting type"%string
  end.

Definition call_add_vesting (s : S) (sender : AccountId) (args : bytes) : vesting_arm :=
  if (length args <? 49)%nat
  then Return s (err "add_vesting: invalid args (need recipient[32] + amount[16] + type[1])")
  else
  let r := slice 0 32 args in
  let amount := from_le (slice 32 16 args) in
  match read_vesting_type args with
  | Err e => Return s (err e)
  | Ok vtype =>
    match load_account s TREASURY_ADDRESS with
    | Ok (Some treasury) =>
      if balance treasury <? amount
      then Return s (err "add_vesting: insufficient Treasury balance")
      else
      let s := debit_loaded s treasury amount in
      let s := credit_or_create s VESTING_ADDRESS amount in
      let vesting := vesting_load s in
      match add_schedule_admin sender r amount vtype (read_current_epoch s) vesting with
      | Ok vesting =>
          Fall s vesting [vesting_event "vesting_added" (r ++ le_bytes 16 amount)] (Ok tt)
      | Err e => Fall s vesting [] (Err (vesting_error_msg e))
      end
    | _ => Return s (err "add_vesting: Treasury account not found")
    end
  end.

Definition call_set_vesting_admin (s : S) (vesting : VestingContract) (sender : AccountId)
    (args : bytes) : vesting_arm :=
  if (length args <? 32)%nat then Return s (err "set_vesting_admin: need new_admin[32]")
  else
  let new_admin := slice 0 32 args in
  match set_admin sender new_admin vesting with
  | Ok vesting => Fall s vesting [vesting_event "vesting_admin_set" new_admin] (Ok tt)
  | Err e => Fall s vesting [] (Err (vesting_error_msg e))
  end.

Definition execute_vesting_call (s : S) (sender : AccountId) (method : string) (args : bytes) :
    S * SystemCallResult :=
  let vesting := vesting_load s in
  let a :=
    if String.eqb method "claim" then call_vesting_claim s vesting sender
    else if String.eqb method "status" then call_vesting_status s vesting sender
    else if String.eqb method "add_vesting" then call_add_vesting s sender args
    else if String.eqb method "set_vesting_admin" then call_set_vesting_admin s vesting sender args
    else Fall s vesting [] (Err ("unknown vesting method: " +:+ method)) in
  match a with
  | Return s r => (s, r)
  | Fall s vesting events r => (vesting_save vesting s, finish events r)
  end.
End calls.

(** ** Claims at the level of the call *)
Section claims.
Context {S : Type} `{!StateStore S} `{!StateStoreLaws S}
        `{!Codec Account} `{!CodecLaws Account}
        `{!Codec VestingContract} `{!CodecLaws VestingContract}.
Implicit Types s : S.

Lemma vesting_key_ne id : VESTING_STORAGE_KEY <> account_key id.
Proof. discriminate. Qed.

Lemma vesting_save_same c s : accounts_same s (vesting_save c s).
Proof. intros id. apply get_save_ne, vesting_key_ne. Qed.

Lemma vesting_load_save c s : vesting_load (vesting_save c s) = c.
Proof. apply load_save. Qed.

Lemma vesting_load_account s a : vesting_load (save_account_or_keep s a) = vesting_load s.
Proof. apply load_get_eq, get_save_account, vesting_key_ne. Qed.

Lemma epoch_account s a : read_current_epoch (save_account_or_keep s a) = read_current_epoch s.
Proof. unfold read_current_epoch. rewrite get_save_account; [done|discriminate]. Qed.

Lemma epoch_vesting_save c s : read_current_epoch (vesting_save c s) = read_current_epoch s.
Proof. unfold read_current_epoch. unfold vesting_save. rewrite get_save_ne; [done|discriminate]. Qed.

(** What one successful claim call does to a recipient other than the vault. *)
Lemma claim_call_effect s sender sched vault a amount :
  accounts_wf s -> sender <> VESTING_ADDRESS ->
  get_schedule sender (vesting_load s) = Some sched ->
  amount = claimable_at sched (read_current_epoch s) -> 0 < amount ->
  load_account s VESTING_ADDRESS = Ok (Some vault) -> amount <= balance vault ->
  load_account s sender = Ok (Some a) -> balance a + amount <= u128_max ->
  exists s' r, execute_vesting_call s sender "claim" [] = (s', r) /\ sc_error r = None
    /\ accounts_wf s'
    /\ vesting_load s' = vesting_load s
    /\ read_current_epoch s' = read_current_epoch s
    /\ load_account s' VESTING_ADDRESS = Ok (Some (set_balance (balance vault - amount) vault))
    /\ load_account s' sender = Ok (Some (set_balance (balance a + amount) a)).
Proof.
  intros Hw Hne Hs Ham Hpos Hv Hle Ha Hm.
  destruct (Hw _ _ Hv) as (Hvid & [? ?] & ?). destruct (Hw _ _ Ha) as (Haid & [? ?] & ?).
  unfold execute_vesting_call, call_vesting_claim. simpl.
  unfold claim, ok_or, rbind. unfold get_schedule in Hs. rewrite Hs, <- Ham.
  destruct (amount =? 0) eqn:E; [prop_bool; lia|]. rewrite Hv.
  destruct (amount <=? balance vault) eqn:E2; [|prop_bool; lia].
  rewrite u128_sub_exact by lia.
  set (s1 := save_account_or_keep s _).
  assert (Hr : require_account s1 sender = Ok a).
  { apply require_account_spec. unfold s1. rewrite load_save_account. simpl. rewrite Hvid.
    by rewrite decide_False. }
  rewrite Hr, save_or_keep_eq, sat_add128_exact by lia.
  set (s2 := save_account_or_keep s1 _).
  eexists _, _. split; [reflexivity|]. split; [done|].
  assert (Hwf2 : accounts_wf s2)
    by (unfold s2, s1; repeat apply accounts_wf_save; auto; unfold in_u128; simpl; lia).
  assert (Hld : vesting_load s2 = vesting_load s)
    by (unfold s2, s1; by rewrite !vesting_load_account).
  assert (Hep : read_current_epoch s2 = read_current_epoch s)
    by (unfold s2, s1; by rewrite !epoch_account).
  pose proof (vesting_save_same (vesting_load s2) s2) as Hsame.
  rewrite vesting_load_save, epoch_vesting_save, !(load_account_same _ _ _ Hsame).
  split; [by eapply accounts_wf_same|]. split; [done|]. split; [done|].
  unfold s2, s1. rewrite !load_save_account. simpl. rewrite Haid, Hvid. split.
  - rewrite decide_False by congruence. by rewrite decide_True.
  - by rewrite decide_True.
Qed.

Fixpoint claim_calls (n : nat) (sender : AccountId) s : S :=
  match n with
  | O => s
  | Datatypes.S n => claim_calls n sender (fst (execute_vesting_call s sender "claim" []))
  end.

(** C40: a successful claim does not advance the schedule: the contract is
    reloaded from the store before it is saved, so the [claimed] counter stays
    where it was, and the recipient can repeat the call in the same epoch,
    receiving the whole claimable amount each time, as long as the vault holds
    it. *)
Theorem vesting_claim_repeats n s sender sched vault a amount :
  accounts_wf s -> sender <> VESTING_ADDRESS ->
  get_schedule sender (vesting_load s) = Some sched ->
  amount = claimable_at sched (read_current_epoch s) -> 0 < amount ->
  load_account s VESTING_ADDRESS = Ok (Some vault) -> Z.of_nat n * amount <= balance vault ->
  load_account s sender = Ok (Some a) -> balance a + Z.of_nat n * amount <= u128_max ->
  let s' := claim_calls n sender s in
  balance_of s' sender = balance a + Z.of_nat n * amount
  /\ balance_of s' VESTING_ADDRESS = balance vault - Z.of_nat n * amount
  /\ vesting_load s' = vesting_load s.
Proof.
  revert s vault a. induction n as [|n IH]; intros s vault a Hw Hne Hs Ham Hpos Hv Hle Ha Hm s'.
  - unfold s', balance_of. simpl. rewrite Hv, Ha. repeat split; lia.
  - rewrite Nat2Z.inj_succ in *.
    destruct (claim_call_effect s sender sched vault a amount) as
      (s1 & r & Hc & _ & Hw1 & Hl1 & He1 & Hv1 & Ha1); auto; [lia|lia|].
    destruct (Hw _ _ Hv) as (_ & [? ?] & _).
    unfold s'. simpl. rewrite Hc. simpl.
    destruct (IH s1 _ _ Hw1 Hne ltac:(by rewrite Hl1) ltac:(by rewrite He1) Hpos Hv1
      ltac:(simpl; lia) Ha1 ltac:(simpl; lia)) as (H1 & H2 & H3).
    rewrite H1, H2, H3. simpl. repeat split; [lia|lia|done].
Qed.
End claims.

Definition vesting_demo_store : MemoryStore :=
  st_put (vesting_save (add_schedule (replicate 32 5) 1000 (Custom 0 100) 0 vesting_default)
    (demo_ledger [demo_account 5 10; mkAccount VESTING_ADDRESS zero_hash [] 0 5000]))
    CHAIN_META_KEY (le_bytes 8 1000 ++ le_bytes 8 0).

Lemma vesting_claim_repeats_witness :
  claimable_at (mkSchedule (replicate 32 5) 1000 0 (Custom 0 100) 0) 10 = 100
  /\ balance_of (claim_calls 3 (replicate 32 5) vesting_demo_store) (replicate 32 5) = 310.
Proof.
  split; [reflexivity|].
  assert (Hs : accounts_same (demo_ledger [demo_account 5 10;
    mkAccount VESTING_ADDRESS zero_hash [] 0 5000]) vesting_demo_store).
  { intros id. unfold vesting_demo_store. rewrite get_put_ne by discriminate.
    apply vesting_save_same. }
  destruct (vesting_claim_repeats 3 vesting_demo_store (replicate 32 5)
    (mkSchedule (replicate 32 5) 1000 0 (Custom 0 100) 0)
    (mkAccount VESTING_ADDRESS zero_hash [] 0 5000) (demo_account 5 10) 100) as (H & _).
  - apply (accounts_wf_same _ _ Hs). solve_ledger_wf.
  - discriminate.
  - vm_compute. reflexivity.
  - vm_compute. reflexivity.
  - lia.
  - rewrite (load_account_same _ _ _ Hs). vm_compute. reflexivity.
  - simpl. lia.
  - rewrite (load_account_same _ _ _ Hs). vm_compute. reflexivity.
  - simpl. unfold u128_max. lia.
  - exact H.
Defined.
