(* ===== verification/SysGovernance.v ===== *)
(** The governance calls ([execute_governance_call] of
    [crates/solen-execution/src/system_calls.rs]): proposals with a deposit,
    votes capped at the voter's stake, finalisation with the deposit handed
    back, execution of the accepted change. *)

From S2P Require Import Prelude Types Store Memory Codec State SysCommon Staking Governance.
From S2P Require Import Vesting SysStaking SysVesting.
Open Scope Z_scope.

Definition governance_error_msg (e : GovernanceError) : string :=
  match e with
  | ProposalNotFound => "proposal not found"
  | VotingEnded => "voting period ended"
  | VotingNotEnded => "voting period not ended"
  | AlreadyVoted => "already voted"
  | ProposalNotPassed => "proposal not passed"
  | TimelockNotExpired => "timelock not expired"
  | AlreadyExecuted => "proposal already executed"
  | InvalidProposalType => "invalid proposal type"
  end.

(** [{:?}] of a status. *)
Definition status_debug (st : ProposalStatus) : string :=
  match st with
  | Active => "Active" | Passed => "Passed" | Rejected => "Rejected"
  | Executed => "Executed" | Expired => "Expired"
  end.

Definition CONFIG_BASE_FEE_KEY : bytes := Eval vm_compute in bytes_of_string "__config_base_fee__".
Definition CONFIG_BLOCK_TIME_KEY : bytes :=
  Eval vm_compute in bytes_of_string "__config_block_time__".
Definition CONFIG_BURN_RATE_KEY : bytes :=
  Eval vm_compute in bytes_of_string "__config_burn_rate__".
Definition CONFIG_EPOCH_REWARD_KEY : bytes :=
  Eval vm_compute in bytes_of_string "__config_epoch_reward__".
Definition CONFIG_UNBONDING_KEY : bytes :=
  Eval vm_compute in bytes_of_string "__config_unbonding_period__".
Definition BRIDGE_RELAYER_KEY : bytes := Eval vm_compute in bytes_of_string "__bridge_relayer__".

Definition gov_event (topic : string) (data : bytes) : Event :=
  mkEvent GOVERNANCE_ADDRESS (bytes_of_string topic) data.

Definition with_min_stake (x : option u128) (c : StakingContract) : StakingContract :=
  mkStakingContract (validators c) (delegations c) (undelegations c) x (unbonding_period c).
Definition with_unbonding (x : option u64) (c : StakingContract) : StakingContract :=
  mkStakingContract (validators c) (delegations c) (undelegations c) (min_validator_stake c) x.

Section calls.
Context {S : Type} `{!StateStore S} `{!Codec Account} `{!Codec GovernanceContract}
        `{!Codec StakingContract} `{!Codec VestingContract}.
(** [{:?}] of a string. *)
Context (debug_str : string -> string).

Abbreviation gov_arm := (arm S GovernanceContract).

(** ** Proposals *)

(** The common end of the [propose_] methods. *)
Definition created (s : S) (gov : GovernanceContract) (sender : AccountId)
    (action : ProposalAction) (desc : bytes) : gov_arm :=
  let '(gov, id) := create_proposal sender action (from_utf8_lossy desc) (read_current_epoch s) gov in
  Fall s gov [gov_event "proposal_created" (le_bytes 8 id)] (Ok tt).

Definition propose_set_base_fee s gov sender (args : bytes) : gov_arm :=
  match read_u128 args 0 with
  | None => Return s (err "invalid args: need new_fee[16]")
  | Some new_fee => created s gov sender (SetBaseFee new_fee) (drop 16 args)
  end.

Definition propose_set_block_time s gov sender (args : bytes) : gov_arm :=
  match read_u64 args 0 with
  | None => Return s (err "invalid args: need new_block_time_ms[8]")
  | Some t => created s gov sender (SetBlockTime t) (drop 8 args)
  end.

Definition propose_set_burn_rate s gov sender (args : bytes) : gov_arm :=
  match read_u64 args 0 with
  | None => Return s (err "invalid args: need new_burn_rate_bps[8]")
  | Some r =>
      if 10000 <? r then Return s (err "burn rate cannot exceed 10000 bps (100%)")
      else created s gov sender (SetBurnRate r) (drop 8 args)
  end.

Definition propose_set_epoch_reward s gov sender (args : bytes) : gov_arm :=
  match read_u128 args 0 with
  | None => Return s (err "invalid args: need new_reward[16]")
  | Some r => created s gov sender (SetEpochReward r) (drop 16 args)
  end.

Definition propose_set_min_validator_stake s gov sender (args : bytes) : gov_arm :=
  match read_u128 args 0 with
  | None => Return s (err "invalid args: need new_min_stake[16]")
  | Some m => created s gov sender (SetMinValidatorStake m) (drop 16 args)
  end.

Definition propose_set_unbonding_period s gov sender (args : bytes) : gov_arm :=
  match read_u64 args 0 with
  | None => Return s (err "invalid args: need new_period[8]")
  | Some p =>
      if p =? 0 then Return s (err "unbonding period must be > 0")
      else created s gov sender (SetUnbondingPeriod p) (drop 8 args)
  end.

Definition propose_set_bridge_relayer s gov sender (args : bytes) : gov_arm :=
  if (length args <? 32)%nat then Return s (err "invalid args: need relayer[32]")
  else created s gov sender (SetBridgeRelayer (slice 0 32 args)) (drop 32 args).

Definition propose_set_vesting_admin s gov sender (args : bytes) : gov_arm :=
  if (length args <? 32)%nat then Return s (err "invalid args: need admin[32]")
  else created s gov sender (SetVestingAdmin (slice 0 32 args)) (drop 32 args).

Definition propose_migrate_team_pool s gov sender (args : bytes) : gov_arm :=
  created s gov sender MigrateTeamPoolToVesting args.

Definition propose_set_voting_period s gov sender (args : bytes) : gov_arm :=
  if (length args <? 8)%nat then Return s (err "invalid args: need epochs[8]")
  else created s gov sender (SetGovernanceVotingPeriod (from_le (slice 0 8 args))) (drop 8 args).

(** ** Voting *)

(** The stake the voter had committed before this epoch: its own self stake as
    an active validator and its delegations. *)
Definition voting_stake (voter : AccountId) (epoch : u64) (c : StakingContract) : u128 :=
  let validator_stake := u128_sum (map self_stake
    (List.filter (fun v => sv_eligible_from_epoch v <=? epoch)
      (List.filter (fun v => bytes_eqb (sv_id v) voter && is_active v) (validators c)))) in
  let delegated_stake := u128_sum (map d_amount
    (List.filter (fun d => d_eligible_from_epoch d <=? epoch)
      (List.filter (fun d => bytes_eqb (d_delegator d) voter) (delegations c)))) in
  sat_add128 validator_stake delegated_stake.

Definition call_vote (s : S) (gov : GovernanceContract) (sender : AccountId) (args : bytes) :
    gov_arm :=
  match read_u64 args 0 with
  | None => Return s (err "invalid args")
  | Some proposal_id =>
    let sup := match args !! 8%nat with Some b => negb (b =? 0) | None => false end in
    let claimed_weight := default 1 (read_u128 args 9) in
    let epoch := read_current_epoch s in
    let actual_stake := voting_stake sender epoch (staking_load s) in
    if actual_stake =? 0 then Return s (err "voter has no stake")
    else
    let weight := Z.min claimed_weight actual_stake in
    match vote proposal_id sender sup weight epoch gov with
    | Ok gov => Fall s gov [gov_event "voted" (le_bytes 8 proposal_id)] (Ok tt)
    | Err e => Fall s gov [] (Err (governance_error_msg e))
    end
  end.

(** ** Finalisation *)

Definition call_finalize (s : S) (gov : GovernanceContract) (args : bytes) : gov_arm :=
  match read_u64 args 0 with
  | None => Return s (err "invalid args: need proposal_id[8]")
  | Some proposal_id =>
    let epoch := read_current_epoch s in
    let stake := total_active_stake (staking_load s) in
    let '(proposer, deposit) :=
      match get_proposal proposal_id gov with
      | Some p => (proposer p, p_deposit p)
      | None => (zero_hash, 0)
      end in
    match finalize proposal_id stake epoch (emergency_fasttrack_active epoch) gov with
    | Ok (gov, status) =>
      let s := governance_save gov s in
      let s :=
        if 0 <? deposit then
          credit_if_present s
            (match status with Passed => proposer | _ => TREASURY_ADDRESS end) deposit
        else s in
      Fall s (governance_load s)
        [gov_event "proposal_finalized"
           (le_bytes 8 proposal_id ++ bytes_of_string (status_debug status))] (Ok tt)
    | Err e => Fall s gov [] (Err (governance_error_msg e))
    end
  end.

(** ** Execution *)

(** [MigrateTeamPoolToVesting]: the whole team pool into the vesting vault. *)
Definition migrate_team_pool (s : S) : S * u128 :=
  match load_account s TEAM_POOL_ADDRESS with
  | Ok (Some team_pool) =>
    let amount := balance team_pool in
    if 0 <? amount then
      let s := save_account_or_keep s (set_balance 0 team_pool) in
      (credit_or_create s VESTING_ADDRESS amount, amount)
    else (s, amount)
  | _ => (s, 0)
  end.

Definition apply_proposal (s : S) (gov : GovernanceContract) (action : ProposalAction) :
    S * GovernanceContract * string :=
  match action with
  | SetBaseFee n => (st_put s CONFIG_BASE_FEE_KEY (le_bytes 16 n), gov, "base_fee=" +:+ pretty n)
  | SetBlockTime n =>
      (st_put s CONFIG_BLOCK_TIME_KEY (le_bytes 8 n), gov, "block_time=" +:+ pretty n +:+ "ms")
  | SetBurnRate n =>
      (st_put s CONFIG_BURN_RATE_KEY (le_bytes 8 n), gov, "burn_rate=" +:+ pretty n +:+ "bps")
  | SetEpochReward n =>
      (st_put s CONFIG_EPOCH_REWARD_KEY (le_bytes 16 n), gov, "epoch_reward=" +:+ pretty n)
  | SetMinValidatorStake n =>
      let s := st_put s CONFIG_MIN_STAKE_KEY (le_bytes 16 n) in
      (staking_save (with_min_stake (Some n) (staking_load s)) s, gov,
       "min_validator_stake=" +:+ pretty n)
  | SetUnbondingPeriod n =>
      let s := st_put s CONFIG_UNBONDING_KEY (le_bytes 8 n) in
      (staking_save (with_unbonding (Some n) (staking_load s)) s, gov,
       "unbonding_period=" +:+ pretty n)
  | EmergencyPause => (s, gov, "paused"%string)
  | EmergencyResume => (s, gov, "resumed"%string)
  | SetBridgeRelayer r =>
      (st_put s BRIDGE_RELAYER_KEY r, gov, "bridge_relayer=" +:+ hex_encode r)
  | SetVestingAdmin a =>
      (vesting_save (governance_set_admin a (vesting_load s)) s, gov,
       "vesting_admin=" +:+ hex_encode a)
  | MigrateTeamPoolToVesting =>
      let '(s, moved) := migrate_team_pool s in
      (s, gov, "migrated_team_pool_to_vesting=" +:+ pretty moved)
  | SetGovernanceVotingPeriod n =>
      (s, with_voting_period n gov, "voting_period=" +:+ pretty n)
  | SetMaxOpsPerBlock n => (s, gov, "SetMaxOpsPerBlock { new_max: " +:+ pretty n +:+ " }")
  | RegisterRollup id name =>
      (s, gov, "RegisterRollup { rollup_id: " +:+ pretty id +:+ ", name: " +:+ debug_str name +:+ " }")
  end.

Definition call_execute (s : S) (gov : GovernanceContract) (args : bytes) : gov_arm :=
  match read_u64 args 0 with
  | None => Return s (err "invalid args: need proposal_id[8]")
  | Some proposal_id =>
    let epoch := read_current_epoch s in
    match execute proposal_id epoch (emergency_fasttrack_active epoch) gov with
    | Ok (gov, action) =>
      let '(s, gov, action_desc) := apply_proposal s gov action in
      Fall s gov [gov_event "proposal_executed"
        (le_bytes 8 proposal_id ++ bytes_of_string action_desc)] (Ok tt)
    | Err e => Fall s gov [] (Err (governance_error_msg e))
    end
  end.

(** ** The call *)

Definition is_proposal_method (method : string) : bool := String.prefix "propose_" method.

Definition governance_method (s : S) (gov : GovernanceContract) (sender : AccountId)
    (method : string) (args : bytes) : gov_arm :=
  if String.eqb method "propose_set_base_fee" then propose_set_base_fee s gov sender args
  else if String.eqb method "propose_set_block_time" then propose_set_block_time s gov sender args
  else if String.eqb method "propose_set_burn_rate" then propose_set_burn_rate s gov sender args
  else if String.eqb method "propose_set_epoch_reward" then propose_set_epoch_reward s gov sender args
  else if String.eqb method "propose_set_min_validator_stake"
  then propose_set_min_validator_stake s gov sender args
  else if String.eqb method "propose_set_unbonding_period"
  then propose_set_unbonding_period s gov sender args
  else if String.eqb method "propose_set_bridge_relayer"
  then propose_set_bridge_relayer s gov sender args
  else if String.eqb method "propose_set_vesting_admin"
  then propose_set_vesting_admin s gov sender args
  else if String.eqb method "propose_migrate_team_pool_to_vesting"
  then propose_migrate_team_pool s gov sender args
  else if String.eqb method "propose_set_voting_period"
  then propose_set_voting_period s gov sender args
  else if String.eqb method "vote" then call_vote s gov sender args
  else if String.eqb method "finalize" then call_finalize s gov args
  else if String.eqb method "execute" then call_execute s gov args
  else Fall s gov [] (Err ("unknown governance method: " +:+ method)).

(** The deposit of a proposal; the numbers are constants, no overflow. *)
Definition take_deposit (s : S) (sender : AccountId) : result S SystemCallResult :=
  match require_account s sender with
  | Ok a =>
      if balance a <? PROPOSAL_DEPOSIT + MIN_FEE_RESERVE
      then Err (err ("insufficient balance for proposal deposit: need "
             +:+ pretty (PROPOSAL_DEPOSIT + MIN_FEE_RESERVE) +:+ " (1,000 SOLEN + fee reserve)"))
      else match save_account s (set_balance (u128_sub (balance a) PROPOSAL_DEPOSIT) a) with
           | Ok s => Ok s
           | Err e => Err (err ("state save failed: " +:+ state_error_msg e))
           end
  | Err e => Err (err (state_error_msg e))
  end.

Definition execute_governance_call (s : S) (sender : AccountId) (method : string)
    (args : bytes) : S * SystemCallResult :=
  let gov := governance_load s in
  match (if is_proposal_method method then take_deposit s sender else Ok s) with
  | Err r => (s, r)
  | Ok s =>
    let gov := if is_proposal_method method then governance_load s else gov in
    match governance_method s gov sender method args with
    | Return s r => (s, r)
    | Fall s gov events r =>
      let s := governance_save gov s in
      match r with
      | Ok _ => (s, mkSysResult SYSTEM_CALL_GAS events None)
      | Err e =>
        (if is_proposal_method method then credit_if_present s sender PROPOSAL_DEPOSIT else s,
         mkSysResult SYSTEM_CALL_GAS events (Some e))
      end
    end
  end.
End calls.

(** ** One token, one vote *)

(** Elements counted under distinct keys are counted at most once. *)
Lemma sum_by_key_le {A} (key : A -> bytes) (q : A -> bool) (w : A -> Z) (keys : list bytes) l :
  NoDup keys -> (forall x, x ∈ l -> 0 <= w x) ->
  sumZ (map (fun k => sumZ (map w (List.filter (fun x => bytes_eqb (key x) k && q x) l))) keys)
  <= sumZ (map w (List.filter q l)).
Proof.
  intros Hn. induction l as [|x l IH]; intros Hw.
  - simpl. induction keys as [|k ks IHk]; simpl; [lia|]. apply NoDup_cons in Hn as [_ ?]. auto.
  - assert (Hx : 0 <= w x) by (apply Hw; set_solver).
    specialize (IH ltac:(set_solver)).
    assert (Hsplit : sumZ (map (fun k => sumZ (map w
        (List.filter (fun x => bytes_eqb (key x) k && q x) (x :: l)))) keys)
      = sumZ (map (fun k => if bytes_eqb (key x) k && q x then w x else 0) keys)
        + sumZ (map (fun k => sumZ (map w
            (List.filter (fun x => bytes_eqb (key x) k && q x) l))) keys)).
    { clear. induction keys as [|k ks IHk]; simpl; [lia|].
      destruct (_ && _); simpl in *; lia. }
    assert (Hone : sumZ (map (fun k => if bytes_eqb (key x) k && q x then w x else 0) keys)
      <= if q x then w x else 0).
    { clear -Hn Hx. induction keys as [|k ks IHk]; simpl; [destruct (q x); lia|].
      apply NoDup_cons in Hn as [Hk Hn]. specialize (IHk Hn).
      destruct (bytes_eqb (key x) k) eqn:E; simpl; [|lia]. apply bytes_eqb_true in E. subst k.
      rewrite (sumZ_map_ext _ (fun _ => 0)).
      - assert (sumZ (map (fun _ : bytes => 0) ks) = 0) as -> by (clear; induction ks; simpl; lia).
        destruct (q x); lia.
      - intros k Hin. destruct (bytes_eqb (key x) k) eqn:E2; [|done].
        apply bytes_eqb_true in E2. subst k. done. }
    rewrite Hsplit. simpl. destruct (q x); simpl; lia.
Qed.

Lemma filter_filter {A} (p q : A -> bool) l :
  List.filter p (List.filter q l) = List.filter (fun x => q x && p x) l.
Proof.
  induction l as [|x l IH]; simpl; [done|]. destruct (q x); simpl; [|done].
  destruct (p x); by rewrite IH.
Qed.

(** Delegations to validators that are not active: they still vote, but the
    quorum denominator leaves them out. *)
Definition inactive_delegated (c : StakingContract) : Z :=
  sumZ (map total_delegated (List.filter (fun v => negb (is_active v)) (validators c))).

Lemma total_active_stake_exact c :
  staking_wf c ->
  total_active_stake c = sumZ (map self_stake (active_validators c))
                         + sumZ (map total_delegated (active_validators c)).
Proof. intros Hc. apply (stake_sum_exact is_active c Hc). Qed.

(** The weight of one account, against its records. *)
Lemma voting_stake_le c epoch w :
  staking_wf c ->
  let qv := fun v => is_active v && (sv_eligible_from_epoch v <=? epoch) in
  let qd := fun d => d_eligible_from_epoch d <=? epoch in
  voting_stake w epoch c
  <= sumZ (map self_stake (List.filter (fun v => bytes_eqb (sv_id v) w && qv v) (validators c)))
     + sumZ (map d_amount (List.filter (fun d => bytes_eqb (d_delegator d) w && qd d) (delegations c))).
Proof.
  intros Hc qv qd. pose proof (wf_parts c Hc) as (? & ? & ?). pose proof (wf_bound c Hc) as Hb.
  unfold locked_tokens in Hb.
  pose proof (wf_self c Hc) as Hs. rewrite Forall_forall in Hs.
  pose proof (wf_damounts c Hc) as Hd. rewrite Forall_forall in Hd.
  unfold voting_stake. rewrite !filter_filter.
  rewrite (filter_ext (fun v => bytes_eqb (sv_id v) w && is_active v
      && (sv_eligible_from_epoch v <=? epoch)) (fun v => bytes_eqb (sv_id v) w && qv v))
    by (intros v; unfold qv; by rewrite andb_assoc).
  change (fun d => bytes_eqb (d_delegator d) w && (d_eligible_from_epoch d <=? epoch))
    with (fun d => bytes_eqb (d_delegator d) w && qd d).
  rewrite !u128_sum_exact.
  - unfold sat_add128. lia.
  - by apply Forall_map, Forall_filter_bool, (wf_damounts c Hc).
  - pose proof (sumZ_filter_le d_amount (fun d => bytes_eqb (d_delegator d) w && qd d) _ Hd). lia.
  - by apply Forall_map, Forall_filter_bool, (wf_self c Hc).
  - pose proof (sumZ_filter_le self_stake (fun v => bytes_eqb (sv_id v) w && qv v) _ Hs). lia.
Qed.

(** Stake is counted once: the voting weights of pairwise distinct accounts
    add up to at most the stake of the active validators, own and delegated,
    plus the delegations to validators that are currently inactive (which vote
    although the quorum denominator leaves them out). *)
Theorem votes_bounded_by_stake c epoch voters :
  staking_wf c -> NoDup voters ->
  sumZ (map (fun w => voting_stake w epoch c) voters)
  <= total_active_stake c + inactive_delegated c.
Proof.
  intros Hc Hn.
  pose proof (wf_self c Hc) as Hs. rewrite Forall_forall in Hs.
  pose proof (wf_damounts c Hc) as Hd. rewrite Forall_forall in Hd.
  set (qv := fun v => is_active v && (sv_eligible_from_epoch v <=? epoch)).
  set (qd := fun d => d_eligible_from_epoch d <=? epoch).
  pose proof (sum_by_key_le sv_id qv self_stake voters _ Hn Hs) as Hb1.
  pose proof (sum_by_key_le d_delegator qd d_amount voters _ Hn Hd) as Hb2.
  pose proof (sumZ_map_le _ _ voters (fun w _ => voting_stake_le c epoch w Hc)) as Hb3.
  cbv zeta in Hb3. fold qv qd in Hb3. rewrite sumZ_map_add in Hb3.
  pose proof (sumZ_filter_le d_amount qd _ Hd) as Hb4.
  assert (Hb5 : sumZ (map self_stake (List.filter qv (validators c)))
               <= sumZ (map self_stake (active_validators c))).
  { unfold qv, active_validators. rewrite <- filter_filter.
    apply (sumZ_filter_le self_stake). intros v Hv.
    apply Hs. apply list_elem_of_In, filter_In in Hv as [Hv _]. by apply list_elem_of_In. }
  rewrite (delegated_sum c Hc) in Hb4.
  rewrite (sumZ_filter_split total_delegated is_active) in Hb4.
  rewrite total_active_stake_exact by done. unfold inactive_delegated.
  unfold active_validators in *. lia.
Qed.

Lemma votes_bounded_by_stake_witness :
  staking_wf demo_delegated
  /\ sumZ (map (fun w => voting_stake w 9 demo_delegated) [demo_key 1; demo_key 9; demo_key 7])
     <= 1300.
Proof.
  assert (Hwf : staking_wf demo_delegated).
  { apply staking_run_wf; [exact staking_default_wf|].
    apply (bool_decide_unpack _); vm_compute; exact I. }
  split; [exact Hwf|].
  apply (votes_bounded_by_stake demo_delegated 9 [demo_key 1; demo_key 9; demo_key 7] Hwf).
  apply (bool_decide_unpack _); vm_compute; exact I.
Defined.

(** ** Deposits *)
Section deposits.
Context {S : Type} `{!StateStore S} `{!StateStoreLaws S}
        `{!Codec Account} `{!CodecLaws Account}
        `{!Codec GovernanceContract} `{!CodecLaws GovernanceContract}
        `{!Codec StakingContract} `{!Codec VestingContract}.
Context (debug_str : string -> string).
Implicit Types s : S.

#[local] Arguments le_bytes : simpl never.
#[local] Arguments read_u64 : simpl never.

Lemma governance_key_ne id : GOVERNANCE_STORAGE_KEY <> account_key id.
Proof. discriminate. Qed.

Lemma governance_save_same c s : accounts_same s (governance_save c s).
Proof. intros id. apply get_save_ne, governance_key_ne. Qed.

Lemma governance_load_save c s : governance_load (governance_save c s) = c.
Proof. apply load_save. Qed.

Lemma governance_load_account s a : governance_load (save_account_or_keep s a) = governance_load s.
Proof. apply load_get_eq, get_save_account, governance_key_ne. Qed.

Lemma epoch_governance_save c s : read_current_epoch (governance_save c s) = read_current_epoch s.
Proof. unfold read_current_epoch, governance_save. rewrite get_save_ne; [done|discriminate]. Qed.

Lemma finalize_again p id ts e c :
  get_proposal id c = Some p -> p_status p <> Active -> voting_end_epoch p < e ->
  finalize id ts e (emergency_fasttrack_active e) c = Ok (c, p_status p).
Proof.
  intros Hp Hst He. unfold finalize, ok_or, rbind. unfold get_proposal in Hp. rewrite Hp. simpl.
  destruct (e <=? _) eqn:E; [prop_bool; lia|].
  by rewrite bool_decide_eq_false_2.
Qed.

(** One more [finalize] of a decided proposal. *)
Lemma finalize_call_effect s caller id p a :
  accounts_wf s -> in_u64 id ->
  get_proposal id (governance_load s) = Some p -> p_status p = Passed ->
  voting_end_epoch p < read_current_epoch s -> 0 < p_deposit p ->
  load_account s (proposer p) = Ok (Some a) -> balance a + p_deposit p <= u128_max ->
  exists s' r, execute_governance_call debug_str s caller "finalize" (le_bytes 8 id) = (s', r)
    /\ sc_error r = None /\ accounts_wf s'
    /\ governance_load s' = governance_load s
    /\ read_current_epoch s' = read_current_epoch s
    /\ load_account s' (proposer p) = Ok (Some (set_balance (balance a + p_deposit p) a)).
Proof.
  intros Hw Hid Hp Hst He Hdep Ha Hm. destruct (Hw _ _ Ha) as (Haid & [? ?] & ?).
  unfold execute_governance_call, governance_method. simpl. unfold call_finalize.
  assert (Hrd : read_u64 (le_bytes 8 id) 0 = Some id).
  { unfold read_u64, slice. change (drop 0 (le_bytes 8 id)) with (le_bytes 8 id).
    rewrite length_le_bytes, take_ge by (by rewrite length_le_bytes). simpl.
    f_equal. by apply from_le_u64. }
  rewrite Hrd, Hp. cbv zeta. rewrite (finalize_again p) by (rewrite ?Hst; done). rewrite Hst.
  destruct (0 <? p_deposit p) eqn:E; [|prop_bool; lia].
  set (s1 := governance_save (governance_load s) s).
  pose proof (governance_save_same (governance_load s) s) as Hsame1. fold s1 in Hsame1.
  unfold credit_if_present.
  assert (Hr : require_account s1 (proposer p) = Ok a).
  { apply require_account_spec. by rewrite (load_account_same s s1). }
  rewrite Hr, sat_add128_exact by lia. set (s2 := save_account_or_keep s1 _).
  assert (Hw2 : accounts_wf s2).
  { apply accounts_wf_save; simpl; auto; [by eapply accounts_wf_same|unfold in_u128; lia]. }
  assert (Hl2 : governance_load s2 = governance_load s).
  { unfold s2. rewrite governance_load_account. apply governance_load_save. }
  rewrite Hl2. pose proof (governance_save_same (governance_load s) s2) as Hsame2.
  eexists _, _. split; [reflexivity|]. split; [done|].
  split; [by eapply accounts_wf_same|]. split; [apply governance_load_save|]. split.
  - rewrite epoch_governance_save. unfold s2. rewrite epoch_account. apply epoch_governance_save.
  - rewrite (load_account_same s2) by done. unfold s2. rewrite load_save_account. simpl.
    rewrite Haid. by rewrite decide_True.
Qed.

Fixpoint finalize_calls (n : nat) (caller : AccountId) (id : u64) s : S :=
  match n with
  | O => s
  | Datatypes.S n => finalize_calls n caller id
      (fst (execute_governance_call debug_str s caller "finalize" (le_bytes 8 id)))
  end.

(** Finalising a proposal that has already passed succeeds every time and
    pays its deposit again: anyone can call it [n] times and credit the
    proposer with [n] further deposits that nobody has paid in. *)
Theorem finalize_pays_again n s caller id p a :
  accounts_wf s -> in_u64 id ->
  get_proposal id (governance_load s) = Some p -> p_status p = Passed ->
  voting_end_epoch p < read_current_epoch s -> 0 < p_deposit p ->
  load_account s (proposer p) = Ok (Some a) ->
  balance a + Z.of_nat n * p_deposit p <= u128_max ->
  let s' := finalize_calls n caller id s in
  balance_of s' (proposer p) = balance a + Z.of_nat n * p_deposit p
  /\ governance_load s' = governance_load s.
Proof.
  revert s a. induction n as [|n IH]; intros s a Hw Hid Hp Hst He Hdep Ha Hm s'.
  - unfold s', balance_of. simpl. rewrite Ha. split; [lia|done].
  - rewrite Nat2Z.inj_succ in *.
    destruct (finalize_call_effect s caller id p a) as (s1 & r & Hc & _ & Hw1 & Hl1 & He1 & Ha1);
      auto; [lia|].
    unfold s'. simpl. rewrite Hc. simpl.
    destruct (IH s1 _ Hw1 Hid ltac:(by rewrite Hl1) Hst ltac:(by rewrite He1) Hdep Ha1
      ltac:(simpl; lia)) as (H1 & H2).
    rewrite H1, H2. simpl. split; [lia|done].
Qed.

(** Moving the team pool into the vesting vault conserves the supply, empties
    the pool, and a second run moves nothing. *)
Theorem migrate_conserves s ids :
  accounts_wf s -> NoDup ids -> TEAM_POOL_ADDRESS ∈ ids -> VESTING_ADDRESS ∈ ids ->
  supply ids s <= u128_max ->
  let s' := fst (migrate_team_pool s) in
  supply ids s' = supply ids s
  /\ balance_of s' TEAM_POOL_ADDRESS = 0
  /\ snd (migrate_team_pool s) = balance_of s TEAM_POOL_ADDRESS
  /\ snd (migrate_team_pool s') = 0.
Proof.
  intros Hw Hn Ht Hv Hs. unfold migrate_team_pool at 1 2.
  destruct (load_account s TEAM_POOL_ADDRESS) as [[pool|]|] eqn:Hp; cycle 1.
  { cbn [fst snd]. unfold migrate_team_pool, balance_of. by rewrite Hp. }
  { cbn [fst snd]. unfold migrate_team_pool, balance_of. by rewrite Hp. }
  destruct (Hw _ _ Hp) as (Hpid & [Hp0 Hp1] & Hpn).
  assert (Hbp : balance_of s TEAM_POOL_ADDRESS = balance pool) by (unfold balance_of; by rewrite Hp).
  destruct (0 <? balance pool) eqn:E; prop_bool; cbn [fst snd].
  - set (s1 := save_account_or_keep s (set_balance 0 pool)).
    assert (Hw1 : accounts_wf s1).
    { apply accounts_wf_save; simpl; auto. unfold in_u128, u128_max. lia. }
    assert (Hs1 : supply ids s1 = supply ids s - balance pool).
    { unfold s1. rewrite supply_save by (simpl; by rewrite ?Hpid). simpl. rewrite Hpid. lia. }
    pose proof (supply_ge s1 ids _ Hw1 Hv).
    destruct (credit_or_create_effect s1 VESTING_ADDRESS (balance pool) Hw1) as (_ & Hb2 & Hk2);
      [lia|lia|].
    assert (Hpool2 : load_account (credit_or_create s1 VESTING_ADDRESS (balance pool))
      TEAM_POOL_ADDRESS = Ok (Some (set_balance 0 pool))).
    { unfold load_account at 1. rewrite Hk2 by discriminate.
      change (load_account s1 TEAM_POOL_ADDRESS = Ok (Some (set_balance 0 pool))).
      unfold s1. rewrite load_save_account. simpl. rewrite Hpid. by rewrite decide_True. }
    split; [|split; [|split]].
    + rewrite (supply_change _ _ ids _ Hb2), sum_at_one by done. lia.
    + unfold balance_of. by rewrite Hpool2.
    + done.
    + unfold migrate_team_pool. by rewrite Hpool2.
  - split; [done|]. split; [lia|]. split; [done|]. unfold migrate_team_pool. rewrite Hp.
    destruct (0 <? balance pool) eqn:E2; [prop_bool; lia|]. simpl. lia.
Qed.
End deposits.

Definition gov_demo_store : MemoryStore :=
  st_put (governance_save (gov_run gov_demo_ops governance_default)
    (demo_ledger [demo_account 7 10; mkAccount TEAM_POOL_ADDRESS zero_hash [] 0 600;
                  mkAccount VESTING_ADDRESS zero_hash [] 0 40]))
    CHAIN_META_KEY (le_bytes 8 202800 ++ le_bytes 8 0).

Lemma gov_demo_same : accounts_same
  (demo_ledger [demo_account 7 10; mkAccount TEAM_POOL_ADDRESS zero_hash [] 0 600;
                mkAccount VESTING_ADDRESS zero_hash [] 0 40]) gov_demo_store.
Proof.
  intros id. unfold gov_demo_store. rewrite get_put_ne by discriminate.
  apply governance_save_same.
Qed.

Lemma gov_demo_accounts : accounts_wf gov_demo_store.
Proof. apply (accounts_wf_same _ _ gov_demo_same). solve_ledger_wf. Qed.

Lemma finalize_pays_again_witness :
  balance_of (finalize_calls (fun x => x) 3 (replicate 32 8) 0 gov_demo_store) (replicate 32 7)
  = 10 + 3 * 100000000000.
Proof.
  destruct (get_proposal 0 (governance_load gov_demo_store)) as [p|] eqn:E;
    [|vm_compute in E; discriminate E].
  assert (Hp : p_status p = Passed /\ voting_end_epoch p = 2026 /\ p_deposit p = 100000000000
               /\ proposer p = replicate 32 7).
  { vm_compute in E. injection E as <-. vm_compute. repeat split; reflexivity. }
  destruct Hp as (H1 & H2 & H3 & H4).
  assert (Hl : load_account gov_demo_store (proposer p) = Ok (Some (demo_account 7 10))).
  { rewrite H4, (load_account_same _ _ _ gov_demo_same). vm_compute. reflexivity. }
  destruct (finalize_pays_again (fun x => x) 3 gov_demo_store (replicate 32 8) 0 p
    (demo_account 7 10)) as [Hb _].
  - exact gov_demo_accounts.
  - unfold in_u64, u64_max. lia.
  - exact E.
  - exact H1.
  - rewrite H2. reflexivity.
  - rewrite H3. lia.
  - exact Hl.
  - rewrite H3. simpl. unfold u128_max. lia.
  - rewrite H4, H3 in Hb. exact Hb.
Defined.

Lemma migrate_conserves_witness :
  balance_of (fst (migrate_team_pool gov_demo_store)) TEAM_POOL_ADDRESS = 0
  /\ supply [TEAM_POOL_ADDRESS; VESTING_ADDRESS] (fst (migrate_team_pool gov_demo_store))
     = supply [TEAM_POOL_ADDRESS; VESTING_ADDRESS] gov_demo_store.
Proof.
  destruct (migrate_conserves gov_demo_store [TEAM_POOL_ADDRESS; VESTING_ADDRESS])
    as (Hs & Hp & _).
  - exact gov_demo_accounts.
  - apply (bool_decide_unpack _); vm_compute; exact I.
  - apply (bool_decide_unpack _); vm_compute; exact I.
  - apply (bool_decide_unpack _); vm_compute; exact I.
  - vm_compute. discriminate.
  - exact (conj Hp Hs).
Defined.
