(* ===== verification/SysGuardian.v ===== *)
(** The calls of the guardian recovery contract, the paymaster registry and the
    treasury ([execute_guardian_call], [execute_paymaster_call] and
    [execute_treasury_call] of [crates/solen-execution/src/system_calls.rs]). *)

From S2P Require Import Prelude Types Store Memory Codec State SysCommon Guardian Treasury.
Open Scope Z_scope.

Definition guardian_event (topic : string) (data : bytes) : Event :=
  mkEvent GUARDIAN_ADDRESS (bytes_of_string topic) data.

(** The accounts a list of authentication methods names as guardians. *)
Definition account_guardians (a : Account) : list AccountId :=
  omap (fun m => match m with Guardian g => Some g | _ => None end) (auth_methods a).

Section calls.
Context {S : Type} `{!StateStore S} `{!Codec Account} `{!Codec GuardianContract}
        `{!Codec (list AuthMethod)} `{!Codec TreasuryContract} `{!Codec (list AccountId)}.

(** ** Guardian recovery *)

Definition read_height (s : S) : u64 := default 0 (current_height s).

Definition call_initiate_recovery (s : S) (guardian : GuardianContract) (sender : AccountId)
    (args : bytes) : arm S GuardianContract :=
  match read_account_id args 0 with
  | None => Return s (err "invalid args: need target_account[32] + new_auth_methods_json")
  | Some target =>
    let json_bytes := drop 32 args in
    match de json_bytes with
    | None => Return s (err ("invalid new_auth_methods JSON: "
                             +:+ de_error (A := list AuthMethod) json_bytes))
    | Some new_auth =>
      match load_account s target with
      | Ok (Some target_acct) =>
        let ids := account_guardians target_acct in
        if bool_decide (ids = []) then Return s (err "target account has no guardians configured")
        else
        match initiate_recovery target sender new_auth ids (read_height s) guardian with
        | Ok (guardian, id) =>
            Fall s guardian [guardian_event "recovery_initiated" (target ++ le_bytes 8 id)] (Ok tt)
        | Err e => Fall s guardian [] (Err e)
        end
      | _ => Return s (err "target account not found")
      end
    end
  end.

Definition call_confirm_recovery (s : S) (guardian : GuardianContract) (sender : AccountId)
    (args : bytes) : arm S GuardianContract :=
  match read_u64 args 0 with
  | None => Return s (err "invalid args: need recovery_id[8]")
  | Some recovery_id =>
    match confirm_recovery recovery_id sender guardian with
    | Ok guardian => Fall s guardian
        [guardian_event "recovery_confirmed" (sender ++ le_bytes 8 recovery_id)] (Ok tt)
    | Err e => Fall s guardian [] (Err e)
    end
  end.

Definition call_cancel_recovery (s : S) (guardian : GuardianContract) (sender : AccountId)
    (args : bytes) : arm S GuardianContract :=
  match read_u64 args 0 with
  | None => Return s (err "invalid args: need recovery_id[8]")
  | Some recovery_id =>
    match cancel_recovery recovery_id sender guardian with
    | Ok guardian => Fall s guardian
        [guardian_event "recovery_cancelled" (le_bytes 8 recovery_id)] (Ok tt)
    | Err e => Fall s guardian [] (Err e)
    end
  end.

(** The contract is saved before the account is changed; the arm never reaches
    the save at the end of the call. *)
Definition call_execute_recovery (s : S) (guardian : GuardianContract) (args : bytes) :
    arm S GuardianContract :=
  match read_u64 args 0 with
  | None => Return s (err "invalid args: need recovery_id[8]")
  | Some recovery_id =>
    match can_execute recovery_id (read_height s) guardian with
    | Err e => Return s (err e)
    | Ok _ =>
      match mark_executed recovery_id guardian with
      | Err e => Return s (err e)
      | Ok (guardian, req) =>
        let s := guardian_save guardian s in
        match load_account s (target_account req) with
        | Ok (Some acct) =>
          match save_account s (set_auth_methods (new_auth_methods req) acct) with
          | Err e => Return s (err ("failed to update account: " +:+ state_error_msg e))
          | Ok s => Return s (mkSysResult SYSTEM_CALL_GAS
              [guardian_event "recovery_executed"
                 (target_account req ++ le_bytes 8 recovery_id)] None)
          end
        | _ => Return s (err "target account not found")
        end
      end
    end
  end.

Definition guardian_method (s : S) (guardian : GuardianContract) (sender : AccountId)
    (method : string) (args : bytes) : arm S GuardianContract :=
  if String.eqb method "initiate_recovery" then call_initiate_recovery s guardian sender args
  else if String.eqb method "confirm_recovery" then call_confirm_recovery s guardian sender args
  else if String.eqb method "cancel_recovery" then call_cancel_recovery s guardian sender args
  else if String.eqb method "execute_recovery" then call_execute_recovery s guardian args
  else Fall s guardian [] (Err ("unknown guardian method: " +:+ method)).

Definition execute_guardian_call (s : S) (sender : AccountId) (method : string) (args : bytes) :
    S * SystemCallResult :=
  match guardian_method s (guardian_load s) sender method args with
  | Return s r => (s, r)
  | Fall s guardian events r => (guardian_save guardian s, finish events r)
  end.

(** ** Paymaster registry *)

Definition PAYMASTERS_KEY : bytes := Eval vm_compute in bytes_of_string "__paymasters__".

Definition load_paymasters (s : S) : list AccountId := load_record PAYMASTERS_KEY [] s.
Definition save_paymasters (l : list AccountId) (s : S) : S := save_record PAYMASTERS_KEY l s.

Definition paymaster_ok (topic : string) (data : bytes) : SystemCallResult :=
  mkSysResult SYSTEM_CALL_GAS
    [mkEvent PAYMASTER_REGISTRY_ADDRESS (bytes_of_string topic) data] None.

Definition call_paymaster_register (s : S) (sender : AccountId) : S * SystemCallResult :=
  let proceed :=
    let paymasters := load_paymasters s in
    if contains sender paymasters then (s, err "already registered as paymaster")
    else (save_paymasters (paymasters ++ [sender]) s, paymaster_ok "paymaster_registered" sender) in
  match load_account s sender with
  | Ok (Some acct) =>
      if negb (bytes_eqb (code_hash acct) zero_hash) then proceed
      else (s, err "only contracts can register as paymasters")
  | _ => (s, err "only contracts can register as paymasters")
  end.

Definition execute_paymaster_call (s : S) (sender : AccountId) (method : string) :
    S * SystemCallResult :=
  if String.eqb method "register" then call_paymaster_register s sender
  else if String.eqb method "unregister" then
    (save_paymasters (List.filter (fun p => negb (bytes_eqb p sender)) (load_paymasters s)) s,
     paymaster_ok "paymaster_unregistered" sender)
  else if String.eqb method "list" then
    (s, paymaster_ok "paymaster_list" (bytes_of_string (pretty (length (load_paymasters s)))))
  else (s, err ("unknown paymaster method: " +:+ method)).

(** ** Treasury *)

Definition execute_treasury_call (s : S) (method : string) : S * SystemCallResult :=
  let treasury := treasury_load s in
  if String.eqb method "status" then
    (s, mkSysResult SYSTEM_CALL_GAS
      [mkEvent TREASURY_ADDRESS (bytes_of_string "treasury_status")
        (bytes_of_string ("balance=" +:+ pretty (t_balance treasury)
          +:+ ",collected=" +:+ pretty (total_fees_collected treasury)
          +:+ ",burned=" +:+ pretty (total_burned treasury)))] None)
  else (s, err ("unknown treasury method: " +:+ method)).
End calls.

(** ** What a guardian call can do to an account *)
Section recovery.
Context {S : Type} `{!StateStore S} `{!StateStoreLaws S} `{!Codec Account} `{!CodecLaws Account}
        `{!Codec GuardianContract} `{!CodecLaws GuardianContract} `{!Codec (list AuthMethod)}.
Implicit Types s : S.

Lemma guardian_save_same c s : accounts_same s (guardian_save c s).
Proof. intros id. apply get_save_ne. discriminate. Qed.

Lemma guardian_load_save c s : guardian_load (guardian_save c s) = c.
Proof. apply load_save. Qed.

(** An arm that falls through leaves the store, and takes at most one step of
    the contract. *)
Definition falls_by_step s (c : GuardianContract) (a : arm S GuardianContract) : Prop :=
  match a with
  | Return s' _ => s' = s
  | Fall s' c' _ _ => s' = s /\ (c' = c \/ guardian_step c c')
  end.

Lemma initiate_falls s c sender args :
  next_id c < u64_max -> falls_by_step s c (call_initiate_recovery s c sender args).
Proof.
  intros Hn. unfold call_initiate_recovery. destruct (read_account_id args 0); [|done].
  destruct (de _); [|done]. destruct (load_account s _) as [[acct|]|]; [|done|done].
  case_bool_decide; [done|]. destruct (initiate_recovery _ _ _ _ _ _) as [[c' id]|] eqn:E; simpl; eauto.
  split; [done|]. right. by eapply gs_initiate.
Qed.

Lemma confirm_falls s c sender args : falls_by_step s c (call_confirm_recovery s c sender args).
Proof.
  unfold call_confirm_recovery. destruct (read_u64 args 0); [|done].
  destruct (confirm_recovery _ _ _) eqn:E; simpl; eauto using guardian_step.
Qed.

Lemma cancel_falls s c sender args : falls_by_step s c (call_cancel_recovery s c sender args).
Proof.
  unfold call_cancel_recovery. destruct (read_u64 args 0); [|done].
  destruct (cancel_recovery _ _ _) eqn:E; simpl; eauto using guardian_step.
Qed.

(** [id]'s record after the call: the one before, or the one an executable
    request asks for. *)
Definition auth_recovered s s' (id : AccountId) : Prop :=
  exists a req, load_account s id = Ok (Some a)
    /\ load_account s' id = Ok (Some (set_auth_methods (new_auth_methods req) a))
    /\ req ∈ recovery_requests (guardian_load s) /\ target_account req = id
    /\ rr_status req = RPending
    /\ sat_add64 (initiated_at req) RECOVERY_TIMELOCK_BLOCKS <= read_height s
    /\ majority_backed req.

(** What the call leaves: a contract reached by steps, and accounts as they
    were or recovered. *)
Definition call_sound s s' : Prop :=
  (guardian_load s' = guardian_load s \/ guardian_step (guardian_load s) (guardian_load s'))
  /\ forall id, load_account s' id = load_account s id \/ auth_recovered s s' id.

Lemma execute_recovery_arm s args s' r :
  accounts_wf s -> guardian_wf (guardian_load s) ->
  call_execute_recovery s (guardian_load s) args = Return s' r -> call_sound s s'.
Proof.
  intros Hw Hg. unfold call_execute_recovery.
  assert (Hid : call_sound s s) by (split; auto).
  destruct (read_u64 args 0) as [rid|]; [|by intros [= <- _]].
  destruct (can_execute _ _ _) as [q|] eqn:Ec; [|by intros [= <- _]].
  destruct (mark_executed _ _) as [[c' req]|] eqn:Em; [|by intros [= <- _]].
  pose proof (guardian_save_same c' s) as Hsame.
  assert (Hstep : guardian_step (guardian_load s) c') by (by eapply gs_execute).
  assert (Hkeep : call_sound s (guardian_save c' s)).
  { split; [right; by rewrite guardian_load_save|]. intros id. left. by apply load_account_same. }
  rewrite (load_account_same _ _ _ Hsame).
  destruct (load_account s (target_account req)) as [[acct|]|] eqn:El;
    [|by intros [= <- _]|by intros [= <- _]].
  rewrite save_or_keep_eq. intros [= <- _].
  destruct (Hw _ _ El) as (Haid & _).
  pose proof (can_execute_majority _ _ _ _ Hg Ec) as (Hin & Hst & Ht & Hm).
  assert (Hreq : req = set_rr_status RExecuted q).
  { unfold mark_executed, can_execute, ok_or, rbind in Em, Ec.
    destruct (List.find _ _) as [x|]; [|done]. injection Em as _ <-.
    destruct (_ <? _); [done|]. destruct (Nat.ltb _ _); [done|]. by injection Ec as ->. }
  split.
  - right. assert (Hl : forall x a, guardian_load (save_account_or_keep x a) = guardian_load x)
      by (intros x a; apply load_get_eq, get_save_account; discriminate).
    by rewrite Hl, guardian_load_save.
  - intros id. rewrite load_save_account. simpl. rewrite Haid, (load_account_same _ _ _ Hsame).
    case_decide as Hd; [|by left]. right. exists acct, q. subst id req. simpl in *.
    rewrite load_save_account. simpl. rewrite Haid. by rewrite decide_True.
Qed.

(** C28: whatever guardian call is made, the contract stays in a state reached by
    its own steps, and every account keeps its record, except that an
    execution replaces the authentication methods of the account a pending
    request names, after the whole timelock and with a majority of distinct
    recorded guardians behind it; balance, nonce and code stay. *)
Theorem guardian_call_sound s sender method args s' r :
  accounts_wf s -> rtc guardian_step guardian_default (guardian_load s) ->
  next_id (guardian_load s) < u64_max ->
  execute_guardian_call s sender method args = (s', r) ->
  rtc guardian_step guardian_default (guardian_load s')
  /\ forall id, load_account s' id = load_account s id \/ auth_recovered s s' id.
Proof.
  intros Hw Hreach Hn H.
  assert (Hs : call_sound s s').
  { unfold execute_guardian_call in H.
    assert (Hfall : forall a, falls_by_step s (guardian_load s) a ->
      match a with
      | Return s r => (s, r)
      | Fall s g ev r => (guardian_save g s, finish ev r)
      end = (s', r) -> call_sound s s').
    { intros [x y|x c ev y] Hf [= <- _]; simpl in Hf; [subst x; split; auto|].
      destruct Hf as [-> Hc]. pose proof (guardian_save_same c s) as Hsame.
      split; [rewrite guardian_load_save; naive_solver|].
      intros id. left. by apply load_account_same. }
    unfold guardian_method in H.
    destruct (String.eqb _ _); [by eapply Hfall, H; apply initiate_falls|].
    destruct (String.eqb _ _); [by eapply Hfall, H; apply confirm_falls|].
    destruct (String.eqb _ _); [by eapply Hfall, H; apply cancel_falls|].
    destruct (String.eqb _ _); 
      [|by apply (Hfall (Fall s (guardian_load s) [] (Err ("unknown guardian method: " +:+ method))));
          [simpl; auto|exact H]].
    destruct (call_execute_recovery _ _ _) as [x y|x c ev y] eqn:E.
    - injection H as <- _. eapply execute_recovery_arm; eauto using guardian_reach_wf.
    - unfold call_execute_recovery in E. repeat (case_match; try done). }
  destruct Hs as [[->|Hst] Ha]; (split; [|done]); [done|]. by eapply rtc_r.
Qed.

(** A recovery is opened only by a guardian of the account, for the guardians
    the account lists at that moment. *)
Lemma initiate_call_sound s sender args s' r :
  next_id (guardian_load s) < u64_max ->
  execute_guardian_call s sender "initiate_recovery" args = (s', r) -> sc_error r = None ->
  exists a q, load_account s (take 32 args) = Ok (Some a)
    /\ Guardian sender ∈ auth_methods a
    /\ recovery_requests (guardian_load s') = recovery_requests (guardian_load s) ++ [q]
    /\ target_account q = take 32 args /\ guardian_ids q = account_guardians a
    /\ confirmations q = [sender] /\ initiated_at q = read_height s.
Proof.
  intros Hn. unfold execute_guardian_call, guardian_method. simpl.
  unfold call_initiate_recovery, read_account_id, slice. simpl.
  destruct (length args <? 32)%nat; [by intros [= _ <-]|]. simpl.
  destruct (de _) as [ms|]; [|by intros [= _ <-]].
  destruct (load_account s _) as [[a|]|] eqn:El; [|by intros [= _ <-]..].
  case_bool_decide; [by intros [= _ <-]|].
  destruct (initiate_recovery _ _ _ _ _ _) as [[c' id]|] eqn:E; intros [= <- <-] Hr; [|done].
  rewrite guardian_load_save. unfold initiate_recovery in E.
  case_bool_decide; [done|]. destruct (negb (contains _ _)) eqn:Ec; [done|].
  destruct (existsb _ _); [done|]. case_bool_decide; [done|]. injection E as <- _.
  apply negb_false_iff, contains_spec in Ec. unfold account_guardians in Ec.
  apply list_elem_of_omap in Ec as (m & Hm & Hg). destruct m; simplify_eq.
  eexists _, _. repeat split; done.
Qed.

(** ** Paymasters *)

Context `{!Codec (list AccountId)} `{!CodecLaws (list AccountId)}.

(** The registry holds contracts only and each of them once, and
    unregistering takes the sender out. *)
Lemma paymaster_registry_sound s sender method s' r :
  NoDup (load_paymasters s) -> execute_paymaster_call s sender method = (s', r) ->
  NoDup (load_paymasters s') /\ accounts_same s s'
  /\ (forall p, p ∈ load_paymasters s' -> p ∈ load_paymasters s
        \/ p = sender /\ exists a, load_account s p = Ok (Some a) /\ code_hash a <> zero_hash)
  /\ (method = "unregister"%string -> sender ∉ load_paymasters s').
Proof.
  intros Hn H. unfold execute_paymaster_call, call_paymaster_register in H.
  assert (Hsv : forall l x, load_paymasters (save_paymasters l x) = l) by (intros; apply load_save).
  assert (Hsame : forall l, accounts_same s (save_paymasters l s))
    by (intros l id; by apply get_save_ne).
  assert (Hkeep : forall m, m <> "unregister"%string -> NoDup (load_paymasters s)
    /\ accounts_same s s
    /\ (forall p, p ∈ load_paymasters s -> p ∈ load_paymasters s
        \/ p = sender /\ exists a, load_account s p = Ok (Some a) /\ code_hash a <> zero_hash)
    /\ (m = "unregister"%string -> sender ∉ load_paymasters s)) by (by intros m Hm; repeat split; auto).
  destruct (String.eqb_spec method "register") as [->|H1].
  { destruct (load_account s sender) as [[a|]|] eqn:El; [|injection H as <- _; by apply Hkeep..].
    destruct (negb _) eqn:Ez; [|injection H as <- _; by apply Hkeep].
    destruct (contains _ _) eqn:Ec; [injection H as <- _; by apply Hkeep|].
    injection H as <- _. rewrite Hsv. split; [|split; [apply Hsame|split; [|done]]].
    - apply NoDup_app. split; [done|]. split; [|apply NoDup_singleton].
      intros x Hx ->%list_elem_of_singleton. apply contains_spec in Hx. congruence.
    - intros p [Hp| ->%list_elem_of_singleton]%elem_of_app; [by left|]. right. split; [done|].
      exists a. split; [done|]. apply negb_true_iff, bytes_eqb_false in Ez. done. }
  destruct (String.eqb_spec method "unregister") as [->|H2].
  { injection H as <- _. rewrite Hsv. split; [|split; [apply Hsame|split]].
    - rewrite <- (map_id (List.filter _ _)). apply NoDup_map_filter. by rewrite map_id.
    - intros p Hp. left. apply list_elem_of_In in Hp. apply filter_In in Hp as [Hp _].
      by apply list_elem_of_In.
    - intros _ Hp. apply list_elem_of_In in Hp. apply filter_In in Hp as [_ Hp].
      by rewrite bytes_eqb_refl in Hp. }
  destruct (String.eqb method "list"); injection H as <- _; by apply Hkeep.
Qed.
End recovery.

(** A recovery of account 9 by two of its three guardians, past the timelock. *)
Definition rec_ids : list AccountId := [demo_key 1; demo_key 2; demo_key 3].
Definition rec_account : Account := mkAccount (demo_key 9) zero_hash (map Guardian rec_ids) 0 50.
Definition rec_open : GuardianContract :=
  match initiate_recovery (demo_key 9) (demo_key 1) [Ed25519 (demo_key 7)] rec_ids 10
          guardian_default with
  | Ok (c, _) => match confirm_recovery 0 (demo_key 2) c with Ok c => c | Err _ => c end
  | Err _ => guardian_default
  end.
Definition rec_store : MemoryStore :=
  st_put (guardian_save rec_open (demo_ledger [rec_account])) CHAIN_META_KEY (le_bytes 8 151300).

Lemma rec_open_reach : rtc guardian_step guardian_default rec_open.
Proof.
  eapply rtc_l; [eapply (gs_initiate (demo_key 9) (demo_key 1) [Ed25519 (demo_key 7)] rec_ids 10);
    [reflexivity|by vm_compute]|].
  eapply rtc_l; [by apply (gs_confirm 0 (demo_key 2))|]. apply rtc_refl.
Qed.

Lemma guardian_call_sound_witness :
  exists s' r, execute_guardian_call rec_store (demo_key 5) "execute_recovery" (le_bytes 8 0) = (s', r)
    /\ sc_error r = None
    /\ load_account s' (demo_key 9)
       = Ok (Some (mkAccount (demo_key 9) zero_hash [Ed25519 (demo_key 7)] 0 50))
    /\ rtc guardian_step guardian_default (guardian_load s').
Proof.
  assert (Hr : let '(s', r) := execute_guardian_call rec_store (demo_key 5) "execute_recovery"
      (le_bytes 8 0) in sc_error r = None /\ load_account s' (demo_key 9)
       = Ok (Some (mkAccount (demo_key 9) zero_hash [Ed25519 (demo_key 7)] 0 50)))
    by (vm_compute; done).
  destruct (execute_guardian_call rec_store (demo_key 5) "execute_recovery" (le_bytes 8 0))
    as [s' r] eqn:E.
  exists s', r. split; [reflexivity|].
  assert (Hs : accounts_same (demo_ledger [rec_account]) rec_store).
  { intros id. unfold rec_store. rewrite get_put_ne by discriminate. apply guardian_save_same. }
  assert (Hload : guardian_load rec_store = rec_open) by (by vm_compute).
  destruct (guardian_call_sound rec_store (demo_key 5) "execute_recovery" (le_bytes 8 0) s' r)
    as (H & _).
  - apply (accounts_wf_same _ _ Hs). solve_ledger_wf.
  - rewrite Hload. apply rec_open_reach.
  - by vm_compute.
  - exact E.
  - split; [exact (proj1 Hr)|]. exact (conj (proj2 Hr) H).
Defined.
