(* ===== verification/SysIntent.v ===== *)
(** Intent settlement ([execute_intent_call] of
    [crates/solen-execution/src/system_calls.rs]): the transfers a solver
    proposes, its tip, and the constraints the result has to meet. *)

From S2P Require Import Prelude Types Store Memory Codec State SysCommon.
Open Scope Z_scope.

Definition intent_key (intent_id : u64) : bytes := bytes_of_string ("intent/" +:+ pretty intent_id).

Definition transfer_event (sender to : AccountId) (topic : string) (amount : u128) : Event :=
  mkEvent sender (bytes_of_string topic) (to ++ le_bytes 16 amount).

(** The transfers, read from [off]: the pairs and their saturated total. *)
Fixpoint parse_transfers (n : nat) (args : bytes) (off : nat) (total : u128) :
    result (list (AccountId * u128) * u128) string :=
  match n with
  | O => Ok ([], total)
  | S n =>
    if (length args <? off + 48)%nat then Err "invalid args: transfer data truncated"%string
    else
    match read_account_id args off with
    | None => Err "invalid args: bad transfer recipient"%string
    | Some to =>
      let amount := default 0 (read_u128 args (off + 32)) in
      let! r := parse_transfers n args (off + 48) (sat_add128 total amount) in
      Ok ((to, amount) :: fst r, snd r)
    end
  end.

(** [transfers.iter().filter(to == who).map(amount).sum::<u128>()]. *)
Definition transferred_to (who : AccountId) (transfers : list (AccountId * u128)) : u128 :=
  u128_sum (map snd (List.filter (fun t => bytes_eqb (fst t) who) transfers)).

(** One round of the constraint loop: leave it, go on at an offset, or report. *)
Inductive constraint_step : Type :=
| CBreak
| CNext (off : nat)
| CViolated (msg : string).

Section calls.
Context {S : Type} `{!StateStore S} `{!Codec Account}.

Definition get_balance_or_zero (s : S) (id : AccountId) : u128 :=
  match load_account s id with Ok (Some a) => balance a | _ => 0 end.

(** ** Constraints *)

Definition check_constraint (s : S) (sender : AccountId) (transfers : list (AccountId * u128))
    (total_needed : u128) (args : bytes) (c_off : nat) : constraint_step :=
  if (length args <=? c_off)%nat then CBreak
  else
  let ctype := args !!! c_off in
  let c_off := (c_off + 1)%nat in
  let id_at off := default zero_hash (read_account_id args off) in
  let u128_at off := default 0 (read_u128 args off) in
  match ctype with
  | 0 =>
    if (length args <? c_off + 48)%nat then CBreak
    else
    let bal := get_balance_or_zero s (id_at c_off) in
    let min_amount := u128_at (c_off + 32)%nat in
    if bal <? min_amount
    then CViolated ("constraint violated: MinBalance — account has " +:+ pretty bal
                    +:+ " but needs " +:+ pretty min_amount)
    else CNext (c_off + 48)
  | 1 =>
    if (length args <? c_off + 48)%nat then CBreak
    else
    let max_amount := u128_at (c_off + 32)%nat in
    if bytes_eqb (id_at c_off) sender && (max_amount <? total_needed)
    then CViolated ("constraint violated: MaxSpend — spent " +:+ pretty total_needed
                    +:+ " but max is " +:+ pretty max_amount)
    else CNext (c_off + 48)
  | 2 =>
    if (length args <? c_off + 80)%nat then CBreak
    else
    let transferred := transferred_to (id_at (c_off + 32)%nat) transfers in
    let req_min := u128_at (c_off + 64)%nat in
    if transferred <? req_min
    then CViolated ("constraint violated: RequireTransfer — transferred " +:+ pretty transferred
                    +:+ " but needs " +:+ pretty req_min)
    else CNext (c_off + 80)
  | 3 =>
    if (length args <? c_off + 36)%nat then CBreak
    else CNext (c_off + 36 + read_u32_at args (c_off + 32))
  | 4 =>
    if (length args <? c_off + 104)%nat then CBreak
    else
    let bridged := transferred_to BRIDGE_ADDRESS transfers in
    let input_amount := u128_at c_off in
    if bridged <? input_amount
    then CViolated ("constraint violated: CrossChainSwap — bridged " +:+ pretty bridged
                    +:+ " but needs " +:+ pretty input_amount)
    else CNext (c_off + 104)
  | _ => CBreak
  end.

(** The first violation, if there is one. *)
Fixpoint check_constraints (n : nat) (s : S) (sender : AccountId)
    (transfers : list (AccountId * u128)) (total_needed : u128) (args : bytes) (c_off : nat) :
    option string :=
  match n with
  | O => None
  | Datatypes.S n =>
    match check_constraint s sender transfers total_needed args c_off with
    | CBreak => None
    | CNext off => check_constraints n s sender transfers total_needed args off
    | CViolated msg => Some msg
    end
  end.

(** ** Payments *)

Fixpoint run_transfers (s : S) (sender : AccountId) (transfers : list (AccountId * u128))
    (events : list Event) : S * list Event * option string :=
  match transfers with
  | [] => (s, events, None)
  | (to, amount) :: transfers =>
    match require_account s sender with
    | Err e => (s, events, Some (state_error_msg e))
    | Ok sender_acct =>
      let s := debit_loaded s sender_acct amount in
      let s := credit_or_create s to amount in
      run_transfers s sender transfers
        (events ++ [transfer_event sender to "transfer" amount])
    end
  end.

Definition pay_tip (s : S) (sender solver : AccountId) (claimed_tip : u128)
    (events : list Event) : S * list Event * option string :=
  if 0 <? claimed_tip then
    match require_account s sender with
    | Ok sender_acct =>
      if balance sender_acct <? claimed_tip
      then (s, events, Some "insufficient balance for solver tip (unexpected)"%string)
      else
      let s := debit_loaded s sender_acct claimed_tip in
      let s := credit_or_create s solver claimed_tip in
      (s, events ++ [transfer_event sender solver "solver_tip" claimed_tip], None)
    | Err e => (s, events, Some ("solver tip payment failed: " +:+ state_error_msg e))
    end
  else (s, events, None).

Definition intent_authorized (s : S) (sender : AccountId) (intent_id : u64) : bool :=
  match st_get s (intent_key intent_id) with
  | Some data => (32 <=? length data)%nat && bytes_eqb (take 32 data) sender
  | None => false
  end.

(** From the check of the sender's balance on. *)
Definition settle (s : S) (sender solver : AccountId) (intent_id : u64) (claimed_tip : u128)
    (transfers : list (AccountId * u128)) (total_needed : u128) (args : bytes)
    (constraint_offset : nat) : S * SystemCallResult :=
  let fail s events msg := (s, mkSysResult SYSTEM_CALL_GAS events (Some msg)) in
  match load_account s sender with
  | Ok (Some acct) =>
    if balance acct <? total_needed
    then fail s [] ("insufficient balance for intent: need " +:+ pretty total_needed
                    +:+ " but have " +:+ pretty (balance acct))
    else
    match run_transfers s sender transfers [] with
    | (s, events, Some msg) => fail s events msg
    | (s, events, None) =>
      match pay_tip s sender solver claimed_tip events with
      | (s, events, Some msg) => fail s events msg
      | (s, events, None) =>
        let violation :=
          if (constraint_offset + 4 <=? length args)%nat
          then check_constraints (read_u32_at args constraint_offset) s sender transfers
                 total_needed args (constraint_offset + 4)
          else None in
        match violation with
        | Some msg => fail s events msg
        | None => (s, mkSysResult SYSTEM_CALL_GAS
            (events ++ [mkEvent sender (bytes_of_string "intent_fulfilled") (le_bytes 8 intent_id)])
            None)
        end
      end
    end
  | _ => (s, err "sender account not found")
  end.

Definition call_fulfill (s : S) (sender : AccountId) (args : bytes) : S * SystemCallResult :=
  if (length args <? 60)%nat then (s, err "invalid args: too short")
  else
  let intent_id := default 0 (read_u64 args 0) in
  match read_account_id args 8 with
  | None => (s, err "invalid args: bad solver")
  | Some solver =>
    let claimed_tip := default 0 (read_u128 args 40) in
    let num_transfers := read_u32_at args 56 in
    if negb (intent_authorized s sender intent_id)
    then (s, err "fulfill: no owner-authorized on-chain intent for this id — intent settlement is disabled pending signed-intent support")
    else
    match parse_transfers num_transfers args 60 0 with
    | Err e => (s, err e)
    | Ok (transfers, total) =>
      settle s sender solver intent_id claimed_tip transfers (sat_add128 total claimed_tip) args
        (60 + num_transfers * 48)
    end
  end.

Definition execute_intent_call (s : S) (sender : AccountId) (method : string) (args : bytes) :
    S * SystemCallResult :=
  if String.eqb method "fulfill" then call_fulfill s sender args
  else (s, err ("unknown intent method: " +:+ method)).
End calls.

(** ** The constraints as data *)

Inductive Constraint : Type :=
| MinBalance (account : AccountId) (min_amount : u128)
| MaxSpend (account : AccountId) (max_amount : u128)
| RequireTransfer (to : AccountId) (min_amount : u128)
| RequireCall
| CrossChainSwap (input_amount : u128).

(** The constraint encoded at an offset, and where the next one starts. *)
Definition decode_constraint (args : bytes) (off : nat) : option (Constraint * nat) :=
  if (length args <=? off)%nat then None
  else
  let off' := (off + 1)%nat in
  let fits n := (off' + n <=? length args)%nat in
  let id_at n := slice (off' + n) 32 args in
  let u128_at n := from_le (slice (off' + n) 16 args) in
  match args !!! off with
  | 0 => if fits 48%nat then Some (MinBalance (id_at 0%nat) (u128_at 32%nat), off' + 48)%nat else None
  | 1 => if fits 48%nat then Some (MaxSpend (id_at 0%nat) (u128_at 32%nat), off' + 48)%nat else None
  | 2 => if fits 80%nat
         then Some (RequireTransfer (id_at 32%nat) (u128_at 64%nat), off' + 80)%nat else None
  | 3 => if fits 36%nat then Some (RequireCall, off' + 36 + read_u32_at args (off' + 32))%nat else None
  | 4 => if fits 104%nat then Some (CrossChainSwap (u128_at 0%nat), off' + 104)%nat else None
  | _ => None
  end.

Fixpoint decode_constraints (n : nat) (args : bytes) (off : nat) : list Constraint :=
  match n with
  | O => []
  | S n => match decode_constraint args off with
           | Some (c, off) => c :: decode_constraints n args off
           | None => []
           end
  end.

(** The declared tokens of the intent, without the wrap-around of a sum. *)
Definition received (who : AccountId) (transfers : list (AccountId * u128)) : Z :=
  sumZ (map (fun t => if decide (who = fst t) then snd t else 0) transfers).
Definition sent (transfers : list (AccountId * u128)) : Z := sumZ (map snd transfers).

Section settlement.
Context {S : Type} `{!StateStore S} `{!StateStoreLaws S} `{!Codec Account} `{!CodecLaws Account}.
Implicit Types s : S.

Definition constraint_holds s (sender : AccountId) (transfers : list (AccountId * u128))
    (spent : Z) (c : Constraint) : Prop :=
  match c with
  | MinBalance a m => m <= balance_of s a
  | MaxSpend a m => a = sender -> spent <= m
  | RequireTransfer to m => m <= received to transfers
  | RequireCall => True
  | CrossChainSwap m => m <= received BRIDGE_ADDRESS transfers
  end.

Lemma transferred_to_received who transfers :
  Forall (fun t => 0 <= snd t) transfers -> sent transfers <= u128_max ->
  transferred_to who transfers = received who transfers.
Proof.
  intros Hp Hm. unfold transferred_to.
  assert (Hr : sumZ (map snd (List.filter (fun t => bytes_eqb (fst t) who) transfers))
               = received who transfers /\ received who transfers <= sent transfers).
  { clear Hm. induction Hp as [|[to a] l Ha Hp [IH1 IH2]]; [done|].
    unfold received, sent in *. simpl in *. destruct (bytes_eqb to who) eqn:E.
    - apply bytes_eqb_true in E as ->. rewrite decide_True by done. simpl. lia.
    - apply bytes_eqb_false in E. rewrite decide_False by congruence. lia. }
  rewrite u128_sum_exact; [apply Hr| |lia]. by apply Forall_map, Forall_filter_bool.
Qed.

Lemma read_at_id args off : (off + 32 <= length args)%nat ->
  default zero_hash (read_account_id args off) = slice off 32 args.
Proof. intros H. unfold read_account_id. destruct (Nat.ltb_spec (length args) (off + 32)); [lia|done]. Qed.

Lemma read_at_u128 args off : (off + 16 <= length args)%nat ->
  default 0 (read_u128 args off) = from_le (slice off 16 args).
Proof. intros H. unfold read_u128. destruct (Nat.ltb_spec (length args) (off + 16)); [lia|done]. Qed.

(** The step goes on when the constraint holds, and reports when it does not. *)
Definition if_holds (P : Prop) (st : constraint_step) (off : nat) : Prop :=
  (P /\ st = CNext off) \/ (~ P /\ exists msg, st = CViolated msg).

Lemma if_holds_ltb a b msg off : if_holds (b <= a) (if a <? b then CViolated msg else CNext off) off.
Proof. unfold if_holds. destruct (Z.ltb_spec a b); [right|left]; split; eauto; lia. Qed.

(** One round of the loop against the decoded constraint. *)
Lemma check_constraint_spec s sender transfers spent args off :
  Forall (fun t => 0 <= snd t) transfers -> sent transfers <= u128_max ->
  match decode_constraint args off with
  | None => check_constraint s sender transfers spent args off = CBreak
  | Some (c, off') =>
      if_holds (constraint_holds s sender transfers spent c)
        (check_constraint s sender transfers spent args off) off'
  end.
Proof.
  intros Hp Hm. unfold decode_constraint, check_constraint.
  destruct (Nat.leb_spec (length args) off) as [|Hlt]; [done|].
  assert (Hfit : forall n, (off + 1 + n <=? length args)%nat = negb (length args <? off + 1 + n)%nat).
  { intros n. rewrite Nat.leb_antisym. done. }
  destruct (args !!! off) as [|[[[]|[]|]|[[]|[]|]|]|]; try done; cbv zeta; rewrite Hfit;
    match goal with |- context [Nat.ltb (length args) ?n] =>
      destruct (Nat.ltb_spec (length args) n) as [|Hge] end; simpl; try done;
    rewrite ?read_at_id, ?read_at_u128, ?transferred_to_received by (try done; lia);
    rewrite ?Nat.add_0_r; cbn [constraint_holds]; try apply if_holds_ltb; [by left|].
  unfold if_holds. destruct (bytes_eqb (slice (off + 1) 32 args) sender) eqn:E; simpl.
  - apply bytes_eqb_true in E. destruct (Z.ltb_spec (from_le (slice (off + 1 + 32) 16 args)) spent).
    + right. split; [|eauto]. intros Hle. specialize (Hle E). lia.
    + left. split; [lia|done].
  - apply bytes_eqb_false in E. left. split; [|done]. congruence.
Qed.

(** The loop accepts exactly when every decoded constraint holds. *)
Lemma check_constraints_spec n s sender transfers spent args off :
  Forall (fun t => 0 <= snd t) transfers -> sent transfers <= u128_max ->
  check_constraints n s sender transfers spent args off = None
  <-> Forall (constraint_holds s sender transfers spent) (decode_constraints n args off).
Proof.
  intros Hp Hm. revert off. induction n as [|n IH]; intros off; simpl; [by split|].
  pose proof (check_constraint_spec s sender transfers spent args off Hp Hm) as H.
  destruct (decode_constraint args off) as [[c off']|]; [|by rewrite H; split].
  destruct H as [[Hc ->]|[Hc [msg ->]]].
  - rewrite IH, Forall_cons. naive_solver.
  - rewrite Forall_cons. naive_solver.
Qed.

(** ** The payments *)

Lemma parse_transfers_total n args off t0 l t :
  Forall (fun b => 0 <= b <= 255) args -> 0 <= t0 <= u128_max ->
  parse_transfers n args off t0 = Ok (l, t) ->
  Forall (fun x => 0 <= snd x) l /\ t = Z.min (t0 + sent l) u128_max.
Proof.
  intros Hb. revert off t0 l t. induction n as [|n IH]; simpl; intros off t0 l t Ht H.
  - injection H as <- <-. split; [done|]. unfold sent. simpl. lia.
  - destruct (Nat.ltb _ _); [done|]. destruct (read_account_id args off); [|done].
    set (a := default 0 _) in H.
    assert (Ha : 0 <= a).
    { unfold a. destruct (read_u128 args (off + 32)) eqn:E; [|done]. by eapply read_u128_nonneg. }
    unfold rbind in H. destruct (parse_transfers _ _ _ _) as [[l' t']|] eqn:E; [|done].
    injection H as <- <-. apply IH in E as [Hl Ht']; [|unfold sat_add128; lia].
    split; [by constructor|]. rewrite Ht'. unfold sent, sat_add128. simpl.
    pose proof (sumZ_map_nonneg snd l' ltac:(by apply Forall_forall)). lia.
Qed.

(** The state a settlement works in. *)
Record settling (ids : list AccountId) (sender : AccountId) s : Prop := {
  se_wf : accounts_wf s;
  se_nodup : NoDup ids;
  se_sender : sender ∈ ids;
  se_supply : supply ids s <= u128_max;
}.

(** Balances after paying the list out of [sender]'s account. *)
Definition paid s s' (sender : AccountId) (l : list (AccountId * u128)) : Prop :=
  forall x, balance_of s' x
    = balance_of s x - (if decide (x = sender) then sent l else 0) + received x l.

Lemma pay_one ids sender s to amount a :
  settling ids sender s -> load_account s sender = Ok (Some a) ->
  to ∈ ids -> 0 <= amount <= balance_of s sender ->
  let s' := credit_or_create (debit_loaded s a amount) to amount in
  settling ids sender s' /\ supply ids s' = supply ids s
  /\ paid s s' sender [(to, amount)]
  /\ (forall k, (forall x, k <> account_key x) -> st_get s' k = st_get s k).
Proof.
  intros [Hw Hn Hs Hm] Hl Hto Ha s'.
  destruct (payment_effect s sender a to amount Hw Hl Ha) as (Hw' & Hb & Hk).
  { intros Hne. pose proof (supply_ge_two s ids to sender Hw Hn Hto Hs Hne). lia. }
  pose proof (payment_supply s s' ids sender to amount Hn Hs Hto Hb) as Hsup.
  split; [split; auto; lia|]. split; [done|]. split; [|intros k H; by apply Hk].
  intros x. unfold s', sent, received. rewrite Hb. simpl. repeat case_decide; lia.
Qed.

Lemma run_transfers_effect ids sender l : forall s events s' events' e,
  settling ids sender s -> Forall (fun t => 0 <= snd t) l -> Forall (fun t => fst t ∈ ids) l ->
  sent l <= balance_of s sender -> run_transfers s sender l events = (s', events', e) ->
  e = None ->
  settling ids sender s' /\ supply ids s' = supply ids s /\ paid s s' sender l
  /\ (forall k, (forall x, k <> account_key x) -> st_get s' k = st_get s k).
Proof.
  induction l as [|[to a] l IH]; intros s ev s' ev' e Hse Hp Hin Hs Hr He; simpl in Hr.
  - injection Hr as <- _ _. split; [done|]. split; [done|]. split; [|done].
    intros x. unfold sent, received. simpl. case_decide; lia.
  - subst e. apply Forall_cons in Hp as [Ha Hp]. apply Forall_cons in Hin as [Hto Hin].
    assert (Hl0 : 0 <= sent l) by (apply sumZ_map_nonneg; by apply Forall_forall).
    unfold sent in Hs, Hl0. simpl in *.
    destruct (require_account s sender) as [acct|] eqn:Er; [|done].
    apply require_account_spec in Er.
    destruct (pay_one ids sender s to a acct Hse Er Hto) as (Hse1 & Hs1 & Hp1 & Hk1); [lia|].
    set (s1 := credit_or_create _ to a) in *.
    assert (Hle : sent l <= balance_of s1 sender).
    { rewrite Hp1, decide_True by done. unfold received, sent. simpl. case_decide; lia. }
    destruct (IH _ _ _ _ _ Hse1 Hp Hin Hle Hr eq_refl) as (Hse2 & Hs2 & Hp2 & Hk2).
    split; [done|]. split; [lia|]. split; [|intros k H; by rewrite Hk2, Hk1].
    intros x. rewrite Hp2, Hp1. unfold sent, received. simpl. case_decide; lia.
Qed.

Lemma pay_tip_effect ids sender solver tip s events s' events' :
  settling ids sender s -> solver ∈ ids -> 0 <= tip ->
  pay_tip s sender solver tip events = (s', events', None) ->
  settling ids sender s' /\ supply ids s' = supply ids s /\ paid s s' sender [(solver, tip)]
  /\ (forall k, (forall x, k <> account_key x) -> st_get s' k = st_get s k).
Proof.
  intros Hse Hso Ht. unfold pay_tip. destruct (Z.ltb_spec 0 tip).
  - destruct (require_account s sender) as [a|] eqn:Er; [|done].
    pose proof (balance_of_require _ _ _ Er). apply require_account_spec in Er.
    destruct (Z.ltb_spec (balance a) tip); [done|]. intros [= <- _].
    apply (pay_one ids sender s solver tip a); auto. lia.
  - intros [= <- _]. split; [done|]. split; [done|]. split; [|done].
    intros x. unfold sent, received. simpl. repeat case_decide; lia.
Qed.

Lemma settle_ok ids s sender solver id tip transfers total args off s' r :
  settling ids sender s -> Forall (fun t => 0 <= snd t) transfers ->
  Forall (fun t => fst t ∈ ids) transfers -> solver ∈ ids -> 0 <= tip ->
  total = Z.min (sent transfers + tip) u128_max -> balance_of s sender < u128_max ->
  settle s sender solver id tip transfers total args off = (s', r) -> sc_error r = None ->
  supply ids s' = supply ids s /\ sent transfers + tip <= balance_of s sender
  /\ paid s s' sender (transfers ++ [(solver, tip)])
  /\ (forall k, (forall x, k <> account_key x) -> st_get s' k = st_get s k)
  /\ ((off + 4 <= length args)%nat ->
      Forall (constraint_holds s' sender transfers (sent transfers + tip))
        (decode_constraints (read_u32_at args off) args (off + 4))).
Proof.
  intros Hse Hp Hin Hso Ht Htot Hlt H Hr. unfold settle in H.
  destruct (load_account s sender) as [[a|]|] eqn:El; [|by injection H as _ <-..].
  assert (Hb : balance_of s sender = balance a) by (unfold balance_of; by rewrite El).
  destruct (Z.ltb_spec (balance a) total); [by injection H as _ <-|].
  assert (total = sent transfers + tip) as -> by lia. clear Htot.
  destruct (run_transfers s sender transfers []) as [[s1 ev1] [m|]] eqn:E1; [by injection H as _ <-|].
  destruct (run_transfers_effect ids sender transfers _ _ _ _ _ Hse Hp Hin ltac:(lia) E1 eq_refl)
    as (Hse1 & Hs1 & Hp1 & Hk1).
  destruct (pay_tip _ _ _ _ _) as [[s2 ev2] [m|]] eqn:E2; [by injection H as _ <-|].
  destruct (pay_tip_effect ids sender solver tip _ _ _ _ Hse1 Hso Ht E2) as (Hse2 & Hs2 & Hp2 & Hk2).
  pose proof (balance_of_nonneg s sender (se_wf _ _ _ Hse)).
  destruct (if Nat.leb _ _ then _ else _) as [m|] eqn:Ec; [by injection H as _ <-|].
  injection H as <- _. split; [lia|]. split; [lia|]. split; [|split].
  - intros x. rewrite Hp2, Hp1. unfold sent, received. rewrite !map_app, !sumZ_app. simpl.
    case_decide; lia.
  - intros k Hk. by rewrite Hk2, Hk1.
  - intros Hlen. destruct (Nat.leb_spec (off + 4) (length args)); [|lia].
    apply check_constraints_spec in Ec; auto. lia.
Qed.

Lemma intent_key_ne id x : intent_key id <> account_key x.
Proof. unfold intent_key, account_key. simpl. discriminate. Qed.

(** an intent is settled only against an on-chain record that names the
    debited account as its owner. A settlement moves exactly the listed
    transfers and the tip out of the owner's account, whoever receives them,
    conserves the total, and leaves a state in which every constraint encoded
    after the transfers holds. The record itself stays, so nothing in the call
    prevents a second settlement of the same intent. *)
Theorem fulfill_sound ids s sender args s' r :
  settling ids sender s -> Forall (fun b => 0 <= b <= 255) args -> supply ids s < u128_max ->
  execute_intent_call s sender "fulfill" args = (s', r) -> sc_error r = None ->
  let id := from_le (take 8 args) in
  let solver := slice 8 32 args in
  let tip := from_le (slice 40 16 args) in
  let n := read_u32_at args 56 in
  exists transfers total, parse_transfers n args 60 0 = Ok (transfers, total)
    /\ exists data, st_get s (intent_key id) = Some data /\ take 32 data = sender
    /\ (Forall (fun t => fst t ∈ ids) transfers -> solver ∈ ids ->
        supply ids s' = supply ids s
        /\ sent transfers + tip <= balance_of s sender
        /\ paid s s' sender (transfers ++ [(solver, tip)])
        /\ ((60 + n * 48 + 4 <= length args)%nat ->
            Forall (constraint_holds s' sender transfers (sent transfers + tip))
              (decode_constraints (read_u32_at args (60 + n * 48)) args (60 + n * 48 + 4)))
        /\ st_get s' (intent_key id) = Some data).
Proof.
  intros Hse Hb Hsup H Hr id solver tip n. unfold execute_intent_call, call_fulfill in H.
  rewrite String.eqb_refl in H.
  destruct (Nat.ltb_spec (length args) 60) as [|Hlen]; [by injection H as _ <-|].
  replace (read_account_id args 8) with (Some solver) in H
    by (unfold read_account_id; destruct (Nat.ltb_spec (length args) (8 + 32)); [lia|done]).
  rewrite read_at_u128 in H by lia. fold tip n in H.
  replace (default 0 (read_u64 args 0)) with id in H
    by (unfold read_u64; destruct (Nat.ltb_spec (length args) (0 + 8)); [lia|done]).
  destruct (intent_authorized s sender id) eqn:Ea; cbn [negb] in H; [|by injection H as _ <-].
  destruct (parse_transfers n args 60 0) as [[l t]|] eqn:Ep; [|by injection H as _ <-].
  exists l, t. split; [done|]. unfold intent_authorized in Ea.
  destruct (st_get s (intent_key id)) as [data|] eqn:Ed; [|done].
  apply andb_true_iff in Ea as [_ Ea%bytes_eqb_true]. exists data. split; [done|]. split; [done|].
  intros Hin Hso. 
  destruct (parse_transfers_total n args 60 0 l t Hb) as [Hp Ht]; [unfold u128_max; lia|done|].
  assert (Htip : 0 <= tip)
    by (apply from_le_nonneg; unfold slice; by apply Forall_take, Forall_drop).
  assert (Hsent : 0 <= sent l) by (apply sumZ_map_nonneg; by apply Forall_forall).
  pose proof (supply_ge s ids sender (se_wf _ _ _ Hse) (se_sender _ _ _ Hse)).
  destruct (settle_ok ids s sender solver id tip l (sat_add128 t tip) args (60 + n * 48) s' r)
    as (H1 & H2 & H3 & H4 & H5); auto; [unfold sat_add128; lia|lia|].
  split; [done|]. split; [done|]. split; [done|]. split; [done|].
  rewrite H4 by (intros x; apply intent_key_ne). done.
Qed.
End settlement.

(** Account 1 owns intent 7: 30 to account 2, a tip of 5 to account 3, and the
    constraint that account 2 ends with at least 35. *)
Definition intent_args : bytes :=
  le_bytes 8 7 ++ demo_key 3 ++ le_bytes 16 5 ++ le_bytes 4 1 ++ demo_key 2 ++ le_bytes 16 30
  ++ le_bytes 4 1 ++ [0] ++ demo_key 2 ++ le_bytes 16 35.
Definition intent_store : MemoryStore :=
  st_put (demo_ledger [demo_account 1 100; demo_account 2 5]) (intent_key 7) (demo_key 1).

Lemma fulfill_sound_witness :
  exists s' r, execute_intent_call intent_store (demo_key 1) "fulfill" intent_args = (s', r)
    /\ sc_error r = None
    /\ supply [demo_key 1; demo_key 2; demo_key 3] s' = 105
    /\ st_get s' (intent_key 7) = Some (demo_key 1).
Proof.
  assert (Hr : sc_error (snd (execute_intent_call intent_store (demo_key 1) "fulfill" intent_args))
    = None) by (vm_compute; reflexivity).
  destruct (execute_intent_call intent_store (demo_key 1) "fulfill" intent_args) as [s' r] eqn:E.
  cbn [snd] in Hr.
  exists s', r. split; [reflexivity|]. split; [exact Hr|].
  destruct (fulfill_sound [demo_key 1; demo_key 2; demo_key 3] intent_store (demo_key 1)
    intent_args s' r) as (l & t & Hp & data & Hd & _ & H).
  - split.
    + apply (accounts_wf_same (demo_ledger [demo_account 1 100; demo_account 2 5])); [|solve_ledger_wf].
      intros id. unfold intent_store. apply get_put_ne, intent_key_ne.
    + apply (bool_decide_unpack _); vm_compute; exact I.
    + apply (bool_decide_unpack _); vm_compute; exact I.
    + vm_compute. discriminate.
  - apply (bool_decide_unpack _); vm_compute; exact I.
  - by vm_compute.
  - exact E.
  - exact Hr.
  - vm_compute in Hp. injection Hp as <- _. vm_compute in Hd. injection Hd as <-.
    destruct H as (H1 & _ & _ & _ & H5).
    + apply (bool_decide_unpack _); vm_compute; exact I.
    + apply (bool_decide_unpack _); vm_compute; exact I.
    + split; [rewrite H1; by vm_compute|exact H5].
Defined.
