(* ===== verification/SysBridge.v ===== *)
(** The bridge calls ([execute_bridge_call] of
    [crates/solen-execution/src/system_calls.rs]): vault deposits, the bridge to
    the Base chain, rollup registration and batch submission.

    The registration and the batch commitment are JSON objects in the store;
    [RollupReg] and [BatchRecord] are the objects with the keys this code
    writes, each absent or present, behind the serialisation interface. *)

From S2P Require Import Prelude Types Store Memory Bridge Rollup Codec State SysCommon.
Open Scope Z_scope.

Definition bridge_error_msg (e : BridgeError) : string :=
  match e with
  | VaultNotFound r => "vault not found for rollup " +:+ pretty r
  | InsufficientVaultBalance h n =>
      "insufficient vault balance: have " +:+ pretty h +:+ ", need " +:+ pretty n
  | WithdrawalNotFound => "withdrawal not found"
  | WithdrawalNotReady r => "withdrawal not ready: " +:+ pretty r +:+ " blocks remaining"
  | WithdrawalDisputed => "withdrawal disputed"
  | VaultAlreadyExists r => "vault already exists for rollup " +:+ pretty r
  | RollupAlreadyRegistered r => "rollup already registered: " +:+ pretty r
  end.

Definition bridge_event (topic : string) (data : bytes) : Event :=
  mkEvent BRIDGE_ADDRESS (bytes_of_string topic) data.

(** ** Stored objects *)

Record RollupReg : Type := mkReg {
  rg_rollup_id : option u64;
  rg_proof_type : option string;
  rg_genesis_state_root : option string;
  rg_sequencer : option string;
  rg_committee_threshold : option u64;
  rg_committee_attestors : option (list string);
  rg_latest_state_root : option string;
  rg_latest_batch : option u64;
}.

(** [json!({})]. *)
Definition reg_empty : RollupReg := mkReg None None None None None None None None.

(** [reg["latest_state_root"] = ..; reg["latest_batch"] = ..]. *)
Definition set_latest (root : string) (batch : u64) (r : RollupReg) : RollupReg :=
  mkReg (rg_rollup_id r) (rg_proof_type r) (rg_genesis_state_root r) (rg_sequencer r)
    (rg_committee_threshold r) (rg_committee_attestors r) (Some root) (Some batch).

Record BatchRecord : Type := mkBatchRecord {
  br_rollup_id : u64;
  br_batch_index : u64;
  br_state_root : string;
  br_data_hash : string;
  br_submitter : string;
  br_proof_len : usize;
  br_verified : bool;
}.

Definition BRIDGE_RELAYER_KEY : bytes := Eval vm_compute in bytes_of_string "__bridge_relayer__".
Definition CHAIN_ID_KEY : bytes := Eval vm_compute in bytes_of_string "__chain_id__".
Definition PROCESSED_PREFIX : bytes := Eval vm_compute in bytes_of_string "bridge_processed/".

Definition processed_key (base_tx_hash : Hash) : bytes := PROCESSED_PREFIX ++ base_tx_hash.
Definition rollup_key (r : RollupId) : bytes := bytes_of_string ("__rollup_" +:+ pretty r +:+ "__").
Definition batch_key (r : RollupId) (i : u64) : bytes :=
  bytes_of_string ("__rollup_" +:+ pretty r +:+ "_batch_" +:+ pretty i +:+ "__").
Definition batch_count_key (r : RollupId) : bytes :=
  bytes_of_string ("__rollup_" +:+ pretty r +:+ "_batch_count__").

(** ** Hexadecimal roots *)

Definition hex_value (a : Ascii.ascii) : option Z :=
  let n := Z.of_nat (Ascii.nat_of_ascii a) in
  if in_range 48 57 n then Some (n - 48)
  else if in_range 97 102 n then Some (n - 87)
  else if in_range 65 70 n then Some (n - 55)
  else None.

(** [u8::from_str_radix] of two characters in base 16: a leading plus sign is
    accepted. *)
Definition u8_from_hex (a b : Ascii.ascii) : option Z :=
  if (Ascii.nat_of_ascii a =? 43)%nat then hex_value b
  else match hex_value a, hex_value b with Some x, Some y => Some (16 * x + y) | _, _ => None end.

Fixpoint hex_pairs (s : string) : option bytes :=
  match s with
  | EmptyString => Some []
  | String a (String b s) =>
      match u8_from_hex a b, hex_pairs s with Some x, Some l => Some (x :: l) | _, _ => None end
  | String _ EmptyString => None
  end.

Definition decode_hex32 (s : string) : option bytes :=
  if (String.length s =? 64)%nat then hex_pairs s else None.

Section calls.
Context {S : Type} `{!StateStore S} `{!Codec Account} `{!Codec BridgeContract}
        `{!Codec RollupReg} `{!Codec BatchRecord}.
(** Ed25519 verification, as for the committee. *)
Context (verify : bytes -> bytes -> bytes -> bool).

Abbreviation bridge_arm := (arm S BridgeContract).

(** ** Deposits *)

Definition call_deposit (s : S) (sender : AccountId) (args : bytes) : bridge_arm :=
  match read_u64 args 0 with
  | None => Return s (err "invalid args: need rollup_id[8] + amount[16]")
  | Some rollup_id =>
    match read_u128 args 8 with
    | None => Return s (err "invalid args")
    | Some amount =>
      let continue (s : S) :=
        let bridge := bridge_load s in
        match deposit rollup_id amount bridge with
        | Ok bridge => Fall s bridge [bridge_event "deposit" (le_bytes 16 amount)] (Ok tt)
        | Err e => Fall (credit_if_present s sender amount) bridge [] (Err (bridge_error_msg e))
        end in
      match require_account s sender with
      | Ok acct =>
          if balance acct <? u128_add amount MIN_FEE_RESERVE
          then Return s (err "insufficient balance for deposit (need fee reserve)")
          else continue (debit_loaded s acct amount)
      | Err _ => continue s
      end
    end
  end.

Definition call_bridge_to_base (s : S) (bridge : BridgeContract) (sender : AccountId)
    (args : bytes) : bridge_arm :=
  if (length args <? 36)%nat
  then Return s (err "invalid args: need base_recipient[20] + amount[16]")
  else
  let base_recipient := slice 0 20 args in
  match read_u128 args 20 with
  | None => Return s (err "invalid args: bad amount")
  | Some amount =>
    if amount =? 0 then Return s (err "amount must be > 0")
    else
    match require_account s sender with
    | Err e => Return s (err (state_error_msg e))
    | Ok acct =>
      if balance acct <? u128_add amount MIN_FEE_RESERVE
      then Return s (err "insufficient balance for bridge (need fee reserve)")
      else
      let s := debit_loaded s acct amount in
      let s := credit_or_create s BRIDGE_ADDRESS amount in
      Fall s bridge
        [bridge_event "bridge_deposit" (sender ++ base_recipient ++ le_bytes 16 amount)] (Ok tt)
    end
  end.

Definition is_bridge_relayer (s : S) (sender : AccountId) : option bool :=
  match st_get s BRIDGE_RELAYER_KEY with
  | Some relayer => if (length relayer =? 32)%nat then Some (bytes_eqb relayer sender) else None
  | None => None
  end.

Definition call_bridge_from_base (s : S) (bridge : BridgeContract) (sender : AccountId)
    (args : bytes) : bridge_arm :=
  match is_bridge_relayer s sender with
  | None => Return s (err "bridge_from_base: no bridge relayer configured — releases disabled")
  | Some false => Return s (err "bridge_from_base: caller is not the authorized relayer")
  | Some true =>
    if (length args <? 80)%nat
    then Return s (err "invalid args: need recipient[32] + amount[16] + base_tx_hash[32]")
    else
    match read_account_id args 0, read_u128 args 32 with
    | None, _ => Return s (err "invalid args: bad recipient")
    | Some _, None => Return s (err "invalid args: bad amount")
    | Some recipient, Some amount =>
      let base_tx_hash := slice 48 32 args in
      match st_get s (processed_key base_tx_hash) with
      | Some _ => Return s (err "bridge release already processed")
      | None =>
        match load_account s BRIDGE_ADDRESS with
        | Ok (Some bridge_acct) =>
          if balance bridge_acct <? amount
          then Return s (err "bridge vault insufficient balance")
          else
          let s := debit_loaded s bridge_acct amount in
          let s := credit_or_create s recipient amount in
          let s := st_put s (processed_key base_tx_hash) [1] in
          Fall s bridge
            [bridge_event "bridge_release" (recipient ++ le_bytes 16 amount ++ base_tx_hash)] (Ok tt)
        | _ => Return s (err "bridge account not found")
        end
      end
    end
  end.

Definition call_register_vault (s : S) (bridge : BridgeContract) (args : bytes) : bridge_arm :=
  match read_u64 args 0 with
  | None => Return s (err "invalid args")
  | Some rollup_id =>
    match register_vault rollup_id bridge with
    | Ok bridge => Fall s bridge [bridge_event "vault_registered" (le_bytes 8 rollup_id)] (Ok tt)
    | Err e => Fall s bridge [] (Err (bridge_error_msg e))
    end
  end.

(** ** Rollup registration *)

Definition is_mainnet (s : S) : bool :=
  match st_get s CHAIN_ID_KEY with
  | Some data => (8 <=? length data)%nat && (from_le (take 8 data) =? 1)
  | None => false
  end.

Definition ROLLUP_DEPOSIT : u128 := 10000 * 100000000.

(** The threshold and the members of the validity committee, from [coff]. *)
Definition parse_committee (args : bytes) (coff : nat) : result (nat * list bytes) string :=
  if (length args <? coff + 8)%nat
  then Err "invalid args: committee needs threshold[4] + num_attestors[4]"%string
  else
  let threshold := read_u32_at args coff in
  let num := read_u32_at args (coff + 4) in
  if (num =? 0)%nat || (100 <? num)%nat
  then Err "invalid committee: num_attestors must be 1..=100"%string
  else if (threshold =? 0)%nat || (num <? threshold)%nat
  then Err "invalid committee: threshold must be 1..=num_attestors"%string
  else
  let aoff := (coff + 8)%nat in
  if (length args <? aoff + num * 32)%nat
  then Err "invalid args: committee attestor list truncated"%string
  else Ok (threshold, map (fun i => slice (aoff + i * 32) 32 args) (seq 0 num)).

Record RegisterArgs : Type := mkRegisterArgs {
  ra_rollup_id : u64;
  ra_name : string;
  ra_proof_type : string;
  ra_sequencer : AccountId;
  ra_genesis : Hash;
  ra_threshold : nat;
  ra_attestors : list bytes;
}.

Definition parse_register (s : S) (args : bytes) : result RegisterArgs string :=
  match read_u64 args 0 with
  | None => Err "invalid args: need rollup_id[8]"%string
  | Some rollup_id =>
    if (length args <? 12)%nat then Err "invalid args: too short"%string
    else
    let name_end := (12 + read_u32_at args 8)%nat in
    if (length args <? name_end + 4)%nat then Err "invalid args: name too long"%string
    else
    let name := from_utf8_lossy (slice 12 (name_end - 12) args) in
    let pt_len := read_u32_at args name_end in
    let pt_end := (name_end + 4 + pt_len)%nat in
    if (length args <? pt_end + 64)%nat
    then Err "invalid args: need sequencer[32] + genesis_state_root[32]"%string
    else
    let proof_type := from_utf8_lossy (slice (name_end + 4) pt_len args) in
    if is_mainnet s && negb (String.eqb proof_type "committee")
    then Err "mainnet rollups must use a verifiable proof type ('committee')"%string
    else
    match read_account_id args pt_end with
    | None => Err "invalid args: bad sequencer"%string
    | Some sequencer =>
      let genesis := slice (pt_end + 32) 32 args in
      let! committee := (if String.eqb proof_type "committee" then parse_committee args (pt_end + 64)
                         else Ok (0%nat, [])) in
      Ok (mkRegisterArgs rollup_id name proof_type sequencer genesis
            (fst committee) (snd committee))
    end
  end.

(** The deposit, from the sender to the bridge account if that exists. *)
Definition take_rollup_deposit (s : S) (sender : AccountId) : result S SystemCallResult :=
  match require_account s sender with
  | Err _ => Err (err "sender account not found")
  | Ok acct =>
    if balance acct <? u128_add ROLLUP_DEPOSIT MIN_FEE_RESERVE
    then Err (err "insufficient balance for rollup registration deposit")
    else Ok (credit_if_present (debit_loaded s acct ROLLUP_DEPOSIT) BRIDGE_ADDRESS ROLLUP_DEPOSIT)
  end.

Definition refund_rollup_deposit (s : S) (sender : AccountId) : S :=
  let s := credit_if_present s sender ROLLUP_DEPOSIT in
  match require_account s BRIDGE_ADDRESS with
  | Ok a => save_account_or_keep s (set_balance (sat_sub (balance a) ROLLUP_DEPOSIT) a)
  | Err _ => s
  end.

Definition registration (bridge : BridgeContract) (a : RegisterArgs) : RollupReg :=
  mkReg (Some (ra_rollup_id a))
    (Some (match get_rollup (ra_rollup_id a) bridge with
           | Some r => rl_proof_type r | None => EmptyString end))
    (Some (hex_encode (ra_genesis a))) (Some (hex_encode (ra_sequencer a)))
    (Some (Z.of_nat (ra_threshold a))) (Some (map hex_encode (ra_attestors a))) None None.

Definition call_register_rollup (s : S) (sender : AccountId) (args : bytes) : bridge_arm :=
  match parse_register s args with
  | Err e => Return s (err e)
  | Ok a =>
    match take_rollup_deposit s sender with
    | Err r => Return s r
    | Ok s =>
      let bridge := bridge_load s in
      let height := default 0 (current_height s) in
      match register_rollup (ra_rollup_id a) (ra_name a) (ra_proof_type a) (ra_sequencer a)
              (ra_genesis a) height bridge with
      | Ok bridge =>
          Fall (save_record (rollup_key (ra_rollup_id a)) (registration bridge a) s) bridge
            [bridge_event "rollup_registered" (le_bytes 8 (ra_rollup_id a))] (Ok tt)
      | Err e => Fall (refund_rollup_deposit s sender) bridge [] (Err (bridge_error_msg e))
      end
    end
  end.

(** ** Batches *)

Definition load_registration (s : S) (r : RollupId) : RollupReg :=
  load_record (rollup_key r) reg_empty s.

Definition expected_index (reg : RollupReg) : u64 :=
  match rg_latest_batch reg with Some last => u64_add last 1 | None => 0 end.

(** The root a batch has to extend. *)
Definition pre_state_root (reg : RollupReg) (batch_index : u64) : Hash :=
  let o := if batch_index =? 0 then rg_genesis_state_root reg else rg_latest_state_root reg in
  match o with
  | Some h => default zero_hash (decode_hex32 h)
  | None => zero_hash
  end.

(** The proof of the arguments: length-prefixed from byte 80, empty if short. *)
Definition batch_proof (args : bytes) : bytes :=
  if (84 <? length args)%nat then
    let proof_len := read_u32_at args 80 in
    if (84 + proof_len <=? length args)%nat then slice 84 proof_len args else []
  else [].

Definition check_batch_proof (rollup : RegisteredRollup) (reg : RollupReg) (rollup_id batch_index : u64)
    (pre post data_hash : Hash) (proof : bytes) : result bool string :=
  if String.eqb (rl_proof_type rollup) "committee" then
    let threshold := Z.to_nat (default 0 (rg_committee_threshold reg)) in
    let attestors := omap decode_hex32 (default [] (rg_committee_attestors reg)) in
    match verify_committee_attestation verify rollup_id batch_index pre post data_hash attestors
            threshold proof with
    | Ok true => Ok true
    | Ok false => Err "batch proof: insufficient valid committee attestations"%string
    | Err _ => Err "batch proof: malformed committee attestation data"%string
    end
  else if String.eqb (rl_proof_type rollup) "mock" then
    if bool_decide (proof = []) then Err "batch submission requires a proof"%string else Ok false
  else Err ("no verifier for proof type '" +:+ rl_proof_type rollup +:+ "'").

(** The three writes of an accepted batch. *)
Definition record_batch (s : S) (sender : AccountId) (rollup_id batch_index : u64)
    (state_root data_hash : Hash) (proof : bytes) (verified : bool) : S :=
  let s := save_record (batch_key rollup_id batch_index)
             (mkBatchRecord rollup_id batch_index (hex_encode state_root) (hex_encode data_hash)
                (hex_encode sender) (length proof) verified) s in
  let s :=
    match st_get s (rollup_key rollup_id) with
    | Some existing =>
      match de existing with
      | Some reg =>
          save_record (rollup_key rollup_id)
            (set_latest (hex_encode state_root) batch_index reg) s
      | None => s
      end
    | None => s
    end in
  st_put s (batch_count_key rollup_id) (le_bytes 8 batch_index).

Definition call_submit_batch (s : S) (bridge : BridgeContract) (sender : AccountId)
    (args : bytes) : bridge_arm :=
  match read_u64 args 0, read_u64 args 8 with
  | None, _ => Return s (err "invalid args: need rollup_id[8]")
  | Some _, None => Return s (err "invalid args: need batch_index[8]")
  | Some rollup_id, Some batch_index =>
    if (length args <? 80)%nat
    then Return s (err "invalid args: need rollup_id[8] + batch_index[8] + state_root[32] + data_hash[32]")
    else
    let state_root := slice 16 32 args in
    let data_hash := slice 48 32 args in
    let proof := batch_proof args in
    match get_rollup rollup_id bridge with
    | None => Return s (err "rollup not registered")
    | Some rollup =>
      if negb (bytes_eqb (rl_sequencer rollup) sender)
      then Return s (err "only the registered sequencer can submit batches")
      else
      let reg := load_registration s rollup_id in
      let expected := expected_index reg in
      if negb (batch_index =? expected)
      then Return s (err ("batch index out of sequence: expected " +:+ pretty expected
                          +:+ " got " +:+ pretty batch_index))
      else
      match check_batch_proof rollup reg rollup_id batch_index (pre_state_root reg batch_index)
              state_root data_hash proof with
      | Err e => Return s (err e)
      | Ok verified =>
        Fall (record_batch s sender rollup_id batch_index state_root data_hash proof verified) bridge
          [bridge_event "batch_submitted"
             (le_bytes 8 rollup_id ++ le_bytes 8 batch_index ++ state_root ++ data_hash)] (Ok tt)
      end
    end
  end.

Definition bridge_method (s : S) (bridge : BridgeContract) (sender : AccountId) (method : string)
    (args : bytes) : bridge_arm :=
  if String.eqb method "deposit" then call_deposit s sender args
  else if String.eqb method "bridge_to_base" then call_bridge_to_base s bridge sender args
  else if String.eqb method "bridge_from_base" then call_bridge_from_base s bridge sender args
  else if String.eqb method "register_vault" then call_register_vault s bridge args
  else if String.eqb method "register_rollup" then call_register_rollup s sender args
  else if String.eqb method "submit_batch" then call_submit_batch s bridge sender args
  else Fall s bridge [] (Err ("unknown bridge method: " +:+ method)).

Definition execute_bridge_call (s : S) (sender : AccountId) (method : string) (args : bytes) :
    S * SystemCallResult :=
  match bridge_method s (bridge_load s) sender method args with
  | Return s r => (s, r)
  | Fall s bridge events r => (bridge_save bridge s, finish events r)
  end.
End calls.

(** ** Hexadecimal round trip *)

Lemma hex_encode_cons x b :
  hex_encode (x :: b) = String (hex_digit (x / 16)) (String (hex_digit (x mod 16)) (hex_encode b)).
Proof. unfold hex_encode. simpl. by destruct b. Qed.

Lemma hex_digit_value d : 0 <= d < 16 ->
  hex_value (hex_digit d) = Some d /\ (Ascii.nat_of_ascii (hex_digit d) =? 43)%nat = false.
Proof.
  intros Hd. assert (Hall : Forall (fun d => hex_value (hex_digit d) = Some d
    /\ (Ascii.nat_of_ascii (hex_digit d) =? 43)%nat = false) (map Z.of_nat (seq 0 16))).
  { repeat constructor. }
  rewrite Forall_forall in Hall. apply Hall. apply list_elem_of_fmap. exists (Z.to_nat d).
  rewrite elem_of_seq. lia.
Qed.

Lemma hex_pairs_encode b :
  Forall (fun x => 0 <= x <= 255) b -> hex_pairs (hex_encode b) = Some b.
Proof.
  induction 1 as [|x b Hx _ IH]; [done|]. rewrite hex_encode_cons. simpl. rewrite IH.
  unfold u8_from_hex.
  destruct (hex_digit_value (x / 16)) as [-> ->]; [split; [apply Z.div_pos|apply Z.div_lt_upper_bound]; lia|].
  destruct (hex_digit_value (x mod 16)) as [-> _]; [apply Z.mod_pos_bound; lia|].
  by rewrite <- Z.div_mod.
Qed.

Lemma hex_encode_length b : String.length (hex_encode b) = (2 * length b)%nat.
Proof. induction b as [|x b IH]; [done|]. rewrite hex_encode_cons. simpl. lia. Qed.

(** Roots survive the way through the stored object. *)
Lemma decode_hex32_encode b :
  Forall (fun x => 0 <= x <= 255) b -> length b = 32%nat -> decode_hex32 (hex_encode b) = Some b.
Proof.
  intros Hb Hl. unfold decode_hex32. rewrite hex_encode_length, Hl. by apply hex_pairs_encode.
Qed.

(** ** Keys *)

Lemma rollup_key_batch r i : rollup_key r <> batch_key r i.
Proof.
  unfold rollup_key, batch_key. rewrite !bytes_of_string_app. intros H.
  apply app_inv_head, app_inv_head in H. discriminate.
Qed.

Lemma rollup_key_count r : rollup_key r <> batch_count_key r.
Proof.
  unfold rollup_key, batch_count_key. rewrite !bytes_of_string_app. intros H.
  apply app_inv_head, app_inv_head in H. discriminate.
Qed.

(** ** The batch chain *)
Section batches.
Context {S : Type} `{!StateStore S} `{!StateStoreLaws S} `{!Codec Account} `{!CodecLaws Account}
        `{!Codec BridgeContract} `{!CodecLaws BridgeContract} `{!Codec RollupReg}
        `{!CodecLaws RollupReg} `{!Codec BatchRecord}
        (verify : bytes -> bytes -> bytes -> bool).
Implicit Types s : S.

Lemma bridge_save_get c s k : BRIDGE_STORAGE_KEY <> k -> st_get (bridge_save c s) k = st_get s k.
Proof. intros Hk. by apply get_save_ne. Qed.

Lemma load_registration_eq s s' r :
  st_get s' (rollup_key r) = st_get s (rollup_key r) -> load_registration s' r = load_registration s r.
Proof. apply load_get_eq. Qed.

(** What the three writes leave in the registration. *)
Lemma record_batch_registration s sender r i post data proof v :
  load_registration s r <> reg_empty ->
  load_registration (record_batch s sender r i post data proof v) r
  = set_latest (hex_encode post) i (load_registration s r).
Proof.
  intros Hne. unfold record_batch. set (s1 := save_record (batch_key r i) _ s).
  assert (H1 : st_get s1 (rollup_key r) = st_get s (rollup_key r))
    by (apply get_save_ne; intros H; symmetry in H; by apply rollup_key_batch in H).
  cbv zeta. erewrite load_registration_eq;
    [|apply get_put_ne; intros H; symmetry in H; by apply rollup_key_count in H].
  revert Hne. unfold load_registration at 1 3, load_record. rewrite <- H1.
  destruct (st_get s1 (rollup_key r)) as [d|] eqn:Ed; [|done]. simpl.
  destruct (de d) as [reg|] eqn:Er; [|done]. intros _. apply load_save.
Qed.

Lemma record_batch_accounts s sender r i post data proof v id :
  st_get (record_batch s sender r i post data proof v) (account_key id) = st_get s (account_key id).
Proof.
  assert (Hk : forall x, bytes_of_string ("__rollup_" +:+ x) <> account_key id)
    by (intros x; discriminate).
  unfold record_batch. rewrite get_put_ne by apply Hk.
  destruct (st_get _ (rollup_key r)) as [d|]; [destruct (de d)|]; rewrite ?get_save_ne by apply Hk; reflexivity.
Qed.

(** An accepted committee batch has a registration with members. *)
Lemma committee_registered rollup reg r i pre post data proof b :
  rl_proof_type rollup = "committee"%string ->
  check_batch_proof verify rollup reg r i pre post data proof = Ok b ->
  reg <> reg_empty
  /\ verify_committee_attestation verify r i pre post data
       (omap decode_hex32 (default [] (rg_committee_attestors reg)))
       (Z.to_nat (default 0 (rg_committee_threshold reg))) proof = Ok true.
Proof.
  intros Hc. unfold check_batch_proof. rewrite Hc. simpl.
  destruct (verify_committee_attestation _ _ _ _ _ _ _ _ _) as [[]|] eqn:E; try done.
  intros _. split; [|done]. intros ->. unfold verify_committee_attestation in E. done.
Qed.

(** The history of a rollup with a committee is one chain: a batch is accepted
    only from the registered sequencer, only with the index that follows the
    recorded one, and only if at least the registered threshold of distinct
    attestors signed the transition from the recorded root to the posted one;
    the registration then carries this index and this root, so that the next
    batch must extend it. No account changes. *)
Theorem submit_batch_chain s sender args s' r :
  Forall (fun b => 0 <= b <= 255) args ->
  execute_bridge_call verify s sender "submit_batch" args = (s', r) -> sc_error r = None ->
  let rid := from_le (slice 0 8 args) in
  let idx := from_le (slice 8 8 args) in
  let post := slice 16 32 args in
  let reg := load_registration s rid in
  let attestors := omap decode_hex32 (default [] (rg_committee_attestors reg)) in
  let msg := committee_attestation_message rid idx (pre_state_root reg idx) post (slice 48 32 args) in
  exists rollup, get_rollup rid (bridge_load s) = Some rollup /\ rl_sequencer rollup = sender
    /\ idx = expected_index reg
    /\ accounts_same s s'
    /\ (rl_proof_type rollup = "committee"%string ->
        (exists signers, NoDup signers
           /\ length signers = Z.to_nat (default 0 (rg_committee_threshold reg))
           /\ (0 < length signers)%nat
           /\ Forall (signed_in verify msg attestors (batch_proof args) 0
                (read_u32_at (batch_proof args) 0)) signers)
        /\ rg_latest_batch (load_registration s' rid) = Some idx
        /\ (idx < u64_max -> expected_index (load_registration s' rid) = idx + 1)
        /\ pre_state_root (load_registration s' rid) (idx + 1) = post).
Proof.
  intros Hb H Hr rid idx post reg attestors msg.
  unfold execute_bridge_call, bridge_method in H. simpl in H.
  unfold call_submit_batch in H.
  destruct (read_u64 args 0) as [x|] eqn:Ex; [|by injection H as _ <-].
  destruct (read_u64 args 8) as [y|] eqn:Ey; [|by injection H as _ <-].
  destruct (Nat.ltb_spec (length args) 80) as [|Hlen]; [by injection H as _ <-|].
  unfold read_u64 in Ex, Ey. destruct (Nat.ltb _ _) in Ex; [done|]. destruct (Nat.ltb _ _) in Ey; [done|].
  injection Ex as <-. injection Ey as <-. fold rid idx post reg in H.
  destruct (get_rollup rid _) as [rollup|]; [|by injection H as _ <-].
  destruct (bytes_eqb _ sender) eqn:Es; [apply bytes_eqb_true in Es|by injection H as _ <-]. simpl in H.
  destruct (idx =? expected_index reg) eqn:Ei; simpl in H; [|by injection H as _ <-].
  apply Z.eqb_eq in Ei.
  destruct (check_batch_proof _ _ _ _ _ _ _ _ _) as [v|] eqn:Ec; [|by injection H as _ <-].
  injection H as <- _. exists rollup. split; [done|]. split; [done|]. split; [done|]. split.
  { intros id. rewrite bridge_save_get by discriminate. apply record_batch_accounts. }
  intros Ht. destruct (committee_registered _ _ _ _ _ _ _ _ _ Ht Ec) as [Hne Hv].
  apply committee_signers in Hv as [Hth Hiff]. split.
  - destruct (proj1 Hiff eq_refl) as (l & Hn & Hl & Hf). exists l.
    split; [done|]. split; [done|]. split; [lia|done].
  - rewrite (load_registration_eq _ (bridge_save _ _)) by (by apply bridge_save_get).
    rewrite record_batch_registration by done. fold reg. split; [done|].
    assert (Hi0 : 0 <= idx)
      by (apply from_le_nonneg; unfold slice; by apply Forall_take, Forall_drop).
    split; [intros; unfold expected_index; cbn [rg_latest_batch set_latest];
      by rewrite u64_add_exact by lia|].
    unfold pre_state_root. destruct (Z.eqb_spec (idx + 1) 0); [lia|]. simpl.
    rewrite decode_hex32_encode; [done| |].
    + unfold post, slice. by apply Forall_take, Forall_drop.
    + unfold post, slice. rewrite length_take, length_drop. lia.
Qed.
End batches.

(** ** The bridge to Base *)
Section base.
Context {S : Type} `{!StateStore S} `{!StateStoreLaws S} `{!Codec Account} `{!CodecLaws Account}
        `{!Codec BridgeContract} `{!CodecLaws BridgeContract} `{!Codec RollupReg}
        `{!Codec BatchRecord} (verify : bytes -> bytes -> bytes -> bool).
Implicit Types s : S.

Lemma bridge_save_same c s : accounts_same s (bridge_save c s).
Proof. intros id. apply bridge_save_get. discriminate. Qed.

(** A locked deposit: what leaves the sender is what the bridge account gains. *)
Lemma bridge_to_base_sound ids s sender args s' r :
  accounts_wf s -> Forall (fun b => 0 <= b <= 255) args -> NoDup ids -> sender ∈ ids ->
  BRIDGE_ADDRESS ∈ ids -> supply ids s + MIN_FEE_RESERVE <= u128_max ->
  (forall a, read_u128 args 20 = Some a -> a + MIN_FEE_RESERVE <= u128_max) ->
  execute_bridge_call verify s sender "bridge_to_base" args = (s', r) -> sc_error r = None ->
  exists amount, read_u128 args 20 = Some amount /\ 0 < amount
    /\ amount + MIN_FEE_RESERVE <= balance_of s sender
    /\ supply ids s' = supply ids s
    /\ (forall x, balance_of s' x = balance_of s x - (if decide (x = sender) then amount else 0)
          + (if decide (x = BRIDGE_ADDRESS) then amount else 0)).
Proof.
  intros Hw Hb Hn Hs Hbr Hm Hfit H Hr. unfold execute_bridge_call, bridge_method in H. simpl in H.
  unfold call_bridge_to_base in H. destruct (Nat.ltb _ _); [by injection H as _ <-|].
  destruct (read_u128 args 20) as [amount|] eqn:Ea; [|by injection H as _ <-].
  pose proof (read_u128_nonneg _ _ _ Hb Ea) as H0. specialize (Hfit _ eq_refl).
  destruct (Z.eqb_spec amount 0); [by injection H as _ <-|].
  destruct (require_account s sender) as [a|] eqn:Er; [|by injection H as _ <-].
  pose proof (balance_of_require _ _ _ Er) as Hbal. apply require_account_spec in Er.
  rewrite u128_add_exact in H by (unfold MIN_FEE_RESERVE in *; lia).
  destruct (Z.ltb_spec (balance a) (amount + MIN_FEE_RESERVE)); [by injection H as _ <-|].
  injection H as <- _. unfold MIN_FEE_RESERVE in *. exists amount. split; [done|]. split; [lia|].
  split; [lia|].
  destruct (payment_effect s sender a BRIDGE_ADDRESS amount Hw Er) as (_ & Hbals & _); [lia| |].
  { intros Hne. pose proof (supply_ge_two s ids _ _ Hw Hn Hbr Hs Hne). lia. }
  set (s1 := credit_or_create _ _ _) in *.
  pose proof (bridge_save_same (bridge_load s) s1) as Hsame.
  rewrite (supply_same _ _ ids Hsame). split; [exact (payment_supply _ _ _ _ _ _ Hn Hs Hbr Hbals)|].
  intros x. by rewrite (balance_of_same _ _ x Hsame).
Qed.

(** The checks of a release, and the state it leaves. *)
Lemma bridge_from_base_ok s sender args s' r :
  execute_bridge_call verify s sender "bridge_from_base" args = (s', r) -> sc_error r = None ->
  (80 <= length args)%nat
  /\ st_get s BRIDGE_RELAYER_KEY = Some sender /\ length sender = 32%nat
  /\ st_get s (processed_key (slice 48 32 args)) = None
  /\ exists vault, load_account s BRIDGE_ADDRESS = Ok (Some vault)
     /\ from_le (slice 32 16 args) <= balance vault
     /\ s' = bridge_save (bridge_load s) (st_put (credit_or_create
          (debit_loaded s vault (from_le (slice 32 16 args))) (slice 0 32 args)
          (from_le (slice 32 16 args))) (processed_key (slice 48 32 args)) [1]).
Proof.
  intros H Hr. unfold execute_bridge_call, bridge_method in H. simpl in H.
  unfold call_bridge_from_base, is_bridge_relayer in H.
  destruct (st_get s BRIDGE_RELAYER_KEY) as [rel|] eqn:Erel; [|by injection H as _ <-].
  destruct (Nat.eqb_spec (length rel) 32) as [Hl|]; [|by injection H as _ <-].
  destruct (bytes_eqb rel sender) eqn:Es; [apply bytes_eqb_true in Es as ->|by injection H as _ <-].
  destruct (Nat.ltb_spec (length args) 80) as [|Hlen]; [by injection H as _ <-|].
  unfold read_account_id, read_u128 in H.
  destruct (Nat.ltb_spec (length args) (0 + 32)); [lia|].
  destruct (Nat.ltb_spec (length args) (32 + 16)); [lia|].
  destruct (st_get s (processed_key _)) eqn:Ep; [by injection H as _ <-|].
  destruct (load_account s BRIDGE_ADDRESS) as [[vault|]|] eqn:Ev; [|by injection H as _ <-..].
  destruct (Z.ltb_spec (balance vault) (from_le (slice 32 16 args))); [by injection H as _ <-|].
  injection H as <- _. repeat (split; [done|]). by exists vault.
Qed.

(** C27: tokens leave the bridge vault for the Base bridge only on a call of the
    relayer that governance configured, for a burn that was not released
    before, and only out of the vault's balance: the recipient gains exactly
    the amount, the total is conserved, and from then on a release for the
    same burn is refused in every state that keeps the mark. *)
Theorem bridge_release_once ids s sender args s' r :
  accounts_wf s -> Forall (fun b => 0 <= b <= 255) args -> NoDup ids -> BRIDGE_ADDRESS ∈ ids ->
  slice 0 32 args ∈ ids -> supply ids s <= u128_max ->
  execute_bridge_call verify s sender "bridge_from_base" args = (s', r) -> sc_error r = None ->
  let amount := from_le (slice 32 16 args) in
  let mark := processed_key (slice 48 32 args) in
  st_get s BRIDGE_RELAYER_KEY = Some sender
  /\ st_get s mark = None
  /\ amount <= balance_of s BRIDGE_ADDRESS
  /\ supply ids s' = supply ids s
  /\ (forall x, balance_of s' x = balance_of s x
        - (if decide (x = BRIDGE_ADDRESS) then amount else 0)
        + (if decide (x = slice 0 32 args) then amount else 0))
  /\ (forall s2 sender2 args2 s2' r2, st_get s2 mark = st_get s' mark ->
        slice 48 32 args2 = slice 48 32 args ->
        execute_bridge_call verify s2 sender2 "bridge_from_base" args2 = (s2', r2) ->
        sc_error r2 <> None).
Proof.
  intros Hw Hb Hn Hbr Hto Hm H Hr amount mark.
  destruct (bridge_from_base_ok _ _ _ _ _ H Hr) as (Hlen & Hrel & _ & Hmark & vault & Hv & Hle & ->).
  assert (Ha : 0 <= amount) by (apply from_le_nonneg; unfold slice; by apply Forall_take, Forall_drop).
  assert (Hbal : balance_of s BRIDGE_ADDRESS = balance vault) by (unfold balance_of; by rewrite Hv).
  fold amount mark in Hle, Hmark |- *.
  destruct (payment_effect s BRIDGE_ADDRESS vault (slice 0 32 args) amount Hw Hv) as (_ & Hbals & _);
    [lia| |].
  { intros Hne. pose proof (supply_ge_two s ids _ _ Hw Hn Hto Hbr Hne). lia. }
  set (s1 := credit_or_create _ _ _) in *. set (s2 := bridge_save _ _).
  assert (Hsame : accounts_same s1 s2).
  { intros id. unfold s2. rewrite bridge_save_get by discriminate. apply get_put_ne. discriminate. }
  split; [done|]. split; [done|]. split; [lia|].
  split; [rewrite (supply_same _ _ ids Hsame); exact (payment_supply _ _ _ _ _ _ Hn Hbr Hto Hbals)|].
  split; [intros x; by rewrite (balance_of_same _ _ x Hsame)|].
  intros s3 sender3 args3 s3' r3 Hk Hsl H3 Hr3.
  destruct (bridge_from_base_ok _ _ _ _ _ H3 Hr3) as (_ & _ & _ & Hmark3 & _).
  rewrite Hsl in Hmark3. fold mark in Hmark3. rewrite Hk in Hmark3. unfold s2 in Hmark3.
  rewrite bridge_save_get, get_put_eq in Hmark3 by discriminate. done.
Qed.
End base.

(** ** Examples *)

#[export] Instance enc_RollupReg : Enc RollupReg := enc_via
  (fun r => ((rg_rollup_id r, rg_proof_type r, rg_genesis_state_root r, rg_sequencer r),
             (rg_committee_threshold r, rg_committee_attestors r, rg_latest_state_root r,
              rg_latest_batch r)))
  (fun '((a, b, c, d), (e, f, g, h)) => Some (mkReg a b c d e f g h)).
#[export] Instance enc_RollupReg_laws : EncLaws RollupReg.
Proof. apply enc_via_laws. by intros []. Qed.

#[export] Instance enc_BatchRecord : Enc BatchRecord := enc_via
  (fun r => (br_rollup_id r, br_batch_index r, br_state_root r, br_data_hash r, br_submitter r,
             br_proof_len r, br_verified r))
  (fun '(a, b, c, d, e, f, g) => Some (mkBatchRecord a b c d e f g)).

(** Rollup 1 with sequencer 4 and the committee of [Rollup.v], registered
    through the calls; its first batch, attested by two of three. *)
Definition bridge_demo_store : MemoryStore :=
  let args := le_bytes 8 1 ++ le_bytes 4 1 ++ [114] ++ le_bytes 4 9 ++ bytes_of_string "committee"
    ++ demo_key 4 ++ demo_key 0 ++ le_bytes 4 2 ++ le_bytes 4 3 ++ concat toy_attestors in
  fst (execute_bridge_call toy_verify
    (demo_ledger [demo_account 5 2000000000000; bare_account BRIDGE_ADDRESS 0])
    (demo_key 5) "register_rollup" args).
Definition batch_args : bytes :=
  le_bytes 8 1 ++ le_bytes 8 0 ++ demo_key 9 ++ demo_key 8
  ++ le_bytes 4 (Z.of_nat (length toy_proof)) ++ toy_proof.

Lemma submit_batch_chain_witness :
  exists s' r, execute_bridge_call toy_verify bridge_demo_store (demo_key 4) "submit_batch" batch_args
      = (s', r) /\ sc_error r = None
    /\ expected_index (load_registration s' 1) = 1
    /\ pre_state_root (load_registration s' 1) 1 = demo_key 9.
Proof.
  assert (Hr : sc_error (snd (execute_bridge_call toy_verify bridge_demo_store (demo_key 4)
    "submit_batch" batch_args)) = None) by (vm_compute; reflexivity).
  destruct (execute_bridge_call toy_verify bridge_demo_store (demo_key 4) "submit_batch" batch_args)
    as [s' r] eqn:E. cbn [snd] in Hr.
  exists s', r. split; [reflexivity|]. split; [exact Hr|].
  destruct (submit_batch_chain toy_verify bridge_demo_store (demo_key 4) batch_args s' r)
    as (rollup & Hg & _ & _ & _ & H).
  - apply (bool_decide_unpack _); vm_compute; exact I.
  - exact E.
  - exact Hr.
  - vm_compute in Hg. injection Hg as <-. destruct (H eq_refl) as (_ & _ & H1 & H2).
    split; [apply H1; by vm_compute|exact H2].
Defined.

Definition release_store : MemoryStore :=
  st_put (demo_ledger [demo_account 2 5; bare_account BRIDGE_ADDRESS 70])
    BRIDGE_RELAYER_KEY (demo_key 6).
Definition release_args : bytes := demo_key 2 ++ le_bytes 16 30 ++ demo_key 7.

Lemma bridge_release_once_witness :
  exists s' r, execute_bridge_call toy_verify release_store (demo_key 6) "bridge_from_base"
      release_args = (s', r) /\ sc_error r = None
    /\ balance_of s' (demo_key 2) = 35
    /\ sc_error (snd (execute_bridge_call toy_verify s' (demo_key 6) "bridge_from_base" release_args))
       <> None.
Proof.
  assert (Hr : sc_error (snd (execute_bridge_call toy_verify release_store (demo_key 6)
    "bridge_from_base" release_args)) = None) by (vm_compute; reflexivity).
  destruct (execute_bridge_call toy_verify release_store (demo_key 6) "bridge_from_base" release_args)
    as [s' r] eqn:E. cbn [snd] in Hr.
  exists s', r. split; [reflexivity|]. split; [exact Hr|].
  destruct (bridge_release_once toy_verify [demo_key 2; BRIDGE_ADDRESS] release_store (demo_key 6)
    release_args s' r) as (_ & _ & _ & _ & Hb & Hagain).
  - apply (accounts_wf_same (demo_ledger [demo_account 2 5; bare_account BRIDGE_ADDRESS 70]));
      [|solve_ledger_wf]. intros id. unfold release_store. apply get_put_ne. discriminate.
  - apply (bool_decide_unpack _); vm_compute; exact I.
  - apply (bool_decide_unpack _); vm_compute; exact I.
  - apply (bool_decide_unpack _); vm_compute; exact I.
  - apply (bool_decide_unpack _); vm_compute; exact I.
  - by vm_compute.
  - exact E.
  - exact Hr.
  - split; [rewrite Hb; by vm_compute|].
    eapply (Hagain s' (demo_key 6) release_args); [reflexivity|reflexivity|].
    apply surjective_pairing.
Defined.
