(* ===== verification/SystemCalls.v ===== *)
(** The routing of system calls ([execute_system_call] of
    [crates/solen-execution/src/system_calls.rs]). *)

From S2P Require Import Prelude Types Store State SysCommon Staking Governance Vesting Guardian.
From S2P Require Import Bridge Treasury SysStaking SysGovernance SysVesting SysGuardian.
From S2P Require Import SysIntent SysBridge.
Open Scope Z_scope.

(** The serialisations the system contracts use. *)
Class SystemCodecs : Type := {
  sc_staking :: Codec StakingContract;
  sc_governance :: Codec GovernanceContract;
  sc_vesting :: Codec VestingContract;
  sc_guardian :: Codec GuardianContract;
  sc_bridge :: Codec BridgeContract;
  sc_treasury :: Codec TreasuryContract;
  sc_auth :: Codec (list AuthMethod);
  sc_ids :: Codec (list AccountId);
  sc_reg :: Codec RollupReg;
  sc_batch :: Codec BatchRecord;
}.

Section routing.
Context {S : Type} `{!StateStore S} `{!Codec Account} `{!SystemCodecs}.
Context (debug_str : string -> string) (verify : bytes -> bytes -> bytes -> bool).

Definition execute_system_call (s : S) (sender target : AccountId) (method : string)
    (args : bytes) : S * SystemCallResult :=
  if bytes_eqb target STAKING_ADDRESS then execute_staking_call s sender method args
  else if bytes_eqb target GOVERNANCE_ADDRESS
  then execute_governance_call debug_str s sender method args
  else if bytes_eqb target BRIDGE_ADDRESS then execute_bridge_call verify s sender method args
  else if bytes_eqb target TREASURY_ADDRESS then execute_treasury_call s method
  else if bytes_eqb target VESTING_ADDRESS then execute_vesting_call s sender method args
  else if bytes_eqb target INTENT_ADDRESS then execute_intent_call s sender method args
  else if bytes_eqb target PAYMASTER_REGISTRY_ADDRESS then execute_paymaster_call s sender method
  else if bytes_eqb target GUARDIAN_ADDRESS then execute_guardian_call s sender method args
  else (s, mkSysResult 0 [] (Some "unknown system contract"%string)).
End routing.
