(* ===== verification/Fees.v ===== *)
(** Fee accounting ([crates/solen-execution/src/fees.rs]). *)

From S2P Require Import Prelude Types.
Open Scope Z_scope.

Record FeeConfig : Type := mkFeeConfig {
  base_fee_per_gas : u128;
  treasury_account : AccountId;
  burn_rate_bps : u64;
}.

(** The treasury of the fees, which is not the system address of the same
    name ([solen_types::system::TREASURY_ADDRESS]). *)
Definition FEE_TREASURY_ADDRESS : AccountId :=
  replicate 8 255 ++ replicate 8 0 ++ bytes_of_string "treasury" ++ replicate 7 0 ++ [1].

Definition fee_config_default : FeeConfig := mkFeeConfig 1 FEE_TREASURY_ADDRESS 5000.

Definition calculate_fee (c : FeeConfig) (gas_used : u64) : u128 :=
  sat_mul128 (base_fee_per_gas c) gas_used.

Definition treasury_amount (c : FeeConfig) (total_fee : u128) : u128 :=
  sat_mul128 total_fee (u64_sub 10000 (burn_rate_bps c)) / 10000.

Definition burn_amount (c : FeeConfig) (total_fee : u128) : u128 :=
  sat_mul128 total_fee (burn_rate_bps c) / 10000.

Definition set_burn_rate (bps : u64) (c : FeeConfig) : FeeConfig :=
  mkFeeConfig (base_fee_per_gas c) (treasury_account c) bps.

(** The treasury never gets more than the fee. *)
Lemma treasury_amount_le c fee :
  0 <= fee -> 0 <= burn_rate_bps c <= 10000 -> 0 <= treasury_amount c fee <= fee.
Proof.
  intros Hf Hb. unfold treasury_amount. rewrite u64_sub_exact by (unfold u64_max; lia).
  set (m := sat_mul128 _ _). assert (Hm : 0 <= m <= fee * 10000).
  { unfold m, sat_mul128, u128_max. nia. }
  split; [apply Z.div_pos; lia|]. apply Z.div_le_upper_bound; lia.
Qed.

(** The fee is split without creating tokens and losing at most one unit to
    rounding: treasury and burn together are the fee or one less, for every
    burn rate up to 100% and every fee whose scaling fits. *)
Theorem fee_split c fee :
  0 <= fee -> fee * 10000 <= u128_max -> 0 <= burn_rate_bps c <= 10000 ->
  fee - 1 <= treasury_amount c fee + burn_amount c fee <= fee.
Proof.
  intros Hf Hm Hb. unfold treasury_amount, burn_amount.
  rewrite u64_sub_exact by (unfold u64_max; lia).
  set (b := burn_rate_bps c) in *. unfold sat_mul128. rewrite !Z.min_l by nia.
  pose proof (Z.div_mod (fee * (10000 - b)) 10000 ltac:(lia)).
  pose proof (Z.div_mod (fee * b) 10000 ltac:(lia)).
  pose proof (Z.mod_pos_bound (fee * (10000 - b)) 10000 ltac:(lia)).
  pose proof (Z.mod_pos_bound (fee * b) 10000 ltac:(lia)).
  nia.
Qed.

Lemma fee_split_witness :
  treasury_amount (mkFeeConfig 1 [] 3333) 1001 + burn_amount (mkFeeConfig 1 [] 3333) 1001 = 1000
  /\ 1000 <= treasury_amount (mkFeeConfig 1 [] 3333) 1001 + burn_amount (mkFeeConfig 1 [] 3333) 1001
     <= 1001.
Proof.
  split; [reflexivity|]. apply (fee_split (mkFeeConfig 1 [] 3333) 1001);
    [lia|unfold u128_max; lia|simpl; lia].
Defined.
