(* ===== verification/Auth.v ===== *)
(** Authentication of operations ([crates/solen-execution/src/executor.rs]:
    [verify_auth], [verify_passkey], [extract_json_string],
    [base64url_encode], [is_system_authorized]) and the signed message
    ([UserOperation::signing_message] of [crates/solen-types/src/transaction.rs]).

    Text is kept as its UTF-8 bytes where the source works on bytes. *)

From S2P Require Import Prelude Types SysCommon.
Open Scope Z_scope.

(** ** Cryptographic primitives

    BLAKE3, SHA-256, Ed25519 ([verify_strict]), ML-DSA-65 and ECDSA over P-256
    come from third-party crates. *)
Class Crypto : Type := {
  blake3 : bytes -> Hash;
  sha256 : bytes -> Hash;
  (** [solen_crypto::verify(key, msg, sig).is_ok()]. *)
  ed25519_verify : bytes -> bytes -> bytes -> bool;
  (** [solen_crypto::verify_ml_dsa(key, msg, sig).is_ok()]. *)
  ml_dsa_verify : bytes -> bytes -> bytes -> bool;
  (** the point [(x, y)] is a valid key, [(r, s)] a valid signature, and the
      signature verifies over the data *)
  p256_verify : bytes -> bytes -> bytes -> bytes -> bytes -> bool;
}.

(** [fips204::ml_dsa_65::SIG_LEN]. *)
Definition ML_DSA_SIG_LEN : nat := Z.to_nat 3309.

(** ** Base64url without padding *)

Definition CHARSET : bytes := Eval vm_compute in
  bytes_of_string "ABCDEFGHIJKLMNOPQRSTUVWXYZabcdefghijklmnopqrstuvwxyz0123456789-_".

Definition sextet (n shift : Z) : Z := CHARSET !!! Z.to_nat (Z.land (Z.shiftr n shift) 63).
Definition group (b0 b1 b2 : Z) : Z := Z.lor (Z.lor (Z.shiftl b0 16) (Z.shiftl b1 8)) b2.

Fixpoint base64url_encode (b : bytes) : bytes :=
  match b with
  | [] => []
  | [b0] => let n := group b0 0 0 in [sextet n 18; sextet n 12]
  | [b0; b1] => let n := group b0 b1 0 in [sextet n 18; sextet n 12; sextet n 6]
  | b0 :: b1 :: b2 :: b =>
      let n := group b0 b1 b2 in
      sextet n 18 :: sextet n 12 :: sextet n 6 :: sextet n 0 :: base64url_encode b
  end.

(** ** The string fields of clientDataJSON *)

(** [str::find]: the text from the end of the first occurrence on. *)
Fixpoint after_first (pat b : bytes) : option bytes :=
  if starts_with pat b then Some (drop (length pat) b)
  else match b with [] => None | _ :: b => after_first pat b end.

(** [str::trim_start]: Unicode white space. *)
Fixpoint trim_start (b : bytes) : bytes :=
  match b with
  | x :: b1 =>
    if in_range 9 13 x || (x =? 32) then trim_start b1
    else match b1 with
    | y :: b2 =>
      if (x =? 194) && ((y =? 133) || (y =? 160)) then trim_start b2
      else match b2 with
      | z :: b3 =>
        if ((x =? 225) && (y =? 154) && (z =? 128))
           || ((x =? 226) && (y =? 128)
               && (in_range 128 138 z || (z =? 168) || (z =? 169) || (z =? 175)))
           || ((x =? 226) && (y =? 129) && (z =? 159))
           || ((x =? 227) && (y =? 128) && (z =? 128))
        then trim_start b3 else b
      | [] => b
      end
    | [] => b
    end
  | [] => []
  end.

Definition QUOTE : Z := 34.
Definition BACKSLASH : Z := 92.

(** The bytes up to the closing quote; [prev] is the byte before. *)
Fixpoint until_quote (prev : option Z) (b : bytes) : option bytes :=
  match b with
  | [] => None
  | x :: b =>
    if (x =? QUOTE) && match prev with None => true | Some p => negb (p =? BACKSLASH) end
    then Some []
    else cons x <$> until_quote (Some x) b
  end.

Definition strip_byte (c : Z) (b : bytes) : option bytes :=
  match b with x :: b => if x =? c then Some b else None | [] => None end.

Definition extract_json_string (json key : bytes) : option bytes :=
  let pattern := [QUOTE] ++ key ++ [QUOTE] in
  after_key ← after_first pattern json;
  if bool_decide (is_Some (after_first pattern after_key)) then None
  else
  after_colon ← strip_byte 58 (trim_start after_key);
  after_quote ← strip_byte QUOTE (trim_start after_colon);
  value ← until_quote None after_quote;
  if existsb (Z.eqb BACKSLASH) value then None else Some value.

(** [str::from_utf8(b).is_ok()]: nothing is replaced. *)
Definition valid_utf8 (b : bytes) : bool := bytes_eqb (utf8_lossy b) b.

Definition read_u16_at (b : bytes) (off : nat) : nat := Z.to_nat (from_le (slice off 2 b)).

Section auth.
Context `{!Crypto}.

Definition verify_passkey (pk_x pk_y : bytes) (rp_id : string) (origins : list string)
    (msg signature : bytes) : bool :=
  if (length signature <? 68)%nat then false
  else
  let auth_data_len := read_u16_at signature 0 in
  if (length signature <? 2 + auth_data_len + 2 + 64)%nat then false
  else
  let auth_data := slice 2 auth_data_len signature in
  let cd_offset := (2 + auth_data_len)%nat in
  let client_data_len := read_u16_at signature cd_offset in
  let sig_start := (cd_offset + 2 + client_data_len)%nat in
  if (length signature <? sig_start + 64)%nat then false
  else
  let client_data_json := slice (cd_offset + 2) client_data_len signature in
  let r_bytes := slice sig_start 32 signature in
  let s_bytes := slice (sig_start + 32) 32 signature in
  if negb (valid_utf8 client_data_json) then false
  else
  match extract_json_string client_data_json (bytes_of_string "challenge") with
  | None => false
  | Some challenge =>
    if negb (bytes_eqb challenge (base64url_encode msg)) then false
    else if negb (bool_decide (extract_json_string client_data_json (bytes_of_string "type")
                               = Some (bytes_of_string "webauthn.get"))) then false
    else if negb (bool_decide (origins = []))
         && negb (match extract_json_string client_data_json (bytes_of_string "origin") with
                  | Some o => existsb (fun a => bytes_eqb (bytes_of_string a) o) origins
                  | None => false
                  end) then false
    else if (length auth_data <? 37)%nat then false
    else if negb (String.eqb rp_id "")
         && negb (bytes_eqb (take 32 auth_data) (sha256 (bytes_of_string rp_id))) then false
    else if Z.land (auth_data !!! 32%nat) 1 =? 0 then false
    else p256_verify pk_x pk_y r_bytes s_bytes (auth_data ++ sha256 client_data_json)
  end.

(** ** Signatures *)

(** The rounds over [signature.chunks_exact(96)]: the keys seen, and the count,
    a [u16] with a plain increment. *)
Fixpoint count_signers (n : nat) (signers : list bytes) (msg signature : bytes)
    (seen : gset bytes) (valid_count : Z) : Z :=
  match n with
  | O => valid_count
  | S n =>
    let chunk := take 96 signature in
    let pubkey := take 32 chunk in
    let sig := slice 32 64 chunk in
    let rest := drop 96 signature in
    if bool_decide (pubkey ∈ seen) then count_signers n signers msg rest seen valid_count
    else if existsb (bytes_eqb pubkey) signers && ed25519_verify pubkey msg sig
    then count_signers n signers msg rest ({[pubkey]} ∪ seen) ((valid_count + 1) mod 2 ^ 16)
    else count_signers n signers msg rest ({[pubkey]} ∪ seen) valid_count
  end.

Definition verify_auth (method : AuthMethod) (msg signature : bytes) (pq_enabled : bool) :
    option string :=
  let named (b : bool) (name : string) := if b then Some name else None in
  match method with
  | Ed25519 public_key =>
      if negb (length signature =? 64)%nat then None
      else named (ed25519_verify public_key msg signature) "ed25519"%string
  | Threshold signers threshold =>
      if (threshold =? 0) || bool_decide (signers = []) then None
      else if negb (length signature mod 96 =? 0)%nat || bool_decide (signature = []) then None
      else named (threshold <=? count_signers (length signature / 96) signers msg signature ∅ 0)
             "threshold"%string
  | Passkey _ x y rp_id origins =>
      named (verify_passkey x y rp_id origins msg signature) "passkey"%string
  | Session session_key _ _ _ _ _ _ =>
      if negb (length signature =? 64)%nat then None
      else named (ed25519_verify session_key msg signature) "session"%string
  | Guardian _ => None
  | MlDsa public_key =>
      if negb pq_enabled then None else named (ml_dsa_verify public_key msg signature) "ml-dsa"%string
  | Hybrid ed_key ml_key =>
      if negb pq_enabled then None
      else if negb (length signature =? 64 + ML_DSA_SIG_LEN)%nat then None
      else if negb (ed25519_verify ed_key msg (take 64 signature)) then None
      else if negb (ml_dsa_verify ml_key msg (drop 64 signature)) then None
      else Some "hybrid"%string
  end.

(** ** The signed message ([transaction.rs]) *)

Definition signing_message `{!Codec (list Action)} (chain_id : u64) (op : UserOperation) : bytes :=
  le_bytes 8 chain_id ++ op_sender op ++ le_bytes 8 (op_nonce op) ++ le_bytes 16 (op_max_fee op)
  ++ blake3 (default [] (ser (op_actions op))).
End auth.

(** [signature = [0xFF]], one action, a call of [fulfill] or [slash] on a system
    contract. *)
Definition is_system_authorized (op : UserOperation) : bool :=
  bytes_eqb (op_signature op) [255]
  && match op_actions op with
     | [Call target method _] =>
         is_system_contract target && (String.eqb method "fulfill" || String.eqb method "slash")
     | _ => false
     end.

(** ** Base64url is injective *)

Lemma lor_shiftl a b k : 0 <= k -> 0 <= b < 2 ^ k -> Z.lor (Z.shiftl a k) b = a * 2 ^ k + b.
Proof.
  intros Hk Hb. apply Z.bits_inj'. intros n Hn. rewrite Z.lor_spec, Z.shiftl_spec by done.
  assert (Hp : 0 < 2 ^ k) by (apply Z.pow_pos_nonneg; lia).
  destruct (Z.lt_ge_cases n k) as [Hlt|Hge].
  - rewrite (Z.testbit_neg_r a (n - k)) by lia. simpl.
    rewrite <- (Z.mod_pow2_bits_low (a * 2 ^ k + b) k n) by lia.
    by rewrite Z.add_comm, Z_mod_plus_full, Z.mod_small.
  - assert (Hx : Z.testbit (a * 2 ^ k + b) n = Z.testbit ((a * 2 ^ k + b) / 2 ^ k) (n - k))
      by (rewrite Z.div_pow2_bits by lia; f_equal; lia).
    rewrite Hx, Z.add_comm, Z.div_add, (Z.div_small b) by lia. simpl.
    destruct (Z.eq_dec b 0) as [->|]; [by rewrite Z.testbit_0_l, orb_false_r|].
    rewrite (Z.bits_above_log2 b n); [by rewrite orb_false_r|lia|]. apply Z.log2_lt_pow2; [lia|].
    apply Z.lt_le_trans with (2 ^ k); [lia|]. apply Z.pow_le_mono_r; lia.
Qed.

Definition is_byte (x : Z) : Prop := 0 <= x <= 255.

Lemma group_value b0 b1 b2 :
  is_byte b0 -> is_byte b1 -> is_byte b2 -> group b0 b1 b2 = b0 * 65536 + b1 * 256 + b2.
Proof.
  unfold is_byte, group. intros H0 H1 H2.
  replace (Z.lor (Z.shiftl b0 16) (Z.shiftl b1 8)) with (Z.shiftl (b0 * 256 + b1) 8).
  - rewrite lor_shiftl by lia. change (2 ^ 8) with 256. lia.
  - rewrite (Z.shiftl_mul_pow2 b1 8), lor_shiftl by lia.
    rewrite Z.shiftl_mul_pow2 by lia. change (2 ^ 8) with 256. change (2 ^ 16) with 65536. lia.
Qed.

Lemma charset_inj i j : 0 <= i < 64 -> 0 <= j < 64 ->
  CHARSET !!! Z.to_nat i = CHARSET !!! Z.to_nat j -> i = j.
Proof.
  intros Hi Hj H. assert (Hnd : NoDup CHARSET) by (apply (bool_decide_unpack _); vm_compute; exact I).
  assert (Hl : forall k, 0 <= k < 64 ->
    CHARSET !! Z.to_nat k = Some (CHARSET !!! Z.to_nat k)).
  { intros k Hk. apply list_lookup_lookup_total_lt. change (length CHARSET) with 64%nat. lia. }
  pose proof (Hl i Hi) as H1. pose proof (Hl j Hj) as H2. rewrite H in H1.
  pose proof (NoDup_lookup _ _ _ _ Hnd H1 H2). lia.
Qed.

(** Equal characters are equal sextets. *)
Lemma sextet_inj n m k : 0 <= k -> 0 <= n -> 0 <= m -> sextet n k = sextet m k ->
  n / 2 ^ k mod 64 = m / 2 ^ k mod 64.
Proof.
  intros Hk Hn Hm H. unfold sextet in H. change 63 with (Z.ones 6) in H.
  rewrite !Z.land_ones, !Z.shiftr_div_pow2 in H by lia. change (2 ^ 6) with 64 in H.
  apply charset_inj in H; auto; apply Z.mod_pos_bound; lia.
Qed.

Lemma group_inj n m : 0 <= n < 2 ^ 24 -> 0 <= m < 2 ^ 24 ->
  sextet n 18 = sextet m 18 -> sextet n 12 = sextet m 12 ->
  n / 4096 = m / 4096
  /\ (sextet n 6 = sextet m 6 -> n / 64 = m / 64 /\ (sextet n 0 = sextet m 0 -> n = m)).
Proof.
  intros Hn Hm H1 H2. apply sextet_inj in H1, H2; try lia.
  change (2 ^ 18) with 262144 in H1. change (2 ^ 12) with 4096 in H2. change (2 ^ 24) with 16777216 in *.
  assert (Hdiv : forall x, x / 262144 = x / 4096 / 64) by (intros x; by rewrite Z.div_div).
  assert (Hdiv2 : forall x, x / 4096 = x / 64 / 64) by (intros x; by rewrite Z.div_div).
  assert (Hsm : forall x, 0 <= x < 16777216 -> x / 262144 mod 64 = x / 262144).
  { intros x Hx. apply Z.mod_small. split; [apply Z.div_pos; lia|apply Z.div_lt_upper_bound; lia]. }
  rewrite !Hsm, !Hdiv in H1 by lia.
  assert (H3 : n / 4096 = m / 4096).
  { rewrite (Z.div_mod (n / 4096) 64), (Z.div_mod (m / 4096) 64) by lia. lia. }
  split; [done|]. intros H4. apply sextet_inj in H4; try lia. change (2 ^ 6) with 64 in H4.
  assert (H5 : n / 64 = m / 64).
  { rewrite !Hdiv2 in H3. rewrite (Z.div_mod (n / 64) 64), (Z.div_mod (m / 64) 64) by lia. lia. }
  split; [done|]. intros H6. apply sextet_inj in H6; try lia. change (2 ^ 0) with 1 in H6.
  rewrite !Z.div_1_r in H6. rewrite (Z.div_mod n 64), (Z.div_mod m 64) by lia. lia.
Qed.

Lemma group_range b0 b1 b2 :
  is_byte b0 -> is_byte b1 -> is_byte b2 -> 0 <= group b0 b1 b2 < 2 ^ 24.
Proof. intros H0 H1 H2. rewrite group_value by done. unfold is_byte in *. lia. Qed.

Lemma base64url_inj : forall a b, Forall is_byte a -> Forall is_byte b ->
  base64url_encode a = base64url_encode b -> a = b.
Proof.
  fix IH 1. intros [|x0 [|x1 [|x2 a]]] [|y0 [|y1 [|y2 b]]] Ha Hb H;
    try reflexivity; try (exfalso; simpl in H; congruence);
    repeat match goal with Hf : Forall is_byte (_ :: _) |- _ => apply Forall_cons in Hf as [? Hf] end;
    assert (Hz : is_byte 0) by (unfold is_byte; lia).
  - simpl in H. injection H as E1 E2.
    destruct (group_inj _ _ (group_range x0 0 0 ltac:(done) Hz Hz) (group_range y0 0 0 ltac:(done) Hz Hz)
      E1 E2) as [Hd _].
    rewrite !group_value in Hd by done. f_equal. unfold is_byte in *.
    replace (x0 * 65536 + 0 * 256 + 0) with (x0 * 16 * 4096) in Hd by lia.
    replace (y0 * 65536 + 0 * 256 + 0) with (y0 * 16 * 4096) in Hd by lia.
    rewrite !Z.div_mul in Hd by lia. lia.
  - simpl in H. injection H as E1 E2 E3.
    destruct (group_inj _ _ (group_range x0 x1 0 ltac:(done) ltac:(done) Hz)
      (group_range y0 y1 0 ltac:(done) ltac:(done) Hz) E1 E2) as [_ Hd].
    destruct (Hd E3) as [Hd' _]. rewrite !group_value in Hd' by done. unfold is_byte in *.
    replace (x0 * 65536 + x1 * 256 + 0) with ((x0 * 1024 + x1 * 4) * 64) in Hd' by lia.
    replace (y0 * 65536 + y1 * 256 + 0) with ((y0 * 1024 + y1 * 4) * 64) in Hd' by lia.
    rewrite !Z.div_mul in Hd' by lia. f_equal; [lia|]. f_equal. lia.
  - cbn [base64url_encode] in H. injection H as E1 E2 E3 E4 E5.
    destruct (group_inj _ _ (group_range x0 x1 x2 ltac:(done) ltac:(done) ltac:(done))
      (group_range y0 y1 y2 ltac:(done) ltac:(done) ltac:(done)) E1 E2) as [_ Hd].
    destruct (Hd E3) as [_ Hd']. specialize (Hd' E4). rewrite !group_value in Hd' by done.
    unfold is_byte in *. assert (x0 = y0 /\ x1 = y1 /\ x2 = y2) as (-> & -> & ->) by lia.
    do 3 f_equal. by apply IH.
Qed.

(** ** What the methods accept *)
Section accepts.
Context `{!Crypto}.

(** Every condition of the passkey check that names the message or the client data. *)
Lemma verify_passkey_challenge x y rp origins msg sig :
  verify_passkey x y rp origins msg sig = true ->
  let cd := (2 + read_u16_at sig 0)%nat in
  extract_json_string (slice (cd + 2) (read_u16_at sig cd) sig) (bytes_of_string "challenge")
  = Some (base64url_encode msg).
Proof.
  unfold verify_passkey. destruct (Nat.ltb _ _); [done|]. destruct (Nat.ltb _ _); [done|].
  destruct (Nat.ltb _ _); [done|]. destruct (negb (valid_utf8 _)); [done|]. cbv zeta.
  destruct (extract_json_string _ (bytes_of_string "challenge")) as [c|]; [|done].
  destruct (bytes_eqb c _) eqn:E; [|done]. intros _. apply bytes_eqb_true in E. by rewrite E.
Qed.

(** a passkey assertion authorises one message only: the same signature bytes
    cannot be accepted for two different signing messages, under whatever keys,
    relying parties and origins, since the single challenge they carry has to
    be the base64url form of the message, and that encoding is injective. *)
Theorem passkey_binds_message x y rp origins x' y' rp' origins' m1 m2 sig :
  Forall is_byte m1 -> Forall is_byte m2 ->
  verify_passkey x y rp origins m1 sig = true -> verify_passkey x' y' rp' origins' m2 sig = true ->
  m1 = m2.
Proof.
  intros H1 H2 Hv1%verify_passkey_challenge Hv2%verify_passkey_challenge.
  apply base64url_inj; [done|done|]. congruence.
Qed.

(** ** Threshold signatures *)

(** [key] occurs in a 96-byte entry of the signature with a valid signature. *)
Definition signed_entry (msg signature key : bytes) : Prop :=
  exists i, (96 * i + 96 <= length signature)%nat /\ slice (96 * i) 32 signature = key
    /\ ed25519_verify key msg (slice (96 * i + 32) 64 signature) = true.

Lemma slice_drop (m off n : nat) (b : bytes) : slice off n (drop m b) = slice (m + off) n b.
Proof. unfold slice. by rewrite drop_drop. Qed.

Lemma count_signers_sound n signers msg signature seen c :
  (96 * n <= length signature)%nat -> 0 <= c < 2 ^ 16 ->
  exists keys, NoDup keys /\ Forall (fun k => k ∉ seen) keys
    /\ count_signers n signers msg signature seen c <= c + Z.of_nat (length keys)
    /\ 0 <= count_signers n signers msg signature seen c
    /\ Forall (fun k => k ∈ signers /\ signed_entry msg signature k) keys.
Proof.
  revert signature seen c. induction n as [|n IH]; intros signature seen c Hl Hc.
  { exists []. cbn [count_signers]. split; [constructor|]. split; [done|]. split; [simpl; lia|].
    split; [lia|done]. }
  cbn [count_signers]. set (key := take 32 (take 96 signature)).
  assert (Hshift : forall keys, Forall (fun k => k ∈ signers /\ signed_entry msg (drop 96 signature) k) keys ->
    Forall (fun k => k ∈ signers /\ signed_entry msg signature k) keys).
  { intros keys Hk. eapply Forall_impl; [exact Hk|]. simpl. intros k [Hin (i & Hi & Hs & Hv)].
    split; [done|]. exists (S i). rewrite length_drop in Hi. rewrite !slice_drop in *.
    replace (96 * S i)%nat with (96 + 96 * i)%nat by lia. split; [lia|]. split; [done|].
    by rewrite Nat.add_assoc in Hv. }
  assert (Hl' : (96 * n <= length (drop 96 signature))%nat) by (rewrite length_drop; lia).
  case_bool_decide as Hseen.
  { destruct (IH (drop 96 signature) seen c Hl' Hc) as (keys & H1 & H2 & H3 & H4 & H5).
    exists keys. repeat (split; [done|]). by apply Hshift. }
  destruct (existsb (bytes_eqb key) signers && _) eqn:E.
  - apply andb_true_iff in E as [Ein Ever].
    apply existsb_exists in Ein as (k' & Hk' & <-%bytes_eqb_true). apply list_elem_of_In in Hk'.
    assert (Hc' : 0 <= (c + 1) mod 2 ^ 16 < 2 ^ 16) by (apply Z.mod_pos_bound; lia).
    assert (Hle : (c + 1) mod 2 ^ 16 <= c + 1) by (apply Z.mod_le; lia).
    destruct (IH (drop 96 signature) ({[key]} ∪ seen) _ Hl' Hc') as (keys & H1 & H2 & H3 & H4 & H5).
    exists (key :: keys). split; [|split; [|split; [|split]]].
    + apply NoDup_cons. split; [|done]. intros Hin.
      apply (proj1 (Forall_forall _ _) H2) in Hin. set_solver.
    + constructor; [done|]. eapply Forall_impl; [exact H2|]. set_solver.
    + simpl. lia.
    + done.
    + constructor; [|by apply Hshift]. split; [done|]. exists 0%nat. split; [lia|].
      unfold key, slice in *. rewrite take_take in *. split; [done|].
      replace (Nat.min 32 96) with 32%nat in * by lia.
      rewrite <- Ever. f_equal. change (96 * 0 + 32)%nat with 32%nat. rewrite skipn_firstn_comm.
      rewrite take_take. f_equal.
  - destruct (IH (drop 96 signature) ({[key]} ∪ seen) c Hl' Hc) as (keys & H1 & H2 & H3 & H4 & H5).
    exists keys. split; [done|].
    split; [eapply Forall_impl; [exact H2|]; set_solver|]. split; [done|]. split; [done|].
    by apply Hshift.
Qed.

(** C16: a threshold account accepts an operation only if at least [threshold]
    pairwise distinct keys of its list signed the message, each with an entry
    of its own; repeating an entry or adding foreign keys does not help. *)
Theorem threshold_needs_quorum signers threshold msg signature pq name :
  0 <= threshold ->
  verify_auth (Threshold signers threshold) msg signature pq = Some name ->
  0 < threshold
  /\ exists keys, NoDup keys /\ threshold <= Z.of_nat (length keys)
     /\ Forall (fun k => k ∈ signers /\ signed_entry msg signature k) keys.
Proof.
  intros Ht. cbn [verify_auth]. destruct (Z.eqb_spec threshold 0); [done|]. case_bool_decide; [done|].
  cbn [orb]. destruct (negb (length signature mod 96 =? 0)%nat || _) eqn:El; [done|].
  apply orb_false_iff in El as [El _]. apply negb_false_iff, Nat.eqb_eq in El.
  destruct (Z.leb_spec threshold
    (count_signers (length signature / 96) signers msg signature ∅ 0)) as [Hle|]; [|done].
  intros _. split; [lia|].
  destruct (count_signers_sound (length signature / 96) signers msg signature ∅ 0)
    as (keys & H1 & _ & H3 & _ & H5).
  - pose proof (Nat.div_mod_eq (length signature) 96). lia.
  - lia.
  - exists keys. split; [done|]. split; [lia|done].
Qed.

(** The signed message fixes the chain, the sender, the nonce, the fee limit and
    the digest of the actions. *)
Lemma signing_message_binds `{!Codec (list Action)} c1 c2 op1 op2 :
  length (op_sender op1) = length (op_sender op2) ->
  in_u64 c1 -> in_u64 c2 -> in_u64 (op_nonce op1) -> in_u64 (op_nonce op2) ->
  in_u128 (op_max_fee op1) -> in_u128 (op_max_fee op2) ->
  signing_message c1 op1 = signing_message c2 op2 ->
  c1 = c2 /\ op_sender op1 = op_sender op2 /\ op_nonce op1 = op_nonce op2
  /\ op_max_fee op1 = op_max_fee op2
  /\ blake3 (default [] (ser (op_actions op1))) = blake3 (default [] (ser (op_actions op2))).
Proof.
  intros Hl Hc1 Hc2 Hn1 Hn2 Hf1 Hf2 E. unfold signing_message in E.
  apply app_inj_1 in E as [H1 E]; [|by rewrite !length_le_bytes].
  apply app_inj_1 in E as [H2 E]; [|done].
  apply app_inj_1 in E as [H3 E]; [|by rewrite !length_le_bytes].
  apply app_inj_1 in E as [H4 H5]; [|by rewrite !length_le_bytes].
  apply (f_equal from_le) in H1, H3, H4.
  rewrite !from_le_u64 in H1, H3 by done. rewrite !from_le_u128 in H4 by done. auto.
Qed.
End accepts.

(** ** Examples *)

(** Stand-ins: hashes are the identity, and a signature is valid when it starts
    with the first byte of the key. *)
#[export] Instance toy_crypto : Crypto := {|
  blake3 b := b;
  sha256 b := b;
  ed25519_verify key msg sig := bytes_eqb (take 1 sig) (take 1 key);
  ml_dsa_verify key msg sig := bytes_eqb (take 1 sig) (take 1 key);
  p256_verify x y r s data := bytes_eqb (take 1 r) (take 1 x);
|}.

(** An assertion whose challenge is the message "M", with user presence. *)
Definition quoted (s : string) : bytes := [QUOTE] ++ bytes_of_string s ++ [QUOTE].
Definition toy_message : bytes := [77].
Definition toy_client_data : bytes :=
  [123] ++ quoted "type" ++ [58] ++ quoted "webauthn.get" ++ [44] ++ quoted "challenge" ++ [58; 32]
  ++ [QUOTE] ++ base64url_encode toy_message ++ [QUOTE] ++ [125].
Definition toy_assertion : bytes :=
  le_bytes 2 37 ++ replicate 32 0 ++ [1] ++ replicate 4 0
  ++ le_bytes 2 (Z.of_nat (length toy_client_data)) ++ toy_client_data
  ++ demo_key 1 ++ demo_key 2.

Lemma passkey_binds_message_witness :
  verify_passkey (demo_key 1) (demo_key 3) "" [] toy_message toy_assertion = true
  /\ forall m2, Forall is_byte m2 ->
     verify_passkey (demo_key 1) (demo_key 3) "" [] m2 toy_assertion = true -> toy_message = m2.
Proof.
  assert (H : verify_passkey (demo_key 1) (demo_key 3) "" [] toy_message toy_assertion = true)
    by (vm_compute; reflexivity).
  split; [exact H|]. intros m2 Hm2 H2.
  apply (passkey_binds_message (demo_key 1) (demo_key 3) "" [] (demo_key 1) (demo_key 3) "" []
    toy_message m2 toy_assertion); [|exact Hm2|exact H|exact H2].
  repeat constructor; unfold is_byte; lia.
Defined.

Lemma threshold_needs_quorum_witness :
  let sig := demo_key 1 ++ replicate 64 1 ++ demo_key 1 ++ replicate 64 1
             ++ demo_key 2 ++ replicate 64 2 in
  verify_auth (Threshold [demo_key 1; demo_key 2; demo_key 3] 2) [7] sig false
    = Some "threshold"%string
  /\ exists keys, NoDup keys /\ 2 <= Z.of_nat (length keys)
     /\ Forall (fun k => k ∈ [demo_key 1; demo_key 2; demo_key 3] /\ signed_entry [7] sig k) keys.
Proof.
  intros sig.
  assert (H : verify_auth (Threshold [demo_key 1; demo_key 2; demo_key 3] 2) [7] sig false
    = Some "threshold"%string) by (vm_compute; reflexivity).
  split; [exact H|].
  exact (proj2 (threshold_needs_quorum [demo_key 1; demo_key 2; demo_key 3] 2 [7] sig false
    "threshold" ltac:(lia) H)).
Defined.
