(* ===== verification/Session.v ===== *)
(** Validation of an operation before it runs ([validate_and_prepare] of
    [crates/solen-execution/src/executor.rs]): the signature, the restrictions
    of a session key, and the nonce. *)

From S2P Require Import Prelude Types Store Memory Bridge Codec State SysCommon SysBridge Fees Auth.
Open Scope Z_scope.

Inductive ExecutionError : Type :=
| EState (e : StateError)
| EInvalidSignature
| EAccountNotFound (what : string)
| EInsufficientFee (have need : u128)
| EVm (what : string).

Definition execution_error_msg (e : ExecutionError) : string :=
  match e with
  | EState e => "state error: " +:+ state_error_msg e
  | EInvalidSignature => "signature verification failed"
  | EAccountNotFound w => "account not found: " +:+ w
  | EInsufficientFee h n =>
      "insufficient balance for fee: have " +:+ pretty h +:+ ", need " +:+ pretty n
  | EVm w => "vm error: " +:+ w
  end.

(** The error most of the executor's own checks report. *)
Definition refuse (msg : string) : ExecutionError := EState (AccountNotFound msg).

(** [{:?}] of a byte slice. *)
Definition debug_bytes (b : bytes) : string := "[" +:+ String.concat ", " (map pretty b) +:+ "]".

Record SubcallPolicy : Type := mkPolicy {
  sp_targets : list AccountId;
  sp_methods : list string;
}.

Record PreparedOp : Type := mkPrepared {
  session_charge : option (bytes * u128);
  subcall_policy : option SubcallPolicy;
}.

Definition prepared_plain : PreparedOp := mkPrepared None None.

(** The configuration of a [BlockExecutor], without its VM. *)
Record ExecConfig : Type := mkExecConfig {
  fee_config : FeeConfig;
  chain_id : u64;
  fee_fix_height : u64;
  pq_auth_height : u64;
  epoch_randomness_height : u64;
}.

Definition exec_config_default : ExecConfig := mkExecConfig fee_config_default 0 u64_max u64_max u64_max.

Definition SESSION_SPENT_PREFIX : bytes := Eval vm_compute in bytes_of_string "session_spent/".
Definition session_spent_key (owner session_key : bytes) : bytes :=
  SESSION_SPENT_PREFIX ++ bytes_of_string (hex_encode owner) ++ [47]
  ++ bytes_of_string (hex_encode session_key).

Definition check {E} (o : option E) : result unit E :=
  match o with Some e => Err e | None => Ok tt end.

(** ** Spending *)

Definition action_spend (a : Action) : u128 :=
  match a with
  | Transfer _ amount => amount
  | Call target _ args =>
      if is_system_contract target && (48 <=? length args)%nat then
        let amount_offset := if bytes_eqb target BRIDGE_ADDRESS then 8%nat else 32%nat in
        if (amount_offset + 16 <=? length args)%nat then from_le (slice amount_offset 16 args) else 0
      else 0
  | _ => 0
  end.

Definition this_spend (op : UserOperation) : u128 := u128_sum (map action_spend (op_actions op)).

(** ** The checks on the actions of a session *)

Definition target_of (a : Action) : option AccountId :=
  match a with Call t _ _ => Some t | Transfer t _ => Some t | _ => None end.

Definition target_error (allowed : list AccountId) (a : Action) : option ExecutionError :=
  match target_of a with
  | Some t => if existsb (bytes_eqb t) allowed then None
              else Some (refuse "session key not authorized for this target")
  | None => None
  end.

Definition privileged_error (a : Action) : option ExecutionError :=
  match a with
  | SetAuth _ => Some (refuse "session keys cannot modify account auth methods")
  | Deploy _ _ => Some (refuse "session keys cannot deploy contracts")
  | Call target method _ =>
      if bytes_eqb target GUARDIAN_ADDRESS
      then Some (refuse "session keys cannot call guardian recovery")
      else if bytes_eqb target GOVERNANCE_ADDRESS
              && (String.prefix "propose" method || String.eqb method "finalize"
                  || String.eqb method "execute")
      then Some (refuse "session keys cannot create or execute governance proposals")
      else None
  | Transfer _ _ => None
  end.

Definition method_error (allowed : list string) (a : Action) : option ExecutionError :=
  match a with
  | Call _ m _ => if existsb (String.eqb m) allowed then None
                  else Some (refuse ("session key not authorized for method: " +:+ m))
  | _ => None
  end.

Section validate.
Context {S : Type} `{!StateStore S} `{!Codec Account} {crypto : Crypto} `{!Codec (list Action)}.
Context (cfg : ExecConfig).

Definition operation_signing_message (op : UserOperation) : bytes := signing_message (chain_id cfg) op.

Definition is_matching_session (msg signature : bytes) (m : AuthMethod) : bool :=
  match m with
  | Session key _ _ _ _ _ _ => (length signature =? 64)%nat && ed25519_verify key msg signature
  | _ => false
  end.

(** The running total of a session key. *)
Definition session_spent (s : S) (key : bytes) : u128 :=
  match st_get s key with
  | Some v => if (16 <=? length v)%nat then from_le (take 16 v) else 0
  | None => 0
  end.

Definition check_session (s : S) (op : UserOperation) (m : AuthMethod) :
    result PreparedOp ExecutionError :=
  match m with
  | Session key expires_at limit budget targets methods restrict =>
    let policy :=
      if restrict && (negb (bool_decide (targets = [])) || negb (bool_decide (methods = [])))
      then Some (mkPolicy targets methods) else None in
    if expires_at <? default 0 (current_height s) then Err (refuse "session key expired")
    else
    let spend := this_spend op in
    if (0 <? limit) && (limit <? spend)
    then Err (refuse ("session spending limit exceeded: " +:+ pretty spend +:+ " > " +:+ pretty limit))
    else
    let ledger := session_spent_key (op_sender op) key in
    let prior := session_spent s ledger in
    let new_total := sat_add128 prior spend in
    if (0 <? budget) && (budget <? new_total)
    then Err (refuse ("session budget exhausted: " +:+ pretty prior +:+ " + " +:+ pretty spend
                      +:+ " > " +:+ pretty budget))
    else
    let charge := if (0 <? budget) && (0 <? spend) then Some (ledger, new_total) else None in
    let! _ := check (if bool_decide (targets = []) then None
                     else find_map (target_error targets) (op_actions op)) in
    let! _ := check (find_map privileged_error (op_actions op)) in
    let! _ := check (if bool_decide (methods = []) then None
                     else find_map (method_error methods) (op_actions op)) in
    Ok (mkPrepared charge policy)
  | _ => Ok prepared_plain
  end.

Definition validate_and_prepare (s : S) (op : UserOperation) (height : u64) :
    result (S * PreparedOp) ExecutionError :=
  match load_account s (op_sender op) with
  | Err e => Err (EState e)
  | Ok None => Err (EAccountNotFound (debug_bytes (take 4 (op_sender op))))
  | Ok (Some account) =>
    if is_system_authorized op then Ok (s, prepared_plain)
    else
    let msg := operation_signing_message op in
    let pq_enabled := pq_auth_height cfg <=? height in
    if negb (existsb (fun m => bool_decide (is_Some (verify_auth m msg (op_signature op) pq_enabled)))
               (auth_methods account))
    then Err EInvalidSignature
    else
    let! prepared :=
      (match List.find (is_matching_session msg (op_signature op)) (auth_methods account) with
       | Some m => check_session s op m
       | None => Ok prepared_plain
       end) in
    match consume_nonce s (op_sender op) (op_nonce op) with
    | Ok s => Ok (s, prepared)
    | Err e => Err (EState e)
    end
  end.
End validate.

Section validated.
Context {S : Type} `{!StateStore S} `{!StateStoreLaws S} `{!Codec Account} `{!CodecLaws Account}
        {crypto : Crypto} `{!Codec (list Action)} (cfg : ExecConfig).
Implicit Types s : S.

Lemma consume_nonce_inv s id n s' :
  consume_nonce s id n = Ok s' ->
  exists a, load_account s id = Ok (Some a) /\ nonce a = n /\ n <> u64_max
    /\ s' = save_account_or_keep s (set_nonce (n + 1) a).
Proof.
  unfold consume_nonce, rbind. destruct (require_account s id) as [a|] eqn:Er; [|done].
  apply require_account_spec in Er. destruct (Z.eqb_spec n (nonce a)) as [Hn|]; simpl; [|done].
  destruct (Z.eqb_spec (nonce a) u64_max); [done|]. rewrite save_or_keep_eq. intros [= <-].
  exists a. subst n. auto.
Qed.

(** An operation that is not the proposer's own has a valid signature, the
    current nonce, and leaves the account with the next one. *)
Lemma validate_signed s op height s' p :
  validate_and_prepare cfg s op height = Ok (s', p) -> is_system_authorized op = false ->
  let msg := operation_signing_message cfg op in
  exists a, load_account s (op_sender op) = Ok (Some a)
    /\ (exists m name, m ∈ auth_methods a
          /\ verify_auth m msg (op_signature op) (pq_auth_height cfg <=? height) = Some name)
    /\ nonce a = op_nonce op /\ op_nonce op <> u64_max
    /\ s' = save_account_or_keep s (set_nonce (op_nonce op + 1) a)
    /\ match List.find (is_matching_session msg (op_signature op)) (auth_methods a) with
       | Some m => check_session s op m = Ok p
       | None => p = prepared_plain
       end.
Proof.
  intros H Hsys msg. unfold validate_and_prepare in H.
  destruct (load_account s (op_sender op)) as [[a|]|] eqn:El; [|done|done]. rewrite Hsys in H.
  fold msg in H. destruct (existsb _ _) eqn:Ev; simpl in H; [|done].
  apply existsb_exists in Ev as (m & Hm & Hv%bool_decide_eq_true). destruct Hv as [name Hv].
  unfold rbind in H. set (c := match List.find _ _ with Some _ => _ | None => _ end) in H.
  destruct c as [p'|] eqn:Ec; [|done]. destruct (consume_nonce _ _ _) as [s1|] eqn:En; [|done].
  injection H as <- <-. apply consume_nonce_inv in En as (a' & Ha' & Hn & Hmax & ->).
  exists a. split; [done|]. split; [exists m, name; split; [by apply list_elem_of_In|done]|].
  assert (a' = a) as -> by congruence.
  split; [done|]. split; [done|]. split; [done|]. unfold c in Ec.
  destruct (List.find _ _); [done|]. by injection Ec.
Qed.

(** C9: what a validated operation was authorised by. Either it carries the
    marker that the block proposer puts in place of a signature; then it is one
    call of [fulfill] or [slash] on a system contract, nothing is checked but
    that the account exists, no nonce is consumed and nothing changes. Or it is signed, over the message that binds chain, sender, nonce,
    fee limit and actions, with one of the account's current methods, and
    carries the account's current nonce; nothing but that nonce changes, it goes
    up by one, and the operation is refused, at every height, in every state in
    which the account has another nonce or is gone, the one right after the
    validation among them. *)
Theorem operation_authorized s op height s' p :
  accounts_wf s -> validate_and_prepare cfg s op height = Ok (s', p) ->
  (op_signature op = [255] /\ s' = s /\ p = prepared_plain
   /\ (exists target method args, op_actions op = [Call target method args]
        /\ is_system_contract target = true /\ (method = "fulfill"%string \/ method = "slash"%string))
   /\ exists a, load_account s (op_sender op) = Ok (Some a))
  \/ exists a m name, load_account s (op_sender op) = Ok (Some a) /\ m ∈ auth_methods a
    /\ verify_auth m (signing_message (chain_id cfg) op) (op_signature op)
         (pq_auth_height cfg <=? height) = Some name
    /\ nonce a = op_nonce op
    /\ load_account s' (op_sender op) = Ok (Some (set_nonce (op_nonce op + 1) a))
    /\ (forall k, k <> account_key (op_sender op) -> st_get s' k = st_get s k)
    /\ (forall s2 height2,
          (forall a2, load_account s2 (op_sender op) = Ok (Some a2) -> nonce a2 <> op_nonce op) ->
          exists e, validate_and_prepare cfg s2 op height2 = Err e)
    /\ exists e, validate_and_prepare cfg s' op height = Err e.
Proof.
  intros Hw H. destruct (is_system_authorized op) eqn:Hsys; [left|right].
  { unfold validate_and_prepare in H. rewrite Hsys in H.
    destruct (load_account s (op_sender op)) as [[a|]|]; [|done|done]. injection H as <- <-.
    unfold is_system_authorized in Hsys. apply andb_true_iff in Hsys as [Hm Ha].
    split; [by apply bytes_eqb_true|]. split; [done|]. split; [done|]. split; [|eauto].
    destruct (op_actions op) as [|[|target method args| |] [|]]; try done. exists target, method, args.
    apply andb_true_iff in Ha as [Ht Ha]. split; [done|]. split; [done|].
    apply orb_true_iff in Ha as [Ha|Ha]; apply String.eqb_eq in Ha; auto. }
  destruct (validate_signed _ _ _ _ _ H Hsys) as (a & Hl & (m & name & Hm & Hv) & Hn & _ & -> & _).
  destruct (Hw _ _ Hl) as (Hid & _).
  assert (Hl' : load_account (save_account_or_keep s (set_nonce (op_nonce op + 1) a)) (op_sender op)
    = Ok (Some (set_nonce (op_nonce op + 1) a))).
  { rewrite load_save_account. simpl. rewrite Hid. by rewrite decide_True. }
  assert (Hr : forall s2 height2,
    (forall a2, load_account s2 (op_sender op) = Ok (Some a2) -> nonce a2 <> op_nonce op) ->
    exists e, validate_and_prepare cfg s2 op height2 = Err e).
  { intros s2 height2 Hne. destruct (validate_and_prepare cfg s2 op height2) as [[s3 p3]|e] eqn:E2; [|eauto].
    destruct (validate_signed _ _ _ _ _ E2 Hsys) as (a2 & Ha2 & _ & Hn2 & _). by destruct (Hne a2 Ha2). }
  exists a, m, name. split; [done|]. split; [done|]. split; [done|]. split; [done|]. split; [done|].
  split; [intros k Hk; apply get_save_account; simpl; by rewrite Hid|]. split; [exact Hr|].
  apply Hr. intros a2 Ha2. rewrite Hl' in Ha2. injection Ha2 as <-. simpl. lia.
Qed.

(** ** Session keys *)

(** What a session may do with an action. *)
Definition session_permits (targets : list AccountId) (methods : list string) (a : Action) : Prop :=
  match a with
  | Transfer to _ => targets = [] \/ to ∈ targets
  | Call t m _ => (targets = [] \/ t ∈ targets) /\ (methods = [] \/ m ∈ methods)
      /\ t <> GUARDIAN_ADDRESS
      /\ ~ (t = GOVERNANCE_ADDRESS
            /\ (String.prefix "propose" m = true \/ m = "finalize"%string \/ m = "execute"%string))
  | Deploy _ _ | SetAuth _ => False
  end.

Lemma existsb_in {A} (f : A -> A -> bool) x l :
  (forall y, f x y = true -> x = y) -> existsb (f x) l = true -> x ∈ l.
Proof. intros Hf (y & Hy & ->%Hf)%existsb_exists. by apply list_elem_of_In. Qed.

Lemma permits_checked targets methods a :
  (targets = [] \/ target_error targets a = None) -> privileged_error a = None ->
  (methods = [] \/ method_error methods a = None) -> session_permits targets methods a.
Proof.
  intros Ht Hp Hm. destruct a as [to amount|t m args|code salt|ms]; simpl in *; try done.
  - destruct Ht as [|Ht]; [by left|right]. unfold target_error in Ht. simpl in Ht.
    destruct (existsb (bytes_eqb to) targets) eqn:E; [|done].
    eapply existsb_in; [|exact E]. intros y. apply bytes_eqb_true.
  - destruct (bytes_eqb t GUARDIAN_ADDRESS) eqn:Eg; [done|]. apply bytes_eqb_false in Eg.
    split; [|split; [|split]]; [| |done|].
    + destruct Ht as [|Ht]; [by left|right]. unfold target_error in Ht. simpl in Ht.
      destruct (existsb (bytes_eqb t) targets) eqn:E; [|done].
      eapply existsb_in; [|exact E]. intros y. apply bytes_eqb_true.
    + destruct Hm as [|Hm]; [by left|right]. destruct (existsb (String.eqb m) methods) eqn:E; [|done].
      eapply existsb_in; [|exact E]. intros y. apply String.eqb_eq.
    + intros [-> Hor]. rewrite bytes_eqb_refl in Hp. cbn [andb] in Hp.
      destruct Hor as [Hpre|[-> | ->]]; [by rewrite Hpre in Hp|done|done].
Qed.

(** The native transfers of an operation. *)
Definition transfer_amount (a : Action) : Z := match a with Transfer _ amount => amount | _ => 0 end.
Definition transferred (op : UserOperation) : Z := sumZ (map transfer_amount (op_actions op)).

(** The count is at least the transfers, if it does not wrap. *)
Lemma counted_transfers op :
  Forall (fun a => 0 <= action_spend a) (op_actions op) ->
  sumZ (map action_spend (op_actions op)) <= u128_max -> transferred op <= this_spend op.
Proof.
  intros Hp Hm. unfold transferred, this_spend. rewrite u128_sum_exact by (done || by apply Forall_map).
  apply sumZ_map_le. intros a Ha. rewrite Forall_forall in Hp. specialize (Hp a Ha).
  destruct a; cbn [transfer_amount action_spend] in *; lia.
Qed.

(** A session key matches only signatures of 64 bytes. *)
Lemma session_not_system op msg l m :
  List.find (is_matching_session msg (op_signature op)) l = Some m -> is_system_authorized op = false.
Proof.
  intros Hf. apply find_elem in Hf as [_ Hm]. unfold is_system_authorized.
  destruct (bytes_eqb (op_signature op) [255]) eqn:E; [|done]. apply bytes_eqb_true in E. rewrite E in Hm.
  by destruct m.
Qed.

(** C15: what an operation signed by a session key may do. It is not expired; it
    neither replaces the authentication methods nor deploys, touches guardian
    recovery or closes governance proposals; its targets and methods are listed
    when the lists are not empty. The amount the executor counts for it, the
    native transfers and, in calls of system contracts with at least 48 bytes of
    arguments, the 16 bytes at a fixed offset, summed in 128 bits, respects the
    cap per operation, and together with the recorded total it respects the
    lifetime budget, which is what the ledger is charged. So if the counted
    amounts do not overflow, the native transfers respect the cap and, with the
    recorded total, a budget below the largest amount; what leaves through shorter system calls, bridge deposits among
    them, or through contracts is not counted. *)
Theorem session_confined s op height s' p a key expires limit budget targets methods restrict :
  validate_and_prepare cfg s op height = Ok (s', p) ->
  load_account s (op_sender op) = Ok (Some a) ->
  List.find (is_matching_session (operation_signing_message cfg op) (op_signature op))
    (auth_methods a) = Some (Session key expires limit budget targets methods restrict) ->
  default 0 (current_height s) <= expires
  /\ Forall (session_permits targets methods) (op_actions op)
  /\ (0 < limit -> this_spend op <= limit)
  /\ (0 < budget ->
      sat_add128 (session_spent s (session_spent_key (op_sender op) key)) (this_spend op) <= budget
      /\ (0 < this_spend op -> session_charge p = Some (session_spent_key (op_sender op) key,
            sat_add128 (session_spent s (session_spent_key (op_sender op) key)) (this_spend op))))
  /\ (Forall (fun x => 0 <= action_spend x) (op_actions op) ->
      sumZ (map action_spend (op_actions op)) <= u128_max ->
      (0 < limit -> transferred op <= limit)
      /\ (0 < budget < u128_max -> session_spent s (session_spent_key (op_sender op) key) + transferred op <= budget)).
Proof.
  intros H Hl Hf. pose proof (session_not_system _ _ _ _ Hf) as Hsys. destruct (validate_signed _ _ _ _ _ H Hsys) as (a' & Hl' & _ & _ & _ & _ & Hc).
  assert (a' = a) as -> by congruence. rewrite Hf in Hc. clear H. unfold check_session, rbind in Hc.
  destruct (Z.ltb_spec expires (default 0 (current_height s))); [done|].
  destruct ((0 <? limit) && _) eqn:El; [done|].
  set (total := sat_add128 _ _) in *. destruct ((0 <? budget) && (budget <? total)) eqn:Eb; [done|].
  destruct (if bool_decide (targets = []) then None else _) eqn:Et; [done|].
  destruct (find_map privileged_error (op_actions op)) eqn:Ep; [done|].
  destruct (if bool_decide (methods = []) then None else _) eqn:Em; [done|].
  injection Hc as <-.
  assert (Hcap : 0 < limit -> this_spend op <= limit).
  { intros Hpos. apply andb_false_iff in El as [E|E]; prop_bool; lia. }
  assert (Hbud : 0 < budget -> total <= budget).
  { intros Hpos. apply andb_false_iff in Eb as [E|E]; prop_bool; lia. }
  split; [done|]. split; [|split; [exact Hcap|split]].
  - apply find_map_none in Ep. apply Forall_forall. intros act Hact.
    apply permits_checked.
    + destruct (decide (targets = [])) as [|Hne]; [by left|right].
      rewrite (bool_decide_eq_false_2 _ Hne) in Et. apply find_map_none in Et.
      by apply (proj1 (Forall_forall _ _) Et).
    + by apply (proj1 (Forall_forall _ _) Ep).
    + destruct (decide (methods = [])) as [|Hne]; [by left|right].
      rewrite (bool_decide_eq_false_2 _ Hne) in Em. apply find_map_none in Em.
      by apply (proj1 (Forall_forall _ _) Em).
  - intros Hpos. split; [by apply Hbud|]. intros Hs. cbn [session_charge].
    by rewrite (proj2 (Z.ltb_lt 0 budget) Hpos), (proj2 (Z.ltb_lt 0 _) Hs).
  - intros Hp Hm. pose proof (counted_transfers op Hp Hm). split; [intros Hpos; specialize (Hcap Hpos); lia|].
    intros Hpos. assert (Hb : total <= budget) by (apply Hbud; lia).
    unfold total, sat_add128, u128_max in *. lia.
Qed.

(** ** What the spending cap does not see *)

Lemma bridge_call_unseen op args :
  op_actions op = [Call BRIDGE_ADDRESS "bridge_to_base" args] -> (length args < 48)%nat ->
  this_spend op = 0.
Proof.
  intros Ha Hl. unfold this_spend. rewrite Ha. cbn [map action_spend].
  destruct (Nat.leb_spec 48 (length args)); [lia|]. rewrite andb_false_r. reflexivity.
Qed.

Lemma session_bridge_validates s op height a key expires limit budget restrict args :
  op_actions op = [Call BRIDGE_ADDRESS "bridge_to_base" args] -> (length args < 48)%nat ->
  load_account s (op_sender op) = Ok (Some a) -> nonce a = op_nonce op -> nonce a <> u64_max ->
  List.find (is_matching_session (operation_signing_message cfg op) (op_signature op))
    (auth_methods a) = Some (Session key expires limit budget [] [] restrict) ->
  default 0 (current_height s) <= expires -> 0 <= limit ->
  0 <= session_spent s (session_spent_key (op_sender op) key) <= budget -> budget <= u128_max ->
  validate_and_prepare cfg s op height
  = Ok (save_account_or_keep s (set_nonce (op_nonce op + 1) a), prepared_plain).
Proof.
  intros Ha Hlen Hl Hn Hmax Hf Hexp Hlim Hbud Hb.
  pose proof (find_elem _ _ _ Hf) as [Hin Hm]. simpl in Hm. apply andb_true_iff in Hm as [Hlen64 Hver].
  assert (Hsys : is_system_authorized op = false).
  { unfold is_system_authorized. destruct (bytes_eqb _ [255]) eqn:E; [|done].
    apply bytes_eqb_true in E. by rewrite E in Hlen64. }
  unfold validate_and_prepare. rewrite Hl, Hsys.
  assert (Hsig : existsb (fun m => bool_decide (is_Some (verify_auth m
    (operation_signing_message cfg op) (op_signature op) (pq_auth_height cfg <=? height))))
    (auth_methods a) = true).
  { apply existsb_exists. eexists. split; [by apply list_elem_of_In|]. apply bool_decide_eq_true.
    simpl. rewrite Hlen64, Hver. simpl. eauto. }
  rewrite Hsig, Hf. simpl negb. cbn iota. unfold rbind, check_session.
  rewrite (bridge_call_unseen op args Ha Hlen), Ha. simpl.
  destruct (Z.ltb_spec expires (default 0 (current_height s))); [lia|].
  destruct (Z.ltb_spec limit 0); [lia|]. rewrite andb_false_r.
  rewrite sat_add128_exact by lia. rewrite Z.add_0_r.
  destruct (Z.ltb_spec budget (session_spent s (session_spent_key (op_sender op) key))); [lia|].
  rewrite !andb_false_r. unfold consume_nonce, rbind.
  pose proof Hl as Hr. apply require_account_spec in Hr. rewrite Hr, Hn, Z.eqb_refl. simpl.
  destruct (Z.eqb_spec (op_nonce op) u64_max); [congruence|]. by rewrite save_or_keep_eq.
Qed.

(** The cap and the budget of a session key do not bound what leaves through
    the bridge: a [bridge_to_base] call carries 36 bytes of arguments, the
    spend of a system call is read only from 48 bytes on, so the operation
    counts as spending nothing; it is accepted whatever its amount and however
    small the cap, nothing is charged to the ledger, and the call then locks
    the whole amount. *)
Theorem session_cap_misses_bridge verify `{!Codec BridgeContract} `{!Codec RollupReg}
    `{!Codec BatchRecord} s op height a key expires limit budget restrict args :
  accounts_wf s -> op_actions op = [Call BRIDGE_ADDRESS "bridge_to_base" args] ->
  length args = 36%nat -> op_sender op <> BRIDGE_ADDRESS ->
  load_account s (op_sender op) = Ok (Some a) -> nonce a = op_nonce op -> nonce a < u64_max ->
  List.find (is_matching_session (operation_signing_message cfg op) (op_signature op))
    (auth_methods a) = Some (Session key expires limit budget [] [] restrict) ->
  default 0 (current_height s) <= expires -> 0 <= limit ->
  0 <= session_spent s (session_spent_key (op_sender op) key) <= budget -> budget <= u128_max ->
  let amount := from_le (slice 20 16 args) in
  0 < amount -> amount + MIN_FEE_RESERVE <= balance a ->
  balance_of s BRIDGE_ADDRESS + balance a <= u128_max ->
  exists s1 s2 r, validate_and_prepare cfg s op height = Ok (s1, prepared_plain)
    /\ execute_bridge_call verify s1 (op_sender op) "bridge_to_base" args = (s2, r)
    /\ sc_error r = None
    /\ balance_of s2 (op_sender op) = balance_of s (op_sender op) - amount.
Proof.
  intros Hw Ha Hlen Hne Hl Hn Hmax Hf Hexp Hlim Hbud Hb amount Hpos Hbal Hvault.
  destruct (Hw _ _ Hl) as (Hid & [? ?] & [? ?]). unfold MIN_FEE_RESERVE in *.
  set (a1 := set_nonce (op_nonce op + 1) a). set (s1 := save_account_or_keep s a1).
  assert (Hw1 : accounts_wf s1).
  { apply accounts_wf_save; [done|split; simpl; lia|split; simpl; lia]. }
  assert (Hl1 : load_account s1 (op_sender op) = Ok (Some a1)).
  { unfold s1. rewrite load_save_account. simpl. rewrite Hid. by rewrite decide_True. }
  assert (Hbals : forall x, balance_of s1 x = balance_of s x).
  { intros x. unfold s1. rewrite balance_of_save. simpl. rewrite Hid.
    case_decide; [subst x|done]. unfold balance_of. by rewrite Hl. }
  assert (Hb1 : balance_of s1 (op_sender op) = balance a)
    by (rewrite Hbals; unfold balance_of; by rewrite Hl).
  destruct (payment_effect s1 (op_sender op) a1 BRIDGE_ADDRESS amount Hw1 Hl1) as (_ & Hp & _);
    [lia|intros _; rewrite Hb1, Hbals; lia|].
  exists s1. eexists _, _. split; [|split; [|split]].
  - eapply session_bridge_validates; eauto; lia.
  - unfold execute_bridge_call, bridge_method. simpl. unfold call_bridge_to_base, read_u128.
    destruct (Nat.ltb_spec (length args) 36); [lia|].
    destruct (Nat.ltb_spec (length args) (20 + 16)); [lia|]. fold amount.
    destruct (Z.eqb_spec amount 0); [lia|].
    pose proof Hl1 as Hr1. apply require_account_spec in Hr1. rewrite Hr1.
    unfold MIN_FEE_RESERVE. rewrite u128_add_exact by lia.
    destruct (Z.ltb_spec (balance a1) (amount + 10000)) as [Hlt|]; [simpl in Hlt; lia|]. reflexivity.
  - reflexivity.
  - rewrite (balance_of_same _ _ _ (bridge_save_same _ _)), Hp, Hbals, decide_True by done.
    rewrite decide_False by done. lia.
Qed.
End validated.

(** ** Examples

    Account 1 has its own key and a session key (account 6) with a cap of 50
    per operation and a budget of 100. The stand-in signature of a key repeats
    its first byte. *)
Definition sess_method : AuthMethod := Session (demo_key 6) 1000 50 100 [] [] false.
Definition sess_account : Account :=
  mkAccount (demo_key 1) zero_hash [Ed25519 (demo_key 1); sess_method] 4 200000.
Definition sess_store : MemoryStore := demo_ledger [sess_account; demo_account 2 5].
Definition sess_op (signer : Z) (actions : list Action) : UserOperation :=
  mkUserOperation (demo_key 1) 4 actions 1000 (replicate 64 signer).

Lemma sess_store_wf : accounts_wf sess_store.
Proof. solve_ledger_wf. Qed.

Lemma sess_load : load_account sess_store (demo_key 1) = Ok (Some sess_account).
Proof. vm_compute. reflexivity. Qed.

(** A signed transfer, refused afterwards, and an operation with the marker. *)
Lemma operation_authorized_witness :
  (exists s' p, validate_and_prepare exec_config_default sess_store
      (sess_op 1 [Transfer (demo_key 2) 70]) 9 = Ok (s', p)
    /\ exists e, validate_and_prepare exec_config_default s' (sess_op 1 [Transfer (demo_key 2) 70]) 9 = Err e)
  /\ exists s' p, validate_and_prepare exec_config_default sess_store
      (mkUserOperation (demo_key 1) 4 [Call STAKING_ADDRESS "slash" []] 1000 [255]) 9 = Ok (s', p) /\ s' = sess_store.
Proof.
  split.
  - assert (Hok : match validate_and_prepare exec_config_default sess_store
        (sess_op 1 [Transfer (demo_key 2) 70]) 9 with Ok _ => True | Err _ => False end)
      by (vm_compute; exact I).
    destruct (validate_and_prepare exec_config_default sess_store
        (sess_op 1 [Transfer (demo_key 2) 70]) 9) as [[s' p]|] eqn:E; [|destruct Hok].
    exists s', p. split; [reflexivity|].
    destruct (operation_authorized exec_config_default sess_store _ 9 s' p sess_store_wf E)
      as [[Hs _]|(a & m & name & _ & _ & _ & _ & _ & _ & _ & Hr)]; [discriminate Hs|exact Hr].
  - destruct (validate_and_prepare exec_config_default sess_store
      (mkUserOperation (demo_key 1) 4 [Call STAKING_ADDRESS "slash" []] 1000 [255]) 9) as [[s' p]|] eqn:E.
    2: { exfalso. vm_compute in E. discriminate E. }
    exists s', p. split; [reflexivity|].
    destruct (operation_authorized exec_config_default sess_store _ 9 s' p sess_store_wf E)
      as [(_ & Hs & _)|(a & m & name & E' & Hm & Hv & _)]; [exact Hs|].
    exfalso. revert Hv. cbn [op_sender] in E'. rewrite sess_load in E'. injection E' as <-.
    repeat (apply elem_of_cons in Hm as [->|Hm]; [vm_compute; discriminate|]). by apply not_elem_of_nil in Hm.
Defined.

Lemma session_confined_witness :
  let op := sess_op 6 [Transfer (demo_key 2) 40] in
  exists s' p, validate_and_prepare exec_config_default sess_store op 9 = Ok (s', p)
    /\ this_spend op <= 50
    /\ session_charge p = Some (session_spent_key (demo_key 1) (demo_key 6), 40).
Proof.
  intros op.
  assert (Hok : match validate_and_prepare exec_config_default sess_store op 9 with
    Ok _ => True | Err _ => False end) by (vm_compute; exact I).
  destruct (validate_and_prepare exec_config_default sess_store op 9) as [[s' p]|] eqn:E;
    [|destruct Hok].
  exists s', p. split; [reflexivity|].
  destruct (session_confined exec_config_default sess_store op 9 s' p sess_account (demo_key 6) 1000
    50 100 [] [] false E sess_load) as (_ & _ & H1 & H2 & _).
  - vm_compute. reflexivity.
  - split; [apply H1; lia|]. destruct H2 as [_ H2]; [lia|]. rewrite H2; [|by vm_compute].
    vm_compute. reflexivity.
Defined.

Lemma session_cap_misses_bridge_witness :
  let args := replicate 20 9 ++ le_bytes 16 100000 in
  let op := sess_op 6 [Call BRIDGE_ADDRESS "bridge_to_base" args] in
  exists s1 s2 r, validate_and_prepare exec_config_default sess_store op 9 = Ok (s1, prepared_plain)
    /\ execute_bridge_call Rollup.toy_verify s1 (demo_key 1) "bridge_to_base" args = (s2, r)
    /\ sc_error r = None
    /\ balance_of s2 (demo_key 1) = balance_of sess_store (demo_key 1) - 100000.
Proof.
  intros args op.
  apply (session_cap_misses_bridge exec_config_default Rollup.toy_verify sess_store op 9 sess_account
    (demo_key 6) 1000 50 100 false args).
  - exact sess_store_wf.
  - reflexivity.
  - reflexivity.
  - discriminate.
  - exact sess_load.
  - reflexivity.
  - by vm_compute.
  - vm_compute. reflexivity.
  - by vm_compute.
  - lia.
  - by vm_compute.
  - unfold u128_max. lia.
  - by vm_compute.
  - by vm_compute.
  - by vm_compute.
Defined.
