(* ===== verification/Rewards.v ===== *)
(** Epoch rewards ([distribute_epoch_rewards_in_executor] and
    [credit_account_raw] of [crates/solen-execution/src/executor.rs]). *)

From S2P Require Import Prelude Types Store Memory Codec State SysCommon Staking.
Open Scope Z_scope.

Definition EPOCH_REWARD_KEY : bytes := Eval vm_compute in bytes_of_string "__config_epoch_reward__".
Definition DEFAULT_EPOCH_REWARD : u128 := 31700000000.

Definition reward_event (topic : string) (who : AccountId) (amount : u128) : Event :=
  mkEvent STAKING_POOL_ADDRESS (bytes_of_string topic) (who ++ le_bytes 16 amount).

Section rewards.
Context {S : Type} `{!StateStore S} `{!Codec Account} `{!Codec StakingContract}.

Definition credit_account_raw (s : S) (id : AccountId) (amount : u128) : S :=
  let key := account_key id in
  match st_get s key with
  | Some data =>
    match de data with
    | Some account =>
      match ser (set_balance (sat_add128 (balance account) amount) account) with
      | Some encoded => st_put s key encoded
      | None => s
      end
    | None => s
    end
  | None => s
  end.

(** The loop over the eligible delegations of one validator. *)
Fixpoint credit_delegators (s : S) (events : list Event) (dels : list Delegation)
    (delegator_net eligible_delegated : u128) : S * list Event :=
  match dels with
  | [] => (s, events)
  | d :: dels =>
    let del_share := sat_mul128 delegator_net (d_amount d) / eligible_delegated in
    if del_share =? 0 then credit_delegators s events dels delegator_net eligible_delegated
    else credit_delegators (credit_account_raw s (d_delegator d) del_share)
           (events ++ [reward_event "delegator_reward" (d_delegator d) del_share])
           dels delegator_net eligible_delegated
  end.

Definition reward_validator (s : S) (events : list Event) (staking : StakingContract)
    (epoch : u64) (actual_reward total : u128) (v : StakingValidator) : S * list Event :=
  let v_total := total_stake v in
  if v_total =? 0 then (s, events)
  else
  let validator_share := sat_mul128 actual_reward v_total / total in
  if validator_share =? 0 then (s, events)
  else
  let dels := eligible_delegations_for_validator (sv_id v) epoch staking in
  let eligible_delegated := u128_sum (map d_amount dels) in
  let delegator_pool :=
    if (0 <? eligible_delegated) && (0 <? v_total) && (0 <? validator_share)
    then sat_mul128 validator_share eligible_delegated / v_total else 0 in
  let commission := sat_mul128 delegator_pool (commission_rate_bps v) / 10000 in
  let delegator_net := sat_sub delegator_pool commission in
  let validator_reward := u128_add (sat_sub validator_share delegator_pool) commission in
  let s := credit_account_raw s (sv_id v) validator_reward in
  let events := events ++ [reward_event "epoch_reward" (sv_id v) validator_reward] in
  if (0 <? delegator_net) && (0 <? eligible_delegated)
  then credit_delegators s events dels delegator_net eligible_delegated
  else (s, events).

Fixpoint reward_validators (s : S) (events : list Event) (staking : StakingContract)
    (epoch : u64) (actual_reward total : u128) (vs : list StakingValidator) : S * list Event :=
  match vs with
  | [] => (s, events)
  | v :: vs =>
    let '(s, events) := reward_validator s events staking epoch actual_reward total v in
    reward_validators s events staking epoch actual_reward total vs
  end.

Definition pool_balance (s : S) : u128 :=
  match st_get s (account_key STAKING_POOL_ADDRESS) with
  | Some data => match de data with Some a => balance a | None => 0 end
  | None => 0
  end.

Definition deduct_pool (s : S) (amount : u128) : S :=
  let key := account_key STAKING_POOL_ADDRESS in
  match st_get s key with
  | Some data =>
    match de data with
    | Some pool =>
      match ser (set_balance (sat_sub (balance pool) amount) pool) with
      | Some encoded => st_put s key encoded
      | None => s
      end
    | None => s
    end
  | None => s
  end.

Definition distribute_epoch_rewards (s : S) (height : u64) : S * list ExecutionReceipt :=
  let current_epoch := height / 100 in
  let reward_per_epoch := default DEFAULT_EPOCH_REWARD (read_config_u128 s EPOCH_REWARD_KEY) in
  let staking := staking_load s in
  let active := eligible_validators current_epoch staking in
  let total := u128_sum (map total_stake active) in
  if (total =? 0) || bool_decide (active = []) then (s, [])
  else
  let pool := pool_balance s in
  if pool =? 0 then (s, [])
  else
  let actual_reward := Z.min reward_per_epoch pool in
  let s := deduct_pool s actual_reward in
  let '(s, events) := reward_validators s [] staking current_epoch actual_reward total active in
  if bool_decide (events = []) then (s, [])
  else (s, [mkReceipt STAKING_POOL_ADDRESS 0 true 0 None events "system"]).
End rewards.

(** ** The payments as a list *)

Definition delegator_payouts (dels : list Delegation) (net elig : Z) : list (AccountId * Z) :=
  List.filter (fun p => negb (snd p =? 0))
    (map (fun d => (d_delegator d, sat_mul128 net (d_amount d) / elig)) dels).

(** What is left of a floor division of parts is at most the whole. *)
Lemma sum_floor_le (net elig : Z) (l : list Z) :
  0 < elig -> 0 <= net -> Forall (fun x => 0 <= x) l -> sumZ l <= elig ->
  0 <= sumZ (map (fun x => sat_mul128 net x / elig) l) <= net.
Proof.
  intros He Hn Hl Hs.
  assert (H : 0 <= sumZ (map (fun x => sat_mul128 net x / elig) l)
              /\ elig * sumZ (map (fun x => sat_mul128 net x / elig) l) <= net * sumZ l).
  { clear Hs. induction Hl as [|x l Hx Hl IH]; simpl; [lia|].
    assert (Hm : 0 <= sat_mul128 net x <= net * x) by (unfold sat_mul128, u128_max; nia).
    pose proof (Z.mul_div_le (sat_mul128 net x) elig He).
    pose proof (Z.div_pos (sat_mul128 net x) elig ltac:(lia) He). nia. }
  split; [apply H|]. nia.
Qed.

Definition validator_payouts (staking : StakingContract) (epoch actual total : Z)
    (v : StakingValidator) : list (AccountId * Z) :=
  let v_total := total_stake v in
  let share := sat_mul128 actual v_total / total in
  if (v_total =? 0) || (share =? 0) then []
  else
  let dels := eligible_delegations_for_validator (sv_id v) epoch staking in
  let elig := u128_sum (map d_amount dels) in
  let pool := if (0 <? elig) && (0 <? v_total) && (0 <? share)
              then sat_mul128 share elig / v_total else 0 in
  let commission := sat_mul128 pool (commission_rate_bps v) / 10000 in
  let net := sat_sub pool commission in
  (sv_id v, u128_add (sat_sub share pool) commission)
  :: (if (0 <? net) && (0 <? elig) then delegator_payouts dels net elig else []).

Definition paid_out (l : list (AccountId * Z)) : Z := sumZ (map snd l).

Section bounds.
Context {S : Type} `{!StateStore S} `{!StateStoreLaws S} `{!Codec Account} `{!CodecLaws Account}
        `{!Codec StakingContract}.
Implicit Types s : S.

Definition raw_credits (l : list (AccountId * Z)) s : S :=
  fold_left (fun s p => credit_account_raw s (fst p) (snd p)) l s.

Lemma credit_delegators_state dels net elig s events :
  fst (credit_delegators s events dels net elig) = raw_credits (delegator_payouts dels net elig) s.
Proof.
  revert s events. induction dels as [|d dels IH]; intros s events; [done|].
  cbn [credit_delegators]. unfold delegator_payouts. cbn [map List.filter snd].
  destruct (_ =? 0) eqn:E; cbn [negb]; apply IH.
Qed.

Lemma reward_validator_state s events staking epoch actual total v :
  fst (reward_validator s events staking epoch actual total v)
  = raw_credits (validator_payouts staking epoch actual total v) s.
Proof.
  unfold reward_validator, validator_payouts. destruct (total_stake v =? 0); [done|].
  destruct (_ / total =? 0); [done|]. cbn [orb]. cbv zeta.
  set (net := sat_sub _ _). set (elig := u128_sum _).
  destruct ((0 <? net) && (0 <? elig)); [apply credit_delegators_state|done].
Qed.

Lemma reward_validators_state vs s events staking epoch actual total :
  fst (reward_validators s events staking epoch actual total vs)
  = raw_credits (concat (map (validator_payouts staking epoch actual total) vs)) s.
Proof.
  revert s events. induction vs as [|v vs IH]; intros s events; [done|]. cbn [reward_validators].
  pose proof (reward_validator_state s events staking epoch actual total v) as Hs.
  destruct (reward_validator _ _ _ _ _ _ _) as [s1 ev1]. cbn [fst] in Hs. subst s1. rewrite IH.
  unfold raw_credits. cbn [map concat]. by rewrite fold_left_app.
Qed.

(** ** One credit *)

Lemma credit_raw_spec s id amount :
  accounts_wf s -> credit_account_raw s id amount = credit_if_present s id amount.
Proof.
  intros Hw. unfold credit_account_raw, credit_if_present, require_account, rbind, load_account.
  destruct (st_get s (account_key id)) as [data|] eqn:Eg; [|done].
  destruct (de data) as [a|] eqn:Ed; [|done]. simpl.
  destruct (Hw id a) as (Hid & _); [unfold load_account; by rewrite Eg, Ed|].
  unfold save_account_or_keep, save_account. cbn [acc_id set_balance]. rewrite Hid.
  by destruct (ser _).
Qed.

Lemma credit_present_bounds s id amount ids :
  accounts_wf s -> NoDup ids -> 0 <= amount -> supply ids s + amount <= u128_max ->
  supply ids s <= supply ids (credit_if_present s id amount) <= supply ids s + amount.
Proof.
  intros Hw Hn Ha Hm. unfold credit_if_present.
  destruct (require_account s id) as [a|] eqn:E; [|lia].
  pose proof (balance_of_require _ _ _ E) as Hb. apply require_account_spec in E.
  destruct (Hw _ _ E) as (Hid & [? ?] & _).
  destruct (decide (id ∈ ids)) as [Hin|Hnin].
  - rewrite supply_save by (simpl; by rewrite ?Hid). simpl. rewrite Hid.
    pose proof (supply_ge s ids id Hw Hin). rewrite sat_add128_exact; lia.
  - replace (supply ids (save_account_or_keep _ _)) with (supply ids s); [lia|].
    apply sumZ_map_ext. intros x Hx. rewrite balance_of_save. simpl. rewrite Hid.
    rewrite decide_False; [done|]. intros ->. done.
Qed.

Lemma raw_credits_bounds ids l : forall s,
  accounts_wf s -> NoDup ids -> Forall (fun p => 0 <= snd p) l ->
  supply ids s + paid_out l <= u128_max ->
  accounts_wf (raw_credits l s)
  /\ supply ids s <= supply ids (raw_credits l s) <= supply ids s + paid_out l
  /\ (forall k, (forall id, k <> account_key id) -> st_get (raw_credits l s) k = st_get s k).
Proof.
  induction l as [|[id a] l IH]; intros s Hw Hn Hl Hm; cbn [raw_credits fold_left].
  { unfold paid_out. simpl. split; [done|]. split; [lia|done]. }
  apply Forall_cons in Hl as [Ha Hl]. cbn [fst snd] in *. unfold paid_out in *. cbn [map sumZ snd] in *.
  assert (Hpos : 0 <= sumZ (map snd l)) by (apply sumZ_map_nonneg; by apply Forall_forall).
  rewrite credit_raw_spec by done.
  pose proof (credit_present_bounds s id a ids Hw Hn Ha ltac:(lia)) as Hb.
  destruct (IH (credit_if_present s id a)) as (Hw' & Hb' & Hk); auto using credit_wf; [lia|].
  fold (raw_credits l (credit_if_present s id a)) in *. split; [done|]. split; [lia|].
  intros k Hk'. rewrite Hk by done. by apply credit_get.
Qed.

(** ** The amounts *)

Lemma delegator_payouts_bound dels net elig :
  0 < elig -> 0 <= net -> Forall (fun d => 0 <= d_amount d) dels ->
  sumZ (map d_amount dels) <= elig ->
  Forall (fun p => 0 <= snd p) (delegator_payouts dels net elig)
  /\ paid_out (delegator_payouts dels net elig) <= net.
Proof.
  intros He Hn Hd Hs. unfold delegator_payouts, paid_out. split.
  - apply Forall_filter_bool, Forall_map. eapply Forall_impl; [exact Hd|]. simpl. intros d Hx.
    apply Z.div_pos; [|done]. unfold sat_mul128, u128_max. nia.
  - rewrite (sumZ_filter_zero snd) by (intros p _ H; apply negb_false_iff, Z.eqb_eq in H; done).
    rewrite map_map. cbn [snd].
    pose proof (sum_floor_le net elig (map d_amount dels) He Hn) as Hb. rewrite map_map in Hb.
    apply Hb; [by apply Forall_map|done].
Qed.

Lemma eligible_delegated_le c id epoch :
  staking_wf c ->
  let dels := eligible_delegations_for_validator id epoch c in
  Forall (fun d => 0 <= d_amount d) dels
  /\ u128_sum (map d_amount dels) = sumZ (map d_amount dels)
  /\ sumZ (map d_amount dels) <= delegated_to id c.
Proof.
  intros Hc dels. pose proof (wf_damounts c Hc) as Hd.
  assert (Hp : Forall (fun d => 0 <= d_amount d) dels) by (by apply Forall_filter_bool).
  assert (Hle : sumZ (map d_amount dels) <= delegated_to id c).
  { unfold dels, eligible_delegations_for_validator, delegated_to. clear dels Hp.
    induction Hd as [|d l Hx Hd IH]; simpl; [lia|]. unfold d_share at 1.
    destruct (bytes_eqb (d_validator d) id); simpl; [|lia]. destruct (_ <=? epoch); simpl; lia. }
  split; [done|]. split; [|done]. apply u128_sum_exact; [by apply Forall_map|].
  pose proof (wf_delegated_le c id Hc). pose proof (wf_parts c Hc). pose proof (wf_bound c Hc) as Hb.
  unfold locked_tokens in Hb. lia.
Qed.

(** One validator and its delegators share at most the validator's part. *)
Lemma validator_payouts_bound c epoch actual total v :
  staking_wf c -> v ∈ validators c -> 0 <= commission_rate_bps v <= 10000 ->
  0 <= actual -> 0 < total ->
  Forall (fun p => 0 <= snd p) (validator_payouts c epoch actual total v)
  /\ paid_out (validator_payouts c epoch actual total v)
     <= sat_mul128 actual (total_stake v) / total.
Proof.
  intros Hc Hv Hcom Ha Ht. destruct (total_stake_exact c v Hc Hv) as (Hts & H1 & H2 & H3).
  destruct (eligible_delegated_le c (sv_id v) epoch Hc) as (Hdp & Hsum & Hle).
  unfold validator_payouts. cbv zeta. rewrite Hsum.
  set (dels := eligible_delegations_for_validator _ _ _) in *. set (elig := sumZ _) in *.
  set (share := sat_mul128 actual (total_stake v) / total). rewrite Hts.
  assert (Hm : 0 <= sat_mul128 actual (total_stake v) <= u128_max)
    by (rewrite Hts; unfold sat_mul128, u128_max; nia).
  assert (Hsh : 0 <= share <= u128_max).
  { unfold share. split; [apply Z.div_pos; lia|]. apply Z.div_le_upper_bound; nia. }
  destruct (_ || (share =? 0)) eqn:E0.
  { unfold paid_out. simpl. split; [done|lia]. }
  set (vt := self_stake v + total_delegated v) in *.
  set (pool := if (0 <? elig) && (0 <? vt) && (0 <? share) then sat_mul128 share elig / vt else 0).
  assert (Hpool : 0 <= pool <= share).
  { unfold pool. destruct (_ && _) eqn:E; [|lia].
    apply andb_true_iff in E as [[E1 E2]%andb_true_iff _]. prop_bool.
    assert (0 <= sat_mul128 share elig <= share * elig) by (unfold sat_mul128, u128_max; nia).
    split; [apply Z.div_pos; lia|]. apply Z.div_le_upper_bound; nia. }
  set (com := sat_mul128 pool (commission_rate_bps v) / 10000).
  assert (Hc10 : 0 <= com <= pool).
  { unfold com. assert (0 <= sat_mul128 pool (commission_rate_bps v) <= pool * commission_rate_bps v)
      by (unfold sat_mul128, u128_max; nia).
    split; [apply Z.div_pos; lia|]. apply Z.div_le_upper_bound; nia. }
  unfold sat_sub. rewrite !Z.max_r by lia. rewrite u128_add_exact by lia.
  destruct ((0 <? pool - com) && (0 <? elig)) eqn:En.
  - apply andb_true_iff in En as [En1 En2]. prop_bool.
    destruct (delegator_payouts_bound dels (pool - com) elig) as [Hf Hb]; auto; [lia|unfold elig; lia|].
    unfold paid_out in *. cbn [map snd sumZ]. split; [|lia]. constructor; [simpl; lia|done].
  - unfold paid_out. cbn [map snd sumZ]. split; [|lia]. constructor; [simpl; lia|done].
Qed.

(** ** The distribution *)

Lemma deduct_pool_spec s amount :
  accounts_wf s -> 0 <= amount <= balance_of s STAKING_POOL_ADDRESS -> 0 < pool_balance s ->
  exists a, load_account s STAKING_POOL_ADDRESS = Ok (Some a)
    /\ deduct_pool s amount = debit_loaded s a amount.
Proof.
  intros Hw Ha Hp. unfold pool_balance in Hp. unfold deduct_pool.
  destruct (st_get s _) as [data|] eqn:Eg; [|lia]. destruct (de data) as [a|] eqn:Ed; [|lia].
  assert (Hl : load_account s STAKING_POOL_ADDRESS = Ok (Some a))
    by (unfold load_account; by rewrite Eg, Ed).
  exists a. split; [done|]. destruct (Hw _ _ Hl) as (Hid & [? ?] & _).
  unfold balance_of in Ha. rewrite Hl in Ha. unfold debit_loaded, save_account_or_keep, save_account.
  rewrite u128_sub_exact by lia. unfold sat_sub. rewrite Z.max_r by lia. cbn [acc_id set_balance].
  rewrite Hid. by destruct (ser _).
Qed.

Lemma concat_payouts_bound c epoch actual total vs :
  staking_wf c -> (forall v, v ∈ vs -> v ∈ validators c /\ 0 <= commission_rate_bps v <= 10000) ->
  0 <= actual -> 0 < total -> sumZ (map total_stake vs) <= total ->
  let l := concat (map (validator_payouts c epoch actual total) vs) in
  Forall (fun p => 0 <= snd p) l /\ 0 <= paid_out l <= actual.
Proof.
  intros Hc Hv Ha Ht Hs l.
  assert (Hl : Forall (fun p => 0 <= snd p) l
    /\ paid_out l <= sumZ (map (fun x => sat_mul128 actual x / total) (map total_stake vs))).
  { unfold l. clear Hs l. induction vs as [|v vs IH]; [unfold paid_out; simpl; split; [done|lia]|].
    destruct (Hv v ltac:(set_solver)) as [Hin Hcom].
    destruct (validator_payouts_bound c epoch actual total v) as [Hf Hb]; auto.
    destruct IH as [IHf IHb]; [intros x Hx; apply Hv; set_solver|].
    unfold paid_out in *. cbn [map concat sumZ]. rewrite map_app, sumZ_app. split; [|lia].
    by apply Forall_app. }
  destruct Hl as [Hf Hb]. split; [done|]. split.
  - apply sumZ_map_nonneg. by apply Forall_forall.
  - etrans; [exact Hb|]. apply sum_floor_le; auto. apply Forall_map, Forall_forall. intros v Hin.
    destruct (Hv v Hin) as [Hin' _]. destruct (total_stake_exact c v Hc Hin') as (-> & ? & ? & _). lia.
Qed.

Lemma eligible_total c epoch :
  staking_wf c ->
  let active := eligible_validators epoch c in
  (forall v, v ∈ active -> v ∈ validators c)
  /\ u128_sum (map total_stake active) = sumZ (map total_stake active)
  /\ 0 <= u128_sum (map total_stake active).
Proof.
  intros Hc active.
  assert (Hin : forall v, v ∈ active -> v ∈ validators c).
  { intros v Hv. apply list_elem_of_In, filter_In in Hv as [Hv _]. by apply list_elem_of_In. }
  assert (Hs : u128_sum (map total_stake active) = sumZ (map total_stake active)).
  { unfold active, eligible_validators. rewrite (stake_sum_exact _ _ Hc), <- sumZ_map_add.
    apply sumZ_map_ext. intros v Hv%Hin. by destruct (total_stake_exact _ _ Hc Hv) as (-> & _). }
  split; [done|]. split; [done|]. rewrite Hs. apply sumZ_map_nonneg. intros v Hv%Hin.
  destruct (total_stake_exact _ _ Hc Hv) as (-> & ? & ? & _). lia.
Qed.

(** C25: an epoch never creates tokens: the distribution takes from the staking
    pool the configured reward or what is left of the pool, and everything the
    validators and their delegators are credited, after commissions and
    rounding, adds up to at most that amount; what cannot be paid (rounding,
    accounts that do not exist) is lost, not minted. Nothing but account
    records changes. *)
Theorem rewards_bounded ids s height s' receipts :
  accounts_wf s -> staking_wf (staking_load s) ->
  Forall (fun v => 0 <= commission_rate_bps v <= 10000) (validators (staking_load s)) ->
  NoDup ids -> STAKING_POOL_ADDRESS ∈ ids -> supply ids s <= u128_max ->
  let reward := default DEFAULT_EPOCH_REWARD (read_config_u128 s EPOCH_REWARD_KEY) in
  0 <= reward ->
  distribute_epoch_rewards s height = (s', receipts) ->
  accounts_wf s'
  /\ supply ids s - Z.min reward (balance_of s STAKING_POOL_ADDRESS) <= supply ids s' <= supply ids s
  /\ (forall k, (forall id, k <> account_key id) -> st_get s' k = st_get s k).
Proof.
  intros Hw Hc Hcom Hn Hpool Hm reward Hr H. pose proof (balance_of_nonneg s STAKING_POOL_ADDRESS Hw).
  unfold distribute_epoch_rewards in H. fold reward in H.
  assert (Hkeep : accounts_wf s /\ supply ids s - Z.min reward (balance_of s STAKING_POOL_ADDRESS)
      <= supply ids s <= supply ids s
    /\ (forall k, (forall id, k <> account_key id) -> st_get s k = st_get s k))
    by (split; [done|]; split; [lia|done]).
  set (active := eligible_validators (height / 100) (staking_load s)) in *.
  set (total := u128_sum (map total_stake active)) in *.
  destruct ((total =? 0) || _) eqn:E0; [by injection H as <- _|].
  apply orb_false_iff in E0 as [E0 _].
  destruct (pool_balance s =? 0) eqn:Ep; [by injection H as <- _|]. prop_bool.
  assert (Hpb : pool_balance s = balance_of s STAKING_POOL_ADDRESS).
  { unfold pool_balance, balance_of, load_account.
    destruct (st_get s _) as [d|]; [|done]. by destruct (de d). }
  rewrite Hpb in *. set (actual := Z.min reward _) in *.
  destruct (deduct_pool_spec s actual Hw ltac:(lia) ltac:(lia)) as (a & Ha & Hd). rewrite Hd in H.
  destruct (debit_loaded_effect s STAKING_POOL_ADDRESS a actual Hw Ha ltac:(lia)) as (Hw1 & Hb1 & Hk1).
  set (s1 := debit_loaded s a actual) in *.
  assert (Hs1 : supply ids s1 = supply ids s - actual).
  { rewrite (supply_change s s1 ids (fun x => if decide (x = STAKING_POOL_ADDRESS) then - actual else 0))
      by (intros x; rewrite Hb1; case_decide; lia). rewrite sum_at_one by done. lia. }
  destruct (eligible_total (staking_load s) (height / 100) Hc) as (Hel & Hstake & Hpos).
  fold active total in Hel, Hstake, Hpos.
  destruct (concat_payouts_bound (staking_load s) (height / 100) actual total active Hc) as [Hf Hpaid];
    [|lia|lia|lia|].
  { intros v Hv%Hel. split; [done|]. by apply (proj1 (Forall_forall _ _) Hcom). }
  pose proof (reward_validators_state active s1 [] (staking_load s) (height / 100) actual total) as Hst.
  destruct (raw_credits_bounds ids _ s1 Hw1 Hn Hf ltac:(lia)) as (Hw2 & Hb2 & Hk2).
  rewrite <- Hst in *. destruct (reward_validators _ _ _ _ _ _ _) as [s2 ev]. cbn [fst] in *.
  assert (s' = s2) as -> by (destruct (bool_decide _); by injection H as <- _).
  split; [done|]. split; [lia|]. intros k Hk. by rewrite Hk2, Hk1.
Qed.
End bounds.

(** Validator 1 with 1000 of its own and 300 delegated by account 9; a pool of
    5000 and a reward of 1301 per epoch. *)
Definition reward_ledger : MemoryStore :=
  demo_ledger [demo_account 1 0; demo_account 9 7; bare_account STAKING_POOL_ADDRESS 5000].
Definition reward_store : MemoryStore :=
  st_put (staking_save demo_delegated reward_ledger) EPOCH_REWARD_KEY (le_bytes 16 1301).
Definition reward_ids : list AccountId := [demo_key 1; demo_key 9; STAKING_POOL_ADDRESS].

Lemma reward_ledger_same : accounts_same reward_ledger reward_store.
Proof.
  intros id. unfold reward_store. rewrite get_put_ne by discriminate.
  apply get_save_ne. discriminate.
Qed.

Lemma rewards_bounded_witness :
  exists s' receipts, distribute_epoch_rewards reward_store 900 = (s', receipts)
    /\ supply reward_ids s' = 5007 /\ supply reward_ids s' <= supply reward_ids reward_store.
Proof.
  assert (Hv : supply reward_ids (fst (distribute_epoch_rewards reward_store 900)) = 5007)
    by (vm_compute; reflexivity).
  destruct (distribute_epoch_rewards reward_store 900) as [s' receipts] eqn:E. cbn [fst] in Hv.
  exists s', receipts. split; [reflexivity|]. split; [exact Hv|].
  assert (Hload : staking_load reward_store = demo_delegated) by (vm_compute; reflexivity).
  destruct (rewards_bounded reward_ids reward_store 900 s' receipts) as (_ & [_ Hs] & _).
  - apply (accounts_wf_same _ _ reward_ledger_same). solve_ledger_wf.
  - rewrite Hload. apply staking_run_wf; [exact staking_default_wf|].
    apply (bool_decide_unpack _); vm_compute; exact I.
  - rewrite Hload. apply (bool_decide_unpack _); vm_compute; exact I.
  - apply (bool_decide_unpack _); vm_compute; exact I.
  - apply (bool_decide_unpack _); vm_compute; exact I.
  - by vm_compute.
  - by vm_compute.
  - exact E.
  - exact Hs.
Defined.
