(* ===== verification/Executor.v ===== *)
(** The executor of operations ([crates/solen-execution/src/executor.rs]):
    actions, contract calls, operations with their rollback and fee
    settlement. *)

From S2P Require Import Prelude Types Store Memory Overlay Staking Treasury Codec State SysCommon.
From S2P Require Import SysBridge SystemCalls Fees Auth Session Rewards.
Open Scope Z_scope.

Definition TRANSFER_GAS : u64 := 100.
Definition ACCOUNT_CREATION_GAS : u64 := 25000.
Definition CALL_BASE_GAS : u64 := 500.
Definition DEPLOY_BASE_GAS : u64 := 1000.
Definition SET_AUTH_GAS : u64 := 200.
Definition MAX_ACTIONS_PER_OP : usize := 16%nat.
Definition MAX_CODE_SIZE : Z := 4 * 1024 * 1024.
Definition MAX_CALL_TREE_FUEL : u64 := 64000000.
Definition MAX_FUEL_PER_CALL : u64 := 1000000.
Definition MAX_CALL_DEPTH : nat := 8%nat.

(** ** The virtual machine

    [solen-vm] runs the bytecode in [wasmtime]; the executor hands it a context
    and takes back what the contract left in it ([crates/solen-vm/src/host.rs]). *)
Record PendingCall : Type := mkPendingCall {
  pc_target : AccountId;
  pc_method : bytes;
  pc_args : bytes;
}.

Record HostContext : Type := mkHostContext {
  hc_caller : AccountId;
  hc_block_height : u64;
  hc_contract_id : AccountId;
  hc_storage : gmap bytes bytes;
  hc_msg_value : u128;
  hc_self_balance : u128;
}.

Record VmResult : Type := mkVmResult {
  vr_gas_used : u64;
  vr_storage : gmap bytes bytes;
  vr_native_transfers : list (AccountId * u128);
  vr_events : list (bytes * bytes);
  vr_pending_calls : list PendingCall;
}.

Inductive VmError : Type :=
| OutOfGas
| InvalidBytecode (what : string)
| Trap (what : string)
| HostError (what : string)
| MissingExport (what : string).

Definition vm_error_msg (e : VmError) : string :=
  match e with
  | OutOfGas => "out of gas"
  | InvalidBytecode w => "invalid bytecode: " +:+ w
  | Trap w => "execution trapped: " +:+ w
  | HostError w => "host error: " +:+ w
  | MissingExport w => "missing export: " +:+ w
  end.

Class Vm : Type := {
  (** [validate_bytecode]: the error, if there is one *)
  validate_bytecode : bytes -> option string;
  (** [execute(code_hash, bytecode, input, ctx, Some(fuel))] *)
  vm_execute : Hash -> bytes -> bytes -> HostContext -> u64 -> result VmResult VmError;
}.

Section executor.
Context {S : Type} `{!StateStore S} `{!Codec Account} `{!Codec (list Action)} `{!SystemCodecs}
        {crypto : Crypto} {vm : Vm} (debug_str : string -> string).

(** The outcome of a step that may write before it fails. *)
Abbreviation outcome A := (S * list Event * result A ExecutionError)%type.

(** ** Contract calls *)

(** The native transfers a contract queued, out of its own balance. *)
Fixpoint native_transfers (s : S) (events : list Event) (target : AccountId)
    (transfers : list (AccountId * u128)) : outcome unit :=
  match transfers with
  | [] => (s, events, Ok tt)
  | (to, amount) :: transfers =>
    match require_account s target with
    | Err e => (s, events, Err (EState e))
    | Ok contract_acct =>
      if balance contract_acct <? amount
      then (s, events, Err (refuse "contract insufficient balance for transfer"))
      else
      match save_account s (set_balance (u128_sub (balance contract_acct) amount) contract_acct) with
      | Err e => (s, events, Err (EState e))
      | Ok s =>
        let recipient :=
          match require_account s to with
          | Ok r => set_balance (sat_add128 (balance r) amount) r
          | Err _ => bare_account to amount
          end in
        match save_account s recipient with
        | Err e => (s, events, Err (EState e))
        | Ok s =>
          native_transfers s
            (events ++ [mkEvent target (bytes_of_string "native_transfer") (to ++ le_bytes 16 amount)])
            target transfers
        end
      end
    end
  end.

Definition policy_error (policy : option SubcallPolicy) (target : AccountId) (method : bytes) :
    option ExecutionError :=
  match policy with
  | None => None
  | Some p =>
    if negb (bool_decide (sp_targets p = [])) && negb (existsb (bytes_eqb target) (sp_targets p))
    then Some (refuse "session key not authorized for sub-call target")
    else if negb (bool_decide (sp_methods p = []))
            && negb (existsb (fun m => bytes_eqb (bytes_of_string m) method) (sp_methods p))
    then Some (refuse "session key not authorized for sub-call method")
    else None
  end.

(** A queued or top-level call of a system contract. *)
Definition dispatch_system_call (s : S) (events : list Event) (caller target : AccountId)
    (method args : bytes) : outcome u64 :=
  if negb (valid_utf8 method) then (s, events, Err (refuse "system call method not utf-8"))
  else
  let '(s, r) := execute_system_call debug_str ed25519_verify s caller target
                   (string_of_bytes method) args in
  let events := events ++ sc_events r in
  match sc_error r with
  | Some e => (s, events, Err (refuse ("system call failed: " +:+ e)))
  | None => (s, events, Ok (u64_add CALL_BASE_GAS (gas_used r)))
  end.

(** [dispatch_contract_call]. [levels] counts the calls that may still be
    nested: [MAX_CALL_DEPTH + 1 - depth]. The fuel left comes back with the
    outcome. *)
Fixpoint dispatch_contract_call (levels : nat) (s : S) (events : list Event)
    (caller target : AccountId) (method args : bytes) (msg_value : u128) (height : u64)
    (fuel_budget : u64) (policy : option SubcallPolicy) : outcome u64 * u64 :=
  match levels with
  | O => ((s, events, Err (refuse ("call depth exceeded: " +:+ pretty (MAX_CALL_DEPTH + 1)%nat
                                   +:+ " > " +:+ pretty MAX_CALL_DEPTH))), fuel_budget)
  | Datatypes.S levels =>
    match (if (levels <? MAX_CALL_DEPTH)%nat then policy_error policy target method else None) with
    | Some e => ((s, events, Err e), fuel_budget)
    | None =>
    if is_system_contract target
    then (dispatch_system_call s events caller target method args, fuel_budget)
    else
    match require_account s target with
    | Err e => ((s, events, Err (EState e)), fuel_budget)
    | Ok target_account =>
    if bytes_eqb (code_hash target_account) zero_hash
    then ((s, events ++ [mkEvent target (bytes_of_string "call:" ++ utf8_lossy method) args],
           Ok CALL_BASE_GAS), fuel_budget)
    else
    match load_bytecode s (code_hash target_account) with
    | None => ((s, events, Err (refuse "bytecode not found")), fuel_budget)
    | Some bytecode =>
    let ctx := mkHostContext caller height target (load_contract_storage s target) msg_value
                 (balance target_account) in
    if fuel_budget =? 0 then ((s, events, Err (refuse "operation fuel budget exhausted")), fuel_budget)
    else
    match vm_execute (code_hash target_account) bytecode (method ++ [0] ++ args) ctx
            (Z.min fuel_budget MAX_FUEL_PER_CALL) with
    | Err OutOfGas => ((s, events, Err (refuse "out of gas")), fuel_budget)
    | Err e => ((s, events, Err (EVm (vm_error_msg e))), fuel_budget)
    | Ok result =>
    let fuel_budget := sat_sub fuel_budget (vr_gas_used result) in
    match save_contract_storage s target (vr_storage result) with
    | (s, Err e) => ((s, events, Err (EState e)), fuel_budget)
    | (s, Ok _) =>
    match native_transfers s events target (vr_native_transfers result) with
    | (s, events, Err e) => ((s, events, Err e), fuel_budget)
    | (s, events, Ok _) =>
    let events := events ++ map (fun e => mkEvent target (fst e) (snd e)) (vr_events result) in
    (fix drain (s : S) (events : list Event) (fuel_budget total_gas : u64)
         (calls : list PendingCall) : outcome u64 * u64 :=
      match calls with
      | [] => ((s, events, Ok total_gas), fuel_budget)
      | c :: calls =>
        match dispatch_contract_call levels s events target (pc_target c) (pc_method c) (pc_args c)
                0 height fuel_budget policy with
        | ((s, events, Ok sub_gas), fuel_budget) =>
            drain s events fuel_budget (sat_add64 total_gas sub_gas) calls
        | ((s, events, Err e), fuel_budget) => ((s, events, Err e), fuel_budget)
        end
      end) s events fuel_budget (u64_add CALL_BASE_GAS (vr_gas_used result)) (vr_pending_calls result)
    end
    end
    end
    end
    end
    end
  end.

(** ** Actions *)

(** The error of one new authentication method, if there is one. *)
Definition auth_method_error (s : S) (m : AuthMethod) : option ExecutionError :=
  match m with
  | Threshold signers threshold =>
      if (threshold =? 0) || (Z.of_nat (length signers) <? threshold)
      then Some (refuse ("invalid threshold: " +:+ pretty threshold +:+ " of "
                         +:+ pretty (length signers) +:+ " signers"))
      else None
  | Guardian g =>
      match load_account s g with
      | Err e => Some (EState e)
      | Ok None => Some (refuse ("guardian account does not exist: " +:+ debug_bytes (take 4 g)))
      | Ok (Some _) => None
      end
  | _ => None
  end.

Definition execute_set_auth (s : S) (events : list Event) (sender : AccountId)
    (methods : list AuthMethod) : outcome u64 :=
  if bool_decide (methods = []) then (s, events, Err (refuse "auth_methods cannot be empty"))
  else
  match find_map (auth_method_error s) methods with
  | Some e => (s, events, Err e)
  | None =>
    match require_account s sender with
    | Err e => (s, events, Err (EState e))
    | Ok account =>
      match save_account s (set_auth_methods methods account) with
      | Err e => (s, events, Err (EState e))
      | Ok s => (s, events ++ [mkEvent sender (bytes_of_string "set_auth")
                                 [Z.of_nat (length methods) mod 256]], Ok SET_AUTH_GAS)
      end
    end
  end.

Definition execute_deploy (s : S) (events : list Event) (sender : AccountId) (code salt : bytes) :
    outcome u64 :=
  if MAX_CODE_SIZE <? Z.of_nat (length code)
  then (s, events, Err (refuse ("contract too large: " +:+ pretty (length code) +:+ " bytes (max "
                                +:+ pretty MAX_CODE_SIZE +:+ ")")))
  else
  let '(s, hash) := store_bytecode blake3 s code in
  let new_id := blake3 (sender ++ salt ++ hash) in
  let collision :=
    match load_account s new_id with
    | Ok (Some existing) => negb (bytes_eqb (code_hash existing) zero_hash)
    | _ => false
    end in
  if collision then (s, events, Err (refuse "contract address already exists"))
  else
  let methods :=
    match load_account s sender with Ok (Some a) => auth_methods a | _ => [] end in
  match save_account s (mkAccount new_id hash methods 0 0) with
  | Err e => (s, events, Err (EState e))
  | Ok s => (s, events ++ [mkEvent sender (bytes_of_string "deploy") new_id], Ok DEPLOY_BASE_GAS)
  end.

Definition execute_transfer (s : S) (events : list Event) (sender to : AccountId) (amount : u128) :
    outcome u64 :=
  match load_account s to with
  | Err e => (s, events, Err (EState e))
  | Ok o =>
    let is_new_account := bool_decide (o = None) in
    match transfer s sender to amount with
    | (s, Err e) => (s, events, Err (EState e))
    | (s, Ok _) =>
      (s, events ++ [mkEvent sender (bytes_of_string "transfer") (to ++ le_bytes 16 amount)],
       Ok (if is_new_account then TRANSFER_GAS + ACCOUNT_CREATION_GAS else TRANSFER_GAS))
    end
  end.

Definition execute_action (s : S) (events : list Event) (sender : AccountId) (a : Action)
    (msg_value : u128) (height : u64) (policy : option SubcallPolicy) : outcome u64 :=
  match a with
  | Transfer to amount => execute_transfer s events sender to amount
  | Call target method args =>
      fst (dispatch_contract_call (Datatypes.S MAX_CALL_DEPTH) s events sender target
             (bytes_of_string method) args msg_value height MAX_CALL_TREE_FUEL policy)
  | SetAuth methods => execute_set_auth s events sender methods
  | Deploy code salt => execute_deploy s events sender code salt
  end.

(** ** The actions of an operation

    [pending] sums the transfers to each target since its last call. The last
    component is the error of the action that failed. *)
Definition next_pending (pending : gmap AccountId u128) (a : Action) : gmap AccountId u128 * u128 :=
  match a with
  | Transfer to amount => (<[to := sat_add128 (default 0 (pending !! to)) amount]> pending, 0)
  | Call target _ _ => (delete target pending, default 0 (pending !! target))
  | _ => (pending, 0)
  end.

Definition step_action (s : S) (events : list Event) (sender : AccountId) (a : Action)
    (msg_value : u128) (height : u64) (policy : option SubcallPolicy) :
    S * list Event * u64 * option string :=
  let plain :=
    match execute_action s events sender a msg_value height policy with
    | (s, events, Ok gas) => (s, events, gas, None)
    | (s, events, Err e) => (s, events, 0, Some (execution_error_msg e))
    end in
  match a with
  | Call target method args =>
      if is_system_contract target then
        let '(s, r) := execute_system_call debug_str ed25519_verify s sender target method args in
        (s, events ++ sc_events r, gas_used r, sc_error r)
      else plain
  | _ => plain
  end.

Fixpoint run_actions (s : S) (events : list Event) (gas : u64) (pending : gmap AccountId u128)
    (sender : AccountId) (actions : list Action) (height : u64) (policy : option SubcallPolicy) :
    S * list Event * u64 * option string :=
  match actions with
  | [] => (s, events, gas, None)
  | a :: actions =>
    let '(pending, msg_value) := next_pending pending a in
    match step_action s events sender a msg_value height policy with
    | (s, events, g, None) =>
        run_actions s events (u64_add gas g) pending sender actions height policy
    | (s, events, g, Some e) => (s, events, u64_add gas g, Some e)
    end
  end.

(** ** Operations *)

Definition deploy_error (a : Action) : option string :=
  match a with
  | Deploy code _ =>
      if MAX_CODE_SIZE <? Z.of_nat (length code)
      then Some ("contract too large: " +:+ pretty (length code) +:+ " bytes (max "
                 +:+ pretty MAX_CODE_SIZE +:+ ")")
      else match validate_bytecode code with
           | Some e => Some ("invalid WASM bytecode: " +:+ e)
           | None => None
           end
  | _ => None
  end.

Definition op_receipt (op : UserOperation) (gas : u64) (e : option string) (events : list Event) :
    ExecutionReceipt :=
  mkReceipt (op_sender op) (op_nonce op) (match e with None => true | Some _ => false end)
    gas e events "ed25519".

(** The maximum fee, or what is left of the balance, set aside. *)
Definition reserve_fee (s : S) (op : UserOperation) : S * u128 :=
  match load_account s (op_sender op) with
  | Ok (Some a) =>
      let reserve := Z.min (op_max_fee op) (balance a) in
      (debit_loaded s a reserve, reserve)
  | _ => (s, 0)
  end.

Context (cfg : ExecConfig).

Definition capped_fee (height : u64) (op : UserOperation) (fee : u128) : u128 :=
  if fee_fix_height cfg <=? height then Z.min fee (op_max_fee op) else fee.

(** After a failed action: back to the savepoint, then the fee of the gas used. *)
Definition roll_back (s : S) (sp : Savepoint) (op : UserOperation) (height gas : u64) : S :=
  let s := st_restore s sp in
  let s := match consume_nonce s (op_sender op) (op_nonce op) with Ok s => s | Err _ => s end in
  let actual_fee := capped_fee height op (calculate_fee (fee_config cfg) gas) in
  if 0 <? actual_fee then
    match require_account s (op_sender op) with
    | Ok a => save_account_or_keep s (set_balance (sat_sub (balance a) actual_fee) a)
    | Err _ => s
    end
  else s.

Definition BURN_RATE_KEY : bytes := Eval vm_compute in bytes_of_string "__config_burn_rate__".

Definition current_fee_config (s : S) : FeeConfig :=
  match st_get s BURN_RATE_KEY with
  | Some data => if (8 <=? length data)%nat then set_burn_rate (from_le (take 8 data)) (fee_config cfg)
                 else fee_config cfg
  | None => fee_config cfg
  end.

(** The refund of the reserve and the charge of the fee. *)
Definition settle_fee (s : S) (events : list Event) (op : UserOperation) (height gas : u64)
    (reserve : u128) :
    S * list Event :=
  let fc := current_fee_config s in
  let total_fee := capped_fee height op (calculate_fee fc gas) in
  if (0 <? reserve) || (0 <? total_fee) then
    match load_account s (op_sender op) with
    | Ok (Some sender_acct) =>
      let available := sat_add128 (balance sender_acct) reserve in
      let fee_paid := if fee_fix_height cfg <=? height then Z.min total_fee available else total_fee in
      let s := save_account_or_keep s (set_balance (sat_sub available fee_paid) sender_acct) in
      let treasury_share := treasury_amount fc fee_paid in
      let s :=
        if 0 <? treasury_share then
          match load_account s (treasury_account fc) with
          | Ok (Some t) =>
              save_account_or_keep s (set_balance (sat_add128 (balance t) treasury_share) t)
          | _ => s
          end
        else s in
      (s, events ++ [mkEvent (op_sender op) (bytes_of_string "fee") (le_bytes 16 fee_paid)])
    | _ => (s, events)
    end
  else (s, events).

(** What follows validation. *)
Definition run_operation (s : S) (p : PreparedOp) (op : UserOperation) (height : u64) :
    S * ExecutionReceipt :=
  let sp := st_savepoint s in
  let '(s, reserve) := reserve_fee s op in
  match run_actions s [] 0 ∅ (op_sender op) (op_actions op) height (subcall_policy p) with
  | (s, _, gas, Some e) => (roll_back s sp op height gas, op_receipt op gas (Some e) [])
  | (s, events, gas, None) =>
    let '(s, events) := settle_fee s events op height gas reserve in
    let s := match session_charge p with
             | Some (key, new_total) => st_put s key (le_bytes 16 new_total)
             | None => s
             end in
    (s, op_receipt op gas None events)
  end.

Definition execute_operation (s : S) (op : UserOperation) (height : u64) : S * ExecutionReceipt :=
  let rejected e := (s, op_receipt op 0 (Some e) []) in
  if (MAX_ACTIONS_PER_OP <? length (op_actions op))%nat
  then rejected ("too many actions: " +:+ pretty (length (op_actions op)) +:+ " (max "
                 +:+ pretty MAX_ACTIONS_PER_OP +:+ ")")
  else
  match find_map deploy_error (op_actions op) with
  | Some e => rejected e
  | None =>
    match validate_and_prepare cfg s op height with
    | Err e => rejected (execution_error_msg e)
    | Ok (s, p) => run_operation s p op height
    end
  end.
End executor.

(** ** Failure *)

Section failure.
Context {S : Type} `{!StateStore S} `{!StateStoreLaws S} `{!Codec Account} `{!CodecLaws Account}
        `{!Codec (list Action)} `{!SystemCodecs} {crypto : Crypto} {vm : Vm}
        (debug_str : string -> string) (cfg : ExecConfig).
Implicit Types s : S.

(** The account record with another nonce and less balance. *)
Definition charged (a : Account) (n : u64) (fee : u128) : Account :=
  set_balance (sat_sub (balance a) fee) (set_nonce n a).

(** The nonce as it was, or the one after the operation's. *)
Definition nonce_after (op_nonce : u64) (a : Account) (n : u64) : Prop :=
  n = nonce a \/ op_nonce = nonce a /\ nonce a < u64_max /\ n = nonce a + 1.

Lemma charged_zero a : 0 <= balance a -> charged a (nonce a) 0 = a.
Proof.
  intros Hb. destruct a. unfold charged, sat_sub, set_balance, set_nonce. simpl in *.
  f_equal. lia.
Qed.

(** The attempt to consume the nonce again after the restore. *)
Lemma reconsume_effect s id n a :
  accounts_wf s -> load_account s id = Ok (Some a) ->
  let s' := match consume_nonce s id n with Ok s1 => s1 | Err _ => s end in
  (forall k, k <> account_key id -> st_get s' k = st_get s k)
  /\ exists n', nonce_after n a n'
       /\ load_account s' id = Ok (Some (set_nonce n' a)).
Proof.
  intros Hw Hl. destruct (Hw _ _ Hl) as (Hid & _ & [? ?]). cbv zeta. unfold nonce_after.
  destruct (consume_nonce s id n) as [s1|e] eqn:E.
  - apply consume_nonce_inv in E as (a' & Ha' & Hn & Hmax & ->).
    assert (a' = a) as -> by congruence. split.
    + intros k Hk. apply get_save_account. simpl. by rewrite Hid.
    + exists (n + 1). split; [right; lia|]. rewrite load_save_account. simpl. rewrite Hid.
      by rewrite decide_True.
  - split; [done|]. exists (nonce a). split; [auto|]. rewrite Hl. by destruct a.
Qed.

(** What is left of the operation that failed: the nonce and the fee. *)
Lemma roll_back_effect s s1 op height gas a :
  accounts_wf s -> load_account s (op_sender op) = Ok (Some a) ->
  0 <= capped_fee cfg height op (calculate_fee (fee_config cfg) gas) ->
  let s' := roll_back cfg s1 (st_savepoint s) op height gas in
  (forall k, k <> account_key (op_sender op) -> st_get s' k = st_get s k)
  /\ exists n, nonce_after (op_nonce op) a n
       /\ load_account s' (op_sender op)
          = Ok (Some (charged a n (capped_fee cfg height op (calculate_fee (fee_config cfg) gas)))).
Proof.
  intros Hw Hl Hfee. set (r := st_restore s1 (st_savepoint s)).
  assert (Hr : store_eq r s) by (intros k; apply get_restore).
  assert (Hwr : accounts_wf r).
  { intros id x. rewrite (load_store_eq r s id Hr). apply Hw. }
  assert (Hlr : load_account r (op_sender op) = Ok (Some a)) by (by rewrite (load_store_eq r s)).
  destruct (Hw _ _ Hl) as (Hid & [Hb ?] & _).
  destruct (reconsume_effect r (op_sender op) (op_nonce op) a Hwr Hlr) as (Hk & n & Hn & Hload).
  unfold roll_back. fold r. cbv zeta in *. set (s2 := match consume_nonce r (op_sender op) (op_nonce op) with Ok s => s | Err _ => r end) in *.
  set (fee := capped_fee _ _ _ _). destruct (Z.ltb_spec 0 fee) as [Hf|Hf].
  - pose proof Hload as Hreq. apply require_account_spec in Hreq. rewrite Hreq. split.
    + intros k Hne. rewrite get_save_account by (simpl; by rewrite Hid). rewrite Hk by done. apply Hr.
    + exists n. split; [done|]. rewrite load_save_account. simpl. rewrite Hid. by rewrite decide_True.
  - split; [intros k Hne; rewrite Hk by done; apply Hr|]. exists n. split; [done|].
    rewrite Hload. do 2 f_equal. unfold charged, sat_sub, set_balance, set_nonce. destruct a; simpl in *.
    f_equal. lia.
Qed.

(** What validation leaves when it succeeds. *)
Lemma validate_effect s op height s' p :
  accounts_wf s -> validate_and_prepare cfg s op height = Ok (s', p) ->
  accounts_wf s' /\ (forall k, k <> account_key (op_sender op) -> st_get s' k = st_get s k)
  /\ exists a n, load_account s (op_sender op) = Ok (Some a)
       /\ load_account s' (op_sender op) = Ok (Some (set_nonce n a))
       /\ (if is_system_authorized op then n = nonce a
           else op_nonce op = nonce a /\ nonce a < u64_max /\ n = nonce a + 1).
Proof.
  intros Hw Hv. destruct (is_system_authorized op) eqn:Es.
  - unfold validate_and_prepare in Hv. destruct (load_account s (op_sender op)) as [[a|]|] eqn:El;
      [|done|done]. rewrite Es in Hv. injection Hv as <- <-.
    split; [done|]. split; [done|]. exists a, (nonce a). split; [done|]. split; [|done].
    rewrite El. by destruct a.
  - destruct (validate_signed cfg _ _ _ _ _ Hv Es) as (a & Hl & _ & Hn & Hmax & -> & _).
    destruct (Hw _ _ Hl) as (Hid & Hb & [? ?]). split; [|split].
    + apply accounts_wf_save; [done|done|]. split; simpl; lia.
    + intros k Hk. apply get_save_account. simpl. by rewrite Hid.
    + exists a, (op_nonce op + 1). split; [done|]. split; [|lia].
      rewrite load_save_account. simpl. rewrite Hid. by rewrite decide_True.
Qed.

(** The fields of an operation as the decoder produces them. *)
Definition op_ok (op : UserOperation) : Prop := 0 <= op_max_fee op.
Definition fees_ok : Prop := 0 <= base_fee_per_gas (fee_config cfg).

Lemma capped_fee_nonneg op height fc gas :
  op_ok op -> 0 <= base_fee_per_gas fc -> 0 <= gas ->
  0 <= capped_fee cfg height op (calculate_fee fc gas).
Proof.
  intros Ho Hf Hg. unfold op_ok, capped_fee, calculate_fee, sat_mul128, u128_max in *.
  destruct (_ <=? _); nia.
Qed.

Lemma capped_fee_zero op height fc : op_ok op -> capped_fee cfg height op (calculate_fee fc 0) = 0.
Proof.
  intros Ho. unfold op_ok, capped_fee, calculate_fee, sat_mul128, u128_max in *.
  rewrite Z.mul_0_r. destruct (_ <=? _); lia.
Qed.

Lemma run_actions_gas s events gas pending sender actions height policy s' events' gas' e :
  0 <= gas ->
  run_actions debug_str s events gas pending sender actions height policy = (s', events', gas', e) ->
  0 <= gas'.
Proof.
  revert s events gas pending. induction actions as [|a actions IH]; intros s events gas pending Hg;
    simpl; [by intros [= <- <- <- <-]|].
  destruct (next_pending pending a) as [pending1 msg_value].
  destruct (step_action _ _ _ _ _ _ _ _) as [[[s1 ev1] g] [e1|]].
  - intros [= <- <- <- <-]. unfold u64_add. apply Z.mod_pos_bound. lia.
  - apply IH. unfold u64_add. apply Z.mod_pos_bound. lia.
Qed.

(** Of the store, at most the sender's account record has changed, and of that
    the nonce and, by the fee, the balance. *)
Definition only_charged s s' (op : UserOperation) (fee : u128) : Prop :=
  (forall k, k <> account_key (op_sender op) -> st_get s' k = st_get s k)
  /\ match load_account s (op_sender op) with
     | Ok (Some a) => exists n, nonce_after (op_nonce op) a n
         /\ load_account s' (op_sender op) = Ok (Some (charged a n fee))
     | _ => st_get s' (account_key (op_sender op)) = st_get s (account_key (op_sender op))
     end.

Lemma only_charged_refl s op : accounts_wf s -> only_charged s s op 0.
Proof.
  intros Hw. split; [done|]. destruct (load_account s (op_sender op)) as [[a|]|] eqn:El; [|done|done].
  exists (nonce a). split; [by left|]. destruct (Hw _ _ El) as (_ & [? ?] & _).
  by rewrite charged_zero.
Qed.

Lemma failed_operation_effect s op height s' r :
  accounts_wf s -> op_ok op -> fees_ok ->
  execute_operation debug_str cfg s op height = (s', r) -> r_success r = false ->
  only_charged s s' op (capped_fee cfg height op (calculate_fee (fee_config cfg) (r_gas_used r)))
  /\ r_events r = [].
Proof.
  intros Hw Ho Hf He Hs.
  assert (Hrej : forall e, (s, op_receipt op 0 (Some e) []) = (s', r) ->
    only_charged s s' op (capped_fee cfg height op (calculate_fee (fee_config cfg) (r_gas_used r)))
    /\ r_events r = []).
  { intros e [= <- <-]. cbn [op_receipt r_gas_used r_events]. rewrite capped_fee_zero by done.
    split; [by apply only_charged_refl|done]. }
  unfold execute_operation in He.
  destruct (_ <? _)%nat; [by eapply Hrej|]. destruct (find_map _ _); [by eapply Hrej|].
  destruct (validate_and_prepare cfg s op height) as [[s1 p]|] eqn:Ev; [|by eapply Hrej].
  clear Hrej. destruct (validate_effect _ _ _ _ _ Hw Ev) as (Hw1 & Hk1 & a & n & Hl & Hl1 & Hn).
  unfold run_operation in He. destruct (reserve_fee s1 op) as [s2 reserve].
  destruct (run_actions _ _ _ _ _ _ _ _ _) as [[[s3 ev] gas] [e|]] eqn:Er.
  2:{ destruct (settle_fee _ _ _ _ _ _ _). by injection He as <- <-. }
  injection He as <- <-. cbn [op_receipt r_gas_used r_events] in *. split; [|done].
  assert (Hfee : 0 <= capped_fee cfg height op (calculate_fee (fee_config cfg) gas)).
  { apply capped_fee_nonneg; [done|done|]. by eapply run_actions_gas; [|exact Er]. }
  destruct (roll_back_effect s1 s3 op height gas _ Hw1 Hl1 Hfee) as (Hk & n' & Hn' & Hload).
  split; [intros k Hne; rewrite Hk by done; by apply Hk1|]. rewrite Hl. exists n'. split; [|done].
  unfold nonce_after in *. simpl in Hn'. destruct (is_system_authorized op); lia.
Qed.

(** C5: an operation that fails leaves no trace but its nonce and its fee: every
    key other than the sender's account record is as before; of that record
    only the nonce may have advanced by one and the balance has lost at most
    the fee of the gas on the receipt, which the signed maximum caps once the
    fee fix is active; no event is reported. *)
Theorem failed_operation_atomic s op height s' r :
  accounts_wf s -> op_ok op -> fees_ok ->
  execute_operation debug_str cfg s op height = (s', r) -> r_success r = false ->
  let fee := capped_fee cfg height op (calculate_fee (fee_config cfg) (r_gas_used r)) in
  (forall k, k <> account_key (op_sender op) -> st_get s' k = st_get s k)
  /\ (forall a, load_account s (op_sender op) = Ok (Some a) ->
       exists n, nonce_after (op_nonce op) a n
         /\ load_account s' (op_sender op)
            = Ok (Some (set_balance (Z.max 0 (balance a - fee)) (set_nonce n a))))
  /\ (fee_fix_height cfg <= height -> fee <= op_max_fee op)
  /\ r_events r = [].
Proof.
  intros Hw Ho Hf He Hs fee.
  destruct (failed_operation_effect _ _ _ _ _ Hw Ho Hf He Hs) as ([Hk Hl] & Hev).
  split; [done|]. split; [|split; [|done]].
  - intros a Ha. rewrite Ha in Hl. exact Hl.
  - intros Hh. unfold fee, capped_fee. rewrite (proj2 (Z.leb_le _ _) Hh). lia.
Qed.

(** The gas of a contract call that fails is not charged: whatever the call
    executed before it failed, the receipt of an operation that consists of it
    reports no gas and the sender keeps the whole balance. *)
Theorem failed_call_free s op height s' r target method args :
  accounts_wf s -> op_ok op -> fees_ok ->
  op_actions op = [Call target method args] -> is_system_contract target = false ->
  execute_operation debug_str cfg s op height = (s', r) -> r_success r = false ->
  r_gas_used r = 0 /\ balance_of s' (op_sender op) = balance_of s (op_sender op).
Proof.
  intros Hw Ho Hf Ha Ht He Hs.
  destruct (failed_operation_effect _ _ _ _ _ Hw Ho Hf He Hs) as ([_ Hl] & _).
  assert (Hg : r_gas_used r = 0).
  { unfold execute_operation in He. rewrite Ha in He. cbn [length find_map deploy_error] in He.
    destruct (_ <? _)%nat; [by injection He as <- <-|].
    destruct (validate_and_prepare _ _ _ _) as [[s1 p]|]; [|by injection He as <- <-].
    unfold run_operation in He. destruct (reserve_fee s1 op) as [s2 reserve]. rewrite Ha in He.
    cbn [run_actions next_pending step_action] in He. rewrite Ht in He.
    destruct (execute_action _ _ _ _ _ _ _ _) as [[s3 ev] [gas|e]].
    - destruct (settle_fee _ _ _ _ _ _ _). by injection He as <- <-.
    - by injection He as <- <-. }
  split; [done|]. rewrite Hg, capped_fee_zero in Hl by done. unfold balance_of.
  destruct (load_account s (op_sender op)) as [[a|]|] eqn:El.
  - destruct Hl as (n & _ & ->). destruct (Hw _ _ El) as (_ & [? ?] & _). simpl. unfold sat_sub. lia.
  - unfold load_account in *. rewrite Hl. by destruct (st_get s _) as [d|]; [destruct (de d)|].
  - unfold load_account in *. rewrite Hl. by destruct (st_get s _) as [d|]; [destruct (de d)|].
Qed.
End failure.

(** ** Fees and supply *)

Section conservation.
Context {S : Type} `{!StateStore S} `{!StateStoreLaws S} `{!Codec Account} `{!CodecLaws Account}
        `{!Codec (list Action)} `{!SystemCodecs} {crypto : Crypto} {vm : Vm}
        (debug_str : string -> string) (cfg : ExecConfig) (ids : list AccountId).
Implicit Types s : S.

Context (ids_nodup : NoDup ids) (treasury_in : treasury_account (fee_config cfg) ∈ ids).

Lemma save_supply s a :
  accounts_wf s -> acc_id a ∈ ids -> in_u128 (balance a) -> in_u64 (nonce a) ->
  accounts_wf (save_account_or_keep s a)
  /\ supply ids (save_account_or_keep s a) = supply ids s - balance_of s (acc_id a) + balance a.
Proof. intros Hw Hin Hb Hn. split; [by apply accounts_wf_save|by apply supply_save]. Qed.

Lemma reserve_fee_effect s op s' reserve :
  accounts_wf s -> op_ok op -> op_sender op ∈ ids -> reserve_fee s op = (s', reserve) ->
  accounts_wf s' /\ 0 <= reserve <= op_max_fee op /\ supply ids s' = supply ids s - reserve
  /\ (has_account s (op_sender op) -> has_account s' (op_sender op))
  /\ (forall k, k <> account_key (op_sender op) -> st_get s' k = st_get s k).
Proof.
  intros Hw Ho Hin Hr. unfold reserve_fee in Hr. unfold op_ok in Ho.
  destruct (load_account s (op_sender op)) as [[a|]|] eqn:El;
    injection Hr as <- <-; [|split; [done|]; split; [lia|]; split; [lia|done]..].
  destruct (Hw _ _ El) as (Hid & [? ?] & ?).
  assert (Hb : balance_of s (op_sender op) = balance a) by (unfold balance_of; by rewrite El).
  set (amount := Z.min _ _). destruct (debit_loaded_effect s (op_sender op) a amount Hw El)
    as (Hw' & _ & Hk); [lia|].
  split; [done|]. split; [lia|]. split; [|split; [|done]].
  - unfold debit_loaded. rewrite u128_sub_exact by lia.
    rewrite supply_save by (simpl; by rewrite ?Hid). simpl. rewrite Hid. lia.
  - intros _. eexists. unfold debit_loaded. rewrite load_save_account. simpl. rewrite Hid.
    by rewrite decide_True.
Qed.

(** The share of the treasury, which is credited only if its account exists. *)
Lemma credit_treasury_effect s t share :
  accounts_wf s -> t ∈ ids -> 0 <= share -> supply ids s + share <= u128_max ->
  let s' := if 0 <? share then
              match load_account s t with
              | Ok (Some x) => save_account_or_keep s (set_balance (sat_add128 (balance x) share) x)
              | _ => s
              end
            else s in
  accounts_wf s' /\ (supply ids s' = supply ids s \/ supply ids s' = supply ids s + share)
  /\ (forall k, k <> account_key t -> st_get s' k = st_get s k).
Proof.
  intros Hw Hin Hs Hm. cbv zeta. destruct (0 <? share); [|auto].
  destruct (load_account s t) as [[x|]|] eqn:El; [|auto|auto].
  destruct (Hw _ _ El) as (Hid & [? ?] & ?). pose proof (supply_ge s ids t Hw Hin) as Hge.
  assert (Hb : balance_of s t = balance x) by (unfold balance_of; by rewrite El).
  rewrite sat_add128_exact by lia.
  destruct (save_supply s (set_balance (balance x + share) x) Hw) as (Hw' & Hs'); simpl; auto.
  - by rewrite Hid.
  - unfold in_u128. lia.
  - split; [done|]. split; [right; simpl in Hs'; rewrite Hid in Hs'; lia|].
    intros k Hk. apply get_save_account. simpl. by rewrite Hid.
Qed.

Lemma settle_fee_effect s events op height gas reserve s' events' :
  accounts_wf s -> op_ok op -> fees_ok cfg -> 0 <= gas -> op_sender op ∈ ids ->
  fee_fix_height cfg <= height -> 0 <= burn_rate_bps (current_fee_config cfg s) <= 10000 ->
  has_account s (op_sender op) -> 0 <= reserve -> supply ids s + reserve <= u128_max ->
  settle_fee cfg s events op height gas reserve = (s', events') ->
  accounts_wf s'
  /\ (exists burned, 0 <= burned <= op_max_fee op
        /\ supply ids s' = supply ids s + reserve - burned)
  /\ (forall k, k <> account_key (op_sender op) ->
        k <> account_key (treasury_account (fee_config cfg)) -> st_get s' k = st_get s k).
Proof.
  intros Hw Ho Hf Hg Hin Hh Hburn [a Hl] Hr Hm Hset. unfold settle_fee in Hset.
  set (fc := current_fee_config cfg s) in *.
  assert (Hfc : base_fee_per_gas fc = base_fee_per_gas (fee_config cfg)
                /\ treasury_account fc = treasury_account (fee_config cfg)).
  { unfold fc, current_fee_config. destruct (st_get s BURN_RATE_KEY); [|done].
    by destruct (8 <=? _)%nat. }
  destruct Hfc as [Hbase Htr].
  set (total := capped_fee cfg height op (calculate_fee fc gas)) in *.
  assert (Ht : 0 <= total <= op_max_fee op).
  { split; [apply capped_fee_nonneg; unfold fees_ok in *; auto; lia|].
    unfold total, capped_fee. rewrite (proj2 (Z.leb_le _ _) Hh). lia. }
  destruct (_ || _) eqn:Ez.
  2:{ injection Hset as <- <-. apply orb_false_iff in Ez as [E1 E2]. prop_bool.
      split; [done|]. split; [exists 0; lia|done]. }
  rewrite Hl, (proj2 (Z.leb_le _ _) Hh) in Hset. cbv zeta in Hset. rewrite Htr in Hset.
  destruct (Hw _ _ Hl) as (Hid & [? ?] & ?). pose proof (supply_ge s ids _ Hw Hin) as Hge.
  assert (Hb : balance_of s (op_sender op) = balance a) by (unfold balance_of; by rewrite Hl).
  rewrite (sat_add128_exact (balance a) reserve) in Hset by lia.
  set (paid := Z.min total (balance a + reserve)) in *. rewrite sat_sub_exact in Hset by lia.
  destruct (save_supply s (set_balance (balance a + reserve - paid) a) Hw) as (Hw1 & Hs1);
    [simpl; by rewrite Hid|unfold in_u128; simpl; lia|done|].
  set (s1 := save_account_or_keep s _) in *. simpl in Hs1. rewrite Hid in Hs1.
  pose proof (treasury_amount_le fc paid ltac:(lia) Hburn) as Hshare.
  destruct (credit_treasury_effect s1 _ (treasury_amount fc paid) Hw1 treasury_in) as (Hw2 & Hs2 & Hk2);
    [lia|lia|]. cbv zeta in Hw2, Hs2, Hk2. injection Hset as <- <-.
  split; [done|]. split.
  - destruct Hs2 as [E|E]; rewrite E; [exists paid|exists (paid - treasury_amount fc paid)]; lia.
  - intros k Hk Hkt. rewrite Hk2 by done. unfold s1. apply get_save_account. simpl. by rewrite Hid.
Qed.

(** An action that pays an account of [ids]. *)
Definition is_payment (a : Action) : Prop :=
  match a with Transfer to amount => to ∈ ids /\ 0 <= amount | _ => False end.

Lemma transfer_has_account s from to amount s' id :
  accounts_wf s -> 0 <= amount -> transfer s from to amount = (s', Ok tt) ->
  has_account s id -> has_account s' id.
Proof.
  intros Hw Ha Ht [x Hx]. destruct (transfer_ok _ _ _ _ _ Hw Ha Ht) as (a & Hl & _ & _ & _ & He).
  unfold has_account. rewrite (load_store_eq _ _ id He), !load_save_account.
  repeat case_decide; eauto.
Qed.

Lemma payments_effect actions s events gas pending sender height policy s' events' gas' :
  accounts_wf s -> sender ∈ ids -> has_account s sender -> Forall is_payment actions ->
  supply ids s <= u128_max ->
  run_actions debug_str s events gas pending sender actions height policy
  = (s', events', gas', None) ->
  accounts_wf s' /\ has_account s' sender /\ supply ids s' = supply ids s
  /\ (forall k, (forall id, id ∈ ids -> k <> account_key id) -> st_get s' k = st_get s k).
Proof.
  revert s events gas pending. induction actions as [|a actions IH];
    intros s events gas pending Hw Hin Ha Hp Hs; simpl; [by intros [= <- _ _]|].
  apply Forall_cons in Hp as [Hpa Hp]. destruct a as [to amount| | |]; simpl in Hpa; try done.
  destruct Hpa as [Hto Hamt]. cbn [next_pending step_action execute_action]. unfold execute_transfer.
  destruct (load_account s to) as [o|]; [|done].
  destruct (transfer s sender to amount) as [s1 [[]|]] eqn:Et; [|done]. intros Hr.
  destruct (transfer_balances _ _ _ _ _ Hw Hamt Et) as (_ & Hw1 & _ & Hk1).
  pose proof (transfer_supply _ _ _ _ _ ids Hw Hamt ids_nodup Hin Hto Hs Et) as Hs1.
  pose proof (transfer_has_account _ _ _ _ _ sender Hw Hamt Et Ha) as Ha1.
  destruct (IH _ _ _ _ Hw1 Hin Ha1 Hp ltac:(lia) Hr) as (Hw2 & Ha2 & Hs2 & Hk2).
  split; [done|]. split; [done|]. split; [lia|]. intros k Hk. rewrite Hk2 by done.
  apply Hk1; by apply Hk.
Qed.

(** The ledger between operations. *)
Definition ledger_ok s : Prop :=
  accounts_wf s /\ supply ids s <= u128_max
  /\ 0 <= burn_rate_bps (current_fee_config cfg s) <= 10000.

Lemma ledger_ok_change s s' burned :
  ledger_ok s -> accounts_wf s' -> 0 <= burned -> supply ids s' = supply ids s - burned ->
  st_get s' BURN_RATE_KEY = st_get s BURN_RATE_KEY -> ledger_ok s'.
Proof.
  intros (Hw & Hs & Hb) Hw' H0 Hs' Hk. split; [done|]. split; [lia|].
  unfold current_fee_config in *. by rewrite Hk.
Qed.

Lemma burn_key_not_account id : BURN_RATE_KEY <> account_key id.
Proof. done. Qed.

Lemma only_charged_supply s s' op fee :
  accounts_wf s -> op_sender op ∈ ids -> 0 <= fee ->
  only_charged s s' op fee ->
  accounts_wf s' /\ exists burned, 0 <= burned <= fee /\ supply ids s' = supply ids s - burned.
Proof.
  intros Hw Hin Hf [Hk Hl].
  assert (Hother : forall id, id <> op_sender op -> load_account s' id = load_account s id).
  { intros id Hne. unfold load_account. rewrite Hk; [done|]. by intros ?%account_key_inj. }
  destruct (load_account s (op_sender op)) as [[a|]|] eqn:El.
  2,3: assert (Hsame : accounts_same s s') by
    (intros id; destruct (decide (id = op_sender op)) as [->|Hne]; [done|];
     apply Hk; by intros ?%account_key_inj);
    split; [by eapply accounts_wf_same|]; exists 0; split; [lia|];
    rewrite (supply_same s s' ids Hsame); lia.
  destruct Hl as (n & Hn & Hl'). destruct (Hw _ _ El) as (Hid & [? ?] & [? ?]).
  split.
  - intros id x. destruct (decide (id = op_sender op)) as [->|Hne]; [|rewrite Hother by done; apply Hw].
    rewrite Hl'. intros [= <-]. split; [done|]. unfold charged, sat_sub, nonce_after, in_u128, in_u64 in *. simpl. lia.
  - exists (Z.min fee (balance a)). split; [lia|].
    rewrite (supply_change s s' ids
      (fun x => if decide (x = op_sender op) then - Z.min fee (balance a) else 0)).
    + rewrite sum_at_one by done. lia.
    + intros x. unfold balance_of. case_decide as Hx; [|rewrite Hother by done; lia].
      subst x. rewrite Hl', El. unfold charged, sat_sub. simpl. lia.
Qed.

(** The ledger entry of a session is filed under its own prefix. *)
Definition session_key_ok (p : PreparedOp) : Prop :=
  match session_charge p with
  | Some (key, _) => exists owner k, key = session_spent_key owner k
  | None => True
  end.

Lemma check_session_key s op m p : check_session s op m = Ok p -> session_key_ok p.
Proof.
  unfold check_session, rbind. destruct m; try by intros [= <-].
  repeat (destruct (_ <? _) || destruct (_ && _) || destruct (check _)); try done;
    intros [= <-]; unfold session_key_ok; simpl; eauto.
Qed.

Lemma validate_session_key s op height s' p :
  validate_and_prepare cfg s op height = Ok (s', p) -> session_key_ok p.
Proof.
  intros Hv. destruct (is_system_authorized op) eqn:Es.
  - unfold validate_and_prepare in Hv. rewrite Es in Hv.
    destruct (load_account _ _) as [[?|]|]; try done. by injection Hv as <- <-.
  - destruct (validate_signed cfg _ _ _ _ _ Hv Es) as (a & _ & _ & _ & _ & _ & Hc).
    destruct (List.find _ _); [by eapply check_session_key|by subst p].
Qed.

Lemma session_charge_effect s p :
  session_key_ok p ->
  let s' := match session_charge p with
            | Some (key, new_total) => st_put s key (le_bytes 16 new_total)
            | None => s
            end in
  accounts_same s s' /\ st_get s' BURN_RATE_KEY = st_get s BURN_RATE_KEY.
Proof.
  unfold session_key_ok. destruct (session_charge p) as [[key v]|]; [|done].
  intros (owner & k & ->). cbv zeta. split; [intros id|]; by apply get_put_ne.
Qed.

Lemma validate_supply s op height s' p :
  accounts_wf s -> op_sender op ∈ ids -> validate_and_prepare cfg s op height = Ok (s', p) ->
  accounts_wf s' /\ has_account s' (op_sender op) /\ supply ids s' = supply ids s
  /\ (forall k, k <> account_key (op_sender op) -> st_get s' k = st_get s k).
Proof.
  intros Hw Hin Hv. destruct (validate_effect _ _ _ _ _ _ Hw Hv) as (Hw' & Hk & a & n & Hl & Hl' & _).
  split; [done|]. split; [by eexists|]. split; [|done].
  apply sumZ_map_ext. intros id _. unfold balance_of.
  destruct (decide (id = op_sender op)) as [->|Hne]; [by rewrite Hl, Hl'|].
  unfold load_account. rewrite Hk; [done|]. by intros ?%account_key_inj.
Qed.

Lemma run_operation_gas s p op height s' r :
  run_operation debug_str cfg s p op height = (s', r) -> 0 <= r_gas_used r.
Proof.
  unfold run_operation. destruct (reserve_fee s op) as [s1 reserve].
  destruct (run_actions _ _ _ _ _ _ _ _ _) as [[[s2 ev] gas] o] eqn:E.
  apply run_actions_gas in E; [|lia]. destruct o; [by intros [= <- <-]|].
  destruct (settle_fee _ _ _ _ _ _ _). by intros [= <- <-].
Qed.

Lemma failed_fee_nonneg s op height s' r :
  op_ok op -> fees_ok cfg -> execute_operation debug_str cfg s op height = (s', r) ->
  0 <= capped_fee cfg height op (calculate_fee (fee_config cfg) (r_gas_used r)).
Proof.
  intros Ho Hf He. apply capped_fee_nonneg; [done|done|]. unfold execute_operation in He.
  destruct (_ <? _)%nat; [by injection He as <- <-|].
  destruct (find_map _ _); [by injection He as <- <-|].
  destruct (validate_and_prepare cfg s op height) as [[s1 p]|] eqn:Ev; [|by injection He as <- <-].
  by eapply run_operation_gas.
Qed.

(** The reserve, the payments, the settlement and the session ledger. *)
Lemma successful_payments s p op height s' r :
  ledger_ok s -> op_ok op -> fees_ok cfg -> fee_fix_height cfg <= height ->
  op_sender op ∈ ids -> has_account s (op_sender op) -> Forall is_payment (op_actions op) ->
  session_key_ok p -> run_operation debug_str cfg s p op height = (s', r) -> r_success r = true ->
  ledger_ok s' /\ exists burned, 0 <= burned <= op_max_fee op /\ supply ids s' = supply ids s - burned.
Proof.
  intros Hok Ho Hf Hh Hin Ha Hp Hkey Hrun Hr. pose proof Hok as (Hw & Hs & Hb).
  unfold run_operation in Hrun. destruct (reserve_fee s op) as [s1 reserve] eqn:Er.
  destruct (reserve_fee_effect _ _ _ _ Hw Ho Hin Er) as (Hw1 & Hres & Hs1 & Ha1 & Hk1).
  destruct (run_actions _ _ _ _ _ _ _ _ _) as [[[s2 ev] gas] [e|]] eqn:Ea;
    [by injection Hrun as <- <-|].
  pose proof (run_actions_gas _ _ _ _ _ _ _ _ _ _ _ _ _ (Z.le_refl 0) Ea) as Hgas.
  destruct (payments_effect _ _ _ _ _ _ _ _ _ _ _ Hw1 Hin (Ha1 Ha) Hp ltac:(lia) Ea)
    as (Hw2 & Ha2 & Hs2 & Hk2).
  assert (Hburn2 : st_get s2 BURN_RATE_KEY = st_get s BURN_RATE_KEY).
  { rewrite Hk2 by (intros; apply burn_key_not_account). apply Hk1, burn_key_not_account. }
  destruct (settle_fee cfg s2 ev op height gas reserve) as [s3 ev3] eqn:Es.
  assert (Hb2 : 0 <= burn_rate_bps (current_fee_config cfg s2) <= 10000)
    by (unfold current_fee_config in *; by rewrite Hburn2).
  destruct (settle_fee_effect s2 ev op height gas reserve s3 ev3 Hw2 Ho Hf Hgas Hin Hh Hb2 Ha2
    ltac:(lia) ltac:(lia) Es)
    as (Hw3 & (burned & Hbu & Hs3) & Hk3).
  injection Hrun as <- _. destruct (session_charge_effect s3 p Hkey) as (Hsame & Hb4).
  set (s4 := match session_charge p with Some _ => _ | None => _ end) in *.
  assert (Hs4 : supply ids s4 = supply ids s - burned) by (rewrite (supply_same s3); [lia|done]).
  split; [|by exists burned]. apply (ledger_ok_change s _ burned); auto; [|lia|].
  - by eapply accounts_wf_same.
  - rewrite Hb4, Hk3 by apply burn_key_not_account. done.
Qed.

Lemma payments_operation s op height s' r :
  ledger_ok s -> op_ok op -> fees_ok cfg -> fee_fix_height cfg <= height ->
  op_sender op ∈ ids -> Forall is_payment (op_actions op) ->
  execute_operation debug_str cfg s op height = (s', r) ->
  ledger_ok s' /\ exists burned, 0 <= burned <= op_max_fee op /\ supply ids s' = supply ids s - burned.
Proof.
  intros Hok Ho Hf Hh Hin Hp He. pose proof Hok as (Hw & Hs & Hb).
  destruct (r_success r) eqn:Hr.
  - unfold execute_operation in He.
    destruct (_ <? _)%nat; [by injection He as <- <-|].
    destruct (find_map _ _); [by injection He as <- <-|].
    destruct (validate_and_prepare cfg s op height) as [[s1 p]|] eqn:Ev; [|by injection He as <- <-].
    destruct (validate_supply _ _ _ _ _ Hw Hin Ev) as (Hw1 & Ha1 & Hs1 & Hk1).
    assert (Hok1 : ledger_ok s1).
    { apply (ledger_ok_change s s1 0 Hok Hw1 ltac:(lia) ltac:(lia)), Hk1, burn_key_not_account. }
    destruct (successful_payments _ _ _ _ _ _ Hok1 Ho Hf Hh Hin Ha1 Hp
      (validate_session_key _ _ _ _ _ Ev) He Hr)
      as (Hok' & burned & Hbu & Hs'). split; [done|]. exists burned. lia.
  - destruct (failed_operation_effect _ _ _ _ _ _ _ Hw Ho Hf He Hr) as (Hc & _).
    destruct (only_charged_supply _ _ _ _ Hw Hin (failed_fee_nonneg _ _ _ _ _ Ho Hf He) Hc)
      as (Hw' & burned & Hbu & Hs').
    assert (Hcap : capped_fee cfg height op (calculate_fee (fee_config cfg) (r_gas_used r))
                   <= op_max_fee op).
    { unfold capped_fee. rewrite (proj2 (Z.leb_le _ _) Hh). lia. }
    split; [|exists burned; lia].
    apply (ledger_ok_change s s' burned Hok Hw' ltac:(lia) Hs'), Hc, burn_key_not_account.
Qed.
End conservation.

(** ** Deployment *)

Section deployment.
Context {S : Type} `{!StateStore S} `{!StateStoreLaws S} `{!Codec Account} `{!CodecLaws Account}
        {crypto : Crypto}.
Implicit Types s : S.

(** A deployment stores the code under its hash and creates the contract at
    the address derived from sender, salt and code hash, with the sender's
    authentication methods, nonce 0 and balance 0; no contract was there
    before, and no other key changes. The balance of an account without code
    at that address, funded ahead of the deployment, is not kept. *)
Theorem deploy_sound s events sender code salt s' events' gas :
  execute_deploy s events sender code salt = (s', events', Ok gas) ->
  let hash := blake3 code in
  let new_id := blake3 (sender ++ salt ++ hash) in
  (exists methods, load_account s' new_id = Ok (Some (mkAccount new_id hash methods 0 0))
     /\ forall a, load_account s sender = Ok (Some a) -> methods = auth_methods a)
  /\ load_bytecode s' hash = Some code /\ Z.of_nat (length code) <= MAX_CODE_SIZE
  /\ (forall a, load_account s new_id = Ok (Some a) -> code_hash a = zero_hash)
  /\ balance_of s' new_id = 0
  /\ (forall k, k <> account_key new_id -> k <> bytecode_key hash -> st_get s' k = st_get s k).
Proof.
  unfold execute_deploy, store_bytecode. destruct (Z.ltb_spec MAX_CODE_SIZE (Z.of_nat (length code)));
    [done|]. cbv zeta. set (hash := blake3 code). set (new_id := blake3 (sender ++ salt ++ hash)).
  set (s1 := st_put s (bytecode_key hash) code).
  assert (Hl1 : forall id, load_account s1 id = load_account s id).
  { intros id. unfold load_account, s1. by rewrite get_put_ne. }
  rewrite !Hl1.
  set (col := match load_account s new_id with
              | Ok (Some ex) => negb (bytes_eqb (code_hash ex) zero_hash) | _ => false end).
  set (ms := match load_account s sender with Ok (Some a) => auth_methods a | _ => [] end).
  destruct col eqn:Ec; [done|]. rewrite save_or_keep_eq. intros [= <- _ _].
  set (c := mkAccount new_id hash ms 0 0).
  assert (Hc : load_account (save_account_or_keep s1 c) new_id = Ok (Some c)).
  { rewrite load_save_account. by rewrite decide_True. }
  split; [|split; [|split; [|split; [|split]]]].
  - exists ms. split; [done|]. intros a Ha. unfold ms. by rewrite Ha.
  - unfold load_bytecode. rewrite get_save_account by done. apply get_put_eq.
  - done.
  - intros a Ha. unfold col in Ec. rewrite Ha in Ec. apply negb_false_iff in Ec.
    by apply bytes_eqb_true in Ec.
  - unfold balance_of. by rewrite Hc.
  - intros k Hk1 Hk2. rewrite get_save_account by done. unfold s1. by apply get_put_ne.
Qed.
End deployment.

(** ** Examples

    The stand-in machine runs out of gas on the bytecode [[1]] and does nothing
    on any other. *)
#[export] Instance toy_vm : Vm := {|
  validate_bytecode code := None;
  vm_execute hash code input ctx fuel :=
    if bytes_eqb code [1] then Err OutOfGas else Ok (mkVmResult 7 (hc_storage ctx) [] [] []);
|}.

#[export] Instance demo_system_codecs : SystemCodecs := {|
  sc_staking := _; sc_governance := _; sc_vesting := _; sc_guardian := _; sc_bridge := _;
  sc_treasury := _; sc_auth := _; sc_ids := _; sc_reg := _; sc_batch := _;
|}.

Definition no_debug (s : string) : string := s.
Definition fixed_config : ExecConfig := mkExecConfig fee_config_default 0 0 u64_max u64_max.

(** Account 7 is a contract whose code runs out of gas. *)
Definition exec_store : MemoryStore :=
  st_put (demo_ledger [sess_account; demo_account 2 5; mkAccount (demo_key 7) [1] [] 0 0])
    (bytecode_key [1]) [1].

Lemma exec_store_wf : accounts_wf exec_store.
Proof.
  apply (accounts_wf_same (demo_ledger [sess_account; demo_account 2 5;
    mkAccount (demo_key 7) [1] [] 0 0])); [|solve_ledger_wf].
  intros id. by apply get_put_ne.
Qed.

Lemma failed_operation_atomic_witness :
  let op := sess_op 1 [Transfer (demo_key 2) 30; Transfer (demo_key 2) 1000000] in
  let s' := fst (execute_operation no_debug fixed_config exec_store op 9) in
  balance_of s' (demo_key 2) = 5 /\ balance_of s' (demo_key 1) = 199900.
Proof.
  intros op s'.
  assert (Hr : r_success (snd (execute_operation no_debug fixed_config exec_store op 9)) = false)
    by (vm_compute; reflexivity).
  assert (Hg : r_gas_used (snd (execute_operation no_debug fixed_config exec_store op 9)) = 100)
    by (vm_compute; reflexivity).
  unfold s'. destruct (execute_operation no_debug fixed_config exec_store op 9) as [s1 r] eqn:E.
  cbn [fst snd] in *.
  destruct (failed_operation_atomic no_debug fixed_config exec_store op 9 s1 r exec_store_wf)
    as (Hk & Hl & _); [by vm_compute|by vm_compute|exact E|exact Hr|].
  split.
  - unfold balance_of, load_account. rewrite Hk by discriminate. by vm_compute.
  - destruct (Hl sess_account) as (n & _ & Hn); [by vm_compute|]. rewrite Hg in Hn.
    unfold balance_of. change (op_sender op) with (demo_key 1) in Hn. rewrite Hn. by vm_compute.
Defined.

Lemma failed_call_free_witness :
  let op := sess_op 1 [Call (demo_key 7) "run" []] in
  let s' := fst (execute_operation no_debug fixed_config exec_store op 9) in
  r_gas_used (snd (execute_operation no_debug fixed_config exec_store op 9)) = 0
  /\ balance_of s' (demo_key 1) = balance_of exec_store (demo_key 1).
Proof.
  intros op s'.
  assert (Hr : r_success (snd (execute_operation no_debug fixed_config exec_store op 9)) = false)
    by (vm_compute; reflexivity).
  unfold s'. destruct (execute_operation no_debug fixed_config exec_store op 9) as [s1 r] eqn:E.
  cbn [fst snd] in *.
  exact (failed_call_free no_debug fixed_config exec_store op 9 s1 r (demo_key 7) "run" []
    exec_store_wf ltac:(by vm_compute) ltac:(by vm_compute) eq_refl eq_refl E Hr).
Defined.

(** The address of the deployment already holds 500. *)
Definition deploy_target : AccountId := Eval vm_compute in blake3 (demo_key 1 ++ [3] ++ blake3 [8; 8]).
Definition deploy_store : MemoryStore :=
  demo_ledger [sess_account; mkAccount deploy_target zero_hash [] 0 500].

Lemma deploy_sound_witness :
  balance_of deploy_store deploy_target = 500
  /\ balance_of (fst (fst (execute_deploy deploy_store [] (demo_key 1) [8; 8] [3]))) deploy_target = 0.
Proof.
  split; [by vm_compute|].
  assert (Hr : snd (execute_deploy deploy_store [] (demo_key 1) [8; 8] [3]) = Ok 1000)
    by (vm_compute; reflexivity).
  destruct (execute_deploy deploy_store [] (demo_key 1) [8; 8] [3]) as [[s' ev] r] eqn:E.
  cbn [fst snd] in *. subst r.
  exact (proj1 (proj2 (proj2 (proj2 (proj2 (deploy_sound _ _ _ _ _ _ _ _ E)))))).
Defined.
