(* ===== verification/Blocks.v ===== *)
(** Blocks ([crates/solen-execution/src/executor.rs]): sequential execution and
    execution with signatures checked beforehand, staging in an overlay, atomic
    commits with their reverse delta, the durable undo record, and commits that
    are kept only if the state root is the expected one. *)

From S2P Require Import Prelude Types Store Memory Overlay Staking Treasury Codec State SysCommon.
From S2P Require Import SystemCalls Fees Auth Session Rewards Executor.
Open Scope Z_scope.

Record BlockResult : Type := mkBlockResult {
  br_state_root : Hash;
  br_receipts : list ExecutionReceipt;
  br_gas_used : u64;
}.

Definition with_auth_method (name : string) (r : ExecutionReceipt) : ExecutionReceipt :=
  mkReceipt (r_sender r) (r_nonce r) (r_success r) (r_gas_used r) (r_error r) (r_events r) name.

Section execution.
Context {S : Type} `{!StateStore S} `{!Codec Account} `{!Codec (list Action)} `{!SystemCodecs}
        {crypto : Crypto} {vm : Vm} (debug_str : string -> string) (cfg : ExecConfig).

(** The loop of [execute_block_sequential]: the receipts in order and the gas. *)
Fixpoint execute_operations (s : S) (receipts : list ExecutionReceipt) (total_gas : u64)
    (ops : list UserOperation) (height : u64) : S * list ExecutionReceipt * u64 :=
  match ops with
  | [] => (s, receipts, total_gas)
  | op :: ops =>
    let '(s, receipt) := execute_operation debug_str cfg s op height in
    execute_operations s (receipts ++ [receipt]) (u64_add total_gas (r_gas_used receipt)) ops height
  end.

Definition finish_block (x : S * list ExecutionReceipt * u64) : S * BlockResult :=
  let '(s, receipts, total_gas) := x in
  (st_commit_root s, mkBlockResult (st_state_root s) receipts total_gas).

Definition execute_block_sequential (s : S) (ops : list UserOperation) (height : u64) :
    S * BlockResult :=
  finish_block (execute_operations s [] 0 ops height).

(** The first phases of [execute_block_parallel], on the state before the
    block: the name of the method that verifies, if there is one. *)
Definition prevalidate (s : S) (op : UserOperation) (height : u64) : option string :=
  if is_system_authorized op then Some "system"%string
  else
  match st_get s (account_key (op_sender op)) ≫= de with
  | None => None
  | Some a =>
    if bool_decide (auth_methods a = []) then None
    else find_map (fun m => verify_auth m (operation_signing_message cfg op) (op_signature op)
                              (pq_auth_height cfg <=? height)) (auth_methods a)
  end.

Definition unverified_receipt (op : UserOperation) : ExecutionReceipt :=
  mkReceipt (op_sender op) (op_nonce op) false 0 (Some "signature verification failed"%string) []
    "none".

(** The last phase: each operation with its validation. *)
Fixpoint execute_validated (s : S) (receipts : list ExecutionReceipt) (total_gas : u64)
    (ops : list (UserOperation * option string)) (height : u64) :
    S * list ExecutionReceipt * u64 :=
  match ops with
  | [] => (s, receipts, total_gas)
  | (op, None) :: ops =>
    execute_validated s (receipts ++ [unverified_receipt op]) total_gas ops height
  | (op, Some name) :: ops =>
    let '(s, receipt) := execute_operation debug_str cfg s op height in
    execute_validated s (receipts ++ [with_auth_method name receipt])
      (u64_add total_gas (r_gas_used receipt)) ops height
  end.

Definition execute_block_parallel (s : S) (ops : list UserOperation) (height : u64) :
    S * BlockResult :=
  finish_block
    (execute_validated s [] 0 (map (fun op => (op, prevalidate s op height)) ops) height).

Definition PARALLEL_THRESHOLD : nat := Z.to_nat 200.
End execution.

Definition EAGER_REVERT_PREFIX : bytes := Eval vm_compute in bytes_of_string "__eager_revert__/".
Definition eager_revert_key (height : u64) : bytes :=
  EAGER_REVERT_PREFIX ++ rev (le_bytes 8 height).

Section blocks.
Context {S : Type} `{!StateStore S} `{!Codec Account} `{!Codec (list Action)} `{!SystemCodecs}
        `{!Codec EpochRandomness} `{!Codec (list (bytes * option bytes))}
        {crypto : Crypto} {vm : Vm} (debug_str : string -> string) (cfg : ExecConfig).

(** [stage_block]: the block runs in an overlay of [store]. *)
Definition stage_overlay (store : S) (ops : list UserOperation) (height : u64) :
    OverlayStore store * BlockResult :=
  let overlay := ov_new (base := store) in
  let '(overlay, result) :=
    if (PARALLEL_THRESHOLD <=? length ops)%nat
    then execute_block_parallel debug_str cfg overlay ops height
    else execute_block_sequential debug_str cfg overlay ops height in
  let '(overlay, receipts) :=
    if (0 <? height) && (height mod 100 =? 0) then distribute_epoch_rewards overlay height
    else (overlay, []) in
  let result := mkBlockResult (br_state_root result) (br_receipts result ++ receipts)
                  (br_gas_used result) in
  let overlay :=
    if epoch_randomness_height cfg <=? height
    then randomness_save (mix_block blake3 (st_state_root store) height (randomness_load overlay))
           overlay
    else overlay in
  (overlay, result).

Definition stage_block (store : S) (ops : list UserOperation) (height : u64) :
    BlockResult * Changes :=
  let '(overlay, result) := stage_overlay store ops height in
  (result, ov_into_changes overlay).

Definition with_root (r : BlockResult) (root : Hash) : BlockResult :=
  mkBlockResult root (br_receipts r) (br_gas_used r).

Definition execute_block_with_height (s : S) (ops : list UserOperation) (height : u64) :
    S * BlockResult :=
  let '(result, changes) := stage_block s ops height in
  let s := apply_batch changes s in
  (st_commit_root s, with_root result (st_state_root s)).

Definition execute_block (s : S) (ops : list UserOperation) : S * BlockResult :=
  execute_block_with_height s ops 0.

(** The value of every touched key before the commit. *)
Definition reverse_delta (s : S) (changes : Changes) : Changes :=
  map_imap (fun k _ => Some (st_get s k)) changes.

Definition commit_capturing_revert (s : S) (changes : Changes) : S * Changes :=
  (apply_batch changes s, reverse_delta s changes).

Definition execute_block_journaled (s : S) (ops : list UserOperation) (height : u64) :
    S * (BlockResult * Changes) :=
  let '(result, changes) := stage_block s ops height in
  let '(s, revert) := commit_capturing_revert s changes in
  (st_commit_root s, (with_root result (st_state_root s), revert)).

Definition execute_block_journaled_durable (s : S) (ops : list UserOperation) (height : u64) :
    S * (BlockResult * Changes) :=
  let '(result, changes) := stage_block s ops height in
  let rk := eager_revert_key height in
  let revert := <[rk := None]> (reverse_delta s changes) in
  let encoded := default [] (ser (btree_entries revert)) in
  let s := apply_batch (<[rk := Some encoded]> changes) s in
  (st_commit_root s, (with_root result (st_state_root s), revert)).

Definition decode_eager_revert (b : bytes) : option Changes :=
  pairs ← de b;
  Some (fold_left (fun (m : Changes) kv => <[fst kv := snd kv]> m) pairs ∅).

Definition execute_block_checked (s : S) (ops : list UserOperation) (height : u64)
    (expected_root : Hash) : S * option (BlockResult * Changes) :=
  let '(result, changes) := stage_block s ops height in
  let '(s, revert) := commit_capturing_revert s changes in
  let result := with_root result (st_state_root s) in
  if bytes_eqb (br_state_root result) expected_root
  then (st_commit_root s, Some (result, revert))
  else (st_commit_root (apply_batch revert s), None).

Definition simulate (store : S) (op : UserOperation) (height : u64) : ExecutionReceipt :=
  snd (execute_operation debug_str cfg (ov_new (base := store)) op height).
End blocks.

(** ** Sequential and parallel execution *)

Section parallel.
Context {S : Type} `{!StateStore S} `{!Codec Account} `{!Codec (list Action)} `{!SystemCodecs}
        {crypto : Crypto} {vm : Vm} (debug_str : string -> string) (cfg : ExecConfig).
Implicit Types s : S.

Lemma execute_operation_label s op height :
  with_auth_method "ed25519" (snd (execute_operation debug_str cfg s op height))
  = snd (execute_operation debug_str cfg s op height).
Proof.
  unfold execute_operation. destruct (_ <? _)%nat; [done|]. destruct (find_map _ _); [done|].
  destruct (validate_and_prepare _ _ _ _) as [[s1 p]|]; [|done].
  unfold run_operation. destruct (reserve_fee s1 op) as [s2 reserve].
  destruct (run_actions _ _ _ _ _ _ _ _ _) as [[[s3 ev] gas] [e|]]; [done|].
  by destruct (settle_fee _ _ _ _ _ _ _).
Qed.

Definition relabel : list ExecutionReceipt -> list ExecutionReceipt :=
  map (with_auth_method "ed25519").

Lemma relabel_app l1 l2 : relabel (l1 ++ l2) = relabel l1 ++ relabel l2.
Proof. apply map_app. Qed.

Definition verified_ops (l : list (UserOperation * option string)) : list UserOperation :=
  map fst (List.filter (fun x => bool_decide (is_Some (snd x))) l).

(** The last phase is the sequential loop over the verified operations. *)
Lemma execute_validated_spec l s r1 r2 gas height :
  let '(s1, rs1, g1) := execute_validated debug_str cfg s r1 gas l height in
  let '(s2, rs2, g2) := execute_operations debug_str cfg s r2 gas (verified_ops l) height in
  s1 = s2 /\ g1 = g2
  /\ (Forall (fun x => is_Some (snd x)) l -> relabel r1 = r2 -> relabel rs1 = rs2).
Proof.
  revert s r1 r2 gas. induction l as [|[op [name|]] l IH]; intros s r1 r2 gas; [done| |].
  - change (verified_ops ((op, Some name) :: l)) with (op :: verified_ops l). simpl.
    pose proof (execute_operation_label s op height) as Hl.
    destruct (execute_operation debug_str cfg s op height) as [s1 r]. cbn [snd] in Hl.
    specialize (IH s1 (r1 ++ [with_auth_method name r]) (r2 ++ [r]) (u64_add gas (r_gas_used r))).
    destruct (execute_validated _ _ _ _ _ _ _) as [[s2 rs1] g1].
    destruct (execute_operations _ _ _ _ _ _ _) as [[s3 rs2] g2].
    destruct IH as (-> & -> & Hr). split; [done|]. split; [done|].
    intros [_ Hv]%Forall_cons Hr12. apply Hr; [done|]. rewrite relabel_app, Hr12. by rewrite <- Hl at 2.
  - change (verified_ops ((op, None) :: l)) with (verified_ops l). simpl.
    specialize (IH s (r1 ++ [unverified_receipt op]) r2 gas).
    destruct (execute_validated _ _ _ _ _ _ _) as [[s2 rs1] g1].
    destruct (execute_operations _ _ _ _ _ _ _) as [[s3 rs2] g2].
    destruct IH as (-> & -> & Hr). split; [done|]. split; [done|].
    intros [[? Hx] _]%Forall_cons. discriminate.
Qed.

Lemma verified_ops_filter (f : UserOperation -> option string) ops :
  verified_ops (map (fun op => (op, f op)) ops)
  = List.filter (fun op => bool_decide (is_Some (f op))) ops.
Proof.
  unfold verified_ops. induction ops as [|op ops IH]; simpl; [done|].
  case_bool_decide; simpl; by rewrite IH.
Qed.

(** C17: checking the signatures of a block beforehand, on the state before it,
    changes nothing but which operations run: the store, the root and the gas
    are those of the sequential execution of the operations that verified, in
    their order; and when all of them verified the receipts are the same but
    for the name of the method. *)
Theorem parallel_is_sequential s ops height :
  let verified := List.filter (fun op => bool_decide (is_Some (prevalidate cfg s op height))) ops in
  let par := execute_block_parallel debug_str cfg s ops height in
  let seq := execute_block_sequential debug_str cfg s verified height in
  fst par = fst seq /\ br_state_root (snd par) = br_state_root (snd seq)
  /\ br_gas_used (snd par) = br_gas_used (snd seq)
  /\ (verified = ops -> relabel (br_receipts (snd par)) = br_receipts (snd seq)).
Proof.
  intros verified par seq.
  set (l := map (fun op => (op, prevalidate cfg s op height)) ops).
  assert (Hv : verified_ops l = verified) by apply verified_ops_filter.
  pose proof (execute_validated_spec l s [] [] 0 height) as H1. rewrite Hv in H1.
  unfold par, seq, execute_block_parallel, execute_block_sequential. fold l.
  destruct (execute_validated _ _ _ _ _ _ _) as [[s1 rs1] g1].
  destruct (execute_operations _ _ _ _ _ _ _) as [[s2 rs2] g2].
  destruct H1 as (-> & -> & Hr). simpl. split; [done|]. split; [done|]. split; [done|].
  intros Heq. apply Hr; [|done]. unfold l. apply Forall_map, Forall_forall. intros op Hop. simpl.
  rewrite <- Heq in Hop. unfold verified in Hop.
  apply list_elem_of_In, List.filter_In in Hop as [_ Hop]. by apply bool_decide_eq_true in Hop.
Qed.
End parallel.

(** ** Commits and their reverse delta *)

Section commits.
Context {S : Type} `{!StateStore S} `{!StateStoreLaws S} `{!Codec Account}
        `{!Codec (list Action)} `{!SystemCodecs} `{!Codec EpochRandomness}
        `{!Codec (list (bytes * option bytes))}
        {crypto : Crypto} {vm : Vm} (debug_str : string -> string) (cfg : ExecConfig).
Implicit Types s : S.

Lemma reverse_delta_lookup s changes k :
  reverse_delta s changes !! k = (fun _ => st_get s k) <$> changes !! k.
Proof. unfold reverse_delta. rewrite map_lookup_imap. by destruct (changes !! k). Qed.

(** Applying the reverse delta after the changes restores the bindings. *)
Lemma revert_restores s changes :
  store_eq (apply_batch (reverse_delta s changes) (apply_batch changes s)) s.
Proof.
  intros k. rewrite !get_apply_batch, reverse_delta_lookup. by destruct (changes !! k).
Qed.

Lemma commit_root_eq s : store_eq (st_commit_root s) s.
Proof. intros k. apply get_commit_root. Qed.

(** A checked block: committed with its undo, or without a trace. *)
Lemma checked_block_spec s ops height expected :
  let '(s', o) := execute_block_checked debug_str cfg s ops height expected in
  let '(result, changes) := stage_block debug_str cfg s ops height in
  let root := st_state_root (apply_batch changes s) in
  match o with
  | Some (result', revert) => root = expected /\ result' = with_root result expected
      /\ store_eq s' (fst (stage_overlay debug_str cfg s ops height))
      /\ store_eq (apply_batch revert s') s
  | None => root <> expected /\ store_eq s' s
  end.
Proof.
  unfold execute_block_checked, stage_block.
  destruct (stage_overlay debug_str cfg s ops height) as [overlay result] eqn:Eo. simpl.
  set (changes := ov_into_changes overlay). destruct (bytes_eqb _ expected) eqn:E.
  - apply bytes_eqb_true in E. split; [done|]. split; [by rewrite E|]. split.
    + intros k. rewrite get_commit_root. apply (commit_changes_eq s overlay).
    + intros k. rewrite <- (revert_restores s changes k), !get_apply_batch, get_commit_root.
      by rewrite !get_apply_batch.
  - apply bytes_eqb_false in E. split; [done|]. intros k. rewrite get_commit_root.
    apply revert_restores.
Qed.

(** C8: a block is applied on trust of its root only: if the store after the
    block has the expected root, the block is committed, the store answers
    what the staged overlay answered, and the journal entry returned undoes it
    exactly; if it has another root, the store is left with the bindings it had
    before the block. *)
Theorem checked_block_atomic s ops height expected :
  let '(s', o) := execute_block_checked debug_str cfg s ops height expected in
  let '(result, changes) := stage_block debug_str cfg s ops height in
  let root := st_state_root (apply_batch changes s) in
  match o with
  | Some (result', revert) => root = expected /\ result' = with_root result expected
      /\ store_eq s' (fst (stage_overlay debug_str cfg s ops height))
      /\ store_eq (apply_batch revert s') s
  | None => root <> expected /\ store_eq s' s
  end.
Proof. apply checked_block_spec. Qed.

(** *** The durable undo record *)

Lemma fold_insert_map (l : list (bytes * option bytes)) (m : Changes) :
  NoDup (map fst l) ->
  fold_left (fun (m : Changes) kv => <[fst kv := snd kv]> m) l m = list_to_map l ∪ m.
Proof.
  revert m. induction l as [|[k v] l IH]; intros m; simpl; [by rewrite map_empty_union|].
  intros [Hk Hl]%NoDup_cons. rewrite IH by done. rewrite <- insert_union_l.
  rewrite insert_union_r; [done|]. by apply not_elem_of_list_to_map_1.
Qed.

Lemma decode_encode_revert `{!CodecLaws (list (bytes * option bytes))} (revert : Changes) :
  decode_eager_revert (default [] (ser (btree_entries revert))) = Some revert.
Proof.
  destruct (ser_de (btree_entries revert)) as (b & -> & Hb). unfold decode_eager_revert. simpl.
  rewrite Hb. simpl. rewrite fold_insert_map by apply btree_entries_NoDup.
  by rewrite map_union_empty, btree_entries_map.
Qed.

(** An eager commit and its undo record. *)
Lemma durable_revert_spec `{!CodecLaws (list (bytes * option bytes))} s ops height :
  let '(s', (_, revert)) := execute_block_journaled_durable debug_str cfg s ops height in
  let rk := eager_revert_key height in
  (exists record, st_get s' rk = Some record /\ decode_eager_revert record = Some revert)
  /\ st_get (apply_batch revert s') rk = None
  /\ (forall k, k <> rk -> st_get (apply_batch revert s') k = st_get s k
        /\ st_get s' k = st_get (fst (execute_block_journaled debug_str cfg s ops height)) k).
Proof.
  unfold execute_block_journaled_durable, execute_block_journaled, commit_capturing_revert.
  destruct (stage_block debug_str cfg s ops height) as [result changes]. simpl.
  set (rk := eager_revert_key height). set (revert := <[rk := None]> (reverse_delta s changes)).
  split; [|split].
  - eexists. split; [|apply decode_encode_revert].
    by rewrite get_commit_root, get_apply_batch, lookup_insert_eq.
  - unfold revert. by rewrite get_apply_batch, lookup_insert_eq.
  - intros k Hk. rewrite !get_commit_root, !get_apply_batch. unfold revert.
    rewrite !lookup_insert_ne by done. rewrite reverse_delta_lookup, get_commit_root, get_apply_batch.
    rewrite lookup_insert_ne by done. by destruct (changes !! k).
Qed.

(** A block committed eagerly carries its own undo: in the store the block
    leaves, the record filed under the height of the block decodes to the
    reverse delta, applying that delta restores every key and removes the
    record, and apart from the record the store is the one the block leaves
    when it is committed without it. *)
Theorem durable_revert_roundtrip `{!CodecLaws (list (bytes * option bytes))} s ops height :
  let '(s', (_, revert)) := execute_block_journaled_durable debug_str cfg s ops height in
  let rk := eager_revert_key height in
  (exists record, st_get s' rk = Some record /\ decode_eager_revert record = Some revert)
  /\ st_get (apply_batch revert s') rk = None
  /\ (forall k, k <> rk -> st_get (apply_batch revert s') k = st_get s k
        /\ st_get s' k = st_get (fst (execute_block_journaled debug_str cfg s ops height)) k).
Proof. apply durable_revert_spec. Qed.
End commits.

(** The record is not part of the state. *)
Section undo_record.
Context `{!Codec Account} `{!Codec (list Action)} `{!SystemCodecs} `{!Codec EpochRandomness}
        `{!Codec (list (bytes * option bytes))}
        {crypto : Crypto} {vm : Vm} (debug_str : string -> string) (cfg : ExecConfig).
#[local] Instance node_store : StateStore MemoryStore := memory_store blake3.
#[local] Instance node_store_laws : StateStoreLaws MemoryStore := mem_laws blake3.

Lemma apply_batch_reachable (changes : Changes) (s : MemoryStore) :
  mem_reachable blake3 s -> mem_reachable blake3 (apply_batch changes s).
Proof.
  intros Hs. unfold apply_batch. apply (map_fold_weak_ind (fun r _ => mem_reachable blake3 r)); [done|].
  intros k [v|] m r _ Hr; simpl; by constructor.
Qed.

Lemma eager_key_not_state height : is_non_state_key (eager_revert_key height) = true.
Proof. unfold is_non_state_key, eager_revert_key. simpl. done. Qed.

(** Carrying an undo record does not change consensus: on every store a node
    can hold, a block committed with its durable undo record has the state
    root it has without. *)
Theorem undo_record_outside_root (s : MemoryStore) ops height :
  mem_reachable blake3 s ->
  br_state_root (fst (snd (execute_block_journaled_durable debug_str cfg s ops height)))
  = br_state_root (fst (snd (execute_block_journaled debug_str cfg s ops height))).
Proof.
  intros Hs. unfold execute_block_journaled_durable, execute_block_journaled, commit_capturing_revert.
  destruct (stage_block debug_str cfg s ops height) as [result changes]. simpl.
  apply mem_root_agree; [by apply apply_batch_reachable..|]. intros k Hk.
  pose proof (get_apply_batch (S := MemoryStore)) as Hget. simpl in Hget. rewrite !Hget.
  rewrite lookup_insert_ne; [done|]. intros <-. by rewrite eager_key_not_state in Hk.
Qed.
End undo_record.

(** ** The supply over a block of payments *)

Section block_supply.
Context {S : Type} `{!StateStore S} `{!StateStoreLaws S} `{!Codec Account} `{!CodecLaws Account}
        `{!Codec (list Action)} `{!SystemCodecs} `{!Codec EpochRandomness}
        {crypto : Crypto} {vm : Vm} (debug_str : string -> string) (cfg : ExecConfig)
        (ids : list AccountId).
Implicit Types s : S.

Definition payment_op (op : UserOperation) : Prop :=
  op_ok op /\ op_sender op ∈ ids /\ Forall (is_payment ids) (op_actions op).

Definition fee_limits (ops : list UserOperation) : Z := sumZ (map op_max_fee ops).

Lemma fee_limits_filter (p : UserOperation -> bool) ops :
  Forall payment_op ops -> 0 <= fee_limits (List.filter p ops) <= fee_limits ops.
Proof.
  unfold fee_limits. induction 1 as [|op ops [Hop _] _ IH]; simpl; [lia|].
  unfold op_ok in Hop. destruct (p op); simpl; lia.
Qed.

Context (ids_nodup : NoDup ids) (treasury_in : treasury_account (fee_config cfg) ∈ ids)
        (fees_fine : fees_ok cfg).

Lemma payments_loop ops height : fee_fix_height cfg <= height ->
  forall s receipts gas s' receipts' gas',
  ledger_ok cfg ids s -> Forall payment_op ops ->
  execute_operations debug_str cfg s receipts gas ops height = (s', receipts', gas') ->
  ledger_ok cfg ids s'
  /\ exists burned, 0 <= burned <= fee_limits ops /\ supply ids s' = supply ids s - burned.
Proof.
  intros Hh. induction ops as [|op ops IH]; intros s receipts gas s' receipts' gas' Hok Hp; simpl.
  - intros [= <- _ _]. split; [done|]. exists 0. unfold fee_limits. simpl. lia.
  - apply Forall_cons in Hp as [(Ho & Hin & Hpay) Hp].
    destruct (execute_operation debug_str cfg s op height) as [s1 r] eqn:E. intros Hr.
    destruct (payments_operation debug_str cfg ids ids_nodup treasury_in s op height s1 r
      Hok Ho fees_fine Hh Hin Hpay E) as (Hok1 & b1 & Hb1 & Hs1).
    destruct (IH _ _ _ _ _ _ Hok1 Hp Hr) as (Hok2 & b2 & Hb2 & Hs2).
    split; [done|]. exists (b1 + b2). unfold fee_limits in *. simpl. lia.
Qed.

(** Either way of executing the operations. *)
Lemma payments_execution s ops height s' result : fee_fix_height cfg <= height ->
  ledger_ok cfg ids s -> Forall payment_op ops ->
  (if (PARALLEL_THRESHOLD <=? length ops)%nat then execute_block_parallel debug_str cfg s ops height
   else execute_block_sequential debug_str cfg s ops height) = (s', result) ->
  exists burned, 0 <= burned <= fee_limits ops /\ supply ids s' = supply ids s - burned.
Proof.
  intros Hh Hok Hp. destruct (_ <=? _)%nat.
  - unfold execute_block_parallel.
    pose proof (execute_validated_spec debug_str cfg
      (map (fun op => (op, prevalidate cfg s op height)) ops) s [] [] 0 height) as Hv.
    destruct (execute_validated _ _ _ _ _ _ _) as [[s1 rs1] g1].
    destruct (execute_operations _ _ _ _ _ _ _) as [[s2 rs2] g2] eqn:E.
    destruct Hv as (-> & _ & _). intros [= <- _]. rewrite verified_ops_filter in E.
    set (p := fun op => bool_decide (is_Some (prevalidate cfg s op height))) in E.
    assert (Hpf : Forall payment_op (List.filter p ops)).
    { apply Forall_forall. intros op [Hop _]%list_elem_of_In%List.filter_In.
      apply (proj1 (Forall_forall _ _) Hp). by apply list_elem_of_In. }
    destruct (payments_loop _ _ Hh _ _ _ _ _ _ Hok Hpf E) as (_ & b & Hb & Hs).
    pose proof (fee_limits_filter p ops Hp). exists b.
    rewrite (supply_store_eq _ _ ids (commit_root_eq s2)). lia.
  - unfold execute_block_sequential.
    destruct (execute_operations _ _ _ _ _ _ _) as [[s1 rs] g] eqn:E. intros [= <- _].
    destruct (payments_loop _ _ Hh _ _ _ _ _ _ Hok Hp E) as (_ & b & Hb & Hs).
    exists b. rewrite (supply_store_eq _ _ ids (commit_root_eq s1)). lia.
Qed.
End block_supply.

Section block_conserves.
Context {S : Type} `{!StateStore S} `{!StateStoreLaws S} `{!Codec Account} `{!CodecLaws Account}
        `{!Codec (list Action)} `{!SystemCodecs} `{!Codec EpochRandomness}
        {crypto : Crypto} {vm : Vm} (debug_str : string -> string) (cfg : ExecConfig)
        (ids : list AccountId).
Implicit Types s : S.

Lemma ledger_ok_overlay s : ledger_ok cfg ids s -> ledger_ok cfg ids (ov_new (base := s)).
Proof.
  pose proof (ov_new_eq s) as He. intros (Hw & Hs & Hb). split; [|split].
  - apply (accounts_wf_store_eq s); [|done]. intros k. by rewrite He.
  - by rewrite (supply_store_eq _ _ ids He).
  - unfold current_fee_config in *. by rewrite (He BURN_RATE_KEY).
Qed.

(** C4: a block of payments creates no tokens: executed and committed at a height
    where the fee fix is active and no rewards are due, whichever of its
    operations succeed, fail or are rejected, and whether signatures are
    checked beforehand or not, the total over any set of accounts that
    contains senders, recipients and the treasury only loses what is burned,
    at most the fees the senders signed for. *)
Theorem payments_block_conserves s ops height s' result :
  NoDup ids -> treasury_account (fee_config cfg) ∈ ids -> fees_ok cfg -> ledger_ok cfg ids s ->
  fee_fix_height cfg <= height -> height mod 100 <> 0 -> Forall (payment_op ids) ops ->
  execute_block_with_height debug_str cfg s ops height = (s', result) ->
  exists burned, 0 <= burned <= fee_limits ops /\ supply ids s' = supply ids s - burned.
Proof.
  intros Hn Ht Hf Hok Hh Hm Hp He. unfold execute_block_with_height, stage_block in He.
  destruct (stage_overlay debug_str cfg s ops height) as [overlay r] eqn:Eo. injection He as <- _.
  rewrite (supply_store_eq _ _ ids (commit_root_eq _)).
  rewrite (supply_store_eq _ _ ids (commit_changes_eq s overlay)).
  unfold stage_overlay in Eo. rewrite (proj2 (Z.eqb_neq _ _) Hm), andb_false_r in Eo.
  destruct (if (_ <=? length ops)%nat then _ else _) as [o1 r1] eqn:E1.
  destruct (payments_execution debug_str cfg ids Hn Ht Hf _ _ _ _ _ Hh (ledger_ok_overlay s Hok) Hp E1)
    as (b & Hb & Hs). exists b. split; [done|].
  rewrite (supply_store_eq _ _ ids (ov_new_eq s)) in Hs. rewrite <- Hs.
  injection Eo as <- _. destruct (_ <=? _); [|done]. apply supply_same. intros id.
  by apply get_save_ne.
Qed.
End block_conserves.

(** ** Examples *)

(** One payment that succeeds and one that fails. *)
Definition block_store : MemoryStore :=
  demo_ledger [sess_account; demo_account 2 5; mkAccount FEE_TREASURY_ADDRESS zero_hash [] 0 0].
Definition block_ops : list UserOperation :=
  [sess_op 1 [Transfer (demo_key 2) 70];
   mkUserOperation (demo_key 1) 5 [Transfer (demo_key 2) 1000000] 1000 (replicate 64 1)].
Definition block_ids : list AccountId := [demo_key 1; demo_key 2; FEE_TREASURY_ADDRESS].

Lemma block_store_ok : ledger_ok fixed_config block_ids block_store.
Proof. split; [solve_ledger_wf|]. by vm_compute. Qed.

Lemma payments_block_conserves_witness :
  exists burned, 0 <= burned <= 2000
    /\ supply block_ids (fst (execute_block_with_height no_debug fixed_config block_store block_ops 7))
       = supply block_ids block_store - burned.
Proof.
  destruct (execute_block_with_height no_debug fixed_config block_store block_ops 7) as [s' r] eqn:E.
  apply (payments_block_conserves no_debug fixed_config block_ids block_store block_ops 7 s' r).
  - apply (bool_decide_unpack _); vm_compute; exact I.
  - apply (bool_decide_unpack _); vm_compute; exact I.
  - by vm_compute.
  - exact block_store_ok.
  - by vm_compute.
  - by vm_compute.
  - repeat constructor; try (by vm_compute); apply (bool_decide_unpack _); vm_compute; exact I.
  - exact E.
Defined.

(** The first root is not the one the block leads to, the second one is. *)
Lemma checked_block_atomic_witness :
  store_eq (fst (execute_block_checked no_debug fixed_config block_store block_ops 7 [0])) block_store
  /\ let root := br_state_root (snd (execute_block_with_height no_debug fixed_config block_store
                                       block_ops 7)) in
     match execute_block_checked no_debug fixed_config block_store block_ops 7 root with
     | (s', Some (_, revert)) => store_eq (apply_batch revert s') block_store
     | (_, None) => False
     end.
Proof.
  split.
  - pose proof (checked_block_atomic no_debug fixed_config block_store block_ops 7 [0]) as Hc.
    assert (Ho : snd (execute_block_checked no_debug fixed_config block_store block_ops 7 [0]) = None)
      by (vm_compute; reflexivity).
    destruct (execute_block_checked no_debug fixed_config block_store block_ops 7 [0]) as [s' o].
    cbn [fst snd] in *. subst o.
    destruct (stage_block no_debug fixed_config block_store block_ops 7). exact (proj2 Hc).
  - intros root. pose proof (checked_block_atomic no_debug fixed_config block_store block_ops 7 root)
      as Hc. unfold root, execute_block_with_height in *. clear root.
    destruct (execute_block_checked _ _ _ _ _ _) as [s' [[r revert]|]];
      destruct (stage_block no_debug fixed_config block_store block_ops 7) as [result changes];
      cbn [snd br_state_root with_root] in Hc.
    + exact (proj2 (proj2 (proj2 Hc))).
    + exact (proj1 Hc eq_refl).
Defined.

Lemma durable_revert_roundtrip_witness :
  exists record, st_get (fst (execute_block_journaled_durable no_debug fixed_config block_store
                                block_ops 7)) (eager_revert_key 7) = Some record
    /\ is_Some (decode_eager_revert record).
Proof.
  pose proof (durable_revert_roundtrip no_debug fixed_config block_store block_ops 7) as Hd.
  destruct (execute_block_journaled_durable no_debug fixed_config block_store block_ops 7)
    as [s' [r revert]]. destruct Hd as ((record & H1 & H2) & _).
  exists record. split; [exact H1|]. rewrite H2. eauto.
Defined.

Section undo_example.
#[local] Existing Instance node_store.

Lemma undo_record_outside_root_witness :
  let s := mem_put blake3 mem_new (account_key (demo_key 2)) [1] in
  br_state_root (fst (snd (execute_block_journaled_durable no_debug fixed_config s [] 7)))
  = br_state_root (fst (snd (execute_block_journaled no_debug fixed_config s [] 7))).
Proof.
  intros s.
  exact (undo_record_outside_root no_debug fixed_config s [] 7
    (reach_put blake3 _ _ _ (reach_new blake3))).
Defined.
End undo_example.
