(* ===== verification/Validators.v ===== *)
(** The validator set of the consensus engine
    ([crates/solen-consensus/src/validator.rs]), epochs ([epoch.rs]) and the
    slashing conditions ([slashing.rs]). *)

From S2P Require Import Prelude Types Store Memory Codec State Auth.
Open Scope Z_scope.

(** ** The set ([validator.rs]) *)

Inductive ValidatorStatus : Type := VActive | VJailed | VExiting.

#[export] Instance ValidatorStatus_eq_dec : EqDecision ValidatorStatus.
Proof. solve_decision. Defined.

Record ValidatorInfo : Type := mkValidatorInfo {
  vi_id : ValidatorId;
  vi_stake : u128;
  vi_status : ValidatorStatus;
  vi_missed_blocks : u64;
}.

#[export] Instance ValidatorInfo_eq_dec : EqDecision ValidatorInfo.
Proof. solve_decision. Defined.

Definition validator_info_new (id : ValidatorId) (stake : u128) : ValidatorInfo :=
  mkValidatorInfo id stake VActive 0.

Definition vi_is_active (v : ValidatorInfo) : bool := bool_decide (vi_status v = VActive).
Definition set_vi_stake (s : u128) (v : ValidatorInfo) : ValidatorInfo :=
  mkValidatorInfo (vi_id v) s (vi_status v) (vi_missed_blocks v).
Definition set_vi_status (st : ValidatorStatus) (v : ValidatorInfo) : ValidatorInfo :=
  mkValidatorInfo (vi_id v) (vi_stake v) st (vi_missed_blocks v).
Definition set_vi_missed (n : u64) (v : ValidatorInfo) : ValidatorInfo :=
  mkValidatorInfo (vi_id v) (vi_stake v) (vi_status v) n.

Abbreviation ValidatorSet := (list ValidatorInfo) (only parsing).

Definition id_leb (v w : ValidatorInfo) : bool := bytes_leb (vi_id v) (vi_id w).
Definition is_validator (id : ValidatorId) (v : ValidatorInfo) : bool := bytes_eqb (vi_id v) id.

(** [active]: sorted by identifier, so that all nodes use one order. *)
Definition vs_active (vs : ValidatorSet) : list ValidatorInfo :=
  stable_sort id_leb (List.filter vi_is_active vs).

Definition vs_total_active_stake (vs : ValidatorSet) : u128 := u128_sum (map vi_stake (vs_active vs)).
Definition vs_active_count (vs : ValidatorSet) : usize := length (vs_active vs).

(** The loop over the cumulative stake. *)
Fixpoint select_by_stake (active : list ValidatorInfo) (cumulative target : u128) :
    option ValidatorId :=
  match active with
  | [] => None
  | v :: active =>
    let cumulative := u128_add cumulative (vi_stake v) in
    if target <? cumulative then Some (vi_id v) else select_by_stake active cumulative target
  end.

Definition vs_stake_of (vs : ValidatorSet) (ids : list ValidatorId) : u128 :=
  u128_sum (map vi_stake (List.filter (fun v => existsb (bytes_eqb (vi_id v)) ids) vs)).

(** The denominator is the stake of the whole set, jailed validators included. *)
Definition has_quorum (vs : ValidatorSet) (attester_ids : list ValidatorId) : bool :=
  let total := u128_sum (map vi_stake vs) in
  if total =? 0 then false
  else
  let attested_stake := vs_stake_of vs attester_ids in
  u128_mul total 2 <? u128_mul attested_stake 3.

Definition vs_get (vs : ValidatorSet) (id : ValidatorId) : option ValidatorInfo :=
  List.find (is_validator id) vs.
Definition vs_add (vs : ValidatorSet) (info : ValidatorInfo) : ValidatorSet := vs ++ [info].
Definition vs_remove (vs : ValidatorSet) (id : ValidatorId) : ValidatorSet :=
  List.filter (fun v => negb (is_validator id v)) vs.
Definition vs_jail (vs : ValidatorSet) (id : ValidatorId) : ValidatorSet * bool :=
  (update_first (is_validator id) (set_vi_status VJailed) vs, bool_decide (is_Some (vs_get vs id))).

Section proposers.
Context {crypto : Crypto}.

Definition proposer_for_height_with_seed (vs : ValidatorSet) (height : u64) (epoch_seed : Hash) :
    option ValidatorId :=
  let active := vs_active vs in
  match active with
  | [] => None
  | first :: _ =>
    if bytes_eqb epoch_seed zero_hash
    then vi_id <$> active !! Z.to_nat (height mod Z.of_nat (length active))
    else
    let selector := from_le (take 16 (blake3 (epoch_seed ++ le_bytes 8 height))) in
    let total_stake := u128_sum (map vi_stake active) in
    if total_stake =? 0 then Some (vi_id first)
    else
    match select_by_stake active 0 (selector mod total_stake) with
    | Some id => Some id
    | None => vi_id <$> last active
    end
  end.

Definition proposer_for_height (vs : ValidatorSet) (height : u64) : option ValidatorId :=
  proposer_for_height_with_seed vs height zero_hash.

Definition proposer_score (height : u64) (epoch_seed : Hash) (v : ValidatorInfo) : u128 * ValidatorId :=
  let hash_val := from_le (take 16 (blake3 (epoch_seed ++ le_bytes 8 height ++ vi_id v))) in
  (if 0 <? vi_stake v then hash_val / vi_stake v else u128_max, vi_id v).

Definition proposer_order_for_height (vs : ValidatorSet) (height : u64) (epoch_seed : Hash) :
    list ValidatorId :=
  let active := vs_active vs in
  if bool_decide (active = []) then []
  else if bytes_eqb epoch_seed zero_hash then
    let n := length active in
    let start := Z.to_nat (height mod Z.of_nat n) in
    omap (fun i => vi_id <$> active !! ((start + i) mod n)%nat) (seq 0 n)
  else
    map snd (stable_sort (fun a b => fst a <=? fst b) (map (proposer_score height epoch_seed) active)).
End proposers.

(** ** Epochs ([epoch.rs]) *)

Definition CONSENSUS_EPOCH_LENGTH : u64 := 100.

Record EpochManager : Type := mkEpochManager { em_current_epoch : u64; em_base_reward : u128 }.

Definition epoch_manager_new : EpochManager := mkEpochManager 0 100.

Definition is_epoch_boundary (height : u64) : bool :=
  (0 <? height) && (height mod CONSENSUS_EPOCH_LENGTH =? 0).
Definition epoch_for_height (height : u64) : u64 := height / CONSENSUS_EPOCH_LENGTH.

(** The reward of one entry of the copied set: it goes to the first validator
    with that identifier. *)
Definition reward_entry (total_reward total_stake : u128) (vs : ValidatorSet) (v : ValidatorInfo) :
    ValidatorSet :=
  if vi_is_active v then
    update_first (is_validator (vi_id v))
      (fun vm => set_vi_stake (u128_add (vi_stake vm)
                   (u128_mul total_reward (vi_stake vm) / total_stake)) vm) vs
  else vs.

Definition process_epoch_transition (em : EpochManager) (vs : ValidatorSet) :
    EpochManager * ValidatorSet :=
  let total_stake := vs_total_active_stake vs in
  let vs :=
    if 0 <? total_stake then
      let total_reward := u128_mul (em_base_reward em) (Z.of_nat (vs_active_count vs)) in
      fold_left (reward_entry total_reward total_stake) vs vs
    else vs in
  (mkEpochManager (u64_add (em_current_epoch em) 1) (em_base_reward em), vs).

(** ** Slashing ([slashing.rs], and the header of [solen-types/src/block.rs]) *)

Record BlockHeader : Type := mkHeader {
  bh_height : u64;
  bh_epoch : u64;
  bh_parent_hash : Hash;
  bh_state_root : Hash;
  bh_transactions_root : Hash;
  bh_receipts_root : Hash;
  bh_proposer : ValidatorId;
  bh_timestamp_ms : u64;
  bh_proposer_signature : bytes;
}.

#[export] Instance BlockHeader_eq_dec : EqDecision BlockHeader.
Proof. solve_decision. Defined.

Inductive SlashingReason : Type :=
| DoubleSign (height : u64) (block_a block_b : Hash)
| Downtime (missed_blocks : u64)
| InvalidStateRoot (height : u64) (expected got : Hash).

Definition penalty_bps (r : SlashingReason) : u64 :=
  match r with
  | DoubleSign _ _ _ => 1000
  | Downtime _ => 100
  | InvalidStateRoot _ _ _ => 500
  end.

Record SlashingEvidence : Type := mkEvidence {
  ev_offender : ValidatorId;
  ev_reason : SlashingReason;
}.

Definition DOWNTIME_THRESHOLD : u64 := 100.

Record SlashingResult : Type := mkSlashingResult {
  sr_offender : ValidatorId;
  sr_penalty : u128;
  sr_remaining_stake : u128;
  sr_reason : string;
}.

Section slashing.
Context {crypto : Crypto} `{!Codec BlockHeader} (debug_reason : SlashingReason -> string).

Definition unsigned (h : BlockHeader) : BlockHeader :=
  mkHeader (bh_height h) (bh_epoch h) (bh_parent_hash h) (bh_state_root h) (bh_transactions_root h)
    (bh_receipts_root h) (bh_proposer h) (bh_timestamp_ms h) [].

(** [block_hash] ([engine.rs]): the hash of the header without its signature. *)
Definition block_hash (h : BlockHeader) : Hash := blake3 (default [] (ser (unsigned h))).

Definition signed_by_proposer (h : BlockHeader) : bool :=
  ed25519_verify (bh_proposer h) (block_hash h) (bh_proposer_signature h).

Definition check_double_sign (a b : BlockHeader) : option SlashingEvidence :=
  if negb (bh_height a =? bh_height b) || negb (bytes_eqb (bh_proposer a) (bh_proposer b)) then None
  else if bytes_eqb (block_hash a) (block_hash b) then None
  else if bytes_eqb (bh_parent_hash a) (bh_parent_hash b)
          && bytes_eqb (bh_transactions_root a) (bh_transactions_root b)
          && bytes_eqb (bh_state_root a) (bh_state_root b) then None
  else if negb (length (bh_proposer_signature a) =? 64)%nat
          || negb (length (bh_proposer_signature b) =? 64)%nat then None
  else if negb (signed_by_proposer a) then None
  else if negb (signed_by_proposer b) then None
  else Some (mkEvidence (bh_proposer a) (DoubleSign (bh_height a) (bh_state_root a) (bh_state_root b))).

Definition process_slashing (vs : ValidatorSet) (evidence : SlashingEvidence) :
    ValidatorSet * option SlashingResult :=
  let bps := penalty_bps (ev_reason evidence) in
  let id := ev_offender evidence in
  match vs_get vs id with
  | Some v =>
    let penalty := u128_mul (vi_stake v) bps / 10000 in
    let remaining := sat_sub (vi_stake v) penalty in
    let vs := update_first (is_validator id) (set_vi_stake remaining) vs in
    (fst (vs_jail vs id),
     Some (mkSlashingResult id penalty remaining (debug_reason (ev_reason evidence))))
  | None => (fst (vs_jail vs id), None)
  end.

Definition record_missed_block (vs : ValidatorSet) (proposer : ValidatorId) :
    ValidatorSet * option SlashingEvidence :=
  match vs_get vs proposer with
  | Some v =>
    let missed := u64_add (vi_missed_blocks v) 1 in
    (update_first (is_validator proposer) (set_vi_missed missed) vs,
     if DOWNTIME_THRESHOLD <=? missed then Some (mkEvidence proposer (Downtime missed)) else None)
  | None => (vs, None)
  end.

(** [slash/{offender}/{height}]: the record the slash call looks for. *)
Definition slash_key (offender : ValidatorId) (height : u64) : bytes :=
  bytes_of_string ("slash/" +:+ hex_encode offender +:+ "/" +:+ pretty height).

Definition persist_slashing_evidence {S} `{!StateStore S} (s : S) (r : SlashingResult) (height : u64) : S :=
  st_put s (slash_key (sr_offender r) height)
    (bytes_of_string ("penalty=" +:+ pretty (sr_penalty r) +:+ ",remaining="
                      +:+ pretty (sr_remaining_stake r) +:+ ",reason=" +:+ sr_reason r)).
End slashing.

(** ** Quorums *)

(** The stake of the validators that satisfy [p], and of the whole set, as
    mathematical sums. *)
Definition weight (vs : ValidatorSet) (p : ValidatorInfo -> bool) : Z :=
  sumZ (map vi_stake (List.filter p vs)).
Definition committed_stake (vs : ValidatorSet) : Z := sumZ (map vi_stake vs).
Definition among (ids : list ValidatorId) (v : ValidatorInfo) : bool :=
  existsb (bytes_eqb (vi_id v)) ids.

(** Three times the stake of the set fits the accumulator. *)
Definition set_ok (vs : ValidatorSet) : Prop :=
  Forall (fun v => 0 <= vi_stake v) vs /\ 3 * committed_stake vs <= u128_max.

Lemma among_true ids v : among ids v = true <-> vi_id v ∈ ids.
Proof.
  unfold among. rewrite existsb_exists. split.
  - intros (i & Hi & E). apply bytes_eqb_true in E. rewrite E. by apply list_elem_of_In.
  - intros Hi. exists (vi_id v). split; [by apply list_elem_of_In|]. apply bytes_eqb_refl.
Qed.

Lemma weight_nonneg vs p : Forall (fun v => 0 <= vi_stake v) vs -> 0 <= weight vs p.
Proof.
  intros Hv. apply sumZ_map_nonneg. intros v Hin. rewrite Forall_forall in Hv.
  apply Hv, list_elem_of_In. by apply list_elem_of_In, filter_In in Hin as [? _].
Qed.

Lemma weight_le vs p : Forall (fun v => 0 <= vi_stake v) vs -> weight vs p <= committed_stake vs.
Proof. intros Hv. apply sumZ_filter_le. intros v Hin. rewrite Forall_forall in Hv. by apply Hv. Qed.

(** Inclusion and exclusion. *)
Lemma weight_union vs p q :
  weight vs p + weight vs q
  = weight vs (fun v => p v || q v) + weight vs (fun v => p v && q v).
Proof.
  unfold weight. induction vs as [|v vs IH]; [done|].
  cbn [List.filter]. destruct (p v), (q v); cbn [orb andb map sumZ]; lia.
Qed.

Lemma weight_mono vs p q :
  Forall (fun v => 0 <= vi_stake v) vs -> (forall v, v ∈ vs -> p v = true -> q v = true) ->
  weight vs p <= weight vs q.
Proof.
  unfold weight. induction 1 as [|v vs Hv Hvs IH]; intros Hpq; [done|].
  assert (IH' := IH ltac:(intros; apply Hpq; [by right|done])).
  assert (Hhd := Hpq v ltac:(by left)). cbn [List.filter].
  destruct (p v), (q v); cbn [map sumZ]; try lia; by discriminate Hhd.
Qed.

Lemma weight_pos_elem vs p : 0 < weight vs p -> exists v, v ∈ vs /\ p v = true.
Proof.
  unfold weight. intros Hw. destruct (List.filter p vs) as [|v l] eqn:E; [done|].
  exists v. assert (Hin : In v (List.filter p vs)) by (rewrite E; by left).
  apply filter_In in Hin as [Hin Hp]. split; [by apply list_elem_of_In|done].
Qed.

Lemma stake_of_weight vs ids : set_ok vs -> vs_stake_of vs ids = weight vs (among ids).
Proof.
  intros [Hv Hm]. apply u128_sum_exact.
  - apply Forall_map, Forall_filter_bool. done.
  - pose proof (weight_le vs (among ids) Hv). pose proof (weight_nonneg vs (among ids) Hv).
    unfold weight, among in *. lia.
Qed.

Lemma has_quorum_spec vs ids :
  set_ok vs -> has_quorum vs ids = true <-> 2 * committed_stake vs < 3 * weight vs (among ids).
Proof.
  intros Hok. destruct (id Hok) as [Hv Hm].
  pose proof (weight_le vs (among ids) Hv). pose proof (weight_nonneg vs (among ids) Hv).
  unfold has_quorum. rewrite stake_of_weight by done.
  rewrite u128_sum_exact; [|by apply Forall_map|unfold committed_stake in *; lia].
  fold (committed_stake vs). destruct (committed_stake vs =? 0) eqn:E.
  - split; [done|]. lia.
  - rewrite !u128_mul_exact by lia. rewrite Z.ltb_lt. lia.
Qed.

Lemma has_quorum_mono vs ids ids' :
  set_ok vs -> (forall i, i ∈ ids -> i ∈ ids') -> has_quorum vs ids = true -> has_quorum vs ids' = true.
Proof.
  intros Hok Hi. rewrite !has_quorum_spec by done. intros Hq.
  enough (weight vs (among ids) <= weight vs (among ids')) by lia.
  apply weight_mono; [apply Hok|]. intros v _. rewrite !among_true. apply Hi.
Qed.

(** Two quorums share more than a third of the committed stake. *)
Lemma quorum_overlap vs A B :
  set_ok vs -> has_quorum vs A = true -> has_quorum vs B = true ->
  committed_stake vs < 3 * weight vs (fun v => among A v && among B v).
Proof.
  intros Hok. rewrite !has_quorum_spec by done. intros HA HB.
  pose proof (weight_union vs (among A) (among B)).
  pose proof (weight_le vs (fun v => among A v || among B v) (proj1 Hok)). lia.
Qed.

(** When the faulty validators hold at most a third, two quorums have a correct
    validator in common. *)
Lemma honest_overlap vs A B (faulty : ValidatorInfo -> bool) :
  set_ok vs -> 3 * weight vs faulty <= committed_stake vs ->
  has_quorum vs A = true -> has_quorum vs B = true ->
  exists v, v ∈ vs /\ vi_id v ∈ A /\ vi_id v ∈ B /\ faulty v = false.
Proof.
  intros Hok Hf HA HB. pose proof (quorum_overlap vs A B Hok HA HB) as Ho.
  set (both := fun v => among A v && among B v) in *.
  destruct (weight_pos_elem vs (fun v => both v && negb (faulty v))) as (v & Hv & Hp).
  - pose proof (weight_union vs (fun v => both v && negb (faulty v)) faulty) as Hu.
    pose proof (weight_mono vs both (fun v => both v && negb (faulty v) || faulty v) (proj1 Hok)) as Hm.
    pose proof (weight_nonneg vs (fun v => both v && negb (faulty v) && faulty v) (proj1 Hok)).
    assert (forall v, both v = true -> both v && negb (faulty v) || faulty v = true)
      by (intros w ->; by destruct (faulty w)).
    specialize (Hm ltac:(eauto)). cbv beta in *. lia.
  - exists v. unfold both in Hp. prop_bool. rewrite !among_true in *. naive_solver.
Qed.

(** The identifiers and stakes of a set, which is all a quorum looks at. *)
Definition stakes (vs : ValidatorSet) : list (ValidatorId * u128) :=
  map (fun v => (vi_id v, vi_stake v)) vs.

Lemma has_quorum_stakes vs vs' ids :
  stakes vs = stakes vs' -> has_quorum vs ids = has_quorum vs' ids.
Proof.
  intros E.
  assert (Hall : map vi_stake vs = map vi_stake vs').
  { assert (He := f_equal (map snd) E). unfold stakes in He. rewrite !map_map in He. exact He. }
  assert (Hin : map vi_stake (List.filter (among ids) vs) = map vi_stake (List.filter (among ids) vs')).
  { clear Hall. revert vs' E. unfold stakes, among.
    induction vs as [|v vs IH]; intros [|w vs'] E; try done; cbn in E.
    injection E as Ei Es E. cbn [List.filter]. rewrite Ei.
    destruct (existsb _ ids); cbn [map]; [rewrite Es; f_equal|]; by apply IH. }
  unfold has_quorum, vs_stake_of, among in *. by rewrite Hall, Hin.
Qed.

Lemma update_first_stakes id f vs :
  (forall v, vi_id (f v) = vi_id v /\ vi_stake (f v) = vi_stake v) ->
  stakes (update_first (is_validator id) f vs) = stakes vs.
Proof.
  intros Hf. unfold stakes. induction vs as [|v vs IH]; [done|]. cbn [update_first].
  destruct (is_validator id v); cbn [map]; [|by rewrite IH].
  by rewrite (proj1 (Hf v)), (proj2 (Hf v)).
Qed.

Lemma vs_jail_stakes vs id : stakes (fst (vs_jail vs id)) = stakes vs.
Proof. by apply update_first_stakes. Qed.

Lemma record_missed_stakes vs id : stakes (fst (record_missed_block vs id)) = stakes vs.
Proof. unfold record_missed_block. destruct (vs_get vs id); [by apply update_first_stakes|done]. Qed.

(** Two sets of attesters that both pass the two-thirds test share a
    validator outside any group that holds at most a third of the stake. *)
Theorem quorum_intersection vs A B (faulty : ValidatorInfo -> bool) :
  set_ok vs -> 3 * weight vs faulty <= committed_stake vs ->
  has_quorum vs A = true -> has_quorum vs B = true ->
  exists v, v ∈ vs /\ vi_id v ∈ A /\ vi_id v ∈ B /\ faulty v = false.
Proof. apply honest_overlap. Qed.

(** The local reactions to an unreachable validator - jailing it, counting
    its missed blocks - leave every quorum decision as it was: a partitioned
    minority cannot vote itself a quorum by jailing the others. *)
Theorem local_penalties_keep_quorum vs id ids :
  has_quorum (fst (vs_jail vs id)) ids = has_quorum vs ids
  /\ has_quorum (fst (record_missed_block vs id)) ids = has_quorum vs ids.
Proof.
  split; apply has_quorum_stakes; [apply vs_jail_stakes|apply record_missed_stakes].
Qed.

(** ** Proposers *)

Lemma vs_active_elem vs v : v ∈ vs_active vs <-> v ∈ vs /\ vi_is_active v = true.
Proof.
  unfold vs_active. rewrite stable_sort_perm, !list_elem_of_In, filter_In. done.
Qed.

Lemma vs_active_perm vs : vs_active vs ≡ₚ List.filter vi_is_active vs.
Proof. apply stable_sort_perm. Qed.

#[export] Instance filter_bool_proper {A} (p : A -> bool) : Proper ((≡ₚ) ==> (≡ₚ)) (List.filter p).
Proof.
  intros l1 l2 Hp. induction Hp; cbn [List.filter]; [done| | |by etrans].
  - destruct (p x); [by constructor|done].
  - destruct (p x), (p y); try done. constructor.
Qed.

(** One order for all nodes. *)
Lemma vs_active_agree vs vs' :
  vs ≡ₚ vs' -> NoDup (map vi_id vs) -> vs_active vs = vs_active vs'.
Proof.
  intros Hp Hn. apply stable_sort_unique.
  - intros v w. apply bytes_leb_total.
  - intros u v w. apply bytes_leb_trans.
  - by rewrite Hp.
  - intros v w Hv Hw H1 H2. apply list_elem_of_In, filter_In in Hv as [Hv _], Hw as [Hw _].
    apply list_elem_of_In in Hv, Hw. pose proof (bytes_leb_antisym _ _ H1 H2) as E.
    apply list_elem_of_lookup in Hv as [i Hi], Hw as [j Hj].
    assert (i = j) as ->; [|congruence].
    apply (NoDup_lookup (map vi_id vs) i j (vi_id v) Hn); rewrite list_lookup_fmap.
    + by rewrite Hi.
    + rewrite Hj. by rewrite E.
Qed.

(** The selected validator is the one whose interval of the cumulative stake
    holds the target. *)
Lemma select_by_stake_spec active cum target :
  0 <= cum -> Forall (fun v => 0 <= vi_stake v) active ->
  cum + sumZ (map vi_stake active) <= u128_max ->
  cum <= target < cum + sumZ (map vi_stake active) ->
  exists l1 v l2, active = l1 ++ v :: l2 /\ select_by_stake active cum target = Some (vi_id v)
    /\ cum + sumZ (map vi_stake l1) <= target < cum + sumZ (map vi_stake l1) + vi_stake v.
Proof.
  revert cum. induction active as [|v active IH]; intros cum Hc Hv Hm Ht; cbn [map sumZ] in *; [lia|].
  inversion_clear Hv as [|? ? Hv1 Hv2].
  pose proof (sumZ_nonneg (map vi_stake active) ltac:(by apply Forall_map)).
  cbn [select_by_stake]. rewrite u128_add_exact by lia. destruct (target <? cum + vi_stake v) eqn:E.
  - exists [], v, active. cbn [map sumZ]. repeat split; lia.
  - destruct (IH (cum + vi_stake v) ltac:(lia) Hv2 ltac:(lia) ltac:(lia)) as (l1 & w & l2 & -> & Hs & Hb).
    exists (v :: l1), w, l2. cbn [map sumZ]. repeat split; [done|lia|lia].
Qed.

Lemma select_by_stake_elem active cum target id :
  select_by_stake active cum target = Some id -> exists v, v ∈ active /\ vi_id v = id.
Proof.
  revert cum. induction active as [|v active IH]; intros cum; cbn [select_by_stake]; [done|].
  destruct (_ <? _); intros E; [simplify_eq; exists v; split; [by left|done]|].
  apply IH in E as (w & Hw & <-). exists w. split; [by right|done].
Qed.

Section proposer_theorems.
Context {crypto : Crypto}.

Lemma proposer_elem vs height seed id :
  proposer_for_height_with_seed vs height seed = Some id ->
  exists v, v ∈ vs /\ vi_is_active v = true /\ vi_id v = id.
Proof.
  intros E. enough (exists v, v ∈ vs_active vs /\ vi_id v = id) as (v & Hv & Hi).
  { apply vs_active_elem in Hv as [? ?]. eauto. }
  unfold proposer_for_height_with_seed in E. destruct (vs_active vs) as [|f rest] eqn:Ea; [done|].
  rewrite <- Ea in *. destruct (bytes_eqb seed zero_hash).
  - apply fmap_Some in E as (v & Hv & ->). apply list_elem_of_lookup_2 in Hv. eauto.
  - cbv zeta in E. destruct (_ =? 0).
    { simplify_eq. exists f. split; [rewrite Ea; by left|done]. }
    destruct (select_by_stake _ _ _) as [i|] eqn:Es.
    + simplify_eq. by apply select_by_stake_elem in Es.
    + apply fmap_Some in E as (v & Hv & ->). exists v. split; [|done]. by apply last_Some_elem_of.
Qed.

Lemma proposer_exists vs height seed v :
  v ∈ vs -> vi_is_active v = true -> is_Some (proposer_for_height_with_seed vs height seed).
Proof.
  intros Hv Ha. unfold proposer_for_height_with_seed.
  destruct (vs_active vs) as [|f rest] eqn:Ea.
  { assert (Hin : v ∈ vs_active vs) by by apply vs_active_elem.
    rewrite Ea in Hin. by apply not_elem_of_nil in Hin. }
  destruct (bytes_eqb seed zero_hash).
  - apply fmap_is_Some, lookup_lt_is_Some. cbn [length].
    pose proof (Z.mod_pos_bound height (Z.of_nat (S (length rest)))). lia.
  - cbv zeta. destruct (_ =? 0); [done|]. destruct (select_by_stake _ _ _); [done|].
    apply fmap_is_Some. rewrite last_cons. by destruct (last rest).
Qed.

Lemma omap_lookup_seq {A} (l : list A) (f : nat -> nat) k m s :
  (forall i, (k <= i < k + m)%nat -> f i = (s + (i - k))%nat) ->
  omap (fun i => l !! f i) (seq k m) = take m (drop s l).
Proof.
  revert k s. induction m as [|m IH]; intros k s Hf; [done|]. cbn [seq omap list_omap].
  rewrite (Hf k) by lia. rewrite Nat.sub_diag, Nat.add_0_r.
  assert (Hrest : omap (fun i => l !! f i) (seq (S k) m) = take m (drop (S s) l))
    by (apply IH; intros i Hi; rewrite Hf by lia; lia).
  destruct (l !! s) as [x|] eqn:E.
  - rewrite (drop_S _ _ _ E). cbn [take]. f_equal. exact Hrest.
  - apply lookup_ge_None in E. rewrite (drop_ge l s) by lia. rewrite take_nil.
    etrans; [exact Hrest|]. by rewrite drop_ge, take_nil by lia.
Qed.

(** The genesis rotation lists every position once. *)
Lemma rotation_eq {A} (l : list A) start :
  (start < length l)%nat ->
  omap (fun i => l !! ((start + i) mod length l)%nat) (seq 0 (length l)) = drop start l ++ take start l.
Proof.
  intros Hs. set (n := length l) in *.
  assert (Hsplit : seq 0 n = seq 0 (n - start) ++ seq (n - start) start).
  { rewrite <- seq_app. f_equal. lia. }
  rewrite Hsplit, omap_app.
  rewrite (omap_lookup_seq l (fun i => (start + i) mod n)%nat 0 _ start).
  - rewrite (omap_lookup_seq l (fun i => (start + i) mod n)%nat (n - start) _ 0).
    + rewrite drop_0. f_equal. apply take_ge. rewrite length_drop. lia.
    + intros i Hi. replace (start + i)%nat with (start + i - n + 1 * n)%nat by lia.
      rewrite Nat.Div0.mod_add, Nat.mod_small by lia. lia.
  - intros i Hi. rewrite Nat.mod_small by lia. lia.
Qed.

Lemma proposer_order_perm vs height seed :
  proposer_order_for_height vs height seed ≡ₚ map vi_id (List.filter vi_is_active vs).
Proof.
  rewrite <- vs_active_perm. unfold proposer_order_for_height.
  case_bool_decide as E; [by rewrite E|]. destruct (bytes_eqb seed zero_hash).
  - set (l := vs_active vs) in *. assert (0 < length l)%nat by (destruct l; [done|cbn; lia]).
    pose proof (Z.mod_pos_bound height (Z.of_nat (length l))).
    rewrite <- list_fmap_omap. rewrite rotation_eq by lia.
    rewrite fmap_app, (comm (++)), <- fmap_app, take_drop. done.
  - rewrite stable_sort_perm, map_map. done.
Qed.

(** all nodes that hold the same validators, in whatever order they learnt
    them, name the same proposer for a height and try the same backups in the
    same order; the proposer is an active validator, there is one as long as
    any validator is active, and the backup order lists every active validator
    exactly once. *)
Theorem proposer_schedule vs vs' height seed :
  vs ≡ₚ vs' -> NoDup (map vi_id vs) ->
  proposer_for_height_with_seed vs height seed = proposer_for_height_with_seed vs' height seed
  /\ proposer_order_for_height vs height seed = proposer_order_for_height vs' height seed
  /\ proposer_order_for_height vs height seed ≡ₚ map vi_id (List.filter vi_is_active vs)
  /\ (forall v, v ∈ vs -> vi_is_active v = true ->
      exists p, p ∈ vs /\ vi_is_active p = true
        /\ proposer_for_height_with_seed vs height seed = Some (vi_id p)).
Proof.
  intros Hp Hn. pose proof (vs_active_agree vs vs' Hp Hn) as Ea.
  unfold proposer_for_height_with_seed at 1 2. unfold proposer_order_for_height at 1 2. rewrite Ea.
  repeat split; [apply proposer_order_perm|].
  intros v Hv Hact. destruct (proposer_exists vs height seed v Hv Hact) as [i Hi].
  destruct (proposer_elem _ _ _ _ Hi) as (p & ? & ? & <-). eauto.
Qed.

(** After the genesis epoch a validator proposes exactly for the targets in
    its own interval of the cumulative stake, whose length is its stake; a
    validator without stake never proposes. *)
Theorem proposer_by_stake vs height seed :
  set_ok vs -> seed <> zero_hash -> 0 < weight vs vi_is_active ->
  exists l1 v l2, vs_active vs = l1 ++ v :: l2
    /\ proposer_for_height_with_seed vs height seed = Some (vi_id v)
    /\ sumZ (map vi_stake l1)
       <= from_le (take 16 (blake3 (seed ++ le_bytes 8 height))) mod weight vs vi_is_active
       < sumZ (map vi_stake l1) + vi_stake v.
Proof.
  intros [Hv Hm] Hs Hw. pose proof (weight_le vs vi_is_active Hv).
  assert (Hsum : sumZ (map vi_stake (vs_active vs)) = weight vs vi_is_active).
  { unfold weight. by rewrite vs_active_perm. }
  assert (Ha : Forall (fun v => 0 <= vi_stake v) (vs_active vs)).
  { rewrite vs_active_perm. by apply Forall_filter_bool. }
  unfold proposer_for_height_with_seed. destruct (vs_active vs) as [|f rest] eqn:Ea; [cbn in Hsum; lia|].
  rewrite <- Ea in *. rewrite (proj2 (bytes_eqb_false seed zero_hash) Hs). cbv zeta.
  rewrite u128_sum_exact by (try apply Forall_map; try done; lia). rewrite Hsum.
  rewrite (proj2 (Z.eqb_neq _ _)) by lia.
  set (t := _ mod _). assert (0 <= t < weight vs vi_is_active) by (apply Z.mod_pos_bound; lia).
  destruct (select_by_stake_spec (vs_active vs) 0 t) as (l1 & v & l2 & El & Es & Hr); try done; try lia.
  exists l1, v, l2. rewrite Es. repeat split; [congruence|lia|lia].
Qed.
End proposer_theorems.

(** ** Slashing *)

Section slashing_theorems.
Context {crypto : Crypto} `{!Codec BlockHeader} (debug_reason : SlashingReason -> string).

(** The double-signing check accuses a validator only on two headers of one
    height that carry its valid signatures, hash differently and differ in
    parent, transactions or state; the evidence names that validator. *)
Theorem double_sign_sound a b ev :
  check_double_sign a b = Some ev ->
  ev = mkEvidence (bh_proposer a) (DoubleSign (bh_height a) (bh_state_root a) (bh_state_root b))
  /\ bh_height a = bh_height b /\ bh_proposer a = bh_proposer b
  /\ block_hash a <> block_hash b
  /\ ed25519_verify (bh_proposer a) (block_hash a) (bh_proposer_signature a) = true
  /\ ed25519_verify (bh_proposer a) (block_hash b) (bh_proposer_signature b) = true
  /\ (bh_parent_hash a, bh_transactions_root a, bh_state_root a)
     <> (bh_parent_hash b, bh_transactions_root b, bh_state_root b).
Proof.
  unfold check_double_sign, signed_by_proposer. intros E.
  repeat (case_match; [done|]). simplify_eq. prop_bool.
  assert (bh_proposer a = bh_proposer b) as Ep by congruence.
  repeat split; try done; [by rewrite Ep|]. intros Eq. injection Eq as E1 E2 E3.
  match goal with Hx : _ \/ _ |- _ => rewrite E1, E2, E3, !bytes_eqb_refl in Hx; by destruct Hx end.
Qed.

Lemma vs_get_elem vs id v : vs_get vs id = Some v -> v ∈ vs /\ vi_id v = id.
Proof. intros E. apply find_elem in E as [? E]. split; [done|]. by apply bytes_eqb_true in E. Qed.

(** A slashed validator loses the fraction of its stake the reason fixes,
    rounded down, and leaves the proposer rotation; nobody else's entry changes,
    and slashing an unknown validator changes nothing. *)
Theorem slashing_effect vs ev :
  set_ok vs -> 10000 * committed_stake vs <= u128_max ->
  (forall v, vs_get vs (ev_offender ev) = Some v ->
     let penalty := vi_stake v * penalty_bps (ev_reason ev) / 10000 in
     process_slashing debug_reason vs ev
     = (update_first (is_validator (ev_offender ev))
          (fun v => set_vi_status VJailed (set_vi_stake (vi_stake v - penalty) v)) vs,
        Some (mkSlashingResult (ev_offender ev) penalty (vi_stake v - penalty)
                (debug_reason (ev_reason ev))))
     /\ 0 <= penalty <= vi_stake v
     /\ committed_stake (fst (process_slashing debug_reason vs ev)) = committed_stake vs - penalty)
  /\ (vs_get vs (ev_offender ev) = None -> process_slashing debug_reason vs ev = (vs, None)).
Proof.
  intros [Hpos Hm] Hbig. set (id := ev_offender ev). split.
  - intros v Hv penalty. destruct (vs_get_elem _ _ _ Hv) as [Hin Hid].
    assert (Hs : 0 <= vi_stake v <= committed_stake vs).
    { rewrite Forall_forall in Hpos. split; [by apply Hpos|]. apply sumZ_elem_le; [|done].
      intros w Hw. by apply Hpos. }
    assert (Hb : 0 < penalty_bps (ev_reason ev) <= 1000) by (destruct (ev_reason ev); cbn; lia).
    assert (Hp : 0 <= penalty <= vi_stake v).
    { unfold penalty. split; [apply Z.div_pos; nia|]. apply Z.div_le_upper_bound; nia. }
    assert (E : process_slashing debug_reason vs ev
      = (update_first (is_validator id)
           (fun v => set_vi_status VJailed (set_vi_stake (vi_stake v - penalty) v)) vs,
         Some (mkSlashingResult id penalty (vi_stake v - penalty) (debug_reason (ev_reason ev))))).
    { unfold process_slashing. fold id. rewrite Hv. rewrite u128_mul_exact by nia. fold penalty.
      rewrite sat_sub_exact by lia. f_equal. cbn [vs_jail fst].
      apply find_split in Hv as (l1 & l2 & -> & Hx & Hl1).
      rewrite !(update_first_split (is_validator id)) by done. done. }
    rewrite E. split; [done|]. split; [done|]. cbn [fst]. unfold committed_stake.
    rewrite (sumZ_update_first _ _ _ _ _ Hv). cbn. lia.
  - intros Hn. unfold process_slashing. fold id. rewrite Hn. f_equal. cbn [vs_jail fst].
    by apply update_first_none.
Qed.
End slashing_theorems.

(** ** Epoch rewards *)

(** What one entry becomes. *)
Definition rewarded (total_reward total_stake : u128) (v : ValidatorInfo) : ValidatorInfo :=
  if vi_is_active v
  then set_vi_stake (u128_add (vi_stake v) (u128_mul total_reward (vi_stake v) / total_stake)) v
  else v.

Lemma rewarded_id R T v : vi_id (rewarded R T v) = vi_id v.
Proof. unfold rewarded. by destruct (vi_is_active v). Qed.

(** The loop over the copy with its lookup by identifier is a map over the set. *)
Lemma fold_reward_entry R T done_ rest :
  NoDup (map vi_id (done_ ++ rest)) ->
  fold_left (reward_entry R T) rest (map (rewarded R T) done_ ++ rest)
  = map (rewarded R T) (done_ ++ rest).
Proof.
  revert done_. induction rest as [|v rest IH]; intros done_ Hn; [by rewrite !app_nil_r|].
  cbn [fold_left].
  assert (E : reward_entry R T (map (rewarded R T) done_ ++ v :: rest) v
              = map (rewarded R T) (done_ ++ [v]) ++ rest).
  { rewrite map_app, <- app_assoc. unfold reward_entry. cbn [map app].
    destruct (vi_is_active v) eqn:Ea; [|unfold rewarded at 3; by rewrite Ea].
    rewrite update_first_split; [unfold rewarded at 3; by rewrite Ea|apply bytes_eqb_refl|].
    apply Forall_map, Forall_forall. intros w Hw. apply bytes_eqb_false. rewrite rewarded_id.
    intros Ew. rewrite map_app, NoDup_app in Hn. destruct Hn as (_ & Hn & _).
    apply (Hn (vi_id w)); [by apply list_elem_of_fmap_2|]. rewrite Ew. by left. }
  rewrite E, IH; by rewrite <- app_assoc.
Qed.

Lemma rewarded_total R T vs :
  0 <= R -> 0 < T -> Forall (fun v => 0 <= vi_stake v) vs ->
  committed_stake vs + R * committed_stake vs <= u128_max ->
  T * (committed_stake (map (rewarded R T) vs) - committed_stake vs) <= R * weight vs vi_is_active
  /\ committed_stake vs <= committed_stake (map (rewarded R T) vs).
Proof.
  unfold committed_stake, weight. intros HR HT. induction 1 as [|v vs Hv Hvs IH]; intros Hm; [cbn; lia|].
  cbn [map sumZ List.filter] in *.
  pose proof (sumZ_nonneg (map vi_stake vs) ltac:(by apply Forall_map)).
  destruct IH as [IH1 IH2]; [nia|]. unfold rewarded at 1 3.
  destruct (vi_is_active v); cbn [map sumZ vi_stake set_vi_stake]; [|lia].
  rewrite (u128_mul_exact R (vi_stake v)) by nia. set (q := R * vi_stake v / T).
  assert (0 <= q) by (apply Z.div_pos; nia).
  assert (T * q <= R * vi_stake v) by (apply Z.mul_div_le; lia).
  assert (q <= R * vi_stake v) by nia. rewrite u128_add_exact by nia. nia.
Qed.

(** An epoch transition pays every active validator its share of the
    epoch's reward on its current stake and nobody else, counts the epoch, and
    creates at most the base reward times the number of active validators. *)
Theorem epoch_rewards em vs :
  let R := em_base_reward em * Z.of_nat (vs_active_count vs) in
  NoDup (map vi_id vs) -> Forall (fun v => 0 <= vi_stake v) vs -> 0 <= em_base_reward em ->
  0 < weight vs vi_is_active -> R <= u128_max -> committed_stake vs + R * committed_stake vs <= u128_max ->
  let '(em', vs') := process_epoch_transition em vs in
  em' = mkEpochManager (u64_add (em_current_epoch em) 1) (em_base_reward em)
  /\ vs' = map (rewarded R (weight vs vi_is_active)) vs
  /\ committed_stake vs <= committed_stake vs' <= committed_stake vs + R.
Proof.
  intros R Hn Hv Hb Hw HR Hm. pose proof (weight_le vs vi_is_active Hv).
  assert (0 <= R) by (unfold R; nia).
  assert (Ht : vs_total_active_stake vs = weight vs vi_is_active).
  { unfold vs_total_active_stake, weight. rewrite u128_sum_exact; rewrite vs_active_perm; [done| |].
    - by apply Forall_map, Forall_filter_bool.
    - fold (weight vs vi_is_active). nia. }
  unfold process_epoch_transition. rewrite Ht, (proj2 (Z.ltb_lt _ _)) by lia.
  rewrite u128_mul_exact by (fold R; lia). fold R. split; [done|].
  pose proof (fold_reward_entry R (weight vs vi_is_active) [] vs Hn) as Ef. cbn [map app] in Ef.
  rewrite Ef. split; [done|].
  destruct (rewarded_total R (weight vs vi_is_active) vs) as [H1 H2]; try done. nia.
Qed.

(** ** Concrete runs *)

Definition demo_id (n : Z) : ValidatorId := n :: replicate 31 0.
Definition demo_set : ValidatorSet := map (fun n => validator_info_new (demo_id n) 100) [1; 2; 3; 4].

Lemma demo_set_ok : set_ok demo_set.
Proof. split; [repeat constructor; cbn; lia|vm_compute; discriminate]. Qed.

#[export] Instance enc_BlockHeader : Enc BlockHeader := enc_via
  (fun h => (bh_height h, bh_epoch h, bh_parent_hash h, bh_state_root h, bh_transactions_root h,
             bh_receipts_root h, bh_proposer h, bh_timestamp_ms h, bh_proposer_signature h))
  (fun '(a, b, c, d, e, f, g, i, j) => Some (mkHeader a b c d e f g i j)).
#[export] Instance enc_BlockHeader_laws : EncLaws BlockHeader.
Proof. enc_enum. Qed.

(** A header of validator 2 for height 5 with the given state root. *)
Definition demo_header (root : Z) : BlockHeader :=
  mkHeader 5 0 zero_hash (demo_key root) zero_hash zero_hash (demo_id 2) 1000 (replicate 64 2).

Lemma double_sign_sound_witness : block_hash (demo_header 7) <> block_hash (demo_header 8).
Proof.
  apply (double_sign_sound (demo_header 7) (demo_header 8)
           (mkEvidence (demo_id 2) (DoubleSign 5 (demo_key 7) (demo_key 8)))).
  vm_compute. reflexivity.
Defined.

Lemma quorum_intersection_witness : exists v, v ∈ demo_set /\ vi_id v ∈ map demo_id [1; 2; 3]
  /\ vi_id v ∈ map demo_id [2; 3; 4] /\ bytes_eqb (vi_id v) (demo_id 2) = false.
Proof.
  apply (quorum_intersection demo_set (map demo_id [1; 2; 3]) (map demo_id [2; 3; 4])
           (fun v => bytes_eqb (vi_id v) (demo_id 2))).
  - apply demo_set_ok.
  - vm_compute. discriminate.
  - reflexivity.
  - reflexivity.
Defined.

Lemma proposer_schedule_witness :
  exists p, p ∈ demo_set /\ vi_is_active p = true
    /\ proposer_for_height_with_seed demo_set 7 zero_hash = Some (vi_id p).
Proof.
  refine (proj2 (proj2 (proj2 (proposer_schedule demo_set demo_set 7 zero_hash _ _)))
            (validator_info_new (demo_id 1) 100) _ _).
  - reflexivity.
  - apply (bool_decide_unpack _). vm_compute. exact I.
  - left.
  - reflexivity.
Defined.

Lemma proposer_by_stake_witness :
  exists l1 v l2, vs_active demo_set = l1 ++ v :: l2
    /\ proposer_for_height_with_seed demo_set 7 (demo_id 9) = Some (vi_id v)
    /\ sumZ (map vi_stake l1)
       <= from_le (take 16 (blake3 (demo_id 9 ++ le_bytes 8 7))) mod weight demo_set vi_is_active
       < sumZ (map vi_stake l1) + vi_stake v.
Proof.
  apply (proposer_by_stake demo_set 7 (demo_id 9)).
  - apply demo_set_ok.
  - apply (bool_decide_unpack _). vm_compute. exact I.
  - reflexivity.
Defined.

Lemma slashing_effect_witness :
  committed_stake (fst (process_slashing (fun _ => "DoubleSign"%string) demo_set
    (mkEvidence (demo_id 2) (DoubleSign 5 [] [1])))) = 390.
Proof.
  exact (proj2 (proj2 (proj1 (slashing_effect (fun _ => "DoubleSign"%string) demo_set
    (mkEvidence (demo_id 2) (DoubleSign 5 [] [1]))
    demo_set_ok ltac:(vm_compute; discriminate)) (validator_info_new (demo_id 2) 100) eq_refl))).
Defined.

Lemma epoch_rewards_witness :
  committed_stake (snd (process_epoch_transition epoch_manager_new demo_set)) = 800.
Proof.
  pose proof (epoch_rewards epoch_manager_new demo_set
    ltac:(apply (bool_decide_unpack _); vm_compute; exact I)
    (proj1 demo_set_ok) ltac:(vm_compute; discriminate)
    ltac:(vm_compute; reflexivity) ltac:(vm_compute; discriminate) ltac:(vm_compute; discriminate)) as Hr.
  destruct (process_epoch_transition epoch_manager_new demo_set) as [em vs] eqn:E.
  destruct Hr as (_ & -> & _). vm_compute. reflexivity.
Defined.
