(* ===== verification/Mempool.v ===== *)
(** The transaction pools of the consensus crate: the pending operations
    ([crates/solen-consensus/src/mempool.rs]) and the commit-reveal pool
    ([encrypted_mempool.rs]). *)

From S2P Require Import Prelude Types Store Memory Auth.
Open Scope Z_scope.

(** ** Pending operations *)

Definition MAX_OPS_PER_SENDER : usize := 64%nat.
Definition MAX_OP_SIZE : Z := 8 * 1024 * 1024.

Abbreviation DedupKey := (AccountId * u64)%type (only parsing).
Definition dedup_key (op : UserOperation) : DedupKey := (op_sender op, op_nonce op).

Definition bytes_compare (a b : bytes) : comparison :=
  if bytes_eqb a b then Eq else if bytes_leb a b then Lt else Gt.

(** [Ord for MempoolEntry]: the higher fee first, then sender and nonce. *)
Definition entry_cmp (a b : UserOperation) : comparison :=
  match op_max_fee b ?= op_max_fee a with
  | Eq => match bytes_compare (op_sender a) (op_sender b) with
          | Eq => op_nonce a ?= op_nonce b
          | c => c
          end
  | c => c
  end.

(** [BTreeSet::insert] and [BTreeSet::remove]: an element that compares equal
    is kept, respectively removed. *)
Fixpoint entry_insert (e : UserOperation) (l : list UserOperation) : list UserOperation :=
  match l with
  | [] => [e]
  | x :: l' => match entry_cmp e x with
               | Lt => e :: l
               | Eq => l
               | Gt => x :: entry_insert e l'
               end
  end.
Fixpoint entry_remove (e : UserOperation) (l : list UserOperation) : list UserOperation :=
  match l with
  | [] => []
  | x :: l => match entry_cmp e x with Eq => l | _ => x :: entry_remove e l end
  end.

Record Mempool : Type := mkMempool {
  mp_entries : list UserOperation;
  mp_seen : gset DedupKey;
  mp_sender_counts : gmap bytes usize;
  mp_max_size : usize;
}.

Definition mempool_new (max_size : usize) : Mempool := mkMempool [] ∅ ∅ max_size.

Definition action_size (a : Action) : Z :=
  match a with
  | Deploy code _ => Z.of_nat (length code) + 32
  | Call _ method args => Z.of_nat (length args) + Z.of_nat (String.length method) + 32
  | _ => 64
  end.
Definition op_size (op : UserOperation) : Z :=
  Z.of_nat (length (op_signature op)) + sumZ (map action_size (op_actions op)).

(** One pending operation less for a sender. *)
Definition decrement_count (sender : AccountId) (counts : gmap bytes usize) : gmap bytes usize :=
  match counts !! sender with
  | Some count =>
    let count := (count - 1)%nat in
    if (count =? 0)%nat then delete sender counts else <[sender := count]> counts
  | None => counts
  end.

(** An entry leaves the pool: its key and its share of the count with it. *)
Definition forget (op : UserOperation) (entries : list UserOperation) (p : Mempool) : Mempool :=
  mkMempool entries (mp_seen p ∖ {[dedup_key op]})
    (decrement_count (op_sender op) (mp_sender_counts p)) (mp_max_size p).

(** Room for one more operation: the pool after the eviction, or a refusal. *)
Definition make_room (op : UserOperation) (p : Mempool) : option Mempool :=
  if (mp_max_size p <=? length (mp_entries p))%nat then
    match last (mp_entries p) with
    | Some lowest =>
      if op_max_fee lowest <? op_max_fee op
      then Some (forget lowest (removelast (mp_entries p)) p)
      else None
    | None => None
    end
  else Some p.

Definition mempool_submit (op : UserOperation) (p : Mempool) : Mempool * bool :=
  if bytes_eqb (op_signature op) [255] then (p, false)
  else if MAX_OP_SIZE <? op_size op then (p, false)
  else
  match make_room op p with
  | None => (p, false)
  | Some p =>
    let sender_count := default 0%nat (mp_sender_counts p !! op_sender op) in
    if (MAX_OPS_PER_SENDER <=? sender_count)%nat then (p, false)
    else if bool_decide (dedup_key op ∈ mp_seen p) then (p, false)
    else (mkMempool (entry_insert op (mp_entries p)) ({[dedup_key op]} ∪ mp_seen p)
            (<[op_sender op := (default 0 (mp_sender_counts p !! op_sender op) + 1)%nat]>
               (mp_sender_counts p)) (mp_max_size p), true)
  end.

Definition mempool_clear (p : Mempool) : Mempool := mkMempool [] ∅ ∅ (mp_max_size p).

Fixpoint drain_loop (n : nat) (p : Mempool) (ops : list UserOperation) :
    Mempool * list UserOperation :=
  match n with
  | O => (p, ops)
  | S n =>
    match mp_entries p with
    | entry :: rest => drain_loop n (forget entry rest p) (ops ++ [entry])
    | [] => drain_loop n p ops
    end
  end.
Definition mempool_drain (limit : usize) (p : Mempool) : Mempool * list UserOperation :=
  drain_loop (limit `min` length (mp_entries p)) p [].

Definition same_key (op e : UserOperation) : bool :=
  bytes_eqb (op_sender e) (op_sender op) && (op_nonce e =? op_nonce op).

Definition remove_finalized_op (p : Mempool) (op : UserOperation) : Mempool :=
  if bool_decide (dedup_key op ∈ mp_seen p) then
    let p := mkMempool (mp_entries p) (mp_seen p ∖ {[dedup_key op]}) (mp_sender_counts p)
               (mp_max_size p) in
    match List.find (same_key op) (mp_entries p) with
    | Some entry =>
      mkMempool (entry_remove entry (mp_entries p)) (mp_seen p)
        (decrement_count (op_sender op) (mp_sender_counts p)) (mp_max_size p)
    | None => p
    end
  else p.
Definition remove_finalized (ops : list UserOperation) (p : Mempool) : Mempool :=
  fold_left remove_finalized_op ops p.

Definition mempool_len (p : Mempool) : usize := length (mp_entries p).
Definition pending_count_for_sender (sender : AccountId) (p : Mempool) : usize :=
  default 0%nat (mp_sender_counts p !! sender).
Definition mempool_is_empty (p : Mempool) : bool := (mempool_len p =? 0)%nat.

(** ** Commit and reveal *)

Record OperationCommitment : Type := mkCommitment {
  oc_hash : Hash;
  oc_encrypted_data : bytes;
  oc_sender : AccountId;
  oc_submitted_at : u64;
}.
Record RevealedOperation : Type := mkRevealed {
  ro_hash : Hash;
  ro_operation : UserOperation;
  ro_key : bytes;
}.
Record EncryptedMempool : Type := mkEncrypted {
  em_commitments : gmap bytes OperationCommitment;
  em_revealed : list RevealedOperation;
  em_reveal_window : u64;
  em_max_size : usize;
}.

Definition encrypted_new (max_size : usize) (reveal_window : u64) : EncryptedMempool :=
  mkEncrypted ∅ [] reveal_window max_size.

Definition submit_commitment (c : OperationCommitment) (p : EncryptedMempool) :
    EncryptedMempool * bool :=
  if (em_max_size p <=? size (em_commitments p))%nat then (p, false)
  else (mkEncrypted (<[oc_hash c := c]> (em_commitments p)) (em_revealed p) (em_reveal_window p)
          (em_max_size p), true).

Section encrypted.
Context {crypto : Crypto}.

Definition reveal (commitment_hash : Hash) (operation : UserOperation) (reveal_key : bytes)
    (p : EncryptedMempool) : EncryptedMempool * result unit string :=
  match em_commitments p !! commitment_hash with
  | None => (p, Err "commitment not found"%string)
  | Some c =>
    let expected_hash := blake3 (oc_encrypted_data c ++ oc_sender c) in
    if negb (bytes_eqb expected_hash commitment_hash) then (p, Err "commitment hash mismatch"%string)
    else if negb (bytes_eqb (op_sender operation) (oc_sender c)) then (p, Err "sender mismatch"%string)
    else (mkEncrypted (delete commitment_hash (em_commitments p))
            (em_revealed p ++ [mkRevealed commitment_hash operation reveal_key])
            (em_reveal_window p) (em_max_size p), Ok tt)
  end.

Definition create_commitment (encrypted_data : bytes) (sender : AccountId) (current_block : u64) :
    OperationCommitment :=
  mkCommitment (blake3 (encrypted_data ++ sender)) encrypted_data sender current_block.
End encrypted.

Definition drain_revealed (p : EncryptedMempool) : EncryptedMempool * list UserOperation :=
  (mkEncrypted (em_commitments p) [] (em_reveal_window p) (em_max_size p),
   map ro_operation (em_revealed p)).

Definition expire_commitments (current_block : u64) (p : EncryptedMempool) :
    EncryptedMempool * usize :=
  let kept := filter (fun kv : bytes * OperationCommitment =>
    (current_block <=? u64_add (oc_submitted_at (snd kv)) (em_reveal_window p)) = true)
    (em_commitments p) in
  (mkEncrypted kept (em_revealed p) (em_reveal_window p) (em_max_size p),
   (size (em_commitments p) - size kept)%nat).

Definition pending_commitments (p : EncryptedMempool) : usize := size (em_commitments p).
Definition pending_reveals (p : EncryptedMempool) : usize := length (em_revealed p).

(** ** The order of the entries *)

Lemma bytes_compare_eq a b : bytes_compare a b = Eq <-> a = b.
Proof.
  unfold bytes_compare. destruct (bytes_eqb a b) eqn:E.
  - apply bytes_eqb_true in E. done.
  - apply bytes_eqb_false in E. by destruct (bytes_leb a b).
Qed.

Lemma bytes_compare_lt a b : bytes_compare a b = Lt <-> a <> b /\ bytes_leb a b = true.
Proof.
  unfold bytes_compare. destruct (bytes_eqb a b) eqn:E.
  - apply bytes_eqb_true in E. naive_solver.
  - apply bytes_eqb_false in E. destruct (bytes_leb a b); naive_solver.
Qed.

Lemma bytes_compare_antisym a b : bytes_compare b a = CompOpp (bytes_compare a b).
Proof.
  destruct (bytes_compare a b) eqn:E; cbn.
  - apply bytes_compare_eq in E as ->. by apply bytes_compare_eq.
  - apply bytes_compare_lt in E as [Hn Hl]. unfold bytes_compare.
    rewrite (proj2 (bytes_eqb_false b a)) by congruence.
    destruct (bytes_leb b a) eqn:E2; [|done]. by destruct (Hn (bytes_leb_antisym _ _ Hl E2)).
  - unfold bytes_compare in E. destruct (bytes_eqb a b) eqn:E1; [done|].
    destruct (bytes_leb a b) eqn:E2; [done|]. apply bytes_eqb_false in E1.
    apply bytes_compare_lt. split; [congruence|]. destruct (bytes_leb_total a b); congruence.
Qed.

Lemma bytes_compare_trans a b c :
  bytes_compare a b = Lt -> bytes_compare b c = Lt -> bytes_compare a c = Lt.
Proof.
  rewrite !bytes_compare_lt. intros [H1 H2] [H3 H4]. split; [|by eapply bytes_leb_trans].
  intros ->. by destruct (H1 (bytes_leb_antisym _ _ H2 H4)).
Qed.

Lemma entry_cmp_eq a b :
  entry_cmp a b = Eq <-> op_max_fee a = op_max_fee b /\ dedup_key a = dedup_key b.
Proof.
  unfold entry_cmp, dedup_key. destruct (Z.compare_spec (op_max_fee b) (op_max_fee a)) as [E|E|E].
  - destruct (bytes_compare _ _) eqn:Eb.
    + apply bytes_compare_eq in Eb. rewrite Z.compare_eq_iff. intuition congruence.
    + apply bytes_compare_lt in Eb as [Hn _]. intuition congruence.
    + assert (op_sender a <> op_sender b) by (intros Ex; apply bytes_compare_eq in Ex; congruence).
      intuition congruence.
  - split; [done|]. lia.
  - split; [done|]. lia.
Qed.

Lemma entry_cmp_antisym a b : entry_cmp b a = CompOpp (entry_cmp a b).
Proof.
  unfold entry_cmp. rewrite (Z.compare_antisym (op_max_fee b) (op_max_fee a)).
  destruct (op_max_fee b ?= op_max_fee a); cbn; [|done|done].
  rewrite (bytes_compare_antisym (op_sender a) (op_sender b)).
  destruct (bytes_compare (op_sender a) (op_sender b)); cbn; [|done|done]. apply Z.compare_antisym.
Qed.

Definition entry_lt (a b : UserOperation) : Prop := entry_cmp a b = Lt.

Lemma entry_lt_trans a b c : entry_lt a b -> entry_lt b c -> entry_lt a c.
Proof.
  unfold entry_lt, entry_cmp.
  destruct (Z.compare_spec (op_max_fee b) (op_max_fee a)) as [E1|E1|E1],
    (Z.compare_spec (op_max_fee c) (op_max_fee b)) as [E2|E2|E2]; try done;
    destruct (Z.compare_spec (op_max_fee c) (op_max_fee a)) as [E3|E3|E3]; try done; try lia.
  destruct (bytes_compare (op_sender a) (op_sender b)) eqn:B1; try done;
    destruct (bytes_compare (op_sender b) (op_sender c)) eqn:B2; try done; intros H1 H2.
  - apply bytes_compare_eq in B1, B2. rewrite B1, B2, (proj2 (bytes_compare_eq _ _) eq_refl).
    rewrite Z.compare_lt_iff in *. lia.
  - apply bytes_compare_eq in B1. by rewrite B1, B2.
  - apply bytes_compare_eq in B2. by rewrite <- B2, B1.
  - by rewrite (bytes_compare_trans _ _ _ B1 B2).
Qed.

Lemma entry_lt_fee a b : entry_lt a b -> op_max_fee b <= op_max_fee a.
Proof.
  unfold entry_lt, entry_cmp.
  destruct (Z.compare_spec (op_max_fee b) (op_max_fee a)); try done; lia.
Qed.

(** ** The invariant *)

Definition of_sender (sender : AccountId) (e : UserOperation) : bool := bytes_eqb (op_sender e) sender.
Definition count_of (sender : AccountId) (l : list UserOperation) : nat :=
  length (List.filter (of_sender sender) l).
Definition nonzero (n : nat) : option nat := if (n =? 0)%nat then None else Some n.

Record pool_ok (p : Mempool) : Prop := {
  ok_sorted : StronglySorted entry_lt (mp_entries p);
  ok_keys : NoDup (map dedup_key (mp_entries p));
  ok_seen : mp_seen p = list_to_set (map dedup_key (mp_entries p));
  ok_counts : forall s, mp_sender_counts p !! s = nonzero (count_of s (mp_entries p));
  ok_senders : forall s, (count_of s (mp_entries p) <= MAX_OPS_PER_SENDER)%nat;
  ok_size : (length (mp_entries p) <= mp_max_size p)%nat;
}.

#[export] Instance count_of_proper s : Proper ((≡ₚ) ==> (=)) (count_of s).
Proof.
  unfold count_of. intros l1 l2 Hp. induction Hp; cbn [List.filter]; [done| | |congruence].
  - destruct (of_sender s x); cbn [length]; congruence.
  - by destruct (of_sender s x), (of_sender s y).
Qed.

Lemma count_of_cons s e l :
  count_of s (e :: l) = (if of_sender s e then 1 + count_of s l else count_of s l)%nat.
Proof. unfold count_of. cbn [List.filter]. by destruct (of_sender s e). Qed.

Lemma decrement_count_spec counts e l :
  (forall s, counts !! s = nonzero (count_of s (e :: l))) ->
  forall s, decrement_count (op_sender e) counts !! s = nonzero (count_of s l).
Proof.
  intros Hc s. unfold decrement_count. rewrite (Hc (op_sender e)), count_of_cons.
  unfold of_sender at 1. rewrite bytes_eqb_refl. cbn [nonzero Nat.eqb Nat.add].
  rewrite Nat.sub_1_r. cbn [Nat.pred].
  destruct (decide (s = op_sender e)) as [->|Hn].
  - unfold nonzero. destruct (count_of (op_sender e) l =? 0)%nat; [apply lookup_delete_eq|apply lookup_insert_eq].
  - assert (Hs : counts !! s = nonzero (count_of s l)).
    { rewrite Hc, count_of_cons. unfold of_sender at 1.
      by rewrite (proj2 (bytes_eqb_false (op_sender e) s)) by congruence. }
    destruct (_ =? 0)%nat; [rewrite lookup_delete_ne by done|rewrite lookup_insert_ne by done]; exact Hs.
Qed.

(** Every way an entry leaves the pool. *)
Lemma forget_ok p e l :
  pool_ok p -> mp_entries p ≡ₚ e :: l -> StronglySorted entry_lt l -> pool_ok (forget e l p).
Proof.
  intros [Hs Hk Hse Hc Hm Hz] Hp Hl. split; cbn [forget mp_entries mp_seen mp_sender_counts mp_max_size].
  - done.
  - rewrite Hp in Hk. by apply NoDup_cons in Hk as [_ ?].
  - rewrite Hp in Hk. apply NoDup_cons in Hk as [Hk _]. rewrite Hse.
    assert (Hp' := Permutation_map dedup_key Hp). cbn [map] in Hp'. rewrite Hp'. cbn.
    rewrite difference_union_distr_l_L, difference_diag_L, union_empty_l_L.
    apply difference_disjoint_L, disjoint_singleton_r. by rewrite elem_of_list_to_set.
  - apply decrement_count_spec. intros s. by rewrite Hc, Hp.
  - intros s. specialize (Hm s). rewrite Hp, count_of_cons in Hm.
    destruct (of_sender s e); lia.
  - rewrite Hp in Hz. cbn in Hz. lia.
Qed.

Lemma entry_insert_perm e l :
  dedup_key e ∉ map dedup_key l -> entry_insert e l ≡ₚ e :: l.
Proof.
  induction l as [|x l IH]; cbn [entry_insert map]; intros Hn; [done|].
  apply not_elem_of_cons in Hn as [Hx Hl]. destruct (entry_cmp e x) eqn:E; [|done|].
  - by apply entry_cmp_eq in E as [_ E].
  - rewrite IH by done. constructor.
Qed.

Lemma entry_insert_sorted e l :
  StronglySorted entry_lt l -> StronglySorted entry_lt (entry_insert e l).
Proof.
  induction 1 as [|x l Hs IH Hx]; cbn [entry_insert]; [repeat constructor|].
  destruct (entry_cmp e x) eqn:E; [by constructor| |].
  - constructor; [by constructor|]. constructor; [done|].
    eapply Forall_impl; [exact Hx|]. intros y. by apply entry_lt_trans.
  - constructor; [done|]. rewrite Forall_forall in *. intros y Hy.
    assert (Hin : y = e \/ y ∈ l).
    { clear -Hy. induction l as [|z l IH]; cbn [entry_insert] in Hy.
      - apply list_elem_of_singleton in Hy. by left.
      - destruct (entry_cmp e z); rewrite ?elem_of_cons in *; naive_solver. }
    destruct Hin as [->|Hin]; [|by apply Hx].
    unfold entry_lt. by rewrite entry_cmp_antisym, E.
Qed.

Lemma entry_remove_perm e l :
  NoDup (map dedup_key l) -> e ∈ l -> l ≡ₚ e :: entry_remove e l.
Proof.
  induction l as [|x l IH]; intros Hn Hin; [by apply not_elem_of_nil in Hin|].
  cbn [entry_remove map] in *. apply NoDup_cons in Hn as [Hx Hn].
  apply elem_of_cons in Hin as [->|Hin].
  - by rewrite (proj2 (entry_cmp_eq x x)) by done.
  - assert (E : entry_cmp e x <> Eq).
    { intros [_ E]%entry_cmp_eq. apply Hx. rewrite <- E. by apply list_elem_of_fmap_2. }
    rewrite (IH Hn Hin) at 1. destruct (entry_cmp e x); [done|constructor|constructor].
Qed.

Lemma entry_remove_sorted e l :
  StronglySorted entry_lt l -> StronglySorted entry_lt (entry_remove e l).
Proof.
  induction 1 as [|x l Hs IH Hx]; cbn [entry_remove]; [constructor|].
  assert (Hsub : Forall (entry_lt x) (entry_remove e l)).
  { clear -Hx. induction Hx; cbn [entry_remove]; [constructor|].
    destruct (entry_cmp e x0); auto. }
  destruct (entry_cmp e x); [done|by constructor|by constructor].
Qed.

Lemma removelast_perm {A} (l : list A) x : last l = Some x -> l ≡ₚ x :: removelast l.
Proof.
  intros E. destruct l as [|y l]; [done|].
  rewrite (app_removelast_last x (l := y :: l)) at 1 by done.
  assert (List.last (y :: l) x = x) as ->.
  { clear -E. revert y E. induction l as [|z l IH]; intros y E; cbn in *; [congruence|]. by apply IH. }
  symmetry. apply Permutation_cons_append.
Qed.

Lemma removelast_sorted {A} (R : relation A) l : StronglySorted R l -> StronglySorted R (removelast l).
Proof.
  induction 1 as [|x l Hs IH Hx]; [constructor|]. cbn [removelast]. destruct l as [|y l]; [constructor|].
  constructor; [exact IH|]. clear -Hx. revert Hx. generalize (y :: l) as m. intros m Hm.
  induction Hm as [|z m Hz Hm IH]; cbn [removelast]; [constructor|]. destruct m; [constructor|by constructor].
Qed.

Lemma make_room_ok op p p' :
  pool_ok p -> make_room op p = Some p' ->
  pool_ok p' /\ ((length (mp_entries p') < mp_max_size p')%nat \/ mp_max_size p' = 0%nat)
  /\ mp_max_size p' = mp_max_size p.
Proof.
  intros Hok. unfold make_room. destruct (_ <=? _)%nat eqn:E.
  - apply Nat.leb_le in E. destruct (last (mp_entries p)) as [lowest|] eqn:El; [|done].
    destruct (_ <? _); [|done]. intros [= <-]. pose proof (removelast_perm _ _ El) as Hp.
    pose proof (ok_size p Hok) as Hz.
    split; [apply forget_ok; [done|done|]; apply removelast_sorted, Hok|]. split; [|done]. left.
    cbn [forget mp_entries mp_max_size]. rewrite Hp in Hz at 1. cbn in Hz. lia.
  - apply Nat.leb_gt in E. intros [= <-]. auto.
Qed.

Lemma submit_ok op p : pool_ok p -> pool_ok (fst (mempool_submit op p)).
Proof.
  intros Hok. unfold mempool_submit. destruct (bytes_eqb _ _); [done|]. destruct (_ <? _); [done|].
  destruct (make_room op p) as [p'|] eqn:Er; [|done].
  assert (Hne : mp_max_size p' <> 0%nat).
  { revert Er. unfold make_room. destruct (_ <=? _)%nat eqn:E.
    - destruct (last (mp_entries p)) as [x|] eqn:El; [|done]. destruct (_ <? _); [|done].
      intros [= <-]. cbn. pose proof (ok_size p Hok) as Hz. rewrite (removelast_perm _ _ El) in Hz.
      cbn in Hz. lia.
    - intros [= <-]. apply Nat.leb_gt in E. lia. }
  destruct (make_room_ok _ _ _ Hok Er) as (Hok' & Hroom & _).
  destruct (_ <=? _)%nat eqn:Ec; [done|]. case_bool_decide as Ed; [done|].
  apply Nat.leb_gt in Ec. destruct Hok' as [Hs Hk Hse Hc Hm Hz]. cbn [fst].
  assert (Hn : dedup_key op ∉ map dedup_key (mp_entries p')).
  { by rewrite Hse, elem_of_list_to_set in Ed. }
  pose proof (entry_insert_perm op _ Hn) as Hp.
  assert (Hcount : default 0%nat (mp_sender_counts p' !! op_sender op)
                   = count_of (op_sender op) (mp_entries p')).
  { rewrite Hc. unfold nonzero. destruct (_ =? 0)%nat eqn:E0; [|done]. apply Nat.eqb_eq in E0. done. }
  rewrite Hcount in *. split; cbn [mp_entries mp_seen mp_sender_counts mp_max_size].
  - by apply entry_insert_sorted.
  - rewrite Hp. by constructor.
  - rewrite Hse. assert (Hp' := Permutation_map dedup_key Hp). rewrite Hp'. done.
  - intros s. rewrite Hp, count_of_cons. unfold of_sender.
    destruct (decide (s = op_sender op)) as [->|Hns].
    + rewrite lookup_insert_eq, bytes_eqb_refl. cbn. f_equal. lia.
    + rewrite lookup_insert_ne by done. rewrite (proj2 (bytes_eqb_false _ _)) by congruence. apply Hc.
  - intros s. rewrite Hp, count_of_cons. unfold of_sender.
    destruct (bytes_eqb (op_sender op) s) eqn:Es; [|apply Hm].
    apply bytes_eqb_true in Es as <-. lia.
  - rewrite Hp. cbn. lia.
Qed.

Lemma drain_loop_spec n p ops :
  pool_ok p -> (n <= length (mp_entries p))%nat ->
  pool_ok (fst (drain_loop n p ops))
  /\ mp_entries (fst (drain_loop n p ops)) = drop n (mp_entries p)
  /\ snd (drain_loop n p ops) = ops ++ take n (mp_entries p).
Proof.
  revert p ops. induction n as [|n IH]; intros p ops Hok Hn; cbn [drain_loop].
  - rewrite drop_0, app_nil_r. done.
  - destruct (mp_entries p) as [|e rest] eqn:Ee; cbn [length] in Hn; [lia|].
    assert (Hf : pool_ok (forget e rest p)).
    { apply forget_ok; [done|by rewrite Ee|]. pose proof (ok_sorted p Hok) as Hs. rewrite Ee in Hs.
      by inversion Hs. }
    destruct (IH (forget e rest p) (ops ++ [e]) Hf) as (H1 & H2 & H3); [cbn; lia|].
    split; [done|]. rewrite H2, H3. split; [done|]. by rewrite <- app_assoc.
Qed.

Lemma same_key_true op e : same_key op e = true <-> dedup_key e = dedup_key op.
Proof.
  unfold same_key, dedup_key. rewrite andb_true_iff, bytes_eqb_true, Z.eqb_eq.
  split; [intros [-> ->]; done|intros [= -> ->]; done].
Qed.

Lemma entry_remove_filter op e l :
  NoDup (map dedup_key l) -> e ∈ l -> dedup_key e = dedup_key op ->
  entry_remove e l = List.filter (fun x => negb (same_key op x)) l.
Proof.
  induction l as [|x l IH]; intros Hn Hin Hk; [by apply not_elem_of_nil in Hin|].
  cbn [entry_remove List.filter map] in *. apply NoDup_cons in Hn as [Hx Hn].
  apply elem_of_cons in Hin as [->|Hin].
  - rewrite (proj2 (entry_cmp_eq x x)) by done. rewrite (proj2 (same_key_true op x) Hk). cbn [negb].
    symmetry. clear IH Hn. rewrite Hk in Hx. clear Hk. induction l as [|y l IH]; [done|].
    cbn [List.filter map] in *. apply not_elem_of_cons in Hx as [Hy Hx].
    destruct (same_key op y) eqn:E; [apply same_key_true in E; congruence|]. cbn [negb]. f_equal. auto.
  - assert (Hne : dedup_key x <> dedup_key op).
    { intros E. apply Hx. rewrite E, <- Hk. by apply list_elem_of_fmap_2. }
    assert (E : entry_cmp e x <> Eq) by (intros [_ E]%entry_cmp_eq; congruence).
    destruct (same_key op x) eqn:Es; [apply same_key_true in Es; done|]. cbn [negb].
    destruct (entry_cmp e x); [done|f_equal; auto|f_equal; auto].
Qed.

Lemma remove_finalized_op_spec p op :
  pool_ok p ->
  pool_ok (remove_finalized_op p op)
  /\ mp_entries (remove_finalized_op p op)
     = List.filter (fun e => negb (same_key op e)) (mp_entries p).
Proof.
  intros Hok. unfold remove_finalized_op. case_bool_decide as Ed; cbn [mp_entries mp_seen mp_sender_counts mp_max_size].
  - rewrite (ok_seen p Hok), elem_of_list_to_set in Ed. apply list_elem_of_fmap in Ed as (e0 & Ek & He0).
    destruct (List.find (same_key op) (mp_entries p)) as [e|] eqn:Ef.
    + apply find_elem in Ef as [Hin Hk]. apply same_key_true in Hk.
      assert (op_sender op = op_sender e) as Es by (unfold dedup_key in Hk; congruence).
      rewrite Es, <- Hk.
      change (pool_ok (forget e (entry_remove e (mp_entries p)) p)
              /\ entry_remove e (mp_entries p)
                 = List.filter (fun e => negb (same_key op e)) (mp_entries p)).
      split; [|by apply entry_remove_filter; [apply Hok| |]].
      apply forget_ok; [done| |apply entry_remove_sorted, Hok]. apply entry_remove_perm; [apply Hok|done].
    + pose proof (find_none_elem _ _ Ef e0 He0) as Hn.
      rewrite (proj2 (same_key_true op e0)) in Hn by done. done.
  - split; [done|]. rewrite (ok_seen p Hok), elem_of_list_to_set in Ed. symmetry.
    clear Hok. induction (mp_entries p) as [|e l IH]; [done|]. cbn [List.filter map] in *.
    apply not_elem_of_cons in Ed as [He Hl].
    destruct (same_key op e) eqn:E; [apply same_key_true in E; congruence|]. cbn [negb].
    by rewrite IH.
Qed.

Lemma remove_finalized_spec ops p :
  pool_ok p ->
  pool_ok (remove_finalized ops p)
  /\ mp_entries (remove_finalized ops p)
     = List.filter (fun e => negb (existsb (fun op => same_key op e) ops)) (mp_entries p).
Proof.
  revert p. induction ops as [|op ops IH]; intros p Hok; cbn [remove_finalized fold_left].
  - split; [done|]. symmetry. cbn [existsb negb]. induction (mp_entries p); cbn; congruence.
  - destruct (remove_finalized_op_spec p op Hok) as [Hok1 He1].
    destruct (IH _ Hok1) as [Hok2 He2]. split; [done|]. etrans; [exact He2|]. rewrite He1. clear.
    induction (mp_entries p) as [|e l IHl]; [done|]. cbn [List.filter existsb].
    destruct (same_key op e); cbn [negb orb List.filter]; [done|].
    destruct (existsb _ ops); cbn [negb]; [done|by f_equal].
Qed.

(** C19: the invariant of the pool - entries sorted by fee then sender and nonce,
    no two with one sender and nonce, the duplicate filter and the per-sender
    counters exactly those of the entries, no sender above its limit and the
    pool within its size - holds initially and is kept by every operation. *)
Theorem mempool_invariant :
  (forall n, pool_ok (mempool_new n))
  /\ (forall op p, pool_ok p -> pool_ok (fst (mempool_submit op p)))
  /\ (forall limit p, pool_ok p -> pool_ok (fst (mempool_drain limit p)))
  /\ (forall ops p, pool_ok p -> pool_ok (remove_finalized ops p))
  /\ (forall p, pool_ok (mempool_clear p)).
Proof.
  assert (Hempty : forall n, pool_ok (mempool_new n)).
  { intros n. split; cbn; [constructor|constructor|done|done| |lia].
    intros s. unfold count_of. cbn. lia. }
  split; [done|]. split; [intros; by apply submit_ok|].
  split; [intros limit p Hok; apply (drain_loop_spec _ _ _ Hok), Nat.le_min_r|].
  split; [intros; by apply remove_finalized_spec|]. intros p. apply (Hempty (mp_max_size p)).
Qed.

(** Draining takes the operations off the front of the pool: at most the
    limit, the best paid first, each exactly once, leaving the others; and
    finalised operations leave the pool whatever fee they were submitted with,
    the others stay in order. *)
Theorem mempool_drain_best limit ops p :
  pool_ok p ->
  snd (mempool_drain limit p) = take limit (mp_entries p)
  /\ mp_entries (fst (mempool_drain limit p)) = drop limit (mp_entries p)
  /\ (forall x y, x ∈ take limit (mp_entries p) -> y ∈ drop limit (mp_entries p) ->
      op_max_fee y <= op_max_fee x)
  /\ mp_entries (remove_finalized ops p)
     = List.filter (fun e => negb (existsb (fun op => same_key op e) ops)) (mp_entries p).
Proof.
  intros Hok. unfold mempool_drain.
  destruct (drain_loop_spec (limit `min` length (mp_entries p)) p [] Hok (Nat.le_min_r _ _)) as (_ & Hd & Ht).
  assert (Htake : take (limit `min` length (mp_entries p)) (mp_entries p) = take limit (mp_entries p)).
  { destruct (Nat.min_spec limit (length (mp_entries p))) as [[_ ->]|[? ->]]; [done|].
    by rewrite !take_ge by lia. }
  assert (Hdrop : drop (limit `min` length (mp_entries p)) (mp_entries p) = drop limit (mp_entries p)).
  { destruct (Nat.min_spec limit (length (mp_entries p))) as [[_ ->]|[? ->]]; [done|].
    by rewrite !drop_ge by lia. }
  rewrite Hd, Ht, Htake, Hdrop. split; [done|]. split; [done|].
  split; [|by apply remove_finalized_spec].
  intros x y Hx Hy. apply entry_lt_fee.
  pose proof (ok_sorted p Hok) as Hs. rewrite <- (take_drop limit (mp_entries p)) in Hs.
  by apply (StronglySorted_app_1_elem_of _ _ _ _ _ Hs).
Qed.

(** A submission is accepted only if it does not carry the marker of the
    operations the proposer injects, is within the size limit, is new and its
    sender is below the limit; then it is in the pool, and at most one other
    operation, one that pays less, had to leave for it. *)
Theorem submit_accepted op p p' :
  pool_ok p -> mempool_submit op p = (p', true) ->
  op_signature op <> [255] /\ op_size op <= MAX_OP_SIZE
  /\ (count_of (op_sender op) (mp_entries p') <= MAX_OPS_PER_SENDER)%nat
  /\ ((~ (dedup_key op ∈ map dedup_key (mp_entries p)) /\ mp_entries p' ≡ₚ op :: mp_entries p)
      \/ exists lowest rest, mp_entries p ≡ₚ lowest :: rest /\ mp_entries p' ≡ₚ op :: rest
           /\ ~ (dedup_key op ∈ map dedup_key rest)
           /\ op_max_fee lowest < op_max_fee op).
Proof.
  intros Hok E. pose proof (submit_ok op p Hok) as Hok2. rewrite E in Hok2. cbn [fst] in Hok2.
  unfold mempool_submit in E. destruct (bytes_eqb _ _) eqn:Es; [done|]. apply bytes_eqb_false in Es.
  destruct (_ <? _) eqn:Ez; [done|]. apply Z.ltb_ge in Ez.
  destruct (make_room op p) as [q|] eqn:Er; [|done].
  destruct (make_room_ok _ _ _ Hok Er) as (Hq & _ & _).
  destruct (_ <=? _)%nat; [done|]. case_bool_decide as Ed; [done|]. injection E as <-.
  rewrite (ok_seen q Hq), elem_of_list_to_set in Ed.
  pose proof (entry_insert_perm op _ Ed) as Hp. cbn [mp_entries] in *.
  split; [done|]. split; [done|]. split; [apply (ok_senders _ Hok2)|].
  unfold make_room in Er. destruct (_ <=? _)%nat; [right|left].
  - destruct (last (mp_entries p)) as [lowest|] eqn:El; [|done].
    destruct (op_max_fee lowest <? op_max_fee op) eqn:Ef; [|done]. injection Er as <-.
    exists lowest, (removelast (mp_entries p)). apply Z.ltb_lt in Ef.
    split; [by apply removelast_perm|]. done.
  - injection Er as <-. done.
Qed.

(** A commitment is revealed by its sender at most once, and the revealed
    operation is the next to be drained. *)
Theorem reveal_once {crypto : Crypto} h op key p p' :
  reveal h op key p = (p', Ok tt) ->
  (exists c, em_commitments p !! h = Some c /\ h = blake3 (oc_encrypted_data c ++ oc_sender c)
     /\ op_sender op = oc_sender c)
  /\ snd (drain_revealed p') = snd (drain_revealed p) ++ [op]
  /\ (forall op' key', snd (reveal h op' key' p') = Err "commitment not found"%string).
Proof.
  unfold reveal. destruct (em_commitments p !! h) as [c|] eqn:Ec; [|done].
  destruct (bytes_eqb _ h) eqn:Eh; [|done]. destruct (bytes_eqb (op_sender op) _) eqn:Es; [|done].
  cbn [negb]. intros [= <-]. apply bytes_eqb_true in Eh, Es.
  split; [eauto|]. split; [cbn; by rewrite map_app|].
  intros op' key'. cbn. by rewrite lookup_delete_eq.
Qed.

(** Nothing ties the revealed operation to the committed data: whatever was
    committed to, the sender can reveal any operation of its own, chosen after
    the order was fixed. *)
Lemma reveal_any_operation {crypto : Crypto} data sender block p op key :
  let c := create_commitment data sender block in
  snd (submit_commitment c p) = true -> op_sender op = sender ->
  snd (reveal (oc_hash c) op key (fst (submit_commitment c p))) = Ok tt.
Proof.
  intros c. unfold submit_commitment. destruct (_ <=? _)%nat; [done|]. intros _ Hs.
  unfold reveal. cbn. rewrite lookup_insert_eq. cbn. by rewrite Hs, !bytes_eqb_refl.
Qed.

(** ** Concrete runs *)

Definition demo_op (sender nonce fee : Z) : UserOperation :=
  mkUserOperation (demo_key sender) nonce [Transfer (demo_key 9) 10] fee [1].
Definition demo_pool : Mempool :=
  fst (mempool_submit (demo_op 2 0 50) (fst (mempool_submit (demo_op 1 0 100) (mempool_new 2)))).

Lemma demo_pool_ok : pool_ok demo_pool.
Proof.
  unfold demo_pool. do 2 apply submit_ok.
  split; cbn; [constructor|constructor|done|done|intros s; unfold count_of; cbn; lia|lia].
Qed.

(** A duplicate that outbids the cheapest entry of a full pool is refused, but
    the cheapest entry is gone. *)
Example rejected_submission_evicts :
  let '(p, accepted) := mempool_submit (demo_op 1 0 200) demo_pool in
  accepted = false /\ map op_max_fee (mp_entries demo_pool) = [100; 50]
  /\ map op_max_fee (mp_entries p) = [100].
Proof. vm_compute. done. Qed.

Lemma mempool_drain_best_witness :
  snd (mempool_drain 1 demo_pool) = [demo_op 1 0 100]
  /\ mp_entries (remove_finalized [demo_op 2 0 7] demo_pool) = [demo_op 1 0 100].
Proof.
  destruct (mempool_drain_best 1 [demo_op 2 0 7] demo_pool demo_pool_ok) as (-> & _ & _ & ->).
  vm_compute. done.
Defined.

Lemma submit_accepted_witness :
  op_signature (demo_op 3 0 70) <> [255] /\ op_size (demo_op 3 0 70) <= MAX_OP_SIZE.
Proof.
  destruct (submit_accepted (demo_op 3 0 70) demo_pool
              (fst (mempool_submit (demo_op 3 0 70) demo_pool)) demo_pool_ok) as (H1 & H2 & _).
  - assert (E : snd (mempool_submit (demo_op 3 0 70) demo_pool) = true) by (vm_compute; reflexivity).
    rewrite <- E. apply surjective_pairing.
  - split; [exact H1|exact H2].
Defined.

Definition demo_commitment : OperationCommitment := create_commitment [5] (demo_key 1) 10.
Definition demo_encrypted : EncryptedMempool := fst (submit_commitment demo_commitment (encrypted_new 4 5)).

Lemma reveal_once_witness :
  snd (drain_revealed (fst (reveal (oc_hash demo_commitment) (demo_op 1 0 5) [1] demo_encrypted)))
  = [demo_op 1 0 5].
Proof.
  destruct (reveal_once (oc_hash demo_commitment) (demo_op 1 0 5) [1] demo_encrypted
    (fst (reveal (oc_hash demo_commitment) (demo_op 1 0 5) [1] demo_encrypted))) as (_ & -> & _).
  - assert (E : snd (reveal (oc_hash demo_commitment) (demo_op 1 0 5) [1] demo_encrypted) = Ok tt)
      by (vm_compute; reflexivity).
    rewrite <- E. apply surjective_pairing.
  - vm_compute. reflexivity.
Defined.
