(* ===== verification/Intents.v ===== *)
(** Intents: the pool and the built-in solver ([crates/solen-intents/src]), and
    the operations a proposer builds from their solutions
    ([crates/solen-consensus/src/engine.rs], [produce_block]). *)

From S2P Require Import Prelude Types Store Memory Codec State SysCommon SysIntent Auth Validators Mempool.
Open Scope Z_scope.

(** ** Data ([types.rs]) *)

Inductive IntentConstraint : Type :=
| IMinBalance (account : AccountId) (min_amount : u128)
| IMaxSpend (account : AccountId) (max_amount : u128)
| IRequireTransfer (from to : AccountId) (min_amount : u128)
| IRequireCall (target : AccountId) (method : string)
| ICrossChainSwap (input_amount min_output : u128) (destination_chain : u64)
    (destination_address output_token : bytes)
| ICustom (verifier : AccountId) (data : bytes).

Record Intent : Type := mkIntent {
  it_id : u64;
  it_sender : AccountId;
  it_constraints : list IntentConstraint;
  it_max_fee : u128;
  it_expiry_height : u64;
  it_signature : bytes;
  it_tip : u128;
}.

Inductive IntentStatus : Type := IPending | IMatched | IFulfilled | IExpired | ICancelled.

#[export] Instance IntentStatus_eq_dec : EqDecision IntentStatus.
Proof. solve_decision. Defined.

Record Solution : Type := mkSolution {
  so_intent_id : u64;
  so_solver : AccountId;
  so_operations : list UserOperation;
  so_claimed_tip : u128;
  so_score : u64;
  so_signature : bytes;
}.

(** ** The pool ([pool.rs]) *)

Inductive PoolError : Type :=
| PFull
| PNotFound (id : u64)
| PAlreadyFulfilled
| PInvalidSignature
| PExpired
| PNoSolution (id : u64).

Record IntentPool : Type := mkIntentPool {
  ip_intents : gmap Z (Intent * IntentStatus);
  ip_solutions : gmap Z (list Solution);
  ip_next_id : u64;
  ip_max_size : usize;
}.

Definition intent_pool_new (max_size : usize) : IntentPool := mkIntentPool ∅ ∅ 0 max_size.

Definition set_it_id (id : u64) (i : Intent) : Intent :=
  mkIntent id (it_sender i) (it_constraints i) (it_max_fee i) (it_expiry_height i) (it_signature i)
    (it_tip i).
Definition set_ip_intents (m : gmap Z (Intent * IntentStatus)) (p : IntentPool) : IntentPool :=
  mkIntentPool m (ip_solutions p) (ip_next_id p) (ip_max_size p).

Definition intent_submit (intent : Intent) (p : IntentPool) : IntentPool * result u64 PoolError :=
  if (ip_max_size p <=? size (ip_intents p))%nat then (p, Err PFull)
  else
  let id := ip_next_id p in
  (mkIntentPool (<[id := (set_it_id id intent, IPending)]> (ip_intents p)) (ip_solutions p)
     (u64_add id 1) (ip_max_size p), Ok id).

Definition MAX_SOLUTIONS_PER_INTENT : usize := 50%nat.

Definition solution_message (s : Solution) : bytes :=
  le_bytes 8 (so_intent_id s) ++ so_solver s ++ le_bytes 16 (so_claimed_tip s).

Section solutions.
Context {crypto : Crypto}.

Definition submit_solution (s : Solution) (p : IntentPool) : IntentPool * result unit PoolError :=
  if negb (length (so_signature s) =? 64)%nat then (p, Err PInvalidSignature)
  else if negb (ed25519_verify (so_solver s) (solution_message s) (so_signature s))
  then (p, Err PInvalidSignature)
  else
  match ip_intents p !! so_intent_id s with
  | None => (p, Err (PNotFound (so_intent_id s)))
  | Some (_, status) =>
    if bool_decide (status = IFulfilled) then (p, Err PAlreadyFulfilled)
    else
    let entry := default [] (ip_solutions p !! so_intent_id s) in
    let put l := mkIntentPool (ip_intents p) (<[so_intent_id s := l]> (ip_solutions p))
                   (ip_next_id p) (ip_max_size p) in
    if (MAX_SOLUTIONS_PER_INTENT <=? length entry)%nat then (put entry, Err PFull)
    else (put (entry ++ [s]), Ok tt)
  end.
End solutions.

(** [max_by]: of equal candidates the last one. *)
Definition solution_leb (a b : Solution) : bool :=
  (so_score a <? so_score b) || ((so_score a =? so_score b) && (so_claimed_tip b <=? so_claimed_tip a)).
Definition best_of (best s : Solution) : Solution := if solution_leb best s then s else best.

Definition select_best_solution (id : u64) (p : IntentPool) : result Solution PoolError :=
  match ip_solutions p !! id with
  | None | Some [] => Err (PNoSolution id)
  | Some (first :: rest) => Ok (fold_left best_of rest first)
  end.

Definition intent_fulfill (id : u64) (p : IntentPool) : IntentPool * result unit PoolError :=
  match ip_intents p !! id with
  | None => (p, Err (PNotFound id))
  | Some (i, _) => (set_ip_intents (<[id := (i, IFulfilled)]> (ip_intents p)) p, Ok tt)
  end.

Definition intent_cancel (id : u64) (sender : AccountId) (p : IntentPool) :
    IntentPool * result unit PoolError :=
  match ip_intents p !! id with
  | None => (p, Err (PNotFound id))
  | Some (i, _) =>
    if negb (bytes_eqb (it_sender i) sender) then (p, Err (PNotFound id))
    else (set_ip_intents (<[id := (i, ICancelled)]> (ip_intents p)) p, Ok tt)
  end.

Definition is_pending (x : Intent * IntentStatus) : bool := bool_decide (snd x = IPending).
Definition expires (current_height : u64) (x : Intent * IntentStatus) : bool :=
  is_pending x && (it_expiry_height (fst x) <? current_height).

Definition intent_expire (current_height : u64) (p : IntentPool) : IntentPool * usize :=
  (set_ip_intents ((fun x => if expires current_height x then (fst x, IExpired) else x)
     <$> ip_intents p) p,
   length (List.filter (fun kv => expires current_height (snd kv)) (map_to_list (ip_intents p)))).

Definition pending_intents (p : IntentPool) : list Intent :=
  stable_sort (fun a b => it_id a <=? it_id b)
    (map fst (List.filter is_pending (map snd (map_to_list (ip_intents p))))).

Definition intent_pending_count (p : IntentPool) : usize :=
  length (List.filter is_pending (map snd (map_to_list (ip_intents p)))).

(** ** The built-in solver ([solver.rs]) *)

Definition required_transfer (c : IntentConstraint) : option Action :=
  match c with
  | IRequireTransfer _ to min_amount => Some (Transfer to min_amount)
  | _ => None
  end.

Definition direct_transfer_solve (solver_id : AccountId) (intent : Intent) : option Solution :=
  let actions := omap required_transfer (it_constraints intent) in
  match actions with
  | [] => None
  | _ =>
    let op := mkUserOperation (it_sender intent) 0 actions (it_max_fee intent) [] in
    Some (mkSolution (it_id intent) solver_id [op] (it_tip intent / 2) 100 [])
  end.

(** ** The operations a proposer injects ([engine.rs]) *)

(** The solution for one pending intent at a height. *)
Definition choose_solution (validator_id : AccountId) (current_height : u64) (p : IntentPool)
    (intent : Intent) : option Solution :=
  match select_best_solution (it_id intent) p with
  | Ok s => Some s
  | Err _ =>
    let blocks_pending := sat_sub current_height (sat_sub (it_expiry_height intent) 500) in
    if 2 <=? blocks_pending then direct_transfer_solve validator_id intent else None
  end.

Definition solution_transfers (s : Solution) : list (AccountId * u128) :=
  omap (fun a => match a with Transfer to amount => Some (to, amount) | _ => None end)
    (concat (map op_actions (so_operations s))).

Definition encode_constraint (c : IntentConstraint) : bytes :=
  match c with
  | IMinBalance account min_amount => [0] ++ account ++ le_bytes 16 min_amount
  | IMaxSpend account max_amount => [1] ++ account ++ le_bytes 16 max_amount
  | IRequireTransfer from to min_amount => [2] ++ from ++ to ++ le_bytes 16 min_amount
  | IRequireCall target method =>
    [3] ++ target ++ le_bytes 4 (Z.of_nat (length (bytes_of_string method))) ++ bytes_of_string method
  | ICrossChainSwap input_amount min_output chain address token =>
    [4] ++ le_bytes 16 input_amount ++ le_bytes 16 min_output ++ le_bytes 8 chain ++ address ++ token
  | ICustom _ _ => []
  end.

Definition fulfill_args (intent : Intent) (s : Solution) : bytes :=
  let transfers := solution_transfers s in
  le_bytes 8 (it_id intent) ++ so_solver s ++ le_bytes 16 (so_claimed_tip s)
  ++ le_bytes 4 (Z.of_nat (length transfers))
  ++ concat (map (fun t => fst t ++ le_bytes 16 (snd t)) transfers)
  ++ le_bytes 4 (Z.of_nat (length (it_constraints intent)))
  ++ concat (map encode_constraint (it_constraints intent)).

Definition fulfill_operation (intent : Intent) (s : Solution) : UserOperation :=
  mkUserOperation (it_sender intent) 0 [Call INTENT_ADDRESS "fulfill" (fulfill_args intent s)]
    (it_max_fee intent) [255].

(** The loop over the pending intents: their operations, and the pool in which
    the included ones are fulfilled. *)
Fixpoint include_intents (validator_id : AccountId) (current_height : u64) (pending : list Intent)
    (p : IntentPool) (ops : list UserOperation) : IntentPool * list UserOperation :=
  match pending with
  | [] => (p, ops)
  | intent :: pending =>
    match choose_solution validator_id current_height p intent with
    | Some s => include_intents validator_id current_height pending
                  (fst (intent_fulfill (it_id intent) p)) (ops ++ [fulfill_operation intent s])
    | None => include_intents validator_id current_height pending p ops
    end
  end.

Definition intent_operations (validator_id : AccountId) (current_height : u64) (p : IntentPool)
    (ops : list UserOperation) : IntentPool * list UserOperation :=
  let p := fst (intent_expire current_height p) in
  include_intents validator_id current_height (pending_intents p) p ops.

(** ** The pool's invariant *)

(** Every intent is filed under its own identifier, which was handed out. *)
Definition intents_wf (p : IntentPool) : Prop :=
  forall id x, ip_intents p !! id = Some x -> it_id (fst x) = id /\ 0 <= id < ip_next_id p.

Lemma insert_status_wf p id i st :
  intents_wf p -> (exists st', ip_intents p !! id = Some (i, st')) ->
  intents_wf (set_ip_intents (<[id := (i, st)]> (ip_intents p)) p).
Proof.
  intros Hwf [st' Hi] k x. cbn. rewrite lookup_insert. case_decide as E.
  - intros [= <-]. subst. by apply (Hwf k (i, st')).
  - apply Hwf.
Qed.

Lemma fulfill_wf id p : intents_wf p -> intents_wf (fst (intent_fulfill id p)).
Proof.
  intros Hwf. unfold intent_fulfill. destruct (ip_intents p !! id) as [[i st]|] eqn:E; [|done].
  apply insert_status_wf; eauto.
Qed.

Lemma expire_lookup h p id :
  ip_intents (fst (intent_expire h p)) !! id
  = (fun x => if expires h x then (fst x, IExpired) else x) <$> ip_intents p !! id.
Proof. cbn. apply lookup_fmap. Qed.

Lemma expire_wf h p : intents_wf p -> intents_wf (fst (intent_expire h p)).
Proof.
  intros Hwf id x. rewrite expire_lookup. intros (y & Hy & ->)%fmap_Some.
  destruct (expires h y); by apply (Hwf id y).
Qed.

Lemma submit_wf i p :
  intents_wf p -> 0 <= ip_next_id p < u64_max ->
  intents_wf (fst (intent_submit i p))
  /\ forall id, snd (intent_submit i p) = Ok id ->
       ip_intents p !! id = None
       /\ ip_intents (fst (intent_submit i p)) = <[id := (set_it_id id i, IPending)]> (ip_intents p).
Proof.
  intros Hwf Hn. unfold intent_submit. destruct (_ <=? _)%nat; cbn [fst snd]; [by split|].
  assert (Hfresh : ip_intents p !! ip_next_id p = None).
  { destruct (ip_intents p !! ip_next_id p) eqn:E; [|done]. apply Hwf in E. lia. }
  rewrite u64_add_exact by lia. split.
  - intros id x. cbn. rewrite lookup_insert. case_decide as E.
    + intros [= <-]. cbn. lia.
    + intros Hx. apply Hwf in Hx. lia.
  - intros id [= <-]. done.
Qed.

(** The pool files every intent under the identifier it handed out, through
    submissions, solutions, fulfilment, cancellation and expiry; a fresh
    identifier never overwrites an intent. *)
Theorem intent_pool_invariant {crypto : Crypto} p :
  intents_wf p -> 0 <= ip_next_id p < u64_max ->
  (forall i, intents_wf (fst (intent_submit i p))
     /\ forall id, snd (intent_submit i p) = Ok id ->
          ip_intents p !! id = None
          /\ ip_intents (fst (intent_submit i p)) = <[id := (set_it_id id i, IPending)]> (ip_intents p))
  /\ (forall s, intents_wf (fst (submit_solution s p)))
  /\ (forall id, intents_wf (fst (intent_fulfill id p)))
  /\ (forall id a, intents_wf (fst (intent_cancel id a p)))
  /\ (forall h, intents_wf (fst (intent_expire h p))).
Proof.
  intros Hwf Hn. split; [|split; [|split; [|split]]].
  - intros i. by apply submit_wf.
  - intros s. unfold submit_solution. cbv zeta. repeat case_match; exact Hwf.
  - intros id. by apply fulfill_wf.
  - intros id a. unfold intent_cancel. destruct (ip_intents p !! id) as [[i st]|] eqn:E; [|done].
    destruct (negb _); [done|]. apply insert_status_wf; eauto.
  - intros h. by apply expire_wf.
Qed.

(** ** The order of the pending intents *)

Lemma pending_elem p i :
  i ∈ pending_intents p <-> exists id, ip_intents p !! id = Some (i, IPending).
Proof.
  unfold pending_intents. rewrite stable_sort_perm, list_elem_of_fmap. split.
  - intros ([j st] & -> & Hin). apply list_elem_of_In, filter_In in Hin as [Hin Hp].
    apply bool_decide_eq_true in Hp. cbn in Hp. subst st.
    apply list_elem_of_In, list_elem_of_fmap in Hin as ([id y] & Ey & Hin). cbn in Ey. subst y.
    exists id. by apply elem_of_map_to_list.
  - intros (id & Hi). exists (i, IPending). split; [done|].
    apply list_elem_of_In, filter_In. split; [|done]. apply list_elem_of_In, list_elem_of_fmap.
    exists (id, (i, IPending)). split; [done|]. by apply elem_of_map_to_list.
Qed.

(** A selection of the values keeps the distinct keys they carry. *)
Lemma NoDup_values {A} (key : A -> Z) (p : A -> bool) (l : list (Z * A)) :
  NoDup (map fst l) -> Forall (fun kv => key (snd kv) = fst kv) l ->
  NoDup (map key (List.filter p (map snd l))).
Proof.
  intros Hn Hk. apply NoDup_map_filter. rewrite map_map.
  replace (map (fun kv => key (snd kv)) l) with (map fst l); [done|].
  induction Hk as [|kv l E Hk IH]; [done|]. cbn [map] in *. apply NoDup_cons in Hn as [_ Hn].
  by rewrite E, IH.
Qed.

Lemma pending_ids_NoDup p : intents_wf p -> NoDup (map it_id (pending_intents p)).
Proof.
  intros Hwf. unfold pending_intents. rewrite stable_sort_perm, map_map.
  apply (NoDup_values (fun x => it_id (fst x))); [apply NoDup_fst_map_to_list|].
  apply Forall_forall. intros [k x] Hk%elem_of_map_to_list. by apply Hwf in Hk as [? _].
Qed.

Lemma id_leb_total (a b : Intent) : (it_id a <=? it_id b) = true \/ (it_id b <=? it_id a) = true.
Proof. rewrite !Z.leb_le. lia. Qed.
Lemma id_leb_trans (a b c : Intent) :
  (it_id a <=? it_id b) = true -> (it_id b <=? it_id c) = true -> (it_id a <=? it_id c) = true.
Proof. rewrite !Z.leb_le. lia. Qed.

Lemma pending_sorted p :
  intents_wf p -> StronglySorted (fun a b => it_id a < it_id b) (pending_intents p).
Proof.
  intros Hwf. pose proof (pending_ids_NoDup p Hwf) as Hn.
  assert (Hs := stable_sort_sorted (fun a b => it_id a <=? it_id b) id_leb_total id_leb_trans
    (map fst (List.filter is_pending (map snd (map_to_list (ip_intents p)))))).
  fold (pending_intents p) in Hs. revert Hs Hn. generalize (pending_intents p). clear.
  induction 1 as [|a l Hs IH Ha]; cbn; [constructor|].
  intros [Hn1 Hn2]%NoDup_cons. constructor; [auto|]. rewrite Forall_forall in *. intros b Hb.
  specialize (Ha b Hb). apply Z.leb_le in Ha. enough (it_id a <> it_id b) by lia.
  intros E. apply Hn1. rewrite E. by apply list_elem_of_fmap_2.
Qed.

(** The pending intents are listed in the order of their identifiers, each
    once, exactly those that are pending, whatever order the hash map
    enumerates its entries in. *)
Theorem pending_order p (entries : list (Z * (Intent * IntentStatus))) :
  intents_wf p -> entries ≡ₚ map_to_list (ip_intents p) ->
  stable_sort (fun a b => it_id a <=? it_id b) (map fst (List.filter is_pending (map snd entries)))
    = pending_intents p
  /\ StronglySorted (fun a b => it_id a < it_id b) (pending_intents p)
  /\ (forall i, i ∈ pending_intents p <-> exists id, ip_intents p !! id = Some (i, IPending)).
Proof.
  intros Hwf Hp.
  split; [|split; [|apply pending_elem]].
  - apply stable_sort_unique; [apply id_leb_total|apply id_leb_trans|by rewrite Hp|].
    intros a b Ha Hb. rewrite !Z.leb_le. intros H1 H2.
    assert (Hin : forall x, x ∈ map fst (List.filter is_pending (map snd entries)) ->
      ip_intents p !! it_id x = Some (x, IPending)).
    { intros x Hx. rewrite Hp in Hx.
      assert (Hx' : x ∈ pending_intents p) by (unfold pending_intents; by rewrite stable_sort_perm).
      apply pending_elem in Hx' as [id Hid]. destruct (Hwf _ _ Hid) as [E _]. cbn in E. by rewrite E. }
    apply Hin in Ha, Hb. assert (it_id a = it_id b) as E by lia. rewrite E in Ha. congruence.
  - by apply pending_sorted.
Qed.

(** ** Solutions *)

Definition better_or_equal (a b : Solution) : Prop :=
  so_score b < so_score a \/ (so_score a = so_score b /\ so_claimed_tip a <= so_claimed_tip b).

Lemma solution_leb_spec a b : solution_leb a b = true <-> better_or_equal b a.
Proof.
  unfold solution_leb, better_or_equal.
  rewrite orb_true_iff, andb_true_iff, Z.ltb_lt, Z.eqb_eq, Z.leb_le. lia.
Qed.

Lemma best_of_spec rest first :
  let best := fold_left best_of rest first in
  best ∈ first :: rest /\ Forall (better_or_equal best) (first :: rest).
Proof.
  revert first. induction rest as [|s rest IH]; intros first; cbn [fold_left].
  - split; [by left|]. constructor; [|constructor]. unfold better_or_equal. lia.
  - specialize (IH (best_of first s)). destruct IH as [H1 H2].
    set (best := fold_left best_of rest (best_of first s)) in *.
    apply Forall_cons in H2 as [H2 H3].
    assert (Hb : best_of first s ∈ [first; s]
                 /\ better_or_equal (best_of first s) first /\ better_or_equal (best_of first s) s).
    { unfold best_of. destruct (solution_leb first s) eqn:E.
      - apply solution_leb_spec in E. split; [right; left|]. split; [done|]. unfold better_or_equal. lia.
      - split; [left|]. split; [unfold better_or_equal; lia|].
        assert (~ better_or_equal s first) by (rewrite <- solution_leb_spec; congruence).
        unfold better_or_equal in *. lia. }
    destruct Hb as (Hb1 & Hb2 & Hb3). split.
    + apply elem_of_cons in H1 as [->|H1]; [|set_solver]. set_solver.
    + constructor; [|constructor]; [| |done]; unfold better_or_equal in *; lia.
Qed.

(** The solution selected for an intent is one that was submitted for it,
    and none has a higher score, or the same score and a lower tip. *)
Theorem best_solution p id s :
  select_best_solution id p = Ok s ->
  exists l, ip_solutions p !! id = Some l /\ s ∈ l /\ Forall (better_or_equal s) l.
Proof.
  unfold select_best_solution. destruct (ip_solutions p !! id) as [[|first rest]|]; [done| |done].
  intros [= <-]. exists (first :: rest). split; [done|]. apply best_of_spec.
Qed.

(** The signature covers the intent, the solver and the tip, and neither the
    score nor the operations: a copy of an accepted solution with other
    operations and any score is accepted just the same. *)
Lemma score_not_signed {crypto : Crypto} p s ops score :
  let forged := mkSolution (so_intent_id s) (so_solver s) ops (so_claimed_tip s) score (so_signature s) in
  snd (submit_solution s p) = Ok tt -> snd (submit_solution forged p) = Ok tt.
Proof.
  unfold submit_solution, solution_message. cbn. repeat (case_match; try done).
Qed.

(** Intents are never removed: a pool that is full once refuses every later
    intent, whatever is fulfilled, cancelled or expired in it. *)
Lemma full_pool_stays_full {crypto : Crypto} p :
  (ip_max_size p <= size (ip_intents p))%nat ->
  (forall i, intent_submit i p = (p, Err PFull))
  /\ (forall id, (ip_max_size (fst (intent_fulfill id p)) <= size (ip_intents (fst (intent_fulfill id p))))%nat)
  /\ (forall id a, (ip_max_size (fst (intent_cancel id a p))
                    <= size (ip_intents (fst (intent_cancel id a p))))%nat)
  /\ (forall h, (ip_max_size (fst (intent_expire h p)) <= size (ip_intents (fst (intent_expire h p))))%nat).
Proof.
  intros Hf. assert (Hins : forall id x y, ip_intents p !! id = Some y ->
    (ip_max_size p <= size (<[id := x]> (ip_intents p)))%nat).
  { intros id x y E. by rewrite map_size_insert_Some by eauto. }
  split; [|split; [|split]].
  - intros i. unfold intent_submit. by rewrite (proj2 (Nat.leb_le _ _)) by lia.
  - intros id. unfold intent_fulfill. destruct (ip_intents p !! id) as [[i st]|] eqn:E; cbn; eauto.
  - intros id a. unfold intent_cancel. destruct (ip_intents p !! id) as [[i st]|] eqn:E; [|done].
    destruct (negb _); cbn; eauto.
  - intros h. cbn. by rewrite map_size_fmap.
Qed.

(** ** From the proposer's bytes to the settlement call *)

Lemma slice_skip n len (a b : bytes) : n = length a -> slice n len (a ++ b) = slice 0 len b.
Proof. intros ->. unfold slice. by rewrite drop_app_length. Qed.

Lemma slice_here len (a b : bytes) : len = length a -> slice 0 len (a ++ b) = a.
Proof. intros ->. unfold slice. by rewrite drop_0, take_app_length. Qed.

Lemma slice_off (pre : bytes) n len (b : bytes) :
  slice (length pre + n) len (pre ++ b) = slice n len b.
Proof. unfold slice. f_equal. rewrite <- drop_drop, drop_app_length. done. Qed.

Lemma slice_seek n len (a b : bytes) :
  (length a <= n)%nat -> slice n len (a ++ b) = slice (n - length a) len b.
Proof.
  intros Hn. replace n with (length a + (n - length a))%nat at 1 by lia. apply slice_off.
Qed.

Lemma read_u32_le n : 0 <= n < 2 ^ 32 -> Z.to_nat (from_le (le_bytes 4 n)) = Z.to_nat n.
Proof. intros Hn. rewrite from_le_bytes; [done|]. by change (256 ^ Z.of_nat 4) with (2 ^ 32). Qed.

(** What the settlement call sees of a constraint. *)
Definition enforced (c : IntentConstraint) : option Constraint :=
  match c with
  | IMinBalance a m => Some (MinBalance a m)
  | IMaxSpend a m => Some (MaxSpend a m)
  | IRequireTransfer _ to m => Some (RequireTransfer to m)
  | IRequireCall _ _ => Some RequireCall
  | ICrossChainSwap m _ _ _ _ => Some (CrossChainSwap m)
  | ICustom _ _ => None
  end.

(** The widths of the fields. *)
Definition constraint_ok (c : IntentConstraint) : Prop :=
  match c with
  | IMinBalance a m | IMaxSpend a m => length a = 32%nat /\ in_u128 m
  | IRequireTransfer f t m => length f = 32%nat /\ length t = 32%nat /\ in_u128 m
  | IRequireCall t m => length t = 32%nat /\ Z.of_nat (length (bytes_of_string m)) < 2 ^ 32
  | ICrossChainSwap m o ch a t => in_u128 m /\ length a = 32%nat /\ length t = 32%nat
  | ICustom _ _ => True
  end.

Lemma lookup_total_app_here (pre : bytes) x post : (pre ++ x :: post) !!! length pre = x.
Proof. apply list_lookup_total_correct, list_lookup_middle. done. Qed.

(** Decoding after a prefix, in terms of what follows the tag. *)
Lemma decode_constraint_at pre tag (body : bytes) :
  decode_constraint (pre ++ tag :: body) (length pre) =
  let fits n := (n <=? length body)%nat in
  let next n := (length pre + (1 + n))%nat in
  let u128_at n := from_le (slice n 16 body) in
  match tag with
  | 0 => if fits 48%nat then Some (MinBalance (slice 0 32 body) (u128_at 32%nat), next 48%nat) else None
  | 1 => if fits 48%nat then Some (MaxSpend (slice 0 32 body) (u128_at 32%nat), next 48%nat) else None
  | 2 => if fits 80%nat then Some (RequireTransfer (slice 32 32 body) (u128_at 64%nat), next 80%nat) else None
  | 3 => if fits 36%nat
         then Some (RequireCall, next (36 + Z.to_nat (from_le (slice 32 4 body))))%nat else None
  | 4 => if fits 104%nat then Some (CrossChainSwap (u128_at 0%nat), next 104%nat) else None
  | _ => None
  end.
Proof.
  unfold decode_constraint, read_u32_at. rewrite lookup_total_app_here.
  assert (Hs : forall n len, slice (length pre + 1 + n) len (pre ++ tag :: body) = slice n len body).
  { intros n len. change (tag :: body) with ([tag] ++ body). rewrite app_assoc.
    replace (length pre + 1)%nat with (length (pre ++ [tag])) by (rewrite length_app; done).
    apply slice_off. }
  assert (Hf : forall n, (length pre + 1 + n <=? length (pre ++ tag :: body))%nat = (n <=? length body)%nat).
  { intros n. rewrite length_app. cbn [length].
    destruct (Nat.leb_spec n (length body)), (Nat.leb_spec (length pre + 1 + n) (length pre + S (length body)));
      try done; lia. }
  assert (Hlen : (length (pre ++ tag :: body) <=? length pre)%nat = false).
  { apply Nat.leb_gt. rewrite length_app. cbn. lia. }
  rewrite Hlen. cbv zeta beta. rewrite !Hf, !Hs.
  destruct tag as [|[[[]|[]|]|[[]|[]|]|]|]; try done;
    match goal with |- context [(?a <=? ?b)%nat] => destruct (a <=? b)%nat end; try done;
    f_equal; f_equal; lia.
Qed.

Lemma decode_encode_constraint pre c post d :
  constraint_ok c -> enforced c = Some d ->
  decode_constraint (pre ++ encode_constraint c ++ post) (length pre)
  = Some (d, length pre + length (encode_constraint c))%nat.
Proof.
  intros Hok Hd.
  destruct c as [a m|a m|f t m|t m|m o ch a t|]; cbn [enforced] in Hd; simplify_eq; cbn in Hok;
    cbn [encode_constraint app]; rewrite <- ?app_assoc, decode_constraint_at; cbv beta zeta iota;
    rewrite (proj2 (Nat.leb_le _ _)) by (rewrite !length_app, ?length_le_bytes; lia);
    cbn [length]; rewrite ?length_app, ?length_le_bytes.
  1-2: destruct Hok as [Ha Hm]; rewrite slice_here, (slice_skip 32), slice_here
         by (rewrite ?length_le_bytes; done); rewrite from_le_u128 by done; do 2 f_equal; lia.
  - destruct Hok as (Hf & Ht & Hm). rewrite (slice_skip 32), slice_here by done.
    rewrite (slice_seek 64), Hf, (slice_skip (64 - 32)), slice_here by (rewrite ?length_le_bytes; lia).
    rewrite from_le_u128 by done. do 2 f_equal; lia.
  - destruct Hok as [Ht Hm]. rewrite (slice_skip 32), slice_here by (rewrite ?length_le_bytes; done).
    rewrite read_u32_le by lia. rewrite Nat2Z.id. do 2 f_equal; lia.
  - destruct Hok as (Hm & Ha & Ht). rewrite slice_here by (rewrite length_le_bytes; done).
    rewrite from_le_u128 by done. do 2 f_equal; lia.
Qed.

(** Decoding the constraints at the end of the arguments. *)
Lemma decode_encode_constraints cs : Forall constraint_ok cs -> forall pre n,
  (length cs <= n)%nat ->
  decode_constraints n (pre ++ concat (map encode_constraint cs)) (length pre) = omap enforced cs.
Proof.
  induction 1 as [|c cs Hc Hcs IH]; intros pre n Hn; cbn [map concat omap list_omap].
  - rewrite app_nil_r. destruct n as [|n]; [done|]. cbn [decode_constraints].
    unfold decode_constraint. by rewrite Nat.leb_refl.
  - destruct n as [|n]; cbn [length] in Hn; [lia|].
    destruct (enforced c) as [d|] eqn:Ed; cycle 1.
    + destruct c; try done. cbn [encode_constraint app]. apply IH. lia.
    + cbn [decode_constraints]. rewrite (decode_encode_constraint pre c _ d) by done.
      f_equal. rewrite app_assoc, <- length_app. apply IH. lia.
Qed.

Lemma parse_encode_transfers l : Forall (fun t => length (fst t) = 32%nat /\ in_u128 (snd t)) l ->
  forall pre post total, 0 <= total <= u128_max ->
  parse_transfers (length l)
    (pre ++ concat (map (fun t => fst t ++ le_bytes 16 (snd t)) l) ++ post) (length pre) total
  = Ok (l, Z.min (total + sent l) u128_max).
Proof.
  induction 1 as [|[to a] l [Ht Ha] Hl IH]; intros pre post total Htot; cbn [length parse_transfers].
  - unfold sent. cbn. do 2 f_equal. lia.
  - cbn [map concat fst snd] in *. unfold in_u128 in Ha.
    rewrite <- !app_assoc. set (args := pre ++ to ++ le_bytes 16 a ++ _).
    assert (Hlen : (length pre + 48 <= length args)%nat).
    { unfold args. rewrite !length_app, length_le_bytes. lia. }
    rewrite (proj2 (Nat.ltb_ge _ _)) by lia. unfold read_account_id, read_u128.
    rewrite !(proj2 (Nat.ltb_ge _ _)) by lia.
    assert (E1 : slice (length pre) 32 args = to).
    { unfold args. rewrite slice_skip, slice_here by done. done. }
    assert (E2 : from_le (slice (length pre + 32) 16 args) = a).
    { unfold args. rewrite slice_off, (slice_skip 32), slice_here by (rewrite ?length_le_bytes; done).
      by apply from_le_u128. }
    rewrite E1, E2. change (default 0 (Some a)) with a.
    assert (E3 : args = (pre ++ to ++ le_bytes 16 a)
      ++ concat (map (fun t => fst t ++ le_bytes 16 (snd t)) l) ++ post)
      by (unfold args; by rewrite <- !app_assoc).
    assert (E4 : (length pre + 48)%nat = length (pre ++ to ++ le_bytes 16 a))
      by (rewrite !length_app, length_le_bytes, Ht; lia).
    rewrite E3, E4, IH by (unfold sat_add128; lia). cbn [rbind fst snd]. do 2 f_equal.
    unfold sat_add128, sent. cbn [map sumZ snd]. fold (sent l).
    assert (0 <= sent l).
    { apply sumZ_map_nonneg. intros x Hx. rewrite Forall_forall in Hl. by apply Hl in Hx as [_ [? _]]. }
    lia.
Qed.

(** The bytes a proposer writes for a solved intent are read back by the
    settlement call as the intent, the solver, the tip and the transfers of the
    solution, and as the constraints of the intent in their order, but for the
    custom ones, which are not written. *)
Theorem fulfill_args_roundtrip intent s :
  in_u64 (it_id intent) -> length (so_solver s) = 32%nat -> in_u128 (so_claimed_tip s) ->
  Forall (fun t => length (fst t) = 32%nat /\ in_u128 (snd t)) (solution_transfers s) ->
  Z.of_nat (length (solution_transfers s)) < 2 ^ 32 ->
  Forall constraint_ok (it_constraints intent) -> Z.of_nat (length (it_constraints intent)) < 2 ^ 32 ->
  let args := fulfill_args intent s in
  let n := read_u32_at args 56 in
  from_le (take 8 args) = it_id intent /\ slice 8 32 args = so_solver s
  /\ from_le (slice 40 16 args) = so_claimed_tip s
  /\ parse_transfers n args 60 0
     = Ok (solution_transfers s, Z.min (sent (solution_transfers s)) u128_max)
  /\ decode_constraints (read_u32_at args (60 + n * 48)) args (60 + n * 48 + 4)
     = omap enforced (it_constraints intent).
Proof.
  intros Hid Hso Htip Htr Hn Hcs Hm args n.
  set (trs := solution_transfers s) in *. set (cs := it_constraints intent) in *.
  set (T := concat (map (fun t => fst t ++ le_bytes 16 (snd t)) trs)).
  set (C := concat (map encode_constraint cs)).
  set (H1 := le_bytes 8 (it_id intent)). set (H2 := le_bytes 16 (so_claimed_tip s)).
  set (H3 := le_bytes 4 (Z.of_nat (length trs))). set (H4 := le_bytes 4 (Z.of_nat (length cs))).
  assert (Ea : args = H1 ++ so_solver s ++ H2 ++ H3 ++ T ++ H4 ++ C) by done.
  assert (L1 : length H1 = 8%nat) by apply length_le_bytes.
  assert (L2 : length H2 = 16%nat) by apply length_le_bytes.
  assert (L3 : length H3 = 4%nat) by apply length_le_bytes.
  assert (L4 : length H4 = 4%nat) by apply length_le_bytes.
  assert (LT : length T = (length trs * 48)%nat).
  { unfold T. clear -Htr. induction Htr as [|t l [Ht _] Hl IH]; [done|].
    cbn [map concat length]. rewrite !length_app, length_le_bytes, Ht, IH. lia. }
  assert (En : n = length trs).
  { unfold n, read_u32_at. rewrite Ea. rewrite (slice_seek 56) by lia. rewrite L1.
    rewrite (slice_seek (56 - 8)) by lia. rewrite Hso. rewrite (slice_skip (56 - 8 - 32)) by lia.
    rewrite slice_here by done. unfold H3. rewrite read_u32_le by lia. lia. }
  split; [|split; [|split; [|split]]].
  - rewrite Ea, <- L1, take_app_length. unfold H1. by apply from_le_u64.
  - rewrite Ea, (slice_skip 8), slice_here by done. done.
  - rewrite Ea, (slice_seek 40), L1, (slice_skip (40 - 8)), slice_here by lia. by apply from_le_u128.
  - rewrite En. replace 60%nat with (length (H1 ++ so_solver s ++ H2 ++ H3)) by (rewrite !length_app; lia).
    pose proof (parse_encode_transfers trs Htr (H1 ++ so_solver s ++ H2 ++ H3) (H4 ++ C) 0) as Hp.
    rewrite <- !app_assoc in Hp. rewrite Ea. apply Hp. unfold u128_max. lia.
  - rewrite En.
    assert (Ep : args = (H1 ++ so_solver s ++ H2 ++ H3 ++ T ++ H4) ++ C) by (rewrite Ea, <- !app_assoc; done).
    assert (Lp : (60 + length trs * 48 + 4)%nat = length (H1 ++ so_solver s ++ H2 ++ H3 ++ T ++ H4))
      by (rewrite !length_app; lia).
    assert (Ec : read_u32_at args (60 + length trs * 48) = length cs).
    { unfold read_u32_at.
      assert (Eq : args = (H1 ++ so_solver s ++ H2 ++ H3 ++ T) ++ H4 ++ C) by (rewrite Ea, <- !app_assoc; done).
      rewrite Eq, slice_skip, slice_here by (rewrite ?length_app; lia).
      unfold H4. rewrite read_u32_le by lia. lia. }
    rewrite Ec, Lp, Ep. by apply decode_encode_constraints.
Qed.

(** ** Inclusion in a block *)

Lemma fulfill_lookup id p k :
  ip_intents (fst (intent_fulfill id p)) !! k
  = if decide (k = id) then (fun x => (fst x, IFulfilled)) <$> ip_intents p !! id else ip_intents p !! k.
Proof.
  unfold intent_fulfill. destruct (ip_intents p !! id) as [[i st]|] eqn:E; cbn.
  - rewrite lookup_insert. repeat case_decide; by subst.
  - case_decide; by subst.
Qed.

Lemma include_intents_spec vid h pending p ops :
  intents_wf p -> NoDup (map it_id pending) ->
  (forall i, i ∈ pending -> ip_intents p !! it_id i = Some (i, IPending)) ->
  exists chosen : list (Intent * Solution),
    snd (include_intents vid h pending p ops) = ops ++ map (fun x => fulfill_operation (fst x) (snd x)) chosen
    /\ map fst chosen `sublist_of` pending
    /\ (forall i, i ∈ map fst chosen ->
        ip_intents (fst (include_intents vid h pending p ops)) !! it_id i = Some (i, IFulfilled))
    /\ (forall k, (forall i, i ∈ pending -> it_id i <> k) ->
        ip_intents (fst (include_intents vid h pending p ops)) !! k = ip_intents p !! k).
Proof.
  revert p ops. induction pending as [|i pending IH]; intros p ops Hwf Hn Hp; cbn [include_intents map] in *.
  - exists []. cbn. rewrite app_nil_r. split; [done|]. split; [constructor|]. split; [|done].
    intros i Hi. by apply not_elem_of_nil in Hi.
  - apply NoDup_cons in Hn as [Hni Hn].
    assert (Hne : forall j, j ∈ pending -> it_id j <> it_id i).
    { intros j Hj E. apply Hni. rewrite <- E. by apply list_elem_of_fmap_2. }
    destruct (choose_solution vid h p i) as [s|].
    + destruct (IH (fst (intent_fulfill (it_id i) p)) (ops ++ [fulfill_operation i s]))
        as (chosen & H1 & H2 & H3 & H4); [by apply fulfill_wf|done| |].
      { intros j Hj. rewrite fulfill_lookup, decide_False by (by apply Hne). apply Hp. by right. }
      exists ((i, s) :: chosen). split; [|split; [|split]].
      * rewrite H1, <- app_assoc. done.
      * by constructor.
      * intros j Hj. cbn [map] in Hj. apply elem_of_cons in Hj as [->|Hj]; [|by apply H3]. cbn [fst].
        rewrite H4 by done. rewrite fulfill_lookup, decide_True by done. by rewrite (Hp i) by left.
      * intros k Hk. rewrite H4 by (intros j Hj; apply Hk; by right).
        rewrite fulfill_lookup, decide_False; [done|]. intros ->. by apply (Hk i); [left|].
    + destruct (IH p ops) as (chosen & H1 & H2 & H3 & H4); [done|done|intros j Hj; apply Hp; by right|].
      exists chosen. split; [done|]. split; [by constructor|]. split; [done|].
      intros k Hk. apply H4. intros j Hj. apply Hk. by right.
Qed.

Lemma include_intents_wf vid h pending p ops :
  intents_wf p -> intents_wf (fst (include_intents vid h pending p ops)).
Proof.
  revert p ops. induction pending as [|i pending IH]; intros p ops Hwf; cbn [include_intents]; [done|].
  destruct (choose_solution vid h p i); [|auto]. apply IH. by apply fulfill_wf.
Qed.

Lemma sublist_StronglySorted {A} (R : relation A) l k :
  l `sublist_of` k -> StronglySorted R k -> StronglySorted R l.
Proof.
  induction 1 as [|x l k Hl IH|x l k Hl IH]; intros Hs; [done| |]; inversion_clear Hs as [|? ? Hs' Hx]; [|auto].
  constructor; [auto|]. rewrite Forall_forall in *. intros y Hy. apply Hx. by eapply elem_of_sublist.
Qed.

(** a block includes, after the operations it already has, one settlement
    for each of a selection of the pending intents that have not expired, in
    the order of their identifiers; each of them is fulfilled in the pool
    afterwards, so that no later block of the node includes it again. *)
Theorem intents_included_once vid h p ops :
  intents_wf p ->
  exists chosen : list (Intent * Solution),
    snd (intent_operations vid h p ops)
      = ops ++ map (fun x => fulfill_operation (fst x) (snd x)) chosen
    /\ StronglySorted (fun a b => it_id a < it_id b) (map fst chosen)
    /\ (forall i, i ∈ map fst chosen ->
        h <= it_expiry_height i /\ ip_intents p !! it_id i = Some (i, IPending)
        /\ ~ (i ∈ pending_intents (fst (intent_operations vid h p ops)))).
Proof.
  intros Hwf. set (q := fst (intent_expire h p)). unfold intent_operations. fold q.
  assert (Hq : intents_wf q) by by apply expire_wf.
  assert (Hpend : forall i, i ∈ pending_intents q -> ip_intents q !! it_id i = Some (i, IPending)).
  { intros i Hi. apply pending_elem in Hi as [id Hid]. destruct (Hq _ _ Hid) as [E _]. cbn in E. by rewrite E. }
  destruct (include_intents_spec vid h (pending_intents q) q ops) as (chosen & H1 & H2 & H3 & _);
    [done|by apply pending_ids_NoDup|done|].
  exists chosen. split; [exact H1|].
  split; [by eapply sublist_StronglySorted; [|apply pending_sorted]|].
  intros i Hi. pose proof (Hpend i (elem_of_sublist _ _ _ Hi H2)) as Hl.
  unfold q in Hl. rewrite expire_lookup in Hl.
  destruct (ip_intents p !! it_id i) as [x|] eqn:Ex; [|done]. cbn in Hl.
  destruct (expires h x) eqn:Ee; [done|]. injection Hl as ->.
  unfold expires, is_pending in Ee. cbn in Ee. apply Z.ltb_ge in Ee.
  split; [done|]. split; [done|]. intros Hpen. apply pending_elem in Hpen as [id Hid].
  pose proof (include_intents_wf vid h (pending_intents q) q ops Hq _ _ Hid) as [E _]. cbn in E.
  rewrite <- E, (H3 i Hi) in Hid. done.
Qed.

(** ** Concrete runs *)

Definition demo_intent : Intent :=
  mkIntent 0 (demo_key 1)
    [IRequireTransfer (demo_key 1) (demo_key 2) 30; IMinBalance (demo_key 2) 35; ICustom (demo_key 4) [1]]
    9 50 [] 10.
Definition demo_intents : IntentPool := fst (intent_submit demo_intent (intent_pool_new 10)).

Lemma intent_pool_new_wf n : intents_wf (intent_pool_new n).
Proof. intros id x. cbn. by rewrite lookup_empty. Qed.

Lemma demo_intents_wf : intents_wf demo_intents.
Proof.
  apply submit_wf; [apply intent_pool_new_wf|]. split; [vm_compute; discriminate|vm_compute; reflexivity].
Qed.

Lemma intent_pool_invariant_witness : intents_wf (fst (intent_expire 60 demo_intents)).
Proof.
  apply (intent_pool_invariant demo_intents demo_intents_wf).
  split; [vm_compute; discriminate|vm_compute; reflexivity].
Defined.

Lemma pending_order_witness : map it_id (pending_intents demo_intents) = [0].
Proof.
  rewrite <- (proj1 (pending_order demo_intents (map_to_list (ip_intents demo_intents)) demo_intents_wf
    ltac:(reflexivity))).
  vm_compute. reflexivity.
Defined.

(** A tie between two solutions goes to the later one. *)
Definition demo_solution (solver score tip : Z) : Solution :=
  mkSolution 0 (demo_key solver) [] tip score (solver :: replicate 63 0).
Definition demo_solved : IntentPool :=
  fst (submit_solution (demo_solution 6 80 4) (fst (submit_solution (demo_solution 5 80 4) demo_intents))).

Lemma best_solution_witness :
  exists l, ip_solutions demo_solved !! 0 = Some l /\ demo_solution 6 80 4 ∈ l
    /\ Forall (better_or_equal (demo_solution 6 80 4)) l.
Proof. apply (best_solution demo_solved 0 (demo_solution 6 80 4)). vm_compute. reflexivity. Defined.

Definition demo_built_in : Solution :=
  mkSolution 0 (demo_key 7)
    [mkUserOperation (demo_key 1) 0 [Transfer (demo_key 2) 30] 9 []] 5 100 [].

Lemma fulfill_args_roundtrip_witness :
  decode_constraints (read_u32_at (fulfill_args demo_intent demo_built_in) 108)
    (fulfill_args demo_intent demo_built_in) 112
  = [RequireTransfer (demo_key 2) 30; MinBalance (demo_key 2) 35].
Proof.
  refine (proj2 (proj2 (proj2 (proj2 (fulfill_args_roundtrip demo_intent demo_built_in _ _ _ _ _ _ _))))).
  - split; vm_compute; discriminate.
  - reflexivity.
  - split; vm_compute; discriminate.
  - constructor; [|constructor]. split; [reflexivity|split; vm_compute; discriminate].
  - reflexivity.
  - repeat constructor; vm_compute; discriminate.
  - reflexivity.
Defined.

Lemma intents_included_once_witness :
  exists chosen : list (Intent * Solution),
    snd (intent_operations (demo_key 7) 10 demo_intents [])
    = [] ++ map (fun x => fulfill_operation (fst x) (snd x)) chosen.
Proof.
  destruct (intents_included_once (demo_key 7) 10 demo_intents [] demo_intents_wf) as (chosen & H1 & _).
  exists chosen. exact H1.
Defined.

(** ... and the one intent of the pool is included. *)
Example demo_intent_included :
  snd (intent_operations (demo_key 7) 10 demo_intents [])
  = [fulfill_operation demo_intent demo_built_in].
Proof. vm_compute. reflexivity. Qed.
