(* ===== verification/Checkpoint.v ===== *)
(** Checkpoints and snapshots ([crates/solen-consensus/src/checkpoint.rs] and
    [snapshot.rs]): the ring of recent checkpoints, the checkpoints two thirds
    of the stake have signed, the trusted ones, and the snapshot format a node
    starts from. *)

From S2P Require Import Prelude Types Store Memory Codec State Auth Validators.
Open Scope Z_scope.

(** ** The ring of checkpoints *)

Definition CHECKPOINT_INTERVAL : u64 := 100.

Record Checkpoint : Type := mkCheckpoint {
  ck_height : u64;
  ck_epoch : u64;
  ck_state_root : Hash;
  ck_block_hash : Hash;
  ck_validator_set_hash : Hash;
  ck_timestamp_ms : u64;
}.

Definition should_checkpoint (height : u64) : bool :=
  (0 <? height) && (height mod CHECKPOINT_INTERVAL =? 0).

Record CheckpointStore : Type := mkCheckpointStore {
  cs_checkpoints : list Checkpoint;
  cs_max : usize;
}.

Definition checkpoint_store_new (max : usize) : CheckpointStore := mkCheckpointStore [] max.

(** [None] stands for the panic of [Vec::remove] on an empty vector. *)
Definition checkpoint_add (c : Checkpoint) (s : CheckpointStore) : option CheckpointStore :=
  if (cs_max s <=? length (cs_checkpoints s))%nat then
    match cs_checkpoints s with
    | [] => None
    | _ :: rest => Some (mkCheckpointStore (rest ++ [c]) (cs_max s))
    end
  else Some (mkCheckpointStore (cs_checkpoints s ++ [c]) (cs_max s)).

Definition checkpoint_latest (s : CheckpointStore) : option Checkpoint := last (cs_checkpoints s).
Definition at_or_before (height : u64) (s : CheckpointStore) : option Checkpoint :=
  List.find (fun c => ck_height c <=? height) (rev (cs_checkpoints s)).

Section ring_json.
Context `{!Codec (list Checkpoint)}.
Definition checkpoints_to_json (s : CheckpointStore) : bytes := default [] (ser (cs_checkpoints s)).
Definition checkpoints_from_json (data : bytes) (max : usize) : CheckpointStore :=
  mkCheckpointStore (default [] (de data)) max.
End ring_json.

(** ** Finalised checkpoints *)

Record FinalizedCheckpoint : Type := mkFinalizedCheckpoint {
  fc_height : u64;
  fc_epoch : u64;
  fc_block_hash : Hash;
  fc_state_root : Hash;
  fc_attestations : list (ValidatorId * bytes);
}.
Record PendingCheckpoint : Type := mkPendingCheckpoint {
  pc_height : u64;
  pc_epoch : u64;
  pc_block_hash : Hash;
  pc_state_root : Hash;
  pc_attestations : list (ValidatorId * bytes);
  pc_created_at : u64;
}.
Record FinalizedCheckpointStore : Type := mkFinalizedStore {
  fs_latest : option FinalizedCheckpoint;
  fs_pending : option PendingCheckpoint;
  fs_finalized_heights : list u64;
}.

Definition finalized_store_new : FinalizedCheckpointStore := mkFinalizedStore None None [].

Definition propose_checkpoint (height epoch : u64) (block_hash state_root : Hash) (now_ms : u64)
    (s : FinalizedCheckpointStore) : FinalizedCheckpointStore :=
  mkFinalizedStore (fs_latest s)
    (Some (mkPendingCheckpoint height epoch block_hash state_root [] now_ms)) (fs_finalized_heights s).

Definition add_attestation (validator_id : ValidatorId) (signature : bytes) (vs : ValidatorSet)
    (s : FinalizedCheckpointStore) : FinalizedCheckpointStore * bool :=
  match fs_pending s with
  | None => (s, false)
  | Some p =>
    if existsb (fun a => bytes_eqb (fst a) validator_id) (pc_attestations p) then (s, false)
    else
    let attestations := pc_attestations p ++ [(validator_id, signature)] in
    if has_quorum vs (map fst attestations) then
      let heights := fs_finalized_heights s ++ [pc_height p] in
      let heights := if (100 <? length heights)%nat then tail heights else heights in
      (mkFinalizedStore
         (Some (mkFinalizedCheckpoint (pc_height p) (pc_epoch p) (pc_block_hash p) (pc_state_root p)
                  attestations)) None heights, true)
    else
      (mkFinalizedStore (fs_latest s)
         (Some (mkPendingCheckpoint (pc_height p) (pc_epoch p) (pc_block_hash p) (pc_state_root p)
                  attestations (pc_created_at p))) (fs_finalized_heights s), false)
  end.

Definition validate_block (height : u64) (block_hash : Hash) (s : FinalizedCheckpointStore) : option Hash :=
  match fs_latest s with
  | Some cp => if (height =? fc_height cp) && negb (bytes_eqb block_hash (fc_block_hash cp))
               then Some (fc_block_hash cp) else None
  | None => None
  end.

Definition is_finalized (height : u64) (s : FinalizedCheckpointStore) : bool :=
  match fs_latest s with Some cp => height <=? fc_height cp | None => false end.

Definition CHECKPOINT_KEY : bytes := Eval vm_compute in bytes_of_string "__finalized_checkpoint__".

Section persistence.
Context {S : Type} `{!StateStore S} `{!Codec (option FinalizedCheckpoint)}.

Definition checkpoint_save (c : FinalizedCheckpointStore) (s : S) : S :=
  match ser (fs_latest c) with Some data => st_put s CHECKPOINT_KEY data | None => s end.

Definition checkpoint_load `{!Codec FinalizedCheckpoint} (s : S) : FinalizedCheckpointStore :=
  let latest := st_get s CHECKPOINT_KEY ≫= de in
  mkFinalizedStore latest None (match latest with Some cp => [fc_height cp] | None => [] end).
End persistence.

Definition signing_message {crypto : Crypto} (height : u64) (block_hash state_root : Hash) : bytes :=
  blake3 (le_bytes 8 height ++ block_hash ++ state_root).

(** ** Trusted checkpoints *)

Record TrustedCheckpoints : Type := mkTrusted { tc_entries : list (u64 * Hash) }.

Definition trusted_testnet : TrustedCheckpoints := mkTrusted [].
Definition trusted_mainnet : TrustedCheckpoints := mkTrusted [].
Definition trusted_devnet : TrustedCheckpoints := mkTrusted [].

Definition trusted_validate (height : u64) (block_hash : Hash) (t : TrustedCheckpoints) : option Hash :=
  find_map (fun e => if (height =? fst e) && negb (bytes_eqb block_hash (snd e)) then Some (snd e) else None)
    (tc_entries t).
Definition trusted_highest (t : TrustedCheckpoints) : option u64 := fst <$> last (tc_entries t).
Definition trusted_is_empty (t : TrustedCheckpoints) : bool := bool_decide (tc_entries t = []).

(** ** Snapshots *)

Definition MAGIC : bytes := Eval vm_compute in bytes_of_string "SNAP".
Definition VERSION : Z := 1.
Definition HEADER_SIZE : nat := 56%nat.
Definition MAX_SNAPSHOT_SIZE : Z := 2 * 1024 * 1024 * 1024.

Inductive SnapshotError : Type :=
| SnInvalid (msg : string)
| SnStateRootMismatch (expected actual : string)
| SnIo (msg : string).

Record SnapshotMeta : Type := mkSnapshotMeta {
  sm_height : u64;
  sm_epoch : u64;
  sm_state_root : Hash;
  sm_entry_count : u64;
  sm_compressed_size : usize;
  sm_uncompressed_size : usize;
}.

(** The compression library: what a stream decompresses to, and the error that
    ended it if there was one. *)
Class Deflate : Type := {
  deflate : bytes -> bytes;
  inflate : bytes -> bytes * option string;
}.

Definition encode_entry (kv : bytes * bytes) : bytes :=
  le_bytes 4 (Z.of_nat (length (fst kv))) ++ fst kv ++ le_bytes 4 (Z.of_nat (length (snd kv))) ++ snd kv.

Definition snapshot_body (entries : list (bytes * bytes)) : bytes :=
  le_bytes 8 (Z.of_nat (length entries)) ++ concat (map encode_entry entries).

Section snapshots.
Context {S : Type} `{!StateStore S} {zip : Deflate}.

Definition create_snapshot (store : S) (height epoch : u64) : bytes :=
  let header := MAGIC ++ le_bytes 4 VERSION ++ le_bytes 8 height ++ le_bytes 8 epoch
                ++ st_state_root store in
  header ++ deflate (snapshot_body (st_scan_all store)).

Definition read_snapshot_meta (data : bytes) : result SnapshotMeta SnapshotError :=
  if (length data <? HEADER_SIZE)%nat then Err (SnInvalid "too short")
  else if negb (bytes_eqb (take 4 data) MAGIC) then Err (SnInvalid "bad magic")
  else
  let version := from_le (slice 4 4 data) in
  if negb (version =? VERSION) then Err (SnInvalid ("unsupported version: " +:+ pretty version))
  else Ok (mkSnapshotMeta (from_le (slice 8 8 data)) (from_le (slice 16 8 data)) (slice 24 32 data) 0
             (length data - HEADER_SIZE) 0).

(** The loop over the entries: [rest] is what follows the offset. [None] is a
    loop that needs more rounds than the fuel allows. *)
Fixpoint load_entries (fuel : nat) (rest : bytes) (loaded entry_count : u64) (store : S) : option (S * u64) :=
  match fuel with
  | O => None
  | Datatypes.S fuel =>
    if bool_decide (rest = []) || (entry_count <=? loaded) then Some (store, loaded)
    else if (length rest <? 4)%nat then Some (store, loaded)
    else
    let key_len := Z.to_nat (from_le (take 4 rest)) in
    let rest := drop 4 rest in
    if (length rest <? key_len + 4)%nat then Some (store, loaded)
    else
    let key := take key_len rest in
    let rest := drop key_len rest in
    let val_len := Z.to_nat (from_le (take 4 rest)) in
    let rest := drop 4 rest in
    if (length rest <? val_len)%nat then Some (store, loaded)
    else
    load_entries fuel (drop val_len rest) (loaded + 1) entry_count (st_put store key (take val_len rest))
  end.

Definition restore_snapshot (store : S) (data : bytes) : S * result SnapshotMeta SnapshotError :=
  match read_snapshot_meta data with
  | Err e => (store, Err e)
  | Ok meta =>
    let '(raw, io_error) := inflate (drop HEADER_SIZE data) in
    if MAX_SNAPSHOT_SIZE <? Z.of_nat (length raw)
    then (store, Err (SnInvalid "decompressed size exceeds 2048MB limit"))
    else
    match io_error with
    | Some e => (store, Err (SnIo e))
    | None =>
      if (length raw <? 8)%nat then (store, Err (SnInvalid "no entry count"))
      else
      let entry_count := from_le (take 8 raw) in
      let '(store, loaded) :=
        default (store, 0) (load_entries (Datatypes.S (length raw)) (drop 8 raw) 0 entry_count store) in
      if loaded <? entry_count
      then (store, Err (SnInvalid ("truncated snapshot: expected " +:+ pretty entry_count
                                   +:+ " entries, loaded " +:+ pretty loaded)))
      else
      let store := st_commit_root store in
      let actual_root := st_state_root store in
      if negb (bytes_eqb actual_root (sm_state_root meta))
      then (store, Err (SnStateRootMismatch (hex_encode (sm_state_root meta)) (hex_encode actual_root)))
      else (store, Ok (mkSnapshotMeta (sm_height meta) (sm_epoch meta) (sm_state_root meta) loaded
                         (sm_compressed_size meta) (length raw)))
    end
  end.
End snapshots.

(** *** The ring of local snapshots

    The directory as a map from the height in a file's name to its content. *)

Record LocalSnapshots : Type := mkLocalSnapshots {
  ls_files : gmap Z bytes;
  ls_keep : usize;
}.

Definition local_snapshots_new (files : gmap Z bytes) (keep : usize) : LocalSnapshots :=
  mkLocalSnapshots files (keep `max` 1)%nat.
Definition ls_list (l : LocalSnapshots) : list (Z * bytes) :=
  stable_sort (fun a b => fst a <=? fst b) (map_to_list (ls_files l)).
Definition ls_newest_at_or_below (height : u64) (l : LocalSnapshots) : option (Z * bytes) :=
  List.find (fun e => fst e <=? height) (rev (ls_list l)).
Definition ls_prune (l : LocalSnapshots) : LocalSnapshots :=
  let all := ls_list l in
  if (length all <=? ls_keep l)%nat then l
  else mkLocalSnapshots
    (fold_left (fun m e => delete (fst e) m) (take (length all - ls_keep l) all) (ls_files l)) (ls_keep l).
Definition ls_persist (height : u64) (data : bytes) (l : LocalSnapshots) : LocalSnapshots :=
  ls_prune (mkLocalSnapshots (<[height := data]> (ls_files l)) (ls_keep l)).

(** ** Finalisation *)

(** The attestations collected so far come from distinct validators. *)
Definition attesters_distinct (s : FinalizedCheckpointStore) : Prop :=
  match fs_pending s with Some p => NoDup (map fst (pc_attestations p)) | None => True end
  /\ match fs_latest s with Some c => NoDup (map fst (fc_attestations c)) | None => True end.

Lemma add_attestation_distinct v sig vs s :
  attesters_distinct s -> attesters_distinct (fst (add_attestation v sig vs s)).
Proof.
  unfold attesters_distinct, add_attestation. intros [Hp Hl].
  destruct (fs_pending s) as [p|] eqn:Ep; [|cbn; by rewrite Ep].
  destruct (existsb _ _) eqn:Ee; [cbn; by rewrite Ep|].
  assert (Hn : NoDup (map fst (pc_attestations p ++ [(v, sig)]))).
  { rewrite map_app. cbn. apply NoDup_app. split; [done|]. split; [|apply NoDup_singleton].
    intros x Hx Hv. apply list_elem_of_singleton in Hv as ->.
    apply list_elem_of_fmap in Hx as ([w sg] & -> & Hw).
    pose proof (existsb_false_elem _ _ Ee _ Hw) as E. cbn in E. by rewrite bytes_eqb_refl in E. }
  destruct (has_quorum _ _); cbn; done.
Qed.

(** A checkpoint becomes final exactly when the attestation that arrives is
    from a validator not counted yet and completes a quorum; it is then the one
    that was proposed, with all the attestations, and nothing is pending any
    more. Attesters stay distinct, and a repeated attestation changes nothing. *)
Theorem checkpoint_finalized v sig vs s p :
  attesters_distinct s -> fs_pending s = Some p ->
  let '(s', final) := add_attestation v sig vs s in
  let ids := map fst (pc_attestations p) in
  attesters_distinct s'
  /\ final = (negb (bool_decide (v ∈ ids)) && has_quorum vs (ids ++ [v]))
  /\ (final = true -> fs_pending s' = None
      /\ fs_latest s' = Some (mkFinalizedCheckpoint (pc_height p) (pc_epoch p) (pc_block_hash p)
           (pc_state_root p) (pc_attestations p ++ [(v, sig)])))
  /\ (final = false -> fs_latest s' = fs_latest s)
  /\ (v ∈ ids -> s' = s).
Proof.
  intros Hd Hp. pose proof (add_attestation_distinct v sig vs s Hd) as Hd'.
  destruct (add_attestation v sig vs s) as [s' final] eqn:E. cbn [fst] in Hd'. cbv zeta.
  split; [done|]. unfold add_attestation in E. rewrite Hp in E.
  assert (Hex : existsb (fun a => bytes_eqb (fst a) v) (pc_attestations p)
                = bool_decide (v ∈ map fst (pc_attestations p))).
  { apply eq_bool_prop_intro. rewrite !Is_true_true, bool_decide_eq_true, existsb_exists.
    rewrite list_elem_of_fmap. setoid_rewrite bytes_eqb_true.
    setoid_rewrite list_elem_of_In. split; intros (x & H1 & H2); exists x; done. }
  rewrite Hex in E. case_bool_decide as Hv; cbn [negb andb].
  - injection E as <- <-. done.
  - rewrite map_app in E. cbn [map fst] in E.
    destruct (has_quorum vs (map fst (pc_attestations p) ++ [v])); injection E as <- <-; done.
Qed.

(** Two nodes that finalised a checkpoint of the same height against the
    same validators agree on its block and its state root, as long as the
    validators that signed two different checkpoints of that height hold at
    most a third of the stake. *)
Theorem checkpoint_agreement vs (c1 c2 : FinalizedCheckpoint) (faulty : ValidatorInfo -> bool) :
  set_ok vs -> 3 * weight vs faulty <= committed_stake vs ->
  has_quorum vs (map fst (fc_attestations c1)) = true ->
  has_quorum vs (map fst (fc_attestations c2)) = true ->
  (forall v, v ∈ vs -> faulty v = false ->
     vi_id v ∈ map fst (fc_attestations c1) -> vi_id v ∈ map fst (fc_attestations c2) ->
     (fc_block_hash c1, fc_state_root c1) = (fc_block_hash c2, fc_state_root c2)) ->
  fc_block_hash c1 = fc_block_hash c2 /\ fc_state_root c1 = fc_state_root c2.
Proof.
  intros Hok Hf H1 H2 Honest.
  destruct (honest_overlap vs _ _ faulty Hok Hf H1 H2) as (v & Hv & Hv1 & Hv2 & Hh).
  by injection (Honest v Hv Hh Hv1 Hv2) as -> ->.
Qed.

(** Only a block at the height of the latest checkpoint is ever held against
    it: below it, any block passes, although the height counts as finalised. *)
Lemma older_heights_unchecked s cp height hash :
  fs_latest s = Some cp -> height < fc_height cp ->
  is_finalized height s = true /\ validate_block height hash s = None.
Proof.
  intros E Hh. unfold is_finalized, validate_block. rewrite E.
  rewrite (proj2 (Z.leb_le _ _)), (proj2 (Z.eqb_neq _ _)) by lia. done.
Qed.

Section save_load.
Context {S : Type} `{!StateStore S} `{!StateStoreLaws S}
        `{!Codec FinalizedCheckpoint} `{!CodecLaws FinalizedCheckpoint}
        `{!Codec (option FinalizedCheckpoint)}.
(** In JSON an optional value that is present is written as the value. *)
Context (ser_some : forall c : FinalizedCheckpoint, ser (Some c) = ser c).

(** What a node knows to be final survives a restart: saving and loading
    gives the latest finalised checkpoint back, and only the one being
    collected is lost. *)
Theorem checkpoint_save_load (s : S) (c : FinalizedCheckpointStore) cp :
  fs_latest c = Some cp ->
  checkpoint_load (checkpoint_save c s) = mkFinalizedStore (Some cp) None [fc_height cp].
Proof.
  intros E. unfold checkpoint_load, checkpoint_save. rewrite E, ser_some.
  destruct (ser_de cp) as (b & -> & Hb). rewrite get_put_eq. cbn. by rewrite Hb.
Qed.
End save_load.

(** ** The ring *)

Lemma find_rev_last {A} (p : A -> bool) l x :
  List.find p (rev l) = Some x -> exists l1 l2, l = l1 ++ x :: l2 /\ p x = true /\ Forall (fun y => p y = false) l2.
Proof.
  intros E. apply find_split in E as (l1 & l2 & El & Hx & Hl1).
  exists (rev l2), (rev l1). split; [|split; [done|by apply Forall_rev]].
  rewrite <- (rev_involutive l), El, rev_app_distr. cbn. by rewrite <- app_assoc.
Qed.

(** A ring with room for at least one checkpoint accepts every new one,
    never exceeds its size and keeps the most recent ones; looking up a height
    gives the newest checkpoint at or below it. *)
Theorem checkpoint_ring c s height :
  (1 <= cs_max s)%nat -> (length (cs_checkpoints s) <= cs_max s)%nat ->
  StronglySorted (fun a b => ck_height a < ck_height b) (cs_checkpoints s ++ [c]) ->
  (exists s', checkpoint_add c s = Some s' /\ (length (cs_checkpoints s') <= cs_max s')%nat
     /\ checkpoint_latest s' = Some c
     /\ StronglySorted (fun a b => ck_height a < ck_height b) (cs_checkpoints s')
     /\ exists old, cs_checkpoints s ++ [c] = old ++ cs_checkpoints s' /\ (length old <= 1)%nat)
  /\ (forall x, at_or_before height s = Some x ->
      x ∈ cs_checkpoints s /\ ck_height x <= height
      /\ forall y, y ∈ cs_checkpoints s -> ck_height y <= height -> ck_height y <= ck_height x).
Proof.
  intros Hm Hl Hs. split.
  - unfold checkpoint_add. destruct (_ <=? _)%nat eqn:E.
    + apply Nat.leb_le in E. destruct (cs_checkpoints s) as [|x rest] eqn:Ec; cbn in *; [lia|].
      eexists. split; [done|]. cbn. rewrite length_app. cbn. split; [lia|].
      split; [apply last_snoc|]. inversion_clear Hs. split; [done|]. exists [x]. done.
    + apply Nat.leb_gt in E. eexists. split; [done|]. cbn. rewrite length_app. cbn.
      split; [lia|]. split; [apply last_snoc|]. split; [done|]. exists []. split; [done|cbn; lia].
  - intros x Hx. unfold at_or_before in Hx. apply find_rev_last in Hx as (l1 & l2 & El & Hh & Hl2).
    apply Z.leb_le in Hh. apply StronglySorted_app in Hs as (_ & Hs & _).
    rewrite El in *. split; [set_solver|]. split; [done|].
    intros y Hy Hyh. apply elem_of_app in Hy as [Hy|Hy].
    + apply StronglySorted_app in Hs as (Hs & _ & _). specialize (Hs y x Hy ltac:(by left)). lia.
    + apply elem_of_cons in Hy as [->|Hy]; [lia|]. rewrite Forall_forall in Hl2. specialize (Hl2 y Hy). lia.
Qed.

(** A ring created by [Default], with no capacity, panics on the first one. *)
Example checkpoint_add_no_capacity c : checkpoint_add c (checkpoint_store_new 0) = None.
Proof. reflexivity. Qed.

(** ** Snapshots *)

Section snapshot_theorems.
Context {S : Type} `{!StateStore S}.

(** The loop ends: every entry takes at least eight bytes, so one round more
    than there are bytes is enough. *)
Lemma load_entries_ends fuel rest loaded count (s : S) :
  (length rest < fuel)%nat ->
  exists s' loaded', load_entries fuel rest loaded count s = Some (s', loaded')
    /\ loaded <= loaded' /\ (loaded' <= loaded \/ loaded' <= count)
    /\ 8 * (loaded' - loaded) <= Z.of_nat (length rest).
Proof.
  revert rest loaded s. induction fuel as [|fuel IH]; intros rest loaded s Hf; [lia|]. cbn [load_entries].
  assert (Hend : exists s' loaded', Some (s, loaded) = Some (s', loaded')
    /\ loaded <= loaded' /\ (loaded' <= loaded \/ loaded' <= count)
    /\ 8 * (loaded' - loaded) <= Z.of_nat (length rest)).
  { exists s, loaded. split; [done|]. lia. }
  destruct (_ || _) eqn:E0; [done|]. apply orb_false_iff in E0 as [_ E0%Z.leb_gt].
  destruct (Nat.ltb_spec (length rest) 4) as [|E1]; [done|].
  destruct (Nat.ltb_spec (length (drop 4 rest)) (Z.to_nat (from_le (take 4 rest)) + 4)) as [|E2]; [done|].
  destruct (Nat.ltb _ _); [done|]. clear Hend. rewrite length_drop in E2.
  set (rest' := drop _ (drop 4 _)). set (s1 := st_put s _ _).
  destruct (IH rest' (loaded + 1) s1) as (s' & l' & E & H1 & H2 & H3);
    [unfold rest'; rewrite !length_drop; lia|].
  exists s', l'. split; [exact E|]. unfold rest' in H3. rewrite !length_drop in H3. lia.
Qed.

Lemma read_len (n : nat) : Z.of_nat n < 2 ^ 32 -> Z.to_nat (from_le (le_bytes 4 (Z.of_nat n))) = n.
Proof.
  intros Hn. rewrite from_le_bytes; [apply Nat2Z.id|].
  change (256 ^ Z.of_nat 4) with (2 ^ 32). lia.
Qed.

Definition entry_fits (kv : bytes * bytes) : Prop :=
  Z.of_nat (length (fst kv)) < 2 ^ 32 /\ Z.of_nat (length (snd kv)) < 2 ^ 32.

Lemma load_encoded entries : Forall entry_fits entries -> forall loaded count (s : S) fuel,
  0 <= loaded -> count = loaded + Z.of_nat (length entries) ->
  (length (concat (map encode_entry entries)) < fuel)%nat ->
  load_entries fuel (concat (map encode_entry entries)) loaded count s
  = Some (fold_left (fun s kv => st_put s (fst kv) (snd kv)) entries s, count).
Proof.
  induction 1 as [|[k v] entries [Hk Hv] He IH]; intros loaded count s fuel Hl Hc Hf.
  - cbn in *. rewrite Z.add_0_r in Hc. subst count. destruct fuel; [lia|done].
  - cbn [map concat fold_left length fst snd] in *.
    assert (Hlen : length (encode_entry (k, v)) = (8 + length k + length v)%nat).
    { unfold encode_entry. cbn [fst snd]. rewrite !length_app, !length_le_bytes. lia. }
    rewrite length_app, Hlen in Hf. destruct fuel as [|fuel]; [lia|].
    set (tail := concat (map encode_entry entries)) in *. cbn [load_entries].
    rewrite bool_decide_eq_false_2 by (intros E; apply (f_equal length) in E; rewrite length_app, Hlen in E; cbn in E; lia).
    rewrite (proj2 (Z.leb_gt _ _)) by lia. cbn [orb].
    rewrite (proj2 (Nat.ltb_ge _ _)) by (rewrite length_app, Hlen; lia).
    unfold encode_entry. cbn [fst snd]. rewrite <- !app_assoc.
    rewrite (take_app_length' (le_bytes 4 _)), (drop_app_length' (le_bytes 4 _)) by (by rewrite length_le_bytes).
    rewrite read_len by done.
    rewrite (proj2 (Nat.ltb_ge _ _)) by (rewrite !length_app, length_le_bytes; lia).
    rewrite (take_app_length k), (drop_app_length k).
    rewrite (take_app_length' (le_bytes 4 _)), (drop_app_length' (le_bytes 4 _)) by (by rewrite length_le_bytes).
    rewrite read_len by done. rewrite (proj2 (Nat.ltb_ge _ _)) by (rewrite length_app; lia).
    rewrite take_app_length, drop_app_length. apply IH; lia.
Qed.

Context {zip : Deflate}.

(** C22: reading a snapshot ends on every input, however many entries it claims
    and however long they claim to be: the loop stops by itself within one round
    more than there are bytes, with a count of at most one entry per eight bytes
    and at most the number announced. *)
Theorem snapshot_loop_terminates raw count (s : S) fuel :
  (length raw < fuel)%nat ->
  exists s' loaded, load_entries fuel (drop 8 raw) 0 count s = Some (s', loaded)
    /\ 0 <= loaded <= Z.max 0 count /\ 8 * loaded <= Z.of_nat (length (drop 8 raw)).
Proof.
  intros Hf. destruct (load_entries_ends fuel (drop 8 raw) 0 count s) as (s' & l & E & H1 & H2 & H3);
    [rewrite length_drop; lia|].
  exists s', l. split; [done|]. lia.
Qed.

(** A snapshot is accepted only if all the entries it announces were there
    and the restored store has the state root its header names. *)
Theorem snapshot_verified (s : S) data s' meta :
  restore_snapshot s data = (s', Ok meta) ->
  st_state_root s' = sm_state_root meta /\ sm_state_root meta = slice 24 32 data
  /\ sm_height meta = from_le (slice 8 8 data) /\ sm_epoch meta = from_le (slice 16 8 data)
  /\ from_le (take 8 (fst (inflate (drop HEADER_SIZE data)))) <= sm_entry_count meta
  /\ Z.of_nat (sm_uncompressed_size meta) <= MAX_SNAPSHOT_SIZE.
Proof.
  unfold restore_snapshot. destruct (read_snapshot_meta data) as [m|e] eqn:Em; [|done].
  destruct (inflate (drop HEADER_SIZE data)) as [raw [e|]]; destruct (_ <? _) eqn:Ez; try done.
  destruct (_ <? _)%nat; [done|]. cbv zeta.
  destruct (default _ (load_entries _ _ _ _ _)) as [s1 loaded] eqn:El.
  destruct (loaded <? from_le (take 8 raw)) eqn:Ec; [done|].
  destruct (bytes_eqb _ _) eqn:Er; cbn [negb]; [|done]. intros [= <- <-].
  apply bytes_eqb_true in Er. cbn [sm_state_root sm_height sm_epoch sm_entry_count sm_uncompressed_size fst].
  unfold read_snapshot_meta in Em. destruct (_ <? _)%nat; [done|]. destruct (negb _); [done|]. cbv zeta in Em.
  destruct (negb _); [done|]. injection Em as <-. cbn in *. repeat split; try done; lia.
Qed.
End snapshot_theorems.

(** *** The round trip *)

Lemma puts_get {S} `{!StateStore S} `{!StateStoreLaws S} (l : list (bytes * bytes)) (s : S) k :
  NoDup (map fst l) ->
  st_get (fold_left (fun s kv => st_put s (fst kv) (snd kv)) l s) k
  = match (list_to_map l : gmap bytes bytes) !! k with Some v => Some v | None => st_get s k end.
Proof.
  revert s. induction l as [|[k' v] l IH]; intros s Hn; cbn [fold_left map list_to_map] in *; [done|].
  apply NoDup_cons in Hn as [Hk Hn]. rewrite IH by done. cbn [fst snd].
  destruct (decide (k' = k)) as [->|Hne].
  - rewrite (not_elem_of_list_to_map_1 l k) by done. cbn. by rewrite lookup_insert_eq, get_put_eq.
  - cbn. rewrite lookup_insert_ne by done. by rewrite get_put_ne by done.
Qed.

Section roundtrip.
Context {crypto : Crypto} {zip : Deflate}.
#[local] Instance snap_store : StateStore MemoryStore := memory_store blake3.
#[local] Instance snap_laws : StateStoreLaws MemoryStore := mem_laws blake3.

Lemma puts_reachable (l : list (bytes * bytes)) (s : MemoryStore) :
  mem_reachable blake3 s ->
  mem_reachable blake3 (fold_left (fun s kv => st_put s (fst kv) (snd kv)) l s).
Proof.
  revert s. induction l as [|[k v] l IH]; intros s Hs; [done|]. cbn [fold_left]. apply IH. by constructor.
Qed.

(** The header and the body of a snapshot, read back. *)
Lemma created_meta (s : MemoryStore) height epoch :
  in_u64 height -> in_u64 epoch -> length (st_state_root s) = 32%nat ->
  let data := create_snapshot s height epoch in
  read_snapshot_meta data
  = Ok (mkSnapshotMeta height epoch (st_state_root s) 0 (length data - HEADER_SIZE) 0)
  /\ drop HEADER_SIZE data = deflate (snapshot_body (st_scan_all s)).
Proof.
  intros Hh He Hroot data. set (body := deflate (snapshot_body (st_scan_all s))).
  set (H1 := le_bytes 4 VERSION). set (H2 := le_bytes 8 height). set (H3 := le_bytes 8 epoch).
  assert (Ed : create_snapshot s height epoch = MAGIC ++ H1 ++ H2 ++ H3 ++ st_state_root s ++ body)
    by (unfold create_snapshot; by rewrite <- !app_assoc).
  fold data in Ed.
  assert (L1 : 4%nat = length H1) by (unfold H1; by rewrite length_le_bytes).
  assert (L2 : 8%nat = length H2) by (unfold H2; by rewrite length_le_bytes).
  assert (L3 : 8%nat = length H3) by (unfold H3; by rewrite length_le_bytes).
  split.
  - unfold read_snapshot_meta.
    rewrite (proj2 (Nat.ltb_ge _ _)) by (rewrite Ed, !length_app; change (length MAGIC) with 4%nat; unfold HEADER_SIZE; lia).
    rewrite Ed at 1. rewrite take_app_length' by done. rewrite bytes_eqb_refl. cbn [negb].
    assert (Ev : slice 4 4 data = H1).
    { rewrite Ed. unfold slice. rewrite (drop_app_length' MAGIC) by done.
      by rewrite take_app_length'. }
    assert (Eh : slice 8 8 data = H2).
    { rewrite Ed, (app_assoc MAGIC). unfold slice. rewrite drop_app_length' by (rewrite length_app, <- L1; done).
      by rewrite take_app_length'. }
    assert (Ee : slice 16 8 data = H3).
    { rewrite Ed, (app_assoc MAGIC), (app_assoc _ H2). unfold slice.
      rewrite drop_app_length' by (rewrite !length_app, <- L1, <- L2; done). by rewrite take_app_length'. }
    assert (Es : slice 24 32 data = st_state_root s).
    { rewrite Ed, (app_assoc MAGIC), (app_assoc _ H2), (app_assoc _ H3). unfold slice.
      rewrite drop_app_length' by (rewrite !length_app, <- L1, <- L2, <- L3; done). by rewrite take_app_length'. }
    rewrite Ev, Eh, Ee, Es. unfold H1, H2, H3. rewrite !from_le_u64 by done.
    rewrite (from_le_bytes 4) by (vm_compute; split; congruence). done.
  - rewrite Ed, !app_assoc, drop_app_length'; [done|]. rewrite !length_app, <- L1, <- L2, <- L3, Hroot. done.
Qed.

(** a node that starts from another node's snapshot ends with the same
    state: restoring a snapshot into an empty store succeeds, reports the height
    and the epoch it was taken at, and every key reads as in the source. *)
Theorem snapshot_roundtrip (s : MemoryStore) height epoch :
  mem_reachable blake3 s -> in_u64 height -> in_u64 epoch -> length (st_state_root s) = 32%nat ->
  Forall entry_fits (st_scan_all s) -> Z.of_nat (length (st_scan_all s)) <= u64_max ->
  inflate (deflate (snapshot_body (st_scan_all s))) = (snapshot_body (st_scan_all s), None) ->
  Z.of_nat (length (snapshot_body (st_scan_all s))) <= MAX_SNAPSHOT_SIZE ->
  exists s' meta, restore_snapshot mem_new (create_snapshot s height epoch) = (s', Ok meta)
    /\ sm_height meta = height /\ sm_epoch meta = epoch /\ sm_state_root meta = st_state_root s
    /\ store_eq s' s.
Proof.
  intros Hr Hh He Hroot Hfits Hcount Hzip Hsize.
  set (entries := st_scan_all s) in *. set (body := deflate (snapshot_body entries)) in *.
  destruct (created_meta s height epoch Hh He Hroot) as [Hmeta Hbody].
  set (data := create_snapshot s height epoch) in *. fold entries in Hbody. fold body in Hbody.
  assert (Hcnt : from_le (take 8 (snapshot_body entries)) = Z.of_nat (length entries)).
  { unfold snapshot_body. rewrite take_app_length' by (by rewrite length_le_bytes). apply from_le_u64. split; lia. }
  set (s1 := fold_left (fun s kv => st_put s (fst kv) (snd kv)) entries mem_new).
  assert (Hload : load_entries (S (length (snapshot_body entries))) (drop 8 (snapshot_body entries)) 0
    (Z.of_nat (length entries)) mem_new = Some (s1, Z.of_nat (length entries))).
  { unfold snapshot_body at 2. rewrite drop_app_length' by (by rewrite length_le_bytes).
    apply load_encoded; [done|done|done|]. unfold snapshot_body. rewrite length_app. lia. }
  assert (Heq : store_eq (st_commit_root s1) s).
  { intros k. rewrite get_commit_root. unfold s1. rewrite puts_get by apply btree_entries_NoDup.
    unfold entries. cbn. unfold mem_scan_all. rewrite btree_entries_map. unfold mem_get.
    by destruct (mem_data s !! k). }
  assert (Hrt : st_state_root (st_commit_root s1) = st_state_root s).
  { apply (mem_root_agree blake3).
    - constructor. apply puts_reachable. constructor.
    - done.
    - intros k _. apply Heq. }
  unfold restore_snapshot. rewrite Hmeta, Hbody. fold body in Hzip. rewrite Hzip.
  rewrite (proj2 (Z.ltb_ge _ _)) by lia.
  rewrite (proj2 (Nat.ltb_ge _ _)) by (unfold snapshot_body; rewrite length_app, length_le_bytes; lia).
  cbv zeta. rewrite Hcnt, Hload. cbn [default from_option id]. rewrite Z.ltb_irrefl, Hrt. cbn [sm_state_root].
  rewrite bytes_eqb_refl. cbn [negb]. do 2 eexists. split; [done|]. done.
Qed.
End roundtrip.

(** *** The ring of snapshots *)

Lemma delete_all_lookup {A} (keys : list (Z * A)) (m : gmap Z A) k :
  fold_left (fun m e => delete (fst e) m) keys m !! k
  = if bool_decide (k ∈ map fst keys) then None else m !! k.
Proof.
  revert m. induction keys as [|[k' x] keys IH]; intros m; cbn [fold_left map fst]; [done|].
  rewrite IH, lookup_delete.
  destruct (decide (k' = k)) as [->|Hne].
  - rewrite (bool_decide_eq_true_2 (k ∈ k :: _)) by left. by case_bool_decide.
  - apply (f_equal (fun b : bool => if b then None else m !! k)), bool_decide_ext.
    rewrite elem_of_cons. naive_solver.
Qed.

Lemma ls_list_spec l :
  StronglySorted (fun a b => fst a <= fst b) (ls_list l) /\ ls_list l ≡ₚ map_to_list (ls_files l).
Proof.
  split; [|apply stable_sort_perm].
  assert (Hs := stable_sort_sorted (fun a b : Z * bytes => fst a <=? fst b)
    ltac:(intros; rewrite !Z.leb_le; lia) ltac:(intros *; rewrite !Z.leb_le; lia) (map_to_list (ls_files l))).
  fold (ls_list l) in Hs. induction Hs as [|x k Hk IH Hx]; [constructor|]. constructor; [done|].
  eapply Forall_impl; [exact Hx|]. intros y. by rewrite Z.leb_le.
Qed.

(** What is left after pruning are the last entries of the list. *)
Lemma ls_prune_files l k x :
  ls_files (ls_prune l) !! k = Some x
  <-> (k, x) ∈ drop (length (ls_list l) - ls_keep l) (ls_list l).
Proof.
  destruct (ls_list_spec l) as [_ Hp]. set (all := ls_list l) in *. set (n := (length all - ls_keep l)%nat).
  assert (Hmem : (k, x) ∈ all <-> ls_files l !! k = Some x) by (rewrite Hp; apply elem_of_map_to_list).
  assert (Hfiles : ls_files (ls_prune l) !! k
    = if bool_decide (k ∈ map fst (take n all)) then None else ls_files l !! k).
  { unfold ls_prune. fold all. destruct (_ <=? _)%nat eqn:E; [|apply delete_all_lookup].
    apply Nat.leb_le in E. unfold n. by replace (length all - ls_keep l)%nat with 0%nat by lia. }
  assert (Hkeys : NoDup (map fst all)) by (rewrite Hp; apply NoDup_fst_map_to_list).
  rewrite <- (take_drop n all), map_app in Hkeys. apply NoDup_app in Hkeys as (_ & Hdis & _).
  rewrite Hfiles. case_bool_decide as Ek.
  - split; [done|]. intros Hd. destruct (Hdis k Ek). apply list_elem_of_fmap. by exists (k, x).
  - rewrite <- Hmem, <- (take_drop n all) at 1. rewrite elem_of_app. split; [|by right].
    intros [Ht|]; [|done]. destruct Ek. apply list_elem_of_fmap. by exists (k, x).
Qed.

Lemma ls_prune_length l : (length (ls_list (ls_prune l)) <= ls_keep l)%nat.
Proof.
  destruct (ls_list_spec l) as [_ Hp], (ls_list_spec (ls_prune l)) as [_ Hp1].
  assert (Hkeys : NoDup (map fst (ls_list l))) by (rewrite Hp; apply NoDup_fst_map_to_list).
  set (n := (length (ls_list l) - ls_keep l)%nat).
  assert (E : map_to_list (ls_files (ls_prune l)) ≡ₚ drop n (ls_list l)).
  { apply NoDup_Permutation; [apply NoDup_map_to_list| |].
    - rewrite <- (take_drop n (ls_list l)), map_app in Hkeys. apply NoDup_app in Hkeys as (_ & _ & Hk).
      by apply NoDup_fmap_1 in Hk.
    - intros [k x]. rewrite elem_of_map_to_list. apply ls_prune_files. }
  rewrite Hp1, E, length_drop. unfold n. lia.
Qed.

(** After a snapshot is stored at most the configured number of files is
    left; the ones that went are older than every one that stays, and when a
    file is asked for by height the newest at or below it is found. *)
Theorem local_ring height data l h :
  let l' := ls_persist height data l in
  (length (ls_list l') <= ls_keep l)%nat
  /\ (forall k x, ls_files l' !! k = Some x -> <[height := data]> (ls_files l) !! k = Some x)
  /\ (forall k x, <[height := data]> (ls_files l) !! k = Some x -> ls_files l' !! k = None ->
      forall k' x', ls_files l' !! k' = Some x' -> k <= k')
  /\ (forall e, ls_newest_at_or_below h l' = Some e ->
      ls_files l' !! fst e = Some (snd e) /\ fst e <= h
      /\ forall k x, ls_files l' !! k = Some x -> k <= h -> k <= fst e).
Proof.
  intros l'. set (l0 := mkLocalSnapshots (<[height := data]> (ls_files l)) (ls_keep l)).
  destruct (ls_list_spec l0) as [Hs0 Hp0], (ls_list_spec l') as [Hs1 Hp1].
  pose proof (ls_prune_files l0) as Hin. change (ls_prune l0) with l' in Hin.
  set (n := (length (ls_list l0) - ls_keep l0)%nat) in *.
  assert (Hmem : forall k x, (k, x) ∈ ls_list l0 <-> <[height := data]> (ls_files l) !! k = Some x).
  { intros k x. rewrite Hp0. apply elem_of_map_to_list. }
  rewrite <- (take_drop n (ls_list l0)) in Hs0.
  split; [apply (ls_prune_length l0)|]. split; [|split].
  - intros k x Hx. apply Hmem. rewrite <- (take_drop n (ls_list l0)), elem_of_app. right. by apply Hin.
  - intros k x Hx Hn k' x' Hx'. apply Hin in Hx'. apply Hmem in Hx.
    rewrite <- (take_drop n (ls_list l0)), elem_of_app in Hx. destruct Hx as [Hx|Hx].
    + exact (StronglySorted_app_1_elem_of _ _ _ _ _ Hs0 Hx Hx').
    + apply Hin in Hx. congruence.
  - intros e He. apply find_rev_last in He as (l1 & l2 & El & Hh & Hl2). apply Z.leb_le in Hh.
    split; [|split; [done|]].
    + apply elem_of_map_to_list. rewrite <- Hp1, El. destruct e. set_solver.
    + intros k x Hx Hkh. apply elem_of_map_to_list in Hx. rewrite <- Hp1, El in Hx.
      apply elem_of_app in Hx as [Hx|Hx].
      * rewrite El in Hs1. exact (StronglySorted_app_1_elem_of _ _ _ _ _ Hs1 Hx ltac:(by left)).
      * apply elem_of_cons in Hx as [<-|Hx]; [done|]. rewrite Forall_forall in Hl2.
        specialize (Hl2 _ Hx). cbn in Hl2. lia.
Qed.

(** ** Concrete runs *)

(** A stand-in for the compression: the identity. *)
#[export] Instance stored_deflate : Deflate := {| deflate b := b; inflate b := (b, None) |}.

Section snapshot_example.
(** Hashes cut or padded to 32 bytes. *)
#[local] Instance short_crypto : Crypto := {|
  blake3 b := take 32 (b ++ replicate 32 0);
  sha256 := sha256;
  ed25519_verify := ed25519_verify;
  ml_dsa_verify := ml_dsa_verify;
  p256_verify := p256_verify;
|}.

#[local] Instance short_store : StateStore MemoryStore := @snap_store short_crypto.

Definition snapshot_source : MemoryStore := st_put (st_put mem_new [97] [1; 2]) [98; 99] [].

Lemma snapshot_roundtrip_witness :
  exists s' meta, restore_snapshot mem_new (create_snapshot snapshot_source 1200 12) = (s', Ok meta)
    /\ sm_height meta = 1200 /\ sm_epoch meta = 12
    /\ sm_state_root meta = st_state_root snapshot_source /\ store_eq s' snapshot_source.
Proof.
  apply (@snapshot_roundtrip short_crypto stored_deflate snapshot_source 1200 12).
  - unfold snapshot_source. repeat constructor.
  - split; vm_compute; discriminate.
  - split; vm_compute; discriminate.
  - vm_compute. reflexivity.
  - apply Forall_forall. intros kv Hkv. assert (Hc : kv ∈ [([97], [1; 2]); ([98; 99], [])]) by exact Hkv.
    repeat (apply elem_of_cons in Hc as [->|Hc]; [split; vm_compute; reflexivity|]).
    by apply not_elem_of_nil in Hc.
  - vm_compute. discriminate.
  - reflexivity.
  - vm_compute. discriminate.
Defined.

(** A body that claims a thousand entries, has two and a part of a third. *)
Definition cut_body : bytes :=
  le_bytes 8 1000 ++ encode_entry ([97], [1; 2]) ++ encode_entry ([98], []) ++ [200; 0; 0; 0; 7].

Lemma snapshot_loop_terminates_witness :
  (exists s' loaded, load_entries 100 (drop 8 cut_body) 0 1000 mem_new = Some (s', loaded)
    /\ 8 * loaded <= 25)
  /\ snd <$> load_entries 100 (drop 8 cut_body) 0 1000 mem_new = Some 2
  /\ load_entries 2 (drop 8 cut_body) 0 1000 mem_new = None.
Proof.
  split; [|split; vm_compute; reflexivity].
  destruct (snapshot_loop_terminates cut_body 1000 mem_new 100) as (s' & loaded & E & _ & H).
  - apply Nat.ltb_lt. vm_compute. reflexivity.
  - exists s', loaded. split; [exact E|]. etrans; [exact H|]. vm_compute. discriminate.
Defined.
End snapshot_example.

Definition demo_pending : FinalizedCheckpointStore :=
  fst (add_attestation (demo_id 2) [2] demo_set
    (fst (add_attestation (demo_id 1) [1] demo_set
       (propose_checkpoint 100 1 (demo_key 7) (demo_key 8) 5 finalized_store_new)))).

Lemma demo_pending_distinct : attesters_distinct demo_pending.
Proof. unfold demo_pending. do 2 apply add_attestation_distinct. split; [constructor|done]. Qed.

Lemma checkpoint_finalized_witness :
  fs_latest (fst (add_attestation (demo_id 3) [3] demo_set demo_pending))
  = Some (mkFinalizedCheckpoint 100 1 (demo_key 7) (demo_key 8)
            [(demo_id 1, [1]); (demo_id 2, [2]); (demo_id 3, [3])]).
Proof.
  pose proof (checkpoint_finalized (demo_id 3) [3] demo_set demo_pending
    (mkPendingCheckpoint 100 1 (demo_key 7) (demo_key 8) [(demo_id 1, [1]); (demo_id 2, [2])] 5)
    demo_pending_distinct eq_refl) as Hc.
  destruct (add_attestation (demo_id 3) [3] demo_set demo_pending) as [s' final].
  destruct Hc as (_ & -> & Hf & _). apply Hf. vm_compute. reflexivity.
Defined.
