(* ===== verification/EngineState.v ===== *)
(** The state of the consensus engine
    ([crates/solen-consensus/src/engine.rs]): its data, the rollback journal,
    what it persists, and the repair, rollback and reset of its store. *)

From S2P Require Import Prelude Types Store Memory Overlay Staking Treasury Codec State Auth.
From S2P Require Import Executor Blocks Validators Mempool Intents Checkpoint.
Open Scope Z_scope.

(** ** Data *)

Record EngineConfig : Type := mkEngineConfig {
  ec_block_time_ms : u64;
  ec_max_ops_per_block : usize;
  ec_validator_id : ValidatorId;
  ec_chain_id : u64;
  ec_prune : bool;
  ec_fork_choice_v2_height : u64;
  ec_fee_fix_height : u64;
  ec_authenticate_sync_blocks : bool;
  ec_determinism_fix_height : u64;
  ec_pq_auth_height : u64;
  ec_epoch_randomness_height : u64;
}.

Definition engine_config_default : EngineConfig :=
  mkEngineConfig 2000 (Z.to_nat 5000) zero_hash 0 false u64_max u64_max false u64_max u64_max u64_max.

Record Attestation : Type := mkAttestation {
  at_validator_id : ValidatorId;
  at_block_height : u64;
  at_block_hash : Hash;
}.

Record FinalizedBlock : Type := mkFinalizedBlock {
  fb_header : BlockHeader;
  fb_result : BlockResult;
  fb_attestations : list Attestation;
  fb_operations : list UserOperation;
}.

Record PendingBlock : Type := mkPendingBlock {
  pb_header : BlockHeader;
  pb_operations : list UserOperation;
  pb_proposed_at : Z;
  pb_already_executed : bool;
  pb_result : option BlockResult;
  pb_revert : option Changes;
  pb_mismatch_count : Z;
}.

(** ** The rollback journal: oldest entry first *)

Definition ROLLBACK_JOURNAL_CAP : usize := 256%nat.
Definition SYNC_REVERT_RESYNC_THRESHOLD : Z := 5.

Record RollbackJournal : Type := mkJournal {
  rj_entries : list (u64 * Changes);
  rj_cap : usize;
}.

Definition journal_new (cap : usize) : RollbackJournal := mkJournal [] (cap `max` 1)%nat.

Definition journal_record (height : u64) (revert : Changes) (j : RollbackJournal) : RollbackJournal :=
  let entries := match last (rj_entries j) with
                 | Some (last_h, _) => if negb (height =? u64_add last_h 1) then [] else rj_entries j
                 | None => rj_entries j
                 end in
  let entries := entries ++ [(height, revert)] in
  mkJournal (drop (length entries - rj_cap j) entries) (rj_cap j).

Definition journal_min_rollback_target (j : RollbackJournal) : option u64 :=
  (fun e => sat_sub (fst e) 1) <$> head (rj_entries j).

Definition journal_clear (j : RollbackJournal) : RollbackJournal := mkJournal [] (rj_cap j).

Fixpoint drop_while {A} (p : A -> bool) (l : list A) : list A :=
  match l with
  | [] => []
  | x :: l' => if p x then drop_while p l' else l
  end.

(** Pop the entries above [target] off the back. *)
Definition journal_truncate (target : u64) (j : RollbackJournal) : RollbackJournal :=
  mkJournal (rev (drop_while (fun e => target <? fst e) (rev (rj_entries j)))) (rj_cap j).

(** ** Execution of blocks, as the engine uses it *)

Class BlockExec (St : Type) : Type := {
  (** [execute_block_journaled_durable] *)
  bx_produce : St -> list UserOperation -> u64 -> St * (BlockResult * Changes);
  (** [execute_block_checked] *)
  bx_checked : St -> list UserOperation -> u64 -> Hash -> St * option (BlockResult * Changes);
  (** [decode_eager_revert] *)
  bx_decode : bytes -> option Changes;
}.

(** What the engine relies on: a rejected block leaves no trace, the reverse
    delta undoes an applied one, and an eager commit carries its undo record. *)
Class BlockExecLaws (St : Type) `{!StateStore St} `{!BlockExec St} : Prop := {
  checked_none : forall s ops h root s', bx_checked s ops h root = (s', None) -> store_eq s' s;
  checked_some : forall s ops h root s' r revert, bx_checked s ops h root = (s', Some (r, revert)) ->
    br_state_root r = root /\ store_eq (apply_batch revert s') s;
  produce_record : forall s ops h,
    let '(s', (_, revert)) := bx_produce s ops h in
    (exists record, st_get s' (eager_revert_key h) = Some record /\ bx_decode record = Some revert)
    /\ st_get (apply_batch revert s') (eager_revert_key h) = None
    /\ (forall k, k <> eager_revert_key h -> st_get (apply_batch revert s') k = st_get s k);
}.

(** ** The engine *)

Record Engine {St : Type} : Type := mkEngine {
  en_store : St;
  en_mempool : Mempool;
  en_chain : list FinalizedBlock;
  en_validator_set : list ValidatorInfo;
  en_epoch_manager : EpochManager;
  en_pending_attestations : gmap Z (list Attestation);
  en_pending_blocks : gmap Z PendingBlock;
  en_intent_pool : IntentPool;
  en_pending_slashing : list SlashingEvidence;
  en_force_finalizes : Z;
  en_last_probe_at : option Z;
  en_early_attestations : list (ValidatorId * u64 * Hash * Z);
  en_epoch_seed : Hash;
  en_finalized_checkpoints : FinalizedCheckpointStore;
  en_trusted_checkpoints : TrustedCheckpoints;
  en_dropped_block_height : option u64;
  en_needs_resync : bool;
  en_sync_reverts : Z;
  en_resyncing : bool;
  en_journal : RollbackJournal;
  en_v2_blocks : gmap Z (gmap bytes PendingBlock);
  en_v2_votes : gmap Z (gmap bytes Hash);
  en_v2_revotes : list (u64 * Hash);
  en_v2_invalid : gmap Z (gset bytes);
}.
Arguments Engine : clear implicits.
Arguments mkEngine {St}.

Section setters.
Context {St : Type}.
Definition set_store (x : St) (e : Engine St) : Engine St :=
  mkEngine x (en_mempool e) (en_chain e) (en_validator_set e) (en_epoch_manager e)
    (en_pending_attestations e) (en_pending_blocks e) (en_intent_pool e) (en_pending_slashing e)
    (en_force_finalizes e) (en_last_probe_at e) (en_early_attestations e) (en_epoch_seed e)
    (en_finalized_checkpoints e) (en_trusted_checkpoints e) (en_dropped_block_height e)
    (en_needs_resync e) (en_sync_reverts e) (en_resyncing e) (en_journal e) (en_v2_blocks e)
    (en_v2_votes e) (en_v2_revotes e) (en_v2_invalid e).
Definition set_mempool (x : Mempool) (e : Engine St) : Engine St :=
  mkEngine (en_store e) x (en_chain e) (en_validator_set e) (en_epoch_manager e)
    (en_pending_attestations e) (en_pending_blocks e) (en_intent_pool e) (en_pending_slashing e)
    (en_force_finalizes e) (en_last_probe_at e) (en_early_attestations e) (en_epoch_seed e)
    (en_finalized_checkpoints e) (en_trusted_checkpoints e) (en_dropped_block_height e)
    (en_needs_resync e) (en_sync_reverts e) (en_resyncing e) (en_journal e) (en_v2_blocks e)
    (en_v2_votes e) (en_v2_revotes e) (en_v2_invalid e).
Definition set_chain (x : list FinalizedBlock) (e : Engine St) : Engine St :=
  mkEngine (en_store e) (en_mempool e) x (en_validator_set e) (en_epoch_manager e)
    (en_pending_attestations e) (en_pending_blocks e) (en_intent_pool e) (en_pending_slashing e)
    (en_force_finalizes e) (en_last_probe_at e) (en_early_attestations e) (en_epoch_seed e)
    (en_finalized_checkpoints e) (en_trusted_checkpoints e) (en_dropped_block_height e)
    (en_needs_resync e) (en_sync_reverts e) (en_resyncing e) (en_journal e) (en_v2_blocks e)
    (en_v2_votes e) (en_v2_revotes e) (en_v2_invalid e).
Definition set_validator_set (x : list ValidatorInfo) (e : Engine St) : Engine St :=
  mkEngine (en_store e) (en_mempool e) (en_chain e) x (en_epoch_manager e) (en_pending_attestations
    e) (en_pending_blocks e) (en_intent_pool e) (en_pending_slashing e) (en_force_finalizes e)
    (en_last_probe_at e) (en_early_attestations e) (en_epoch_seed e) (en_finalized_checkpoints e)
    (en_trusted_checkpoints e) (en_dropped_block_height e) (en_needs_resync e) (en_sync_reverts e)
    (en_resyncing e) (en_journal e) (en_v2_blocks e) (en_v2_votes e) (en_v2_revotes e)
    (en_v2_invalid e).
Definition set_epoch_manager (x : EpochManager) (e : Engine St) : Engine St :=
  mkEngine (en_store e) (en_mempool e) (en_chain e) (en_validator_set e) x (en_pending_attestations
    e) (en_pending_blocks e) (en_intent_pool e) (en_pending_slashing e) (en_force_finalizes e)
    (en_last_probe_at e) (en_early_attestations e) (en_epoch_seed e) (en_finalized_checkpoints e)
    (en_trusted_checkpoints e) (en_dropped_block_height e) (en_needs_resync e) (en_sync_reverts e)
    (en_resyncing e) (en_journal e) (en_v2_blocks e) (en_v2_votes e) (en_v2_revotes e)
    (en_v2_invalid e).
Definition set_pending_attestations (x : gmap Z (list Attestation)) (e : Engine St) : Engine St :=
  mkEngine (en_store e) (en_mempool e) (en_chain e) (en_validator_set e) (en_epoch_manager e) x
    (en_pending_blocks e) (en_intent_pool e) (en_pending_slashing e) (en_force_finalizes e)
    (en_last_probe_at e) (en_early_attestations e) (en_epoch_seed e) (en_finalized_checkpoints e)
    (en_trusted_checkpoints e) (en_dropped_block_height e) (en_needs_resync e) (en_sync_reverts e)
    (en_resyncing e) (en_journal e) (en_v2_blocks e) (en_v2_votes e) (en_v2_revotes e)
    (en_v2_invalid e).
Definition set_pending_blocks (x : gmap Z PendingBlock) (e : Engine St) : Engine St :=
  mkEngine (en_store e) (en_mempool e) (en_chain e) (en_validator_set e) (en_epoch_manager e)
    (en_pending_attestations e) x (en_intent_pool e) (en_pending_slashing e) (en_force_finalizes e)
    (en_last_probe_at e) (en_early_attestations e) (en_epoch_seed e) (en_finalized_checkpoints e)
    (en_trusted_checkpoints e) (en_dropped_block_height e) (en_needs_resync e) (en_sync_reverts e)
    (en_resyncing e) (en_journal e) (en_v2_blocks e) (en_v2_votes e) (en_v2_revotes e)
    (en_v2_invalid e).
Definition set_intent_pool (x : IntentPool) (e : Engine St) : Engine St :=
  mkEngine (en_store e) (en_mempool e) (en_chain e) (en_validator_set e) (en_epoch_manager e)
    (en_pending_attestations e) (en_pending_blocks e) x (en_pending_slashing e) (en_force_finalizes
    e) (en_last_probe_at e) (en_early_attestations e) (en_epoch_seed e) (en_finalized_checkpoints e)
    (en_trusted_checkpoints e) (en_dropped_block_height e) (en_needs_resync e) (en_sync_reverts e)
    (en_resyncing e) (en_journal e) (en_v2_blocks e) (en_v2_votes e) (en_v2_revotes e)
    (en_v2_invalid e).
Definition set_pending_slashing (x : list SlashingEvidence) (e : Engine St) : Engine St :=
  mkEngine (en_store e) (en_mempool e) (en_chain e) (en_validator_set e) (en_epoch_manager e)
    (en_pending_attestations e) (en_pending_blocks e) (en_intent_pool e) x (en_force_finalizes e)
    (en_last_probe_at e) (en_early_attestations e) (en_epoch_seed e) (en_finalized_checkpoints e)
    (en_trusted_checkpoints e) (en_dropped_block_height e) (en_needs_resync e) (en_sync_reverts e)
    (en_resyncing e) (en_journal e) (en_v2_blocks e) (en_v2_votes e) (en_v2_revotes e)
    (en_v2_invalid e).
Definition set_force_finalizes (x : Z) (e : Engine St) : Engine St :=
  mkEngine (en_store e) (en_mempool e) (en_chain e) (en_validator_set e) (en_epoch_manager e)
    (en_pending_attestations e) (en_pending_blocks e) (en_intent_pool e) (en_pending_slashing e) x
    (en_last_probe_at e) (en_early_attestations e) (en_epoch_seed e) (en_finalized_checkpoints e)
    (en_trusted_checkpoints e) (en_dropped_block_height e) (en_needs_resync e) (en_sync_reverts e)
    (en_resyncing e) (en_journal e) (en_v2_blocks e) (en_v2_votes e) (en_v2_revotes e)
    (en_v2_invalid e).
Definition set_last_probe_at (x : option Z) (e : Engine St) : Engine St :=
  mkEngine (en_store e) (en_mempool e) (en_chain e) (en_validator_set e) (en_epoch_manager e)
    (en_pending_attestations e) (en_pending_blocks e) (en_intent_pool e) (en_pending_slashing e)
    (en_force_finalizes e) x (en_early_attestations e) (en_epoch_seed e) (en_finalized_checkpoints
    e) (en_trusted_checkpoints e) (en_dropped_block_height e) (en_needs_resync e) (en_sync_reverts
    e) (en_resyncing e) (en_journal e) (en_v2_blocks e) (en_v2_votes e) (en_v2_revotes e)
    (en_v2_invalid e).
Definition set_early_attestations (x : list (ValidatorId * u64 * Hash * Z)) (e : Engine St) : Engine St :=
  mkEngine (en_store e) (en_mempool e) (en_chain e) (en_validator_set e) (en_epoch_manager e)
    (en_pending_attestations e) (en_pending_blocks e) (en_intent_pool e) (en_pending_slashing e)
    (en_force_finalizes e) (en_last_probe_at e) x (en_epoch_seed e) (en_finalized_checkpoints e)
    (en_trusted_checkpoints e) (en_dropped_block_height e) (en_needs_resync e) (en_sync_reverts e)
    (en_resyncing e) (en_journal e) (en_v2_blocks e) (en_v2_votes e) (en_v2_revotes e)
    (en_v2_invalid e).
Definition set_epoch_seed (x : Hash) (e : Engine St) : Engine St :=
  mkEngine (en_store e) (en_mempool e) (en_chain e) (en_validator_set e) (en_epoch_manager e)
    (en_pending_attestations e) (en_pending_blocks e) (en_intent_pool e) (en_pending_slashing e)
    (en_force_finalizes e) (en_last_probe_at e) (en_early_attestations e) x
    (en_finalized_checkpoints e) (en_trusted_checkpoints e) (en_dropped_block_height e)
    (en_needs_resync e) (en_sync_reverts e) (en_resyncing e) (en_journal e) (en_v2_blocks e)
    (en_v2_votes e) (en_v2_revotes e) (en_v2_invalid e).
Definition set_finalized_checkpoints (x : FinalizedCheckpointStore) (e : Engine St) : Engine St :=
  mkEngine (en_store e) (en_mempool e) (en_chain e) (en_validator_set e) (en_epoch_manager e)
    (en_pending_attestations e) (en_pending_blocks e) (en_intent_pool e) (en_pending_slashing e)
    (en_force_finalizes e) (en_last_probe_at e) (en_early_attestations e) (en_epoch_seed e) x
    (en_trusted_checkpoints e) (en_dropped_block_height e) (en_needs_resync e) (en_sync_reverts e)
    (en_resyncing e) (en_journal e) (en_v2_blocks e) (en_v2_votes e) (en_v2_revotes e)
    (en_v2_invalid e).
Definition set_trusted_checkpoints (x : TrustedCheckpoints) (e : Engine St) : Engine St :=
  mkEngine (en_store e) (en_mempool e) (en_chain e) (en_validator_set e) (en_epoch_manager e)
    (en_pending_attestations e) (en_pending_blocks e) (en_intent_pool e) (en_pending_slashing e)
    (en_force_finalizes e) (en_last_probe_at e) (en_early_attestations e) (en_epoch_seed e)
    (en_finalized_checkpoints e) x (en_dropped_block_height e) (en_needs_resync e) (en_sync_reverts
    e) (en_resyncing e) (en_journal e) (en_v2_blocks e) (en_v2_votes e) (en_v2_revotes e)
    (en_v2_invalid e).
Definition set_dropped_block_height (x : option u64) (e : Engine St) : Engine St :=
  mkEngine (en_store e) (en_mempool e) (en_chain e) (en_validator_set e) (en_epoch_manager e)
    (en_pending_attestations e) (en_pending_blocks e) (en_intent_pool e) (en_pending_slashing e)
    (en_force_finalizes e) (en_last_probe_at e) (en_early_attestations e) (en_epoch_seed e)
    (en_finalized_checkpoints e) (en_trusted_checkpoints e) x (en_needs_resync e) (en_sync_reverts
    e) (en_resyncing e) (en_journal e) (en_v2_blocks e) (en_v2_votes e) (en_v2_revotes e)
    (en_v2_invalid e).
Definition set_needs_resync (x : bool) (e : Engine St) : Engine St :=
  mkEngine (en_store e) (en_mempool e) (en_chain e) (en_validator_set e) (en_epoch_manager e)
    (en_pending_attestations e) (en_pending_blocks e) (en_intent_pool e) (en_pending_slashing e)
    (en_force_finalizes e) (en_last_probe_at e) (en_early_attestations e) (en_epoch_seed e)
    (en_finalized_checkpoints e) (en_trusted_checkpoints e) (en_dropped_block_height e) x
    (en_sync_reverts e) (en_resyncing e) (en_journal e) (en_v2_blocks e) (en_v2_votes e)
    (en_v2_revotes e) (en_v2_invalid e).
Definition set_sync_reverts (x : Z) (e : Engine St) : Engine St :=
  mkEngine (en_store e) (en_mempool e) (en_chain e) (en_validator_set e) (en_epoch_manager e)
    (en_pending_attestations e) (en_pending_blocks e) (en_intent_pool e) (en_pending_slashing e)
    (en_force_finalizes e) (en_last_probe_at e) (en_early_attestations e) (en_epoch_seed e)
    (en_finalized_checkpoints e) (en_trusted_checkpoints e) (en_dropped_block_height e)
    (en_needs_resync e) x (en_resyncing e) (en_journal e) (en_v2_blocks e) (en_v2_votes e)
    (en_v2_revotes e) (en_v2_invalid e).
Definition set_resyncing (x : bool) (e : Engine St) : Engine St :=
  mkEngine (en_store e) (en_mempool e) (en_chain e) (en_validator_set e) (en_epoch_manager e)
    (en_pending_attestations e) (en_pending_blocks e) (en_intent_pool e) (en_pending_slashing e)
    (en_force_finalizes e) (en_last_probe_at e) (en_early_attestations e) (en_epoch_seed e)
    (en_finalized_checkpoints e) (en_trusted_checkpoints e) (en_dropped_block_height e)
    (en_needs_resync e) (en_sync_reverts e) x (en_journal e) (en_v2_blocks e) (en_v2_votes e)
    (en_v2_revotes e) (en_v2_invalid e).
Definition set_journal (x : RollbackJournal) (e : Engine St) : Engine St :=
  mkEngine (en_store e) (en_mempool e) (en_chain e) (en_validator_set e) (en_epoch_manager e)
    (en_pending_attestations e) (en_pending_blocks e) (en_intent_pool e) (en_pending_slashing e)
    (en_force_finalizes e) (en_last_probe_at e) (en_early_attestations e) (en_epoch_seed e)
    (en_finalized_checkpoints e) (en_trusted_checkpoints e) (en_dropped_block_height e)
    (en_needs_resync e) (en_sync_reverts e) (en_resyncing e) x (en_v2_blocks e) (en_v2_votes e)
    (en_v2_revotes e) (en_v2_invalid e).
Definition set_v2_blocks (x : gmap Z (gmap bytes PendingBlock)) (e : Engine St) : Engine St :=
  mkEngine (en_store e) (en_mempool e) (en_chain e) (en_validator_set e) (en_epoch_manager e)
    (en_pending_attestations e) (en_pending_blocks e) (en_intent_pool e) (en_pending_slashing e)
    (en_force_finalizes e) (en_last_probe_at e) (en_early_attestations e) (en_epoch_seed e)
    (en_finalized_checkpoints e) (en_trusted_checkpoints e) (en_dropped_block_height e)
    (en_needs_resync e) (en_sync_reverts e) (en_resyncing e) (en_journal e) x (en_v2_votes e)
    (en_v2_revotes e) (en_v2_invalid e).
Definition set_v2_votes (x : gmap Z (gmap bytes Hash)) (e : Engine St) : Engine St :=
  mkEngine (en_store e) (en_mempool e) (en_chain e) (en_validator_set e) (en_epoch_manager e)
    (en_pending_attestations e) (en_pending_blocks e) (en_intent_pool e) (en_pending_slashing e)
    (en_force_finalizes e) (en_last_probe_at e) (en_early_attestations e) (en_epoch_seed e)
    (en_finalized_checkpoints e) (en_trusted_checkpoints e) (en_dropped_block_height e)
    (en_needs_resync e) (en_sync_reverts e) (en_resyncing e) (en_journal e) (en_v2_blocks e) x
    (en_v2_revotes e) (en_v2_invalid e).
Definition set_v2_revotes (x : list (u64 * Hash)) (e : Engine St) : Engine St :=
  mkEngine (en_store e) (en_mempool e) (en_chain e) (en_validator_set e) (en_epoch_manager e)
    (en_pending_attestations e) (en_pending_blocks e) (en_intent_pool e) (en_pending_slashing e)
    (en_force_finalizes e) (en_last_probe_at e) (en_early_attestations e) (en_epoch_seed e)
    (en_finalized_checkpoints e) (en_trusted_checkpoints e) (en_dropped_block_height e)
    (en_needs_resync e) (en_sync_reverts e) (en_resyncing e) (en_journal e) (en_v2_blocks e)
    (en_v2_votes e) x (en_v2_invalid e).
Definition set_v2_invalid (x : gmap Z (gset bytes)) (e : Engine St) : Engine St :=
  mkEngine (en_store e) (en_mempool e) (en_chain e) (en_validator_set e) (en_epoch_manager e)
    (en_pending_attestations e) (en_pending_blocks e) (en_intent_pool e) (en_pending_slashing e)
    (en_force_finalizes e) (en_last_probe_at e) (en_early_attestations e) (en_epoch_seed e)
    (en_finalized_checkpoints e) (en_trusted_checkpoints e) (en_dropped_block_height e)
    (en_needs_resync e) (en_sync_reverts e) (en_resyncing e) (en_journal e) (en_v2_blocks e)
    (en_v2_votes e) (en_v2_revotes e) x.
End setters.


(** ** Roots of a block's contents *)

Section roots.
Context {crypto : Crypto} `{!Codec (list UserOperation)} `{!Codec (list ExecutionReceipt)}.

Definition compute_tx_root (ops : list UserOperation) : Hash :=
  if bool_decide (length ops = 0%nat) then zero_hash
  else match ser ops with
       | Some data => blake3 data
       | None => blake3 (le_bytes 8 (Z.of_nat (length ops)))
       end.

Definition compute_receipts_root (r : BlockResult) : Hash :=
  if bool_decide (length (br_receipts r) = 0%nat) then zero_hash
  else match ser (br_receipts r) with
       | Some data => blake3 data
       | None => blake3 (le_bytes 8 (Z.of_nat (length (br_receipts r))))
       end.
End roots.

(** ** What is persisted *)

Definition CHAIN_META_KEY : bytes := Eval vm_compute in bytes_of_string "__chain_meta__".
Definition LAST_ATTESTATION_KEY : bytes := Eval vm_compute in bytes_of_string "__last_attestation__".
Definition block_key (height : u64) : bytes := bytes_of_string ("block/" +:+ pretty height).

Record SerializableBlock : Type := mkSerializableBlock {
  sb_header : BlockHeader;
  sb_state_root : Hash;
  sb_receipts : list ExecutionReceipt;
  sb_gas_used : u64;
  sb_operations : list UserOperation;
}.

Definition to_serializable (b : FinalizedBlock) : SerializableBlock :=
  mkSerializableBlock (fb_header b) (br_state_root (fb_result b)) (br_receipts (fb_result b))
    (br_gas_used (fb_result b)) (fb_operations b).
Definition from_serializable (sb : SerializableBlock) : FinalizedBlock :=
  mkFinalizedBlock (sb_header sb) (mkBlockResult (sb_state_root sb) (sb_receipts sb) (sb_gas_used sb))
    [] (sb_operations sb).

Section persistence.
Context {St : Type} `{!StateStore St}.

Definition save_chain_meta (s : St) (height epoch : u64) : St :=
  st_put s CHAIN_META_KEY (le_bytes 8 height ++ le_bytes 8 epoch).

Definition load_chain_meta (s : St) : u64 * u64 :=
  match st_get s CHAIN_META_KEY with
  | Some data => if (16 <=? length data)%nat
                 then (from_le (take 8 data), from_le (slice 8 8 data)) else (0, 0)
  | None => (0, 0)
  end.

Definition persist_last_attestation (s : St) (height : u64) (hash : Hash) : St :=
  st_put s LAST_ATTESTATION_KEY (le_bytes 8 height ++ hash).

Definition last_attested_block (s : St) : option (u64 * Hash) :=
  data ← st_get s LAST_ATTESTATION_KEY;
  if (40 <=? length data)%nat then Some (from_le (take 8 data), slice 8 32 data) else None.

Definition BLOCK_RETENTION : u64 := 10000000.

Definition prune_old_blocks (prune : bool) (s : St) (current_height : u64) : St :=
  if negb prune then s
  else if current_height <=? BLOCK_RETENTION then s
  else
  let prune_below := current_height - BLOCK_RETENTION in
  let first := sat_sub prune_below 10 in
  fold_left (fun s i => let h := first + Z.of_nat i in
                        if h =? 0 then s else st_delete s (block_key h))
    (seq 0 (Z.to_nat (prune_below - first))) s.

Context `{!Codec SerializableBlock}.

Definition persist_block_and_meta (prune : bool) (s : St) (b : FinalizedBlock) : St :=
  let s := match ser (to_serializable b) with
           | Some data => save_chain_meta (st_put s (block_key (bh_height (fb_header b))) data)
                            (bh_height (fb_header b)) (bh_epoch (fb_header b))
           | None => s
           end in
  prune_old_blocks prune s (bh_height (fb_header b)).

(** [load_persisted_blocks_range] and [get_blocks_for_sync]. *)
Fixpoint load_blocks (s : St) (height : u64) (max_blocks : nat) : list FinalizedBlock :=
  match max_blocks with
  | O => []
  | S max_blocks =>
    match st_get s (block_key height) with
    | Some data => match de data with
                   | Some sb => from_serializable sb :: load_blocks s (u64_add height 1) max_blocks
                   | None => []
                   end
    | None => []
    end
  end.

(** [apply_durable_reverts_above]: the records above [tip_height], newest first. *)
Context `{!BlockExec St}.

Definition durable_revert (tip_height : u64) (kv : bytes * bytes) : option (u64 * Changes) :=
  let suffix := drop (length EAGER_REVERT_PREFIX) (fst kv) in
  if negb (length suffix =? 8)%nat then None
  else
  let height := from_le (rev suffix) in
  if height <=? tip_height then None
  else (fun revert => (height, revert)) <$> bx_decode (snd kv).

Definition newest_first (l : list (u64 * Changes)) : list (u64 * Changes) :=
  stable_sort (fun a b => fst b <=? fst a) l.

Definition apply_reverts (l : list (u64 * Changes)) (s : St) : St :=
  fold_left (fun s r => apply_batch (snd r) s) l s.

Definition apply_durable_reverts_above (s : St) (tip_height : u64) : St * bool :=
  let pending := omap (durable_revert tip_height) (st_scan_prefix s EAGER_REVERT_PREFIX) in
  match pending with
  | [] => (s, false)
  | _ => (st_commit_root (apply_reverts (newest_first pending) s), true)
  end.
End persistence.

(** ** Operations on the state *)

Definition PARTITION_PROBE_INTERVAL_MS : Z := 30000.

(** An own block whose eager commit can be undone. *)
Definition undoable (pb : PendingBlock) : bool :=
  pb_already_executed pb && bool_decide (is_Some (pb_revert pb)).
Definition undo_of (h : u64) (pb : PendingBlock) : list (u64 * Changes) :=
  if undoable pb then match pb_revert pb with Some r => [(h, r)] | None => [] end else [].

Definition drop_undoable {K} `{Countable K} (m : gmap K PendingBlock) : gmap K PendingBlock :=
  filter (fun kv : K * PendingBlock => undoable (snd kv) = false) m.

Section engine.
Context {St : Type} `{!StateStore St} `{!BlockExec St} {crypto : Crypto} `{!Codec BlockHeader}
        (cfg : EngineConfig).
Implicit Types e : Engine St.

Definition en_height e : u64 :=
  match last (en_chain e) with Some b => bh_height (fb_header b) | None => 0 end.

Definition get_block e (height : u64) : option FinalizedBlock :=
  List.find (fun b => bh_height (fb_header b) =? height) (en_chain e).
Definition latest_block e : option FinalizedBlock := last (en_chain e).

Definition en_is_active e (id : ValidatorId) : bool :=
  existsb (fun v => bytes_eqb (vi_id v) id) (vs_active (en_validator_set e)).

Definition take_dropped_block_height e : Engine St * option u64 :=
  (set_dropped_block_height None e, en_dropped_block_height e).

(** *** Partitions *)

Definition is_likely_partitioned e : bool := 3 <? en_force_finalizes e.

Definition partition_probe_due (now : Z) e : Engine St * bool :=
  match en_last_probe_at e with
  | Some t => if now - t <? PARTITION_PROBE_INTERVAL_MS then (e, false)
              else (set_last_probe_at (Some now) e, true)
  | None => (set_last_probe_at (Some now) e, true)
  end.

Definition reset_partition_state e : Engine St := set_last_probe_at None (set_force_finalizes 0 e).

(** *** Resynchronisation *)

Definition request_resync e : Engine St := set_needs_resync true e.
Definition take_resync_request e : Engine St * bool := (set_needs_resync false e, en_needs_resync e).

Definition reconcile_tip_with_finalized_checkpoint e : Engine St * bool :=
  let tip := en_height e in
  if tip =? 0 then (e, false)
  else
  match fs_latest (en_finalized_checkpoints e) with
  | Some c =>
    if fc_height c =? tip then
      if negb (bytes_eqb (st_state_root (en_store e)) (fc_state_root c)) then (request_resync e, true)
      else (e, false)
    else (e, false)
  | None => (e, false)
  end.

(** The reverts of the own executed blocks, newest first. *)
Definition own_reverts e : list (u64 * Changes) :=
  newest_first
    (concat (map (fun hc => concat (map (fun c => undo_of (fst hc) (snd c)) (map_to_list (snd hc))))
               (map_to_list (en_v2_blocks e)))
     ++ concat (map (fun c => undo_of (fst c) (snd c)) (map_to_list (en_pending_blocks e)))).

Definition restore_store_to_finalized_tip e : Engine St :=
  match last (en_chain e) with
  | None => e
  | Some b =>
    let tip_root := br_state_root (fb_result b) in
    if bytes_eqb (st_state_root (en_store e)) tip_root then e
    else
    let reverts := own_reverts e in
    let e := set_v2_blocks (drop_undoable <$> en_v2_blocks e) e in
    let e := set_pending_blocks (drop_undoable (en_pending_blocks e)) e in
    let e := set_store (st_commit_root (apply_reverts reverts (en_store e))) e in
    if bytes_eqb (st_state_root (en_store e)) tip_root then e
    else
    let '(s, repaired) := apply_durable_reverts_above (en_store e) (en_height e) in
    let e := set_store s e in
    if repaired && bytes_eqb (st_state_root s) tip_root then e
    else set_needs_resync true e
  end.

Definition clear_eager_revert (height : u64) e : Engine St :=
  set_store (st_delete (en_store e) (eager_revert_key height)) e.

(** *** Rollback and reset *)

Definition min_rollback_target e : option u64 := journal_min_rollback_target (en_journal e).

(** The undo deltas above [target] of a journal read newest first: the loop
    stops at the first entry at or below it. *)
Fixpoint take_above (target : u64) (entries : list (u64 * Changes)) : list (u64 * Changes) :=
  match entries with
  | [] => []
  | r :: entries => if fst r <=? target then [] else r :: take_above target entries
  end.

Definition rollback_to_height (target : u64) (expected_root : Hash) e : Engine St * bool :=
  if en_height e <=? target then (e, false)
  else
  match min_rollback_target e with
  | Some min =>
    if target <? min then (e, false)
    else
    let s := apply_reverts (take_above target (rev (rj_entries (en_journal e)))) (en_store e) in
    let e := set_store (st_commit_root s) e in
    if negb (bytes_eqb (st_state_root (en_store e)) expected_root) then (e, false)
    else
    let e := set_chain (List.filter (fun b => bh_height (fb_header b) <=? target) (en_chain e)) e in
    let e := set_journal (journal_truncate target (en_journal e)) e in
    let e := set_early_attestations [] (set_pending_attestations ∅ (set_pending_blocks ∅ e)) in
    let e := set_force_finalizes 0 (set_dropped_block_height None e) in
    let target_epoch := target / CONSENSUS_EPOCH_LENGTH in
    let e := set_epoch_manager (mkEpochManager target_epoch (em_base_reward (en_epoch_manager e))) e in
    (set_store (save_chain_meta (en_store e) target target_epoch) e, true)
  | None => (e, false)
  end.

(** A placeholder for a block that is only known by its height. *)
Definition marker_block (height epoch : u64) (root : Hash) (proposer : ValidatorId) : FinalizedBlock :=
  mkFinalizedBlock (mkHeader height epoch zero_hash root zero_hash zero_hash proposer 0 [])
    (mkBlockResult root [] 0) [] [].

Definition sync_stake (vs : ValidatorSet) (sv : StakingValidator) : ValidatorSet :=
  if is_active sv
  then update_first (is_validator (sv_id sv)) (set_vi_stake (total_stake sv)) vs
  else vs.

Definition reset_to_height `{!Codec StakingContract} (height epoch : u64) e : Engine St :=
  let e := set_early_attestations [] (set_pending_attestations ∅ (set_pending_blocks ∅ e)) in
  let e := set_v2_invalid ∅ (set_v2_revotes [] (set_v2_votes ∅ (set_v2_blocks ∅ e))) in
  let e := set_mempool (mempool_clear (en_mempool e)) e in
  let e := set_sync_reverts 0 (set_force_finalizes 0 e) in
  let e := set_dropped_block_height None (set_last_probe_at None e) in
  let e := set_journal (journal_clear (en_journal e)) e in
  let e := set_epoch_manager (mkEpochManager epoch (em_base_reward (en_epoch_manager e))) e in
  let root := st_state_root (en_store e) in
  let e := set_chain [marker_block height epoch root (ec_validator_id cfg)] e in
  let staking := staking_load (en_store e) in
  set_validator_set (fold_left sync_stake (validators staking) (en_validator_set e)) e.

Definition reset_to_store_meta `{!Codec StakingContract} e : Engine St * (u64 * u64) :=
  let '(height, epoch) := load_chain_meta (en_store e) in
  (reset_to_height height epoch e, (height, epoch)).

(** *** Construction *)

Definition trusted_for (chain_id : u64) : TrustedCheckpoints :=
  if chain_id =? 1 then trusted_mainnet
  else if (chain_id =? 9000) || (chain_id =? 9001) then trusted_testnet
  else trusted_devnet.

Definition with_validators (store : St) (mempool : Mempool) (vs : ValidatorSet) : Engine St :=
  let '(restored_height, restored_epoch) := load_chain_meta store in
  let '(store, _) := apply_durable_reverts_above store restored_height in
  let chain := if 0 <? restored_height
               then [marker_block restored_height restored_epoch (st_state_root store) zero_hash]
               else [] in
  mkEngine store mempool chain vs (mkEpochManager restored_epoch (em_base_reward epoch_manager_new))
    ∅ ∅ (intent_pool_new (Z.to_nat 10000)) [] 0 None [] zero_hash finalized_store_new
    (trusted_for (ec_chain_id cfg)) None false 0 false (journal_new ROLLBACK_JOURNAL_CAP) ∅ ∅ [] ∅.

Definition engine_new (store : St) (mempool : Mempool) : Engine St :=
  with_validators store mempool [validator_info_new (ec_validator_id cfg) 1000].

(** *** Headers and proposers *)

Definition header_is_validator_signed e (h : BlockHeader) : bool :=
  if negb (length (bh_proposer_signature h) =? 64)%nat then false
  else if negb (en_is_active e (bh_proposer h)) then false
  else signed_by_proposer h.

Definition is_next_proposer e : bool :=
  match proposer_for_height_with_seed (en_validator_set e) (u64_add (en_height e) 1) (en_epoch_seed e) with
  | Some id => bytes_eqb id (ec_validator_id cfg)
  | None => false
  end.

Definition next_order e : list ValidatorId :=
  proposer_order_for_height (en_validator_set e) (u64_add (en_height e) 1) (en_epoch_seed e).

Definition is_backup_proposer (stalled_for_ms now_secs : Z) e : bool :=
  if stalled_for_ms <? ec_block_time_ms cfg * 3 then false
  else
  let order := next_order e in
  if (length order <=? 1)%nat then false
  else
  let interval_secs := Z.max (Z.max (ec_block_time_ms cfg * 2) 4000 / 1000) 1 in
  let round := now_secs / interval_secs in
  let backup_position := (round + 1) mod Z.of_nat (length order) in
  match order !! Z.to_nat backup_position with
  | Some id => bytes_eqb id (ec_validator_id cfg)
  | None => false
  end.

Definition partition_probe_proposer (now_secs : Z) e : option ValidatorId :=
  let order := next_order e in
  if bool_decide (order = []) then None
  else
  let window := now_secs / Z.max (PARTITION_PROBE_INTERVAL_MS / 1000) 1 in
  order !! Z.to_nat (window mod Z.of_nat (length order)).

Definition is_partition_probe_proposer (now_secs : Z) e : bool :=
  match partition_probe_proposer now_secs e with
  | Some id => bytes_eqb id (ec_validator_id cfg)
  | None => false
  end.

(** *** Checkpoint attestations *)

Context `{!Codec FinalizedCheckpoint}.

Definition attest_checkpoint (validator_id : ValidatorId) (signature : bytes) e : Engine St * bool :=
  let '(cps, finalized) :=
    add_attestation validator_id signature (en_validator_set e) (en_finalized_checkpoints e) in
  let e := set_finalized_checkpoints cps e in
  if finalized then
    match fs_latest cps with
    | Some cp => match ser cp with
                 | Some data => (set_store (st_put (en_store e) CHECKPOINT_KEY data) e, true)
                 | None => (e, true)
                 end
    | None => (e, true)
    end
  else (e, false).

Definition pending_checkpoint e : option (u64 * Hash * Hash) :=
  (fun p => (pc_height p, pc_block_hash p, pc_state_root p)) <$> fs_pending (en_finalized_checkpoints e).

Definition attest_checkpoint_with_data (validator_id : ValidatorId) (signature : bytes) (height : u64)
    (block_hash state_root : Hash) e : Engine St * bool :=
  match fs_pending (en_finalized_checkpoints e) with
  | Some p =>
    if negb (pc_height p =? height) || negb (bytes_eqb (pc_block_hash p) block_hash)
       || negb (bytes_eqb (pc_state_root p) state_root)
    then (e, false)
    else attest_checkpoint validator_id signature e
  | None => (e, false)
  end.
End engine.
