(* ===== verification/EngineVotes.v ===== *)
(** Attestations, fork choice and finalisation in the consensus engine
    ([crates/solen-consensus/src/engine.rs]). *)

From S2P Require Import Prelude Types Store Memory Overlay Staking Treasury Codec State Auth.
From S2P Require Import Executor Blocks Validators Mempool Intents Checkpoint EngineState.
Open Scope Z_scope.

(** ** Changes of the validator set at an epoch boundary *)

(** [(a as i128 - b as i128).unsigned_abs()]. *)
Definition as_i128 (x : Z) : Z := if 2 ^ 127 <=? x then x - 2 ^ 128 else x.
Definition stake_change (new old : u128) : u128 :=
  Z.abs (as_i128 ((as_i128 new - as_i128 old) mod 2 ^ 128)).

(** The set and the stake changed so far. *)
Abbreviation SetChange := (list ValidatorInfo * Z)%type (only parsing).

Definition over_limit (max_stake_change changed stake : u128) : bool :=
  (max_stake_change <? sat_add128 changed stake) && (0 <? max_stake_change).

Definition sync_validator (max_stake_change : u128) (x : SetChange) (sv : StakingValidator) : SetChange :=
  let '(vs, changed) := x in
  if negb (is_active sv) then x
  else
  match vs_get vs (sv_id sv) with
  | Some v =>
    let changed := sat_add128 changed (stake_change (total_stake sv) (vi_stake v)) in
    (update_first (is_validator (sv_id sv))
       (fun v => let v := set_vi_stake (total_stake sv) v in
                 if negb (vi_is_active v) then set_vi_missed 0 (set_vi_status VActive v) else v) vs,
     changed)
  | None =>
    let new_stake := total_stake sv in
    if over_limit max_stake_change changed new_stake then x
    else (vs_add vs (validator_info_new (sv_id sv) new_stake), sat_add128 changed new_stake)
  end.

Definition remove_validator (max_stake_change : u128) (x : SetChange) (r : ValidatorId * u128) : SetChange :=
  let '(vs, changed) := x in
  let '(id, stake) := r in
  if over_limit max_stake_change changed stake then x
  else (vs_remove vs id, sat_add128 changed stake).

Definition sync_validators (staking : list StakingValidator) (vs : ValidatorSet) : ValidatorSet :=
  let active_ids := map sv_id (List.filter is_active staking) in
  let current_total_stake := u128_sum (map vi_stake (List.filter vi_is_active vs)) in
  let max_stake_change := if (4 <=? vs_active_count vs)%nat then current_total_stake / 3 else u128_max in
  let '(vs, changed) := fold_left (sync_validator max_stake_change) staking (vs, 0) in
  let to_remove := map (fun v => (vi_id v, vi_stake v))
    (List.filter (fun v => negb (existsb (bytes_eqb (vi_id v)) active_ids)) vs) in
  fst (fold_left (remove_validator max_stake_change) to_remove (vs, changed)).

Section votes.
Context {St : Type} `{!StateStore St} `{!BlockExec St} {crypto : Crypto} `{!Codec BlockHeader}
        `{!Codec SerializableBlock} `{!Codec FinalizedCheckpoint} `{!Codec StakingContract}
        `{!Codec EpochRandomness}
        (cfg : EngineConfig) (sign : option (bytes -> bytes)).
Implicit Types e : Engine St.

(** ** Slashing *)

Definition process_slashing_evidence (evidence : SlashingEvidence) e : Engine St :=
  let e := set_validator_set
             (update_first (is_validator (ev_offender evidence)) (set_vi_missed 0) (en_validator_set e)) e in
  if existsb (fun x => bytes_eqb (ev_offender x) (ev_offender evidence)) (en_pending_slashing e) then e
  else set_pending_slashing (en_pending_slashing e ++ [evidence]) e.

(** ** Epoch transitions *)

Definition propose_epoch_checkpoint (now_ms : u64) e : Engine St :=
  match last (en_chain e) with
  | Some b => set_finalized_checkpoints
      (propose_checkpoint (bh_height (fb_header b)) (em_current_epoch (en_epoch_manager e))
         (block_hash (fb_header b)) (bh_state_root (fb_header b)) now_ms (en_finalized_checkpoints e)) e
  | None => e
  end.

Definition self_attest_checkpoint e : Engine St :=
  match fs_pending (en_finalized_checkpoints e), sign with
  | Some p, Some sign =>
    fst (attest_checkpoint (ec_validator_id cfg)
           (sign (signing_message (pc_height p) (pc_block_hash p) (pc_state_root p))) e)
  | _, _ => e
  end.

Definition update_epoch_seed e : Engine St :=
  match last (en_chain e) with
  | Some b =>
    let new_seed :=
      if ec_epoch_randomness_height cfg <=? bh_height (fb_header b)
      then er_seed (randomness_load (en_store e))
      else blake3 (bh_state_root (fb_header b)) in
    set_epoch_seed new_seed e
  | None => e
  end.

Definition try_epoch_transition (now_ms : u64) (height : u64) e : Engine St :=
  if is_epoch_boundary height then
    let '(em, vs) := process_epoch_transition (en_epoch_manager e) (en_validator_set e) in
    let vs := sync_validators (validators (staking_load (en_store e))) vs in
    let e := set_validator_set vs (set_epoch_manager em e) in
    update_epoch_seed (self_attest_checkpoint (propose_epoch_checkpoint now_ms e))
  else e.

(** ** Finalisation *)

Definition v2_mark_invalid (height : u64) (bad : Hash) e : Engine St :=
  let marked := default ∅ (en_v2_invalid e !! height) in
  let e := set_v2_invalid (<[height := {[bad]} ∪ marked]> (en_v2_invalid e)) e in
  match en_v2_votes e !! height with
  | Some m => if bool_decide (m !! ec_validator_id cfg = Some bad)
              then set_v2_votes (<[height := delete (ec_validator_id cfg) m]> (en_v2_votes e)) e
              else e
  | None => e
  end.

Definition track_missed (height : u64) (proposer : ValidatorId) e : Engine St :=
  match proposer_for_height_with_seed (en_validator_set e) height (en_epoch_seed e) with
  | None => e
  | Some designated =>
    if negb (bytes_eqb designated proposer) then
      let '(vs, evidence) := record_missed_block (en_validator_set e) designated in
      let e := set_validator_set vs e in
      match evidence with Some ev => process_slashing_evidence ev e | None => e end
    else set_validator_set
           (update_first (is_validator designated) (set_vi_missed 0) (en_validator_set e)) e
  end.

(** A block joins the chain: the common end of production and finalisation. *)
Definition push_block (height : u64) (b : FinalizedBlock) (revert : Changes) e : Engine St :=
  let e := set_chain (en_chain e ++ [b]) e in
  let e := set_journal (journal_record height revert (en_journal e)) e in
  let e := clear_eager_revert height e in
  set_store (persist_block_and_meta (ec_prune cfg) (en_store e) b) e.

Definition fc_v2_active (height : u64) : bool := ec_fork_choice_v2_height cfg <=? height.

(** What a finalised pending block executed to: the stashed result of an own
    block, or the checked execution of a peer's. *)
Definition finalize_execute (height : u64) (pb : PendingBlock) e :
    Engine St * option (BlockResult * Changes) :=
  if pb_already_executed pb then
    (e, Some (default (mkBlockResult (bh_state_root (pb_header pb)) [] 0) (pb_result pb),
              default ∅ (pb_revert pb)))
  else
    let e := restore_store_to_finalized_tip e in
    let '(s, r) := bx_checked (en_store e) (pb_operations pb) height (bh_state_root (pb_header pb)) in
    (set_store s e, r).

Definition finalize_pending_block (now_ms : u64) (height : u64) e : Engine St :=
  let pending_block := en_pending_blocks e !! height in
  let attestations := default [] (en_pending_attestations e !! height) in
  let e := set_pending_blocks (delete height (en_pending_blocks e)) e in
  let e := set_pending_attestations (delete height (en_pending_attestations e)) e in
  match pending_block with
  | None => e
  | Some pb =>
    match finalize_execute height pb e with
    | (e, None) =>
      if fc_v2_active height then v2_mark_invalid height (block_hash (pb_header pb)) e
      else set_needs_resync true e
    | (e, Some (result, revert)) =>
      let b := mkFinalizedBlock (pb_header pb) result attestations (pb_operations pb) in
      let e := push_block height b revert e in
      let e := set_v2_invalid (filter (fun kv => height < fst kv) (en_v2_invalid e)) e in
      let e := set_mempool (remove_finalized (fb_operations b) (en_mempool e)) e in
      let e := track_missed height (bh_proposer (pb_header pb)) e in
      let e := try_epoch_transition now_ms height e in
      if bool_decide (length attestations = 0%nat) then e else set_force_finalizes 0 e
    end
  end.

Definition force_finalize_block := finalize_pending_block.

Definition attester_ids e (height : u64) : list ValidatorId :=
  map at_validator_id (default [] (en_pending_attestations e !! height)).

Definition force_finalize_block_if_quorum (now_ms : u64) (height : u64) e : Engine St * bool :=
  let has_q := (vs_active_count (en_validator_set e) <=? 1)%nat || (height <=? 3)
               || has_quorum (en_validator_set e) (attester_ids e height) in
  (if has_q then finalize_pending_block now_ms height e else e, has_q).

(** ** Fork choice by votes *)

(** [v2_tally]: the votes of a height, grouped by block. *)
Definition add_vote (vote : ValidatorId * Hash) (t : gmap bytes (list ValidatorId)) :
    gmap bytes (list ValidatorId) :=
  <[snd vote := default [] (t !! snd vote) ++ [fst vote]]> t.
Definition tally_votes (votes : list (ValidatorId * Hash)) : gmap bytes (list ValidatorId) :=
  fold_left (fun t vote => add_vote vote t) votes ∅.
Definition v2_tally e (height : u64) : gmap bytes (list ValidatorId) :=
  match en_v2_votes e !! height with
  | Some per => tally_votes (map_to_list per)
  | None => ∅
  end.

Definition position (id : ValidatorId) (order : list ValidatorId) : Z :=
  match list_find (fun x => x = id) order with Some (i, _) => Z.of_nat i | None => u64_max end.

(** Candidates by stake, then by rank of the proposer, then by hash. *)
Definition better (x y : Hash * u128 * Z) : bool :=
  let '(hash, stake, rank) := x in
  let '(bhash, bstake, brank) := y in
  (bstake <? stake) || ((stake =? bstake) && (rank <? brank))
  || ((stake =? bstake) && (rank =? brank) && (bytes_leb hash bhash && negb (bytes_eqb hash bhash))).

Definition invalid_at e (height : u64) (hash : Hash) : bool :=
  match en_v2_invalid e !! height with Some s => bool_decide (hash ∈ s) | None => false end.

(** The candidate a hash with its voters stands for, if it is eligible. *)
Definition v2_candidate e (height : u64) (kv : Hash * list ValidatorId) : option (Hash * u128 * Z) :=
  let '(hash, voters) := kv in
  if invalid_at e height hash then None
  else
  match en_v2_blocks e !! height ≫= (.!! hash) with
  | None => None
  | Some pb =>
    let order := proposer_order_for_height (en_validator_set e) height (en_epoch_seed e) in
    Some (hash, vs_stake_of (en_validator_set e) voters, position (bh_proposer (pb_header pb)) order)
  end.

Definition pick_better (best : option (Hash * u128 * Z)) (c : Hash * u128 * Z) : option (Hash * u128 * Z) :=
  match best with
  | None => Some c
  | Some b => if better c b then Some c else Some b
  end.

(** The leader over an enumeration of the tally. *)
Definition leader_of e (height : u64) (entries : list (Hash * list ValidatorId)) : option Hash :=
  (fun c => fst (fst c)) <$> fold_left pick_better (omap (v2_candidate e height) entries) None.

Definition v2_leader e (height : u64) (tally : gmap bytes (list ValidatorId)) : option Hash :=
  leader_of e height (map_to_list tally).

(** A block with a quorum that is held and not known to be invalid. *)
Definition wins e (height : u64) (kv : Hash * list ValidatorId) : bool :=
  negb (invalid_at e height (fst kv))
  && has_quorum (en_validator_set e) (snd kv)
  && bool_decide (is_Some (en_v2_blocks e !! height ≫= (.!! fst kv))).

Definition winner_of e (height : u64) (entries : list (Hash * list ValidatorId)) : option Hash :=
  fst <$> List.find (wins e height) entries.

Definition votes_for (hash : Hash) (per : gmap bytes Hash) : list ValidatorId :=
  map fst (List.filter (fun kv => bytes_eqb (snd kv) hash) (map_to_list per)).

Definition v2_finalize (now_ms : u64) (height : u64) (hash : Hash) e : Engine St :=
  match en_v2_blocks e !! height with
  | None => e
  | Some m =>
    match m !! hash with
    | None => e
    | Some pb =>
      let e := set_v2_blocks (<[height := delete hash m]> (en_v2_blocks e)) e in
      let atts := map (fun id => mkAttestation id height hash)
                    (votes_for hash (default ∅ (en_v2_votes e !! height))) in
      let e := set_pending_blocks (<[height := pb]> (en_pending_blocks e)) e in
      let e := set_pending_attestations (<[height := atts]> (en_pending_attestations e)) e in
      let e := finalize_pending_block now_ms height e in
      let e := set_v2_blocks (filter (fun kv => height < fst kv) (en_v2_blocks e)) e in
      set_v2_votes (filter (fun kv => height < fst kv) (en_v2_votes e)) e
    end
  end.

Definition cast_vote (id : ValidatorId) (height : u64) (hash : Hash) e : Engine St :=
  set_v2_votes (<[height := <[id := hash]> (default ∅ (en_v2_votes e !! height))]> (en_v2_votes e)) e.

(** The own vote follows the leader. *)
Definition v2_follow (now_ms : u64) (height : u64) (leader : Hash) e : Engine St :=
  let our_id := ec_validator_id cfg in
  if negb (en_is_active e our_id) then e
  else if bool_decide (en_v2_votes e !! height ≫= (.!! our_id) = Some leader) then e
  else
  let e := cast_vote our_id height leader e in
  let e := set_v2_revotes (en_v2_revotes e ++ [(height, leader)]) e in
  let voters := default [] (v2_tally e height !! leader) in
  if has_quorum (en_validator_set e) voters then v2_finalize now_ms height leader e else e.

Definition v2_reevaluate (now_ms : u64) (height : u64) e : Engine St :=
  if negb (height =? u64_add (en_height e) 1) then e
  else
  let tally := v2_tally e height in
  if bool_decide (tally = ∅) then e
  else
  match winner_of e height (map_to_list tally) with
  | Some h => v2_finalize now_ms height h e
  | None =>
    match v2_leader e height tally with
    | None => e
    | Some leader => v2_follow now_ms height leader e
    end
  end.

(** The block joins the candidates of its height unless it is one already. *)
Definition v2_insert_block (inst : Z) (header : BlockHeader) (ops : list UserOperation) e : Engine St :=
  let height := bh_height header in
  let bh := block_hash header in
  let m := default ∅ (en_v2_blocks e !! height) in
  let m := match m !! bh with
           | Some _ => m
           | None => <[bh := mkPendingBlock header ops inst false None None 0]> m
           end in
  set_v2_blocks (<[height := m]> (en_v2_blocks e)) e.

Definition v2_record_block (now_ms inst : Z) (header : BlockHeader) (ops : list UserOperation) e : Engine St :=
  v2_reevaluate now_ms (bh_height header) (v2_insert_block inst header ops e).

Definition v2_record_vote (now_ms : u64) (id : ValidatorId) (height : u64) (hash : Hash) e : Engine St :=
  v2_reevaluate now_ms height (cast_vote id height hash e).

Definition take_v2_revotes e : Engine St * list (u64 * Hash) := (set_v2_revotes [] e, en_v2_revotes e).

(** ** Attestations *)

Definition MAX_V2_VOTE_LOOKAHEAD : u64 := 64.
Definition MAX_EARLY_ATTESTATIONS : usize := Z.to_nat 200.
Definition EARLY_ATT_TTL_SECS : Z := 10.

Definition attestation_signing_payload (chain_id height : u64) (hash : Hash) : bytes :=
  bytes_of_string "SOLEN_ATT" ++ le_bytes 8 chain_id ++ le_bytes 8 height ++ hash.

Definition buffer_early (inst : Z) (id : ValidatorId) (height : u64) (hash : Hash)
    (buf : list (ValidatorId * u64 * Hash * Z)) : list (ValidatorId * u64 * Hash * Z) :=
  let buf := List.filter (fun x => (inst - snd x) / 1000 <? EARLY_ATT_TTL_SECS) buf in
  if (length buf <? MAX_EARLY_ATTESTATIONS)%nat
     && negb (existsb (fun x => bytes_eqb (fst (fst (fst x))) id && (snd (fst (fst x)) =? height)) buf)
  then buf ++ [(id, height, hash, inst)] else buf.

Definition accept_attestation (now_ms inst : Z) (id : ValidatorId) (height : u64) (hash : Hash) e :
    Engine St * bool :=
  if negb (en_is_active e id) then (e, false)
  else if fc_v2_active height then
    let before := en_height e in
    if (height <=? before) || (u64_add before MAX_V2_VOTE_LOOKAHEAD <? height) then (e, false)
    else
    let e := v2_record_vote now_ms id height hash e in
    (e, before <? en_height e)
  else
  match en_pending_blocks e !! height with
  | None => (set_early_attestations (buffer_early inst id height hash (en_early_attestations e)) e, false)
  | Some pb =>
    if negb (bytes_eqb (block_hash (pb_header pb)) hash) then
      let pb := mkPendingBlock (pb_header pb) (pb_operations pb) (pb_proposed_at pb)
                  (pb_already_executed pb) (pb_result pb) (pb_revert pb) (pb_mismatch_count pb + 1) in
      (set_pending_blocks (<[height := pb]> (en_pending_blocks e)) e, false)
    else
    let entry := default [] (en_pending_attestations e !! height) in
    if existsb (fun a => bytes_eqb (at_validator_id a) id) entry
    then (set_pending_attestations (<[height := entry]> (en_pending_attestations e)) e, false)
    else
    let e := set_pending_attestations
               (<[height := entry ++ [mkAttestation id height hash]]> (en_pending_attestations e)) e in
    let has_q := has_quorum (en_validator_set e) (attester_ids e height) in
    (if has_q then finalize_pending_block now_ms height e else e, has_q)
  end.

Definition accept_verified_attestation (now_ms inst : Z) (id : ValidatorId) (height : u64) (hash : Hash)
    (signature : bytes) e : Engine St * bool :=
  let payload := attestation_signing_payload (ec_chain_id cfg) height hash in
  if negb (ed25519_verify id payload signature) then (e, false)
  else accept_attestation now_ms inst id height hash e.
End votes.
