(* ===== verification/EngineBlocks.v ===== *)
(** Blocks in the consensus engine ([crates/solen-consensus/src/engine.rs]):
    accepting a proposal, producing one, replaying synced blocks, and what
    happens to blocks that wait too long. *)

From S2P Require Import Prelude Types Store Memory Overlay Staking Treasury Codec State Auth.
From S2P Require Import Executor Blocks Validators Mempool Intents Checkpoint EngineState EngineVotes.
Open Scope Z_scope.

Definition MAX_TIMESTAMP_DRIFT_MS : u64 := 30000.
Definition MAX_CONSECUTIVE_FORCE_FINALIZES : Z := 3.

Section blocks.
Context {St : Type} `{!StateStore St} `{!BlockExec St} {crypto : Crypto} `{!Codec BlockHeader}
        `{!Codec SerializableBlock} `{!Codec FinalizedCheckpoint} `{!Codec StakingContract}
        `{!Codec EpochRandomness} `{!Codec Account}
        `{!Codec (list UserOperation)} `{!Codec (list ExecutionReceipt)}
        (cfg : EngineConfig) (sign : option (bytes -> bytes)).
Implicit Types e : Engine St.

(** ** Accepting a proposal *)

(** A block at the next height that does not extend the tip. *)
Definition is_fork e (h : BlockHeader) : bool :=
  if bh_height h =? u64_add (en_height e) 1 then
    match last (en_chain e) with
    | Some b => negb (bytes_eqb (bh_parent_hash h) (block_hash (fb_header b)))
    | None => false
    end
  else false.

(** The checks up to the proposer's signature; [false] rejects. *)
Definition header_acceptable (now_ms : u64) (h : BlockHeader) e : bool :=
  let expected_height := u64_add (en_height e) 1 in
  let order := proposer_order_for_height (en_validator_set e) (bh_height h) (en_epoch_seed e) in
  if en_resyncing e then false
  else if bh_height h <? expected_height then false
  else if is_fork e h then false
  else if invalid_at e (bh_height h) (block_hash h) then false
  else if bool_decide (is_Some (trusted_validate (bh_height h) (block_hash h) (en_trusted_checkpoints e)))
  then false
  else if bool_decide (is_Some (validate_block (bh_height h) (block_hash h) (en_finalized_checkpoints e)))
  then false
  else if expected_height <? bh_height h then false
  else if match last (en_chain e) with
          | Some b => bh_timestamp_ms h <=? bh_timestamp_ms (fb_header b)
          | None => false
          end then false
  else if u64_add now_ms MAX_TIMESTAMP_DRIFT_MS <? bh_timestamp_ms h then false
  else if negb (bh_epoch h =? bh_height h / CONSENSUS_EPOCH_LENGTH) then false
  else if negb (en_is_active e (bh_proposer h)) then false
  else if negb (existsb (bytes_eqb (bh_proposer h)) order) then false
  else if 0 <? bh_height h then
    (length (bh_proposer_signature h) =? 64)%nat && signed_by_proposer h
  else true.

(** A pending block of the height already there: the engine afterwards, and
    whether the new block takes its place. *)
Definition resolve_pending (h : BlockHeader) (existing : PendingBlock) e : Engine St * bool :=
  if bytes_eqb (block_hash (pb_header existing)) (block_hash h) then (e, false)
  else if bytes_eqb (bh_proposer (pb_header existing)) (bh_proposer h) then
    (match check_double_sign (pb_header existing) h with
     | Some ev => process_slashing_evidence ev e
     | None => e
     end, false)
  else
  let order := proposer_order_for_height (en_validator_set e) (bh_height h) (en_epoch_seed e) in
  let existing_rank := position (bh_proposer (pb_header existing)) order in
  let new_rank := position (bh_proposer h) order in
  if new_rank <? existing_rank then
    if pb_already_executed existing then (e, false)
    else (set_pending_attestations (delete (bh_height h) (en_pending_attestations e))
            (set_pending_blocks (delete (bh_height h) (en_pending_blocks e)) e), true)
  else (e, false).

(** The block becomes pending, with the attestations that arrived before it. *)
Definition insert_pending (now_ms inst : Z) (h : BlockHeader) (ops : list UserOperation) e : Engine St :=
  let e := set_pending_blocks
             (<[bh_height h := mkPendingBlock h ops inst false None None 0]> (en_pending_blocks e)) e in
  let buf := en_early_attestations e in
  let matching := List.filter
    (fun x => (snd (fst (fst x)) =? bh_height h) && bytes_eqb (snd (fst x)) (block_hash h)) buf in
  let e := set_early_attestations
             (List.filter (fun x => negb (snd (fst (fst x)) =? bh_height h)) buf) e in
  fold_left (fun e x => fst (accept_attestation cfg sign now_ms inst (fst (fst (fst x)))
                               (snd (fst (fst x))) (snd (fst x)) e)) matching e.

Definition accept_block (now_ms inst : Z) (h : BlockHeader) (ops : list UserOperation) e :
    Engine St * bool :=
  if negb (header_acceptable now_ms h e) then (e, false)
  else
  match List.find (fun b => bh_height (fb_header b) =? bh_height h) (en_chain e) with
  | Some b =>
    if bytes_eqb (bh_proposer (fb_header b)) (bh_proposer h)
       && negb (bytes_eqb (block_hash (fb_header b)) (block_hash h))
    then (match check_double_sign (fb_header b) h with
          | Some ev => process_slashing_evidence ev e
          | None => e
          end, false)
    else (e, false)
  | None =>
    if fc_v2_active cfg (bh_height h) then (v2_record_block cfg sign now_ms inst h ops e, true)
    else
    match en_pending_blocks e !! bh_height h with
    | Some existing =>
      let '(e, replace) := resolve_pending h existing e in
      if replace then (insert_pending now_ms inst h ops e, true) else (e, false)
    | None => (insert_pending now_ms inst h ops e, true)
    end
  end.

(** ** Producing a block *)

Definition nonce_not_stale (s : St) (op : UserOperation) : bool :=
  match st_get s (account_key (op_sender op)) with
  | Some data => match de data with Some a => nonce a <=? op_nonce op | None => true end
  | None => true
  end.

Definition slash_operation (evidence : SlashingEvidence) : UserOperation :=
  mkUserOperation (ec_validator_id cfg) 0
    [Call STAKING_ADDRESS "slash" (ev_offender evidence ++ le_bytes 8 (penalty_bps (ev_reason evidence)))]
    0 [255].

(** The operations of the block: from the pool those that are not stale, the
    queued slashing evidence, and the solved intents. *)
Definition gather_operations e : Engine St * list UserOperation :=
  let '(mempool, ops) := mempool_drain (ec_max_ops_per_block cfg) (en_mempool e) in
  let e := set_mempool mempool e in
  let ops := List.filter (nonce_not_stale (en_store e)) ops in
  let ops := ops ++ map slash_operation (en_pending_slashing e) in
  let e := set_pending_slashing [] e in
  let '(pool, ops) := intent_operations (ec_validator_id cfg) (en_height e) (en_intent_pool e) ops in
  (set_intent_pool pool e, ops).

Definition sign_header (h : BlockHeader) : BlockHeader :=
  match sign with
  | Some sign => mkHeader (bh_height h) (bh_epoch h) (bh_parent_hash h) (bh_state_root h)
      (bh_transactions_root h) (bh_receipts_root h) (bh_proposer h) (bh_timestamp_ms h)
      (sign (block_hash h))
  | None => h
  end.

(** The header over the tip: height, parent, and a time one interval after the
    parent's. *)
Definition build_header (ops : list UserOperation) (result : BlockResult) e : BlockHeader :=
  let '(parent_hash, height, parent_ts) :=
    match last (en_chain e) with
    | Some b => (block_hash (fb_header b), u64_add (bh_height (fb_header b)) 1, bh_timestamp_ms (fb_header b))
    | None => (zero_hash, 1, 0)
    end in
  sign_header (mkHeader height (epoch_for_height height) parent_hash (br_state_root result)
    (compute_tx_root ops) (compute_receipts_root result) (ec_validator_id cfg)
    (sat_add64 parent_ts (ec_block_time_ms cfg)) []).

Definition next_block_height e : u64 :=
  match last (en_chain e) with Some b => u64_add (bh_height (fb_header b)) 1 | None => 1 end.

(** The only validator finalises its block at once. *)
Definition finalize_single (now_ms : u64) (h : BlockHeader) (ops : list UserOperation)
    (result : BlockResult) (revert : Changes) e : Engine St :=
  let b := mkFinalizedBlock h result [mkAttestation (ec_validator_id cfg) (bh_height h) (block_hash h)] ops in
  let e := push_block cfg (bh_height h) b revert e in
  let e := set_mempool (remove_finalized ops (en_mempool e)) e in
  try_epoch_transition cfg sign now_ms (bh_height h) e.

(** Otherwise it proposes: with fork choice by votes, or with one pending block. *)
Definition propose_v2 (now_ms inst : Z) (h : BlockHeader) (pb : PendingBlock) e : Engine St :=
  let height := bh_height h in
  let m := default ∅ (en_v2_blocks e !! height) in
  let e := set_v2_blocks (<[height := <[block_hash h := pb]> m]> (en_v2_blocks e)) e in
  let e := set_store (persist_last_attestation (en_store e) height (block_hash h)) e in
  let e := cast_vote (ec_validator_id cfg) height (block_hash h) e in
  let e := set_v2_revotes (en_v2_revotes e ++ [(height, block_hash h)]) e in
  v2_reevaluate cfg sign now_ms height e.

Definition propose_v1 (now_ms inst : Z) (h : BlockHeader) (pb : PendingBlock) e : Engine St :=
  let height := bh_height h in
  let e := set_pending_blocks (<[height := pb]> (en_pending_blocks e)) e in
  let e := set_store (persist_last_attestation (en_store e) height (block_hash h)) e in
  fst (accept_attestation cfg sign now_ms inst (ec_validator_id cfg) height (block_hash h) e).

(** The engine afterwards, the header and the operations. *)
Definition produce_block (now_ms inst : Z) e : Engine St * BlockHeader * list UserOperation :=
  let e := restore_store_to_finalized_tip e in
  let '(e, ops) := gather_operations e in
  let height := next_block_height e in
  let '(s, (result, revert)) := bx_produce (en_store e) ops height in
  let e := set_store s e in
  let h := build_header ops result e in
  let pb := mkPendingBlock h ops inst true (Some result) (Some revert) 0 in
  let e :=
    if (vs_active_count (en_validator_set e) <=? 1)%nat then finalize_single now_ms h ops result revert e
    else if fc_v2_active cfg height then propose_v2 now_ms inst h pb e
    else propose_v1 now_ms inst h pb e in
  (e, h, ops).

(** ** Synchronisation *)

Definition replay_synced_block (now_ms : u64) (h : BlockHeader) (ops : list UserOperation)
    (synced_receipts : list ExecutionReceipt) e : Engine St * bool :=
  let height := bh_height h in
  if match last (en_chain e) with
     | Some b => (height <=? bh_height (fb_header b)) || negb (height =? u64_add (bh_height (fb_header b)) 1)
     | None => false
     end then (e, false)
  else if negb (bh_epoch h =? height / CONSENSUS_EPOCH_LENGTH) then (e, false)
  else if ec_authenticate_sync_blocks cfg && negb (header_is_validator_signed e h) then (e, false)
  else
  let e := restore_store_to_finalized_tip e in
  let '(s, r) := bx_checked (en_store e) ops height (bh_state_root h) in
  let e := set_store s e in
  match r with
  | None =>
    let n := en_sync_reverts e + 1 in
    if (SYNC_REVERT_RESYNC_THRESHOLD <=? n) && negb (en_resyncing e)
    then (set_sync_reverts 0 (set_needs_resync true e), false)
    else (set_sync_reverts n e, false)
  | Some (exec_result, revert) =>
    let e := set_sync_reverts 0 e in
    let receipts := if bool_decide (length synced_receipts = 0%nat)
                    then br_receipts exec_result else synced_receipts in
    let result := mkBlockResult (br_state_root exec_result) receipts (br_gas_used exec_result) in
    let b := mkFinalizedBlock h result [] ops in
    let e := push_block cfg height b revert e in
    (try_epoch_transition cfg sign now_ms height e, true)
  end.

Definition clear_stale_pending (current_height : u64) e : Engine St :=
  let e := set_pending_blocks (filter (fun kv => current_height < fst kv) (en_pending_blocks e)) e in
  let e := set_pending_attestations
             (filter (fun kv => current_height < fst kv) (en_pending_attestations e)) e in
  let e := set_v2_blocks (filter (fun kv => current_height < fst kv) (en_v2_blocks e)) e in
  let e := set_v2_votes (filter (fun kv => current_height < fst kv) (en_v2_votes e)) e in
  set_v2_invalid (filter (fun kv => current_height < fst kv) (en_v2_invalid e)) e.

Definition has_pending_block e (height : u64) : bool :=
  bool_decide (is_Some (en_pending_blocks e !! height)).

(** ** Timeouts *)

Definition drop_pending (height : u64) e : Engine St :=
  set_pending_blocks (delete height (en_pending_blocks e)) e.

(** One block whose time is over: the engine afterwards, and whether the block
    was finalised. *)
Definition timed_out_block (now_ms : u64) (height : u64) e : Engine St * bool :=
  if negb (height =? u64_add (en_height e) 1) then (e, false)
  else if match en_pending_blocks e !! height with
          | Some pb => bytes_eqb (bh_proposer (pb_header pb)) (ec_validator_id cfg)
                       && (0 <? pb_mismatch_count pb)
          | None => false
          end
  then (set_dropped_block_height (Some height) (drop_pending height e), false)
  else if (1 <? vs_active_count (en_validator_set e))%nat
          && negb (has_quorum (en_validator_set e) (attester_ids e height)) && (3 <? height)
  then
    let force_count := en_force_finalizes e + 1 in
    let e := set_force_finalizes force_count e in
    (if 2 <? force_count then drop_pending height e else e, false)
  else
  let force_count := en_force_finalizes e + 1 in
  let e := set_force_finalizes force_count e in
  if MAX_CONSECUTIVE_FORCE_FINALIZES <? force_count then (drop_pending height e, false)
  else (finalize_pending_block cfg sign now_ms height e, true).

Fixpoint timed_out_loop (now_ms : u64) (stale : list u64) (count : usize) e : Engine St * usize :=
  match stale with
  | [] => (e, count)
  | height :: stale =>
    let '(e, finalized) := timed_out_block now_ms height e in
    timed_out_loop now_ms stale (if finalized then S count else count) e
  end.

Definition finalize_timed_out_blocks (now_ms inst timeout_ms : Z) e : Engine St * usize :=
  let e := set_pending_blocks (filter (fun kv => en_height e < fst kv) (en_pending_blocks e)) e in
  let stale := map fst (List.filter (fun kv => timeout_ms <? inst - pb_proposed_at (snd kv))
                          (map_to_list (en_pending_blocks e))) in
  let '(e, count) := timed_out_loop now_ms stale 0%nat e in
  (set_pending_attestations (filter (fun kv => en_height e < fst kv) (en_pending_attestations e)) e, count).

(** One tick of the production loop ([run]). *)
Definition run_tick (is_single_validator : bool) (now_ms inst : Z) e : Engine St :=
  if is_single_validator || is_next_proposer cfg e then fst (fst (produce_block now_ms inst e)) else e.
End blocks.
