(* ===== verification/EngineRecovery.v ===== *)
(** Recovery in the consensus engine: the rollback journal refines a history of
    states, and what an eager commit left behind is repaired at start-up. *)

From S2P Require Import Prelude Types Store Memory Overlay Staking Treasury Codec State SysCommon.
From S2P Require Import SystemCalls Fees Auth Session Rewards Executor Blocks.
From S2P Require Import Validators Mempool Intents Checkpoint EngineState EngineVotes EngineBlocks.
Open Scope Z_scope.

(** ** The executor implements the interface *)

Section node_executor.
Context {St : Type} `{!StateStore St} `{!StateStoreLaws St} `{!Codec Account} `{!Codec (list Action)}
        `{!SystemCodecs} `{!Codec EpochRandomness} `{!Codec (list (bytes * option bytes))}
        `{!CodecLaws (list (bytes * option bytes))}
        {crypto : Crypto} {vm : Vm} (debug_str : string -> string) (xcfg : ExecConfig).

#[local] Instance node_executor : BlockExec St := {|
  bx_produce s ops h := execute_block_journaled_durable debug_str xcfg s ops h;
  bx_checked s ops h root := execute_block_checked debug_str xcfg s ops h root;
  bx_decode := decode_eager_revert;
|}.

#[local] Instance node_executor_laws : BlockExecLaws St.
Proof.
  split; cbn.
  - intros s ops h root s' E. pose proof (checked_block_spec debug_str xcfg s ops h root) as Hx.
    rewrite E in Hx. destruct (stage_block _ _ _ _ _). apply Hx.
  - intros s ops h root s' r revert E.
    pose proof (checked_block_spec debug_str xcfg s ops h root) as Hx. rewrite E in Hx.
    destruct (stage_block _ _ _ _ _). destruct Hx as (_ & -> & _ & Hx). done.
  - intros s ops h. pose proof (durable_revert_spec debug_str xcfg s ops h) as Hx.
    destruct (execute_block_journaled_durable debug_str xcfg s ops h) as [s' [r revert]].
    destruct Hx as (H1 & H2 & H3). split; [done|]. split; [done|]. intros k Hk. by apply H3.
Qed.
End node_executor.

(** ** States

    Two stores with the same state: they agree on the keys under the state
    root, whatever bookkeeping they hold. *)
Definition state_eq {S1 S2} `{!StateStore S1} `{!StateStore S2} (s1 : S1) (s2 : S2) : Prop :=
  forall k, is_non_state_key k = false -> st_get s1 k = st_get s2 k.

#[export] Instance state_eq_equiv {S} `{!StateStore S} : Equivalence (@state_eq S S _ _).
Proof.
  split; [by intros s k|by intros s1 s2 H k Hk; rewrite H|].
  intros s1 s2 s3 H1 H2 k Hk. by rewrite H1, H2.
Qed.

Lemma store_state_eq {S} `{!StateStore S} (s1 s2 : S) : store_eq s1 s2 -> state_eq s1 s2.
Proof. intros H k _. apply H. Qed.

Lemma prefix_non_state p k :
  p ∈ [bytes_of_string "block/"; bytes_of_string "__chain_meta__"; bytes_of_string "__eager_revert__/"] ->
  starts_with p k = true -> is_non_state_key k = true.
Proof.
  intros Hp Hk. unfold is_non_state_key.
  repeat (apply elem_of_cons in Hp as [->|Hp]; [rewrite Hk; by rewrite ?orb_true_r|]).
  by apply not_elem_of_nil in Hp.
Qed.

Lemma block_key_non_state h : is_non_state_key (block_key h) = true.
Proof.
  apply (prefix_non_state (bytes_of_string "block/")); [set_solver|].
  unfold block_key. rewrite bytes_of_string_app. apply starts_with_app.
Qed.

Lemma eager_key_non_state h : is_non_state_key (eager_revert_key h) = true.
Proof.
  apply (prefix_non_state (bytes_of_string "__eager_revert__/")); [set_solver|]. apply starts_with_app.
Qed.

Section states.
Context {St : Type} `{!StateStore St} `{!StateStoreLaws St}.
Implicit Types s : St.

Lemma put_state s k v : is_non_state_key k = true -> state_eq (st_put s k v) s.
Proof. intros Hk k' Hk'. apply get_put_ne. intros ->. congruence. Qed.

Lemma delete_state s k : is_non_state_key k = true -> state_eq (st_delete s k) s.
Proof. intros Hk k' Hk'. apply get_delete_ne. intros ->. congruence. Qed.

Lemma commit_state s : state_eq (st_commit_root s) s.
Proof. intros k _. apply get_commit_root. Qed.

Lemma apply_batch_state changes s1 s2 :
  state_eq s1 s2 -> state_eq (apply_batch changes s1) (apply_batch changes s2).
Proof. intros H k Hk. rewrite !get_apply_batch. by rewrite H. Qed.

Lemma meta_state s h ep : state_eq (save_chain_meta s h ep) s.
Proof. apply put_state. reflexivity. Qed.

Lemma prune_state prune s h : state_eq (prune_old_blocks prune s h) s.
Proof.
  unfold prune_old_blocks. destruct (negb prune); [done|]. destruct (h <=? _); [done|]. cbv zeta.
  generalize (seq 0 (Z.to_nat (h - BLOCK_RETENTION - sat_sub (h - BLOCK_RETENTION) 10))) as l.
  intros l. revert s. induction l as [|i l IH]; intros s; [done|]. cbn [fold_left].
  etrans; [apply IH|]. destruct (_ =? 0); [done|]. apply delete_state, block_key_non_state.
Qed.

Lemma persist_state `{!Codec SerializableBlock} prune s b : state_eq (persist_block_and_meta prune s b) s.
Proof.
  unfold persist_block_and_meta. etrans; [apply prune_state|].
  destruct (ser (to_serializable b)); [|done].
  etrans; [apply meta_state|]. apply put_state, block_key_non_state.
Qed.
End states.

(** ** The journal refines the history of states *)

Section journal.
Context {St : Type} `{!StateStore St} `{!StateStoreLaws St}.
Implicit Types (s : St) (hist : Z -> St).

(** The delta takes any store with the state [s] to the state [s0]. *)
Definition undoes (r : Changes) s s0 : Prop := forall s', state_eq s' s -> state_eq (apply_batch r s') s0.

(** The journal, newest entry first, undoes the blocks from [tip] down, one
    height after the other. *)
Fixpoint undo_chain hist (tip : Z) (l : list (u64 * Changes)) : Prop :=
  match l with
  | [] => True
  | (h, r) :: l => h = tip /\ undoes r (hist tip) (hist (tip - 1)) /\ undo_chain hist (tip - 1) l
  end.

Lemma undo_chain_take hist tip l n : undo_chain hist tip l -> undo_chain hist tip (take n l).
Proof.
  revert tip n. induction l as [|[h r] l IH]; intros tip [|n]; cbn; [done..|].
  intros (? & ? & ?). split; [done|]. split; [done|]. by apply IH.
Qed.

Lemma undo_chain_ext hist hist' tip l :
  (forall h, h <= tip -> hist h = hist' h) -> undo_chain hist tip l -> undo_chain hist' tip l.
Proof.
  revert tip. induction l as [|[h r] l IH]; intros tip He; cbn; [done|].
  intros (-> & Hr & Hl). rewrite <- !He by lia. split; [done|]. split; [done|].
  apply IH; [|done]. intros h Hh. apply He. lia.
Qed.

(** The height of the oldest entry. *)
Lemma undo_chain_last hist tip l h r :
  undo_chain hist tip l -> last l = Some (h, r) -> h = tip + 1 - Z.of_nat (length l).
Proof.
  revert tip. induction l as [|[h' r'] l IH]; intros tip; [done|]. cbn [undo_chain length].
  intros (-> & _ & Hl) Hlast. rewrite last_cons in Hlast. destruct (last l) as [[h1 r1]|] eqn:E.
  - injection Hlast as -> ->. rewrite (IH _ Hl eq_refl). lia.
  - injection Hlast as -> ->. apply last_None in E as ->. cbn. lia.
Qed.

(** Undoing down to a covered target gives the state of the target. *)
Lemma undo_to_target hist tip l target s :
  undo_chain hist tip l -> target <= tip -> tip - target <= Z.of_nat (length l) ->
  state_eq s (hist tip) ->
  state_eq (apply_reverts (take_above target l) s) (hist target)
  /\ undo_chain hist target (drop_while (fun x => target <? fst x) l).
Proof.
  revert tip s. induction l as [|[h r] l IH]; intros tip s Hc Ht Hn Hs; cbn [take_above drop_while fst] in *.
  - assert (tip = target) as -> by (cbn in Hn; lia). done.
  - destruct Hc as (-> & Hr & Hc). cbn [length] in Hn. destruct (Z.leb_spec tip target) as [Hle|Hgt].
    + assert (tip = target) as -> by lia. rewrite Z.ltb_irrefl. cbn. done.
    + rewrite (proj2 (Z.ltb_lt _ _)) by lia. cbn [apply_reverts fold_left snd].
      apply (IH (tip - 1)); [done|lia|lia|]. by apply Hr.
Qed.

(** The engine's store and journal against a history of states. *)
Record tracks hist (tip : Z) (e : Engine St) : Prop := {
  tr_state : state_eq (en_store e) (hist tip);
  tr_undo : undo_chain hist tip (rev (rj_entries (en_journal e)));
}.

(** Recording the next block extends the history. *)
Lemma journal_record_chain hist tip j r s :
  0 <= tip < u64_max -> undo_chain hist tip (rev (rj_entries j)) -> undoes r s (hist tip) ->
  let hist' h := if h =? tip + 1 then s else hist h in
  undo_chain hist' (tip + 1) (rev (rj_entries (journal_record (tip + 1) r j))).
Proof.
  intros Ht Hc Hr hist'.
  assert (He : forall h, h <= tip -> hist h = hist' h).
  { intros h Hh. unfold hist'. by rewrite (proj2 (Z.eqb_neq _ _)) by lia. }
  assert (Hkeep : match last (rj_entries j) with
                  | Some (last_h, _) => if negb (tip + 1 =? u64_add last_h 1) then [] else rj_entries j
                  | None => rj_entries j
                  end = rj_entries j).
  { destruct (last (rj_entries j)) as [[h r']|] eqn:E; [|done].
    apply last_Some in E as [l' El]. rewrite El, rev_app_distr in Hc. cbn in Hc. destruct Hc as [-> _].
    rewrite u64_add_exact by lia. by rewrite Z.eqb_refl. }
  unfold journal_record. rewrite Hkeep. cbn [rj_entries].
  set (l := rj_entries j ++ [(tip + 1, r)]).
  assert (Hfull : undo_chain hist' (tip + 1) (rev l)).
  { unfold l. rewrite rev_app_distr. cbn. split; [done|].
    replace (tip + 1 - 1) with tip by lia. split.
    - unfold hist'. rewrite Z.eqb_refl. rewrite (proj2 (Z.eqb_neq _ _)) by lia. done.
    - by eapply undo_chain_ext. }
  assert (Hskip : forall n, rev (drop n l) = take (length l - n) (rev l)).
  { intros n. rewrite <- (take_drop n l) at 3. rewrite rev_app_distr.
    rewrite take_app_length'; [done|]. by rewrite length_rev, length_drop. }
  rewrite Hskip. by apply undo_chain_take.
Qed.
End journal.

Section rollback.
Context {St : Type} `{!StateStore St} `{!StateStoreLaws St} `{!BlockExec St} `{!BlockExecLaws St}
        {crypto : Crypto} `{!Codec BlockHeader} `{!Codec SerializableBlock} (cfg : EngineConfig).
Implicit Types (s : St) (hist : Z -> St) (e : Engine St).

(** The reverse delta of a checked block undoes it from any store with its state. *)
Lemma checked_undoes s ops h root s' r revert :
  bx_checked s ops h root = (s', Some (r, revert)) -> undoes revert s' s.
Proof.
  intros E s1 Hs1. apply checked_some in E as [_ E].
  etrans; [by apply apply_batch_state|]. by apply store_state_eq.
Qed.

Lemma push_block_store height b revert e :
  state_eq (en_store (push_block cfg height b revert e)) (en_store e).
Proof.
  unfold push_block, clear_eager_revert. cbn. etrans; [apply persist_state|].
  apply delete_state, eager_key_non_state.
Qed.

Lemma block_extends_history hist e tip ops root s' r revert b :
  tracks hist tip e -> 0 <= tip < u64_max ->
  bx_checked (en_store e) ops (tip + 1) root = (s', Some (r, revert)) ->
  tracks (fun h => if h =? tip + 1 then s' else hist h) (tip + 1)
    (push_block cfg (tip + 1) b revert (set_store s' e)).
Proof.
  intros [Hs Hu] Ht E. split.
  - etrans; [apply push_block_store|]. cbn. by rewrite Z.eqb_refl.
  - cbn. apply journal_record_chain; [done|done|]. intros s1 Hs1.
    etrans; [by apply (checked_undoes _ _ _ _ _ _ _ E)|done].
Qed.

(** The heights the journal reaches back to. *)
Lemma min_target_spec hist tip e :
  undo_chain hist tip (rev (rj_entries (en_journal e))) ->
  min_rollback_target e
  = if bool_decide (rj_entries (en_journal e) = []) then None
    else Some (Z.max 0 (tip - Z.of_nat (length (rj_entries (en_journal e))))).
Proof.
  intros Hu. unfold min_rollback_target, journal_min_rollback_target.
  destruct (rj_entries (en_journal e)) as [|[h r] l] eqn:E; [done|]. cbn [head fmap option_fmap option_map fst].
  rewrite bool_decide_eq_false_2 by done. cbn. f_equal. unfold sat_sub.
  pose proof (undo_chain_last hist tip _ h r Hu) as Hl. rewrite length_rev in Hl.
  rewrite Hl; [cbn [length]; f_equal; lia|]. cbn [rev]. apply last_snoc.
Qed.

Lemma chain_meta_roundtrip s h ep : in_u64 h -> in_u64 ep -> load_chain_meta (save_chain_meta s h ep) = (h, ep).
Proof.
  intros Hh He. unfold load_chain_meta, save_chain_meta. rewrite get_put_eq.
  rewrite length_app, !length_le_bytes. cbn [Nat.add Nat.leb].
  rewrite take_app_length' by (by rewrite length_le_bytes). unfold slice.
  rewrite drop_app_length' by (by rewrite length_le_bytes).
  rewrite take_ge by (by rewrite length_le_bytes). by rewrite !from_le_u64.
Qed.

(** C6: the journal refines a history of states. A block applied on top of the
    tip extends the history by the state it leads to, with an entry that undoes
    it; and a rollback that reports success is the abstract step back to the
    target: the store holds the state of that height, the chain and the
    recorded height end there, and the journal is the one of the shorter
    history. *)
Theorem rollback_refines_history hist e :
  let tip := en_height e in
  tracks hist tip e -> 0 <= tip < u64_max ->
  (forall ops root s' r revert b,
     bx_checked (en_store e) ops (tip + 1) root = (s', Some (r, revert)) ->
     tracks (fun h => if h =? tip + 1 then s' else hist h) (tip + 1)
       (push_block cfg (tip + 1) b revert (set_store s' e)))
  /\ (forall target root e', rollback_to_height target root e = (e', true) ->
      target < tip /\ tracks hist target e'
      /\ en_chain e' = List.filter (fun b => bh_height (fb_header b) <=? target) (en_chain e)
      /\ load_chain_meta (en_store e') = (target, target / CONSENSUS_EPOCH_LENGTH)).
Proof.
  intros tip Htr Ht. split; [intros; by eapply block_extends_history|].
  intros target root e' E. unfold rollback_to_height in E. fold tip in E.
  destruct (tip <=? target) eqn:E1; [done|]. apply Z.leb_gt in E1.
  rewrite (min_target_spec hist tip e (tr_undo _ _ _ Htr)) in E.
  destruct (bool_decide _); [done|]. destruct (target <? _) eqn:E2; [done|]. apply Z.ltb_ge in E2.
  destruct (undo_to_target hist tip (rev (rj_entries (en_journal e))) target (en_store e)) as [Hs Hu];
    [apply Htr|lia|rewrite length_rev; lia|apply Htr|].
  cbn in E. destruct (negb _); [done|]. injection E as <-. cbn.
  split; [done|]. split.
  - split; cbn.
    + etrans; [apply meta_state|]. etrans; [apply commit_state|]. done.
    + unfold journal_truncate. cbn. by rewrite rev_involutive.
  - split; [done|]. apply chain_meta_roundtrip; unfold in_u64, CONSENSUS_EPOCH_LENGTH; [lia|].
    split; [apply Z.div_pos; lia|]. apply Z.div_le_upper_bound; lia.
Qed.

(** An in-place rollback never gives up on a target it can reach: if the
    journal goes back far enough and the state root there is the expected one,
    it succeeds; a target at or above the tip, or older than the journal, is
    refused before anything is touched. *)
Theorem rollback_within_reach hist e target root :
  let tip := en_height e in
  let undone := apply_reverts (take_above target (rev (rj_entries (en_journal e)))) (en_store e) in
  tracks hist tip e -> 0 <= target ->
  (tip - Z.of_nat (length (rj_entries (en_journal e))) <= target < tip ->
   st_state_root (st_commit_root undone) = root -> snd (rollback_to_height target root e) = true)
  /\ (~ tip - Z.of_nat (length (rj_entries (en_journal e))) <= target < tip ->
      rollback_to_height target root e = (e, false)).
Proof.
  intros tip undone Htr Ht. unfold rollback_to_height. fold tip undone.
  rewrite (min_target_spec hist tip e (tr_undo _ _ _ Htr)).
  set (n := length (rj_entries (en_journal e))).
  assert (Hn : rj_entries (en_journal e) = [] <-> n = 0%nat)
    by (unfold n; split; [by intros ->|apply nil_length_inv]).
  split.
  - intros Hr Hroot. rewrite (proj2 (Z.leb_gt _ _)) by lia.
    rewrite bool_decide_eq_false_2 by (rewrite Hn; lia).
    rewrite (proj2 (Z.ltb_ge _ _)) by lia. cbn. by rewrite Hroot, bytes_eqb_refl.
  - intros Hr. destruct (tip <=? target) eqn:E1; [done|]. apply Z.leb_gt in E1.
    case_bool_decide as E2; [done|]. by rewrite (proj2 (Z.ltb_lt _ _)) by lia.
Qed.
End rollback.

(** ** Repair at start-up *)

Section boot.
Context {St : Type} `{!StateStore St} `{!StateStoreLaws St} `{!StateStoreScanLaws St}
        `{!BlockExec St} `{!BlockExecLaws St} (cfg : EngineConfig).
Implicit Types s : St.

Lemma apply_same_reverts h revert l s :
  l <> [] -> Forall (fun x => x = (h, revert)) l ->
  store_eq (apply_reverts l s) (apply_batch revert s).
Proof.
  intros Hne Hl. destruct Hl as [|x l -> Hl]; [done|]. clear Hne. cbn [apply_reverts fold_left snd].
  revert s. induction Hl as [|x l -> Hl IH]; intros s; [done|]. cbn [fold_left snd].
  intros k. rewrite IH. rewrite !get_apply_batch. by destruct (revert !! k).
Qed.

Lemma durable_revert_own tip h record revert :
  in_u64 h -> tip < h -> bx_decode (St := St) record = Some revert ->
  durable_revert (St := St) tip (eager_revert_key h, record) = Some (h, revert).
Proof.
  intros Hh Ht Hd. unfold durable_revert, eager_revert_key. cbn [fst snd].
  rewrite drop_app_length, length_rev, length_le_bytes. cbn [Nat.eqb negb].
  rewrite rev_involutive, from_le_u64 by done. rewrite (proj2 (Z.leb_gt _ _)) by lia. by rewrite Hd.
Qed.

Lemma replay_single_record s tip h revert :
  st_inv s -> in_u64 h -> tip < h ->
  (exists record, st_get s (eager_revert_key h) = Some record /\ bx_decode (St := St) record = Some revert) ->
  (forall k, starts_with EAGER_REVERT_PREFIX k = true -> k <> eager_revert_key h -> st_get s k = None) ->
  exists s', apply_durable_reverts_above s tip = (s', true) /\ store_eq s' (apply_batch revert s).
Proof.
  intros Hinv Hh Ht (record & Hr & Hd) Honly. unfold apply_durable_reverts_above.
  set (l := st_scan_prefix s EAGER_REVERT_PREFIX).
  assert (Hall : Forall (fun kv => kv = (eager_revert_key h, record)) l).
  { apply Forall_forall. intros [k v] Hk. apply scan_prefix_spec in Hk as [Hp Hv]; [|done].
    destruct (decide (k = eager_revert_key h)) as [->|Hne]; [congruence|].
    rewrite Honly in Hv by done. done. }
  assert (Hne : l <> []).
  { assert (Hin : (eager_revert_key h, record) ∈ l).
    { apply scan_prefix_spec; [done|]. split; [apply starts_with_app|done]. }
    intros E. rewrite E in Hin. by apply not_elem_of_nil in Hin. }
  assert (Hpend : omap (durable_revert tip) l <> []
    /\ Forall (fun x => x = (h, revert)) (omap (durable_revert tip) l)).
  { destruct Hall as [|x l' -> Hall]; [done|]. cbn [omap list_omap].
    rewrite (durable_revert_own tip h record revert) by done. split; [done|].
    constructor; [done|]. clear Hne. induction Hall as [|x l'' -> Hall IH]; [constructor|].
    cbn [omap list_omap]. rewrite (durable_revert_own tip h record revert) by done. by constructor. }
  destruct Hpend as [Hpne Hpall]. destruct (omap (durable_revert tip) l) as [|p rest] eqn:Ep; [done|].
  rewrite <- Ep in *. eexists. split; [done|]. intros k. rewrite get_commit_root.
  apply (apply_same_reverts h).
  - unfold newest_first. intros En. pose proof (stable_sort_perm (fun a b : u64 * Changes => fst b <=? fst a)
      (omap (durable_revert (St := St) tip) l)) as Hperm. rewrite En in Hperm.
    by apply Permutation_nil_l in Hperm.
  - unfold newest_first. by rewrite stable_sort_perm.
Qed.

(** C11: a crash between the eager commit of a proposal and its finalisation
    loses nothing: when the node starts again on the store the proposal left,
    every key has the value it had before the proposal, the undo record is
    gone, and the chain is at the recorded tip with the root of that state. *)
Theorem boot_undoes_eager_commit s0 ops tip epoch mempool vs s1 :
  0 < tip < u64_max -> fst (bx_produce s0 ops (tip + 1)) = s1 ->
  st_inv s1 -> load_chain_meta s1 = (tip, epoch) ->
  (forall k, starts_with EAGER_REVERT_PREFIX k = true -> k <> eager_revert_key (tip + 1) ->
     st_get s1 k = None) ->
  let e := with_validators cfg s1 mempool vs in
  (forall k, k <> eager_revert_key (tip + 1) -> st_get (en_store e) k = st_get s0 k)
  /\ st_get (en_store e) (eager_revert_key (tip + 1)) = None
  /\ en_height e = tip
  /\ map (fun b => br_state_root (fb_result b)) (en_chain e) = [st_state_root (en_store e)].
Proof.
  intros Ht. pose proof (produce_record s0 ops (tip + 1)) as Hp.
  destruct (bx_produce s0 ops (tip + 1)) as [s1' [r revert]]. destruct Hp as (Hrec & Hgone & Hback).
  intros Es Hinv Hmeta Honly e. cbn [fst] in Es. subst s1'.
  destruct (replay_single_record s1 tip (tip + 1) revert) as (s2 & E & Heq); try done.
  { unfold in_u64. lia. } { lia. }
  unfold e, with_validators. rewrite Hmeta, E. cbn [en_store en_chain].
  rewrite (proj2 (Z.ltb_lt _ _)) by lia. split; [|split; [|split]].
  - intros k Hk. rewrite (Heq k). by apply Hback.
  - by rewrite (Heq _).
  - done.
  - done.
Qed.
End boot.

(** ** Concrete runs *)

#[export] Instance demo_exec : BlockExec MemoryStore := node_executor no_debug fixed_config.
#[export] Instance demo_exec_laws : BlockExecLaws MemoryStore := node_executor_laws no_debug fixed_config.

(** Serialisations for the closed examples. *)
#[export] Instance enc_Event : Enc Event := enc_via
  (fun x => (emitter x, topic x, data x)) (fun '(a, b, c) => Some (mkEvent a b c)).
#[export] Instance enc_Receipt : Enc ExecutionReceipt := enc_via
  (fun r => (r_sender r, r_nonce r, r_success r, r_gas_used r, r_error r, r_events r, r_auth_method r))
  (fun '(a, b, c, d, e, f, g) => Some (mkReceipt a b c d e f g)).
#[export] Instance enc_UserOperation : Enc UserOperation := enc_via
  (fun o => (op_sender o, op_nonce o, op_actions o, op_max_fee o, op_signature o))
  (fun '(a, b, c, d, e) => Some (mkUserOperation a b c d e)).
#[export] Instance enc_SerializableBlock : Enc SerializableBlock := enc_via
  (fun b => (sb_header b, sb_state_root b, sb_receipts b, sb_gas_used b, sb_operations b))
  (fun '(a, b, c, d, e) => Some (mkSerializableBlock a b c d e)).
#[export] Instance enc_FinalizedCheckpoint : Enc FinalizedCheckpoint := enc_via
  (fun c => (fc_height c, fc_epoch c, fc_block_hash c, fc_state_root c, fc_attestations c))
  (fun '(a, b, c, d, e) => Some (mkFinalizedCheckpoint a b c d e)).

(** Validator 1 of four, with the legacy rule or fork choice by votes. *)
Definition demo_cfg (me : Z) (v2_height : u64) : EngineConfig :=
  mkEngineConfig 2000 100%nat (demo_id me) 0 false v2_height u64_max false u64_max u64_max u64_max.
Definition demo_engine : Engine MemoryStore :=
  with_validators (demo_cfg 1 u64_max) block_store (mempool_new 10) demo_set.

Definition empty_root : Hash := st_state_root (en_store demo_engine).
Definition first_block : FinalizedBlock :=
  mkFinalizedBlock (mkHeader 1 0 zero_hash empty_root zero_hash zero_hash (demo_id 1) 2000 [])
    (mkBlockResult empty_root [] 0) [] [].

Lemma demo_tracks : tracks (fun _ => en_store demo_engine) (en_height demo_engine) demo_engine.
Proof. split; [done|]. by vm_compute. Qed.

Lemma demo_height : en_height demo_engine = 0.
Proof. by vm_compute. Qed.

(** An empty block on the first state. *)
Lemma first_block_applies :
  exists s' r revert, bx_checked (en_store demo_engine) [] 1 empty_root = (s', Some (r, revert)).
Proof.
  assert (Hs : bool_decide (is_Some (snd (bx_checked (en_store demo_engine) [] 1 empty_root))) = true)
    by (vm_compute; reflexivity).
  destruct (bx_checked (en_store demo_engine) [] 1 empty_root) as [s' [[r revert]|]]; [eauto|done].
Qed.

Lemma rollback_refines_history_witness :
  exists s' r revert, bx_checked (en_store demo_engine) [] 1 empty_root = (s', Some (r, revert))
    /\ tracks (fun h => if h =? 1 then s' else en_store demo_engine) 1
         (push_block (demo_cfg 1 u64_max) 1 first_block revert (set_store s' demo_engine)).
Proof.
  destruct first_block_applies as (s' & r & revert & E). exists s', r, revert. split; [exact E|].
  assert (H0 : 0 <= en_height demo_engine < u64_max) by (rewrite demo_height; split; vm_compute; congruence).
  pose proof (proj1 (rollback_refines_history (demo_cfg 1 u64_max) (fun _ => en_store demo_engine)
    demo_engine demo_tracks H0) [] empty_root s' r revert first_block) as Hb.
  rewrite demo_height in Hb. exact (Hb E).
Defined.

Lemma rollback_within_reach_witness :
  exists e root, en_height e = 1 /\ snd (rollback_to_height 0 root e) = true.
Proof.
  destruct first_block_applies as (s' & r & revert & E).
  pose proof (block_extends_history (demo_cfg 1 u64_max) (fun _ => en_store demo_engine) demo_engine 0
    [] empty_root s' r revert first_block) as Htr. rewrite <- demo_height in Htr.
  specialize (Htr demo_tracks). rewrite demo_height in Htr.
  specialize (Htr ltac:(split; vm_compute; congruence) E).
  set (e := push_block (demo_cfg 1 u64_max) (0 + 1) first_block revert (set_store s' demo_engine)) in *.
  exists e, (st_state_root (st_commit_root
               (apply_reverts (take_above 0 (rev (rj_entries (en_journal e)))) (en_store e)))).
  split; [reflexivity|].
  refine (proj1 (rollback_within_reach (fun h => if h =? 0 + 1 then s' else en_store demo_engine) e 0
    _ Htr ltac:(lia)) _ eq_refl).
  change (en_height e) with 1. change (length (rj_entries (en_journal e))) with 1%nat. lia.
Defined.

(** Tip 5 is on record; the proposal for height 6 was committed and lost. *)
Definition crashed_store : MemoryStore :=
  fst (bx_produce (save_chain_meta block_store 5 0) [] 6).

#[export] Instance demo_scan_laws : StateStoreScanLaws MemoryStore := mem_scan_laws (fun b => b).

Lemma crashed_store_records k :
  starts_with EAGER_REVERT_PREFIX k = true -> k <> eager_revert_key 6 -> st_get crashed_store k = None.
Proof.
  intros Hp Hk. destruct (st_get crashed_store k) as [v|] eqn:E; [|done].
  assert (Hall : forallb (fun kv => negb (starts_with EAGER_REVERT_PREFIX (fst kv))
    || bytes_eqb (fst kv) (eager_revert_key 6)) (map_to_list (mem_data crashed_store)) = true)
    by (vm_compute; reflexivity).
  change (mem_data crashed_store !! k = Some v) in E.
  apply elem_of_map_to_list, list_elem_of_In in E. rewrite forallb_forall in Hall.
  specialize (Hall _ E). cbv beta in Hall. cbn [fst] in Hall. rewrite Hp in Hall.
  cbn [negb orb] in Hall. apply bytes_eqb_true in Hall. exfalso. exact (Hk Hall).
Qed.

Lemma boot_undoes_eager_commit_witness :
  let e := with_validators (demo_cfg 1 u64_max) crashed_store (mempool_new 10) demo_set in
  en_height e = 5 /\ st_get (en_store e) (eager_revert_key 6) = None
  /\ st_get (en_store e) (account_key (demo_key 2)) = st_get block_store (account_key (demo_key 2)).
Proof.
  pose proof (boot_undoes_eager_commit (demo_cfg 1 u64_max) (save_chain_meta block_store 5 0) [] 5 0
    (mempool_new 10) demo_set crashed_store ltac:(split; vm_compute; congruence) eq_refl) as Hb.
  change (5 + 1) with 6 in Hb.
  specialize (Hb I ltac:(vm_compute; reflexivity) crashed_store_records).
  destruct Hb as (H1 & H2 & H3 & _). intros e. split; [exact H3|]. split; [exact H2|].
  unfold e. rewrite (H1 (account_key (demo_key 2))) by (apply (bool_decide_unpack _); vm_compute; exact I).
  vm_compute. reflexivity.
Defined.
