(* ===== verification/EngineFrames.v ===== *)
(** What each operation of the consensus engine leaves alone: most of them
    change neither the chain nor the set of blocks the node holds, and those
    that finalise append one block. The lemmas here are what the safety
    theorems build on. *)

From S2P Require Import Prelude Types Store Memory Overlay Staking Treasury Codec State Auth.
From S2P Require Import Executor Blocks Validators Mempool Intents Checkpoint.
From S2P Require Import EngineState EngineVotes EngineBlocks.
Open Scope Z_scope.

Section frames.
Context {St : Type} `{!StateStore St} `{!BlockExec St} {crypto : Crypto} `{!Codec BlockHeader}
        `{!Codec SerializableBlock} `{!Codec FinalizedCheckpoint} `{!Codec StakingContract}
        `{!Codec EpochRandomness} `{!Codec Account}
        `{!Codec (list UserOperation)} `{!Codec (list ExecutionReceipt)}
        (cfg : EngineConfig) (sign : option (bytes -> bytes)).
Implicit Types e : Engine St.

(** [e'] holds no block that [e] did not hold. *)
Record holds_fewer e e' : Prop := {
  hf_pending : en_pending_blocks e' ⊆ en_pending_blocks e;
  hf_candidates : forall h m', en_v2_blocks e' !! h = Some m' ->
    exists m, en_v2_blocks e !! h = Some m /\ m' ⊆ m;
}.

(** ... and the chain is the same. *)
Definition keeps e e' : Prop := en_chain e' = en_chain e /\ holds_fewer e e'.

#[export] Instance holds_fewer_preorder : PreOrder holds_fewer.
Proof.
  split.
  - intros e. split; [done|]. intros h m Hm. by exists m.
  - intros e1 e2 e3 [P1 C1] [P2 C2]. split; [by etrans|]. intros h m3 H3.
    destruct (C2 _ _ H3) as (m2 & H2 & S2). destruct (C1 _ _ H2) as (m1 & H1 & S1).
    exists m1. split; [done|by etrans].
Qed.

#[export] Instance keeps_preorder : PreOrder keeps.
Proof.
  split.
  - by intros e.
  - intros e1 e2 e3 [C1 F1] [C2 F2]. split; [congruence|by etrans].
Qed.

Lemma keeps_same e e' :
  en_chain e' = en_chain e -> en_pending_blocks e' = en_pending_blocks e ->
  en_v2_blocks e' = en_v2_blocks e -> keeps e e'.
Proof.
  intros HC HP HV. split; [done|]. split; [by rewrite HP|].
  intros h m Hm. rewrite HV in Hm. by exists m.
Qed.

Lemma keeps_height e e' : keeps e e' -> en_height e' = en_height e.
Proof. intros [HC _]. unfold en_height. by rewrite HC. Qed.

(** ** Operations that finalise nothing *)

Lemma attest_checkpoint_keeps id sig e : keeps e (fst (attest_checkpoint id sig e)).
Proof.
  unfold attest_checkpoint. destruct (add_attestation _ _ _ _) as [cps fin].
  destruct fin; [|by apply keeps_same]. destruct (fs_latest cps); [|by apply keeps_same].
  destruct (ser _); by apply keeps_same.
Qed.

Lemma process_slashing_evidence_keeps ev e : keeps e (process_slashing_evidence ev e).
Proof. unfold process_slashing_evidence. destruct (existsb _ _); by apply keeps_same. Qed.

Lemma self_attest_keeps e : keeps e (self_attest_checkpoint cfg sign e).
Proof.
  unfold self_attest_checkpoint. destruct (fs_pending _); [|done]. destruct sign; [|done].
  apply attest_checkpoint_keeps.
Qed.

Lemma propose_checkpoint_keeps now e : keeps e (propose_epoch_checkpoint now e).
Proof. unfold propose_epoch_checkpoint. destruct (last _); [|done]. by apply keeps_same. Qed.

Lemma update_seed_keeps e : keeps e (update_epoch_seed cfg e).
Proof. unfold update_epoch_seed. destruct (last _); [|done]. by apply keeps_same. Qed.

Lemma try_epoch_transition_keeps now h e : keeps e (try_epoch_transition cfg sign now h e).
Proof.
  unfold try_epoch_transition. destruct (is_epoch_boundary h); [|done].
  destruct (process_epoch_transition _ _) as [em vs].
  etrans; [|apply update_seed_keeps]. etrans; [|apply self_attest_keeps].
  etrans; [|apply propose_checkpoint_keeps]. by apply keeps_same.
Qed.

Lemma track_missed_keeps h p e : keeps e (track_missed h p e).
Proof.
  unfold track_missed. destruct (proposer_for_height_with_seed _ _ _) as [d|]; [|done].
  destruct (negb _); [|by apply keeps_same]. destruct (record_missed_block _ _) as [vs [ev|]].
  - etrans; [|apply process_slashing_evidence_keeps]. by apply keeps_same.
  - by apply keeps_same.
Qed.

Lemma mark_invalid_keeps h bad e : keeps e (v2_mark_invalid cfg h bad e).
Proof.
  unfold v2_mark_invalid. cbn [en_v2_votes set_v2_invalid].
  destruct (en_v2_votes e !! h); [|by apply keeps_same]. case_bool_decide; by apply keeps_same.
Qed.

Lemma cast_vote_keeps id h hash e : keeps e (cast_vote id h hash e).
Proof. by apply keeps_same. Qed.

Lemma drop_undoable_sub {K} `{Countable K} (m : gmap K PendingBlock) : drop_undoable m ⊆ m.
Proof. apply map_filter_subseteq. Qed.

Lemma restore_keeps e : keeps e (restore_store_to_finalized_tip e).
Proof.
  unfold restore_store_to_finalized_tip. destruct (last (en_chain e)) as [b|] eqn:El; [|done].
  destruct (bytes_eqb _ _); [done|].
  set (e1 := set_store _ _).
  assert (H1 : keeps e e1).
  { split; [done|]. split; [apply drop_undoable_sub|].
    intros h m' Hm. cbn in Hm. rewrite lookup_fmap in Hm.
    destruct (en_v2_blocks e !! h) as [m|] eqn:E; [|done]. cbn in Hm. injection Hm as <-.
    exists m. split; [done|]. apply drop_undoable_sub. }
  destruct (bytes_eqb _ _); [exact H1|].
  destruct (apply_durable_reverts_above _ _) as [s repaired].
  etrans; [exact H1|]. destruct (repaired && _); by apply keeps_same.
Qed.

Lemma finalize_execute_keeps h pb e : keeps e (fst (finalize_execute h pb e)).
Proof.
  unfold finalize_execute. destruct (pb_already_executed pb); [done|].
  destruct (bx_checked _ _ _ _) as [s r]. etrans; [apply restore_keeps|]. by apply keeps_same.
Qed.

(** ** Finalisation *)

Lemma push_block_chain h b revert e : en_chain (push_block cfg h b revert e) = en_chain e ++ [b].
Proof. done. Qed.

Lemma push_block_held h b revert e : holds_fewer e (push_block cfg h b revert e).
Proof. split; [done|]. intros h' m Hm. by exists m. Qed.

(** The engine from which a pending block is executed. *)
Definition pending_taken (h : u64) e : Engine St :=
  set_pending_attestations (delete h (en_pending_attestations e))
    (set_pending_blocks (delete h (en_pending_blocks e)) e).

(** What [finalize_pending_block] does to the chain: nothing, or it appends the
    pending block with its attestations. *)
Definition appends_pending (h : u64) (pb : PendingBlock) e e' : Prop :=
  exists result, en_chain e' = en_chain e ++ [mkFinalizedBlock (pb_header pb) result
         (default [] (en_pending_attestations e !! h)) (pb_operations pb)].

Lemma finalize_pending_some now h pb e e1 result revert :
  en_pending_blocks e !! h = Some pb ->
  finalize_execute h pb (pending_taken h e) = (e1, Some (result, revert)) ->
  appends_pending h pb e (finalize_pending_block cfg sign now h e)
  /\ holds_fewer e1 (finalize_pending_block cfg sign now h e).
Proof.
  intros Hp E1. unfold finalize_pending_block. rewrite Hp. cbv zeta.
  change (finalize_execute h pb (set_pending_attestations _ _)) with (finalize_execute h pb (pending_taken h e)).
  rewrite E1.
  assert (K1 := finalize_execute_keeps h pb (pending_taken h e)). rewrite E1 in K1. cbn [fst] in K1.
  set (b := mkFinalizedBlock _ _ _ _). set (e2 := push_block cfg h b revert e1).
  set (e3 := set_mempool _ _). set (e4 := track_missed _ _ e3).
  set (e5 := try_epoch_transition _ _ _ _ e4). set (e6 := if bool_decide _ then _ else _).
  assert (K6 : keeps e2 e6).
  { assert (K3 : keeps e2 e3) by by apply keeps_same.
    assert (K4 : keeps e3 e4) by apply track_missed_keeps.
    assert (K5 : keeps e4 e5) by apply try_epoch_transition_keeps.
    etrans; [exact K3|]. etrans; [exact K4|]. etrans; [exact K5|].
    unfold e6. case_bool_decide; by apply keeps_same. }
  split.
  - exists result. rewrite (proj1 K6). unfold e2. by rewrite push_block_chain, (proj1 K1).
  - etrans; [apply push_block_held|]. apply K6.
Qed.

Lemma finalize_pending_none now h pb e e1 :
  en_pending_blocks e !! h = Some pb -> finalize_execute h pb (pending_taken h e) = (e1, None) ->
  keeps e1 (finalize_pending_block cfg sign now h e).
Proof.
  intros Hp E1. unfold finalize_pending_block. rewrite Hp. cbv zeta. change (finalize_execute h pb (set_pending_attestations _ _)) with (finalize_execute h pb (pending_taken h e)). rewrite E1.
  destruct (fc_v2_active cfg h); [apply mark_invalid_keeps|by apply keeps_same].
Qed.

Lemma finalize_pending_cases now h e :
  let e' := finalize_pending_block cfg sign now h e in
  (en_chain e' = en_chain e \/ exists pb, en_pending_blocks e !! h = Some pb /\ appends_pending h pb e e')
  /\ holds_fewer (pending_taken h e) e'.
Proof.
  intros e'. destruct (en_pending_blocks e !! h) as [pb|] eqn:Ep.
  2: { unfold e', finalize_pending_block. rewrite Ep. split; [by left|done]. }
  destruct (finalize_execute h pb (pending_taken h e)) as [e1 r] eqn:E1.
  assert (K1 := finalize_execute_keeps h pb (pending_taken h e)). rewrite E1 in K1. cbn [fst] in K1.
  destruct r as [[result revert]|].
  - destruct (finalize_pending_some now h pb e e1 result revert Ep E1) as [Ha Hf].
    split; [right; by exists pb|]. etrans; [apply K1|exact Hf].
  - pose proof (finalize_pending_none now h pb e e1 Ep E1) as K2. split.
    + left. unfold e'. rewrite (proj1 K2), (proj1 K1). done.
    + etrans; [apply K1|apply K2].
Qed.

(** [v2_finalize] appends the candidate with the votes for it. *)
Definition appends_candidate (h : u64) (hash : Hash) e e' : Prop :=
  exists pb result, en_v2_blocks e !! h ≫= (.!! hash) = Some pb
    /\ en_chain e' = en_chain e ++ [mkFinalizedBlock (pb_header pb) result
         (map (fun id => mkAttestation id h hash) (votes_for hash (default ∅ (en_v2_votes e !! h))))
         (pb_operations pb)].

Lemma v2_finalize_cases now h hash e :
  en_chain (v2_finalize cfg sign now h hash e) = en_chain e
  \/ appends_candidate h hash e (v2_finalize cfg sign now h hash e).
Proof.
  unfold v2_finalize. destruct (en_v2_blocks e !! h) as [m|] eqn:Em; [|by left].
  destruct (m !! hash) as [pb|] eqn:Eb; [|by left].
  cbv zeta. set (e1 := set_pending_attestations _ _).
  destruct (finalize_pending_cases now h e1) as [[Hc|(pb' & Hp & result & Hc)] _].
  - left. cbn [en_chain set_v2_votes set_v2_blocks]. rewrite Hc. done.
  - right. exists pb, result. split; [by rewrite Em|].
    cbn [en_chain set_v2_votes set_v2_blocks]. rewrite Hc.
    unfold e1 in *. cbn [en_pending_blocks en_pending_attestations en_chain set_pending_attestations
      set_pending_blocks set_v2_blocks en_v2_votes] in *.
    rewrite lookup_insert_eq in Hp. injection Hp as <-. by rewrite lookup_insert_eq.
Qed.

(** ** When a finalisation goes through *)

(** The node executed the block itself, or the store is at the tip's state and
    the block leads to the root it claims. *)
Definition executes (h : u64) (pb : PendingBlock) e : Prop :=
  pb_already_executed pb = true
  \/ (match last (en_chain e) with
      | Some b => st_state_root (en_store e) = br_state_root (fb_result b)
      | None => True
      end
      /\ is_Some (snd (bx_checked (en_store e) (pb_operations pb) h (bh_state_root (pb_header pb))))).

Lemma restore_at_tip e :
  match last (en_chain e) with
  | Some b => st_state_root (en_store e) = br_state_root (fb_result b)
  | None => True
  end -> restore_store_to_finalized_tip e = e.
Proof.
  unfold restore_store_to_finalized_tip. destruct (last (en_chain e)); [|done].
  intros ->. by rewrite bytes_eqb_refl.
Qed.

Lemma executes_some h pb e : executes h pb e -> is_Some (snd (finalize_execute h pb e)).
Proof.
  unfold finalize_execute. destruct (pb_already_executed pb) eqn:Ea; [by eauto|].
  intros [?|[Ht Hx]]; [congruence|]. rewrite restore_at_tip by done.
  destruct (bx_checked _ _ _ _) as [s r]. exact Hx.
Qed.

Lemma finalize_pending_ready now h pb e :
  en_pending_blocks e !! h = Some pb -> executes h pb e ->
  appends_pending h pb e (finalize_pending_block cfg sign now h e).
Proof.
  intros Hp Hx. destruct (executes_some h pb (pending_taken h e) Hx) as [[result revert] Hs].
  destruct (finalize_execute h pb (pending_taken h e)) as [e1 r] eqn:E1. cbn [snd] in Hs. subst r.
  by apply (finalize_pending_some now h pb e e1 result revert).
Qed.

Lemma v2_finalize_ready now h hash pb e :
  en_v2_blocks e !! h ≫= (.!! hash) = Some pb -> executes h pb e ->
  exists b, en_chain (v2_finalize cfg sign now h hash e) = en_chain e ++ [b] /\ fb_header b = pb_header pb.
Proof.
  intros Hb Hx. unfold v2_finalize. destruct (en_v2_blocks e !! h) as [m|] eqn:Em; [|done].
  cbn [mbind option_bind] in Hb. rewrite Hb. cbv zeta. set (e1 := set_pending_attestations _ _).
  destruct (finalize_pending_ready now h pb e1) as (result & Hc).
  - unfold e1. cbn. by rewrite lookup_insert_eq.
  - exact Hx.
  - cbn [en_chain set_v2_votes set_v2_blocks]. rewrite Hc. by eexists.
Qed.
End frames.

Create HintDb engine_frames.
#[export] Hint Resolve attest_checkpoint_keeps process_slashing_evidence_keeps try_epoch_transition_keeps
  track_missed_keeps cast_vote_keeps restore_keeps : engine_frames.
