(* ===== verification/EngineSafety.v ===== *)
(** Safety of fork choice and finalisation in the consensus engine: one leader
    and one winner whatever order the votes are enumerated in, finality only
    with a quorum, agreement between nodes, and what an accepted proposal has
    passed. *)

From S2P Require Import Prelude Types Store Memory Overlay Staking Treasury Codec State Auth.
From S2P Require Import Executor Blocks Validators Mempool Intents Checkpoint.
From S2P Require Import EngineState EngineVotes EngineBlocks EngineRecovery EngineFrames.
Open Scope Z_scope.

(** ** The order of candidates *)

Definition hash_lt (a b : Hash) : bool := bytes_leb a b && negb (bytes_eqb a b).

Lemma hash_lt_spec a b : hash_lt a b = true <-> bytes_leb a b = true /\ a <> b.
Proof. unfold hash_lt. by rewrite andb_true_iff, negb_true_iff, bytes_eqb_false. Qed.

Lemma better_spec h1 s1 r1 h2 s2 r2 :
  better (h1, s1, r1) (h2, s2, r2) = true <->
  s2 < s1 \/ (s1 = s2 /\ r1 < r2) \/ (s1 = s2 /\ r1 = r2 /\ bytes_leb h1 h2 = true /\ h1 <> h2).
Proof.
  unfold better. fold (hash_lt h1 h2).
  rewrite !orb_true_iff, !andb_true_iff, !Z.ltb_lt, !Z.eqb_eq, hash_lt_spec. tauto.
Qed.

Lemma better_trans x y z : better x y = true -> better y z = true -> better x z = true.
Proof.
  destruct x as [[h1 s1] r1], y as [[h2 s2] r2], z as [[h3 s3] r3]. rewrite !better_spec.
  intros [?|[[? ?]|(? & ? & L1 & N1)]] [?|[[? ?]|(? & ? & L2 & N2)]]; try lia.
  right. right. split; [lia|]. split; [lia|]. split; [by eapply bytes_leb_trans|].
  intros ->. apply N1. by apply bytes_leb_antisym.
Qed.

Lemma better_irrefl x : better x x = false.
Proof.
  destruct x as [[h s] r]. destruct (better (h, s, r) (h, s, r)) eqn:E; [|done].
  apply better_spec in E as [?|[[? ?]|(_ & _ & _ & ?)]]; [lia|lia|done].
Qed.

Lemma better_total x y : fst (fst x) <> fst (fst y) -> better x y = true \/ better y x = true.
Proof.
  destruct x as [[h1 s1] r1], y as [[h2 s2] r2]. cbn [fst]. intros Hn.
  rewrite !better_spec.
  destruct (Z.lt_total s1 s2) as [?|[?|?]]; [right; by left| |left; by left].
  destruct (Z.lt_total r1 r2) as [?|[?|?]]; [left; right; by left| |right; right; left; lia].
  destruct (bytes_leb_total h1 h2); [left|right]; right; right; repeat split; auto; lia.
Qed.

(** The fold finds the candidate that beats all the others. *)
Lemma pick_better_spec l best :
  NoDup (map (fun c => fst (fst c)) (match best with Some b => b :: l | None => l end)) ->
  match fold_left pick_better l best with
  | Some c => c ∈ (match best with Some b => b :: l | None => l end)
              /\ forall d, d ∈ (match best with Some b => b :: l | None => l end) -> d <> c -> better c d = true
  | None => best = None /\ l = []
  end.
Proof.
  revert best. induction l as [|x l IH]; intros best Hn; cbn [fold_left].
  - destruct best as [b|]; [|done]. split; [by left|]. intros d Hd Hne.
    apply list_elem_of_singleton in Hd. done.
  - destruct best as [b|]; cbn [pick_better].
    2: { specialize (IH (Some x) Hn). destruct (fold_left pick_better l (Some x)); [done|by destruct IH]. }
    assert (Hbx : fst (fst b) <> fst (fst x)).
    { cbn in Hn. apply NoDup_cons in Hn as [Hb _]. intros E. apply Hb. rewrite E. by left. }
    set (w := if better x b then x else b). set (o := if better x b then b else x).
    assert (Hwo : better w o = true).
    { unfold w, o. destruct (better x b) eqn:E; [done|]. destruct (better_total b x) as [?|?]; congruence. }
    assert (Hperm : b :: x :: l ≡ₚ o :: w :: l).
    { unfold w, o. destruct (better x b); [done|constructor]. }
    assert (Hn' : NoDup (map (fun c => fst (fst c)) (w :: l))).
    { rewrite Hperm in Hn. cbn in Hn. by apply NoDup_cons in Hn as [_ ?]. }
    specialize (IH (Some w) Hn'). replace (if better x b then Some x else Some b) with (Some w)
      by (unfold w; by destruct (better x b)).
    destruct (fold_left pick_better l (Some w)) as [c|]; [|by destruct IH].
    destruct IH as [Hc Hbest]. split; [rewrite Hperm; by right|].
    intros d Hd Hne. rewrite Hperm in Hd. apply elem_of_cons in Hd as [->|Hd]; [|by apply Hbest].
    destruct (decide (w = c)) as [<-|Hwc]; [done|].
    apply (better_trans _ w); [|done]. apply Hbest; [by left|done].
Qed.

Lemma pick_better_unique l1 l2 :
  l1 ≡ₚ l2 -> NoDup (map (fun c => fst (fst c)) l1) ->
  fold_left pick_better l1 None = fold_left pick_better l2 None.
Proof.
  intros Hp Hn. assert (Hn2 : NoDup (map (fun c => fst (fst c)) l2)) by by rewrite <- Hp.
  pose proof (pick_better_spec l1 None Hn) as H1. pose proof (pick_better_spec l2 None Hn2) as H2.
  destruct (fold_left pick_better l1 None) as [c1|], (fold_left pick_better l2 None) as [c2|].
  - destruct H1 as [H1 B1], H2 as [H2 B2]. f_equal.
    destruct (decide (c1 = c2)) as [|Hne]; [done|].
    assert (better c1 c2 = true) by (apply B1; [by rewrite Hp|done]).
    assert (better c2 c1 = true) by (apply B2; [by rewrite <- Hp|done]).
    assert (better c1 c1 = true) by (by eapply better_trans). by rewrite better_irrefl in *.
  - destruct H1 as [H1 _], H2 as [_ ->]. rewrite Hp in H1. by apply not_elem_of_nil in H1.
  - destruct H2 as [H2 _], H1 as [_ ->]. rewrite <- Hp in H2. by apply not_elem_of_nil in H2.
  - done.
Qed.

(** ** The tally *)

Lemma tally_lookup votes h :
  default [] (tally_votes votes !! h)
  = map fst (List.filter (fun kv => bytes_eqb (snd kv) h) votes).
Proof.
  unfold tally_votes.
  enough (Hg : forall t, default [] (fold_left (fun t vote => add_vote vote t) votes t !! h)
    = default [] (t !! h) ++ map fst (List.filter (fun kv => bytes_eqb (snd kv) h) votes))
    by (rewrite Hg, lookup_empty; done).
  induction votes as [|[i h'] votes IH]; intros t; cbn [fold_left List.filter snd map];
    [by rewrite app_nil_r|].
  rewrite IH. unfold add_vote. cbn [fst snd]. rewrite lookup_insert. case_decide as E.
  - subst h'. rewrite bytes_eqb_refl. cbn. by rewrite <- app_assoc.
  - by rewrite (proj2 (bytes_eqb_false _ _)).
Qed.

Lemma tally_entry votes h voters :
  tally_votes votes !! h = Some voters ->
  voters = map fst (List.filter (fun kv => bytes_eqb (snd kv) h) votes).
Proof. intros E. rewrite <- tally_lookup, E. done. Qed.

(** Whose votes are for one block are not for another. *)
Lemma voter_of_one (per : gmap bytes Hash) h1 h2 v1 v2 i :
  tally_votes (map_to_list per) !! h1 = Some v1 -> tally_votes (map_to_list per) !! h2 = Some v2 ->
  i ∈ v1 -> i ∈ v2 -> h1 = h2.
Proof.
  intros E1%tally_entry E2%tally_entry. subst v1 v2.
  assert (Hv : forall h, i ∈ map fst (List.filter (fun kv => bytes_eqb (snd kv) h) (map_to_list per)) ->
    per !! i = Some h).
  { intros h Hi. apply list_elem_of_fmap in Hi as ([i' h'] & -> & Hi).
    apply list_elem_of_In, filter_In in Hi as [Hi Hh]. apply bytes_eqb_true in Hh. cbn in Hh. subst h'.
    apply elem_of_map_to_list. by apply list_elem_of_In. }
  intros H1%Hv H2%Hv. congruence.
Qed.

Lemma two_quorums_meet vs A B :
  set_ok vs -> has_quorum vs A = true -> has_quorum vs B = true -> exists i, i ∈ A /\ i ∈ B.
Proof.
  intros Hok HA HB. destruct (honest_overlap vs A B (fun _ => false) Hok) as (v & _ & H1 & H2 & _); eauto.
  assert (E0 : weight vs (fun _ => false) = 0) by (unfold weight; clear; by induction vs).
  rewrite E0. unfold committed_stake. cbn. apply sumZ_nonneg, Forall_map, Hok.
Qed.

Section fork_choice.
Context {St : Type} `{!StateStore St} `{!BlockExec St} {crypto : Crypto} `{!Codec BlockHeader}.
Implicit Types e : Engine St.

Lemma candidate_hash e h kv c : v2_candidate e h kv = Some c -> fst (fst c) = fst kv.
Proof.
  destruct kv as [hash voters]. unfold v2_candidate. destruct (invalid_at e h hash); [done|].
  destruct (_ ≫= _); [|done]. intros [= <-]. done.
Qed.

Lemma candidates_NoDup e h entries :
  NoDup (map fst entries) ->
  NoDup (map (fun c => fst (fst c)) (omap (v2_candidate e h) entries)).
Proof.
  induction entries as [|kv entries IH]; cbn [map omap list_omap]; intros Hn; [constructor|].
  apply NoDup_cons in Hn as [Hk Hn]. destruct (v2_candidate e h kv) as [c|] eqn:E; [|auto].
  cbn [map]. constructor; [|auto]. rewrite (candidate_hash _ _ _ _ E).
  intros Hin. apply Hk. apply list_elem_of_fmap in Hin as (d & Ed & Hd).
  apply list_elem_of_omap in Hd as (kv' & Hkv & Ed'). rewrite Ed, (candidate_hash _ _ _ _ Ed').
  by apply list_elem_of_fmap_2.
Qed.

(** Every node that holds the same candidates and votes elects the same
    leader, whatever order its hash map enumerates them in: the leader is held
    and not known to be invalid, and beats every other eligible candidate by
    stake, then by the rank of the proposer, then by hash. *)
Theorem leader_deterministic e (height : u64) (entries : list (Hash * list ValidatorId))
    (tally : gmap bytes (list ValidatorId)) :
  entries ≡ₚ map_to_list tally ->
  leader_of e height entries = v2_leader e height tally
  /\ match v2_leader e height tally with
     | Some hash => exists voters c, tally !! hash = Some voters
         /\ v2_candidate e height (hash, voters) = Some c
         /\ forall hash' voters' d, tally !! hash' = Some voters' -> hash' <> hash ->
              v2_candidate e height (hash', voters') = Some d -> better c d = true
     | None => forall hash voters, tally !! hash = Some voters -> v2_candidate e height (hash, voters) = None
     end.
Proof.
  intros Hp.
  assert (Hn : NoDup (map fst (map_to_list tally))) by apply NoDup_fst_map_to_list.
  assert (Hc := candidates_NoDup e height _ Hn). split.
  - unfold v2_leader, leader_of. f_equal. symmetry. apply pick_better_unique; [|done]. by rewrite Hp.
  - unfold v2_leader, leader_of. pose proof (pick_better_spec _ None Hc) as Hs. cbn beta iota in Hs.
    destruct (fold_left pick_better _ None) as [c|]; cbn [fmap option_fmap option_map].
    + destruct Hs as [Hin Hbest]. apply list_elem_of_omap in Hin as ([hash voters] & Hin & Ec).
      pose proof (candidate_hash _ _ _ _ Ec) as Eh. cbn [fst] in Eh. rewrite Eh.
      exists voters, c. split; [by apply elem_of_map_to_list|]. split; [done|].
      intros hash' voters' d Ht Hne Ed. apply Hbest.
      * apply list_elem_of_omap. exists (hash', voters'). split; [by apply elem_of_map_to_list|done].
      * intros ->. pose proof (candidate_hash _ _ _ _ Ed) as Ed'. cbn [fst] in Ed'. congruence.
    + destruct Hs as [_ Hnil]. intros hash voters Ht.
      destruct (v2_candidate e height (hash, voters)) as [c|] eqn:Ec; [|done].
      assert (Hin : c ∈ omap (v2_candidate e height) (map_to_list tally)).
      { apply list_elem_of_omap. exists (hash, voters). split; [by apply elem_of_map_to_list|done]. }
      rewrite Hnil in Hin. by apply not_elem_of_nil in Hin.
Qed.

Lemma quorum_winner_unique e (per : gmap bytes Hash) h1 h2 v1 v2 :
  set_ok (en_validator_set e) ->
  tally_votes (map_to_list per) !! h1 = Some v1 -> tally_votes (map_to_list per) !! h2 = Some v2 ->
  has_quorum (en_validator_set e) v1 = true -> has_quorum (en_validator_set e) v2 = true -> h1 = h2.
Proof.
  intros Hok T1 T2 Q1 Q2. destruct (two_quorums_meet _ _ _ Hok Q1 Q2) as (i & H1 & H2).
  by eapply voter_of_one.
Qed.

(** At most one block of a height has a quorum among the votes a node
    holds, so that which one it finalises does not depend on the order of
    enumeration either. *)
Theorem winner_deterministic e (height : u64) (per : gmap bytes Hash)
    (entries : list (Hash * list ValidatorId)) :
  set_ok (en_validator_set e) ->
  entries ≡ₚ map_to_list (tally_votes (map_to_list per)) ->
  winner_of e height entries = winner_of e height (map_to_list (tally_votes (map_to_list per)))
  /\ (forall hash, winner_of e height entries = Some hash ->
      exists voters, tally_votes (map_to_list per) !! hash = Some voters
        /\ wins e height (hash, voters) = true).
Proof.
  intros Hok Hp. set (t := tally_votes (map_to_list per)) in *.
  assert (Hfind : forall l, l ≡ₚ map_to_list t -> forall hash, winner_of e height l = Some hash ->
    exists voters, t !! hash = Some voters /\ wins e height (hash, voters) = true).
  { intros l Hl hash. unfold winner_of. destruct (List.find (wins e height) l) as [[h v]|] eqn:E; [|done].
    intros [= <-]. apply find_elem in E as [Hin Hw]. exists v. split; [|done].
    rewrite Hl in Hin. by apply elem_of_map_to_list. }
  assert (Hnone : forall l, l ≡ₚ map_to_list t -> winner_of e height l = None ->
    forall hash voters, t !! hash = Some voters -> wins e height (hash, voters) = false).
  { intros l Hl. unfold winner_of. destruct (List.find (wins e height) l) as [[h v]|] eqn:E; [done|].
    intros _ hash voters Ht. apply (find_none_elem _ _ E). rewrite Hl. by apply elem_of_map_to_list. }
  split; [|by apply Hfind].
  destruct (winner_of e height entries) as [h1|] eqn:E1,
    (winner_of e height (map_to_list t)) as [h2|] eqn:E2; try done.
  - destruct (Hfind _ Hp _ E1) as (v1 & T1 & W1), (Hfind _ (reflexivity _) _ E2) as (v2 & T2 & W2).
    f_equal. unfold wins in W1, W2. apply andb_true_iff in W1 as [W1 _], W2 as [W2 _].
    apply andb_true_iff in W1 as [_ Q1], W2 as [_ Q2]. by eapply quorum_winner_unique.
  - destruct (Hfind _ Hp _ E1) as (v1 & T1 & W1).
    rewrite (Hnone _ (reflexivity _) E2 _ _ T1) in W1. done.
  - destruct (Hfind _ (reflexivity _) _ E2) as (v2 & T2 & W2).
    rewrite (Hnone _ Hp E1 _ _ T2) in W2. done.
Qed.
End fork_choice.


(** ** Finality *)

Section finality.
Context {St : Type} `{!StateStore St} `{!BlockExec St} {crypto : Crypto} `{!Codec BlockHeader}
        `{!Codec SerializableBlock} `{!Codec FinalizedCheckpoint} `{!Codec StakingContract}
        `{!Codec EpochRandomness} `{!Codec Account}
        `{!Codec (list UserOperation)} `{!Codec (list ExecutionReceipt)}
        (cfg : EngineConfig) (sign : option (bytes -> bytes)).
Implicit Types e : Engine St.

(** The votes of a height the node has recorded. *)
Definition recorded_votes e (h : u64) : gmap bytes Hash := default ∅ (en_v2_votes e !! h).
Definition attesters (b : FinalizedBlock) : list ValidatorId := map at_validator_id (fb_attestations b).

Lemma tally_voters e h hash voters :
  v2_tally e h !! hash = Some voters -> voters = votes_for hash (recorded_votes e h).
Proof.
  unfold v2_tally, recorded_votes, votes_for. destruct (en_v2_votes e !! h) as [per|]; [|done].
  apply tally_entry.
Qed.

Lemma tally_default e h hash : default [] (v2_tally e h !! hash) = votes_for hash (recorded_votes e h).
Proof.
  unfold v2_tally, recorded_votes, votes_for. destruct (en_v2_votes e !! h) as [per|]; [|done].
  apply tally_lookup.
Qed.

Lemma votes_for_elem (hash : Hash) (per : gmap bytes Hash) (i : ValidatorId) : i ∈ votes_for hash per <-> per !! i = Some hash.
Proof.
  unfold votes_for. rewrite list_elem_of_fmap. split.
  - intros ([i' h'] & -> & Hi). apply list_elem_of_In, filter_In in Hi as [Hi Hh].
    apply bytes_eqb_true in Hh. cbn in Hh. subst h'. by apply elem_of_map_to_list, list_elem_of_In.
  - intros Hi. exists (i, hash). split; [done|]. apply list_elem_of_In, filter_In. cbn [snd].
    split; [by apply list_elem_of_In, elem_of_map_to_list|apply bytes_eqb_refl].
Qed.

(** The block is on top of the chain with the votes of a quorum, all of them
    for its hash: votes the node had recorded, or its own vote for the leader. *)
Definition finalized_by_quorum (h : u64) e e' : Prop :=
  exists b hash pb,
    en_chain e' = en_chain e ++ [b]
    /\ h = u64_add (en_height e) 1
    /\ en_v2_blocks e !! h ≫= (.!! hash) = Some pb /\ fb_header b = pb_header pb
    /\ invalid_at e h hash = false
    /\ Forall (fun a => at_block_height a = h /\ at_block_hash a = hash) (fb_attestations b)
    /\ has_quorum (en_validator_set e) (attesters b) = true
    /\ Forall (fun i => recorded_votes e h !! i = Some hash \/ i = ec_validator_id cfg) (attesters b).

Lemma attesters_of h hash ids : map at_validator_id (map (fun id => mkAttestation id h hash) ids) = ids.
Proof. induction ids; cbn; congruence. Qed.

Lemma attestations_of h hash ids :
  Forall (fun a => at_block_height a = h /\ at_block_hash a = hash)
    (map (fun id => mkAttestation id h hash) ids).
Proof. apply Forall_map, Forall_true. done. Qed.

Lemma wins_spec e h hash voters :
  wins e h (hash, voters) = true ->
  invalid_at e h hash = false /\ has_quorum (en_validator_set e) voters = true
  /\ is_Some (en_v2_blocks e !! h ≫= (.!! hash)).
Proof.
  unfold wins. cbn [fst snd]. rewrite !andb_true_iff, negb_true_iff, bool_decide_eq_true. tauto.
Qed.

Lemma winner_spec e h entries hash :
  winner_of e h entries = Some hash -> exists voters, (hash, voters) ∈ entries /\ wins e h (hash, voters) = true.
Proof.
  unfold winner_of. destruct (List.find (wins e h) entries) as [[h' v]|] eqn:E; [|done].
  intros [= <-]. exists v. by apply find_elem in E.
Qed.

Lemma leader_spec e h tally hash :
  v2_leader e h tally = Some hash -> invalid_at e h hash = false.
Proof.
  unfold v2_leader, leader_of. intros Hl. destruct (fold_left pick_better _ None) as [c|] eqn:E; [|done].
  cbn in Hl. injection Hl as <-.
  assert (Hin : c ∈ omap (v2_candidate e h) (map_to_list tally)).
  { pose proof (pick_better_spec (omap (v2_candidate e h) (map_to_list tally)) None
      (candidates_NoDup e h _ (NoDup_fst_map_to_list _))) as Hs. rewrite E in Hs. apply Hs. }
  apply list_elem_of_omap in Hin as ([hash voters] & _ & Ec).
  rewrite (candidate_hash _ _ _ _ Ec). cbn [fst]. unfold v2_candidate in Ec.
  by destruct (invalid_at e h hash).
Qed.

Lemma winner_quorum now h hash e :
  h = u64_add (en_height e) 1 -> winner_of e h (map_to_list (v2_tally e h)) = Some hash ->
  en_chain (v2_finalize cfg sign now h hash e) = en_chain e
  \/ finalized_by_quorum h e (v2_finalize cfg sign now h hash e).
Proof.
  intros Hh Hw. destruct (v2_finalize_cases cfg sign now h hash e) as [?|(pb & r & Hb & Hc)]; [by left|].
  right. apply winner_spec in Hw as (voters & Hin & Hw). apply elem_of_map_to_list, tally_voters in Hin.
  apply wins_spec in Hw as (Hi & Hq & _). subst voters.
  eexists _, hash, pb. split; [exact Hc|]. unfold attesters. cbn [fb_attestations fb_header].
  rewrite attesters_of. do 4 (split; [done|]). split; [apply attestations_of|]. split; [exact Hq|].
  apply Forall_forall. intros i Hi'. left. by apply votes_for_elem.
Qed.

Lemma follow_quorum now h leader e :
  h = u64_add (en_height e) 1 -> invalid_at e h leader = false ->
  en_chain (v2_follow cfg sign now h leader e) = en_chain e
  \/ finalized_by_quorum h e (v2_follow cfg sign now h leader e).
Proof.
  intros Hh Hi. unfold v2_follow. destruct (negb _); [by left|]. case_bool_decide; [by left|].
  cbv zeta. set (e1 := set_v2_revotes _ _). rewrite tally_default.
  destruct (has_quorum _ _) eqn:Hq; [|by left].
  destruct (v2_finalize_cases cfg sign now h leader e1) as [?|(pb & r & Hb & Hc)]; [by left|].
  right. eexists _, leader, pb. split; [exact Hc|]. unfold attesters. cbn [fb_attestations fb_header].
  rewrite attesters_of. split; [done|]. split; [exact Hb|]. do 2 (split; [done|]).
  split; [apply attestations_of|]. split; [exact Hq|].
  apply Forall_forall. intros i Hv. apply votes_for_elem in Hv.
  unfold e1, recorded_votes in Hv. cbn in Hv. rewrite lookup_insert_eq in Hv. cbn in Hv.
  destruct (decide (i = ec_validator_id cfg)) as [->|Hne]; [by right|left].
  by rewrite lookup_insert_ne in Hv by congruence.
Qed.

Lemma reevaluate_quorum now h e :
  en_chain (v2_reevaluate cfg sign now h e) = en_chain e
  \/ finalized_by_quorum h e (v2_reevaluate cfg sign now h e).
Proof.
  unfold v2_reevaluate. destruct (h =? u64_add (en_height e) 1) eqn:Eh; [|by left].
  apply Z.eqb_eq in Eh. cbn [negb]. case_bool_decide; [by left|].
  destruct (winner_of e h _) as [w|] eqn:Ew; [by apply winner_quorum|].
  destruct (v2_leader e h _) as [l|] eqn:El; [|by left].
  apply follow_quorum; [done|]. by eapply leader_spec.
Qed.

(** C10: with fork choice by votes, a vote or a block makes a node finalise at
    most one block, the next one, and only with a quorum of the stake of its
    validator set: every attestation stored with the block is for its height
    and hash and stems from a recorded vote, or from the node's own. *)
Theorem v2_finality_needs_quorum now inst id height hash header ops e :
  (let e' := v2_record_vote cfg sign now id height hash e in
   en_chain e' = en_chain e \/ finalized_by_quorum height (cast_vote id height hash e) e')
  /\ (let e' := v2_record_block cfg sign now inst header ops e in
      en_chain e' = en_chain e
      \/ finalized_by_quorum (bh_height header) (v2_insert_block inst header ops e) e').
Proof.
  split.
  - exact (reevaluate_quorum now height (cast_vote id height hash e)).
  - exact (reevaluate_quorum now (bh_height header) (v2_insert_block inst header ops e)).
Qed.

(** The candidates of a height are filed under their own height and hash. *)
Definition candidates_keyed e : Prop :=
  forall h m hash pb, en_v2_blocks e !! h = Some m -> m !! hash = Some pb ->
    bh_height (pb_header pb) = h /\ block_hash (pb_header pb) = hash.

Lemma candidate_keyed e h hash pb :
  candidates_keyed e -> en_v2_blocks e !! h ≫= (.!! hash) = Some pb ->
  bh_height (pb_header pb) = h /\ block_hash (pb_header pb) = hash.
Proof.
  intros Hk Hb. destruct (en_v2_blocks e !! h) as [m|] eqn:Em; [|done]. by apply (Hk h m).
Qed.

Lemma appended_by_quorum now h e b :
  candidates_keyed e -> en_chain (v2_reevaluate cfg sign now h e) = en_chain e ++ [b] ->
  bh_height (fb_header b) = h
  /\ has_quorum (en_validator_set e) (attesters b) = true
  /\ Forall (fun a => at_block_hash a = block_hash (fb_header b)) (fb_attestations b).
Proof.
  intros Hk Hc. destruct (reevaluate_quorum now h e) as [Hn|(b' & hash & pb & Hb)].
  - rewrite Hn in Hc. apply (f_equal length) in Hc. rewrite length_app in Hc. cbn in Hc. lia.
  - destruct Hb as (Hb & _ & Hpb & Hh & _ & Ha & Hq & _). rewrite Hb in Hc.
    apply app_inj_tail in Hc as [_ ->]. destruct (candidate_keyed _ _ _ _ Hk Hpb) as [E1 E2].
    rewrite Hh, E1, E2. split; [done|]. split; [done|]. eapply Forall_impl; [exact Ha|]. by intros a [_ ?].
Qed.
End finality.

Section agreement.
Context {St : Type} `{!StateStore St} `{!BlockExec St} {crypto : Crypto} `{!Codec BlockHeader}
        `{!Codec SerializableBlock} `{!Codec FinalizedCheckpoint} `{!Codec StakingContract}
        `{!Codec EpochRandomness}.
Implicit Types e : Engine St.

(** C1: two nodes with the same stakes do not finalise different blocks at a
    height, as long as validators with at most a third of the stake are counted
    for two hashes: every other validator's attestations at the two nodes are
    for the same block. *)
Theorem v2_agreement cfg1 cfg2 sign1 sign2 now1 now2 h e1 e2 b1 b2 (faulty : ValidatorInfo -> bool) :
  let vs := en_validator_set e1 in
  set_ok vs -> stakes vs = stakes (en_validator_set e2) ->
  candidates_keyed e1 -> candidates_keyed e2 ->
  en_chain (v2_reevaluate cfg1 sign1 now1 h e1) = en_chain e1 ++ [b1] ->
  en_chain (v2_reevaluate cfg2 sign2 now2 h e2) = en_chain e2 ++ [b2] ->
  3 * weight vs faulty <= committed_stake vs ->
  (forall v a1 a2, v ∈ vs -> faulty v = false -> a1 ∈ fb_attestations b1 -> a2 ∈ fb_attestations b2 ->
     at_validator_id a1 = vi_id v -> at_validator_id a2 = vi_id v -> at_block_hash a1 = at_block_hash a2) ->
  block_hash (fb_header b1) = block_hash (fb_header b2) /\ bh_height (fb_header b1) = bh_height (fb_header b2).
Proof.
  intros vs Hok Hst K1 K2 C1 C2 Hf Hone.
  destruct (appended_by_quorum _ _ _ _ _ _ K1 C1) as (E1 & Q1 & A1).
  destruct (appended_by_quorum _ _ _ _ _ _ K2 C2) as (E2 & Q2 & A2).
  rewrite <- (has_quorum_stakes vs _ _ Hst) in Q2. split; [|congruence].
  destruct (honest_overlap vs _ _ faulty Hok Hf Q1 Q2) as (v & Hv & I1 & I2 & Hgood).
  apply list_elem_of_fmap in I1 as (a1 & Ea1 & I1), I2 as (a2 & Ea2 & I2).
  rewrite Forall_forall in A1, A2. rewrite <- (A1 _ I1), <- (A2 _ I2). by eapply Hone.
Qed.
End agreement.

(** ** Progress *)

Section progress.
Context {St : Type} `{!StateStore St} `{!BlockExec St} {crypto : Crypto} `{!Codec BlockHeader}
        `{!Codec SerializableBlock} `{!Codec FinalizedCheckpoint} `{!Codec StakingContract}
        `{!Codec EpochRandomness}
        (cfg : EngineConfig) (sign : option (bytes -> bytes)).
Implicit Types e : Engine St.

Lemma quorum_nonempty vs ids : has_quorum vs ids = true -> ids <> [].
Proof.
  unfold has_quorum. destruct (_ =? 0) eqn:E; [done|]. intros Hq ->. apply Z.eqb_neq in E.
  assert (E0 : vs_stake_of vs [] = 0) by (unfold vs_stake_of; cbn; clear; by induction vs).
  rewrite E0 in Hq. apply Z.ltb_lt in Hq. unfold u128_mul in Hq.
  rewrite Z.mul_0_l, Z.mod_0_l in Hq by lia.
  pose proof (Z.mod_pos_bound (u128_sum (map vi_stake vs) * 2) (2 ^ 128) ltac:(lia)). lia.
Qed.

Lemma quorum_wins e h hash pb :
  set_ok (en_validator_set e) -> en_v2_blocks e !! h ≫= (.!! hash) = Some pb ->
  invalid_at e h hash = false ->
  has_quorum (en_validator_set e) (votes_for hash (recorded_votes e h)) = true ->
  v2_tally e h <> ∅ /\ winner_of e h (map_to_list (v2_tally e h)) = Some hash.
Proof.
  intros Hok Hb Hi Hq.
  assert (Ht : v2_tally e h !! hash = Some (votes_for hash (recorded_votes e h))).
  { pose proof (tally_default e h hash) as Hd. destruct (v2_tally e h !! hash) as [v|] eqn:E.
    - cbn in Hd. by rewrite Hd.
    - exfalso. apply (quorum_nonempty _ _ Hq). by rewrite <- Hd. }
  assert (Hw : wins e h (hash, votes_for hash (recorded_votes e h)) = true).
  { unfold wins. cbn [fst snd]. rewrite Hi, Hq, Hb. by rewrite bool_decide_eq_true_2. }
  split; [intros E0; rewrite E0, lookup_empty in Ht; done|].
  destruct (winner_of e h _) as [w|] eqn:Ew.
  - apply winner_spec in Ew as (v & Hin & Hv). apply elem_of_map_to_list in Hin.
    apply wins_spec in Hv as (_ & Hvq & _). f_equal.
    unfold v2_tally in Hin, Ht. destruct (en_v2_votes e !! h) as [per|]; [|done].
    by apply (quorum_winner_unique e per w hash v _ Hok Hin Ht).
  - exfalso. unfold winner_of in Ew. destruct (List.find _ _) eqn:Ef; [done|].
    rewrite (find_none_elem _ _ Ef (hash, votes_for hash (recorded_votes e h))) in Hw; [done|].
    by apply elem_of_map_to_list.
Qed.

(** C7: progress of fork choice by votes. When a node at the preceding height
    holds a block that executes, and a vote completes a quorum for it, the node
    finalises that block at once and its height goes up by one. *)
Theorem quorum_finalises now id h hash e pb :
  let e0 := cast_vote id h hash e in
  let e' := v2_record_vote cfg sign now id h hash e in
  set_ok (en_validator_set e) -> h = u64_add (en_height e) 1 ->
  en_v2_blocks e !! h ≫= (.!! hash) = Some pb -> bh_height (pb_header pb) = h ->
  invalid_at e h hash = false -> executes h pb e ->
  has_quorum (en_validator_set e) (votes_for hash (recorded_votes e0 h)) = true ->
  (exists b, en_chain e' = en_chain e ++ [b] /\ fb_header b = pb_header pb)
  /\ en_height e' = u64_add (en_height e) 1.
Proof.
  intros e0 e' Hok Hh Hb Hpb Hi Hx Hq.
  assert (Hc : exists b, en_chain e' = en_chain e ++ [b] /\ fb_header b = pb_header pb).
  { unfold e', v2_record_vote, v2_reevaluate. fold e0.
    change (en_height e0) with (en_height e). rewrite <- Hh, Z.eqb_refl. cbn [negb].
    destruct (quorum_wins e0 h hash pb Hok Hb Hi Hq) as [Hne Hw].
    rewrite bool_decide_eq_false_2 by exact Hne. rewrite Hw.
    exact (v2_finalize_ready cfg sign now h hash pb e0 Hb Hx). }
  split; [exact Hc|]. destruct Hc as (b & Hc & Hf). unfold en_height at 1. rewrite Hc, last_snoc, Hf.
  congruence.
Qed.

Lemma next_order_active e v : v ∈ vs_active (en_validator_set e) -> vi_id v ∈ next_order e.
Proof.
  intros Hv. unfold next_order. rewrite (proposer_order_perm (en_validator_set e)).
  apply list_elem_of_fmap_2. by rewrite <- vs_active_perm.
Qed.

(** a network whose blocks stall is probed by everyone in turn: while the
    tip does not move, every active validator is the one to probe in one of any
    [n] successive windows of thirty seconds, [n] the number of validators, and
    in each window exactly one is. *)
Theorem probe_reaches_everyone e v (now : Z) :
  v ∈ vs_active (en_validator_set e) -> 0 <= now ->
  (exists k, 0 <= k < Z.of_nat (length (next_order e))
     /\ partition_probe_proposer (now + k * 30) e = Some (vi_id v))
  /\ is_Some (partition_probe_proposer now e).
Proof.
  intros Hv Hnow. apply next_order_active in Hv. unfold partition_probe_proposer.
  assert (Hn : next_order e <> []) by (intros E; rewrite E in Hv; by apply not_elem_of_nil in Hv).
  rewrite !bool_decide_eq_false_2 by done. change (Z.max (PARTITION_PROBE_INTERVAL_MS / 1000) 1) with 30.
  set (n := Z.of_nat (length (next_order e))).
  assert (0 < n) by (unfold n; destruct (next_order e); [done|cbn [length]; lia]).
  split.
  - apply list_elem_of_lookup in Hv as [i Hi]. pose proof (lookup_lt_Some _ _ _ Hi) as Hlt.
    exists ((Z.of_nat i - now / 30) mod n). split; [by apply Z.mod_pos_bound|].
    rewrite Z.div_add by lia. rewrite Z.add_mod_idemp_r by lia.
    replace (now / 30 + (Z.of_nat i - now / 30)) with (Z.of_nat i) by lia.
    rewrite Z.mod_small by lia. by rewrite Nat2Z.id.
  - apply lookup_lt_is_Some_2. pose proof (Z.mod_pos_bound (now / 30) n). unfold n in *. lia.
Qed.
End progress.

(** ** Proposals *)

Section proposals.
Context {St : Type} `{!StateStore St} `{!BlockExec St} {crypto : Crypto} `{!Codec BlockHeader}
        `{!Codec SerializableBlock} `{!Codec FinalizedCheckpoint} `{!Codec StakingContract}
        `{!Codec EpochRandomness}
        (cfg : EngineConfig) (sign : option (bytes -> bytes)).
Implicit Types e : Engine St.

Lemma if_false_andb (a b : bool) : (if a then false else b) = negb a && b.
Proof. by destruct a. Qed.

(** What a header that passes the checks satisfies. *)
Record acceptable (now_ms : u64) (h : BlockHeader) e : Prop := {
  ac_live : en_resyncing e = false;
  ac_height : bh_height h = u64_add (en_height e) 1;
  ac_parent : forall b, last (en_chain e) = Some b -> bh_parent_hash h = block_hash (fb_header b);
  ac_valid : invalid_at e (bh_height h) (block_hash h) = false;
  ac_checkpoints : trusted_validate (bh_height h) (block_hash h) (en_trusted_checkpoints e) = None
                   /\ validate_block (bh_height h) (block_hash h) (en_finalized_checkpoints e) = None;
  ac_after : forall b, last (en_chain e) = Some b -> bh_timestamp_ms (fb_header b) < bh_timestamp_ms h;
  ac_drift : bh_timestamp_ms h <= u64_add now_ms MAX_TIMESTAMP_DRIFT_MS;
  ac_epoch : bh_epoch h = bh_height h / CONSENSUS_EPOCH_LENGTH;
  ac_proposer : en_is_active e (bh_proposer h) = true;
  ac_signed : 0 < bh_height h -> length (bh_proposer_signature h) = 64%nat /\ signed_by_proposer h = true;
}.

Lemma header_acceptable_spec now h e : header_acceptable now h e = true -> acceptable now h e.
Proof.
  unfold header_acceptable. rewrite !if_false_andb, !andb_true_iff, !negb_true_iff.
  rewrite !negb_false_iff, !bool_decide_eq_false, <- !eq_None_not_Some.
  intros (H1 & H2 & H3 & H4 & H5 & H6 & H7 & H8 & H9 & H10 & H11 & H12 & H13).
  apply Z.ltb_ge in H2, H7, H9. apply Z.eqb_eq in H10.
  assert (Hh : bh_height h = u64_add (en_height e) 1) by lia.
  split; try done.
  - intros b Hb. unfold is_fork in H3. rewrite Hh, Z.eqb_refl, Hb in H3.
    apply negb_false_iff, bytes_eqb_true in H3. done.
  - intros b Hb. rewrite Hb in H8. apply Z.leb_gt in H8. lia.
  - intros Hp. rewrite (proj2 (Z.ltb_lt _ _)) in H13 by lia.
    apply andb_true_iff in H13 as [Hl Hs]. apply Nat.eqb_eq in Hl. done.
Qed.

Lemma resolve_pending_rejected h existing e :
  snd (resolve_pending h existing e) = false -> keeps e (fst (resolve_pending h existing e)).
Proof.
  unfold resolve_pending. destruct (bytes_eqb _ _); [done|]. destruct (bytes_eqb _ _).
  { intros _. cbn [fst]. destruct (check_double_sign _ _); [apply process_slashing_evidence_keeps|done]. }
  destruct (_ <? _); [|done]. by destruct (pb_already_executed existing).
Qed.

(** C12: a proposal is accepted only as the child of the node's tip: the next
    height, the tip's hash as parent, a later time that is at most thirty
    seconds ahead, the epoch of the height, agreement with both kinds of
    checkpoint, and the valid signature of an active validator over the hash.
    A proposal that is refused changes neither the chain nor the blocks held. *)
Theorem accept_block_checks now inst h ops e :
  let '(e', accepted) := accept_block cfg sign now inst h ops e in
  if accepted then acceptable now h e else keeps e e'.
Proof.
  unfold accept_block. destruct (header_acceptable now h e) eqn:Ha; cbn [negb]; [|done].
  apply header_acceptable_spec in Ha.
  destruct (List.find _ (en_chain e)) as [b|].
  { destruct (_ && _); [|done]. destruct (check_double_sign _ _); [apply process_slashing_evidence_keeps|done]. }
  destruct (fc_v2_active cfg _); [done|].
  destruct (en_pending_blocks e !! _) as [existing|]; [|done].
  pose proof (resolve_pending_rejected h existing e) as Hr.
  destruct (resolve_pending h existing e) as [e1 replace]. destruct replace; [done|]. by apply Hr.
Qed.
End proposals.
