(* ===== verification/EngineSteps.v ===== *)
(** The consensus engine as a transition system: each of its operations as a
    step, labelled with what it may do to the finalised blocks, and the
    invariant of the chain and of the blocks held that the steps keep. *)

From S2P Require Import Prelude Types Store Memory Overlay Staking Treasury Codec State Auth.
From S2P Require Import Executor Blocks Validators Mempool Intents Checkpoint.
From S2P Require Import EngineState EngineVotes EngineBlocks EngineRecovery EngineFrames EngineSafety.
Open Scope Z_scope.

(** ** Chains *)

Section chains.
Context {crypto : Crypto} `{!Codec BlockHeader} (lk : Prop).

(** One block follows another: the next height, and, where links are claimed
    ([lk]) and it carries attestations, the hash of the other as its parent.
    Blocks that were synced from a peer carry none. *)
Definition follows (a b : FinalizedBlock) : Prop :=
  bh_height (fb_header b) = bh_height (fb_header a) + 1
  /\ (lk -> fb_attestations b = [] \/ bh_parent_hash (fb_header b) = block_hash (fb_header a)).

Definition chain_ok (l : list FinalizedBlock) : Prop :=
  forall i a b, l !! i = Some a -> l !! S i = Some b -> follows a b.

Lemma chain_ok_snoc l b :
  chain_ok l -> (forall a, last l = Some a -> follows a b) -> chain_ok (l ++ [b]).
Proof.
  intros Hl Hb i x y Hx Hy. pose proof (lookup_lt_Some _ _ _ Hy) as Hlt.
  rewrite length_app in Hlt. cbn in Hlt.
  rewrite lookup_app_l in Hx by lia. destruct (decide (S i < length l)%nat) as [Hi|Hi].
  - rewrite lookup_app_l in Hy by done. by eapply Hl.
  - assert (S i = length l) as E by lia. rewrite E, list_lookup_middle in Hy by done. injection Hy as <-.
    apply Hb. rewrite last_lookup. by replace (Nat.pred (length l)) with i by lia.
Qed.

(** The header extends the tip, where links are claimed. *)
Definition on_tip (l : list FinalizedBlock) (h : BlockHeader) : Prop :=
  lk -> forall a, last l = Some a -> bh_parent_hash h = block_hash (fb_header a).

Lemma chain_ok_tail a l : chain_ok (a :: l) -> chain_ok l.
Proof. intros Hl i x y Hx Hy. exact (Hl (S i) x y Hx Hy). Qed.

Lemma chain_ok_prefix l l' : l `prefix_of` l' -> chain_ok l' -> chain_ok l.
Proof.
  intros [k ->] Hl i x y Hx Hy. apply (Hl i); rewrite lookup_app_l; [done| |done|];
    eapply lookup_lt_Some; eassumption.
Qed.

Lemma chain_heights l i k a b :
  chain_ok l -> l !! i = Some a -> l !! (i + k)%nat = Some b ->
  bh_height (fb_header b) = bh_height (fb_header a) + Z.of_nat k.
Proof.
  intros Hl Ha. revert b. induction k as [|k IH]; intros b Hb.
  - rewrite Nat.add_0_r in Hb. assert (a = b) as -> by congruence. lia.
  - replace (i + S k)%nat with (S (i + k)) in Hb by lia.
    destruct (lookup_lt_is_Some_2 l (i + k)) as [c Hc]; [pose proof (lookup_lt_Some _ _ _ Hb); lia|].
    destruct (Hl _ _ _ Hc Hb) as [-> _]. rewrite (IH c Hc). lia.
Qed.

(** Cutting a chain at a height leaves a prefix of it. *)
Lemma cut_prefix (t : u64) l :
  chain_ok l -> List.filter (fun b => bh_height (fb_header b) <=? t) l `prefix_of` l.
Proof.
  induction l as [|a l IH]; intros Hl; cbn [List.filter]; [done|].
  destruct (Z.leb_spec (bh_height (fb_header a)) t) as [Ha|Ha].
  - apply prefix_cons, IH. by eapply chain_ok_tail.
  - replace (List.filter _ l) with (@nil FinalizedBlock); [apply prefix_nil|].
    symmetry. destruct (List.filter _ l) as [|b k] eqn:E; [done|].
    assert (Hb : In b (List.filter (fun b => bh_height (fb_header b) <=? t) l)) by (rewrite E; by left).
    apply filter_In in Hb as [Hb%list_elem_of_In Hle]. apply list_elem_of_lookup in Hb as [i Hi].
    pose proof (chain_heights (a :: l) 0 (S i) a b Hl eq_refl Hi). lia.
Qed.
End chains.

(** The heights alone. *)
Definition contiguous (l : list FinalizedBlock) : Prop :=
  forall i a b, l !! i = Some a -> l !! S i = Some b ->
    bh_height (fb_header b) = bh_height (fb_header a) + 1.

Lemma chain_ok_contiguous {crypto : Crypto} `{!Codec BlockHeader} (lk : Prop) l : chain_ok lk l -> contiguous l.
Proof. intros Hl i a b Ha Hb. by destruct (Hl i a b Ha Hb). Qed.

(** What is claimed of a chain may be less. *)
Lemma chain_ok_weaken {crypto : Crypto} `{!Codec BlockHeader} (lk lk' : Prop) l :
  (lk' -> lk) -> chain_ok lk l -> chain_ok lk' l.
Proof. intros H Hl i a b Ha Hb. destruct (Hl i a b Ha Hb) as [? Hk]. split; [done|auto]. Qed.

Section steps.
Context {St : Type} `{!StateStore St} `{!BlockExec St} {crypto : Crypto} `{!Codec BlockHeader}
        `{!Codec SerializableBlock} `{!Codec FinalizedCheckpoint} `{!Codec StakingContract}
        `{!Codec EpochRandomness} `{!Codec Account}
        `{!Codec (list UserOperation)} `{!Codec (list ExecutionReceipt)}
        (cfg : EngineConfig) (sign : option (bytes -> bytes)) (lk : Prop).
Implicit Types e : Engine St.

(** ** The invariant *)

Record engine_inv e : Prop := {
  inv_heights : Forall (fun b => 0 <= bh_height (fb_header b)) (en_chain e);
  inv_chain : chain_ok lk (en_chain e);
  (** a pending block is the child of the tip *)
  inv_pending : forall h pb, en_pending_blocks e !! h = Some pb ->
    h = en_height e + 1 /\ bh_height (pb_header pb) = h /\ on_tip lk (en_chain e) (pb_header pb);
  (** candidates are filed under their height and hash, those of the next
      height are children of the tip, and, where links are claimed, none are
      higher *)
  inv_keyed : candidates_keyed e;
  inv_candidates : forall h m hash pb, en_v2_blocks e !! h = Some m -> m !! hash = Some pb ->
    (lk -> h <= en_height e + 1) /\ (h = en_height e + 1 -> on_tip lk (en_chain e) (pb_header pb));
}.

Lemma inv_range e : engine_inv e -> 0 <= en_height e.
Proof.
  intros Hi. unfold en_height. destruct (last (en_chain e)) as [b|] eqn:E; [|done].
  apply last_Some in E as [l E]. pose proof (inv_heights _ Hi) as Hh. rewrite E in Hh.
  by apply Forall_app in Hh as [_ Hh%Forall_inv].
Qed.

Lemma inv_keeps e e' : engine_inv e -> keeps e e' -> engine_inv e'.
Proof.
  intros [HR HC HP HK HV] [Hc [Hp Hv]].
  assert (Hh : en_height e' = en_height e) by (unfold en_height; by rewrite Hc).
  split; rewrite ?Hh, ?Hc; try done.
  - intros h pb Hpb. apply HP. by eapply lookup_weaken.
  - intros h m hash pb Hm Hpb. destruct (Hv h m Hm) as (m0 & Hm0 & Hs).
    apply (HK h m0); [done|]. by eapply lookup_weaken.
  - intros h m hash pb Hm Hpb. destruct (Hv h m Hm) as (m0 & Hm0 & Hs).
    apply (HV h m0 hash); [done|]. by eapply lookup_weaken.
Qed.

Lemma height_snoc e (l : list FinalizedBlock) b :
  en_chain e = l ++ [b] -> en_height e = bh_height (fb_header b).
Proof. unfold en_height. intros ->. by rewrite last_snoc. Qed.

Lemma last_height e a : last (en_chain e) = Some a -> en_height e = bh_height (fb_header a).
Proof. unfold en_height. by intros ->. Qed.

(** A block that joins on top of the tip, or starts an empty chain, when
    nothing stays pending. *)
Lemma inv_append e e' b :
  engine_inv e -> en_chain e' = en_chain e ++ [b] ->
  bh_height (fb_header b) = en_height e + 1
    \/ (en_chain e = [] /\ en_height e + 1 <= bh_height (fb_header b)) ->
  fb_attestations b = [] \/ on_tip lk (en_chain e) (fb_header b) ->
  en_pending_blocks e' = ∅ -> holds_fewer e e' -> engine_inv e'.
Proof.
  intros Hi Hc Hb Ha Hnone [_ Hv]. pose proof (inv_range _ Hi) as HR0. destruct Hi as [HR HC HP HK HV].
  pose proof (height_snoc e' _ _ Hc) as Hh. split.
  - rewrite Hc. apply Forall_app. split; [done|]. apply Forall_singleton. destruct Hb as [Hb|[_ Hb]]; lia.
  - rewrite Hc. apply chain_ok_snoc; [done|]. intros a Hl. split.
    + destruct Hb as [Hb|[Hb _]]; [by rewrite Hb, (last_height e a)|by rewrite Hb in Hl].
    + intros L. destruct Ha as [?|Ha]; [by left|right; by apply Ha].
  - intros h pb Hpb. by rewrite Hnone, lookup_empty in Hpb.
  - intros h m hash pb Hm Hpb. destruct (Hv h m Hm) as (m0 & Hm0 & Hs).
    apply (HK h m0); [done|]. by eapply lookup_weaken.
  - intros h m hash pb Hm Hpb. destruct (Hv h m Hm) as (m0 & Hm0 & Hs).
    destruct (HV h m0 hash pb Hm0) as [Hle _]; [by eapply lookup_weaken|].
    split; [intros L; specialize (Hle L)|intros E L; specialize (Hle L)]; lia.
Qed.

(** ** Finalisation *)

Lemma inv_only_pending e h pb :
  engine_inv e -> en_pending_blocks e !! h = Some pb -> delete h (en_pending_blocks e) = ∅.
Proof.
  intros Hi Hp. apply map_empty. intros h'. apply lookup_delete_None.
  destruct (decide (h = h')) as [|Hne]; [by left|right].
  destruct (en_pending_blocks e !! h') as [pb'|] eqn:E; [|done].
  destruct (inv_pending _ Hi _ _ Hp) as [-> _]. destruct (inv_pending _ Hi _ _ E) as [-> _]. done.
Qed.

Lemma pending_taken_keeps h e : keeps e (pending_taken h e).
Proof. split; [done|]. split; [apply delete_subseteq|]. intros h' m Hm. by exists m. Qed.

Lemma inv_finalize_pending now h e :
  engine_inv e ->
  let e' := finalize_pending_block cfg sign now h e in
  engine_inv e' /\ en_chain e `prefix_of` en_chain e'.
Proof.
  intros Hi e'. destruct (finalize_pending_cases cfg sign now h e) as [[Hc|(pb & Hp & r & Hc)] Hf].
  - split; [|unfold e'; by rewrite Hc]. apply (inv_keeps (pending_taken h e)).
    + apply (inv_keeps e); [done|apply pending_taken_keeps].
    + split; [exact Hc|exact Hf].
  - split; [|unfold e'; rewrite Hc; by apply prefix_app_r].
    destruct (inv_pending _ Hi _ _ Hp) as (Hh & Hb & Ht).
    eapply (inv_append e); [done|exact Hc|left; cbn; lia|by right| |].
    + pose proof (hf_pending _ _ Hf) as Hs. cbn in Hs. rewrite (inv_only_pending e h pb) in Hs by done.
      apply map_empty. intros i. destruct (en_pending_blocks _ !! i) eqn:E; [|done].
      by eapply lookup_weaken in E; [|exact Hs].
    + etrans; [apply (pending_taken_keeps h)|exact Hf].
Qed.

(** The candidates above a height. *)
Lemma filter_held e (h : u64) (v : gmap Z (gmap bytes Hash)) :
  keeps e (set_v2_votes v (set_v2_blocks (filter (fun kv => h < fst kv) (en_v2_blocks e)) e)).
Proof.
  split; [done|]. split; [done|]. intros h' m Hm. cbn in Hm.
  apply map_lookup_filter_Some in Hm as [Hm _]. by exists m.
Qed.

Lemma inv_v2_finalize now h hash e :
  engine_inv e -> h = en_height e + 1 ->
  let e' := v2_finalize cfg sign now h hash e in
  engine_inv e' /\ en_chain e `prefix_of` en_chain e'.
Proof.
  intros Hi Hh e'. unfold e', v2_finalize. destruct (en_v2_blocks e !! h) as [m|] eqn:Em; [|done].
  destruct (m !! hash) as [pb|] eqn:Eb; [|done]. cbv zeta.
  set (e1 := set_pending_attestations _ _).
  assert (H1 : engine_inv e1).
  { destruct (inv_candidates _ Hi _ _ _ _ Em Eb) as [_ Ht].
    destruct (inv_keyed _ Hi _ _ _ _ Em Eb) as [Eh _].
    assert (Hsub : forall h' m' hash' pb', en_v2_blocks e1 !! h' = Some m' -> m' !! hash' = Some pb' ->
      exists m0, en_v2_blocks e !! h' = Some m0 /\ m0 !! hash' = Some pb').
    { intros h' m' hash' pb' Hm' Hb'. unfold e1 in Hm'. cbn in Hm'. rewrite lookup_insert in Hm'.
      case_decide as E; [|by exists m']. subst h'. injection Hm' as <-. exists m. split; [done|].
      by apply lookup_delete_Some in Hb' as [_ ?]. }
    split; [apply Hi|apply Hi| | |].
    - intros h' pb' Hp'. unfold e1 in Hp'. cbn in Hp'. rewrite lookup_insert in Hp'.
      case_decide as E; [|by apply (inv_pending _ Hi)]. subst h'. injection Hp' as <-.
      split; [exact Hh|]. split; [exact Eh|exact (Ht Hh)].
    - intros h' m' hash' pb' Hm' Hb'. destruct (Hsub _ _ _ _ Hm' Hb') as (m0 & ? & ?).
      by apply (inv_keyed _ Hi h' m0).
    - intros h' m' hash' pb' Hm' Hb'. destruct (Hsub _ _ _ _ Hm' Hb') as (m0 & ? & ?).
      by apply (inv_candidates _ Hi h' m0 hash'). }
  destruct (inv_finalize_pending now h e1 H1) as [H2 Hp].
  split; [|exact Hp]. eapply inv_keeps; [exact H2|]. apply filter_held.
Qed.

(** ** Operations *)

(** The operation keeps the invariant and every finalised block. *)
Definition good e e' : Prop :=
  engine_inv e -> engine_inv e' /\ en_chain e `prefix_of` en_chain e'.

#[local] Instance good_preorder : PreOrder good.
Proof.
  split.
  - by intros e.
  - intros e1 e2 e3 H1 H2 Hi. destruct (H1 Hi) as [Hi2 P1]. destruct (H2 Hi2) as [Hi3 P2].
    split; [done|by etrans].
Qed.

Lemma keeps_good e e' : keeps e e' -> good e e'.
Proof. intros Hk Hi. split; [by eapply inv_keeps|]. by rewrite (proj1 Hk). Qed.

Lemma next_exact e : engine_inv e -> en_height e < u64_max -> u64_add (en_height e) 1 = en_height e + 1.
Proof. intros Hi Hm. pose proof (inv_range _ Hi). apply u64_add_exact. lia. Qed.

Lemma reevaluate_good now h e : en_height e < u64_max -> good e (v2_reevaluate cfg sign now h e).
Proof.
  intros Hm Hi. unfold v2_reevaluate. rewrite (next_exact e) by done.
  destruct (h =? en_height e + 1) eqn:Eh; [|done]. apply Z.eqb_eq in Eh. cbn [negb].
  case_bool_decide; [done|]. destruct (winner_of e h _) as [w|]; [by apply inv_v2_finalize|].
  destruct (v2_leader e h _) as [l|]; [|done]. unfold v2_follow.
  destruct (negb _); [done|]. case_bool_decide; [done|]. cbv zeta.
  set (e1 := set_v2_revotes _ _).
  assert (K1 : keeps e e1) by by apply keeps_same.
  destruct (has_quorum _ _).
  - exact (inv_v2_finalize now h l e1 (inv_keeps _ _ Hi K1) Eh).
  - exact (keeps_good _ _ K1 Hi).
Qed.

(** A new candidate that is a child of the tip. *)
Lemma insert_candidate_inv e h hash pb m :
  engine_inv e -> h = en_height e + 1 -> bh_height (pb_header pb) = h -> block_hash (pb_header pb) = hash ->
  on_tip lk (en_chain e) (pb_header pb) ->
  (forall x, m !! x = (default ∅ (en_v2_blocks e !! h) : gmap bytes PendingBlock) !! x
             \/ (x = hash /\ m !! x = Some pb)) ->
  engine_inv (set_v2_blocks (<[h := m]> (en_v2_blocks e)) e).
Proof.
  intros Hi Hh Eh Ehash Ht Hm.
  assert (Hsub : forall h' m' hash' pb', <[h := m]> (en_v2_blocks e) !! h' = Some m' -> m' !! hash' = Some pb' ->
    (exists m0, en_v2_blocks e !! h' = Some m0 /\ m0 !! hash' = Some pb')
    \/ (h' = h /\ hash' = hash /\ pb' = pb)).
  { intros h' m' hash' pb' Hm' Hb'. rewrite lookup_insert in Hm'. case_decide as E; [|left; by exists m'].
    subst h'. injection Hm' as <-. destruct (Hm hash') as [E|[-> E]].
    - left. rewrite E in Hb'. destruct (en_v2_blocks e !! h) as [m0|]; [by exists m0|done].
    - right. rewrite E in Hb'. injection Hb' as <-. done. }
  split; [apply Hi|apply Hi|apply Hi| |].
  - intros h' m' hash' pb' Hm' Hb'. destruct (Hsub _ _ _ _ Hm' Hb') as [(m0 & ? & ?)|(-> & -> & ->)]; [|done].
    by apply (inv_keyed _ Hi h' m0).
  - intros h' m' hash' pb' Hm' Hb'. destruct (Hsub _ _ _ _ Hm' Hb') as [(m0 & ? & ?)|(-> & -> & ->)].
    + by apply (inv_candidates _ Hi h' m0 hash').
    + split; [change (en_height (set_v2_blocks _ e)) with (en_height e); lia|done].
Qed.

Lemma record_block_good now inst h ops e :
  en_height e < u64_max -> bh_height h = en_height e + 1 -> on_tip lk (en_chain e) h ->
  good e (v2_record_block cfg sign now inst h ops e).
Proof.
  intros Hm Hh Ht Hi. unfold v2_record_block. set (e1 := v2_insert_block inst h ops e).
  assert (H1 : engine_inv e1).
  { unfold e1, v2_insert_block. cbv zeta. destruct (_ !! block_hash h) as [pb|] eqn:E.
    - destruct (en_v2_blocks e !! bh_height h) as [m|] eqn:Em; [|cbn [default] in E; by rewrite lookup_empty in E].
      cbn [default]. apply (inv_keeps e); [done|]. split; [done|]. split; [done|].
      intros h' m' Hm'. cbn in Hm'. rewrite insert_id in Hm' by done. by exists m'.
    - eapply (insert_candidate_inv e (bh_height h) (block_hash h)
        (mkPendingBlock h ops inst false None None 0)); try done.
      intros x. destruct (decide (x = block_hash h)) as [->|Hne].
      + right. split; [done|]. by rewrite lookup_insert_eq.
      + left. by rewrite lookup_insert_ne by congruence. }
  exact (reevaluate_good now (bh_height h) e1 Hm H1).
Qed.

(** Filing a pending block that is a child of the tip. *)
Lemma insert_pending_inv e h pb :
  engine_inv e -> h = en_height e + 1 -> bh_height (pb_header pb) = h -> on_tip lk (en_chain e) (pb_header pb) ->
  engine_inv (set_pending_blocks (<[h := pb]> (en_pending_blocks e)) e).
Proof.
  intros Hi Hh Eh Ht. split; [apply Hi|apply Hi| |apply Hi|apply Hi].
  intros h' pb' Hp'. cbn in Hp'. rewrite lookup_insert in Hp'. case_decide as E.
  - injection Hp' as <-. subst h'. done.
  - by apply (inv_pending _ Hi).
Qed.

Lemma accept_attestation_good now inst id h hash e :
  fc_v2_active cfg h = false \/ en_height e < u64_max ->
  good e (fst (accept_attestation cfg sign now inst id h hash e)).
Proof.
  intros Hm. unfold accept_attestation. destruct (negb (en_is_active e id)); [done|].
  destruct (fc_v2_active cfg h).
  { destruct Hm as [Hm|Hm]; [done|]. destruct (_ || _); [done|]. cbn [fst]. unfold v2_record_vote.
    etrans; [|exact (reevaluate_good now h (cast_vote id h hash e) Hm)]. apply keeps_good, cast_vote_keeps. }
  destruct (en_pending_blocks e !! h) as [pb|] eqn:Ep; [|apply keeps_good; by apply keeps_same].
  destruct (negb _).
  { intros Hi. destruct (inv_pending _ Hi _ _ Ep) as (Hh & Eh & Ht). split; [|done].
    by apply (insert_pending_inv e h (mkPendingBlock _ _ _ _ _ _ _)). }
  destruct (existsb _ _); [apply keeps_good; by apply keeps_same|]. cbv zeta.
  set (e1 := set_pending_attestations _ _).
  assert (K1 : good e e1) by (apply keeps_good; by apply keeps_same).
  etrans; [exact K1|]. cbn [fst]. destruct (has_quorum _ _); [|done].
  intros Hi. by apply inv_finalize_pending.
Qed.

Lemma insert_pending_good now inst h ops e :
  fc_v2_active cfg (bh_height h) = false -> bh_height h = en_height e + 1 -> on_tip lk (en_chain e) h ->
  good e (insert_pending cfg sign now inst h ops e).
Proof.
  intros Hv Hh Ht. unfold insert_pending. cbv zeta. set (e1 := set_pending_blocks _ _).
  set (matching := List.filter _ _). set (e2 := set_early_attestations _ e1).
  assert (G2 : good e e2).
  { intros Hi. split; [|done]. apply (inv_keeps e1); [|by apply keeps_same].
    by apply (insert_pending_inv e (bh_height h) (mkPendingBlock h ops inst false None None 0)). }
  etrans; [exact G2|].
  assert (Hall : Forall (fun x => snd (fst (fst x)) = bh_height h) matching).
  { apply Forall_forall. intros x Hx. apply list_elem_of_In, filter_In in Hx as [_ Hx].
    apply andb_true_iff in Hx as [Hx _]. by apply Z.eqb_eq. }
  clearbody matching e2. clear G2 e1. revert e2.
  induction Hall as [|x l Hx Hl IH]; intros e2; cbn [fold_left]; [done|].
  etrans; [|apply IH]. apply accept_attestation_good. left. by rewrite Hx.
Qed.

Lemma accept_block_good now inst h ops e :
  en_height e < u64_max -> good e (fst (accept_block cfg sign now inst h ops e)).
Proof.
  intros Hm Hi. revert Hi. change (good e (fst (accept_block cfg sign now inst h ops e))).
  unfold accept_block. destruct (header_acceptable now h e) eqn:Ha; cbn [negb]; [|done].
  apply header_acceptable_spec in Ha. intros Hi. pose proof (ac_height _ _ _ Ha) as Hh.
  rewrite (next_exact e) in Hh by done. assert (Ht : on_tip lk (en_chain e) h) by (intros _; exact (ac_parent _ _ _ Ha)).
  revert Hi. destruct (List.find _ (en_chain e)) as [b|].
  { apply keeps_good. destruct (_ && _); [|done].
    destruct (check_double_sign _ _); [apply process_slashing_evidence_keeps|done]. }
  destruct (fc_v2_active cfg _) eqn:Ev; [by apply record_block_good|].
  destruct (en_pending_blocks e !! _) as [existing|]; [|by apply insert_pending_good].
  pose proof (resolve_pending_rejected h existing e) as Hr.
  unfold resolve_pending in *. destruct (bytes_eqb _ _); [done|].
  destruct (bytes_eqb _ _); [by apply keeps_good, Hr|]. destruct (_ <? _); [|done].
  destruct (pb_already_executed existing); [done|]. cbn [fst].
  set (e1 := set_pending_attestations _ _).
  assert (K1 : keeps e e1).
  { split; [done|]. split; [apply delete_subseteq|]. intros h' m Hm'. by exists m. }
  change (good e (insert_pending cfg sign now inst h ops e1)).
  etrans; [by apply keeps_good|]. by apply insert_pending_good.
Qed.

(** *** Production *)

Lemma gather_keeps e : keeps e (fst (gather_operations cfg e)).
Proof.
  unfold gather_operations. destruct (mempool_drain _ _) as [m ops].
  cbn [en_height en_chain set_mempool set_pending_slashing].
  destruct (intent_operations _ _ _ _) as [p ops']. by apply keeps_same.
Qed.

Lemma next_height_tip e : next_block_height e = u64_add (en_height e) 1.
Proof. unfold next_block_height, en_height. by destruct (last (en_chain e)). Qed.

Lemma build_header_tip ops r e :
  bh_height (build_header cfg sign ops r e) = u64_add (en_height e) 1
  /\ on_tip lk (en_chain e) (build_header cfg sign ops r e).
Proof.
  unfold build_header, on_tip, en_height, sign_header.
  destruct (last (en_chain e)) as [b|]; destruct sign; cbn; (split; [done|]); by intros _ a [= <-].
Qed.

Lemma finalize_single_good now h ops r revert e :
  en_pending_blocks e = ∅ -> bh_height h = en_height e + 1 -> on_tip lk (en_chain e) h ->
  good e (finalize_single cfg sign now h ops r revert e).
Proof.
  intros Hp Hh Ht Hi. unfold finalize_single. cbv zeta. set (b := mkFinalizedBlock _ _ _ _).
  set (e1 := push_block cfg (bh_height h) b revert e).
  assert (H1 : engine_inv e1).
  { apply (inv_append e e1 b); [done|done|by left|by right|exact Hp|apply push_block_held]. }
  set (e2 := set_mempool _ e1). assert (K2 : keeps e1 e2) by by apply keeps_same.
  pose proof (try_epoch_transition_keeps cfg sign now (bh_height h) e2) as K3.
  assert (K : keeps e1 (try_epoch_transition cfg sign now (bh_height h) e2)) by (by etrans).
  split; [by apply (inv_keeps e1)|]. rewrite (proj1 K). by apply prefix_app_r.
Qed.

Lemma propose_v2_good now inst h pb e :
  en_height e < u64_max -> bh_height h = en_height e + 1 -> on_tip lk (en_chain e) h -> pb_header pb = h ->
  good e (propose_v2 cfg sign now inst h pb e).
Proof.
  intros Hm Hh Ht Hpb Hi. unfold propose_v2. cbv zeta.
  set (e1 := set_v2_blocks _ e). set (e4 := set_v2_revotes _ _).
  assert (H1 : engine_inv e1).
  { apply (insert_candidate_inv e (bh_height h) (block_hash h) pb); rewrite ?Hpb; try done.
    intros x. destruct (decide (x = block_hash h)) as [->|Hne].
    - right. split; [done|]. by rewrite lookup_insert_eq.
    - left. by rewrite lookup_insert_ne by congruence. }
  assert (K4 : keeps e1 e4) by by apply keeps_same.
  exact (reevaluate_good now (bh_height h) e4 Hm (inv_keeps _ _ H1 K4)).
Qed.

Lemma propose_v1_good now inst h pb e :
  en_height e < u64_max -> bh_height h = en_height e + 1 -> on_tip lk (en_chain e) h -> pb_header pb = h ->
  good e (propose_v1 cfg sign now inst h pb e).
Proof.
  intros Hm Hh Ht Hpb Hi. unfold propose_v1. cbv zeta.
  set (e1 := set_pending_blocks _ e). set (e2 := set_store _ e1).
  assert (H1 : engine_inv e1) by (apply insert_pending_inv; rewrite ?Hpb; done).
  assert (K2 : keeps e1 e2) by by apply keeps_same.
  exact (accept_attestation_good now inst _ _ _ e2 (or_intror Hm) (inv_keeps _ _ H1 K2)).
Qed.

(** A node that is the only validator has no block waiting for votes. *)
Definition alone_without_pending e : Prop :=
  (vs_active_count (en_validator_set e) <= 1)%nat -> en_pending_blocks e = ∅.

Lemma gather_validators e :
  en_validator_set (fst (gather_operations cfg (restore_store_to_finalized_tip e))) = en_validator_set e.
Proof.
  assert (E1 : en_validator_set (restore_store_to_finalized_tip e) = en_validator_set e).
  { unfold restore_store_to_finalized_tip. destruct (last _); [|done]. destruct (bytes_eqb _ _); [done|].
    destruct (bytes_eqb _ _); [done|]. destruct (apply_durable_reverts_above _ _) as [s [|]]; [|done].
    cbn [andb]. by destruct (bytes_eqb _ _). }
  rewrite <- E1. unfold gather_operations. destruct (mempool_drain _ _) as [m ops].
  by destruct (intent_operations _ _ _ _) as [p ops'].
Qed.

Lemma produce_block_good now inst e :
  en_height e < u64_max -> alone_without_pending e ->
  good e (fst (fst (produce_block cfg sign now inst e))).
Proof.
  intros Hm Halone. unfold produce_block. set (e1 := restore_store_to_finalized_tip e).
  assert (K1 : keeps e e1) by apply restore_keeps.
  pose proof (gather_keeps e1) as K2. pose proof (gather_validators e) as Hvs.
  destruct (gather_operations cfg e1) as [e2 ops] eqn:E2. fold e1 in Hvs. rewrite E2 in Hvs. cbn [fst] in K2, Hvs.
  destruct (bx_produce (en_store e2) ops (next_block_height e2)) as [s [r revert]].
  set (e3 := set_store s e2). set (h := build_header cfg sign ops r e3).
  assert (K3 : keeps e e3) by (etrans; [exact K1|]; etrans; [exact K2|]; by apply keeps_same).
  intros Hi. pose proof (inv_keeps _ _ Hi K3) as H3. pose proof (keeps_height _ _ K3) as Eh.
  destruct (build_header_tip ops r e3) as [Hh Ht]. fold h in Hh, Ht.
  rewrite (next_exact e3) in Hh by (done || lia).
  assert (Hg : good e3 (if (vs_active_count (en_validator_set e3) <=? 1)%nat
    then finalize_single cfg sign now h ops r revert e3
    else if fc_v2_active cfg (next_block_height e2)
    then propose_v2 cfg sign now inst h (mkPendingBlock h ops inst true (Some r) (Some revert) 0) e3
    else propose_v1 cfg sign now inst h (mkPendingBlock h ops inst true (Some r) (Some revert) 0) e3)).
  { destruct (vs_active_count _ <=? 1)%nat eqn:En.
    - apply finalize_single_good; [|done|done]. apply Nat.leb_le in En.
      assert (Hp : en_pending_blocks e = ∅) by (apply Halone; rewrite <- Hvs; exact En).
      pose proof (hf_pending _ _ (proj2 K3)) as Hs. rewrite Hp in Hs.
      apply map_empty. intros i. destruct (en_pending_blocks e3 !! i) eqn:E; [|done].
      by eapply lookup_weaken in E; [|exact Hs].
    - destruct (fc_v2_active _ _); [apply propose_v2_good|apply propose_v1_good]; (done || lia). }
  destruct (Hg H3) as [H4 P4]. cbn [fst]. split; [exact H4|]. by rewrite <- (proj1 K3).
Qed.

(** *** Timeouts *)

Lemma drop_pending_keeps h e : keeps e (drop_pending h e).
Proof. split; [done|]. split; [apply delete_subseteq|]. intros h' m Hm. by exists m. Qed.

Lemma timed_out_block_good now h e : good e (fst (timed_out_block cfg sign now h e)).
Proof.
  unfold timed_out_block. destruct (negb _); [done|].
  destruct (match _ with Some _ => _ | None => _ end).
  { apply keeps_good. etrans; [apply (drop_pending_keeps h)|]. by apply keeps_same. }
  cbv zeta. set (e1 := set_force_finalizes _ e).
  assert (K1 : keeps e e1) by by apply keeps_same. destruct (_ && _ && _).
  - apply keeps_good. etrans; [exact K1|]. cbn [fst]. destruct (_ <? _); [apply drop_pending_keeps|done].
  - etrans; [apply keeps_good, K1|]. destruct (_ <? _); [apply keeps_good, drop_pending_keeps|].
    intros Hi. by apply inv_finalize_pending.
Qed.

Lemma timed_out_loop_good now stale count e : good e (fst (timed_out_loop cfg sign now stale count e)).
Proof.
  revert count e. induction stale as [|h stale IH]; intros count e; cbn [timed_out_loop]; [done|].
  pose proof (timed_out_block_good now h e) as Hg.
  destruct (timed_out_block cfg sign now h e) as [e1 fin]. etrans; [exact Hg|]. apply IH.
Qed.

Lemma timeouts_good now inst timeout e : good e (fst (finalize_timed_out_blocks cfg sign now inst timeout e)).
Proof.
  unfold finalize_timed_out_blocks. set (e1 := set_pending_blocks _ e).
  assert (K1 : keeps e e1).
  { split; [done|]. split; [apply map_filter_subseteq|]. intros h m Hm. by exists m. }
  etrans; [apply keeps_good, K1|].
  pose proof (timed_out_loop_good now (map fst (List.filter (fun kv => timeout <? inst - pb_proposed_at (snd kv))
    (map_to_list (en_pending_blocks e1)))) 0 e1) as Hg.
  destruct (timed_out_loop _ _ _ _ _ _) as [e2 count]. etrans; [exact Hg|].
  apply keeps_good. by apply keeps_same.
Qed.

(** *** Synchronisation *)

Lemma clear_stale_keeps h e : keeps e (clear_stale_pending h e).
Proof.
  split; [done|]. split; [apply map_filter_subseteq|]. intros h' m Hm. cbn in Hm.
  apply map_lookup_filter_Some in Hm as [Hm _]. by exists m.
Qed.

Lemma replay_cases now h ops receipts e :
  let e' := fst (replay_synced_block cfg sign now h ops receipts e) in
  keeps e e'
  \/ (forall a, last (en_chain e) = Some a -> bh_height h = u64_add (bh_height (fb_header a)) 1)
     /\ holds_fewer e e'
     /\ exists r, en_chain e' = en_chain e ++ [mkFinalizedBlock h r [] ops].
Proof.
  unfold replay_synced_block. destruct (match last (en_chain e) with Some _ => _ | None => _ end) eqn:El; [by left|].
  destruct (negb (_ =? _)); [by left|]. destruct (_ && _); [by left|]. cbv zeta.
  set (e1 := restore_store_to_finalized_tip e). assert (K1 : keeps e e1) by apply restore_keeps.
  destruct (bx_checked _ _ _ _) as [s [[r revert]|]].
  - right. cbn [fst]. set (e2 := set_sync_reverts 0 (set_store s e1)). set (b := mkFinalizedBlock _ _ _ _).
    set (e3 := push_block cfg (bh_height h) b revert e2).
    assert (K2 : keeps e e2) by (etrans; [exact K1|]; by apply keeps_same).
    pose proof (try_epoch_transition_keeps cfg sign now (bh_height h) e3) as K3. split; [|split].
    + intros a Ha. rewrite Ha in El. apply orb_false_iff in El as [_ El].
      apply negb_false_iff, Z.eqb_eq in El. exact El.
    + etrans; [apply (proj2 K2)|]. etrans; [apply (push_block_held cfg (bh_height h) b revert)|]. apply K3.
    + eexists. rewrite (proj1 K3). unfold e3. rewrite push_block_chain, (proj1 K2). done.
  - left. etrans; [exact K1|]. destruct (_ && _); by apply keeps_same.
Qed.

(** ** Once votes decide *)

(** A longer chain is higher. *)
Lemma prefix_height e e' :
  engine_inv e' -> en_chain e `prefix_of` en_chain e' -> en_height e <= en_height e'.
Proof.
  intros Hi [l Hl]. destruct (last (en_chain e)) as [a|] eqn:Ea.
  2: { unfold en_height at 1. rewrite Ea. by apply inv_range. }
  rewrite (last_height e a Ea). destruct (last (en_chain e')) as [b|] eqn:Eb.
  2: { apply last_None in Eb. rewrite Eb in Hl. symmetry in Hl. apply app_eq_nil in Hl as [Hl _]. by rewrite Hl in Ea. }
  rewrite (last_height e' b Eb). rewrite last_lookup in Ea, Eb.
  pose proof (lookup_lt_Some _ _ _ Ea). pose proof (f_equal length Hl) as Hlen. rewrite length_app in Hlen.
  rewrite (chain_heights lk (en_chain e') (Nat.pred (length (en_chain e))) (length l) a b); [lia|apply Hi| |].
  - rewrite Hl. by rewrite lookup_app_l by lia.
  - rewrite <- Eb. f_equal. lia.
Qed.
(** The invariant of the engine, no block that waits for attestations of the
    first fork choice rule, and the next height is decided by votes. *)
Record settled e : Prop := {
  se_inv : engine_inv e;
  se_none : en_pending_blocks e = ∅;
  se_votes : ec_fork_choice_v2_height cfg <= en_height e + 1;
}.

(** What stays so, and only adds finalised blocks. *)
Definition fine e e' : Prop := settled e -> settled e' /\ en_chain e `prefix_of` en_chain e'.

#[export] Instance fine_preorder : PreOrder fine.
Proof.
  split.
  - by intros e.
  - intros e1 e2 e3 H1 H2 Hs. destruct (H1 Hs) as [Hs2 P1]. destruct (H2 Hs2) as [Hs3 P2].
    split; [done|by etrans].
Qed.

(** A good operation that files no pending block is fine. *)
Lemma good_fine e e' : good e e' -> (settled e -> en_pending_blocks e' = ∅) -> fine e e'.
Proof.
  intros Hg Hn Hs. destruct (Hg (se_inv _ Hs)) as [Hi Hp]. split; [|done].
  pose proof (prefix_height e e' Hi Hp). pose proof (se_votes _ Hs). split; [done|by apply Hn|lia].
Qed.

Lemma none_fewer e e' : en_pending_blocks e = ∅ -> holds_fewer e e' -> en_pending_blocks e' = ∅.
Proof.
  intros Hn [Hs _]. rewrite Hn in Hs. apply map_empty. intros i.
  destruct (en_pending_blocks e' !! i) eqn:E; [|done]. by eapply lookup_weaken in E; [|exact Hs].
Qed.

Lemma keeps_fine e e' : keeps e e' -> fine e e'.
Proof.
  intros Hk. apply good_fine; [by apply keeps_good|]. intros Hs. eapply none_fewer; [apply Hs|apply Hk].
Qed.

Lemma v2_finalize_none now h hash e :
  en_pending_blocks e = ∅ -> en_pending_blocks (v2_finalize cfg sign now h hash e) = ∅.
Proof.
  intros Hn. unfold v2_finalize. destruct (en_v2_blocks e !! h) as [m|]; [|done].
  destruct (m !! hash) as [pb|]; [|done]. cbv zeta. set (e1 := set_pending_attestations _ _).
  destruct (finalize_pending_cases cfg sign now h e1) as [_ Hf].
  change (en_pending_blocks (finalize_pending_block cfg sign now h e1) = ∅).
  eapply none_fewer; [|exact Hf]. unfold e1. cbn. rewrite Hn. by rewrite delete_insert_id.
Qed.

Lemma reevaluate_none now h e :
  en_pending_blocks e = ∅ -> en_pending_blocks (v2_reevaluate cfg sign now h e) = ∅.
Proof.
  intros Hn. unfold v2_reevaluate. destruct (negb _); [done|]. case_bool_decide; [done|].
  destruct (winner_of e h _) as [w|]; [by apply v2_finalize_none|].
  destruct (v2_leader e h _) as [l|]; [|done]. unfold v2_follow. destruct (negb _); [done|].
  case_bool_decide; [done|]. cbv zeta. destruct (has_quorum _ _); [by apply v2_finalize_none|done].
Qed.

(** ** The engine's operations *)

Lemma accept_attestation_fine now inst id h hash e :
  en_height e < u64_max -> fine e (fst (accept_attestation cfg sign now inst id h hash e)).
Proof.
  intros Hm. apply good_fine; [apply accept_attestation_good; by right|]. intros Hs.
  unfold accept_attestation. destruct (negb _); [apply Hs|]. destruct (fc_v2_active cfg h).
  - destruct (_ || _); [apply Hs|]. cbn [fst]. apply reevaluate_none. apply Hs.
  - rewrite (se_none _ Hs), lookup_empty. apply Hs.
Qed.

Lemma accept_block_fine now inst h ops e :
  en_height e < u64_max -> fine e (fst (accept_block cfg sign now inst h ops e)).
Proof.
  intros Hm. apply good_fine; [by apply accept_block_good|]. intros Hs. unfold accept_block.
  destruct (header_acceptable now h e) eqn:Ha; cbn [negb]; [|apply Hs].
  apply header_acceptable_spec in Ha. pose proof (ac_height _ _ _ Ha) as Hh.
  rewrite (next_exact e) in Hh by (apply Hs || done).
  destruct (List.find _ (en_chain e)) as [b|].
  { destruct (_ && _); [|apply Hs]. destruct (check_double_sign _ _); [|apply Hs]. cbn [fst].
    eapply none_fewer; [apply Hs|apply process_slashing_evidence_keeps]. }
  assert (fc_v2_active cfg (bh_height h) = true) as ->.
  { unfold fc_v2_active. pose proof (se_votes _ Hs). apply Z.leb_le. lia. }
  cbn [fst]. apply reevaluate_none. apply Hs.
Qed.

Lemma settled_alone e : settled e -> alone_without_pending e.
Proof. intros Hs _. apply Hs. Qed.

Lemma produce_none now inst e :
  settled e -> en_height e < u64_max ->
  en_pending_blocks (fst (fst (produce_block cfg sign now inst e))) = ∅.
Proof.
  intros Hs Hm. unfold produce_block.
  assert (K1 : keeps e (restore_store_to_finalized_tip e)) by apply restore_keeps.
  pose proof (gather_keeps (restore_store_to_finalized_tip e)) as K2.
  destruct (gather_operations cfg _) as [e2 ops]. cbn [fst] in K2.
  assert (K : keeps e e2) by (by etrans).
  destruct (bx_produce _ _ _) as [s [r revert]]. set (e3 := set_store s e2).
  assert (Hn : en_pending_blocks e3 = ∅) by exact (none_fewer e e2 (se_none _ Hs) (proj2 K)).
  destruct (vs_active_count _ <=? 1)%nat; cbn [fst].
  - unfold finalize_single. eapply none_fewer; [|apply try_epoch_transition_keeps]. exact Hn.
  - assert (fc_v2_active cfg (next_block_height e2) = true) as ->.
    { rewrite next_height_tip, (keeps_height _ _ K), (next_exact e) by (apply Hs || done).
      unfold fc_v2_active. pose proof (se_votes _ Hs). apply Z.leb_le. lia. }
    unfold propose_v2. apply reevaluate_none. exact Hn.
Qed.

Lemma produce_fine now inst e :
  en_height e < u64_max -> fine e (fst (fst (produce_block cfg sign now inst e))).
Proof.
  intros Hm Hs.
  exact (good_fine _ _ (produce_block_good now inst e Hm (settled_alone e Hs))
           (fun Hs => produce_none now inst e Hs Hm) Hs).
Qed.

Lemma timeouts_fine now inst timeout e : fine e (fst (finalize_timed_out_blocks cfg sign now inst timeout e)).
Proof.
  apply good_fine; [apply timeouts_good|]. intros Hs. unfold finalize_timed_out_blocks.
  rewrite (se_none _ Hs). done.
Qed.

(** With nothing pending, a synced block needs no cleaning up. *)
Lemma replay_fine now h ops receipts e :
  en_height e < u64_max -> 0 < bh_height h -> fine e (fst (replay_synced_block cfg sign now h ops receipts e)).
Proof.
  intros Hm Hr Hs. destruct (replay_cases now h ops receipts e) as [K|(Hh & Hf & r & Hc)].
  { by apply keeps_fine. }
  set (e1 := fst (replay_synced_block cfg sign now h ops receipts e)) in *.
  pose proof (none_fewer _ _ (se_none _ Hs) Hf) as Hn.
  assert (Hp : en_chain e `prefix_of` en_chain e1) by (rewrite Hc; by apply prefix_app_r).
  assert (Hb : bh_height h = en_height e + 1 \/ (en_chain e = [] /\ en_height e + 1 <= bh_height h)).
  { destruct (last (en_chain e)) as [a|] eqn:El.
    - left. rewrite (Hh a eq_refl), <- (last_height e a El). apply next_exact; [apply Hs|done].
    - right. split; [by apply last_None|]. unfold en_height. rewrite El. lia. }
  assert (Hi : engine_inv e1).
  { by apply (inv_append e e1 (mkFinalizedBlock h r [] ops) (se_inv _ Hs) Hc Hb (or_introl eq_refl)). }
  split; [|done]. pose proof (prefix_height e e1 Hi Hp). pose proof (se_votes _ Hs). split; [done|done|lia].
Qed.

(** The height afterwards is the one before or that of the block. *)
Lemma replay_below now h ops receipts e :
  en_height e < u64_max -> bh_height h < u64_max ->
  en_height (fst (replay_synced_block cfg sign now h ops receipts e)) < u64_max.
Proof.
  intros Hm Hr. destruct (replay_cases now h ops receipts e) as [K|(Hh & Hf & r & Hc)].
  - by rewrite (keeps_height _ _ K).
  - by rewrite (height_snoc _ _ _ Hc).
Qed.

Lemma finalize_nothing now h e : settled e -> keeps e (finalize_pending_block cfg sign now h e).
Proof.
  intros Hs. unfold finalize_pending_block. rewrite (se_none _ Hs), lookup_empty.
  split; [done|]. split; [cbn; rewrite delete_empty; apply map_empty_subseteq|]. intros h' m Hm. by exists m.
Qed.

(** *** Going back *)

Lemma inv_start store mempool vs :
  0 <= fst (load_chain_meta store) -> engine_inv (with_validators cfg store mempool vs).
Proof.
  unfold with_validators. destruct (load_chain_meta store) as [h ep]. cbn [fst]. intros Hh.
  destruct (apply_durable_reverts_above store h) as [s rep].
  split; cbn [en_chain en_pending_blocks en_v2_blocks].
  - destruct (0 <? h); [by apply Forall_singleton|done].
  - destruct (0 <? h); intros i a b Ha Hb; [by destruct i|done].
  - intros i pb Hp. by rewrite lookup_empty in Hp.
  - intros i m hash pb Hm. cbn in Hm. by rewrite lookup_empty in Hm.
  - intros i m hash pb Hm. by rewrite lookup_empty in Hm.
Qed.

Lemma start_none store mempool vs : en_pending_blocks (with_validators cfg store mempool vs) = ∅.
Proof.
  unfold with_validators. destruct (load_chain_meta store) as [h ep].
  by destruct (apply_durable_reverts_above store h).
Qed.

(** A reset forgets the chain and everything held; it links again. *)
Lemma reset_settled h ep e :
  0 <= h -> ec_fork_choice_v2_height cfg <= h + 1 -> settled (reset_to_height cfg h ep e).
Proof.
  intros Hh Hv. split; [|done|exact Hv]. split; cbn.
  - by apply Forall_singleton.
  - intros i a b Ha Hb. by destruct i.
  - intros i pb Hp. by rewrite lookup_empty in Hp.
  - intros i m hash pb Hm. cbn in Hm. by rewrite lookup_empty in Hm.
  - intros i m hash pb Hm. by rewrite lookup_empty in Hm.
Qed.
End steps.

Section runs.
Context {St : Type} `{!StateStore St} `{!BlockExec St} {crypto : Crypto} `{!Codec BlockHeader}
        `{!Codec SerializableBlock} `{!Codec FinalizedCheckpoint} `{!Codec StakingContract}
        `{!Codec EpochRandomness} `{!Codec Account}
        `{!Codec (list UserOperation)} `{!Codec (list ExecutionReceipt)}
        (cfg : EngineConfig) (sign : option (bytes -> bytes)).
Implicit Types (e : Engine St) (lk : Prop).

Lemma settled_weaken lk lk' e : (lk' -> lk) -> settled cfg lk e -> settled cfg lk' e.
Proof.
  intros Hl [[Hh Hc Hp Hk Hv] Hn Ha]. split; [|done|done]. split; [done| | |done|].
  - by eapply chain_ok_weaken.
  - intros h pb E. by rewrite Hn, lookup_empty in E.
  - intros h m hash pb Hm Hb. destruct (Hv h m hash pb Hm Hb) as [H1 H2].
    split; [auto|]. intros E L. exact (H2 E (Hl L)).
Qed.

(** Rolling back cuts the chain and keeps the candidates, whose parents may be
    gone: links are not claimed afterwards. *)
Lemma rollback_settled lk target root e :
  settled cfg lk e ->
  let e' := fst (rollback_to_height target root e) in
  ec_fork_choice_v2_height cfg <= en_height e' + 1 ->
  settled cfg False e' /\ en_chain e' `prefix_of` en_chain e.
Proof.
  intros Hs e' Ha.
  assert (Hc : en_chain e' `prefix_of` en_chain e /\ en_pending_blocks e' = ∅ /\ en_v2_blocks e' = en_v2_blocks e).
  { pose proof (cut_prefix lk target (en_chain e) (inv_chain _ _ (se_inv _ _ _ Hs))) as Hc.
    pose proof (se_none _ _ _ Hs) as Hn. unfold e', rollback_to_height.
    destruct (_ <=? target); [done|]. destruct (min_rollback_target e); [|done].
    destruct (_ <? _); [done|]. cbv zeta. by destruct (negb _). }
  destruct Hc as (Hc & Hn & Hv). split; [|done]. destruct (se_inv _ _ _ Hs) as [Hh Hl _ Hk _].
  split; [|done|done]. split.
  - destruct Hc as [l Hc]. rewrite Hc in Hh. by apply Forall_app in Hh as [? _].
  - eapply chain_ok_prefix; [exact Hc|]. eapply chain_ok_weaken; [|exact Hl]. done.
  - intros h pb E. by rewrite Hn, lookup_empty in E.
  - intros h m hash pb Hm. rewrite Hv in Hm. by apply Hk.
  - intros h m hash pb _ _. split; [done|]. intros _ [].
Qed.

(** ** Steps *)

(** What a step may do to the finalised blocks: add to them, cut them back to
    an earlier height, or replace them by a marker. *)
Inductive Kind : Type := Adds | RollsBack | Resets.

(** Every operation by which the rest of the node changes the engine, one call
    a step: messages, production, timeouts, synchronisation, recovery, and the
    bookkeeping that leaves the blocks alone. Recovery stays at heights that
    votes decide. *)
Inductive step : Kind -> Engine St -> Engine St -> Prop :=
| step_block e now inst h ops :
    en_height e < u64_max -> step Adds e (fst (accept_block cfg sign now inst h ops e))
| step_attestation e now inst id h hash signature :
    en_height e < u64_max ->
    step Adds e (fst (accept_verified_attestation cfg sign now inst id h hash signature e))
| step_own_attestation e now inst id h hash :
    en_height e < u64_max -> step Adds e (fst (accept_attestation cfg sign now inst id h hash e))
| step_produce e now inst :
    en_height e < u64_max -> step Adds e (fst (fst (produce_block cfg sign now inst e)))
| step_timeouts e now inst timeout :
    step Adds e (fst (finalize_timed_out_blocks cfg sign now inst timeout e))
| step_sync e now h ops receipts :
    en_height e < u64_max -> 0 < bh_height h ->
    step Adds e (fst (replay_synced_block cfg sign now h ops receipts e))
| step_clear_stale e h : step Adds e (clear_stale_pending h e)
| step_force_finalize e now h : step Adds e (finalize_pending_block cfg sign now h e)
| step_force_quorum e now h : step Adds e (fst (force_finalize_block_if_quorum cfg sign now h e))
| step_checkpoint e id signature : step Adds e (fst (attest_checkpoint id signature e))
| step_checkpoint_data e id signature h block_hash state_root :
    step Adds e (fst (attest_checkpoint_with_data id signature h block_hash state_root e))
| step_reconcile_tip e : step Adds e (fst (reconcile_tip_with_finalized_checkpoint e))
| step_probe e inst : step Adds e (fst (partition_probe_due inst e))
| step_reset_partition e : step Adds e (reset_partition_state e)
| step_take_dropped e : step Adds e (fst (take_dropped_block_height e))
| step_take_revotes e : step Adds e (fst (take_v2_revotes e))
| step_request_resync e : step Adds e (request_resync e)
| step_take_resync e : step Adds e (fst (take_resync_request e))
| step_resyncing e b : step Adds e (set_resyncing b e)
| step_mempool e m : step Adds e (set_mempool m e)
| step_intents e p : step Adds e (set_intent_pool p e)
| step_validators e vs : step Adds e (set_validator_set vs e)
| step_store e s : step Adds e (set_store s e)
| step_rollback e target root :
    let e' := fst (rollback_to_height target root e) in
    ec_fork_choice_v2_height cfg <= en_height e' + 1 -> step RollsBack e e'
| step_reset e h ep :
    0 <= h -> ec_fork_choice_v2_height cfg <= h + 1 -> step Resets e (reset_to_height cfg h ep e)
| step_reset_meta e :
    let h := fst (load_chain_meta (en_store e)) in
    0 <= h -> ec_fork_choice_v2_height cfg <= h + 1 -> step Resets e (fst (reset_to_store_meta cfg e)).

(** A sequence of steps, with what each of them may do. *)
Inductive run : list Kind -> Engine St -> Engine St -> Prop :=
| run_nil e : run [] e e
| run_cons k ks e1 e2 e3 : step k e1 e2 -> run ks e2 e3 -> run (k :: ks) e1 e3.

(** The operations that leave the blocks alone. *)
Lemma attest_data_keeps id signature h block_hash state_root e :
  keeps e (fst (attest_checkpoint_with_data id signature h block_hash state_root e)).
Proof.
  unfold attest_checkpoint_with_data. destruct (fs_pending _); [|done].
  destruct (_ || _); [done|]. apply attest_checkpoint_keeps.
Qed.

Lemma reconcile_tip_keeps e : keeps e (fst (reconcile_tip_with_finalized_checkpoint e)).
Proof.
  unfold reconcile_tip_with_finalized_checkpoint. cbv zeta.
  repeat match goal with |- context [match ?b with _ => _ end] => destruct b end; by apply keeps_same.
Qed.

Lemma probe_keeps inst e : keeps e (fst (partition_probe_due inst e)).
Proof.
  unfold partition_probe_due. destruct (en_last_probe_at e); [destruct (_ <? _)|]; by apply keeps_same.
Qed.

Lemma force_quorum_fine lk now h e : fine cfg lk e (fst (force_finalize_block_if_quorum cfg sign now h e)).
Proof.
  unfold force_finalize_block_if_quorum. cbv zeta. cbn [fst]. destruct (_ || _); [|by intros Hs].
  intros Hs. exact (keeps_fine _ _ _ _ (finalize_nothing cfg sign lk now h e Hs) Hs).
Qed.

Lemma step_fine lk e e' : step Adds e e' -> fine cfg lk e e'.
Proof.
  inversion_clear 1; try (by apply keeps_fine, keeps_same).
  - by apply accept_block_fine.
  - unfold accept_verified_attestation. destruct (negb _); [by intros Hs|]. by apply accept_attestation_fine.
  - by apply accept_attestation_fine.
  - by apply produce_fine.
  - apply timeouts_fine.
  - by apply replay_fine.
  - apply keeps_fine, clear_stale_keeps.
  - intros Hs. exact (keeps_fine _ _ _ _ (finalize_nothing cfg sign lk now h e Hs) Hs).
  - apply force_quorum_fine.
  - apply keeps_fine, attest_checkpoint_keeps.
  - apply keeps_fine, attest_data_keeps.
  - apply keeps_fine, reconcile_tip_keeps.
  - apply keeps_fine, probe_keeps.
Qed.

Lemma step_settled k lk e e' :
  step k e e' -> settled cfg lk e -> settled cfg (lk /\ k <> RollsBack) e'.
Proof.
  intros Hst Hs. destruct k.
  - apply (settled_weaken lk); [tauto|]. by apply (step_fine lk _ _ Hst).
  - apply (settled_weaken False); [tauto|]. inversion Hst; subst. by eapply rollback_settled.
  - inversion Hst; subst; [by apply reset_settled|]. unfold reset_to_store_meta.
    destruct (load_chain_meta _) as [h' ep]. by apply reset_settled.
Qed.

Lemma run_settled ks lk e e' :
  run ks e e' -> settled cfg lk e -> settled cfg (lk /\ RollsBack ∉ ks) e'.
Proof.
  intros Hr. revert lk. induction Hr as [e|k ks e1 e2 e3 Hst _ IH]; intros lk Hs.
  - eapply settled_weaken; [|exact Hs]. tauto.
  - apply (settled_weaken ((lk /\ k <> RollsBack) /\ RollsBack ∉ ks)).
    + rewrite not_elem_of_cons. intros (? & ? & ?). split; [|done]. split; [done|congruence].
    + apply IH. by eapply step_settled.
Qed.

Lemma run_prefix ks e e' :
  run ks e e' -> settled cfg False e -> Forall (eq Adds) ks -> en_chain e `prefix_of` en_chain e'.
Proof.
  induction 1 as [e|k ks e1 e2 e3 Hst _ IH]; intros Hs Ha; [done|]. apply Forall_cons in Ha as [<- Ha].
  destruct (step_fine False _ _ Hst Hs) as [Hs2 Hp]. etrans; [exact Hp|by apply IH].
Qed.

End runs.
