(* ===== verification/EngineStore.v ===== *)
(** The blocks the consensus engine persists and serves to peers
    ([persist_block_and_meta], [load_persisted_blocks_range],
    [get_blocks_for_sync] of [crates/solen-consensus/src/engine.rs]). *)

From S2P Require Import Prelude Types Store Memory Overlay Staking Treasury Codec State Auth.
From S2P Require Import Executor Blocks Validators Mempool Intents Checkpoint.
From S2P Require Import EngineState EngineVotes EngineBlocks EngineRecovery.
Open Scope Z_scope.

Section stored.
Context {St : Type} `{!StateStore St} `{!StateStoreLaws St} `{!Codec SerializableBlock}
        `{!CodecLaws SerializableBlock}.
Implicit Types s : St.

Lemma bytes_of_string_inj a b : bytes_of_string a = bytes_of_string b -> a = b.
Proof.
  revert b. induction a as [|c a IH]; intros [|d b]; cbn; try done. intros [= Ec E].
  rewrite (IH _ E). f_equal. apply Nat2Z.inj in Ec.
  by rewrite <- (Ascii.ascii_nat_embedding c), Ec, Ascii.ascii_nat_embedding.
Qed.

Lemma block_key_inj h h' : block_key h = block_key h' -> h = h'.
Proof.
  unfold block_key. rewrite !bytes_of_string_app. intros E%app_inv_head%bytes_of_string_inj.
  by apply (inj pretty) in E.
Qed.

Lemma block_key_not_meta h : block_key h <> CHAIN_META_KEY.
Proof. unfold block_key. rewrite bytes_of_string_app. discriminate. Qed.

(** Pruning deletes blocks at least [BLOCK_RETENTION] below the height. *)
Lemma prune_get prune s h k :
  (forall i, i < h - BLOCK_RETENTION -> k <> block_key i) -> st_get (prune_old_blocks prune s h) k = st_get s k.
Proof.
  intros Hk. unfold prune_old_blocks. destruct (negb prune); [done|].
  destruct (h <=? BLOCK_RETENTION) eqn:Eh; [done|]. apply Z.leb_gt in Eh. cbv zeta.
  set (below := h - BLOCK_RETENTION) in *. set (first := sat_sub below 10).
  assert (Hf : forall i, (i < Z.to_nat (below - first))%nat -> first + Z.of_nat i < below) by lia.
  set (l := seq 0 _). assert (Hl : Forall (fun i => first + Z.of_nat i < below) l).
  { apply Forall_forall. intros i Hi. apply elem_of_seq in Hi. apply Hf. lia. }
  clearbody l. revert s. induction Hl as [|i l Hi Hl IH]; intros s; cbn [fold_left]; [done|].
  rewrite IH. destruct (_ =? 0); [done|]. apply get_delete_ne. intros E. by apply (Hk _ Hi).
Qed.

Lemma persist_get prune s b k :
  k <> CHAIN_META_KEY -> k <> block_key (bh_height (fb_header b)) ->
  (forall i, i < bh_height (fb_header b) - BLOCK_RETENTION -> k <> block_key i) ->
  st_get (persist_block_and_meta prune s b) k = st_get s k.
Proof.
  intros Hm Hb Hp. unfold persist_block_and_meta. rewrite prune_get by done.
  destruct (ser (to_serializable b)); [|done]. unfold save_chain_meta.
  rewrite get_put_ne by congruence. by rewrite get_put_ne by congruence.
Qed.

Lemma persist_own prune s b :
  exists data, st_get (persist_block_and_meta prune s b) (block_key (bh_height (fb_header b))) = Some data
    /\ de data = Some (to_serializable b).
Proof.
  unfold persist_block_and_meta. rewrite prune_get.
  2: { intros i Hi E%block_key_inj. unfold BLOCK_RETENTION in Hi. lia. }
  destruct (ser_de (to_serializable b)) as (data & -> & Hd). exists data. split; [|done].
  unfold save_chain_meta. rewrite get_put_ne by (intros E; by apply (block_key_not_meta (bh_height (fb_header b)))).
  by rewrite get_put_eq.
Qed.

(** Blocks of consecutive heights. *)
Fixpoint consecutive (h : u64) (bs : list FinalizedBlock) : Prop :=
  match bs with
  | [] => True
  | b :: bs => bh_height (fb_header b) = h /\ consecutive (h + 1) bs
  end.

Definition persist_all (prune : bool) (bs : list FinalizedBlock) s : St :=
  fold_left (persist_block_and_meta prune) bs s.

(** What a later block leaves of an earlier one. *)
Lemma persist_all_get prune bs h0 h s :
  h0 < h -> consecutive h bs -> h + Z.of_nat (length bs) <= h0 + BLOCK_RETENTION ->
  st_get (persist_all prune bs s) (block_key h0) = st_get s (block_key h0).
Proof.
  revert h s. induction bs as [|b bs IH]; intros h s Hh Hc Hl; [done|].
  cbn [persist_all fold_left length] in *. destruct Hc as [Hb Hc].
  fold (persist_all prune bs (persist_block_and_meta prune s b)). rewrite (IH (h + 1)) by (done || lia).
  apply persist_get; [apply block_key_not_meta| |].
  - intros E%block_key_inj. lia.
  - intros i Hi E%block_key_inj. lia.
Qed.

(** Without attestations, as a peer receives it. *)
Definition served (b : FinalizedBlock) : FinalizedBlock :=
  mkFinalizedBlock (fb_header b) (fb_result b) [] (fb_operations b).

Lemma served_roundtrip b : from_serializable (to_serializable b) = served b.
Proof. destruct b as [h [r rc g] a o]. done. Qed.

Lemma load_persisted prune bs h s :
  consecutive h bs -> 0 <= h -> h + Z.of_nat (length bs) <= u64_max ->
  Z.of_nat (length bs) <= BLOCK_RETENTION ->
  load_blocks (persist_all prune bs s) h (length bs) = map served bs.
Proof.
  revert h s. induction bs as [|b bs IH]; intros h s Hc Hh Hu Hl; [done|].
  cbn [length load_blocks persist_all fold_left map] in *. destruct Hc as [Hb Hc].
  fold (persist_all prune bs (persist_block_and_meta prune s b)).
  rewrite (persist_all_get prune bs h (h + 1)) by (done || lia). rewrite <- Hb at 1.
  destruct (persist_own prune s b) as (data & -> & ->). rewrite served_roundtrip. f_equal.
  rewrite u64_add_exact by lia. apply IH; (done || lia).
Qed.

(** Blocks written one after the other are served back in full, header,
    result, receipts and operations, and in order, by the range query that
    answers a peer's sync request, also with pruning on, as long as they are
    within the retention; and the recorded tip is the last of them. *)
Theorem persisted_blocks_served prune bs last_b h s :
  let s' := persist_all prune (bs ++ [last_b]) s in
  let n := length (bs ++ [last_b]) in
  consecutive h (bs ++ [last_b]) -> 0 <= h -> h + Z.of_nat n <= u64_max -> Z.of_nat n <= BLOCK_RETENTION ->
  in_u64 (bh_epoch (fb_header last_b)) ->
  load_blocks s' h n = map served (bs ++ [last_b])
  /\ load_chain_meta s' = (h + Z.of_nat (length bs), bh_epoch (fb_header last_b)).
Proof.
  intros s' n Hc Hh Hu Hl He. split; [by apply load_persisted|].
  assert (Hlast : bh_height (fb_header last_b) = h + Z.of_nat (length bs)).
  { clear -Hc. revert h Hc. induction bs as [|b bs IH]; intros h Hc; cbn [app consecutive] in Hc.
    - cbn. lia.
    - destruct Hc as [_ Hc]. rewrite (IH _ Hc). cbn [length]. lia. }
  unfold s', persist_all. rewrite fold_left_app. cbn [fold_left]. set (s1 := fold_left _ bs s).
  assert (Hm : load_chain_meta (persist_block_and_meta prune s1 last_b)
               = load_chain_meta (save_chain_meta s1 (bh_height (fb_header last_b)) (bh_epoch (fb_header last_b)))).
  { unfold load_chain_meta, persist_block_and_meta.
    rewrite prune_get by (intros i _ E; by apply (block_key_not_meta i)).
    destruct (ser_de (to_serializable last_b)) as (data & -> & _). unfold save_chain_meta. by rewrite !get_put_eq. }
  rewrite Hm, chain_meta_roundtrip, Hlast; [done| |done]. unfold n in *. rewrite length_app in *. cbn in *.
  unfold in_u64. lia.
Qed.
End stored.

(** The first block of the examples, written and read back. *)
#[export] Instance enc_Event_laws : EncLaws Event.
Proof. enc_enum. Qed.
#[export] Instance enc_Receipt_laws : EncLaws ExecutionReceipt.
Proof. enc_enum. Qed.
#[export] Instance enc_UserOperation_laws : EncLaws UserOperation.
Proof. enc_enum. Qed.
#[export] Instance enc_SerializableBlock_laws : EncLaws SerializableBlock.
Proof. enc_enum. Qed.

Lemma persisted_blocks_served_witness :
  load_blocks (persist_all true ([] ++ [first_block]) block_store) 1 1 = [served first_block].
Proof.
  refine (proj1 (persisted_blocks_served true [] first_block 1 block_store _ _ _ _ _)).
  - by split.
  - lia.
  - vm_compute. discriminate.
  - vm_compute. discriminate.
  - split; vm_compute; discriminate.
Defined.
