(* ===== verification/EngineRuns.v ===== *)
(** Concrete runs of the consensus engine with four validators: the theorems
    about it at work, and behaviour of the code that its comments rule out. *)

From S2P Require Import Prelude Types Store Memory Overlay Staking Treasury Codec State Auth.
From S2P Require Import Executor Blocks Validators Mempool Intents Checkpoint.
From S2P Require Import EngineState EngineVotes EngineBlocks EngineRecovery EngineFrames EngineSafety EngineSteps.
Open Scope Z_scope.

(** ** A network of four *)

Definition node_sign (n : Z) : option (bytes -> bytes) := Some (fun _ => n :: replicate 63 0).

Section network.
Variable v2_height : u64.
Definition node (n : Z) : Engine MemoryStore :=
  with_validators (demo_cfg n v2_height) block_store (mempool_new 10) demo_set.
Definition propose (n : Z) (e : Engine MemoryStore) : Engine MemoryStore * BlockHeader :=
  let '(e, h, _) := produce_block (demo_cfg n v2_height) (node_sign n) 10000 0 e in (e, h).
Definition see_block (n : Z) (h : BlockHeader) (e : Engine MemoryStore) : Engine MemoryStore :=
  fst (accept_block (demo_cfg n v2_height) (node_sign n) 10000 0 h [] e).
(** Validator [from] signs an attestation of [h], which reaches node [n]. *)
Definition see_vote (n from : Z) (h : BlockHeader) (e : Engine MemoryStore) : Engine MemoryStore :=
  fst (accept_verified_attestation (demo_cfg n v2_height) (node_sign n) 10000 0 (demo_id from) (bh_height h)
         (block_hash h) [from] e).
End network.

Definition tip_hash (e : Engine MemoryStore) : option Hash := (fun b => block_hash (fb_header b)) <$> last (en_chain e).

(** Two proposals for height 1: by validator 1, and by validator 4, whose turn
    comes earlier (the order of height 1 is 2, 3, 4, 1). *)
Definition block_X : BlockHeader := snd (propose 0 1 (node 0 1)).
Definition block_Y : BlockHeader := snd (propose 0 4 (node 0 4)).

(** ** Votes that move *)

(** Validator 1 proposed X and then sees Y with the vote of validator 4. *)
Definition run_1 : Engine MemoryStore :=
  see_vote 0 1 4 block_Y (see_block 0 1 block_Y (fst (propose 0 1 (node 0 1)))).
(** Validator 3 sees X, and the votes of 1 and of 2 for it. *)
Definition run_3 : Engine MemoryStore :=
  see_vote 0 3 2 block_X (see_vote 0 3 1 block_X (see_block 0 3 block_X (node 0 3))).
(** Validator 2 sees X and the vote of 1 for it, then Y and its votes. *)
Definition run_2_first : Engine MemoryStore := see_vote 0 2 1 block_X (see_block 0 2 block_X (node 0 2)).
Definition run_2 : Engine MemoryStore :=
  see_vote 0 2 1 block_Y (see_vote 0 2 4 block_Y (see_block 0 2 block_Y run_2_first)).

(** A fork without a faulty validator: every vote below is one the engine of
    that validator asked to broadcast, no message is altered, and yet
    validators 2 and 3 finalise different blocks at height 1. The comment on
    fork choice counts a moved vote as equivocation of more than a third; here
    validators 1 and 2 move theirs because the rule tells them to. *)
Example honest_revotes_fork :
  en_v2_revotes run_1 = [(1, block_hash block_X); (1, block_hash block_Y)]
  /\ en_v2_revotes run_2 = [(1, block_hash block_X); (1, block_hash block_Y)]
  /\ en_v2_revotes run_3 = [(1, block_hash block_X)]
  /\ tip_hash run_3 = Some (block_hash block_X) /\ en_height run_3 = 1
  /\ tip_hash run_2 = Some (block_hash block_Y) /\ en_height run_2 = 1
  /\ block_hash block_X <> block_hash block_Y.
Proof.
  repeat split; try (vm_compute; reflexivity).
  apply (bool_decide_unpack _). vm_compute. exact I.
Qed.

(** ** The legacy rule *)

(** Validator 1 proposes X, which 2 attests; 3 attests another block, and at
    the timeout the own block is dropped, but not the attestations for it. *)
Definition legacy_X : BlockHeader := snd (propose u64_max 1 (node u64_max 1)).
Definition legacy_Y : BlockHeader := snd (propose u64_max 2 (node u64_max 2)).
Definition run_dropped : Engine MemoryStore :=
  fst (finalize_timed_out_blocks (demo_cfg 1 u64_max) (node_sign 1) 20000 20000 5000
    (see_vote u64_max 1 3 legacy_Y (see_vote u64_max 1 2 legacy_X (fst (propose u64_max 1 (node u64_max 1)))))).
Definition run_mixed : Engine MemoryStore :=
  see_vote u64_max 1 3 legacy_Y (see_block u64_max 1 legacy_Y run_dropped).

(** The attestations for the dropped block count for the one that takes its
    place: Y is finalised although only validator 3 attested it. *)
Example stale_attestations_finalise :
  tip_hash run_mixed = Some (block_hash legacy_Y)
  /\ match last (en_chain run_mixed) with
     | Some b => map (fun a => (at_validator_id a, bytes_eqb (at_block_hash a) (block_hash legacy_Y)))
                   (fb_attestations b)
                 = [(demo_id 1, false); (demo_id 2, false); (demo_id 3, true)]
     | None => False
     end.
Proof. split; vm_compute; reflexivity. Qed.

(** Validator 3 holds Y as pending, syncs height 1 from a peer, and then gets
    attestations for Y: height 1 is on its chain twice. *)
Definition run_synced : Engine MemoryStore :=
  fst (replay_synced_block (demo_cfg 3 u64_max) (node_sign 3) 10000 legacy_Y [] []
         (see_block u64_max 3 legacy_Y (node u64_max 3))).
Definition run_twice : Engine MemoryStore :=
  see_vote u64_max 3 3 legacy_Y (see_vote u64_max 3 2 legacy_Y (see_vote u64_max 3 1 legacy_Y run_synced)).

Example late_attestations_finalise_twice :
  map (fun b => bh_height (fb_header b)) (en_chain run_synced) = [1]
  /\ map (fun b => bh_height (fb_header b)) (en_chain run_twice) = [1; 1].
Proof. split; vm_compute; reflexivity. Qed.

(** ** Double signing that is never looked at *)

Section ignored.
Context {St : Type} `{!StateStore St} `{!BlockExec St} {crypto : Crypto} `{!Codec BlockHeader}
        `{!Codec SerializableBlock} `{!Codec FinalizedCheckpoint} `{!Codec StakingContract}
        `{!Codec EpochRandomness} (cfg : EngineConfig) (sign : option (bytes -> bytes)).

(** A second block of the proposer of a finalised one is dropped as old before
    the comparison with the finalised block is reached: nothing is queued. *)
Lemma finalized_double_sign_ignored now inst h ops (e : Engine St) :
  bh_height h < u64_add (en_height e) 1 -> accept_block cfg sign now inst h ops e = (e, false).
Proof.
  intros Hh. unfold accept_block. replace (header_acceptable now h e) with false; [done|].
  symmetry. unfold header_acceptable. destruct (en_resyncing e); [done|].
  by rewrite (proj2 (Z.ltb_lt _ _)) by done.
Qed.

(** When the block a quorum voted for does not execute, the other candidates of
    the height are forgotten with it, and so are all votes. *)
Lemma invalid_winner_drops_rivals now h hash pb (e : Engine St) :
  en_v2_blocks e !! h ≫= (.!! hash) = Some pb ->
  let e' := v2_finalize cfg sign now h hash e in
  en_v2_blocks e' !! h = None /\ en_v2_votes e' !! h = None.
Proof.
  intros Hb. unfold v2_finalize. destruct (en_v2_blocks e !! h) as [m|]; [|done].
  cbn [mbind option_bind] in Hb. rewrite Hb.
  cbn [en_v2_blocks en_v2_votes set_v2_votes set_v2_blocks].
  split; apply map_lookup_filter_None; right; cbn; intros; lia.
Qed.
End ignored.

(** ** Two schedules *)

(** With a seed, the designated proposer of a height is not the first of the
    order that ranks competing blocks and backups. *)
Example designated_not_first_in_order :
  proposer_for_height_with_seed demo_set 1 (250 :: replicate 31 0) = Some (demo_id 3)
  /\ head (proposer_order_for_height demo_set 1 (250 :: replicate 31 0)) = Some (demo_id 1).
Proof. split; vm_compute; reflexivity. Qed.

(** ** The theorems at work *)

(** Validator 2 after both proposals and one vote for each. *)
Definition run_2_split : Engine MemoryStore := see_vote 0 2 4 block_Y (see_block 0 2 block_Y run_2_first).

Definition split_tally : gmap bytes (list ValidatorId) := v2_tally run_2_split 1.

Lemma leader_deterministic_witness :
  leader_of run_2_split 1 (rev (map_to_list split_tally)) = Some (block_hash block_X).
Proof.
  pose proof (Permutation_sym (Permutation_rev (map_to_list split_tally))) as Hp.
  pose proof (leader_deterministic run_2_split 1 (rev (map_to_list split_tally)) split_tally Hp) as [E _].
  rewrite E. vm_compute. reflexivity.
Defined.

(** Validators 3 and 2 with the votes of 1, 2 and 3 for X. *)
Definition voted (n other : Z) : Engine MemoryStore :=
  cast_vote (demo_id other) 1 (block_hash block_X)
    (see_vote 0 n 1 block_X (see_block 0 n block_X (node 0 n))).
Definition voted_entries : list (Hash * list ValidatorId) :=
  map_to_list (tally_votes (map_to_list (recorded_votes (voted 3 2) 1))).

Lemma winner_deterministic_witness :
  winner_of (voted 3 2) 1 (rev voted_entries) = Some (block_hash block_X).
Proof.
  assert (Hok : set_ok (en_validator_set (voted 3 2))).
  { replace (en_validator_set (voted 3 2)) with demo_set by (vm_compute; reflexivity). apply demo_set_ok. }
  pose proof (Permutation_sym (Permutation_rev voted_entries)) as Hp.
  pose proof (winner_deterministic (voted 3 2) 1 (recorded_votes (voted 3 2) 1) (rev voted_entries) Hok Hp)
    as [E _].
  rewrite E. vm_compute. reflexivity.
Defined.

(** One step of the network, as steps of the transition system. *)
Definition steps_of (n : Z) : Engine MemoryStore -> Engine MemoryStore -> Prop :=
  step (demo_cfg n 0) (node_sign n) Adds.
Definition runs_of (n : Z) : list Kind -> Engine MemoryStore -> Engine MemoryStore -> Prop :=
  run (demo_cfg n 0) (node_sign n).

Lemma see_block_step n h e : en_height e < u64_max -> steps_of n e (see_block 0 n h e).
Proof. intros Hh. exact (step_block (demo_cfg n 0) (node_sign n) e 10000 0 h [] Hh). Qed.

Lemma see_vote_step n from h e : en_height e < u64_max -> steps_of n e (see_vote 0 n from h e).
Proof.
  intros Hh. exact (step_attestation (demo_cfg n 0) (node_sign n) e 10000 0 (demo_id from) (bh_height h)
    (block_hash h) [from] Hh).
Qed.

(** Node 3 up to the vote that completes the quorum. *)
Definition run_3_before : Engine MemoryStore := see_vote 0 3 1 block_X (see_block 0 3 block_X (node 0 3)).

Lemma reach_3 : runs_of 3 [Adds; Adds; Adds] (node 0 3) run_3.
Proof.
  eapply run_cons; [apply (see_block_step 3 block_X); vm_compute; reflexivity|].
  eapply run_cons; [apply (see_vote_step 3 1 block_X); vm_compute; reflexivity|].
  eapply run_cons; [apply (see_vote_step 3 2 block_X); vm_compute; reflexivity|]. apply run_nil.
Qed.

(** *** Candidates that outlive a rollback *)

(** Validator 1 proposes Z on top of X. Validator 3, at X, holds Z with the
    vote of 1 and its own, goes back to height 0, finalises Y there, and gets
    the vote of 2 for Z. *)
Definition block_Z : BlockHeader :=
  snd (propose 0 1 (see_vote 0 1 3 block_X (see_vote 0 1 2 block_X (fst (propose 0 1 (node 0 1)))))).
Definition run_Z : Engine MemoryStore := see_vote 0 3 1 block_Z (see_block 0 3 block_Z run_3).
Definition run_back : Engine MemoryStore :=
  fst (rollback_to_height 0 (st_state_root (st_commit_root (en_store (node 0 3)))) run_Z).
Definition run_Y : Engine MemoryStore :=
  see_vote 0 3 2 block_Y (see_vote 0 3 4 block_Y (see_block 0 3 block_Y run_back)).
Definition run_stale : Engine MemoryStore := see_vote 0 3 2 block_Z run_Y.

(** The rollback keeps the candidate and its votes, so Z is finalised on top of
    Y although its parent is X, which the node gave up. *)
Example stale_candidate_finalised :
  map (fun b => bh_height (fb_header b)) (en_chain run_back) = []
  /\ tip_hash run_Y = Some (block_hash block_Y)
  /\ map (fun b => bh_height (fb_header b)) (en_chain run_stale) = [1; 2]
  /\ tip_hash run_stale = Some (block_hash block_Z)
  /\ bh_parent_hash block_Z = block_hash block_X /\ block_hash block_X <> block_hash block_Y.
Proof.
  repeat split; try (vm_compute; reflexivity). apply (bool_decide_unpack _). vm_compute. exact I.
Qed.

Lemma step_back : step (demo_cfg 3 0) (node_sign 3) RollsBack run_Z run_back.
Proof.
  apply (step_rollback (demo_cfg 3 0) (node_sign 3) run_Z 0
    (st_state_root (st_commit_root (en_store (node 0 3))))). vm_compute. discriminate.
Qed.

Lemma run_snoc n ks k e1 e2 e3 :
  runs_of n ks e1 e2 -> step (demo_cfg n 0) (node_sign n) k e2 e3 -> runs_of n (ks ++ [k]) e1 e3.
Proof.
  induction 1 as [|k' ks e1 e2 e2' Hs Hr IH]; intros Hk; [eapply run_cons; [exact Hk|apply run_nil]|].
  cbn [app]. eapply run_cons; [exact Hs|by apply IH].
Qed.

Lemma reach_stale :
  runs_of 3 [Adds; Adds; Adds; Adds; Adds; RollsBack; Adds; Adds; Adds; Adds] (node 0 3) run_stale.
Proof.
  assert (H5 : runs_of 3 [Adds; Adds; Adds; Adds; Adds] (node 0 3) run_Z).
  { apply (run_snoc 3 [_; _; _; _] _ _ (see_block 0 3 block_Z run_3));
      [|apply see_vote_step; vm_compute; reflexivity].
    apply (run_snoc 3 [_; _; _] _ _ run_3); [exact reach_3|]. apply see_block_step; vm_compute; reflexivity. }
  pose proof (run_snoc 3 _ _ _ _ _ H5 step_back) as H6.
  assert (H7 : runs_of 3 [Adds; Adds; Adds; Adds; Adds; RollsBack; Adds] (node 0 3) (see_block 0 3 block_Y run_back))
    by (apply (run_snoc 3 _ _ _ run_back _ H6); apply see_block_step; vm_compute; reflexivity).
  assert (H8 : runs_of 3 [Adds; Adds; Adds; Adds; Adds; RollsBack; Adds; Adds] (node 0 3)
    (see_vote 0 3 4 block_Y (see_block 0 3 block_Y run_back)))
    by (apply (run_snoc 3 _ _ _ _ _ H7); apply see_vote_step; vm_compute; reflexivity).
  assert (H9 : runs_of 3 [Adds; Adds; Adds; Adds; Adds; RollsBack; Adds; Adds; Adds] (node 0 3) run_Y)
    by (apply (run_snoc 3 _ _ _ _ _ H8); apply see_vote_step; vm_compute; reflexivity).
  apply (run_snoc 3 [_; _; _; _; _; _; _; _; _] _ _ run_Y); [exact H9|].
  apply see_vote_step; vm_compute; reflexivity.
Qed.


Lemma quorum_finalises_witness :
  en_height (v2_record_vote (demo_cfg 3 0) (node_sign 3) 10000 (demo_id 2) 1 (block_hash block_X) run_3_before) = 1.
Proof.
  destruct (en_v2_blocks run_3_before !! 1 ≫= (.!! block_hash block_X)) as [pb|] eqn:Eb.
  2: { exfalso. revert Eb. apply (bool_decide_unpack _). vm_compute. exact I. }
  assert (Eh : pb_header pb = block_X).
  { transitivity (default block_X
      (pb_header <$> (en_v2_blocks run_3_before !! 1 ≫= (.!! block_hash block_X))));
      [rewrite Eb; reflexivity|vm_compute; reflexivity]. }
  assert (Eo : pb_operations pb = []).
  { transitivity (default []
      (pb_operations <$> (en_v2_blocks run_3_before !! 1 ≫= (.!! block_hash block_X))));
      [rewrite Eb; reflexivity|vm_compute; reflexivity]. }
  assert (Hok : set_ok (en_validator_set run_3_before)).
  { replace (en_validator_set run_3_before) with demo_set by (vm_compute; reflexivity). apply demo_set_ok. }
  assert (Hx : executes 1 pb run_3_before).
  { right. replace (last (en_chain run_3_before)) with (@None FinalizedBlock) by (vm_compute; reflexivity).
    split; [exact I|]. rewrite Eh, Eo. apply (bool_decide_unpack _). vm_compute. exact I. }
  assert (Hn : 1 = u64_add (en_height run_3_before) 1) by (vm_compute; reflexivity).
  assert (Hb : bh_height (pb_header pb) = 1) by (rewrite Eh; vm_compute; reflexivity).
  assert (Hi : invalid_at run_3_before 1 (block_hash block_X) = false) by (vm_compute; reflexivity).
  assert (Hq : has_quorum (en_validator_set run_3_before) (votes_for (block_hash block_X)
    (recorded_votes (cast_vote (demo_id 2) 1 (block_hash block_X) run_3_before) 1)) = true)
    by (vm_compute; reflexivity).
  pose proof (quorum_finalises (demo_cfg 3 0) (node_sign 3) 10000 (demo_id 2) 1 (block_hash block_X)
    run_3_before pb Hok Hn Eb Hb Hi Hx Hq) as [_ E].
  rewrite E. symmetry. exact Hn.
Defined.

Lemma probe_reaches_everyone_witness :
  exists k, 0 <= k < 4 /\ partition_probe_proposer (1000 + k * 30) (node 0 1) = Some (demo_id 4).
Proof.
  assert (Hv : validator_info_new (demo_id 4) 100 ∈ vs_active (en_validator_set (node 0 1))).
  { apply vs_active_elem. split; [|reflexivity]. apply (bool_decide_unpack _). vm_compute. exact I. }
  pose proof (probe_reaches_everyone (node 0 1) (validator_info_new (demo_id 4) 100) 1000 Hv ltac:(lia))
    as [(k & Hk & E) _].
  exists k. split; [|exact E].
  replace (length (next_order (node 0 1))) with 4%nat in Hk by (vm_compute; reflexivity). exact Hk.
Defined.

(** Nodes 3 and 2, each with the three votes for X. *)
Definition node_3 : Engine MemoryStore := voted 3 2.
Definition node_2 : Engine MemoryStore := voted 2 3.
Definition finalised (n : Z) (e : Engine MemoryStore) : FinalizedBlock :=
  default first_block (last (en_chain (v2_reevaluate (demo_cfg n 0) (node_sign n) 10000 1 e))).

Lemma voted_keyed n other :
  en_height (node 0 n) < u64_max -> en_height (see_block 0 n block_X (node 0 n)) < u64_max ->
  candidates_keyed (voted n other).
Proof.
  intros H0 H1.
  assert (Hr : runs_of n [Adds; Adds] (node 0 n) (see_vote 0 n 1 block_X (see_block 0 n block_X (node 0 n)))).
  { eapply run_cons; [by apply see_block_step|]. eapply run_cons; [by apply see_vote_step|]. apply run_nil. }
  assert (Hm : 0 <= fst (load_chain_meta block_store)) by (vm_compute; discriminate).
  assert (Hs : settled (demo_cfg n 0) True (node 0 n)).
  { pose proof (inv_start (demo_cfg n 0) True block_store (mempool_new 10) demo_set Hm) as Hi.
    split; [exact Hi|apply start_none|]. cbn. pose proof (inv_range _ _ Hi). unfold node. lia. }
  destruct (run_settled _ _ _ _ _ _ Hr Hs) as [Hi _ _].
  unfold voted. eapply inv_keyed, inv_keeps; [exact Hi|apply cast_vote_keeps].
Qed.

Lemma v2_agreement_witness :
  block_hash (fb_header (finalised 3 node_3)) = block_hash (fb_header (finalised 2 node_2)).
Proof.
  assert (Hok : set_ok (en_validator_set node_3)).
  { replace (en_validator_set node_3) with demo_set by (vm_compute; reflexivity). apply demo_set_ok. }
  assert (Hst : stakes (en_validator_set node_3) = stakes (en_validator_set node_2)) by (vm_compute; reflexivity).
  assert (K3 : candidates_keyed node_3) by (apply voted_keyed; vm_compute; reflexivity).
  assert (K2 : candidates_keyed node_2) by (apply voted_keyed; vm_compute; reflexivity).
  assert (C3 : en_chain (v2_reevaluate (demo_cfg 3 0) (node_sign 3) 10000 1 node_3)
    = en_chain node_3 ++ [finalised 3 node_3]) by (vm_compute; reflexivity).
  assert (C2 : en_chain (v2_reevaluate (demo_cfg 2 0) (node_sign 2) 10000 1 node_2)
    = en_chain node_2 ++ [finalised 2 node_2]) by (vm_compute; reflexivity).
  assert (Hf : 3 * weight (en_validator_set node_3) (fun v => bytes_eqb (vi_id v) (demo_id 4))
    <= committed_stake (en_validator_set node_3)) by (vm_compute; discriminate).
  assert (A3 : Forall (fun a => at_block_hash a = block_hash block_X) (fb_attestations (finalised 3 node_3)))
    by (apply (bool_decide_unpack _); vm_compute; exact I).
  assert (A2 : Forall (fun a => at_block_hash a = block_hash block_X) (fb_attestations (finalised 2 node_2)))
    by (apply (bool_decide_unpack _); vm_compute; exact I).
  rewrite Forall_forall in A3, A2.
  exact (proj1 (v2_agreement _ _ _ _ _ _ 1 node_3 node_2 _ _ (fun v => bytes_eqb (vi_id v) (demo_id 4))
    Hok Hst K3 K2 C3 C2 Hf (fun _ a1 a2 _ _ I1 I2 _ _ => eq_trans (A3 a1 I1) (eq_sym (A2 a2 I2))))).
Defined.
