(* ===== verification/Address.v ===== *)
(** Addresses as text ([crates/solen-types/src/encoding.rs]): Base58 and
    hexadecimal, and the parser that accepts both.

    A [&str] is the list of its characters, each a Unicode scalar value; its
    length and its slices are those of its UTF-8 encoding. A slice at an offset
    inside a character panics. *)

From S2P Require Import Prelude Types.
Open Scope Z_scope.

Abbreviation str := (list Z) (only parsing).

(** ** Strings *)

(** The UTF-8 encoding of a character ([str::bytes], [str::len]). *)
Definition utf8_char (c : Z) : bytes :=
  if c <? 128 then [c]
  else if c <? 2048 then [192 + c / 64; 128 + c mod 64]
  else if c <? 65536 then [224 + c / 4096; 128 + c / 64 mod 64; 128 + c mod 64]
  else [240 + c / 262144; 128 + c / 4096 mod 64; 128 + c / 64 mod 64; 128 + c mod 64].
Definition str_bytes (s : str) : bytes := flat_map utf8_char s.
Definition str_len (s : str) : nat := length (str_bytes s).

(** [char::is_whitespace]: the Unicode property White_Space. *)
Definition is_whitespace (c : Z) : bool :=
  ((9 <=? c) && (c <=? 13)) || (c =? 32) || (c =? 133) || (c =? 160) || (c =? 5760)
  || ((8192 <=? c) && (c <=? 8202)) || (c =? 8232) || (c =? 8233) || (c =? 8239)
  || (c =? 8287) || (c =? 12288).

Fixpoint drop_while (p : Z -> bool) (s : list Z) : list Z :=
  match s with
  | [] => []
  | c :: s' => if p c then drop_while p s' else s
  end.
(** [take_while(p).count()]. *)
Fixpoint count_while (p : Z -> bool) (s : list Z) : nat :=
  match s with
  | [] => 0
  | c :: s' => if p c then S (count_while p s') else 0
  end.
Definition trim (s : str) : str := rev (drop_while is_whitespace (rev (drop_while is_whitespace s))).

(** [s.strip_prefix("0x").unwrap_or(s)]. *)
Definition strip_0x (s : str) : str :=
  match s with
  | 48 :: 120 :: s' => s'
  | _ => s
  end.

Inductive EncodingError : Type :=
| InvalidBase58Char (c : Z)
| OddHexLength
| InvalidHexAt (i : nat)
| InvalidAddress (e : EncodingError)
| WrongAddressLength (n : nat).

(** The outcome of a call that may also panic. *)
Inductive outcome (T : Type) : Type :=
| Returned (r : result T EncodingError)
| Panicked.
Arguments Returned {T} r.
Arguments Panicked {T}.

(** ** Base58 *)

Definition BASE58_ALPHABET : bytes := Eval vm_compute in
  bytes_of_string "123456789ABCDEFGHJKLMNPQRSTUVWXYZabcdefghijkmnopqrstuvwxyz".

(** One pass of [carry += d * 256; d = carry % 58; carry /= 58] over the digits. *)
Fixpoint encode_digits (digits : list Z) (carry : Z) : list Z * Z :=
  match digits with
  | [] => ([], carry)
  | d :: digits =>
    let carry := carry + d * 256 in
    let '(rest, out) := encode_digits digits (carry / 58) in
    (carry mod 58 :: rest, out)
  end.
(** [while carry > 0]: a [u32] reaches zero within 32 divisions. *)
Fixpoint encode_carry (fuel : nat) (carry : Z) : list Z :=
  match fuel with
  | O => []
  | S fuel => if 0 <? carry then carry mod 58 :: encode_carry fuel (carry / 58) else []
  end.
Definition encode_byte (digits : list Z) (byte : Z) : list Z :=
  let '(digits, carry) := encode_digits digits byte in digits ++ encode_carry 32 carry.

Definition base58_encode (b : bytes) : str :=
  match b with
  | [] => []
  | _ =>
    let zeros := count_while (Z.eqb 0) b in
    let digits := fold_left encode_byte b [] in
    replicate zeros 49 ++ map (fun d => nth (Z.to_nat d) BASE58_ALPHABET 0) (rev digits)
  end.

(** The reverse table: 255 where the alphabet has no such character. *)
Definition base58_table : list Z := Eval vm_compute in
  fold_left (fun table ic => <[Z.to_nat (snd ic) := Z.of_nat (fst ic)]> table)
            (combine (seq 0 58) BASE58_ALPHABET) (replicate 128 255).

Fixpoint decode_digits (digits : list Z) (carry : Z) : list Z * Z :=
  match digits with
  | [] => ([], carry)
  | b :: digits =>
    let carry := carry + b * 58 in
    let '(rest, out) := decode_digits digits (Z.shiftr carry 8) in
    (Z.land carry 255 :: rest, out)
  end.
Fixpoint decode_carry (fuel : nat) (carry : Z) : list Z :=
  match fuel with
  | O => []
  | S fuel => if 0 <? carry then Z.land carry 255 :: decode_carry fuel (Z.shiftr carry 8) else []
  end.
Definition decode_digit (digits : list Z) (val : Z) : list Z :=
  let '(digits, carry) := decode_digits digits val in digits ++ decode_carry 32 carry.

Fixpoint decode_chars (s : bytes) (digits : list Z) : result (list Z) EncodingError :=
  match s with
  | [] => Ok digits
  | c :: s =>
    if 128 <=? c then Err (InvalidBase58Char c)
    else
    let val := nth (Z.to_nat c) base58_table 255 in
    if val =? 255 then Err (InvalidBase58Char c)
    else decode_chars s (decode_digit digits val)
  end.

Definition base58_decode (s : str) : result bytes EncodingError :=
  match s with
  | [] => Ok []
  | _ =>
    let zeros := count_while (Z.eqb 49) (str_bytes s) in
    let! digits := decode_chars (str_bytes s) [] in
    Ok (replicate zeros 0 ++ rev digits)
  end.

Definition account_to_base58 (id : AccountId) : str := base58_encode id.

(** ** Hexadecimal *)

(** [char::is_ascii_hexdigit] and [char::to_digit(16)]. *)
Definition hex_value (c : Z) : option Z :=
  if (48 <=? c) && (c <=? 57) then Some (c - 48)
  else if (65 <=? c) && (c <=? 70) then Some (c - 55)
  else if (97 <=? c) && (c <=? 102) then Some (c - 87)
  else None.
Definition is_ascii_hexdigit (c : Z) : bool := bool_decide (is_Some (hex_value c)).

(** [u8::from_str_radix(src, 16)] of a string of two bytes: a leading [+] is
    a sign, and no value of one or two digits overflows. *)
Definition u8_from_hex (src : str) : option u8 :=
  match src with
  | [43; d] => hex_value d
  | [a; b] => match hex_value a, hex_value b with
              | Some x, Some y => Some (x * 16 + y)
              | _, _ => None
              end
  | _ => None
  end.

(** [&s[i..i + 2]] and the rest of the string. *)
Definition slice2 (s : str) : option (str * str) :=
  match s with
  | a :: s' =>
    if str_len [a] =? 2 then Some ([a], s')
    else if str_len [a] =? 1 then
      match s' with
      | b :: s'' => if str_len [b] =? 1 then Some ([a; b], s'') else None
      | [] => None
      end
    else None
  | [] => None
  end%nat.

(** The mapped iterator, stopped by the first error; [pairs] steps are left. *)
Fixpoint hex_pairs (pairs i : nat) (s : str) : outcome bytes :=
  match pairs with
  | O => Returned (Ok [])
  | S pairs =>
    match slice2 s with
    | None => Panicked
    | Some (two, rest) =>
      match u8_from_hex two with
      | None => Returned (Err (InvalidHexAt i))
      | Some b =>
        match hex_pairs pairs (i + 2) rest with
        | Returned (Ok bs) => Returned (Ok (b :: bs))
        | r => r
        end
      end
    end
  end.

Definition hex_decode (s : str) : outcome bytes :=
  let s := strip_0x s in
  if negb (str_len s mod 2 =? 0)%nat then Returned (Err OddHexLength)
  else hex_pairs (str_len s / 2) 0 s.

(** ** Addresses *)

(** [copy_from_slice] of the decoded bytes panics unless there are 32. *)
Definition parse_address (s : str) : outcome AccountId :=
  let s := trim s in
  let clean := strip_0x s in
  if (str_len clean =? 64)%nat && forallb is_ascii_hexdigit clean then
    match hex_decode clean with
    | Returned (Ok b) => if (length b =? 32)%nat then Returned (Ok b) else Panicked
    | r => r
    end
  else
  match base58_decode s with
  | Err e => Returned (Err (InvalidAddress e))
  | Ok b => if (length b =? 32)%nat then Returned (Ok b)
            else Returned (Err (WrongAddressLength (length b)))
  end.

(** The characters of an ASCII string. *)
Definition chars (s : string) : str := bytes_of_string s.

Example base58_known : base58_encode [0; 1; 2; 255] = chars "1LiA"
  /\ base58_decode (chars "1LiA") = Ok [0; 1; 2; 255].
Proof. split; vm_compute; reflexivity. Qed.

(** ** Change of base

    Both loops are the same change of base: [rebase from to] multiplies the
    number held in base [to] by [from] and adds one digit. *)
Section rebase.
Context (from to : Z) (Hfrom : 2 <= from <= 256) (Hto : 2 <= to).

Fixpoint mul_add (digits : list Z) (carry : Z) : list Z * Z :=
  match digits with
  | [] => ([], carry)
  | d :: digits =>
    let carry := carry + d * from in
    let '(rest, out) := mul_add digits (carry / to) in
    (carry mod to :: rest, out)
  end.
Fixpoint push_carry (fuel : nat) (carry : Z) : list Z :=
  match fuel with
  | O => []
  | S fuel => if 0 <? carry then carry mod to :: push_carry fuel (carry / to) else []
  end.
Definition add_digit (digits : list Z) (x : Z) : list Z :=
  let '(digits, carry) := mul_add digits x in digits ++ push_carry 32 carry.
Definition rebase (xs : list Z) : list Z :=
  replicate (count_while (Z.eqb 0) xs) 0 ++ rev (fold_left add_digit xs []).
End rebase.

(** The number a list of digits stands for, least significant digit first. *)
Fixpoint value (base : Z) (digits : list Z) : Z :=
  match digits with
  | [] => 0
  | d :: digits => d + base * value base digits
  end.
Definition digits_of (base : Z) (l : list Z) : Prop := Forall (fun d => 0 <= d < base) l.
(** No leading zero (the leading digit is the last one). *)
Definition canonical (l : list Z) : Prop := last l <> Some 0.

Lemma value_app base l1 l2 :
  value base (l1 ++ l2) = value base l1 + base ^ Z.of_nat (length l1) * value base l2.
Proof.
  induction l1 as [|d l1 IH]; simpl; [lia|]. rewrite IH, Nat2Z.inj_succ, Z.pow_succ_r by lia. ring.
Qed.

Lemma value_zeros base n : value base (replicate n 0) = 0.
Proof. induction n as [|n IH]; simpl; [done|]. rewrite IH. lia. Qed.

Lemma value_range base l :
  2 <= base -> digits_of base l -> 0 <= value base l < base ^ Z.of_nat (length l).
Proof.
  intros Hb. induction 1 as [|d l Hd _ IH]; simpl; [lia|].
  rewrite Nat2Z.inj_succ, Z.pow_succ_r by lia. nia.
Qed.

Lemma canonical_tail d l : canonical (d :: l) -> canonical l.
Proof. unfold canonical. destruct l; [done|by rewrite last_cons_cons]. Qed.

Lemma value_pos base l :
  2 <= base -> digits_of base l -> canonical l -> l <> [] -> 0 < value base l.
Proof.
  intros Hb. induction 1 as [|d l Hd Hl IH]; intros Hc Hn; [done|]. simpl.
  destruct l as [|d' l]; [|specialize (IH (canonical_tail _ _ Hc) ltac:(done)); nia].
  unfold canonical in Hc. simpl in *. assert (d <> 0) by congruence. nia.
Qed.

(** A number has one canonical list of digits. *)
Lemma value_inj base l1 l2 :
  2 <= base -> digits_of base l1 -> digits_of base l2 -> canonical l1 -> canonical l2 ->
  value base l1 = value base l2 -> l1 = l2.
Proof.
  intros Hb H1. revert l2. induction H1 as [|d l1 Hd H1 IH]; intros l2 H2 C1 C2 Hv.
  - destruct l2 as [|d' l2]; [done|]. pose proof (value_pos base (d' :: l2) Hb H2 C2 ltac:(done)).
    simpl in *. lia.
  - pose proof (value_pos base (d :: l1) Hb ltac:(by constructor) C1 ltac:(done)) as Hp.
    destruct H2 as [|d' l2 Hd' H2]; [simpl in *; lia|]. simpl in Hv.
    destruct (Z.div_mod_unique base (value base l1) (value base l2) d d') as [Hv' <-]; [lia..|].
    f_equal. eauto using canonical_tail.
Qed.

Section rebase_laws.
Context (from to : Z) (Hfrom : 2 <= from <= 256) (Hto : 2 <= to).

(** The carry stays below [from], so the sums stay below [from * to]. *)
Lemma mul_add_spec l c :
  digits_of to l -> 0 <= c < from ->
  let '(r, out) := mul_add from to l c in
  digits_of to r /\ length r = length l /\ 0 <= out < from
  /\ value to r + to ^ Z.of_nat (length l) * out = from * value to l + c
  /\ (canonical l -> out = 0 -> canonical r).
Proof.
  intros Hl. revert c. induction Hl as [|d l Hd Hl IH]; intros c Hc.
  { simpl. repeat split; [constructor|lia|lia|lia|done]. }
  simpl. set (c' := c + d * from).
  assert (Hc' : 0 <= c' / to < from)
    by (split; [apply Z.div_pos; unfold c'; nia | apply Z.div_lt_upper_bound; unfold c'; nia]).
  specialize (IH _ Hc'). destruct (mul_add from to l (c' / to)) as [r out].
  destruct IH as (Hr & Hlen & Hout & Hv & Hcan).
  pose proof (Z.mod_pos_bound c' to ltac:(lia)). pose proof (Z.div_mod c' to ltac:(lia)).
  split; [by constructor|]. split; [simpl; lia|]. split; [done|]. split.
  - cbn [value]. rewrite Nat2Z.inj_succ, Z.pow_succ_r by lia. unfold c' in *. nia.
  - intros Hcl ->. unfold canonical in *. destruct l as [|d2 l].
    + destruct r; [|done]. simpl in *. assert (d <> 0) by congruence. intros [= Hz].
      unfold c' in *. nia.
    + destruct r as [|r1 r]; [done|]. rewrite last_cons_cons. apply Hcan; [|done].
      by rewrite last_cons_cons in Hcl.
Qed.

Lemma push_carry_spec fuel c :
  0 <= c < 2 ^ Z.of_nat fuel ->
  digits_of to (push_carry to fuel c) /\ value to (push_carry to fuel c) = c
  /\ canonical (push_carry to fuel c).
Proof.
  revert c. induction fuel as [|fuel IH]; intros c Hc.
  { simpl in *. repeat split; [constructor|lia|done]. }
  cbn [push_carry]. destruct (Z.ltb_spec 0 c) as [Hpos|]; [|repeat split; [constructor|simpl; lia|done]].
  rewrite Nat2Z.inj_succ, Z.pow_succ_r in Hc by lia.
  destruct (IH (c / to)) as (Hd & Hv & Hcan).
  { split; [apply Z.div_pos; lia|]. apply Z.div_lt_upper_bound; nia. }
  pose proof (Z.mod_pos_bound c to ltac:(lia)). pose proof (Z.div_mod c to ltac:(lia)).
  split; [by constructor|]. split; [simpl; lia|]. unfold canonical in *.
  destruct (push_carry to fuel (c / to)) as [|x r]; [|by rewrite last_cons_cons].
  simpl in *. intros [= Hz]. lia.
Qed.

Lemma add_digit_spec l x :
  digits_of to l -> canonical l -> 0 <= x < from ->
  digits_of to (add_digit from to l x) /\ canonical (add_digit from to l x)
  /\ value to (add_digit from to l x) = from * value to l + x.
Proof.
  intros Hl Hc Hx. unfold add_digit. pose proof (mul_add_spec l x Hl Hx) as Hm.
  destruct (mul_add from to l x) as [r out]. destruct Hm as (Hr & Hlen & Hout & Hv & Hcan).
  destruct (push_carry_spec 32 out) as (Hd & Hpv & Hpc); [simpl; lia|].
  split; [by apply Forall_app|]. split.
  - unfold canonical in *. rewrite last_app. destruct (last (push_carry to 32 out)) eqn:E; [done|].
    apply last_None in E. rewrite E in Hpv. apply Hcan; [done|]. simpl in Hpv. lia.
  - rewrite value_app, Hpv, Hlen. lia.
Qed.

Lemma fold_add_digit_spec xs l :
  digits_of to l -> canonical l -> digits_of from xs ->
  let r := fold_left (add_digit from to) xs l in
  digits_of to r /\ canonical r
  /\ value to r = from ^ Z.of_nat (length xs) * value to l + value from (rev xs).
Proof.
  intros Hl Hc Hxs. revert l Hl Hc. induction Hxs as [|x xs Hx _ IH]; intros l Hl Hc.
  { simpl. split; [done|]. split; [done|]. lia. }
  cbn [fold_left]. destruct (add_digit_spec l x Hl Hc Hx) as (H1 & H2 & H3).
  destruct (IH _ H1 H2) as (G1 & G2 & G3). split; [done|]. split; [done|].
  rewrite G3, H3. cbn [rev length]. rewrite value_app, length_rev, Nat2Z.inj_succ, Z.pow_succ_r by lia.
  simpl. ring.
Qed.

(** The number and the leading zeros are what [rebase] keeps. *)
Lemma rebase_spec xs :
  digits_of from xs ->
  exists r, rebase from to xs = replicate (count_while (Z.eqb 0) xs) 0 ++ rev r
    /\ digits_of to r /\ canonical r /\ value to r = value from (rev xs).
Proof.
  intros Hxs. exists (fold_left (add_digit from to) xs []). split; [done|].
  destruct (fold_add_digit_spec xs []) as (H1 & H2 & H3); [constructor|done|done|].
  split; [done|]. split; [done|]. rewrite H3. simpl. lia.
Qed.

Lemma rebase_digits xs : digits_of from xs -> digits_of to (rebase from to xs).
Proof.
  intros Hxs. destruct (rebase_spec xs Hxs) as (r & -> & Hr & _). apply Forall_app. split.
  - apply Forall_replicate. lia.
  - by apply Forall_rev.
Qed.
End rebase_laws.

(** A list is its leading zeros and a list that does not start with zero. *)
Lemma count_while_split x l :
  exists l', l = replicate (count_while (Z.eqb x) l) x ++ l' /\ head l' <> Some x.
Proof.
  induction l as [|y l (l' & IH & Hh)]; simpl; [by exists []|].
  destruct (Z.eqb_spec x y) as [<-|Hne].
  - exists l'. simpl. by rewrite <- IH.
  - exists (y :: l). split; [done|]. simpl. congruence.
Qed.

Lemma count_while_app x n l :
  head l <> Some x -> count_while (Z.eqb x) (replicate n x ++ l) = n.
Proof.
  intros Hl. induction n as [|n IH]; simpl.
  - destruct l as [|y l]; [done|]. simpl in *. destruct (Z.eqb_spec x y); congruence.
  - by rewrite Z.eqb_refl, IH.
Qed.

Lemma rev_replicate {A} n (x : A) : rev (replicate n x) = replicate n x.
Proof. rewrite rev_alt. apply reverse_replicate. Qed.

Lemma canonical_rev l : canonical l <-> head (rev l) <> Some 0.
Proof. unfold canonical. rewrite rev_alt. by rewrite <- head_reverse. Qed.

(** Changing the base twice gives the digits back. *)
Lemma rebase_rebase from to xs :
  2 <= from <= 256 -> 2 <= to <= 256 -> digits_of from xs ->
  rebase to from (rebase from to xs) = xs.
Proof.
  intros Hf Ht Hxs.
  destruct (rebase_spec from to Hf ltac:(lia) xs Hxs) as (r & Er & Hr & Hc & Hv).
  pose proof (rebase_digits from to Hf ltac:(lia) xs Hxs) as Hd.
  destruct (rebase_spec to from Ht ltac:(lia) _ Hd) as (r' & Er' & Hr' & Hc' & Hv').
  rewrite Er'. rewrite Er at 1. rewrite count_while_app by by apply canonical_rev.
  destruct (count_while_split 0 xs) as (ys & Exs & Hh). set (n := count_while _ xs) in *.
  rewrite Exs. f_equal. rewrite <- (rev_involutive ys). f_equal.
  apply (value_inj from); [lia|done| |done| |].
  - apply Forall_rev. rewrite Exs in Hxs. by apply Forall_app in Hxs as [_ ?].
  - apply canonical_rev. by rewrite rev_involutive.
  - rewrite Hv', Er, rev_app_distr, rev_involutive, value_app, rev_replicate.
    rewrite value_zeros, Hv. rewrite Exs at 1.
    rewrite rev_app_distr, value_app, rev_replicate, value_zeros. lia.
Qed.

(** ** Base58 as a change of base *)

Definition base58_char (d : Z) : Z := nth (Z.to_nat d) BASE58_ALPHABET 0.
Definition base58_value (c : Z) : Z := nth (Z.to_nat c) base58_table 255.
Definition is_base58 (c : Z) : Prop := c < 128 /\ base58_value c <> 255.

Lemma encode_byte_rebase : encode_byte = add_digit 256 58.
Proof. reflexivity. Qed.

Lemma land_255 c : Z.land c 255 = c mod 256.
Proof. change 255 with (Z.ones 8). by rewrite Z.land_ones. Qed.

Lemma shiftr_8 c : Z.shiftr c 8 = c / 256.
Proof. by rewrite Z.shiftr_div_pow2. Qed.

Lemma decode_digits_rebase l c : decode_digits l c = mul_add 58 256 l c.
Proof.
  revert c. induction l as [|d l IH]; intros c; [done|]. cbn [decode_digits mul_add].
  by rewrite land_255, shiftr_8, IH.
Qed.

Lemma decode_carry_rebase fuel c : decode_carry fuel c = push_carry 256 fuel c.
Proof.
  revert c. induction fuel as [|fuel IH]; intros c; [done|]. cbn [decode_carry push_carry].
  by rewrite land_255, shiftr_8, IH.
Qed.

Lemma decode_digit_rebase l x : decode_digit l x = add_digit 58 256 l x.
Proof.
  unfold decode_digit, add_digit. rewrite decode_digits_rebase.
  destruct (mul_add 58 256 l x). by rewrite decode_carry_rebase.
Qed.

(** A predicate on a range of integers, decided by evaluation. *)
Lemma range_forallb (n : nat) (p : Z -> bool) :
  forallb (fun i => p (Z.of_nat i)) (seq 0 n) = true ->
  forall z, 0 <= z < Z.of_nat n -> p z = true.
Proof.
  intros H z Hz. rewrite forallb_forall in H. specialize (H (Z.to_nat z)).
  rewrite Z2Nat.id in H by lia. apply H, in_seq. lia.
Qed.

Lemma base58_char_value d :
  0 <= d < 58 -> base58_value (base58_char d) = d /\ 0 <= base58_char d < 128.
Proof.
  intros Hd. assert (H := range_forallb 58 (fun d => (base58_value (base58_char d) =? d)
    && (0 <=? base58_char d) && (base58_char d <? 128)) ltac:(vm_compute; reflexivity) d Hd).
  simpl in H. lia.
Qed.

Lemma base58_value_char c :
  is_base58 c -> 0 <= c /\ 0 <= base58_value c < 58 /\ base58_char (base58_value c) = c.
Proof.
  intros [Hc Hv]. destruct (Z.ltb_spec c 0).
  { exfalso. apply Hv. unfold base58_value. by replace (Z.to_nat c) with 0%nat by lia. }
  assert (H' := range_forallb 128 (fun c => (base58_value c =? 255) || ((0 <=? base58_value c)
    && (base58_value c <? 58) && (base58_char (base58_value c) =? c)))
    ltac:(vm_compute; reflexivity) c ltac:(lia)).
  simpl in H'. lia.
Qed.

Lemma is_base58_char d : 0 <= d < 58 -> is_base58 (base58_char d).
Proof. intros Hd. destruct (base58_char_value d Hd) as [Hv ?]. split; [lia|]. rewrite Hv. lia. Qed.

(** What a Base58 character is not: zero, the separator of [0x], a space. *)
Lemma is_base58_plain c : is_base58 c -> is_whitespace c = false /\ c <> 48.
Proof.
  intros H. destruct (base58_value_char c H) as (H0 & _). destruct H as [Hc Hv].
  assert (H' := range_forallb 128 (fun c => (base58_value c =? 255)
    || (negb (is_whitespace c) && negb (c =? 48))) ltac:(vm_compute; reflexivity) c ltac:(lia)).
  simpl in H'. destruct (is_whitespace c); lia.
Qed.

Lemma base58_encode_rebase b : base58_encode b = map base58_char (rebase 256 58 b).
Proof.
  destruct b as [|x b]; [done|]. unfold base58_encode, rebase. rewrite encode_byte_rebase, map_app.
  f_equal. symmetry. apply (fmap_replicate base58_char).
Qed.

Lemma str_bytes_ascii s : Forall (fun c => c < 128) s -> str_bytes s = s.
Proof.
  induction 1 as [|c s Hc _ IH]; [done|]. change (utf8_char c ++ str_bytes s = c :: s).
  unfold utf8_char. destruct (Z.ltb_spec c 128); [|lia]. by rewrite IH.
Qed.

(** A character outside ASCII starts with a byte outside ASCII. *)
Lemma str_bytes_ascii_inv s : Forall (fun c => c < 128) (str_bytes s) -> Forall (fun c => c < 128) s.
Proof.
  induction s as [|c s IH]; [done|]. change (str_bytes (c :: s)) with (utf8_char c ++ str_bytes s).
  intros [Hc Hs]%Forall_app.
  constructor; [|by apply IH]. unfold utf8_char in Hc. destruct (Z.ltb_spec c 128); [done|]. exfalso.
  pose proof (Z.div_pos c 64 ltac:(lia) ltac:(lia)).
  pose proof (Z.div_pos c 4096 ltac:(lia) ltac:(lia)).
  pose proof (Z.div_pos c 262144 ltac:(lia) ltac:(lia)).
  repeat case_match; apply Forall_cons in Hc as [Hx _]; lia.
Qed.

Lemma decode_chars_ok cs acc r :
  decode_chars cs acc = Ok r <->
  Forall is_base58 cs /\ r = fold_left (add_digit 58 256) (map base58_value cs) acc.
Proof.
  revert acc. induction cs as [|c cs IH]; intros acc; cbn [decode_chars map fold_left].
  { split; [intros [= <-]; split; [constructor|done]|by intros [_ ->]]. }
  fold (base58_value c). destruct (Z.leb_spec 128 c) as [Hc|Hc].
  { split; [done|]. intros [[[? _] _]%Forall_cons _]. lia. }
  destruct (Z.eqb_spec (base58_value c) 255) as [Hv|Hv].
  { split; [done|]. by intros [[[_ ?] _]%Forall_cons _]. }
  rewrite IH, Forall_cons, decode_digit_rebase. unfold is_base58. tauto.
Qed.

Lemma count_ones_value s :
  Forall is_base58 s -> count_while (Z.eqb 49) s = count_while (Z.eqb 0) (map base58_value s).
Proof.
  induction 1 as [|c s Hc _ IH]; [done|]. cbn [count_while map].
  destruct (Z.eqb_spec 49 c) as [<-|Hne]; [by rewrite IH|].
  destruct (Z.eqb_spec 0 (base58_value c)) as [Hz|]; [|done]. exfalso. apply Hne.
  destruct (base58_value_char c Hc) as (_ & _ & <-). by rewrite <- Hz.
Qed.

Lemma is_base58_ascii s : Forall is_base58 s -> Forall (fun c => c < 128) s.
Proof. intros H. eapply Forall_impl; [exact H|]. by intros c [? _]. Qed.

Lemma base58_decode_ok s b :
  base58_decode s = Ok b <-> Forall is_base58 s /\ b = rebase 58 256 (map base58_value s).
Proof.
  destruct s as [|c s]; [split; [intros [= <-]; split; [constructor|done]|by intros [_ ->]]|].
  unfold base58_decode. set (t := c :: s). unfold rbind. split.
  - destruct (decode_chars (str_bytes t) []) as [r|] eqn:E; [|done]. intros Hb.
    assert (b = replicate (count_while (Z.eqb 49) (str_bytes t)) 0 ++ rev r) as -> by congruence.
    apply decode_chars_ok in E as [Hs ->]. assert (Ht : str_bytes t = t).
    { apply str_bytes_ascii, str_bytes_ascii_inv, is_base58_ascii, Hs. }
    rewrite Ht in Hs. split; [done|]. rewrite Ht.
    rewrite (count_ones_value t) by done. reflexivity.
  - intros [Hs ->]. rewrite (str_bytes_ascii t) by by apply is_base58_ascii.
    assert (Er : decode_chars t [] = Ok (fold_left (add_digit 58 256) (map base58_value t) []))
      by by apply decode_chars_ok.
    rewrite Er, count_ones_value by done. done.
Qed.

Lemma base58_encode_chars b : digits_of 256 b -> Forall is_base58 (base58_encode b).
Proof.
  intros Hb. rewrite base58_encode_rebase. apply Forall_map.
  eapply Forall_impl; [apply (rebase_digits 256 58 ltac:(lia) ltac:(lia)), Hb|].
  intros d Hd. by apply is_base58_char.
Qed.

Lemma map_base58_value s : Forall is_base58 s -> map base58_char (map base58_value s) = s
  /\ digits_of 58 (map base58_value s).
Proof.
  induction 1 as [|c s Hc _ [IH1 IH2]]; [by split; [|constructor]|]. destruct (base58_value_char c Hc) as (_ & Hv & Hch).
  cbn [map]. rewrite Hch, IH1. split; [done|by constructor].
Qed.

Lemma map_base58_char l : digits_of 58 l -> map base58_value (map base58_char l) = l.
Proof.
  induction 1 as [|d l Hd _ IH]; [done|]. cbn [map]. destruct (base58_char_value d Hd) as [-> _].
  by rewrite IH.
Qed.

(** Encoding and decoding are inverse bijections between the byte strings and
    the strings over the alphabet: every address has one Base58 spelling. *)
Theorem base58_bijective s b :
  digits_of 256 b -> (base58_decode s = Ok b <-> base58_encode b = s).
Proof.
  intros Hb. rewrite base58_decode_ok. split.
  - intros [Hs ->]. destruct (map_base58_value s Hs) as [Hm Hd].
    by rewrite base58_encode_rebase, rebase_rebase by (lia || done).
  - intros <-. split; [by apply base58_encode_chars|].
    rewrite base58_encode_rebase, map_base58_char, rebase_rebase; [done|lia|lia|done|].
    by apply rebase_digits; [lia..|].
Qed.

Lemma base58_bijective_witness :
  digits_of 256 [0; 1; 2; 255] /\ base58_decode (chars "1LiA") = Ok [0; 1; 2; 255].
Proof.
  assert (H : digits_of 256 [0; 1; 2; 255]) by (repeat constructor; lia).
  split; [done|]. apply (base58_bijective _ _ H). vm_compute. reflexivity.
Defined.

Lemma base58_decode_bytes s b : base58_decode s = Ok b -> digits_of 256 b.
Proof.
  intros [Hs ->]%base58_decode_ok. apply rebase_digits; [lia..|]. by apply map_base58_value.
Qed.

(** ** The length of a Base58 string *)

Lemma value_ge base l :
  2 <= base -> digits_of base l -> canonical l -> l <> [] ->
  base ^ (Z.of_nat (length l) - 1) <= value base l.
Proof.
  intros Hb. induction 1 as [|d l Hd Hl IH]; intros Hc Hn; [done|].
  destruct l as [|d' l].
  - pose proof (value_pos base [d] Hb ltac:(by repeat constructor; lia) Hc Hn). simpl in *. lia.
  - specialize (IH (canonical_tail _ _ Hc) ltac:(done)). set (l' := d' :: l) in *.
    change (value base (d :: l')) with (d + base * value base l').
    replace (Z.of_nat (length (d :: l')) - 1) with (Z.succ (Z.of_nat (length l') - 1))
      by (simpl; lia).
    rewrite Z.pow_succ_r by (simpl; lia). nia.
Qed.

Lemma base58_length b :
  digits_of 256 b -> (2 * length (base58_encode b) <= 3 * length b + 2)%nat.
Proof.
  intros Hb. rewrite base58_encode_rebase, length_map.
  destruct (rebase_spec 256 58 ltac:(lia) ltac:(lia) b Hb) as (r & -> & Hr & Hc & Hv).
  rewrite length_app, length_replicate, length_rev.
  destruct (count_while_split 0 b) as (ys & Eb & _). set (z := count_while _ b) in *.
  assert (Hlen : length b = (z + length ys)%nat) by by rewrite Eb, length_app, length_replicate.
  destruct (decide (r = [])) as [->|Hn]; [simpl; lia|].
  pose proof (value_ge 58 r ltac:(lia) Hr Hc Hn) as Hge.
  assert (Hlt : value 58 r < 256 ^ Z.of_nat (length ys)).
  { rewrite Hv, Eb, rev_app_distr, value_app, rev_replicate, value_zeros.
    rewrite Eb in Hb. apply Forall_app in Hb as [_ Hys].
    pose proof (value_range 256 (rev ys) ltac:(lia) ltac:(by apply Forall_rev)) as Hr'.
    rewrite length_rev in Hr'. lia. }
  set (m := Z.of_nat (length ys)) in *. set (k := Z.of_nat (length r)) in *.
  assert (Hk : 1 <= k) by (unfold k; destruct r; [done|simpl; lia]).
  assert (Hpow : 58 ^ (2 * (k - 1)) < 58 ^ (3 * m)).
  { rewrite !Z.pow_mul_r by lia. change (58 ^ 3) with 195112.
    apply Z.lt_le_trans with ((256 ^ 2) ^ m); [|apply Z.pow_le_mono_l; lia].
    rewrite <- !Z.pow_mul_r, !(Z.mul_comm 2), !Z.pow_mul_r by lia.
    apply Z.pow_lt_mono_l; [lia|]. split; [apply Z.pow_nonneg; lia|lia]. }
  apply Z.pow_lt_mono_r_iff in Hpow; [|lia..]. lia.
Qed.

(** ** Hexadecimal *)

Definition hex_char (d : Z) : Z := if d <? 10 then 48 + d else 87 + d.
Definition to_ascii_lowercase (c : Z) : Z := if (65 <=? c) && (c <=? 90) then c + 32 else c.
Definition hex_digit_value (c : Z) : Z := default 0 (hex_value c).
Fixpoint unhex (s : str) : bytes :=
  match s with
  | a :: b :: s => hex_digit_value a * 16 + hex_digit_value b :: unhex s
  | _ => []
  end.

Lemma hex_text_cons x b :
  chars (hex_encode (x :: b)) = Z.of_nat (Ascii.nat_of_ascii (hex_digit (x / 16)))
    :: Z.of_nat (Ascii.nat_of_ascii (hex_digit (x mod 16))) :: chars (hex_encode b).
Proof. unfold chars, hex_encode. simpl. by destruct b. Qed.

Lemma is_ascii_hexdigit_value c :
  is_ascii_hexdigit c = true -> hex_value c = Some (hex_digit_value c).
Proof.
  unfold is_ascii_hexdigit, hex_digit_value. intros [v ->]%bool_decide_eq_true. done.
Qed.

Lemma hex_digit_char d : 0 <= d < 16 -> Z.of_nat (Ascii.nat_of_ascii (hex_digit d)) = hex_char d
  /\ hex_value (hex_char d) = Some d.
Proof.
  intros Hd. assert (H := range_forallb 16 (fun d => (Z.of_nat (Ascii.nat_of_ascii (hex_digit d)) =?
    hex_char d) && is_ascii_hexdigit (hex_char d) && (hex_digit_value (hex_char d) =? d))
    ltac:(vm_compute; reflexivity) d Hd). cbn beta in H.
  apply andb_prop in H as [[H1 H2%is_ascii_hexdigit_value]%andb_prop H3]. rewrite H2.
  split; [|f_equal]; lia.
Qed.

Lemma hex_digit_spec c :
  is_ascii_hexdigit c = true ->
  48 <= c < 128 /\ c <> 120 /\ is_whitespace c = false /\ 0 <= hex_digit_value c < 16
  /\ hex_value c = Some (hex_digit_value c) /\ hex_char (hex_digit_value c) = to_ascii_lowercase c.
Proof.
  intros H. assert (Hr : 0 <= c < 128).
  { unfold is_ascii_hexdigit, hex_value in H. case_bool_decide as Hs; [|done].
    repeat case_match; try by destruct Hs. all: lia. }
  assert (H' := range_forallb 128 (fun c => negb (is_ascii_hexdigit c) || ((48 <=? c)
    && negb (c =? 120) && negb (is_whitespace c) && (0 <=? hex_digit_value c)
    && (hex_digit_value c <? 16) && (hex_char (hex_digit_value c) =? to_ascii_lowercase c)))
    ltac:(vm_compute; reflexivity) c ltac:(lia)). cbn beta in H'. rewrite H in H'. simpl in H'.
  pose proof (is_ascii_hexdigit_value c H). destruct (is_whitespace c); repeat split; done || lia.
Qed.

Lemma to_lower_hexdigit c :
  is_ascii_hexdigit (to_ascii_lowercase c) = true -> is_ascii_hexdigit c = true.
Proof.
  unfold to_ascii_lowercase. destruct (_ && _) eqn:E; [|done]. intros H.
  assert (H' := range_forallb 91 (fun c => negb (65 <=? c) || negb (is_ascii_hexdigit (c + 32))
    || is_ascii_hexdigit c) ltac:(vm_compute; reflexivity) c ltac:(lia)). cbn beta in H'.
  rewrite H in H'. assert ((65 <=? c) = true) as E' by lia. by rewrite E' in H'.
Qed.

Lemma hex_pairs_digits n i s :
  forallb is_ascii_hexdigit s = true -> length s = (2 * n)%nat ->
  hex_pairs n i s = Returned (Ok (unhex s)).
Proof.
  revert i s. induction n as [|n IH]; intros i s Hs Hl.
  { by destruct s. }
  destruct s as [|a [|b s]]; [simpl in Hl; lia..|]. simpl in Hs.
  apply andb_prop in Hs as [Ha [Hb Hs]%andb_prop].
  destruct (hex_digit_spec a Ha) as (? & _ & _ & _ & Hva & _).
  destruct (hex_digit_spec b Hb) as (? & _ & _ & _ & Hvb & _).
  assert (H1 : forall c, 48 <= c < 128 -> str_len [c] = 1%nat).
  { intros c Hc. unfold str_len, str_bytes, utf8_char. simpl. by destruct (Z.ltb_spec c 128); [|lia]. }
  assert (Hu : u8_from_hex [a; b] = Some (hex_digit_value a * 16 + hex_digit_value b)).
  { unfold u8_from_hex. rewrite Hva, Hvb. repeat case_match; done || lia. }
  cbn [hex_pairs]. unfold slice2. rewrite !H1 by done. simpl (_ =? _)%nat. cbn iota.
  rewrite Hu, IH; [done|done|]. simpl in Hl. lia.
Qed.

Lemma strip_0x_digits s : forallb is_ascii_hexdigit s = true -> strip_0x s = s.
Proof.
  unfold strip_0x. repeat case_match; done.
Qed.

Lemma hexdigits_ascii s : forallb is_ascii_hexdigit s = true -> str_len s = length s.
Proof.
  intros Hs. unfold str_len. rewrite str_bytes_ascii; [done|]. rewrite forallb_forall in Hs.
  apply List.Forall_forall. intros c Hc%Hs. destruct (hex_digit_spec c Hc). lia.
Qed.

Lemma hex_decode_digits n s :
  forallb is_ascii_hexdigit s = true -> length s = (2 * n)%nat ->
  hex_decode s = Returned (Ok (unhex s)).
Proof.
  intros Hs Hl. unfold hex_decode. rewrite strip_0x_digits, (hexdigits_ascii s), Hl by done.
  rewrite Nat.mul_comm, Nat.Div0.mod_mul, Nat.div_mul by lia. simpl. apply hex_pairs_digits; [done|lia].
Qed.

(** On the spellings of a byte string, upper or lower case, [unhex] is the
    inverse of the encoder. *)
Lemma unhex_spec b s :
  (digits_of 256 b /\ map to_ascii_lowercase s = chars (hex_encode b))
  <-> (forallb is_ascii_hexdigit s = true /\ length s = (2 * length b)%nat /\ unhex s = b).
Proof.
  revert s. induction b as [|x b IH]; intros s.
  { split.
    - intros [_ Hs]. by destruct s.
    - intros (_ & Hl & _). destruct s; [|done]. split; [constructor|done]. }
  destruct s as [|c1 [|c2 s]].
  1,2: split; [rewrite hex_text_cons; by intros [_ ?]|intros (_ & Hl & _); simpl in Hl; lia].
  rewrite hex_text_cons. cbn [map forallb length unhex]. specialize (IH s). split.
  - intros [[Hx Hb]%Forall_cons Hs].
    pose proof (Z.div_pos x 16 ltac:(lia) ltac:(lia)).
    pose proof (Z.div_lt_upper_bound x 16 16 ltac:(lia) ltac:(lia)).
    destruct (hex_digit_char (x / 16) ltac:(lia)) as [E1 V1].
    destruct (hex_digit_char (x mod 16) (Z.mod_pos_bound x 16 ltac:(lia))) as [E2 V2].
    rewrite E1, E2 in Hs. injection Hs as L1 L2 Hs.
    destruct IH as [IH _]. destruct IH as (F & Hl & Hu); [done|].
    assert (D : forall c d, to_ascii_lowercase c = hex_char d -> hex_value (hex_char d) = Some d ->
      is_ascii_hexdigit c = true /\ hex_digit_value c = d).
    { intros c d Hc Hd. assert (is_ascii_hexdigit c = true) as Hcd.
      { apply to_lower_hexdigit. rewrite Hc. unfold is_ascii_hexdigit. rewrite Hd.
        by apply bool_decide_eq_true. }
      split; [done|]. destruct (hex_digit_spec c Hcd) as (_ & _ & _ & _ & _ & Hh).
      rewrite Hc in Hh. destruct (hex_digit_spec c Hcd) as (_ & _ & _ & Hr & _).
      destruct (hex_digit_char _ Hr) as [_ Hv]. rewrite Hh, Hd in Hv. by injection Hv. }
    destruct (D _ _ L1 V1) as [-> ->], (D _ _ L2 V2) as [-> ->]. rewrite F, Hu.
    split; [done|]. split; [lia|]. f_equal. rewrite (Z.div_mod x 16) at 3 by lia. lia.
  - intros ([H1 [H2 Hs]%andb_prop]%andb_prop & Hl & Hu). injection Hu as Hx Hu.
    destruct (hex_digit_spec c1 H1) as (_ & _ & _ & R1 & _ & L1).
    destruct (hex_digit_spec c2 H2) as (_ & _ & _ & R2 & _ & L2).
    destruct IH as [_ IH]. destruct IH as [Hb Hm]; [split; [done|]; split; [lia|done]|].
    assert (x / 16 = hex_digit_value c1 /\ x mod 16 = hex_digit_value c2) as [-> ->].
    { rewrite <- Hx. split.
      - rewrite Z.div_add_l by lia. rewrite (Z.div_small (hex_digit_value c2)) by lia. lia.
      - rewrite Z.add_comm, Z_mod_plus_full. by rewrite Z.mod_small. }
    destruct (hex_digit_char _ R1) as [-> _], (hex_digit_char _ R2) as [-> _].
    rewrite L1, L2, Hm. split; [constructor; [lia|done]|done].
Qed.

(** ** Addresses *)

Lemma drop_while_none p s : Forall (fun c => p c = false) s -> drop_while p s = s.
Proof. destruct 1 as [|c s Hc _]; simpl; [done|by rewrite Hc]. Qed.

Lemma trim_plain s : Forall (fun c => is_whitespace c = false) s -> trim s = s.
Proof.
  intros Hs. unfold trim. rewrite (drop_while_none _ s), drop_while_none; [|by apply Forall_rev|done].
  apply rev_involutive.
Qed.

Lemma base58_strip_0x s : Forall is_base58 s -> strip_0x s = s.
Proof.
  destruct 1 as [|c s Hc Hs]; [done|]. unfold strip_0x.
  destruct (is_base58_plain c Hc) as [_ ?]. repeat case_match; done.
Qed.

Lemma hex_decode_spec s b :
  length b = 32%nat -> (digits_of 256 b /\ map to_ascii_lowercase s = chars (hex_encode b))
  <-> str_len s = 64%nat /\ forallb is_ascii_hexdigit s = true /\ hex_decode s = Returned (Ok b).
Proof.
  intros Hb. rewrite unhex_spec, Hb. split.
  - intros (Hs & Hl & Hu). rewrite (hexdigits_ascii s) by done. split; [lia|]. split; [done|].
    rewrite (hex_decode_digits 32) by done. by rewrite Hu.
  - intros (Hl & Hs & Hd). rewrite hexdigits_ascii in Hl by done.
    rewrite (hex_decode_digits 32) in Hd by done. injection Hd as Hd. done.
Qed.

Lemma hex_decode_32 s :
  str_len s = 64%nat -> forallb is_ascii_hexdigit s = true ->
  exists b, hex_decode s = Returned (Ok b) /\ length b = 32%nat.
Proof.
  intros Hl Hs. rewrite (hexdigits_ascii s) in Hl by done. exists (unhex s).
  split; [by apply (hex_decode_digits 32)|]. clear Hs. change 64%nat with (2 * 32)%nat in Hl.
  revert s Hl. generalize 32%nat as n. induction n as [|n IH]; intros s Hl; [by destruct s|].
  destruct s as [|a [|b s]]; [simpl in Hl; lia..|]. simpl. f_equal. apply IH. simpl in Hl. lia.
Qed.

(** The parser never panics: the hexadecimal branch only slices ASCII, and
    [copy_from_slice] only sees 32 bytes. *)
Theorem parse_address_never_panics s : parse_address s <> Panicked.
Proof.
  unfold parse_address. destruct (_ && _) eqn:E.
  - apply andb_prop in E as [El%Nat.eqb_eq Es]. destruct (hex_decode_32 _ El Es) as (b & -> & Hb).
    by rewrite Hb.
  - repeat case_match; done.
Qed.

(** The addresses the parser accepts: up to surrounding white space, the
    Base58 spelling of the identifier, or its hexadecimal spelling in either
    case with or without [0x]; nothing else. *)
Lemma parse_address_spec s id :
  parse_address s = Returned (Ok id) <->
  length id = 32%nat /\ digits_of 256 id /\
  (trim s = base58_encode id
   \/ map to_ascii_lowercase (strip_0x (trim s)) = chars (hex_encode id)).
Proof.
  unfold parse_address. set (t := trim s). split.
  - destruct (_ && _) eqn:E.
    + apply andb_prop in E as [El%Nat.eqb_eq Es]. destruct (hex_decode_32 _ El Es) as (b & Eb & Hb).
      rewrite Eb, Hb. simpl. intros [= <-].
      destruct (proj2 (hex_decode_spec (strip_0x t) b Hb)) as [Hd Hm]; [done|]. auto.
    + destruct (base58_decode t) as [b|] eqn:Eb; [|done].
      destruct (Nat.eqb_spec (length b) 32) as [Hb|]; [|done]. intros [= <-].
      pose proof (base58_decode_bytes _ _ Eb) as Hd. split; [done|]. split; [done|]. left.
      symmetry. by apply base58_bijective.
  - intros (Hl & Hd & [Ht|Ht]).
    + pose proof (base58_encode_chars id Hd) as Hc. rewrite <- Ht in Hc.
      rewrite base58_strip_0x by done.
      assert (Hlen : (str_len t <> 64)%nat).
      { unfold str_len. rewrite str_bytes_ascii, Ht by by apply is_base58_ascii.
        pose proof (base58_length id Hd). lia. }
      apply Nat.eqb_neq in Hlen. rewrite Hlen. simpl.
      assert (base58_decode t = Ok id) as -> by by apply base58_bijective. by rewrite Hl.
    + destruct (proj1 (hex_decode_spec (strip_0x t) id Hl)) as (H1 & H2 & H3); [done|].
      rewrite H1, H2, H3. simpl. by rewrite Hl.
Qed.

Lemma hex_encode_digits b :
  digits_of 256 b -> forallb is_ascii_hexdigit (chars (hex_encode b)) = true
  /\ map to_ascii_lowercase (chars (hex_encode b)) = chars (hex_encode b).
Proof.
  induction 1 as [|x b Hx _ [IH1 IH2]]; [done|]. rewrite hex_text_cons. cbn [forallb map].
  pose proof (Z.div_pos x 16 ltac:(lia) ltac:(lia)).
  pose proof (Z.div_lt_upper_bound x 16 16 ltac:(lia) ltac:(lia)).
  assert (D : forall d, 0 <= d < 16 -> is_ascii_hexdigit (hex_char d) = true
    /\ to_ascii_lowercase (hex_char d) = hex_char d).
  { intros d Hd. assert (H' := range_forallb 16 (fun d => is_ascii_hexdigit (hex_char d)
      && (to_ascii_lowercase (hex_char d) =? hex_char d)) ltac:(vm_compute; reflexivity) d Hd).
    apply andb_prop in H' as [H1 H2]. split; [done|lia]. }
  pose proof (Z.mod_pos_bound x 16 ltac:(lia)) as Hm.
  destruct (hex_digit_char (x / 16) ltac:(lia)) as [-> _], (hex_digit_char _ Hm) as [-> _].
  destruct (D (x / 16) ltac:(lia)) as [-> ->], (D _ Hm) as [-> ->]. by rewrite IH1, IH2.
Qed.

Lemma hexdigits_plain s :
  forallb is_ascii_hexdigit s = true -> Forall (fun c => is_whitespace c = false) s.
Proof.
  intros Hs. rewrite forallb_forall in Hs. apply List.Forall_forall. intros c Hc%Hs.
  by destruct (hex_digit_spec c Hc) as (_ & _ & ? & _).
Qed.

(** C38: Every spelling of an account parses back to it: the Base58 text that is
    displayed, the hexadecimal text, and that text after [0x]; and a text that
    parses to the account is one of them, up to white space around it and the
    case of hexadecimal digits. *)
Theorem address_roundtrip id :
  length id = 32%nat -> digits_of 256 id ->
  parse_address (account_to_base58 id) = Returned (Ok id)
  /\ parse_address (chars (hex_encode id)) = Returned (Ok id)
  /\ parse_address (chars "0x" ++ chars (hex_encode id)) = Returned (Ok id)
  /\ (forall s, parse_address s = Returned (Ok id) ->
       trim s = account_to_base58 id
       \/ map to_ascii_lowercase (strip_0x (trim s)) = chars (hex_encode id)).
Proof.
  intros Hl Hd. destruct (hex_encode_digits id Hd) as [Hh Hlow].
  pose proof (hexdigits_plain _ Hh) as Hp.
  split; [|split; [|split]]; [apply parse_address_spec; split_and!; [done..|]|..|].
  - left. apply trim_plain. eapply Forall_impl; [by apply base58_encode_chars|].
    intros c Hc. by apply is_base58_plain.
  - apply parse_address_spec. split_and!; [done..|]. right.
    by rewrite trim_plain, strip_0x_digits.
  - apply parse_address_spec. split_and!; [done..|]. right.
    rewrite trim_plain; [exact Hlow|]. apply Forall_app. split; [|exact Hp].
    apply Forall_cons; split; [reflexivity|]. apply Forall_singleton. reflexivity.
  - intros s (_ & _ & H)%parse_address_spec. done.
Qed.

Lemma address_roundtrip_witness :
  length (addr 1) = 32%nat /\ parse_address (account_to_base58 (addr 1)) = Returned (Ok (addr 1)).
Proof.
  assert (H : digits_of 256 (addr 1)).
  { unfold addr. apply Forall_app. split; [apply Forall_replicate; lia|repeat constructor; lia]. }
  split; [reflexivity|]. exact (proj1 (address_roundtrip (addr 1) eq_refl H)).
Defined.

(** [hex_decode] itself slices by byte offset: a character outside ASCII at an
    odd offset makes it panic, where an invalid digit is an error. *)
Theorem hex_decode_panics :
  hex_decode [97; 233; 97] = Panicked /\ hex_decode (chars "zz") = Returned (Err (InvalidHexAt 0)).
Proof. split; vm_compute; reflexivity. Qed.

(** A pair with a plus sign is read as one digit. *)
Theorem hex_decode_sign :
  hex_decode (chars "+f+1") = Returned (Ok [15; 1])
  /\ hex_decode (chars "0f01") = Returned (Ok [15; 1]).
Proof. split; vm_compute; reflexivity. Qed.
