(* ===== verification/Settlement.v ===== *)
(** The settlement side of the execution crate: the registry that verifies
    rollup batches ([crates/solen-execution/src/proof.rs]) and the genesis
    allocation ([genesis.rs]). *)

From S2P Require Import Prelude Types Store Memory Rollup Codec State.
Open Scope Z_scope.

Inductive ProofError : Type :=
| InvalidProof
| UnknownProofType (id : RollupId)
| RollupNotRegistered (id : RollupId)
| VerifierError (why : string).

(** The trait [ProofVerifierBackend]: one verifier. *)
Record Backend : Type := mkBackend {
  be_verify : Hash -> Hash -> Hash -> bytes -> result bool string;
  be_proof_type : string;
}.

(** [MockVerifier]: unlike the prover's own check, a proof of the wrong length
    is refused and not an error. *)
Definition mock_verifier (blake3 : bytes -> Hash) : Backend :=
  mkBackend (fun pre post data_hash proof =>
               if negb (length proof =? 32)%nat then Ok false
               else Ok (bytes_eqb proof (blake3 (MOCK_TAG ++ pre ++ post ++ data_hash))))
            "mock".

Record RollupVerifierState : Type := mkRollupState {
  rv_proof_type : string;
  rv_last_root : Hash;
}.

Record VerifiedBatch : Type := mkVerified {
  vb_rollup_id : RollupId;
  vb_batch_index : u64;
  vb_state_root : Hash;
  vb_data_hash : Hash;
  vb_pre_state_root : Hash;
}.

Record ProofVerifierRegistry : Type := mkRegistry {
  pr_rollups : gmap Z RollupVerifierState;
  pr_verifiers : gmap string Backend;
  pr_batches : list VerifiedBatch;
}.

Definition registry_new : ProofVerifierRegistry := mkRegistry ∅ ∅ [].

Definition register_verifier (backend : Backend) (r : ProofVerifierRegistry) :
    ProofVerifierRegistry :=
  mkRegistry (pr_rollups r) (<[be_proof_type backend := backend]> (pr_verifiers r)) (pr_batches r).

Definition register_rollup (rollup_id : RollupId) (proof_type : string) (genesis_root : Hash)
    (r : ProofVerifierRegistry) : result ProofVerifierRegistry ProofError :=
  match pr_verifiers r !! proof_type with
  | None => Err (UnknownProofType rollup_id)
  | Some _ => Ok (mkRegistry (<[rollup_id := mkRollupState proof_type genesis_root]> (pr_rollups r))
                             (pr_verifiers r) (pr_batches r))
  end.

Definition verify_batch (c : BatchCommitment) (r : ProofVerifierRegistry) :
    ProofVerifierRegistry * result bool ProofError :=
  match pr_rollups r !! bc_rollup_id c with
  | None => (r, Err (RollupNotRegistered (bc_rollup_id c)))
  | Some rollup =>
    match pr_verifiers r !! rv_proof_type rollup with
    | None => (r, Err (UnknownProofType (bc_rollup_id c)))
    | Some verifier =>
      let pre_state := rv_last_root rollup in
      match be_verify verifier pre_state (bc_state_root c) (bc_data_hash c) (bc_proof c) with
      | Err e => (r, Err (VerifierError e))
      | Ok false => (r, Ok false)
      | Ok true =>
        (mkRegistry
           (alter (fun st => mkRollupState (rv_proof_type st) (bc_state_root c)) (bc_rollup_id c)
                  (pr_rollups r))
           (pr_verifiers r)
           (pr_batches r ++ [mkVerified (bc_rollup_id c) (bc_batch_index c) (bc_state_root c)
                                        (bc_data_hash c) pre_state]),
         Ok true)
      end
    end
  end.

Definition last_state_root (r : ProofVerifierRegistry) (rollup_id : RollupId) : option Hash :=
  rv_last_root <$> pr_rollups r !! rollup_id.

Definition of_rollup (id : RollupId) (b : VerifiedBatch) : bool := vb_rollup_id b =? id.

Definition get_verified_batches (r : ProofVerifierRegistry) (rollup_id : RollupId) (limit : usize) :
    list VerifiedBatch :=
  take limit (List.filter (of_rollup rollup_id) (rev (pr_batches r))).

Definition batch_count (r : ProofVerifierRegistry) (rollup_id : RollupId) : usize :=
  length (List.filter (of_rollup rollup_id) (pr_batches r)).

(** ** The chain of verified batches *)

Inductive RegistryOp : Type :=
| ORegisterVerifier (b : Backend)
| ORegisterRollup (id : RollupId) (proof_type : string) (genesis_root : Hash)
| OVerifyBatch (c : BatchCommitment).

Definition registry_step (r : ProofVerifierRegistry) (op : RegistryOp) : ProofVerifierRegistry :=
  match op with
  | ORegisterVerifier b => register_verifier b r
  | ORegisterRollup id ty root =>
    match register_rollup id ty root r with Ok r' => r' | Err _ => r end
  | OVerifyBatch c => fst (verify_batch c r)
  end.
Definition registry_run (ops : list RegistryOp) (r : ProofVerifierRegistry) : ProofVerifierRegistry :=
  fold_left registry_step ops r.

Definition batches_of (r : ProofVerifierRegistry) (id : RollupId) : list VerifiedBatch :=
  List.filter (of_rollup id) (pr_batches r).

(** Each batch starts from the root the one before it ended with. *)
Fixpoint root_chain (root : Hash) (bs : list VerifiedBatch) : Prop :=
  match bs with
  | [] => True
  | b :: bs => vb_pre_state_root b = root /\ root_chain (vb_state_root b) bs
  end.
Definition final_root (root : Hash) (bs : list VerifiedBatch) : Hash :=
  fold_left (fun _ b => vb_state_root b) bs root.

(** Some verifier among [vs] accepted a proof of the batch. *)
Definition accepted (vs : list Backend) (b : VerifiedBatch) : Prop :=
  exists v proof, v ∈ vs
    /\ be_verify v (vb_pre_state_root b) (vb_state_root b) (vb_data_hash b) proof = Ok true.

Definition op_verifiers (op : RegistryOp) : list Backend :=
  match op with ORegisterVerifier b => [b] | _ => [] end.
Definition re_registers (id : RollupId) (op : RegistryOp) : bool :=
  match op with ORegisterRollup id' _ _ => id' =? id | _ => false end.

Lemma root_chain_snoc root bs b :
  root_chain root (bs ++ [b]) <-> root_chain root bs /\ vb_pre_state_root b = final_root root bs.
Proof. revert root. induction bs as [|x bs IH]; intros root; simpl; [tauto|]. rewrite IH. tauto. Qed.

Lemma final_root_snoc root bs b : final_root root (bs ++ [b]) = vb_state_root b.
Proof. unfold final_root. by rewrite fold_left_app. Qed.

Lemma batches_of_verify c r id :
  batches_of (fst (verify_batch c r)) id = batches_of r id
  /\ pr_rollups (fst (verify_batch c r)) !! id = pr_rollups r !! id
  \/ bc_rollup_id c = id /\ exists st v, pr_rollups r !! id = Some st
     /\ pr_verifiers r !! rv_proof_type st = Some v
     /\ be_verify v (rv_last_root st) (bc_state_root c) (bc_data_hash c) (bc_proof c) = Ok true
     /\ batches_of (fst (verify_batch c r)) id
        = batches_of r id ++ [mkVerified id (bc_batch_index c) (bc_state_root c) (bc_data_hash c)
                                         (rv_last_root st)]
     /\ pr_rollups (fst (verify_batch c r)) !! id
        = Some (mkRollupState (rv_proof_type st) (bc_state_root c)).
Proof.
  unfold verify_batch, batches_of. destruct (pr_rollups r !! bc_rollup_id c) as [st|] eqn:Es; [|by left].
  destruct (pr_verifiers r !! rv_proof_type st) as [v|] eqn:Ev; [|by left].
  destruct (be_verify _ _ _ _ _) as [[|]|] eqn:E; [|by left..]. simpl.
  rewrite List.filter_app. simpl. unfold of_rollup at 2. simpl.
  destruct (Z.eqb_spec (bc_rollup_id c) id) as [<-|Hne].
  - right. split; [done|]. exists st, v. rewrite lookup_alter_eq, Es.
    split_and!; try done. unfold of_rollup at 2. simpl. by rewrite Z.eqb_refl.
  - left. rewrite app_nil_r, lookup_alter_ne by done. done.
Qed.

Lemma verify_batch_verifiers c r : pr_verifiers (fst (verify_batch c r)) = pr_verifiers r.
Proof. unfold verify_batch. by repeat case_match. Qed.

(** What is known of a rollup since it was registered: the verifiers in use
    come from [vs], and its batches from [old] on form a chain. *)
Definition settled (vs : list Backend) (id : RollupId) (ty : string) (root : Hash)
    (old : list VerifiedBatch) (r : ProofVerifierRegistry) : Prop :=
  (forall v, pr_verifiers r !! ty = Some v -> v ∈ vs)
  /\ exists bs, batches_of r id = old ++ bs /\ root_chain root bs /\ Forall (accepted vs) bs
     /\ pr_rollups r !! id = Some (mkRollupState ty (final_root root bs)).

Lemma settled_step vs id ty root old r op :
  settled vs id ty root old r -> re_registers id op = false -> op_verifiers op ⊆ vs ->
  settled vs id ty root old (registry_step r op).
Proof.
  intros (Hv & bs & Hbs & Hc & Ha & Hr) Hop Hsub. destruct op as [b|id' ty' root'|c]; simpl in *.
  - split; [|by exists bs]. simpl. intros v.
    rewrite lookup_insert. case_decide; [intros [= <-]; set_solver|apply Hv].
  - unfold register_rollup. destruct (pr_verifiers r !! ty') eqn:E; [|by split; [|exists bs]].
    split; [done|]. exists bs. split_and!; [done..|]. simpl.
    rewrite lookup_insert_ne by lia. done.
  - split; [by rewrite verify_batch_verifiers|].
    destruct (batches_of_verify c r id) as [[-> ->]|(Hid & st & v & Hst & Hvf & Hok & -> & ->)];
      [by exists bs|].
    rewrite Hr in Hst. injection Hst as <-. simpl in *.
    eexists (bs ++ [_]). rewrite Hbs, app_assoc. split; [done|].
    rewrite root_chain_snoc, final_root_snoc. split_and!; [done|done| |done].
    apply Forall_app. split; [done|]. apply Forall_singleton. exists v, (bc_proof c). auto.
Qed.

(** From the registration of a rollup on, whatever is registered or submitted
    besides, the batches recorded for it form a chain from its genesis root to
    the root the registry reports, and each was accepted by a verifier that was
    registered. *)
Theorem verified_batches_chain r id ty root r1 ops :
  register_rollup id ty root r = Ok r1 ->
  forallb (fun op => negb (re_registers id op)) ops = true ->
  let r2 := registry_run ops r1 in
  let vs := map snd (map_to_list (pr_verifiers r)) ++ flat_map op_verifiers ops in
  exists bs, batches_of r2 id = batches_of r id ++ bs
    /\ root_chain root bs /\ Forall (accepted vs) bs
    /\ last_state_root r2 id = Some (final_root root bs)
    /\ batch_count r2 id = (batch_count r id + length bs)%nat.
Proof.
  intros Hreg Hops r2 vs.
  assert (H1 : settled vs id ty root (batches_of r id) r1).
  { unfold register_rollup in Hreg. destruct (pr_verifiers r !! ty) eqn:E; [|done].
    injection Hreg as <-. split.
    - intros v Hv. simpl in Hv. apply list_elem_of_In, in_app_iff. left. apply in_map_iff.
      exists (ty, v). split; [done|]. by apply list_elem_of_In, elem_of_map_to_list.
    - exists []. simpl. rewrite app_nil_r, lookup_insert_eq. by split_and!. }
  assert (H2 : settled vs id ty root (batches_of r id) r2).
  { assert (Hsub : forall op, op ∈ ops -> op_verifiers op ⊆ vs).
    { intros op Hop v Hv. apply list_elem_of_In, in_app_iff. right. apply in_flat_map.
      exists op. split; by apply list_elem_of_In. }
    subst r2. clearbody vs. clear Hreg. revert r1 H1 Hops Hsub.
    induction ops as [|op ops IH]; intros r1 H1 Hops Hsub; [done|]. simpl in Hops.
    apply andb_prop in Hops as [Hop Hops]. apply IH; [|done|set_solver].
    apply settled_step; [done| |set_solver]. by destruct (re_registers id op). }
  destruct H2 as (_ & bs & Hb & Hc & Ha & Hr). exists bs. split_and!; [done..| |].
  - unfold last_state_root. by rewrite Hr.
  - unfold batch_count. fold (batches_of r2 id) (batches_of r id). by rewrite Hb, length_app.
Qed.

(** A registered rollup always has a verifier: [verify_batch] fails only for an
    unknown rollup or when the verifier itself does. *)
Lemma registered_has_verifier ops id st :
  pr_rollups (registry_run ops registry_new) !! id = Some st ->
  is_Some (pr_verifiers (registry_run ops registry_new) !! rv_proof_type st).
Proof.
  revert id st.
  assert (G : forall r, (forall id st, pr_rollups r !! id = Some st ->
      is_Some (pr_verifiers r !! rv_proof_type st)) ->
    forall id st, pr_rollups (registry_run ops r) !! id = Some st ->
      is_Some (pr_verifiers (registry_run ops r) !! rv_proof_type st)).
  { induction ops as [|op ops IH]; intros r Hr; [done|]. apply IH.
    intros id st. destruct op as [b|id' ty root|c]; simpl.
    - intros H%Hr. rewrite lookup_insert. by case_decide.
    - unfold register_rollup. destruct (pr_verifiers r !! ty) eqn:E; [|apply Hr]. simpl.
      rewrite lookup_insert. case_decide; [|apply Hr]. intros [= <-]. simpl. by rewrite E.
    - rewrite verify_batch_verifiers.
      destruct (batches_of_verify c r id) as [[_ ->]|(_ & st' & v & _ & Hv & _ & _ & ->)]; [apply Hr|].
      intros [= <-]. simpl. by rewrite Hv. }
  apply G. intros id st H. simpl in H. by rewrite lookup_empty in H.
Qed.

(** The newest-first view is the recorded order reversed. *)
Lemma get_verified_batches_all r id limit :
  get_verified_batches r id limit = take limit (rev (batches_of r id)).
Proof.
  unfold get_verified_batches, batches_of. f_equal. induction (pr_batches r) as [|b l IH]; [done|].
  simpl. rewrite List.filter_app, IH. simpl. by destruct (of_rollup id b); simpl; rewrite ?app_nil_r.
Qed.

(** ** A rollup settles on the chain

    The proof the rollup kit generates for a batch, put in the commitment the
    batch publisher prepares, is accepted by the chain's verifier when the
    chain's root is the one the batch starts from. *)
Theorem rollup_batch_settles `{!Codec (list L2Transaction)} (blake3 : bytes -> Hash)
    r id pre post batch data proof c :
  (forall b, length (blake3 b) = 32%nat) ->
  pr_rollups r !! id = Some (mkRollupState "mock" pre) ->
  pr_verifiers r !! "mock"%string = Some (mock_verifier blake3) ->
  compress_batch batch = Ok data ->
  mock_generate_proof blake3 pre post data = Ok proof ->
  prepare_commitment blake3 id batch post proof = Ok c ->
  snd (verify_batch c r) = Ok true
  /\ last_state_root (fst (verify_batch c r)) id = Some post
  /\ get_verified_batches (fst (verify_batch c r)) id 1
     = [mkVerified id (tb_batch_index batch) post (blake3 data) pre].
Proof.
  intros Hlen Hr Hv Hc Hp Hcm. unfold prepare_commitment in Hcm. rewrite Hc in Hcm.
  injection Hcm as <-. injection Hp as <-. set (c := mkCommitment _ _ _ _ _).
  assert (E : be_verify (mock_verifier blake3) pre post (blake3 data) (bc_proof c) = Ok true).
  { simpl. rewrite Hlen. simpl. by rewrite bytes_eqb_refl. }
  assert (Hvb : verify_batch c r = (mkRegistry
    (alter (fun st => mkRollupState (rv_proof_type st) post) id (pr_rollups r)) (pr_verifiers r)
    (pr_batches r ++ [mkVerified id (tb_batch_index batch) post (blake3 data) pre]), Ok true)).
  { unfold verify_batch. change (bc_rollup_id c) with id. rewrite Hr. cbn [rv_proof_type rv_last_root].
    rewrite Hv. change (bc_state_root c) with post. change (bc_data_hash c) with (blake3 data).
    by rewrite E. }
  rewrite Hvb, get_verified_batches_all. split; [done|]. unfold last_state_root, batches_of. simpl.
  rewrite lookup_alter_eq, Hr, List.filter_app. simpl. unfold of_rollup at 2. simpl.
  by rewrite Z.eqb_refl, rev_app_distr.
Qed.

(** ** Genesis *)

Record GenesisAccount : Type := mkGenesis {
  ga_id : AccountId;
  ga_balance : u128;
  ga_auth_methods : list AuthMethod;
}.

Definition genesis_account (g : GenesisAccount) : Account :=
  mkAccount (ga_id g) zero_hash (ga_auth_methods g) 0 (ga_balance g).

Section genesis.
Context {S : Type} `{!StateStore S} `{!Codec Account}.

Fixpoint apply_genesis (s : S) (accounts : list GenesisAccount) : result S StateError :=
  match accounts with
  | [] => Ok s
  | g :: accounts =>
    match create_account s (ga_id g) (ga_auth_methods g) (ga_balance g) with
    | Err e => Err e
    | Ok (s, _) => apply_genesis s accounts
    end
  end.

Context `{!StateStoreLaws S} `{!CodecLaws Account}.

(** The last allocation of an account is the one that stands. *)
Lemma apply_genesis_last s accounts :
  exists s', apply_genesis s accounts = Ok s'
    /\ (forall id, load_account s' id
          = match find (fun g => bytes_eqb (ga_id g) id) (rev accounts) with
            | Some g => Ok (Some (genesis_account g))
            | None => load_account s id
            end).
Proof.
  revert s. induction accounts as [|g accounts IH]; intros s; [by exists s|]. cbn [apply_genesis].
  unfold create_account. rewrite save_or_keep_eq. simpl.
  destruct (IH (save_account_or_keep s (genesis_account g))) as (s' & Hs & Hl).
  exists s'. split; [exact Hs|]. intros id. rewrite Hl.
  assert (Hf : forall p (l1 l2 : list GenesisAccount), find p (l1 ++ l2)
    = match find p l1 with Some x => Some x | None => find p l2 end).
  { intros p l1 l2. induction l1 as [|x l1 IHl]; simpl; [done|]. by destruct (p x). }
  rewrite Hf. destruct (find _ (rev accounts)); [done|]. simpl. rewrite load_save_account.
  simpl. unfold bytes_eqb. case_bool_decide; case_decide; congruence.
Qed.

(** Genesis always succeeds; with one allocation per account each account is
    exactly as allocated, no other account changes, and the supply of the
    allocated accounts is the sum of the allocations. *)
Theorem genesis_supply s accounts :
  NoDup (map ga_id accounts) ->
  exists s', apply_genesis s accounts = Ok s'
    /\ (forall g, g ∈ accounts -> load_account s' (ga_id g) = Ok (Some (genesis_account g)))
    /\ (forall id, id ∉ map ga_id accounts -> load_account s' id = load_account s id)
    /\ supply (map ga_id accounts) s' = sumZ (map ga_balance accounts).
Proof.
  intros Hn. destruct (apply_genesis_last s accounts) as (s' & Hs & Hl). exists s'.
  assert (Hg : forall g, g ∈ accounts -> load_account s' (ga_id g) = Ok (Some (genesis_account g))).
  { intros g Hg. rewrite Hl.
    destruct (find _ (rev accounts)) as [g'|] eqn:E.
    - apply find_some in E as [Hin Heq%bytes_eqb_true]. apply in_rev in Hin.
      do 2 f_equal. f_equal. apply list_elem_of_In in Hin.
      apply (list_elem_of_fmap_2 ga_id) in Hg as Hi.
      apply list_elem_of_lookup in Hg as [i Hi1], Hin as [j Hj1].
      assert (i = j) as ->.
      { eapply NoDup_lookup; [exact Hn|..]; rewrite list_lookup_fmap.
        - by rewrite Hi1.
        - rewrite Hj1. simpl. by rewrite Heq. }
      congruence.
    - eapply find_none in E; [|by apply in_rev; rewrite rev_involutive; apply list_elem_of_In].
      by rewrite bytes_eqb_refl in E. }
  split_and!; [done|done| |].
  - intros id Hid. rewrite Hl. destruct (find _ (rev accounts)) as [g'|] eqn:E; [|done].
    apply find_some in E as [Hin <-%bytes_eqb_true]. exfalso. apply Hid.
    apply list_elem_of_In, in_map, in_rev. done.
  - unfold supply. rewrite map_map. apply sumZ_map_ext. intros g Hin. unfold balance_of.
    by rewrite Hg.
Qed.
End genesis.

(** ** Examples *)

Definition toy_hash (b : bytes) : Hash := take 32 (b ++ replicate 32 0).
Definition toy_registry : ProofVerifierRegistry :=
  register_verifier (mock_verifier toy_hash) registry_new.

Lemma verified_batches_chain_witness :
  let c n := mkCommitment 1 n (demo_key n) (demo_key 9)
               (toy_hash (MOCK_TAG ++ demo_key (n - 1))) in
  exists r1, register_rollup 1 "mock" (demo_key 0) toy_registry = Ok r1
    /\ exists bs, batches_of (registry_run [OVerifyBatch (c 1); OVerifyBatch (c 2)] r1) 1 = bs
       /\ length bs = 2%nat /\ root_chain (demo_key 0) bs.
Proof.
  intros c. eexists. split; [vm_compute; reflexivity|].
  destruct (verified_batches_chain toy_registry 1 "mock" (demo_key 0) _
    [OVerifyBatch (c 1); OVerifyBatch (c 2)] eq_refl eq_refl) as (bs & Hb & Hc & _).
  exists bs. split; [exact Hb|]. split; [|exact Hc].
  apply (f_equal length) in Hb. transitivity (length (batches_of toy_registry 1 ++ bs)); [reflexivity|].
  rewrite <- Hb. vm_compute. reflexivity.
Defined.

(** A transaction list that serialises to nothing: enough for one batch. *)
#[local] Instance toy_l2_codec : Codec (list L2Transaction) :=
  {| ser _ := Some []; de _ := Some []; ser_error _ := EmptyString; de_error _ := EmptyString |}.

Lemma rollup_batch_settles_witness :
  let r := mkRegistry {[1 := mkRollupState "mock" (demo_key 0)]}
                      {["mock"%string := mock_verifier toy_hash]} [] in
  exists c, prepare_commitment toy_hash 1 (mkBatch 1 7 [] 0) (demo_key 5)
              (toy_hash (MOCK_TAG ++ demo_key 0 ++ demo_key 5 ++ toy_hash [])) = Ok c
    /\ last_state_root (fst (verify_batch c r)) 1 = Some (demo_key 5).
Proof.
  intros r. eexists. split; [vm_compute; reflexivity|].
  refine (proj1 (proj2 (rollup_batch_settles toy_hash r 1 (demo_key 0) (demo_key 5)
    (mkBatch 1 7 [] 0) [] (toy_hash (MOCK_TAG ++ demo_key 0 ++ demo_key 5 ++ toy_hash [])) _
    _ eq_refl eq_refl eq_refl eq_refl eq_refl))).
  intros b. unfold toy_hash. rewrite length_take, length_app, length_replicate. lia.
Defined.

Lemma genesis_supply_witness :
  exists s', apply_genesis mem_new [mkGenesis (demo_key 1) 70 []; mkGenesis (demo_key 2) 30 []] = Ok s'
    /\ supply [demo_key 1; demo_key 2] s' = 100.
Proof.
  destruct (genesis_supply mem_new [mkGenesis (demo_key 1) 70 []; mkGenesis (demo_key 2) 30 []])
    as (s' & Hs & _ & _ & Hsum).
  - apply (bool_decide_unpack _). vm_compute. exact I.
  - exists s'. split; [exact Hs|exact Hsum].
Defined.
