(* ===== verification/Reputation.v ===== *)
(** Peer reputation ([crates/solen-p2p/src/reputation.rs]): scores, their
    decay, and the temporary bans.

    [Instant]s are nanoseconds of the monotonic clock; the several
    [Instant::now()] of one operation are one reading, [now]. *)

From S2P Require Import Prelude Types Address.
Open Scope Z_scope.

Abbreviation PeerId := (list Z) (only parsing).
Abbreviation Instant := Z (only parsing).
Definition secs (n : Z) : Z := n * 1000000000.
Arguments secs : simpl never.
(** [Instant::elapsed] saturates at zero. *)
Definition elapsed (now t : Instant) : Z := sat_sub now t.

Definition i64_add (a b : Z) : Z := (a + b + 2 ^ 63) mod 2 ^ 64 - 2 ^ 63.
Definition u64_mul (a b : Z) : Z := (a * b) mod 2 ^ 64.

Definition BAN_THRESHOLD : Z := -50.
Definition BASE_BAN_DURATION_SECS : u64 := 300.
Definition MAX_BAN_DURATION_SECS : u64 := 3600.
Definition DECAY_INTERVAL_SECS : u64 := 60.
Definition DECAY_AMOUNT : Z := 5.
Definition MAX_TRACKED_PEERS : usize := 500%nat.

Definition VALID_BLOCK_SCORE : Z := 2.
Definition VALID_ATTESTATION_SCORE : Z := 1.
Definition INVALID_BLOCK_SCORE : Z := -10.
Definition INVALID_ATTESTATION_SCORE : Z := -5.
Definition DECODE_FAILURE_SCORE : Z := -3.
Definition RATE_LIMITED_SCORE : Z := -1.
Definition FORK_MISMATCH_SCORE : Z := -100.

Record PeerScore : Type := mkScore {
  score : Z;
  last_decay : Instant;
  banned_until : option Instant;
  ban_count : Z;
  valid_messages : u64;
  invalid_messages : u64;
}.

Definition score_new (now : Instant) : PeerScore := mkScore 0 now None 0 0 0.

Definition apply_decay (now : Instant) (p : PeerScore) : PeerScore :=
  if secs DECAY_INTERVAL_SECS <? elapsed now (last_decay p) then
    let s := if score p <? 0 then Z.min (score p + DECAY_AMOUNT) 0
             else if 0 <? score p then Z.max (score p - DECAY_AMOUNT) 0
             else score p in
    mkScore s now (banned_until p) (ban_count p) (valid_messages p) (invalid_messages p)
  else p.

(** [(BASE * 2u64.saturating_pow(ban_count)).min(MAX)]: the product is a plain
    multiplication. *)
Definition ban_secs (count : Z) : u64 :=
  Z.min (u64_mul BASE_BAN_DURATION_SECS (Z.min (2 ^ count) u64_max)) MAX_BAN_DURATION_SECS.

Definition adjust (now : Instant) (delta : Z) (p : PeerScore) : PeerScore :=
  let p := apply_decay now p in
  let s := i64_add (score p) delta in
  let valid := if 0 <? delta then u64_add (valid_messages p) 1 else valid_messages p in
  let invalid := if 0 <? delta then invalid_messages p else u64_add (invalid_messages p) 1 in
  if (s <=? BAN_THRESHOLD) && bool_decide (banned_until p = None) then
    mkScore s (last_decay p) (Some (now + secs (ban_secs (ban_count p))))
            (Z.min (ban_count p + 1) (2 ^ 32 - 1)) valid invalid
  else mkScore s (last_decay p) (banned_until p) (ban_count p) valid invalid.

Definition score_is_banned (now : Instant) (p : PeerScore) : PeerScore * bool :=
  match banned_until p with
  | Some until =>
    if until <=? now then
      (mkScore (Z.quot BAN_THRESHOLD 2) (last_decay p) None (ban_count p) (valid_messages p)
               (invalid_messages p), false)
    else (p, true)
  | None => (p, false)
  end.

(** ** All peers *)

Abbreviation PeerReputation := (gmap bytes PeerScore).
Definition reputation_new : PeerReputation := ∅.

Definition keep_peer (now : Instant) (s : PeerScore) : bool :=
  (elapsed now (last_decay s) <? secs 600) || bool_decide (is_Some (banned_until s)).

(** [get_or_create]: the map after pruning and insertion, and the entry. *)
Definition get_or_create (now : Instant) (peer : PeerId) (r : PeerReputation) :
    PeerReputation * PeerScore :=
  let r := if (MAX_TRACKED_PEERS <? size r)%nat
           then filter (fun kv => keep_peer now (snd kv) = true) r else r in
  match r !! peer with
  | Some s => (r, s)
  | None => (<[peer := score_new now]> r, score_new now)
  end.

Definition is_banned (now : Instant) (peer : PeerId) (r : PeerReputation) : PeerReputation * bool :=
  let '(r, s) := get_or_create now peer r in
  let '(s, b) := score_is_banned now s in
  (<[peer := s]> r, b).

Definition record (delta : Z) (now : Instant) (peer : PeerId) (r : PeerReputation) : PeerReputation :=
  let '(r, s) := get_or_create now peer r in <[peer := adjust now delta s]> r.
Definition record_valid_block := record VALID_BLOCK_SCORE.
Definition record_valid_attestation := record VALID_ATTESTATION_SCORE.
Definition record_invalid_block := record INVALID_BLOCK_SCORE.
Definition record_invalid_attestation := record INVALID_ATTESTATION_SCORE.
Definition record_decode_failure := record DECODE_FAILURE_SCORE.
Definition record_rate_limited := record RATE_LIMITED_SCORE.
Definition record_fork_mismatch := record FORK_MISMATCH_SCORE.

Definition peer_score (now : Instant) (peer : PeerId) (r : PeerReputation) : PeerReputation * Z :=
  let '(r, s) := get_or_create now peer r in
  let r := <[peer := apply_decay now s]> r in
  let '(r, s) := get_or_create now peer r in
  (r, score s).

Definition clear_ban (s : PeerScore) : PeerScore :=
  mkScore (if score s <? 0 then 0 else score s) (last_decay s) None (ban_count s)
          (valid_messages s) (invalid_messages s).
Definition clear_all_bans (r : PeerReputation) : PeerReputation := clear_ban <$> r.

Definition stats (r : PeerReputation) : usize * usize :=
  (size r, size (filter (fun kv => is_Some (banned_until (snd kv))) r)).

(** ** The length of a ban *)

(** Each ban doubles the one before up to an hour, but the 63rd and the 64th
    last no time at all: there the product has wrapped to zero. *)
Theorem ban_schedule n :
  0 <= n ->
  ban_secs n = (if n <=? 3 then 300 * 2 ^ n else if (n =? 62) || (n =? 63) then 0 else 3600).
Proof.
  intros Hn. destruct (Z.ltb_spec n 64) as [Hlt|Hge].
  - apply Z.eqb_eq. apply (range_forallb 64 (fun n => ban_secs n =?
      (if n <=? 3 then 300 * 2 ^ n else if (n =? 62) || (n =? 63) then 0 else 3600)));
      [vm_compute; reflexivity|lia].
  - assert (Hp : u64_max <= 2 ^ n).
    { pose proof (Z.pow_le_mono_r 2 64 n ltac:(lia) Hge). unfold u64_max. lia. }
    unfold ban_secs. rewrite (Z.min_r (2 ^ n)) by done.
    destruct (Z.leb_spec n 3), (Z.eqb_spec n 62), (Z.eqb_spec n 63); try lia. reflexivity.
Qed.

Lemma ban_schedule_witness : ban_secs 62 = 0 /\ ban_secs 2 = 1200.
Proof. split; [exact (ban_schedule 62 ltac:(lia))|exact (ban_schedule 2 ltac:(lia))]. Defined.

(** ** A ban holds until it ends *)

Inductive ReputationOp : Type :=
| RRecord (delta : Z) (peer : PeerId)
| RIsBanned (peer : PeerId)
| RScore (peer : PeerId).

Definition reputation_step (now : Instant) (op : ReputationOp) (r : PeerReputation) : PeerReputation :=
  match op with
  | RRecord d p => record d now p r
  | RIsBanned p => fst (is_banned now p r)
  | RScore p => fst (peer_score now p r)
  end.

Definition reputation_run (ops : list (Instant * ReputationOp)) (r : PeerReputation) : PeerReputation :=
  fold_left (fun r o => reputation_step (fst o) (snd o) r) ops r.

(** The ban of [p] recorded in the map. *)
Definition ban_of (p : PeerId) (r : PeerReputation) : option Instant := r !! p ≫= banned_until.

Lemma get_or_create_ban now q r r' s p :
  get_or_create now q r = (r', s) -> is_Some (ban_of p r) ->
  r' !! q = Some s /\ ban_of p r' = ban_of p r.
Proof.
  unfold get_or_create. intros H [u Hu].
  set (r1 := if (MAX_TRACKED_PEERS <? size r)%nat then _ else _) in H.
  assert (Hp : r1 !! p = r !! p).
  { unfold r1. destruct (_ <? _)%nat; [|done]. rewrite map_lookup_filter.
    unfold ban_of in Hu. destruct (r !! p) as [x|]; [|done]. simpl in *.
    case_guard as Hk; [done|]. destruct Hk. unfold keep_peer.
    by rewrite bool_decide_true, orb_true_r by by rewrite Hu. }
  assert (Hb : ban_of p r1 = ban_of p r) by (unfold ban_of; by rewrite Hp).
  destruct (r1 !! q) as [x|] eqn:E; injection H as <- <-; [done|].
  rewrite lookup_insert_eq. split; [done|]. unfold ban_of.
  rewrite lookup_insert_ne; [done|]. intros ->. unfold ban_of in Hu. rewrite <- Hp, E in Hu. done.
Qed.

Lemma adjust_ban now d s u : banned_until s = Some u -> banned_until (adjust now d s) = Some u.
Proof.
  intros H. assert (Hd : banned_until (apply_decay now s) = Some u) by (unfold apply_decay; by case_match).
  unfold adjust. rewrite Hd. by rewrite andb_false_r.
Qed.

Lemma reputation_step_ban now op r p u :
  ban_of p r = Some u -> now < u -> ban_of p (reputation_step now op r) = Some u.
Proof.
  intros Hu Hnow. assert (Hi : is_Some (ban_of p r)) by eauto.
  assert (G : forall q f r' s, get_or_create now q r = (r', s) ->
    (banned_until s = Some u -> banned_until (f s) = Some u) -> ban_of p (<[q := f s]> r') = Some u).
  { intros q f r' s E Hf. destruct (get_or_create_ban _ _ _ _ _ p E Hi) as [Hs Hb].
    unfold ban_of in *. rewrite lookup_insert. case_decide as Hq; [|by rewrite Hb]. subst q. simpl.
    rewrite Hs in Hb. simpl in Hb. apply Hf. congruence. }
  destruct op as [d q|q|q]; simpl.
  - unfold record. destruct (get_or_create now q r) as [r' s] eqn:E.
    apply (G q (adjust now d) r' s E). apply adjust_ban.
  - unfold is_banned. destruct (get_or_create now q r) as [r' s] eqn:E.
    destruct (score_is_banned now s) as [s' b] eqn:Eb. simpl.
    apply (G q (fun _ => s') r' s E). intros Hs. unfold score_is_banned in Eb. rewrite Hs in Eb.
    destruct (Z.leb_spec u now); [lia|]. by injection Eb as <- _.
  - unfold peer_score. destruct (get_or_create now q r) as [r' s] eqn:E.
    destruct (get_or_create now q (<[q := apply_decay now s]> r')) as [r2 s2] eqn:E2. simpl.
    assert (H1 : ban_of p (<[q := apply_decay now s]> r') = Some u).
    { apply (G q (apply_decay now) r' s E). unfold apply_decay. by case_match. }
    destruct (get_or_create_ban _ _ _ _ _ p E2) as [_ ->]; [by eauto|done].
Qed.

Lemma is_banned_spec r p u t :
  ban_of p r = Some u ->
  (t < u -> snd (is_banned t p r) = true)
  /\ (u <= t -> snd (is_banned t p r) = false
      /\ score <$> fst (is_banned t p r) !! p = Some (-25)
      /\ ban_of p (fst (is_banned t p r)) = None).
Proof.
  intros Hr. unfold is_banned. destruct (get_or_create t p r) as [r2 s] eqn:E.
  destruct (get_or_create_ban _ _ _ _ _ p E) as [Hs Hb]; [by eauto|].
  assert (Hsu : banned_until s = Some u).
  { unfold ban_of in *. rewrite Hs, Hr in Hb. done. }
  unfold score_is_banned. rewrite Hsu. destruct (Z.leb_spec u t) as [Hle|Hgt]; simpl.
  - split; [lia|]. intros _. split; [done|]. unfold ban_of. rewrite lookup_insert_eq. done.
  - split; [done|]. lia.
Qed.

(** Whatever the peers do until then, a banned peer stays banned until its ban
    ends, and at that instant it is let in again with half a ban to go. Only
    [clear_all_bans] cuts a ban short. *)
Theorem ban_holds r p u ops t :
  ban_of p r = Some u -> Forall (fun o => fst o < u) ops ->
  let r' := reputation_run ops r in
  (t < u -> snd (is_banned t p r') = true)
  /\ (u <= t -> snd (is_banned t p r') = false
      /\ score <$> fst (is_banned t p r') !! p = Some (-25)
      /\ ban_of p (fst (is_banned t p r')) = None).
Proof.
  intros Hu Hops r'. apply is_banned_spec. subst r'. revert r Hu.
  induction Hops as [|o ops Ho _ IH]; intros r Hu; [done|]. simpl. by apply IH, reputation_step_ban.
Qed.

Lemma ban_holds_witness :
  let r := record_fork_mismatch 0 (demo_key 1) ∅ in
  ban_of (demo_key 1) r = Some (secs 300)
  /\ snd (is_banned (secs 299) (demo_key 1)
       (reputation_run [(secs 10, RRecord VALID_BLOCK_SCORE (demo_key 1))] r)) = true.
Proof.
  intros r. assert (H : ban_of (demo_key 1) r = Some (secs 300)) by (vm_compute; reflexivity).
  split; [exact H|]. apply (ban_holds r (demo_key 1) (secs 300) _ (secs 299) H).
  - repeat constructor; vm_compute; reflexivity.
  - vm_compute. reflexivity.
Defined.

(** ** Where the comments and the code differ *)

(** A fork mismatch bans at once only a peer whose score is at most 50. *)
Theorem fork_mismatch_bans now p :
  banned_until p = None -> last_decay p = now -> - 2 ^ 62 <= score p < 2 ^ 62 ->
  is_Some (banned_until (adjust now FORK_MISMATCH_SCORE p)) <-> score p <= 50.
Proof.
  intros Hb Hd Hs. unfold adjust. assert (apply_decay now p = p) as ->.
  { unfold apply_decay, elapsed, sat_sub, secs, DECAY_INTERVAL_SECS.
    destruct (Z.ltb_spec (60 * 1000000000) (Z.max 0 (now - last_decay p))); [lia|done]. }
  unfold i64_add, FORK_MISMATCH_SCORE, BAN_THRESHOLD. rewrite Z.mod_small by lia.
  rewrite Hb, bool_decide_true, andb_true_r by done.
  destruct (Z.leb_spec (score p + -100 + 2 ^ 63 - 2 ^ 63) (-50)); simpl.
  - split; [lia|by eauto].
  - split; [by intros [? [=]]|lia].
Qed.

Lemma fork_mismatch_bans_witness :
  ~ is_Some (banned_until (adjust 0 FORK_MISMATCH_SCORE (mkScore 52 0 None 0 26 0))).
Proof.
  intros H%(fork_mismatch_bans 0 (mkScore 52 0 None 0 26 0)); [simpl in H; lia|reflexivity|reflexivity|].
  simpl. lia.
Defined.

(** After a ban ends, the next invalid block does not ban the peer again. *)
Theorem offence_after_ban :
  let r := record_fork_mismatch 0 (demo_key 1) ∅ in
  let r := fst (is_banned (secs 300) (demo_key 1) r) in
  let r := record_invalid_block (secs 301) (demo_key 1) r in
  snd (is_banned (secs 301) (demo_key 1) r) = false.
Proof. vm_compute. reflexivity. Qed.
