(* ===== verification/Network.v ===== *)
(** The peer-to-peer crate ([crates/solen-p2p/src]): the wire format of the
    gossip messages ([messages.rs]) and the event loop of the network service
    ([network.rs]). The transport ([libp2p]) is outside: what the loop asks of
    it is a list of actions. *)

From S2P Require Import Prelude Types Validators Reputation.
Open Scope Z_scope.

(** ** Messages ([messages.rs]) *)

Record SyncBlock : Type := mkSyncBlock {
  sb_header : BlockHeader;
  sb_operations : list UserOperation;
  sb_receipts : list ExecutionReceipt;
}.

Inductive NetworkMessage : Type :=
| NewBlock (header : BlockHeader) (operations : list UserOperation) (tx_count : usize) (gas_used : u64)
| NewTransaction (op : UserOperation)
| AttestationMsg (validator_id : ValidatorId) (block_height : u64) (block_hash : Hash) (signature : bytes)
| SyncRequest (from_height to_height : u64)
| SyncBlocks (blocks : list SyncBlock)
| StatusAnnounce (height : u64) (state_root : Hash)
| CheckpointAttestationMsg (validator_id : ValidatorId) (height : u64) (block_hash state_root : Hash)
    (signature : bytes).

Definition topic_name (kind : string) (chain_id : u64) : string :=
  "solen/" +:+ pretty chain_id +:+ "/" +:+ kind +:+ "/1".
Definition topic_blocks := topic_name "blocks".
Definition topic_transactions := topic_name "transactions".
Definition topic_attestations := topic_name "attestations".
Definition topic_sync := topic_name "sync".

Definition topic_for_chain (m : NetworkMessage) (chain_id : u64) : string :=
  match m with
  | NewBlock _ _ _ _ => topic_blocks chain_id
  | NewTransaction _ => topic_transactions chain_id
  | AttestationMsg _ _ _ _ => topic_attestations chain_id
  | SyncRequest _ _ => topic_sync chain_id
  | SyncBlocks _ => topic_sync chain_id
  | StatusAnnounce _ _ => topic_sync chain_id
  | CheckpointAttestationMsg _ _ _ _ _ => topic_attestations chain_id
  end.

Definition is_sync_blocks (m : NetworkMessage) : bool :=
  match m with SyncBlocks _ => true | _ => false end.

(** [flate2]: the compressor, and the chunks a reader of the decompressor
    returns before it ends or fails. *)
Class Deflate : Type := {
  deflate : bytes -> option bytes;
  inflate_chunks : bytes -> list bytes;
}.

Definition MAX_DECOMPRESSED_SIZE : Z := 16 * 1024 * 1024.
Definition COMPRESSED_TAG : Z := 1.

Section wire.
Context `{!Codec NetworkMessage} {flate : Deflate}.

Definition encode (m : NetworkMessage) : option bytes :=
  match ser m with
  | None => None
  | Some json =>
    if is_sync_blocks m && (1024 <? Z.of_nat (length json)) then
      match deflate json with
      | Some c => Some (COMPRESSED_TAG :: c)
      | None => None
      end
    else Some json
  end.

(** The reading loop: [None] when the limit is passed. *)
Fixpoint read_limited (chunks : list bytes) (json : bytes) : option bytes :=
  match chunks with
  | [] => Some json
  | buf :: chunks =>
    let json := json ++ buf in
    if MAX_DECOMPRESSED_SIZE <? Z.of_nat (length json) then None else read_limited chunks json
  end.

Definition decode (data : bytes) : option NetworkMessage :=
  match data with
  | 1 :: compressed =>
    match read_limited (inflate_chunks compressed) [] with
    | None => None
    | Some [] => de data
    | Some json => de json
    end
  | _ => de data
  end.
End wire.

(** ** The service ([network.rs]) *)

Definition MAX_MSGS_PER_PEER_PER_SEC : u64 := 50.
Definition MAX_GLOBAL_BYTES_PER_SEC : Z := 50 * 1024 * 1024.
Definition INBOUND_CAPACITY : nat := Z.to_nat 4096.

(** The variables of the task, and the messages waiting in the inbound channel. *)
Record Net : Type := mkNet {
  peer_msg_counts : gmap bytes (u64 * Instant);
  global_bytes_window : Z;
  global_bytes_reset : Instant;
  peer_reputation : PeerReputation;
  recent_sync_senders : gmap bytes Instant;
  inbound : list NetworkMessage;
}.

Definition net_new (now : Instant) : Net := mkNet ∅ 0 now reputation_new ∅ [].

(** What the loop asks of the swarm. *)
Inductive NetAction : Type :=
| Disconnect (peer : PeerId)
| SetApplicationScore (peer : PeerId) (score : Z)
| Publish (topic : string) (data : bytes)
| KadBootstrap
| Dial (addr : bytes).

Inductive ReputationEvent : Type :=
| EvValidBlock (p : PeerId) | EvInvalidBlock (p : PeerId)
| EvValidAttestation (p : PeerId) | EvInvalidAttestation (p : PeerId)
| EvForkMismatch (p : PeerId) | EvClearAllBans | EvGossipsubPenalize (p : PeerId).

Definition set_reputation (r : PeerReputation) (n : Net) : Net :=
  mkNet (peer_msg_counts n) (global_bytes_window n) (global_bytes_reset n) r (recent_sync_senders n)
        (inbound n).

(** The maintenance tick: discovery, redialling, stale rate-limit entries. *)
Definition on_maintenance (now : Instant) (connected : usize) (bootstrap : list bytes) (n : Net) :
    Net * list NetAction :=
  (mkNet (filter (fun kv => (elapsed now (snd (snd kv)) <? secs 30) = true) (peer_msg_counts n))
         (global_bytes_window n) (global_bytes_reset n) (peer_reputation n) (recent_sync_senders n)
         (inbound n),
   KadBootstrap :: (if (connected <? 3)%nat then map Dial bootstrap else [])).

Definition on_reputation (now : Instant) (e : ReputationEvent) (n : Net) : Net * list NetAction :=
  let rep := peer_reputation n in
  match e with
  | EvValidBlock p => (set_reputation (record_valid_block now p rep) n, [])
  | EvInvalidBlock p => (set_reputation (record_invalid_block now p rep) n, [])
  | EvValidAttestation p => (set_reputation (record_valid_attestation now p rep) n, [])
  | EvInvalidAttestation p => (set_reputation (record_invalid_attestation now p rep) n, [])
  | EvForkMismatch p =>
    (mkNet (peer_msg_counts n) (global_bytes_window n) (global_bytes_reset n)
           (record_fork_mismatch now p rep) ∅ (inbound n),
     SetApplicationScore p (-500)
       :: map (fun kv => SetApplicationScore (fst kv) (-500)) (map_to_list (recent_sync_senders n)))
  | EvClearAllBans => (set_reputation (clear_all_bans rep) n, [])
  | EvGossipsubPenalize p => (n, [SetApplicationScore p (-500)])
  end.

Section service.
Context `{!Codec NetworkMessage} {flate : Deflate}.

Definition on_outbound (chain_id : u64) (m : NetworkMessage) : list NetAction :=
  match encode m with
  | Some data => [Publish (topic_for_chain m chain_id) data]
  | None => []
  end.

(** What happens to a gossip message before it is decoded. *)
Inductive Verdict : Type := Banned | GlobalLimited | PeerLimited | Passed.

Definition admit_message (now : Instant) (src : PeerId) (len : usize) (n : Net) : Net * Verdict :=
  let '(rep, banned) := is_banned now src (peer_reputation n) in
  let n := set_reputation rep n in
  if banned then (n, Banned)
  else
  let '(window, reset) :=
    if secs 1 <? elapsed now (global_bytes_reset n) then (0, now)
    else (global_bytes_window n, global_bytes_reset n) in
  let window := u64_add window (Z.of_nat len) in
  let n := mkNet (peer_msg_counts n) window reset (peer_reputation n) (recent_sync_senders n)
                 (inbound n) in
  if MAX_GLOBAL_BYTES_PER_SEC <? window then (n, GlobalLimited)
  else
  let '(count, start) := default (0, now) (peer_msg_counts n !! src) in
  let entry := if secs 1 <? elapsed now start then (1, now) else (u64_add count 1, start) in
  let limited := negb (secs 1 <? elapsed now start) && (MAX_MSGS_PER_PEER_PER_SEC <=? fst entry) in
  let n := mkNet (<[src := entry]> (peer_msg_counts n)) window reset (peer_reputation n)
                 (recent_sync_senders n) (inbound n) in
  (n, if limited then PeerLimited else Passed).

Definition track_sync_sender (now : Instant) (src : PeerId) (m : NetworkMessage)
    (senders : gmap bytes Instant) : gmap bytes Instant :=
  if is_sync_blocks m then
    let senders := <[src := now]> senders in
    if (50 <? size senders)%nat
    then filter (fun kv => (elapsed now (snd kv) <? secs 30) = true) senders else senders
  else senders.

Definition on_gossip (now : Instant) (src : PeerId) (data : bytes) (n : Net) : Net * list NetAction :=
  let '(n, verdict) := admit_message now src (length data) n in
  match verdict with
  | Banned => (n, [Disconnect src])
  | GlobalLimited | PeerLimited => (n, [])
  | Passed =>
    match decode data with
    | Some msg =>
      let queue := if (length (inbound n) <? INBOUND_CAPACITY)%nat then inbound n ++ [msg]
                   else inbound n in
      (mkNet (peer_msg_counts n) (global_bytes_window n) (global_bytes_reset n) (peer_reputation n)
             (track_sync_sender now src msg (recent_sync_senders n)) queue, [])
    | None => (set_reputation (record_decode_failure now src (peer_reputation n)) n, [])
    end
  end.

(** The consumer takes the oldest message. *)
Definition inbound_recv (n : Net) : option (NetworkMessage * Net) :=
  match inbound n with
  | [] => None
  | m :: queue => Some (m, mkNet (peer_msg_counts n) (global_bytes_window n) (global_bytes_reset n)
                                 (peer_reputation n) (recent_sync_senders n) queue)
  end.
End service.

(** ** The wire format *)

Lemma read_limited_spec chunks acc :
  Z.of_nat (length acc) <= MAX_DECOMPRESSED_SIZE ->
  read_limited chunks acc
  = if MAX_DECOMPRESSED_SIZE <? Z.of_nat (length (acc ++ concat chunks)) then None
    else Some (acc ++ concat chunks).
Proof.
  revert acc. induction chunks as [|c chunks IH]; intros acc Hacc; simpl.
  - rewrite app_nil_r. destruct (Z.ltb_spec MAX_DECOMPRESSED_SIZE (Z.of_nat (length acc))); [lia|done].
  - destruct (Z.ltb_spec MAX_DECOMPRESSED_SIZE (Z.of_nat (length (acc ++ c)))) as [H|H].
    + rewrite length_app in H.
      destruct (Z.ltb_spec MAX_DECOMPRESSED_SIZE (Z.of_nat (length (acc ++ c ++ concat chunks))))
        as [H'|H']; [done|]. rewrite !length_app in H'. lia.
    + rewrite IH by done. by rewrite <- app_assoc.
Qed.

Section wire_laws.
Context `{!Codec NetworkMessage} {flate : Deflate}.

(** A message is read back by the peer unless it is a list of synchronisation
    blocks of more than 16 MiB, which no peer accepts. What the format relies
    on: [serde_json] writes the message as an object and reads it back, and the
    decompressor returns what was compressed. *)
Theorem wire_roundtrip m json c :
  ser m = Some json -> de json = Some m -> head json = Some 123 ->
  deflate json = Some c -> concat (inflate_chunks c) = json ->
  exists data, encode m = Some data
    /\ decode data = if is_sync_blocks m && (MAX_DECOMPRESSED_SIZE <? Z.of_nat (length json))
                     then None else Some m.
Proof.
  intros Hs Hd Ho Hdef Hinf. unfold encode. rewrite Hs.
  destruct json as [|x json']; [done|]. injection Ho as ->. set (json := 123 :: json') in *.
  destruct (is_sync_blocks m) eqn:Em; cbn [andb].
  - destruct (Z.ltb_spec 1024 (Z.of_nat (length json))) as [Hl|Hl].
    + rewrite Hdef. eexists. split; [done|].
      unfold decode. rewrite read_limited_spec by (unfold MAX_DECOMPRESSED_SIZE; simpl; lia).
      rewrite Hinf. change ([] ++ json) with json. by destruct (_ <? _).
    + exists json. split; [done|].
      destruct (Z.ltb_spec MAX_DECOMPRESSED_SIZE (Z.of_nat (length json))) as [H|H];
        [unfold MAX_DECOMPRESSED_SIZE in H; lia|exact Hd].
  - exists json. split; [done|]. exact Hd.
Qed.
End wire_laws.

(** ** Topics *)

Definition ascii_list (s : string) : list Ascii.ascii := String.list_ascii_of_string s.

Lemma ascii_list_app a b : ascii_list (a +:+ b) = ascii_list a ++ ascii_list b.
Proof. unfold ascii_list. induction a as [|c a IH]; simpl; [done|]. by rewrite <- IH. Qed.

Lemma ascii_list_inj a b : ascii_list a = ascii_list b -> a = b.
Proof.
  revert b. induction a as [|c a IH]; intros [|d b]; simpl; try done. intros [= -> H]. f_equal. by apply IH.
Qed.

Definition topic_kind (m : NetworkMessage) : string :=
  match m with
  | NewBlock _ _ _ _ => "blocks"
  | NewTransaction _ => "transactions"
  | AttestationMsg _ _ _ _ | CheckpointAttestationMsg _ _ _ _ _ => "attestations"
  | SyncRequest _ _ | SyncBlocks _ | StatusAnnounce _ _ => "sync"
  end.

Lemma topic_inj k1 k2 c1 c2 :
  k1 ∈ ["blocks"; "transactions"; "attestations"; "sync"]%string ->
  k2 ∈ ["blocks"; "transactions"; "attestations"; "sync"]%string ->
  topic_name k1 c1 = topic_name k2 c2 -> k1 = k2 /\ c1 = c2.
Proof.
  intros H1 H2 H. apply (f_equal ascii_list) in H. unfold topic_name in H.
  rewrite !ascii_list_app in H. apply app_inv_head in H.
  assert (Hk : k1 = k2).
  { apply (f_equal (@rev _)) in H. rewrite !rev_app_distr in H.
    set_unfold in H1. set_unfold in H2.
    destruct H1 as [->|[->|[->|[->|[]]]]], H2 as [->|[->|[->|[->|[]]]]]; simpl in H; done || by simplify_eq H. }
  split; [done|]. subst k2. apply app_inv_tail in H.
  apply (inj pretty), ascii_list_inj, H.
Qed.

(** A topic belongs to one chain and one kind of message: nodes of different
    networks never read each other's gossip. *)
Theorem topics_separate m1 m2 c1 c2 :
  topic_for_chain m1 c1 = topic_for_chain m2 c2 <-> topic_kind m1 = topic_kind m2 /\ c1 = c2.
Proof.
  assert (Ht : forall m c, topic_for_chain m c = topic_name (topic_kind m) c) by (intros []; reflexivity).
  rewrite !Ht. split; [|by intros [-> ->]].
  assert (Hk : forall m, topic_kind m ∈ ["blocks"; "transactions"; "attestations"; "sync"]%string)
    by (intros []; simpl; set_solver).
  apply topic_inj; apply Hk.
Qed.

(** ** Rate limits *)

Inductive NetEvent : Type :=
| NGossip (src : PeerId) (data : bytes)
| NReputation (e : ReputationEvent)
| NMaintenance (connected : usize) (bootstrap : list bytes)
| NRecv.

Section limits.
Context `{!Codec NetworkMessage} {flate : Deflate}.

(** One event of the loop, and the sender and size of a message that reached
    the decoder. *)
Definition net_step (now : Instant) (e : NetEvent) (n : Net) : Net * option (PeerId * usize) :=
  match e with
  | NGossip src data =>
    (fst (on_gossip now src data n),
     match snd (admit_message now src (length data) n) with
     | Passed => Some (src, length data)
     | _ => None
     end)
  | NReputation ev => (fst (on_reputation now ev n), None)
  | NMaintenance connected bootstrap => (fst (on_maintenance now connected bootstrap n), None)
  | NRecv => (match inbound_recv n with Some (_, n') => n' | None => n end, None)
  end.

Fixpoint net_run (events : list (Instant * NetEvent)) (n : Net) : list (PeerId * usize) :=
  match events with
  | [] => []
  | (now, e) :: events =>
    let '(n', m) := net_step now e n in
    match m with Some m => [m] | None => [] end ++ net_run events n'
  end.

Definition event_size (e : NetEvent) : Z :=
  match e with NGossip _ data => Z.of_nat (length data) | _ => 0 end.
Definition total_size (events : list (Instant * NetEvent)) : Z :=
  sumZ (map (fun o => event_size (snd o)) events).
Definition admitted_from (p : PeerId) (log : list (PeerId * usize)) : nat :=
  length (List.filter (fun m => bytes_eqb (fst m) p) log).
Definition admitted_bytes (log : list (PeerId * usize)) : Z :=
  sumZ (map (fun m => Z.of_nat (snd m)) log).

(** What a window that started at [start] still lets through in the second
    from [a]: the rest of the window, and a second window if it is older. *)
Definition allowance (a start limit used : Z) : Z :=
  Z.max 0 (limit - used) + (if a <=? start then 0 else limit).

Definition peer_allowance (a : Instant) (p : PeerId) (n : Net) : Z :=
  match peer_msg_counts n !! p with
  | None => 49
  | Some (c, start) => allowance a start 49 c
  end.
Definition bytes_allowance (a : Instant) (n : Net) : Z :=
  allowance a (global_bytes_reset n) MAX_GLOBAL_BYTES_PER_SEC (global_bytes_window n).

(** The counters are far from the width of the integers for [k] more messages
    and [b] more bytes. *)
Definition counters_fit (k b : Z) (n : Net) : Prop :=
  0 <= global_bytes_window n /\ global_bytes_window n + b <= u64_max
  /\ map_Forall (fun _ e => 0 <= fst e /\ fst e + k <= u64_max) (peer_msg_counts n).

Lemma admit_message_limits a now src len n k b p :
  a <= now <= a + secs 1 -> 0 <= k -> 0 <= b ->
  counters_fit (k + 1) (b + Z.of_nat len) n ->
  k + 1 <= u64_max -> b + Z.of_nat len <= u64_max ->
  let '(n', v) := admit_message now src len n in
  counters_fit k b n'
  /\ peer_allowance a p n' + (match v with Passed => if bytes_eqb src p then 1 else 0 | _ => 0 end)
     <= peer_allowance a p n
  /\ bytes_allowance a n' + (match v with Passed => Z.of_nat len | _ => 0 end)
     <= bytes_allowance a n.
Proof.
  intros Hnow Hk Hb (Hw & Hwb & Hc) Hku Hbu. unfold admit_message.
  destruct (is_banned now src (peer_reputation n)) as [rep banned]. simpl.
  assert (Hc0 : map_Forall (fun _ e => 0 <= fst e /\ fst e + k <= u64_max) (peer_msg_counts n)).
  { intros q e He. pose proof (Hc q e He). simpl in *. lia. }
  destruct banned.
  { split; [split; [done|split; [simpl; lia|done]]|].
    split; exact (Z.eq_le_incl _ _ (Z.add_0_r _)). }
  set (M := MAX_GLOBAL_BYTES_PER_SEC). assert (HM : 0 < M) by reflexivity.
  set (old := secs 1 <? elapsed now (global_bytes_reset n)).
  assert (Hold : old = true -> global_bytes_reset n < a).
  { unfold old, elapsed, sat_sub, secs in *. intros H%Z.ltb_lt. lia. }
  destruct (if old then _ else _) as [window reset] eqn:Ew.
  assert (Hwin : 0 <= window /\ window + Z.of_nat len + b <= u64_max
    /\ allowance a reset M (window + Z.of_nat len)
       + (if M <? window + Z.of_nat len then 0 else Z.of_nat len) <= bytes_allowance a n).
  { unfold bytes_allowance, allowance. fold M. destruct old; injection Ew as <- <-.
    - specialize (Hold eq_refl). destruct (Z.leb_spec a (global_bytes_reset n)), (Z.leb_spec a now),
        (Z.ltb_spec M (0 + Z.of_nat len)); lia.
    - destruct (Z.leb_spec a (global_bytes_reset n)),
        (Z.ltb_spec M (global_bytes_window n + Z.of_nat len)); lia. }
  destruct Hwin as (Hw0 & Hwu & Hall). rewrite u64_add_exact by lia.
  destruct (Z.ltb_spec M (window + Z.of_nat len)) as [Hlim|Hlim].
  { split; [split; [simpl; lia|split; [simpl; lia|done]]|].
    split; [exact (Z.eq_le_incl _ _ (Z.add_0_r _))|exact Hall]. }
  destruct (default (0, now) (peer_msg_counts n !! src)) as [count start] eqn:Ed.
  assert (Hcs : 0 <= count /\ count + (k + 1) <= u64_max).
  { destruct (peer_msg_counts n !! src) as [e|] eqn:E; simpl in Ed.
    - subst e. apply (Hc _ _ E).
    - injection Ed as <- <-. lia. }
  set (stale := secs 1 <? elapsed now start).
  assert (Hstale : stale = true -> start < a).
  { unfold stale, elapsed, sat_sub, secs in *. intros H%Z.ltb_lt. lia. }
  rewrite u64_add_exact by lia.
  assert (Hpa : peer_allowance a src n = allowance a start 49 count).
  { unfold peer_allowance. destruct (peer_msg_counts n !! src) as [e|] eqn:E; simpl in Ed; [by subst e|].
    injection Ed as <- <-. unfold allowance. destruct (Z.leb_spec a now); lia. }
  set (entry := if stale then (1, now) else (count + 1, start)).
  assert (Hentry : 0 <= fst entry /\ fst entry + k <= u64_max) by (unfold entry; destruct stale; simpl; lia).
  set (limited := negb stale && (MAX_MSGS_PER_PEER_PER_SEC <=? fst entry)).
  assert (Hsrc : allowance a (snd entry) 49 (fst entry) + (if limited then 0 else 1)
    <= allowance a start 49 count).
  { unfold allowance, limited, entry, MAX_MSGS_PER_PEER_PER_SEC. destruct stale; simpl.
    - specialize (Hstale eq_refl). destruct (Z.leb_spec a start), (Z.leb_spec a now); lia.
    - destruct (Z.leb_spec a start), (Z.leb_spec 50 (count + 1)); lia. }
  clearbody limited entry. split; [|split].
  - split; [simpl; lia|]. split; [simpl; lia|]. simpl. apply map_Forall_insert_2; done.
  - unfold peer_allowance. simpl. unfold bytes_eqb. case_bool_decide as Hp.
    + subst p. rewrite lookup_insert_eq. destruct entry as [ec es]. simpl in *.
      fold (peer_allowance a src n). rewrite Hpa. by destruct limited.
    + rewrite lookup_insert_ne by done. destruct limited; lia.
  - change (bytes_allowance a _) with (allowance a reset M (window + Z.of_nat len)) at 1.
    destruct limited; lia.
Qed.

Lemma net_step_limits a now e n k b p :
  a <= now <= a + secs 1 -> 0 <= k -> 0 <= b ->
  counters_fit (k + 1) (b + event_size e) n -> k + 1 <= u64_max -> b + event_size e <= u64_max ->
  let '(n', m) := net_step now e n in
  counters_fit k b n'
  /\ peer_allowance a p n' + Z.of_nat (admitted_from p (match m with Some m => [m] | None => [] end))
     <= peer_allowance a p n
  /\ bytes_allowance a n' + admitted_bytes (match m with Some m => [m] | None => [] end)
     <= bytes_allowance a n.
Proof.
  intros Hnow Hk Hb Hfit Hku Hbu.
  assert (Hsame : forall n', peer_msg_counts n' = peer_msg_counts n ->
    global_bytes_window n' = global_bytes_window n -> global_bytes_reset n' = global_bytes_reset n ->
    event_size e = 0 ->
    counters_fit k b n' /\ peer_allowance a p n' + 0 <= peer_allowance a p n
    /\ bytes_allowance a n' + 0 <= bytes_allowance a n).
  { intros n' H1 H2 H3 H4. destruct Hfit as (Hw & Hwb & Hc).
    unfold counters_fit, peer_allowance, bytes_allowance. rewrite H1, H2, H3.
    split; [|split; lia]. split; [done|]. split; [lia|]. intros q x Hq.
    pose proof (Hc q x Hq). simpl in *. lia. }
  destruct e as [src data|ev|connected boot|]; cbn [net_step event_size] in *.
  - pose proof (admit_message_limits a now src (length data) n k b p Hnow Hk Hb Hfit Hku Hbu) as H.
    unfold on_gossip. destruct (admit_message now src (length data) n) as [n1 v]. cbn [snd].
    destruct H as (Hf & Hp & Hby).
    assert (Hf' : forall n', peer_msg_counts n' = peer_msg_counts n1 ->
      global_bytes_window n' = global_bytes_window n1 -> global_bytes_reset n' = global_bytes_reset n1 ->
      counters_fit k b n' /\ peer_allowance a p n' = peer_allowance a p n1
      /\ bytes_allowance a n' = bytes_allowance a n1).
    { intros n' H1 H2 H3. unfold counters_fit, peer_allowance, bytes_allowance. by rewrite H1, H2, H3. }
    destruct v; cbn [fst].
    1-3: split_and!; [done|exact Hp|exact Hby].
    assert (Hlog : Z.of_nat (admitted_from p [(src, length data)]) = (if bytes_eqb src p then 1 else 0)
      /\ admitted_bytes [(src, length data)] = Z.of_nat (length data)).
    { unfold admitted_from, admitted_bytes. simpl. split; [by destruct (bytes_eqb src p)|lia]. }
    destruct Hlog as [-> ->].
    destruct (decode data) as [msg|]; cbn [fst].
    + edestruct Hf' as (? & -> & ->); [..|by split_and!]; done.
    + edestruct Hf' as (? & -> & ->); [..|by split_and!]; done.
  - apply Hsame; try done; destruct ev; reflexivity.
  - cbn [on_maintenance fst].
    destruct Hfit as (Hw & Hwb & Hc). split; [split; [simpl; lia|split; [simpl; lia|]]|split].
    + intros q x Hq. simpl in Hq. apply map_lookup_filter_Some in Hq as [Hq _].
      pose proof (Hc q x Hq). simpl in *. lia.
    + change (Z.of_nat (admitted_from p [])) with 0. rewrite Z.add_0_r.
      unfold peer_allowance. simpl. rewrite map_lookup_filter.
      destruct (peer_msg_counts n !! p) as [[c start]|] eqn:E; simpl; [|lia].
      pose proof (Hc p _ E) as [Hc0 _]. simpl in Hc0.
      case_guard as Hg; simpl; [lia|]. unfold elapsed, sat_sub, secs, allowance in *.
      destruct (Z.leb_spec a start); [|lia]. exfalso. apply Hg. lia.
    + exact (Z.eq_le_incl _ _ (Z.add_0_r _)).
  - apply Hsame; try done; unfold inbound_recv; by destruct (inbound n).
Qed.

(** C39: In no second do more than 98 messages of a peer, or more than 100 MiB of
    messages altogether, reach the decoder, whatever the peers send and
    whatever else the loop handles in between. *)
Theorem flood_bounds a n events p :
  Forall (fun o => a <= fst o <= a + secs 1) events ->
  counters_fit (Z.of_nat (length events)) (total_size events) n ->
  Z.of_nat (length events) <= u64_max -> total_size events <= u64_max ->
  (admitted_from p (net_run events n) <= 98)%nat
  /\ admitted_bytes (net_run events n) <= 2 * MAX_GLOBAL_BYTES_PER_SEC.
Proof.
  intros Ht Hfit Hk Hb.
  assert (G : Z.of_nat (admitted_from p (net_run events n)) <= peer_allowance a p n
    /\ admitted_bytes (net_run events n) <= bytes_allowance a n).
  { revert n Hfit. induction Ht as [|[now e] events Hnow _ IH]; intros n Hfit.
    - assert (Hz : forall s l u, 0 <= l -> 0 <= allowance a s l u).
      { intros s l u Hl. unfold allowance. destruct (a <=? s); lia. }
      split.
      + unfold peer_allowance. destruct (peer_msg_counts n !! p) as [[c st]|]; [by apply Hz|done].
      + by apply Hz.
    - assert (Hpos : 0 <= total_size events).
      { apply sumZ_map_nonneg. intros [t x] _. destruct x; simpl; lia. }
      change (total_size ((now, e) :: events)) with (event_size e + total_size events) in *.
      assert (0 <= event_size e) by (destruct e; simpl; lia).
      change (length ((now, e) :: events)) with (S (length events)) in *.
      rewrite Nat2Z.inj_succ in *. unfold Z.succ in *. rewrite Z.add_comm in Hb.
      rewrite (Z.add_comm (event_size e)) in Hfit.
      pose proof (net_step_limits a now e n (Z.of_nat (length events)) (total_size events) p
        Hnow ltac:(lia) Hpos Hfit Hk Hb) as Hs.
      cbn [net_run]. destruct (net_step now e n) as [n' m]. destruct Hs as (Hf & Hp & Hby).
      destruct (IH ltac:(lia) ltac:(lia) n' Hf) as [IH1 IH2].
      unfold admitted_from, admitted_bytes in *.
      rewrite List.filter_app, length_app, Nat2Z.inj_add, map_app, sumZ_app. lia. }
  destruct Hfit as (Hw & _ & Hc).
  assert (Hz : forall s l u, 0 <= l -> 0 <= u -> allowance a s l u <= 2 * l).
  { intros s l u Hl Hu. unfold allowance. destruct (a <=? s); lia. }
  assert (Hp : peer_allowance a p n <= 98).
  { unfold peer_allowance. destruct (peer_msg_counts n !! p) as [[c st]|] eqn:E; [|lia].
    apply (Hz st 49 c); [lia|]. apply (Hc p (c, st) E). }
  pose proof (Hz (global_bytes_reset n) MAX_GLOBAL_BYTES_PER_SEC (global_bytes_window n)
    ltac:(unfold MAX_GLOBAL_BYTES_PER_SEC; lia) Hw) as Hg.
  unfold bytes_allowance in G. split; lia.
Qed.

(** A message of a banned peer goes no further than disconnecting it. *)
Theorem banned_peer_disconnected now src data n u :
  ban_of src (peer_reputation n) = Some u -> now < u ->
  snd (on_gossip now src data n) = [Disconnect src]
  /\ inbound (fst (on_gossip now src data n)) = inbound n
  /\ peer_msg_counts (fst (on_gossip now src data n)) = peer_msg_counts n.
Proof.
  intros Hu Hnow. unfold on_gossip, admit_message.
  pose proof (proj1 (is_banned_spec _ _ _ now Hu) Hnow) as Hb. destruct (is_banned now src (peer_reputation n)) as [rep banned].
  simpl in Hb. by subst banned.
Qed.
End limits.

(** ** Examples *)

(** A codec that knows one synchronisation message, and a compressor that does
    not compress. *)
Definition toy_sync : NetworkMessage := SyncBlocks [].
#[local] Instance toy_message_codec : Codec NetworkMessage :=
  {| ser _ := Some (123 :: replicate 2000 32); de _ := Some toy_sync;
     ser_error _ := EmptyString; de_error _ := EmptyString |}.
#[local] Instance toy_deflate : Deflate :=
  {| deflate b := Some b; inflate_chunks b := [b] |}.

Lemma wire_roundtrip_witness : exists data, encode toy_sync = Some data /\ decode data = Some toy_sync.
Proof.
  destruct (wire_roundtrip toy_sync (123 :: replicate 2000 32) (123 :: replicate 2000 32))
    as (data & H1 & H2); [reflexivity..|apply app_nil_r|].
  exists data. split; [exact H1|]. rewrite H2. reflexivity.
Defined.

Lemma flood_bounds_witness :
  let events := [(5, NGossip (demo_key 1) [1; 2]); (6, NRecv)] in
  (admitted_from (demo_key 1) (net_run events (net_new 0)) <= 98)%nat.
Proof.
  intros events. apply (flood_bounds 0 (net_new 0) events (demo_key 1)).
  - repeat constructor; simpl; unfold secs; lia.
  - split; [simpl; lia|]. split; [vm_compute; discriminate|]. apply map_Forall_empty.
  - vm_compute. discriminate.
  - vm_compute. discriminate.
Defined.

Lemma banned_peer_disconnected_witness :
  let n := set_reputation (record_fork_mismatch 0 (demo_key 1) ∅) (net_new 0) in
  snd (on_gossip (secs 1) (demo_key 1) [7] n) = [Disconnect (demo_key 1)].
Proof.
  intros n. apply (banned_peer_disconnected (secs 1) (demo_key 1) [7] n (secs 300)).
  - vm_compute. reflexivity.
  - vm_compute. reflexivity.
Defined.
