(* ===== verification/Vm.v ===== *)
(** The virtual machine ([crates/solen-vm/src]): the host functions and their
    metering ([host.rs], [metering.rs]), and the runtime with its cache of
    pre-linked modules ([runtime.rs]).

    [wasmtime] is a parameter. What it runs between two host calls is a
    [guest]: a finite tree, since every instruction burns fuel. An instance is
    the code of its start function, run at instantiation in the store that holds
    the context, and the code of its export [call]. *)

From S2P Require Import Prelude Types Executor.
Open Scope Z_scope.

(** ** Metering ([metering.rs]) *)

Definition DEFAULT_FUEL_LIMIT : u64 := 1000000.
Definition STORAGE_WRITE_BASE_FUEL : u64 := 2000.
Definition STORAGE_WRITE_PER_BYTE_FUEL : u64 := 10.
Definition STORAGE_READ_BASE_FUEL : u64 := 500.

Definition fuel_to_gas (fuel_consumed : u64) : u64 := fuel_consumed.
Definition storage_write_fuel (key_len val_len : usize) : u64 :=
  STORAGE_WRITE_BASE_FUEL + Z.of_nat (key_len + val_len) * STORAGE_WRITE_PER_BYTE_FUEL.
Definition storage_read_fuel (key_len : usize) : u64 :=
  STORAGE_READ_BASE_FUEL + Z.of_nat key_len * STORAGE_WRITE_PER_BYTE_FUEL.

(** ** The store of a running instance *)

Record StoreData : Type := mkStoreData {
  sd_ctx : HostContext;
  sd_storage : gmap bytes bytes;
  sd_events : list (bytes * bytes);
  sd_return_data : bytes;
  sd_native_transfers : list (AccountId * u128);
  sd_pending_calls : list PendingCall;
  sd_fuel : u64;
  (** the exported linear memory, if there is one *)
  sd_memory : option bytes;
}.

Definition set_fuel (f : u64) (s : StoreData) : StoreData :=
  mkStoreData (sd_ctx s) (sd_storage s) (sd_events s) (sd_return_data s) (sd_native_transfers s)
              (sd_pending_calls s) f (sd_memory s).
Definition set_memory (m : option bytes) (s : StoreData) : StoreData :=
  mkStoreData (sd_ctx s) (sd_storage s) (sd_events s) (sd_return_data s) (sd_native_transfers s)
              (sd_pending_calls s) (sd_fuel s) m.
Definition set_storage (x : gmap bytes bytes) (s : StoreData) : StoreData :=
  mkStoreData (sd_ctx s) x (sd_events s) (sd_return_data s) (sd_native_transfers s)
              (sd_pending_calls s) (sd_fuel s) (sd_memory s).
Definition push_event (e : bytes * bytes) (s : StoreData) : StoreData :=
  mkStoreData (sd_ctx s) (sd_storage s) (sd_events s ++ [e]) (sd_return_data s) (sd_native_transfers s)
              (sd_pending_calls s) (sd_fuel s) (sd_memory s).
Definition set_return (d : bytes) (s : StoreData) : StoreData :=
  mkStoreData (sd_ctx s) (sd_storage s) (sd_events s) d (sd_native_transfers s)
              (sd_pending_calls s) (sd_fuel s) (sd_memory s).
Definition push_transfer (t : AccountId * u128) (s : StoreData) : StoreData :=
  mkStoreData (sd_ctx s) (sd_storage s) (sd_events s) (sd_return_data s)
              (sd_native_transfers s ++ [t]) (sd_pending_calls s) (sd_fuel s) (sd_memory s).
Definition push_call (c : PendingCall) (s : StoreData) : StoreData :=
  mkStoreData (sd_ctx s) (sd_storage s) (sd_events s) (sd_return_data s) (sd_native_transfers s)
              (sd_pending_calls s ++ [c]) (sd_fuel s) (sd_memory s).

(** [x as usize] of an [i32], which extends the sign, and [x as i32] of a length. *)
Definition as_usize (x : Z) : Z := x mod 2 ^ 64.
Definition as_i32 (x : Z) : Z := (x + 2 ^ 31) mod 2 ^ 32 - 2 ^ 31.

(** [Memory::read] and [Memory::write] fail out of bounds. *)
Definition safe_read (mem : bytes) (ptr : Z) (len : nat) : option bytes :=
  if as_usize ptr + Z.of_nat len <=? Z.of_nat (length mem)
  then Some (slice (Z.to_nat (as_usize ptr)) len mem) else None.
Definition safe_write (mem : bytes) (ptr : Z) (data : bytes) : option bytes :=
  if as_usize ptr + Z.of_nat (length data) <=? Z.of_nat (length mem)
  then let off := Z.to_nat (as_usize ptr) in
       Some (take off mem ++ data ++ drop (off + length data) mem)
  else None.

Definition MAX_HOST_ALLOC : Z := 1024 * 1024.
Definition checked_len (len : Z) : option usize :=
  if len <? 0 then None else if MAX_HOST_ALLOC <? len then None else Some (Z.to_nat len).

(** [if remaining < cost { return } set_fuel(remaining - cost)]. *)
Definition charge (cost : u64) (s : StoreData) : option StoreData :=
  if sd_fuel s <? cost then None else Some (set_fuel (sd_fuel s - cost) s).

(** ** Host functions ([register_host_functions_typed]) *)

(** A function that writes nothing when it gives up returns the store as it
    was; the result of a function without one is 0. *)
Definition or_give_up {A} (o : option A) (s : StoreData) (code : Z) (k : A -> StoreData * Z) :
    StoreData * Z :=
  match o with Some a => k a | None => (s, code) end.
Notation "'let?' x ':=' o 'else' s ',' c 'in' k" := (or_give_up o s c (fun x => k))
  (at level 10, x name, o at level 100, s at level 99, c at level 99, k at level 200).

Definition storage_read (key_ptr key_len val_ptr : Z) (s : StoreData) : StoreData * Z :=
  let? klen := checked_len key_len else s, -1 in
  let? memory := sd_memory s else s, -1 in
  let? key := safe_read memory key_ptr klen else s, -1 in
  let? s := charge (storage_read_fuel (length key)) s else s, -1 in
  let? val := sd_storage s !! key else s, -1 in
  let? memory := safe_write memory val_ptr val else s, -1 in
  (set_memory (Some memory) s, as_i32 (Z.of_nat (length val))).

Definition storage_write (key_ptr key_len val_ptr val_len : Z) (s : StoreData) : StoreData * Z :=
  let? klen := checked_len key_len else s, 0 in
  let? vlen := checked_len val_len else s, 0 in
  let? memory := sd_memory s else s, 0 in
  let? key := safe_read memory key_ptr klen else s, 0 in
  let? val := safe_read memory val_ptr vlen else s, 0 in
  let? s := charge (storage_write_fuel (length key) (length val)) s else s, 0 in
  (set_storage (<[key := val]> (sd_storage s)) s, 0).

Definition emit_event (topic_ptr topic_len data_ptr data_len : Z) (s : StoreData) : StoreData * Z :=
  let? tlen := checked_len topic_len else s, 0 in
  let? dlen := checked_len data_len else s, 0 in
  let? memory := sd_memory s else s, 0 in
  let? topic := safe_read memory topic_ptr tlen else s, 0 in
  let? data := safe_read memory data_ptr dlen else s, 0 in
  let? s := charge (STORAGE_WRITE_BASE_FUEL
                    + Z.of_nat (length topic + length data) * STORAGE_WRITE_PER_BYTE_FUEL) s
            else s, 0 in
  (push_event (topic, data) s, 0).

(** The functions that only write a value for the guest. *)
Definition write_out (out_ptr : Z) (value : bytes) (s : StoreData) : StoreData * Z :=
  let? memory := sd_memory s else s, 0 in
  let? memory := safe_write memory out_ptr value else s, 0 in
  (set_memory (Some memory) s, 0).
Definition get_caller (out_ptr : Z) (s : StoreData) : StoreData * Z :=
  write_out out_ptr (hc_caller (sd_ctx s)) s.
Definition get_self_id (out_ptr : Z) (s : StoreData) : StoreData * Z :=
  write_out out_ptr (hc_contract_id (sd_ctx s)) s.
Definition get_msg_value (out_ptr : Z) (s : StoreData) : StoreData * Z :=
  write_out out_ptr (le_bytes 16 (hc_msg_value (sd_ctx s))) s.
Definition get_self_balance (out_ptr : Z) (s : StoreData) : StoreData * Z :=
  write_out out_ptr (le_bytes 16 (hc_self_balance (sd_ctx s))) s.
(** [height as i64]. *)
Definition get_block_height (s : StoreData) : StoreData * Z :=
  (s, (hc_block_height (sd_ctx s) + 2 ^ 63) mod 2 ^ 64 - 2 ^ 63).

Definition MAX_NATIVE_TRANSFERS : nat := 50%nat.
Definition TRANSFER_FUEL : u64 := 5000.
Definition transfer_native (to_ptr amount_ptr : Z) (s : StoreData) : StoreData * Z :=
  let? memory := sd_memory s else s, -1 in
  let? to := safe_read memory to_ptr 32 else s, -1 in
  let? amount_buf := safe_read memory amount_ptr 16 else s, -1 in
  let amount := from_le amount_buf in
  if amount =? 0 then (s, -1)
  else
  let? s := charge TRANSFER_FUEL s else s, -1 in
  if (MAX_NATIVE_TRANSFERS <=? length (sd_native_transfers s))%nat then (s, -1)
  else (push_transfer (to, amount) s, 0).

Definition MAX_PENDING_CALLS : nat := 16%nat.
Definition MAX_METHOD_LEN : nat := 64%nat.
Definition MAX_ARGS_LEN : nat := (16 * 1024)%nat.
Definition queue_contract_call (target_ptr method_ptr method_len args_ptr args_len : Z) (s : StoreData) :
    StoreData * Z :=
  let? mlen := checked_len method_len else s, -1 in
  let? alen := checked_len args_len else s, -1 in
  if (mlen =? 0)%nat || (MAX_METHOD_LEN <? mlen)%nat then (s, -1)
  else if (MAX_ARGS_LEN <? alen)%nat then (s, -1)
  else
  let? memory := sd_memory s else s, -1 in
  let? target := safe_read memory target_ptr 32 else s, -1 in
  let? method := safe_read memory method_ptr mlen else s, -1 in
  let? args := (if (0 <? alen)%nat then safe_read memory args_ptr alen else Some []) else s, -1 in
  let? s := charge (5000 + Z.of_nat (mlen + alen) * 10) s else s, -1 in
  if (MAX_PENDING_CALLS <=? length (sd_pending_calls s))%nat then (s, -1)
  else (push_call (mkPendingCall target method args) s, 0).

Definition set_return_data (ptr len : Z) (s : StoreData) : StoreData * Z :=
  let? dlen := checked_len len else s, 0 in
  let? memory := sd_memory s else s, 0 in
  let? data := safe_read memory ptr dlen else s, 0 in
  let? s := charge (STORAGE_READ_BASE_FUEL + Z.of_nat (length data) * STORAGE_WRITE_PER_BYTE_FUEL) s
            else s, 0 in
  (set_return data s, 0).

Inductive HostCall : Type :=
| HStorageRead (key_ptr key_len val_ptr : Z)
| HStorageWrite (key_ptr key_len val_ptr val_len : Z)
| HEmitEvent (topic_ptr topic_len data_ptr data_len : Z)
| HGetCaller (out_ptr : Z)
| HGetBlockHeight
| HTransferNative (to_ptr amount_ptr : Z)
| HGetMsgValue (out_ptr : Z)
| HGetSelfId (out_ptr : Z)
| HGetSelfBalance (out_ptr : Z)
| HQueueContractCall (target_ptr method_ptr method_len args_ptr args_len : Z)
| HSetReturnData (ptr len : Z).

(** The linker's table. *)
Definition host_call (c : HostCall) : StoreData -> StoreData * Z :=
  match c with
  | HStorageRead a b c => storage_read a b c
  | HStorageWrite a b c d => storage_write a b c d
  | HEmitEvent a b c d => emit_event a b c d
  | HGetCaller a => get_caller a
  | HGetBlockHeight => get_block_height
  | HTransferNative a b => transfer_native a b
  | HGetMsgValue a => get_msg_value a
  | HGetSelfId a => get_self_id a
  | HGetSelfBalance a => get_self_balance a
  | HQueueContractCall a b c d e => queue_contract_call a b c d e
  | HSetReturnData a b => set_return_data a b
  end.

(** ** Running a guest *)

Inductive guest : Type :=
| GReturn (v : Z)
| GTrap (why : string)
(** instructions that burn [cost] fuel and write to the memory they see *)
| GRun (cost : N) (writes : bytes -> list (nat * Z)) (k : bytes -> guest)
(** [memory.grow] by so many bytes; the code learns whether it succeeded *)
| GGrow (by_bytes : nat) (k : bool -> guest)
| GHost (c : HostCall) (k : Z -> guest).

Definition MAX_WASM_MEMORY_BYTES : Z := 64 * 1024 * 1024.

(** Whether growing the memory to a size succeeds: in strict mode the limiter
    refuses more than the bound before the host is asked for the memory. *)
Definition grow_ok (strict : bool) (host_ram : Z -> bool) (size : Z) : bool :=
  (negb strict || (size <=? MAX_WASM_MEMORY_BYTES)) && host_ram size.

Definition memory_of (s : StoreData) : bytes := default [] (sd_memory s).

Fixpoint run_guest (strict : bool) (host_ram : Z -> bool) (g : guest) (s : StoreData) :
    StoreData * result Z string :=
  match g with
  | GReturn v => (s, Ok v)
  | GTrap why => (s, Err why)
  | GRun cost writes k =>
    if sd_fuel s <? Z.of_N cost then (set_fuel 0 s, Err "all fuel consumed by WebAssembly"%string)
    else
    let mem := memory_of s in
    let mem' := fold_left (fun m w => <[fst w := snd w]> m) (writes mem) mem in
    let s := set_memory (const mem' <$> sd_memory s) (set_fuel (sd_fuel s - Z.of_N cost) s) in
    run_guest strict host_ram (k mem') s
  | GGrow n k =>
    let size := Z.of_nat (length (memory_of s) + n) in
    if grow_ok strict host_ram size
    then run_guest strict host_ram (k true)
           (set_memory ((fun m => m ++ replicate n 0) <$> sd_memory s) s)
    else run_guest strict host_ram (k false) s
  | GHost c k => let '(s, r) := host_call c s in run_guest strict host_ram (k r) s
  end.

(** ** The runtime ([runtime.rs]) *)

Record Instance_ : Type := mkInstance {
  (** the exported memory as the data segments leave it *)
  i_memory : option bytes;
  (** what instantiation runs: the start function, [GReturn] where there is
      none; its result stands for the globals and tables it leaves *)
  i_start : guest;
  (** the typed export [call], or why there is none, over those globals *)
  i_call : result (Z -> Z -> Z -> guest) string;
}.

(** What the runtime asks of [wasmtime]; the first argument of [compile_module]
    and [link_pre] is the engine, strict or legacy. *)
Class Wasmtime : Type := {
  Module_ : Type;
  Pre : Type;
  compile_module : bool -> bytes -> result Module_ string;
  module_exports : Module_ -> list string;
  link_pre : bool -> Module_ -> result Pre string;
  instantiate : Pre -> result Instance_ string;
}.

Record ExecutionResult : Type := mkExecutionResult {
  er_gas_used : u64;
  er_return_data : bytes;
  er_events : list (bytes * bytes);
  er_storage : gmap bytes bytes;
  er_native_transfers : list (AccountId * u128);
  er_pending_calls : list PendingCall;
}.

Definition INPUT_OFFSET : Z := 1024.

(** [Store::new] and [set_fuel]: nothing is instantiated yet. *)
Definition initial_store (ctx : HostContext) (fuel : u64) : StoreData :=
  mkStoreData ctx (hc_storage ctx) [] [] [] [] fuel None.

(** [InstancePre::instantiate] in a store that holds the context: the memory is
    made, within the limiter's bound, and the start function runs with the host
    functions at hand, so that its writes, events, transfers and calls stay in
    the store. *)
Definition start_instance (strict : bool) (host_ram : Z -> bool) (inst : Instance_) (s : StoreData) :
    StoreData * result Z string :=
  let s := set_memory (i_memory inst) s in
  if bool_decide (is_Some (i_memory inst))
     && negb (grow_ok strict host_ram (Z.of_nat (length (memory_of s))))
  then (s, Err "memory minimum size exceeds memory limits"%string)
  else run_guest strict host_ram (i_start inst) s.

Definition run_instance (strict : bool) (host_ram : Z -> bool) (inst : Instance_) (globals : Z)
    (s : StoreData) (input : bytes) (fuel : u64) : result ExecutionResult VmError :=
  match sd_memory s with
  | None => Err (MissingExport "memory")
  | Some memory =>
    match safe_write memory INPUT_OFFSET input with
    | None => Err (Trap "memory write failed: out of bounds memory access")
    | Some memory =>
      match i_call inst with
      | Err e => Err (MissingExport ("call: " +:+ e))
      | Ok call_fn =>
        let '(s, r) := run_guest strict host_ram
                         (call_fn globals INPUT_OFFSET (as_i32 (Z.of_nat (length input))))
                         (set_memory (Some memory) s) in
        match r with
        | Err why => Err (if sd_fuel s =? 0 then OutOfGas else Trap why)
        | Ok _ =>
          let fuel_consumed := u64_sub fuel (sd_fuel s) in
          Ok (mkExecutionResult (fuel_to_gas fuel_consumed) (sd_return_data s) (sd_events s)
                (sd_storage s) (sd_native_transfers s) (sd_pending_calls s))
        end
      end
    end
  end.

Definition MAX_CACHE_SIZE : nat := Z.to_nat 1024.

Section runtime.
Context {wasmtime : Wasmtime} (host_ram : Z -> bool).

Definition vm_validate_bytecode (bytecode : bytes) : result unit VmError :=
  match compile_module false bytecode with
  | Err e => Err (InvalidBytecode e)
  | Ok m =>
    let has name := existsb (String.eqb name) (module_exports m) in
    if negb (has "memory"%string) then Err (MissingExport "memory")
    else if negb (has "call"%string) then Err (MissingExport "call")
    else Ok tt
  end.

Definition execute_pre (pre : Pre) (input : bytes) (ctx : HostContext) (fuel_limit : option u64)
    (strict : bool) : result ExecutionResult VmError :=
  let fuel := default DEFAULT_FUEL_LIMIT fuel_limit in
  match instantiate pre with
  | Err e => Err (Trap e)
  | Ok inst =>
    match start_instance strict host_ram inst (initial_store ctx fuel) with
    | (_, Err e) => Err (Trap e)
    | (s, Ok globals) => run_instance strict host_ram inst globals s input fuel
    end
  end.

Record VmRuntime : Type := mkVmRuntime {
  pre_cache : gmap bytes Pre;
  pre_cache_strict : gmap bytes Pre;
  determinism_fix_height : u64;
}.
Definition vm_new : VmRuntime := mkVmRuntime ∅ ∅ u64_max.
Definition set_determinism_fix_height (h : u64) (rt : VmRuntime) : VmRuntime :=
  mkVmRuntime (pre_cache rt) (pre_cache_strict rt) h.
Definition cache_size (rt : VmRuntime) : usize := size (pre_cache rt).

(** [keys().next()] of a hash map is some key of it. *)
Context (first_key : gmap bytes Pre -> option bytes).

Definition get_or_prelink (strict : bool) (cache : gmap bytes Pre) (code_hash : Hash) (bytecode : bytes) :
    gmap bytes Pre * result Pre VmError :=
  match cache !! code_hash with
  | Some pre => (cache, Ok pre)
  | None =>
    match compile_module strict bytecode with
    | Err e => (cache, Err (InvalidBytecode e))
    | Ok m =>
      match link_pre strict m with
      | Err e => (cache, Err (Trap e))
      | Ok pre =>
        let cache := if (MAX_CACHE_SIZE <=? size cache)%nat
                     then match first_key cache with Some k => delete k cache | None => cache end
                     else cache in
        (<[code_hash := pre]> cache, Ok pre)
      end
    end
  end.

Definition execute (rt : VmRuntime) (code_hash : Hash) (bytecode input : bytes) (ctx : HostContext)
    (fuel_limit : option u64) : VmRuntime * result ExecutionResult VmError :=
  let strict := determinism_fix_height rt <=? hc_block_height ctx in
  let '(cache, pre) := get_or_prelink strict (if strict then pre_cache_strict rt else pre_cache rt)
                         code_hash bytecode in
  let rt := if strict then mkVmRuntime (pre_cache rt) cache (determinism_fix_height rt)
            else mkVmRuntime cache (pre_cache_strict rt) (determinism_fix_height rt) in
  (rt, let! pre := pre in execute_pre pre input ctx fuel_limit strict).

(** The standalone [execute] function: a fresh engine, nothing cached. *)
Definition execute_standalone (bytecode input : bytes) (ctx : HostContext) (fuel_limit : option u64) :
    result ExecutionResult VmError :=
  match compile_module false bytecode with
  | Err e => Err (InvalidBytecode e)
  | Ok m =>
    match link_pre false m with
    | Err e => Err (Trap e)
    | Ok pre => execute_pre pre input ctx fuel_limit false
    end
  end.
End runtime.

(** ** What gas pays for *)

Definition storage_bytes (m : gmap bytes bytes) : Z :=
  sumZ (map (fun kv => Z.of_nat (length (fst kv) + length (snd kv))) (map_to_list m)).
Definition event_fuel (e : bytes * bytes) : Z := 2000 + 10 * Z.of_nat (length (fst e) + length (snd e)).
Definition call_fuel (c : PendingCall) : Z :=
  5000 + 10 * Z.of_nat (length (pc_method c) + length (pc_args c)).

(** The fuel that what a contract leaves behind has cost at the least. *)
Definition accounted (s : StoreData) : Z :=
  10 * storage_bytes (sd_storage s) + sumZ (map event_fuel (sd_events s))
  + 5000 * Z.of_nat (length (sd_native_transfers s)) + sumZ (map call_fuel (sd_pending_calls s)).

Lemma storage_bytes_insert_new m (k v : bytes) :
  m !! k = None ->
  storage_bytes (<[k := v]> m) = Z.of_nat (length k + length v) + storage_bytes m.
Proof.
  intros Hk. unfold storage_bytes. rewrite (Permutation_map _ (map_to_list_insert m k v Hk)). done.
Qed.

Lemma storage_bytes_insert m (k v : bytes) :
  storage_bytes (<[k := v]> m) <= storage_bytes m + Z.of_nat (length k + length v).
Proof.
  destruct (m !! k) as [v0|] eqn:E.
  - rewrite <- (insert_delete_eq m k v), <- (insert_delete_id m k v0 E) at 1.
    rewrite delete_insert_eq.
    rewrite !storage_bytes_insert_new by apply lookup_delete_eq.
    assert (storage_bytes m = Z.of_nat (length k + length v0) + storage_bytes (delete k m)).
    { rewrite <- (insert_delete_id m k v0 E) at 1. apply storage_bytes_insert_new, lookup_delete_eq. }
    rewrite delete_delete_eq. lia.
  - rewrite storage_bytes_insert_new by done. lia.
Qed.

(** How one step relates the stores: the context is fixed, fuel only goes
    down, what is left behind is paid for, and the queues stay bounded. *)
Record paid (s s' : StoreData) : Prop := {
  paid_ctx : sd_ctx s' = sd_ctx s;
  paid_fuel : 0 <= sd_fuel s' <= sd_fuel s;
  paid_accounted : accounted s' + sd_fuel s' <= accounted s + sd_fuel s;
  paid_transfers : (length (sd_native_transfers s) <= MAX_NATIVE_TRANSFERS)%nat ->
    (length (sd_native_transfers s') <= MAX_NATIVE_TRANSFERS)%nat;
  paid_calls : (length (sd_pending_calls s) <= MAX_PENDING_CALLS)%nat ->
    (length (sd_pending_calls s') <= MAX_PENDING_CALLS)%nat;
}.

Lemma paid_refl s : 0 <= sd_fuel s -> paid s s.
Proof. intros H. by split; try lia. Qed.

Lemma paid_trans s1 s2 s3 : paid s1 s2 -> paid s2 s3 -> paid s1 s3.
Proof. intros [] []. split; [congruence|lia|lia|auto|auto]. Qed.

Lemma charge_some c s s' :
  charge c s = Some s' -> c <= sd_fuel s /\ s' = set_fuel (sd_fuel s - c) s.
Proof. unfold charge. destruct (Z.ltb_spec (sd_fuel s) c); [done|]. by intros [= <-]. Qed.

Lemma safe_read_length mem ptr n b : safe_read mem ptr n = Some b -> length b = n.
Proof.
  unfold safe_read. destruct (Z.leb_spec (as_usize ptr + Z.of_nat n) (Z.of_nat (length mem))) as [H|];
    [|done]. intros [= <-]. unfold slice. rewrite length_take, length_drop.
  assert (0 <= as_usize ptr) by (apply Z.mod_pos_bound; lia). lia.
Qed.

Lemma safe_write_length mem ptr b mem' : safe_write mem ptr b = Some mem' -> length mem' = length mem.
Proof.
  unfold safe_write.
  destruct (Z.leb_spec (as_usize ptr + Z.of_nat (length b)) (Z.of_nat (length mem))) as [H|]; [|done].
  intros [= <-]. assert (0 <= as_usize ptr) by (apply Z.mod_pos_bound; lia).
  rewrite !length_app, length_take, length_drop. lia.
Qed.

(** The cases of a host function: each early return, and the last line. *)
Ltac host_cases := unfold or_give_up;
  repeat match goal with
  | |- context [match checked_len ?x with _ => _ end] => destruct (checked_len x) eqn:?
  | |- context [match sd_memory ?s with _ => _ end] => destruct (sd_memory s) eqn:?
  | |- context [match safe_read ?m ?p ?n with _ => _ end] => destruct (safe_read m p n) eqn:?
  | |- context [match safe_write ?m ?p ?b with _ => _ end] => destruct (safe_write m p b) eqn:?
  | |- context [match charge ?c ?s with _ => _ end] => destruct (charge c s) eqn:?
  | |- context [match ?m !! ?k with _ => _ end] => destruct (m !! k) eqn:?
  | |- context [if ?b then _ else _] => destruct b eqn:?
  end;
  repeat match goal with
  | H : charge _ _ = Some _ |- _ => apply charge_some in H as [? ->]
  end.

(** Where the store only lost fuel or changed its memory or return data. *)
Lemma paid_charge c s s' :
  0 <= c <= sd_fuel s -> sd_fuel s' = sd_fuel s - c -> sd_ctx s' = sd_ctx s ->
  sd_native_transfers s' = sd_native_transfers s -> sd_pending_calls s' = sd_pending_calls s ->
  accounted s' <= accounted s + c -> paid s s'.
Proof. intros Hc Hf Hx Ht Hp Ha. split; rewrite ?Hx, ?Ht, ?Hp; auto; lia. Qed.

Lemma accounted_same s s' :
  sd_storage s' = sd_storage s -> sd_events s' = sd_events s ->
  sd_native_transfers s' = sd_native_transfers s -> sd_pending_calls s' = sd_pending_calls s ->
  accounted s' = accounted s.
Proof. unfold accounted. by intros -> -> -> ->. Qed.

Ltac unfold_costs := unfold storage_read_fuel, storage_write_fuel, STORAGE_READ_BASE_FUEL,
  STORAGE_WRITE_BASE_FUEL, STORAGE_WRITE_PER_BYTE_FUEL, TRANSFER_FUEL in *.

Lemma transfer_native_paid to_ptr amount_ptr s :
  0 <= sd_fuel s -> paid s (fst (transfer_native to_ptr amount_ptr s)).
Proof.
  intros Hf. unfold transfer_native, or_give_up. destruct (sd_memory s) as [m|]; [|by apply paid_refl].
  destruct (safe_read m to_ptr 32) as [to|]; [|by apply paid_refl].
  destruct (safe_read m amount_ptr 16) as [amount|]; [|by apply paid_refl].
  destruct (from_le amount =? 0); [by apply paid_refl|].
  destruct (charge TRANSFER_FUEL s) as [s1|] eqn:Ec; [|by apply paid_refl].
  apply charge_some in Ec as [Hc ->]. unfold_costs.
  destruct (_ <=? _)%nat eqn:El; cbn [fst].
  - eapply paid_charge; [split; [|exact Hc]|done..|]; [lia|]. rewrite (accounted_same s); [lia|done..].
  - apply Nat.leb_gt in El. cbn in El. split; cbn; try done; try lia.
    + unfold accounted. cbn. rewrite length_app. simpl. lia.
    + intros _. rewrite length_app. simpl. lia.
Qed.

Lemma queue_contract_call_paid target_ptr method_ptr method_len args_ptr args_len s :
  0 <= sd_fuel s ->
  paid s (fst (queue_contract_call target_ptr method_ptr method_len args_ptr args_len s)).
Proof.
  intros Hf. unfold queue_contract_call, or_give_up.
  destruct (checked_len method_len) as [mlen|]; [|by apply paid_refl].
  destruct (checked_len args_len) as [alen|]; [|by apply paid_refl].
  destruct (_ || _); [by apply paid_refl|]. destruct (_ <? _)%nat; [by apply paid_refl|].
  destruct (sd_memory s) as [m|]; [|by apply paid_refl].
  destruct (safe_read m target_ptr 32) as [target|]; [|by apply paid_refl].
  destruct (safe_read m method_ptr mlen) as [method|] eqn:Em; [|by apply paid_refl].
  destruct (if (0 <? alen)%nat then _ else _) as [args|] eqn:Ea; [|by apply paid_refl].
  apply safe_read_length in Em.
  assert (Hargs : length args = alen).
  { destruct (Nat.ltb_spec 0 alen); [by eapply safe_read_length|]. injection Ea as <-. simpl. lia. }
  destruct (charge _ s) as [s1|] eqn:Ec; [|by apply paid_refl].
  apply charge_some in Ec as [Hc ->].
  destruct (_ <=? _)%nat eqn:El; cbn [fst].
  - eapply paid_charge; [split; [|exact Hc]|done..|]; [lia|]. rewrite (accounted_same s); [lia|done..].
  - apply Nat.leb_gt in El. cbn in El. split; cbn [push_call set_fuel sd_ctx sd_fuel sd_native_transfers
      sd_pending_calls]; try done; try lia.
    + unfold accounted. cbn [push_call set_fuel sd_storage sd_events sd_native_transfers sd_pending_calls].
      rewrite map_app, sumZ_app. cbn [map sumZ]. unfold call_fuel at 2. cbn [pc_method pc_args]. lia.
    + intros _. rewrite length_app. simpl. lia.
Qed.

Lemma host_call_paid c s : 0 <= sd_fuel s -> paid s (fst (host_call c s)).
Proof.
  intros Hf.
  assert (Hsame : forall k s', 0 <= k <= sd_fuel s -> sd_fuel s' = sd_fuel s - k ->
    sd_ctx s' = sd_ctx s -> sd_storage s' = sd_storage s -> sd_events s' = sd_events s ->
    sd_native_transfers s' = sd_native_transfers s -> sd_pending_calls s' = sd_pending_calls s ->
    paid s s').
  { intros k s' Hk H1 H2 H3 H4 H5 H6. apply (paid_charge k); try done.
    rewrite (accounted_same s s') by done. lia. }
  destruct c; cbn [host_call].
  - unfold storage_read. host_cases; cbn [fst]; try by apply paid_refl.
    all: unfold_costs; eapply Hsame; [split; [|eassumption]|done..]; lia.
  - unfold storage_write. host_cases; cbn [fst]; try by apply paid_refl.
    unfold_costs. eapply paid_charge; [split; [|eassumption]|done..|]; [lia|].
    unfold accounted. simpl. match goal with |- context [<[?k := ?v]> _] => pose proof (storage_bytes_insert (sd_storage s) k v) end.
    lia.
  - unfold emit_event. host_cases; cbn [fst]; try by apply paid_refl.
    unfold_costs. eapply paid_charge; [split; [|eassumption]|done..|]; [lia|].
    unfold accounted. simpl. rewrite map_app, sumZ_app. simpl. unfold event_fuel at 2. simpl. lia.
  - unfold get_caller, write_out. host_cases; cbn [fst]; try by apply paid_refl.
    by apply (Hsame 0); try lia; simpl; try lia.
  - by apply paid_refl.
  - by apply transfer_native_paid.
  - unfold get_msg_value, write_out. host_cases; cbn [fst]; try by apply paid_refl.
    by apply (Hsame 0); try lia; simpl; try lia.
  - unfold get_self_id, write_out. host_cases; cbn [fst]; try by apply paid_refl.
    by apply (Hsame 0); try lia; simpl; try lia.
  - unfold get_self_balance, write_out. host_cases; cbn [fst]; try by apply paid_refl.
    by apply (Hsame 0); try lia; simpl; try lia.
  - by apply queue_contract_call_paid.
  - unfold set_return_data. host_cases; cbn [fst]; try by apply paid_refl.
    unfold_costs; eapply Hsame; [split; [|eassumption]|done..]; lia.
Qed.

Lemma run_guest_paid strict ram g s : 0 <= sd_fuel s -> paid s (fst (run_guest strict ram g s)).
Proof.
  revert s. induction g as [v|why|cost writes k IH|n k IH|c k IH]; intros s Hf; cbn [run_guest].
  - by apply paid_refl.
  - by apply paid_refl.
  - destruct (Z.ltb_spec (sd_fuel s) (Z.of_N cost)) as [Hlt|Hge]; cbn [fst].
    + eapply (paid_charge (sd_fuel s)); [lia|simpl; lia|done..|]. rewrite (accounted_same s); [lia|done..].
    + eapply paid_trans; [|apply IH; simpl; lia].
      eapply (paid_charge (Z.of_N cost)); [lia|done..|]. rewrite (accounted_same s); [lia|done..].
  - destruct (grow_ok _ _ _); [|by apply IH]. eapply paid_trans; [|by apply IH].
    eapply (paid_charge 0); [lia|simpl; lia|done..|]. rewrite (accounted_same s); [lia|done..].
  - pose proof (host_call_paid c s Hf) as Hp. destruct (host_call c s) as [s1 r].
    eapply paid_trans; [exact Hp|]. apply IH, Hp.
Qed.

Lemma set_memory_paid m s : 0 <= sd_fuel s -> paid s (set_memory m s).
Proof.
  intros Hf. eapply (paid_charge 0); [lia|simpl; lia|done..|]. rewrite (accounted_same s); [lia|done..].
Qed.

Lemma start_instance_paid strict ram inst s :
  0 <= sd_fuel s -> paid s (fst (start_instance strict ram inst s)).
Proof.
  intros Hf. unfold start_instance. destruct (_ && _); [by apply set_memory_paid|].
  eapply paid_trans; [by apply set_memory_paid|]. by apply run_guest_paid.
Qed.

Lemma run_instance_paid strict ram inst g s input fuel r :
  0 <= sd_fuel s <= fuel -> fuel <= u64_max ->
  run_instance strict ram inst g s input fuel = Ok r ->
  exists s', paid s s' /\ er_gas_used r = fuel - sd_fuel s' /\ er_storage r = sd_storage s'
    /\ er_events r = sd_events s' /\ er_native_transfers r = sd_native_transfers s'
    /\ er_pending_calls r = sd_pending_calls s'.
Proof.
  intros Hf Hm. unfold run_instance. destruct (sd_memory s) as [mem|]; [|done].
  destruct (safe_write mem INPUT_OFFSET input) as [mem'|]; [|done].
  destruct (i_call inst) as [f|]; [|done].
  assert (Hp : forall code, paid s (fst (run_guest strict ram code (set_memory (Some mem') s)))).
  { intros code. eapply paid_trans; [apply set_memory_paid; lia|]. apply run_guest_paid. simpl. lia. }
  specialize (Hp (f g INPUT_OFFSET (as_i32 (Z.of_nat (length input))))).
  destruct (run_guest _ _ _ _) as [s' [v|why]]; [|done]. intros [= <-]. exists s'. split; [done|].
  simpl in *. pose proof (paid_fuel _ _ Hp). unfold fuel_to_gas. by rewrite u64_sub_exact by lia.
Qed.

Section gas.
Context {wasmtime : Wasmtime} (host_ram : Z -> bool).

(** C31: A successful execution, the module's start function included, used at
    most its limit, the subtraction does not wrap, and gas paid for all it leaves
    behind: ten units for every byte the storage grew, two thousand and the bytes
    for every event, five thousand and the bytes for every queued call, five
    thousand for every transfer; there are at most 50 transfers and 16 calls.
    Nothing is assumed of the module: whatever instructions and host calls its
    start function and its [call] make. *)
Theorem execution_paid pre input ctx fuel strict r :
  0 <= fuel <= u64_max ->
  execute_pre host_ram pre input ctx (Some fuel) strict = Ok r ->
  0 <= er_gas_used r <= fuel
  /\ 10 * storage_bytes (er_storage r) + sumZ (map event_fuel (er_events r))
     + 5000 * Z.of_nat (length (er_native_transfers r)) + sumZ (map call_fuel (er_pending_calls r))
     <= 10 * storage_bytes (hc_storage ctx) + er_gas_used r
  /\ (length (er_native_transfers r) <= 50)%nat /\ (length (er_pending_calls r) <= 16)%nat.
Proof.
  intros Hfuel. unfold execute_pre. simpl default.
  destruct (instantiate pre) as [inst|]; [|done].
  pose proof (start_instance_paid strict host_ram inst (initial_store ctx fuel) (proj1 Hfuel)) as Hs.
  destruct (start_instance _ _ _ _) as [s [g|why]]; [|done]. cbn [fst] in Hs. intros Hr.
  destruct (run_instance_paid _ _ _ _ _ _ _ _ (paid_fuel _ _ Hs) (proj2 Hfuel) Hr)
    as (s' & Hp & -> & -> & -> & -> & ->).
  destruct (paid_trans _ _ _ Hs Hp) as [_ Hf Ha Ht Hc]. unfold accounted in Ha. simpl in *.
  specialize (Ht ltac:(lia)). specialize (Hc ltac:(lia)).
  unfold MAX_NATIVE_TRANSFERS, MAX_PENDING_CALLS in *. lia.
Qed.
End gas.

(** ** Determinism across hosts *)

Lemma run_guest_strict ram1 ram2 g s :
  (forall n, n <= MAX_WASM_MEMORY_BYTES -> ram1 n = ram2 n) ->
  run_guest true ram1 g s = run_guest true ram2 g s.
Proof.
  intros Hram. revert s. induction g as [v|why|cost writes k IH|n k IH|c k IH]; intros s;
    cbn [run_guest]; [done|done| | |].
  - destruct (_ <? _); [done|]. apply IH.
  - unfold grow_ok. simpl negb. rewrite orb_false_l.
    destruct (Z.leb_spec (Z.of_nat (length (memory_of s) + n)) MAX_WASM_MEMORY_BYTES) as [Hle|];
      [|simpl; apply IH].
    rewrite (Hram _ Hle). simpl. by destruct (ram2 _); apply IH.
  - destruct (host_call c s). apply IH.
Qed.

Lemma start_instance_strict ram1 ram2 inst s :
  (forall n, n <= MAX_WASM_MEMORY_BYTES -> ram1 n = ram2 n) ->
  start_instance true ram1 inst s = start_instance true ram2 inst s.
Proof.
  intros Hram. unfold start_instance. rewrite (run_guest_strict ram1 ram2) by done.
  set (n := Z.of_nat _). replace (grow_ok true ram1 n) with (grow_ok true ram2 n); [done|].
  unfold grow_ok. simpl. destruct (Z.leb_spec n MAX_WASM_MEMORY_BYTES); [|done]. by rewrite Hram.
Qed.

Section determinism.
Context {wasmtime : Wasmtime}.

(** From the activation height on, an execution does not depend on the node:
    any two hosts that can supply the bounded memory compute the same result. *)
Theorem strict_execution_deterministic ram1 ram2 first_key rt code_hash bytecode input ctx fuel_limit :
  (forall n, n <= MAX_WASM_MEMORY_BYTES -> ram1 n = true) ->
  (forall n, n <= MAX_WASM_MEMORY_BYTES -> ram2 n = true) ->
  determinism_fix_height rt <= hc_block_height ctx ->
  execute ram1 first_key rt code_hash bytecode input ctx fuel_limit
  = execute ram2 first_key rt code_hash bytecode input ctx fuel_limit.
Proof.
  intros H1 H2 Hh. unfold execute. apply Z.leb_le in Hh. rewrite Hh.
  destruct (get_or_prelink _ _ _ _ _) as [cache [pre|]]; [|done]. unfold rbind, execute_pre, run_instance.
  assert (Hram : forall n, n <= MAX_WASM_MEMORY_BYTES -> ram1 n = ram2 n)
    by (intros n Hn; by rewrite H1, H2).
  destruct (instantiate _) as [inst|]; [|done]. rewrite (start_instance_strict ram1 ram2) by done.
  destruct (start_instance _ _ _ _) as [s [g|]]; [|done]. destruct (sd_memory s); [|done].
  destruct (safe_write _ _ _); [|done]. destruct (i_call inst); [|done].
  by rewrite (run_guest_strict ram1 ram2).
Qed.
End determinism.

(** ** The cache *)

Section cache.
Context {wasmtime : Wasmtime} (host_ram : Z -> bool) (first_key : gmap bytes Pre -> option bytes)
        (blake3 : bytes -> Hash).

(** Linking without a cache. *)
Definition prelink (strict : bool) (bytecode : bytes) : result Pre VmError :=
  match compile_module strict bytecode with
  | Err e => Err (InvalidBytecode e)
  | Ok m => match link_pre strict m with Err e => Err (Trap e) | Ok pre => Ok pre end
  end.
Definition execute_uncached (gate : u64) (bytecode input : bytes) (ctx : HostContext)
    (fuel_limit : option u64) : result ExecutionResult VmError :=
  let strict := gate <=? hc_block_height ctx in
  let! pre := prelink strict bytecode in execute_pre host_ram pre input ctx fuel_limit strict.

Record Request : Type := mkRequest {
  rq_code : bytes; rq_input : bytes; rq_ctx : HostContext; rq_fuel : option u64;
}.
Fixpoint run_requests (rt : VmRuntime) (rs : list Request) : VmRuntime * list (result ExecutionResult VmError) :=
  match rs with
  | [] => (rt, [])
  | r :: rs =>
    let '(rt, x) := execute host_ram first_key rt (blake3 (rq_code r)) (rq_code r) (rq_input r)
                      (rq_ctx r) (rq_fuel r) in
    let '(rt, xs) := run_requests rt rs in (rt, x :: xs)
  end.

Context (codes : list bytes)
        (Hinj : forall c1 c2, c1 ∈ codes -> c2 ∈ codes -> blake3 c1 = blake3 c2 -> c1 = c2)
        (Hkey : forall m : gmap bytes Pre, m <> ∅ -> exists k, first_key m = Some k /\ is_Some (m !! k)).

(** Every entry was linked from the code its key is the hash of, and there are
    no more than the limit. *)
Definition cache_ok (strict : bool) (cache : gmap bytes Pre) : Prop :=
  (size cache <= MAX_CACHE_SIZE)%nat
  /\ map_Forall (fun h pre => exists c, c ∈ codes /\ blake3 c = h /\ prelink strict c = Ok pre) cache.

Lemma get_or_prelink_ok strict cache code :
  code ∈ codes -> cache_ok strict cache ->
  cache_ok strict (fst (get_or_prelink first_key strict cache (blake3 code) code))
  /\ snd (get_or_prelink first_key strict cache (blake3 code) code) = prelink strict code.
Proof using Hinj Hkey.
  intros Hcode [Hsize Hc]. unfold get_or_prelink.
  destruct (cache !! blake3 code) as [pre|] eqn:E.
  { split; [done|]. destruct (Hc _ _ E) as (c & Hin & Hh & Hp). simpl.
    by rewrite <- (Hinj c code Hin Hcode Hh). }
  unfold prelink. destruct (compile_module strict code) as [m|e] eqn:Em; [|done].
  destruct (link_pre strict m) as [pre|e] eqn:El; [|done]. split; [|done]. cbn [fst].
  set (cache' := if (MAX_CACHE_SIZE <=? size cache)%nat then _ else cache).
  assert (H' : (S (size cache') <= MAX_CACHE_SIZE)%nat /\ map_Forall (fun h pre => exists c,
    c ∈ codes /\ blake3 c = h /\ prelink strict c = Ok pre) cache').
  { unfold cache'. destruct (Nat.leb_spec MAX_CACHE_SIZE (size cache)) as [Hfull|]; [|split; [lia|done]].
    assert (Hne : cache <> ∅).
    { intros ->. rewrite map_size_empty in Hfull. unfold MAX_CACHE_SIZE in Hfull. lia. }
    destruct (Hkey cache Hne) as (k & -> & [p Hk]). split.
    - rewrite map_size_delete_Some by eauto. unfold MAX_CACHE_SIZE in *. lia.
    - by apply map_Forall_delete. }
  destruct H' as [Hs Hf]. split.
  - rewrite map_size_insert. destruct (cache' !! blake3 code); simpl; lia.
  - apply map_Forall_insert_2; [|done]. exists code. unfold prelink. by rewrite Em, El.
Qed.

(** The cache is invisible: whatever was executed before, every execution
    returns what linking the module afresh would, on the engine of its height;
    and neither cache grows past its limit. *)
Theorem cache_transparent rs gate :
  (forall r, r ∈ rs -> rq_code r ∈ codes) ->
  let '(rt, xs) := run_requests (set_determinism_fix_height gate vm_new) rs in
  xs = map (fun r => execute_uncached gate (rq_code r) (rq_input r) (rq_ctx r) (rq_fuel r)) rs
  /\ (cache_size rt <= 1024)%nat /\ (size (pre_cache_strict rt) <= 1024)%nat.
Proof using Hinj Hkey.
  intros Hrs.
  assert (G : forall rt, determinism_fix_height rt = gate ->
    cache_ok false (pre_cache rt) -> cache_ok true (pre_cache_strict rt) ->
    let '(rt', xs) := run_requests rt rs in
    xs = map (fun r => execute_uncached gate (rq_code r) (rq_input r) (rq_ctx r) (rq_fuel r)) rs
    /\ cache_ok false (pre_cache rt') /\ cache_ok true (pre_cache_strict rt')).
  { induction rs as [|r rs IH]; intros rt Hg H1 H2; [done|]. cbn [run_requests].
    assert (Hr : rq_code r ∈ codes) by (apply Hrs; set_solver).
    unfold execute. rewrite Hg.
    set (strict := gate <=? hc_block_height (rq_ctx r)).
    assert (Hok : cache_ok strict (if strict then pre_cache_strict rt else pre_cache rt)) by by destruct strict.
    destruct (get_or_prelink_ok strict _ (rq_code r) Hr Hok) as [Hc Hp].
    destruct (get_or_prelink _ _ _ _ _) as [cache pre]. simpl in Hc, Hp.
    set (rt1 := if strict then _ else _).
    specialize (IH ltac:(set_solver) rt1).
    assert (Hrt : determinism_fix_height rt1 = gate /\ cache_ok false (pre_cache rt1)
      /\ cache_ok true (pre_cache_strict rt1)) by (unfold rt1; destruct strict; done).
    destruct Hrt as (Ha & Hb & Hd). specialize (IH Ha Hb Hd).
    destruct (run_requests rt1 rs) as [rt' xs]. destruct IH as (-> & H3 & H4).
    split; [|done]. cbn [map]. f_equal. unfold execute_uncached. fold strict. by rewrite Hp. }
  specialize (G (set_determinism_fix_height gate vm_new) eq_refl).
  assert (H0 : forall b, cache_ok b ∅) by (intros b; split; [rewrite map_size_empty; lia|apply map_Forall_empty]).
  specialize (G (H0 _) (H0 _)). destruct (run_requests _ rs) as [rt xs].
  destruct G as (Hx & [H1 _] & [H2 _]). split; [done|]. done.
Qed.
End cache.

(** ** The executor's machine

    The machine the executor calls is the runtime; by [cache_transparent] it is
    the uncached execution. *)
Definition to_vm_result (r : ExecutionResult) : VmResult :=
  mkVmResult (er_gas_used r) (er_storage r) (er_native_transfers r) (er_events r) (er_pending_calls r).

Definition runtime_vm {wasmtime : Wasmtime} (host_ram : Z -> bool) (gate : u64) : Vm := {|
  validate_bytecode code :=
    match vm_validate_bytecode code with Ok _ => None | Err e => Some (vm_error_msg e) end;
  vm_execute hash code input ctx fuel :=
    let! r := execute_uncached host_ram gate code input ctx (Some fuel) in Ok (to_vm_result r);
|}.

(** ** Running low on fuel *)

(** A host call that cannot be paid for is skipped, and the code cannot tell:
    a write returns as if it were done, a read as if the key were absent. *)
Theorem low_fuel_skips a b c d s :
  (sd_fuel s < 2000 -> storage_write a b c d s = (s, 0))
  /\ (sd_fuel s < 500 -> storage_read a b c s = (s, -1)).
Proof.
  assert (Hc : forall cost, sd_fuel s < cost -> charge cost s = None).
  { intros cost H. unfold charge. by destruct (Z.ltb_spec (sd_fuel s) cost); [|lia]. }
  split; intros H.
  - unfold storage_write. unfold or_give_up. repeat case_match; try done.
    rewrite Hc in *; [done|]. unfold_costs. lia.
  - unfold storage_read. unfold or_give_up. repeat case_match; try done.
    all: rewrite Hc in *; [done|]; unfold_costs; lia.
Qed.

(** ** Examples *)

(** A module whose [call] is the given code, with a small memory. *)
Definition started_wasmtime (start g : guest) : Wasmtime := {|
  Module_ := unit; Pre := unit;
  compile_module _ _ := Ok tt; module_exports _ := ["memory"%string; "call"%string];
  link_pre _ _ := Ok tt;
  instantiate _ := Ok (mkInstance (Some (replicate 1100 7)) start (Ok (fun _ _ _ => g)));
|}.
Definition toy_wasmtime : guest -> Wasmtime := started_wasmtime (GReturn 0).
Definition toy_ctx : HostContext := mkHostContext (demo_key 1) 5 (demo_key 2) ∅ 0 0.

(** Two writes: one of 80 bytes, then one of 8. *)
Definition two_writes : guest :=
  GHost (HStorageWrite 0 40 0 40) (fun _ => GHost (HStorageWrite 0 4 0 4) (fun _ => GReturn 0)).

(** Between the two costs the first write is lost, the second is kept, and the
    execution succeeds. *)
Theorem partial_writes_committed :
  exists r, execute_pre (wasmtime := toy_wasmtime two_writes) (fun _ => true) tt [] toy_ctx
              (Some 2500) true = Ok r
    /\ er_storage r = {[replicate 4 7 := replicate 4 7]} /\ er_gas_used r = 2080.
Proof. eexists. vm_compute. done. Qed.

(** A start section is not refused: what it writes and emits before [call] runs
    is part of the result. *)
Definition busy_start : guest :=
  GHost (HStorageWrite 0 40 0 40) (fun _ => GHost (HEmitEvent 0 4 0 4) (fun _ => GReturn 0)).

Lemma execution_paid_witness :
  exists r, execute_pre (wasmtime := started_wasmtime busy_start two_writes) (fun _ => true) tt [] toy_ctx
              (Some 10000) true = Ok r
    /\ er_events r = [(replicate 4 7, replicate 4 7)] /\ size (er_storage r) = 2%nat
    /\ er_gas_used r = 9760
    /\ 10 * storage_bytes (er_storage r) + sumZ (map event_fuel (er_events r)) <= er_gas_used r <= 10000.
Proof.
  assert (E : exists r, execute_pre (wasmtime := started_wasmtime busy_start two_writes) (fun _ => true) tt []
    toy_ctx (Some 10000) true = Ok r) by (eexists; vm_compute; reflexivity).
  destruct E as [r E]. exists r. split; [exact E|].
  destruct (execution_paid (wasmtime := started_wasmtime busy_start two_writes) (fun _ => true) tt [] toy_ctx
    10000 true r) as (Hg & Ha & _); [unfold u64_max; lia|exact E|].
  vm_compute in E. injection E as <-. repeat split; try reflexivity; vm_compute; discriminate.
Defined.

(** A contract that asks for memory and remembers the answer. *)
Definition asks_memory : guest :=
  GGrow 100 (fun ok => if ok then GHost (HStorageWrite 0 4 0 4) (fun _ => GReturn 0) else GReturn 0).

(** Before the activation height two nodes could disagree. *)
Example legacy_depends_on_host :
  let run ram := execute_pre (wasmtime := toy_wasmtime asks_memory) ram tt [] toy_ctx None false in
  run (fun _ => true) <> run (fun _ => false).
Proof.
  intros run H. apply (f_equal (fun r => match r with Ok r => er_gas_used r | Err _ => -1 end)) in H.
  vm_compute in H. discriminate.
Qed.

Lemma strict_execution_deterministic_witness :
  let exec ram := execute (wasmtime := toy_wasmtime asks_memory) ram (fun _ => None)
                    (mkVmRuntime (wasmtime := toy_wasmtime asks_memory) ∅ ∅ 3) [9] [9] [] toy_ctx None in
  exec (fun n => n <=? MAX_WASM_MEMORY_BYTES) = exec (fun _ => true).
Proof.
  intros exec. apply (strict_execution_deterministic (wasmtime := toy_wasmtime asks_memory)).
  - intros n Hn. by apply Z.leb_le.
  - intros n Hn. reflexivity.
  - vm_compute. discriminate.
Defined.

Lemma cache_transparent_witness :
  let rq := mkRequest [9] [] toy_ctx None in
  snd (run_requests (wasmtime := toy_wasmtime asks_memory) (fun _ => true)
         (fun m => fst <$> head (map_to_list m)) (fun b => b)
         (set_determinism_fix_height (wasmtime := toy_wasmtime asks_memory) 3
            (vm_new (wasmtime := toy_wasmtime asks_memory))) [rq; rq])
  = [execute_uncached (wasmtime := toy_wasmtime asks_memory) (fun _ => true) 3 [9] [] toy_ctx None;
     execute_uncached (wasmtime := toy_wasmtime asks_memory) (fun _ => true) 3 [9] [] toy_ctx None].
Proof.
  intros rq.
  assert (Hk : forall m : gmap bytes unit, m <> ∅ ->
    exists k, fst <$> head (map_to_list m) = Some k /\ is_Some (m !! k)).
  { intros m Hm. destruct (map_to_list m) as [|[k v] l] eqn:E.
    - exfalso. apply Hm. by apply map_to_list_empty_iff.
    - exists k. split; [reflexivity|]. exists v. apply elem_of_map_to_list. rewrite E. left. }
  assert (Hr : forall r, r ∈ [rq; rq] -> rq_code r ∈ [[9]]).
  { intros r Hr. set_unfold in Hr. destruct Hr as [->|[->|[]]]; simpl; set_solver. }
  pose proof (cache_transparent (wasmtime := toy_wasmtime asks_memory) (fun _ => true)
    (fun m => fst <$> head (map_to_list m)) (fun b => b) [[9]] (fun _ _ _ _ H => H) Hk [rq; rq] 3 Hr) as H.
  destruct (run_requests _ _ _ _ _) as [rt xs]. exact (proj1 H).
Defined.
