(* ===== verification/Base64.v ===== *)
(** Base64 as the two ends of a snapshot transfer write it: the encoder of the
    RPC server ([base64_encode] of [crates/solen-rpc/src/methods.rs]) and the
    decoder of the restoring node ([base64_decode] of
    [crates/solen-node/src/main.rs]), and that the second inverts the first. *)

From S2P Require Import Prelude Types Address.
Open Scope Z_scope.

(** ** The encoder *)

Definition CHARS : bytes := Eval vm_compute in
  bytes_of_string "ABCDEFGHIJKLMNOPQRSTUVWXYZabcdefghijklmnopqrstuvwxyz0123456789+/".

(** [data.chunks(3)]. *)
Fixpoint chunks3 (data : bytes) : list bytes :=
  match data with
  | b0 :: b1 :: b2 :: rest => [b0; b1; b2] :: chunks3 rest
  | [] => []
  | last => [last]
  end.

(** [CHARS[((triple >> shift) & 0x3F) as usize] as char]. *)
Definition b64_char (triple shift : Z) : Z :=
  nth (Z.to_nat (Z.land (Z.shiftr triple shift) 63)) CHARS 0.

Definition encode_chunk (chunk : bytes) : str :=
  let b0 := nth 0 chunk 0 in
  let b1 := if (1 <? length chunk)%nat then nth 1 chunk 0 else 0 in
  let b2 := if (2 <? length chunk)%nat then nth 2 chunk 0 else 0 in
  let triple := Z.lor (Z.lor (Z.shiftl b0 16) (Z.shiftl b1 8)) b2 in
  [b64_char triple 18; b64_char triple 12;
   if (1 <? length chunk)%nat then b64_char triple 6 else 61;
   if (2 <? length chunk)%nat then b64_char triple 0 else 61].

Definition base64_encode (data : bytes) : str := flat_map encode_chunk (chunks3 data).

(** ** The decoder *)

(** [TABLE], indexed by the ASCII code. *)
Definition b64_entry (c : Z) : Z :=
  if (65 <=? c) && (c <=? 90) then c - 65
  else if (97 <=? c) && (c <=? 122) then 26 + (c - 97)
  else if (48 <=? c) && (c <=? 57) then 52 + (c - 48)
  else if c =? 43 then 62
  else if c =? 47 then 63
  else 255.

Definition b64_table : list Z := Eval vm_compute in map (fun n => b64_entry (Z.of_nat n)) (seq 0 128).

(** "invalid base64 character". *)
Inductive Base64Error : Type := InvalidCharacter (b : u8).

(** [input.trim_end_matches('=')]. *)
Definition trim_padding (s : str) : str := rev (drop_while (fun c => c =? 61) (rev s)).

(** The loop: [buf] holds the [bits] bits that are not output yet. *)
Fixpoint decode_loop (input : bytes) (buf bits : Z) (output : bytes) : result bytes Base64Error :=
  match input with
  | [] => Ok output
  | b :: input =>
    if (127 <? b) || (nth (Z.to_nat b) b64_table 255 =? 255) then Err (InvalidCharacter b)
    else
    let buf := Z.lor (Z.shiftl buf 6 mod 2 ^ 32) (nth (Z.to_nat b) b64_table 255) in
    let bits := bits + 6 in
    if 8 <=? bits then
      let bits := bits - 8 in
      decode_loop input (Z.land buf (Z.shiftl 1 bits - 1)) bits (output ++ [Z.shiftr buf bits mod 256])
    else decode_loop input buf bits output
  end.

Definition base64_decode (input : str) : result bytes Base64Error :=
  decode_loop (str_bytes (trim_padding input)) 0 0 [].

(** ** The round trip *)

(** A character of the alphabet is read back as its value. *)
Lemma b64_char_value d : 0 <= d < 64 ->
  let c := nth (Z.to_nat d) CHARS 0 in
  0 <= c < 128 /\ c <> 61 /\ nth (Z.to_nat c) b64_table 255 = d.
Proof.
  intros Hd. set (p := fun d => let c := nth (Z.to_nat d) CHARS 0 in
    (0 <=? c) && (c <? 128) && negb (c =? 61) && (nth (Z.to_nat c) b64_table 255 =? d)).
  assert (H : p d = true) by (apply (range_forallb 64 p); [vm_compute; reflexivity|lia]).
  unfold p in H. cbv zeta in H. prop_bool. done.
Qed.

Lemma lor_shift x n v : 0 <= n -> 0 <= v < 2 ^ n -> Z.lor (Z.shiftl x n) v = x * 2 ^ n + v.
Proof.
  intros Hn Hv. rewrite <- Z.shiftl_mul_pow2 by done.
  assert (E : Z.land (Z.shiftl x n) v = 0).
  { apply Z.bits_inj'. intros i Hi. rewrite Z.land_spec, Z.bits_0.
    destruct (Z.lt_ge_cases i n) as [Hlt|Hge].
    - by rewrite Z.shiftl_spec_low.
    - rewrite <- (Z.mod_small v (2 ^ n)), Z.mod_pow2_bits_high by lia. apply andb_false_r. }
  rewrite (Z.add_nocarry_lxor _ _ E). by rewrite Z.lxor_lor.
Qed.

Lemma land_ones x n : 0 <= n -> Z.land x (Z.shiftl 1 n - 1) = x mod 2 ^ n.
Proof. intros Hn. rewrite Z.shiftl_1_l, Z.sub_1_r, <- Z.ones_equiv. by apply Z.land_ones. Qed.

(** One character of value [d] in arithmetic. *)
Lemma decode_loop_char d cs buf bits out :
  0 <= d < 64 -> 0 <= bits -> 0 <= buf < 2 ^ 26 ->
  decode_loop (nth (Z.to_nat d) CHARS 0 :: cs) buf bits out
  = if 8 <=? bits + 6
    then decode_loop cs ((buf * 64 + d) mod 2 ^ (bits - 2)) (bits - 2)
           (out ++ [(buf * 64 + d) / 2 ^ (bits - 2) mod 256])
    else decode_loop cs (buf * 64 + d) (bits + 6) out.
Proof.
  intros Hd Hbits Hbuf. destruct (b64_char_value d Hd) as (Hc & _ & Ht). cbn [decode_loop].
  rewrite Ht, (proj2 (Z.ltb_ge _ _)), (proj2 (Z.eqb_neq _ _)) by lia. cbn [orb].
  rewrite Z.mod_small by (rewrite Z.shiftl_mul_pow2 by lia; lia).
  rewrite lor_shift by lia. change (2 ^ 6) with 64.
  destruct (8 <=? bits + 6) eqn:E; [|done]. apply Z.leb_le in E.
  replace (bits + 6 - 8) with (bits - 2) by lia.
  by rewrite land_ones, Z.shiftr_div_pow2 by lia.
Qed.

Lemma b64_char_digit triple shift :
  0 <= shift -> b64_char triple shift = nth (Z.to_nat (triple / 2 ^ shift mod 64)) CHARS 0.
Proof.
  intros H. unfold b64_char. change 63 with (Z.ones 6). rewrite Z.land_ones by lia.
  by rewrite Z.shiftr_div_pow2.
Qed.

Lemma triple_value b0 b1 b2 : 0 <= b1 < 256 -> 0 <= b2 < 256 ->
  Z.lor (Z.lor (Z.shiftl b0 16) (Z.shiftl b1 8)) b2 = b0 * 65536 + b1 * 256 + b2.
Proof.
  intros H1 H2.
  assert (E : Z.lor (Z.shiftl b0 16) (Z.shiftl b1 8) = Z.shiftl (b0 * 256 + b1) 8).
  { change 16 with (8 + 8). rewrite <- Z.shiftl_shiftl, <- Z.shiftl_lor by lia.
    f_equal. rewrite lor_shift by lia. done. }
  rewrite E, lor_shift by lia. change (2 ^ 8) with 256. lia.
Qed.

Lemma digit_range x : 0 <= x mod 64 < 64.
Proof. apply Z.mod_pos_bound. lia. Qed.

(** The characters of a chunk, one after the other; the number of waiting bits
    goes 0, 6, 4, 2, 0. *)
Ltac decode_chars := rewrite !b64_char_digit by lia;
  repeat (rewrite decode_loop_char; [|apply digit_range|lia|Z.to_euclidean_division_equations; lia];
    match goal with |- context [if ?b then _ else _] => let v := eval vm_compute in b in change b with v end;
    cbv iota; change (0 + 6) with 6; change (6 - 2) with 4; change (4 - 2) with 2; change (2 - 2) with 0).

(** A full chunk leaves the decoder empty-handed again. *)
Lemma decode_full b0 b1 b2 cs out :
  0 <= b0 < 256 -> 0 <= b1 < 256 -> 0 <= b2 < 256 ->
  decode_loop (encode_chunk [b0; b1; b2] ++ cs) 0 0 out = decode_loop cs 0 0 (out ++ [b0; b1; b2]).
Proof.
  intros H0 H1 H2. unfold encode_chunk. cbn [length Nat.ltb Nat.leb nth app].
  rewrite triple_value by done. set (t := b0 * 65536 + b1 * 256 + b2).
  assert (Ht : 0 <= t < 2 ^ 24) by lia. decode_chars.
  rewrite <- !app_assoc. cbn [app].
  f_equal; [Z.to_euclidean_division_equations; lia|].
  do 2 f_equal; [|f_equal; [|f_equal]]; unfold t; Z.to_euclidean_division_equations; lia.
Qed.

(** The last chunk, without its padding. *)
Lemma decode_two b0 b1 out :
  0 <= b0 < 256 -> 0 <= b1 < 256 ->
  decode_loop (take 3 (encode_chunk [b0; b1])) 0 0 out = Ok (out ++ [b0; b1]).
Proof.
  intros H0 H1. unfold encode_chunk. cbn [length Nat.ltb Nat.leb nth take].
  rewrite triple_value by lia. set (t := b0 * 65536 + b1 * 256 + 0).
  assert (Ht : 0 <= t < 2 ^ 24) by lia. decode_chars. cbn [decode_loop].
  rewrite <- !app_assoc. cbn [app]. do 3 f_equal; [|f_equal]; unfold t; Z.to_euclidean_division_equations; lia.
Qed.

Lemma decode_one b0 out :
  0 <= b0 < 256 -> decode_loop (take 2 (encode_chunk [b0])) 0 0 out = Ok (out ++ [b0]).
Proof.
  intros H0. unfold encode_chunk. cbn [length Nat.ltb Nat.leb nth take].
  rewrite triple_value by lia. set (t := b0 * 65536 + 0 * 256 + 0).
  assert (Ht : 0 <= t < 2 ^ 24) by lia. decode_chars. cbn [decode_loop].
  do 3 f_equal. unfold t. Z.to_euclidean_division_equations. lia.
Qed.

Definition is_b64 (c : Z) : Prop := 0 <= c < 128 /\ c <> 61.

Lemma b64_char_plain triple shift : 0 <= shift -> is_b64 (b64_char triple shift).
Proof.
  intros H. rewrite b64_char_digit by done. destruct (b64_char_value _ (digit_range (triple / 2 ^ shift))) as (? & ? & _).
  done.
Qed.

Lemma trim_padding_plain s k : Forall is_b64 s -> trim_padding (s ++ replicate k 61) = s.
Proof.
  intros Hs. unfold trim_padding. rewrite rev_app_distr, rev_replicate.
  assert (E : forall l, drop_while (fun c => c =? 61) (replicate k 61 ++ l) = drop_while (fun c => c =? 61) l)
    by (intros l; induction k; done).
  rewrite E. destruct s as [|c s] using rev_ind; [done|]. rewrite rev_unit. cbn [drop_while].
  apply Forall_app in Hs as [_ Hc]. inversion Hc as [|? ? [_ Hne] ?]; subst.
  rewrite (proj2 (Z.eqb_neq _ _)) by done. by rewrite <- rev_unit, rev_involutive.
Qed.

(** The text of a byte string: characters of the alphabet that decode to it,
    then padding. *)
Lemma base64_text data : digits_of 256 data ->
  exists body k, base64_encode data = body ++ replicate k 61 /\ Forall is_b64 body
    /\ forall out, decode_loop body 0 0 out = Ok (out ++ data).
Proof.
  intros Hd. remember (length data) as n eqn:En. revert data Hd En.
  induction n as [n IH] using lt_wf_ind. intros [|b0 [|b1 [|b2 rest]]] Hd En.
  - exists [], O. split; [done|]. split; [constructor|]. intros out. by rewrite app_nil_r.
  - apply Forall_cons in Hd as [H0 _]. exists (take 2 (encode_chunk [b0])), 2%nat. split; [done|].
    split; [cbn; repeat constructor; by apply b64_char_plain|]. intros out. by apply decode_one.
  - apply Forall_cons in Hd as [H0 [H1 _]%Forall_cons].
    exists (take 3 (encode_chunk [b0; b1])), 1%nat. split; [done|].
    split; [cbn; repeat constructor; by apply b64_char_plain|]. intros out. by apply decode_two.
  - apply Forall_cons in Hd as [H0 [H1 [H2 Hd]%Forall_cons]%Forall_cons]. subst n.
    destruct (IH (length rest)) with (data := rest) as (body & k & Eb & Hb & Hdec); [cbn; lia|done|done|].
    exists (encode_chunk [b0; b1; b2] ++ body), k. split.
    { unfold base64_encode in *. cbn [chunks3 flat_map]. by rewrite Eb, app_assoc. }
    split.
    { apply Forall_app. split; [cbn; repeat constructor; by apply b64_char_plain|done]. }
    intros out. rewrite decode_full by done. rewrite Hdec, <- app_assoc. done.
Qed.

(** What the server encodes the node decodes to the same bytes. *)
Lemma base64_roundtrip data : digits_of 256 data -> base64_decode (base64_encode data) = Ok data.
Proof.
  intros Hd. destruct (base64_text data Hd) as (body & k & -> & Hb & Hdec). unfold base64_decode.
  rewrite trim_padding_plain by done. rewrite str_bytes_ascii; [apply Hdec|].
  eapply Forall_impl; [exact Hb|]. intros c [? _]. lia.
Qed.

(** A text whose length is no multiple of four is accepted too, and the bits of
    an incomplete byte are dropped. *)
Example base64_lenient : base64_decode (chars "QQ") = Ok [65] /\ base64_decode (chars "QR") = Ok [65]
  /\ base64_decode (chars "Q") = Ok [] /\ base64_decode (chars "Q!") = Err (InvalidCharacter 33).
Proof. done. Qed.
