(* ===== verification/Rpc.v ===== *)
(** The RPC server ([crates/solen-rpc/src/methods.rs]): rate limits, the
    submission of operations, and the call that waits for their inclusion. *)

From stdpp Require Import pretty.
From S2P Require Import Prelude Types Store Memory Codec Staking Treasury State Address Reputation.
From S2P Require Import Validators Mempool Intents Checkpoint EngineState.
Open Scope Z_scope.

(** ** Replies

    A method returns a value or a JSON-RPC error; a panic aborts the call. *)

Inductive RpcError : Type :=
| Fault (code : Z) (message : string)
| BadEncoding (e : EncodingError).  (** code -32602 with the text of the error *)

Inductive reply (T : Type) : Type :=
| Replied (r : result T RpcError)
| Aborted.
Arguments Replied {T} r.
Arguments Aborted {T}.

Definition answer {T} (t : T) : reply T := Replied (Ok t).
Definition fault {T} (code : Z) (message : string) : reply T := Replied (Err (Fault code message)).
Definition and_then {T U} (m : reply T) (f : T -> reply U) : reply U :=
  match m with
  | Replied (Ok t) => f t
  | Replied (Err e) => Replied (Err e)
  | Aborted => Aborted
  end.

Definition of_outcome {T} (o : outcome T) : reply T :=
  match o with
  | Returned (Ok t) => answer t
  | Returned (Err e) => Replied (Err (BadEncoding e))
  | Panicked => Aborted
  end.

Definition rpc_hex_decode (s : str) : reply bytes := of_outcome (hex_decode s).
Definition parse_account_id (s : str) : reply AccountId := of_outcome (parse_address s).

Notation "'let?' x ':=' m 'in' k" := (and_then m (fun x => k))
  (at level 10, x name, m at level 100, k at level 200) : solen_scope.

Definition parse_hash (s : str) : reply Hash :=
  let? b := rpc_hex_decode s in
  if negb (length b =? 32)%nat
  then fault (-32602) ("hash must be 32 bytes, got " +:+ pretty (length b))
  else answer b.

(** [to_string()] of an integer, and [parse::<u128>()]: an optional [+], then
    decimal digits, without overflow. *)
Definition decimal (n : Z) : str := chars (pretty n).

Fixpoint parse_digits (s : str) (acc : Z) : option Z :=
  match s with
  | [] => Some acc
  | c :: s =>
    if (48 <=? c) && (c <=? 57) then
      let acc := acc * 10 + (c - 48) in
      if u128_max <? acc then None else parse_digits s acc
    else None
  end.
Definition parse_u128 (s : str) : option u128 :=
  match s with
  | [] | [43] => None
  | 43 :: s => parse_digits s 0
  | s => parse_digits s 0
  end.

(** ** Rate limits *)

(** [(call_count, window_start)]. *)
Definition Counter : Type := u64 * Instant.

Record RpcRateLimiter : Type := mkLimiter {
  lim_submit_ops : Counter;
  lim_submit_solutions : Counter;
  lim_snapshots : Counter;
  lim_view_calls : Counter;
}.

Definition limiter_new (now : Instant) : RpcRateLimiter := mkLimiter (0, now) (0, now) (0, now) (0, now).

Definition rate_check (max_per_sec : u64) (now : Instant) (c : Counter) : Counter * bool :=
  if secs 1 <? elapsed now (snd c) then ((1, now), true)
  else let count := u64_add (fst c) 1 in ((count, snd c), count <=? max_per_sec).

(** ** Submission *)

Record SubmitResult : Type := mkSubmitResult { sr_accepted : bool; sr_error : option string }.
Definition rejected (why : string) : SubmitResult := mkSubmitResult false (Some why).

Definition MAX_CONFIRM_WAITERS : usize := 200%nat.
Definition CONFIRM_DEFAULT_TIMEOUT_SECS : u64 := 60.
Definition CONFIRM_MAX_TIMEOUT_SECS : u64 := 180.

Section submission.
Context {St : Type} `{!StateStore St} `{!Codec Account}.
Implicit Types e : Engine St.

(** What the checks before the mempool say of an operation; a record that does
    not decode passes. *)
Definition admission_error (s : St) (op : UserOperation) : option string :=
  match st_get s (account_key (op_sender op)) with
  | None => Some "sender account not found"
  | Some data =>
    match de (A := Account) data with
    | None => None
    | Some account =>
      if op_nonce op <? nonce account
      then Some ("nonce too low: got " +:+ pretty (op_nonce op) +:+ ", expected >= " +:+ pretty (nonce account))
      else if u64_add (nonce account) 64 <? op_nonce op
      then Some ("nonce too far ahead: got " +:+ pretty (op_nonce op) +:+ ", current is " +:+ pretty (nonce account))
      else if balance account =? 0 then Some "sender has zero balance"
      else None
    end
  end.

(** The operation that is broadcast to the peers is returned too. *)
Definition validate_and_submit (now : Instant) (op : UserOperation) (lim : RpcRateLimiter) e :
    RpcRateLimiter * Engine St * option UserOperation * SubmitResult :=
  let '(c, allowed) := rate_check 500 now (lim_submit_ops lim) in
  let lim := mkLimiter c (lim_submit_solutions lim) (lim_snapshots lim) (lim_view_calls lim) in
  if negb allowed then (lim, e, None, rejected "rate limited — too many submissions, try again")
  else
  match admission_error (en_store e) op with
  | Some why => (lim, e, None, rejected why)
  | None =>
    let '(pool, accepted) := mempool_submit op (en_mempool e) in
    (lim, set_mempool pool e, if accepted then Some op else None,
     mkSubmitResult accepted (if accepted then None else Some "mempool full or duplicate"))
  end.

Definition submit_operation := validate_and_submit.

Definition current_account_nonce (s : St) (sender : AccountId) : option u64 :=
  data ← st_get s (account_key sender); a ← de (A := Account) data; Some (nonce a).

(** *** Waiting for inclusion *)

Record SubmitConfirmResult : Type := mkConfirm {
  cf_accepted : bool; cf_confirmed : bool; cf_success : bool; cf_block_height : u64;
  cf_tx_hash : string; cf_sender : str; cf_nonce : u64; cf_gas_used : u64; cf_error : option string;
}.

(** What the wait for the next event ends with, and the store at that moment. *)
Inductive Received : Type :=
| TxIncluded (block_height : u64) (tx_hash : Hash) (sender : AccountId) (nonce : u64) (success : bool)
    (gas_used : u64)
| OtherEvent
| Lagged (n : u64)
| ChannelClosed
| TimedOut.

Definition not_confirmed (accepted : bool) (sender : AccountId) (n : u64) (why : option string) :
    SubmitConfirmResult :=
  mkConfirm accepted false false 0 "" (account_to_base58 sender) n 0 why.

(** The nonce is past the operation's. *)
Definition recheck (s : St) (sender : AccountId) (n : u64) : option SubmitConfirmResult :=
  match current_account_nonce s sender with
  | Some curr =>
    if n <? curr then Some (mkConfirm true true true 0 "" (account_to_base58 sender) n 0 None) else None
  | None => None
  end.

(** The loop over the events; [None] while it is still waiting. *)
Fixpoint confirm_loop (timeout : u64) (sender : AccountId) (n : u64) (events : list (Received * St)) :
    option SubmitConfirmResult :=
  match events with
  | [] => None
  | (r, s) :: events =>
    match r with
    | TxIncluded h tx_hash who nonce success gas =>
      if bytes_eqb who sender && (nonce =? n)
      then Some (mkConfirm true true success h (hex_encode tx_hash) (account_to_base58 sender) n gas
                   (if success then None else Some "transaction reverted on-chain"))
      else confirm_loop timeout sender n events
    | OtherEvent => confirm_loop timeout sender n events
    | Lagged _ =>
      match recheck s sender n with
      | Some r => Some r
      | None => confirm_loop timeout sender n events
      end
    | ChannelClosed =>
      Some (not_confirmed true sender n (Some "event channel closed before confirmation"))
    | TimedOut =>
      match recheck s sender n with
      | Some r => Some r
      | None => Some (not_confirmed true sender n
          (Some ("timed out after " +:+ pretty timeout +:+ "s waiting for block inclusion")))
      end
    end
  end.

(** [waiting] calls hold a permit; [after] is the store once the operation has
    been submitted. *)
Definition submit_operation_confirm (now : Instant) (op : UserOperation) (timeout_secs : option u64)
    (waiting : usize) (after : St) (events : list (Received * St)) (lim : RpcRateLimiter) e :
    RpcRateLimiter * Engine St * option UserOperation * option SubmitConfirmResult :=
  let timeout := Z.min (default CONFIRM_DEFAULT_TIMEOUT_SECS timeout_secs) CONFIRM_MAX_TIMEOUT_SECS in
  let sender := op_sender op in
  let n := op_nonce op in
  if (MAX_CONFIRM_WAITERS <=? waiting)%nat
  then (lim, e, None, Some (not_confirmed false sender n
         (Some "too many concurrent submitOperationConfirm waiters — retry shortly")))
  else
  let '(lim, e, sent, submit) := validate_and_submit now op lim e in
  if negb (sr_accepted submit) then (lim, e, sent, Some (not_confirmed false sender n (sr_error submit)))
  else
  match recheck after sender n with
  | Some r => (lim, e, sent, Some r)
  | None => (lim, e, sent, confirm_loop timeout sender n events)
  end.
End submission.

(** ** The limiter bounds every period *)

(** The calls of a method at the given times; which of them are allowed. *)
Fixpoint rate_run (max_per_sec : u64) (calls : list Instant) (c : Counter) : list bool :=
  match calls with
  | [] => []
  | now :: calls =>
    let '(c, ok) := rate_check max_per_sec now c in ok :: rate_run max_per_sec calls c
  end.

Definition count_true (l : list bool) : Z := Z.of_nat (count_occ Bool.bool_dec l true).

(** What the counter still allows until [until]. *)
Definition rate_allowance (m until : Z) (c : Counter) : Z :=
  Z.max 0 (m - fst c) + Z.max m 1 * ((until - snd c) / secs 1).

Lemma rate_check_allowance m until now c :
  0 <= m -> 0 <= fst c < u64_max -> snd c <= now <= until ->
  let '(c', ok) := rate_check m now c in
  Z.b2z ok + rate_allowance m until c' <= rate_allowance m until c
  /\ 0 <= fst c' <= fst c + 1 /\ snd c' <= now.
Proof.
  intros Hm Hc Ht. unfold rate_check, rate_allowance, elapsed, sat_sub, secs in *.
  destruct (Z.ltb_spec (1 * 1000000000) (Z.max 0 (now - snd c))) as [Hw|Hw]; cbn [fst snd Z.b2z].
  - assert ((until - now) / (1 * 1000000000) <= (until - snd c) / (1 * 1000000000) - 1) as Hd.
    { transitivity ((until - snd c + (-1) * (1 * 1000000000)) / (1 * 1000000000)).
      - apply Z.div_le_mono; lia.
      - rewrite Z.div_add; lia. }
    split; [|lia]. assert (0 < Z.max m 1) by lia. nia.
  - rewrite u64_add_exact by lia.
    assert (0 <= (until - snd c) / (1 * 1000000000)) by (apply Z.div_pos; lia).
    destruct (Z.leb_spec (fst c + 1) m); cbn [Z.b2z]; lia.
Qed.

(** Within any period that follows a window's start, a method is allowed at most
    its limit for that window and once more its limit for every further second
    of the period. *)
Theorem rate_limit_bound m until calls c :
  0 <= m -> 0 <= fst c -> fst c + Z.of_nat (length calls) <= u64_max ->
  Sorted Z.le (snd c :: calls) -> Forall (fun t => t <= until) calls ->
  snd c <= until ->
  count_true (rate_run m calls c) <= rate_allowance m until c.
Proof.
  intros Hm. revert c. induction calls as [|now calls IH]; intros c Hc Hlen Hs Hu Hcu.
  - unfold count_true, rate_allowance. cbn. assert (0 <= (until - snd c) / secs 1) by (apply Z.div_pos; [lia|done]).
    unfold secs in *. lia.
  - apply Forall_cons in Hu as [Hnow Hu]. apply Sorted_inv in Hs as [Hs Hhd].
    apply HdRel_inv in Hhd. cbn [rate_run length] in *.
    pose proof (rate_check_allowance m until now c Hm ltac:(lia) ltac:(lia)) as Hstep.
    destruct (rate_check m now c) as [c' ok]. destruct Hstep as (Ha & Hf & Hn).
    assert (Hs' : Sorted Z.le (snd c' :: calls)).
    { apply Sorted_inv in Hs as [Hs' Hd]. constructor; [done|].
      destruct calls; constructor. apply HdRel_inv in Hd. lia. }
    specialize (IH c' ltac:(lia) ltac:(lia) Hs' Hu ltac:(lia)).
    assert (count_true (ok :: rate_run m calls c') = Z.b2z ok + count_true (rate_run m calls c')) as ->.
    { unfold count_true. destruct ok; cbn [count_occ]; destruct (Bool.bool_dec _ _); try done; cbn [Z.b2z]; lia. }
    lia.
Qed.

Lemma rate_limit_bound_witness :
  count_true (rate_run 2 [5; 6; 7; secs 1 + 6; secs 1 + 7; secs 1 + 8] (0, 5)) <= rate_allowance 2 (secs 2) (0, 5)
  /\ rate_run 2 [5; 6; 7; secs 1 + 6; secs 1 + 7; secs 1 + 8] (0, 5) = [true; true; false; true; true; false].
Proof.
  split; [|reflexivity]. apply rate_limit_bound; unfold secs, u64_max; cbn [fst snd length]; try lia;
    repeat (constructor; try lia).
Defined.

(** ** What a submission promises *)

Section submission_laws.
Context {St : Type} `{!StateStore St} `{!Codec Account}.
Implicit Types e : Engine St.

Lemma admission_spec (s : St) op :
  admission_error s op = None <->
  exists data, st_get s (account_key (op_sender op)) = Some data
    /\ forall a, de data = Some a ->
       nonce a <= op_nonce op <= u64_add (nonce a) 64 /\ balance a <> 0.
Proof.
  unfold admission_error. destruct (st_get s _) as [data|].
  - destruct (de data) as [a|] eqn:Ed.
    + destruct (Z.ltb_spec (op_nonce op) (nonce a)); [|destruct (Z.ltb_spec (u64_add (nonce a) 64) (op_nonce op));
        [|destruct (Z.eqb_spec (balance a) 0)]]; split; try done.
      * intros (d & [= <-] & Hd). specialize (Hd a Ed). lia.
      * intros (d & [= <-] & Hd). specialize (Hd a Ed). lia.
      * intros (d & [= <-] & Hd). specialize (Hd a Ed). lia.
      * intros _. exists data. split; [done|]. intros a' Ha. rewrite Ed in Ha. injection Ha as <-. done.
    + split; [|done]. intros _. exists data. split; [done|]. intros a' Ha. by rewrite Ed in Ha.
  - split; [done|]. by intros (d & ? & _).
Qed.

(** A submission is accepted exactly when the limit allows it, the sender is on
    record, its nonce is within 64 of the account's, its balance is not zero,
    and the mempool takes it; then, and only then, it is broadcast. The engine
    changes in its mempool alone, and a refused submission changes nothing but
    the counter and, when the mempool itself refuses, what the mempool dropped. *)
Theorem submission_guarded now op lim e lim' e' sent r :
  validate_and_submit now op lim e = (lim', e', sent, r) ->
  (sr_accepted r = true <->
     snd (rate_check 500 now (lim_submit_ops lim)) = true
     /\ (exists data, st_get (en_store e) (account_key (op_sender op)) = Some data
           /\ forall a, de data = Some a ->
              nonce a <= op_nonce op <= u64_add (nonce a) 64 /\ balance a <> 0)
     /\ snd (mempool_submit op (en_mempool e)) = true)
  /\ sent = (if sr_accepted r then Some op else None)
  /\ (sr_accepted r = true <-> sr_error r = None)
  /\ e' = set_mempool (en_mempool e') e
  /\ (sr_accepted r = true -> en_mempool e' = fst (mempool_submit op (en_mempool e))).
Proof.
  unfold validate_and_submit. destruct (rate_check _ _ _) as [c allowed]. cbn [snd].
  assert (He : e = set_mempool (en_mempool e) e) by (by destruct e).
  destruct allowed; cbn [negb].
  2:{ intros [= <- <- <- <-]. repeat split; try done. by intros [? _]. }
  rewrite <- admission_spec. destruct (admission_error _ _) as [why|].
  { intros [= <- <- <- <-]. repeat split; try done. by intros (_ & ? & _). }
  destruct (mempool_submit op (en_mempool e)) as [pool acc]. intros [= <- <- <- <-]. cbn [sr_accepted sr_error snd fst].
  destruct acc; repeat split; try done. by intros (_ & _ & ?).
Qed.

(** ** What a confirmation means *)

Definition included_as (sender : AccountId) (n : u64) (r : SubmitConfirmResult) (ev : Received) : Prop :=
  exists tx_hash, ev = TxIncluded (cf_block_height r) tx_hash sender n (cf_success r) (cf_gas_used r).

Lemma recheck_spec (s : St) sender n r :
  recheck s sender n = Some r ->
  cf_confirmed r = true /\ cf_success r = true /\ cf_block_height r = 0
  /\ exists m, current_account_nonce s sender = Some m /\ n < m.
Proof.
  unfold recheck. destruct (current_account_nonce s sender) as [m|]; [|done].
  destruct (Z.ltb_spec n m); [|done]. intros [= <-]. repeat split; try done. by exists m.
Qed.

(** The wait ends: at the deadline at the latest. And what it confirms was
    announced as included for that sender and nonce, with the reported outcome,
    or the nonce of the sender was seen to be past the operation's. *)
Theorem confirmation_sound timeout sender n (events : list (Received * St)) :
  (Exists (fun ev => fst ev = TimedOut) events -> is_Some (confirm_loop timeout sender n events))
  /\ forall r, confirm_loop timeout sender n events = Some r -> cf_confirmed r = true ->
     Exists (fun ev => included_as sender n r (fst ev)
       \/ exists m, current_account_nonce (snd ev) sender = Some m /\ n < m /\ cf_block_height r = 0) events.
Proof.
  induction events as [|[ev s] events [IH1 IH2]]; [split; [by inversion 1|done]|]. split.
  - intros Hx. assert (Hr : ev = TimedOut \/ is_Some (confirm_loop timeout sender n events)).
    { inversion Hx; subst; [by left|right; auto]. }
    cbn [confirm_loop]. destruct Hr as [->|Hr].
    + destruct (recheck _ _ _); by eexists.
    + destruct ev; try done; try by eexists.
      * destruct (_ && _); [by eexists|done].
      * destruct (recheck _ _ _); [by eexists|done].
      * destruct (recheck _ _ _); by eexists.
  - intros r Hr Hc. cbn [confirm_loop] in Hr.
    assert (Hre : forall r', recheck s sender n = Some r' -> r' = r ->
      exists m, current_account_nonce s sender = Some m /\ n < m /\ cf_block_height r = 0).
    { intros r' (_ & _ & H0 & m & ? & ?)%recheck_spec ->. by exists m. }
    destruct ev; try (apply Exists_cons_tl; by apply IH2).
    + destruct (bytes_eqb sender0 sender && (nonce =? n)) eqn:E; [|apply Exists_cons_tl; by apply IH2].
      prop_bool. subst. injection Hr as <-. apply Exists_cons_hd. left. by eexists.
    + destruct (recheck s sender n) as [r'|] eqn:E; [|apply Exists_cons_tl; by apply IH2].
      injection Hr as ->. apply Exists_cons_hd. right. by apply (Hre r).
    + by injection Hr as <-.
    + destruct (recheck s sender n) as [r'|] eqn:E; [|by injection Hr as <-].
      injection Hr as ->. apply Exists_cons_hd. right. by apply (Hre r).
Qed.
End submission_laws.
