(* ===== verification/RpcViews.v ===== *)
(** The RPC server ([crates/solen-rpc/src/methods.rs]), continued: reads of the
    chain and its contracts, view calls, intents and rollup batches. *)

From stdpp Require Import pretty.
From S2P Require Import Prelude Types Store Memory Overlay Codec Staking Governance Vesting Treasury State.
From S2P Require Import SysCommon SysStaking SysVesting SysGovernance SystemCalls Fees Auth Session Executor Blocks.
From S2P Require Import Address Reputation Validators Mempool Intents Checkpoint Settlement Rollup Vm.
From S2P Require Import EngineState Rpc.
Open Scope Z_scope.

(** ** Blocks *)

Record BlockInfo : Type := mkBlockInfo {
  bi_height : u64; bi_epoch : u64; bi_parent_hash : string; bi_state_root : string;
  bi_transactions_root : string; bi_receipts_root : string; bi_proposer : str;
  bi_timestamp_ms : u64; bi_tx_count : usize; bi_gas_used : u64;
}.

Definition block_to_info (b : FinalizedBlock) : BlockInfo :=
  let h := fb_header b in
  mkBlockInfo (bh_height h) (bh_epoch h) (hex_encode (bh_parent_hash h)) (hex_encode (bh_state_root h))
    (hex_encode (bh_transactions_root h)) (hex_encode (bh_receipts_root h))
    (account_to_base58 (bh_proposer h)) (bh_timestamp_ms h) (length (br_receipts (fb_result b)))
    (br_gas_used (fb_result b)).

(** ** Reads *)

Record AccountInfo : Type := mkAccountInfo {
  ai_id : str; ai_balance : str; ai_nonce : u64; ai_code_hash : string; ai_staked : str;
  ai_auth_methods : list AuthMethod;
}.
Record RpcValidatorInfo : Type := mkRpcValidator {
  rv_address : str; rv_self_stake : str; rv_total_delegated : str; rv_total_stake : str;
  rv_is_active : bool; rv_is_genesis : bool; rv_commission_bps : u64;
}.
Record DelegationInfo : Type := mkDelegationInfo { di_validator : str; di_amount : str }.
Record StakingInfo : Type := mkStakingInfo {
  si_total_delegated : str; si_delegations : list DelegationInfo; si_pending_undelegations : usize;
}.
Record VestingInfo : Type := mkVestingInfo {
  vf_has_schedule : bool; vf_total_amount : str; vf_vested : str; vf_claimed : str; vf_claimable : str;
  vf_vesting_type : str;
}.
Record GovernanceProposalInfo : Type := mkProposalInfo {
  gi_id : u64; gi_proposer : str; gi_action : string; gi_description : string; gi_status : string;
  gi_voting_end_epoch : u64; gi_execute_after_epoch : u64; gi_total_for : str; gi_total_against : str;
  gi_vote_count : usize;
}.
Record ChainConfig : Type := mkChainConfig {
  cc_block_time_ms : u64; cc_min_validator_stake : str; cc_unbonding_period_epochs : u64;
  cc_epoch_length : u64; cc_base_fee_per_gas : str; cc_burn_rate_bps : u64; cc_pq_auth_height : str;
  cc_epoch_randomness_height : str;
}.
Record ChainStatus : Type := mkChainStatus {
  ct_height : u64; ct_state_root : string; ct_pending_ops : usize; ct_total_allocation : str;
  ct_total_staked : str; ct_total_circulation : str; ct_config : ChainConfig;
}.

Definition ECOSYSTEM_FUND_ADDRESS : AccountId := addr 32.
Definition COMMUNITY_ADDRESS : AccountId := addr 33.
Definition LIQUIDITY_ADDRESS : AccountId := addr 34.
Definition INVESTOR_POOL_ADDRESS : AccountId := addr 36.
Definition non_circulating_addresses : list AccountId :=
  [TREASURY_ADDRESS; STAKING_POOL_ADDRESS; ECOSYSTEM_FUND_ADDRESS; COMMUNITY_ADDRESS; LIQUIDITY_ADDRESS;
   TEAM_POOL_ADDRESS; INVESTOR_POOL_ADDRESS; STAKING_ADDRESS; GOVERNANCE_ADDRESS; BRIDGE_ADDRESS;
   INTENT_ADDRESS; VESTING_ADDRESS].

Section reads.
Context {St : Type} `{!StateStore St} `{!Codec Account} `{!Codec StakingContract}.
Implicit Types (s : St) (e : Engine St).

Definition rpc_config_u64 s (key : bytes) : option u64 :=
  data ← st_get s key; if (8 <=? length data)%nat then Some (from_le (take 8 data)) else None.
Definition rpc_config_u128 s (key : bytes) : option u128 :=
  data ← st_get s key; if (16 <=? length data)%nat then Some (from_le (take 16 data)) else None.

(** An error of the state manager is an internal error. *)
Definition internal {T} (r : result T StateError) : reply T :=
  match r with Ok t => answer t | Err err => fault (-32603) (state_error_msg err) end.

Definition rpc_get_balance (account_id : str) e : reply str :=
  let? id := parse_account_id account_id in
  let? b := internal (get_balance (en_store e) id) in
  answer (decimal b).

Definition get_account (account_id : str) e : reply AccountInfo :=
  let? id := parse_account_id account_id in
  let? o := internal (load_account (en_store e) id) in
  match o with
  | None => fault (-32001) "account not found"
  | Some account =>
    let staked := match List.find (has_id id) (validators (staking_load (en_store e))) with
                  | Some v => self_stake v
                  | None => 0
                  end in
    answer (mkAccountInfo (account_to_base58 (acc_id account)) (decimal (balance account)) (nonce account)
              (hex_encode (code_hash account)) (decimal staked) (auth_methods account))
  end.

Definition get_next_nonce (account_id : str) e : reply u64 :=
  let? id := parse_account_id account_id in
  let? o := internal (load_account (en_store e) id) in
  let on_chain_nonce := match o with Some a => nonce a | None => 0 end in
  answer (u64_add on_chain_nonce (Z.of_nat (pending_count_for_sender id (en_mempool e)))).

Definition rpc_get_block (height : u64) e : reply BlockInfo :=
  match get_block e height with
  | Some b => answer (block_to_info b)
  | None => fault (-32001) "block not found"
  end.
Definition get_latest_block e : reply BlockInfo :=
  match latest_block e with
  | Some b => answer (block_to_info b)
  | None => fault (-32001) "no blocks yet"
  end.

Definition get_validators e : reply (list RpcValidatorInfo) :=
  answer (map (fun v => mkRpcValidator (account_to_base58 (sv_id v)) (decimal (self_stake v))
      (decimal (total_delegated v)) (decimal (total_stake v)) (is_active v) (is_genesis v)
      (commission_rate_bps v)) (validators (staking_load (en_store e)))).

Definition get_staking_info (account_id : str) e : reply StakingInfo :=
  let? id := parse_account_id account_id in
  let staking := staking_load (en_store e) in
  let delegations := map (fun d => mkDelegationInfo (account_to_base58 (d_validator d)) (decimal (d_amount d)))
    (List.filter (fun d => bytes_eqb (d_delegator d) id) (delegations staking)) in
  let total := u128_sum (map (fun d => default 0 (parse_u128 (di_amount d))) delegations) in
  let pending := length (List.filter (fun u => bytes_eqb (u_delegator u) id) (undelegations staking)) in
  answer (mkStakingInfo (decimal total) delegations pending).

Definition get_vesting_info `{!Codec VestingContract} (account_id : str) e : reply VestingInfo :=
  let? id := parse_account_id account_id in
  match get_schedule id (vesting_load (en_store e)) with
  | Some schedule =>
    let current_epoch := match st_get (en_store e) EngineState.CHAIN_META_KEY with
      | Some data => if (16 <=? length data)%nat then from_le (take 8 data) / 100 else 0
      | None => 0
      end in
    answer (mkVestingInfo true (decimal (total_amount schedule)) (decimal (vested_at schedule current_epoch))
              (decimal (claimed schedule)) (decimal (claimable_at schedule current_epoch))
              (chars (vesting_type_debug (vesting_type schedule))))
  | None => answer (mkVestingInfo false (chars "0") (chars "0") (chars "0") (chars "0") [])
  end.

Definition get_governance_proposals `{!Codec GovernanceContract} (debug_action : ProposalAction -> string) e :
    reply (list GovernanceProposalInfo) :=
  answer (map (fun p => mkProposalInfo (p_id p) (account_to_base58 (proposer p)) (debug_action (p_action p))
      (p_description p) (status_debug (p_status p)) (voting_end_epoch p) (execute_after_epoch p)
      (decimal (total_for p)) (decimal (total_against p)) (length (votes p)))
    (proposals (governance_load (en_store e)))).

Definition total_circulation s : u128 :=
  let total_allocation := default 0 (rpc_config_u128 s (bytes_of_string "__total_supply__")) in
  let non_circulating := u128_sum (map (fun a => match get_balance s a with Ok b => b | Err _ => 0 end)
                                     non_circulating_addresses) in
  let total_staked := u128_sum (map total_stake (validators (staking_load s))) in
  sat_sub (sat_sub total_allocation non_circulating) total_staked.

Definition chain_status (cfg : EngineConfig) (exec : ExecConfig) e : reply ChainStatus :=
  let s := en_store e in
  let total_allocation := default 0 (rpc_config_u128 s (bytes_of_string "__total_supply__")) in
  let staking := staking_load s in
  answer (mkChainStatus (en_height e)
    (hex_encode (match latest_block e with Some b => bh_state_root (fb_header b) | None => replicate 32 0 end))
    (mempool_len (en_mempool e)) (decimal total_allocation)
    (decimal (u128_sum (map total_stake (validators staking)))) (decimal (total_circulation s))
    (mkChainConfig (default (ec_block_time_ms cfg) (rpc_config_u64 s (bytes_of_string "__config_block_time__")))
       (decimal (default DEFAULT_MIN_VALIDATOR_STAKE
          (rpc_config_u128 s (bytes_of_string "__config_min_validator_stake__"))))
       (default DEFAULT_UNBONDING_PERIOD (unbonding_period staking)) 100
       (decimal (default 1 (rpc_config_u128 s (bytes_of_string "__config_base_fee__"))))
       (default 5000 (rpc_config_u64 s (bytes_of_string "__config_burn_rate__")))
       (decimal (pq_auth_height exec)) (decimal (epoch_randomness_height exec)))).
End reads.

(** ** View calls *)

Record CallViewResult : Type := mkCallView {
  cv_success : bool; cv_return_data : string; cv_gas_used : u64; cv_error : option string;
}.
Record EventInfo : Type := mkEventInfo { ei_emitter : str; ei_topic : str }.
Record SimulationResult : Type := mkSimulation {
  sim_success : bool; sim_gas_used : u64; sim_error : option string; sim_events : list EventInfo;
}.
Record SponsorshipResult : Type := mkSponsorship {
  sp_sponsored : bool; sp_paymaster : option str; sp_max_gas : option str; sp_reason : option string;
}.

Definition VIEW_FUEL_LIMIT : u64 := 500000.
Definition SPONSOR_VIEW_FUEL : u64 := 500000.
Definition MAX_PAYMASTERS_CHECKED : usize := 16%nat.
Definition PAYMASTERS_KEY : bytes := Eval vm_compute in bytes_of_string "__paymasters__".

(** The counter of the view calls. *)
Definition check_views (now : Instant) (lim : RpcRateLimiter) : RpcRateLimiter * bool :=
  let '(c, allowed) := rate_check 50 now (lim_view_calls lim) in
  (mkLimiter (lim_submit_ops lim) (lim_submit_solutions lim) (lim_snapshots lim) c, allowed).

Section views.
Context {St : Type} `{!StateStore St} `{!Codec Account} `{!Codec (list bytes)} {wasmtime : Wasmtime}
        (host_ram : Z -> bool) (first_key : gmap bytes Pre -> option bytes).
Implicit Types (s : St) (e : Engine St).

(** The storage a view call sees: what the manifest lists. *)
Definition view_storage s (target : AccountId) : gmap bytes bytes :=
  match st_get s (contract_storage_key target KEYS_MANIFEST) with
  | Some manifest =>
    match de (A := list bytes) manifest with
    | Some keys => fold_left (fun m key => match st_get s (contract_storage_key target key) with
                                           | Some val => <[key := val]> m
                                           | None => m
                                           end) keys ∅
    | None => ∅
    end
  | None => ∅
  end.

(** The fresh runtime of a request: nothing cached, and the gate of the strict
    engine never reached. *)
Definition run_view (code_hash : Hash) (bytecode input : bytes) (ctx : HostContext) (fuel : u64) :
    result ExecutionResult Executor.VmError :=
  snd (execute host_ram first_key vm_new code_hash bytecode input ctx (Some fuel)).

Definition view_contract (contract_id method : str) (args : option str) e : reply CallViewResult :=
  let? target := parse_account_id contract_id in
  let? args_bytes := (match args with
    | Some hex =>
      let? decoded := rpc_hex_decode hex in
      if (Z.to_nat 1000000 <? length decoded)%nat then fault (-32602) "args too large (max 1MB)"
      else answer decoded
    | None => answer []
    end) in
  let input := str_bytes method ++ 0 :: args_bytes in
  let s := en_store e in
  let? o := internal (load_account s target) in
  match o with
  | None => fault (-32001) "account not found"
  | Some account =>
    if bytes_eqb (code_hash account) zero_hash then fault (-32001) "account has no contract code"
    else
    match load_bytecode s (code_hash account) with
    | None => fault (-32603) "bytecode not found"
    | Some bytecode =>
      let ctx := mkHostContext zero_hash (en_height e) target (view_storage s target) 0 (balance account) in
      match run_view (code_hash account) bytecode input ctx VIEW_FUEL_LIMIT with
      | Ok result => answer (mkCallView true (hex_encode (er_return_data result)) (er_gas_used result) None)
      | Err err => answer (mkCallView false "" 0 (Some (vm_error_msg err)))
      end
    end
  end.

Definition call_view (now : Instant) (contract_id method : str) (args : option str) (lim : RpcRateLimiter) e :
    RpcRateLimiter * reply CallViewResult :=
  let '(lim, allowed) := check_views now lim in
  (lim, if allowed then view_contract contract_id method args e
        else fault (-32005) "rate limited — too many view/callView calls").

(** *** Sponsorship *)

Definition no_sponsor (why : string) : SponsorshipResult := mkSponsorship false None None (Some why).

(** The answer of one paymaster; [None] moves on to the next. *)
Definition ask_paymaster (op_bytes : bytes) (pm : AccountId) e : option SponsorshipResult :=
  match load_account (en_store e) pm with
  | Ok (Some account) =>
    if bytes_eqb (code_hash account) zero_hash then None
    else
    match load_bytecode (en_store e) (code_hash account) with
    | None => None
    | Some bytecode =>
      let ctx := mkHostContext zero_hash (en_height e) zero_hash ∅ 0 0 in
      match run_view (code_hash account) bytecode (bytes_of_string "willSponsor" ++ 0 :: op_bytes) ctx
              SPONSOR_VIEW_FUEL with
      | Ok result =>
        match er_return_data result with
        | 1 :: rest =>
          let max_gas := if (17 <=? length (er_return_data result))%nat
                         then Some (decimal (from_le (take 16 rest))) else None in
          Some (mkSponsorship true (Some (account_to_base58 pm)) max_gas None)
        | _ => None
        end
      | Err _ => None
      end
    end
  | _ => None
  end.

Definition find_sponsor `{!Codec UserOperation} (op : UserOperation) e : SponsorshipResult :=
  let paymasters := match st_get (en_store e) PAYMASTERS_KEY with
                    | Some data =>
                      match de (A := list bytes) data with
                      | Some l => if forallb (fun pm => length pm =? 32)%nat l then l else []
                      | None => []
                      end
                    | None => []
                    end in
  if bool_decide (paymasters = []) then no_sponsor "no paymasters registered"
  else default (no_sponsor "no paymaster willing to sponsor")
         (find_map (fun pm => ask_paymaster (default [] (ser op)) pm e) (take MAX_PAYMASTERS_CHECKED paymasters)).

Definition check_sponsorship `{!Codec UserOperation} (now : Instant) (op : UserOperation)
    (lim : RpcRateLimiter) e : RpcRateLimiter * reply SponsorshipResult :=
  let '(lim, allowed) := check_views now lim in
  (lim, if allowed then answer (find_sponsor op e)
        else fault (-32005) "rate limited — too many checkSponsorship calls").
End views.

Section simulation.
Context {St : Type} `{!StateStore St} `{!Codec Account} `{!Codec (list Action)} `{!SystemCodecs}
        {crypto : Crypto} {vm : Vm} (debug_str : string -> string) (cfg : ExecConfig)
        (from_utf8_lossy : bytes -> str).

Definition engine_simulate (op : UserOperation) (e : Engine St) : ExecutionReceipt :=
  simulate debug_str cfg (en_store e) op (sat_add64 (en_height e) 1).

Definition simulate_operation (now : Instant) (op : UserOperation) (lim : RpcRateLimiter) (e : Engine St) :
    RpcRateLimiter * reply SimulationResult :=
  let '(lim, allowed) := check_views now lim in
  (lim,
   if negb allowed then fault (-32005) "rate limited — too many view/simulate calls"
   else
   let receipt := engine_simulate op e in
   answer (mkSimulation (r_success receipt) (r_gas_used receipt) (r_error receipt)
     (map (fun ev => mkEventInfo (account_to_base58 (emitter ev)) (from_utf8_lossy (topic ev))) (r_events receipt)))).
End simulation.

(** ** Intents *)

Inductive ConstraintInfo : Type :=
| CMinBalance (account min_amount : str)
| CMaxSpend (account max_amount : str)
| CRequireTransfer (from to min_amount : str)
| CRequireCall (target : str) (method : string)
| CCrossChainSwap (input_amount min_output : str) (destination_chain : u64)
    (destination_address output_token : str)
| CCustom (verifier data : str).

Record IntentRequest : Type := mkIntentRequest {
  iq_sender : str; iq_constraints : list ConstraintInfo; iq_max_fee : str; iq_expiry_height : u64;
  iq_signature : str; iq_tip : str;
}.
Record IntentSubmitResult : Type := mkIntentResult {
  ir_accepted : bool; ir_intent_id : option u64; ir_error : option PoolError;
}.
Record IntentInfo : Type := mkIntentInfo {
  ii_id : u64; ii_sender : str; ii_constraints : list ConstraintInfo; ii_max_fee : str;
  ii_expiry_height : u64; ii_tip : str; ii_status : string;
}.
Record SolutionRequest : Type := mkSolutionRequest {
  sq_intent_id : u64; sq_solver : str; sq_operations : list UserOperation; sq_claimed_tip : str;
  sq_score : u64; sq_signature : option str;
}.
(** The error of a refused solution is a text or the pool's. *)
Record SolutionSubmitResult : Type := mkSolutionResult {
  sl_accepted : bool; sl_error : option (string + PoolError);
}.

Definition parse_amount (s : str) (what : string) : reply u128 :=
  match parse_u128 s with
  | Some n => answer n
  | None => fault (-32602) ("invalid " +:+ what)
  end.

(** The bytes at the end of 32, the first 32 when there are more. *)
Definition right_aligned (b : bytes) : bytes :=
  let n := Nat.min (length b) 32 in replicate (32 - n) 0 ++ take n b.

Definition constraint_from_info (c : ConstraintInfo) : reply IntentConstraint :=
  match c with
  | CMinBalance account min_amount =>
    let? account := parse_account_id account in
    let? min_amount := parse_amount min_amount "min_amount" in
    answer (IMinBalance account min_amount)
  | CMaxSpend account max_amount =>
    let? account := parse_account_id account in
    let? max_amount := parse_amount max_amount "max_amount" in
    answer (IMaxSpend account max_amount)
  | CRequireTransfer from to min_amount =>
    let? from := parse_account_id from in
    let? to := parse_account_id to in
    let? min_amount := parse_amount min_amount "min_amount" in
    answer (IRequireTransfer from to min_amount)
  | CRequireCall target method =>
    let? target := parse_account_id target in
    answer (IRequireCall target method)
  | CCrossChainSwap input_amount min_output destination_chain destination_address output_token =>
    let? dest := rpc_hex_decode destination_address in
    let? token := rpc_hex_decode output_token in
    let? input_amount := parse_amount input_amount "input_amount" in
    let? min_output := parse_amount min_output "min_output" in
    answer (ICrossChainSwap input_amount min_output destination_chain (right_aligned dest) (right_aligned token))
  | CCustom verifier data =>
    let? verifier := parse_account_id verifier in
    let? data := rpc_hex_decode data in
    answer (ICustom verifier data)
  end.

Definition constraint_to_info (c : IntentConstraint) : ConstraintInfo :=
  match c with
  | IMinBalance account min_amount => CMinBalance (account_to_base58 account) (decimal min_amount)
  | IMaxSpend account max_amount => CMaxSpend (account_to_base58 account) (decimal max_amount)
  | IRequireTransfer from to min_amount =>
    CRequireTransfer (account_to_base58 from) (account_to_base58 to) (decimal min_amount)
  | IRequireCall target method => CRequireCall (account_to_base58 target) method
  | ICrossChainSwap input_amount min_output destination_chain destination_address output_token =>
    CCrossChainSwap (decimal input_amount) (decimal min_output) destination_chain
      (chars (hex_encode destination_address)) (chars (hex_encode output_token))
  | ICustom verifier data => CCustom (account_to_base58 verifier) (chars (hex_encode data))
  end.

(** [iter().map(f).collect::<Result<Vec<_>, _>>()]. *)
Fixpoint collect {A B} (f : A -> reply B) (l : list A) : reply (list B) :=
  match l with
  | [] => answer []
  | x :: l => let? y := f x in let? ys := collect f l in answer (y :: ys)
  end.

Section intents.
Context {St : Type}.
Implicit Types e : Engine St.

Definition submit_intent (req : IntentRequest) e : Engine St * reply IntentSubmitResult :=
  let parsed :=
    if (100 <? length (iq_constraints req))%nat then fault (-32602) "too many constraints (max 100)"
    else
    let? sender := parse_account_id (iq_sender req) in
    let? signature := rpc_hex_decode (iq_signature req) in
    let? max_fee := parse_amount (iq_max_fee req) "max_fee" in
    let? tip := parse_amount (iq_tip req) "tip" in
    let? constraints := collect constraint_from_info (iq_constraints req) in
    answer (mkIntent 0 sender constraints max_fee (iq_expiry_height req) signature tip) in
  match parsed with
  | Replied (Ok intent) =>
    let '(pool, r) := intent_submit intent (en_intent_pool e) in
    (set_intent_pool pool e, answer (match r with
       | Ok id => mkIntentResult true (Some id) None
       | Err err => mkIntentResult false None (Some err)
       end))
  | Replied (Err err) => (e, Replied (Err err))
  | Aborted => (e, Aborted)
  end.

Definition intent_to_info (i : Intent) : IntentInfo :=
  mkIntentInfo (it_id i) (account_to_base58 (it_sender i)) (map constraint_to_info (it_constraints i))
    (decimal (it_max_fee i)) (it_expiry_height i) (decimal (it_tip i)) "Pending".

Definition get_pending_intents (limit : option usize) e : reply (list IntentInfo) :=
  answer (map intent_to_info
    (take (Nat.min (default 50%nat limit) (Z.to_nat 500)) (pending_intents (en_intent_pool e)))).

Context {crypto : Crypto}.

Definition rpc_submit_solution (now : Instant) (req : SolutionRequest) (lim : RpcRateLimiter) e :
    RpcRateLimiter * Engine St * reply SolutionSubmitResult :=
  let '(c, allowed) := rate_check 20 now (lim_submit_solutions lim) in
  let lim := mkLimiter (lim_submit_ops lim) c (lim_snapshots lim) (lim_view_calls lim) in
  if negb allowed
  then (lim, e, answer (mkSolutionResult false (Some (inl "rate limited — too many solution submissions"%string))))
  else
  let parsed :=
    let? solver := parse_account_id (sq_solver req) in
    let? claimed_tip := parse_amount (sq_claimed_tip req) "claimed_tip" in
    match sq_signature req with
    | Some (c :: hex) =>
      match hex_decode (c :: hex) with
      | Panicked => Aborted
      | Returned r => answer (Some (mkSolution (sq_intent_id req) solver (sq_operations req) claimed_tip
                                      (sq_score req) (match r with Ok b => b | Err _ => [] end)))
      end
    | _ => answer None
    end in
  match parsed with
  | Replied (Ok (Some solution)) =>
    let '(pool, r) := submit_solution solution (en_intent_pool e) in
    (lim, set_intent_pool pool e, answer (match r with
       | Ok _ => mkSolutionResult true None
       | Err err => mkSolutionResult false (Some (inr err))
       end))
  | Replied (Ok None) =>
    (lim, e, answer (mkSolutionResult false (Some (inl "solver signature is required"%string))))
  | Replied (Err err) => (lim, e, Replied (Err err))
  | Aborted => (lim, e, Aborted)
  end.
End intents.

(** ** Rollups

    The registry of the verifiers is a field of the engine of its own, passed
    here beside it. *)

Record RollupStatusInfo : Type := mkRollupStatus {
  rs_rollup_id : u64; rs_registered : bool; rs_last_verified_state_root : option string;
  rs_last_batch_index : option u64;
}.
Record BatchSubmitRequest : Type := mkBatchRequest {
  bq_rollup_id : u64; bq_batch_index : u64; bq_state_root : str; bq_data_hash : str; bq_proof : str;
}.
(** The error of a refused batch is a text or the verifier's. *)
Record BatchSubmitResult : Type := mkBatchResult {
  bs_accepted : bool; bs_verified : bool; bs_error : option (string + ProofError);
}.
Record VerifiedBatchInfo : Type := mkBatchInfo {
  vbi_rollup_id : u64; vbi_batch_index : u64; vbi_state_root : string; vbi_data_hash : string;
  vbi_pre_state_root : string;
}.

Definition rollup_key (id : u64) : bytes := bytes_of_string ("__rollup_" +:+ pretty id +:+ "__").

(** The pairs of a hexadecimal text that parse; a text that cannot be cut in
    pairs panics. *)
Fixpoint lenient_hex (fuel : nat) (s : str) : option bytes :=
  match fuel, s with
  | _, [] => Some []
  | O, _ => None
  | S fuel, _ =>
    '(two, rest) ← slice2 s;
    bs ← lenient_hex fuel rest;
    Some (match u8_from_hex two with Some b => b :: bs | None => bs end)
  end.

Section rollups.
Context {St : Type} `{!StateStore St}
        (** [serde_json::from_slice::<Value>] of a registration, and its string
            fields [proof_type] and [genesis_state_root] *)
        (registration_fields : bytes -> option (option string * option str)).
Implicit Types (e : Engine St) (reg : ProofVerifierRegistry).

Definition get_rollup_status (rollup_id : u64) reg e : reply RollupStatusInfo :=
  match last_state_root reg rollup_id with
  | Some root =>
    let last_batch_index := if (0 <? batch_count reg rollup_id)%nat
      then vb_batch_index <$> head (get_verified_batches reg rollup_id 1) else None in
    answer (mkRollupStatus rollup_id true (Some (hex_encode root)) last_batch_index)
  | None =>
    answer (mkRollupStatus rollup_id (bool_decide (is_Some (st_get (en_store e) (rollup_key rollup_id))))
              None None)
  end.

(** The registration on chain, taken over when the registry has none. *)
Definition auto_register (rollup_id : u64) reg e : reply ProofVerifierRegistry :=
  match last_state_root reg rollup_id with
  | Some _ => answer reg
  | None =>
    match st_get (en_store e) (rollup_key rollup_id) ≫= registration_fields with
    | None => answer reg
    | Some (proof_type, genesis) =>
      match (match genesis with Some hex => lenient_hex (length hex) hex | None => Some [] end) with
      | None => Aborted
      | Some b =>
        let root := if (length b =? 32)%nat then b else zero_hash in
        answer (match register_rollup rollup_id (default "mock"%string proof_type) root reg with
                | Ok reg => reg
                | Err _ => reg
                end)
      end
    end
  end.

Definition submit_batch (req : BatchSubmitRequest) reg e : ProofVerifierRegistry * reply BatchSubmitResult :=
  let parsed :=
    let? state_root := parse_hash (bq_state_root req) in
    let? data_hash := parse_hash (bq_data_hash req) in
    let? proof := rpc_hex_decode (bq_proof req) in
    if (Z.to_nat 1000000 <? length proof)%nat then fault (-32602) "proof too large (max 1MB)"
    else answer (Rollup.mkCommitment (bq_rollup_id req) (bq_batch_index req) state_root data_hash proof) in
  match (let? c := parsed in let? r := auto_register (bq_rollup_id req) reg e in answer (c, r)) with
  | Replied (Ok (commitment, reg)) =>
    let '(reg, r) := verify_batch commitment reg in
    (reg, answer (match r with
       | Ok verified => mkBatchResult true verified
           (if verified then None else Some (inl "proof verification failed"%string))
       | Err err => mkBatchResult false false (Some (inr err))
       end))
  | Replied (Err err) => (reg, Replied (Err err))
  | Aborted => (reg, Aborted)
  end.

Definition get_rollup_batches (rollup_id : u64) (limit : option usize) reg : reply (list VerifiedBatchInfo) :=
  answer (map (fun b => mkBatchInfo (vb_rollup_id b) (vb_batch_index b) (hex_encode (vb_state_root b))
      (hex_encode (vb_data_hash b)) (hex_encode (vb_pre_state_root b)))
    (get_verified_batches reg rollup_id (Nat.min (default 50%nat limit) (Z.to_nat 500)))).
End rollups.
