(* ===== verification/RpcLaws.v ===== *)
(** What the RPC server promises: the texts of its answers read back as the
    values they were written from, a view call sees the storage the executor
    saved, the nonce it suggests is one it admits; and what a confirmation does
    not tell. *)

From stdpp Require Import pretty.
From S2P Require Import Prelude Types Store Memory Overlay Codec Staking Governance Vesting Treasury State.
From S2P Require Import SysCommon SysStaking SysVesting SysGovernance SystemCalls Fees Auth Session Executor Blocks.
From S2P Require Import Address Reputation Validators Mempool Intents Checkpoint Settlement Rollup Vm.
From S2P Require Import EngineState Rpc RpcViews.
Open Scope Z_scope.

(** ** Texts *)

Lemma pretty_char_code d : 0 <= d < 10 ->
  Z.of_nat (Ascii.nat_of_ascii (pretty_N_char (Z.to_N d))) = 48 + d.
Proof.
  intros Hd. assert (H := range_forallb 10 (fun d =>
    Z.of_nat (Ascii.nat_of_ascii (pretty_N_char (Z.to_N d))) =? 48 + d) ltac:(vm_compute; reflexivity) d Hd).
  by apply Z.eqb_eq in H.
Qed.

Lemma parse_pretty_go x s : Z.of_N x <= u128_max ->
  parse_digits (chars (pretty_N_go x s)) 0 = parse_digits (chars s) (Z.of_N x).
Proof.
  revert s. induction (N.lt_wf_0 x) as [x _ IH]; intros s Hx.
  destruct (decide (x = 0)%N) as [->|Hne]; [done|].
  assert (Hlt : (x `div` 10 < x)%N) by (apply N.div_lt; lia).
  rewrite pretty_N_go_step, IH by lia.
  cbn [chars bytes_of_string parse_digits].
  assert (Hd : 0 <= Z.of_N x mod 10 < 10) by (apply Z.mod_pos_bound; lia).
  rewrite <- (N2Z.id (x `mod` 10)), N2Z.inj_mod. change (Z.of_N 10) with 10.
  rewrite pretty_char_code by done.
  rewrite (proj2 (Z.leb_le 48 _)), (proj2 (Z.leb_le _ 57)) by lia. cbn [andb].
  assert (E : Z.of_N (x `div` 10) * 10 + (48 + Z.of_N x mod 10 - 48) = Z.of_N x).
  { rewrite N2Z.inj_div. Z.to_euclidean_division_equations; lia. }
  rewrite E, (proj2 (Z.ltb_ge _ _)) by lia. done.
Qed.

Lemma parse_digits_head c s acc n : parse_digits (c :: s) acc = Some n -> 48 <= c <= 57.
Proof. cbn. destruct ((48 <=? c) && (c <=? 57)) eqn:E; [|done]. prop_bool. lia. Qed.

Lemma parse_digits_decimal n : in_u128 n -> parse_digits (decimal n) 0 = Some n.
Proof.
  intros Hn. destruct (decide (n = 0)) as [->|Hne]; [done|].
  assert (E : pretty n = pretty_N_go (Z.to_N n) "").
  { destruct n as [|p|p]; [done| |unfold in_u128 in Hn; lia]. change (pretty (Z.pos p)) with (pretty (N.pos p)).
    unfold pretty, pretty_N. by rewrite decide_False. }
  pose proof (parse_pretty_go (Z.to_N n) "") as Hp. rewrite Z2N.id in Hp by apply Hn.
  specialize (Hp (proj2 Hn)). rewrite <- E in Hp. exact Hp.
Qed.
(** A text that starts with a digit has no sign. *)
Lemma parse_u128_unsigned c s : 48 <= c <= 57 -> parse_u128 (c :: s) = parse_digits (c :: s) 0.
Proof.
  intros Hc. unfold parse_u128. destruct c as [|p|p]; try lia. do 6 (destruct p as [p|p|]; try reflexivity; try lia).
Qed.
(** A decimal text reads back. *)
Lemma parse_decimal n : in_u128 n -> parse_u128 (decimal n) = Some n.
Proof.
  intros Hn. pose proof (parse_digits_decimal n Hn) as Hp. destruct (decimal n) as [|c s] eqn:Ed.
  { exfalso. assert (E : decimal n <> []); [|done]. unfold decimal. destruct n as [|p|p]; [done| |unfold in_u128 in Hn; lia].
    intros E. change (pretty (Z.pos p)) with (pretty (N.pos p)) in E. unfold pretty, pretty_N in E.
    rewrite decide_False in E by done. destruct (pretty_N_go (N.pos p) "") eqn:Eg; [|done].
    cbn in Hp. injection Hp as Hp. lia. }
  rewrite parse_u128_unsigned; [exact Hp|]. by eapply parse_digits_head.
Qed.

Lemma parse_account_text id :
  length id = 32%nat -> digits_of 256 id -> parse_account_id (account_to_base58 id) = answer id.
Proof.
  intros Hl Hd. unfold parse_account_id.
  rewrite (proj2 (parse_address_spec (account_to_base58 id) id)); [done|]. split_and!; [done..|]. left.
  apply trim_plain. eapply Forall_impl; [by apply base58_encode_chars|]. intros c Hc. by apply is_base58_plain.
Qed.

Lemma hex_text b : digits_of 256 b -> rpc_hex_decode (chars (hex_encode b)) = answer b.
Proof.
  intros Hd. destruct (hex_encode_digits b Hd) as [Hh Hlow].
  destruct (proj1 (unhex_spec b (chars (hex_encode b)))) as (_ & Hl & Hu); [done|].
  unfold rpc_hex_decode. rewrite (hex_decode_digits (length b)) by done. by rewrite Hu.
Qed.

Lemma amount_text n what : in_u128 n -> parse_amount (decimal n) what = answer n.
Proof. intros Hn. unfold parse_amount. by rewrite parse_decimal. Qed.

Lemma aligned_32 b : length b = 32%nat -> right_aligned b = b.
Proof. intros Hb. unfold right_aligned. rewrite Hb. cbn. by rewrite take_ge by lia. Qed.

Definition is_id (id : AccountId) : Prop := length id = 32%nat /\ digits_of 256 id.

(** What the fields of a constraint are in the source: identifiers of 32 bytes,
    128-bit amounts. *)
Definition constraint_typed (c : IntentConstraint) : Prop :=
  match c with
  | IMinBalance a n | IMaxSpend a n => is_id a /\ in_u128 n
  | IRequireTransfer a b n => is_id a /\ is_id b /\ in_u128 n
  | IRequireCall a _ => is_id a
  | ICrossChainSwap n m _ d t => in_u128 n /\ in_u128 m /\ is_id d /\ is_id t
  | ICustom a d => is_id a /\ digits_of 256 d
  end.

(** A constraint that the server lists is accepted back as the same constraint. *)
Theorem constraint_roundtrip c : constraint_typed c -> constraint_from_info (constraint_to_info c) = answer c.
Proof.
  destruct c; cbn [constraint_typed constraint_to_info constraint_from_info]; unfold is_id; intros H;
    decompose [and] H; rewrite ?parse_account_text by done; cbn [and_then answer];
    rewrite ?parse_account_text, ?hex_text by done; cbn [and_then answer];
    rewrite ?hex_text by done; cbn [and_then answer]; rewrite ?amount_text by done; cbn [and_then answer];
    rewrite ?amount_text by done; cbn [and_then answer]; rewrite ?aligned_32 by done; reflexivity.
Qed.

Lemma collect_answer {A B} (f : A -> reply B) l ys :
  Forall2 (fun x y => f x = answer y) l ys -> collect f l = answer ys.
Proof. induction 1 as [|x y l ys Hx _ IH]; [done|]. cbn. by rewrite Hx, IH. Qed.

(** ** Views *)

Section views_laws.
Context {St : Type} `{!StateStore St} `{!StateStoreLaws St} `{!Codec (list bytes)} `{!CodecLaws (list bytes)}.

Lemma fold_view_storage (s : St) (target : AccountId) (keys : list bytes) (m0 : gmap bytes bytes) (k : bytes) :
  fold_left (fun (m : gmap bytes bytes) key => match st_get s (contract_storage_key target key) with
                          | Some val => <[key := val]> m
                          | None => m
                          end) keys m0 !! k
  = if decide (k ∈ keys)
    then match st_get s (contract_storage_key target k) with Some v => Some v | None => m0 !! k end
    else m0 !! k.
Proof.
  revert m0. induction keys as [|key keys IH]; intros m0; [by rewrite decide_False by set_solver|].
  cbn [fold_left]. rewrite IH. clear IH.
  destruct (decide (k = key)) as [->|Hne].
  - rewrite (decide_True (P := key ∈ key :: keys)) by set_solver.
    destruct (st_get s _) as [v|] eqn:E; [|by destruct (decide (key ∈ keys))].
    rewrite lookup_insert_eq. by destruct (decide (key ∈ keys)).
  - assert (E : match st_get s (contract_storage_key target key) with
                | Some val => <[key:=val]> m0 | None => m0 end !! k = m0 !! k).
    { destruct (st_get s _); [by rewrite lookup_insert_ne|done]. }
    rewrite E. destruct (decide (k ∈ keys)); [by rewrite decide_True by set_solver|by rewrite decide_False by set_solver].
Qed.

(** A view call reads the storage as the last execution of the contract left
    it, whatever was there before. *)
Theorem view_sees_saved_storage (s : St) (target : AccountId) (m : gmap bytes bytes) (k : bytes) :
  k <> KEYS_MANIFEST ->
  view_storage (fst (save_contract_storage s target m)) target !! k = m !! k.
Proof.
  intros Hk. unfold save_contract_storage. destruct (ser_de (sorted_keys m)) as (data & -> & Hd). cbn [fst].
  unfold view_storage. rewrite get_put_eq, Hd, fold_view_storage, lookup_empty.
  rewrite get_put_ne by (by intros ?%contract_storage_key_inj). rewrite get_put_all.
  assert (Hin : k ∈ sorted_keys m <-> is_Some (m !! k)).
  { unfold sorted_keys. rewrite list_elem_of_fmap. split.
    - intros ([k' v] & -> & Hkv). apply btree_entries_elem in Hkv. by exists v.
    - intros [v Hv]. exists (k, v). split; [done|]. by apply btree_entries_elem. }
  destruct (decide (k ∈ sorted_keys m)) as [Hi|Hi].
  - apply Hin in Hi as [v ->]. done.
  - destruct (m !! k) as [v|]; [|done]. exfalso. by apply Hi, Hin.
Qed.
End views_laws.

(** ** Nonces *)

(** The suggested nonce is the account's plus what the pool holds of the
    sender, and an operation of a funded account that uses it passes the checks
    of a submission. *)
Theorem next_nonce_admitted {St} `{!StateStore St} `{!Codec Account} (e : Engine St) op account :
  pool_ok (en_mempool e) -> is_id (op_sender op) ->
  load_account (en_store e) (op_sender op) = Ok (Some account) ->
  balance account <> 0 -> 0 <= nonce account -> nonce account + 64 <= u64_max ->
  get_next_nonce (account_to_base58 (op_sender op)) e = answer (op_nonce op) ->
  op_nonce op = nonce account + Z.of_nat (pending_count_for_sender (op_sender op) (en_mempool e))
  /\ admission_error (en_store e) op = None.
Proof.
  intros Hp [Hl Hd] Ha Hb H0 Hmax. unfold get_next_nonce. rewrite parse_account_text by done. cbn [and_then answer].
  rewrite Ha. cbn [internal and_then answer].
  assert (Hc : (pending_count_for_sender (op_sender op) (en_mempool e) <= 64)%nat).
  { unfold pending_count_for_sender. rewrite (ok_counts _ Hp). pose proof (ok_senders _ Hp (op_sender op)) as Hs.
    unfold MAX_OPS_PER_SENDER in Hs. unfold nonzero. destruct (_ =? 0)%nat; cbn; lia. }
  rewrite u64_add_exact by lia. intros [= Hn]. split; [done|].
  apply admission_spec. unfold load_account in Ha. destruct (st_get _ _) as [data|] eqn:Eg; [|done].
  destruct (de data) as [a|] eqn:Ed; [|done]. injection Ha as ->. exists data. split; [done|].
  intros a Ha'. rewrite Ed in Ha'. injection Ha' as <-. rewrite u64_add_exact by lia. lia.
Qed.

(** ** What a confirmation does not tell *)

(** An operation that transfers more than its sender has fails and keeps its
    nonce. Announced as an event it is reported as reverted; if the subscriber
    lagged behind, or the announcement was made before the subscription, the
    same operation is reported as confirmed and successful. *)
Theorem reverted_reported_successful :
  let op := sess_op 1 [Transfer (demo_key 2) 30; Transfer (demo_key 2) 1000000] in
  let '(after, receipt) := execute_operation no_debug fixed_config exec_store op 9 in
  let event := TxIncluded 9 [] (op_sender op) (op_nonce op) (r_success receipt) (r_gas_used receipt) in
  r_success receipt = false
  /\ (cf_success <$> confirm_loop 60 (op_sender op) (op_nonce op) [(event, after)]) = Some false
  /\ (cf_success <$> confirm_loop 60 (op_sender op) (op_nonce op) [(Lagged 1, after); (event, after)]) = Some true
  /\ (cf_success <$> recheck after (op_sender op) (op_nonce op)) = Some true.
Proof. vm_compute. repeat split; reflexivity. Qed.

(** ** What a paymaster is asked *)

Section sponsorship.
Context {St : Type} `{!StateStore St} `{!StateStoreLaws St} `{!Codec Account} `{!Codec (list bytes)}
        `{!Codec UserOperation} {wasmtime : Wasmtime} (host_ram : Z -> bool)
        (first_key : gmap bytes Pre -> option bytes).

(** The answer of the paymasters does not depend on what they keep in their
    storage: writing a value under any key of any contract leaves it as it
    was. *)
Theorem sponsorship_ignores_storage op (e : Engine St) id key value :
  find_sponsor host_ram first_key op (set_store (contract_storage_set (en_store e) id key value) e)
  = find_sponsor host_ram first_key op e.
Proof.
  assert (Hg : forall k, (forall x, k <> contract_storage_key id x) ->
    st_get (contract_storage_set (en_store e) id key value) k = st_get (en_store e) k).
  { intros k Hk. unfold contract_storage_set. apply get_put_ne. intros <-. by eapply Hk. }
  unfold find_sponsor. change (en_store (set_store ?x e)) with x.
  rewrite Hg by (intros x; discriminate). destruct (st_get (en_store e) PAYMASTERS_KEY) as [data|]; [|done].
  destruct (bool_decide _); [done|]. f_equal.
  assert (Ha : forall op_bytes pm, ask_paymaster host_ram first_key op_bytes pm
      (set_store (contract_storage_set (en_store e) id key value) e)
    = ask_paymaster host_ram first_key op_bytes pm e).
  { intros op_bytes pm. unfold ask_paymaster, load_account, load_bytecode.
    change (en_store (set_store ?x e)) with x. rewrite Hg by (intros x; discriminate).
    destruct (st_get (en_store e) (account_key pm)) as [d|]; [|done]. destruct (de d) as [a|]; [|done].
    rewrite Hg by (intros x; discriminate). done. }
  induction (take _ _) as [|pm l IH]; [done|]. cbn [find_map]. by rewrite Ha, IH.
Qed.
End sponsorship.
