(* ===== verification/RpcEvents.v ===== *)
(** Events and subscriptions: what the consensus engine tells its subscribers
    about a finalised block ([crates/solen-consensus/src/engine.rs] and
    [events.rs]), and the three subscription streams of the RPC server
    ([crates/solen-rpc/src/methods.rs]). *)

From S2P Require Import Prelude Types Store Memory Codec State Auth Address Executor Blocks Validators Mempool.
From S2P Require Import Intents Checkpoint EngineState EngineVotes Reputation Rpc.
Open Scope Z_scope.

(** ** Events *)

Inductive NodeEvent : Type :=
| EvBlockFinalized (height epoch : u64) (hash state_root : Hash) (proposer : ValidatorId) (timestamp_ms : u64)
    (tx_count : usize) (gas_used : u64)
| EvTxIncluded (block_height : u64) (tx_hash : Hash) (sender : AccountId) (nonce : u64) (success : bool)
    (gas_used : u64)
| EvValidatorSetChanged (epoch : u64) (active_count : usize).

Section events.
Context {crypto : Crypto} `{!Codec BlockHeader}.

Definition receipt_tx_hash (block_height tx_index : Z) (sender : AccountId) (n : u64) : Hash :=
  blake3 (le_bytes 8 block_height ++ le_bytes 4 tx_index ++ sender ++ le_bytes 8 n).

Definition tx_event (height : u64) (i : nat) (r : ExecutionReceipt) : NodeEvent :=
  EvTxIncluded height (receipt_tx_hash height (Z.of_nat i mod 2 ^ 32) (r_sender r) (r_nonce r))
    (r_sender r) (r_nonce r) (r_success r) (r_gas_used r).

Definition emit_block_events (b : FinalizedBlock) : list NodeEvent :=
  let h := fb_header b in
  let receipts := br_receipts (fb_result b) in
  EvBlockFinalized (bh_height h) (bh_epoch h) (block_hash h) (bh_state_root h) (bh_proposer h)
    (bh_timestamp_ms h) (length receipts) (br_gas_used (fb_result b))
  :: imap (tx_event (bh_height h)) receipts.
End events.

(** ** Streams

    A receiver of the broadcast channel gets the next event, or learns that it
    fell behind and missed some, or that the channel is closed. *)

Inductive Recv : Type := Got (ev : NodeEvent) | Missed (n : u64) | Closed.

(** A stream of notifications; each message comes with whether the client
    still takes it. *)
Fixpoint feed {N} (note : NodeEvent -> option N) (events : list (Recv * bool)) : list N :=
  match events with
  | [] => []
  | (Got ev, taken) :: events =>
    match note ev with
    | Some x => if taken then x :: feed note events else []
    | None => feed note events
    end
  | (Missed _, _) :: events => feed note events
  | (Closed, _) :: _ => []
  end.

Record BlockNotification : Type := mkBlockNote {
  bn_height : u64; bn_epoch : u64; bn_block_hash : string; bn_state_root : string; bn_proposer : str;
  bn_timestamp_ms : u64; bn_tx_count : usize; bn_gas_used : u64;
}.
Definition block_note (ev : NodeEvent) : option BlockNotification :=
  match ev with
  | EvBlockFinalized height epoch hash root proposer ts txs gas =>
    Some (mkBlockNote height epoch (hex_encode hash) (hex_encode root) (account_to_base58 proposer) ts txs gas)
  | _ => None
  end.
Definition subscribe_new_blocks : list (Recv * bool) -> list BlockNotification := feed block_note.

Record ValidatorChangeNotification : Type := mkValidatorNote { vn_epoch : u64; vn_active_count : usize }.
Definition validator_note (ev : NodeEvent) : option ValidatorChangeNotification :=
  match ev with EvValidatorSetChanged epoch n => Some (mkValidatorNote epoch n) | _ => None end.
Definition subscribe_validator_changes : list (Recv * bool) -> list ValidatorChangeNotification :=
  feed validator_note.

(** *** The confirmation of one operation *)

Record TxConfirmationNotification : Type := mkTxNote {
  tn_block_height : u64; tn_tx_hash : string; tn_sender : str; tn_nonce : u64; tn_success : bool; tn_gas_used : u64;
}.

Section confirmation.
Context {St : Type} `{!StateStore St} `{!Codec Account}.
Implicit Types s : St.

Definition nonce_passed s (sender : AccountId) (n : u64) : bool :=
  match load_account s sender with Ok (Some a) => n <? nonce a | _ => false end.
Definition passed_note (sender : AccountId) (n : u64) : TxConfirmationNotification :=
  mkTxNote 0 "" (account_to_base58 sender) n true 0.

(** What the loop receives next, [None] once five minutes are over, with the
    store at that moment. *)
Fixpoint confirmation_loop (sender : AccountId) (n : u64) (events : list (option Recv * St)) :
    option TxConfirmationNotification :=
  match events with
  | [] => None
  | (Some (Got (EvTxIncluded height tx_hash who m success gas)), _) :: events =>
    if bytes_eqb who sender && (m =? n)
    then Some (mkTxNote height (hex_encode tx_hash) (account_to_base58 who) m success gas)
    else confirmation_loop sender n events
  | (Some (Got _), _) :: events => confirmation_loop sender n events
  | (Some (Missed _), s) :: events =>
    if nonce_passed s sender n then Some (passed_note sender n) else confirmation_loop sender n events
  | (Some Closed, _) :: _ => None
  | (None, _) :: _ => None
  end.

(** [s] is the store when the nonce is looked at, [events] what reaches the
    receiver once it is subscribed. *)
Definition subscribe_tx_confirmation (sender : str) (n : u64) (s : St) (events : list (option Recv * St)) :
    reply (option TxConfirmationNotification) :=
  match parse_account_id sender with
  | Replied (Ok id) =>
    answer (if nonce_passed s id n then Some (passed_note id n) else confirmation_loop id n events)
  | Replied (Err _) => fault (-32602) "invalid sender address"
  | Aborted => Aborted
  end.
End confirmation.

(** ** What subscribers learn *)

Section laws.
Context {crypto : Crypto} `{!Codec BlockHeader}.

Definition block_notification (b : FinalizedBlock) : BlockNotification :=
  let h := fb_header b in
  mkBlockNote (bh_height h) (bh_epoch h) (hex_encode (block_hash h)) (hex_encode (bh_state_root h))
    (account_to_base58 (bh_proposer h)) (bh_timestamp_ms h) (length (br_receipts (fb_result b)))
    (br_gas_used (fb_result b)).

Lemma feed_skips {N} (note : NodeEvent -> option N) (evs : list NodeEvent) rest :
  Forall (fun ev => note ev = None) evs ->
  feed note (map (fun ev => (Got ev, true)) evs ++ rest) = feed note rest.
Proof. induction 1 as [|ev evs He _ IH]; cbn [map app feed]; [done|]. by rewrite He. Qed.

(** A subscriber that keeps up is told of every finalised block, in order. *)
Theorem blocks_announced bs :
  subscribe_new_blocks (map (fun ev => (Got ev, true)) (flat_map emit_block_events bs)) = map block_notification bs.
Proof.
  unfold subscribe_new_blocks. induction bs as [|b bs IH]; [done|].
  cbn [flat_map emit_block_events app map feed block_note]. f_equal.
  rewrite map_app, feed_skips; [exact IH|]. apply Forall_lookup. intros i ev Hi.
  rewrite list_lookup_imap in Hi. destruct (_ !! i); [|done]. by injection Hi as <-.
Qed.

Context {St : Type} `{!StateStore St} `{!Codec Account}.

(** The receipt of the operation in one of the blocks. *)
Definition receipt_of (sender : AccountId) (n : u64) (bs : list FinalizedBlock) (b : FinalizedBlock)
    (r : ExecutionReceipt) : Prop :=
  b ∈ bs /\ r ∈ br_receipts (fb_result b) /\ r_sender r = sender /\ r_nonce r = n.

Lemma confirmation_events sender n (s : St) evs note :
  confirmation_loop sender n (map (fun ev => (Some (Got ev), s)) evs) = Some note ->
  exists height hash success gas, EvTxIncluded height hash sender n success gas ∈ evs
    /\ note = mkTxNote height (hex_encode hash) (account_to_base58 sender) n success gas.
Proof.
  induction evs as [|ev evs IH]; cbn [map confirmation_loop]; [done|].
  assert (IH' : confirmation_loop sender n (map (fun ev => (Some (Got ev), s)) evs) = Some note ->
    exists height hash success gas, EvTxIncluded height hash sender n success gas ∈ ev :: evs
      /\ note = mkTxNote height (hex_encode hash) (account_to_base58 sender) n success gas).
  { intros H. destruct (IH H) as (h & x & ok & g & Hin & ->). exists h, x, ok, g. split; [by right|done]. }
  destruct ev as [|h x who m ok g|]; [exact IH'| |exact IH'].
  destruct (bytes_eqb who sender && (m =? n)) eqn:E; [|exact IH'].
  apply andb_true_iff in E as [E1 E2]. apply bytes_eqb_true in E1. apply Z.eqb_eq in E2. subst who m.
  intros [= <-]. exists h, x, ok, g. split; [by left|done].
Qed.

Lemma confirmation_found sender n (s : St) evs height hash success gas :
  EvTxIncluded height hash sender n success gas ∈ evs ->
  is_Some (confirmation_loop sender n (map (fun ev => (Some (Got ev), s)) evs)).
Proof.
  induction evs as [|ev evs IH]; [by intros ?%elem_of_nil|]. intros [<-|Hin]%elem_of_cons; cbn [map confirmation_loop].
  - rewrite bytes_eqb_refl, Z.eqb_refl. by eexists.
  - destruct ev as [|h x who m ok g|]; [by apply IH| |by apply IH]. destruct (_ && _); [by eexists|by apply IH].
Qed.

Lemma tx_event_of bs ev :
  ev ∈ flat_map emit_block_events bs ->
  match ev with
  | EvTxIncluded height _ sender n success gas =>
    exists b r, receipt_of sender n bs b r /\ bh_height (fb_header b) = height /\ r_success r = success
      /\ r_gas_used r = gas
  | _ => True
  end.
Proof.
  intros Hin. apply list_elem_of_In, in_flat_map in Hin as (b & Hb & Hin). cbn in Hin.
  destruct Hin as [<-|Hin]; [done|]. apply list_elem_of_In, list_elem_of_lookup in Hin as [i Hi].
  rewrite list_lookup_imap in Hi. destruct (_ !! i) as [r|] eqn:Er; [|done]. injection Hi as <-.
  exists b, r. repeat split; [by apply list_elem_of_In|by eapply list_elem_of_lookup_2].
Qed.

(** A subscriber that is in time and keeps up is told of the operation exactly
    when a finalised block has a receipt for it, with what the receipt says. *)
Theorem confirmation_exact sender n (s : St) bs :
  let told := confirmation_loop sender n (map (fun ev => (Some (Got ev), s)) (flat_map emit_block_events bs)) in
  (is_Some told <-> exists b r, receipt_of sender n bs b r)
  /\ (forall note, told = Some note -> exists b r, receipt_of sender n bs b r
       /\ tn_block_height note = bh_height (fb_header b) /\ tn_success note = r_success r
       /\ tn_gas_used note = r_gas_used r).
Proof.
  cbv zeta.
  assert (Hsound : forall note, confirmation_loop sender n
    (map (fun ev => (Some (Got ev), s)) (flat_map emit_block_events bs)) = Some note ->
    exists b r, receipt_of sender n bs b r
       /\ tn_block_height note = bh_height (fb_header b) /\ tn_success note = r_success r
       /\ tn_gas_used note = r_gas_used r).
  { intros note Hn. apply confirmation_events in Hn as (h & x & ok & g & Hin & ->).
    apply tx_event_of in Hin as (b & r & Hr & <- & <- & <-). by exists b, r. }
  split; [|exact Hsound]. split.
  - intros [note Hn]. destruct (Hsound note Hn) as (b & r & Hr & _). by exists b, r.
  - intros (b & r & Hb & Hr & <- & <-). apply list_elem_of_lookup in Hr as [i Hi].
    eapply confirmation_found. apply list_elem_of_In, in_flat_map. exists b. split; [by apply list_elem_of_In|].
    right. apply list_elem_of_In. apply (list_elem_of_lookup_2 _ i).
    rewrite list_lookup_imap, Hi. reflexivity.
Qed.

(** The nonce is looked at before the subscription is made. An operation that is
    included in between is told of neither way: unless the subscriber falls
    behind later on, it waits until its time is over. *)
Definition about (sender : AccountId) (n : u64) (r : option Recv) : bool :=
  match r with
  | Some (Got (EvTxIncluded _ _ who m _ _)) => bytes_eqb who sender && (m =? n)
  | Some (Missed _) => true
  | _ => false
  end.

Theorem late_subscription_untold text sender n (before : St) events :
  parse_account_id text = answer sender -> nonce_passed before sender n = false ->
  Forall (fun x => about sender n (fst x) = false) events ->
  subscribe_tx_confirmation text n before events = answer None.
Proof.
  intros Hp Hb Hall. unfold subscribe_tx_confirmation. rewrite Hp. cbn [answer]. rewrite Hb. do 2 f_equal.
  induction Hall as [|[r s] events Hr _ IH]; cbn [confirmation_loop]; [done|]. cbn [fst about] in Hr.
  destruct r as [[[|h x who m ok g|]|k|]|]; try done. cbn [about] in Hr. by rewrite Hr.
Qed.
End laws.
