(* ===== verification/Indexer.v ===== *)
(** The block indexer ([crates/solen-indexer/src/store.rs] and [indexer.rs]): the
    query store of the explorer, what a finalised block adds to it, the replay
    at start-up and the polling of the engine. *)

From S2P Require Import Prelude Types Store Memory Overlay Codec State Auth Address Executor Blocks Validators.
From S2P Require Import Mempool Intents Checkpoint EngineState EngineVotes Reputation Rpc RpcEvents.
Open Scope Z_scope.

Definition MAX_INDEXED_BLOCKS : usize := Z.to_nat 20000.
Definition MAX_INDEXED_EVENTS : usize := Z.to_nat 200000.

(** ** The store *)

Record IndexedBlock : Type := mkIndexedBlock {
  ib_height : u64; ib_epoch : u64; ib_parent_hash : str; ib_state_root : str; ib_proposer : str;
  ib_timestamp_ms : u64; ib_tx_count : usize; ib_gas_used : u64; ib_attestation_count : usize;
}.
Record IndexedEvent : Type := mkIndexedEvent {
  ie_block_height : u64; ie_tx_index : usize; ie_emitter : str; ie_topic : str; ie_data : str;
}.
Record IndexedTx : Type := mkIndexedTx {
  it_block_height : u64; it_index : usize; it_sender : str; it_nonce : u64; it_success : bool;
  it_gas_used : u64; it_error : option string; it_events : list IndexedEvent; it_tx_hash : str;
}.
Record IndexedIntent : Type := mkIndexedIntent {
  ii_intent_id : u64; ii_sender : str; ii_block_height : u64; ii_tx_index : usize; ii_transfer_to : option str;
  ii_transfer_amount : option str; ii_solver_tip : option str; ii_solver : option str;
}.
Record IndexedRollup : Type := mkIndexedRollup {
  ir_rollup_id : u64; ir_name : str; ir_proof_type : str; ir_sequencer : str; ir_genesis_state_root : str;
  ir_registered_at_height : u64;
}.
Record IndexedBatch : Type := mkIndexedBatch {
  ba_rollup_id : u64; ba_batch_index : u64; ba_state_root : str; ba_data_hash : str; ba_verified : bool;
  ba_block_height : u64; ba_tx_index : usize;
}.

Record ContractSource : Type := mkContractSource {
  cs_code_hash : str; cs_source_code : str; cs_language : str; cs_compiler_version : str;
  cs_published_at : u64; cs_verified : bool;
}.

Record IndexStore : Type := mkIndexStore {
  ix_blocks : list IndexedBlock;
  ix_transactions : list IndexedTx;
  ix_events : list IndexedEvent;
  ix_tx_by_hash : gmap str nat;
  ix_account_txs : gmap str (list nat);
  ix_account_tokens : gmap str (gset str);
  ix_token_holders : gmap str (gset str);
  ix_contracts : gset str;
  ix_contract_sources : gmap str ContractSource;
  ix_fulfilled_intents : list IndexedIntent;
  ix_rollups : gmap Z IndexedRollup;
  ix_rollup_batches : gmap Z (list IndexedBatch);
  ix_blocks_proposed : gmap str Z;
  ix_last_proposed : gmap str Z;
  ix_latest_height : u64;
}.

Definition index_new : IndexStore := mkIndexStore [] [] [] ∅ ∅ ∅ ∅ ∅ ∅ [] ∅ ∅ ∅ ∅ 0.

(** The newest [cap] entries of a ring. *)
Definition ring_push {A} (cap : usize) (x : A) (l : list A) : list A :=
  let l := l ++ [x] in drop (length l - cap) l.

Definition add_block (b : IndexedBlock) (ix : IndexStore) : IndexStore :=
  mkIndexStore (ring_push MAX_INDEXED_BLOCKS b (ix_blocks ix)) (ix_transactions ix) (ix_events ix)
    (ix_tx_by_hash ix) (ix_account_txs ix) (ix_account_tokens ix) (ix_token_holders ix) (ix_contracts ix)
    (ix_contract_sources ix) (ix_fulfilled_intents ix) (ix_rollups ix) (ix_rollup_batches ix) (ix_blocks_proposed ix)
    (ix_last_proposed ix) (ib_height b).

Definition push_index (idx : nat) (m : gmap str (list nat)) (account : str) : gmap str (list nat) :=
  <[account := default [] (m !! account) ++ [idx]]> m.

Definition add_tx (tx : IndexedTx) (related : list str) (ix : IndexStore) : IndexStore :=
  let idx := length (ix_transactions ix) in
  let m := push_index idx (ix_account_txs ix) (it_sender tx) in
  let m := fold_left (push_index idx) (List.filter (fun a => negb (bytes_eqb a (it_sender tx))) related) m in
  let by_hash := if bool_decide (it_tx_hash tx = []) then ix_tx_by_hash ix
                 else <[it_tx_hash tx := idx]> (ix_tx_by_hash ix) in
  mkIndexStore (ix_blocks ix) (ix_transactions ix ++ [tx]) (ix_events ix) by_hash m
    (ix_account_tokens ix) (ix_token_holders ix) (ix_contracts ix)
    (ix_contract_sources ix) (ix_fulfilled_intents ix) (ix_rollups ix) (ix_rollup_batches ix) (ix_blocks_proposed ix)
    (ix_last_proposed ix) (ix_latest_height ix).

Definition add_event (ev : IndexedEvent) (ix : IndexStore) : IndexStore :=
  mkIndexStore (ix_blocks ix) (ix_transactions ix) (ring_push MAX_INDEXED_EVENTS ev (ix_events ix))
    (ix_tx_by_hash ix) (ix_account_txs ix) (ix_account_tokens ix) (ix_token_holders ix) (ix_contracts ix)
    (ix_contract_sources ix) (ix_fulfilled_intents ix) (ix_rollups ix) (ix_rollup_batches ix) (ix_blocks_proposed ix)
    (ix_last_proposed ix) (ix_latest_height ix).

Definition add_member (k x : str) (m : gmap str (gset str)) : gmap str (gset str) :=
  <[k := {[x]} ∪ default ∅ (m !! k)]> m.

Definition track_token_holder (account contract : str) (ix : IndexStore) : IndexStore :=
  mkIndexStore (ix_blocks ix) (ix_transactions ix) (ix_events ix) (ix_tx_by_hash ix) (ix_account_txs ix)
    (add_member account contract (ix_account_tokens ix)) (add_member contract account (ix_token_holders ix))
    (ix_contracts ix) (ix_contract_sources ix) (ix_fulfilled_intents ix) (ix_rollups ix) (ix_rollup_batches ix) (ix_blocks_proposed ix)
    (ix_last_proposed ix) (ix_latest_height ix).

Definition track_contract (id : str) (ix : IndexStore) : IndexStore :=
  mkIndexStore (ix_blocks ix) (ix_transactions ix) (ix_events ix) (ix_tx_by_hash ix) (ix_account_txs ix)
    (ix_account_tokens ix) (ix_token_holders ix) ({[id]} ∪ ix_contracts ix)
    (ix_contract_sources ix) (ix_fulfilled_intents ix) (ix_rollups ix) (ix_rollup_batches ix) (ix_blocks_proposed ix)
    (ix_last_proposed ix) (ix_latest_height ix).

Definition add_fulfilled_intent (i : IndexedIntent) (ix : IndexStore) : IndexStore :=
  mkIndexStore (ix_blocks ix) (ix_transactions ix) (ix_events ix) (ix_tx_by_hash ix) (ix_account_txs ix)
    (ix_account_tokens ix) (ix_token_holders ix) (ix_contracts ix)
    (ix_contract_sources ix) (ix_fulfilled_intents ix ++ [i]) (ix_rollups ix) (ix_rollup_batches ix) (ix_blocks_proposed ix)
    (ix_last_proposed ix) (ix_latest_height ix).

Definition add_rollup (r : IndexedRollup) (ix : IndexStore) : IndexStore :=
  mkIndexStore (ix_blocks ix) (ix_transactions ix) (ix_events ix) (ix_tx_by_hash ix) (ix_account_txs ix)
    (ix_account_tokens ix) (ix_token_holders ix) (ix_contracts ix)
    (ix_contract_sources ix) (ix_fulfilled_intents ix) (<[ir_rollup_id r := r]> (ix_rollups ix)) (ix_rollup_batches ix)
    (ix_blocks_proposed ix) (ix_last_proposed ix) (ix_latest_height ix).

Definition add_rollup_batch (b : IndexedBatch) (ix : IndexStore) : IndexStore :=
  mkIndexStore (ix_blocks ix) (ix_transactions ix) (ix_events ix) (ix_tx_by_hash ix) (ix_account_txs ix)
    (ix_account_tokens ix) (ix_token_holders ix) (ix_contracts ix)
    (ix_contract_sources ix) (ix_fulfilled_intents ix) (ix_rollups ix)
    (<[ba_rollup_id b := default [] (ix_rollup_batches ix !! ba_rollup_id b) ++ [b]]> (ix_rollup_batches ix))
    (ix_blocks_proposed ix) (ix_last_proposed ix) (ix_latest_height ix).

(** [blocks_proposed] and [last_proposed]. *)
Definition track_proposer (proposer : str) (height : u64) (ix : IndexStore) : IndexStore :=
  mkIndexStore (ix_blocks ix) (ix_transactions ix) (ix_events ix) (ix_tx_by_hash ix) (ix_account_txs ix)
    (ix_account_tokens ix) (ix_token_holders ix) (ix_contracts ix)
    (ix_contract_sources ix) (ix_fulfilled_intents ix) (ix_rollups ix) (ix_rollup_batches ix)
    (<[proposer := u64_add (default 0 (ix_blocks_proposed ix !! proposer)) 1]> (ix_blocks_proposed ix))
    (<[proposer := height]> (ix_last_proposed ix)) (ix_latest_height ix).

(** *** Queries *)

Definition ix_get_block (height : u64) (ix : IndexStore) : option IndexedBlock :=
  List.find (fun b => ib_height b =? height) (ix_blocks ix).
Definition get_recent_blocks (limit : usize) (ix : IndexStore) : list IndexedBlock := take limit (rev (ix_blocks ix)).
Definition get_recent_blocks_paged (limit offset : usize) (ix : IndexStore) : list IndexedBlock :=
  take limit (drop offset (rev (ix_blocks ix))).
Definition get_tx (height : u64) (index : usize) (ix : IndexStore) : option IndexedTx :=
  List.find (fun tx => (it_block_height tx =? height) && (it_index tx =? index)%nat) (ix_transactions ix).
Definition get_tx_by_hash (tx_hash : str) (ix : IndexStore) : option IndexedTx :=
  i ← ix_tx_by_hash ix !! map to_ascii_lowercase (strip_0x tx_hash); ix_transactions ix !! i.
Definition get_block_txs (height : u64) (ix : IndexStore) : list IndexedTx :=
  List.filter (fun tx => it_block_height tx =? height) (ix_transactions ix).
Definition get_recent_txs (limit : usize) (ix : IndexStore) : list IndexedTx := take limit (rev (ix_transactions ix)).
Definition get_recent_txs_paged (limit offset : usize) (ix : IndexStore) : list IndexedTx :=
  take limit (drop offset (rev (ix_transactions ix))).
Definition get_account_txs_paged (account : str) (limit offset : usize) (ix : IndexStore) : list IndexedTx :=
  omap (fun i => ix_transactions ix !! i)
    (take limit (drop offset (rev (default [] (ix_account_txs ix !! account))))).
Definition get_account_tx_count (account : str) (ix : IndexStore) : usize :=
  length (default [] (ix_account_txs ix !! account)).
Definition get_account_txs (account : str) (limit : usize) (ix : IndexStore) : list IndexedTx :=
  omap (fun i => ix_transactions ix !! i) (take limit (rev (default [] (ix_account_txs ix !! account)))).
Definition get_recent_events (limit : usize) (ix : IndexStore) : list IndexedEvent := take limit (rev (ix_events ix)).
Definition get_recent_events_paged (limit offset : usize) (ix : IndexStore) : list IndexedEvent :=
  take limit (drop offset (rev (ix_events ix))).
Definition event_matches (emitter topic : option str) (from to : option u64) (e : IndexedEvent) : bool :=
  match from with Some f => negb (ie_block_height e <? f) | None => true end
  && match to with Some t => negb (t <? ie_block_height e) | None => true end
  && match emitter with Some em => bytes_eqb (ie_emitter e) em | None => true end
  && match topic with Some tp => bytes_eqb (ie_topic e) tp | None => true end.
Definition get_events_filtered (emitter topic : option str) (from to : option u64) (limit offset : usize)
    (ix : IndexStore) : list IndexedEvent :=
  take limit (drop offset (List.filter (event_matches emitter topic from to) (rev (ix_events ix)))).
(** The order of a hash set is that of [elements] here. *)
Definition get_token_holders (contract : str) (ix : IndexStore) : list str :=
  elements (default ∅ (ix_token_holders ix !! contract)).
Definition get_account_tokens (account : str) (ix : IndexStore) : list str :=
  elements (default ∅ (ix_account_tokens ix !! account)).
Definition get_contracts (ix : IndexStore) : list str := elements (ix_contracts ix).
Definition get_recent_intents (limit : usize) (ix : IndexStore) : list IndexedIntent :=
  take limit (rev (ix_fulfilled_intents ix)).
Definition get_rollups (ix : IndexStore) : list IndexedRollup :=
  stable_sort (fun a b => ir_rollup_id a <=? ir_rollup_id b) (map snd (map_to_list (ix_rollups ix))).
Definition get_rollup (id : u64) (ix : IndexStore) : option IndexedRollup := ix_rollups ix !! id.
Definition ix_rollup_batches_of (id : u64) (limit : usize) (ix : IndexStore) : list IndexedBatch :=
  take limit (rev (default [] (ix_rollup_batches ix !! id))).
Definition get_rollup_batch_count (id : u64) (ix : IndexStore) : usize :=
  length (default [] (ix_rollup_batches ix !! id)).

(** ** Indexing a block *)

Fixpoint pairs_from_hex (s : bytes) : option bytes :=
  match s with
  | [] => Some []
  | [a] => (fun x => [x]) <$> u8_from_hex [a]
  | a :: b :: s => x ← u8_from_hex [a; b]; xs ← pairs_from_hex s; Some (x :: xs)
  end.
Definition u64_from_le_hex (s : str) : option u64 :=
  if negb (str_len s =? 16)%nat then None else from_le <$> pairs_from_hex (str_bytes s).

(** [if !related.contains(&a) { related.push(a) }]. *)
Definition note_account (a : str) (related : list str) : list str :=
  if existsb (bytes_eqb a) related then related else related ++ [a].

Definition is_topic (t : string) (x : bytes) : bool := bytes_eqb x (bytes_of_string t).

Section indexing.
Context {crypto : Crypto} `{!Codec BlockHeader} (from_utf8_lossy : bytes -> str).

(** The accounts an event is about: the one in front of its data, for the
    topics that have one there, and its emitter. *)
Definition addressed_topic (t : bytes) : bool :=
  existsb (fun name => is_topic name t)
    ["transfer"; "epoch_reward"; "delegator_reward"; "delegate"; "undelegate"; "solver_tip"].
Definition event_accounts (related : list str) (e : Event) : list str :=
  let related := if addressed_topic (topic e) && (32 <=? length (data e))%nat
                 then note_account (account_to_base58 (take 32 (data e))) related else related in
  note_account (account_to_base58 (emitter e)) related.

Definition indexed_event (height : u64) (i : usize) (e : Event) : IndexedEvent :=
  mkIndexedEvent height i (account_to_base58 (emitter e)) (from_utf8_lossy (topic e)) (chars (hex_encode (data e))).

(** The account in the first 64 digits of the data, which are hexadecimal. *)
Definition data_account (ev : IndexedEvent) : option AccountId :=
  match hex_decode (take 64 (ie_data ev)) with
  | Returned (Ok b) => if (length b =? 32)%nat then Some b else None
  | _ => None
  end.

Definition track_holders (sender : AccountId) (ev : IndexedEvent) (st : IndexStore * list str) :
    IndexStore * list str :=
  let '(ix, related) := st in
  match data_account ev with
  | Some addr =>
    if bytes_eqb (take 16 addr) (replicate 16 255) then st
    else
    let recipient := account_to_base58 addr in
    let ix := track_token_holder recipient (ie_emitter ev) ix in
    let ix := track_token_holder (account_to_base58 sender) (ie_emitter ev) ix in
    (ix, note_account recipient related)
  | None => st
  end.

Definition track_slash (ev : IndexedEvent) (related : list str) : list str :=
  let related := match data_account ev with
                 | Some addr => note_account (account_to_base58 addr) related
                 | None => related
                 end in
  note_account (account_to_base58 (replicate 31 255 ++ [4])) related.

Definition track_rollup (sender : AccountId) (height : u64) (ev : IndexedEvent) (ix : IndexStore) : IndexStore :=
  match u64_from_le_hex (take 16 (ie_data ev)) with
  | Some id => add_rollup (mkIndexedRollup id (chars "Rollup #" ++ decimal id) [] (account_to_base58 sender) []
                             height) ix
  | None => ix
  end.

Definition track_batch (height : u64) (i : usize) (ev : IndexedEvent) (ix : IndexStore) : IndexStore :=
  match u64_from_le_hex (take 16 (ie_data ev)), u64_from_le_hex (slice 16 16 (ie_data ev)) with
  | Some id, Some batch =>
    add_rollup_batch (mkIndexedBatch id batch (slice 32 64 (ie_data ev)) (slice 96 64 (ie_data ev)) true height i) ix
  | _, _ => ix
  end.

(** The last event of a topic with an account and an amount. *)
Definition addressed_amount (name : string) (events : list Event) : option (str * str) :=
  last (omap (fun e => if is_topic name (topic e) && (48 <=? length (data e))%nat
                       then Some (account_to_base58 (take 32 (data e)), decimal (from_le (slice 32 16 (data e))))
                       else None) events).

Definition track_intent (r : ExecutionReceipt) (height : u64) (i : usize) (ev : IndexedEvent) (ix : IndexStore) :
    IndexStore :=
  match u64_from_le_hex (take 16 (ie_data ev)) with
  | Some id =>
    let transfer := addressed_amount "transfer" (r_events r) in
    let tip := addressed_amount "solver_tip" (r_events r) in
    add_fulfilled_intent (mkIndexedIntent id (account_to_base58 (r_sender r)) height i (fst <$> transfer)
      (snd <$> transfer) (snd <$> tip) (fst <$> tip)) ix
  | None => ix
  end.

Definition topic_of (ev : IndexedEvent) (name : string) : bool := bytes_eqb (ie_topic ev) (chars name).

(** Deployments, rollups, batches and intents. *)
Definition track_rest (r : ExecutionReceipt) (height : u64) (i : usize) (ev : IndexedEvent) (ix : IndexStore) :
    IndexStore :=
  let len := length (ie_data ev) in
  let ix := if topic_of ev "deploy" && (64 <=? len)%nat then track_contract (take 64 (ie_data ev)) ix else ix in
  let ix := if topic_of ev "rollup_registered" && (16 <=? len)%nat
            then track_rollup (r_sender r) height ev ix else ix in
  let ix := if (topic_of ev "batch_verified" || topic_of ev "batch_submitted") && (160 <=? len)%nat
            then track_batch height i ev ix else ix in
  if topic_of ev "intent_fulfilled" && (16 <=? len)%nat then track_intent r height i ev ix else ix.

Definition track_event (r : ExecutionReceipt) (height : u64) (i : usize) (st : IndexStore * list str)
    (ev : IndexedEvent) : IndexStore * list str :=
  let len := length (ie_data ev) in
  let '(ix, related) := st in
  let ix := add_event ev ix in
  let '(ix, related) := if (topic_of ev "mint" || topic_of ev "transfer") && (64 <=? len)%nat
                        then track_holders (r_sender r) ev (ix, related) else (ix, related) in
  let related := if topic_of ev "slashed" && (64 <=? len)%nat then track_slash ev related else related in
  (track_rest r height i ev ix, related).

Definition indexed_tx (height : u64) (i : usize) (r : ExecutionReceipt) : IndexedTx :=
  mkIndexedTx height i (account_to_base58 (r_sender r)) (r_nonce r) (r_success r) (r_gas_used r) (r_error r)
    (map (indexed_event height i) (r_events r))
    (chars (hex_encode (receipt_tx_hash height (Z.of_nat i mod 2 ^ 32) (r_sender r) (r_nonce r)))).

Definition index_receipt (height : u64) (ix : IndexStore) (ir : usize * ExecutionReceipt) : IndexStore :=
  let '(i, r) := ir in
  let tx := indexed_tx height i r in
  let related := fold_left event_accounts (r_events r) [] in
  let '(ix, related) := fold_left (track_event r height i) (it_events tx) (ix, related) in
  add_tx tx related ix.

Definition index_block (b : FinalizedBlock) (ix : IndexStore) : IndexStore :=
  let h := fb_header b in
  let receipts := br_receipts (fb_result b) in
  let proposer := account_to_base58 (bh_proposer h) in
  let ix := if bytes_eqb (bh_proposer h) zero_hash then ix else track_proposer proposer (bh_height h) ix in
  let ix := add_block (mkIndexedBlock (bh_height h) (bh_epoch h) (chars (hex_encode (bh_parent_hash h)))
    (chars (hex_encode (bh_state_root h))) proposer (bh_timestamp_ms h) (length receipts)
    (br_gas_used (fb_result b)) (length (fb_attestations b))) ix in
  fold_left (index_receipt (bh_height h)) (imap (fun i r => (i, r)) receipts) ix.

Definition index_all (bs : list FinalizedBlock) (ix : IndexStore) : IndexStore :=
  fold_left (fun ix b => index_block b ix) bs ix.

(** ** The task *)

Context {St : Type} `{!StateStore St} `{!Codec SerializableBlock}.
Implicit Types e : Engine St.

Definition REPLAY_BATCH : usize := Z.to_nat 1000.

(** The replay at start-up, in batches of persisted blocks. *)
Fixpoint replay (fuel : nat) e (from : u64) (ix : IndexStore) : IndexStore :=
  match fuel with
  | O => ix
  | S fuel =>
    let batch := load_blocks (en_store e) from REPLAY_BATCH in
    if bool_decide (batch = []) then ix
    else
    let ix := index_all batch ix in
    if (length batch <? REPLAY_BATCH)%nat then ix
    else replay fuel e (u64_add from (Z.of_nat (length batch))) ix
  end.

(** The heights up to that of the engine; [rest] of them. *)
Fixpoint catch_up (rest : nat) e (last_indexed : u64) (ix : IndexStore) : u64 * IndexStore :=
  match rest with
  | O => (last_indexed, ix)
  | S rest =>
    let next := u64_add last_indexed 1 in
    catch_up rest e next (match get_block e next with Some b => index_block b ix | None => ix end)
  end.
Definition index_tick e (st : u64 * IndexStore) : u64 * IndexStore :=
  catch_up (Z.to_nat (en_height e - fst st)) e (fst st) (snd st).

(** Start-up: the replay reads the blocks of [e], the height is that of the
    engine [e'] once the replay is over. *)
Definition start_indexer (fuel : nat) e e' : u64 * IndexStore := (en_height e', replay fuel e 1 index_new).
End indexing.
