(* ===== verification/IndexerLaws.v ===== *)
(** What the explorer answers: the indexes of the query store against a search
    through the whole history, the bounds of its rings, and the replay. *)

From S2P Require Import Prelude Types Store Memory Overlay Codec State Auth Address Executor Blocks Validators.
From S2P Require Import Mempool Intents Checkpoint EngineState EngineVotes Reputation Rpc RpcEvents Indexer.
Open Scope Z_scope.

(** ** Positions *)

Section positions.
Context {A : Type}.
Implicit Types (P : A -> bool) (l : list A).

(** Where the elements that satisfy [P] are. *)
Definition positions P l : list nat :=
  List.filter (fun i => match l !! i with Some x => P x | None => false end) (seq 0 (length l)).

Lemma positions_snoc P l x : positions P (l ++ [x]) = positions P l ++ (if P x then [length l] else []).
Proof.
  unfold positions. rewrite length_app, seq_app, List.filter_app. cbn [length seq List.filter Nat.add]. f_equal.
  - apply List.filter_ext_in. intros i Hi. apply in_seq in Hi. by rewrite lookup_app_l by lia.
  - rewrite list_lookup_middle by done. by destruct (P x).
Qed.

Lemma positions_values P l : map Some (List.filter P l) = map (fun i => l !! i) (positions P l).
Proof.
  induction l as [|x l IH] using rev_ind; [done|]. rewrite positions_snoc, List.filter_app, !map_app. f_equal.
  - rewrite IH. apply map_ext_in. intros i Hi. apply filter_In in Hi as [Hi _]. apply in_seq in Hi.
    by rewrite lookup_app_l by lia.
  - cbn [List.filter]. destruct (P x); [|done]. cbn. by rewrite list_lookup_middle.
Qed.
End positions.

Lemma omap_values {A B} (f : A -> option B) (l : list A) (ys : list B) : map f l = map Some ys -> omap f l = ys.
Proof.
  revert ys. induction l as [|x l IH]; intros [|y ys] H; try done. cbn in *. injection H as Hx Hl.
  rewrite Hx. f_equal. by apply IH.
Qed.

(** ** Rings *)

Lemma ring_push_newest {A} cap (x : A) (full : list A) :
  (0 < cap)%nat ->
  ring_push cap x (drop (length full - cap) full) = drop (length (full ++ [x]) - cap) (full ++ [x]).
Proof.
  intros Hc. unfold ring_push. cbv zeta. rewrite !length_app, length_drop. cbn [length].
  rewrite (drop_app_le full) by lia. rewrite drop_app_le by (rewrite length_drop; lia). rewrite drop_drop. f_equal.
  f_equal. lia.
Qed.

(** ** The history and its indexes *)

(** A transaction with the accounts it is about. *)
Abbreviation Entry := (IndexedTx * list str)%type (only parsing).

Definition involves (a : str) (x : Entry) : bool := bytes_eqb a (it_sender (fst x)) || existsb (bytes_eqb a) (snd x).
Definition has_hash (h : str) (x : Entry) : bool := bytes_eqb (it_tx_hash (fst x)) h.

Record indexes (ix : IndexStore) (hist : list Entry) : Prop := {
  ix_all : ix_transactions ix = map fst hist;
  ix_accounts : forall a, default [] (ix_account_txs ix !! a) = positions (involves a) hist;
  ix_hashes : forall h, h <> [] -> ix_tx_by_hash ix !! h = last (positions (has_hash h) hist);
}.

Lemma existsb_elem (a : str) l : existsb (bytes_eqb a) l = true <-> a ∈ l.
Proof.
  rewrite existsb_exists. split.
  - intros (x & Hx & E). apply bytes_eqb_true in E. subst x. by apply list_elem_of_In.
  - intros Hx. exists a. split; [by apply list_elem_of_In|apply bytes_eqb_refl].
Qed.

Lemma push_all idx l m a :
  NoDup l ->
  default [] (fold_left (push_index idx) l m !! a)
  = default [] (m !! a) ++ (if existsb (bytes_eqb a) l then [idx] else []).
Proof.
  intros Hl. revert m. induction Hl as [|x l Hx _ IH]; intros m; cbn [fold_left existsb].
  { by rewrite app_nil_r. }
  rewrite IH. unfold push_index. rewrite lookup_insert. case_decide as E.
  - subst x. cbn [default]. rewrite bytes_eqb_refl. cbn [orb].
    destruct (existsb (bytes_eqb a) l) eqn:Ee; [by apply existsb_elem in Ee|]. by rewrite app_nil_r.
  - assert (bytes_eqb a x = false) as -> by (apply bytes_eqb_false; congruence). done.
Qed.

Lemma existsb_others (a s : str) l :
  a <> s -> existsb (bytes_eqb a) (List.filter (fun x => negb (bytes_eqb x s)) l) = existsb (bytes_eqb a) l.
Proof.
  intros Hne. induction l as [|x l IH]; [done|]. cbn [List.filter existsb].
  destruct (bytes_eqb x s) eqn:E; cbn [negb existsb].
  - apply bytes_eqb_true in E. subst x. rewrite IH. by rewrite (proj2 (bytes_eqb_false a s)) by done.
  - by rewrite IH.
Qed.

Lemma NoDup_others (f : str -> bool) l : NoDup l -> NoDup (List.filter f l).
Proof.
  induction 1 as [|x l Hx _ IH]; cbn [List.filter]; [constructor|]. destruct (f x); [|done].
  constructor; [|done]. intros Hin. apply Hx. apply list_elem_of_In, filter_In in Hin as [Hin _].
  by apply list_elem_of_In.
Qed.

Lemma add_tx_accounts tx related ix a :
  NoDup related ->
  default [] (ix_account_txs (add_tx tx related ix) !! a)
  = default [] (ix_account_txs ix !! a) ++ (if involves a (tx, related) then [length (ix_transactions ix)] else []).
Proof.
  intros Hr. unfold add_tx, involves. cbv zeta. cbn [ix_account_txs fst snd].
  rewrite push_all by by apply NoDup_others. unfold push_index. rewrite lookup_insert. case_decide as E.
  - subst a. rewrite bytes_eqb_refl. cbn [orb default].
    assert (existsb (bytes_eqb (it_sender tx)) (List.filter (fun x => negb (bytes_eqb x (it_sender tx))) related)
      = false) as ->; [|by rewrite app_nil_r].
    apply not_true_iff_false. intros Hin%existsb_elem. apply list_elem_of_In, filter_In in Hin as [_ Hin].
    by rewrite bytes_eqb_refl in Hin.
  - rewrite existsb_others by done. rewrite (proj2 (bytes_eqb_false a (it_sender tx))) by done. done.
Qed.

Lemma add_tx_indexes tx related ix hist :
  NoDup related -> indexes ix hist -> indexes (add_tx tx related ix) (hist ++ [(tx, related)]).
Proof.
  intros Hr [H1 H2 H3]. assert (Hlen : length (ix_transactions ix) = length hist) by (rewrite H1; apply length_map).
  split.
  - cbn. rewrite H1, map_app. done.
  - intros a. rewrite add_tx_accounts, H2, positions_snoc, Hlen by done. done.
  - intros h Hh. rewrite positions_snoc. unfold add_tx, has_hash at 2. cbv zeta. cbn [ix_tx_by_hash fst].
    rewrite Hlen. case_bool_decide as E.
    + rewrite E, (proj2 (bytes_eqb_false [] h)), app_nil_r by congruence. by apply H3.
    + rewrite lookup_insert. case_decide as Ek.
      * subst h. rewrite bytes_eqb_refl. by rewrite last_snoc.
      * rewrite (proj2 (bytes_eqb_false _ h)), app_nil_r by done. by apply H3.
Qed.

(** Only transactions touch the indexes. *)
Lemma indexes_same ix ix' hist :
  ix_transactions ix' = ix_transactions ix -> ix_account_txs ix' = ix_account_txs ix ->
  ix_tx_by_hash ix' = ix_tx_by_hash ix -> indexes ix hist -> indexes ix' hist.
Proof. intros E1 E2 E3 [H1 H2 H3]. split; [by rewrite E1|by rewrite E2|by rewrite E3]. Qed.

(** *** The queries against a search *)

Lemma account_search ix hist a limit offset :
  indexes ix hist ->
  get_account_txs_paged a limit offset ix
  = take limit (drop offset (rev (map fst (List.filter (involves a) hist)))).
Proof.
  intros [H1 H2 _]. unfold get_account_txs_paged. rewrite H2. apply omap_values.
  rewrite H1. rewrite <- firstn_map, <- skipn_map, !map_rev. rewrite <- firstn_map, <- skipn_map, map_rev.
  do 2 f_equal. f_equal. rewrite map_map.
  pose proof (positions_values (involves a) hist) as Hp. apply (f_equal (map (fmap fst))) in Hp.
  rewrite !map_map in Hp. etrans; [|symmetry; etrans; [|exact Hp]].
  - apply map_ext. intros i. by rewrite list_lookup_fmap.
  - by apply map_ext.
Qed.

Lemma hash_search ix hist h :
  indexes ix hist -> map to_ascii_lowercase (strip_0x h) <> [] ->
  get_tx_by_hash h ix
  = last (map fst (List.filter (has_hash (map to_ascii_lowercase (strip_0x h))) hist)).
Proof.
  intros [H1 _ H3] Hh. unfold get_tx_by_hash. rewrite H3 by done. set (k := map _ _). rewrite H1.
  pose proof (positions_values (has_hash k) hist) as Hp.
  generalize dependent (positions (has_hash k) hist). generalize (List.filter (has_hash k) hist). intros ys ps Hp.
  assert (El : last (map Some ys) = last (map (fun i => hist !! i) ps)) by by rewrite Hp.
  change (map Some ys) with (Some <$> ys) in El. change (map (fun i => hist !! i) ps) with ((fun i => hist !! i) <$> ps) in El.
  rewrite !fmap_last in El. change (map fst ys) with (fst <$> ys). rewrite fmap_last.
  destruct (last ps) as [i|]; cbn in El |- *; destruct (last ys) as [y|]; cbn in El |- *; try done.
  injection El as El. change (map fst hist) with (fst <$> hist). by rewrite list_lookup_fmap, <- El.
Qed.

(** ** What a block adds *)

Section blocks.
Context {crypto : Crypto} `{!Codec BlockHeader} (from_utf8_lossy : bytes -> str).

(** The accounts that the indexed form of an event adds. *)
Definition accounts_of_event (related : list str) (ev : IndexedEvent) : list str :=
  let len := length (ie_data ev) in
  let related := if (topic_of ev "mint" || topic_of ev "transfer") && (64 <=? len)%nat
                 then match data_account ev with
                      | Some addr => if bytes_eqb (take 16 addr) (replicate 16 255) then related
                                     else note_account (account_to_base58 addr) related
                      | None => related
                      end
                 else related in
  if topic_of ev "slashed" && (64 <=? len)%nat then track_slash ev related else related.

(** A receipt as an entry of the history, and a block as its entries. *)
Definition entry_of (height : u64) (ir : usize * ExecutionReceipt) : Entry :=
  let tx := indexed_tx from_utf8_lossy height (fst ir) (snd ir) in
  (tx, fold_left accounts_of_event (it_events tx) (fold_left event_accounts (r_events (snd ir)) [])).
Definition block_history (b : FinalizedBlock) : list Entry :=
  map (entry_of (bh_height (fb_header b))) (imap (fun i r => (i, r)) (br_receipts (fb_result b))).
Definition block_summary (b : FinalizedBlock) : IndexedBlock :=
  let h := fb_header b in
  mkIndexedBlock (bh_height h) (bh_epoch h) (chars (hex_encode (bh_parent_hash h)))
    (chars (hex_encode (bh_state_root h))) (account_to_base58 (bh_proposer h)) (bh_timestamp_ms h)
    (length (br_receipts (fb_result b))) (br_gas_used (fb_result b)) (length (fb_attestations b)).

Lemma note_NoDup a l : NoDup l -> NoDup (note_account a l).
Proof.
  intros Hl. unfold note_account. destruct (existsb (bytes_eqb a) l) eqn:E; [done|].
  apply NoDup_app. split; [done|]. split; [|repeat constructor; by intros ?%elem_of_nil].
  intros x Hx Hin. apply list_elem_of_singleton in Hin. subst x. apply existsb_elem in Hx. congruence.
Qed.

Lemma fold_NoDup {B} (f : list str -> B -> list str) l acc :
  (forall acc x, NoDup acc -> NoDup (f acc x)) -> NoDup acc -> NoDup (fold_left f l acc).
Proof. intros Hf. revert acc. induction l as [|x l IH]; intros acc Ha; cbn [fold_left]; [done|]. by apply IH, Hf. Qed.

Lemma event_accounts_NoDup acc e : NoDup acc -> NoDup (event_accounts acc e).
Proof. intros Ha. unfold event_accounts. apply note_NoDup. destruct (_ && _); [by apply note_NoDup|done]. Qed.

Lemma accounts_of_event_NoDup acc ev : NoDup acc -> NoDup (accounts_of_event acc ev).
Proof.
  intros Ha. unfold accounts_of_event. cbv zeta.
  set (r := if _ && _ then match data_account ev with _ => _ end else acc).
  assert (Hr : NoDup r).
  { unfold r. destruct (_ && _); [|done]. destruct (data_account ev); [|done].
    destruct (bytes_eqb _ _); [done|by apply note_NoDup]. }
  clearbody r. destruct (_ && _); [|done]. unfold track_slash. apply note_NoDup.
  destruct (data_account ev); [by apply note_NoDup|done].
Qed.

Lemma entry_NoDup height ir : NoDup (snd (entry_of height ir)).
Proof.
  apply fold_NoDup; [exact accounts_of_event_NoDup|]. apply fold_NoDup; [exact event_accounts_NoDup|constructor].
Qed.

(** *** The invariant of the store *)

Definition events_of (hist : list Entry) : list IndexedEvent := flat_map (fun x => it_events (fst x)) hist.
Definition newest {A} (cap : usize) (l : list A) : list A := drop (length l - cap) l.

Record indexed (ix : IndexStore) (bs : list IndexedBlock) (hist : list Entry) (evs : list IndexedEvent) : Prop := {
  id_indexes : indexes ix hist;
  id_blocks : ix_blocks ix = newest MAX_INDEXED_BLOCKS bs;
  id_events : ix_events ix = newest MAX_INDEXED_EVENTS evs;
}.

Lemma caps_positive : (0 < MAX_INDEXED_BLOCKS)%nat /\ (0 < MAX_INDEXED_EVENTS)%nat.
Proof. unfold MAX_INDEXED_BLOCKS, MAX_INDEXED_EVENTS. lia. Qed.

(** What leaves the indexed parts alone. *)
Definition same_parts (ix ix' : IndexStore) : Prop :=
  ix_transactions ix' = ix_transactions ix /\ ix_account_txs ix' = ix_account_txs ix
  /\ ix_tx_by_hash ix' = ix_tx_by_hash ix /\ ix_blocks ix' = ix_blocks ix /\ ix_events ix' = ix_events ix.

Lemma same_indexed ix ix' bs hist evs : same_parts ix ix' -> indexed ix bs hist evs -> indexed ix' bs hist evs.
Proof.
  intros (E1 & E2 & E3 & E4 & E5) [H1 H2 H3]. split; [by eapply indexes_same|by rewrite E4|by rewrite E5].
Qed.

Lemma add_event_indexed ev ix bs hist evs :
  indexed ix bs hist evs -> indexed (add_event ev ix) bs hist (evs ++ [ev]).
Proof.
  intros [H1 H2 H3]. split; [by eapply indexes_same; [..|exact H1]|exact H2|].
  unfold add_event. cbn [ix_events]. rewrite H3. apply ring_push_newest, caps_positive.
Qed.

Lemma add_block_indexed b ix bs hist evs :
  indexed ix bs hist evs -> indexed (add_block b ix) (bs ++ [b]) hist evs.
Proof.
  intros [H1 H2 H3]. split; [by eapply indexes_same; [..|exact H1]| |exact H3].
  unfold add_block. cbn [ix_blocks]. rewrite H2. apply ring_push_newest, caps_positive.
Qed.

#[local] Instance same_parts_preorder : PreOrder same_parts.
Proof. split; [by intros ix|]. unfold same_parts. intros ix1 ix2 ix3. intuition congruence. Qed.

Lemma same_if (c : bool) f ix0 ix : (forall ix, same_parts ix (f ix)) -> same_parts ix0 ix ->
  same_parts ix0 (if c then f ix else ix).
Proof. intros Hf H. destruct c; [|exact H]. etrans; [exact H|apply Hf]. Qed.

Lemma track_rest_same r height i ev ix : same_parts ix (track_rest r height i ev ix).
Proof.
  unfold track_rest. cbv zeta.
  apply (same_if _ (track_intent r height i ev)).
  { intros ix'. unfold track_intent. by destruct (u64_from_le_hex _). }
  apply (same_if _ (track_batch height i ev)).
  { intros ix'. unfold track_batch. destruct (u64_from_le_hex _); [|done]. by destruct (u64_from_le_hex _). }
  apply (same_if _ (track_rollup (r_sender r) height ev)).
  { intros ix'. unfold track_rollup. by destruct (u64_from_le_hex _). }
  by apply (same_if _ (track_contract (take 64 (ie_data ev)))).
Qed.

Lemma track_event_indexed r height i ix related ev bs hist evs :
  indexed ix bs hist evs ->
  let '(ix', related') := track_event r height i (ix, related) ev in
  indexed ix' bs hist (evs ++ [ev]) /\ related' = accounts_of_event related ev.
Proof.
  intros Hi%(add_event_indexed ev). unfold track_event, accounts_of_event. cbv zeta.
  destruct ((topic_of ev "mint" || topic_of ev "transfer") && _).
  - unfold track_holders. destruct (data_account ev) as [addr|]; [destruct (bytes_eqb _ _)|];
      (split; [|done]); (eapply same_indexed; [apply track_rest_same|]); [exact Hi| |exact Hi].
    by eapply same_indexed; [|exact Hi].
  - split; [|done]. eapply same_indexed; [apply track_rest_same|exact Hi].
Qed.

Lemma track_events_indexed r height i events ix related bs hist evs :
  indexed ix bs hist evs ->
  let '(ix', related') := fold_left (track_event r height i) events (ix, related) in
  indexed ix' bs hist (evs ++ events) /\ related' = fold_left accounts_of_event events related.
Proof.
  revert ix related evs. induction events as [|ev events IH]; intros ix related evs Hi; cbn [fold_left].
  { by rewrite app_nil_r. }
  pose proof (track_event_indexed r height i ix related ev bs hist evs Hi) as Hs.
  destruct (track_event r height i (ix, related) ev) as [ix1 related1]. destruct Hs as [Hi1 ->].
  specialize (IH ix1 (accounts_of_event related ev) (evs ++ [ev]) Hi1).
  rewrite <- app_assoc in IH. exact IH.
Qed.

Lemma index_receipt_indexed height ir ix bs hist :
  indexed ix bs hist (events_of hist) ->
  let hist' := hist ++ [entry_of height ir] in
  indexed (index_receipt from_utf8_lossy height ix ir) bs hist' (events_of hist').
Proof.
  intros Hi hist'. destruct ir as [i r]. unfold index_receipt. cbv zeta.
  set (tx := indexed_tx from_utf8_lossy height i r).
  pose proof (track_events_indexed r height i (it_events tx) ix (fold_left event_accounts (r_events r) []) bs hist
    (events_of hist) Hi) as Ht.
  destruct (fold_left (track_event r height i) _ _) as [ix1 related]. destruct Ht as [[H1 H2 H3] ->].
  assert (Ee : events_of hist' = events_of hist ++ it_events tx).
  { unfold hist', events_of. rewrite flat_map_app. cbn [flat_map]. by rewrite app_nil_r. }
  rewrite Ee. split; [|exact H2|exact H3].
  apply (add_tx_indexes tx (snd (entry_of height (i, r)))); [apply entry_NoDup|exact H1].
Qed.

Lemma index_receipts_indexed height irs ix bs hist :
  indexed ix bs hist (events_of hist) ->
  let hist' := hist ++ map (entry_of height) irs in
  indexed (fold_left (index_receipt from_utf8_lossy height) irs ix) bs hist' (events_of hist').
Proof.
  revert ix hist. induction irs as [|ir irs IH]; intros ix hist Hi; cbn [fold_left map].
  { by rewrite app_nil_r. }
  specialize (IH _ _ (index_receipt_indexed height ir ix bs hist Hi)). rewrite <- app_assoc in IH. exact IH.
Qed.

Lemma index_block_indexed b ix bs hist :
  indexed ix bs hist (events_of hist) ->
  let hist' := hist ++ block_history b in
  indexed (index_block from_utf8_lossy b ix) (bs ++ [block_summary b]) hist' (events_of hist').
Proof.
  intros Hi. apply index_receipts_indexed, add_block_indexed. destruct (bytes_eqb _ _); [exact Hi|].
  by eapply same_indexed; [|exact Hi].
Qed.

(** Every transaction of the blocks, in order. *)
Definition history (bs : list FinalizedBlock) : list Entry := flat_map block_history bs.

Lemma index_all_indexed bs ix sums hist :
  indexed ix sums hist (events_of hist) ->
  let hist' := hist ++ history bs in
  indexed (index_all from_utf8_lossy bs ix) (sums ++ map block_summary bs) hist' (events_of hist').
Proof.
  unfold index_all, history. revert ix sums hist. induction bs as [|b bs IH]; intros ix sums hist Hi;
    cbn [fold_left flat_map map].
  { by rewrite !app_nil_r. }
  specialize (IH _ _ _ (index_block_indexed b ix sums hist Hi)). rewrite <- !app_assoc in IH. exact IH.
Qed.

Lemma index_new_indexed : indexed index_new [] [] [].
Proof. split; [|done|done]. split; [done| |]; intros x; [|intros _]; cbn; by rewrite lookup_empty. Qed.

(** The indexed queries of the store against a search through the history of
    the indexed blocks. *)
Lemma index_exact bs :
  let ix := index_all from_utf8_lossy bs index_new in
  (forall a limit offset, get_account_txs_paged a limit offset ix
     = take limit (drop offset (rev (map fst (List.filter (involves a) (history bs))))))
  /\ (forall h, map to_ascii_lowercase (strip_0x h) <> [] ->
      get_tx_by_hash h ix = last (map fst (List.filter (has_hash (map to_ascii_lowercase (strip_0x h))) (history bs))))
  /\ ix_transactions ix = map fst (history bs)
  /\ ix_blocks ix = newest MAX_INDEXED_BLOCKS (map block_summary bs)
  /\ ix_events ix = newest MAX_INDEXED_EVENTS (events_of (history bs)).
Proof.
  intros ix. destruct (index_all_indexed bs index_new [] [] index_new_indexed) as [H1 H2 H3]. fold ix in H1, H2, H3.
  split; [intros; by apply account_search|]. split; [intros; by apply hash_search|].
  split; [apply H1|]. split; [exact H2|exact H3].
Qed.

(** ** The replay *)

Context {St : Type} `{!StateStore St} `{!Codec SerializableBlock}.
Implicit Types e : Engine St.

Lemma load_blocks_app (s : St) from a b :
  0 <= from -> from + Z.of_nat a < u64_max ->
  load_blocks s from (a + b)
  = load_blocks s from a
    ++ (if (length (load_blocks s from a) <? a)%nat then [] else load_blocks s (from + Z.of_nat a) b).
Proof.
  revert from. induction a as [|a IH]; intros from H0 Hm; cbn [load_blocks Nat.add].
  { cbn [app length]. by replace (from + Z.of_nat 0) with from by lia. }
  destruct (st_get s (block_key from)) as [data|]; [|done]. destruct (de data) as [sb|]; [|done].
  rewrite u64_add_exact by lia. rewrite IH by lia. cbn [app length]. f_equal. f_equal.
  change (S (length (load_blocks s (from + 1) a)) <? S a)%nat with (length (load_blocks s (from + 1) a) <? a)%nat.
  by replace (from + 1 + Z.of_nat a) with (from + Z.of_nat (S a)) by lia.
Qed.

Lemma load_blocks_length (s : St) from n : (length (load_blocks s from n) <= n)%nat.
Proof.
  revert from. induction n as [|n IH]; intros from; cbn [load_blocks]; [done|].
  destruct (st_get s _); [|cbn; lia]. destruct (de _); [|cbn; lia]. cbn [length]. specialize (IH (u64_add from 1)). lia.
Qed.

(** In batches the replay indexes what one pass over the persisted blocks
    would. *)
Theorem replay_one_pass fuel e from ix :
  0 <= from -> from + Z.of_nat (fuel * REPLAY_BATCH) < u64_max ->
  replay from_utf8_lossy fuel e from ix
  = index_all from_utf8_lossy (load_blocks (en_store e) from (fuel * REPLAY_BATCH)) ix.
Proof.
  assert (Hb : (0 < REPLAY_BATCH)%nat) by (unfold REPLAY_BATCH; lia).
  revert from ix. induction fuel as [|fuel IH]; intros from ix H0 Hm; [done|]. cbn [replay Nat.mul]. cbv zeta.
  cbn [Nat.mul] in Hm. rewrite load_blocks_app by lia. pose proof (load_blocks_length (en_store e) from REPLAY_BATCH).
  set (batch := load_blocks (en_store e) from REPLAY_BATCH) in *. case_bool_decide as E.
  { rewrite E. cbn [length app]. by rewrite (proj2 (Nat.ltb_lt 0 REPLAY_BATCH)) by done. }
  destruct (Nat.ltb_spec (length batch) REPLAY_BATCH); [by rewrite app_nil_r|].
  assert (length batch = REPLAY_BATCH) as El by lia.
  rewrite El, u64_add_exact by lia. rewrite IH by lia. unfold index_all. by rewrite fold_left_app.
Qed.

(** The replay starts at height 1: on a node that has pruned that block nothing
    of the history is indexed. *)
Theorem pruned_replay_empty fuel e ix :
  st_get (en_store e) (block_key 1) = None -> replay from_utf8_lossy fuel e 1 ix = ix.
Proof.
  intros Hn. destruct fuel as [|fuel]; [done|]. cbn [replay].
  assert (load_blocks (en_store e) 1 REPLAY_BATCH = []) as ->; [|done].
  assert (Hb : (0 < REPLAY_BATCH)%nat) by (unfold REPLAY_BATCH; lia).
  destruct REPLAY_BATCH; [lia|]. cbn [load_blocks]. by rewrite Hn.
Qed.

(** An engine that went back is not indexed again: until it is higher than ever
    before, a tick does nothing, whatever its blocks are now. *)
Theorem replaced_blocks_stay e last ix : en_height e <= last -> index_tick from_utf8_lossy e (last, ix) = (last, ix).
Proof. intros Hh. unfold index_tick. cbn [fst snd]. by rewrite Z2Nat.nonpos by lia. Qed.
End blocks.
