(* ===== verification/Explorer.v ===== *)
(** The explorer's HTTP handlers ([crates/solen-indexer/src/api.rs]) and the
    sampler behind the yield of the liquid staking contract
    ([stsolen_apy.rs]). A handler is a function of the parsed parameters; one
    that fills a cache or publishes a source returns the new state. *)

From Stdlib Require Import Floats.SpecFloat.
From S2P Require Import Prelude Types Store Memory Overlay Codec State Auth Address Executor Blocks Validators Staking.
From S2P Require Import Mempool Intents Checkpoint EngineState EngineVotes Settlement Reputation Rpc RpcViews.
From S2P Require Import RpcEvents Indexer.
Open Scope Z_scope.

(** ** Floating point *)

(** [f64]: the numbers of the binary64 format, rounded to nearest even. *)
Abbreviation f64 := spec_float (only parsing).
Definition f64_of (n : Z) : f64 := binary_normalize 53 1024 n 0 false.
Definition f64_div : f64 -> f64 -> f64 := SFdiv 53 1024.
Definition f64_mul : f64 -> f64 -> f64 := SFmul 53 1024.
Definition f64_sub : f64 -> f64 -> f64 := SFsub 53 1024.
Definition is_finite (x : f64) : bool := match x with S754_zero _ | S754_finite _ _ _ => true | _ => false end.
(** [x <= 0.0], false of a NaN. *)
Definition le_zero (x : f64) : bool :=
  match x with S754_zero _ => true | S754_finite s _ _ | S754_infinity s => s | S754_nan => false end.

(** [format!("{:.1}")] of a number that is neither negative nor infinite: the
    nearest tenth, a tie to the even digit. *)
Definition tenths (x : f64) : Z :=
  match x with
  | S754_finite _ m e =>
    let num := Zpos m * 10 * 2 ^ Z.max 0 e in
    let den := 2 ^ Z.max 0 (- e) in
    let q := num / den in
    match 2 * (num mod den) ?= den with Lt => q | Gt => q + 1 | Eq => if Z.even q then q else q + 1 end
  | _ => 0
  end.
Definition format_1 (x : f64) : str := decimal (tenths x / 10) ++ chars "." ++ decimal (tenths x mod 10).

(** ** Yield samples *)

Definition SAMPLE_INTERVAL_SECS : u64 := 600.
Definition RETENTION_SECS : u64 := 31 * 24 * 60 * 60.
Definition SECONDS_PER_YEAR : f64 := f64_of 31557600.
Definition DAY_MS : u64 := 24 * 60 * 60 * 1000.
Definition STSOLEN_MAINNET_HEX : str := chars "42c227f9bd58acda8a08f1d274ba61603f08cf8f194fbdd96ad10ceb943c246b".

Record Sample : Type := mkSample { sa_ts_ms : u64; sa_pool : u128; sa_supply : u128 }.

(** The loop that drops the front of the buffer. *)
Fixpoint evict (cutoff : u64) (buf : list Sample) : list Sample :=
  match buf with
  | x :: rest => if sa_ts_ms x <? cutoff then evict cutoff rest else buf
  | [] => []
  end.
Definition apy_push (s : Sample) (buf : list Sample) : list Sample :=
  evict (sat_sub (sa_ts_ms s) (RETENTION_SECS * 1000)) buf ++ [s].
Definition apy_latest (buf : list Sample) : option Sample := last buf.
Definition at_or_before (target : u64) (buf : list Sample) : option Sample :=
  List.find (fun s => sa_ts_ms s <=? target) (rev buf).
Definition apy_oldest (buf : list Sample) : option Sample := head buf.

Definition rate_f64 (s : Sample) : f64 :=
  if sa_supply s =? 0 then S754_zero false else f64_div (f64_of (sa_pool s)) (f64_of (sa_supply s)).

Record ApyResponse : Type := mkApyResponse {
  ar_7d : option f64; ar_30d : option f64; ar_since_launch : option f64; ar_pool : str; ar_supply : str;
  ar_samples : usize; ar_oldest_ts_ms : u64;
}.

(** Milliseconds as seconds. *)
Definition secs_between (later earlier : u64) : f64 := f64_div (f64_of (sat_sub later earlier)) (f64_of 1000).

Section apy.
(** [f64::powf], whose precision the language leaves open. *)
Context (powf : f64 -> f64 -> f64).

Definition annualize (rate_now rate_then window_secs : f64) : option f64 :=
  if le_zero window_secs || le_zero rate_then || negb (is_finite rate_now) || negb (is_finite rate_then) then None
  else
  let ratio := f64_div rate_now rate_then in
  if negb (is_finite ratio) || le_zero ratio then None
  else
  let apy := f64_sub (powf ratio (f64_div SECONDS_PER_YEAR window_secs)) (f64_of 1) in
  if is_finite apy then Some apy else None.

(** The closure [window]. *)
Definition apy_window (latest : Sample) (buf : list Sample) (days : u64) : option f64 :=
  if sa_ts_ms latest <? days * DAY_MS then None
  else
  let target := sa_ts_ms latest - days * DAY_MS in
  o ← apy_oldest buf;
  if target <? sa_ts_ms o then None
  else
  s ← at_or_before target buf;
  annualize (rate_f64 latest) (rate_f64 s) (secs_between (sa_ts_ms latest) (sa_ts_ms s)).

Definition get_stsolen_apy (buf : list Sample) : ApyResponse :=
  match apy_latest buf with
  | None => mkApyResponse None None None (chars "0") (chars "0") 0 0
  | Some latest =>
    let oldest := apy_oldest buf in
    mkApyResponse (apy_window latest buf 7) (apy_window latest buf 30)
      (o ← oldest; annualize (rate_f64 latest) (rate_f64 o) (secs_between (sa_ts_ms latest) (sa_ts_ms o)))
      (decimal (sa_pool latest)) (decimal (sa_supply latest)) (length buf)
      (match oldest with Some o => sa_ts_ms o | None => 0 end)
  end.
End apy.

(** ** Parameters and replies *)

Definition MAX_PAGE_LIMIT : usize := 100.
Definition MAX_TRANSFER_SCAN : usize := Z.to_nat 2000.
Definition MAX_SOURCE_BYTES : usize := Z.to_nat (256 * 1024).
Definition RICHLIST_TTL_MS : Z := 30 * 1000.
Definition SOLEN_BASE_UNITS_PER_TOKEN : u128 := 100000000.

Record StatusResponse : Type := mkStatusResponse {
  sr_latest_height : u64; sr_total_blocks : usize; sr_total_txs : usize; sr_total_events : usize;
}.
Record EventsQuery : Type := mkEventsQuery {
  eq_limit : usize; eq_offset : usize; eq_contract : option str; eq_topic : option str;
  eq_from_height : option u64; eq_to_height : option u64;
}.
Record TransferRow : Type := mkTransferRow {
  tr_txid : str; tr_tx_hash : str; tr_block_height : u64; tr_tx_index : usize; tr_event_index : usize;
  tr_emitter : str; tr_sender : str; tr_recipient : str; tr_amount : str; tr_amount_solen : str;
  tr_fee : str; tr_fee_solen : str; tr_success : bool; tr_timestamp_ms : u64;
}.
Record ValidatorResponse : Type := mkValidatorResponse {
  vr_id : str; vr_stake : str; vr_self_stake : str; vr_delegated : str; vr_status : str;
  vr_missed_blocks : u64; vr_commission_pct : str; vr_is_genesis : bool;
}.
Record ValidatorSetResponse : Type := mkValidatorSetResponse {
  vsr_validators : list ValidatorResponse; vsr_total_active_stake : str; vsr_active_count : usize;
  vsr_total_count : usize;
}.
Record ValidatorStats : Type := mkValidatorStats {
  vst_validator : str; vst_blocks_proposed : u64; vst_last_proposed_height : u64; vst_uptime_pct : f64;
}.
Record RollupDetailResponse : Type := mkRollupDetail {
  rd_rollup : IndexedRollup; rd_total_batches : usize; rd_latest_batch : option IndexedBatch;
}.
Record RichListEntry : Type := mkRichListEntry {
  rl_rank : usize; rl_address : str; rl_balance : str; rl_staked : str; rl_total : str; rl_label : option str;
}.
Record PublishSourceRequest : Type := mkPublishRequest {
  ps_source_code : str; ps_language : option str; ps_compiler_version : option str;
}.
(** [{"success": false, "error": ..}] and [{"success": true, "verified": ..}]. *)
Inductive PublishReply : Type := PublishRefused (error : string) | Published (verified : bool).

(** ** Numbers as text *)

(** [format!("{:0>8}")]. *)
Definition pad8 (s : str) : str := replicate (8 - length s) 48 ++ s.
Definition format_solen (n : u128) : str :=
  decimal (n / SOLEN_BASE_UNITS_PER_TOKEN) ++ chars "." ++ pad8 (decimal (n mod SOLEN_BASE_UNITS_PER_TOKEN)).
Definition format_supply (raw : u128) : str :=
  let whole := raw / 100000000 in
  let frac := raw mod 100000000 in
  if frac =? 0 then decimal whole else decimal whole ++ chars "." ++ pad8 (decimal frac).

(** The data of an indexed event is ASCII, so that its positions are those of
    its characters. *)
Definition decode_u128_le_hex (hex : str) : option u128 :=
  if negb (length hex =? 32)%nat then None else from_le <$> pairs_from_hex hex.
Definition decode_transfer_data (hex : str) : option (str * u128) :=
  if (length hex <? 96)%nat then None
  else
  recipient ← pairs_from_hex (take 64 hex);
  amount ← decode_u128_le_hex (slice 64 32 hex);
  Some (account_to_base58 recipient, amount).

(** An address that parses, by [parse_address_never_panics] the only other
    outcome being an error. *)
Definition parsed (s : str) : option AccountId :=
  match parse_address s with Returned (Ok b) => Some b | _ => None end.
(** Hexadecimal and Base58 spellings are looked up as Base58. *)
Definition normalized (account : str) : str :=
  match parsed account with Some id => account_to_base58 id | None => account end.

(** ** Queries of the index *)

Definition api_status (ix : IndexStore) : StatusResponse :=
  mkStatusResponse (ix_latest_height ix) (length (ix_blocks ix)) (length (ix_transactions ix))
    (length (ix_events ix)).
Definition page_limit (limit : usize) : usize := Nat.min limit MAX_PAGE_LIMIT.
Definition api_blocks (limit offset : usize) (ix : IndexStore) : list IndexedBlock :=
  get_recent_blocks_paged (page_limit limit) offset ix.
Definition api_block (height : u64) (ix : IndexStore) : option IndexedBlock := ix_get_block height ix.
Definition api_block_txs (height : u64) (ix : IndexStore) : list IndexedTx := get_block_txs height ix.
Definition api_tx (height : u64) (index : usize) (ix : IndexStore) : option IndexedTx := get_tx height index ix.
Definition api_tx_by_hash (h : str) (ix : IndexStore) : option IndexedTx := get_tx_by_hash h ix.
Definition api_recent_txs (limit offset : usize) (ix : IndexStore) : list IndexedTx :=
  get_recent_txs_paged (page_limit limit) offset ix.
Definition api_account_txs (account : str) (limit offset : usize) (ix : IndexStore) : list IndexedTx :=
  get_account_txs_paged (normalized account) (page_limit limit) offset ix.
Definition api_events (q : EventsQuery) (ix : IndexStore) : list IndexedEvent :=
  get_events_filtered (raw ← eq_contract q; account_to_base58 <$> parsed raw) (eq_topic q) (eq_from_height q)
    (eq_to_height q) (page_limit (eq_limit q)) (eq_offset q) ix.
Definition api_token_holders (contract : str) (ix : IndexStore) : list str := get_token_holders contract ix.
Definition api_account_tokens (account : str) (ix : IndexStore) : list str := get_account_tokens (normalized account) ix.
Definition api_contracts (ix : IndexStore) : list str := get_contracts ix.
Definition api_intents (limit : usize) (ix : IndexStore) : list IndexedIntent :=
  get_recent_intents (page_limit limit) ix.
Definition api_rollups (ix : IndexStore) : list IndexedRollup := get_rollups ix.

(** The hash map is enumerated in the order of [map_to_list] here, which decides
    between validators with as many blocks. *)
Definition api_validator_stats (ix : IndexStore) : list ValidatorStats :=
  let total_blocks := Z.max (ix_latest_height ix) 1 in
  stable_sort (fun a b => vst_blocks_proposed b <=? vst_blocks_proposed a)
    (map (fun vc => mkValidatorStats (fst vc) (snd vc) (default 0 (ix_last_proposed ix !! fst vc))
            (f64_mul (f64_div (f64_of (snd vc)) (f64_of total_blocks)) (f64_of 100)))
       (map_to_list (ix_blocks_proposed ix))).

(** *** Transfers of an account *)

Definition tx_fee (tx : IndexedTx) : u128 :=
  default 0 (e ← List.find (fun e => topic_of e "fee" && (32 <=? length (ie_data e))%nat) (it_events tx);
             decode_u128_le_hex (take 32 (ie_data e))).

(** [direction]: [in], [out] or anything else. *)
Definition direction_skips (direction : str) (is_in is_out : bool) : bool :=
  if bytes_eqb direction (chars "in") then negb is_in
  else if bytes_eqb direction (chars "out") then negb is_out
  else false.

Definition transfer_row (tx : IndexedTx) (ts : u64) (ev_idx : usize) (ev : IndexedEvent) (recipient : str)
    (amount fee : u128) : TransferRow :=
  mkTransferRow
    (decimal (it_block_height tx) ++ chars "-" ++ decimal (Z.of_nat (it_index tx)) ++ chars "-"
       ++ decimal (Z.of_nat ev_idx))
    (it_tx_hash tx) (it_block_height tx) (it_index tx) ev_idx (ie_emitter ev) (it_sender tx) recipient
    (decimal amount) (format_solen amount) (decimal fee) (format_solen fee) (it_success tx) ts.

(** The rows so far, how many were skipped, and whether the handler returned. *)
Record Paging : Type := mkPaging { pg_rows : list TransferRow; pg_skipped : usize; pg_returned : bool }.

Section transfers.
Context (lookup direction : str) (limit offset : usize).

(** One event, with [fee_attributed]. *)
Definition transfer_event (tx : IndexedTx) (ts : u64) (st : Paging * bool) (iev : usize * IndexedEvent) :
    Paging * bool :=
  let '(pg, fee_attributed) := st in
  let '(ev_idx, ev) := iev in
  if pg_returned pg then st
  else if negb (topic_of ev "transfer") then st
  else
  match decode_transfer_data (ie_data ev) with
  | None => st
  | Some (recipient, amount) =>
    let is_out := bytes_eqb (it_sender tx) lookup in
    let is_in := bytes_eqb recipient lookup in
    if negb is_out && negb is_in then st
    else if direction_skips direction is_in is_out then st
    else
    let takes_fee := negb fee_attributed && bytes_eqb (ie_emitter ev) (it_sender tx) in
    let fee := if takes_fee then tx_fee tx else 0 in
    let fee_attributed := fee_attributed || takes_fee in
    if (pg_skipped pg <? offset)%nat then (mkPaging (pg_rows pg) (S (pg_skipped pg)) false, fee_attributed)
    else
    let rows := pg_rows pg ++ [transfer_row tx ts ev_idx ev recipient amount fee] in
    (mkPaging rows (pg_skipped pg) (limit <=? length rows)%nat, fee_attributed)
  end.

Definition transfer_tx (ix : IndexStore) (pg : Paging) (tx : IndexedTx) : Paging :=
  let ts := match ix_get_block (it_block_height tx) ix with Some b => ib_timestamp_ms b | None => 0 end in
  fst (fold_left (transfer_event tx ts) (imap (fun i ev => (i, ev)) (it_events tx)) (pg, false)).
End transfers.

Definition api_account_transfers (account : str) (limit offset : usize) (direction : option str) (ix : IndexStore) :
    list TransferRow :=
  let lookup := normalized account in
  let direction := default (chars "all") direction in
  let txs := get_account_txs_paged lookup MAX_TRANSFER_SCAN 0 ix in
  let limit := Nat.max (Nat.min limit MAX_PAGE_LIMIT) 1 in
  pg_rows (fold_left (transfer_tx lookup direction limit offset ix) txs (mkPaging [] 0 false)).

(** ** Queries of the engine *)

Definition system_account_label (id : AccountId) : option string :=
  if bytes_eqb id TREASURY_ADDRESS then Some "Treasury"
  else if bytes_eqb id STAKING_POOL_ADDRESS then Some "Staking Rewards Pool"
  else if bytes_eqb id ECOSYSTEM_FUND_ADDRESS then Some "Ecosystem Fund"
  else if bytes_eqb id COMMUNITY_ADDRESS then Some "Community & Airdrops"
  else if bytes_eqb id LIQUIDITY_ADDRESS then Some "Liquidity & Market Making"
  else if bytes_eqb id TEAM_POOL_ADDRESS then Some "Team Vesting Pool"
  else if bytes_eqb id INVESTOR_POOL_ADDRESS then Some "Investor Pool"
  else if bytes_eqb id BRIDGE_ADDRESS then Some "Bridge Vault"
  else if bytes_eqb id VESTING_ADDRESS then Some "Vesting Contract"
  else None.

(** An account with its balance and its own stake. *)
Abbreviation RichRow := (AccountId * u128 * u128)%type (only parsing).
Definition rich_total (r : RichRow) : u128 := u128_add (snd (fst r)) (snd r).
Definition richlist_page (accounts : list RichRow) (offset limit : usize) : list RichListEntry :=
  imap (fun i (r : RichRow) =>
    let '(id, bal, staked) := r in
    mkRichListEntry (offset + i + 1) (account_to_base58 id) (decimal bal) (decimal staked)
      (decimal (u128_add bal staked))
      (match system_account_label id with
       | Some l => Some (chars l)
       | None => if 0 <? staked then Some (chars "Validator") else None
       end))
    (take limit (drop offset accounts)).

(** The rows of the index that the registry of the engine stands in for. *)
Definition registry_batch (b : VerifiedBatch) : IndexedBatch :=
  mkIndexedBatch (vb_rollup_id b) (vb_batch_index b) (chars (hex_encode (vb_state_root b)))
    (chars (hex_encode (vb_data_hash b))) true 0 0.

Definition set_sources (m : gmap str ContractSource) (ix : IndexStore) : IndexStore :=
  mkIndexStore (ix_blocks ix) (ix_transactions ix) (ix_events ix) (ix_tx_by_hash ix) (ix_account_txs ix)
    (ix_account_tokens ix) (ix_token_holders ix) (ix_contracts ix) m (ix_fulfilled_intents ix) (ix_rollups ix)
    (ix_rollup_batches ix) (ix_blocks_proposed ix) (ix_last_proposed ix) (ix_latest_height ix).
Definition add_source (code_hash : str) (src : ContractSource) (ix : IndexStore) : IndexStore :=
  set_sources (<[code_hash := src]> (ix_contract_sources ix)) ix.

(** [eq_ignore_ascii_case]. *)
Definition eq_ignore_case (a b : str) : bool := bytes_eqb (map to_ascii_lowercase a) (map to_ascii_lowercase b).
Definition source_compile_enabled (var : option str) : bool :=
  match var with Some v => bytes_eqb v (chars "1") || eq_ignore_case v (chars "true") | None => false end.

(** [trim_start_matches("0x")]. *)
Fixpoint trim_0x (s : str) : str := match s with 48 :: 120 :: rest => trim_0x rest | _ => s end.

Section engine.
Context {crypto : Crypto} {St : Type} `{!StateStore St} `{!Codec Account} `{!Codec StakingContract}
  `{!Codec ContractSource}.
Implicit Types (e : Engine St) (reg : ProofVerifierRegistry) (s : St).

(** The registry of the verifiers is a field of the engine of its own. *)
Record ApiState : Type := mkApiState {
  ap_store : IndexStore;
  ap_engine : option (Engine St * ProofVerifierRegistry);
  ap_stsolen_apy : list Sample;
  ap_richlist_cache : option (Instant * list RichRow);
}.
Definition with_store (ix : IndexStore) (a : ApiState) : ApiState :=
  mkApiState ix (ap_engine a) (ap_stsolen_apy a) (ap_richlist_cache a).
Definition with_engine (er : option (Engine St * ProofVerifierRegistry)) (a : ApiState) : ApiState :=
  mkApiState (ap_store a) er (ap_stsolen_apy a) (ap_richlist_cache a).
Definition with_richlist (c : option (Instant * list RichRow)) (a : ApiState) : ApiState :=
  mkApiState (ap_store a) (ap_engine a) (ap_stsolen_apy a) c.

Definition validator_status (s : ValidatorStatus) : string :=
  match s with VActive => "Active" | VJailed => "Jailed" | VExiting => "Exiting" end.
Definition api_validators (a : ApiState) : ValidatorSetResponse :=
  match ap_engine a with
  | None => mkValidatorSetResponse [] (chars "0") 0 0
  | Some (e, _) =>
    let vs := en_validator_set e in
    let staking := staking_load (en_store e) in
    let rows := map (fun v =>
      let info := Staking.get_validator (vi_id v) staking in
      let commission_bps := match info with Some i => commission_rate_bps i | None => 1000 end in
      mkValidatorResponse (account_to_base58 (vi_id v)) (decimal (vi_stake v))
        (decimal (match info with Some i => self_stake i | None => vi_stake v end))
        (decimal (match info with Some i => total_delegated i | None => 0 end))
        (chars (validator_status (vi_status v))) (vi_missed_blocks v)
        (format_1 (f64_div (f64_of commission_bps) (f64_of 100)) ++ chars "%")
        (match info with Some i => is_genesis i | None => false end)) vs in
    mkValidatorSetResponse rows (decimal (vs_total_active_stake vs)) (vs_active_count vs) (length rows)
  end.

Definition api_rollup (rollup_id : u64) (a : ApiState) : option RollupDetailResponse :=
  let ix := ap_store a in
  match get_rollup rollup_id ix with
  | None => None
  | Some rollup =>
    let total := get_rollup_batch_count rollup_id ix in
    let latest := head (ix_rollup_batches_of rollup_id 1 ix) in
    let '(total, latest) :=
      if (total =? 0)%nat then
        match ap_engine a with
        | Some (_, reg) => (batch_count reg rollup_id,
            match head (get_verified_batches reg rollup_id 1) with
            | Some b => Some (registry_batch b)
            | None => latest
            end)
        | None => (total, latest)
        end
      else (total, latest) in
    Some (mkRollupDetail rollup total latest)
  end.

Definition api_rollup_batches (rollup_id : u64) (limit : usize) (a : ApiState) : list IndexedBatch :=
  let limit := page_limit limit in
  let indexed := ix_rollup_batches_of rollup_id limit (ap_store a) in
  if negb (bool_decide (indexed = [])) then indexed
  else
  match ap_engine a with
  | Some (_, reg) => map registry_batch (get_verified_batches reg rollup_id limit)
  | None => []
  end.

(** *** Supply *)

Definition non_circ_addrs : list AccountId :=
  [TREASURY_ADDRESS; STAKING_POOL_ADDRESS; ECOSYSTEM_FUND_ADDRESS; COMMUNITY_ADDRESS; LIQUIDITY_ADDRESS;
   TEAM_POOL_ADDRESS; INVESTOR_POOL_ADDRESS; BRIDGE_ADDRESS; VESTING_ADDRESS].
Definition supply_total s : u128 := default 0 (rpc_config_u128 s (bytes_of_string "__total_supply__")).
Definition circulating s : u128 :=
  let non_circ := u128_sum (map (fun a => match get_balance s a with Ok b => b | Err _ => 0 end) non_circ_addrs) in
  let total_staked := u128_sum (map total_stake (validators (staking_load s))) in
  sat_sub (sat_sub (supply_total s) non_circ) total_staked.
Definition api_total_supply (a : ApiState) : str :=
  match ap_engine a with Some (e, _) => format_supply (supply_total (en_store e)) | None => chars "0" end.
Definition api_circulating_supply (a : ApiState) : str :=
  match ap_engine a with Some (e, _) => format_supply (circulating (en_store e)) | None => chars "0" end.

(** *** The rich list *)

Definition rich_row (staking : StakingContract) (kv : bytes * bytes) : option RichRow :=
  if negb (length (fst kv) =? 36)%nat then None
  else
  match de (snd kv) with
  | Some account =>
    let id := drop 4 (fst kv) in
    let staked := match List.find (has_id id) (validators staking) with Some v => self_stake v | None => 0 end in
    if 0 <? u128_add (balance account) staked then Some (id, balance account, staked) else None
  | None => None
  end.
Definition rich_rows s : list RichRow :=
  stable_sort (fun a b => rich_total b <=? rich_total a)
    (omap (rich_row (staking_load s)) (st_scan_prefix s (bytes_of_string "acc/"))).

Definition api_richlist (now : Instant) (limit offset : usize) (a : ApiState) : ApiState * list RichListEntry :=
  let limit := Nat.min limit 100 in
  let rebuild :=
    match ap_engine a with
    | None => (a, [])
    | Some (e, _) =>
      let accounts := rich_rows (en_store e) in
      (with_richlist (Some (now, accounts)) a, richlist_page accounts offset limit)
    end in
  match ap_richlist_cache a with
  | Some (built, accounts) =>
    if sat_sub now built <? RICHLIST_TTL_MS then (a, richlist_page accounts offset limit) else rebuild
  | None => rebuild
  end.

(** *** Published sources *)

Definition source_key (code_hash : str) : bytes := bytes_of_string "source/" ++ str_bytes code_hash.

Definition api_contract_source (code_hash : str) (a : ApiState) : ApiState * option ContractSource :=
  match ix_contract_sources (ap_store a) !! code_hash with
  | Some src => (a, Some src)
  | None =>
    match ap_engine a with
    | None => (a, None)
    | Some (e, _) =>
      match st_get (en_store e) (source_key code_hash) with
      | None => (a, None)
      | Some data =>
        match de data with
        | Some src => (with_store (add_source code_hash src (ap_store a)) a, Some src)
        | None => (a, None)
        end
      end
    end
  end.

Definition contract_bytecode_exists (code_hash : str) (a : ApiState) : bool :=
  match ap_engine a, parsed code_hash with
  | Some (e, _), Some hash => bool_decide (is_Some (st_get (en_store e) (bytecode_key hash)))
  | _, _ => false
  end.

(** What [cargo build] makes of a source. *)
Context (compile : str -> option bytes).

Definition verify_rust_contract (source_code expected_hash : str) : bool :=
  match compile source_code with
  | None => false
  | Some wasm => bytes_eqb (chars (hex_encode (blake3 wasm))) expected_hash
  end.

Definition publish_error (now_secs : u64) (code_hash : str) (body : PublishSourceRequest) (a : ApiState) :
    option string :=
  if negb (str_len code_hash =? 64)%nat || negb (forallb is_ascii_hexdigit code_hash)
  then Some "invalid code_hash format"
  else if (MAX_SOURCE_BYTES <? str_len (ps_source_code body))%nat then Some "source too large"
  else if negb (contract_bytecode_exists code_hash a) then Some "no deployed contract with this code_hash"
  else
  match ix_contract_sources (ap_store a) !! code_hash with
  | Some existing =>
    if sat_sub now_secs (cs_published_at existing) <? 3600 then Some "source already published recently" else None
  | None => None
  end.

(** The value of the environment variable that enables compilation, whether the
    lock of the compiler is free, and the clock, read for the limit and again for
    the record. *)
Definition api_publish (env : option str) (lock_free : bool) (now_secs now2 : u64) (code_hash : str)
    (body : PublishSourceRequest) (a : ApiState) : ApiState * PublishReply :=
  match publish_error now_secs code_hash body a with
  | Some err => (a, PublishRefused err)
  | None =>
    let language := default (chars "rust") (ps_language body) in
    let compiler_version := default (chars "unknown") (ps_compiler_version body) in
    let verified :=
      if bytes_eqb language (chars "rust") && source_compile_enabled env && contract_bytecode_exists code_hash a
      then (if lock_free then verify_rust_contract (ps_source_code body) code_hash else false)
      else false in
    let source := mkContractSource code_hash (ps_source_code body) language compiler_version now2 verified in
    let a := with_store (add_source code_hash source (ap_store a)) a in
    let a := match ap_engine a with
             | Some (e, reg) =>
               match ser source with
               | Some data => with_engine (Some (set_store (st_put (en_store e) (source_key code_hash) data) e, reg)) a
               | None => a
               end
             | None => a
             end in
    (a, Published verified)
  end.

(** ** The sampler *)

(** [hex::decode] of the hex crate. *)
Context (hex_decode_crate : str -> option bytes).

Definition apy_read_u128 s (key : bytes) : option u128 :=
  data ← st_get s key; if (16 <=? length data)%nat then Some (from_le (take 16 data)) else None.
Definition read_sample (now : u64) e (contract : AccountId) : option Sample :=
  pool ← apy_read_u128 (en_store e) (contract_storage_key contract (bytes_of_string "total_pooled_solen"));
  supply ← apy_read_u128 (en_store e) (contract_storage_key contract (bytes_of_string "total_supply"));
  Some (mkSample now pool supply).
Definition parse_addr (hex : str) : option AccountId :=
  raw ← hex_decode_crate (trim_0x hex); if (length raw =? 32)%nat then Some raw else None.

(** One tick of the task. *)
Definition sampler_tick (now : u64) (a : ApiState) : ApiState :=
  match ap_engine a, parse_addr STSOLEN_MAINNET_HEX with
  | Some (e, _), Some contract =>
    match read_sample now e contract with
    | Some s => mkApiState (ap_store a) (ap_engine a) (apy_push s (ap_stsolen_apy a)) (ap_richlist_cache a)
    | None => a
    end
  | _, _ => a
  end.

Definition start_explorer_api (ix : IndexStore) (er : option (Engine St * ProofVerifierRegistry)) : ApiState :=
  mkApiState ix er [] None.
End engine.
