(* ===== verification/ExplorerLaws.v ===== *)
(** What the explorer's handlers answer: transfers page by page against the
    whole history, the rich list against the accounts, published sources,
    supply, and the yield samples. *)

From S2P Require Import Prelude Types Store Memory Overlay Codec State Auth Address Executor Blocks Validators Staking.
From S2P Require Import Mempool Intents Checkpoint EngineState EngineVotes EngineRecovery Settlement Reputation.
From S2P Require Import Rpc RpcViews RpcEvents Indexer IndexerLaws Explorer.
Open Scope Z_scope.

(** ** Transfers *)

Section transfers.
Context (lookup direction : str).

(** The row of an event, and whether the fee went to it or before: the handler
    without its paging. *)
Definition event_row (tx : IndexedTx) (ts : u64) (fee_attributed : bool) (iev : usize * IndexedEvent) :
    option (TransferRow * bool) :=
  let '(i, ev) := iev in
  if negb (topic_of ev "transfer") then None
  else
  match decode_transfer_data (ie_data ev) with
  | None => None
  | Some (recipient, amount) =>
    let is_out := bytes_eqb (it_sender tx) lookup in
    let is_in := bytes_eqb recipient lookup in
    if (negb is_out && negb is_in) || direction_skips direction is_in is_out then None
    else
    let takes_fee := negb fee_attributed && bytes_eqb (ie_emitter ev) (it_sender tx) in
    Some (transfer_row tx ts i ev recipient amount (if takes_fee then tx_fee tx else 0), fee_attributed || takes_fee)
  end.

Fixpoint event_rows (tx : IndexedTx) (ts : u64) (fee_attributed : bool) (evs : list (usize * IndexedEvent)) :
    list TransferRow :=
  match evs with
  | [] => []
  | iev :: evs =>
    match event_row tx ts fee_attributed iev with
    | Some (r, f) => r :: event_rows tx ts f evs
    | None => event_rows tx ts fee_attributed evs
    end
  end.

Definition timestamp_of (ix : IndexStore) (height : u64) : u64 :=
  match ix_get_block height ix with Some b => ib_timestamp_ms b | None => 0 end.
Definition tx_rows (ix : IndexStore) (tx : IndexedTx) : list TransferRow :=
  event_rows tx (timestamp_of ix (it_block_height tx)) false (imap (fun i ev => (i, ev)) (it_events tx)).

Context (limit offset : usize) (limit_pos : (0 < limit)%nat).

(** Where the loop is once it has seen the rows [R]. *)
Definition paging_of (R : list TransferRow) : Paging :=
  mkPaging (take limit (drop offset R)) (Nat.min offset (length R)) (offset + limit <=? length R)%nat.

Lemma paging_returned R r : pg_returned (paging_of R) = true -> paging_of (R ++ r) = paging_of R.
Proof.
  cbn [paging_of pg_returned]. intros H%Nat.leb_le. unfold paging_of. rewrite length_app, drop_app_le by lia.
  rewrite take_app_le by (rewrite length_drop; lia). f_equal; [lia|]. apply eq_bool_prop_intro. split; intros _.
  - apply Is_true_true, Nat.leb_le. lia.
  - apply Is_true_true, Nat.leb_le. lia.
Qed.

Lemma paging_row R r :
  pg_returned (paging_of R) = false ->
  paging_of (R ++ [r])
  = if (pg_skipped (paging_of R) <? offset)%nat then mkPaging (pg_rows (paging_of R)) (S (pg_skipped (paging_of R))) false
    else let rows := pg_rows (paging_of R) ++ [r] in
         mkPaging rows (pg_skipped (paging_of R)) (limit <=? length rows)%nat.
Proof.
  cbn [paging_of pg_returned pg_skipped pg_rows]. intros H%Nat.leb_gt. unfold paging_of. rewrite length_app.
  cbn [length]. destruct (Nat.ltb_spec (Nat.min offset (length R)) offset) as [Ho|Ho].
  - rewrite !drop_ge by (rewrite ?length_app; cbn; lia). rewrite take_nil. f_equal; [lia|].
    apply Nat.leb_gt. lia.
  - rewrite drop_app_le by lia. rewrite (take_ge (drop offset R)) by (rewrite length_drop; lia).
    rewrite take_ge by (rewrite length_app, length_drop; cbn; lia). f_equal; [lia|].
    rewrite length_app, length_drop. cbn [length]. destruct (Nat.leb_spec (offset + limit) (length R + 1)).
    + symmetry. apply Nat.leb_le. lia.
    + symmetry. apply Nat.leb_gt. lia.
Qed.

Lemma transfer_event_row tx ts R f iev :
  pg_returned (paging_of R) = false ->
  transfer_event lookup direction limit offset tx ts (paging_of R, f) iev
  = match event_row tx ts f iev with
    | Some (r, f') => (paging_of (R ++ [r]), f')
    | None => (paging_of R, f)
    end.
Proof.
  intros Hr. destruct iev as [i ev]. unfold transfer_event, event_row. rewrite Hr.
  destruct (negb (topic_of ev "transfer")); [done|]. destruct (decode_transfer_data (ie_data ev)) as [[rc am]|]; [|done].
  cbv zeta. destruct (negb _ && negb _); [done|]. cbn [orb]. destruct (direction_skips _ _ _); [done|].
  rewrite paging_row by done. cbv zeta. by destruct (_ <? offset)%nat.
Qed.

Lemma transfer_event_returned tx ts pg f iev :
  pg_returned pg = true -> transfer_event lookup direction limit offset tx ts (pg, f) iev = (pg, f).
Proof. intros Hr. destruct iev as [i ev]. unfold transfer_event. by rewrite Hr. Qed.

Lemma transfer_events_rows tx ts evs R f :
  fst (fold_left (transfer_event lookup direction limit offset tx ts) evs (paging_of R, f))
  = paging_of (R ++ event_rows tx ts f evs).
Proof.
  revert R f. induction evs as [|iev evs IH]; intros R f; cbn [fold_left event_rows]; [by rewrite app_nil_r|].
  destruct (pg_returned (paging_of R)) eqn:Hr.
  - rewrite transfer_event_returned, IH, !paging_returned by done. done.
  - rewrite transfer_event_row by done. destruct (event_row tx ts f iev) as [[r f']|]; rewrite IH; [|done].
    by rewrite <- app_assoc.
Qed.

Lemma transfer_txs_rows ix txs R :
  fold_left (transfer_tx lookup direction limit offset ix) txs (paging_of R)
  = paging_of (R ++ flat_map (tx_rows ix) txs).
Proof.
  revert R. induction txs as [|tx txs IH]; intros R; cbn [fold_left flat_map]; [by rewrite app_nil_r|].
  unfold transfer_tx at 2. fold (timestamp_of ix (it_block_height tx)). rewrite transfer_events_rows, IH.
  by rewrite <- app_assoc.
Qed.
End transfers.

(** The rows that all pages of an account are taken from. *)
Definition transfer_rows (account : str) (direction : option str) (ix : IndexStore) : list TransferRow :=
  flat_map (tx_rows (normalized account) (default (chars "all") direction) ix)
    (get_account_txs_paged (normalized account) MAX_TRANSFER_SCAN 0 ix).

(** A page is that part of one list of rows, so that pages neither repeat nor
    lose a transfer. *)
Theorem transfers_paged account limit offset direction ix :
  api_account_transfers account limit offset direction ix
  = take (Nat.max (Nat.min limit MAX_PAGE_LIMIT) 1) (drop offset (transfer_rows account direction ix)).
Proof.
  unfold api_account_transfers, transfer_rows. cbv zeta. set (l := Nat.max _ 1).
  assert (Hl : (0 < l)%nat) by lia.
  assert (E : mkPaging [] 0 false = paging_of l offset []).
  { unfold paging_of. rewrite drop_nil, take_nil. f_equal; [cbn; lia|]. symmetry. apply Nat.leb_gt. cbn. lia. }
  rewrite E, transfer_txs_rows by done. done.
Qed.

Definition takes_fee (r : TransferRow) : bool := negb (bytes_eqb (tr_fee r) (decimal 0)).

Lemma event_rows_fee lookup direction tx ts f evs :
  (length (List.filter takes_fee (event_rows lookup direction tx ts f evs)) <= (if f then 0 else 1))%nat.
Proof.
  assert (E0 : takes_fee = fun r => negb (bytes_eqb (tr_fee r) (decimal 0))) by done.
  revert f. induction evs as [|iev evs IH]; intros f; cbn [event_rows]; [destruct f; cbn; lia|].
  destruct (event_row _ _ _ _ _ iev) as [[r f']|] eqn:E; [|apply IH]. specialize (IH f').
  destruct iev as [i ev]. unfold event_row in E. destruct (negb (topic_of _ _)); [done|].
  destruct (decode_transfer_data _) as [[rc am]|]; [|done]. cbv zeta in E. destruct (_ || _); [done|].
  injection E as Er Ef. cbn [List.filter]. destruct f; cbn [negb andb orb] in *.
  - assert (takes_fee r = false) as ->; [|by subst f'].
    rewrite <- Er. unfold takes_fee. cbn [transfer_row tr_fee]. by rewrite bytes_eqb_refl.
  - destruct (bytes_eqb (ie_emitter ev) (it_sender tx)).
    + subst f'. destruct (takes_fee r); cbn [length]; lia.
    + subst f'. assert (takes_fee r = false) as ->; [|done].
      rewrite <- Er. unfold takes_fee. cbn [transfer_row tr_fee]. by rewrite bytes_eqb_refl.
Qed.

(** At most one row of a transaction carries its fee. *)
Theorem fee_attributed_once lookup direction ix tx :
  (length (List.filter takes_fee (tx_rows lookup direction ix tx)) <= 1)%nat.
Proof. apply event_rows_fee. Qed.

Lemma event_rows_tx lookup direction tx ts f evs r :
  r ∈ event_rows lookup direction tx ts f evs -> tr_block_height r = it_block_height tx /\ tr_tx_index r = it_index tx.
Proof.
  revert f. induction evs as [|[i ev] evs IH]; intros f; cbn [event_rows]; [by intros ?%elem_of_nil|].
  destruct (event_row _ _ _ _ _ (i, ev)) as [[r1 f']|] eqn:E; [|apply IH].
  intros [->|Hr]%elem_of_cons; [|by eapply IH].
  unfold event_row in E. destruct (negb (topic_of _ _)); [done|].
  destruct (decode_transfer_data _) as [[rc am]|]; [|done]. cbv zeta in E. destruct (_ || _); [done|].
  by injection E as <- _.
Qed.

Section history.
Context {crypto : Crypto} `{!Codec BlockHeader} (from_utf8_lossy : bytes -> str).

(** The transactions that involve an account, newest first. *)
Definition account_history (account : str) (bs : list FinalizedBlock) : list IndexedTx :=
  rev (map fst (List.filter (involves (normalized account)) (history from_utf8_lossy bs))).

(** C24: the explorer against the chain, whatever blocks were indexed. A page of
    an account, spelt in Base58 or hexadecimal, is that page, of at most 100, of
    all transactions that involve it, newest first; the transaction of a hash is
    the newest one with it in the whole history. A page of the account's
    transfers is that page of the transfers among its newest 2,000 transactions
    only: older ones are on no page. The block and event rings are the newest
    20,000 blocks and 200,000 events. *)
Theorem explorer_exact bs :
  let ix := index_all from_utf8_lossy bs index_new in
  (forall account limit offset, api_account_txs account limit offset ix
     = take (page_limit limit) (drop offset (account_history account bs)))
  /\ (forall account limit offset direction, api_account_transfers account limit offset direction ix
     = take (Nat.max (page_limit limit) 1) (drop offset
         (flat_map (tx_rows (normalized account) (default (chars "all") direction) ix)
            (take MAX_TRANSFER_SCAN (account_history account bs)))))
  /\ (forall h, map to_ascii_lowercase (strip_0x h) <> [] ->
      api_tx_by_hash h ix = last (map fst (List.filter (has_hash (map to_ascii_lowercase (strip_0x h)))
        (history from_utf8_lossy bs))))
  /\ ix_transactions ix = map fst (history from_utf8_lossy bs)
  /\ ix_blocks ix = newest MAX_INDEXED_BLOCKS (map block_summary bs)
  /\ ix_events ix = newest MAX_INDEXED_EVENTS (events_of (history from_utf8_lossy bs)).
Proof.
  intros ix. destruct (index_exact from_utf8_lossy bs) as (Ha & Hh & Ht & Hb & He).
  split; [intros; apply Ha|]. split; [|split; [intros; by apply Hh|done]].
  intros account limit offset direction. rewrite transfers_paged. unfold transfer_rows. by rewrite Ha.
Qed.

(** Transfers are those of the newest 2,000 transactions of the account: one that
    is older is on no page, however large the offset. *)
Theorem old_transfers_unreachable account limit offset direction bs r :
  r ∈ api_account_transfers account limit offset direction (index_all from_utf8_lossy bs index_new) ->
  exists tx, tr_block_height r = it_block_height tx /\ tr_tx_index r = it_index tx
    /\ tx ∈ take MAX_TRANSFER_SCAN (account_history account bs).
Proof.
  intros Hr. rewrite transfers_paged in Hr. apply elem_of_take in Hr as (k & Hr & _).
  rewrite lookup_drop in Hr. apply list_elem_of_lookup_2, list_elem_of_In, in_flat_map in Hr as (tx & Hx & Hr).
  exists tx. apply list_elem_of_In in Hr. apply event_rows_tx in Hr as [H1 H2]. split; [done|]. split; [done|].
  destruct (index_exact from_utf8_lossy bs) as (Ha & _). rewrite Ha, drop_0 in Hx. by apply list_elem_of_In.
Qed.
End history.

(** ** Supply *)

Section supply.
Context {St : Type} `{!StateStore St} `{!Codec Account} `{!Codec StakingContract}.
Implicit Types s : St.

Definition held_by s (a : AccountId) : u128 := match get_balance s a with Ok b => b | Err _ => 0 end.

(** The explorer counts the accounts of the staking, governance and intent
    contracts as circulating, the RPC server does not: its number is smaller by
    what they hold. *)
Theorem circulations_differ s :
  (forall a, 0 <= held_by s a) -> sumZ (map (held_by s) non_circulating_addresses) <= u128_max ->
  0 <= u128_sum (map total_stake (validators (staking_load s))) ->
  total_circulation s
  = sat_sub (circulating s) (sumZ (map (held_by s) [STAKING_ADDRESS; GOVERNANCE_ADDRESS; INTENT_ADDRESS])).
Proof.
  intros Hb Hs Ht. unfold total_circulation, circulating, supply_total. fold (held_by s). cbv zeta.
  assert (Hf : forall l, Forall (fun x => 0 <= x) (map (held_by s) l)).
  { intros l. apply Forall_fmap, Forall_forall. intros a _. apply Hb. }
  assert (E : sumZ (map (held_by s) non_circulating_addresses)
    = sumZ (map (held_by s) non_circ_addrs)
      + sumZ (map (held_by s) [STAKING_ADDRESS; GOVERNANCE_ADDRESS; INTENT_ADDRESS])).
  { unfold non_circulating_addresses, non_circ_addrs. cbn [map sumZ]. lia. }
  pose proof (sumZ_nonneg _ (Hf non_circ_addrs)). pose proof (sumZ_nonneg _ (Hf [STAKING_ADDRESS; GOVERNANCE_ADDRESS; INTENT_ADDRESS])).
  rewrite (u128_sum_exact (map (held_by s) non_circulating_addresses)) by (apply Hf || lia).
  rewrite (u128_sum_exact (map (held_by s) non_circ_addrs)) by (apply Hf || lia).
  unfold sat_sub. lia.
Qed.
End supply.

(** ** The rich list *)

Section richlist.
Context {St : Type} `{!StateStore St} `{!StateStoreScanLaws St} `{!Codec Account} `{!Codec StakingContract}.
Implicit Types (s : St) (a : ApiState (St := St)).

(** The own stake of an account that validates. *)
Definition staked_of s (id : AccountId) : u128 :=
  match List.find (has_id id) (validators (staking_load s)) with Some v => self_stake v | None => 0 end.

(** The list has exactly the accounts of the store that own or stake something,
    with what they own and stake. *)
Theorem richlist_complete s id bal staked :
  st_inv s -> length id = 32%nat ->
  (id, bal, staked) ∈ rich_rows s
  <-> exists data account, st_get s (account_key id) = Some data /\ de data = Some account /\ bal = balance account
      /\ staked = staked_of s id /\ 0 < u128_add bal staked.
Proof.
  intros Hs Hid. unfold rich_rows. rewrite stable_sort_perm, list_elem_of_omap. split.
  - intros ([k data] & Hk & Hr). apply scan_prefix_spec in Hk as [[rest ->]%starts_with_spec Hg]; [|done].
    unfold rich_row in Hr. cbn [fst snd] in Hr. destruct (negb _); [done|].
    destruct (de data) as [account|] eqn:Ed; [|done]. change (drop 4 (bytes_of_string "acc/" ++ rest)) with rest in Hr.
    fold (staked_of s rest) in Hr. destruct (Z.ltb_spec 0 (u128_add (balance account) (staked_of s rest))); [|done].
    injection Hr as -> <- <-. by exists data, account.
  - intros (data & account & Hg & Ed & -> & -> & Hp). exists (account_key id, data). split.
    + apply scan_prefix_spec; [done|]. split; [apply starts_with_app|done].
    + unfold rich_row. cbn [fst snd]. rewrite Ed. change (account_key id) with (bytes_of_string "acc/" ++ id).
      rewrite length_app, Hid. change (negb (length (bytes_of_string "acc/") + 32 =? 36)%nat) with false. change (drop 4 (bytes_of_string "acc/" ++ id)) with id.
      fold (staked_of s id). destruct (Z.ltb_spec 0 (u128_add (balance account) (staked_of s id))); [done|lia].
Qed.

(** It is sorted by what an account owns and stakes. *)
Theorem richlist_sorted s : StronglySorted (fun x y => (rich_total y <=? rich_total x) = true) (rich_rows s).
Proof.
  apply stable_sort_sorted.
  - intros x y. destruct (Z.leb_spec (rich_total y) (rich_total x)); [by left|right]. apply Z.leb_le. lia.
  - intros x y z Hxy%Z.leb_le Hyz%Z.leb_le. apply Z.leb_le. lia.
Qed.

Lemma fresh_cache now limit offset a built accounts :
  ap_richlist_cache a = Some (built, accounts) -> now < built + RICHLIST_TTL_MS ->
  api_richlist now limit offset a = (a, richlist_page accounts offset (Nat.min limit 100)).
Proof.
  intros Hc Hn. unfold api_richlist. rewrite Hc.
  assert ((sat_sub now built <? RICHLIST_TTL_MS) = true) as ->; [|done].
  apply Z.ltb_lt. unfold sat_sub, RICHLIST_TTL_MS in *. lia.
Qed.

(** Until the list is 30 seconds old, all pages are pages of one list. *)
Theorem richlist_pages_consistent now limit offset a e reg :
  ap_engine a = Some (e, reg) ->
  exists built accounts,
    ap_richlist_cache (fst (api_richlist now limit offset a)) = Some (built, accounts)
    /\ snd (api_richlist now limit offset a) = richlist_page accounts offset (Nat.min limit 100)
    /\ (forall now' limit' offset', now' < built + RICHLIST_TTL_MS ->
        snd (api_richlist now' limit' offset' (fst (api_richlist now limit offset a)))
        = richlist_page accounts offset' (Nat.min limit' 100)).
Proof.
  intros He.
  assert (H : exists built accounts, ap_richlist_cache (fst (api_richlist now limit offset a)) = Some (built, accounts)
    /\ snd (api_richlist now limit offset a) = richlist_page accounts offset (Nat.min limit 100)).
  { unfold api_richlist. rewrite He. destruct (ap_richlist_cache a) as [[b l]|] eqn:Ec; [|by eexists _, _].
    destruct (_ <? _); [|by eexists _, _]. by exists b, l. }
  destruct H as (built & accounts & Hc & Hp). exists built, accounts. split; [done|]. split; [done|].
  intros now' limit' offset' Hn. by rewrite (fresh_cache _ _ _ _ _ _ Hc Hn).
Qed.
End richlist.

(** ** Published sources *)

Section sources.
Context {crypto : Crypto} {St : Type} `{!StateStore St} `{!StateStoreLaws St} `{!Codec ContractSource}
  `{!CodecLaws ContractSource} (compile : str -> option bytes).
Implicit Types a : ApiState (St := St).

Lemma source_key_non_state h : is_non_state_key (source_key h) = true.
Proof.
  unfold is_non_state_key, source_key. rewrite (starts_with_app (bytes_of_string "source/")), ?orb_true_r. done.
Qed.

Lemma publish_error_none now code_hash body a :
  publish_error now code_hash body a = None ->
  contract_bytecode_exists code_hash a = true /\ (str_len (ps_source_code body) <= MAX_SOURCE_BYTES)%nat
  /\ forall src, ix_contract_sources (ap_store a) !! code_hash = Some src -> 3600 <= sat_sub now (cs_published_at src).
Proof.
  unfold publish_error. destruct (_ || _); [done|]. destruct (Nat.ltb_spec MAX_SOURCE_BYTES (str_len (ps_source_code body))); [done|].
  destruct (contract_bytecode_exists code_hash a); [|done]. cbn [negb]. intros Hl. split; [done|]. split; [lia|].
  intros src Hs. rewrite Hs in Hl. by destruct (Z.ltb_spec (sat_sub now (cs_published_at src)) 3600).
Qed.

(** What was published, with the answer whether it compiles to the code. *)
Definition published (env : option str) (lock_free : bool) (now : u64) (code_hash : str) (body : PublishSourceRequest)
    (verified : bool) : ContractSource :=
  mkContractSource code_hash (ps_source_code body) (default (chars "rust") (ps_language body))
    (default (chars "unknown") (ps_compiler_version body)) now verified.

(** A source is stored only for code that is deployed, called verified only if it
    compiles to it, served from then on and also after a restart, and outside
    the state: the root that validators sign does not change. A refused source
    changes nothing. *)
Theorem source_published env lock_free now now2 code_hash body a e reg :
  ap_engine a = Some (e, reg) ->
  match api_publish compile env lock_free now now2 code_hash body a with
  | (a', PublishRefused _) => a' = a
  | (a', Published v) =>
    let src := published env lock_free now2 code_hash body v in
    (exists hash, parsed code_hash = Some hash /\ is_Some (st_get (en_store e) (bytecode_key hash)))
    /\ (v = true -> exists wasm, compile (ps_source_code body) = Some wasm /\ chars (hex_encode (blake3 wasm)) = code_hash)
    /\ snd (api_contract_source code_hash a') = Some src
    /\ exists e', ap_engine a' = Some (e', reg) /\ state_eq (en_store e') (en_store e)
       /\ snd (api_contract_source code_hash (start_explorer_api index_new (Some (e', reg)))) = Some src
  end.
Proof.
  intros He. unfold api_publish. destruct (publish_error now code_hash body a) as [err|] eqn:Ep; [done|].
  apply publish_error_none in Ep as (Hc & _ & _). cbv zeta. set (v := if _ && _ && _ then _ else false).
  set (src := mkContractSource _ _ _ _ _ v). destruct (ser_de src) as (data & Hser & Hde).
  cbn [with_store ap_engine]. rewrite He, Hser. cbv zeta. change (published env lock_free now2 code_hash body v) with src.
  split; [|split; [|split]].
  - unfold contract_bytecode_exists in Hc. rewrite He in Hc. destruct (parsed code_hash) as [hash|]; [|done].
    exists hash. split; [done|]. by apply bool_decide_eq_true in Hc.
  - unfold v, verify_rust_contract. destruct (_ && _ && _); [|done]. destruct lock_free; [|done].
    destruct (compile _) as [wasm|]; [|done]. intros Hv%bytes_eqb_true. by exists wasm.
  - unfold api_contract_source. cbn [with_engine with_store ap_store add_source set_sources ix_contract_sources].
    by rewrite lookup_insert_eq.
  - eexists. split; [reflexivity|]. split.
    + change (en_store (set_store ?x e)) with x. apply put_state, source_key_non_state.
    + unfold api_contract_source. cbn [start_explorer_api ap_store ap_engine index_new ix_contract_sources].
      rewrite lookup_empty. change (en_store (set_store ?x e)) with x. by rewrite get_put_eq, Hde.
Qed.

(** Whoever publishes an hour later replaces a source that was verified by one
    that is not. *)
Theorem verified_source_replaced now now2 code_hash body a :
  publish_error now code_hash body a = None ->
  snd (api_publish compile None true now now2 code_hash body a) = Published false
  /\ snd (api_contract_source code_hash (fst (api_publish compile None true now now2 code_hash body a)))
     = Some (published None true now2 code_hash body false).
Proof.
  intros Ep. unfold api_publish. rewrite Ep. cbn [source_compile_enabled]. rewrite andb_false_r. cbn [andb].
  fold (published None true now2 code_hash body false). cbv zeta. split; [done|].
  unfold api_contract_source. cbn [fst with_store ap_engine].
  set (src := published _ _ _ _ _ _).
  assert (E : ix_contract_sources (add_source code_hash src (ap_store a)) !! code_hash = Some src)
    by apply lookup_insert_eq.
  destruct (ap_engine a) as [[e reg]|]; [destruct (ser src)|]; cbn [with_engine with_store ap_store]; by rewrite E.
Qed.

(** After a restart the limit of one publication per hour starts anew. *)
Theorem publish_limit_forgotten now code_hash body er :
  publish_error now code_hash body (start_explorer_api index_new er) <> Some "source already published recently"%string.
Proof.
  unfold publish_error. cbn [start_explorer_api ap_store index_new ix_contract_sources]. rewrite lookup_empty.
  by repeat case_match.
Qed.
End sources.

(** ** Yield samples *)

Lemma evict_sorted c l :
  StronglySorted (fun x y => sa_ts_ms x <= sa_ts_ms y) l -> evict c l = List.filter (fun x => c <=? sa_ts_ms x) l.
Proof.
  induction 1 as [|x l Hs IH Hx]; [done|]. cbn [evict List.filter].
  destruct (Z.ltb_spec (sa_ts_ms x) c); destruct (Z.leb_spec c (sa_ts_ms x)); try lia; [done|].
  f_equal. clear IH. induction Hs as [|y l Hs IH Hy]; [done|]. apply Forall_cons in Hx as [Hxy Hx]. cbn [List.filter].
  destruct (Z.leb_spec c (sa_ts_ms y)); [|lia]. f_equal. by apply IH.
Qed.

Lemma filter_filter_le c c' (l : list Sample) :
  c <= c' ->
  List.filter (fun x => c' <=? sa_ts_ms x) (List.filter (fun x => c <=? sa_ts_ms x) l)
  = List.filter (fun x => c' <=? sa_ts_ms x) l.
Proof.
  intros Hc. induction l as [|x l IH]; [done|]. cbn [List.filter].
  destruct (Z.leb_spec c (sa_ts_ms x)); cbn [List.filter]; rewrite IH; [done|].
  by rewrite (proj2 (Z.leb_gt c' (sa_ts_ms x))) by lia.
Qed.

Lemma sorted_filter (f : Sample -> bool) l :
  StronglySorted (fun x y => sa_ts_ms x <= sa_ts_ms y) l ->
  StronglySorted (fun x y => sa_ts_ms x <= sa_ts_ms y) (List.filter f l).
Proof.
  induction 1 as [|x l Hs IH Hx]; cbn [List.filter]; [constructor|]. destruct (f x); [|done]. constructor; [done|].
  apply Forall_forall. intros y Hy. apply list_elem_of_In, filter_In in Hy as [Hy _].
  rewrite Forall_forall in Hx. by apply Hx, list_elem_of_In.
Qed.

Definition apy_cutoff (s : Sample) : u64 := sat_sub (sa_ts_ms s) (RETENTION_SECS * 1000).
Definition sample_all (ss : list Sample) : list Sample := fold_left (fun b s => apy_push s b) ss [].

Lemma sorted_snoc ss s :
  StronglySorted (fun x y => sa_ts_ms x <= sa_ts_ms y) (ss ++ [s]) ->
  StronglySorted (fun x y => sa_ts_ms x <= sa_ts_ms y) ss /\ Forall (fun x => sa_ts_ms x <= sa_ts_ms s) ss.
Proof.
  intros H. apply StronglySorted_app in H as (H1 & H2 & _). split; [exact H2|]. apply Forall_forall. intros x Hx.
  apply H1; [done|by apply list_elem_of_singleton].
Qed.

Lemma last_cutoff ss s :
  Forall (fun x => sa_ts_ms x <= sa_ts_ms s) ss ->
  match last ss with Some x => apy_cutoff x <= apy_cutoff s | None => True end.
Proof.
  rewrite Forall_forall. intros Hl. destruct (last ss) as [x|] eqn:El; [|done].
  assert (sa_ts_ms x <= sa_ts_ms s) by (apply Hl; rewrite last_lookup in El; by eapply list_elem_of_lookup_2).
  unfold apy_cutoff, sat_sub. lia.
Qed.

Lemma sample_all_evict ss c :
  StronglySorted (fun x y => sa_ts_ms x <= sa_ts_ms y) ss -> Forall (fun x => 0 <= sa_ts_ms x) ss ->
  match last ss with Some s => apy_cutoff s <= c | None => True end ->
  evict c (sample_all ss) = List.filter (fun x => c <=? sa_ts_ms x) ss.
Proof.
  revert c. induction ss as [|s ss IH] using rev_ind; intros c Hs Hp Hc; [done|].
  pose proof (sorted_snoc _ _ Hs) as [Hs' Hl]. rewrite last_snoc in Hc. apply Forall_app in Hp as [Hp Hp0].
  apply Forall_cons in Hp0 as [Hp0 _]. unfold sample_all. rewrite fold_left_app. cbn [fold_left]. fold (sample_all ss).
  unfold apy_push. fold (apy_cutoff s). rewrite IH by (done || by apply last_cutoff).
  assert (E : List.filter (fun x => apy_cutoff s <=? sa_ts_ms x) ss ++ [s]
    = List.filter (fun x => apy_cutoff s <=? sa_ts_ms x) (ss ++ [s])).
  { rewrite List.filter_app. f_equal. cbn [List.filter].
    assert ((apy_cutoff s <=? sa_ts_ms s) = true) as ->; [|done].
    apply Z.leb_le. unfold apy_cutoff, sat_sub, RETENTION_SECS. lia. }
  rewrite E, evict_sorted by by apply sorted_filter. by apply filter_filter_le.
Qed.

(** With a clock that does not go back, the buffer holds exactly the samples of
    the 31 days before the last one. *)
Theorem samples_exact ss s :
  StronglySorted (fun x y => sa_ts_ms x <= sa_ts_ms y) (ss ++ [s]) -> Forall (fun x => 0 <= sa_ts_ms x) ss ->
  sample_all (ss ++ [s]) = List.filter (fun x => apy_cutoff s <=? sa_ts_ms x) ss ++ [s].
Proof.
  intros Hs H0. pose proof (sorted_snoc _ _ Hs) as [Hs' Hl]. unfold sample_all. rewrite fold_left_app.
  cbn [fold_left]. unfold apy_push. f_equal. by apply sample_all_evict, last_cutoff.
Qed.

Lemma find_rev {A} (p : A -> bool) l : List.find p (rev l) = last (List.filter p l).
Proof.
  induction l as [|x l IH] using rev_ind; [done|]. rewrite rev_app_distr, List.filter_app. cbn [rev app List.find List.filter].
  destruct (p x); [by rewrite last_snoc|]. by rewrite app_nil_r.
Qed.

(** The sample at the start of a window is the newest one before it. *)
Theorem window_starts_at_newest target buf :
  at_or_before target buf = last (List.filter (fun s => sa_ts_ms s <=? target) buf).
Proof. apply find_rev. Qed.

(** ** A block *)

(** One transaction that pays an account, deploys a contract and has it mint. *)
Definition token_id : AccountId := replicate 31 7 ++ [9].
Definition explorer_receipt : ExecutionReceipt :=
  mkReceipt (demo_key 1) 3 true 100 None
    [mkEvent (demo_key 1) (bytes_of_string "transfer") (demo_key 2 ++ le_bytes 16 250000000);
     mkEvent (demo_key 1) (bytes_of_string "deploy") token_id;
     mkEvent token_id (bytes_of_string "mint") (demo_key 3 ++ le_bytes 16 5);
     mkEvent (demo_key 1) (bytes_of_string "fee") (le_bytes 16 42)] "ed25519".
Definition explorer_block : FinalizedBlock :=
  mkFinalizedBlock (mkHeader 1 0 zero_hash zero_hash zero_hash zero_hash (demo_key 1) 1700 [])
    (mkBlockResult zero_hash [explorer_receipt] 100) [] [].
Definition explorer_index : IndexStore := index_all (fun b => b) [explorer_block] index_new.

Example explorer_row :
  map (fun r => (tr_txid r, tr_amount_solen r, tr_fee r))
    (api_account_transfers (account_to_base58 (demo_key 2)) 0 0 (Some (chars "in")) explorer_index)
  = [(chars "1-0-0", chars "2.50000000", chars "42")].
Proof. vm_compute. reflexivity. Qed.

Lemma explorer_exact_witness :
  api_account_txs (chars (hex_encode (demo_key 2))) 10 0 explorer_index
  = [indexed_tx (fun b => b) 1 0 explorer_receipt].
Proof.
  etransitivity; [exact (proj1 (explorer_exact (fun b => b) [explorer_block]) _ 10%nat 0%nat)|].
  vm_compute. reflexivity.
Defined.

(** The contracts are listed in hexadecimal, their holders are looked up by the
    text of the request and stored by the Base58 address: asked with a listed
    address, the explorer knows no holder. *)
Example listed_contract_without_holders :
  api_contracts explorer_index = [chars (hex_encode token_id)]
  /\ api_token_holders (chars (hex_encode token_id)) explorer_index = []
  /\ account_to_base58 (demo_key 3) ∈ api_token_holders (account_to_base58 token_id) explorer_index.
Proof. split; [vm_compute; reflexivity|]. split; [vm_compute; reflexivity|]. vm_compute. repeat constructor. Qed.

Example commission_text :
  map (fun bps => format_1 (f64_div (f64_of bps) (f64_of 100))) [1000; 125; 175; 533; 5; 10000]
  = map chars ["10.0"; "1.2"; "1.8"; "5.3"; "0.1"; "100.0"].
Proof. vm_compute. reflexivity. Qed.
