(* ===== verification/Transfer.v ===== *)
(** State snapshots over RPC: the cache the server answers from and its three
    methods ([crates/solen-rpc/src/methods.rs]), and the download of a node that
    restores from it ([crates/solen-node/src/main.rs]). *)

From S2P Require Import Prelude Types Store Memory Codec Staking Treasury State Address Base64 Reputation.
From S2P Require Import Auth Validators Mempool Intents Checkpoint EngineState Rpc.
Open Scope Z_scope.

(** ** The server *)

Record SnapshotCheckpoint : Type := mkSnapshotCheckpoint {
  sc_height : u64; sc_epoch : u64; sc_block_hash : string; sc_state_root : string;
  sc_attestations : list (str * string);
}.
Record SnapshotInfo : Type := mkSnapshotInfo {
  sn_height : u64; sn_epoch : u64; sn_state_root : string; sn_entries : u64; sn_compressed_bytes : usize;
  sn_uncompressed_bytes : usize; sn_data : str; sn_checkpoint : option SnapshotCheckpoint;
}.
Record SnapshotMetaInfo : Type := mkSnapshotMetaInfo {
  mi_height : u64; mi_epoch : u64; mi_state_root : string; mi_entries : u64; mi_total_bytes : usize;
  mi_checkpoint : option SnapshotCheckpoint;
}.
Record SnapshotChunkInfo : Type := mkChunk {
  ck_offset : usize; ck_length : usize; ck_total_bytes : usize; ck_data : str; ck_done : bool;
}.
Record CachedSnapshot : Type := mkCached {
  cs_height : u64; cs_info : SnapshotInfo; cs_raw_data : bytes;
}.

Definition SNAPSHOT_CACHE_INTERVAL : u64 := 500.
Definition DEFAULT_CHUNK : usize := Z.to_nat (4 * 1024 * 1024).
Definition MAX_CHUNK : usize := Z.to_nat (8 * 1024 * 1024).

(** What the methods share: the limiter and the cached snapshot. *)
Record Server : Type := mkServer {
  sv_limiter : RpcRateLimiter;
  sv_cache : option CachedSnapshot;
}.

Definition check_snapshots (max_per_sec : u64) (now : Instant) (v : Server) : Server * bool :=
  let lim := sv_limiter v in
  let '(c, allowed) := rate_check max_per_sec now (lim_snapshots lim) in
  (mkServer (mkLimiter (lim_submit_ops lim) (lim_submit_solutions lim) c (lim_view_calls lim)) (sv_cache v),
   allowed).

Definition snapshot_error_msg (err : SnapshotError) : string :=
  match err with
  | SnInvalid m => "invalid snapshot: " +:+ m
  | SnStateRootMismatch x y => "state root mismatch: expected " +:+ x +:+ ", got " +:+ y
  | SnIo m => "io error: " +:+ m
  end.

Section server.
Context {St : Type} `{!StateStore St} {zip : Deflate}.
Implicit Types e : Engine St.

(** The epoch of the tip. *)
Definition tip_epoch e : u64 := match last (en_chain e) with Some b => bh_epoch (fb_header b) | None => 0 end.

(** A fresh snapshot of the store, with its description. The height was read
    before the locks of the store and the chain are taken: in the methods below
    [height] is what the engine answered at the start, and [e] the engine at the
    moment of the locks, which may have moved on. *)
Definition build_snapshot (height : u64) e : result CachedSnapshot SnapshotError :=
  let epoch := tip_epoch e in
  let data := create_snapshot (en_store e) height epoch in
  let! meta := read_snapshot_meta data in
  Ok (mkCached height
        (mkSnapshotInfo height epoch (hex_encode (sm_state_root meta))
           (Z.of_nat (length (st_scan_all (en_store e)))) (length data - 56) (sm_uncompressed_size meta) [] None)
        data).

(** How far the tip is past the cached snapshot decides whether it is stale. *)
Definition cache_stale (height : u64) (cache : option CachedSnapshot) : bool :=
  match cache with
  | Some c => SNAPSHOT_CACHE_INTERVAL <=? sat_sub height (cs_height c)
  | None => true
  end.

Definition ensure_snapshot_cached (height : u64) e (v : Server) : Server * reply unit :=
  if negb (cache_stale height (sv_cache v)) then (v, answer tt)
  else
  match build_snapshot height e with
  | Ok c => (mkServer (sv_limiter v) (Some c), answer tt)
  | Err err => (v, fault (-32603) (snapshot_error_msg err))
  end.

(** One round of the background refresher, which also writes the snapshot to
    the ring of local snapshots. *)
Definition refresh_round (height : u64) e (ring : option LocalSnapshots) (v : Server) : option LocalSnapshots * Server :=
  if height =? 0 then (ring, v)
  else if negb (cache_stale height (sv_cache v)) then (ring, v)
  else
  match build_snapshot height e with
  | Ok c => (ls_persist height (cs_raw_data c) <$> ring, mkServer (sv_limiter v) (Some c))
  | Err _ => (ring, v)
  end.

Definition latest_snapshot_checkpoint e : option SnapshotCheckpoint :=
  (fun fc => mkSnapshotCheckpoint (fc_height fc) (fc_epoch fc) (hex_encode (fc_block_hash fc))
     (hex_encode (fc_state_root fc))
     (map (fun a => (account_to_base58 (fst a), hex_encode (snd a))) (fc_attestations fc)))
  <$> fs_latest (en_finalized_checkpoints e).

Definition get_snapshot (now : Instant) (height : u64) e (v : Server) : Server * reply SnapshotInfo :=
  let '(v, allowed) := check_snapshots 2 now v in
  if negb allowed then (v, fault (-32000) "rate limited — snapshot requests throttled")
  else
  let '(v, r) := ensure_snapshot_cached height e v in
  (v,
   let? _ := r in
   match sv_cache v with
   | None => fault (-32603) "snapshot unavailable"
   | Some c =>
     let i := cs_info c in
     let data := if bool_decide (sn_data i = []) then base64_encode (cs_raw_data c) else sn_data i in
     answer (mkSnapshotInfo (sn_height i) (sn_epoch i) (sn_state_root i) (sn_entries i) (sn_compressed_bytes i)
               (sn_uncompressed_bytes i) data (latest_snapshot_checkpoint e))
   end).

Definition get_snapshot_meta (height : u64) e (v : Server) : Server * reply SnapshotMetaInfo :=
  let '(v, r) := ensure_snapshot_cached height e v in
  (v,
   let? _ := r in
   match sv_cache v with
   | None => fault (-32603) "snapshot unavailable"
   | Some c =>
     let i := cs_info c in
     answer (mkSnapshotMetaInfo (sn_height i) (sn_epoch i) (sn_state_root i) (sn_entries i)
               (length (cs_raw_data c)) (latest_snapshot_checkpoint e))
   end).

Definition chunk_at (offset chunk_size : usize) (raw : bytes) : SnapshotChunkInfo :=
  let total := length raw in
  if (total <=? offset)%nat then mkChunk offset 0 total [] true
  else
  let fin := Nat.min (offset + chunk_size) total in
  let chunk := slice offset (fin - offset) raw in
  mkChunk offset (length chunk) total (base64_encode chunk) (total <=? fin)%nat.

Definition get_snapshot_chunk (now : Instant) (offset : usize) (chunk_size : option usize) (height : u64) e
    (v : Server) : Server * reply SnapshotChunkInfo :=
  let '(v, allowed) := check_snapshots 20 now v in
  if negb allowed then (v, fault (-32000) "rate limited")
  else
  let '(v, r) := ensure_snapshot_cached height e v in
  (v,
   let? _ := r in
   match sv_cache v with
   | None => fault (-32603) "snapshot not available"
   | Some c => answer (chunk_at offset (Nat.min (default DEFAULT_CHUNK chunk_size) MAX_CHUNK) (cs_raw_data c))
   end).

End server.

(** ** The download

    [fetch] is the server: the reply to a request for a chunk. There is one
    request per entry of [world], what the server sees besides its own state at
    that moment. An error reply, a missing [data] or text that is no base64
    breaks the download off. *)

Inductive Download : Type :=
| Complete (data : bytes)
| Broken
| Unfinished.

Section download.
Context {V W : Type} (fetch : W -> usize -> usize -> V -> V * reply SnapshotChunkInfo).

Fixpoint download (chunk_size : usize) (world : list W) (offset : usize) (data : bytes) (v : V) :
    V * Download :=
  match world with
  | [] => (v, Unfinished)
  | w :: world =>
    let '(v, r) := fetch w offset chunk_size v in
    match r with
    | Replied (Ok chunk) =>
      match base64_decode (ck_data chunk) with
      | Err _ => (v, Broken)
      | Ok chunk_bytes =>
        let data := data ++ chunk_bytes in
        if ck_done chunk || bool_decide (chunk_bytes = []) then (v, Complete data)
        else download chunk_size world (offset + length chunk_bytes) data v
      end
    | _ => (v, Broken)
    end
  end.
End download.

(** The methods above as the server: a request arrives at a time, and finds a
    height and an engine. *)
Definition ask {St} `{!StateStore St} {zip : Deflate} (w : Instant * (u64 * Engine St))
    (offset chunk_size : usize) (v : Server) : Server * reply SnapshotChunkInfo :=
  get_snapshot_chunk (fst w) offset (Some chunk_size) (fst (snd w)) (snd (snd w)) v.

(** ** The download gives what the server cached *)

Lemma slice_bytes off len b : digits_of 256 b -> digits_of 256 (slice off len b).
Proof. intros Hb. unfold slice, digits_of. by apply Forall_take, Forall_drop. Qed.

Lemma take_slice (off n : nat) (b : bytes) : take off b ++ slice off n b = take (off + n) b.
Proof. unfold slice. by rewrite take_take_drop. Qed.

Section transfer.
Context {St : Type} `{!StateStore St} {zip : Deflate}.
Implicit Types (e : Engine St) (world : list (Instant * (u64 * Engine St))).

(** The cached snapshot serves a request: the limit allows it and the tip has
    not moved too far. *)
Definition request_served (c : CachedSnapshot) (v : Server) (now : Instant) (height : u64) : Prop :=
  sv_cache v = Some c /\ cache_stale height (Some c) = false
  /\ snd (rate_check 20 now (lim_snapshots (sv_limiter v))) = true.

Lemma chunk_served c v now offset n height e :
  request_served c v now height -> (n <= MAX_CHUNK)%nat ->
  get_snapshot_chunk now offset (Some n) height e v
  = (fst (check_snapshots 20 now v), answer (chunk_at offset n (cs_raw_data c)))
  /\ sv_cache (fst (check_snapshots 20 now v)) = Some c.
Proof.
  destruct v as [lim cache]. intros (Hc & Hs & Ha) Hn. cbn [sv_cache sv_limiter] in *. subst cache.
  unfold get_snapshot_chunk, check_snapshots. cbn [sv_cache sv_limiter].
  destruct (rate_check 20 now _) as [k allowed]. cbn [snd fst] in *. subst allowed. cbn [negb].
  unfold ensure_snapshot_cached. cbn [sv_cache]. rewrite Hs. cbn [negb sv_cache default and_then answer].
  by rewrite Nat.min_l.
Qed.

(** A chunk within the data is decoded to the next part of it. *)
Lemma chunk_decodes offset n raw :
  digits_of 256 raw ->
  let chunk := chunk_at offset n raw in
  base64_decode (ck_data chunk) = Ok (slice offset n raw)
  /\ ck_done chunk = (length raw <=? offset + n)%nat.
Proof.
  intros Hd. unfold chunk_at. destruct (Nat.leb_spec (length raw) offset) as [Ho|Ho]; cbn [ck_data ck_done].
  - split; [|symmetry; apply Nat.leb_le; lia]. unfold slice. rewrite drop_ge by done. by rewrite take_nil.
  - rewrite base64_roundtrip by by apply slice_bytes. split.
    + f_equal. unfold slice. destruct (Nat.le_gt_cases (offset + n) (length raw)).
      * rewrite Nat.min_l by done. f_equal. lia.
      * rewrite Nat.min_r by lia. rewrite !take_ge; [done|rewrite length_drop; lia..].
    + destruct (Nat.le_gt_cases (offset + n) (length raw)).
      * by rewrite Nat.min_l.
      * rewrite Nat.min_r by lia. rewrite !(proj2 (Nat.leb_le _ _)) by lia. done.
Qed.

(** The limiter allows every request of the list. *)
Fixpoint all_allowed (times : list Instant) (c : Counter) : Prop :=
  match times with
  | [] => True
  | now :: times => snd (rate_check 20 now c) = true /\ all_allowed times (fst (rate_check 20 now c))
  end.

Lemma download_from c n world offset v :
  digits_of 256 (cs_raw_data c) -> (0 < n <= MAX_CHUNK)%nat ->
  sv_cache v = Some c -> Forall (fun w => cache_stale (fst (snd w)) (Some c) = false) world ->
  all_allowed (map fst world) (lim_snapshots (sv_limiter v)) ->
  (length (cs_raw_data c) < offset + length world * n)%nat -> (offset <= length (cs_raw_data c))%nat ->
  exists v', download ask n world offset (take offset (cs_raw_data c)) v = (v', Complete (cs_raw_data c))
    /\ sv_cache v' = Some c.
Proof.
  intros Hd Hn. revert offset v. induction world as [|[now [height e]] world IH]; intros offset v Hc Hw Ha Hl Ho.
  { cbn in Hl. lia. }
  apply Forall_cons in Hw as [Hs Hw]. cbn [map fst snd all_allowed] in *. destruct Ha as [Ha1 Ha2].
  cbn [download]. unfold ask at 1. cbn [fst snd].
  destruct (chunk_served c v now offset n height e) as [-> Hc']; [done|lia|]. cbn [answer].
  destruct (chunk_decodes offset n (cs_raw_data c) Hd) as [-> ->]. rewrite take_slice.
  destruct (Nat.leb_spec (length (cs_raw_data c)) (offset + n)) as [Hdone|Hmore]; cbn [orb].
  - rewrite take_ge by done. by eexists.
  - assert (Hlen : length (slice offset n (cs_raw_data c)) = n)
      by (unfold slice; rewrite length_take, length_drop; lia).
    rewrite bool_decide_false by (intros E; rewrite E in Hlen; cbn in Hlen; lia). rewrite Hlen.
    apply IH; [done|done| |cbn in Hl; lia|lia].
    unfold check_snapshots. by destruct (rate_check 20 now _).
Qed.
End transfer.

(** ** A node restores another node's state *)

Section restore.
Context {crypto : Crypto} {zip : Deflate}.
#[local] Existing Instance snap_store | 0.
#[local] Existing Instance snap_laws | 0.
Implicit Types (e : Engine MemoryStore) (v : Server).

(** The server builds its snapshot from the store and describes it. *)
Lemma meta_builds height e v :
  cache_stale height (sv_cache v) = true ->
  in_u64 height -> in_u64 (tip_epoch e) -> length (st_state_root (en_store e)) = 32%nat ->
  let data := create_snapshot (en_store e) height (tip_epoch e) in
  exists c meta, get_snapshot_meta height e v = (mkServer (sv_limiter v) (Some c), answer meta)
    /\ cs_raw_data c = data /\ cs_height c = height
    /\ mi_height meta = height /\ mi_state_root meta = hex_encode (st_state_root (en_store e))
    /\ mi_total_bytes meta = length data.
Proof.
  intros Hs Hh He Hr data. unfold get_snapshot_meta, ensure_snapshot_cached. rewrite Hs. cbn [negb].
  unfold build_snapshot. destruct (created_meta (en_store e) height (tip_epoch e) Hh He Hr) as [-> _].
  cbn [rbind sv_cache]. do 2 eexists. split; [reflexivity|]. done.
Qed.

(** C21: a node restores the state of another one over RPC. The server has no
    fresh snapshot when it is asked for the metadata, and builds one: of the
    state of its store, of the 32-byte root and of entries and sizes within the
    limits of the format, marked with the height it read before that state and
    the epoch of its tip; if it finalised a block in between, the state is a
    later one than that of the height. Downloaded in chunks of a
    positive size of at most 8 MiB, with enough requests, all of them within the server's rate limit and at heights less than 500 above the
    snapshot's, so that the cache is not replaced during the download, the loop
    ends with exactly the bytes of the snapshot; and if the compression library
    inflates what it deflated, restoring them into an empty store gives a store
    that reads like the server's, with that height and epoch. *)
Theorem snapshot_transfer height e v world n :
  cache_stale height (sv_cache v) = true ->
  mem_reachable blake3 (en_store e) -> in_u64 height -> in_u64 (tip_epoch e) ->
  length (st_state_root (en_store e)) = 32%nat ->
  Forall entry_fits (st_scan_all (en_store e)) -> Z.of_nat (length (st_scan_all (en_store e))) <= u64_max ->
  inflate (deflate (snapshot_body (st_scan_all (en_store e)))) = (snapshot_body (st_scan_all (en_store e)), None) ->
  Z.of_nat (length (snapshot_body (st_scan_all (en_store e)))) <= MAX_SNAPSHOT_SIZE ->
  let data := create_snapshot (en_store e) height (tip_epoch e) in
  digits_of 256 data ->
  (0 < n <= MAX_CHUNK)%nat -> (length data < length world * n)%nat ->
  Forall (fun w => fst (snd w) - height < SNAPSHOT_CACHE_INTERVAL) world ->
  all_allowed (map fst world) (lim_snapshots (sv_limiter v)) ->
  exists v1 meta v2 s' m,
    get_snapshot_meta height e v = (v1, answer meta)
    /\ mi_height meta = height /\ mi_state_root meta = hex_encode (st_state_root (en_store e))
    /\ mi_total_bytes meta = length data
    /\ download ask n world 0 [] v1 = (v2, Complete data)
    /\ restore_snapshot mem_new data = (s', Ok m)
    /\ sm_height m = height /\ sm_epoch m = tip_epoch e
    /\ store_eq s' (en_store e).
Proof.
  intros Hs Hr Hh He Hroot Hf Hc Hz Hm data Hd Hn Hl Hw Ha.
  destruct (meta_builds height e v Hs Hh He Hroot) as (c & meta & E1 & Ec & Hch & H1 & H2 & H3).
  destruct (download_from c n world 0 (mkServer (sv_limiter v) (Some c))) as (v2 & E2 & _); try done; try lia.
  - by rewrite Ec.
  - eapply Forall_impl; [exact Hw|]. intros w Hlt. unfold cache_stale. rewrite Hch.
    apply Z.leb_gt. unfold sat_sub, SNAPSHOT_CACHE_INTERVAL in *. lia.
  - rewrite Ec. unfold data in Hl. lia.
  - destruct (snapshot_roundtrip (en_store e) height (tip_epoch e)) as (s' & m & E3 & Hm1 & Hm2 & _ & Heq); try done.
    rewrite Ec in E2. exists (mkServer (sv_limiter v) (Some c)), meta, v2, s', m. done.
Qed.
End restore.

(** ** What the download leaves open *)

(** The metadata's size is not a bound: a server that keeps sending data keeps
    the download going for as long as it likes. *)
Definition endless (w : unit) (offset chunk_size : usize) (v : unit) : unit * reply SnapshotChunkInfo :=
  (v, answer (mkChunk offset 1 1 (chars "QQ==") false)).

Theorem download_unbounded n rounds offset data :
  download endless n (replicate rounds tt) offset data tt = (tt, Unfinished).
Proof.
  revert offset data. induction rounds as [|rounds IH]; intros offset data; [done|].
  cbn [replicate download endless answer ck_data ck_done].
  change (base64_decode (chars "QQ==")) with (@Ok bytes Base64Error [65]). cbn [orb]. apply IH.
Qed.

(** ** Examples *)

Section transfer_example.
#[local] Existing Instance short_crypto | 0.
#[local] Instance transfer_store : StateStore MemoryStore := @snap_store short_crypto.

(** A node at height 1200 whose store is the example of [Checkpoint]. *)
Definition serving_engine : Engine MemoryStore :=
  mkEngine snapshot_source (mempool_new 10) [marker_block 1200 12 zero_hash (demo_id 1)] [] epoch_manager_new
    ∅ ∅ (intent_pool_new 10) [] 0 None [] zero_hash finalized_store_new trusted_devnet None false 0 false
    (journal_new 4) ∅ ∅ [] ∅.
Definition idle_server : Server := mkServer (limiter_new 0) None.
Definition served_data : bytes := create_snapshot snapshot_source 1200 12.

Lemma snapshot_transfer_witness :
  exists v1 meta v2 s' m,
    get_snapshot_meta 1200 serving_engine idle_server = (v1, answer meta)
    /\ mi_height meta = 1200 /\ mi_state_root meta = hex_encode (st_state_root snapshot_source)
    /\ mi_total_bytes meta = length served_data
    /\ download ask 16 (replicate 8 (5, (1205, serving_engine))) 0 [] v1 = (v2, Complete served_data)
    /\ restore_snapshot mem_new served_data = (s', Ok m)
    /\ sm_height m = 1200 /\ sm_epoch m = 12 /\ store_eq s' snapshot_source.
Proof.
  apply (@snapshot_transfer short_crypto stored_deflate 1200 serving_engine idle_server
           (replicate 8 (5, (1205, serving_engine))) 16%nat).
  - reflexivity.
  - unfold serving_engine, snapshot_source. cbn [en_store]. repeat constructor.
  - split; vm_compute; discriminate.
  - split; vm_compute; discriminate.
  - vm_compute. reflexivity.
  - apply Forall_forall. intros kv Hkv. assert (Hc : kv ∈ [([97], [1; 2]); ([98; 99], [])]) by exact Hkv.
    repeat (apply elem_of_cons in Hc as [->|Hc]; [split; vm_compute; reflexivity|]).
    by apply not_elem_of_nil in Hc.
  - vm_compute. discriminate.
  - reflexivity.
  - vm_compute. discriminate.
  - change (digits_of 256 served_data). assert (H : forallb (fun b => (0 <=? b) && (b <? 256)) served_data = true)
      by (vm_compute; reflexivity).
    apply Forall_forall. intros b Hb. rewrite forallb_forall in H. apply list_elem_of_In in Hb.
    specialize (H b Hb). lia.
  - split; [lia|]. unfold MAX_CHUNK. lia.
  - apply Nat.ltb_lt. vm_compute. reflexivity.
  - apply Forall_replicate. reflexivity.
  - vm_compute. repeat split.
Defined.

(** More than twenty chunks within a second, of one download or of several,
    and the download breaks off: the limit is one for all and the node does not
    try again. *)
Theorem download_hits_limit :
  snd (download ask 4 (replicate 100 (5, (1200, serving_engine))) 0 []
         (fst (get_snapshot_meta 1200 serving_engine idle_server))) = Broken.
Proof. vm_compute. reflexivity. Qed.
End transfer_example.
