(* ===== verification/Genesis.v ===== *)
(** The genesis of a chain ([crates/solen-node/src/genesis_config.rs]): the
    configuration, its validation, and the state it is turned into. *)

From S2P Require Import Prelude Types Store Memory Codec Staking Governance Vesting State SysStaking Address.
From S2P Require Import Settlement Rpc RpcViews.
Open Scope Z_scope.

(** ** The configuration *)

Record ValidatorConfig : Type := mkValidatorConfig {
  vc_name : string; vc_seed_hex : option str; vc_public_key_hex : option str; vc_stake : u128;
}.
Record AccountAllocation : Type := mkAllocation {
  aa_name : string; aa_id_hex : option str; aa_balance : u128; aa_public_key_hex : option str;
  aa_seed_hex : option str;
}.
Record FaucetConfig : Type := mkFaucet {
  fa_account_name : string; fa_seed_hex : str; fa_drip_amount : u128; fa_cooldown_secs : u64;
}.
Record VestingRecipient : Type := mkRecipient { vr_name : string; vr_public_key_hex : str; vr_amount : u128 }.

Record GenesisConfig : Type := mkGenesisConfig {
  gc_chain_name : string;
  gc_chain_id : u64;
  gc_block_time_ms : u64;
  gc_epoch_length : u64;
  gc_validators : list ValidatorConfig;
  gc_accounts : list AccountAllocation;
  gc_faucet : option FaucetConfig;
  gc_team_vesting : list VestingRecipient;
  gc_investor_vesting : list VestingRecipient;
  gc_governance_voting_period : u64;
}.

(** A step of start-up: a value, an error that ends the process, or a panic. *)
Inductive startup (T : Type) : Type :=
| Started (t : T)
| Refused (why : string)
| Panics.
Arguments Started {T} t.
Arguments Refused {T} why.
Arguments Panics {T}.

Definition started_then {T U} (m : startup T) (f : T -> startup U) : startup U :=
  match m with Started t => f t | Refused w => Refused w | Panics => Panics end.
Notation "'let*' x ':=' m 'in' k" := (started_then m (fun x => k))
  (at level 10, x name, m at level 100, k at level 200) : solen_scope.

Fixpoint map_started {A B} (f : A -> startup B) (l : list A) : startup (list B) :=
  match l with
  | [] => Started []
  | x :: l => let* y := f x in let* ys := map_started f l in Started (y :: ys)
  end.

Definition validate (g : GenesisConfig) : option string :=
  if gc_chain_id g =? 0 then Some "genesis: chain_id must not be 0"
  else if gc_block_time_ms g =? 0 then Some "genesis: block_time_ms must not be 0"
  else if gc_epoch_length g =? 0 then Some "genesis: epoch_length must not be 0"
  else if bool_decide (gc_validators g = []) then Some "genesis: at least one validator required"
  else find_map (fun v => if vc_stake v =? 0
                          then Some ("genesis: validator '" +:+ vc_name v +:+ "' has zero stake") else None)
         (gc_validators g).

(** ** Keys *)

(** The pairs of a hexadecimal text, up to the first that is no number; a text
    that cannot be cut in pairs panics there. *)
Fixpoint hex_bytes (fuel : nat) (s : str) : startup bytes :=
  match s, fuel with
  | [], _ => Started []
  | _, O => Panics
  | _, S fuel =>
    match slice2 s with
    | None => Panics
    | Some (two, rest) =>
      match u8_from_hex two with
      | None => Refused "invalid digit found in string"
      | Some b => let* bs := hex_bytes fuel rest in Started (b :: bs)
      end
    end
  end.

Definition hex_decode_32 (s : str) : startup bytes :=
  let s := strip_0x s in
  let* b := hex_bytes (length s) s in
  if negb (length b =? 32)%nat then Refused ("expected 32 bytes, got " +:+ pretty (length b)) else Started b.

Section genesis.
Context {S : Type} `{!StateStore S} `{!Codec Account} `{!Codec StakingContract} `{!Codec VestingContract}
        `{!Codec GovernanceContract}
        (** [Keypair::from_seed(seed).public_key()] *)
        (public_key_of : bytes -> bytes).
Implicit Types s : S.

Definition resolve_validator_pubkey (v : ValidatorConfig) : startup bytes :=
  match vc_seed_hex v, vc_public_key_hex v with
  | Some seed_hex, _ => let* seed := hex_decode_32 seed_hex in Started (public_key_of seed)
  | None, Some pk_hex => hex_decode_32 pk_hex
  | None, None =>
    Refused ("validator '" +:+ vc_name v +:+ "' needs either seed_hex or public_key_hex")
  end.

(** ** The accounts *)

Definition validator_account (v : ValidatorConfig) : startup GenesisAccount :=
  let* pk := resolve_validator_pubkey v in Started (mkGenesis pk 0 [Ed25519 pk]).

Definition allocated_account (a : AccountAllocation) : startup GenesisAccount :=
  match aa_seed_hex a, aa_public_key_hex a, aa_id_hex a with
  | Some seed_hex, _, _ =>
    let* seed := hex_decode_32 seed_hex in
    Started (mkGenesis (public_key_of seed) (aa_balance a) [Ed25519 (public_key_of seed)])
  | None, Some pk_hex, _ =>
    let* pk := hex_decode_32 pk_hex in Started (mkGenesis pk (aa_balance a) [Ed25519 pk])
  | None, None, Some id_hex =>
    let* id := hex_decode_32 id_hex in Started (mkGenesis id (aa_balance a) [])
  | None, None, None =>
    Refused ("account '" +:+ aa_name a +:+ "' needs seed_hex, public_key_hex, or id_hex")
  end.

Definition FAUCET_BALANCE : u128 := 1000000000000000.
Definition DECIMALS : u128 := 100000000.

Definition faucet_account (f : FaucetConfig) : startup GenesisAccount :=
  let* seed := hex_decode_32 (fa_seed_hex f) in
  Started (mkGenesis (public_key_of seed) FAUCET_BALANCE [Ed25519 (public_key_of seed)]).

(** The funds of the token distribution, in units of 10^8. *)
Definition fund_accounts (is_mainnet : bool) : list GenesisAccount :=
  let fund id amount := mkGenesis id (amount * DECIMALS) [] in
  [fund TREASURY_ADDRESS (if is_mainnet then 589000000 else 400000000);
   fund STAKING_POOL_ADDRESS 500000000;
   fund ECOSYSTEM_FUND_ADDRESS (if is_mainnet then 0 else 300000000);
   fund COMMUNITY_ADDRESS (if is_mainnet then 0 else 200000000);
   fund LIQUIDITY_ADDRESS (if is_mainnet then 0 else 100000000);
   fund TEAM_POOL_ADDRESS 300000000]
  ++ (if is_mainnet then [] else [fund INVESTOR_POOL_ADDRESS 100000000])
  ++ (if is_mainnet then [mkGenesis BRIDGE_ADDRESS 0 []] else [])
  ++ [mkGenesis VESTING_ADDRESS 0 []].

Definition genesis_accounts (g : GenesisConfig) : startup (list GenesisAccount) :=
  let* vs := map_started validator_account (gc_validators g) in
  let* accs := map_started allocated_account (gc_accounts g) in
  let* faucet := (match gc_faucet g with
                  | Some f => let* a := faucet_account f in Started [a]
                  | None => Started []
                  end) in
  Started (vs ++ accs ++ faucet ++ fund_accounts (gc_chain_id g =? 1)).

(** ** The contracts *)

(** A validator whose key is registered already is skipped. *)
Definition register_all (vs : list (bytes * u128)) (c : StakingContract) : StakingContract :=
  fold_left (fun c v => match register_genesis_validator (fst v) (snd v) c with Ok c' => c' | Err _ => c end) vs c.

Fixpoint add_schedules (t : VestingType) (rs : list VestingRecipient) (c : VestingContract) :
    startup VestingContract :=
  match rs with
  | [] => Started c
  | r :: rs =>
    let* pk := hex_decode_32 (vr_public_key_hex r) in
    add_schedules t rs (add_schedule pk (vr_amount r) t 0 c)
  end.

Definition TOTAL_SUPPLY_KEY : bytes := Eval vm_compute in bytes_of_string "__total_supply__".

Definition genesis_total (accounts : list GenesisAccount) (g : GenesisConfig) : u128 :=
  u128_add (u128_sum (map ga_balance accounts)) (u128_sum (map vc_stake (gc_validators g))).

(** The store is returned also when a later step fails, with what was written
    until then. *)
Definition genesis_apply (g : GenesisConfig) (s : S) : S * startup unit :=
  match genesis_accounts g with
  | Refused w => (s, Refused w)
  | Panics => (s, Panics)
  | Started accounts =>
    let s := st_put s TOTAL_SUPPLY_KEY (le_bytes 16 (genesis_total accounts g)) in
    match apply_genesis s accounts with
    | Err err => (s, Refused (state_error_msg err))
    | Ok s =>
      match map_started resolve_validator_pubkey (gc_validators g) with
      | Refused w => (s, Refused w)
      | Panics => (s, Panics)
      | Started keys =>
        let s := staking_save (register_all (zip keys (map vc_stake (gc_validators g))) staking_default) s in
        match (let* c := add_schedules Team (gc_team_vesting g) vesting_default in
               add_schedules Investor (gc_investor_vesting g) c) with
        | Refused w => (s, Refused w)
        | Panics => (s, Panics)
        | Started vesting =>
          let s := vesting_save vesting s in
          (if 0 <? gc_governance_voting_period g
           then governance_save (with_voting_period (gc_governance_voting_period g) governance_new) s
           else s, Started tt)
        end
      end
    end
  end.
End genesis.

(** ** What genesis leaves *)

Section genesis_laws.
Context {S : Type} `{!StateStore S} `{!StateStoreLaws S} `{!Codec Account} `{!CodecLaws Account}
        `{!Codec StakingContract} `{!CodecLaws StakingContract} `{!Codec VestingContract}
        `{!CodecLaws VestingContract} `{!Codec GovernanceContract} `{!CodecLaws GovernanceContract}
        (public_key_of : bytes -> bytes).
Implicit Types s : S.

Lemma apply_genesis_get s accounts s' k :
  apply_genesis s accounts = Ok s' -> (forall id, k <> account_key id) -> st_get s' k = st_get s k.
Proof.
  intros H Hk. revert s H. induction accounts as [|g accounts IH]; intros s; cbn [apply_genesis].
  - by intros [= ->].
  - unfold create_account. rewrite save_or_keep_eq. cbn [rbind]. intros H. rewrite (IH _ H).
    by apply get_save_account.
Qed.

(** Saving a contract's record leaves the accounts alone. *)
Lemma save_record_account {A} `{!Codec A} key (a : A) s id :
  (forall id, key <> account_key id) -> load_account (save_record key a s) id = load_account s id.
Proof.
  intros Hk. unfold load_account, save_record. destruct (ser a); [|done]. by rewrite get_put_ne.
Qed.

Lemma map_started_fst {A B} (f : A -> startup B) l ys : map_started f l = Started ys -> Forall2 (fun x y => f x = Started y) l ys.
Proof.
  revert ys. induction l as [|x l IH]; intros ys; cbn; [by intros [= <-]|].
  destruct (f x) as [y| |] eqn:E; cbn; [|done..]. destruct (map_started f l) as [zs| |]; cbn; [|done..].
  intros [= <-]. constructor; auto.
Qed.

(** The keys of the validators are the identifiers of the first accounts. *)
Lemma validator_keys vs accs :
  map_started (validator_account public_key_of) vs = Started accs ->
  map_started (resolve_validator_pubkey public_key_of) vs = Started (map ga_id accs)
  /\ Forall (fun a => ga_balance a = 0) accs /\ length accs = length vs.
Proof.
  revert accs. induction vs as [|v vs IH]; intros accs; cbn; [by intros [= <-]|].
  unfold validator_account at 1. destruct (resolve_validator_pubkey public_key_of v) as [pk| |]; cbn; [|done..].
  destruct (map_started _ vs) as [ys| |]; cbn; [|done..]. intros [= <-].
  destruct (IH ys eq_refl) as (-> & Hb & Hl). cbn. split; [done|]. split; [by constructor|]. by rewrite Hl.
Qed.

(** Every validator of a list without repetition is registered. *)
Lemma register_all_wf vs c :
  staking_wf c -> pending_keys c = [] -> NoDup (map sv_id (validators c) ++ map fst vs) ->
  Forall (fun v => 0 <= snd v) vs -> locked_tokens c + sumZ (map snd vs) <= u128_max ->
  staking_wf (register_all vs c)
  /\ locked_tokens (register_all vs c) = locked_tokens c + sumZ (map snd vs)
  /\ map sv_id (validators (register_all vs c)) = map sv_id (validators c) ++ map fst vs.
Proof.
  revert c. induction vs as [|[id stake] vs IH]; intros c Hc Hp Hn Hs Hb.
  { cbn in *. rewrite app_nil_r. split; [done|]. split; [lia|done]. }
  apply Forall_cons in Hs as [H0 Hs]. cbn [map fst snd sumZ] in *.
  assert (Hpos : 0 <= sumZ (map snd vs)).
  { apply sumZ_nonneg. apply Forall_map. exact Hs. }
  apply NoDup_app in Hn as (Hn1 & Hd & Hn2). apply NoDup_cons in Hn2 as [Hid Hn2].
  assert (Hnew : id ∉ map sv_id (validators c)) by (intros Hi; apply (Hd id Hi); set_solver).
  cbn [register_all fold_left fst snd]. unfold register_genesis_validator.
  assert (existsb (has_id id) (validators c) = false) as ->.
  { apply not_true_is_false. intros (v & Hv & He)%existsb_exists. apply Hnew. unfold has_id in He.
    prop_bool. subst id. apply list_elem_of_fmap_2. by apply list_elem_of_In. }
  set (v := mkStakingValidator id stake 0 0 true true GENESIS_LOCK_EPOCHS DEFAULT_COMMISSION_BPS 0 None 0).
  destruct (push_validator_wf c v) as [Hwf Hlock]; try done; cbn in H0 |- *; try lia;
    [by rewrite Hp; apply not_elem_of_nil|].
  change (fold_left _ vs ?x) with (register_all vs x).
  destruct (IH (with_validators (validators c ++ [v]) c)) as (H1 & H2 & H3).
  - done.
  - unfold pending_keys in *. cbn. rewrite omap_app, Hp. done.
  - cbn. rewrite map_app. cbn. rewrite <- app_assoc. cbn. apply NoDup_app. split; [done|]. split; [|by constructor].
    intros x Hx Hx'. by apply (Hd x Hx).
  - done.
  - rewrite Hlock. cbn. lia.
  - split; [done|]. rewrite H2, Hlock, H3. cbn. rewrite map_app. cbn. rewrite <- app_assoc. split; [lia|done].
Qed.

(** What [genesis_apply] needs to go through, of a configuration. *)
Record genesis_ok (g : GenesisConfig) (accounts : list GenesisAccount) : Prop := {
  go_accounts : genesis_accounts public_key_of g = Started accounts;
  go_vesting : exists c, (let* c := add_schedules Team (gc_team_vesting g) vesting_default in
                          add_schedules Investor (gc_investor_vesting g) c) = Started c;
  go_ids : NoDup (map ga_id accounts);
  go_balances : Forall (fun a => 0 <= ga_balance a) accounts;
  go_stakes : Forall (fun v => 0 <= vc_stake v) (gc_validators g);
  go_total : sumZ (map ga_balance accounts) + sumZ (map vc_stake (gc_validators g)) <= u128_max;
}.

Lemma genesis_accounts_validators g accounts :
  genesis_accounts public_key_of g = Started accounts ->
  exists vs rest, accounts = vs ++ rest /\ length vs = length (gc_validators g)
    /\ map_started (resolve_validator_pubkey public_key_of) (gc_validators g) = Started (map ga_id vs).
Proof.
  unfold genesis_accounts. destruct (map_started _ (gc_validators g)) as [vs| |] eqn:Ev; cbn; [|done..].
  destruct (map_started _ (gc_accounts g)) as [accs| |]; cbn; [|done..].
  destruct (match gc_faucet g with Some _ => _ | None => _ end) as [fa| |]; cbn; [|done..].
  intros [= <-]. destruct (validator_keys _ _ Ev) as (Hk & _ & Hl). by exists vs, (accs ++ fa ++ fund_accounts (gc_chain_id g =? 1)).
Qed.

(** The genesis state is what the configuration says: every allocated account
    holds its allocation, every validator is registered with its stake, the
    books of the staking contract balance, and the total supply on record is
    what the accounts hold and the contract has locked. *)
Theorem genesis_sound g accounts s :
  genesis_ok g accounts ->
  exists s', genesis_apply public_key_of g s = (s', Started tt)
    /\ (forall a, a ∈ accounts -> load_account s' (ga_id a) = Ok (Some (genesis_account a)))
    /\ staking_wf (staking_load s')
    /\ Started (map sv_id (validators (staking_load s')))
       = map_started (resolve_validator_pubkey public_key_of) (gc_validators g)
    /\ rpc_config_u128 s' TOTAL_SUPPLY_KEY
       = Some (supply (map ga_id accounts) s' + locked_tokens (staking_load s')).
Proof.
  intros [Ha [c Hv] Hn Hbal Hst Htot]. unfold genesis_apply. rewrite Ha, Hv.
  set (s1 := st_put s _ _).
  destruct (genesis_supply s1 accounts Hn) as (s2 & Es2 & Hg & _ & Hsum). rewrite Es2.
  destruct (genesis_accounts_validators g accounts Ha) as (vs & rest & -> & Hlen & ->).
  set (keys := zip (map ga_id vs) (map vc_stake (gc_validators g))).
  assert (Hfst : map fst keys = map ga_id vs).
  { unfold keys. apply fst_zip. rewrite !length_map. lia. }
  assert (Hsnd : map snd keys = map vc_stake (gc_validators g)).
  { unfold keys. apply snd_zip. rewrite !length_map. lia. }
  assert (Hb0 : 0 <= sumZ (map ga_balance (vs ++ rest))) by (apply sumZ_nonneg, Forall_map, Hbal).
  assert (Hs0 : 0 <= sumZ (map vc_stake (gc_validators g))) by (apply sumZ_nonneg, Forall_map, Hst).
  destruct (register_all_wf keys staking_default) as (Hwf & Hlock & Hids).
  { apply staking_default_wf. }
  { done. }
  { rewrite Hfst. cbn. rewrite map_app in Hn. by apply NoDup_app in Hn as (? & _ & _). }
  { apply Forall_forall. intros kv Hkv. eapply (list_elem_of_fmap_2 snd) in Hkv.
    change (snd <$> keys) with (map snd keys) in Hkv. rewrite Hsnd in Hkv.
    apply list_elem_of_fmap in Hkv as (v & -> & Hv'). rewrite Forall_forall in Hst. by apply Hst. }
  { rewrite Hsnd. change (locked_tokens staking_default) with 0. lia. }
  set (st := register_all keys staking_default) in *. set (s3 := staking_save st s2).
  set (s4 := vesting_save c s3). eexists. split; [reflexivity|].
  set (s5 := if 0 <? gc_governance_voting_period g then _ else s4).
  assert (Hkeep : forall k, k <> GOVERNANCE_STORAGE_KEY -> k <> VESTING_STORAGE_KEY -> k <> STAKING_STORAGE_KEY ->
    st_get s5 k = st_get s2 k).
  { intros k H1 H2 H3. transitivity (st_get s4 k).
    - unfold s5. destruct (0 <? _); [|done]. by apply get_save_ne.
    - unfold s4, s3, vesting_save, staking_save. rewrite !get_save_ne; done. }
  assert (Hacc : forall id, load_account s5 id = load_account s2 id).
  { intros id. unfold load_account. by rewrite Hkeep. }
  assert (Hstk : staking_load s5 = st).
  { unfold staking_load. transitivity (load_record STAKING_STORAGE_KEY staking_default s3).
    - apply load_get_eq. transitivity (st_get s4 STAKING_STORAGE_KEY).
      + unfold s5. destruct (0 <? _); [|done]. by apply get_save_ne.
      + by apply get_save_ne.
    - apply load_save. }
  rewrite Hstk. split; [|split; [done|split]].
  - intros a Hin. rewrite Hacc. by apply Hg.
  - by rewrite Hids, Hfst.
  - assert (Hsup : supply (map ga_id (vs ++ rest)) s5 = sumZ (map ga_balance (vs ++ rest))).
    { rewrite <- Hsum. unfold supply. apply sumZ_map_ext. intros id _. unfold balance_of. by rewrite Hacc. }
    rewrite Hsup, Hlock, Hsnd. unfold rpc_config_u128. rewrite Hkeep by done.
    rewrite (apply_genesis_get s1 (vs ++ rest) s2) by done. unfold s1. rewrite get_put_eq. cbn [mbind option_bind].
    rewrite length_le_bytes, take_ge by (by rewrite length_le_bytes). cbn [Nat.leb].
    change (locked_tokens staking_default) with 0.
    unfold genesis_total. rewrite !u128_sum_exact by (try (by apply Forall_map); lia).
    rewrite u128_add_exact by lia. rewrite from_le_bytes by (change (256 ^ Z.of_nat 16) with (u128_max + 1); lia).
    done.
Qed.
End genesis_laws.

(** ** Start-up ([main.rs])

    The store of a node before the engine is built: genesis when it is empty,
    the hash that isolates forks, the chain identifier. *)

Definition GENESIS_HASH_KEY : bytes := Eval vm_compute in bytes_of_string "__genesis_hash__".
Definition CHAIN_ID_KEY : bytes := Eval vm_compute in bytes_of_string "__chain_id__".

Section boot.
Context {S : Type} `{!StateStore S} `{!Codec Account} `{!Codec StakingContract} `{!Codec VestingContract}
        `{!Codec GovernanceContract} (public_key_of : bytes -> bytes).
Implicit Types s : S.

Definition apply_if_empty (g : GenesisConfig) s : S * startup unit :=
  if bool_decide (st_scan_all s = []) then genesis_apply public_key_of g s else (s, Started tt).

Definition of_hex {T} (r : outcome bytes) (f : bytes -> startup T) : startup T :=
  match r with
  | Returned (Ok b) => f b
  | Returned (Err _) => Refused "invalid hex"
  | Panicked => Panics
  end.

(** The flag of the command line, what is on record, or the present root. *)
Definition expected_genesis_hash (cli_flag : option str) s : S * startup (option Hash) :=
  match cli_flag with
  | Some gh =>
    match of_hex (hex_decode gh) (fun b =>
      if (length b =? 32)%nat then Started b
      else Refused "--genesis-hash must be 64 hex characters (32 bytes)") with
    | Started b => (st_put s GENESIS_HASH_KEY b, Started (Some b))
    | Refused w => (s, Refused w)
    | Panics => (s, Panics)
    end
  | None =>
    match st_get s GENESIS_HASH_KEY with
    | Some data => (s, Started (if (length data =? 32)%nat then Some data else None))
    | None => let root := st_state_root s in (st_put s GENESIS_HASH_KEY root, Started (Some root))
    end
  end.

Definition record_chain_id (g : GenesisConfig) s : S :=
  match st_get s CHAIN_ID_KEY with
  | None => st_put s CHAIN_ID_KEY (le_bytes 8 (gc_chain_id g))
  | Some _ => s
  end.
End boot.

(** ** The configurations of the source *)

Definition repeated (pair : string) : str := concat (replicate 32 (chars pair)).

Definition default_devnet : GenesisConfig :=
  mkGenesisConfig "Solen Devnet" 1337 2000 100
    [mkValidatorConfig "validator-1" (Some (repeated "01")) None 5000000000000]
    [mkAllocation "alice" None (1000000 * 100000000) None (Some (repeated "0a"));
     mkAllocation "bob" None (500000 * 100000000) None (Some (repeated "0b"))]
    (Some (mkFaucet "faucet" (repeated "2a") (100000 * 100000000) 60)) [] [] 14.

Definition default_testnet : GenesisConfig :=
  mkGenesisConfig "Solen Testnet" 9000 2000 100
    [mkValidatorConfig "validator-1" (Some (repeated "01")) None 2500000000000000;
     mkValidatorConfig "validator-2" (Some (repeated "02")) None 2500000000000000;
     mkValidatorConfig "validator-3" (Some (repeated "03")) None 2500000000000000;
     mkValidatorConfig "validator-4" (Some (repeated "04")) None 2500000000000000]
    [] (Some (mkFaucet "faucet" (repeated "2a") 100000000 300))
    [mkRecipient "team-member-1" (repeated "aa") 15000000000000000;
     mkRecipient "team-member-2" (repeated "bb") 15000000000000000]
    [mkRecipient "investor-1" (repeated "cc") 5000000000000000;
     mkRecipient "investor-2" (repeated "dd") 5000000000000000] 14.

(** A stand-in for the derivation of a key from its seed. *)
Definition toy_public_key (seed : bytes) : bytes := map (fun b => 255 - b) seed.

(** The genesis of the test network: 2000 million tokens in the funds, the
    faucet's 10 million and the stake of the validators. *)
Lemma genesis_sound_witness :
  exists accounts s', genesis_accounts toy_public_key default_testnet = Started accounts
    /\ genesis_apply toy_public_key default_testnet mem_new = (s', Started tt)
    /\ staking_wf (staking_load s')
    /\ rpc_config_u128 s' TOTAL_SUPPLY_KEY = Some (supply (map ga_id accounts) s' + locked_tokens (staking_load s'))
    /\ rpc_config_u128 s' TOTAL_SUPPLY_KEY = Some ((1900000000 + 10000000 + 100000000) * 100000000).
Proof.
  eexists. assert (Hok : genesis_ok toy_public_key default_testnet
    (match genesis_accounts toy_public_key default_testnet with Started a => a | _ => [] end)).
  { split.
    - vm_compute. reflexivity.
    - eexists. vm_compute. reflexivity.
    - apply (bool_decide_unpack _). vm_compute. exact I.
    - apply Forall_forall. intros a Ha%list_elem_of_In. apply Z.leb_le.
      revert a Ha. apply forallb_forall. vm_compute. reflexivity.
    - apply Forall_forall. intros a Ha%list_elem_of_In. apply Z.leb_le.
      revert a Ha. apply forallb_forall. vm_compute. reflexivity.
    - vm_compute. discriminate. }
  destruct (genesis_sound toy_public_key default_testnet _ mem_new Hok) as (s' & E & _ & Hwf & _ & Hsup).
  exists s'. split; [vm_compute; reflexivity|]. split; [exact E|]. split; [exact Hwf|]. split; [exact Hsup|].
  replace s' with (fst (genesis_apply toy_public_key default_testnet mem_new)) by (by rewrite E).
  vm_compute. reflexivity.
Defined.

(** Genesis is not all or nothing: a schedule whose key is no hexadecimal text
    ends the first start with an error after the accounts and the stakes have
    been written, and the next start takes the store for a complete one, without
    the schedules and without the governance contract. *)
Definition bad_schedule : GenesisConfig :=
  mkGenesisConfig "Solen Devnet" 1337 2000 100
    [mkValidatorConfig "validator-1" (Some (repeated "01")) None 5000000000000] [] None
    [mkRecipient "team-member-1" (repeated "aa") 7; mkRecipient "team-member-2" (repeated "zz") 7] [] 14.

Theorem interrupted_genesis_adopted :
  let s1 := fst (apply_if_empty toy_public_key bad_schedule mem_new) in
  validate bad_schedule = None
  /\ snd (apply_if_empty toy_public_key bad_schedule mem_new) = Refused "invalid digit found in string"
  /\ apply_if_empty toy_public_key bad_schedule s1 = (s1, Started tt)
  /\ vesting_load s1 = vesting_default /\ st_get s1 GOVERNANCE_STORAGE_KEY = None
  /\ length (validators (staking_load s1)) = 1%nat
  /\ balance_of s1 STAKING_POOL_ADDRESS = 500000000 * 100000000.
Proof.
  intros s1. assert (Hne : bool_decide (st_scan_all s1 = []) = false) by (vm_compute; reflexivity).
  split; [vm_compute; reflexivity|]. split; [vm_compute; reflexivity|].
  split; [unfold apply_if_empty at 1; by rewrite Hne|]. split_and!; vm_compute; reflexivity.
Qed.
