(* ===== verification/Boot.v ===== *)
(** Start-up of a node ([crates/solen-node/src/main.rs]): which seed it trusts
    for a snapshot, the snapshot it restores, and the validator set it starts
    with. *)

From S2P Require Import Prelude Types Store Memory Codec Staking Treasury State Address Base64 Reputation Auth.
From S2P Require Import Validators Mempool Intents Checkpoint EngineState EngineVotes Rpc Transfer Genesis.
Open Scope Z_scope.

Inductive Network : Type := Devnet | Testnet | Mainnet.
Definition is_mainnet (net : Network) : bool := match net with Mainnet => true | _ => false end.

(** ** What the seeds answer

    A field of a JSON answer that is missing or of another type is the default
    the source takes for it. *)

Record CheckpointReply : Type := mkCheckpointReply {
  cr_height : u64; cr_block_hash : str; cr_state_root : str;
  (** [None] if it is no array; an entry that is no array is [None] *)
  cr_attestations : option (list (option (str * str)));
}.
Record MetaReply : Type := mkMetaReply {
  mr_height : u64; mr_state_root : str; mr_checkpoint : option CheckpointReply;
}.
Record Seed : Type := mkSeed {
  sd_url : str;
  sd_status : option (u64 * str);
  sd_meta : option MetaReply;
  sd_body : Download;
}.

(** ** The genesis validators *)

(** [copy_from_slice] into 32 bytes panics for another length. *)
Definition genesis_key (public_key_of : bytes -> bytes) (v : ValidatorConfig) : startup bytes :=
  let fixed hex (f : bytes -> bytes) := of_hex (hex_decode hex) (fun b =>
    if (length b =? 32)%nat then Started (f b) else Panics) in
  match vc_seed_hex v, vc_public_key_hex v with
  | Some seed_hex, _ => fixed seed_hex public_key_of
  | None, Some pk_hex => fixed pk_hex (fun b => b)
  | None, None => Refused ("validator '" +:+ vc_name v +:+ "' needs seed_hex or public_key_hex")
  end.

Definition genesis_vset (public_key_of : bytes -> bytes) (g : GenesisConfig) : startup (list (bytes * u128)) :=
  map_started (fun v => let* pk := genesis_key public_key_of v in Started (pk, vc_stake v)) (gc_validators g).

(** The set the engine is built with. *)
Definition genesis_validator_set (public_key_of : bytes -> bytes) (g : GenesisConfig) : startup ValidatorSet :=
  map_started (fun v => let* pk := genesis_key public_key_of v in Started (validator_info_new pk (vc_stake v)))
    (gc_validators g).

(** ** The checkpoint of a seed *)

(** A decoding error is a missing value, a panic stays one. *)
Definition decoded (s : str) : startup (option bytes) :=
  match hex_decode s with
  | Returned (Ok b) => Started (Some b)
  | Returned (Err _) => Started None
  | Panicked => Panics
  end.

Section trust.
Context {crypto : Crypto}.

Fixpoint count_genesis_signers (vset : list (bytes * u128)) (msg : bytes) (atts : list (option (str * str)))
    (counted : list bytes) : startup (list bytes) :=
  match atts with
  | [] => Started counted
  | None :: atts => count_genesis_signers vset msg atts counted
  | Some (vb58, sig_hex) :: atts =>
    match List.find (fun e => bytes_eqb (account_to_base58 (fst e)) vb58) vset with
    | None => count_genesis_signers vset msg atts counted
    | Some (pk, _) =>
      if existsb (bytes_eqb pk) counted then count_genesis_signers vset msg atts counted
      else
      let* sig := decoded sig_hex in
      match sig with
      | Some b =>
        if (length b =? 64)%nat && ed25519_verify pk msg b
        then count_genesis_signers vset msg atts (counted ++ [pk])
        else count_genesis_signers vset msg atts counted
      | None => count_genesis_signers vset msg atts counted
      end
    end
  end.

(** The message the validators signed, if its parts are 32 bytes each. *)
Definition checkpoint_message (cp : CheckpointReply) : startup (option bytes) :=
  let* bh := decoded (cr_block_hash cp) in
  let* sr := decoded (cr_state_root cp) in
  Started (match bh, sr with
           | Some bh, Some sr =>
             if (length bh =? 32)%nat && (length sr =? 32)%nat
             then Some (signing_message (cr_height cp) bh sr) else None
           | _, _ => None
           end).

Definition checkpoint_valid (net : Network) (vset : list (bytes * u128)) (m : MetaReply) : startup bool :=
  match mr_checkpoint m with
  | None => Started (negb (is_mainnet net))
  | Some cp =>
    let* msg := checkpoint_message cp in
    match msg, cr_attestations cp with
    | Some msg, Some atts =>
      let* counted := count_genesis_signers vset msg atts [] in
      Started (length vset <? length counted * 2)%nat
    | _, _ => Started false
    end
  end.

(** ** The choice of a seed *)

(** The seeds that answered the status request, and those near the highest. *)
Definition answering (seeds : list Seed) : list (Seed * u64 * str) :=
  omap (fun s => (fun hr => (s, fst hr, snd hr)) <$> sd_status s) seeds.
Definition at_max (l : list (Seed * u64 * str)) : list (Seed * u64 * str) :=
  let max_height := fold_left Z.max (map (fun x => snd (fst x)) l) 0 in
  List.filter (fun x => sat_sub max_height (snd (fst x)) <=? 10) l.

(** The highest number of seeds with one root. *)
Definition agreement (l : list (Seed * u64 * str)) : nat :=
  let roots := map snd l in
  fold_left Nat.max (map (fun r => length (List.filter (bytes_eqb r) roots)) roots) 0%nat.

Fixpoint first_valid (net : Network) (vset : list (bytes * u128)) (seeds : list Seed) : startup (option Seed) :=
  match seeds with
  | [] => Started None
  | s :: seeds =>
    match sd_meta s with
    | None => first_valid net vset seeds
    | Some m =>
      let* valid := checkpoint_valid net vset m in
      if valid then Started (Some s) else first_valid net vset seeds
    end
  end.

Definition choose_seed (net : Network) (vset : list (bytes * u128)) (seeds : list Seed) : startup (option Seed) :=
  let roots := answering seeds in
  let near := at_max roots in
  let need_consensus := if is_mainnet net && (1 <? length roots)%nat then 2%nat else 1%nat in
  if (need_consensus <=? agreement near)%nat
  then first_valid net vset (map (fun x => fst (fst x)) near)
  else Started None.

(** ** The restore *)

Context {S : Type} `{!StateStore S} {zip : Deflate}.

(** Start-up with an empty store and seeds to ask: the store afterwards, and
    the height of the snapshot if one was restored. *)
Definition restore_from_seeds (net : Network) (vset : list (bytes * u128)) (seeds : list Seed) (store : S) :
    S * startup (option u64) :=
  match choose_seed net vset seeds with
  | Refused w => (store, Refused w)
  | Panics => (store, Panics)
  | Started None => (store, Started None)
  | Started (Some seed) =>
    match sd_body seed with
    | Complete data =>
      match restore_snapshot store data with
      | (store, Ok meta) => (store, Started (Some (sm_height meta)))
      | (store, Err err) => (store, Refused ("snapshot restore failed: " +:+ snapshot_error_msg err))
      end
    | Broken | Unfinished => (store, Refused "chunk download failed")
    end
  end.
End trust.

(** ** The validator set after a restart *)

Section reconcile.
Context {St : Type} `{!StateStore St} `{!Codec StakingContract}.
Implicit Types e : Engine St.

(** One validator of the staking contract. *)
Definition reconcile_validator (vs : ValidatorSet) (sv : StakingValidator) : ValidatorSet :=
  let total := sat_add128 (self_stake sv) (total_delegated sv) in
  match vs_get vs (sv_id sv) with
  | Some _ =>
    update_first (is_validator (sv_id sv)) (fun v =>
      let v := set_vi_stake total v in if negb (is_active sv) then set_vi_status VJailed v else v) vs
  | None => if is_active sv && (0 <? total) then vs_add vs (validator_info_new (sv_id sv) total) else vs
  end.

Definition reconcile_set (on_chain : list StakingValidator) (vs : ValidatorSet) : ValidatorSet :=
  let vs := fold_left reconcile_validator on_chain vs in
  let to_remove := map vi_id (List.filter (fun v => negb (existsb (has_id (vi_id v)) on_chain)) vs) in
  fold_left vs_remove to_remove vs.

Definition reconcile_validators e : Engine St :=
  set_validator_set (reconcile_set (validators (staking_load (en_store e))) (en_validator_set e)) e.

(** The finalised checkpoint on record. *)
Definition load_finalized `{!Codec FinalizedCheckpoint} e : Engine St :=
  set_finalized_checkpoints (checkpoint_load (en_store e)) e.

(** From the store to the running engine. *)
Definition boot_engine `{!BlockExec St} {crypto : Crypto} `{!Codec BlockHeader} `{!Codec FinalizedCheckpoint}
    (cfg : EngineConfig) (store : St) (genesis_set : ValidatorSet) : Engine St :=
  let e := with_validators cfg store (mempool_new (Z.to_nat 50000)) genesis_set in
  fst (reconcile_tip_with_finalized_checkpoint (load_finalized (reconcile_validators e))).
End reconcile.

(** ** A chosen seed carries the signatures of a majority *)

Section majority.
Context {crypto : Crypto}.

(** A genesis validator's signature of a message is among the attestations. *)
Definition signed_by (vset : list (bytes * u128)) (msg : bytes) (atts : list (option (str * str))) (pk : bytes) : Prop :=
  exists stake sig_hex sig, (pk, stake) ∈ vset /\ Some (account_to_base58 pk, sig_hex) ∈ atts
    /\ hex_decode sig_hex = Returned (Ok sig) /\ length sig = 64%nat /\ ed25519_verify pk msg sig = true.

Lemma count_signers_spec vset msg atts counted signers :
  count_genesis_signers vset msg atts counted = Started signers ->
  NoDup counted ->
  NoDup signers /\ forall pk, pk ∈ signers -> pk ∈ counted \/ signed_by vset msg atts pk.
Proof.
  revert counted. induction atts as [|a atts IH]; intros counted; cbn [count_genesis_signers].
  { intros [= <-] Hn. split; [done|]. by left. }
  assert (Hmono : forall pk, signed_by vset msg atts pk -> signed_by vset msg (a :: atts) pk).
  { intros pk (st & h & sig & ? & ? & ?). exists st, h, sig. split; [done|]. split; [by right|done]. }
  assert (Hskip : count_genesis_signers vset msg atts counted = Started signers -> NoDup counted ->
    NoDup signers /\ forall pk, pk ∈ signers -> pk ∈ counted \/ signed_by vset msg (a :: atts) pk).
  { intros H Hn. destruct (IH counted H Hn) as [? Hs]. split; [done|]. intros pk [?|?]%Hs; [by left|right; auto]. }
  destruct a as [[vb58 sig_hex]|]; [|exact Hskip].
  destruct (List.find _ vset) as [[pk stake]|] eqn:Ef; [|exact Hskip].
  destruct (existsb (bytes_eqb pk) counted) eqn:Ec; [exact Hskip|].
  unfold decoded. destruct (hex_decode sig_hex) as [[sig|]|] eqn:Eh; cbn [started_then]; [|exact Hskip|done].
  destruct ((length sig =? 64)%nat && ed25519_verify pk msg sig) eqn:Ev; [|exact Hskip].
  intros H Hn. apply find_elem in Ef as [Hin Hb]. cbn [fst] in Hb. prop_bool. subst vb58.
  assert (Hfresh : pk ∉ counted).
  { intros Hpk. apply not_true_iff_false in Ec. apply Ec, existsb_exists. exists pk.
    split; [by apply list_elem_of_In|apply bytes_eqb_refl]. }
  destruct (IH (counted ++ [pk]) H) as [Hn' Hs].
  { apply NoDup_app. split; [done|]. split; [|repeat constructor; by apply not_elem_of_nil]. intros x Hx Hs%list_elem_of_singleton. by subst x. }
  split; [done|]. intros q Hq. destruct (Hs q Hq) as [[?|Hq']%elem_of_app|?]; [by left| |right; auto].
  apply list_elem_of_singleton in Hq' as ->. right. exists stake, sig_hex, sig. split; [done|]. split; [by left|]. split; [done|]. split; [by apply Nat.eqb_eq|done].
Qed.

(** What makes a seed acceptable: a checkpoint whose hash and root are 32 bytes
    each, signed by more than half of the genesis keys. *)
Definition majority_signed (vset : list (bytes * u128)) (cp : CheckpointReply) : Prop :=
  exists bh sr atts signers,
    hex_decode (cr_block_hash cp) = Returned (Ok bh) /\ hex_decode (cr_state_root cp) = Returned (Ok sr)
    /\ length bh = 32%nat /\ length sr = 32%nat /\ cr_attestations cp = Some atts
    /\ NoDup signers /\ (length vset < 2 * length signers)%nat
    /\ forall pk, pk ∈ signers -> signed_by vset (signing_message (cr_height cp) bh sr) atts pk.

Lemma checkpoint_valid_spec net vset m cp :
  checkpoint_valid net vset m = Started true -> mr_checkpoint m = Some cp -> majority_signed vset cp.
Proof.
  unfold checkpoint_valid. intros H E. rewrite E in H. unfold checkpoint_message, decoded in H.
  destruct (hex_decode (cr_block_hash cp)) as [[bh|]|] eqn:Eb; cbn [started_then] in H; [| |done];
    (destruct (hex_decode (cr_state_root cp)) as [[sr|]|] eqn:Es; cbn [started_then] in H; [| |done]); try done.
  destruct ((length bh =? 32)%nat && (length sr =? 32)%nat) eqn:El; [|done].
  destruct (cr_attestations cp) as [atts|] eqn:Ea; [|done].
  destruct (count_genesis_signers _ _ _ _) as [signers| |] eqn:Ec; cbn [started_then] in H; [|done..].
  injection H as Hlt%Nat.ltb_lt. destruct (count_signers_spec _ _ _ _ _ Ec) as [Hn Hs]; [constructor|].
  apply andb_prop in El as [Hb%Nat.eqb_eq Hr%Nat.eqb_eq].
  exists bh, sr, atts, signers. do 5 (split; [done|]). split; [done|]. split; [lia|].
  intros pk [Hpk%not_elem_of_nil|?]%Hs; done.
Qed.

Lemma first_valid_spec net vset seeds seed :
  first_valid net vset seeds = Started (Some seed) ->
  seed ∈ seeds /\ exists m, sd_meta seed = Some m /\ checkpoint_valid net vset m = Started true.
Proof.
  induction seeds as [|s seeds IH]; cbn [first_valid]; [done|].
  destruct (sd_meta s) as [m|] eqn:Em; [|intros [? ?]%IH; split; [by right|done]].
  destruct (checkpoint_valid net vset m) as [[]| |] eqn:Ev; cbn [started_then]; [| |done..].
  - intros [= <-]. split; [by left|]. by exists m.
  - intros [? ?]%IH. split; [by right|done].
Qed.

Lemma at_max_sub l x : x ∈ at_max l -> x ∈ l.
Proof. unfold at_max. intros H%list_elem_of_In. apply filter_In in H as [H _]. by apply list_elem_of_In. Qed.

Lemma answering_elem seeds s h r : (s, h, r) ∈ answering seeds -> s ∈ seeds /\ sd_status s = Some (h, r).
Proof.
  unfold answering. intros (s' & Hs & Hx)%list_elem_of_omap.
  destruct (sd_status s') as [[h' r']|] eqn:E; [|done]. cbn in Hx. by simplify_eq.
Qed.

(** C32: which seed a node on the main network trusts. A seed is chosen only if it
    answered the status request and its metadata carry a checkpoint that
    pairwise different validators of the genesis file, more than half of them,
    have signed; a repeated or unknown signer is not counted. *)
Theorem mainnet_seed_trusted vset seeds seed :
  choose_seed Mainnet vset seeds = Started (Some seed) ->
  seed ∈ seeds /\ is_Some (sd_status seed)
  /\ exists m cp, sd_meta seed = Some m /\ mr_checkpoint m = Some cp /\ majority_signed vset cp.
Proof.
  unfold choose_seed. destruct (_ <=? _)%nat; [|done]. intros (Hin & m & Hm & Hv)%first_valid_spec.
  apply list_elem_of_fmap in Hin as ([[s h] r] & -> & Hin%at_max_sub%answering_elem). cbn [fst] in *.
  destruct Hin as [Hs Hst]. split; [done|]. split; [by rewrite Hst|].
  destruct (mr_checkpoint m) as [cp|] eqn:Ec.
  - exists m, cp. split; [done|]. split; [done|]. by apply (checkpoint_valid_spec Mainnet vset m).
  - unfold checkpoint_valid in Hv. by rewrite Ec in Hv.
Qed.
End majority.

(** ** What the checkpoint does not cover *)

Section forged.
Context {crypto : Crypto} {zip : Deflate}.
#[local] Existing Instance snap_store | 0.
#[local] Existing Instance snap_laws | 0.

Lemma fold_max_ge (l : list nat) n x : (x ∈ l \/ x <= n)%nat -> (x <= fold_left Nat.max l n)%nat.
Proof.
  revert n. induction l as [|y l IH]; intros n; cbn [fold_left].
  - intros [?%not_elem_of_nil|?]; done.
  - intros [[->|?]%elem_of_cons|?]; apply IH; [right; lia|by left|right; lia].
Qed.

Lemma fold_max_same (l : list Z) h : 0 <= h -> Forall (eq h) l -> fold_left Z.max l h = h.
Proof. intros Hh. induction 1 as [|x l <- _ IH]; [done|]. cbn. by rewrite Z.max_id. Qed.

(** Seeds that all report one height are all near the highest. *)
Lemma at_max_all l h : 0 <= h -> Forall (fun x => snd (fst x) = h) l -> at_max l = l.
Proof.
  intros Hh Hl. unfold at_max. destruct l as [|x l]; [done|]. apply Forall_cons in Hl as [Hx Hl]. cbn [map fold_left].
  assert (E : fold_left Z.max (map (fun x => snd (fst x)) l) (Z.max 0 (snd (fst x))) = h).
  { rewrite Hx, Z.max_r by done. apply fold_max_same; [done|]. apply Forall_map. eapply Forall_impl; [exact Hl|]. by intros ? <-. }
  rewrite E. assert (Ha : forall y : Seed * u64 * str, snd (fst y) = h -> (sat_sub h (snd (fst y)) <=? 10) = true).
  { intros y ->. apply Z.leb_le. unfold sat_sub. lia. }
  cbn [List.filter]. rewrite (Ha x Hx). f_equal. clear E.
  induction Hl as [|y l Hy _ IH]; [done|]. cbn [List.filter]. by rewrite (Ha y Hy), IH.
Qed.

(** Any snapshot passes with a checkpoint that once was signed: a seed that
    repeats a genuine checkpoint, which every node publishes, and serves the
    snapshot of a store of its own making is chosen on the main network even
    beside honest seeds that agree with each other, and the node starts with
    the store the seed made up. *)
Theorem forged_snapshot_restored vset m (honest : list Seed) hs r (forged : MemoryStore) url root root' height epoch :
  checkpoint_valid Mainnet vset m = Started true ->
  0 <= hs -> Forall (fun s => sd_status s = Some (hs, r)) honest -> (2 <= length honest)%nat ->
  mem_reachable blake3 forged -> in_u64 height -> in_u64 epoch -> length (st_state_root forged) = 32%nat ->
  Forall entry_fits (st_scan_all forged) -> Z.of_nat (length (st_scan_all forged)) <= u64_max ->
  inflate (deflate (snapshot_body (st_scan_all forged))) = (snapshot_body (st_scan_all forged), None) ->
  Z.of_nat (length (snapshot_body (st_scan_all forged))) <= MAX_SNAPSHOT_SIZE ->
  let seed := mkSeed url (Some (hs, root)) (Some (mkMetaReply height root' (mr_checkpoint m)))
                (Complete (create_snapshot forged height epoch)) in
  exists s', restore_from_seeds Mainnet vset (seed :: honest) mem_new = (s', Started (Some height))
    /\ store_eq s' forged.
Proof.
  intros Hv Hhs Hh Hlen Hr H1 H2 H3 H4 H5 H6 H7 seed.
  assert (Ea : answering (seed :: honest) = (seed, hs, root) :: map (fun s => (s, hs, r)) honest).
  { unfold answering. cbn. f_equal. clear -Hh. induction Hh as [|s l Hs _ IH]; [done|]. cbn. by rewrite Hs, IH. }
  assert (Em : at_max (answering (seed :: honest)) = answering (seed :: honest)).
  { apply (at_max_all _ hs Hhs). rewrite Ea. constructor; [done|]. apply Forall_map. by apply Forall_true. }
  assert (Ec : choose_seed Mainnet vset (seed :: honest) = Started (Some seed)).
  { unfold choose_seed. rewrite Em, Ea. cbn [is_mainnet]. rewrite (proj2 (Nat.leb_le _ _)).
    - cbn [map fst first_valid sd_meta seed]. unfold checkpoint_valid in *. cbn [mr_checkpoint]. by rewrite Hv.
    - transitivity 2%nat; [destruct (_ && _); lia|]. transitivity (length honest); [done|].
      assert (Hc : (length honest <= length (List.filter (bytes_eqb r) (root :: map (fun _ => r) honest)))%nat).
      { transitivity (length (List.filter (bytes_eqb r) (map (fun _ : Seed => r) honest))).
        - clear. induction honest as [|s l IH]; [done|]. cbn. rewrite bytes_eqb_refl. cbn. lia.
        - cbn [List.filter]. destruct (bytes_eqb r root); cbn; lia. }
      etransitivity; [exact Hc|]. unfold agreement. apply fold_max_ge. left. cbn [map snd]. rewrite map_map. cbn [snd].
      right. apply list_elem_of_fmap. exists r. split; [done|]. destruct honest; [cbn in Hlen; lia|by left]. }
  destruct (snapshot_roundtrip forged height epoch) as (s' & meta & E & Hm & _ & _ & Heq); try done.
  exists s'. unfold restore_from_seeds. rewrite Ec. cbn [sd_body seed]. rewrite E. by rewrite Hm.
Qed.

(** A seed can stop a node from starting: a text that is no hexadecimal and
    has a character outside ASCII makes the decoder of the checkpoint panic. *)
Theorem malformed_checkpoint_panics net vset m cp sr atts h :
  mr_checkpoint m = Some cp -> cp = mkCheckpointReply h [48; 233; 48] sr atts ->
  checkpoint_valid net vset m = Panics.
Proof. intros E ->. unfold checkpoint_valid. rewrite E. reflexivity. Qed.
End forged.

(** ** The set after a restart is the contract's *)

Section reconcile_laws.

(** What a validator of the contract is in the set: absent unless it is active
    with stake or was in the set before. *)
Definition reconciled (sv : StakingValidator) (vs0 vs : ValidatorSet) : Prop :=
  match vs_get vs (sv_id sv) with
  | Some v => vi_stake v = sat_add128 (self_stake sv) (total_delegated sv)
      /\ (is_active sv = false -> vi_status v = VJailed)
      /\ (is_active sv = true -> vi_status v = match vs_get vs0 (sv_id sv) with
                                               | Some v0 => vi_status v0
                                               | None => VActive
                                               end)
  | None => vs_get vs0 (sv_id sv) = None
      /\ (is_active sv = false \/ sat_add128 (self_stake sv) (total_delegated sv) <= 0)
  end.

Lemma vs_get_update (id id' : ValidatorId) (f : ValidatorInfo -> ValidatorInfo) vs :
  (forall v, vi_id (f v) = vi_id v) ->
  vs_get (update_first (is_validator id') f vs) id
  = if decide (id = id') then f <$> vs_get vs id else vs_get vs id.
Proof.
  intros Hf. unfold vs_get. induction vs as [|v vs IH]; cbn [update_first List.find]; [by case_decide|].
  destruct (is_validator id' v) eqn:E; unfold is_validator in E; prop_bool; cbn [List.find].
  - assert (is_validator id (f v) = is_validator id v) as -> by (unfold is_validator; by rewrite Hf).
    unfold is_validator at 1 3 5. case_decide as Hd; subst.
    + by rewrite bytes_eqb_refl.
    + unfold bytes_eqb. by rewrite bool_decide_false.
  - rewrite IH. case_decide as Hd; subst; [|done]. unfold is_validator at 1 3, bytes_eqb. by rewrite bool_decide_false.
Qed.

Lemma vs_get_app vs v id :
  vs_get (vs ++ [v]) id = match vs_get vs id with Some w => Some w | None => if is_validator id v then Some v else None end.
Proof. unfold vs_get. induction vs as [|w vs IH]; cbn [app List.find]; [done|]. by destruct (is_validator id w). Qed.

Lemma reconcile_other vs sv id : id <> sv_id sv -> vs_get (reconcile_validator vs sv) id = vs_get vs id.
Proof.
  intros Hne. unfold reconcile_validator. destruct (vs_get vs (sv_id sv)) eqn:E.
  - rewrite vs_get_update by (intros w; by destruct (is_active sv)). by rewrite decide_False.
  - destruct (_ && _); [|done]. unfold vs_add. rewrite vs_get_app. destruct (vs_get vs id); [done|].
    unfold is_validator, bytes_eqb. cbn. by rewrite bool_decide_false.
Qed.

Lemma reconcile_own vs sv : reconciled sv vs (reconcile_validator vs sv).
Proof.
  unfold reconciled, reconcile_validator. destruct (vs_get vs (sv_id sv)) as [v|] eqn:E.
  - rewrite vs_get_update by (intros w; by destruct (is_active sv)). rewrite decide_True, E by done. cbn.
    destruct (is_active sv); done.
  - destruct (is_active sv && (0 <? sat_add128 (self_stake sv) (total_delegated sv))) eqn:Ea.
    + unfold vs_add. rewrite vs_get_app, E. unfold is_validator. cbn. rewrite bytes_eqb_refl. prop_bool.
      split; [done|]. split; [congruence|done].
    + rewrite E. split; [done|]. prop_bool. destruct Ea; prop_bool; [by left|by right].
Qed.

Lemma reconcile_fold on_chain vs id :
  id ∉ map sv_id on_chain -> vs_get (fold_left reconcile_validator on_chain vs) id = vs_get vs id.
Proof.
  revert vs. induction on_chain as [|sv l IH]; intros vs; [done|]. cbn [fold_left map]. intros [Hne Hl]%not_elem_of_cons.
  rewrite IH by done. by apply reconcile_other.
Qed.

Lemma vs_get_remove ids vs id :
  vs_get (fold_left vs_remove ids vs) id = if decide (id ∈ ids) then None else vs_get vs id.
Proof.
  revert vs. induction ids as [|i ids IH]; intros vs; cbn [fold_left]; [by rewrite decide_False by apply not_elem_of_nil|].
  rewrite IH. assert (E : vs_get (vs_remove vs i) id = if decide (id = i) then None else vs_get vs id).
  { unfold vs_get, vs_remove. clear. induction vs as [|v vs IH]; cbn [List.filter List.find]; [by case_decide|].
    unfold is_validator, bytes_eqb in *. destruct (bool_decide (vi_id v = i)) eqn:Ei; cbn [negb]; prop_bool.
    - rewrite IH. case_decide; [done|]. by rewrite bool_decide_false by congruence.
    - cbn [List.find]. rewrite IH. case_decide as Hd; subst; [by rewrite bool_decide_false|done]. }
  rewrite E. destruct (decide (id = i)) as [->|Hne].
  - rewrite (decide_True (P := i ∈ i :: ids)) by by left. by case_decide.
  - destruct (decide (id ∈ ids)); [by rewrite decide_True by by right|].
    rewrite decide_False; [done|]. intros [?|?]%elem_of_cons; done.
Qed.

(** The set a node starts with follows the staking contract: a validator of the
    contract has its whole stake, is jailed unless the contract has it active,
    and is missing only if it was not in the genesis file and has nothing at
    stake; nobody else is in the set. *)
Theorem reconcile_follows_contract on_chain vs :
  NoDup (map sv_id on_chain) ->
  Forall (fun sv => reconciled sv vs (reconcile_set on_chain vs)) on_chain
  /\ forall id, id ∉ map sv_id on_chain -> vs_get (reconcile_set on_chain vs) id = None.
Proof.
  intros Hn. unfold reconcile_set. set (vs1 := fold_left reconcile_validator on_chain vs).
  set (gone := map vi_id (List.filter _ vs1)).
  assert (Hgone : forall id, id ∈ map sv_id on_chain -> id ∉ gone).
  { intros id (sv & -> & Hsv)%list_elem_of_fmap (v & Hid & Hv)%list_elem_of_fmap.
    apply list_elem_of_In, filter_In in Hv as [_ Hv]. apply negb_true_iff, not_true_iff_false in Hv. apply Hv.
    apply existsb_exists. exists sv. split; [by apply list_elem_of_In|]. unfold has_id. rewrite Hid. apply bytes_eqb_refl. }
  split.
  - apply Forall_forall. intros sv Hsv. unfold reconciled. rewrite vs_get_remove, decide_False.
    2:{ apply Hgone. by apply list_elem_of_fmap_2. }
    apply list_elem_of_split in Hsv as (l1 & l2 & ->). rewrite map_app in Hn. cbn in Hn.
    apply NoDup_app in Hn as (_ & Hd & Hn2). apply NoDup_cons in Hn2 as [Hn2 _].
    unfold vs1. rewrite fold_left_app. cbn [fold_left]. rewrite reconcile_fold by done.
    assert (Hn1 : sv_id sv ∉ map sv_id l1) by (intros Hi; apply (Hd _ Hi); by left).
    pose proof (reconcile_own (fold_left reconcile_validator l1 vs) sv) as Ho. unfold reconciled in Ho.
    by rewrite (reconcile_fold l1 vs) in Ho by done.
  - intros id Hid. rewrite vs_get_remove. case_decide as Hg; [done|]. apply eq_None_not_Some. intros [v Hv].
    apply Hg. unfold gone. apply find_elem in Hv as [Hv Hi]. unfold is_validator in Hi. prop_bool. subst id.
    apply list_elem_of_fmap_2, list_elem_of_In, filter_In. split; [by apply list_elem_of_In|].
    apply negb_true_iff, not_true_iff_false. intros (sv & Hsv & Hh)%existsb_exists. unfold has_id in Hh. prop_bool.
    apply Hid. rewrite <- Hh. apply list_elem_of_fmap_2. by apply list_elem_of_In.
Qed.
End reconcile_laws.

(** ** A restart can change the set

    While it runs, a node lets validators worth at most a third of the stake
    join or leave per epoch ([sync_validators]); at start-up it takes over
    everything at once. *)

Definition staked (n self : Z) : StakingValidator :=
  mkStakingValidator (demo_id n) self 0 0 true false 0 DEFAULT_COMMISSION_BPS 0 None 0.
Definition grown_contract : list StakingValidator :=
  [staked 1 100; staked 2 100; staked 3 100; staked 4 100; staked 5 1000].

(** After a fifth validator has registered with a stake of 1000, the nodes that
    keep running leave it out at every epoch and need three of four votes; a
    node that restarts counts 1400, takes the vote of the fifth validator alone
    for a quorum, and the votes of all the others for none. *)
Theorem restart_changes_quorum :
  let running := sync_validators grown_contract demo_set in
  let restarted := reconcile_set grown_contract demo_set in
  let others := map demo_id [1; 2; 3; 4] in
  sync_validators grown_contract running = running
  /\ has_quorum running others = true /\ has_quorum restarted others = false
  /\ has_quorum running [demo_id 5] = false /\ has_quorum restarted [demo_id 5] = true.
Proof. vm_compute. repeat split; reflexivity. Qed.

(** ** Examples *)

Section boot_examples.
#[local] Existing Instance short_crypto | 0.
#[local] Instance boot_store : StateStore MemoryStore := @snap_store short_crypto.

(** Three genesis validators, two of which signed the checkpoint of height 100;
    the second signature of the first and the stranger's are not counted. *)
Definition seed_vset : list (bytes * u128) := map (fun n => (demo_id n, 100)) [1; 2; 3].
Definition signature_text (n : Z) : str := chars (hex_encode (n :: replicate 63 0)).
Definition genuine_checkpoint : CheckpointReply :=
  mkCheckpointReply 100 (chars (hex_encode (demo_key 7))) (chars (hex_encode (demo_key 8)))
    (Some [Some (account_to_base58 (demo_id 1), signature_text 1);
           Some (account_to_base58 (demo_id 1), signature_text 1);
           Some (account_to_base58 (demo_id 9), signature_text 9); None;
           Some (account_to_base58 (demo_id 2), signature_text 2)]).
Definition honest_meta : MetaReply := mkMetaReply 120 (chars "aa") (Some genuine_checkpoint).
Definition honest_seed (n : Z) : Seed := mkSeed [n] (Some (120, chars "aa")) (Some honest_meta) Broken.

Lemma mainnet_seed_trusted_witness :
  choose_seed Mainnet seed_vset [honest_seed 1; honest_seed 2] = Started (Some (honest_seed 1))
  /\ exists cp, majority_signed seed_vset cp /\ cr_height cp = 100.
Proof.
  assert (H : choose_seed Mainnet seed_vset [honest_seed 1; honest_seed 2] = Started (Some (honest_seed 1)))
    by (vm_compute; reflexivity).
  split; [exact H|].
  destruct (mainnet_seed_trusted seed_vset [honest_seed 1; honest_seed 2] (honest_seed 1) H)
    as (_ & _ & m & cp & Hm & Hc & Hs).
  exists cp. split; [exact Hs|]. injection Hm as <-. injection Hc as <-. reflexivity.
Defined.

(** The store of another chain, behind the same checkpoint. *)
Example forged_snapshot_example :
  let seed := mkSeed [3] (Some (120, chars "bb")) (Some (mkMetaReply 120 (chars "bb") (Some genuine_checkpoint)))
                (Complete (create_snapshot snapshot_source 120 1)) in
  let '(s', r) := restore_from_seeds Mainnet seed_vset [seed; honest_seed 1; honest_seed 2] mem_new in
  r = Started (Some 120) /\ st_get s' [97] = Some [1; 2].
Proof. vm_compute. split; reflexivity. Qed.
End boot_examples.
