(* ===== verification/EngineEpoch.v ===== *)
(** The validator set across epochs ([try_epoch_transition] of
    [crates/solen-consensus/src/engine.rs]): it stays well formed, and how much
    of it may change at once. *)

From S2P Require Import Prelude Types Store Memory Overlay Staking Treasury Codec State Auth.
From S2P Require Import Executor Blocks Validators Mempool Intents Checkpoint.
From S2P Require Import EngineState EngineVotes EngineBlocks EngineRecovery EngineFrames Boot.
Open Scope Z_scope.

(** ** Well-formed sets *)

(** Distinct identifiers, and stakes and counters within their widths. *)
Definition entry_typed (v : ValidatorInfo) : Prop := in_u128 (vi_stake v) /\ in_u64 (vi_missed_blocks v).
Definition set_typed (vs : ValidatorSet) : Prop := NoDup (map vi_id vs) /\ Forall entry_typed vs.

Lemma typed_update p f vs :
  set_typed vs -> (forall v, vi_id (f v) = vi_id v) -> (forall v, entry_typed v -> entry_typed (f v)) ->
  set_typed (update_first p f vs).
Proof.
  intros [Hn Ht] Hid Hf. split; [by rewrite update_first_map|]. apply update_first_Forall; auto.
Qed.

Lemma stake_typed s v : in_u128 s -> entry_typed v -> entry_typed (set_vi_stake s v).
Proof. intros Hs [_ Hm]. by split. Qed.
Lemma status_typed st v : entry_typed v -> entry_typed (set_vi_status st v).
Proof. done. Qed.
Lemma missed_typed n v : in_u64 n -> entry_typed v -> entry_typed (set_vi_missed n v).
Proof. intros Hn [Hs _]. by split. Qed.
#[local] Hint Resolve stake_typed status_typed missed_typed : core.

Lemma zero_u64 : in_u64 0.
Proof. split; vm_compute; discriminate. Qed.
#[local] Hint Resolve zero_u64 : core.

Lemma total_stake_typed sv : in_u128 (total_stake sv).
Proof. apply u128_add_range. Qed.
#[local] Hint Resolve total_stake_typed : core.

Lemma vs_get_none vs id : vs_get vs id = None -> ~ (id ∈ map vi_id vs).
Proof.
  intros Hg Hin. apply list_elem_of_fmap in Hin as (v & -> & Hv).
  pose proof (find_none_elem _ _ Hg v Hv) as E. unfold is_validator in E. by rewrite bytes_eqb_refl in E.
Qed.

Lemma filter_ids_NoDup p vs : NoDup (map vi_id vs) -> NoDup (map vi_id (List.filter p vs)).
Proof.
  induction vs as [|v vs IH]; cbn; intros Hn; [constructor|]. apply NoDup_cons in Hn as [Hv Hn].
  destruct (p v); [|auto]. cbn. constructor; [|auto]. intros Hin. apply Hv.
  apply list_elem_of_fmap in Hin as (w & -> & Hw). apply list_elem_of_In, filter_In in Hw as [Hw _].
  by apply list_elem_of_fmap_2, list_elem_of_In.
Qed.

Lemma filter_none {A} (p : A -> bool) l : Forall (fun x => p x = false) l -> List.filter p l = [].
Proof. induction 1 as [|x l Hx Hl IH]; cbn; [done|]. by rewrite Hx. Qed.

Lemma typed_filter p vs : set_typed vs -> set_typed (List.filter p vs).
Proof. intros [Hn Ht]. split; [by apply filter_ids_NoDup|by apply Forall_filter_bool]. Qed.

Lemma typed_rewards em vs : set_typed vs -> set_typed (snd (process_epoch_transition em vs)).
Proof.
  unfold process_epoch_transition. destruct (0 <? _); [|done]. cbn [snd].
  set (R := u128_mul _ _). set (T := vs_total_active_stake vs).
  clearbody R T. generalize vs at 2. intros copy. revert vs. induction copy as [|c copy IH]; intros vs Hv; [done|].
  cbn [fold_left]. apply IH. unfold reward_entry. destruct (vi_is_active c); [|done].
  apply typed_update; [done|done|]. intros v Ht. apply stake_typed; [apply u128_add_range|done].
Qed.

Lemma typed_sync_validator m x sv : set_typed (fst x) -> set_typed (fst (sync_validator m x sv)).
Proof.
  destruct x as [vs changed]. cbn [fst]. intros Hv. unfold sync_validator.
  destruct (negb (is_active sv)); [done|]. destruct (vs_get vs (sv_id sv)) as [w|] eqn:Eg; cbn [fst].
  - apply typed_update; [done| |].
    + intros v. by destruct (negb _).
    + intros v Ht. destruct (negb _); auto.
  - destruct (over_limit _ _ _); [done|]. cbn [fst]. destruct Hv as [Hn Ht]. split.
    + unfold vs_add. rewrite map_app. cbn [map]. apply NoDup_app. split; [exact Hn|].
      split; [|apply NoDup_singleton]. intros i Hi Hs. cbn in Hs.
      apply list_elem_of_singleton in Hs. subst i. by apply (vs_get_none vs (sv_id sv)).
    + apply Forall_app. split; [done|]. constructor; [|constructor]. split; [apply total_stake_typed|apply zero_u64].
Qed.

Lemma typed_sync staking vs : set_typed vs -> set_typed (sync_validators staking vs).
Proof.
  intros Hv. unfold sync_validators. set (m := if (4 <=? vs_active_count vs)%nat then _ else _).
  assert (H1 : set_typed (fst (fold_left (sync_validator m) staking (vs, 0)))).
  { assert (H0 : set_typed (fst (vs, 0))) by done. revert H0. generalize (vs, 0).
    clearbody m.
    induction staking as [|sv l IH]; intros x Hx; [done|]. cbn [fold_left].
    apply IH. by apply typed_sync_validator. }
  destruct (fold_left (sync_validator m) staking (vs, 0)) as [vs1 changed]. cbn [fst] in H1.
  set (l := map _ _). assert (H2 : set_typed (fst (vs1, changed))) by done. clearbody l. revert H2.
  generalize (vs1, changed). induction l as [|[id stake] l IH]; intros [cur ch] Hx; [done|].
  cbn [fold_left]. apply IH. unfold remove_validator. destruct (over_limit _ _ _); [done|].
  by apply typed_filter.
Qed.

Lemma typed_jail vs i : set_typed vs -> set_typed (fst (vs_jail vs i)).
Proof. intros Hv. apply typed_update; auto. Qed.

Lemma typed_slashing debug vs ev : set_typed vs -> set_typed (fst (process_slashing debug vs ev)).
Proof.
  intros Hv. unfold process_slashing. destruct (vs_get vs (ev_offender ev)) as [w|] eqn:Eg; [|by apply typed_jail].
  apply typed_jail. apply typed_update; [done|done|]. intros v Ht. apply stake_typed; [|done].
  apply vs_get_elem in Eg as [Hw _]. destruct Hv as [_ Ht']. rewrite Forall_forall in Ht'.
  destruct (Ht' _ Hw) as [[Hw0 Hw1] _]. unfold in_u128, sat_sub.
  assert (0 <= u128_mul (vi_stake w) (penalty_bps (ev_reason ev)) / 10000).
  { apply Z.div_pos; [apply Z.mod_pos_bound|]; lia. }
  lia.
Qed.

Lemma typed_missed vs id : set_typed vs -> set_typed (fst (record_missed_block vs id)).
Proof.
  intros Hv. unfold record_missed_block. destruct (vs_get vs id) as [w|]; [|done]. cbn [fst].
  apply typed_update; auto. intros v Ht. apply missed_typed; [apply u64_add_range|done].
Qed.

Lemma typed_add vs id s :
  set_typed vs -> vs_get vs id = None -> in_u128 s -> set_typed (vs_add vs (validator_info_new id s)).
Proof.
  intros [Hn Ht] Hg Hs. unfold vs_add. split.
  - rewrite map_app. apply NoDup_app. split; [done|]. split; [|apply NoDup_singleton].
    intros i Hi Hin. cbn in Hin. apply list_elem_of_singleton in Hin. subst i. by apply (vs_get_none vs id).
  - apply Forall_app. split; [done|]. apply Forall_singleton. by split.
Qed.

(** Amounts of a staking record within their width. *)
Definition record_typed (sv : StakingValidator) : Prop := 0 <= self_stake sv /\ 0 <= total_delegated sv.

Lemma typed_reconcile on_chain vs :
  set_typed vs -> Forall record_typed on_chain -> set_typed (reconcile_set on_chain vs).
Proof.
  intros Hv Hr. unfold reconcile_set.
  assert (H1 : set_typed (fold_left reconcile_validator on_chain vs)).
  { clear -Hv Hr. revert vs Hv. induction Hr as [|sv l [Hs Hd] _ IH]; intros vs Hv; [done|]. cbn [fold_left].
    apply IH. assert (Ht : in_u128 (sat_add128 (self_stake sv) (total_delegated sv))).
    { unfold in_u128, sat_add128, u128_max. lia. }
    unfold reconcile_validator. destruct (vs_get vs (sv_id sv)) as [w|] eqn:Eg.
    - apply typed_update; [done| |]; intros v; destruct (negb _); auto.
    - destruct (_ && _); [by apply typed_add|done]. }
  revert H1. generalize (fold_left reconcile_validator on_chain vs). intros vs1 H1.
  generalize (map vi_id (List.filter (fun v => negb (existsb (has_id (vi_id v)) on_chain)) vs1)). intros l.
  revert vs1 H1. induction l as [|i l IH]; intros vs1 H1; [done|]. cbn [fold_left]. apply IH. by apply typed_filter.
Qed.

Lemma typed_sync_stakes l vs : set_typed vs -> set_typed (fold_left sync_stake l vs).
Proof.
  revert vs. induction l as [|sv l IH]; intros vs Hv; [done|]. cbn [fold_left]. apply IH.
  unfold sync_stake. destruct (is_active sv); [|done]. apply typed_update; auto.
Qed.

Section writers.
Context {St : Type} `{!StateStore St} `{!BlockExec St} {crypto : Crypto} `{!Codec BlockHeader}
        `{!Codec SerializableBlock} `{!Codec FinalizedCheckpoint} `{!Codec StakingContract}
        `{!Codec EpochRandomness} (cfg : EngineConfig) (sign : option (bytes -> bytes)).
Implicit Types e : Engine St.

Lemma epoch_set now h e :
  en_validator_set (try_epoch_transition cfg sign now h e)
  = if is_epoch_boundary h
    then sync_validators (validators (staking_load (en_store e)))
           (snd (process_epoch_transition (en_epoch_manager e) (en_validator_set e)))
    else en_validator_set e.
Proof.
  unfold try_epoch_transition. destruct (is_epoch_boundary h); [|done].
  destruct (process_epoch_transition _ _) as [em vs]. cbn [snd].
  assert (Hu : forall e, en_validator_set (update_epoch_seed cfg e) = en_validator_set e).
  { intros e1. unfold update_epoch_seed. by destruct (last _). }
  assert (Ha : forall id sg e, en_validator_set (fst (attest_checkpoint id sg e)) = en_validator_set e).
  { intros id sg e1. unfold attest_checkpoint. destruct (add_attestation _ _ _ _) as [cps []]; [|done].
    destruct (fs_latest cps) as [cp|]; [|done]. by destruct (ser cp). }
  assert (Hs : forall e, en_validator_set (self_attest_checkpoint cfg sign e) = en_validator_set e).
  { intros e1. unfold self_attest_checkpoint. destruct (fs_pending _); [|done]. destruct sign; [|done]. apply Ha. }
  assert (Hp : forall e, en_validator_set (propose_epoch_checkpoint now e) = en_validator_set e).
  { intros e1. unfold propose_epoch_checkpoint. by destruct (last _). }
  by rewrite Hu, Hs, Hp.
Qed.

Lemma typed_evidence ev e :
  set_typed (en_validator_set e) -> set_typed (en_validator_set (process_slashing_evidence ev e)).
Proof.
  intros Hv. unfold process_slashing_evidence. cbv zeta.
  destruct (existsb _ _); apply typed_update; auto.
Qed.

Lemma typed_track h proposer e :
  set_typed (en_validator_set e) -> set_typed (en_validator_set (track_missed h proposer e)).
Proof.
  intros Hv. unfold track_missed. destruct (proposer_for_height_with_seed _ _ _) as [d|]; [|done].
  destruct (negb _); [|by apply typed_update; auto].
  pose proof (typed_missed (en_validator_set e) d Hv) as Hm.
  destruct (record_missed_block _ d) as [vs [ev|]]; [by apply typed_evidence|done].
Qed.

(** C23: the consensus set keeps distinct identifiers, and stakes and counters
    within their widths, through every place of the node that writes it: the
    epoch transition with its rewards and the synchronisation with the staking
    contract, the bookkeeping of missed blocks, the evidence of a slash, the
    reset to a height in a recovery, and the reconciliation with the staking
    contract at start-up, whose amounts are not negative; and so through the
    slashing and jailing of the set itself. *)
Theorem validator_set_typed e now height proposer ev epoch debug id :
  set_typed (en_validator_set e) -> Forall record_typed (validators (staking_load (en_store e))) ->
  set_typed (en_validator_set (try_epoch_transition cfg sign now height e))
  /\ set_typed (en_validator_set (track_missed height proposer e))
  /\ set_typed (en_validator_set (process_slashing_evidence ev e))
  /\ set_typed (en_validator_set (reset_to_height cfg height epoch e))
  /\ set_typed (en_validator_set (reconcile_validators e))
  /\ set_typed (fst (process_slashing debug (en_validator_set e) ev))
  /\ set_typed (fst (vs_jail (en_validator_set e) id)).
Proof.
  intros Hv Hr. split; [|split; [by apply typed_track|split; [by apply typed_evidence|]]].
  - rewrite epoch_set. destruct (is_epoch_boundary height); [|done]. by apply typed_sync, typed_rewards.
  - split; [by apply typed_sync_stakes|]. split; [by apply typed_reconcile|].
    split; [by apply typed_slashing|by apply typed_jail].
Qed.
End writers.

(** At the boundary of an epoch, and at start-up with a staking contract of five. *)
Definition grown_engine : Engine MemoryStore :=
  EngineState.with_validators (demo_cfg 1 0)
    (staking_save (mkStakingContract (map (fun x => mkStakingValidator (demo_id x) 100 50 0 true false 0 0 0 None 0)
       [1; 2; 3; 4; 5]) [] [] None None) block_store) (mempool_new 10) demo_set.

Lemma validator_set_typed_witness :
  set_typed (en_validator_set (try_epoch_transition (demo_cfg 1 0) None 0 100 grown_engine))
  /\ set_typed (en_validator_set (reconcile_validators grown_engine))
  /\ map vi_stake (en_validator_set (reconcile_validators grown_engine)) = [150; 150; 150; 150; 150].
Proof.
  assert (H0 : set_typed (en_validator_set grown_engine)).
  { split; [apply (bool_decide_unpack _); vm_compute; exact I|].
    repeat constructor; vm_compute; discriminate. }
  assert (H1 : Forall record_typed (validators (staking_load (en_store grown_engine)))).
  { replace (validators (staking_load (en_store grown_engine))) with
      (map (fun x => mkStakingValidator (demo_id x) 100 50 0 true false 0 0 0 None 0) [1; 2; 3; 4; 5])
      by (vm_compute; reflexivity).
    repeat constructor; vm_compute; discriminate. }
  pose proof (validator_set_typed (demo_cfg 1 0) None grown_engine 0 100 (demo_id 1)
    (mkEvidence (demo_id 2) (Downtime 100)) 1 (fun _ => ""%string) (demo_id 2) H0 H1) as (A & _ & _ & _ & B & _).
  split; [exact A|]. split; [exact B|]. vm_compute. reflexivity.
Defined.

(** ** How much of the set changes *)

Section change.
Variables (max_change : u128) (staking : list StakingValidator) (vs : ValidatorSet).
Hypotheses (Hmax : 0 < max_change < u128_max) (Hids : NoDup (map vi_id vs))
           (Hstakes : Forall (fun v => 0 <= vi_stake v) vs).

Definition wanted (v : ValidatorInfo) : bool :=
  existsb (bytes_eqb (vi_id v)) (map sv_id (List.filter is_active staking)).

Lemma over_limit_false changed stake :
  0 <= changed -> 0 <= stake -> over_limit max_change changed stake = false ->
  changed + stake <= max_change /\ sat_add128 changed stake = changed + stake.
Proof.
  intros Hc Hs. unfold over_limit. rewrite (proj2 (Z.ltb_lt 0 max_change)) by lia.
  rewrite andb_true_r. intros Hl%Z.ltb_ge. unfold sat_add128 in *. lia.
Qed.

Lemma sat_add_ge changed d : 0 <= changed <= u128_max -> 0 <= d -> changed <= sat_add128 changed d <= u128_max.
Proof. unfold sat_add128. lia. Qed.

(** After the loop over the staking contract: the old validators, in place and
    with their old data where they are not wanted any more, and new ones whose
    stake is within the limit. *)
Record synced (seen : list StakingValidator) (x : list ValidatorInfo * Z) (old new : list ValidatorInfo) : Prop := {
  sy_split : fst x = old ++ new;
  sy_ids : map vi_id old = map vi_id vs;
  sy_left : List.filter (fun v => negb (wanted v)) old = List.filter (fun v => negb (wanted v)) vs;
  sy_new : Forall (fun v => wanted v = true /\ vi_id v ∈ map sv_id seen
                            /\ ~ (vi_id v ∈ map vi_id vs) /\ 0 <= vi_stake v) new;
  sy_changed : 0 <= snd x <= u128_max;
  sy_limit : sumZ (map vi_stake new) <= snd x /\ sumZ (map vi_stake new) <= max_change;
}.

Lemma update_first_app {A} (p : A -> bool) f l1 l2 :
  existsb p l1 = true -> update_first p f (l1 ++ l2) = update_first p f l1 ++ l2.
Proof.
  induction l1 as [|x l1 IH]; cbn; [done|]. destruct (p x); [done|]. cbn. intros E. by rewrite IH.
Qed.

Lemma filter_update_first_not {A} (q p : A -> bool) f (l : list A) :
  (forall x, p x = true -> q x = false /\ q (f x) = false) ->
  List.filter q (update_first p f l) = List.filter q l.
Proof.
  intros Hq. induction l as [|x l IH]; cbn; [done|]. destruct (p x) eqn:E; cbn.
  - destruct (Hq x E) as [E1 E2]. by rewrite E1, E2.
  - by rewrite IH.
Qed.

Lemma wanted_active sv v : sv ∈ staking -> is_active sv = true -> vi_id v = sv_id sv -> wanted v = true.
Proof.
  intros Hs Ha Hv. unfold wanted. apply existsb_exists. exists (sv_id sv).
  split; [|rewrite Hv; apply bytes_eqb_refl].
  apply in_map, filter_In. split; [by apply list_elem_of_In|done].
Qed.

Lemma synced_step seen sv x old new :
  synced seen x old new -> sv ∈ staking -> ~ (sv_id sv ∈ map sv_id seen) ->
  exists old' new', synced (seen ++ [sv]) (sync_validator max_change x sv) old' new'.
Proof.
  destruct x as [cur changed]. intros [Es Ei El En Ec Eb] Hin Hnew. cbn [fst snd] in *. subst cur.
  assert (Hmore : Forall (fun v => wanted v = true /\ vi_id v ∈ map sv_id (seen ++ [sv])
                            /\ ~ (vi_id v ∈ map vi_id vs) /\ 0 <= vi_stake v) new).
  { eapply Forall_impl; [exact En|]. cbn. intros v (? & ? & ? & ?).
    split; [done|]. split; [|done]. rewrite map_app. apply elem_of_app. by left. }
  unfold sync_validator. destruct (is_active sv) eqn:Ha; cbn [negb]; [|by exists old, new].
  destruct (vs_get (old ++ new) (sv_id sv)) as [w|] eqn:Eg.
  - apply vs_get_elem in Eg as [Hw Ew].
    assert (Hold : w ∈ old).
    { apply elem_of_app in Hw as [Hw|Hw]; [done|]. exfalso. apply Hnew. rewrite Forall_forall in En.
      destruct (En _ Hw) as (_ & Hseen & _). by rewrite <- Ew. }
    set (f := fun v => _ : ValidatorInfo).
    exists (update_first (is_validator (sv_id sv)) f old), new. split; cbn [fst snd].
    + apply update_first_app, existsb_exists. exists w. split; [by apply list_elem_of_In|].
      unfold is_validator. rewrite Ew. apply bytes_eqb_refl.
    + rewrite update_first_map; [done|]. intros v _. unfold f. by destruct (negb _).
    + rewrite filter_update_first_not; [done|]. intros v Hv. apply bytes_eqb_true in Hv.
      split; apply negb_false_iff, (wanted_active sv); try done. unfold f. by destruct (negb _).
    + exact Hmore.
    + pose proof (sat_add_ge changed (stake_change (total_stake sv) (vi_stake w)) Ec (Z.abs_nonneg _)). lia.
    + pose proof (sat_add_ge changed (stake_change (total_stake sv) (vi_stake w)) Ec (Z.abs_nonneg _)). lia.
  - pose proof (total_stake_typed sv) as [Ht _]. destruct (over_limit _ _ _) eqn:Eo; [by exists old, new|].
    apply over_limit_false in Eo as [Hle Eq]; [|lia|lia].
    exists old, (new ++ [validator_info_new (sv_id sv) (total_stake sv)]). split; cbn [fst snd]; try done.
    + unfold vs_add. by rewrite <- app_assoc.
    + apply Forall_app. split; [done|]. constructor; [|constructor]. cbn.
      split; [by apply (wanted_active sv)|]. split.
      { rewrite map_app. apply elem_of_app. right. by left. }
      split; [|done]. rewrite <- Ei. intros Hi. apply (vs_get_none _ _ Eg). rewrite map_app.
      apply elem_of_app. by left.
    + rewrite Eq. lia.
    + rewrite map_app, sumZ_app, Eq. cbn. lia.
Qed.

Lemma synced_loop rest seen x old new :
  synced seen x old new -> staking = seen ++ rest -> NoDup (map sv_id staking) ->
  exists old' new', synced staking (fold_left (sync_validator max_change) rest x) old' new'.
Proof.
  revert seen x old new. induction rest as [|sv rest IH]; intros seen x old new Hs E Hn; cbn [fold_left].
  - rewrite app_nil_r in E. subst seen. by exists old, new.
  - destruct (synced_step seen sv x old new Hs) as (old' & new' & Hs').
    + rewrite E. apply elem_of_app. right. by left.
    + rewrite E, map_app, NoDup_app in Hn. destruct Hn as (_ & Hd & _). intros Hi.
      apply (Hd _ Hi). by left.
    + apply (IH (seen ++ [sv]) _ old' new'); [done|by rewrite <- app_assoc|done].
Qed.

(** The loop of removals: what goes is within what is left of the limit. *)
Lemma removal_loop (l : list ValidatorInfo) cur changed :
  0 <= changed <= u128_max -> Forall (fun v => 0 <= vi_stake v) l ->
  exists gone, gone `sublist_of` l
    /\ fst (fold_left (remove_validator max_change) (map (fun v => (vi_id v, vi_stake v)) l) (cur, changed))
       = List.filter (fun v => negb (among (map vi_id gone) v)) cur
    /\ (gone = [] \/ changed + sumZ (map vi_stake gone) <= max_change).
Proof.
  revert cur changed. induction l as [|r l IH]; intros cur changed Hc Hl.
  { exists []. split; [done|]. split; [|by left]. cbn. symmetry. clear.
    induction cur as [|v cur IH]; [done|]. cbn. by rewrite IH. }
  apply Forall_cons in Hl as [Hr Hl]. cbn [map fold_left]. unfold remove_validator at 2.
  destruct (over_limit max_change changed (vi_stake r)) eqn:Eo.
  - destruct (IH cur changed Hc Hl) as (gone & Hg & E & Hs). exists gone.
    split; [by apply sublist_cons|done].
  - apply over_limit_false in Eo as [Hle Eq]; [|lia|lia].
    destruct (IH (vs_remove cur (vi_id r)) (sat_add128 changed (vi_stake r))) as (gone & Hg & E & Hs);
      [lia|done|]. exists (r :: gone). split; [by apply sublist_skip|]. split.
    + rewrite E. unfold vs_remove, among, is_validator. cbn [map existsb]. clear.
      induction cur as [|v cur IH]; [done|]. cbn [List.filter].
      destruct (bytes_eqb (vi_id v) (vi_id r)); cbn [negb orb List.filter]; [done|].
      destruct (negb _); by rewrite IH.
    + right. cbn. destruct Hs as [->|Hs]; cbn; lia.
Qed.
End change.

(** The stake of the validators of one set that are not in the other. *)
Definition stake_outside (vs other : ValidatorSet) : Z :=
  weight vs (fun v => negb (among (map vi_id other) v)).

Lemma sumZ_submseteq (l1 l2 : list ValidatorInfo) :
  l1 ⊆+ l2 -> Forall (fun v => 0 <= vi_stake v) l2 -> sumZ (map vi_stake l1) <= sumZ (map vi_stake l2).
Proof.
  intros Hs Hl. apply submseteq_Permutation in Hs as [k Hk]. rewrite Hk in *.
  apply Forall_app in Hl as [_ Hk']. rewrite map_app, sumZ_app.
  pose proof (sumZ_nonneg (map vi_stake k) ltac:(by apply Forall_map)). lia.
Qed.

Lemma same_id_same vs v w :
  NoDup (map vi_id vs) -> v ∈ vs -> w ∈ vs -> vi_id v = vi_id w -> v = w.
Proof.
  intros Hn Hv Hw E. assert (Hf : forall x, x ∈ vs -> vi_id x = vi_id v -> vs_get vs (vi_id v) = Some x).
  { intros x Hx Ex. apply (find_unique vi_id (vi_id v)); try done. intros y. apply bytes_eqb_true. }
  pose proof (Hf v Hv eq_refl). pose proof (Hf w Hw (eq_sym E)). congruence.
Qed.

Lemma u128_sum_range l : in_u128 (u128_sum l).
Proof.
  unfold u128_sum. assert (H0 : in_u128 0) by (split; vm_compute; discriminate). revert H0. generalize 0.
  induction l as [|x l IH]; intros acc Ha; [done|]. cbn. apply IH, u128_add_range.
Qed.

(** Who joins is among the new ones. *)
Lemma joining_le vs old new q :
  map vi_id old = map vi_id vs -> Forall (fun v => 0 <= vi_stake v) new ->
  stake_outside (List.filter q (old ++ new)) vs <= sumZ (map vi_stake new).
Proof.
  intros Ei Hn. unfold stake_outside, weight. rewrite !List.filter_app, map_app, sumZ_app.
  replace (List.filter _ (List.filter q old)) with (@nil ValidatorInfo).
  - cbn. rewrite Forall_forall in Hn. etrans; [apply sumZ_filter_le|apply sumZ_filter_le; done].
    intros v Hv. apply Hn. apply list_elem_of_In, filter_In in Hv as [Hv _]. by apply list_elem_of_In.
  - symmetry. apply filter_none, Forall_filter_bool, Forall_forall. intros v Hv.
    apply negb_false_iff, among_true. rewrite <- Ei. by apply list_elem_of_fmap_2.
Qed.

(** Who leaves was removed. *)
Lemma leaving_le vs old new gone p :
  NoDup (map vi_id vs) -> map vi_id old = map vi_id vs -> Forall (fun v => 0 <= vi_stake v) vs ->
  gone `sublist_of` List.filter p vs ->
  stake_outside vs (List.filter (fun v => negb (among (map vi_id gone) v)) (old ++ new))
  <= sumZ (map vi_stake gone).
Proof.
  intros Hn Ei Hpos Hg. unfold stake_outside, weight.
  assert (Hin : forall v, v ∈ gone -> v ∈ vs).
  { intros v Hv. eapply elem_of_submseteq in Hv; [|by apply sublist_submseteq, Hg].
    by apply list_elem_of_In, filter_In, proj1, list_elem_of_In in Hv. }
  apply sumZ_submseteq.
  - apply NoDup_submseteq.
    { apply (NoDup_fmap_1 vi_id). by apply filter_ids_NoDup. }
    intros v Hv. apply list_elem_of_In, filter_In in Hv as [Hv Hout]. apply list_elem_of_In in Hv.
    apply negb_true_iff in Hout. destruct (among (map vi_id gone) v) eqn:Eg.
    + apply among_true, list_elem_of_fmap in Eg as (w & Ew & Hw).
      rewrite (same_id_same vs v w); auto.
    + exfalso. assert (Hold : vi_id v ∈ map vi_id old) by (rewrite Ei; by apply list_elem_of_fmap_2).
      apply list_elem_of_fmap in Hold as (w & Ew & Hw). apply not_true_iff_false in Hout. apply Hout.
      apply among_true. rewrite Ew. apply list_elem_of_fmap_2, list_elem_of_In, filter_In.
      split; [apply in_or_app; left; by apply list_elem_of_In|]. unfold among in *. by rewrite <- Ew, Eg.
  - apply Forall_forall. intros v Hv. rewrite Forall_forall in Hpos. auto.
Qed.

(** C18: with four or more active validators, the validators that join and those
    that leave at an epoch boundary hold together at most a third of the active
    stake; everybody else stays in the set. *)
Theorem set_change_bounded staking vs :
  let limit := u128_sum (map vi_stake (List.filter vi_is_active vs)) / 3 in
  let vs' := sync_validators staking vs in
  (4 <= vs_active_count vs)%nat -> 0 < limit ->
  set_typed vs -> NoDup (map sv_id staking) ->
  stake_outside vs' vs + stake_outside vs vs' <= limit.
Proof.
  intros limit vs' H4 Hlim [Hn Ht] Hs.
  assert (Hpos : Forall (fun v => 0 <= vi_stake v) vs) by (eapply Forall_impl; [exact Ht|]; by intros v [[? _] _]).
  assert (Hmax : 0 < limit < u128_max).
  { split; [done|]. pose proof (u128_sum_range (map vi_stake (List.filter vi_is_active vs))) as [_ ?].
    unfold limit. pose proof u128_max_val. apply Z.div_lt_upper_bound; lia. }
  unfold vs', sync_validators. rewrite (proj2 (Nat.leb_le _ _) H4). fold limit.
  destruct (synced_loop limit staking vs Hmax staking [] (vs, 0) vs []) as (old & new & [Es Ei El En Ec Eb]);
    [|done|done|].
  { split; cbn; try done; [by rewrite app_nil_r|]. pose proof u128_max_val. lia. }
  destruct (fold_left (sync_validator limit) staking (vs, 0)) as [cur changed]. cbn [fst snd] in *. subst cur.
  change (List.filter (fun v => negb (existsb (bytes_eqb (vi_id v)) _)) (old ++ new))
    with (List.filter (fun v => negb (wanted staking v)) (old ++ new)).
  rewrite List.filter_app, El. rewrite (filter_none _ new), app_nil_r.
  2: { eapply Forall_impl; [exact En|]. intros v [-> _]. done. }
  destruct (removal_loop limit Hmax (List.filter (fun v => negb (wanted staking v)) vs) (old ++ new) changed Ec)
    as (gone & Hg & -> & Hgone); [by apply Forall_filter_bool|].
  pose proof (joining_le vs old new (fun v => negb (among (map vi_id gone) v)) Ei
    ltac:(eapply Forall_impl; [exact En|]; by intros v (_ & _ & _ & ?))).
  pose proof (leaving_le vs old new gone _ Hn Ei Hpos Hg).
  destruct Hgone as [->|Hgone]; [cbn in *; lia|lia].
Qed.

(** A set of five in the staking contract: the four, and a new one. *)
Definition demo_staking (stake_of_1 : u128) : list StakingValidator :=
  map (fun x => mkStakingValidator (demo_id (fst x)) (snd x) 0 0 true false 0 0 0 None 0)
    [(1, stake_of_1); (2, 100); (3, 100); (4, 100); (5, 100)].

Lemma set_change_bounded_witness :
  map vi_id (sync_validators (demo_staking 100) demo_set) = map demo_id [1; 2; 3; 4; 5]
  /\ stake_outside (sync_validators (demo_staking 100) demo_set) demo_set
     + stake_outside demo_set (sync_validators (demo_staking 100) demo_set) <= 133.
Proof.
  split; [vm_compute; reflexivity|].
  refine (set_change_bounded (demo_staking 100) demo_set _ _ _ _).
  - vm_compute. repeat constructor.
  - vm_compute. reflexivity.
  - split; [apply (bool_decide_unpack _); vm_compute; exact I|].
    repeat constructor; vm_compute; discriminate.
  - apply (bool_decide_unpack _). vm_compute. exact I.
Defined.

(** The limit is on who is in the set, not on how the stake moves: a delegation
    that gives one validator two thirds of the stake takes effect at once. *)
Example stake_update_unbounded :
  has_quorum demo_set [demo_id 1] = false
  /\ has_quorum (sync_validators (demo_staking 1000) demo_set) [demo_id 1] = true.
Proof. split; vm_compute; reflexivity. Qed.
