(* ===== verification/NodeRecovery.v ===== *)
(** Recovery of a diverged node ([crates/solen-node/src/main.rs]): asking other
    nodes whether the own tip is canonical, and the tiers of the resync: rollback
    in place, a RocksDB checkpoint, a local snapshot, a remote snapshot. *)

From S2P Require Import Prelude Types Store Memory Codec Staking Treasury State Address Base64 Reputation Auth.
From S2P Require Import Validators Mempool Intents Checkpoint EngineState EngineRecovery EngineRuns Rpc Transfer.
Open Scope Z_scope.

(** ** Canonicity *)

Inductive Canonicity : Type := Canonical | Forked | Inconclusive.

#[export] Instance Canonicity_eq_dec : EqDecision Canonicity.
Proof. solve_decision. Defined.

(** [eq_ignore_ascii_case]. *)
Definition same_hex (a b : str) : bool := bytes_eqb (map to_ascii_lowercase a) (map to_ascii_lowercase b).

Definition classify_root (reported : option str) (want_hex : str) : option Canonicity :=
  match reported with
  | Some root => Some (if same_hex root want_hex then Canonical else Forked)
  | None => None
  end.

Definition decide_canonicity (answers : list (option str)) (want_hex : str) : Canonicity :=
  default Inconclusive (find_map (fun a => classify_root a want_hex) answers).

(** The state root that each source reports for a height, by the round it is
    asked in; [None] if it does not answer. *)
Definition Sources : Type := nat -> u64 -> list (option str).

Definition ROUNDS : nat := 3%nat.

(** Up to three rounds over all sources; an empty list of sources gives no
    answer in any. *)
Fixpoint canonicity_rounds (sources : Sources) (round rest : nat) (height : u64) (want : str) : Canonicity :=
  match rest with
  | O => Inconclusive
  | S rest =>
    match decide_canonicity (sources round height) want with
    | Inconclusive => canonicity_rounds sources (S round) rest height want
    | verdict => verdict
    end
  end.

Definition check_canonicity (sources : Sources) (height : u64) (expected_root : Hash) : Canonicity :=
  canonicity_rounds sources 0 ROUNDS height (chars (hex_encode expected_root)).

Definition checkpoint_is_canonical (sources : Sources) (height : u64) (expected_root : Hash) : bool :=
  bool_decide (check_canonicity sources height expected_root = Canonical).

(** ** The ring of RocksDB checkpoints ([crates/solen-consensus/src/snapshot.rs])

    The directory as a map from heights to the root on record and the files of
    the checkpoint; [None] is a directory without a record. *)

Section rocks.
Context {Files : Type}.

Record RocksCheckpoints : Type := mkRocks { rk_dir : gmap Z (option (Hash * Files)); rk_keep : usize }.
Record RocksEntry : Type := mkRocksEntry { re_height : u64; re_state_root : Hash; re_db : Files }.

Definition rocks_new (dir : gmap Z (option (Hash * Files))) (keep : usize) : RocksCheckpoints :=
  mkRocks dir (keep `max` 1)%nat.
Definition rocks_list (r : RocksCheckpoints) : list RocksEntry :=
  stable_sort (fun a b => re_height a <=? re_height b)
    (omap (fun kv => (fun rf => mkRocksEntry (fst kv) (fst rf) (snd rf)) <$> snd kv) (map_to_list (rk_dir r))).
Definition rocks_prune (r : RocksCheckpoints) : RocksCheckpoints :=
  let all := rocks_list r in
  if (length all <=? rk_keep r)%nat then r
  else mkRocks (fold_left (fun m e => delete (re_height e) m) (take (length all - rk_keep r) all) (rk_dir r))
               (rk_keep r).
(** [files] is the copy of the store, or the error of making one; the directory
    is made first, and one that exists counts as a checkpoint. *)
Definition rocks_create (files : result Files string) (height : u64) (root : Hash) (r : RocksCheckpoints) :
    RocksCheckpoints * result unit string :=
  match rk_dir r !! height with
  | Some _ => (r, Ok tt)
  | None =>
    match files with
    | Err err => (mkRocks (<[height := None]> (rk_dir r)) (rk_keep r), Err err)
    | Ok f => (rocks_prune (mkRocks (<[height := Some (root, f)]> (rk_dir r)) (rk_keep r)), Ok tt)
    end
  end.
End rocks.
Arguments RocksCheckpoints : clear implicits.
Arguments RocksEntry : clear implicits.

Definition LOCAL_SNAPSHOT_KEEP : usize := 3%nat.
Definition ROCKS_CHECKPOINT_KEEP : usize := 8%nat.
Definition ROCKS_CHECKPOINT_INTERVAL : u64 := 100.

(** ** A remote source of a snapshot

    The height it reports, if it answers with one ([0] if the answer has none);
    the size in its metadata; and what the download of the chunks comes to. *)
Record Remote : Type := mkRemote {
  rm_status : option u64;
  rm_total_bytes : option usize;
  rm_body : Download;
}.

(** ** The tiers *)

Section resync.
Context {St : Type} `{!StateStore St} `{!BlockExec St} {crypto : Crypto} `{!Codec BlockHeader}
        `{!Codec StakingContract} {zip : Deflate} {Files : Type} (cfg : EngineConfig)
        (** [store.clear()] and [store.restore_from_checkpoint(path)] *)
        (clear : St -> St) (restore_files : Files -> St -> St * bool).
Implicit Types (e : Engine St) (sources : Sources).

(** The first source that reports a root for the height. *)
Definition canonical_root sources (height : u64) : option str := head (omap id (sources 0%nat height)).

(** The loop of [find_common_ancestor], from [h] down; [rest] heights remain. *)
Fixpoint ancestor_loop sources e (rest : nat) (h : u64) : option (u64 * Hash) :=
  match rest with
  | O => None
  | S rest =>
    match get_block e h with
    | None => None
    | Some b =>
      let our_root := bh_state_root (fb_header b) in
      match canonical_root sources h with
      | None => None
      | Some r => if same_hex r (chars (hex_encode our_root)) then Some (h, our_root)
                  else ancestor_loop sources e rest (h - 1)
      end
    end
  end.

Definition find_common_ancestor sources e (min_height tip : u64) : option (u64 * Hash) :=
  if tip =? 0 then None
  else ancestor_loop sources e (Z.to_nat (sat_sub tip 1 - min_height + 1)) (sat_sub tip 1).

(** A backward recovery is for a tip that some source says is forked. *)
Definition tip_forked sources e : bool :=
  (0 <? en_height e)
  && bool_decide (check_canonicity sources (en_height e) (st_state_root (en_store e)) = Forked).

Definition rollback_tier sources e : Engine St * bool :=
  match min_rollback_target e with
  | None => (e, false)
  | Some min_target =>
    let tip := en_height e in
    match find_common_ancestor sources e min_target tip with
    | Some (anc_h, anc_root) => if anc_h <? tip then rollback_to_height anc_h anc_root e else (e, false)
    | None => (e, false)
    end
  end.

Fixpoint rocks_tier sources (entries : list (RocksEntry Files)) e : Engine St * bool :=
  match entries with
  | [] => (e, false)
  | entry :: entries =>
    if negb (checkpoint_is_canonical sources (re_height entry) (re_state_root entry))
    then rocks_tier sources entries e
    else
    let '(store, ok) := restore_files (re_db entry) (en_store e) in
    let e := set_store store e in
    if ok then (fst (reset_to_store_meta cfg e), true) else rocks_tier sources entries e
  end.

(** Emptying the store and filling it from a snapshot. *)
Definition restore_over (data : bytes) e : Engine St * bool :=
  let '(store, r) := restore_snapshot (clear (en_store e)) data in
  let e := set_store store e in
  match r with
  | Ok meta => (reset_to_height cfg (sm_height meta) (sm_epoch meta) e, true)
  | Err _ => (e, false)
  end.

Fixpoint local_tier sources (files : list (Z * bytes)) e : Engine St * bool :=
  match files with
  | [] => (e, false)
  | (_, data) :: files =>
    match read_snapshot_meta data with
    | Err _ => local_tier sources files e
    | Ok meta =>
      if negb (checkpoint_is_canonical sources (sm_height meta) (sm_state_root meta))
      then local_tier sources files e
      else
      let '(e, ok) := restore_over data e in
      if ok then (e, true) else local_tier sources files e
    end
  end.

Fixpoint remote_tier (remotes : list Remote) e : Engine St * bool :=
  match remotes with
  | [] => (e, false)
  | r :: remotes =>
    if (match rm_status r with Some peer_h => peer_h <=? en_height e | None => false end)
    then remote_tier remotes e
    else
    match rm_total_bytes r, rm_body r with
    | Some _, Complete (b :: data) =>
      let '(e, ok) := restore_over (b :: data) e in
      if ok then (e, true) else remote_tier remotes e
    | _, _ => remote_tier remotes e
    end
  end.

(** The tiers that go back. *)
Definition backward_tiers sources (rocks : RocksCheckpoints Files) (local : LocalSnapshots) e : Engine St * bool :=
  let '(e, ok) := rollback_tier sources e in
  if ok then (e, true)
  else
  let '(e, ok) := rocks_tier sources (List.filter (fun x => re_height x <=? en_height e) (rev (rocks_list rocks))) e in
  if ok then (e, true)
  else local_tier sources (List.filter (fun x => fst x <=? en_height e) (rev (ls_list local))) e.

Definition resync_tiers sources rocks local (remotes : list Remote) e : Engine St * bool :=
  let '(e, ok) := if tip_forked sources e then backward_tiers sources rocks local e else (e, false) in
  if ok then (e, true) else remote_tier remotes e.

(** The whole of it: what the consensus loop does when a resync is requested.
    On success the range after the tip is requested from the peers. *)
Definition resync sources rocks local remotes e : Engine St * option (u64 * u64) :=
  let e := set_resyncing true e in
  let '(e, ok) := resync_tiers sources rocks local remotes e in
  let e := set_resyncing false e in
  if ok
  then let e := reset_partition_state e in
       (e, Some (u64_add (en_height e) 1, u64_add (en_height e) 500))
  else (e, None).
End resync.

(** ** What a verdict rests on *)

(** Some source reported this root for the height, or another one. *)
Definition confirmed (sources : Sources) (height : u64) (root : Hash) : Prop :=
  exists round r, Some r ∈ sources round height /\ same_hex r (chars (hex_encode root)) = true.
Definition contradicted (sources : Sources) (height : u64) (root : Hash) : Prop :=
  exists round r, Some r ∈ sources round height /\ same_hex r (chars (hex_encode root)) = false.

Lemma decide_canonicity_spec answers want :
  match decide_canonicity answers want with
  | Canonical => exists r, Some r ∈ answers /\ same_hex r want = true
  | Forked => exists r, Some r ∈ answers /\ same_hex r want = false
  | Inconclusive => Forall (eq None) answers
  end.
Proof.
  unfold decide_canonicity. induction answers as [|[r|] answers IH]; cbn [find_map classify_root default]; [constructor| |].
  - destruct (same_hex r want) eqn:E; exists r; (split; [by left|done]).
  - destruct (default Inconclusive _).
    + destruct IH as (r & ? & ?). exists r. split; [by right|done].
    + destruct IH as (r & ? & ?). exists r. split; [by right|done].
    + by constructor.
Qed.

Lemma canonicity_spec sources rest round height root :
  match canonicity_rounds sources round rest height (chars (hex_encode root)) with
  | Canonical => confirmed sources height root
  | Forked => contradicted sources height root
  | Inconclusive => forall i, (round <= i < round + rest)%nat -> Forall (eq None) (sources i height)
  end.
Proof.
  revert round. induction rest as [|rest IH]; intros round; cbn [canonicity_rounds]; [intros; lia|].
  pose proof (decide_canonicity_spec (sources round height) (chars (hex_encode root))) as Hd.
  destruct (decide_canonicity _ _).
  - destruct Hd as (r & ? & ?). by exists round, r.
  - destruct Hd as (r & ? & ?). by exists round, r.
  - specialize (IH (S round)). destruct (canonicity_rounds _ _ _ _ _); [done|done|].
    intros i Hi. destruct (decide (i = round)) as [->|]; [done|]. apply IH. lia.
Qed.

(** A verdict is backed by an answer, and silence is not a verdict: a root is
    taken for canonical, or for forked, only if a source said so; a probe that
    nobody answers in three rounds is inconclusive. *)
Theorem canonicity_sound sources height root :
  match check_canonicity sources height root with
  | Canonical => confirmed sources height root
  | Forked => contradicted sources height root
  | Inconclusive => forall i, (i < 3)%nat -> Forall (eq None) (sources i height)
  end.
Proof.
  pose proof (canonicity_spec sources ROUNDS 0 height root) as H. unfold check_canonicity.
  destruct (canonicity_rounds _ _ _ _ _); [done|done|]. intros i Hi. apply H. unfold ROUNDS. lia.
Qed.

Lemma checkpoint_confirmed sources height root :
  checkpoint_is_canonical sources height root = true -> confirmed sources height root.
Proof.
  unfold checkpoint_is_canonical. intros H. prop_bool. pose proof (canonicity_sound sources height root) as Hs.
  by rewrite H in Hs.
Qed.

Section recovery_laws.
Context {St : Type} `{!StateStore St} `{!BlockExec St} {crypto : Crypto} `{!Codec BlockHeader}
        `{!Codec StakingContract} {zip : Deflate} {Files : Type} (cfg : EngineConfig)
        (clear : St -> St) (restore_files : Files -> St -> St * bool).
Implicit Types (e : Engine St) (sources : Sources).

Lemma ancestor_loop_spec sources e rest h0 h root :
  ancestor_loop sources e rest h0 = Some (h, root) ->
  h0 - Z.of_nat rest < h <= h0
  /\ (exists b, get_block e h = Some b /\ bh_state_root (fb_header b) = root)
  /\ confirmed sources h root
  /\ forall i, h < i <= h0 -> exists b, get_block e i = Some b
       /\ contradicted sources i (bh_state_root (fb_header b)).
Proof.
  revert h0. induction rest as [|rest IH]; intros h0; cbn [ancestor_loop]; [done|].
  destruct (get_block e h0) as [b|] eqn:Eb; [|done].
  destruct (canonical_root sources h0) as [r|] eqn:Er; [|done].
  assert (Hr : Some r ∈ sources 0%nat h0).
  { unfold canonical_root in Er. destruct (omap id (sources 0%nat h0)) as [|r' l] eqn:Eo; [done|]. cbn in Er. injection Er as ->.
    assert (H : r ∈ omap id (sources 0%nat h0)) by (rewrite Eo; by left).
    apply list_elem_of_omap in H as (o & Ho & Hi). cbn in Hi. by rewrite <- Hi. }
  destruct (same_hex r _) eqn:Es.
  - intros [= -> <-]. split; [lia|]. split; [by exists b|]. split; [by exists 0%nat, r|]. intros i Hi. lia.
  - intros (H1 & H2 & H3 & H4)%IH. split; [lia|]. split; [done|]. split; [done|].
    intros i Hi. destruct (decide (i = h0)) as [->|]; [|apply H4; lia].
    exists b. split; [done|]. by exists 0%nat, r.
Qed.

(** The common ancestor: a height below the tip and within the journal whose
    own root a source confirms, while above it every own root is contradicted. *)
Lemma common_ancestor_spec sources e min tip h root :
  0 <= min -> 0 <= tip -> find_common_ancestor sources e min tip = Some (h, root) ->
  min <= h < tip /\ (exists b, get_block e h = Some b /\ bh_state_root (fb_header b) = root)
  /\ confirmed sources h root
  /\ forall i, h < i < tip -> exists b, get_block e i = Some b
       /\ contradicted sources i (bh_state_root (fb_header b)).
Proof.
  unfold find_common_ancestor, sat_sub. destruct (Z.eqb_spec tip 0) as [|Hne]; [done|].
  intros Hm Ht (H1 & H2 & H3 & H4)%ancestor_loop_spec. split; [lia|]. split; [done|]. split; [done|].
  intros i Hi. apply H4. lia.
Qed.

(** What a successful backward recovery is: a rollback to a height, or a
    restore of a checkpoint or a snapshot, whose root a source confirmed. *)
Inductive recovered sources e : Engine St -> Prop :=
| by_rollback h root e' :
    h < en_height e -> confirmed sources h root -> rollback_to_height h root e = (e', true) ->
    recovered sources e e'
| by_checkpoint (entry : RocksEntry Files) before store :
    re_height entry <= en_height e -> confirmed sources (re_height entry) (re_state_root entry) ->
    restore_files (re_db entry) before = (store, true) ->
    recovered sources e (fst (reset_to_store_meta cfg (set_store store e)))
| by_snapshot h root e' :
    confirmed sources h root -> en_height e' = h -> st_state_root (en_store e') = root ->
    recovered sources e e'.

Lemma restore_over_spec data e e' :
  restore_over cfg clear data e = (e', true) ->
  exists meta, read_snapshot_meta data = Ok meta /\ en_height e' = sm_height meta
    /\ st_state_root (en_store e') = sm_state_root meta.
Proof.
  unfold restore_over. destruct (restore_snapshot _ _) as [s [m|]] eqn:E; [|done]. intros [= <-].
  pose proof (snapshot_verified (clear (en_store e)) data s m E) as (Hr & Hs & Hh & _).
  unfold restore_snapshot in E. destruct (read_snapshot_meta data) as [meta|] eqn:Em; [|done]. exists meta.
  split; [done|]. clear E. unfold read_snapshot_meta in Em. destruct (_ <? _)%nat; [done|].
  destruct (negb _); [done|]. cbv zeta in Em. destruct (negb _); [done|]. injection Em as <-.
  cbn [sm_height sm_state_root]. split; [exact Hh|]. by rewrite <- Hs.
Qed.

Lemma rocks_tier_spec sources entries store e e' :
  Forall (fun x => re_height x <= en_height e) entries ->
  rocks_tier cfg restore_files sources entries (set_store store e) = (e', true) -> recovered sources e e'.
Proof.
  intros Hb. revert store. induction Hb as [|entry entries Hh Hb IH]; intros st; cbn [rocks_tier]; [done|].
  destruct (checkpoint_is_canonical _ _ _) eqn:Ec; cbn [negb]; [|apply IH].
  destruct (restore_files (re_db entry) _) as [store ok] eqn:Er.
  change (set_store store (set_store st e)) with (set_store store e). destruct ok; [|apply IH].
  intros [= <-]. eapply by_checkpoint; [exact Hh|by apply checkpoint_confirmed|exact Er].
Qed.

Lemma local_tier_spec sources files e e0 e' :
  local_tier cfg clear sources files e = (e', true) -> recovered sources e0 e'.
Proof.
  revert e. induction files as [|[h data] files IH]; intros e; cbn [local_tier]; [done|].
  destruct (read_snapshot_meta data) as [meta|] eqn:Em; [|apply IH].
  destruct (checkpoint_is_canonical _ _ _) eqn:Ec; cbn [negb]; [|apply IH].
  destruct (restore_over cfg clear data e) as [e1 ok] eqn:Er. destruct ok; [|apply IH]. intros [= <-].
  apply restore_over_spec in Er as (meta' & Em' & Hh & Hr). rewrite Em in Em'. injection Em' as <-.
  apply checkpoint_confirmed in Ec. by eapply by_snapshot.
Qed.

Lemma journal_target_nonneg (j : RollbackJournal) m : journal_min_rollback_target j = Some m -> 0 <= m.
Proof.
  unfold journal_min_rollback_target. destruct (head (rj_entries j)) as [[h r]|]; [|done]. cbn. intros [= <-].
  unfold sat_sub. lia.
Qed.

Lemma own_store e : exists st, e = set_store st e.
Proof. exists (en_store e). by destruct e. Qed.

Lemma rollback_fails h root e e' :
  rollback_to_height h root e = (e', false) -> exists st, e' = set_store st e.
Proof.
  unfold rollback_to_height. destruct (_ <=? _); [intros [= <-]; apply own_store|].
  destruct (min_rollback_target e); [|intros [= <-]; apply own_store].
  destruct (_ <? _); [intros [= <-]; apply own_store|]. cbv zeta. destruct (negb _); [|done]. intros [= <-]. by eexists.
Qed.

Lemma rollback_tier_spec sources e e' ok :
  0 <= en_height e -> rollback_tier sources e = (e', ok) ->
  if ok then recovered sources e e' else exists st, e' = set_store st e.
Proof.
  intros H0. unfold rollback_tier. destruct (min_rollback_target e) as [m|] eqn:Em;
    [|intros [= <- <-]; apply own_store].
  destruct (find_common_ancestor _ _ _ _) as [[h root]|] eqn:Ef; [|intros [= <- <-]; apply own_store].
  apply common_ancestor_spec in Ef as (Hh & _ & Hc & _); [|by apply journal_target_nonneg in Em|done].
  rewrite (proj2 (Z.ltb_lt _ _)) by lia. intros E.
  destruct ok; [|by eapply rollback_fails]. eapply by_rollback; [|exact Hc|exact E]. lia.
Qed.

Lemma rocks_tier_height sources entries e e' :
  rocks_tier cfg restore_files sources entries e = (e', false) -> en_height e' = en_height e.
Proof.
  revert e. induction entries as [|entry entries IH]; intros e; cbn [rocks_tier]; [by intros [= <-]|].
  destruct (negb _); [apply IH|]. destruct (restore_files _ _) as [store ok]. destruct ok; [done|]. intros H%IH. by rewrite H.
Qed.

Lemma backward_recovers sources rocks local e e' :
  0 <= en_height e -> backward_tiers cfg clear restore_files sources rocks local e = (e', true) ->
  recovered sources e e'.
Proof.
  intros H0. unfold backward_tiers. destruct (rollback_tier sources e) as [e1 ok1] eqn:E1.
  pose proof (rollback_tier_spec _ _ _ _ H0 E1) as H1. destruct ok1; [by intros [= <-]|]. destruct H1 as [st ->].
  destruct (rocks_tier _ _ _ _ _) as [e2 ok2] eqn:E2. destruct ok2.
  - intros [= <-]. eapply rocks_tier_spec; [|exact E2]. apply Forall_forall. intros x Hx%list_elem_of_In.
    apply filter_In in Hx as [_ Hx]. change (en_height (set_store st e)) with (en_height e) in Hx. lia.
  - apply local_tier_spec.
Qed.

Lemma restore_over_height data e e' : restore_over cfg clear data e = (e', false) -> en_height e' = en_height e.
Proof. unfold restore_over. destruct (restore_snapshot _ _) as [s [m|]]; [done|]. by intros [= <-]. Qed.

Lemma local_tier_height sources files e e' :
  local_tier cfg clear sources files e = (e', false) -> en_height e' = en_height e.
Proof.
  revert e. induction files as [|[h data] files IH]; intros e; cbn [local_tier]; [by intros [= <-]|].
  destruct (read_snapshot_meta data); [|apply IH]. destruct (negb _); [apply IH|].
  destruct (restore_over cfg clear data e) as [e1 ok] eqn:Er. destruct ok; [done|].
  apply restore_over_height in Er. intros Hh%IH. congruence.
Qed.

Lemma backward_height sources rocks local e e' :
  0 <= en_height e -> backward_tiers cfg clear restore_files sources rocks local e = (e', false) ->
  en_height e' = en_height e.
Proof.
  intros H0. unfold backward_tiers. destruct (rollback_tier sources e) as [e1 ok1] eqn:E1.
  apply rollback_tier_spec in E1; [|done]. destruct ok1; [done|]. destruct E1 as [st ->].
  destruct (rocks_tier _ _ _ _ _) as [e2 ok2] eqn:E2. destruct ok2; [done|]. apply rocks_tier_height in E2.
  intros E3%local_tier_height. rewrite E3, E2. done.
Qed.

(** A snapshot of a remote source that does not report a height at or below
    [height]; the snapshot itself may be older. *)
Inductive downloaded (remotes : list Remote) (height : u64) : Engine St -> Prop :=
| by_download r size data meta e' :
    r ∈ remotes -> (forall h, rm_status r = Some h -> height < h) -> rm_total_bytes r = Some size ->
    rm_body r = Complete data -> read_snapshot_meta data = Ok meta ->
    en_height e' = sm_height meta -> st_state_root (en_store e') = sm_state_root meta ->
    downloaded remotes height e'.

Lemma remote_tier_spec remotes e e' :
  remote_tier cfg clear remotes e = (e', true) -> downloaded remotes (en_height e) e'.
Proof.
  assert (G : forall height, en_height e = height -> remote_tier cfg clear remotes e = (e', true) ->
    downloaded remotes height e'); [|by apply G].
  intros height. revert e. induction remotes as [|r remotes IH]; intros e He; cbn [remote_tier]; [done|].
  assert (Hnext : forall e1, en_height e1 = height -> remote_tier cfg clear remotes e1 = (e', true) ->
    downloaded (r :: remotes) height e').
  { intros e1 H1 H2. destruct (IH e1 H1 H2) as [r0 size data meta e' Hr ? ? ? ? ? ?].
    econstructor; [by right|done..]. }
  destruct (rm_status r) as [peer_h|] eqn:Es; [destruct (Z.leb_spec peer_h (en_height e)); [by apply Hnext|]|].
  all: destruct (rm_total_bytes r) eqn:Et; [|by apply Hnext].
  all: destruct (rm_body r) as [[|b data]| |] eqn:Eb; try by apply Hnext.
  all: destruct (restore_over cfg clear (b :: data) e) as [e1 ok] eqn:Er;
       destruct ok; [|apply restore_over_height in Er; apply Hnext; congruence]; intros [= <-].
  all: apply restore_over_spec in Er as (meta & ? & ? & ?); econstructor; [by left| |done..]; rewrite Es.
  - intros h [= <-]. lia.
  - done.
Qed.


(** ** What the tiers leave open *)

(** A snapshot that cannot be restored costs the store: it is emptied first, and
    when the header is refused the node goes on with its chain and an empty
    store. *)
Theorem refused_snapshot_wipes_store b data err remotes e :
  read_snapshot_meta (b :: data) = Err err -> (forall r, r ∈ remotes -> rm_total_bytes r = None) ->
  remote_tier cfg clear (mkRemote None (Some 1%nat) (Complete (b :: data)) :: remotes) e
  = (set_store (clear (en_store e)) e, false).
Proof.
  intros Herr Hr. cbn [remote_tier rm_status rm_total_bytes rm_body]. unfold restore_over, restore_snapshot.
  rewrite Herr. generalize (set_store (clear (en_store e)) e). clear e. induction remotes as [|r remotes IH]; intros e; [done|].
  cbn [remote_tier]. destruct (match rm_status r with Some _ => _ | None => _ end).
  - apply IH. intros r' Hr'. apply Hr. by right.
  - rewrite Hr by by left. apply IH. intros r' Hr'. apply Hr. by right.
Qed.
End recovery_laws.

(** A checkpoint whose files could not be made is never made again: the
    directory is there, so that the next attempt at that height reports success
    and the list stays as it was. *)
Theorem failed_checkpoint_sticks {Files} (r : RocksCheckpoints Files) err files height root root' :
  rk_dir r !! height = None ->
  let r1 := fst (rocks_create (Err err) height root r) in
  rocks_create (Ok files) height root' r1 = (r1, Ok tt) /\ rocks_list r1 ≡ₚ rocks_list r.
Proof.
  intros Hn r1. unfold r1, rocks_create. rewrite Hn. cbn [fst rk_dir]. rewrite lookup_insert_eq. split; [done|].
  unfold rocks_list. cbn [rk_dir]. rewrite !stable_sort_perm. rewrite map_to_list_insert by done. done.
Qed.

(** ** Examples *)

Section recovery_examples.
#[local] Existing Instance short_crypto | 0.
#[local] Instance recovery_store : StateStore MemoryStore := @snap_store short_crypto.

(** Sources that do not answer, and a remote one at height 1300 whose cached
    snapshot is of height 900. *)
Definition silent : Sources := fun _ _ => [None; None].
Definition stale_remote : Remote :=
  mkRemote (Some 1300) (Some 85%nat) (Complete (create_snapshot snapshot_source 900 9)).
Definition no_rocks : RocksCheckpoints unit := rocks_new ∅ ROCKS_CHECKPOINT_KEEP.
Definition no_local : LocalSnapshots := local_snapshots_new ∅ LOCAL_SNAPSHOT_KEEP.
Definition emptied (s : MemoryStore) : MemoryStore := mem_new.
Definition no_files (f : unit) (s : MemoryStore) : MemoryStore * bool := (s, false).

(** Sources that contradict the tip and confirm the root on record of the
    checkpoint at height 900. *)
Definition diverged : Sources := fun _ h =>
  [None; Some (chars (if h =? 900 then hex_encode (addr 9) else hex_encode (addr 1)))].
Definition rocks_900 : RocksCheckpoints unit :=
  rocks_new {[900 := Some (addr 9, tt)]} ROCKS_CHECKPOINT_KEEP.
Definition one_file (f : unit) (s : MemoryStore) : MemoryStore * bool := (snapshot_source, true).


(** The height of the remote node is compared, not that of its snapshot: a node
    at height 1200 that is merely behind is put back to height 900. *)
Theorem remote_snapshot_regresses :
  en_height serving_engine = 1200
  /\ (let '(e', request) := resync (demo_cfg 1 u64_max) emptied no_files silent no_rocks no_local [stale_remote]
                              serving_engine in
      en_height e' = 900 /\ request = Some (901, 1400)).
Proof. vm_compute. repeat split; reflexivity. Qed.
End recovery_examples.
