(* ===== verification/NodeLoop.v ===== *)
(** The running node ([crates/solen-node/src/main.rs]): the task that handles
    the messages of the peers, the task that announces the own status, and the
    loop that polls the engine, recovers and produces blocks. Each task is a
    function from node to node and what is sent; the tasks interleave.
    Instants are milliseconds of the monotonic clock, and the several readings
    of a clock in one handler are one. *)

From S2P Require Import Prelude Types Store Memory Overlay Staking Treasury Codec State Auth Reputation Network.
From S2P Require Import Executor Blocks Validators Mempool Intents Checkpoint.
From S2P Require Import EngineState EngineVotes EngineBlocks EngineRecovery EngineFrames EngineSafety EngineSteps.
From S2P Require Import EngineRuns.
Open Scope Z_scope.

Definition u32_add (a b : Z) : Z := (a + b) mod 2 ^ 32.

Definition STRANDED_BEHIND_BLOCKS : u64 := 12.
Definition STRANDED_RESYNC_AFTER_MS : Z := 40000.
Definition MAX_SYNC_SERVES_PER_SEC : Z := 8.
Definition SYNC_BATCH : usize := 100%nat.
Definition QUORUM_TIMEOUT_MS : Z := 10000.
Definition PARTITION_SYNC_INTERVAL_MS : Z := 3000.
Definition BLOCK_TIME_KEY : bytes := Eval vm_compute in bytes_of_string "__config_block_time__".

(** The variables of the task that handles messages. *)
Record P2pTask : Type := mkP2p {
  pt_serve_tracker : gmap Z (Z * Z);
  pt_serve_global : Z * Z;
  pt_fail_count : Z;
  pt_fork_mismatch : bool;
  pt_bad_roots : gset bytes;
}.
(** The variables of the consensus loop. *)
Record LoopVars : Type := mkLoop {
  lv_is_validator : bool;
  lv_min_interval : Z;
  lv_last_finalized_height : u64;
  lv_last_finalized_at : Z;
  lv_last_proposed_at : Z;
  lv_last_partition_sync_at : Z;
  lv_last_stranded_height : u64;
  lv_last_stranded_progress_at : Z;
}.
(** The engine, what the tasks share, and the variables of each. *)
Record Node {St : Type} : Type := mkNode {
  nd_engine : Engine St;
  nd_syncing : bool;
  nd_network_height : u64;
  nd_peer_heights : list u64;
  nd_p2p : P2pTask;
  nd_ticks : Z;
  nd_loop : LoopVars;
}.
Arguments Node : clear implicits.
Arguments mkNode {St}.

Inductive Output : Type :=
| Broadcast (m : NetworkMessage)
| ReportPeer (ev : ReputationEvent).

Section node_fields.
Context {St : Type}.
Definition set_engine (e : Engine St) (n : Node St) : Node St :=
  mkNode e (nd_syncing n) (nd_network_height n) (nd_peer_heights n) (nd_p2p n) (nd_ticks n) (nd_loop n).
Definition set_syncing (b : bool) (n : Node St) : Node St :=
  mkNode (nd_engine n) b (nd_network_height n) (nd_peer_heights n) (nd_p2p n) (nd_ticks n) (nd_loop n).
Definition set_network_height (h : u64) (n : Node St) : Node St :=
  mkNode (nd_engine n) (nd_syncing n) h (nd_peer_heights n) (nd_p2p n) (nd_ticks n) (nd_loop n).
Definition set_peer_heights (l : list u64) (n : Node St) : Node St :=
  mkNode (nd_engine n) (nd_syncing n) (nd_network_height n) l (nd_p2p n) (nd_ticks n) (nd_loop n).
Definition set_p2p (p : P2pTask) (n : Node St) : Node St :=
  mkNode (nd_engine n) (nd_syncing n) (nd_network_height n) (nd_peer_heights n) p (nd_ticks n) (nd_loop n).
Definition set_ticks (t : Z) (n : Node St) : Node St :=
  mkNode (nd_engine n) (nd_syncing n) (nd_network_height n) (nd_peer_heights n) (nd_p2p n) t (nd_loop n).
Definition set_loop (l : LoopVars) (n : Node St) : Node St :=
  mkNode (nd_engine n) (nd_syncing n) (nd_network_height n) (nd_peer_heights n) (nd_p2p n) (nd_ticks n) l.
(** [fetch_max]. *)
Definition raise_network_height (h : u64) (n : Node St) : Node St :=
  set_network_height (Z.max (nd_network_height n) h) n.
End node_fields.

Definition set_fork_mismatch (b : bool) (p : P2pTask) : P2pTask :=
  mkP2p (pt_serve_tracker p) (pt_serve_global p) (pt_fail_count p) b (pt_bad_roots p).
Definition set_fail_count (c : Z) (p : P2pTask) : P2pTask :=
  mkP2p (pt_serve_tracker p) (pt_serve_global p) c (pt_fork_mismatch p) (pt_bad_roots p).
Definition set_bad_roots (r : gset bytes) (p : P2pTask) : P2pTask :=
  mkP2p (pt_serve_tracker p) (pt_serve_global p) (pt_fail_count p) (pt_fork_mismatch p) r.

Section node.
Context {St : Type} `{!StateStore St} `{!BlockExec St} {crypto : Crypto} `{!Codec BlockHeader}
        `{!Codec SerializableBlock} `{!Codec FinalizedCheckpoint} `{!Codec StakingContract}
        `{!Codec EpochRandomness} `{!Codec Account}
        `{!Codec (list UserOperation)} `{!Codec (list ExecutionReceipt)}
        (cfg : EngineConfig) (sign : option (bytes -> bytes))
        (** the key the node attests with *)
        (att_sign : bytes -> bytes).
Implicit Types (e : Engine St) (n : Node St).

(** ** Attestations *)

Definition attestation_payload (height : u64) (hash : Hash) : bytes :=
  attestation_signing_payload (ec_chain_id cfg) height hash.
Definition own_attestation (height : u64) (hash : Hash) : Output :=
  Broadcast (AttestationMsg (ec_validator_id cfg) height hash (att_sign (attestation_payload height hash))).
Definition broadcast_v2_revotes e : Engine St * list Output :=
  let '(e, votes) := take_v2_revotes e in
  (e, map (fun v => own_attestation (fst v) (snd v)) votes).

(** ** Messages *)

(** [backlog] messages wait in the channel. *)
Definition on_transaction (backlog : usize) (op : UserOperation) n : Node St :=
  if (2048 <? backlog)%nat then n
  else set_engine (set_mempool (fst (mempool_submit op (en_mempool (nd_engine n)))) (nd_engine n)) n.

(** A block that was accepted: the engine when the node was syncing, and the
    own attestation. *)
Definition resume_from_sync (now_ms : u64) (h : BlockHeader) e : Engine St :=
  let e := clear_stale_pending (sat_sub (bh_height h) 1) e in
  fst (force_finalize_block_if_quorum cfg sign now_ms (bh_height h) e).
Definition attest_accepted (now_ms inst : Z) (h : BlockHeader) e : Engine St * list Output :=
  if fc_v2_active cfg (bh_height h) then broadcast_v2_revotes e
  else (fst (accept_attestation cfg sign now_ms inst (ec_validator_id cfg) (bh_height h) (block_hash h) e),
        [own_attestation (bh_height h) (block_hash h)]).

Definition on_new_block (now_ms inst : Z) (h : BlockHeader) (ops : list UserOperation) n : Node St * list Output :=
  if (Z.to_nat 5000 <? length ops)%nat then (n, [])
  else
  let '(e, accepted) := accept_block cfg sign now_ms inst h ops (nd_engine n) in
  if accepted then
    let p := if pt_fork_mismatch (nd_p2p n) then set_fork_mismatch false (nd_p2p n) else nd_p2p n in
    let e := if is_likely_partitioned e then reset_partition_state e else e in
    let e := if nd_syncing n then resume_from_sync now_ms h e else e in
    let '(e, out) := attest_accepted now_ms inst h e in
    (set_engine e (set_p2p p (set_syncing false n)), out)
  else
  let n := set_engine e n in
  let our_h := en_height e in
  if (u64_add our_h 1 <? bh_height h) && header_is_validator_signed e h
  then (raise_network_height (bh_height h) (set_syncing true n),
        [Broadcast (SyncRequest (u64_add our_h 1) (bh_height h))])
  else (n, []).

Definition on_attestation (now_ms inst : Z) (id : ValidatorId) (height : u64) (hash : Hash) (signature : bytes) n :
    Node St * list Output :=
  if (length signature =? 64)%nat && ed25519_verify id (attestation_payload height hash) signature then
    let e := fst (accept_attestation cfg sign now_ms inst id height hash (nd_engine n)) in
    let '(e, out) := if fc_v2_active cfg height then broadcast_v2_revotes e else (e, []) in
    (set_engine e n, out)
  else (n, []).

Definition on_checkpoint_attestation (id : ValidatorId) (height : u64) (hash root : Hash) (signature : bytes) n :
    Node St :=
  if (length signature =? 64)%nat && ed25519_verify id (signing_message height hash root) signature
  then set_engine (fst (attest_checkpoint_with_data id signature height hash root (nd_engine n))) n
  else n.

(** The last hundred heights announced. *)
Definition push_height (h : u64) (l : list u64) : list u64 :=
  let l := l ++ [h] in drop (length l - 100) l.

Definition on_status (height : u64) n : Node St * list Output :=
  let n := set_peer_heights (push_height height (nd_peer_heights n)) n in
  let our := en_height (nd_engine n) in
  if u64_add our 1 <? height then
    if pt_fork_mismatch (nd_p2p n) then (n, [])
    else
    let peers_ahead := length (List.filter (fun h => u64_add our 1 <? h) (nd_peer_heights n)) in
    if (2 <=? peers_ahead)%nat || ((length (nd_peer_heights n) <=? 1)%nat && (our =? 0))
    then (set_syncing true (raise_network_height height n),
          [Broadcast (SyncRequest (u64_add our 1) height)])
    else (n, [])
  else (raise_network_height height n, []).

(** *** Serving and applying synced blocks *)

(** At most three answers per range and 30 seconds; old ranges are forgotten. *)
Definition serve_range (inst : Z) (from : u64) (t : gmap Z (Z * Z)) : gmap Z (Z * Z) * bool :=
  let '(start, count) := default (inst, 0) (t !! from) in
  let '(entry, ok) := if elapsed inst start <? 30000
                      then ((start, u32_add count 1), u32_add count 1 <=? 3)
                      else ((inst, 1), true) in
  let t := <[from := entry]> t in
  (if (1000 <? size t)%nat then filter (fun kv => (elapsed inst (fst (snd kv)) <? 60000) = true) t else t, ok).

(** ... and at most eight per second altogether. *)
Definition serve_global (inst : Z) (g : Z * Z) : (Z * Z) * bool :=
  if 1000 <=? elapsed inst (fst g) then ((inst, 1), true)
  else if snd g <? MAX_SYNC_SERVES_PER_SEC then ((fst g, u32_add (snd g) 1), true)
  else (g, false).

Definition serve_allowed (inst : Z) (from : u64) (p : P2pTask) : P2pTask * bool :=
  let '(t, ok) := serve_range inst from (pt_serve_tracker p) in
  let '(g, ok) := if ok then serve_global inst (pt_serve_global p) else (pt_serve_global p, false) in
  (mkP2p t g (pt_fail_count p) (pt_fork_mismatch p) (pt_bad_roots p), ok).

Definition to_sync_block (b : FinalizedBlock) : SyncBlock :=
  mkSyncBlock (fb_header b) (fb_operations b) (br_receipts (fb_result b)).

Definition on_sync_request (inst : Z) (from : u64) n : Node St * list Output :=
  let '(p, ok) := serve_allowed inst from (nd_p2p n) in
  let n := set_p2p p n in
  if negb ok then (n, [])
  else
  match load_blocks (en_store (nd_engine n)) from SYNC_BATCH with
  | [] => (n, [])
  | b :: bs => if bh_height (fb_header b) =? from
               then (n, [Broadcast (SyncBlocks (map to_sync_block (b :: bs)))]) else (n, [])
  end.

(** What the blocks of a message add up to. *)
Record SyncRun : Type := mkSyncRun {
  sy_engine : Engine St; sy_bad : gset bytes; sy_synced : Z; sy_gap : bool;
}.

Definition sync_one (now_ms : u64) (run : SyncRun) (b : SyncBlock) : SyncRun :=
  let h := Network.sb_header b in
  if bool_decide (bh_state_root h ∈ sy_bad run) then run
  else
  let '(e, applied) := replay_synced_block cfg sign now_ms h (Network.sb_operations b) (Network.sb_receipts b) (sy_engine run) in
  if applied then mkSyncRun e (sy_bad run) (u64_add (sy_synced run) 1) (sy_gap run)
  else if bh_height h =? u64_add (en_height e) 1 then
    let bad := {[bh_state_root h]} ∪ sy_bad run in
    mkSyncRun e (if (1000 <? size bad)%nat then ∅ else bad) (sy_synced run) (sy_gap run)
  else mkSyncRun e (sy_bad run) (sy_synced run) (sy_gap run || (u64_add (en_height e) 1 <? bh_height h)).

(** After a fork mismatch only blocks above the tip with unsuspected roots. *)
Definition usable (p : P2pTask) (our_h : u64) (b : SyncBlock) : bool :=
  negb (pt_fork_mismatch p)
  || ((u64_add our_h 1 <=? bh_height (Network.sb_header b))
      && negb (bool_decide (bh_state_root (Network.sb_header b) ∈ pt_bad_roots p))).

Definition sync_batch (blocks : list SyncBlock) n : list SyncBlock :=
  stable_sort (fun a b => bh_height (Network.sb_header a) <=? bh_height (Network.sb_header b))
    (take SYNC_BATCH (List.filter (usable (nd_p2p n) (en_height (nd_engine n))) blocks)).

(** The node is stranded on another fork than its peers. *)
Definition on_fork (known our : u64) n : Node St :=
  let e := nd_engine n in
  let e := if (u64_add our 2 <? known) && negb (en_resyncing e) then request_resync e else e in
  let p := set_fork_mismatch true (set_fail_count 0 (nd_p2p n)) in
  set_network_height 0 (set_peer_heights [] (set_p2p p (set_syncing false (set_engine e n)))).

(** The end of the handler: done, or the next range is requested. *)
Definition sync_rest (our known : u64) (again : bool) n : Node St * list Output :=
  if known <=? u64_add our 1 then (set_engine (fst (take_resync_request (nd_engine n))) n, [])
  else if again then (n, [Broadcast (SyncRequest (u64_add our 1) known)])
  else (n, []).

Definition on_sync_blocks (now_ms : u64) (blocks : list SyncBlock) n : Node St * list Output :=
  let batch := sync_batch blocks n in
  if bool_decide (batch = []) then (n, [])
  else
  let run := fold_left (sync_one now_ms) batch (mkSyncRun (nd_engine n) (pt_bad_roots (nd_p2p n)) 0 false) in
  let n := set_engine (sy_engine run) (set_p2p (set_bad_roots (sy_bad run) (nd_p2p n)) n) in
  let our := en_height (nd_engine n) in
  let known := nd_network_height n in
  if 0 <? sy_synced run then
    sync_rest our known true (set_p2p (set_fail_count 0 (nd_p2p n)) n)
  else if negb (existsb (fun b => u64_add our 1 <=? bh_height (Network.sb_header b)) batch) then (n, [])
  else
  let fails := u32_add (pt_fail_count (nd_p2p n)) 1 in
  let n := set_p2p (set_fail_count fails (nd_p2p n)) n in
  if 3 <=? fails then (on_fork known our n, []) else sync_rest our known (sy_gap run) n.

Definition handle_message (now_ms inst : Z) (backlog : usize) (m : NetworkMessage) n : Node St * list Output :=
  match m with
  | NewTransaction op => (on_transaction backlog op n, [])
  | NewBlock h ops _ _ => on_new_block now_ms inst h ops n
  | AttestationMsg id height hash signature => on_attestation now_ms inst id height hash signature n
  | StatusAnnounce height _ => on_status height n
  | CheckpointAttestationMsg id height hash root signature =>
    (on_checkpoint_attestation id height hash root signature n, [])
  | SyncRequest from _ => on_sync_request inst from n
  | SyncBlocks blocks => on_sync_blocks now_ms blocks n
  end.

(** ** The status task *)

Definition status_announcement e : Output := Broadcast (StatusAnnounce (en_height e) (st_state_root (en_store e))).

(** One round, every 15 seconds. *)
Definition status_tick n : Node St * list Output :=
  let e := nd_engine n in
  let height := en_height e in
  let ticks := u32_add (nd_ticks n) 1 in
  let n := set_ticks ticks n in
  let known := nd_network_height n in
  let has_peers := negb (bool_decide (nd_peer_heights n = [])) in
  (if negb (nd_syncing n) then n
   else if (height =? 0) && negb has_peers && (5 <=? ticks) then set_syncing false n
   else if (height =? 0) && has_peers && (5 <=? ticks) then set_syncing false n
   else if (0 <? known) && (known <=? u64_add height 1) && (4 <=? ticks)
   then set_syncing false (set_engine (clear_stale_pending height e) n)
   else if (0 <? height) && (known =? 0) && (5 <=? ticks)
   then set_syncing false (set_engine (clear_stale_pending height e) n)
   else n,
   [status_announcement e]).

(** ** The consensus loop *)

Definition loop_start (block_time : u64) (inst : Z) e : LoopVars :=
  mkLoop (existsb (fun v => bytes_eqb (vi_id v) (ec_validator_id cfg)) (en_validator_set e)) block_time
    (en_height e) inst inst
    (if PARTITION_SYNC_INTERVAL_MS <=? inst then inst - PARTITION_SYNC_INTERVAL_MS else inst)
    (en_height e) inst.

Definition set_finalized_seen (h : u64) (at_ finalized_from : Z) (l : LoopVars) : LoopVars :=
  mkLoop (lv_is_validator l) (lv_min_interval l) h at_ finalized_from (lv_last_partition_sync_at l)
    (lv_last_stranded_height l) (lv_last_stranded_progress_at l).
Definition set_min_interval (ms : Z) (l : LoopVars) : LoopVars :=
  mkLoop (lv_is_validator l) ms (lv_last_finalized_height l) (lv_last_finalized_at l) (lv_last_proposed_at l)
    (lv_last_partition_sync_at l) (lv_last_stranded_height l) (lv_last_stranded_progress_at l).
Definition set_partition_sync (at_ : Z) (l : LoopVars) : LoopVars :=
  mkLoop (lv_is_validator l) (lv_min_interval l) (lv_last_finalized_height l) (lv_last_finalized_at l)
    (lv_last_proposed_at l) at_ (lv_last_stranded_height l) (lv_last_stranded_progress_at l).
Definition set_stranded (h : u64) (at_ : Z) (l : LoopVars) : LoopVars :=
  mkLoop (lv_is_validator l) (lv_min_interval l) (lv_last_finalized_height l) (lv_last_finalized_at l)
    (lv_last_proposed_at l) (lv_last_partition_sync_at l) h at_.

(** Behind a live network without progress: a resync is requested. *)
Definition strand_check (inst : Z) n : Node St :=
  let e := nd_engine n in
  let l := nd_loop n in
  let our_h := en_height e in
  let stranded := (0 <? our_h) && (u64_add our_h STRANDED_BEHIND_BLOCKS <? nd_network_height n)
                  && negb (en_resyncing e) && negb (is_likely_partitioned e) in
  if stranded && (our_h =? lv_last_stranded_height l) then
    if STRANDED_RESYNC_AFTER_MS <=? elapsed inst (lv_last_stranded_progress_at l)
    then set_engine (request_resync e) (set_loop (set_stranded (lv_last_stranded_height l) inst l) n)
    else n
  else set_loop (set_stranded our_h inst l) n.

(** While syncing only the height is followed. *)
Definition syncing_round (inst : Z) n : Node St :=
  let l := nd_loop n in
  let h := en_height (nd_engine n) in
  if lv_last_finalized_height l <? h
  then set_loop (set_finalized_seen h inst (lv_last_proposed_at l) l) n else n.

Definition timeout_round (now_ms inst : Z) n : Node St * list Output :=
  let '(e, count) := finalize_timed_out_blocks cfg sign now_ms inst QUORUM_TIMEOUT_MS (nd_engine n) in
  (set_engine e n, if (0 <? count)%nat then [status_announcement e] else []).

(** The block time that governance has set. *)
Definition governed_interval e (l : LoopVars) : LoopVars :=
  match st_get (en_store e) BLOCK_TIME_KEY with
  | Some data =>
    if (8 <=? length data)%nat then
      let new_bt := from_le (take 8 data) in
      if (0 <? new_bt) && negb (new_bt =? lv_min_interval l) then set_min_interval new_bt l else l
    else l
  | None => l
  end.

Definition checkpoint_broadcast e : list Output :=
  match pending_checkpoint e with
  | Some (height, hash, root) =>
    [Broadcast (CheckpointAttestationMsg (ec_validator_id cfg) height hash root
                  (att_sign (signing_message height hash root)))]
  | None => []
  end.

(** A height that is new: the clocks of the loop, and the duties of an epoch
    boundary. *)
Definition observe_finalized (now_ms inst : Z) n : Node St * list Output :=
  let e := nd_engine n in
  let l := nd_loop n in
  let h := en_height e in
  if lv_last_finalized_height l <? h then
    let block_ts := match latest_block e with Some b => bh_timestamp_ms (fb_header b) | None => 0 end in
    let age := sat_sub now_ms block_ts in
    let l := set_finalized_seen h inst (if age <=? inst then inst - age else inst) l in
    if h mod 100 =? 0 then (set_loop (governed_interval e l) n, checkpoint_broadcast e)
    else (set_loop l n, [])
  else (n, []).

(** *** Production *)

Definition should_propose (stalled_for now_secs : Z) (probe : bool) e : bool :=
  let already_pending := has_pending_block e (u64_add (en_height e) 1) in
  (vs_active_count (en_validator_set e) <=? 1)%nat
  || (is_next_proposer cfg e && negb already_pending)
  || (negb already_pending && is_backup_proposer cfg stalled_for now_secs e)
  || (probe && negb already_pending).

(** A partitioned validator: the peers' bans are lifted, and it produces only as
    the prober of the window. [None] ends the round. *)
Definition partition_round (inst now_secs : Z) n : Node St * list Output * option bool :=
  let e := nd_engine n in
  if lv_is_validator (nd_loop n) && (0 <? en_height e) && is_likely_partitioned e then
    let lift := ReportPeer EvClearAllBans in
    let '(e, due) := if is_partition_probe_proposer cfg now_secs e then partition_probe_due inst e
                     else (e, false) in
    if due then (set_engine e n, [lift], Some true)
    else
    let ask := PARTITION_SYNC_INTERVAL_MS <=? elapsed inst (lv_last_partition_sync_at (nd_loop n)) in
    let l := if ask then set_partition_sync inst (nd_loop n) else nd_loop n in
    let our_h := en_height e in
    (set_loop l (set_engine (fst (take_dropped_block_height e)) n),
     lift :: (if ask then [Broadcast (SyncRequest (u64_add our_h 1) (u64_add our_h 10))] else []), None)
  else (n, [], Some false).

Definition request_dropped e : Engine St * list Output :=
  let '(e, dropped) := take_dropped_block_height e in
  (e, match dropped with
      | Some h => [Broadcast (SyncRequest h (u64_add h 10))]
      | None => []
      end).

(** The gas in the announcement of a block, known only to a sole validator. *)
Definition announced_gas (alone : bool) e : u64 :=
  match last (en_chain e) with
  | Some b => if alone then br_gas_used (fb_result b) else 0
  | None => 0
  end.

Definition propose (now_ms inst : Z) e : Engine St * list Output :=
  let alone := (vs_active_count (en_validator_set e) <=? 1)%nat in
  let '(e, h, ops) := produce_block cfg sign now_ms inst e in
  let announced := Broadcast (NewBlock h ops (length ops) (announced_gas alone e)) in
  if fc_v2_active cfg (bh_height h)
  then let '(e, votes) := broadcast_v2_revotes e in (e, announced :: votes)
  else (e, [announced; own_attestation (bh_height h) (block_hash h)]).

Definition production_round (now_ms inst : Z) n : Node St * list Output :=
  let stalled_for := elapsed inst (lv_last_finalized_at (nd_loop n)) in
  match partition_round inst (now_ms / 1000) n with
  | (n, out, None) => (n, out)
  | (n, out, Some probe) =>
    let turn := should_propose stalled_for (now_ms / 1000) probe (nd_engine n) in
    let '(e, asked) := request_dropped (nd_engine n) in
    if turn then
      let '(e, sent) := propose now_ms inst e in
      let l := nd_loop n in
      (set_engine e (set_loop (set_finalized_seen (lv_last_finalized_height l) inst inst l) n),
       out ++ asked ++ sent)
    else (set_engine e n, out ++ asked)
  end.

(** One round of the loop. [resync] recovers a diverged engine and gives the
    range to request; the last component tells whether it ran. *)
Definition poll (resync : Engine St -> Engine St * option (u64 * u64)) (now_ms inst : Z) n :
    Node St * list Output * bool :=
  let n := strand_check inst n in
  if nd_syncing n && negb (en_needs_resync (nd_engine n)) then (syncing_round inst n, [], false)
  else
  let '(n, out1) := timeout_round now_ms inst n in
  let '(n, out2) := observe_finalized now_ms inst n in
  if elapsed inst (lv_last_proposed_at (nd_loop n)) <? lv_min_interval (nd_loop n) then (n, out1 ++ out2, false)
  else
  let '(e, requested) := take_resync_request (nd_engine n) in
  if requested then
    let '(e, range) := resync e in
    (set_engine e n,
     out1 ++ out2 ++ match range with
                     | Some (from, to) => [Broadcast (SyncRequest from to)]
                     | None => []
                     end, true)
  else
  let '(n, out3) := production_round now_ms inst n in
  (n, out1 ++ out2 ++ out3, false).
End node.
