(* ===== verification/NodeRuns.v ===== *)
(** Runs of a node: the chain under every sequence of messages, status ticks
    and rounds of the consensus loop, with or without recovery, once fork choice
    by votes is active, the bound on served ranges, and what a single peer can
    do with messages nobody signs. *)

From S2P Require Import Prelude Types Store Memory Overlay Staking Treasury Codec State Address Auth Reputation Network.
From S2P Require Import Executor Blocks Validators Mempool Intents Checkpoint.
From S2P Require Import EngineState EngineVotes EngineBlocks EngineRecovery EngineFrames EngineSafety EngineSteps.
From S2P Require Import EngineRuns Rpc Transfer Boot NodeRecovery NodeLoop.
Open Scope Z_scope.

(** ** Once votes decide *)

Section settled.
Context {St : Type} `{!StateStore St} `{!BlockExec St} {crypto : Crypto} `{!Codec BlockHeader}
        `{!Codec SerializableBlock} `{!Codec FinalizedCheckpoint} `{!Codec StakingContract}
        `{!Codec EpochRandomness} `{!Codec Account}
        `{!Codec (list UserOperation)} `{!Codec (list ExecutionReceipt)}
        (cfg : EngineConfig) (sign : option (bytes -> bytes)) (att_sign : bytes -> bytes) (lk : Prop).
Implicit Types (e : Engine St) (n : Node St).

#[local] Abbreviation settled := (settled cfg lk).
#[local] Abbreviation fine := (fine cfg lk).

(** An accepted block is decided by votes. *)
Lemma accepted_by_votes now inst h ops e :
  settled e -> en_height e < u64_max -> snd (accept_block cfg sign now inst h ops e) = true ->
  fc_v2_active cfg (bh_height h) = true.
Proof.
  intros Hs Hm. unfold accept_block. destruct (header_acceptable now h e) eqn:Ha; cbn [negb]; [|done].
  apply header_acceptable_spec in Ha. pose proof (ac_height _ _ _ Ha) as Hh.
  rewrite (next_exact lk e) in Hh by (apply Hs || done). intros _.
  unfold fc_v2_active. pose proof (se_votes _ _ _ Hs). apply Z.leb_le. lia.
Qed.

(** ** The node's handlers *)

Definition nfine n n' : Prop := fine (nd_engine n) (nd_engine n').

#[local] Instance nfine_preorder : PreOrder nfine.
Proof. unfold nfine. split; [by intros n|]. intros n1 n2 n3 H1 H2. by etrans. Qed.

Lemma same_engine n n' : nd_engine n' = nd_engine n -> nfine n n'.
Proof. unfold nfine. by intros ->. Qed.

Lemma revotes_keeps e : keeps e (fst (broadcast_v2_revotes cfg att_sign e)).
Proof. by apply keeps_same. Qed.

Lemma resume_fine now h e : fine e (resume_from_sync cfg sign now h e).
Proof.
  unfold resume_from_sync, force_finalize_block_if_quorum. cbv zeta. set (e1 := clear_stale_pending _ e).
  assert (F1 : fine e e1) by (apply keeps_fine, clear_stale_keeps).
  etrans; [exact F1|]. cbn [fst]. destruct (_ || _); [|done].
  intros Hs. exact (keeps_fine _ _ _ _ (finalize_nothing cfg sign lk now (bh_height h) e1 Hs) Hs).
Qed.

Lemma on_new_block_fine now inst h ops n :
  en_height (nd_engine n) < u64_max -> nfine n (fst (on_new_block cfg sign att_sign now inst h ops n)).
Proof.
  intros Hm Hs. unfold on_new_block. destruct (_ <? _)%nat; [done|].
  pose proof (accept_block_fine cfg sign lk now inst h ops (nd_engine n) Hm) as Hf.
  pose proof (accepted_by_votes now inst h ops (nd_engine n) Hs Hm) as Hv.
  destruct (accept_block cfg sign now inst h ops (nd_engine n)) as [e1 ok]. cbn [fst snd] in Hf, Hv.
  destruct ok; [|destruct (_ && _); exact (Hf Hs)].
  unfold attest_accepted. rewrite (Hv eq_refl). cbn [fst broadcast_v2_revotes take_v2_revotes nd_engine set_engine].
  match goal with |- settled ?E /\ _ => enough (fine (nd_engine n) E) by auto end.
  etrans; [exact Hf|].
  assert (F2 : fine e1 (if is_likely_partitioned e1 then reset_partition_state e1 else e1)).
  { destruct (is_likely_partitioned e1); [|done]. apply keeps_fine. by apply keeps_same. }
  etrans; [exact F2|]. clear F2. set (e2 := if is_likely_partitioned e1 then _ else _).
  set (e3 := if nd_syncing n then _ else e2).
  assert (F3 : fine e2 e3) by (unfold e3; destruct (nd_syncing n); [apply resume_fine|done]).
  etrans; [exact F3|]. apply keeps_fine. by apply keeps_same.
Qed.

Lemma on_attestation_fine now inst id h hash signature n :
  en_height (nd_engine n) < u64_max ->
  nfine n (fst (on_attestation cfg sign att_sign now inst id h hash signature n)).
Proof.
  intros Hm. unfold nfine, on_attestation. destruct (_ && _); [|done].
  etrans; [by apply (accept_attestation_fine cfg sign lk now inst id h hash)|].
  destruct (fc_v2_active cfg h); [|done]. cbn. apply keeps_fine. by apply keeps_same.
Qed.

Lemma on_checkpoint_fine id h hash root signature n :
  nfine n (on_checkpoint_attestation id h hash root signature n).
Proof.
  unfold nfine, on_checkpoint_attestation. destruct (_ && _); [|done]. apply keeps_fine. cbn [nd_engine set_engine].
  unfold attest_checkpoint_with_data. destruct (fs_pending _); [|done].
  destruct (_ || _); [done|apply attest_checkpoint_keeps].
Qed.

Lemma on_status_engine h n : nd_engine (fst (on_status h n)) = nd_engine n.
Proof.
  unfold on_status. cbv zeta. destruct (_ <? _); [|done]. destruct (pt_fork_mismatch _); [done|]. by destruct (_ || _).
Qed.

Lemma on_sync_request_engine inst from n : nd_engine (fst (on_sync_request inst from n)) = nd_engine n.
Proof.
  unfold on_sync_request. destruct (serve_allowed _ _ _) as [p ok]. destruct (negb ok); [done|].
  destruct (load_blocks _ _ _) as [|b bs]; [done|]. by destruct (_ =? _).
Qed.

(** Heights that 64 bits hold, with one to spare. *)
Definition sized (b : SyncBlock) : Prop := 0 < bh_height (Network.sb_header b) < u64_max.

Lemma sync_one_fine now run b :
  sized b -> en_height (sy_engine run) < u64_max ->
  fine (sy_engine run) (sy_engine (sync_one cfg sign now run b))
  /\ en_height (sy_engine (sync_one cfg sign now run b)) < u64_max.
Proof.
  intros [Hb0 Hb] Hm. unfold sync_one. case_bool_decide; [done|].
  pose proof (replay_fine cfg sign lk now (Network.sb_header b) (Network.sb_operations b) (Network.sb_receipts b) _ Hm Hb0) as Hf.
  pose proof (replay_below cfg sign now (Network.sb_header b) (Network.sb_operations b) (Network.sb_receipts b) _ Hm Hb) as Hl.
  destruct (replay_synced_block _ _ _ _ _ _ _) as [e ok]. cbn [fst] in Hf, Hl.
  destruct ok; [done|]. by destruct (_ =? _).
Qed.

Lemma sync_fold_fine now batch run :
  Forall sized batch -> en_height (sy_engine run) < u64_max ->
  fine (sy_engine run) (sy_engine (fold_left (sync_one cfg sign now) batch run)).
Proof.
  intros Hall. revert run. induction Hall as [|b batch Hb _ IH]; intros run Hm; cbn [fold_left]; [done|].
  destruct (sync_one_fine now run b Hb Hm) as [Hf Hl]. etrans; [exact Hf|by apply IH].
Qed.

Lemma sync_batch_Forall (P : SyncBlock -> Prop) blocks n : Forall P blocks -> Forall P (sync_batch blocks n).
Proof.
  intros Hall. unfold sync_batch. rewrite stable_sort_perm. apply Forall_take.
  rewrite Forall_forall in *. intros b Hb. apply Hall. apply list_elem_of_In, filter_In in Hb as [Hb _].
  by apply list_elem_of_In.
Qed.

Lemma sync_rest_fine our known again n : nfine n (fst (sync_rest our known again n)).
Proof.
  unfold sync_rest, nfine. destruct (_ <=? _); [apply keeps_fine; by apply keeps_same|]. by destruct again.
Qed.

Lemma on_fork_fine known our n : nfine n (on_fork known our n).
Proof.
  unfold on_fork, nfine. cbn. destruct (_ && _); [apply keeps_fine; by apply keeps_same|done].
Qed.

Lemma on_sync_blocks_fine now blocks n :
  Forall sized blocks -> en_height (nd_engine n) < u64_max ->
  nfine n (fst (on_sync_blocks cfg sign now blocks n)).
Proof.
  intros Hall Hm. unfold on_sync_blocks. cbv zeta. case_bool_decide; [done|].
  set (run0 := mkSyncRun _ _ _ _). set (run := fold_left _ _ run0). set (n1 := set_engine (sy_engine run) _).
  assert (F1 : nfine n n1) by (apply (sync_fold_fine now _ run0); [by apply sync_batch_Forall|done]).
  etrans; [exact F1|]. clear F1.
  destruct (0 <? sy_synced run).
  { etrans; [|apply sync_rest_fine]. by apply same_engine. }
  destruct (negb _); [done|]. set (n2 := set_p2p (set_fail_count (u32_add _ _) _) n1).
  assert (F2 : nfine n1 n2) by by apply same_engine.
  destruct (3 <=? _); (etrans; [exact F2|]); [apply on_fork_fine|apply sync_rest_fine].
Qed.

Definition message_sized (m : NetworkMessage) : Prop :=
  match m with SyncBlocks blocks => Forall sized blocks | _ => True end.

Lemma handle_message_fine now inst backlog m n :
  message_sized m -> en_height (nd_engine n) < u64_max ->
  nfine n (fst (handle_message cfg sign att_sign now inst backlog m n)).
Proof.
  intros Hs Hm. destruct m; cbn [handle_message fst].
  - by apply on_new_block_fine.
  - unfold on_transaction, nfine. destruct (_ <? _)%nat; [done|]. apply keeps_fine. by apply keeps_same.
  - by apply on_attestation_fine.
  - apply same_engine, on_sync_request_engine.
  - by apply on_sync_blocks_fine.
  - apply same_engine, on_status_engine.
  - apply on_checkpoint_fine.
Qed.

Lemma status_tick_fine n : nfine n (fst (status_tick n)).
Proof.
  unfold status_tick, nfine. cbn [fst]. cbv zeta.
  repeat match goal with |- context [if ?b then _ else _] => destruct b end; try done;
    apply keeps_fine, clear_stale_keeps.
Qed.

(** *** The loop *)

Lemma strand_check_fine inst n : nfine n (strand_check inst n).
Proof.
  unfold strand_check, nfine. cbv zeta. destruct (_ && (_ =? _)); [|done].
  destruct (_ <=? _); [|done]. apply keeps_fine. by apply keeps_same.
Qed.

Lemma strand_check_height inst n : en_height (nd_engine (strand_check inst n)) = en_height (nd_engine n).
Proof. unfold strand_check. cbv zeta. destruct (_ && (_ =? _)); [|done]. by destruct (_ <=? _). Qed.

Lemma timeouts_nothing now inst timeout e :
  settled e -> keeps e (fst (finalize_timed_out_blocks cfg sign now inst timeout e)).
Proof.
  intros Hs. unfold finalize_timed_out_blocks. rewrite (se_none _ _ _ Hs). cbn.
  split; [done|]. split; [rewrite (se_none _ _ _ Hs); done|]. intros h m Hm. by exists m.
Qed.

Lemma observe_engine now inst n : nd_engine (fst (observe_finalized cfg att_sign now inst n)) = nd_engine n.
Proof. unfold observe_finalized. cbv zeta. destruct (_ <? _); [|done]. by destruct (_ =? _). Qed.

Lemma partition_keeps inst secs n :
  let '(n', _, _) := partition_round cfg inst secs n in keeps (nd_engine n) (nd_engine n').
Proof.
  unfold partition_round. cbv zeta. destruct (_ && is_likely_partitioned _); [|done].
  destruct (is_partition_probe_proposer cfg secs _); [|by apply keeps_same].
  unfold partition_probe_due. destruct (en_last_probe_at _); [destruct (_ <? _)|]; by apply keeps_same.
Qed.

Lemma propose_fine now inst e :
  en_height e < u64_max -> fine e (fst (propose cfg sign att_sign now inst e)).
Proof.
  intros Hm. unfold propose. pose proof (produce_fine cfg sign lk now inst e Hm) as Hf.
  destruct (produce_block cfg sign now inst e) as [[e1 h] ops]. cbn [fst] in Hf. etrans; [exact Hf|].
  destruct (fc_v2_active cfg _); [|done]. cbn. apply keeps_fine. by apply keeps_same.
Qed.

Lemma production_fine now inst n :
  en_height (nd_engine n) < u64_max -> nfine n (fst (production_round cfg sign att_sign now inst n)).
Proof.
  intros Hm. unfold production_round, nfine. cbv zeta. pose proof (partition_keeps inst (now / 1000) n) as K.
  destruct (partition_round cfg inst (now / 1000) n) as [[n1 out] [probe|]].
  2: { by apply keeps_fine. }
  etrans; [by apply keeps_fine|]. rewrite <- (keeps_height _ _ K) in Hm.
  unfold request_dropped, take_dropped_block_height. set (e2 := set_dropped_block_height None _).
  assert (F2 : fine (nd_engine n1) e2) by (apply keeps_fine; by apply keeps_same).
  etrans; [exact F2|]. destruct (should_propose _ _ _ _ _); [|done].
  pose proof (propose_fine now inst e2 Hm) as Hf. by destruct (propose _ _ _ _ _ e2) as [e3 sent].
Qed.

(** A round that does not run the recovery. *)
Lemma poll_fine resync now inst n n' out :
  en_height (nd_engine n) < u64_max ->
  poll cfg sign att_sign resync now inst n = (n', out, false) -> nfine n n'.
Proof.
  intros Hm. unfold poll. cbv zeta. set (n1 := strand_check inst n).
  assert (F1 : nfine n n1) by apply strand_check_fine.
  rewrite <- (strand_check_height inst n) in Hm. fold n1 in Hm.
  destruct (nd_syncing n1 && _).
  { intros [= <- _]. etrans; [exact F1|]. apply same_engine. unfold syncing_round. cbv zeta. by destruct (_ <? _). }
  unfold timeout_round. pose proof (timeouts_fine cfg sign lk now inst QUORUM_TIMEOUT_MS (nd_engine n1)) as F2.
  pose proof (timeouts_nothing now inst QUORUM_TIMEOUT_MS (nd_engine n1)) as K2.
  destruct (finalize_timed_out_blocks _ _ _ _ _ _) as [e2 count]. cbn [fst] in F2, K2.
  set (n2 := set_engine e2 n1). pose proof (observe_engine now inst n2) as E3.
  destruct (observe_finalized cfg att_sign now inst n2) as [n3 out2]. cbn [fst] in E3.
  assert (F3 : nfine n n3).
  { etrans; [exact F1|]. unfold nfine. rewrite E3. exact F2. }
  destruct (_ <? _); [by intros [= <- _]|]. cbn [take_resync_request].
  destruct (en_needs_resync (nd_engine n3)); [by destruct (resync _)|].
  pose proof (production_fine now inst n3) as F4.
  destruct (production_round _ _ _ _ _ n3) as [n4 out3]. intros [= <- _] Hs.
  destruct (F1 Hs) as [Hs1 _]. destruct (F3 Hs) as [Hs3 P3].
  rewrite E3 in F4. cbn [nd_engine set_engine n2] in F4. rewrite (keeps_height _ _ (K2 Hs1)) in F4.
  destruct (F4 Hm) as [Hs4 P4]; [exact Hs3|]. split; [exact Hs4|]. etrans; [exact P3|]. exact P4.
Qed.

(** A round that runs the recovery: up to it, the blocks are the same. *)
Lemma poll_recovery resync now inst n n' out :
  settled (nd_engine n) ->
  poll cfg sign att_sign resync now inst n = (n', out, true) ->
  exists e, keeps (nd_engine n) e /\ nd_engine n' = fst (resync e).
Proof.
  intros Hs. unfold poll. cbv zeta. set (n1 := strand_check inst n).
  assert (K1 : keeps (nd_engine n) (nd_engine n1)).
  { unfold n1, strand_check. cbv zeta. destruct (_ && (_ =? _)); [|done]. destruct (_ <=? _); by apply keeps_same. }
  destruct (strand_check_fine inst n Hs) as [Hs1 _]. fold n1 in Hs1.
  destruct (nd_syncing n1 && _); [done|].
  unfold timeout_round. pose proof (timeouts_nothing now inst QUORUM_TIMEOUT_MS (nd_engine n1) Hs1) as K2.
  destruct (finalize_timed_out_blocks _ _ _ _ _ _) as [e2 count]. cbn [fst] in K2.
  set (n2 := set_engine e2 n1). pose proof (observe_engine now inst n2) as E3.
  destruct (observe_finalized cfg att_sign now inst n2) as [n3 out2]. cbn [fst] in E3.
  destruct (_ <? _); [done|]. cbn [take_resync_request].
  destruct (en_needs_resync (nd_engine n3)); [|by destruct (production_round _ _ _ _ _ n3)].
  intros Hp. exists (set_needs_resync false (nd_engine n3)). split.
  - etrans; [exact K1|]. etrans; [exact K2|]. rewrite E3. by apply keeps_same.
  - destruct (resync _) as [e4 range]. by injection Hp as <- _.
Qed.
End settled.

(** ** The recovery, seen from the chain *)

Section moves.
Context {St : Type} `{!StateStore St} `{!BlockExec St} {crypto : Crypto} `{!Codec BlockHeader}
        `{!Codec StakingContract} {zip : Deflate} {Files : Type} (cfg : EngineConfig)
        (clear : St -> St) (restore_files : Files -> St -> St * bool).
Implicit Types e : Engine St.

(** The blocks stay, are cut at a height, or give way to a marker. *)
Inductive moves e : Engine St -> Prop :=
| moves_keeps e' : keeps e e' -> moves e e'
| moves_back e1 e2 t root e' :
    keeps e e1 -> fst (rollback_to_height t root e1) = e2 -> keeps e2 e' -> moves e e'
| moves_reset h ep e1 e' : keeps (reset_to_height cfg h ep e1) e' -> moves e e'.

Lemma keeps_moves e1 e2 e3 : keeps e1 e2 -> moves e2 e3 -> moves e1 e3.
Proof.
  intros K [e' K'|e1' e2' t root e' K' E K''|h ep e1' e' K'].
  - apply moves_keeps. by etrans.
  - eapply moves_back; [etrans; [exact K|exact K']|exact E|exact K''].
  - by eapply moves_reset.
Qed.

Lemma moves_then_keeps e1 e2 e3 : moves e1 e2 -> keeps e2 e3 -> moves e1 e3.
Proof.
  intros [e' K'|e1' e2' t root e' K' E K''|h ep e1' e' K'] K.
  - apply moves_keeps. by etrans.
  - eapply moves_back; [exact K'|exact E|by etrans].
  - eapply moves_reset. by etrans.
Qed.

(** A tier that fails leaves the blocks, one that succeeds moves them. *)
Definition tier_moves e (r : Engine St * bool) : Prop := if snd r then moves e (fst r) else keeps e (fst r).

Lemma keeps_tier e1 e2 r : keeps e1 e2 -> tier_moves e2 r -> tier_moves e1 r.
Proof. unfold tier_moves. intros K. destruct (snd r); [by apply keeps_moves|by etrans]. Qed.

Lemma restore_over_moves data e : tier_moves e (restore_over cfg clear data e).
Proof.
  unfold restore_over, tier_moves. destruct (restore_snapshot _ _) as [s [m|]]; cbn [fst snd].
  - by eapply moves_reset.
  - by apply keeps_same.
Qed.

Lemma rollback_tier_moves sources e : tier_moves e (rollback_tier sources e).
Proof.
  unfold rollback_tier. destruct (min_rollback_target e) as [m|] eqn:Em; [|done].
  destruct (find_common_ancestor _ _ _ _) as [[h root]|]; [|done]. destruct (_ <? _); [|done].
  unfold tier_moves. destruct (snd (rollback_to_height h root e)) eqn:Eo.
  - by eapply moves_back.
  - unfold rollback_to_height in *. destruct (_ <=? h); [done|]. rewrite Em in *.
    destruct (_ <? _); [done|]. cbv zeta in *. destruct (negb _); [by apply keeps_same|done].
Qed.

Lemma rocks_tier_moves sources entries e : tier_moves e (rocks_tier cfg restore_files sources entries e).
Proof.
  revert e. induction entries as [|x entries IH]; intros e; cbn [rocks_tier]; [done|].
  destruct (negb _); [apply IH|]. destruct (restore_files _ _) as [s []].
  - unfold tier_moves, reset_to_store_meta. cbn [fst snd]. destruct (load_chain_meta _) as [h ep]. by eapply moves_reset.
  - apply (keeps_tier _ (set_store s e)); [by apply keeps_same|apply IH].
Qed.

(** One tier, or one source, after the other. *)
Lemma tier_then e r (next : Engine St -> Engine St * bool) :
  tier_moves e r -> (forall e, tier_moves e (next e)) ->
  tier_moves e (let '(e, ok) := r in if ok then (e, true) else next e).
Proof. destruct r as [e1 []]; intros Hr Hn; [done|]. exact (keeps_tier _ _ _ Hr (Hn e1)). Qed.

Lemma local_tier_moves sources files e : tier_moves e (local_tier cfg clear sources files e).
Proof.
  revert e. induction files as [|[h data] files IH]; intros e; cbn [local_tier]; [done|].
  destruct (read_snapshot_meta data); [|apply IH]. destruct (negb _); [apply IH|].
  apply tier_then; [apply restore_over_moves|exact IH].
Qed.

Lemma remote_tier_moves remotes e : tier_moves e (remote_tier cfg clear remotes e).
Proof.
  revert e. induction remotes as [|r remotes IH]; intros e; cbn [remote_tier]; [done|].
  destruct (match rm_status r with Some _ => _ | None => _ end); [apply IH|].
  destruct (rm_total_bytes r); [|apply IH]. destruct (rm_body r) as [[|b data]| |]; try apply IH.
  apply tier_then; [apply restore_over_moves|exact IH].
Qed.

Lemma resync_moves sources rocks local remotes e :
  moves e (fst (resync cfg clear restore_files sources rocks local remotes e)).
Proof.
  unfold resync. cbv zeta. apply (keeps_moves _ (set_resyncing true e)); [by apply keeps_same|].
  generalize (set_resyncing true e). clear e. intros e.
  assert (Ht : tier_moves e (resync_tiers cfg clear restore_files sources rocks local remotes e)).
  { unfold resync_tiers. apply tier_then; [|intros e1; apply remote_tier_moves].
    destruct (tip_forked sources e); [|done]. unfold backward_tiers.
    apply tier_then; [apply rollback_tier_moves|]. intros e1.
    apply tier_then; [apply rocks_tier_moves|]. intros e2. apply local_tier_moves. }
  unfold tier_moves in Ht. destruct (resync_tiers _ _ _ _ _ _ _ e) as [e1 []]; cbn [fst snd] in *.
  - eapply moves_then_keeps; [exact Ht|]. by apply keeps_same.
  - apply moves_keeps. etrans; [exact Ht|]. by apply keeps_same.
Qed.

(** What is left of the invariant: all but the links. *)
Lemma moves_settled lk e e' :
  moves e e' -> settled cfg lk e -> 0 <= en_height e' -> ec_fork_choice_v2_height cfg <= en_height e' + 1 ->
  settled cfg False e'.
Proof.
  intros Hm Hs H0 Hv. destruct Hm as [e' K|e1 e2 t root e' K1 <- K2|h ep e1 e' K].
  - apply (settled_weaken _ lk); [done|]. by apply (keeps_fine cfg lk _ _ K).
  - assert (Hs1 : settled cfg lk e1) by by apply (keeps_fine cfg lk _ _ K1).
    rewrite (keeps_height _ _ K2) in Hv. destruct (rollback_settled cfg lk t root e1 Hs1 Hv) as [Hs2 _].
    by apply (keeps_fine cfg False _ _ K2).
  - rewrite (keeps_height _ _ K) in H0, Hv. apply (keeps_fine cfg False _ _ K). by apply reset_settled.
Qed.
End moves.

(** ** Runs *)

Section node_runs.
Context {St : Type} `{!StateStore St} `{!BlockExec St} {crypto : Crypto} `{!Codec BlockHeader}
        `{!Codec SerializableBlock} `{!Codec FinalizedCheckpoint} `{!Codec StakingContract}
        `{!Codec EpochRandomness} `{!Codec Account}
        `{!Codec (list UserOperation)} `{!Codec (list ExecutionReceipt)} {zip : Deflate} {Files : Type}
        (cfg : EngineConfig) (sign : option (bytes -> bytes)) (att_sign : bytes -> bytes)
        (clear : St -> St) (restore_files : Files -> St -> St * bool).
Implicit Types (e : Engine St) (n : Node St).

(** The tasks of a node take turns: a message handled by the network task, a
    tick of the status task, a round of the consensus loop. The label tells
    whether the round ran the recovery, with whatever the sources, the own
    checkpoints and snapshots and the remote nodes gave it. *)
Inductive node_step : bool -> Node St -> Node St -> Prop :=
| step_message now inst backlog m n :
    message_sized m -> en_height (nd_engine n) < u64_max ->
    node_step false n (fst (handle_message cfg sign att_sign now inst backlog m n))
| step_tick n : node_step false n (fst (status_tick n))
| step_poll sources rocks local remotes now inst n n' out recovered :
    en_height (nd_engine n) < u64_max ->
    poll cfg sign att_sign (resync cfg clear restore_files sources rocks local remotes) now inst n
      = (n', out, recovered) ->
    (recovered = true -> 0 <= en_height (nd_engine n')
       /\ ec_fork_choice_v2_height cfg <= en_height (nd_engine n') + 1) ->
    node_step recovered n n'.

Inductive node_run : list bool -> Node St -> Node St -> Prop :=
| node_run_nil n : node_run [] n n
| node_run_cons b bs n1 n2 n3 : node_step b n1 n2 -> node_run bs n2 n3 -> node_run (b :: bs) n1 n3.

Lemma node_step_fine lk n n' : node_step false n n' -> nfine cfg lk n n'.
Proof.
  inversion 1; subst.
  - by apply handle_message_fine.
  - apply status_tick_fine.
  - by eapply poll_fine.
Qed.

Lemma node_step_settled lk b n n' :
  node_step b n n' -> settled cfg lk (nd_engine n) -> settled cfg (lk /\ b = false) (nd_engine n').
Proof.
  intros Hst Hs. destruct b.
  - apply (settled_weaken _ False); [by intros [_ ?]|]. inversion Hst as [| |? ? ? ? ? ? ? ? ? ? Hu Hp Hr]; subst.
    destruct (poll_recovery _ _ _ lk _ _ _ _ _ _ Hs Hp) as (e & K & En).
    destruct (Hr eq_refl) as [H1 H2]. rewrite En in H1, H2 |- *.
    eapply moves_settled; [|exact Hs|exact H1|exact H2]. eapply keeps_moves; [exact K|apply resync_moves].
  - apply (settled_weaken _ lk); [by intros [? _]|]. by apply (node_step_fine lk n n' Hst Hs).
Qed.

Lemma node_run_settled lk bs n n' :
  node_run bs n n' -> settled cfg lk (nd_engine n) -> settled cfg (lk /\ Forall (eq false) bs) (nd_engine n').
Proof.
  intros Hr. revert lk. induction Hr as [n|b bs n1 n2 n3 Hst _ IH]; intros lk Hs.
  - eapply settled_weaken; [|exact Hs]. tauto.
  - apply (settled_weaken _ ((lk /\ b = false) /\ Forall (eq false) bs)).
    + rewrite Forall_cons. intros (? & <- & ?). done.
    + apply IH. by eapply node_step_settled.
Qed.

Lemma node_run_prefix bs n n' :
  node_run bs n n' -> settled cfg False (nd_engine n) -> Forall (eq false) bs ->
  en_chain (nd_engine n) `prefix_of` en_chain (nd_engine n').
Proof.
  induction 1 as [n|b bs n1 n2 n3 Hst _ IH]; intros Hs Hb; [done|]. apply Forall_cons in Hb as [<- Hb].
  destruct (node_step_fine False _ _ Hst Hs) as [Hs2 Hp]. etrans; [exact Hp|by apply IH].
Qed.

(** The engine after start-up. *)
Lemma boot_settled lk store vs :
  0 <= fst (load_chain_meta store) -> ec_fork_choice_v2_height cfg <= en_height (boot_engine cfg store vs) + 1 ->
  settled cfg lk (boot_engine cfg store vs).
Proof.
  intros Hr Hv. unfold boot_engine in *. cbv zeta in *. set (e0 := with_validators cfg store _ vs) in *.
  assert (K : keeps e0 (fst (reconcile_tip_with_finalized_checkpoint (load_finalized (reconcile_validators e0))))).
  { assert (K0 : keeps e0 (load_finalized (reconcile_validators e0))) by by apply keeps_same.
    etrans; [exact K0|]. apply reconcile_tip_keeps. }
  split; [eapply inv_keeps; [apply inv_start|exact K]; exact Hr| |exact Hv].
  eapply none_fewer; [apply start_none|apply K].
Qed.

End node_runs.

(** ** What the peers can make a node send *)

Record Arrival : Type := mkArrival { ar_now : u64; ar_inst : Z; ar_backlog : usize; ar_message : NetworkMessage }.

Section peers.
Context {St : Type} `{!StateStore St} `{!BlockExec St} {crypto : Crypto} `{!Codec BlockHeader}
        `{!Codec SerializableBlock} `{!Codec FinalizedCheckpoint} `{!Codec StakingContract}
        `{!Codec EpochRandomness} `{!Codec Account}
        `{!Codec (list UserOperation)} `{!Codec (list ExecutionReceipt)}
        (cfg : EngineConfig) (sign : option (bytes -> bytes)) (att_sign : bytes -> bytes).
Implicit Types (e : Engine St) (n : Node St).

Definition receive (a : Arrival) n : Node St * list Output :=
  handle_message cfg sign att_sign (ar_now a) (ar_inst a) (ar_backlog a) (ar_message a) n.
Fixpoint receive_all (arrivals : list Arrival) n : Node St * list Output :=
  match arrivals with
  | [] => (n, [])
  | a :: arrivals =>
    let '(n, out) := receive a n in
    let '(n, rest) := receive_all arrivals n in (n, out ++ rest)
  end.

(** A batch of blocks for everyone in the mesh. *)
Definition serves (o : Output) : bool := match o with Broadcast (SyncBlocks _) => true | _ => false end.
Definition serve_count (out : list Output) : Z := Z.of_nat (length (List.filter serves out)).

Lemma serve_count_nil : serve_count [] = 0.
Proof. done. Qed.
Lemma serve_count_app a b : serve_count (a ++ b) = serve_count a + serve_count b.
Proof. unfold serve_count. rewrite List.filter_app, length_app. lia. Qed.

(** What the global limit still allows until [until]. *)
Definition serve_allowance (until : Z) (g : Z * Z) : Z :=
  MAX_SYNC_SERVES_PER_SEC - snd g + MAX_SYNC_SERVES_PER_SEC * ((until - fst g) / 1000).

Lemma serve_global_allowance until inst g g' ok :
  0 <= snd g <= MAX_SYNC_SERVES_PER_SEC -> fst g <= inst <= until ->
  serve_global inst g = (g', ok) ->
  Z.b2z ok + serve_allowance until g' <= serve_allowance until g
  /\ 0 <= snd g' <= MAX_SYNC_SERVES_PER_SEC /\ fst g' <= inst.
Proof.
  unfold serve_global, serve_allowance, elapsed, sat_sub, MAX_SYNC_SERVES_PER_SEC. intros Hg Ht.
  destruct (Z.leb_spec 1000 (Z.max 0 (inst - fst g))) as [Hw|Hw]; [intros [= <- <-]|].
  - cbn [fst snd Z.b2z]. assert ((until - inst) / 1000 <= (until - fst g) / 1000 - 1).
    { transitivity ((until - fst g + (-1) * 1000) / 1000); [apply Z.div_le_mono; lia|].
      rewrite Z.div_add; lia. }
    lia.
  - destruct (Z.ltb_spec (snd g) 8); intros [= <- <-]; cbn [fst snd Z.b2z]; [|lia].
    unfold u32_add. rewrite Z.mod_small by lia. lia.
Qed.

(** Every message but a request leaves the limit alone and serves nothing. *)
Lemma other_messages_serve_nothing now inst backlog m n :
  (forall from to, m <> SyncRequest from to) ->
  let '(n', out) := handle_message cfg sign att_sign now inst backlog m n in
  pt_serve_global (nd_p2p n') = pt_serve_global (nd_p2p n) /\ serve_count out = 0.
Proof.
  intros Hm. destruct m; cbn [handle_message].
  - unfold on_new_block. destruct (_ <? _)%nat; [done|]. destruct (accept_block _ _ _ _ _ _ _) as [e1 []].
    + unfold attest_accepted. destruct (fc_v2_active _ _); cbn.
      * split; [by destruct (pt_fork_mismatch _)|]. unfold serve_count.
        induction (en_v2_revotes _); [done|exact IHl].
      * split; [by destruct (pt_fork_mismatch _)|done].
    + by destruct (_ && _).
  - unfold on_transaction. by destruct (_ <? _)%nat.
  - unfold on_attestation. destruct (_ && _); [|done]. destruct (fc_v2_active _ _); cbn; [|done].
    split; [done|]. unfold serve_count. induction (en_v2_revotes _); [done|exact IHl].
  - by destruct (Hm from_height to_height).
  - unfold on_sync_blocks, sync_rest. cbv zeta. case_bool_decide; [done|].
    destruct (0 <? _); [|destruct (negb _); [done|destruct (3 <=? _); [done|]]];
      (destruct (_ <=? _); [done|]); [done|]. by destruct (sy_gap _).
  - unfold on_status. cbv zeta. destruct (_ <? _); [|done]. destruct (pt_fork_mismatch _); [done|].
    by destruct (_ || _).
  - unfold on_checkpoint_attestation. by destruct (_ && _).
Qed.

Lemma receive_allowance until a n :
  0 <= snd (pt_serve_global (nd_p2p n)) <= MAX_SYNC_SERVES_PER_SEC ->
  fst (pt_serve_global (nd_p2p n)) <= ar_inst a <= until ->
  let '(n', out) := receive a n in
  serve_count out + serve_allowance until (pt_serve_global (nd_p2p n'))
    <= serve_allowance until (pt_serve_global (nd_p2p n))
  /\ 0 <= snd (pt_serve_global (nd_p2p n')) <= MAX_SYNC_SERVES_PER_SEC
  /\ fst (pt_serve_global (nd_p2p n')) <= ar_inst a.
Proof.
  intros Hg Ht. unfold receive. destruct (ar_message a) as [| | |from to| | |] eqn:Em.
  4: { cbn [handle_message]. unfold on_sync_request, serve_allowed.
    destruct (serve_range _ _ _) as [t ok]. destruct ok; [|cbn [negb nd_p2p set_p2p pt_serve_global]; rewrite serve_count_nil; lia].
    destruct (serve_global (ar_inst a) (pt_serve_global (nd_p2p n))) as [g ok] eqn:Eg.
    destruct (serve_global_allowance until _ _ _ _ Hg Ht Eg) as (Ha & Hr & Hi).
    destruct ok; cbn [negb Z.b2z] in *; [|cbn [nd_p2p set_p2p pt_serve_global]; rewrite serve_count_nil; lia].
    destruct (load_blocks _ _ _) as [|b bs];
      [cbn [nd_p2p set_p2p pt_serve_global]; rewrite serve_count_nil; lia|].
    destruct (_ =? _); cbn [nd_p2p set_p2p pt_serve_global];
      [change (serve_count [_]) with 1|rewrite serve_count_nil]; lia. }
  all: lazymatch goal with |- context [handle_message _ _ _ ?now ?inst ?backlog ?m ?node] =>
         pose proof (other_messages_serve_nothing now inst backlog m node ltac:(intros; discriminate)) as Ho;
         destruct (handle_message cfg sign att_sign now inst backlog m node) as [n' out]
       end; destruct Ho as [Hp Hc]; rewrite Hp, Hc; split; [reflexivity|split; [exact Hg|lia]].
Qed.

(** Whatever messages arrive in a period, the batches of blocks a node
    broadcasts in it are at most eight, and eight more for every further second
    of the period. *)
Theorem sync_serves_bounded until arrivals n :
  0 <= snd (pt_serve_global (nd_p2p n)) <= MAX_SYNC_SERVES_PER_SEC ->
  Sorted Z.le (fst (pt_serve_global (nd_p2p n)) :: map ar_inst arrivals) ->
  fst (pt_serve_global (nd_p2p n)) <= until ->
  Forall (fun a => ar_inst a <= until) arrivals ->
  serve_count (snd (receive_all arrivals n)) <= serve_allowance until (pt_serve_global (nd_p2p n)).
Proof.
  revert n. induction arrivals as [|a arrivals IH]; intros n Hg Hs Hu Hall.
  - cbn. unfold serve_allowance, MAX_SYNC_SERVES_PER_SEC in *. unfold serve_count. cbn.
    assert (0 <= (until - fst (pt_serve_global (nd_p2p n))) / 1000) by (apply Z.div_pos; lia). lia.
  - apply Forall_cons in Hall as [Ha Hall]. cbn [map] in Hs. apply Sorted_inv in Hs as [Hs Hd].
    apply HdRel_inv in Hd. cbn [receive_all].
    pose proof (receive_allowance until a n Hg ltac:(lia)) as Hstep.
    destruct (receive a n) as [n1 out1]. destruct Hstep as (H1 & H2 & H3).
    assert (Hs' : Sorted Z.le (fst (pt_serve_global (nd_p2p n1)) :: map ar_inst arrivals)).
    { apply Sorted_inv in Hs as [Hs' Hd']. constructor; [done|].
      destruct arrivals; constructor. apply HdRel_inv in Hd'. lia. }
    specialize (IH n1 H2 Hs' ltac:(lia) Hall). destruct (receive_all arrivals n1) as [n2 out2].
    cbn [snd] in *. rewrite serve_count_app. lia.
Qed.

(** ** Announcements that nobody signs *)

Definition proposes (o : Output) : bool := match o with Broadcast (NewBlock _ _ _ _) => true | _ => false end.

Lemma strand_check_same inst n :
  nd_syncing (strand_check inst n) = nd_syncing n
  /\ en_pending_blocks (nd_engine (strand_check inst n)) = en_pending_blocks (nd_engine n).
Proof. unfold strand_check. cbv zeta. destruct (_ && (_ =? _)); [|done]. by destruct (_ <=? _). Qed.

Lemma timeouts_idle now inst timeout e :
  en_pending_blocks e = ∅ ->
  let '(e', count) := finalize_timed_out_blocks cfg sign now inst timeout e in
  count = 0%nat /\ en_needs_resync e' = en_needs_resync e /\ en_pending_blocks e' = ∅.
Proof. intros Hn. unfold finalize_timed_out_blocks. by rewrite Hn. Qed.

(** A node that is syncing stays so in every round of the loop and proposes
    nothing, whether a resync is requested or not. *)
Lemma syncing_never_proposes resync now inst n :
  nd_syncing n = true -> en_pending_blocks (nd_engine n) = ∅ ->
  (forall e, en_pending_blocks e = ∅ -> en_pending_blocks (fst (resync e)) = ∅) ->
  let '(n', out, _) := poll cfg sign att_sign resync now inst n in
  nd_syncing n' = true /\ en_pending_blocks (nd_engine n') = ∅ /\ existsb proposes out = false.
Proof.
  intros Hs Hn Hr. unfold poll. cbv zeta. destruct (strand_check_same inst n) as [E1 E2].
  rewrite <- E1 in Hs. rewrite <- E2 in Hn. clear E1 E2. revert Hs Hn. generalize (strand_check inst n). clear n.
  intros n Hs Hn. rewrite Hs. cbn [andb]. destruct (en_needs_resync (nd_engine n)) eqn:Er; cbn [negb].
  2: { unfold syncing_round. cbv zeta. by destruct (_ <? _). }
  unfold timeout_round. pose proof (timeouts_idle now inst QUORUM_TIMEOUT_MS (nd_engine n) Hn) as Ht.
  destruct (finalize_timed_out_blocks _ _ _ _ _ _) as [e1 count]. destruct Ht as (-> & Hq & Hp).
  set (n1 := set_engine e1 n). pose proof (observe_engine cfg att_sign now inst n1) as E3.
  assert (Ho : nd_syncing (fst (observe_finalized cfg att_sign now inst n1)) = true
    /\ existsb proposes (snd (observe_finalized cfg att_sign now inst n1)) = false).
  { unfold observe_finalized. cbv zeta. destruct (_ <? _); [|done]. destruct (_ =? _); [|done].
    split; [done|]. unfold checkpoint_broadcast. cbn [snd].
    destruct (pending_checkpoint _) as [[[h hash] root]|]; done. }
  destruct (observe_finalized _ _ _ _ _) as [n2 out2]. cbn [fst snd] in E3, Ho. destruct Ho as [Hs2 Ho].
  cbn [Nat.ltb Nat.leb app]. destruct (_ <? _); [rewrite E3; done|].
  cbn [take_resync_request]. rewrite E3. cbn [nd_engine set_engine n1]. rewrite Hq, Er.
  specialize (Hr (set_needs_resync false e1) Hp). destruct (resync _) as [e2 range].
  split; [exact Hs2|]. split; [exact Hr|]. rewrite existsb_app, Ho. by destruct range as [[from to]|].
Qed.

Record Round : Type := mkRound { rd_resync : Engine St -> Engine St * option (u64 * u64); rd_now : u64; rd_inst : Z }.
Fixpoint poll_all (rounds : list Round) n : Node St * list Output :=
  match rounds with
  | [] => (n, [])
  | r :: rounds =>
    let '(n, out, _) := poll cfg sign att_sign (rd_resync r) (rd_now r) (rd_inst r) n in
    let '(n, rest) := poll_all rounds n in (n, out ++ rest)
  end.
Definition leaves_none_pending (r : Round) : Prop :=
  forall e, en_pending_blocks e = ∅ -> en_pending_blocks (fst (rd_resync r e)) = ∅.

Lemma syncing_rounds rounds n :
  nd_syncing n = true -> en_pending_blocks (nd_engine n) = ∅ -> Forall leaves_none_pending rounds ->
  nd_syncing (fst (poll_all rounds n)) = true /\ existsb proposes (snd (poll_all rounds n)) = false.
Proof.
  intros Hs Hn Hr. revert n Hs Hn. induction Hr as [|r rounds Hr _ IH]; intros n Hs Hn; [done|]. cbn [poll_all].
  pose proof (syncing_never_proposes (rd_resync r) (rd_now r) (rd_inst r) n Hs Hn Hr) as Hp.
  destruct (poll _ _ _ _ _ _ _) as [[n1 out] b]. destruct Hp as (Hs1 & Hn1 & Ho).
  destruct (IH n1 Hs1 Hn1) as [Hs2 Ho2]. destruct (poll_all rounds n1) as [n2 rest]. cbn [fst snd] in *.
  by rewrite existsb_app, Ho, Ho2.
Qed.

Lemma push_height_snoc h l : exists l', push_height h l = l' ++ [h] /\ (length l' <= 99)%nat.
Proof.
  unfold push_height. cbv zeta. rewrite length_app. cbn [length]. exists (drop (length l + 1 - 100) l).
  rewrite length_drop. split; [|lia]. rewrite drop_app_le by lia. done.
Qed.

Lemma announced_twice h l (f : u64 -> bool) :
  f h = true -> (2 <=? length (List.filter f (push_height h (push_height h l))))%nat = true.
Proof.
  intros Hf. destruct (push_height_snoc h l) as (l1 & -> & Hl). unfold push_height. cbv zeta.
  rewrite !length_app. cbn [length]. rewrite <- app_assoc. cbn [app].
  rewrite drop_app_le by lia. rewrite List.filter_app, length_app. cbn [List.filter]. rewrite Hf. cbn [length].
  apply Nat.leb_le. lia.
Qed.

(** The two announcements that the code wants from different peers can be the
    same message twice, from anyone: the node takes itself to be behind, and
    from then on no round of the loop proposes a block, nor does the status
    task bring it back. *)
Theorem forged_announcements_halt h root a1 a2 rounds n :
  ar_message a1 = StatusAnnounce h root -> ar_message a2 = StatusAnnounce h root ->
  pt_fork_mismatch (nd_p2p n) = false -> en_pending_blocks (nd_engine n) = ∅ ->
  0 < en_height (nd_engine n) -> u64_add (en_height (nd_engine n)) 1 < h ->
  Forall leaves_none_pending rounds ->
  let n2 := fst (receive a2 (fst (receive a1 n))) in
  nd_engine n2 = nd_engine n /\ nd_syncing n2 = true /\ nd_syncing (fst (status_tick n2)) = true
  /\ nd_syncing (fst (poll_all rounds n2)) = true /\ existsb proposes (snd (poll_all rounds n2)) = false.
Proof.
  intros E1 E2 Hf Hn H0 Hh Hr n2.
  assert (En : nd_engine n2 = nd_engine n).
  { unfold n2, receive. rewrite E1, E2. cbn [handle_message]. by rewrite !on_status_engine. }
  assert (Hs : nd_syncing n2 = true /\ h <= nd_network_height n2).
  { unfold n2, receive. rewrite E1, E2. cbn [handle_message]. set (n1 := fst (on_status h n)).
    assert (P1 : nd_peer_heights n1 = push_height h (nd_peer_heights n) /\ nd_p2p n1 = nd_p2p n
      /\ nd_engine n1 = nd_engine n).
    { unfold n1, on_status. cbv zeta. destruct (_ <? _); [|done]. destruct (pt_fork_mismatch _); [done|].
      by destruct (_ || _). }
    destruct P1 as (P1 & P2 & P3). unfold on_status.
    cbn [nd_peer_heights nd_engine nd_p2p set_peer_heights]. rewrite P1, P2, P3, Hf.
    assert ((u64_add (en_height (nd_engine n)) 1 <? h) = true) as Hlt by by apply Z.ltb_lt.
    rewrite Hlt. rewrite announced_twice by done. cbn. split; [done|]. lia. }
  destruct Hs as [Hs Hk]. split; [exact En|]. split; [exact Hs|]. split.
  - unfold status_tick. cbv zeta. cbn [nd_syncing set_ticks fst]. rewrite Hs. cbn [negb].
    rewrite En. replace (en_height (nd_engine n) =? 0) with false by (symmetry; apply Z.eqb_neq; lia). cbn [andb].
    cbn [nd_network_height set_ticks].
    replace (nd_network_height n2 <=? _) with false by (symmetry; apply Z.leb_gt; lia). rewrite andb_false_r. cbn [andb].
    assert (0 <= u64_add (en_height (nd_engine n)) 1) by (unfold u64_add; apply Z.mod_pos_bound; lia).
    replace (nd_network_height n2 =? 0) with false by (symmetry; apply Z.eqb_neq; lia). by rewrite andb_false_r.
  - apply syncing_rounds; [done|by rewrite En|done].
Qed.

(** ** Roots that are suspected *)

Lemma skipped_blocks now batch run (root : Hash) :
  Forall (fun b => bh_state_root (Network.sb_header b) = root) batch -> root ∈ sy_bad run ->
  fold_left (sync_one cfg sign now) batch run = run.
Proof.
  intros Hall Hb. induction Hall as [|b batch Hr _ IH]; cbn [fold_left]; [done|].
  assert (sync_one cfg sign now run b = run) as ->; [|exact IH].
  unfold sync_one. by rewrite Hr, bool_decide_eq_true_2 by done.
Qed.

(** The next block with another epoch than its height has fails before it is
    executed, and its root is suspected from then on. *)
Lemma bad_epoch_suspects now b n :
  bh_height (Network.sb_header b) = u64_add (en_height (nd_engine n)) 1 ->
  bh_epoch (Network.sb_header b) <> bh_height (Network.sb_header b) / CONSENSUS_EPOCH_LENGTH ->
  (size (pt_bad_roots (nd_p2p n)) < 1000)%nat ->
  let run := fold_left (sync_one cfg sign now) [b] (mkSyncRun (nd_engine n) (pt_bad_roots (nd_p2p n)) 0 false) in
  bh_state_root (Network.sb_header b) ∈ sy_bad run /\ sy_engine run = nd_engine n /\ sy_synced run = 0.
Proof.
  intros Hh He Hs run. unfold run. cbn [fold_left]. unfold sync_one. cbn [sy_bad sy_engine sy_synced sy_gap].
  case_bool_decide as Hin; [done|].
  assert (replay_synced_block cfg sign now (Network.sb_header b) (Network.sb_operations b) (Network.sb_receipts b)
    (nd_engine n) = (nd_engine n, false)) as ->.
  { unfold replay_synced_block. cbv zeta. destruct (match last _ with Some _ => _ | None => _ end); [done|].
    apply Z.eqb_neq in He. by rewrite He. }
  rewrite (proj2 (Z.eqb_eq _ _) Hh). cbn [sy_bad sy_engine sy_synced].
  assert (size ({[bh_state_root (Network.sb_header b)]} ∪ pt_bad_roots (nd_p2p n)) <= 1000)%nat as Hle.
  { rewrite size_union_alt, size_singleton.
    assert (size (pt_bad_roots (nd_p2p n) ∖ {[bh_state_root (Network.sb_header b)]})
      <= size (pt_bad_roots (nd_p2p n)))%nat by (apply subseteq_size; set_solver). lia. }
  rewrite (proj2 (Nat.ltb_ge _ _) Hle). set_solver.
Qed.

(** What the handler leaves of the run over the blocks. *)
Lemma on_sync_blocks_run now blocks n :
  let run := fold_left (sync_one cfg sign now) (sync_batch blocks n)
               (mkSyncRun (nd_engine n) (pt_bad_roots (nd_p2p n)) 0 false) in
  let n' := fst (on_sync_blocks cfg sign now blocks n) in
  en_chain (nd_engine n') = en_chain (sy_engine run) /\ en_store (nd_engine n') = en_store (sy_engine run)
  /\ pt_bad_roots (nd_p2p n') = sy_bad run.
Proof.
  cbv zeta. unfold on_sync_blocks. cbv zeta. case_bool_decide as Hb; [by rewrite Hb|].
  unfold sync_rest, on_fork. cbv zeta.
  destruct (0 <? _); [|destruct (negb _); [done|]; destruct (3 <=? _); [by destruct (_ && _)|]];
    (destruct (_ <=? _); [done|]); [done|]. by destruct (sy_gap _).
Qed.

(** A block that nobody signed, at the next height, with the state root of the
    next block and a wrong epoch: the node suspects the root, and afterwards
    applies no synced block with that root, the genuine one neither. *)
Theorem poisoned_root_stops_sync a1 a2 bad blocks n :
  ar_message a1 = SyncBlocks [bad] -> ar_message a2 = SyncBlocks blocks ->
  pt_fork_mismatch (nd_p2p n) = false -> (size (pt_bad_roots (nd_p2p n)) < 1000)%nat ->
  bh_height (Network.sb_header bad) = u64_add (en_height (nd_engine n)) 1 ->
  bh_epoch (Network.sb_header bad) <> bh_height (Network.sb_header bad) / CONSENSUS_EPOCH_LENGTH ->
  Forall (fun b => bh_state_root (Network.sb_header b) = bh_state_root (Network.sb_header bad)) blocks ->
  let n1 := fst (receive a1 n) in
  let n2 := fst (receive a2 n1) in
  en_chain (nd_engine n2) = en_chain (nd_engine n) /\ en_store (nd_engine n2) = en_store (nd_engine n).
Proof.
  intros E1 E2 Hf Hs Hh He Hall n1 n2.
  assert (H1 : bh_state_root (Network.sb_header bad) ∈ pt_bad_roots (nd_p2p n1)
    /\ en_chain (nd_engine n1) = en_chain (nd_engine n) /\ en_store (nd_engine n1) = en_store (nd_engine n)).
  { unfold n1, receive. rewrite E1. cbn [handle_message].
    destruct (on_sync_blocks_run (ar_now a1) [bad] n) as (-> & -> & ->).
    assert (sync_batch [bad] n = [bad]) as ->.
    { unfold sync_batch. cbn [List.filter]. unfold usable at 1. by rewrite Hf. }
    by destruct (bad_epoch_suspects (ar_now a1) bad n Hh He Hs) as (? & -> & _). }
  destruct H1 as (Hb & Hc & Ht). unfold n2, receive. rewrite E2. cbn [handle_message].
  destruct (on_sync_blocks_run (ar_now a2) blocks n1) as (-> & -> & _).
  rewrite (skipped_blocks (ar_now a2) _ _ (bh_state_root (Network.sb_header bad))); [done| |done].
  by apply (sync_batch_Forall (fun b => bh_state_root (Network.sb_header b) = _)).
Qed.
End peers.

(** The recovery of [NodeRecovery] files no pending block. *)
Section recovery.
Context {St : Type} `{!StateStore St} `{!BlockExec St} {crypto : Crypto} `{!Codec BlockHeader}
        `{!Codec StakingContract} {zip : Deflate} {Files : Type} (cfg : EngineConfig)
        (clear : St -> St) (restore_files : Files -> St -> St * bool).
Implicit Types e : Engine St.

Lemma restore_over_none data e :
  en_pending_blocks e = ∅ -> en_pending_blocks (fst (restore_over cfg clear data e)) = ∅.
Proof. intros Hn. unfold restore_over. by destruct (restore_snapshot _ _) as [s [m|]]. Qed.

Lemma rollback_tier_none sources e :
  en_pending_blocks e = ∅ -> en_pending_blocks (fst (rollback_tier sources e)) = ∅.
Proof.
  intros Hn. unfold rollback_tier. destruct (min_rollback_target e); [|done].
  destruct (find_common_ancestor _ _ _ _) as [[h root]|]; [|done]. destruct (_ <? _); [|done].
  unfold rollback_to_height. destruct (_ <=? _); [done|]. destruct (min_rollback_target e); [|done].
  destruct (_ <? _); [done|]. cbv zeta. by destruct (negb _).
Qed.

Lemma rocks_tier_none sources entries e :
  en_pending_blocks e = ∅ -> en_pending_blocks (fst (rocks_tier cfg restore_files sources entries e)) = ∅.
Proof.
  revert e. induction entries as [|x entries IH]; intros e Hn; cbn [rocks_tier]; [done|].
  destruct (negb _); [by apply IH|]. destruct (restore_files _ _) as [s []]; [|by apply IH].
  unfold reset_to_store_meta. by destruct (load_chain_meta _).
Qed.

Lemma local_tier_none sources files e :
  en_pending_blocks e = ∅ -> en_pending_blocks (fst (local_tier cfg clear sources files e)) = ∅.
Proof.
  revert e. induction files as [|[h data] files IH]; intros e Hn; cbn [local_tier]; [done|].
  destruct (read_snapshot_meta data); [|by apply IH]. destruct (negb _); [by apply IH|].
  pose proof (restore_over_none data e Hn) as Hr. destruct (restore_over _ _ data e) as [e1 []]; [done|by apply IH].
Qed.

Lemma remote_tier_none remotes e :
  en_pending_blocks e = ∅ -> en_pending_blocks (fst (remote_tier cfg clear remotes e)) = ∅.
Proof.
  revert e. induction remotes as [|r remotes IH]; intros e Hn; cbn [remote_tier]; [done|].
  destruct (match rm_status r with Some _ => _ | None => _ end); [by apply IH|].
  destruct (rm_total_bytes r); [|by apply IH]. destruct (rm_body r) as [[|b data]| |]; try by apply IH.
  pose proof (restore_over_none (b :: data) e Hn) as Hr.
  destruct (restore_over _ _ (b :: data) e) as [e1 []]; [done|by apply IH].
Qed.

Lemma resync_none sources rocks local remotes e :
  en_pending_blocks e = ∅ ->
  en_pending_blocks (fst (resync cfg clear restore_files sources rocks local remotes e)) = ∅.
Proof.
  intros Hn. unfold resync, resync_tiers, backward_tiers. set (e0 := set_resyncing true e).
  assert (H0 : en_pending_blocks e0 = ∅) by exact Hn. clearbody e0.
  assert (Hb : en_pending_blocks (fst (if tip_forked sources e0
    then backward_tiers cfg clear restore_files sources rocks local e0 else (e0, false))) = ∅).
  { destruct (tip_forked sources e0); [|done]. unfold backward_tiers.
    pose proof (rollback_tier_none sources e0 H0) as H1. destruct (rollback_tier _ _) as [e1 []]; [done|]. cbn [fst] in H1.
    pose proof (rocks_tier_none sources (List.filter (fun x => re_height x <=? en_height e1) (rev (rocks_list rocks))) e1 H1) as H2.
    destruct (rocks_tier _ _ _ _ _) as [e2 []]; [done|]. by apply local_tier_none. }
  unfold backward_tiers in Hb. destruct (if tip_forked sources e0 then _ else _) as [e1 []]; cbn [fst] in Hb.
  - done.
  - pose proof (remote_tier_none remotes e1 Hb) as Hr. by destruct (remote_tier _ _ _ _) as [e2 []].
Qed.
End recovery.

(** ** A node at work *)

(** A chain of four validators with equal stake, and the node of the third. *)
Definition staked_store : MemoryStore :=
  staking_save (mkStakingContract (map (fun k => staked k 100) [1; 2; 3; 4]) [] [] None None) block_store.
Definition booted (k : Z) : Engine MemoryStore := boot_engine (demo_cfg k 1) staked_store demo_set.
Definition signature_of (k : Z) (payload : bytes) : bytes := k :: replicate 63 0.
Definition quiet_p2p : P2pTask := mkP2p ∅ (0, 0) 0 false ∅.
Definition start_node (k : Z) : Node MemoryStore :=
  mkNode (booted k) true 0 [] quiet_p2p 0 (loop_start (demo_cfg k 1) 2000 0 (booted k)).
Definition hears (k : Z) (m : NetworkMessage) (n : Node MemoryStore) : Node MemoryStore :=
  fst (handle_message (demo_cfg k 1) (node_sign k) (signature_of k) 10000 10000 0 m n).

(** Validator 1 proposes the first block; votes for it. *)
Definition first_header : BlockHeader := snd (fst (produce_block (demo_cfg 1 1) (node_sign 1) 10000 0 (booted 1))).
Definition vote_for (from : Z) (h : BlockHeader) : NetworkMessage :=
  AttestationMsg (demo_id from) (bh_height h) (block_hash h) (signature_of from []).
Definition third_first : Node MemoryStore := hears 3 (NewBlock first_header [] 0 0) (start_node 3).
Definition third_second : Node MemoryStore := hears 3 (vote_for 1 first_header) third_first.
Definition third_hears : Node MemoryStore := hears 3 (vote_for 2 first_header) third_second.

(** One source, which has another root for height 1 and the root of the start
    for height 0, where the node has a checkpoint. *)
Definition other_chain : Sources := fun _ h =>
  [Some (if h =? 0 then chars (hex_encode (st_state_root staked_store)) else chars "ff")].
Definition one_checkpoint : RocksCheckpoints unit :=
  fst (rocks_create (Ok tt) 0 (st_state_root staked_store) (rocks_new ∅ ROCKS_CHECKPOINT_KEEP)).
Definition no_local_snapshots : LocalSnapshots := local_snapshots_new ∅ LOCAL_SNAPSHOT_KEEP.
Definition emptied_store (s : MemoryStore) : MemoryStore := mem_new.
Definition start_files (f : unit) (s : MemoryStore) : MemoryStore * bool := (staked_store, true).
Definition third_round (inst : Z) (n : Node MemoryStore) : Node MemoryStore * list Output * bool :=
  poll (demo_cfg 3 1) (node_sign 3) (signature_of 3)
    (resync (demo_cfg 3 1) emptied_store start_files other_chain one_checkpoint no_local_snapshots [])
    inst inst n.
Definition third_polls : Node MemoryStore := fst (fst (third_round 14000 third_hears)).

(** It hears of height 1300 twice, and minutes later it recovers. *)
Definition third_told : Node MemoryStore := hears 3 (StatusAnnounce 1300 zero_hash) third_polls.
Definition third_behind : Node MemoryStore := hears 3 (StatusAnnounce 1300 zero_hash) third_told.
Definition third_waits : Node MemoryStore := fst (fst (third_round 15000 third_behind)).
Definition third_recovers : Node MemoryStore := fst (fst (third_round 700000 third_waits)).

Abbreviation third_step :=
  (node_step (demo_cfg 3 1) (node_sign 3) (signature_of 3) emptied_store start_files) (only parsing).
Abbreviation third_run :=
  (node_run (demo_cfg 3 1) (node_sign 3) (signature_of 3) emptied_store start_files) (only parsing).

Lemma third_hears_step m n :
  message_sized m -> en_height (nd_engine n) < u64_max -> third_step false n (hears 3 m n).
Proof. intros Hm Hn. by apply step_message. Qed.

Lemma third_round_step inst n recovered :
  en_height (nd_engine n) < u64_max -> snd (third_round inst n) = recovered ->
  (recovered = true -> 0 <= en_height (nd_engine (fst (fst (third_round inst n))))
     /\ 1 <= en_height (nd_engine (fst (fst (third_round inst n)))) + 1) ->
  third_step recovered n (fst (fst (third_round inst n))).
Proof.
  intros Hn <- Hr. eapply (step_poll _ _ _ _ _ other_chain one_checkpoint no_local_snapshots []
    inst inst n _ (snd (fst (third_round inst n))) _ Hn); [|exact Hr].
  change (third_round inst n = (fst (fst (third_round inst n)), snd (fst (third_round inst n)), snd (third_round inst n))).
  by destruct (third_round inst n) as [[? ?] ?].
Qed.

Lemma third_runs :
  third_run [false; false; false; false] (start_node 3) third_polls
  /\ third_run [false; false; false; true] third_polls third_recovers.
Proof.
  split.
  - apply (node_run_cons _ _ _ _ _ _ _ _ third_first);
      [apply (third_hears_step (NewBlock first_header [] 0 0) _ I); vm_compute; reflexivity|].
    apply (node_run_cons _ _ _ _ _ _ _ _ third_second);
      [apply (third_hears_step (vote_for 1 first_header) _ I); vm_compute; reflexivity|].
    apply (node_run_cons _ _ _ _ _ _ _ _ third_hears);
      [apply (third_hears_step (vote_for 2 first_header) _ I); vm_compute; reflexivity|].
    apply (node_run_cons _ _ _ _ _ _ _ _ third_polls); [|apply node_run_nil].
    apply third_round_step; [vm_compute; reflexivity..|discriminate].
  - apply (node_run_cons _ _ _ _ _ _ _ _ third_told);
      [apply (third_hears_step (StatusAnnounce 1300 zero_hash) _ I); vm_compute; reflexivity|].
    apply (node_run_cons _ _ _ _ _ _ _ _ third_behind);
      [apply (third_hears_step (StatusAnnounce 1300 zero_hash) _ I); vm_compute; reflexivity|].
    apply (node_run_cons _ _ _ _ _ _ _ _ third_waits);
      [apply third_round_step; [vm_compute; reflexivity..|discriminate]|].
    apply (node_run_cons _ _ _ _ _ _ _ _ third_recovers); [|apply node_run_nil].
    apply third_round_step; [vm_compute; reflexivity..|]. intros _. split; vm_compute; discriminate.
Qed.

Lemma node_run_app bs bs' n1 n2 n3 : third_run bs n1 n2 -> third_run bs' n2 n3 -> third_run (bs ++ bs') n1 n3.
Proof. induction 1; intros Hr; [done|]. cbn [app]. eapply node_run_cons; [eassumption|auto]. Qed.


(** *** Messages from one peer *)

Definition first_synced : SyncBlock := mkSyncBlock first_header [] [].
Definition with_place (height epoch : u64) (h : BlockHeader) : SyncBlock :=
  mkSyncBlock (mkHeader height epoch (bh_parent_hash h) (bh_state_root h) (bh_transactions_root h)
    (bh_receipts_root h) (bh_proposer h) (bh_timestamp_ms h) []) [] [].

(** The genuine block syncs, unless its copy with another epoch came first. *)
Example poisoned_first_block :
  en_height (nd_engine (hears 3 (SyncBlocks [first_synced]) (start_node 3))) = 1
  /\ en_height (nd_engine (hears 3 (SyncBlocks [first_synced])
       (hears 3 (SyncBlocks [with_place 1 9 first_header]) (start_node 3)))) = 0.
Proof. split; vm_compute; reflexivity. Qed.

(** A node without blocks takes a synced block of any height: here it starts
    its chain at height 77, with a header that nobody signed. *)
Example first_synced_block_any_height :
  map (fun b => bh_height (fb_header b))
    (en_chain (nd_engine (hears 3 (SyncBlocks [with_place 77 0 first_header]) (start_node 3)))) = [77].
Proof. vm_compute. reflexivity. Qed.
