(* ===== verification/StSolen.v ===== *)
(** The liquid staking contract ([examples/contracts/stsolen/src/lib.rs]) on
    the contract SDK ([crates/solen-contract-sdk/src/lib.rs]).

    A handler takes the frame the executor set up and the state of the guest,
    and returns the state with a reply. The fuel of the host calls is the
    subject of [Vm]; here every host call is paid for. A call that runs short of
    fuel skips the writes it cannot pay ([Vm.low_fuel_skips]) and is outside of
    this model. *)

From S2P Require Import Prelude Types Executor Vm.
Open Scope Z_scope.

(** ** The SDK *)

Record Frame : Type := mkFrame {
  f_caller : AccountId;
  f_height : u64;
  f_msg_value : u128;
  f_self_balance : u128;
}.

Record Guest : Type := mkGuest {
  g_storage : gmap bytes bytes;
  g_events : list (bytes * bytes);
  g_calls : list PendingCall;
  g_transfers : list (AccountId * u128);
}.

(** The value given to [sdk::return_value], or a panic, which traps. *)
Inductive Reply : Type := Returned (data : bytes) | Trapped.

Definition ret (s : string) : Reply := Returned (bytes_of_string s).

(** [storage::get] into the scratch buffer of 4096 bytes; the contract stores
    no value longer than 56. *)
Definition storage_get (key : bytes) (g : Guest) : option bytes := g_storage g !! key.
Definition storage_set (key value : bytes) (g : Guest) : Guest :=
  mkGuest (<[key := value]> (g_storage g)) (g_events g) (g_calls g) (g_transfers g).
Definition get_u64 (key : bytes) (g : Guest) : option u64 :=
  b ← storage_get key g; if (length b <? 8)%nat then None else Some (from_le (take 8 b)).
Definition get_u128 (key : bytes) (g : Guest) : option u128 :=
  b ← storage_get key g; if (length b <? 16)%nat then None else Some (from_le (take 16 b)).
Definition set_u64 (key : bytes) (v : u64) (g : Guest) : Guest := storage_set key (le_bytes 8 v) g.
Definition set_u128 (key : bytes) (v : u128) (g : Guest) : Guest := storage_set key (le_bytes 16 v) g.
Definition emit (topic : string) (data : bytes) (g : Guest) : Guest :=
  mkGuest (g_storage g) (g_events g ++ [(bytes_of_string topic, data)]) (g_calls g) (g_transfers g).

(** [sdk::queue_call] and [sdk::transfer]: [None] where the host refuses. *)
Definition queue_call (target : AccountId) (method : string) (args : bytes) (g : Guest) : option Guest :=
  let m := bytes_of_string method in
  if (length m =? 0)%nat || (MAX_METHOD_LEN <? length m)%nat || (MAX_ARGS_LEN <? length args)%nat
     || (MAX_PENDING_CALLS <=? length (g_calls g))%nat
  then None
  else Some (mkGuest (g_storage g) (g_events g) (g_calls g ++ [mkPendingCall target m args])
                     (g_transfers g)).
Definition sdk_transfer (to : AccountId) (amount : u128) (g : Guest) : option Guest :=
  if (amount =? 0) || (MAX_NATIVE_TRANSFERS <=? length (g_transfers g))%nat then None
  else Some (mkGuest (g_storage g) (g_events g) (g_calls g) (g_transfers g ++ [(to, amount)])).

(** ** Constants and keys *)

Definition EPOCH_LENGTH_BLOCKS : u64 := 100.
Definition UNBONDING_EPOCHS : u64 := 7.
Definition MIN_FEE_RESERVE : u128 := 10000.
Definition MAX_OPERATORS : u64 := 32.
Definition MAX_UNDELEGATIONS_PER_OP : u64 := 7.
Definition DEAD_ADDRESS : AccountId := Eval vm_compute in replicate 32 222.
Definition BOOTSTRAP_BURN : u128 := 1000.
Definition MIN_FIRST_DEPOSIT : u128 := 11100.
Definition FEE_BPS_HARD_CAP : u64 := 2000.
Definition DEFAULT_FEE_BPS : u64 := 1000.
Definition DEFAULT_OP_CAP_BPS : u64 := 2500.
Definition MIN_RECOMPOUND : u128 := 100 * 100000000.
Definition ZERO_ID : AccountId := Eval vm_compute in replicate 32 0.

Inductive SKey : Type :=
| KOwner | KTreasury | KSlashOracle | KPaused | KSupply | KPooled | KLastSeen | KPending
| KFeeBps | KOpCount | KOpCursor | KOpCap | KRecompound | KWqHead | KWqTail | KUnHead | KUnTail
| KBuffer
| KBal (a : AccountId) | KAllow (owner spender : AccountId) | KOp (i : u64) | KOpStake (a : AccountId)
| KPue (a : AccountId) | KIfu (a : AccountId) | KWq (seq : u64) | KUn (seq : u64).

Definition key_prefix (k : SKey) : bytes := bytes_of_string
  match k with
  | KOwner => "owner" | KTreasury => "treasury" | KSlashOracle => "slash_oracle"
  | KPaused => "paused" | KSupply => "total_supply" | KPooled => "total_pooled_solen"
  | KLastSeen => "last_balance_seen" | KPending => "pending_withdrawal_solen"
  | KFeeBps => "protocol_fee_bps" | KOpCount => "op_count" | KOpCursor => "op_cursor"
  | KOpCap => "op_cap_bps" | KRecompound => "last_recompound_epoch" | KWqHead => "wq_head"
  | KWqTail => "wq_tail" | KUnHead => "un_log_head" | KUnTail => "un_log_tail"
  | KBuffer => "withdrawal_buffer"
  | KBal _ => "bal/" | KAllow _ _ => "allow/" | KOp _ => "op/" | KOpStake _ => "op_stake/"
  | KPue _ => "pue/" | KIfu _ => "ifu/" | KWq _ => "wq/" | KUn _ => "un/"
  end.
Definition key_suffix (k : SKey) : bytes :=
  match k with
  | KBal a | KOpStake a | KPue a | KIfu a => a
  | KAllow o s => o ++ [47] ++ s
  | KOp i | KWq i | KUn i => le_bytes 8 i
  | _ => []
  end.
Definition key (k : SKey) : bytes := key_prefix k ++ key_suffix k.

(** ** Typed cells *)

Definition ld128 (k : SKey) (g : Guest) : u128 := default 0 (get_u128 (key k) g).
Definition ld64 (d : u64) (k : SKey) (g : Guest) : u64 := default d (get_u64 (key k) g).
Definition st128 (k : SKey) (v : u128) (g : Guest) : Guest := set_u128 (key k) v g.
Definition st64 (k : SKey) (v : u64) (g : Guest) : Guest := set_u64 (key k) v g.
Definition read_32 (k : SKey) (g : Guest) : option AccountId :=
  b ← storage_get (key k) g; if (length b <? 32)%nat then None else Some (take 32 b).
Definition ld32 (k : SKey) (g : Guest) : AccountId := default ZERO_ID (read_32 k g).

Definition get_balance (a : AccountId) : Guest -> u128 := ld128 (KBal a).
Definition set_balance (a : AccountId) : u128 -> Guest -> Guest := st128 (KBal a).
Definition get_total_supply : Guest -> u128 := ld128 KSupply.
Definition set_total_supply : u128 -> Guest -> Guest := st128 KSupply.
Definition get_total_pooled : Guest -> u128 := ld128 KPooled.
Definition set_total_pooled : u128 -> Guest -> Guest := st128 KPooled.
Definition get_op_stake (a : AccountId) : Guest -> u128 := ld128 (KOpStake a).
Definition set_op_stake (a : AccountId) : u128 -> Guest -> Guest := st128 (KOpStake a).
Definition get_pending_undelegate (a : AccountId) : Guest -> u128 := ld128 (KPue a).
Definition set_pending_undelegate (a : AccountId) : u128 -> Guest -> Guest := st128 (KPue a).
Definition get_inflight (a : AccountId) : Guest -> u64 := ld64 0 (KIfu a).
Definition set_inflight (a : AccountId) : u64 -> Guest -> Guest := st64 (KIfu a).
Definition is_paused (g : Guest) : bool :=
  match storage_get (key KPaused) g with Some (1 :: _) => true | _ => false end.
Definition current_epoch (f : Frame) : u64 := f_height f / EPOCH_LENGTH_BLOCKS.
Definition op_at (i : u64) (g : Guest) : AccountId := ld32 (KOp i) g.

(** ** Withdrawal queue and undelegation log *)

Definition read_wq (seq : u64) (g : Guest) : option (AccountId * u128 * u64) :=
  b ← storage_get (key (KWq seq)) g;
  if (length b <? 56)%nat then None
  else Some (take 32 b, from_le (slice 32 16 b), from_le (slice 48 8 b)).
Definition write_wq (seq : u64) (account : AccountId) (owed : u128) (epoch : u64) (g : Guest) : Guest :=
  storage_set (key (KWq seq)) (account ++ le_bytes 16 owed ++ le_bytes 8 epoch) g.
Definition clear_wq (seq : u64) (g : Guest) : Guest := storage_set (key (KWq seq)) [] g.

Definition read_un_log (seq : u64) (g : Guest) : option (u64 * u128 * AccountId) :=
  b ← storage_get (key (KUn seq)) g;
  if (length b <? 56)%nat then None
  else Some (from_le (take 8 b), from_le (slice 8 16 b), slice 24 32 b).
Definition write_un_log (seq epoch : u64) (amount : u128) (op : AccountId) (g : Guest) : Guest :=
  storage_set (key (KUn seq)) (le_bytes 8 epoch ++ le_bytes 16 amount ++ op) g.
Definition clear_un_log (seq : u64) (g : Guest) : Guest := storage_set (key (KUn seq)) [] g.

(** The loop of [walk_matured_log] from [seq], [fuel] entries left: the matured
    total and the new head. *)
Fixpoint walk_log (fuel : nat) (commit : bool) (now seq matured new_head : u64) (g : Guest) :
    Guest * u128 * u64 :=
  match fuel with
  | O => (g, matured, new_head)
  | S fuel =>
    match read_un_log seq g with
    | None => walk_log fuel commit now (u64_add seq 1) matured (if commit then u64_add seq 1 else new_head) g
    | Some (epoch, amount, operator) =>
      if now <? u64_add epoch UNBONDING_EPOCHS then (g, matured, new_head)
      else
      let g := if commit then
                 let g := clear_un_log seq g in
                 set_inflight operator (sat_sub (get_inflight operator g) 1) g
               else g in
      walk_log fuel commit now (u64_add seq 1) (sat_add128 matured amount)
        (if commit then u64_add seq 1 else new_head) g
    end
  end.
Definition walk_matured_log (now : u64) (commit : bool) (g : Guest) : Guest * u128 :=
  let head := ld64 0 KUnHead g in
  let tail := ld64 0 KUnTail g in
  let '(g, matured, new_head) := walk_log (Z.to_nat (tail - head)) commit now head 0 head g in
  (if commit then st64 KUnHead new_head g else g, matured).

(** ** Arguments *)

Definition arg_account (args : bytes) (off : nat) : option AccountId :=
  if (length args <? off + 32)%nat then None else Some (slice off 32 args).
Definition arg_u128 (args : bytes) (off : nat) : option u128 :=
  if (length args <? off + 16)%nat then None else Some (from_le (slice off 16 args)).
Definition arg_u64 (args : bytes) (off : nat) : option u64 :=
  if (length args <? off + 8)%nat then None else Some (from_le (slice off 8 args)).

Notation "'let*' x ':=' o 'else' g ',' r 'in' k" :=
  (match o with Some x => k | None => (g, r) end)
  (at level 10, x name, o at level 100, g at level 99, r at level 99, k at level 200).

(** ** SRC-20 *)

Definition do_init (f : Frame) (args : bytes) (g : Guest) : Guest * Reply :=
  if negb (bytes_eqb (ld32 KOwner g) ZERO_ID) then (g, ret "err:already_initialized")
  else
  let* treasury := arg_account args 0 else g, ret "err:invalid_args" in
  let* oracle := arg_account args 32 else g, ret "err:invalid_args" in
  let g := storage_set (key KOwner) (f_caller f) g in
  let g := storage_set (key KTreasury) treasury g in
  let g := storage_set (key KSlashOracle) oracle g in
  let g := st64 KFeeBps DEFAULT_FEE_BPS g in
  let g := st64 KOpCap DEFAULT_OP_CAP_BPS g in
  (emit "initialized" (f_caller f) g, ret "ok").

(** The two balance updates of a transfer; the second reads what the first wrote. *)
Definition move_balance (from to : AccountId) (from_bal amount : u128) (g : Guest) : Guest :=
  let g := set_balance from (u128_sub from_bal amount) g in
  set_balance to (u128_add (get_balance to g) amount) g.

Definition do_transfer (f : Frame) (args : bytes) (g : Guest) : Guest * Reply :=
  let caller := f_caller f in
  let* to := arg_account args 0 else g, ret "err:invalid_args" in
  let* amount := arg_u128 args 32 else g, ret "err:invalid_args" in
  let from_bal := get_balance caller g in
  if from_bal <? amount then (g, ret "err:insufficient_balance")
  else
  let g := move_balance caller to from_bal amount g in
  (emit "transfer" (to ++ le_bytes 16 amount) g, ret "ok").

Definition do_transfer_from (f : Frame) (args : bytes) (g : Guest) : Guest * Reply :=
  let caller := f_caller f in
  let* from := arg_account args 0 else g, ret "err:invalid_args" in
  let* to := arg_account args 32 else g, ret "err:invalid_args" in
  let* amount := arg_u128 args 64 else g, ret "err:invalid_args" in
  let allowed := ld128 (KAllow from caller) g in
  if allowed <? amount then (g, ret "err:insufficient_allowance")
  else
  let from_bal := get_balance from g in
  if from_bal <? amount then (g, ret "err:insufficient_balance")
  else
  let g := move_balance from to from_bal amount g in
  let g := st128 (KAllow from caller) (u128_sub allowed amount) g in
  (emit "transfer" (to ++ le_bytes 16 amount) g, ret "ok").

Definition do_approve (f : Frame) (args : bytes) (g : Guest) : Guest * Reply :=
  let caller := f_caller f in
  let* spender := arg_account args 0 else g, ret "err:invalid_args" in
  let* amount := arg_u128 args 32 else g, ret "err:invalid_args" in
  let g := st128 (KAllow caller spender) amount g in
  (emit "approval" (caller ++ spender ++ le_bytes 16 amount) g, ret "ok").

Definition do_balance_of (args : bytes) (g : Guest) : Guest * Reply :=
  let* account := arg_account args 0 else g, ret "err:invalid_args" in
  (g, Returned (le_bytes 16 (get_balance account g))).
Definition do_allowance (args : bytes) (g : Guest) : Guest * Reply :=
  let* owner := arg_account args 0 else g, ret "err:invalid_args" in
  let* spender := arg_account args 32 else g, ret "err:invalid_args" in
  (g, Returned (le_bytes 16 (ld128 (KAllow owner spender) g))).
Definition do_total_supply (g : Guest) : Guest * Reply :=
  (g, Returned (le_bytes 16 (get_total_supply g))).

(** ** Staking lifecycle *)

(** The fee in receipts for the treasury, at the rate after the growth. *)
Definition mint_fee (fee_solen pool_after : u128) (g : Guest) : Guest :=
  let supply := get_total_supply g in
  if (0 <? fee_solen) && (0 <? pool_after) && (0 <? supply) then
    let fee_mint := sat_mul128 fee_solen supply / pool_after in
    if 0 <? fee_mint then
      let treasury := ld32 KTreasury g in
      let g := set_balance treasury (u128_add (get_balance treasury g) fee_mint) g in
      let g := set_total_supply (u128_add supply fee_mint) g in
      emit "mint" (treasury ++ le_bytes 16 fee_mint) g
    else g
  else g.

Definition sync_rewards (f : Frame) (g : Guest) : Guest :=
  let current := f_self_balance f in
  let last := ld128 KLastSeen g in
  let inflow := sat_sub (sat_sub current last) (f_msg_value f) in
  let g :=
    if 0 <? inflow then
      let fee_bps := ld64 DEFAULT_FEE_BPS KFeeBps g in
      let fee_solen := sat_mul128 inflow fee_bps / 10000 in
      let growth_solen := u128_sub inflow fee_solen in
      let pool_after := u128_add (get_total_pooled g) growth_solen in
      mint_fee fee_solen pool_after (set_total_pooled pool_after g)
    else g in
  st128 KLastSeen current g.

(** The walk of [select_operator]: [n] slots are left. *)
Fixpoint walk_operators (n : nat) (count walk cap amount : Z) (fallback : AccountId) (g : Guest) :
    option (AccountId * u64) * AccountId :=
  match n with
  | O => (None, fallback)
  | S n =>
    let op := op_at walk g in
    let next_cursor := u64_add walk 1 mod count in
    if bytes_eqb op ZERO_ID then walk_operators n count next_cursor cap amount fallback g
    else
    let fallback := if bytes_eqb fallback ZERO_ID then op else fallback in
    if sat_add128 (get_op_stake op g) amount <=? cap then (Some (op, next_cursor), fallback)
    else walk_operators n count next_cursor cap amount fallback g
  end.
Definition select_operator (amount : u128) (g : Guest) : AccountId * u64 :=
  let count := ld64 0 KOpCount g in
  let cursor := ld64 0 KOpCursor g in
  if count =? 0 then (ZERO_ID, cursor)
  else
  let cap_bps := ld64 DEFAULT_OP_CAP_BPS KOpCap g in
  let cap := sat_mul128 (sat_add128 (get_total_pooled g) amount) cap_bps / 10000 in
  match walk_operators (Z.to_nat count) count cursor cap amount ZERO_ID g with
  | (Some r, _) => r
  | (None, fallback) =>
    if bytes_eqb fallback ZERO_ID then (ZERO_ID, cursor) else (fallback, u64_add cursor 1 mod count)
  end.
Definition peek_operator (amount : u128) (g : Guest) : AccountId := fst (select_operator amount g).
Definition pick_operator (amount : u128) (g : Guest) : Guest * AccountId :=
  let '(chosen, advance_to) := select_operator amount g in
  (if bytes_eqb chosen ZERO_ID then g else st64 KOpCursor advance_to g, chosen).

(** The mint of a deposit: [None] is the panic on an empty pool. *)
Definition deposit_mint (is_first : bool) (msg_value supply pool : u128) (g : Guest) :
    option (Guest * u128) :=
  if is_first then
    let g := set_balance DEAD_ADDRESS (u128_add (get_balance DEAD_ADDRESS g) BOOTSTRAP_BURN) g in
    let g := set_total_supply BOOTSTRAP_BURN g in
    Some (emit "mint" (DEAD_ADDRESS ++ le_bytes 16 BOOTSTRAP_BURN) g, u128_sub msg_value BOOTSTRAP_BURN)
  else if pool =? 0 then None
  else Some (g, sat_mul128 msg_value supply / pool).

Definition do_deposit (f : Frame) (g : Guest) : Guest * Reply :=
  if is_paused g then (g, ret "err:paused")
  else
  let msg_value := f_msg_value f in
  if msg_value =? 0 then (g, ret "err:zero_value")
  else
  let to_delegate := Z.min (sat_sub (f_self_balance f) MIN_FEE_RESERVE) msg_value in
  if to_delegate =? 0 then (g, ret "err:deposit_too_small_for_reserve")
  else
  let is_first := get_total_supply g =? 0 in
  if is_first && (msg_value <? MIN_FIRST_DEPOSIT) then (g, ret "err:first_deposit_too_small")
  else if ld64 0 KOpCount g =? 0 then (g, ret "err:no_operators")
  else if bytes_eqb (peek_operator to_delegate g) ZERO_ID then (g, ret "err:no_operators")
  else
  let g := sync_rewards f g in
  let supply := get_total_supply g in
  let pool := get_total_pooled g in
  match deposit_mint is_first msg_value supply pool g with
  | None => (g, Trapped)
  | Some (g, mint_amount) =>
    if (mint_amount =? 0) && negb is_first then (g, ret "err:mint_zero")
    else
    let '(g, chosen) := pick_operator to_delegate g in
    let caller := f_caller f in
    let g := set_balance caller (u128_add (get_balance caller g) mint_amount) g in
    let g := set_total_supply (u128_add (get_total_supply g) mint_amount) g in
    let g := set_total_pooled (u128_add pool msg_value) g in
    let g := set_op_stake chosen (u128_add (get_op_stake chosen g) to_delegate) g in
    let* g := queue_call STAKING_ADDRESS "delegate" (chosen ++ le_bytes 16 to_delegate) g
      else g, Trapped in
    let g := st128 KLastSeen (sat_sub (ld128 KLastSeen g) to_delegate) g in
    let g := emit "deposit" (caller ++ le_bytes 16 msg_value ++ le_bytes 16 mint_amount ++ chosen) g in
    (emit "mint" (caller ++ le_bytes 16 mint_amount) g, ret "ok")
  end.

(** The active slots [0..count] that hold an operator. *)
Definition slots (count : Z) : list Z := map Z.of_nat (seq 0 (Z.to_nat count)).
Definition active_operators (count : Z) (g : Guest) : list AccountId :=
  List.filter (fun op => negb (bytes_eqb op ZERO_ID)) (map (fun i => op_at i g) (slots count)).

Definition total_op_stake (ops : list AccountId) (g : Guest) : u128 :=
  fold_left (fun acc op => sat_add128 acc (get_op_stake op g)) ops 0.

(** The pro-rata allocation of a withdrawal over the operators. *)
Fixpoint allocate (ops : list AccountId) (owed total allocated : u128) (last_op : AccountId) (g : Guest) :
    Guest * u128 * AccountId :=
  match ops with
  | [] => (g, allocated, last_op)
  | op :: ops =>
    let stake := get_op_stake op g in
    if stake =? 0 then allocate ops owed total allocated last_op g
    else
    let share := sat_mul128 owed stake / total in
    if 0 <? share
    then allocate ops owed total (sat_add128 allocated share) op
           (set_pending_undelegate op (u128_add (get_pending_undelegate op g) share) g)
    else allocate ops owed total allocated op g
  end.

Definition do_request_withdrawal (f : Frame) (args : bytes) (g : Guest) : Guest * Reply :=
  if is_paused g then (g, ret "err:paused")
  else
  let* burn := arg_u128 args 0 else g, ret "err:invalid_args" in
  if burn =? 0 then (g, ret "err:zero_amount")
  else
  let caller := f_caller f in
  if get_balance caller g <? burn then (g, ret "err:insufficient_balance")
  else
  let supply_pre := get_total_supply g in
  let pool_pre := get_total_pooled g in
  if (supply_pre =? 0) || (pool_pre =? 0) then (g, ret "err:empty_pool")
  else if sat_mul128 burn pool_pre / supply_pre =? 0 then (g, ret "err:owed_zero")
  else
  let count := ld64 0 KOpCount g in
  let total := total_op_stake (active_operators count g) g in
  if total =? 0 then (g, ret "err:no_delegated_stake")
  else
  let g := sync_rewards f g in
  let supply := get_total_supply g in
  let pool := get_total_pooled g in
  if supply =? 0 then (g, Trapped)
  else
  let owed := sat_mul128 burn pool / supply in
  if owed =? 0 then (g, ret "err:owed_zero")
  else
  let g := set_balance caller (u128_sub (get_balance caller g) burn) g in
  let g := set_total_supply (u128_sub supply burn) g in
  let g := set_total_pooled (u128_sub pool owed) g in
  let g := st128 KPending (u128_add (ld128 KPending g) owed) g in
  let '(g, allocated, last_op) := allocate (active_operators count g) owed total 0 ZERO_ID g in
  let g := if (allocated <? owed) && negb (bytes_eqb last_op ZERO_ID)
           then set_pending_undelegate last_op
                  (u128_add (get_pending_undelegate last_op g) (u128_sub owed allocated)) g
           else g in
  let sq := ld64 0 KWqTail g in
  let now := current_epoch f in
  let g := write_wq sq caller owed now g in
  let g := st64 KWqTail (u64_add sq 1) g in
  let eligible := u64_add (u64_add now UNBONDING_EPOCHS) 1 in
  (emit "withdrawal_requested" (caller ++ le_bytes 16 burn ++ le_bytes 8 sq ++ le_bytes 8 eligible) g,
   ret "ok").

(** The cranker's loop over the operators: [None] is the panic on a full queue. *)
Fixpoint crank_loop (ops : list AccountId) (now : u64) (processed : u64) (total : u128) (g : Guest) :
    option (Guest * u64 * u128) :=
  match ops with
  | [] => Some (g, processed, total)
  | op :: ops =>
    let pending := get_pending_undelegate op g in
    if pending =? 0 then crank_loop ops now processed total g
    else
    let inflight := get_inflight op g in
    if MAX_UNDELEGATIONS_PER_OP <=? u64_add inflight 1 then crank_loop ops now processed total g
    else
    let stake := get_op_stake op g in
    let amount := Z.min pending stake in
    if amount =? 0 then crank_loop ops now processed total g
    else
    let g := set_pending_undelegate op (u128_sub pending amount) g in
    let g := set_op_stake op (u128_sub stake amount) g in
    let g := set_inflight op (u64_add inflight 1) g in
    let log_seq := ld64 0 KUnTail g in
    let g := write_un_log log_seq now amount op g in
    let g := st64 KUnTail (u64_add log_seq 1) g in
    match queue_call STAKING_ADDRESS "undelegate" (op ++ le_bytes 16 amount) g with
    | None => None
    | Some g => crank_loop ops now (u64_add processed 1) (sat_add128 total amount) g
    end
  end.

Definition do_crank_undelegations (f : Frame) (g : Guest) : Guest * Reply :=
  let g := sync_rewards f g in
  let now := current_epoch f in
  let '(g, matured) := walk_matured_log now true g in
  let* g :=
    if 0 <? matured then
      match queue_call STAKING_ADDRESS "withdraw" [] g with
      | None => None
      | Some g =>
        let g := st128 KBuffer (u128_add (ld128 KBuffer g) matured) g in
        Some (st128 KLastSeen (u128_add (ld128 KLastSeen g) matured) g)
      end
    else Some g
    else g, Trapped in
  let count := ld64 0 KOpCount g in
  match crank_loop (active_operators count g) now 0 0 g with
  | None => (g, Trapped)
  | Some (g, processed, total) =>
    (emit "crank" (le_bytes 8 processed ++ le_bytes 16 total) g, ret "ok")
  end.

Definition do_claim_withdrawal (f : Frame) (args : bytes) (g : Guest) : Guest * Reply :=
  let* sq := arg_u64 args 0 else g, ret "err:invalid_args" in
  let head := ld64 0 KWqHead g in
  if negb (sq =? head) then (g, ret "err:not_head_of_queue")
  else
  match read_wq sq g with
  | None => (g, ret "err:no_such_request")
  | Some (account, owed, requested_epoch) =>
    if current_epoch f <? u64_add (u64_add requested_epoch UNBONDING_EPOCHS) 1
    then (g, ret "err:not_yet_eligible")
    else
    let buffer := ld128 KBuffer g in
    if buffer <? owed then (g, ret "err:buffer_insufficient")
    else
    let g := sync_rewards f g in
    let* g := sdk_transfer account owed g else g, Trapped in
    let g := st128 KBuffer (u128_sub buffer owed) g in
    let g := st128 KPending (sat_sub (ld128 KPending g) owed) g in
    let g := st128 KLastSeen (sat_sub (ld128 KLastSeen g) owed) g in
    let g := clear_wq sq g in
    let g := st64 KWqHead (u64_add head 1) g in
    (emit "withdrawal_claimed" (account ++ le_bytes 16 owed ++ le_bytes 8 sq) g, ret "ok")
  end.

Definition do_recompound_rewards (f : Frame) (g : Guest) : Guest * Reply :=
  let now := current_epoch f in
  let last_recomp := ld64 0 KRecompound g in
  if negb (last_recomp =? 0) && (now <=? last_recomp) then (g, ret "err:rate_limited")
  else if ld64 0 KOpCount g =? 0 then (g, ret "err:no_operators")
  else if bytes_eqb (peek_operator 0 g) ZERO_ID then (g, ret "err:no_operators")
  else
  let g := sync_rewards f g in
  let bal := f_self_balance f in
  let available := sat_sub (sat_sub bal (ld128 KPending g)) MIN_FEE_RESERVE in
  if available <? MIN_RECOMPOUND then (g, ret "err:insufficient_to_recompound")
  else
  let '(g, chosen) := pick_operator available g in
  let g := set_op_stake chosen (u128_add (get_op_stake chosen g) available) g in
  let* g := queue_call STAKING_ADDRESS "delegate" (chosen ++ le_bytes 16 available) g else g, Trapped in
  let g := st128 KLastSeen (sat_sub bal available) g in
  let g := st64 KRecompound now g in
  (emit "recompounded" (le_bytes 16 available ++ chosen) g, ret "ok").

Definition do_poke (f : Frame) (g : Guest) : Guest * Reply := (sync_rewards f g, ret "ok").

(** ** Slashing oracle and administration *)

Definition do_report_slash (f : Frame) (args : bytes) (g : Guest) : Guest * Reply :=
  let oracle := ld32 KSlashOracle g in
  if bytes_eqb oracle ZERO_ID || negb (bytes_eqb (f_caller f) oracle) then (g, ret "err:unauthorized")
  else
  let* operator := arg_account args 0 else g, ret "err:invalid_args" in
  let* realized := arg_u128 args 32 else g, ret "err:invalid_args" in
  let prior := get_op_stake operator g in
  if prior <=? realized then (g, ret "err:not_a_loss")
  else
  let loss := u128_sub prior realized in
  let g := set_op_stake operator realized g in
  let g := set_total_pooled (sat_sub (get_total_pooled g) loss) g in
  (emit "slash_reported" (operator ++ le_bytes 16 prior ++ le_bytes 16 realized ++ le_bytes 16 loss) g,
   ret "ok").

Definition is_owner (f : Frame) (g : Guest) : bool := bytes_eqb (f_caller f) (ld32 KOwner g).
Definition owner_only (f : Frame) (g : Guest) (k : Guest * Reply) : Guest * Reply :=
  if is_owner f g then k else (g, ret "err:unauthorized").

Definition do_settle_shortfall (f : Frame) (args : bytes) (g : Guest) : Guest * Reply :=
  owner_only f g (
  let* sq := arg_u64 args 0 else g, ret "err:invalid_args" in
  let head := ld64 0 KWqHead g in
  if negb (sq =? head) then (g, ret "err:not_head_of_queue")
  else
  match read_wq sq g with
  | None => (g, ret "err:no_such_request")
  | Some (account, owed, requested_epoch) =>
    if current_epoch f <? u64_add (u64_add requested_epoch UNBONDING_EPOCHS) 1
    then (g, ret "err:not_yet_eligible")
    else
    let buffer := ld128 KBuffer g in
    let paid := Z.min buffer owed in
    let shortfall := u128_sub owed paid in
    let g := sync_rewards f g in
    let* g :=
      if 0 <? paid then
        match sdk_transfer account paid g with
        | None => None
        | Some g =>
          let g := st128 KBuffer (u128_sub buffer paid) g in
          Some (st128 KLastSeen (sat_sub (ld128 KLastSeen g) paid) g)
        end
      else Some g
      else g, Trapped in
    let g := st128 KPending (sat_sub (ld128 KPending g) owed) g in
    let g := clear_wq sq g in
    let g := st64 KWqHead (u64_add head 1) g in
    (emit "claim_shortfall" (account ++ le_bytes 8 sq ++ le_bytes 16 owed ++ le_bytes 16 paid
                             ++ le_bytes 16 shortfall) g, ret "ok")
  end).

Definition has_active_position (op : AccountId) (g : Guest) : bool :=
  (0 <? get_op_stake op g) || (0 <? get_pending_undelegate op g) || (0 <? get_inflight op g).

Definition do_set_operator (f : Frame) (args : bytes) (g : Guest) : Guest * Reply :=
  owner_only f g (
  let* i := arg_u64 args 0 else g, ret "err:invalid_args" in
  let* op := arg_account args 8 else g, ret "err:invalid_args" in
  if MAX_OPERATORS <=? i then (g, ret "err:index_out_of_range")
  else
  let existing := op_at i g in
  if negb (bytes_eqb existing ZERO_ID) && negb (bytes_eqb existing op) && has_active_position existing g
  then (g, ret "err:slot_occupant_has_position")
  else (emit "operator_set" (le_bytes 8 i ++ op) (storage_set (key (KOp i)) op g), ret "ok")).

Definition do_remove_operator (f : Frame) (args : bytes) (g : Guest) : Guest * Reply :=
  owner_only f g (
  let* i := arg_u64 args 0 else g, ret "err:invalid_args" in
  let* op := read_32 (KOp i) g else g, ret "err:slot_empty" in
  if has_active_position op g then (g, ret "err:operator_has_position")
  else (storage_set (key (KOp i)) ZERO_ID g, ret "ok")).

Definition do_admin_set_op_count (f : Frame) (args : bytes) (g : Guest) : Guest * Reply :=
  owner_only f g (
  let* n := arg_u64 args 0 else g, ret "err:invalid_args" in
  if MAX_OPERATORS <? n then (g, ret "err:exceeds_max_operators")
  else
  let current := ld64 0 KOpCount g in
  let hidden := map (fun i => n + Z.of_nat i) (seq 0 (Z.to_nat (current - n))) in
  if existsb (fun i => negb (bytes_eqb (op_at i g) ZERO_ID) && has_active_position (op_at i g) g) hidden
  then (g, ret "err:slot_in_range_has_position")
  else (st64 KOpCount n g, ret "ok")).

Definition do_set_op_cap_bps (f : Frame) (args : bytes) (g : Guest) : Guest * Reply :=
  owner_only f g (
  let* b := arg_u64 args 0 else g, ret "err:invalid_args" in
  if 10000 <? b then (g, ret "err:bps_out_of_range") else (st64 KOpCap b g, ret "ok")).
Definition do_set_protocol_fee_bps (f : Frame) (args : bytes) (g : Guest) : Guest * Reply :=
  owner_only f g (
  let* b := arg_u64 args 0 else g, ret "err:invalid_args" in
  if FEE_BPS_HARD_CAP <? b then (g, ret "err:fee_above_hard_cap") else (st64 KFeeBps b g, ret "ok")).
Definition do_set_treasury (f : Frame) (args : bytes) (g : Guest) : Guest * Reply :=
  owner_only f g (
  let* t := arg_account args 0 else g, ret "err:invalid_args" in
  (storage_set (key KTreasury) t g, ret "ok")).
Definition do_set_slash_oracle (f : Frame) (args : bytes) (g : Guest) : Guest * Reply :=
  owner_only f g (
  let* o := arg_account args 0 else g, ret "err:invalid_args" in
  (storage_set (key KSlashOracle) o g, ret "ok")).
Definition do_pause (f : Frame) (g : Guest) : Guest * Reply :=
  owner_only f g (emit "paused" [] (storage_set (key KPaused) [1] g), ret "ok").
Definition do_unpause (f : Frame) (g : Guest) : Guest * Reply :=
  owner_only f g (emit "unpaused" [] (storage_set (key KPaused) [0] g), ret "ok").

(** ** Reads *)

Definition do_exchange_rate (g : Guest) : Guest * Reply :=
  (g, Returned (le_bytes 16 (get_total_pooled g) ++ le_bytes 16 (get_total_supply g))).
Definition do_pending_undelegate_op_of (args : bytes) (g : Guest) : Guest * Reply :=
  let* op := arg_account args 0 else g, ret "err:invalid_args" in
  (g, Returned (le_bytes 16 (get_pending_undelegate op g))).
Definition do_op_stake_of (args : bytes) (g : Guest) : Guest * Reply :=
  let* op := arg_account args 0 else g, ret "err:invalid_args" in
  (g, Returned (le_bytes 16 (get_op_stake op g))).
Definition do_withdrawal_at (args : bytes) (g : Guest) : Guest * Reply :=
  let* sq := arg_u64 args 0 else g, ret "err:invalid_args" in
  match read_wq sq g with
  | Some (account, owed, epoch) => (g, Returned (account ++ le_bytes 16 owed ++ le_bytes 8 epoch))
  | None => (g, Returned [])
  end.
Definition do_pending_withdrawals_of (args : bytes) (g : Guest) : Guest * Reply :=
  let* target := arg_account args 0 else g, ret "err:invalid_args" in
  let head := ld64 0 KWqHead g in
  let tail := ld64 0 KWqTail g in
  let mine i := match read_wq (head + Z.of_nat i) g with
                | Some (account, _, _) => bytes_eqb account target
                | None => false
                end in
  (g, Returned (le_bytes 8 (Z.of_nat (length (List.filter mine (seq 0 (Z.to_nat (tail - head)))))))).

(** ** Entry point *)

Inductive Method : Type :=
| MInit | MTransfer | MTransferFrom | MApprove | MBalanceOf | MAllowance | MTotalSupply
| MName | MSymbol | MDecimals
| MDeposit | MRequestWithdrawal | MClaimWithdrawal | MCrank | MRecompound | MPoke | MReportSlash
| MSetOperator | MRemoveOperator | MSetOpCount | MSetOpCap | MSetFee | MSetTreasury | MSetSlashOracle
| MPause | MUnpause | MSettleShortfall
| MExchangeRate | MPendingUndelegate | MOpStake | MWithdrawalAt | MPendingWithdrawals
| MOwner | MTreasury | MSlashOracle | MPausedQuery.

#[export] Instance Method_eq_dec : EqDecision Method.
Proof. solve_decision. Defined.

Definition METHODS : list (string * Method) := [
  ("init", MInit); ("transfer", MTransfer); ("transfer_from", MTransferFrom); ("approve", MApprove);
  ("balance_of", MBalanceOf); ("allowance", MAllowance); ("total_supply", MTotalSupply);
  ("name", MName); ("symbol", MSymbol); ("decimals", MDecimals);
  ("deposit", MDeposit); ("request_withdrawal", MRequestWithdrawal);
  ("claim_withdrawal", MClaimWithdrawal); ("crank_undelegations", MCrank);
  ("recompound_rewards", MRecompound); ("poke", MPoke); ("report_slash", MReportSlash);
  ("set_operator", MSetOperator); ("remove_operator", MRemoveOperator); ("set_op_count", MSetOpCount);
  ("set_op_cap_bps", MSetOpCap); ("set_protocol_fee_bps", MSetFee); ("set_treasury", MSetTreasury);
  ("set_slash_oracle", MSetSlashOracle); ("pause", MPause); ("unpause", MUnpause);
  ("settle_shortfall", MSettleShortfall);
  ("exchange_rate", MExchangeRate); ("pending_undelegate_op_of", MPendingUndelegate);
  ("op_stake_of", MOpStake); ("withdrawal_at", MWithdrawalAt);
  ("pending_withdrawals_of", MPendingWithdrawals);
  ("owner", MOwner); ("treasury", MTreasury); ("slash_oracle", MSlashOracle); ("paused", MPausedQuery)
]%string.

Definition method_of (name : bytes) : option Method :=
  snd <$> find (fun e => bytes_eqb (bytes_of_string (fst e)) name) METHODS.

Definition dispatch (m : Method) (f : Frame) (args : bytes) (g : Guest) : Guest * Reply :=
  match m with
  | MInit => do_init f args g
  | MTransfer => do_transfer f args g
  | MTransferFrom => do_transfer_from f args g
  | MApprove => do_approve f args g
  | MBalanceOf => do_balance_of args g
  | MAllowance => do_allowance args g
  | MTotalSupply => do_total_supply g
  | MName => (g, ret "Staked SOLEN")
  | MSymbol => (g, ret "stSOLEN")
  | MDecimals => (g, Returned [8])
  | MDeposit => do_deposit f g
  | MRequestWithdrawal => do_request_withdrawal f args g
  | MClaimWithdrawal => do_claim_withdrawal f args g
  | MCrank => do_crank_undelegations f g
  | MRecompound => do_recompound_rewards f g
  | MPoke => do_poke f g
  | MReportSlash => do_report_slash f args g
  | MSetOperator => do_set_operator f args g
  | MRemoveOperator => do_remove_operator f args g
  | MSetOpCount => do_admin_set_op_count f args g
  | MSetOpCap => do_set_op_cap_bps f args g
  | MSetFee => do_set_protocol_fee_bps f args g
  | MSetTreasury => do_set_treasury f args g
  | MSetSlashOracle => do_set_slash_oracle f args g
  | MPause => do_pause f g
  | MUnpause => do_unpause f g
  | MSettleShortfall => do_settle_shortfall f args g
  | MExchangeRate => do_exchange_rate g
  | MPendingUndelegate => do_pending_undelegate_op_of args g
  | MOpStake => do_op_stake_of args g
  | MWithdrawalAt => do_withdrawal_at args g
  | MPendingWithdrawals => do_pending_withdrawals_of args g
  | MOwner => (g, Returned (ld32 KOwner g))
  | MTreasury => (g, Returned (ld32 KTreasury g))
  | MSlashOracle => (g, Returned (ld32 KSlashOracle g))
  | MPausedQuery => (g, Returned [if is_paused g then 1 else 0])
  end.

(** The method name ends at the first zero byte. *)
Fixpoint split_zero (b : bytes) : bytes * bytes :=
  match b with
  | [] => ([], [])
  | x :: b => if x =? 0 then ([], b) else let '(m, args) := split_zero b in (x :: m, args)
  end.

Definition call (f : Frame) (input : bytes) (g : Guest) : Guest * Reply :=
  let '(name, args) := split_zero input in
  match method_of name with
  | Some m => dispatch m f args g
  | None => (g, ret "err:unknown_method")
  end.
