(* ===== verification/StSolenLedger.v ===== *)
(** The ledger of the liquid staking contract: balances, supply and pool. The
    documented invariants of [examples/contracts/stsolen/AUDIT.md] on supply
    conservation and the exchange rate, by refinement of the contract to an
    abstract ledger. *)

From S2P Require Import Prelude Types SysCommon Executor Vm StSolen.
Open Scope Z_scope.

(** ** Keys are separate *)

(** Two keys that name different cells: another family, or another account or
    sequence number of the same family. *)
Definition separate (k k' : SKey) : Prop :=
  match k, k' with
  | KBal a, KBal b | KOpStake a, KOpStake b | KPue a, KPue b | KIfu a, KIfu b => a <> b
  | KOp i, KOp j | KWq i, KWq j | KUn i, KUn j => in_u64 i /\ in_u64 j /\ i <> j
  | KAllow _ _, KAllow _ _ => False
  | _, _ => k <> k'
  end.

Lemma le_bytes_8_inj i j : in_u64 i -> in_u64 j -> le_bytes 8 i = le_bytes 8 j -> i = j.
Proof. intros Hi Hj H. rewrite <- (from_le_u64 i Hi), <- (from_le_u64 j Hj). by rewrite H. Qed.

Lemma key_separate k k' : separate k k' -> key k <> key k'.
Proof.
  intros Hs H. unfold key in H.
  destruct k, k'; simpl in Hs;
    try (destruct Hs; fail); try (by apply Hs); try discriminate H;
    (try (apply app_inv_head in H; simpl in H; by apply Hs));
    apply app_inv_head in H; destruct Hs as (? & ? & Hn); apply Hn; by apply le_bytes_8_inj.
Qed.

(** ** Cells *)

Definition val128 (b : bytes) : Z := if (length b <? 16)%nat then 0 else from_le (take 16 b).

Lemma from_le_mod n z : from_le (le_bytes n z) = z mod 256 ^ Z.of_nat n.
Proof.
  revert z. induction n as [|n IH]; intros z; [by rewrite Z.mod_1_r|].
  cbn [le_bytes from_le]. rewrite IH, Nat2Z.inj_succ, Z.pow_succ_r by lia.
  rewrite Z.rem_mul_r by (try apply Z.pow_pos_nonneg; lia). lia.
Qed.

Lemma val128_le v : val128 (le_bytes 16 v) = v mod 2 ^ 128.
Proof.
  unfold val128. rewrite length_le_bytes. simpl Nat.ltb. cbn iota.
  rewrite firstn_all2 by (rewrite length_le_bytes; lia). by rewrite from_le_mod.
Qed.

Lemma ld128_val k g : ld128 k g = default 0 (val128 <$> g_storage g !! key k).
Proof.
  unfold ld128, get_u128, storage_get, val128. destruct (g_storage g !! key k) as [b|]; [|done]. simpl.
  by destruct (_ <? _)%nat.
Qed.

Lemma ld128_other k k' b g : separate k k' -> ld128 k' (storage_set (key k) b g) = ld128 k' g.
Proof.
  intros Hs. rewrite !ld128_val. simpl. by rewrite lookup_insert_ne by by apply key_separate.
Qed.

Lemma ld128_same k v g : ld128 k (st128 k v g) = v mod 2 ^ 128.
Proof.
  rewrite ld128_val. unfold st128, set_u128, storage_set. cbn [g_storage]. rewrite lookup_insert_eq.
  apply val128_le.
Qed.

Lemma ld64_other d k k' b g : separate k k' -> ld64 d k' (storage_set (key k) b g) = ld64 d k' g.
Proof.
  intros Hs. unfold ld64, get_u64, storage_get. simpl. by rewrite lookup_insert_ne by by apply key_separate.
Qed.

Lemma ld64_same d k v g : ld64 d k (st64 k v g) = v mod 2 ^ 64.
Proof.
  unfold ld64, get_u64, storage_get, st64, set_u64, storage_set. cbn [g_storage]. rewrite lookup_insert_eq.
  unfold mbind, option_bind. rewrite length_le_bytes. simpl Nat.ltb. cbn iota.
  rewrite firstn_all2 by (rewrite length_le_bytes; lia). unfold default, from_option, id. by rewrite from_le_mod.
Qed.

(** ** The money of the contract *)

Definition BAL : bytes := Eval vm_compute in bytes_of_string "bal/".
Definition is_bal (kv : bytes * bytes) : Prop := starts_with BAL (fst kv) = true.
#[export] Instance is_bal_dec kv : Decision (is_bal kv).
Proof. unfold is_bal. apply _. Defined.

Record Money : Type := mkMoney {
  m_bals : gmap bytes bytes;
  m_supply : u128;
  m_pool : u128;
  m_last : u128;
  m_fee : u64;
}.
Definition money (g : Guest) : Money :=
  mkMoney (filter is_bal (g_storage g)) (get_total_supply g) (get_total_pooled g) (ld128 KLastSeen g)
          (ld64 DEFAULT_FEE_BPS KFeeBps g).

Definition m_balance (a : AccountId) (m : Money) : Z := default 0 (val128 <$> m_bals m !! key (KBal a)).
Definition m_set_balance (a : AccountId) (v : Z) (m : Money) : Money :=
  mkMoney (<[key (KBal a) := le_bytes 16 v]> (m_bals m)) (m_supply m) (m_pool m) (m_last m) (m_fee m).
Definition m_set_supply (v : Z) (m : Money) : Money :=
  mkMoney (m_bals m) (v mod 2 ^ 128) (m_pool m) (m_last m) (m_fee m).
Definition m_set_pool (v : Z) (m : Money) : Money :=
  mkMoney (m_bals m) (m_supply m) (v mod 2 ^ 128) (m_last m) (m_fee m).
Definition m_set_last (v : Z) (m : Money) : Money :=
  mkMoney (m_bals m) (m_supply m) (m_pool m) (v mod 2 ^ 128) (m_fee m).
Definition m_set_fee (v : Z) (m : Money) : Money :=
  mkMoney (m_bals m) (m_supply m) (m_pool m) (m_last m) (v mod 2 ^ 64).

(** Cells that are not money. *)
Definition plain (k : SKey) : bool :=
  match k with
  | KBal _ | KSupply | KPooled | KLastSeen | KFeeBps => false
  | _ => true
  end.

Lemma starts_bal k : starts_with BAL (key k) = match k with KBal _ => true | _ => false end.
Proof. destruct k; reflexivity. Qed.

Lemma filter_bal_other (k : SKey) (b : bytes) (m : gmap bytes bytes) :
  match k with KBal _ => False | _ => True end ->
  filter is_bal (<[key k := b]> m) = filter is_bal m.
Proof.
  intros Hk. apply map_filter_insert_not. intros y. unfold is_bal. cbn [fst]. rewrite starts_bal.
  by destruct k.
Qed.

Lemma money_plain k b g : plain k = true -> money (storage_set (key k) b g) = money g.
Proof.
  intros Hk. unfold money, get_total_supply, get_total_pooled. simpl.
  rewrite filter_bal_other, !ld128_other, ld64_other by (by destruct k). done.
Qed.

Lemma money_st128 k v g : plain k = true -> money (st128 k v g) = money g.
Proof. apply money_plain. Qed.
Lemma money_st64 k v g : plain k = true -> money (st64 k v g) = money g.
Proof. apply money_plain. Qed.
Lemma money_emit t d g : money (emit t d g) = money g.
Proof. reflexivity. Qed.
Lemma money_queue t m a g g' : queue_call t m a g = Some g' -> money g' = money g.
Proof. unfold queue_call. destruct (_ || _); [done|]. by intros [= <-]. Qed.
Lemma money_transfer t a g g' : sdk_transfer t a g = Some g' -> money g' = money g.
Proof. unfold sdk_transfer. destruct (_ || _); [done|]. by intros [= <-]. Qed.

Lemma money_set_balance a v g : money (set_balance a v g) = m_set_balance a v (money g).
Proof.
  unfold money, m_set_balance, get_total_supply, get_total_pooled, set_balance, st128, set_u128. simpl.
  rewrite !ld128_other, ld64_other by done. f_equal.
  apply map_filter_insert_True. unfold is_bal. cbn [fst]. by rewrite starts_bal.
Qed.
Lemma money_set_supply v g : money (set_total_supply v g) = m_set_supply v (money g).
Proof.
  unfold money, m_set_supply, set_total_supply, get_total_supply, get_total_pooled. simpl.
  rewrite ld128_same. unfold st128, set_u128. simpl.
  rewrite filter_bal_other, !ld128_other, ld64_other by done. done.
Qed.
Lemma money_set_pool v g : money (set_total_pooled v g) = m_set_pool v (money g).
Proof.
  unfold money, m_set_pool, set_total_pooled, get_total_supply, get_total_pooled. simpl.
  rewrite ld128_same. unfold st128, set_u128. simpl.
  rewrite filter_bal_other, !ld128_other, ld64_other by done. done.
Qed.
Lemma money_set_last v g : money (st128 KLastSeen v g) = m_set_last v (money g).
Proof.
  unfold money, m_set_last, get_total_supply, get_total_pooled. simpl.
  rewrite ld128_same. unfold st128, set_u128. simpl.
  rewrite filter_bal_other, !ld128_other, ld64_other by done. done.
Qed.
Lemma money_set_fee v g : money (st64 KFeeBps v g) = m_set_fee v (money g).
Proof.
  unfold money, m_set_fee, get_total_supply, get_total_pooled. simpl.
  rewrite ld64_same. unfold st64, set_u64. simpl.
  rewrite filter_bal_other, !ld128_other by done. done.
Qed.

Lemma get_balance_money a g : get_balance a g = m_balance a (money g).
Proof.
  unfold get_balance, m_balance. rewrite ld128_val. simpl. rewrite map_lookup_filter.
  by destruct (g_storage g !! key (KBal a)).
Qed.
Lemma get_supply_money g : get_total_supply g = m_supply (money g).
Proof. reflexivity. Qed.
Lemma get_pool_money g : get_total_pooled g = m_pool (money g).
Proof. reflexivity. Qed.

(** ** The sum of the balances *)

Definition map_sum (f : bytes -> Z) (m : gmap bytes bytes) : Z :=
  sumZ (map (fun kv => f (snd kv)) (map_to_list m)).

Lemma map_sum_insert_new f m k v : m !! k = None -> map_sum f (<[k := v]> m) = f v + map_sum f m.
Proof.
  intros Hk. unfold map_sum. rewrite (Permutation_map _ (map_to_list_insert m k v Hk)). done.
Qed.

Lemma map_sum_delete f m k v : m !! k = Some v -> map_sum f m = f v + map_sum f (delete k m).
Proof.
  intros Hk. rewrite <- (insert_delete_id m k v Hk) at 1. apply map_sum_insert_new, lookup_delete_eq.
Qed.

Lemma map_sum_insert f m k v :
  map_sum f (<[k := v]> m) = map_sum f m - default 0 (f <$> m !! k) + f v.
Proof.
  destruct (m !! k) as [v0|] eqn:E; simpl.
  - rewrite (map_sum_delete f (<[k := v]> m) k v), (map_sum_delete f m k v0 E) by apply lookup_insert_eq.
    rewrite delete_insert_eq. lia.
  - rewrite map_sum_insert_new by done. lia.
Qed.

(** [sum(bal/{addr})]. *)
Definition bal_sum (m : Money) : Z := map_sum val128 (m_bals m).

Lemma bal_sum_set a v m :
  bal_sum (m_set_balance a v m) = bal_sum m - m_balance a m + v mod 2 ^ 128.
Proof. unfold bal_sum, m_balance, m_set_balance. cbn [m_bals]. by rewrite map_sum_insert, val128_le. Qed.

Definition bals_ok (m : Money) : Prop := map_Forall (fun _ b => in_u128 (val128 b)) (m_bals m).

Lemma bals_ok_set a v m : bals_ok m -> bals_ok (m_set_balance a v m).
Proof.
  intros H. apply map_Forall_insert_2; [|done]. rewrite val128_le. unfold in_u128, u128_max.
  pose proof (Z.mod_pos_bound v (2 ^ 128)). lia.
Qed.

Lemma m_balance_range a m : bals_ok m -> in_u128 (m_balance a m).
Proof.
  intros H. unfold m_balance. destruct (m_bals m !! key (KBal a)) as [b|] eqn:E; simpl.
  - apply (H _ _ E).
  - unfold in_u128, u128_max. lia.
Qed.

Lemma bal_sum_nonneg m : bals_ok m -> 0 <= bal_sum m.
Proof.
  intros H. apply sumZ_map_nonneg. intros [k b] Hin%elem_of_map_to_list. apply (H _ _ Hin).
Qed.

Lemma m_balance_le a m : bals_ok m -> m_balance a m <= bal_sum m.
Proof.
  intros H. unfold m_balance, bal_sum. destruct (m_bals m !! key (KBal a)) as [b|] eqn:E; simpl.
  - rewrite (map_sum_delete _ _ _ _ E).
    assert (0 <= map_sum val128 (delete (key (KBal a)) (m_bals m))); [|lia].
    apply sumZ_map_nonneg. intros [k c] Hin%elem_of_map_to_list.
    apply lookup_delete_Some in Hin as [_ Hin]. apply (H _ _ Hin).
  - by apply bal_sum_nonneg.
Qed.

(** ** Congruence modulo the width of the integers *)

Definition cong (a b : Z) : Prop := exists q, a = b + q * 2 ^ 128.

#[export] Instance cong_equiv : Equivalence cong.
Proof.
  split.
  - intros a. exists 0. lia.
  - intros a b [q ->]. exists (- q). lia.
  - intros a b c [q ->] [r ->]. exists (q + r). lia.
Qed.
#[export] Instance cong_add : Proper (cong ==> cong ==> cong) Z.add.
Proof. intros a b [q ->] c d [r ->]. exists (q + r). lia. Qed.
#[export] Instance cong_sub : Proper (cong ==> cong ==> cong) Z.sub.
Proof. intros a b [q ->] c d [r ->]. exists (q - r). lia. Qed.

Lemma cong_mod a : cong (a mod 2 ^ 128) a.
Proof. exists (- (a / 2 ^ 128)). pose proof (Z.div_mod a (2 ^ 128)). lia. Qed.
Lemma cong_u128_add a b : cong (u128_add a b) (a + b).
Proof. apply cong_mod. Qed.
Lemma cong_u128_sub a b : cong (u128_sub a b) (a - b).
Proof. apply cong_mod. Qed.
Lemma mod_u128_add a b : u128_add a b mod 2 ^ 128 = u128_add a b.
Proof. apply Z.mod_mod. lia. Qed.
Lemma mod_u128_sub a b : u128_sub a b mod 2 ^ 128 = u128_sub a b.
Proof. apply Z.mod_mod. lia. Qed.

Lemma cong_exact a b : cong a b -> 0 <= a <= u128_max -> 0 <= b <= u128_max -> a = b.
Proof. intros [q ->]. unfold u128_max. nia. Qed.

(** ** The abstract ledger *)

Definition inflow (f : Frame) (m : Money) : Z := sat_sub (sat_sub (f_self_balance f) (m_last m)) (f_msg_value f).
Definition sync_fee (f : Frame) (m : Money) : Z := sat_mul128 (inflow f m) (m_fee m) / 10000.
Definition sync_pool (f : Frame) (m : Money) : Z :=
  if 0 <? inflow f m then u128_add (m_pool m) (u128_sub (inflow f m) (sync_fee f m)) else m_pool m.
Definition sync_mint (f : Frame) (m : Money) : Z :=
  if (0 <? inflow f m) && (0 <? sync_fee f m) && (0 <? sync_pool f m) && (0 <? m_supply m)
  then sat_mul128 (sync_fee f m) (m_supply m) / sync_pool f m else 0.

(** Cells within their widths, and the fee within its cap. *)
Record money_ok (m : Money) : Prop := {
  ok_bals : bals_ok m;
  ok_supply : in_u128 (m_supply m);
  ok_pool : in_u128 (m_pool m);
  ok_last : in_u128 (m_last m);
  ok_fee : 0 <= m_fee m <= FEE_BPS_HARD_CAP;
}.

(** Rewards: the pool grows by the inflow less the fee, the treasury is minted
    receipts for the fee. *)
Record synced (f : Frame) (m m1 : Money) : Prop := {
  sy_supply : m_supply m1 = u128_add (m_supply m) (sync_mint f m);
  sy_pool : m_pool m1 = sync_pool f m;
  sy_gap : cong (bal_sum m1 - m_supply m1) (bal_sum m - m_supply m);
  sy_sum : bal_sum m1 <= bal_sum m + sync_mint f m;
  sy_balance : forall a, m_balance a m1 = m_balance a m
                 \/ m_balance a m1 = u128_add (m_balance a m) (sync_mint f m);
  sy_ok : money_ok m1;
}.

(** ** Each handler is a step of the ledger *)

Create HintDb money.
Create Rewrite HintDb money.
#[local] Hint Rewrite money_emit money_set_balance money_set_supply money_set_pool money_set_last money_set_fee
  get_balance_money get_supply_money get_pool_money : money.
(** Writes to cells that are not money. *)
Ltac plain_writes := repeat first
  [ rewrite money_emit
  | rewrite money_st128 by reflexivity | rewrite money_st64 by reflexivity
  | rewrite money_plain by reflexivity ].

Lemma m_set_ok_balance a v m : money_ok m -> money_ok (m_set_balance a v m).
Proof. intros []. split; try done. by apply bals_ok_set. Qed.
Lemma mod_u128 v : in_u128 (v mod 2 ^ 128).
Proof. unfold in_u128, u128_max. pose proof (Z.mod_pos_bound v (2 ^ 128)). lia. Qed.
Lemma m_set_ok_supply v m : money_ok m -> money_ok (m_set_supply v m).
Proof. intros []. split; try done. apply mod_u128. Qed.
Lemma m_set_ok_pool v m : money_ok m -> money_ok (m_set_pool v m).
Proof. intros []. split; try done. apply mod_u128. Qed.
Lemma m_set_ok_last v m : money_ok m -> money_ok (m_set_last v m).
Proof. intros []. split; try done. apply mod_u128. Qed.
#[local] Hint Resolve m_set_ok_balance m_set_ok_supply m_set_ok_pool m_set_ok_last : money.

(** Minting to an account: the supply and the sum move together. *)
Lemma mint_gap a v m :
  cong (bal_sum (m_set_balance a (u128_add (m_balance a m) v) m) - u128_add (m_supply m) v)
       (bal_sum m - m_supply m).
Proof.
  rewrite bal_sum_set, mod_u128_add, !cong_u128_add. exists 0. lia.
Qed.
Lemma u128_add_le a b : 0 <= a + b -> u128_add a b <= a + b.
Proof. intros H. unfold u128_add. apply Z.mod_le; lia. Qed.
Lemma mint_sum a v m : bals_ok m -> 0 <= v ->
  bal_sum (m_set_balance a (u128_add (m_balance a m) v) m) <= bal_sum m + v.
Proof.
  intros Hm Hv. rewrite bal_sum_set, mod_u128_add. pose proof (m_balance_range a m Hm) as [? _].
  pose proof (u128_add_le (m_balance a m) v ltac:(lia)). lia.
Qed.
Lemma m_balance_set a b v m :
  m_balance b (m_set_balance a v m) = if decide (a = b) then v mod 2 ^ 128 else m_balance b m.
Proof.
  unfold m_balance, m_set_balance. cbn [m_bals]. case_decide as Hd.
  - subst. rewrite lookup_insert_eq. apply val128_le.
  - rewrite lookup_insert_ne; [done|]. by apply (key_separate (KBal a) (KBal b)).
Qed.

Lemma u128_add_0 a : in_u128 a -> u128_add a 0 = a.
Proof. intros H. rewrite u128_add_exact; unfold in_u128 in *; lia. Qed.
Lemma u128_range_add a b : in_u128 (u128_add a b).
Proof. apply mod_u128. Qed.

(** [sync_rewards] on the money alone, the treasury given. *)
Definition money_sync (f : Frame) (t : AccountId) (m : Money) : Money :=
  let m1 := m_set_pool (sync_pool f m) m in
  m_set_last (f_self_balance f)
    (if 0 <? sync_mint f m
     then m_set_supply (u128_add (m_supply m) (sync_mint f m))
            (m_set_balance t (u128_add (m_balance t m) (sync_mint f m)) m1)
     else m1).

Lemma m_set_pool_id m : money_ok m -> m_set_pool (m_pool m) m = m.
Proof.
  intros [_ _ Hp _ _]. unfold m_set_pool. rewrite Z.mod_small; [by destruct m|].
  unfold in_u128, u128_max in Hp. lia.
Qed.
Lemma treasury_pool v g : ld32 KTreasury (set_total_pooled v g) = ld32 KTreasury g.
Proof.
  unfold ld32, read_32, storage_get, set_total_pooled, st128, set_u128, storage_set. cbn [g_storage].
  by rewrite lookup_insert_ne.
Qed.

Lemma sync_rewards_money f g :
  money_ok (money g) -> money (sync_rewards f g) = money_sync f (ld32 KTreasury g) (money g).
Proof.
  intros Hok. unfold sync_rewards, mint_fee, money_sync. autorewrite with money.
  change (ld128 KLastSeen g) with (m_last (money g)).
  change (ld64 DEFAULT_FEE_BPS KFeeBps g) with (m_fee (money g)). rewrite treasury_pool.
  unfold sync_mint, sync_pool. fold (inflow f (money g)) (sync_fee f (money g)).
  destruct (0 <? inflow f (money g)); simpl (_ && _); cbv iota; [|by rewrite m_set_pool_id].
  cbn [m_supply m_set_pool]. destruct (_ && _ && _); [|by autorewrite with money].
  destruct (0 <? _); by autorewrite with money.
Qed.

Lemma sync_pool_mod f m : money_ok m -> sync_pool f m mod 2 ^ 128 = sync_pool f m.
Proof.
  intros [_ _ Hp _ _]. unfold sync_pool. destruct (0 <? _); [apply mod_u128_add|].
  apply Z.mod_small. unfold in_u128, u128_max in Hp. lia.
Qed.
Lemma sync_mint_nonneg f m : money_ok m -> in_u128 (f_self_balance f) -> 0 <= sync_mint f m.
Proof.
  intros Hok Hf. unfold sync_mint. destruct (_ && _) eqn:E; [|done]. rewrite !andb_true_iff, !Z.ltb_lt in E.
  apply Z.div_pos; [|lia]. unfold sat_mul128, u128_max. lia.
Qed.

Lemma money_sync_synced f t m :
  money_ok m -> in_u128 (f_self_balance f) -> synced f m (money_sync f t m).
Proof.
  intros Hok Hf. pose proof (sync_mint_nonneg f m Hok Hf). unfold money_sync.
  destruct (Z.ltb_spec 0 (sync_mint f m)).
  - split; simpl; rewrite ?mod_u128_add, ?sync_pool_mod by done; auto with money.
    + apply (mint_gap t (sync_mint f m) m).
    + apply (mint_sum t _ m); [apply Hok|lia].
    + intros a. pose proof (m_balance_set t a (u128_add (m_balance t m) (sync_mint f m)) m) as Hb.
      unfold m_balance at 1 in Hb. unfold m_balance at 1 4. simpl in *. rewrite Hb, mod_u128_add.
      case_decide; subst; auto.
  - assert (Hz : sync_mint f m = 0) by lia.
    split; rewrite ?Hz; simpl; rewrite ?sync_pool_mod by done; auto with money.
    + by rewrite u128_add_0 by apply Hok.
    + reflexivity.
    + unfold bal_sum. simpl. lia.
Qed.

Lemma sync_rewards_synced f g :
  money_ok (money g) -> in_u128 (f_self_balance f) -> synced f (money g) (money (sync_rewards f g)).
Proof. intros Hok Hf. rewrite sync_rewards_money by done. by apply money_sync_synced. Qed.

(** Writes, queued calls and loops that leave the money alone. *)
Lemma walk_log_money fuel cm now sq mt hd g : money (fst (fst (walk_log fuel cm now sq mt hd g))) = money g.
Proof.
  revert sq mt hd g. induction fuel as [|fuel IH]; intros sq mt hd g; [done|]. cbn [walk_log].
  destruct (read_un_log sq g) as [[[e a] o]|]; [|apply IH]. destruct (_ <? _); [done|].
  rewrite IH. destruct cm; [|done]. unfold set_inflight, clear_un_log. by plain_writes.
Qed.
Lemma allocate_money ops owed total al l g : money (fst (fst (allocate ops owed total al l g))) = money g.
Proof.
  revert al l g. induction ops as [|op ops IH]; intros al l g; [done|]. cbn [allocate].
  destruct (_ =? _); [apply IH|]. destruct (_ <? _); [|apply IH].
  rewrite IH. unfold set_pending_undelegate. by plain_writes.
Qed.
Lemma crank_loop_money ops now p t g r : crank_loop ops now p t g = Some r -> money (fst (fst r)) = money g.
Proof.
  revert p t g. induction ops as [|op ops IH]; intros p t g; cbn [crank_loop]; [by intros [= <-]|].
  destruct (_ =? _); [apply IH|]. destruct (_ <=? _); [apply IH|]. destruct (_ =? _); [apply IH|].
  destruct (queue_call _ _ _ _) as [g1|] eqn:Eq; [|done]. intros H%IH. rewrite H.
  rewrite (money_queue _ _ _ _ _ Eq). unfold write_un_log, set_inflight, set_op_stake, set_pending_undelegate.
  by plain_writes.
Qed.
Lemma pick_operator_money a g : money (fst (pick_operator a g)) = money g.
Proof. unfold pick_operator. destruct (select_operator a g). destruct (bytes_eqb _ _); [done|]. apply money_st64; done. Qed.

Definition plain_method (m : Method) : bool :=
  match m with
  | MInit | MTransfer | MTransferFrom | MDeposit | MRequestWithdrawal | MClaimWithdrawal | MCrank
  | MRecompound | MPoke | MReportSlash | MSetFee | MSettleShortfall => false
  | _ => true
  end.

Lemma plain_method_money m f args g g' r :
  plain_method m = true -> dispatch m f args g = (g', r) -> money g' = money g.
Proof.
  intros Hm H. destruct m; try discriminate Hm; cbn [dispatch] in H;
    (try by injection H as <- <-);
    revert H;
    unfold do_approve, do_balance_of, do_allowance, do_total_supply, do_set_operator, do_remove_operator,
      do_admin_set_op_count, do_set_op_cap_bps, do_set_treasury, do_set_slash_oracle, do_pause, do_unpause,
      do_exchange_rate, do_pending_undelegate_op_of, do_op_stake_of, do_withdrawal_at,
      do_pending_withdrawals_of, owner_only;
    intros H; repeat case_match; simplify_eq; by plain_writes.
Qed.

(** Two states that differ at most in the balance snapshot. *)
Record only_last (m m' : Money) : Prop := {
  ol_bals : m_bals m' = m_bals m;
  ol_supply : m_supply m' = m_supply m;
  ol_pool : m_pool m' = m_pool m;
  ol_fee : m_fee m' = m_fee m;
  ol_last : in_u128 (m_last m) -> in_u128 (m_last m');
}.
#[export] Instance only_last_pre : PreOrder only_last.
Proof.
  split; [by split|]. intros m1 m2 m3 [] []. split; try congruence. auto.
Qed.
Lemma only_last_set v m m' : only_last m m' -> only_last m (m_set_last v m').
Proof. intros []. split; simpl; try done. intros _. apply mod_u128. Qed.
Lemma only_last_ok m m' : only_last m m' -> money_ok m -> money_ok m'.
Proof.
  intros [Hb Hs Hp Hf Hl] []. split; rewrite ?Hs, ?Hp, ?Hf; try done; [|by apply Hl].
  unfold bals_ok. by rewrite Hb.
Qed.
Lemma only_last_sum m m' : only_last m m' -> bal_sum m' = bal_sum m.
Proof. intros [Hb _ _ _ _]. unfold bal_sum. by rewrite Hb. Qed.

Lemma money_op_stake a v g : money (set_op_stake a v g) = money g.
Proof. by apply money_st128. Qed.
Lemma money_pending a v g : money (set_pending_undelegate a v g) = money g.
Proof. by apply money_st128. Qed.

(** Reads the money of a state that was reached by writes and queued calls. *)
Ltac money_of := repeat first
  [ rewrite money_emit | rewrite money_set_last | rewrite money_op_stake | rewrite money_pending
  | rewrite money_set_balance | rewrite money_set_supply | rewrite money_set_pool
  | rewrite money_st128 by reflexivity | rewrite money_st64 by reflexivity
  | rewrite money_plain by reflexivity
  | match goal with
    | H : queue_call _ _ _ _ = Some ?g |- context [money ?g] => rewrite (money_queue _ _ _ _ _ H)
    | H : sdk_transfer _ _ _ = Some ?g |- context [money ?g] => rewrite (money_transfer _ _ _ _ H)
    end ].
Ltac only_last := money_of; repeat apply only_last_set; reflexivity.

Definition resting (f : Frame) (g g' : Guest) : Prop :=
  money g' = money g \/ only_last (money (sync_rewards f g)) (money g').

Lemma poke_money f g g' r : do_poke f g = (g', r) -> resting f g g'.
Proof. intros [= <- <-]. by right. Qed.

Lemma claim_money f args g g' d : do_claim_withdrawal f args g = (g', Returned d) -> resting f g g'.
Proof.
  unfold do_claim_withdrawal. intros H. repeat case_match; simplify_eq; (try by left); right.
  unfold clear_wq. only_last.
Qed.

Lemma settle_money f args g g' d : do_settle_shortfall f args g = (g', Returned d) -> resting f g g'.
Proof.
  unfold do_settle_shortfall, owner_only. intros H. repeat case_match; simplify_eq; (try by left); right;
    unfold clear_wq; only_last.
Qed.

Lemma recompound_money f g g' d : do_recompound_rewards f g = (g', Returned d) -> resting f g g'.
Proof.
  unfold do_recompound_rewards. intros H. repeat case_match; simplify_eq; (try by left); right; [done|].
  money_of. unfold set_op_stake. apply only_last_set. money_of.
  match goal with E : pick_operator _ _ = _ |- _ => apply (f_equal fst) in E; simpl in E; rewrite <- E end.
  by rewrite pick_operator_money.
Qed.

Lemma crank_money f g g' d : do_crank_undelegations f g = (g', Returned d) -> resting f g g'.
Proof.
  unfold do_crank_undelegations, walk_matured_log. intros H. right.
  pose proof (walk_log_money (Z.to_nat (ld64 0 KUnTail (sync_rewards f g) - ld64 0 KUnHead (sync_rewards f g)))
    true (current_epoch f) (ld64 0 KUnHead (sync_rewards f g)) 0 (ld64 0 KUnHead (sync_rewards f g)) (sync_rewards f g))
    as Hw.
  destruct (walk_log _ _ _ _ _ _ _) as [[g1 matured] hd]. simpl in Hw. rewrite <- Hw. clear Hw.
  repeat case_match; simplify_eq;
    match goal with E : crank_loop _ _ _ _ _ = Some _ |- _ => apply crank_loop_money in E; simpl in E end;
    money_of; match goal with E : money _ = _ |- _ => rewrite E end; only_last.
Qed.

(** ** The abstract ledger's moves *)

Definition m_mint (a : AccountId) (v : Z) (m : Money) : Money :=
  m_set_supply (u128_add (m_supply m) v) (m_set_balance a (u128_add (m_balance a m) v) m).
Definition m_burn (a : AccountId) (v : Z) (m : Money) : Money :=
  m_set_supply (u128_sub (m_supply m) v) (m_set_balance a (u128_sub (m_balance a m) v) m).
Definition m_move (from to : AccountId) (v : Z) (m : Money) : Money :=
  let m := m_set_balance from (u128_sub (m_balance from m) v) m in
  m_set_balance to (u128_add (m_balance to m) v) m.
Definition m_grow (v : Z) (m : Money) : Money := m_set_pool (u128_add (m_pool m) v) m.
Definition m_shrink (v : Z) (m : Money) : Money := m_set_pool (u128_sub (m_pool m) v) m.
Definition m_first (caller : AccountId) (v : Z) (m : Money) : Money :=
  m_grow v (m_mint caller (v - BOOTSTRAP_BURN) (m_mint DEAD_ADDRESS BOOTSTRAP_BURN m)).
Definition m_deposit (caller : AccountId) (v : Z) (m : Money) : Money :=
  m_grow v (m_mint caller (sat_mul128 v (m_supply m) / m_pool m) m).
Definition m_owed (burn : Z) (m : Money) : Z := sat_mul128 burn (m_pool m) / m_supply m.
Definition m_withdraw (caller : AccountId) (burn : Z) (m : Money) : Money :=
  m_shrink (m_owed burn m) (m_burn caller burn m).

Inductive ledger_step (f : Frame) (m m' : Money) : Prop :=
| LStay : m' = m -> ledger_step f m m'
| LFee v : 0 <= v <= FEE_BPS_HARD_CAP -> m' = m_set_fee v m -> ledger_step f m m'
| LTransfer from to v : 0 <= v <= m_balance from m -> m' = m_move from to v m -> ledger_step f m m'
| LSync t : only_last (money_sync f t m) m' -> ledger_step f m m'
| LFirst t : m_supply m = 0 -> MIN_FIRST_DEPOSIT <= f_msg_value f ->
    only_last (m_first (f_caller f) (f_msg_value f) (money_sync f t m)) m' -> ledger_step f m m'
| LDeposit t : m_supply m <> 0 -> m_pool (money_sync f t m) <> 0 ->
    only_last (m_deposit (f_caller f) (f_msg_value f) (money_sync f t m)) m' -> ledger_step f m m'
| LWithdraw t burn : 0 < burn <= m_balance (f_caller f) m -> m_supply m <> 0 ->
    m_supply (money_sync f t m) <> 0 ->
    only_last (m_withdraw (f_caller f) burn (money_sync f t m)) m' -> ledger_step f m m'.

Lemma sync_supply_zero f t m : m_supply m = 0 -> m_supply (money_sync f t m) = 0.
Proof.
  intros Hz. unfold money_sync, sync_mint. rewrite Hz. rewrite andb_false_r. simpl. done.
Qed.

Lemma pick_money a g g' op : pick_operator a g = (g', op) -> money g' = money g.
Proof. intros H. rewrite <- (pick_operator_money a g). by rewrite H. Qed.

Lemma deposit_money f g g' d :
  money_ok (money g) -> in_u128 (f_msg_value f) ->
  do_deposit f g = (g', Returned d) -> ledger_step f (money g) (money g').
Proof.
  intros Hok Hv. unfold do_deposit, deposit_mint. rewrite !get_supply_money.
  pose proof (sync_rewards_money f g Hok) as Hs. intros H.
  repeat case_match; simplify_eq; (try by apply LStay); rewrite ?andb_false_r in *; try discriminate;
    try (match goal with E : pick_operator _ _ = _ |- _ => apply pick_money in E; rename E into Hpick end;
         money_of; autorewrite with money; rewrite ?Hpick; autorewrite with money; rewrite Hs in * ).
  - apply (LSync _ _ _ (ld32 KTreasury g)). by rewrite Hs.
  - apply (LFirst _ _ _ (ld32 KTreasury g)); [lia|lia|]. apply only_last_set.
    unfold m_first, m_grow, m_mint. rewrite (sync_supply_zero f) by lia.
    rewrite <- u128_sub_exact by (unfold in_u128, BOOTSTRAP_BURN, MIN_FIRST_DEPOSIT in *; lia). reflexivity.
  - rewrite get_pool_money, Hs in *. apply (LDeposit _ _ _ (ld32 KTreasury g)); [lia|lia|]. by apply only_last_set.
Qed.

Abbreviation byte_list := (Forall (fun x => 0 <= x <= 255)).

Lemma arg_u128_nonneg args off v : byte_list args -> arg_u128 args off = Some v -> 0 <= v.
Proof. apply read_u128_nonneg. Qed.
Lemma arg_u64_nonneg args off v : byte_list args -> arg_u64 args off = Some v -> 0 <= v.
Proof. apply read_u64_nonneg. Qed.

Lemma request_money f args g g' d :
  money_ok (money g) -> byte_list args ->
  do_request_withdrawal f args g = (g', Returned d) -> ledger_step f (money g) (money g').
Proof.
  intros Hok Ha. unfold do_request_withdrawal. rewrite !get_supply_money, !get_pool_money, !get_balance_money.
  pose proof (sync_rewards_money f g Hok) as Hs. intros H.
  repeat case_match; simplify_eq; (try by apply LStay); rewrite ?Hs in *.
  1: by apply (LSync _ _ _ (ld32 KTreasury g)).
  all: match goal with E : arg_u128 _ _ = Some ?b |- _ =>
      pose proof (arg_u128_nonneg _ _ _ Ha E); apply (LWithdraw _ _ _ (ld32 KTreasury g) b) end; [lia..|];
    match goal with E : allocate ?a ?b ?c ?d ?e ?g = _ |- _ => pose proof (allocate_money a b c d e g) as Hal;
      rewrite E in Hal; simpl in Hal end;
    unfold write_wq; money_of; rewrite Hal; money_of; rewrite ?get_balance_money, Hs; reflexivity.
Qed.

Lemma move_balance_money from to v g :
  money (move_balance from to (get_balance from g) v g) = m_move from to v (money g).
Proof. unfold move_balance, m_move. by autorewrite with money. Qed.

Lemma transfer_money f args g g' r :
  byte_list args -> do_transfer f args g = (g', r) -> ledger_step f (money g) (money g').
Proof.
  intros Ha. unfold do_transfer. intros H. repeat case_match; simplify_eq; try by apply LStay.
  money_of. rewrite move_balance_money. rewrite get_balance_money in *.
  eapply LTransfer; [|reflexivity]. split; [by eapply arg_u128_nonneg|lia].
Qed.

Lemma transfer_from_money f args g g' r :
  byte_list args -> do_transfer_from f args g = (g', r) -> ledger_step f (money g) (money g').
Proof.
  intros Ha. unfold do_transfer_from. intros H. repeat case_match; simplify_eq; try by apply LStay.
  money_of. rewrite move_balance_money. rewrite get_balance_money in *.
  eapply LTransfer; [|reflexivity]. split; [by eapply arg_u128_nonneg|lia].
Qed.

Lemma set_fee_money f args g g' r :
  byte_list args -> do_set_protocol_fee_bps f args g = (g', r) -> ledger_step f (money g) (money g').
Proof.
  intros Ha. unfold do_set_protocol_fee_bps, owner_only. intros H.
  repeat case_match; simplify_eq; try by apply LStay.
  rewrite money_set_fee. eapply LFee; [|reflexivity]. split; [by eapply arg_u64_nonneg|lia].
Qed.

Lemma init_money f args g g' r : do_init f args g = (g', r) -> ledger_step f (money g) (money g').
Proof.
  unfold do_init. intros H. repeat case_match; simplify_eq; try by apply LStay.
  money_of. rewrite money_set_fee. money_of. apply (LFee _ _ _ DEFAULT_FEE_BPS); [|done].
  unfold DEFAULT_FEE_BPS, FEE_BPS_HARD_CAP. lia.
Qed.

Lemma resting_step f g g' : money_ok (money g) -> resting f g g' -> ledger_step f (money g) (money g').
Proof.
  intros Hok [->|H]; [by apply LStay|]. rewrite sync_rewards_money in H by done. by eapply LSync.
Qed.

(** The slashing report lowers the pool and nothing else. *)
Lemma slash_money f args g g' r :
  do_report_slash f args g = (g', r) ->
  money g' = money g \/ exists loss, money g' = m_set_pool (sat_sub (m_pool (money g)) loss) (money g).
Proof.
  unfold do_report_slash. intros H. repeat case_match; simplify_eq; try by left.
  right. money_of. rewrite get_pool_money. money_of. eauto.
Qed.

(** Every entry point but [report_slash] makes a move of the ledger. *)
Theorem dispatch_refines_ledger m f args g g' d :
  m <> MReportSlash -> money_ok (money g) -> byte_list args ->
  in_u128 (f_msg_value f) ->
  dispatch m f args g = (g', Returned d) -> ledger_step f (money g) (money g').
Proof.
  intros Hm Hok Ha Hv H. destruct (plain_method m) eqn:Ep.
  { apply LStay. by eapply plain_method_money. }
  destruct m; try discriminate Ep; try done; cbn [dispatch] in H;
    eauto using init_money, transfer_money, transfer_from_money, set_fee_money, deposit_money, request_money;
    apply resting_step; eauto using claim_money, crank_money, recompound_money, poke_money, settle_money.
Qed.
