(* ===== verification/StSolenRate.v ===== *)
(** What the ledger of the liquid staking contract guarantees: every receipt is
    backed by the recorded supply, and the exchange rate falls only when a
    slashing is reported. *)

From S2P Require Import Prelude Types SysCommon Executor Vm StSolen StSolenLedger.
Open Scope Z_scope.

(** ** Rates *)

(** [pool / supply] of the first state is at most that of the second. *)
Definition rate_le (m m' : Money) : Prop := m_pool m * m_supply m' <= m_pool m' * m_supply m.

Lemma rate_le_refl m : rate_le m m.
Proof. unfold rate_le. lia. Qed.
Lemma rate_le_trans m1 m2 m3 :
  0 < m_supply m2 -> 0 <= m_supply m1 -> 0 <= m_supply m3 ->
  rate_le m1 m2 -> rate_le m2 m3 -> rate_le m1 m3.
Proof.
  unfold rate_le. intros H2 H1 H3 Ha Hb. apply (Zmult_le_reg_r _ _ (m_supply m2)); nia.
Qed.

(** ** The regime without overflow *)

(** A state whose receipts are all accounted for, worth at least [2^-20] SOLEN
    each. *)
Record sound (m : Money) : Prop := {
  so_ok : money_ok m;
  so_supply : bal_sum m = m_supply m;
  so_rate : m_supply m <= 2 ^ 20 * m_pool m;
}.
Record roomy (f : Frame) (m : Money) : Prop := {
  ro_supply : m_supply m <= 2 ^ 100;
  ro_pool : m_pool m <= 2 ^ 100;
  ro_balance : 0 <= f_self_balance f <= 2 ^ 100;
  ro_value : 0 <= f_msg_value f <= 2 ^ 100;
}.

Lemma only_last_sound m m' : only_last m m' -> sound m -> sound m'.
Proof.
  intros H [Hok Hs Hr]. pose proof (only_last_sum m m' H). destruct H as [? Hm Hp ? ?] eqn:E.
  split; [by apply (only_last_ok m)|congruence|by rewrite Hm, Hp].
Qed.
Lemma only_last_rate m m1 m' : only_last m1 m' -> rate_le m m1 -> rate_le m m'.
Proof. unfold rate_le. by intros [_ Hs Hp _ _]; rewrite Hs, Hp. Qed.

Lemma gap_exact m m' :
  bal_sum m = m_supply m -> cong (bal_sum m' - m_supply m') (bal_sum m - m_supply m) ->
  money_ok m' -> bal_sum m' <= u128_max -> bal_sum m' = m_supply m'.
Proof.
  intros He Hc Hok Hb. apply cong_exact.
  - destruct Hc as [q Hq]. exists q. lia.
  - split; [|done]. apply bal_sum_nonneg, Hok.
  - apply Hok.
Qed.

(** A saturating product divided down. *)
Lemma sat_mul_div a b c : 0 <= a -> 0 <= b -> 0 < c ->
  0 <= sat_mul128 a b / c /\ c * (sat_mul128 a b / c) <= a * b.
Proof.
  intros Ha Hb Hc. unfold sat_mul128, u128_max.
  assert (0 <= Z.min (a * b) (2 ^ 128 - 1)) by nia. split; [by apply Z.div_pos|].
  pose proof (Z.mul_div_le (Z.min (a * b) (2 ^ 128 - 1)) c Hc). lia.
Qed.

(** ** Rewards *)

Record sync_facts (f : Frame) (m m1 : Money) : Prop := {
  sf_sound : sound m1;
  sf_pool : m_pool m <= m_pool m1 <= m_pool m + f_self_balance f;
  sf_supply : m_supply m <= m_supply m1 <= 2 ^ 121;
  sf_rate : rate_le m m1;
  sf_balance : forall a, m_balance a m <= m_balance a m1;
}.

Lemma sync_fee_small f m : money_ok m -> 0 <= inflow f m -> 0 <= sync_fee f m /\ 5 * sync_fee f m <= inflow f m.
Proof.
  intros Hok Hi. pose proof (ok_fee m Hok) as Hf. unfold FEE_BPS_HARD_CAP in Hf.
  destruct (sat_mul_div (inflow f m) (m_fee m) 10000) as [H1 H2]; [lia..|]. fold (sync_fee f m) in *. nia.
Qed.

Lemma inflow_range f m : roomy f m -> money_ok m -> 0 <= inflow f m <= f_self_balance f.
Proof.
  intros [] [_ _ _ Hl _]. unfold inflow, sat_sub. unfold in_u128 in Hl. lia.
Qed.

(** The pool after rewards, and the receipts minted for the fee. *)
Lemma sync_amounts f m :
  sound m -> roomy f m ->
  m_pool m <= sync_pool f m <= m_pool m + f_self_balance f /\
  0 <= sync_mint f m <= 2 ^ 120 /\
  m_pool m * sync_mint f m <= (sync_pool f m - m_pool m) * m_supply m.
Proof.
  intros [Hok _ Hr] Hro. pose proof (inflow_range f m Hro Hok). pose proof (sync_fee_small f m Hok) as Hfee.
  destruct Hro. pose proof (ok_pool m Hok) as [Hp _]. pose proof (ok_supply m Hok) as [Hs _].
  assert (Hpool : sync_pool f m = m_pool m + (inflow f m - sync_fee f m)).
  { unfold sync_pool. destruct (Z.ltb_spec 0 (inflow f m)).
    - rewrite u128_sub_exact by (unfold u128_max; lia). apply u128_add_exact. unfold u128_max. lia.
    - destruct Hfee; lia. }
  split; [lia|]. unfold sync_mint. destruct (_ && _) eqn:E; [|nia].
  rewrite !andb_true_iff, !Z.ltb_lt in E.
  destruct (sat_mul_div (sync_fee f m) (m_supply m) (sync_pool f m)) as [H1 H2]; [lia..|].
  set (mu := sat_mul128 _ _ / _) in *.
  assert (sync_pool f m * mu <= sync_pool f m * (2 ^ 20 * sync_fee f m)) by nia.
  assert (mu <= 2 ^ 20 * sync_fee f m) by (apply (Zmult_le_reg_r _ _ (sync_pool f m)); lia).
  split; [lia|]. nia.
Qed.

Lemma sound_rate_step m m1 :
  sound m -> 0 <= m_pool m1 -> (m_pool m = 0 -> m_supply m1 = 0) -> rate_le m m1 ->
  m_supply m1 <= 2 ^ 20 * m_pool m1.
Proof.
  intros [Hok _ Hr] H1 Hz Hrate. pose proof (ok_pool m Hok) as [Hp _]. unfold rate_le in Hrate.
  destruct (Z.eq_dec (m_pool m) 0) as [E|E]; [rewrite Hz; lia|].
  apply (Zmult_le_reg_r _ _ (m_pool m)); nia.
Qed.

Lemma sync_ok_facts f t m : sound m -> roomy f m -> sync_facts f m (money_sync f t m).
Proof.
  intros Hs Hro. destruct (sync_amounts f m Hs Hro) as (Hp & Hm & Hr). pose proof Hro as [Hrs Hrp [Hb0 Hb1] _].
  pose proof Hs as [Hok Hsum Hrate]. pose proof (ok_supply m Hok) as [Hs0 _]. pose proof (ok_pool m Hok) as [Hp0 _].
  assert (Hf : in_u128 (f_self_balance f)) by (unfold in_u128, u128_max; lia).
  destruct (money_sync_synced f t m Hok Hf) as [Hsu Hpo Hgap Hle Hbal Hok1].
  rewrite u128_add_exact in Hsu by (unfold u128_max; lia).
  assert (Hrl : rate_le m (money_sync f t m)) by (unfold rate_le; rewrite Hsu, Hpo; nia).
  split; rewrite ?Hpo, ?Hsu; try lia; try done.
  - split; [done| |].
    + apply (gap_exact m); try done. unfold u128_max. lia.
    + apply (sound_rate_step m); try done; [lia|]. intros E. apply sync_supply_zero. lia.
  - intros a. pose proof (m_balance_le a m (ok_bals m Hok)).
    pose proof (m_balance_range a m (ok_bals m Hok)) as [? _].
    destruct (Hbal a) as [->| ->]; [lia|]. rewrite u128_add_exact by (unfold u128_max; lia). lia.
Qed.

(** ** Minting, burning and moving *)

Lemma m_mint_ok a v m : money_ok m -> money_ok (m_mint a v m).
Proof. intros H. by apply m_set_ok_supply, m_set_ok_balance. Qed.
Lemma m_burn_ok a v m : money_ok m -> money_ok (m_burn a v m).
Proof. intros H. by apply m_set_ok_supply, m_set_ok_balance. Qed.
Lemma m_move_ok a b v m : money_ok m -> money_ok (m_move a b v m).
Proof. intros H. by apply m_set_ok_balance, m_set_ok_balance. Qed.
Lemma m_grow_ok v m : money_ok m -> money_ok (m_grow v m).
Proof. apply m_set_ok_pool. Qed.
Lemma m_shrink_ok v m : money_ok m -> money_ok (m_shrink v m).
Proof. apply m_set_ok_pool. Qed.

Lemma supply_mint a v m : m_supply (m_mint a v m) = u128_add (m_supply m) v.
Proof. apply mod_u128_add. Qed.
Lemma supply_burn a v m : m_supply (m_burn a v m) = u128_sub (m_supply m) v.
Proof. apply mod_u128_sub. Qed.
Lemma pool_grow v m : m_pool (m_grow v m) = u128_add (m_pool m) v.
Proof. apply mod_u128_add. Qed.
Lemma pool_shrink v m : m_pool (m_shrink v m) = u128_sub (m_pool m) v.
Proof. apply mod_u128_sub. Qed.

Lemma gap_mint a v m : cong (bal_sum (m_mint a v m) - m_supply (m_mint a v m)) (bal_sum m - m_supply m).
Proof. rewrite supply_mint. apply mint_gap. Qed.
Lemma gap_burn a v m : cong (bal_sum (m_burn a v m) - m_supply (m_burn a v m)) (bal_sum m - m_supply m).
Proof.
  rewrite supply_burn. change (bal_sum (m_burn a v m)) with (bal_sum (m_set_balance a (u128_sub (m_balance a m) v) m)).
  rewrite bal_sum_set, mod_u128_sub, !cong_u128_sub. exists 0. lia.
Qed.
Lemma sum_mint a v m : bals_ok m -> 0 <= v -> bal_sum (m_mint a v m) <= bal_sum m + v.
Proof. apply mint_sum. Qed.
Lemma sum_burn a v m : bals_ok m -> 0 <= v <= m_balance a m -> bal_sum (m_burn a v m) <= bal_sum m.
Proof.
  intros Hb Hv. change (bal_sum (m_burn a v m)) with (bal_sum (m_set_balance a (u128_sub (m_balance a m) v) m)).
  pose proof (m_balance_range a m Hb) as [? ?].
  rewrite bal_sum_set, mod_u128_sub, u128_sub_exact by lia. lia.
Qed.
Lemma sum_move a b v m : bals_ok m -> 0 <= v <= m_balance a m ->
  cong (bal_sum (m_move a b v m)) (bal_sum m) /\ bal_sum (m_move a b v m) <= bal_sum m.
Proof.
  intros Hb Hv. pose proof (m_balance_range a m Hb) as [? ?]. unfold m_move. set (m1 := m_set_balance a _ m).
  assert (H1 : bal_sum m1 = bal_sum m - v).
  { unfold m1. rewrite bal_sum_set, mod_u128_sub, u128_sub_exact by lia. lia. }
  assert (Hb1 : bals_ok m1) by by apply bals_ok_set.
  split.
  - rewrite bal_sum_set, mod_u128_add, cong_u128_add, H1. exists 0. lia.
  - pose proof (mint_sum b v m1 Hb1). lia.
Qed.

Create HintDb ledger.
#[local] Hint Resolve m_mint_ok m_burn_ok m_move_ok m_grow_ok m_shrink_ok m_set_ok_pool : ledger.

Lemma m_set_fee_ok v m : 0 <= v <= FEE_BPS_HARD_CAP -> money_ok m -> money_ok (m_set_fee v m).
Proof.
  intros Hv []. split; try done. unfold FEE_BPS_HARD_CAP in *. simpl. rewrite Z.mod_small; lia.
Qed.

(** ** Supply conservation up to the width of the integers *)

Definition gap_eq (m m' : Money) : Prop := cong (bal_sum m' - m_supply m') (bal_sum m - m_supply m).

Lemma gap_eq_trans m1 m2 m3 : gap_eq m1 m2 -> gap_eq m2 m3 -> gap_eq m1 m3.
Proof. unfold gap_eq. intros H1 H2. by rewrite H2. Qed.
Lemma gap_only_last m m1 m' : only_last m1 m' -> gap_eq m m1 -> gap_eq m m'.
Proof. intros H. unfold gap_eq. rewrite (only_last_sum m1 m' H). by rewrite (ol_supply _ _ H). Qed.

Lemma ledger_step_ok f m m' :
  in_u128 (f_self_balance f) -> ledger_step f m m' -> money_ok m -> money_ok m' /\ gap_eq m m'.
Proof.
  intros Hf Hst Hok.
  assert (Hsync : forall t, money_ok (money_sync f t m) /\ gap_eq m (money_sync f t m))
    by (intros t; by destruct (money_sync_synced f t m Hok Hf)).
  destruct Hst as [->|v Hv ->|from to v Hv ->|t Hl|t Hz Hv Hl|t Hz Hp Hl|t burn Hb Hz Hz1 Hl];
    try (destruct (Hsync t) as [Hok1 Hgap]; split;
         [apply (only_last_ok _ _ Hl)|apply (gap_only_last m _ _ Hl)]).
  - split; [done|]. unfold gap_eq. reflexivity.
  - split; [by apply m_set_fee_ok|]. unfold gap_eq. reflexivity.
  - split; [by apply m_move_ok|]. unfold gap_eq. cbn [m_supply m_move m_set_balance].
    destruct (sum_move from to v m (ok_bals m Hok) Hv) as [Hc _]. by rewrite Hc.
  - done.
  - done.
  - unfold m_first. eauto 8 with ledger.
  - eapply gap_eq_trans; [done|]. eapply gap_eq_trans; [apply (gap_mint DEAD_ADDRESS)|apply gap_mint].
  - unfold m_deposit. eauto 8 with ledger.
  - eapply gap_eq_trans; [done|]. apply gap_mint.
  - unfold m_withdraw. eauto 8 with ledger.
  - eapply gap_eq_trans; [done|]. apply gap_burn.
Qed.

(** ** The moves in the regime *)

Lemma m_move_sound a b v m : sound m -> 0 <= v <= m_balance a m -> sound (m_move a b v m) /\ rate_le m (m_move a b v m).
Proof.
  intros [Hok Hs Hr] Hv. destruct (sum_move a b v m (ok_bals m Hok) Hv) as [Hc Hle].
  split; [split|unfold rate_le; simpl; lia].
  - by apply m_move_ok.
  - apply (gap_exact m); [done| |by apply m_move_ok|].
    + cbn [m_supply m_move m_set_balance]. by rewrite Hc.
    + pose proof (ok_supply m Hok) as [_ ?]. lia.
  - apply Hr.
Qed.

Lemma m_deposit_sound c v m :
  sound m -> m_pool m <> 0 -> 0 <= v <= 2 ^ 100 -> m_pool m <= 2 ^ 101 -> m_supply m <= 2 ^ 121 ->
  sound (m_deposit c v m) /\ rate_le m (m_deposit c v m).
Proof.
  intros Hsd Hp Hv Hp1 Hs1. pose proof Hsd as [Hok Hs Hr].
  pose proof (ok_supply m Hok) as [Hs0 _]. pose proof (ok_pool m Hok) as [Hp0 _].
  unfold m_deposit. set (nu := sat_mul128 v (m_supply m) / m_pool m).
  destruct (sat_mul_div v (m_supply m) (m_pool m)) as [Hn0 Hn]; [lia..|]. fold nu in Hn0, Hn.
  assert (Hnv : nu <= 2 ^ 20 * v) by (apply (Zmult_le_reg_r _ _ (m_pool m)); nia).
  assert (Hpool : m_pool (m_grow v (m_mint c nu m)) = m_pool m + v)
    by (rewrite pool_grow; apply u128_add_exact; simpl; unfold u128_max; lia).
  assert (Hsup : m_supply (m_grow v (m_mint c nu m)) = m_supply m + nu)
    by (etransitivity; [apply (supply_mint c nu m)|]; apply u128_add_exact; unfold u128_max; lia).
  assert (Hrl : rate_le m (m_grow v (m_mint c nu m))) by (unfold rate_le; rewrite Hpool, Hsup; nia).
  assert (Hok' : money_ok (m_grow v (m_mint c nu m))) by auto with ledger.
  split; [split|]; try done.
  - apply (gap_exact m); [done|apply gap_mint|done|].
    pose proof (sum_mint c nu m (ok_bals m Hok) Hn0) as Hle. unfold u128_max.
    change (bal_sum (m_grow v (m_mint c nu m))) with (bal_sum (m_mint c nu m)). lia.
  - apply (sound_rate_step m); try done; rewrite ?Hpool; lia.
Qed.

Lemma m_first_sound c v m :
  sound m -> m_supply m = 0 -> MIN_FIRST_DEPOSIT <= v <= 2 ^ 100 -> m_pool m <= 2 ^ 101 -> sound (m_first c v m).
Proof.
  intros [Hok Hs Hr] Hz Hv Hp1. pose proof (ok_pool m Hok) as [Hp0 _].
  unfold MIN_FIRST_DEPOSIT, m_first, BOOTSTRAP_BURN in *. set (m2 := m_mint DEAD_ADDRESS 1000 m).
  assert (Hok2 : money_ok m2) by by apply m_mint_ok.
  assert (Hsup2 : m_supply m2 = 1000) by (unfold m2; rewrite supply_mint, Hz; reflexivity).
  assert (Hsup : m_supply (m_grow v (m_mint c (v - 1000) m2)) = v).
  { etransitivity; [apply (supply_mint c (v - 1000) m2)|]. rewrite Hsup2, u128_add_exact; [lia|]. unfold u128_max. lia. }
  assert (Hpool : m_pool (m_grow v (m_mint c (v - 1000) m2)) = m_pool m + v)
    by (rewrite pool_grow; apply u128_add_exact; simpl; unfold u128_max; lia).
  assert (Hok' : money_ok (m_grow v (m_mint c (v - 1000) m2))) by auto with ledger.
  split; [done| |lia].
  apply (gap_exact m); [done| |done|].
  - eapply gap_eq_trans; [apply (gap_mint DEAD_ADDRESS)|apply gap_mint].
  - pose proof (sum_mint DEAD_ADDRESS 1000 m (ok_bals m Hok) ltac:(lia)).
    pose proof (sum_mint c (v - 1000) m2 (ok_bals m2 Hok2) ltac:(lia)) as Hle. fold m2 in H. unfold u128_max.
    change (bal_sum (m_grow v (m_mint c (v - 1000) m2))) with (bal_sum (m_mint c (v - 1000) m2)). lia.
Qed.

Lemma m_withdraw_sound c b m :
  sound m -> m_supply m <> 0 -> 0 < b <= m_balance c m ->
  sound (m_withdraw c b m) /\ rate_le m (m_withdraw c b m).
Proof.
  intros Hsd Hz Hb. pose proof Hsd as [Hok Hs Hr].
  pose proof (ok_supply m Hok) as [Hs0 Hsm]. pose proof (ok_pool m Hok) as [Hp0 Hpm].
  pose proof (m_balance_le c m (ok_bals m Hok)) as Hbs.
  unfold m_withdraw, m_owed. set (o := sat_mul128 b (m_pool m) / m_supply m).
  destruct (sat_mul_div b (m_pool m) (m_supply m)) as [Ho0 Ho]; [lia..|]. fold o in Ho0, Ho.
  assert (Hop : o <= m_pool m) by (apply (Zmult_le_reg_r _ _ (m_supply m)); nia).
  assert (Hpool : m_pool (m_shrink o (m_burn c b m)) = m_pool m - o)
    by (rewrite pool_shrink; apply u128_sub_exact; simpl; lia).
  assert (Hsup : m_supply (m_shrink o (m_burn c b m)) = m_supply m - b)
    by (etransitivity; [apply (supply_burn c b m)|]; apply u128_sub_exact; lia).
  assert (Hrl : rate_le m (m_shrink o (m_burn c b m))) by (unfold rate_le; rewrite Hpool, Hsup; nia).
  assert (Hok' : money_ok (m_shrink o (m_burn c b m))) by auto with ledger.
  split; [split|]; try done.
  - apply (gap_exact m); [done|apply gap_burn|done|].
    pose proof (sum_burn c b m (ok_bals m Hok) ltac:(lia)).
    change (bal_sum (m_shrink o (m_burn c b m))) with (bal_sum (m_burn c b m)). lia.
  - apply (sound_rate_step m); try done; rewrite ?Hpool; lia.
Qed.

Lemma ledger_step_sound f m m' :
  sound m -> roomy f m -> ledger_step f m m' -> sound m' /\ (m_supply m <> 0 -> rate_le m m').
Proof.
  intros Hsd Hro Hst. pose proof Hsd as [Hok Hs Hr].
  assert (Hsync : forall t, sync_facts f m (money_sync f t m)) by (intros t; by apply sync_ok_facts).
  destruct Hro as [Hrs Hrp Hrb Hrv].
  destruct Hst as [->|v Hv ->|from to v Hv ->|t Hl|t Hz Hv Hl|t Hz Hp Hl|t burn Hb Hz Hz1 Hl];
    try (destruct (Hsync t) as [Hs1 Hp1 Hm1 Hr1 Hb1]).
  - by split; [|intros; apply rate_le_refl].
  - split; [|intros; apply (rate_le_refl m)]. split; [by apply m_set_fee_ok|done..].
  - destruct (m_move_sound from to v m Hsd Hv). by split.
  - split; [by apply (only_last_sound _ _ Hl)|]. intros _. by apply (only_last_rate _ _ _ Hl).
  - split; [|done]. apply (only_last_sound _ _ Hl), m_first_sound; try done; [by apply sync_supply_zero|lia..].
  - destruct (m_deposit_sound (f_caller f) (f_msg_value f) (money_sync f t m)) as [Hd Hrd]; try done; try lia.
    split; [by apply (only_last_sound _ _ Hl)|]. intros _. apply (only_last_rate _ _ _ Hl).
    eapply rate_le_trans; [| | |exact Hr1|exact Hrd];
      [pose proof (ok_supply m Hok) as [? _]; lia|apply Hok|apply Hd].
  - specialize (Hb1 (f_caller f)).
    destruct (m_withdraw_sound (f_caller f) burn (money_sync f t m)) as [Hd Hrd]; try done; try lia.
    split; [by apply (only_last_sound _ _ Hl)|]. intros _. apply (only_last_rate _ _ _ Hl).
    eapply rate_le_trans; [| | |exact Hr1|exact Hrd];
      [pose proof (ok_supply m Hok) as [? _]; lia|apply Hok|apply Hd].
Qed.

(** ** Calls *)

(** A call into the contract: the queues of the guest start empty, and a trap
    leaves the storage as it was. *)
Definition fresh (g : Guest) : Guest := mkGuest (g_storage g) [] [] [].
Definition invoke (f : Frame) (input : bytes) (g : Guest) : Guest :=
  match call f input (fresh g) with
  | (g', Returned _) => g'
  | (_, Trapped) => fresh g
  end.

Record frame_ok (f : Frame) : Prop := {
  fo_balance : in_u128 (f_self_balance f);
  fo_value : in_u128 (f_msg_value f);
}.

Definition method_in (input : bytes) : option Method := method_of (fst (split_zero input)).

Lemma split_zero_bytes input : byte_list input -> byte_list (snd (split_zero input)).
Proof.
  induction 1 as [|x b Hx Hb IH]; simpl; [done|]. destruct (x =? 0); [done|].
  by destruct (split_zero b).
Qed.

Lemma money_fresh g : money (fresh g) = money g.
Proof. reflexivity. Qed.

(** A call makes a move of the ledger, or reports a slashing. *)
Lemma invoke_step f input g :
  money_ok (money g) -> byte_list input -> frame_ok f ->
  (method_in input <> Some MReportSlash /\ ledger_step f (money g) (money (invoke f input g)))
  \/ (method_in input = Some MReportSlash /\
      (money (invoke f input g) = money g
       \/ exists loss, money (invoke f input g) = m_set_pool (sat_sub (m_pool (money g)) loss) (money g))).
Proof.
  intros Hok Hi [Hf Hv]. unfold invoke, call, method_in. pose proof (split_zero_bytes _ Hi) as Ha.
  destruct (split_zero input) as [name args]. simpl in *.
  destruct (method_of name) as [m|]; [|left; split; [done|by apply LStay]].
  destruct (dispatch m f args (fresh g)) as [g' r] eqn:Ed.
  destruct (decide (m = MReportSlash)) as [->|Hm].
  - right. split; [done|]. destruct r; [|by left]. apply (slash_money _ _ _ _ _ Ed).
  - left. split; [congruence|]. destruct r; [|by apply LStay].
    by apply (dispatch_refines_ledger m f args (fresh g) g' data).
Qed.

(** ** Runs *)

Definition genesis_guest : Guest := mkGuest ∅ [] [] [].
Definition called (g g' : Guest) : Prop :=
  exists f input, frame_ok f /\ byte_list input /\ g' = invoke f input g.

(** The abstract ledger: a move of a holder, or a reported slashing. *)
Definition ledger_move (m m' : Money) : Prop :=
  (exists f, frame_ok f /\ ledger_step f m m')
  \/ exists loss, m' = m_set_pool (sat_sub (m_pool m) loss) m.

Lemma genesis_ok : money_ok (money genesis_guest).
Proof.
  split; try (split; apply Z.leb_le; reflexivity).
  unfold bals_ok. simpl. by rewrite map_filter_empty.
Qed.
Lemma initial_guest_sound : sound (money genesis_guest).
Proof. split; [apply genesis_ok|reflexivity|]. apply Z.leb_le. reflexivity. Qed.

Lemma ledger_move_ok m m' : ledger_move m m' -> money_ok m -> money_ok m' /\ gap_eq m m'.
Proof.
  intros [(f & [Hf _] & H)|[loss ->]] Hok; [by apply (ledger_step_ok f)|].
  split; [by apply m_set_ok_pool|unfold gap_eq; reflexivity].
Qed.

Lemma called_moves g g' : called g g' -> money_ok (money g) -> ledger_move (money g) (money g').
Proof.
  intros (f & input & Hf & Hi & ->) Hok.
  destruct (invoke_step f input g Hok Hi Hf) as [[_ H]|[_ [->|H]]].
  - left. eauto.
  - left. exists f. split; [done|by apply LStay].
  - by right.
Qed.

Lemma run_moves g g' : rtc called g g' -> money_ok (money g) ->
  rtc ledger_move (money g) (money g') /\ money_ok (money g') /\ gap_eq (money g) (money g').
Proof.
  induction 1 as [g|g1 g2 g3 H12 _ IH]; intros Hok.
  - split; [constructor|split; [done|unfold gap_eq; reflexivity]].
  - pose proof (called_moves _ _ H12 Hok) as Hm. destruct (ledger_move_ok _ _ Hm Hok) as [Hok2 Hg].
    destruct (IH Hok2) as (Hr & Hok3 & Hg2). split; [by eapply rtc_l|]. split; [done|]. by eapply gap_eq_trans.
Qed.

(** Refinement. Every run of calls into the contract, from an empty storage and
    with any inputs, is a run of the abstract ledger: each call leaves the balances,
    the supply, the pool and the fee as they were, moves receipts between two
    accounts, books rewards, mints for a deposit, burns for a withdrawal, or lowers
    the pool by a reported loss. *)
Theorem contract_refines_ledger g :
  rtc called genesis_guest g -> rtc ledger_move (money genesis_guest) (money g).
Proof. intros H. by apply (run_moves genesis_guest g H genesis_ok). Qed.

(** Supply conservation. After any run of calls the receipts held by all accounts
    add up to the recorded total supply, modulo the width of the integers. *)
Theorem receipts_conserved g :
  rtc called genesis_guest g -> cong (bal_sum (money g)) (get_total_supply g).
Proof.
  intros H. destruct (run_moves genesis_guest g H genesis_ok) as (_ & _ & [q Hq]). exists q.
  change (bal_sum (money genesis_guest)) with 0 in Hq. change (m_supply (money genesis_guest)) with 0 in Hq.
  rewrite get_supply_money. lia.
Qed.

(** A call that is not a slashing report, with amounts up to [2^100], while
    receipts are outstanding. *)
Definition called_in_regime (g g' : Guest) : Prop :=
  exists f input, byte_list input /\ method_in input <> Some MReportSlash /\ roomy f (money g)
    /\ m_supply (money g) <> 0 /\ g' = invoke f input g.

Lemma roomy_frame f m : roomy f m -> frame_ok f.
Proof. intros []. split; unfold in_u128, u128_max; lia. Qed.

Lemma regime_step g g' : called_in_regime g g' -> sound (money g) ->
  sound (money g') /\ rate_le (money g) (money g') /\ m_supply (money g) <> 0.
Proof.
  intros (f & input & Hi & Hm & Hro & Hz & ->) Hs.
  destruct (invoke_step f input g (so_ok _ Hs) Hi (roomy_frame _ _ Hro)) as [[_ Hst]|[? _]]; [|done].
  destruct (ledger_step_sound f _ _ Hs Hro Hst) as [Hs' Hr]. auto.
Qed.


(** ** A concrete run *)

Fixpoint play (calls : list (Frame * bytes)) (g : Guest) : Guest :=
  match calls with
  | [] => g
  | (f, input) :: calls => play calls (invoke f input g)
  end.

Definition bytesb (b : bytes) : bool := forallb (fun x => (0 <=? x) && (x <=? 255)) b.
Definition roomyb (f : Frame) (g : Guest) : bool :=
  (get_total_supply g <=? 2 ^ 100) && (get_total_pooled g <=? 2 ^ 100)
  && (0 <=? f_self_balance f) && (f_self_balance f <=? 2 ^ 100)
  && (0 <=? f_msg_value f) && (f_msg_value f <=? 2 ^ 100).
Definition no_slashb (input : bytes) : bool := bool_decide (method_in input <> Some MReportSlash).

(** Every call of the list is in the regime where it is made; [held] asks for
    outstanding receipts too. *)
Fixpoint play_ok (held : bool) (calls : list (Frame * bytes)) (g : Guest) : bool :=
  match calls with
  | [] => true
  | (f, input) :: calls =>
    bytesb input && no_slashb input && roomyb f g && (negb held || negb (get_total_supply g =? 0))
    && play_ok held calls (invoke f input g)
  end.

Lemma bytesb_true b : bytesb b = true -> byte_list b.
Proof. unfold bytesb. rewrite forallb_forall, List.Forall_forall. intros H x Hx. specialize (H x Hx). lia. Qed.
Lemma roomyb_true f g : roomyb f g = true -> roomy f (money g).
Proof.
  unfold roomyb. rewrite !andb_true_iff, !Z.leb_le. intros H.
  split; rewrite <- ?get_supply_money, <- ?get_pool_money; lia.
Qed.

Lemma play_called held calls g : play_ok held calls g = true -> rtc called g (play calls g).
Proof.
  revert g. induction calls as [|[f input] calls IH]; intros g; [constructor|]. cbn [play_ok play].
  rewrite !andb_true_iff. intros ((((Hb & _) & Hr) & _) & Hp). apply (rtc_l _ _ (invoke f input g)); [|by apply IH].
  exists f, input. split; [by apply (roomy_frame f (money g)), roomyb_true|]. split; [by apply bytesb_true|done].
Qed.
Lemma play_in_regime calls g : play_ok true calls g = true -> rtc called_in_regime g (play calls g).
Proof.
  revert g. induction calls as [|[f input] calls IH]; intros g; [constructor|]. cbn [play_ok play].
  rewrite !andb_true_iff. intros ((((Hb & Hs) & Hr) & Hz) & Hp).
  apply (rtc_l _ _ (invoke f input g)); [|by apply IH].
  exists f, input. split; [by apply bytesb_true|]. split; [by apply bool_decide_eq_true in Hs|].
  split; [by apply roomyb_true|]. split; [|done]. rewrite <- get_supply_money. simpl in Hz. lia.
Qed.
Lemma play_sound held calls g : play_ok held calls g = true -> sound (money g) -> sound (money (play calls g)).
Proof.
  revert g. induction calls as [|[f input] calls IH]; intros g; [done|]. cbn [play_ok play].
  rewrite !andb_true_iff. intros ((((Hb & Hm) & Hr) & _) & Hp) Hs. apply (IH _ Hp).
  apply roomyb_true in Hr. apply bytesb_true in Hb. apply bool_decide_eq_true in Hm.
  destruct (invoke_step f input g (so_ok _ Hs) Hb (roomy_frame _ _ Hr)) as [[_ Hst]|[? _]]; [|done].
  by destruct (ledger_step_sound f _ _ Hs Hr Hst).
Qed.

Definition owner_id : AccountId := replicate 32 1.
Definition alice_id : AccountId := replicate 32 2.
Definition bob_id : AccountId := replicate 32 3.
Definition treasury_id : AccountId := replicate 32 4.
Definition oracle_id : AccountId := replicate 32 5.
Definition operator_id (i : Z) : AccountId := replicate 32 (100 + i).
Definition input_of (name : string) (args : bytes) : bytes := bytes_of_string name ++ [0] ++ args.

(** Initialisation with [n] operators. *)
Definition setup_calls (n : nat) : list (Frame * bytes) :=
  let f := mkFrame owner_id 1 0 0 in
  (f, input_of "init" (treasury_id ++ oracle_id)) :: (f, input_of "set_op_count" (le_bytes 8 (Z.of_nat n)))
  :: map (fun i => (f, input_of "set_operator" (le_bytes 8 (Z.of_nat i) ++ operator_id (Z.of_nat i)))) (seq 0 n).
(** A first deposit of a million, rewards of a hundred thousand, a second deposit. *)
Definition deposit_calls : list (Frame * bytes) :=
  [(mkFrame alice_id 10 1000000 1000000, input_of "deposit" [])].
Definition later_calls : list (Frame * bytes) :=
  [(mkFrame bob_id 20 0 110000, input_of "poke" []);
   (mkFrame bob_id 30 500000 610000, input_of "deposit" []);
   (mkFrame alice_id 40 0 110000, input_of "request_withdrawal" (le_bytes 16 300000))].
Definition demo_start : Guest := play (setup_calls 2 ++ deposit_calls) genesis_guest.
Definition demo_end : Guest := play later_calls demo_start.

Example demo_money :
  (get_total_pooled demo_start, get_total_supply demo_start) = (1000000, 1000000)
  /\ (get_total_pooled demo_end, get_total_supply demo_end) = (1265973, 1172097).
Proof. vm_compute. done. Qed.

Lemma contract_refines_ledger_witness :
  rtc called genesis_guest demo_end /\ get_total_supply demo_end = 1172097
  /\ rtc ledger_move (money genesis_guest) (money demo_end).
Proof.
  assert (H : rtc called genesis_guest demo_end).
  { transitivity demo_start; apply (play_called false); vm_compute; reflexivity. }
  split; [exact H|]. split; [vm_compute; reflexivity|]. exact (contract_refines_ledger demo_end H).
Defined.

Lemma receipts_conserved_witness :
  bal_sum (money demo_end) = 1172097 /\ cong (bal_sum (money demo_end)) (get_total_supply demo_end).
Proof.
  split; [vm_compute; reflexivity|]. apply (receipts_conserved demo_end).
  transitivity demo_start; apply (play_called false); vm_compute; reflexivity.
Defined.


(** Rewards of 100000 at the default fee of 10%: the pool grows by 90000 and the
    treasury also receives receipts for 9908 of it, so the other holders keep
    80092; 10000 of the rewards back no receipt. *)
Theorem fee_charged_twice :
  let g := play (take 1 later_calls) demo_start in
  get_total_pooled g = get_total_pooled demo_start + 90000
  /\ get_balance treasury_id g * get_total_pooled g / get_total_supply g = 9908.
Proof. vm_compute. done. Qed.
