(* ===== verification/StSolenQueue.v ===== *)
(** The withdrawal queue of the liquid staking contract: first in, first out,
    each request paid once and in full or settled by the owner. *)

From S2P Require Import Prelude Types SysCommon Executor Vm StSolen StSolenLedger StSolenRate.
Open Scope Z_scope.

(** ** Framing *)

(** The family of a key. *)
Definition family (k : SKey) : nat :=
  match k with
  | KOwner => 0 | KTreasury => 1 | KSlashOracle => 2 | KPaused => 3 | KSupply => 4 | KPooled => 5
  | KLastSeen => 6 | KPending => 7 | KFeeBps => 8 | KOpCount => 9 | KOpCursor => 10 | KOpCap => 11
  | KRecompound => 12 | KWqHead => 13 | KWqTail => 14 | KUnHead => 15 | KUnTail => 16 | KBuffer => 17
  | KBal _ => 18 | KAllow _ _ => 19 | KOp _ => 20 | KOpStake _ => 21 | KPue _ => 22 | KIfu _ => 23
  | KWq _ => 24 | KUn _ => 25
  end%nat.

Lemma family_separate k k' : family k <> family k' -> separate k k'.
Proof. destruct k, k'; simpl; intros H; try done; try discriminate; by destruct H. Qed.

(** [g'] has the cells of the families [own] as [g] has them, and pays out
    nothing more. *)
Record keeps (own : nat -> bool) (g g' : Guest) : Prop := {
  kp_cell : forall k, own (family k) = true -> g_storage g' !! key k = g_storage g !! key k;
  kp_pay : g_transfers g' = g_transfers g;
}.

#[export] Instance keeps_pre own : PreOrder (keeps own).
Proof.
  split; [by split|]. intros g1 g2 g3 [H12 P12] [H23 P23]. split; [|congruence].
  intros k Hk. by rewrite H23, H12.
Qed.

Lemma keeps_set own k b g g' : own (family k) = false -> keeps own g g' -> keeps own g (storage_set (key k) b g').
Proof.
  intros Hk [H P]. split; [|done]. intros k' Hk'. rewrite <- (H k' Hk'). simpl.
  apply lookup_insert_ne, key_separate, family_separate. intros E. rewrite E in Hk. congruence.
Qed.
Lemma keeps_emit own t d g g' : keeps own g g' -> keeps own g (emit t d g').
Proof. by intros []. Qed.
Lemma keeps_queue own t m a g g1 g' : queue_call t m a g1 = Some g' -> keeps own g g1 -> keeps own g g'.
Proof. unfold queue_call. destruct (_ || _); [done|]. intros [= <-] []. by split. Qed.

(** Walks back over writes, events and queued calls. *)
Ltac keeps := repeat first
  [ reflexivity
  | apply keeps_emit
  | apply keeps_set; [reflexivity|]
  | match goal with
    | H : queue_call _ _ _ _ = Some ?g |- keeps _ _ ?g => apply (keeps_queue _ _ _ _ _ _ _ H)
    end ].

(** The cells of the queue: head, tail and entries. *)
Definition wq_own (n : nat) : bool := (n =? 13)%nat || (n =? 14)%nat || (n =? 24)%nat.

Section Frames.
Context (own : nat -> bool).
Hypothesis Hbal : own 18%nat = false.
Hypothesis Hsupply : own 4%nat = false.
Hypothesis Hpool : own 5%nat = false.
Hypothesis Hlast : own 6%nat = false.
Hypothesis Hcursor : own 10%nat = false.
Hypothesis Hunhead : own 15%nat = false.
Hypothesis Huntail : own 16%nat = false.
Hypothesis Hun : own 25%nat = false.
Hypothesis Hstake : own 21%nat = false.
Hypothesis Hpue : own 22%nat = false.
Hypothesis Hifu : own 23%nat = false.

Ltac frames := repeat first
  [ reflexivity | apply keeps_emit | apply keeps_set; [assumption|] ].

Lemma keeps_sync f g : keeps own g (sync_rewards f g).
Proof.
  unfold sync_rewards, mint_fee. repeat case_match; unfold st128, set_u128, set_total_supply, set_balance,
    set_total_pooled, st128, set_u128; frames.
Qed.
Lemma keeps_pick a g : keeps own g (fst (pick_operator a g)).
Proof. unfold pick_operator. repeat case_match; simpl; unfold st64, set_u64; frames. Qed.
Lemma keeps_walk fuel cm now sq mt hd g : keeps own g (fst (fst (walk_log fuel cm now sq mt hd g))).
Proof.
  revert sq mt hd g. induction fuel as [|fuel IH]; intros sq mt hd g; [done|]. cbn [walk_log].
  destruct (read_un_log sq g) as [[[e a] o]|]; [|apply IH]. destruct (_ <? _); [done|].
  etransitivity; [|apply IH]. destruct cm; [|done]. unfold set_inflight, clear_un_log, st64, set_u64. frames.
Qed.
Lemma keeps_allocate ops owed total al l g : keeps own g (fst (fst (allocate ops owed total al l g))).
Proof.
  revert al l g. induction ops as [|op ops IH]; intros al l g; [done|]. cbn [allocate].
  destruct (_ =? _); [apply IH|]. destruct (_ <? _); [|apply IH].
  etransitivity; [|apply IH]. unfold set_pending_undelegate, st128, set_u128. frames.
Qed.
Lemma keeps_crank ops now p t g r : crank_loop ops now p t g = Some r -> keeps own g (fst (fst r)).
Proof.
  revert p t g. induction ops as [|op ops IH]; intros p t g; cbn [crank_loop]; [by intros [= <-]|].
  destruct (_ =? _); [apply IH|]. destruct (_ <=? _); [apply IH|]. destruct (_ =? _); [apply IH|].
  destruct (queue_call _ _ _ _) as [g1|] eqn:Eq; [|done]. intros H%IH. etransitivity; [|exact H].
  apply (keeps_queue _ _ _ _ _ _ _ Eq).
  unfold write_un_log, set_inflight, set_op_stake, set_pending_undelegate, st64, st128, set_u64, set_u128. frames.
Qed.
End Frames.

(** ** The queue as a list *)

Abbreviation Entry := (AccountId * u128 * u64)%type.
Definition wq_head : Guest -> u64 := ld64 0 KWqHead.
Definition wq_tail : Guest -> u64 := ld64 0 KWqTail.

(** The entries from the head to the tail. *)
Definition waiting (g : Guest) : list Entry :=
  omap (fun i => read_wq (wq_head g + Z.of_nat i) g) (seq 0 (Z.to_nat (wq_tail g - wq_head g))).

(** The cells hold the list [q]: no entry is missing or left over, and no epoch is
    near the end of its width. *)
Record queue_is (g : Guest) (q : list Entry) : Prop := {
  qi_head : 0 <= wq_head g;
  qi_tail : wq_tail g = wq_head g + Z.of_nat (length q);
  qi_room : wq_tail g < u64_max;
  qi_entry : forall i e, q !! i = Some e -> read_wq (wq_head g + Z.of_nat i) g = Some e;
  qi_beyond : forall i, wq_tail g <= i <= u64_max -> read_wq i g = None;
  qi_epoch : forall a o e, (a, o, e) ∈ q -> 0 <= e <= u64_max / 100 /\ 0 < o;
}.

Lemma omap_seq {A} (f : nat -> option A) (l : list A) (k : nat) :
  (forall i x, l !! i = Some x -> f (k + i)%nat = Some x) -> omap f (seq k (length l)) = l.
Proof.
  revert k. induction l as [|x l IH]; intros k H; [done|]. simpl.
  pose proof (H 0%nat x eq_refl) as H0. rewrite Nat.add_0_r in H0. rewrite H0. f_equal. apply IH.
  intros i y Hi. rewrite <- (H (S i) y Hi). f_equal. lia.
Qed.

Lemma queue_waiting g q : queue_is g q -> waiting g = q.
Proof.
  intros []. unfold waiting. replace (Z.to_nat (wq_tail g - wq_head g)) with (length q) by lia.
  by apply omap_seq.
Qed.

Lemma ld64_keeps own d k g g' : keeps own g g' -> own (family k) = true -> ld64 d k g' = ld64 d k g.
Proof. intros [H _] Hk. unfold ld64, get_u64, storage_get. by rewrite H. Qed.
Lemma read_wq_keeps own i g g' : keeps own g g' -> own 24%nat = true -> read_wq i g' = read_wq i g.
Proof. intros H Hk. unfold read_wq, storage_get. by rewrite (kp_cell _ _ _ H (KWq i)). Qed.

Lemma queue_keeps g g' q : keeps wq_own g g' -> queue_is g q -> queue_is g' q.
Proof.
  intros Hk [Hh Ht Hr He Hb Hp].
  assert (Eh : wq_head g' = wq_head g) by by apply (ld64_keeps _ _ _ _ _ Hk).
  assert (Et : wq_tail g' = wq_tail g) by by apply (ld64_keeps _ _ _ _ _ Hk).
  split; rewrite ?Eh, ?Et; try done; intros i; intros; rewrite (read_wq_keeps _ _ _ _ Hk) by done; auto.
Qed.

Lemma read_write_wq i a o e g :
  length a = 32%nat -> in_u128 o -> in_u64 e -> read_wq i (write_wq i a o e g) = Some (a, o, e).
Proof.
  intros Ha Ho He. unfold read_wq, write_wq, storage_get, storage_set. cbn [g_storage].
  rewrite lookup_insert_eq. unfold mbind, option_bind.
  rewrite !length_app, (length_le_bytes 16), (length_le_bytes 8), Ha. simpl Nat.ltb. cbn iota. unfold slice.
  rewrite (take_app_length' a) by done. rewrite (drop_app_length' a) by done.
  rewrite (take_app_length' (le_bytes 16 o)) by by rewrite length_le_bytes.
  rewrite app_assoc, drop_app_length' by by rewrite length_app, length_le_bytes, Ha.
  rewrite firstn_all2 by by rewrite length_le_bytes.
  by rewrite from_le_u128, from_le_u64.
Qed.
Lemma read_wq_other i j b g : in_u64 i -> in_u64 j -> i <> j ->
  read_wq j (storage_set (key (KWq i)) b g) = read_wq j g.
Proof.
  intros Hi Hj Hn. unfold read_wq, storage_get. simpl.
  rewrite lookup_insert_ne; [done|]. by apply (key_separate (KWq i) (KWq j)).
Qed.

Lemma ld64_same_u64 k v g : in_u64 v -> ld64 0 k (st64 k v g) = v.
Proof. intros [? ?]. rewrite ld64_same. apply Z.mod_small. unfold u64_max in *. lia. Qed.

Lemma read_wq_st64 j k v g : family k <> 24%nat -> read_wq j (st64 k v g) = read_wq j g.
Proof.
  intros Hk. apply (read_wq_keeps (fun n => (n =? 24)%nat)); [|done]. apply keeps_set; [|reflexivity].
  by apply Nat.eqb_neq.
Qed.

(** A request goes to the end of the queue. *)
Lemma queue_push g q a o e :
  queue_is g q -> length a = 32%nat -> in_u128 o -> 0 < o -> 0 <= e <= u64_max / 100 ->
  wq_tail g + 1 < u64_max ->
  let g' := st64 KWqTail (wq_tail g + 1) (write_wq (wq_tail g) a o e g) in
  queue_is g' (q ++ [(a, o, e)]) /\ read_wq (wq_tail g) g' = Some (a, o, e).
Proof.
  intros [Hh Ht Hr He Hb Hp] Ha Ho Ho' Hep Hroom. set (t := wq_tail g) in *.
  assert (Hu : in_u64 t) by (unfold in_u64; lia).
  assert (Hread : read_wq t (st64 KWqTail (t + 1) (write_wq t a o e g)) = Some (a, o, e)).
  { rewrite <- (read_write_wq t a o e g); try done.
    - by apply read_wq_st64.
    - unfold in_u64. assert (u64_max / 100 <= u64_max) by (apply Z.leb_le; reflexivity). lia. }
  intros g'. split; [|done].
  assert (Eh : wq_head g' = wq_head g)
    by (apply (ld64_keeps (fun n => (n =? 13)%nat)); [unfold g', st64, set_u64, write_wq; keeps|done]).
  assert (Et : wq_tail g' = t + 1) by (apply ld64_same_u64; unfold in_u64; lia).
  split; rewrite ?Eh, ?Et; try lia.
  - rewrite length_app. simpl. lia.
  - intros i x Hi. apply lookup_app_Some in Hi as [Hi|[Hle Hi]].
    + pose proof (lookup_lt_Some _ _ _ Hi). rewrite <- (He i x Hi). unfold g'. rewrite read_wq_st64 by done.
      apply (read_wq_other t); unfold in_u64 in *; lia.
    + apply list_lookup_singleton_Some in Hi as [Hz <-]. replace (wq_head g + Z.of_nat i) with t by lia. done.
  - intros i Hi. unfold g'. rewrite read_wq_st64 by done. rewrite <- (Hb i) by lia.
    apply (read_wq_other t); unfold in_u64 in *; lia.
  - intros b p c [Hin|Hin%list_elem_of_singleton]%elem_of_app; [exact (Hp b p c Hin)|]. by simplify_eq.
Qed.

(** A settled request leaves the front. *)
Lemma queue_pop g x q :
  queue_is g (x :: q) -> queue_is (st64 KWqHead (wq_head g + 1) (clear_wq (wq_head g) g)) q.
Proof.
  intros [Hh Ht Hr He Hb Hp]. set (h := wq_head g) in *. simpl in Ht.
  set (g' := st64 _ _ _).
  assert (Et : wq_tail g' = wq_tail g)
    by (apply (ld64_keeps (fun n => (n =? 14)%nat)); [unfold g', st64, set_u64, clear_wq; keeps|done]).
  assert (Eh : wq_head g' = h + 1) by (apply ld64_same_u64; unfold in_u64; lia).
  split; rewrite ?Eh, ?Et; try lia.
  - intros i e Hi. pose proof (lookup_lt_Some _ _ _ Hi). rewrite <- (He (S i) e Hi).
    replace (h + 1 + Z.of_nat i) with (h + Z.of_nat (S i)) by lia. unfold g'. rewrite read_wq_st64 by done.
    apply (read_wq_other h); unfold in_u64; lia.
  - intros i Hi. unfold g'. rewrite read_wq_st64 by done. rewrite <- (Hb i) by lia.
    apply (read_wq_other h); unfold in_u64 in *; lia.
  - intros a o e Hin. apply (Hp a o e). by apply list_elem_of_further.
Qed.

(** ** What a call does to the queue *)

(** A turn of the queue and what is paid out: nothing happens, a request of the
    caller is queued, or the front is settled after the unbonding time, in full by
    anyone or, by the owner, with what the buffer holds. *)
Inductive turn (f : Frame) (g g' : Guest) : list Entry -> list Entry -> Prop :=
| TStay q : wq_head g' = wq_head g -> wq_tail g' = wq_tail g -> g_transfers g' = [] -> turn f g g' q q
| TPush q o :
    wq_head g' = wq_head g -> wq_tail g' = wq_tail g + 1 -> g_transfers g' = [] ->
    read_wq (wq_tail g) g' = Some (f_caller f, o, current_epoch f) ->
    turn f g g' q (q ++ [(f_caller f, o, current_epoch f)])
| TPop q a o e paid :
    wq_head g' = wq_head g + 1 -> wq_tail g' = wq_tail g -> e + UNBONDING_EPOCHS + 1 <= current_epoch f ->
    (paid = o \/ (is_owner f g = true /\ paid = Z.min (ld128 KBuffer g) o)) ->
    g_transfers g' = (if 0 <? paid then [(a, paid)] else []) ->
    turn f g g' ((a, o, e) :: q) q.

Definition quiet_method (m : Method) : bool :=
  match m with MRequestWithdrawal | MClaimWithdrawal | MSettleShortfall => false | _ => true end.

Lemma keeps_sync_wq f g : keeps wq_own g (sync_rewards f g).
Proof. by apply keeps_sync. Qed.

Ltac wq_keeps := repeat first
  [ reflexivity
  | apply keeps_sync_wq
  | apply keeps_emit
  | apply keeps_set; [reflexivity|]
  | match goal with
    | H : queue_call _ _ _ _ = Some ?g |- keeps _ _ ?g => apply (keeps_queue _ _ _ _ _ _ _ H)
    end ].

Lemma keeps_pick_wq a g g' op : pick_operator a g = (g', op) -> keeps wq_own g g'.
Proof. intros H. pose proof (keeps_pick wq_own eq_refl a g) as Hp. by rewrite H in Hp. Qed.

Ltac keeps_open := unfold move_balance, set_balance, set_total_supply, set_total_pooled, set_op_stake,
  set_pending_undelegate, set_inflight, write_wq, clear_wq, st64, st128, set_u64, set_u128 in *.

Lemma quiet_deposit f g g' r : do_deposit f g = (g', Returned r) -> keeps wq_own g g'.
Proof.
  unfold do_deposit, deposit_mint. intros H. repeat case_match; simplify_eq; try reflexivity;
    keeps_open; wq_keeps;
    match goal with E : pick_operator _ _ = _ |- _ => apply keeps_pick_wq in E; etransitivity; [|exact E] end;
    wq_keeps.
Qed.

Lemma quiet_recompound f g g' r : do_recompound_rewards f g = (g', Returned r) -> keeps wq_own g g'.
Proof.
  unfold do_recompound_rewards. intros H. repeat case_match; simplify_eq; try reflexivity;
    try apply keeps_sync_wq.
  match goal with E : pick_operator _ _ = _ |- _ => apply keeps_pick_wq in E; rename E into Hpick end.
  keeps_open; wq_keeps. etransitivity; [apply keeps_sync_wq|exact Hpick].
Qed.

Lemma quiet_crank f g g' r : do_crank_undelegations f g = (g', Returned r) -> keeps wq_own g g'.
Proof.
  unfold do_crank_undelegations, walk_matured_log. intros H.
  set (g0 := sync_rewards f g) in *. assert (H0 : keeps wq_own g g0) by apply keeps_sync_wq.
  pose proof (keeps_walk wq_own eq_refl eq_refl (Z.to_nat (ld64 0 KUnTail g0 - ld64 0 KUnHead g0))
    true (current_epoch f) (ld64 0 KUnHead g0) 0 (ld64 0 KUnHead g0) g0) as Hw.
  destruct (walk_log _ _ _ _ _ _ _) as [[g1 matured] hd]. simpl in Hw.
  repeat case_match; simplify_eq;
    match goal with E : crank_loop _ _ _ _ _ = Some _ |- _ =>
      apply (keeps_crank wq_own eq_refl eq_refl eq_refl eq_refl eq_refl) in E; simpl in E;
      apply keeps_emit; etransitivity; [|exact E] end;
    keeps_open; wq_keeps; (etransitivity; [exact H0|exact Hw]).
Qed.

Lemma quiet_method_keeps m f args g g' d :
  quiet_method m = true -> dispatch m f args g = (g', Returned d) -> keeps wq_own g g'.
Proof.
  intros Hm H. destruct m; try discriminate Hm; cbn [dispatch] in H;
    (try by injection H as <- <-);
    eauto using quiet_deposit, quiet_recompound, quiet_crank;
    try (unfold do_poke in H; simplify_eq; by apply keeps_sync_wq);
    revert H;
    unfold do_init, do_transfer, do_transfer_from, do_approve, do_balance_of, do_allowance, do_total_supply,
      do_set_operator, do_remove_operator, do_admin_set_op_count, do_set_op_cap_bps, do_set_protocol_fee_bps,
      do_set_treasury, do_set_slash_oracle, do_pause, do_unpause, do_report_slash,
      do_exchange_rate, do_pending_undelegate_op_of, do_op_stake_of, do_withdrawal_at,
      do_pending_withdrawals_of, owner_only;
    intros H; repeat case_match; simplify_eq; keeps_open; wq_keeps.
Qed.

Lemma keeps_turn f g g' q : keeps wq_own g g' -> g_transfers g = [] -> turn f g g' q q.
Proof.
  intros Hk Hp. apply TStay; [by apply (ld64_keeps _ _ _ _ _ Hk)..|]. by rewrite (kp_pay _ _ _ Hk).
Qed.

Record caller_ok (f : Frame) : Prop := {
  co_frame : frame_ok f;
  co_length : length (f_caller f) = 32%nat;
  co_height : in_u64 (f_height f);
}.

Lemma epoch_range f : caller_ok f -> 0 <= current_epoch f <= u64_max / 100.
Proof.
  intros [_ _ [H0 H1]]. unfold current_epoch, EPOCH_LENGTH_BLOCKS.
  split; [apply Z.div_pos; lia|apply Z.div_le_mono; lia].
Qed.

Definition turns (f : Frame) (g g' : Guest) (q : list Entry) : Prop :=
  exists q', queue_is g' q' /\ turn f g g' q q'.

Lemma keeps_turns f g g' q : keeps wq_own g g' -> g_transfers g = [] -> queue_is g q -> turns f g g' q.
Proof. intros Hk Hp Hq. exists q. split; [by apply (queue_keeps g)|by apply keeps_turn]. Qed.

Lemma owed_range b m : money_ok m -> 0 <= b -> m_supply m <> 0 -> in_u128 (m_owed b m).
Proof.
  intros Hok Hb Hz. pose proof (ok_supply m Hok) as [Hs _]. pose proof (ok_pool m Hok) as [Hp _].
  unfold m_owed, sat_mul128, u128_max. assert (0 <= Z.min (b * m_pool m) (2 ^ 128 - 1) <= 2 ^ 128 - 1) by nia.
  split; [apply Z.div_pos; lia|]. unfold u128_max. apply Z.div_le_upper_bound; nia.
Qed.

Lemma queue_emit t d g q : queue_is g q -> queue_is (emit t d g) q.
Proof. intros H. apply (queue_keeps g); [|done]. by apply keeps_emit. Qed.

Lemma push_turns f g g1 o t d q :
  caller_ok f -> in_u128 o -> o <> 0 -> g_transfers g = [] -> wq_tail g + 1 < u64_max ->
  queue_is g q -> keeps wq_own g g1 ->
  turns f g (emit t d (st64 KWqTail (u64_add (ld64 0 KWqTail g1) 1)
    (write_wq (ld64 0 KWqTail g1) (f_caller f) o (current_epoch f) g1))) q.
Proof.
  intros Hf Ho Hz Hp Hroom Hq Hk. pose proof (queue_keeps g g1 q Hk Hq) as Hq1.
  assert (Et : wq_tail g1 = wq_tail g) by by apply (ld64_keeps _ _ _ _ _ Hk).
  assert (Eh : wq_head g1 = wq_head g) by by apply (ld64_keeps _ _ _ _ _ Hk).
  pose proof (qi_head _ _ Hq). pose proof (qi_tail _ _ Hq).
  fold (wq_tail g1). rewrite u64_add_exact by (rewrite Et; lia).
  destruct (queue_push g1 q (f_caller f) o (current_epoch f)) as [Hq' Hread]; try done;
    [apply Hf|destruct Ho; lia|by apply epoch_range|lia|].
  eexists. split; [by apply queue_emit|]. apply TPush.
  - rewrite <- Eh. unfold wq_head. apply (ld64_keeps (fun n => (n =? 13)%nat)); [keeps_open; keeps|done].
  - rewrite Et. apply ld64_same_u64. unfold in_u64. lia.
  - simpl. rewrite (kp_pay _ _ _ Hk). done.
  - rewrite <- Et. done.
Qed.

Lemma request_turns f args g g' d q :
  caller_ok f -> byte_list args -> money_ok (money g) -> g_transfers g = [] -> wq_tail g + 1 < u64_max ->
  queue_is g q -> do_request_withdrawal f args g = (g', Returned d) -> turns f g g' q.
Proof.
  intros Hf Ha Hok Hp Hroom Hq. unfold do_request_withdrawal. intros H.
  assert (Hok1 : money_ok (money (sync_rewards f g))) by (apply (sync_rewards_synced f g Hok), Hf).
  repeat case_match; simplify_eq; try solve [apply keeps_turns; [wq_keeps|done..]].
  all: match goal with E : arg_u128 _ _ = Some ?b |- _ => pose proof (arg_u128_nonneg _ _ _ Ha E);
         assert (Ho : in_u128 (m_owed b (money (sync_rewards f g)))) by (apply owed_range; [done..|];
           rewrite <- get_supply_money; lia) end;
    match goal with E : allocate ?a ?b ?c ?d ?e ?g = _ |- _ =>
      pose proof (keeps_allocate wq_own eq_refl a b c d e g) as Hal; rewrite E in Hal; simpl in Hal end;
    apply push_turns; try done; try lia; keeps_open; wq_keeps; (etransitivity; [|exact Hal]); wq_keeps.
Qed.

(** The state after a payout. *)
Definition paying (ps : list (AccountId * u128)) (g : Guest) : Guest :=
  mkGuest (g_storage g) (g_events g) (g_calls g) (g_transfers g ++ ps).

Lemma paying_nil g : paying [] g = g.
Proof. unfold paying. rewrite app_nil_r. by destruct g. Qed.
Lemma keeps_transfer own t a g g1 g' :
  sdk_transfer t a g1 = Some g' -> keeps own g g1 -> keeps own (paying [(t, a)] g) g' /\ 0 <> a.
Proof.
  unfold sdk_transfer. destruct (_ || _) eqn:E; [done|]. intros [= <-] [H P].
  rewrite orb_false_iff in E. split; [|lia]. split; [done|]. simpl. by rewrite P.
Qed.

Lemma pop_turns f g g2 a o e q paid t d :
  queue_is g ((a, o, e) :: q) -> g_transfers g = [] ->
  u64_add (u64_add e UNBONDING_EPOCHS) 1 <= current_epoch f ->
  (paid = o \/ (is_owner f g = true /\ paid = Z.min (ld128 KBuffer g) o)) ->
  keeps wq_own (paying (if 0 <? paid then [(a, paid)] else []) g) g2 ->
  turns f g (emit t d (st64 KWqHead (u64_add (ld64 0 KWqHead g) 1) (clear_wq (ld64 0 KWqHead g) g2)))
    ((a, o, e) :: q).
Proof.
  intros Hq Hp He Hpaid Hk.
  assert (Hq2 : queue_is g2 ((a, o, e) :: q)) by (eapply queue_keeps; [exact Hk|by destruct Hq]).
  assert (Et : wq_tail g2 = wq_tail g) by by apply (ld64_keeps _ _ _ _ _ Hk).
  assert (Eh : wq_head g2 = wq_head g) by by apply (ld64_keeps _ _ _ _ _ Hk).
  pose proof (qi_head _ _ Hq). pose proof (qi_tail _ _ Hq) as Ht. pose proof (qi_room _ _ Hq). simpl in Ht.
  destruct (qi_epoch _ _ Hq a o e) as [Hep _]; [by left|].
  assert (u64_max / 100 + 8 <= u64_max) by (apply Z.leb_le; reflexivity).
  unfold UNBONDING_EPOCHS in He. rewrite (u64_add_exact e 7), u64_add_exact in He by lia.
  fold (wq_head g). rewrite <- Eh, u64_add_exact by (rewrite Eh; lia).
  exists q. split; [apply queue_emit, queue_pop with (1 := Hq2)|].
  apply (TPop f g _ q a o e paid); [| |unfold UNBONDING_EPOCHS; lia|done|].
  - rewrite <- Eh. apply ld64_same_u64. unfold in_u64. lia.
  - rewrite <- Et. apply (ld64_keeps (fun n => (n =? 14)%nat)); [keeps_open; keeps|done].
  - simpl. rewrite (kp_pay _ _ _ Hk). simpl. by rewrite Hp.
Qed.

(** The entry at the head of the cells is the front of the list. *)
Lemma queue_front g q x : queue_is g q -> read_wq (wq_head g) g = Some x -> exists q', q = x :: q'.
Proof.
  intros Hq Hx. pose proof (qi_tail _ _ Hq). pose proof (qi_room _ _ Hq). destruct q as [|y q'].
  - simpl in *. rewrite (qi_beyond _ _ Hq) in Hx by lia. done.
  - pose proof (qi_entry _ _ Hq 0%nat y eq_refl) as He. rewrite Z.add_0_r, Hx in He. simplify_eq. eauto.
Qed.

Lemma claim_turns f args g g' d q :
  g_transfers g = [] -> queue_is g q -> do_claim_withdrawal f args g = (g', Returned d) -> turns f g g' q.
Proof.
  intros Hp Hq. unfold do_claim_withdrawal. intros H.
  repeat case_match; simplify_eq; try solve [apply keeps_turns; [wq_keeps|done..]].
  rewrite negb_false_iff, Z.eqb_eq in *. subst.
  match goal with E : read_wq _ _ = Some _ |- _ => destruct (queue_front g q _ Hq E) as [q' ->] end.
  destruct (qi_epoch _ _ Hq _ _ _ (list_elem_of_here _ _)) as [_ Hpos].
  match goal with E : sdk_transfer _ _ _ = Some _ |- _ =>
    destruct (keeps_transfer wq_own _ _ _ _ _ E (keeps_sync_wq f g)) as [Hk _] end.
  eapply pop_turns; [done|done|lia|by left|]. rewrite (proj2 (Z.ltb_lt _ _) Hpos).
  keeps_open. wq_keeps. exact Hk.
Qed.

Lemma settle_turns f args g g' d q :
  g_transfers g = [] -> queue_is g q -> do_settle_shortfall f args g = (g', Returned d) -> turns f g g' q.
Proof.
  intros Hp Hq. unfold do_settle_shortfall, owner_only. intros H.
  repeat case_match; simplify_eq; try solve [apply keeps_turns; [wq_keeps|done..]].
  all: rewrite negb_false_iff, Z.eqb_eq in *; subst;
    match goal with E : read_wq _ _ = Some _ |- _ => destruct (queue_front g q _ Hq E) as [q' ->] end;
    eapply pop_turns; [done|done|lia|right; split; [done|reflexivity]|];
    match goal with E : (0 <? _) = _ |- _ => rewrite E end; rewrite ?paying_nil; keeps_open; wq_keeps.
  match goal with E : sdk_transfer _ _ _ = Some _ |- _ =>
    by destruct (keeps_transfer wq_own _ _ _ _ _ E (keeps_sync_wq f g)) end.
Qed.

(** ** Runs *)

Lemma queue_fresh g q : queue_is g q -> queue_is (fresh g) q.
Proof. by intros []. Qed.

Lemma turns_fresh f g g' q : turns f (fresh g) g' q -> turns f g g' q.
Proof. intros (q' & Hq & Ht). exists q'. split; [done|]. destruct Ht; by econstructor. Qed.

Lemma invoke_turns f input g q :
  caller_ok f -> byte_list input -> money_ok (money g) -> wq_tail g + 1 < u64_max -> queue_is g q ->
  turns f g (invoke f input g) q.
Proof.
  intros Hf Hi Hok Hroom Hq%queue_fresh. apply turns_fresh.
  unfold invoke, call. pose proof (split_zero_bytes _ Hi) as Ha.
  destruct (split_zero input) as [name args]. simpl in Ha.
  destruct (method_of name) as [m|]; [|by apply keeps_turns].
  destruct (dispatch m f args (fresh g)) as [g' [d|]] eqn:Ed; [|by apply keeps_turns].
  destruct (quiet_method m) eqn:Em; [apply keeps_turns; try done; by apply (quiet_method_keeps m f args _ _ d)|].
  destruct m; try discriminate Em; cbn [dispatch] in Ed.
  - by apply (request_turns f args (fresh g) g' d).
  - by apply (claim_turns f args (fresh g) g' d).
  - by apply (settle_turns f args (fresh g) g' d).
Qed.

(** What an observer sees of the calls: the entries that join the queue, those
    that leave it with the transfers of that call, and all transfers. *)
Definition joined (g g' : Guest) : list Entry :=
  if wq_tail g' =? wq_tail g then [] else option_list (read_wq (wq_tail g) g').
Definition left_queue (g g' : Guest) : list (Entry * list (AccountId * u128)) :=
  if wq_head g' =? wq_head g then [] else (fun e => (e, g_transfers g')) <$> option_list (read_wq (wq_head g) g).

Fixpoint requested (calls : list (Frame * bytes)) (g : Guest) : list Entry :=
  match calls with
  | [] => []
  | (f, input) :: calls => let g' := invoke f input g in joined g g' ++ requested calls g'
  end.
Fixpoint settled (calls : list (Frame * bytes)) (g : Guest) : list (Entry * list (AccountId * u128)) :=
  match calls with
  | [] => []
  | (f, input) :: calls => let g' := invoke f input g in left_queue g g' ++ settled calls g'
  end.
Fixpoint transfers (calls : list (Frame * bytes)) (g : Guest) : list (AccountId * u128) :=
  match calls with
  | [] => []
  | (f, input) :: calls => let g' := invoke f input g in g_transfers g' ++ transfers calls g'
  end.

(** The claimant of the entry is paid, and no more than is owed. *)
Definition paid_to_claimant (s : Entry * list (AccountId * u128)) : Prop :=
  let '((a, o, _), ps) := s in ps = [] \/ exists p, 0 < p <= o /\ ps = [(a, p)].

Lemma turn_observed f g g' q q' :
  queue_is g q -> turn f g g' q q' ->
  q ++ joined g g' = map fst (left_queue g g') ++ q' /\
  Forall paid_to_claimant (left_queue g g') /\
  g_transfers g' = concat (map snd (left_queue g g')).
Proof.
  intros Hq Ht. unfold joined, left_queue.
  destruct Ht as [q Hh Ht Hp|q o Hh Ht Hp Hr|q a o e paid Hh Ht He Hpaid Hp].
  - rewrite Hh, Ht, !Z.eqb_refl, Hp. simpl. by rewrite app_nil_r.
  - rewrite Hh, Ht, Z.eqb_refl, Hp, Hr. replace (_ =? _) with false by lia. simpl. done.
  - rewrite Hh, Ht, Z.eqb_refl. replace (_ =? _) with false by lia.
    pose proof (qi_entry _ _ Hq 0%nat _ eq_refl) as H0. rewrite Z.add_0_r in H0. rewrite H0. simpl.
    rewrite !app_nil_r. split; [done|]. split; [|done]. constructor; [|constructor]. rewrite Hp.
    destruct (Z.ltb_spec 0 paid); [right; exists paid; split; [lia|done]|by left].
Qed.

Definition call_ok (c : Frame * bytes) : Prop := caller_ok (fst c) /\ byte_list (snd c).

Lemma turn_tail f g g' q q' : turn f g g' q q' -> wq_tail g' <= wq_tail g + 1.
Proof. intros []; lia. Qed.

Lemma invoke_money_ok f input g :
  frame_ok f -> byte_list input -> money_ok (money g) -> money_ok (money (invoke f input g)).
Proof.
  intros Hf Hi Hok. assert (Hc : called g (invoke f input g)) by by exists f, input.
  by destruct (ledger_move_ok _ _ (called_moves _ _ Hc Hok) Hok).
Qed.

Lemma run_observed calls g q :
  Forall call_ok calls -> money_ok (money g) -> wq_tail g + Z.of_nat (length calls) < u64_max -> queue_is g q ->
  q ++ requested calls g = map fst (settled calls g) ++ waiting (play calls g) /\
  Forall paid_to_claimant (settled calls g) /\
  transfers calls g = concat (map snd (settled calls g)).
Proof.
  revert g q. induction calls as [|[f input] calls IH]; intros g q Hc Hok Hroom Hq.
  - simpl. by rewrite (queue_waiting g q Hq), app_nil_r.
  - apply Forall_cons in Hc as [[Hf Hi] Hc]. cbn [length fst snd] in *.
    destruct (invoke_turns f input g q Hf Hi Hok ltac:(lia) Hq) as (q' & Hq' & Ht).
    destruct (turn_observed f g _ q q' Hq Ht) as (E1 & E2 & E3). pose proof (turn_tail _ _ _ _ _ Ht).
    destruct (IH (invoke f input g) q') as (I1 & I2 & I3); [done|apply invoke_money_ok; [apply Hf|done..]|lia|done|].
    cbn [requested settled transfers play]. split; [|split].
    + by rewrite app_assoc, E1, <- app_assoc, I1, map_app, app_assoc.
    + by apply Forall_app.
    + by rewrite E3, I3, map_app, concat_app.
Qed.

Lemma genesis_queue : queue_is genesis_guest [].
Proof.
  split; try done.
  intros a o e H. by apply not_elem_of_nil in H.
Qed.

(** Withdrawals are first in, first out. Along any sequence of calls from an
    empty storage, whatever the inputs, provided that the fuel of every call pays
    for all its host calls, the requests that joined the queue are, in
    order, those that were settled followed by those that wait; a settled request
    pays its claimant and at most what is owed; and the contract transfers SOLEN in
    no other case. *)
Theorem withdrawals_fifo calls :
  Forall call_ok calls -> Z.of_nat (length calls) < u64_max ->
  requested calls genesis_guest
    = map fst (settled calls genesis_guest) ++ waiting (play calls genesis_guest)
  /\ Forall paid_to_claimant (settled calls genesis_guest)
  /\ transfers calls genesis_guest = concat (map snd (settled calls genesis_guest)).
Proof.
  intros Hc Hl. apply (run_observed calls genesis_guest []); [done|apply genesis_ok|done|apply genesis_queue].
Qed.

(** ** Concrete runs *)

Definition call_okb (c : Frame * bytes) : bool :=
  let '(f, input) := c in
  bytesb input && (length (f_caller f) =? 32)%nat && (0 <=? f_height f) && (f_height f <=? u64_max)
  && (0 <=? f_self_balance f) && (f_self_balance f <=? u128_max)
  && (0 <=? f_msg_value f) && (f_msg_value f <=? u128_max).
Lemma call_okb_true c : call_okb c = true -> call_ok c.
Proof.
  destruct c as [f input]. unfold call_okb. rewrite !andb_true_iff, !Z.leb_le, Nat.eqb_eq. intros H.
  split; simpl; [|apply bytesb_true, H]. split; [split; unfold in_u128; lia|apply H|unfold in_u64; lia].
Qed.
Lemma calls_okb calls : forallb call_okb calls = true -> Forall call_ok calls.
Proof. rewrite forallb_forall, List.Forall_forall. intros H c Hc. by apply call_okb_true, H. Qed.

(** Two requests and a crank; after the unbonding time a claim that finds the
    buffer empty, a crank that fills it, a claim out of turn and a claim that pays. *)
Definition exit_calls : list (Frame * bytes) :=
  setup_calls 2 ++ deposit_calls ++
  [(mkFrame alice_id 100 0 10000, input_of "request_withdrawal" (le_bytes 16 300000));
   (mkFrame alice_id 200 0 10000, input_of "request_withdrawal" (le_bytes 16 200000));
   (mkFrame bob_id 300 0 10000, input_of "crank_undelegations" []);
   (mkFrame bob_id 1000 0 10000, input_of "claim_withdrawal" (le_bytes 8 0));
   (mkFrame bob_id 1000 0 10000, input_of "crank_undelegations" []);
   (mkFrame bob_id 1100 0 510000, input_of "claim_withdrawal" (le_bytes 8 1));
   (mkFrame bob_id 1100 0 510000, input_of "claim_withdrawal" (le_bytes 8 0))].

Lemma withdrawals_fifo_witness :
  Forall call_ok exit_calls
  /\ requested exit_calls genesis_guest = [(alice_id, 300000, 1); (alice_id, 200000, 2)]
  /\ requested exit_calls genesis_guest
      = map fst (settled exit_calls genesis_guest) ++ waiting (play exit_calls genesis_guest)
  /\ transfers exit_calls genesis_guest = [(alice_id, 300000)].
Proof.
  assert (H : Forall call_ok exit_calls) by (apply calls_okb; vm_compute; reflexivity).
  split; [exact H|]. split; [vm_compute; reflexivity|].
  split; [|vm_compute; reflexivity]. apply (withdrawals_fifo exit_calls H). vm_compute. reflexivity.
Defined.

(** ** The cranker *)

Lemma queue_call_fits t m a g :
  bytes_of_string m <> [] -> (length (bytes_of_string m) <= MAX_METHOD_LEN)%nat ->
  (length a <= MAX_ARGS_LEN)%nat -> (length (g_calls g) < MAX_PENDING_CALLS)%nat ->
  exists g', queue_call t m a g = Some g' /\ length (g_calls g') = S (length (g_calls g)).
Proof.
  intros Hm Hl Ha Hc. unfold queue_call.
  rewrite (proj2 (Nat.ltb_ge MAX_METHOD_LEN _) Hl), (proj2 (Nat.ltb_ge MAX_ARGS_LEN _) Ha),
    (proj2 (Nat.leb_gt MAX_PENDING_CALLS _) Hc).
  destruct (Nat.eqb_spec (length (bytes_of_string m)) 0) as [E|_]; [by apply nil_length_inv in E|].
  eexists. split; [done|]. simpl. rewrite length_app. simpl. lia.
Qed.

Lemma op_at_length i g : length (op_at i g) = 32%nat.
Proof.
  unfold op_at, ld32, read_32, storage_get. destruct (g_storage g !! _) as [b|]; [|done]. unfold mbind, option_bind.
  destruct (Nat.ltb_spec (length b) 32); [done|]. simpl. rewrite length_take. lia.
Qed.
Lemma active_operators_ok n g :
  Forall (fun op : AccountId => length op = 32%nat) (active_operators n g) /\ (length (active_operators n g) <= Z.to_nat n)%nat.
Proof.
  unfold active_operators, slots. split.
  - apply List.Forall_forall. intros op [Hin _]%filter_In. apply in_map_iff in Hin as (i & <- & _). apply op_at_length.
  - etransitivity; [apply filter_length_le|]. by rewrite !length_map, length_seq.
Qed.

Lemma crank_loop_fits ops now p t g :
  Forall (fun op : AccountId => length op = 32%nat) ops ->
  (length (g_calls g) + length ops <= MAX_PENDING_CALLS)%nat ->
  exists r, crank_loop ops now p t g = Some r.
Proof.
  revert p t g. induction ops as [|op ops IH]; intros p t g Ho Hl; [eexists; reflexivity|].
  apply Forall_cons in Ho as [Hop Ho]. simpl in Hl. cbn [crank_loop].
  destruct (_ =? _); [apply IH; [done|lia]|]. destruct (_ <=? _); [apply IH; [done|lia]|].
  destruct (_ =? _); [apply IH; [done|lia]|]. set (g1 := st64 KUnTail _ _).
  destruct (queue_call_fits STAKING_ADDRESS "undelegate"
    (op ++ le_bytes 16 (Z.min (get_pending_undelegate op g) (get_op_stake op g))) g1) as (g2 & -> & Hlen).
  - discriminate.
  - vm_compute. lia.
  - rewrite length_app, length_le_bytes, Hop. vm_compute. lia.
  - change (g_calls g1) with (g_calls g). lia.
  - apply IH; [done|]. rewrite Hlen. change (g_calls g1) with (g_calls g). lia.
Qed.

Lemma sync_calls f g : g_calls (sync_rewards f g) = g_calls g.
Proof. unfold sync_rewards, mint_fee. by repeat case_match. Qed.
Lemma walk_calls fuel cm now sq mt hd g : g_calls (fst (fst (walk_log fuel cm now sq mt hd g))) = g_calls g.
Proof.
  revert sq mt hd g. induction fuel as [|fuel IH]; intros sq mt hd g; [done|]. cbn [walk_log].
  destruct (read_un_log sq g) as [[[e a] o]|]; [|apply IH]. destruct (_ <? _); [done|]. rewrite IH. by destruct cm.
Qed.

Definition count_own (n : nat) : bool := (n =? 9)%nat.
Lemma matured_frame now f g :
  let g' := fst (walk_matured_log now true (sync_rewards f g)) in g_calls g' = g_calls g /\ keeps count_own g g'.
Proof.
  unfold walk_matured_log. set (g0 := sync_rewards f g).
  pose proof (walk_calls (Z.to_nat (ld64 0 KUnTail g0 - ld64 0 KUnHead g0)) true now (ld64 0 KUnHead g0) 0
    (ld64 0 KUnHead g0) g0) as Hw.
  pose proof (keeps_walk count_own eq_refl eq_refl (Z.to_nat (ld64 0 KUnTail g0 - ld64 0 KUnHead g0)) true now
    (ld64 0 KUnHead g0) 0 (ld64 0 KUnHead g0) g0) as Hk.
  destruct (walk_log _ _ _ _ _ _ _) as [[g1 mt] hd]. cbn [fst] in *. split.
  - rewrite <- (sync_calls f g). exact Hw.
  - apply keeps_set; [done|]. etransitivity; [by apply (keeps_sync count_own)|exact Hk].
Qed.
Lemma crank_all f g :
  (length (g_calls g) <= 1)%nat -> ld64 0 KOpCount g <= 15 ->
  exists r, crank_loop (active_operators (ld64 0 KOpCount g) g) (current_epoch f) 0 0 g = Some r.
Proof.
  intros Hl Hn. destruct (active_operators_ok (ld64 0 KOpCount g) g) as [Ho Hlen].
  apply crank_loop_fits; [done|]. change MAX_PENDING_CALLS with 16%nat. lia.
Qed.

(** The cranker always makes progress with up to fifteen operators. For any state
    of the contract with at most fifteen active operator slots,
    [crank_undelegations] returns [ok]: the queue of sixteen calls holds the matured
    withdrawal and one undelegation per operator. *)
Theorem crank_returns f g :
  ld64 0 KOpCount g <= 15 -> snd (do_crank_undelegations f (fresh g)) = ret "ok".
Proof.
  intros Hn. unfold do_crank_undelegations. pose proof (matured_frame (current_epoch f) f (fresh g)) as [Hc Hk].
  destruct (walk_matured_log _ _) as [g1 matured]. cbn [fst] in Hc, Hk. simpl in Hc.
  change (ld64 0 KOpCount (fresh g) <= 15) in Hn. rewrite <- (ld64_keeps _ 0 KOpCount _ _ Hk) in Hn by done.
  destruct (0 <? matured).
  - destruct (queue_call_fits STAKING_ADDRESS "withdraw" [] g1) as (g2 & Eq & Hl2);
      [discriminate|vm_compute; lia|vm_compute; lia|rewrite Hc; vm_compute; lia|]. rewrite Eq.
    rewrite Hc in Hl2. simpl in Hl2. set (g3 := st128 KLastSeen _ _).
    assert (Hk3 : keeps count_own g1 g3) by (unfold g3, st128, set_u128; keeps).
    rewrite <- (ld64_keeps _ 0 KOpCount _ _ Hk3) in Hn by done.
    destruct (crank_all f g3) as [[[g4 p] t] ->]; [change (g_calls g3) with (g_calls g2); lia|done|done].
  - destruct (crank_all f g1) as [[[g3 p] t] ->]; [rewrite Hc; simpl; lia|done|done].
Qed.

Definition owner_frame : Frame := mkFrame owner_id 1 0 0.
(** One deposit per operator, then a withdrawal over all of them. *)
Definition spread_calls (n : nat) : list (Frame * bytes) :=
  setup_calls n ++ replicate n (mkFrame alice_id 10 1000000 1010000, input_of "deposit" [])
  ++ [(mkFrame alice_id 100 0 10000, input_of "request_withdrawal" (le_bytes 16 300000))].

Lemma crank_returns_witness :
  ld64 0 KOpCount (play (spread_calls 15) genesis_guest) <= 15
  /\ snd (do_crank_undelegations (mkFrame bob_id 200 0 10000) (fresh (play (spread_calls 15) genesis_guest)))
     = ret "ok".
Proof.
  assert (H : ld64 0 KOpCount (play (spread_calls 15) genesis_guest) <= 15) by (apply Z.leb_le; vm_compute; reflexivity).
  split; [exact H|]. apply (crank_returns (mkFrame bob_id 200 0 10000) (play (spread_calls 15) genesis_guest) H).
Defined.

(** With seventeen operators the queue is full before the loop ends, and every
    crank traps: the contract admits up to [MAX_OPERATORS]. *)
Theorem crank_traps_with_many_operators :
  ld64 0 KOpCount (play (spread_calls 17) genesis_guest) = 17 /\ 17 <= MAX_OPERATORS
  /\ snd (do_crank_undelegations (mkFrame bob_id 200 0 10000) (fresh (play (spread_calls 17) genesis_guest)))
     = Trapped.
Proof. split; [vm_compute; reflexivity|]. split; [unfold MAX_OPERATORS; lia|vm_compute; reflexivity]. Qed.

(** The round-robin cursor survives a shorter allowlist: with five slots and two
    deposits it points at slot 2; after [set_op_count(2)] the next deposit goes to
    the operator of that slot, which no withdrawal and no crank reaches. *)
Theorem stale_cursor_leaves_allowlist :
  let g := play (setup_calls 5 ++ replicate 2 (mkFrame alice_id 10 1000000 1010000, input_of "deposit" [])
                 ++ [(owner_frame, input_of "set_op_count" (le_bytes 8 2));
                     (owner_frame, input_of "set_op_cap_bps" (le_bytes 8 10000));
                     (mkFrame alice_id 20 1000000 1010000, input_of "deposit" [])]) genesis_guest in
  ld64 0 KOpCount g = 2 /\ op_at 2 g = operator_id 2 /\ get_op_stake (operator_id 2) g = 1000000
  /\ operator_id 2 ∉ active_operators 2 g.
Proof.
  split; [vm_compute; reflexivity|]. split; [vm_compute; reflexivity|]. split; [vm_compute; reflexivity|].
  apply (bool_decide_unpack _). vm_compute. exact I.
Qed.

(** A deposit refused while the contract is paused leaves its SOLEN in the account,
    where the next booking counts it as a reward of all holders. *)
Theorem refused_deposit_becomes_reward :
  let g := play (setup_calls 2 ++ deposit_calls ++ [(owner_frame, input_of "pause" [])]) genesis_guest in
  let f := mkFrame bob_id 20 500000 510000 in
  snd (call f (input_of "deposit" []) (fresh g)) = ret "err:paused"
  /\ get_total_pooled (invoke (mkFrame alice_id 30 0 510000) (input_of "poke" []) (invoke f (input_of "deposit" []) g))
     = get_total_pooled g + 450000.
Proof. split; vm_compute; reflexivity. Qed.
