(* ===== verification/Token.v ===== *)
(** The fungible token of the examples ([examples/contracts/token/src/lib.rs]):
    every entry point over the calls of the contract SDK, the conservation of
    its supply, and what its owner, its users and strangers can do. *)

From S2P Require Import Prelude Types Executor Vm StSolen StSolenLedger.
Open Scope Z_scope.

(** ** Keys *)

(** [key[from..to].copy_from_slice(src)] in an array: [None] is the panic of a
    range outside the array or of another length. *)
Definition copy_into (key : bytes) (from to : nat) (src : bytes) : option bytes :=
  if (from <=? to)%nat && (to <=? length key)%nat && (length src =? to - from)%nat
  then Some (take from key ++ src ++ drop to key) else None.

Definition balance_key (account : AccountId) : bytes := bytes_of_string "bal/" ++ account.
Definition allowance_key (owner spender : AccountId) : option bytes :=
  let key := replicate 70 0 in
  key ← copy_into key 0 6 (bytes_of_string "allow/");
  key ← copy_into key 6 38 owner;
  key ← copy_into key 38 39 (bytes_of_string "/");
  copy_into key 39 71 spender.

(** ** Storage *)

Definition tok_balance (account : AccountId) (g : Guest) : u128 := default 0 (get_u128 (balance_key account) g).
Definition tok_set_balance (account : AccountId) (amount : u128) (g : Guest) : Guest :=
  set_u128 (balance_key account) amount g.
(** [None] where the key panics. *)
Definition get_allowance (owner spender : AccountId) (g : Guest) : option u128 :=
  key ← allowance_key owner spender; Some (default 0 (get_u128 key g)).
Definition set_allowance (owner spender : AccountId) (amount : u128) (g : Guest) : option Guest :=
  key ← allowance_key owner spender; Some (set_u128 key amount g).
Definition tok_supply (g : Guest) : u128 := default 0 (get_u128 (bytes_of_string "total_supply") g).
Definition tok_set_supply (supply : u128) (g : Guest) : Guest := set_u128 (bytes_of_string "total_supply") supply g.
Definition get_owner (g : Guest) : AccountId :=
  match storage_get (bytes_of_string "owner") g with
  | Some data => if (32 <=? length data)%nat then take 32 data else replicate 32 0
  | None => replicate 32 0
  end.
Definition set_owner (owner : AccountId) (g : Guest) : Guest := storage_set (bytes_of_string "owner") owner g.

(** ** Arguments *)

Definition read_account (args : bytes) (offset : nat) : option AccountId :=
  if (length args <? offset + 32)%nat then None else Some (slice offset 32 args).
Definition read_u128 (args : bytes) (offset : nat) : option u128 :=
  if (length args <? offset + 16)%nat then None else Some (from_le (slice offset 16 args)).

(** The text of the interface, with its quotation marks. *)
Definition quoted (s : string) : bytes := map (fun c => if c =? 39 then 34 else c) (bytes_of_string s).
Definition abi_text : bytes := quoted "{
'methods':[
{'name':'init','args':'name_len[1]+name[]+symbol_len[1]+symbol[]','mutates':true},
{'name':'mint','args':'to[32]+amount[16]','mutates':true},
{'name':'transfer','args':'to[32]+amount[16]','mutates':true},
{'name':'approve','args':'spender[32]+amount[16]','mutates':true},
{'name':'transfer_from','args':'from[32]+to[32]+amount[16]','mutates':true},
{'name':'balance_of','args':'account[32]','mutates':false},
{'name':'allowance','args':'owner[32]+spender[32]','mutates':false},
{'name':'total_supply','args':'','mutates':false},
{'name':'name','args':'','mutates':false},
{'name':'symbol','args':'','mutates':false},
{'name':'decimals','args':'','mutates':false},
{'name':'owner','args':'','mutates':false}
],
'events':[
{'topic':'initialized','data':'owner[32]'},
{'topic':'mint','data':'to[32]+amount[16]'},
{'topic':'transfer','data':'to[32]+amount[16]'},
{'topic':'approval','data':'amount[16]'}
]
}".

(** ** Methods *)

(** The name and the symbol, each with its length in front. *)
Definition init_metadata (args : bytes) (g : Guest) : Guest :=
  if (2 <=? length args)%nat then
    let name_len := Z.to_nat (nth 0 args 0) in
    if (1 + name_len + 1 <=? length args)%nat then
      let g := storage_set (bytes_of_string "name") (slice 1 name_len args) g in
      let sym_start := (1 + name_len)%nat in
      let sym_len := Z.to_nat (nth sym_start args 0) in
      if (sym_start + 1 + sym_len <=? length args)%nat
      then storage_set (bytes_of_string "symbol") (slice (sym_start + 1) sym_len args) g
      else g
    else g
  else g.

Definition tok_init (f : Frame) (args : bytes) (g : Guest) : Guest * Reply :=
  let caller := f_caller f in
  let g := set_owner caller g in
  let g := init_metadata args g in
  let g := storage_set (bytes_of_string "decimals") [8] g in
  (emit "initialized" caller g, ret "ok").

Definition tok_name (g : Guest) : Guest * Reply := (g, Returned (default [] (storage_get (bytes_of_string "name") g))).
Definition tok_symbol (g : Guest) : Guest * Reply :=
  (g, Returned (default [] (storage_get (bytes_of_string "symbol") g))).
Definition tok_decimals (g : Guest) : Guest * Reply :=
  (g, Returned (default [8] (storage_get (bytes_of_string "decimals") g))).
Definition tok_owner (g : Guest) : Guest * Reply := (g, Returned (get_owner g)).

Definition do_mint (f : Frame) (args : bytes) (g : Guest) : Guest * Reply :=
  if negb (bytes_eqb (f_caller f) (get_owner g)) then (g, ret "err:unauthorized")
  else
  let* to := read_account args 0 else g, ret "err:invalid_args" in
  let* amount := read_u128 args 32 else g, ret "err:invalid_args" in
  let bal := tok_balance to g in
  let g := tok_set_balance to (u128_add bal amount) g in
  let g := tok_set_supply (u128_add (tok_supply g) amount) g in
  (emit "mint" (to ++ le_bytes 16 amount) g, Returned (le_bytes 16 (u128_add bal amount))).

(** The two updates of a transfer; the second reads what the first wrote. *)
Definition tok_move (from to : AccountId) (from_balance amount : u128) (g : Guest) : Guest :=
  let g := tok_set_balance from (u128_sub from_balance amount) g in
  tok_set_balance to (u128_add (tok_balance to g) amount) g.

Definition tok_transfer (f : Frame) (args : bytes) (g : Guest) : Guest * Reply :=
  let caller := f_caller f in
  let* to := read_account args 0 else g, ret "err:invalid_args" in
  let* amount := read_u128 args 32 else g, ret "err:invalid_args" in
  let from_balance := tok_balance caller g in
  if from_balance <? amount then (g, ret "err:insufficient_balance")
  else
  let g := tok_move caller to from_balance amount g in
  (emit "transfer" (to ++ le_bytes 16 amount) g, ret "ok").

Definition tok_approve (f : Frame) (args : bytes) (g : Guest) : Guest * Reply :=
  let caller := f_caller f in
  let* spender := read_account args 0 else g, ret "err:invalid_args" in
  let* amount := read_u128 args 32 else g, ret "err:invalid_args" in
  let* g := set_allowance caller spender amount g else g, Trapped in
  (emit "approval" (le_bytes 16 amount) g, ret "ok").

Definition tok_transfer_from (f : Frame) (args : bytes) (g : Guest) : Guest * Reply :=
  let caller := f_caller f in
  let* from := read_account args 0 else g, ret "err:invalid_args" in
  let* to := read_account args 32 else g, ret "err:invalid_args" in
  let* amount := read_u128 args 64 else g, ret "err:invalid_args" in
  let* allowed := get_allowance from caller g else g, Trapped in
  if allowed <? amount then (g, ret "err:insufficient_allowance")
  else
  let from_balance := tok_balance from g in
  if from_balance <? amount then (g, ret "err:insufficient_balance")
  else
  let g := tok_move from to from_balance amount g in
  let* g := set_allowance from caller (u128_sub allowed amount) g else g, Trapped in
  (emit "transfer" (to ++ le_bytes 16 amount) g, ret "ok").

Definition tok_balance_of (args : bytes) (g : Guest) : Guest * Reply :=
  let* account := read_account args 0 else g, ret "err:invalid_args" in
  (g, Returned (le_bytes 16 (tok_balance account g))).
Definition tok_allowance (args : bytes) (g : Guest) : Guest * Reply :=
  let* owner := read_account args 0 else g, ret "err:invalid_args" in
  let* spender := read_account args 32 else g, ret "err:invalid_args" in
  let* allowed := get_allowance owner spender g else g, Trapped in
  (g, Returned (le_bytes 16 allowed)).
Definition tok_total_supply (g : Guest) : Guest * Reply := (g, Returned (le_bytes 16 (tok_supply g))).

(** ** Entry point *)

Inductive TokenMethod : Type :=
| TAbi | TInit | TMint | TTransfer | TApprove | TTransferFrom | TBalanceOf | TAllowance | TTotalSupply
| TName | TSymbol | TDecimals | TOwner.

Definition TOKEN_METHODS : list (string * TokenMethod) := [
  ("abi", TAbi); ("init", TInit); ("mint", TMint); ("transfer", TTransfer); ("approve", TApprove);
  ("transfer_from", TTransferFrom); ("balance_of", TBalanceOf); ("allowance", TAllowance);
  ("total_supply", TTotalSupply); ("name", TName); ("symbol", TSymbol); ("decimals", TDecimals); ("owner", TOwner)
]%string.

Definition token_method (name : bytes) : option TokenMethod :=
  snd <$> List.find (fun e => bytes_eqb (bytes_of_string (fst e)) name) TOKEN_METHODS.

Definition token_dispatch (m : TokenMethod) (f : Frame) (args : bytes) (g : Guest) : Guest * Reply :=
  match m with
  | TAbi => (g, Returned abi_text)
  | TInit => tok_init f args g
  | TMint => do_mint f args g
  | TTransfer => tok_transfer f args g
  | TApprove => tok_approve f args g
  | TTransferFrom => tok_transfer_from f args g
  | TBalanceOf => tok_balance_of args g
  | TAllowance => tok_allowance args g
  | TTotalSupply => tok_total_supply g
  | TName => tok_name g
  | TSymbol => tok_symbol g
  | TDecimals => tok_decimals g
  | TOwner => tok_owner g
  end.

Definition token_call (f : Frame) (input : bytes) (g : Guest) : Guest * Reply :=
  let '(name, args) := split_zero input in
  match token_method name with
  | Some m => token_dispatch m f args g
  | None => (g, ret "unknown method")
  end.

(** What is kept of a call: nothing if it traps. *)
Definition token_invoke (f : Frame) (input : bytes) (g : Guest) : Guest :=
  match token_call f input g with (g', Returned _) => g' | (_, Trapped) => g end.

(** ** Allowances *)

Lemma copy_into_length key from to src key' : copy_into key from to src = Some key' -> length key' = length key.
Proof.
  unfold copy_into. destruct (_ && _) eqn:E; [|done]. intros [= <-].
  apply andb_true_iff in E as [[H1%Nat.leb_le H2%Nat.leb_le]%andb_true_iff H3%Nat.eqb_eq].
  rewrite !length_app, length_take, length_drop. lia.
Qed.

(** The array of the key is one byte too short: building it panics. *)
Lemma allowance_key_panics owner spender : allowance_key owner spender = None.
Proof.
  unfold allowance_key. destruct (copy_into _ 0 6 _) as [k1|] eqn:E1; [|done]. cbn [mbind option_bind].
  destruct (copy_into k1 6 38 _) as [k2|] eqn:E2; [|done]. cbn [mbind option_bind].
  destruct (copy_into k2 38 39 _) as [k3|] eqn:E3; [|done]. cbn [mbind option_bind].
  apply copy_into_length in E1, E2, E3. rewrite length_replicate in E1. unfold copy_into.
  assert ((71 <=? length k3)%nat = false) as -> by (apply Nat.leb_gt; lia). by rewrite andb_false_r.
Qed.

(** Approvals, allowances and transfers on behalf of another never work: with
    well-formed arguments they trap. *)
Theorem allowances_trap f args g :
  (48 <= length args)%nat ->
  snd (tok_approve f args g) = Trapped
  /\ ((64 <= length args)%nat -> snd (tok_allowance args g) = Trapped)
  /\ ((80 <= length args)%nat -> snd (tok_transfer_from f args g) = Trapped).
Proof.
  intros Hl. unfold tok_approve, tok_allowance, tok_transfer_from, read_account, read_u128, get_allowance, set_allowance.
  assert (B : forall n, (n <= length args)%nat -> (length args <? n)%nat = false) by (intros; by apply Nat.ltb_ge).
  rewrite !(B (0 + 32)%nat), !(B (32 + 16)%nat) by lia. rewrite allowance_key_panics. split; [done|].
  split; intros Hl'; rewrite ?(B (32 + 32)%nat), ?(B (64 + 16)%nat) by lia; by rewrite allowance_key_panics.
Qed.

(** ** Conservation *)

Definition own_key (k : bytes) : Prop :=
  k ∈ map bytes_of_string ["owner"; "name"; "symbol"; "decimals"]%string.

Lemma own_key_money k b g : own_key k -> money (storage_set k b g) = money g.
Proof.
  intros Hk. unfold own_key in Hk. cbn [map] in Hk.
  assert (E : filter is_bal (<[k := b]> (g_storage g)) = filter is_bal (g_storage g)).
  { apply map_filter_insert_not. intros y. unfold is_bal. cbn [fst].
    repeat (apply elem_of_cons in Hk as [->|Hk]; [done|]). by apply not_elem_of_nil in Hk. }
  unfold money, get_total_supply, get_total_pooled. cbn [storage_set g_storage]. rewrite E.
  f_equal; unfold ld128, ld64, get_u128, get_u64, storage_get; cbn [storage_set g_storage];
    (rewrite lookup_insert_ne; [done|]);
    repeat (apply elem_of_cons in Hk as [->|Hk]; [done|]); by apply not_elem_of_nil in Hk.
Qed.

(** The abstract token: a call of [caller], where [owner] owns the contract,
    changes no balance, mints if the two are the same, or moves tokens the
    caller has. *)
Inductive token_move (caller owner : AccountId) (m : Money) : Money -> Prop :=
| tm_none : token_move caller owner m m
| tm_mint to amount :
    caller = owner ->
    token_move caller owner m (m_set_supply (u128_add (m_supply m) amount)
      (m_set_balance to (u128_add (m_balance to m) amount) m))
| tm_transfer to amount :
    amount <= m_balance caller m ->
    token_move caller owner m (let m1 := m_set_balance caller (u128_sub (m_balance caller m) amount) m in
      m_set_balance to (u128_add (m_balance to m1) amount) m1).

Lemma tok_balance_money a g : tok_balance a g = m_balance a (money g).
Proof. apply get_balance_money. Qed.
Lemma tok_set_balance_money a v g : money (tok_set_balance a v g) = m_set_balance a v (money g).
Proof. apply money_set_balance. Qed.
Lemma tok_set_supply_money v g : money (tok_set_supply v g) = m_set_supply v (money g).
Proof. apply money_set_supply. Qed.
Lemma tok_supply_money g : tok_supply g = m_supply (money g).
Proof. reflexivity. Qed.

Lemma init_metadata_money args g : money (init_metadata args g) = money g.
Proof.
  unfold init_metadata. cbv zeta. repeat (destruct (_ <=? _)%nat); try done; rewrite ?own_key_money; try done;
    unfold own_key; set_solver.
Qed.

Lemma mint_moves f args g : token_move (f_caller f) (get_owner g) (money g) (money (fst (do_mint f args g))).
Proof.
  unfold do_mint. destruct (bytes_eqb _ _) eqn:Eo; [|constructor]. apply bytes_eqb_true in Eo. cbn [negb].
  destruct (read_account args 0) as [to|]; [|constructor]. destruct (read_u128 args 32) as [amount|]; [|constructor].
  cbv zeta. cbn [fst]. rewrite money_emit, tok_set_supply_money, tok_set_balance_money, tok_supply_money,
    tok_set_balance_money, tok_balance_money. exact (tm_mint _ _ (money g) to amount Eo).
Qed.

Lemma transfer_moves f args g : token_move (f_caller f) (get_owner g) (money g) (money (fst (tok_transfer f args g))).
Proof.
  unfold tok_transfer. destruct (read_account args 0) as [to|]; [|constructor].
  destruct (read_u128 args 32) as [amount|]; [|constructor]. cbv zeta.
  destruct (Z.ltb_spec (tok_balance (f_caller f) g) amount) as [|Hle]; [constructor|]. cbn [fst].
  rewrite money_emit. unfold tok_move. rewrite !tok_set_balance_money, !tok_balance_money, tok_set_balance_money,
    ?tok_balance_money in *. exact (tm_transfer _ _ (money g) to amount Hle).
Qed.

(** Refinement. Whatever input a call of the token has, and whoever calls,
    it changes no balance and not the supply, or mints for the owner, who is the
    caller, or moves tokens that the caller holds: no account pays without
    calling. *)
Theorem token_refines f input g :
  token_move (f_caller f) (get_owner g) (money g) (money (token_invoke f input g)).
Proof.
  unfold token_invoke, token_call. destruct (split_zero input) as [name args].
  destruct (token_method name) as [m|]; [|constructor].
  pose proof (mint_moves f args g) as Hm. pose proof (transfer_moves f args g) as Ht.
  destruct m; cbn [token_dispatch]; try (by constructor).
  - unfold tok_init, ret. cbv beta iota zeta. rewrite money_emit, own_key_money, init_metadata_money by (unfold own_key; set_solver).
    unfold set_owner. rewrite own_key_money by (unfold own_key; set_solver). constructor.
  - destruct (do_mint f args g) as [g' [d|]]; [exact Hm|constructor].
  - destruct (tok_transfer f args g) as [g' [d|]]; [exact Ht|constructor].
  - unfold tok_approve. destruct (read_account args 0); [|constructor]. destruct (read_u128 args 32); [|constructor].
    unfold set_allowance. rewrite allowance_key_panics. constructor.
  - unfold tok_transfer_from. destruct (read_account args 0); [|constructor]. destruct (read_account args 32); [|constructor].
    destruct (read_u128 args 64); [|constructor]. unfold get_allowance. rewrite allowance_key_panics. constructor.
  - unfold tok_balance_of. destruct (read_account args 0); constructor.
  - unfold tok_allowance. destruct (read_account args 0); [|constructor]. destruct (read_account args 32); [|constructor].
    unfold get_allowance. rewrite allowance_key_panics. constructor.
Qed.

Lemma token_move_cong caller owner m m' :
  token_move caller owner m m' -> cong (bal_sum m) (m_supply m) -> cong (bal_sum m') (m_supply m').
Proof.
  intros Hm Hc. destruct Hm as [|to amount _|to amount _]; [exact Hc| |].
  - change (bal_sum (m_set_supply ?s ?x)) with (bal_sum x). rewrite bal_sum_set. cbn [m_set_supply m_supply].
    rewrite !mod_u128_add, !cong_u128_add, Hc. exists 0. lia.
  - cbv zeta. cbn [m_supply m_set_balance]. set (m1 := m_set_balance caller _ m).
    rewrite bal_sum_set, mod_u128_add, cong_u128_add. generalize (m_balance to m1). intros b. unfold m1.
    rewrite bal_sum_set, mod_u128_sub, cong_u128_sub, Hc. exists 0. lia.
Qed.

Definition token_called (g g' : Guest) : Prop := exists f input, g' = token_invoke f input g.
Definition token_deployed : Guest := mkGuest ∅ [] [] [].

(** After any run of calls the balances add up to the recorded supply, modulo
    the width of the integers. *)
Theorem token_supply_conserved g :
  rtc token_called token_deployed g -> cong (bal_sum (money g)) (tok_supply g).
Proof.
  intros Hr. rewrite tok_supply_money. apply rtc_ind_r with (P := fun g => cong (bal_sum (money g)) (m_supply (money g))) in Hr;
    [exact Hr|exists 0; vm_compute; reflexivity|].
  intros g1 g2 _ (f & input & ->) Hc. eapply token_move_cong; [apply token_refines|exact Hc].
Qed.

(** ** Ownership *)

Lemma m_balance_supply a v m : m_balance a (m_set_supply v m) = m_balance a m.
Proof. reflexivity. Qed.

Definition transfer_args (to : AccountId) (amount : u128) : bytes := to ++ le_bytes 16 amount.

Lemma read_transfer_args to amount :
  length to = 32%nat -> in_u128 amount ->
  read_account (transfer_args to amount) 0 = Some to /\ read_u128 (transfer_args to amount) 32 = Some amount.
Proof.
  intros Ht Ha. unfold transfer_args, read_account, read_u128, slice. rewrite length_app, length_le_bytes, Ht.
  cbn [Nat.add Nat.ltb Nat.leb]. rewrite drop_0, take_app_length' by done. split; [done|].
  rewrite drop_app_length', take_ge by (rewrite ?length_le_bytes; lia || done). f_equal.
  rewrite from_le_mod. apply Z.mod_small. unfold in_u128, u128_max in Ha. lia.
Qed.

(** Initialising is not guarded: whoever calls it owns the contract and mints
    what they like. *)
Theorem stranger_takes_over f g to amount :
  length (f_caller f) = 32%nat -> length to = 32%nat -> in_u128 amount ->
  let g1 := token_invoke f (bytes_of_string "init") g in
  get_owner g1 = f_caller f
  /\ tok_balance to (token_invoke f (bytes_of_string "mint" ++ [0] ++ transfer_args to amount) g1)
     = u128_add (tok_balance to g1) amount.
Proof.
  intros Hc Ht Ha. cbv zeta. set (g1 := token_invoke f (bytes_of_string "init") g).
  assert (Ho : get_owner g1 = f_caller f).
  { unfold g1. change (token_invoke f (bytes_of_string "init") g) with
      (emit "initialized" (f_caller f) (storage_set (bytes_of_string "decimals") [8] (set_owner (f_caller f) g))).
    unfold get_owner, storage_get. cbn [emit storage_set set_owner g_storage].
    rewrite lookup_insert_ne, lookup_insert_eq by done. rewrite Hc. cbn. by rewrite take_ge by lia. }
  split; [exact Ho|]. unfold token_invoke.
  change (token_call f (bytes_of_string "mint" ++ [0] ++ transfer_args to amount) g1)
    with (do_mint f (transfer_args to amount) g1).
  unfold do_mint. rewrite Ho, bytes_eqb_refl. destruct (read_transfer_args to amount Ht Ha) as [-> ->].
  cbv zeta. cbn [negb]. rewrite !tok_balance_money, money_emit, tok_set_supply_money, tok_set_balance_money.
  by rewrite m_balance_supply, m_balance_set, decide_True, mod_u128_add by done.
Qed.

(** Additions wrap: the owner empties an account by minting to it. *)
Theorem mint_empties_account f to g :
  get_owner g = f_caller f -> length to = 32%nat -> 0 < tok_balance to g <= u128_max ->
  tok_balance to (fst (do_mint f (transfer_args to (2 ^ 128 - tok_balance to g)) g)) = 0.
Proof.
  intros Ho Ht Hb. unfold do_mint. rewrite Ho, bytes_eqb_refl. cbn [negb].
  destruct (read_transfer_args to (2 ^ 128 - tok_balance to g) Ht) as [-> ->]; [unfold in_u128, u128_max in *; lia|].
  cbv zeta. cbn [fst]. rewrite !tok_balance_money, money_emit, tok_set_supply_money, tok_set_balance_money.
  rewrite m_balance_supply, m_balance_set, decide_True, mod_u128_add by done. unfold u128_add. rewrite Zplus_minus. done.
Qed.
