(* ===== verification/Nft.v ===== *)
(** The non-fungible token and the counter of the examples
    ([examples/contracts/nft/src/lib.rs], [examples/contracts/counter/src/lib.rs])
    over the calls of the contract SDK. *)

From S2P Require Import Prelude Types Executor Vm StSolen StSolenLedger Token.
Open Scope Z_scope.

(** ** The counter *)

Definition counter_call (g : Guest) : Guest * Reply :=
  let count := default 0 (get_u64 (bytes_of_string "count") g) in
  let new_count := u64_add count 1 in
  let g := set_u64 (bytes_of_string "count") new_count g in
  (emit "incremented" (le_bytes 8 new_count) g, Returned (le_bytes 8 new_count)).

(** ** The collection *)

Definition token_key (id : u64) : bytes := bytes_of_string "tok/" ++ le_bytes 8 id.
Definition nft_balance (account : AccountId) (g : Guest) : u64 := default 0 (get_u64 (balance_key account) g).
Definition nft_set_balance (account : AccountId) (v : u64) (g : Guest) : Guest := set_u64 (balance_key account) v g.
Definition next_id (g : Guest) : u64 := default 1 (get_u64 (bytes_of_string "next_id") g).
Definition nft_read_u64 (args : bytes) (offset : nat) : option u64 :=
  if (length args <? offset + 8)%nat then None else Some (from_le (slice offset 8 args)).

Definition nft_init (f : Frame) (args : bytes) (g : Guest) : Guest * Reply :=
  let caller := f_caller f in
  let g := storage_set (bytes_of_string "owner") caller g in
  let g := set_u64 (bytes_of_string "next_id") 1 g in
  let g := init_metadata args g in
  (emit "initialized" caller g, ret "ok").

Definition nft_mint (f : Frame) (args : bytes) (g : Guest) : Guest * Reply :=
  if negb (bytes_eqb (f_caller f) (get_owner g)) then (g, ret "err:unauthorized")
  else
  let* to := read_account args 0 else g, ret "err:invalid_args" in
  let token_id := next_id g in
  let g := storage_set (token_key token_id) to g in
  let g := set_u64 (bytes_of_string "next_id") (u64_add token_id 1) g in
  let g := nft_set_balance to (u64_add (nft_balance to g) 1) g in
  (emit "mint" (le_bytes 8 token_id) g, Returned (le_bytes 8 token_id)).

(** The owner of a token, if it has one. *)
Definition token_owner (id : u64) (g : Guest) : option AccountId :=
  data ← storage_get (token_key id) g; if (32 <=? length data)%nat then Some (take 32 data) else None.

Definition nft_transfer (f : Frame) (args : bytes) (g : Guest) : Guest * Reply :=
  let caller := f_caller f in
  let* to := read_account args 0 else g, ret "err:invalid_args" in
  let* token_id := nft_read_u64 args 32 else g, ret "err:invalid_args" in
  let* current_owner := token_owner token_id g else g, ret "err:token_not_found" in
  if negb (bytes_eqb current_owner caller) then (g, ret "err:not_owner")
  else
  let g := storage_set (token_key token_id) to g in
  let g := nft_set_balance caller (sat_sub (nft_balance caller g) 1) g in
  let g := nft_set_balance to (u64_add (nft_balance to g) 1) g in
  (emit "transfer" (le_bytes 8 token_id) g, ret "ok").

Definition nft_owner_of (args : bytes) (g : Guest) : Guest * Reply :=
  let* token_id := nft_read_u64 args 0 else g, ret "err:invalid_args" in
  match storage_get (token_key token_id) g with
  | Some data => (g, Returned data)
  | None => (g, ret "err:token_not_found")
  end.
Definition nft_balance_of (args : bytes) (g : Guest) : Guest * Reply :=
  let* account := read_account args 0 else g, ret "err:invalid_args" in
  (g, Returned (le_bytes 8 (nft_balance account g))).
Definition nft_total_supply (g : Guest) : Guest * Reply := (g, Returned (le_bytes 16 (sat_sub (next_id g) 1))).

Definition nft_abi : bytes := quoted "[
{'name':'init','args':'name_len[1]+name[]+symbol_len[1]+symbol[]','mutates':true},
{'name':'mint','args':'to[32]','mutates':true},
{'name':'transfer','args':'to[32]+token_id[8]','mutates':true},
{'name':'owner_of','args':'token_id[8]','mutates':false},
{'name':'balance_of','args':'account[32]','mutates':false},
{'name':'total_supply','args':'','mutates':false},
{'name':'name','args':'','mutates':false},
{'name':'symbol','args':'','mutates':false},
{'name':'owner','args':'','mutates':false}
]".

Inductive NftMethod : Type :=
| NAbi | NInit | NMint | NTransfer | NOwnerOf | NBalanceOf | NTotalSupply | NName | NSymbol | NOwner.
Definition NFT_METHODS : list (string * NftMethod) := [
  ("abi", NAbi); ("init", NInit); ("mint", NMint); ("transfer", NTransfer); ("owner_of", NOwnerOf);
  ("balance_of", NBalanceOf); ("total_supply", NTotalSupply); ("name", NName); ("symbol", NSymbol); ("owner", NOwner)
]%string.
Definition nft_method (name : bytes) : option NftMethod :=
  snd <$> List.find (fun e => bytes_eqb (bytes_of_string (fst e)) name) NFT_METHODS.
Definition nft_dispatch (m : NftMethod) (f : Frame) (args : bytes) (g : Guest) : Guest * Reply :=
  match m with
  | NAbi => (g, Returned nft_abi)
  | NInit => nft_init f args g
  | NMint => nft_mint f args g
  | NTransfer => nft_transfer f args g
  | NOwnerOf => nft_owner_of args g
  | NBalanceOf => nft_balance_of args g
  | NTotalSupply => nft_total_supply g
  | NName => tok_name g
  | NSymbol => tok_symbol g
  | NOwner => (g, Returned (get_owner g))
  end.
Definition nft_call (f : Frame) (input : bytes) (g : Guest) : Guest * Reply :=
  let '(name, args) := split_zero input in
  match nft_method name with
  | Some m => nft_dispatch m f args g
  | None => (g, ret "unknown method")
  end.

(** ** Theorems *)

(** The counter counts, up to the width of its integer. *)
Theorem counter_counts n g :
  in_u64 (default 0 (get_u64 (bytes_of_string "count") g)) ->
  get_u64 (bytes_of_string "count") (Nat.iter (S n) (fun g => fst (counter_call g)) g)
  = Some ((default 0 (get_u64 (bytes_of_string "count") g) + Z.of_nat (S n)) mod 2 ^ 64).
Proof.
  assert (Hs : forall v g, get_u64 (bytes_of_string "count") (emit "incremented" (le_bytes 8 v)
    (set_u64 (bytes_of_string "count") v g)) = Some (v mod 2 ^ 64)).
  { intros v g0. unfold get_u64, storage_get. cbn [emit set_u64 storage_set g_storage]. rewrite lookup_insert_eq.
    cbn [mbind option_bind]. rewrite length_le_bytes. cbn [Nat.ltb Nat.leb]. by rewrite take_ge, from_le_mod by (rewrite length_le_bytes; lia). }
  intros Hr. induction n as [|n IH].
  - cbn [Nat.iter nat_rect]. unfold counter_call. cbn [fst]. rewrite Hs. f_equal. unfold u64_add. by rewrite Z.mod_mod by lia.
  - change (Nat.iter (S (S n)) ?F g) with (F (Nat.iter (S n) F g)). revert IH. generalize (Nat.iter (S n) (fun g => fst (counter_call g)) g).
    intros g1 IH. unfold counter_call. cbn [fst]. rewrite Hs, IH. cbn [default]. unfold u64_add, id.
    rewrite Z.mod_mod, Zplus_mod_idemp_l by lia. do 2 f_equal. lia.
Qed.

(** Keys of tokens are apart from the others. *)
Lemma token_owner_other id k b g : k <> token_key id -> token_owner id (storage_set k b g) = token_owner id g.
Proof. intros Hk. unfold token_owner, storage_get. cbn [storage_set g_storage]. by rewrite lookup_insert_ne. Qed.

Lemma token_owner_set id to g : length to = 32%nat -> token_owner id (storage_set (token_key id) to g) = Some to.
Proof.
  intros Ht. unfold token_owner, storage_get. cbn [storage_set g_storage]. rewrite lookup_insert_eq. cbn [mbind option_bind].
  rewrite Ht. cbn [Nat.leb]. by rewrite take_ge by lia.
Qed.

Lemma token_key_inj i j : in_u64 i -> in_u64 j -> token_key i = token_key j -> i = j.
Proof. intros Hi Hj H. apply app_inv_head in H. by apply le_bytes_8_inj. Qed.

Lemma read_account_length args off a : read_account args off = Some a -> length a = 32%nat.
Proof.
  unfold read_account. destruct (Nat.ltb_spec (length args) (off + 32)); [done|]. intros [= <-].
  unfold slice. rewrite length_take, length_drop. lia.
Qed.

Lemma init_metadata_owner id args g : token_owner id (init_metadata args g) = token_owner id g.
Proof.
  unfold init_metadata. cbv zeta. repeat (destruct (_ <=? _)%nat); try done; by rewrite !token_owner_other by done.
Qed.

(** What one call did to a token: nothing, its owner gave it away, or the owner
    of the contract minted it. *)
Inductive owner_step (f : Frame) (g : Guest) (id : u64) : option AccountId -> Prop :=
| os_same : owner_step f g id (token_owner id g)
| os_given to : token_owner id g = Some (f_caller f) -> owner_step f g id (Some to)
| os_minted to : f_caller f = get_owner g -> id = next_id g -> owner_step f g id (Some to).

Lemma from_le_range b : byte_list b -> 0 <= from_le b < 256 ^ Z.of_nat (length b).
Proof.
  induction 1 as [|x b Hx _ IH]; cbn [from_le length]; [done|]. rewrite Nat2Z.inj_succ, Z.pow_succ_r by lia. lia.
Qed.
Lemma slice_u64 off args : byte_list args -> in_u64 (from_le (slice off 8 args)).
Proof.
  intros Hb. assert (Hs : byte_list (slice off 8 args)) by by apply Forall_take, Forall_drop.
  pose proof (from_le_range _ Hs) as Hr. assert (length (slice off 8 args) <= 8)%nat by (unfold slice; rewrite length_take; lia).
  assert (256 ^ Z.of_nat (length (slice off 8 args)) <= 256 ^ 8) by (apply Z.pow_le_mono_r; lia).
  unfold in_u64, u64_max. lia.
Qed.

Lemma bal_not_token a id : balance_key a <> token_key id.
Proof. done. Qed.

Lemma nft_transfer_owner f args g id :
  byte_list args -> in_u64 id -> owner_step f g id (token_owner id (fst (nft_transfer f args g))).
Proof.
  intros Hb Hid. unfold nft_transfer. destruct (read_account args 0) as [to|] eqn:Et; [|constructor].
  destruct (nft_read_u64 args 32) as [tid|] eqn:Ei; [|constructor].
  destruct (token_owner tid g) as [cur|] eqn:Eo; [|constructor].
  destruct (bytes_eqb cur (f_caller f)) eqn:Ec; [|constructor]. apply bytes_eqb_true in Ec. subst cur. cbv zeta. cbn [negb fst].
  change (token_owner id (emit ?t ?d ?x)) with (token_owner id x). unfold nft_set_balance, set_u64.
  rewrite !token_owner_other by apply bal_not_token. apply read_account_length in Et.
  destruct (decide (id = tid)) as [->|Hne].
  - rewrite token_owner_set by done. by constructor.
  - rewrite token_owner_other; [constructor|]. intros H. apply Hne. symmetry. apply token_key_inj; [|done|done].
    unfold nft_read_u64 in Ei. destruct (_ <? _)%nat; [done|]. injection Ei as <-. by apply slice_u64.
Qed.

Lemma nft_mint_owner f args g id :
  in_u64 id -> in_u64 (next_id g) -> owner_step f g id (token_owner id (fst (nft_mint f args g))).
Proof.
  intros Hid Hn. unfold nft_mint. destruct (bytes_eqb (f_caller f) (get_owner g)) eqn:Ec; [|constructor].
  apply bytes_eqb_true in Ec. cbn [negb]. destruct (read_account args 0) as [to|] eqn:Et; [|constructor].
  apply read_account_length in Et. cbv zeta. cbn [fst]. change (token_owner id (emit ?t ?d ?x)) with (token_owner id x).
  unfold nft_set_balance, set_u64. rewrite token_owner_other by apply bal_not_token. rewrite token_owner_other by done.
  destruct (decide (id = next_id g)) as [->|Hne].
  - rewrite token_owner_set by done. by constructor.
  - rewrite token_owner_other; [constructor|]. intros H. apply Hne. symmetry. by apply token_key_inj.
Qed.

Lemma next_id_range g : (forall b, storage_get (bytes_of_string "next_id") g = Some b -> byte_list b) -> in_u64 (next_id g).
Proof.
  intros Hb. unfold next_id, get_u64. destruct (storage_get _ g) as [b|]; [|done]. cbn [mbind option_bind].
  destruct (_ <? _)%nat; [done|]. cbn [default]. unfold id.
  change (take 8 b) with (slice 0 8 b). apply slice_u64. by apply Hb.
Qed.

(** A token changes hands only if its owner calls to give it away or the owner of
    the contract mints its number. *)
Theorem nft_owner_sound f input g id :
  byte_list input -> in_u64 id -> (forall b, storage_get (bytes_of_string "next_id") g = Some b -> byte_list b) ->
  owner_step f g id (token_owner id (fst (nft_call f input g))).
Proof.
  intros Hb Hid Hn. unfold nft_call. destruct (split_zero input) as [name args] eqn:Es.
  assert (Ha : byte_list args).
  { clear -Hb Es. revert name args Es. induction Hb as [|x b Hx Hb IH]; intros name args; cbn [split_zero]; [by intros [= <- <-]|].
    destruct (x =? 0); [by intros [= <- <-]|]. destruct (split_zero b) as [m a]. intros [= <- <-]. by eapply IH. }
  destruct (nft_method name) as [m|]; [|constructor]. destruct m; cbn [nft_dispatch]; try (by constructor).
  - unfold nft_init. cbv zeta. cbn [fst]. change (token_owner id (emit ?t ?d ?x)) with (token_owner id x).
    rewrite init_metadata_owner. unfold set_u64. rewrite !token_owner_other by done. constructor.
  - by apply nft_mint_owner, next_id_range.
  - by apply nft_transfer_owner.
  - unfold nft_owner_of. destruct (nft_read_u64 args 0); [|constructor]. destruct (storage_get (token_key _) g); constructor.
  - unfold nft_balance_of. destruct (read_account args 0); constructor.
Qed.

(** Initialising again is not refused and starts the numbers anew: a stranger
    who initialises and mints takes the first token from its owner. *)
Theorem stranger_takes_token f g :
  length (f_caller f) = 32%nat ->
  let g1 := fst (nft_call f (bytes_of_string "init") g) in
  token_owner 1 (fst (nft_call f (bytes_of_string "mint" ++ [0] ++ f_caller f) g1)) = Some (f_caller f).
Proof.
  intros Hc. cbv zeta. set (g1 := fst (nft_call f (bytes_of_string "init") g)).
  assert (Ho : get_owner g1 = f_caller f /\ next_id g1 = 1).
  { unfold g1. change (fst (nft_call f (bytes_of_string "init") g)) with
      (emit "initialized" (f_caller f) (set_u64 (bytes_of_string "next_id") 1
        (storage_set (bytes_of_string "owner") (f_caller f) g))).
    unfold get_owner, next_id, get_u64, storage_get. cbn [emit storage_set set_u64 g_storage].
    rewrite (lookup_insert_ne _ (bytes_of_string "next_id") (bytes_of_string "owner")), !lookup_insert_eq by done.
    rewrite Hc. cbn [Nat.leb mbind option_bind]. split; [by rewrite take_ge by lia|done]. }
  destruct Ho as [Ho Hn].
  change (nft_call f (bytes_of_string "mint" ++ [0] ++ f_caller f) g1) with (nft_mint f (f_caller f) g1).
  unfold nft_mint. rewrite Ho, bytes_eqb_refl. cbn [negb]. unfold read_account. rewrite Hc. cbn [Nat.add Nat.ltb Nat.leb].
  unfold slice. rewrite drop_0, take_ge by lia. rewrite Hn. cbv zeta. cbn [fst].
  change (token_owner 1 (emit ?t ?d ?x)) with (token_owner 1 x). unfold nft_set_balance, set_u64.
  rewrite token_owner_other by apply bal_not_token. rewrite token_owner_other by done. by apply token_owner_set.
Qed.
