(* ===== verification/Keystore.v ===== *)
(** The keys of the command line ([crates/solen-cli/src/wallet.rs]): signers,
    the key file, its lock under a password, and the signatures made with it.

    A command runs in a state: the key file, what has been asked of the node,
    the lines printed, and how many random draws and password prompts were
    made. It returns a value, fails with an error or panics. Argon2, AES-GCM
    and the signature schemes are parameters, as are the terminal, the disk and
    the source of randomness. *)

From S2P Require Import Prelude Types SysCommon State Auth Address.
Open Scope Z_scope.

(** ** Signers *)

(** Key pairs are given by their seed of 32 bytes ([solen_crypto]). *)
Class Signing : Type := {
  ed_public : bytes -> bytes;
  ed_sign : bytes -> bytes -> bytes;
  ml_public : bytes -> bytes;
  ml_sign : bytes -> bytes -> bytes;
}.
Class SigningLaws `{!Crypto} `{!Signing} : Prop := {
  ed_public_length seed : length (ed_public seed) = 32%nat;
  ed_public_bytes seed : digits_of 256 (ed_public seed);
  ed_sign_length seed msg : length (ed_sign seed msg) = 64%nat;
  ed_sign_verifies seed msg : ed25519_verify (ed_public seed) msg (ed_sign seed msg) = true;
  ml_sign_length seed msg : length (ml_sign seed msg) = ML_DSA_SIG_LEN;
  ml_sign_verifies seed msg : ml_dsa_verify (ml_public seed) msg (ml_sign seed msg) = true;
}.

Inductive Signer : Type :=
| SignEd25519 (seed : bytes)
| SignMlDsa (seed : bytes)
| SignHybrid (ed ml : bytes).

Section signer.
Context `{!Signing}.

Definition signer_sign (s : Signer) (message : bytes) : bytes :=
  match s with
  | SignEd25519 kp => ed_sign kp message
  | SignMlDsa kp => ml_sign kp message
  | SignHybrid ed ml => ed_sign ed message ++ ml_sign ml message
  end.
Definition auth_method (s : Signer) : AuthMethod :=
  match s with
  | SignEd25519 kp => Ed25519 (ed_public kp)
  | SignMlDsa kp => MlDsa (ml_public kp)
  | SignHybrid ed ml => Hybrid (ed_public ed) (ml_public ml)
  end.
End signer.
Definition signer_scheme (s : Signer) : str :=
  match s with
  | SignEd25519 _ => chars "ed25519"
  | SignMlDsa _ => chars "ml-dsa"
  | SignHybrid _ _ => chars "hybrid"
  end.

(** ** The key file *)

Record LockMeta : Type := mkLock {
  salt_hex : str;
  verify_nonce_hex : str;
  verify_ciphertext_hex : str;
}.
Record StoredKey : Type := mkKey {
  k_name : str;
  seed_hex : option str;
  public_key_hex : str;
  account_id_hex : str;
  encrypted_seed_hex : option str;
  k_scheme : option str;
}.
Record Keystore : Type := mkKeystore { keys : gmap str StoredKey; lock : option LockMeta }.

Definition keystore_default : Keystore := mkKeystore ∅ None.
Definition is_locked (ks : Keystore) : bool := bool_decide (is_Some (lock ks)).

(** What is found at [~/.solen/keys.json]. *)
Inductive KeyFile : Type := NoFile | Unreadable | Holds (ks : Keystore).

(** ** Commands *)

Inductive CliError : Type :=
| Bail (msg : string)
| BailWith (msg : str)
| BadHex (position : nat)
| BadNumber
| KeyNotFound (name : str)
| NoSeed (name : str)
| BadAddress (what : string) (e : EncodingError)
| Io
| RpcFailed (msg : str)
| NotUtf8.

Inductive run (A : Type) : Type :=
| Done (a : A)
| Failed (e : CliError)
| Crashed.
Arguments Done {A} a.
Arguments Failed {A} e.
Arguments Crashed {A}.

#[export] Instance run_ret : MRet run := @Done.
#[export] Instance run_bind : MBind run := fun A B f m =>
  match m with Done a => f a | Failed e => Failed e | Crashed => Crashed end.

(** What a command, or a tool, asks of a node. *)
Inductive Request : Type :=
| GetAccount (id : str) | GetNextNonce (id : str) | GetBalance (id : str)
| Submit (op : UserOperation) | SubmitConfirm (op : UserOperation) (timeout_secs : u64) | Simulate (op : UserOperation)
| GetProposals | ChainStatusReq | GetBlock (height : option u64) | GetValidators.

Record World : Type := mkWorld {
  w_file : KeyFile;
  w_requests : list Request;
  w_out : list str;
  w_draws : nat;
  w_prompts : nat;
}.

Definition M (A : Type) : Type := World -> World * run A.
#[export] Instance M_ret : MRet M := fun A a w => (w, Done a).
#[export] Instance M_bind : MBind M := fun A B f m w =>
  let '(w, r) := m w in
  match r with Done a => f a w | Failed e => (w, Failed e) | Crashed => (w, Crashed) end.

Definition lift {A} (r : run A) : M A := fun w => (w, r).
Definition bail {A} (e : CliError) : M A := lift (Failed e).
Definition println (line : str) : M unit := fun w =>
  (mkWorld (w_file w) (w_requests w) (w_out w ++ [line]) (w_draws w) (w_prompts w), Done tt).

(** The terminal, the disk and the random generator: the answer to the n-th
    prompt, whether a write fails, the n-th draw of a number of bytes. *)
Class Host : Type := {
  h_password : nat -> option str;
  h_write_fails : World -> bool;
  h_random : nat -> nat -> bytes;
}.

Class HostLaws `{!Host} : Prop := {
  h_random_length i n : length (h_random i n) = n;
  h_random_bytes i n : digits_of 256 (h_random i n);
}.

Section host.
Context `{!Host}.

Definition load_keystore : M Keystore := fun w =>
  match w_file w with
  | NoFile => (w, Done keystore_default)
  | Unreadable => (w, Failed Io)
  | Holds ks => (w, Done ks)
  end.
Definition save_keystore (ks : Keystore) : M unit := fun w =>
  if h_write_fails w then (w, Failed Io)
  else (mkWorld (Holds ks) (w_requests w) (w_out w) (w_draws w) (w_prompts w), Done tt).
Definition random_bytes (n : nat) : M bytes := fun w =>
  (mkWorld (w_file w) (w_requests w) (w_out w) (S (w_draws w)) (w_prompts w), Done (h_random (w_draws w) n)).

Definition ask_password : M str := fun w =>
  (mkWorld (w_file w) (w_requests w) (w_out w) (w_draws w) (S (w_prompts w)),
   match h_password (w_prompts w) with Some s => Done s | None => Failed Io end).
Definition prompt_password : M str :=
  pass ← ask_password;
  if bool_decide (pass = []) then bail (Bail "password cannot be empty") else mret pass.
Definition prompt_new_password : M str :=
  pass ← ask_password;
  if bool_decide (pass = []) then bail (Bail "password cannot be empty")
  else if (str_len pass <? 8)%nat then bail (Bail "password must be at least 8 characters")
  else
  confirm ← ask_password;
  if bool_decide (pass <> confirm) then bail (Bail "passwords do not match") else mret pass.
End host.

(** ** Text *)

(** [wallet::hex_decode]: the steps are over the byte offsets 0, 2, 4, ... *)
Definition cli_hex_decode (s : str) : run bytes :=
  let s := strip_0x s in
  match hex_pairs ((str_len s + 1) / 2) 0 s with
  | Returned (Ok b) => Done b
  | Returned (Err (InvalidHexAt i)) => Failed (BadHex i)
  | Returned (Err e) => Failed (BadAddress "hex" e)
  | Panicked => Crashed
  end.
Definition cli_hex_encode (b : bytes) : str := chars (hex_encode b).

(** [parse_address(..)] with its error wrapped. *)
Definition address_or (what : string) (s : str) : run AccountId :=
  match parse_address s with
  | Returned (Ok id) => Done id
  | Returned (Err e) => Failed (BadAddress what e)
  | Panicked => Crashed
  end.

Definition name_to_account_id (name : str) : AccountId :=
  let b := take 32 (str_bytes name) in b ++ replicate (32 - length b) 0.

(** [String::from_utf8]. *)
Fixpoint utf8_chars (b : bytes) : option str :=
  match b with
  | [] => Some []
  | a :: b1 =>
    if a <? 128 then s ← utf8_chars b1; Some (a :: s)
    else if in_range 194 223 a then
      match b1 with
      | c1 :: b2 => if is_cont c1 then s ← utf8_chars b2; Some ((a - 192) * 64 + (c1 - 128) :: s) else None
      | _ => None
      end
    else if in_range 224 239 a then
      match b1 with
      | c1 :: c2 :: b3 =>
        if second3_ok a c1 && is_cont c2
        then s ← utf8_chars b3; Some ((a - 224) * 4096 + (c1 - 128) * 64 + (c2 - 128) :: s) else None
      | _ => None
      end
    else if in_range 240 244 a then
      match b1 with
      | c1 :: c2 :: c3 :: b4 =>
        if second4_ok a c1 && is_cont c2 && is_cont c3
        then s ← utf8_chars b4;
             Some ((a - 240) * 262144 + (c1 - 128) * 4096 + (c2 - 128) * 64 + (c3 - 128) :: s)
        else None
      | _ => None
      end
    else None
  end.
Definition from_utf8 (b : bytes) : run str :=
  match utf8_chars b with Some s => Done s | None => Failed NotUtf8 end.

(** ** The vault *)

(** Argon2id with the default parameters, which refuses some inputs, and
    AES-256-GCM: key, nonce, text. *)
Class Vault : Type := {
  argon2 : bytes -> bytes -> option bytes;
  aes_encrypt : bytes -> bytes -> bytes -> option bytes;
  aes_decrypt : bytes -> bytes -> bytes -> option bytes;
}.
Class VaultLaws `{!Vault} : Prop := {
  aes_roundtrip key nonce text cipher :
    aes_encrypt key nonce text = Some cipher -> aes_decrypt key nonce cipher = Some text;
  aes_length key nonce text cipher :
    aes_encrypt key nonce text = Some cipher -> length cipher = (length text + 16)%nat;
  aes_bytes key nonce text cipher :
    aes_encrypt key nonce text = Some cipher -> digits_of 256 text -> digits_of 256 cipher;
}.

Definition SALT_LEN : nat := 16.
Definition NONCE_LEN : nat := 12.
Definition VERIFY_TOKEN : bytes := Eval vm_compute in bytes_of_string "solen-wallet-v1".

Definition set_seed (plain encrypted : option str) (k : StoredKey) : StoredKey :=
  mkKey (k_name k) plain (public_key_hex k) (account_id_hex k) encrypted (k_scheme k).

(** A pass over [keys.values_mut()], stopped by the first error. The order of
    a hash map is not specified; here it is that of [map_to_list]. *)
Fixpoint each_key (f : StoredKey -> M StoredKey) (l : list (str * StoredKey)) : M (list (str * StoredKey)) :=
  match l with
  | [] => mret []
  | (n, k) :: l => k' ← f k; l' ← each_key f l; mret ((n, k') :: l')
  end.
Definition values_mut (f : StoredKey -> M StoredKey) (m : gmap str StoredKey) : M (gmap str StoredKey) :=
  l ← each_key f (map_to_list m); mret (list_to_map l).

Section wallet.
Context `{!Signing} `{!Host} `{!Vault}.

Definition derive_key (password : str) (salt : bytes) : run bytes :=
  match argon2 (str_bytes password) salt with
  | Some key => Done key
  | None => Failed (Bail "key derivation failed")
  end.
Definition encrypt_bytes (key nonce plaintext : bytes) : run bytes :=
  match aes_encrypt key nonce plaintext with
  | Some c => Done c
  | None => Failed (Bail "encryption failed")
  end.
(** [Nonce::from_slice] panics on a slice of another length. *)
Definition decrypt_bytes (key nonce ciphertext : bytes) : run bytes :=
  if negb (length nonce =? NONCE_LEN)%nat then Crashed
  else match aes_decrypt key nonce ciphertext with
       | Some p => Done p
       | None => Failed (Bail "decryption failed")
       end.
Definition verify_password (derived : bytes) (l : LockMeta) : run unit :=
  nonce ← cli_hex_decode (verify_nonce_hex l);
  ciphertext ← cli_hex_decode (verify_ciphertext_hex l);
  plaintext ← decrypt_bytes derived nonce ciphertext;
  if bool_decide (plaintext <> VERIFY_TOKEN) then Failed (Bail "incorrect password") else Done tt.
Definition decrypt_seed (derived : bytes) (encrypted_hex : str) : run str :=
  combined ← cli_hex_decode encrypted_hex;
  if (length combined <? NONCE_LEN + 1)%nat then Failed (Bail "encrypted seed data is too short")
  else
  plaintext ← decrypt_bytes derived (take NONCE_LEN combined) (drop NONCE_LEN combined);
  from_utf8 plaintext.

(** The key derived from a password that fits the lock. *)
Definition open_lock (l : LockMeta) (password : str) : run bytes :=
  salt ← cli_hex_decode (salt_hex l);
  derived ← derive_key password salt;
  _ ← verify_password derived l;
  Done derived.

(** *** Keys *)

Definition plain_key (name : str) (seed : bytes) : StoredKey :=
  let public_key := ed_public seed in
  mkKey name (Some (cli_hex_encode seed)) (account_to_base58 public_key) (account_to_base58 public_key) None None.
Definition generate_key (name : str) : M StoredKey :=
  seed ← random_bytes 32; mret (plain_key name seed).
Definition import_key (name : str) (seed_hex : str) : run StoredKey :=
  seed_bytes ← cli_hex_decode seed_hex;
  if negb (length seed_bytes =? 32)%nat then Failed (Bail "seed must be exactly 32 bytes (64 hex chars)")
  else Done (plain_key name seed_bytes).

(** The text of the seed of a key, decrypted with the password if need be. *)
Definition seed_text (ks : Keystore) (name : str) (key : StoredKey) : M str :=
  match seed_hex key with
  | Some s => mret s
  | None =>
    match encrypted_seed_hex key with
    | None => bail (NoSeed name)
    | Some enc =>
      match lock ks with
      | None => bail (Bail "key is encrypted but no lock metadata found")
      | Some l =>
        password ← prompt_password;
        lift (derived ← open_lock l password; decrypt_seed derived enc)
      end
    end
  end.
Definition signer_of (scheme : option str) (seed : bytes) : Signer :=
  match scheme with
  | Some s => if bool_decide (s = chars "ml-dsa") then SignMlDsa seed
              else if bool_decide (s = chars "hybrid") then SignHybrid seed seed
              else SignEd25519 seed
  | None => SignEd25519 seed
  end.
(** The signer of a key, from the text of its seed. *)
Definition signer_from (key : StoredKey) (seed_hex : str) : run (Signer * AccountId) :=
  seed_bytes ← cli_hex_decode seed_hex;
  if negb (length seed_bytes =? 32)%nat then Failed (Bail "seed must be exactly 32 bytes")
  else
  account_id ← address_or "invalid account_id" (account_id_hex key);
  Done (signer_of (k_scheme key) seed_bytes, account_id).
Definition load_keypair (ks : Keystore) (name : str) : M (Signer * AccountId) :=
  match keys ks !! name with
  | None => bail (KeyNotFound name)
  | Some key => seed_hex ← seed_text ks name key; lift (signer_from key seed_hex)
  end.

(** *** Post-quantum keys *)

Definition new_ml_dsa : M (bytes * bytes) := seed ← random_bytes 32; mret (seed, ml_public seed).
Definition new_hybrid : M (bytes * bytes * bytes) :=
  seed ← random_bytes 32; mret (seed, ed_public seed, ml_public seed).
Definition rotate_key (seed : bytes) (scheme public_key : str) (k : StoredKey) : StoredKey :=
  mkKey (k_name k) (Some (cli_hex_encode seed)) public_key (account_id_hex k) None (Some scheme).
Definition persist_key (ks : Keystore) (name : str) (f : StoredKey -> StoredKey) : run Keystore :=
  match keys ks !! name with
  | None => Failed (KeyNotFound name)
  | Some k => Done (mkKeystore (<[name := f k]> (keys ks)) (lock ks))
  end.
Definition persist_ml_dsa (ks : Keystore) (name : str) (seed pubkey : bytes) : run Keystore :=
  persist_key ks name (rotate_key seed (chars "ml-dsa") (cli_hex_encode pubkey)).
Definition persist_hybrid (ks : Keystore) (name : str) (seed ed_pubkey : bytes) : run Keystore :=
  persist_key ks name (rotate_key seed (chars "hybrid") (account_to_base58 ed_pubkey)).

(** *** Lock and unlock *)

Definition lock_key (derived : bytes) (key : StoredKey) : M StoredKey :=
  match seed_hex key with
  | None => mret key
  | Some seed =>
    nonce ← random_bytes NONCE_LEN;
    ciphertext ← lift (encrypt_bytes derived nonce (str_bytes seed));
    mret (set_seed None (Some (cli_hex_encode (nonce ++ ciphertext))) key)
  end.
Definition lock_keystore (ks : Keystore) (password : str) : M Keystore :=
  if is_locked ks then bail (Bail "wallet is already locked")
  else if bool_decide (keys ks = ∅) then bail (Bail "no keys to lock")
  else
  salt ← random_bytes SALT_LEN;
  derived ← lift (derive_key password salt);
  verify_nonce ← random_bytes NONCE_LEN;
  verify_ciphertext ← lift (encrypt_bytes derived verify_nonce VERIFY_TOKEN);
  let l := mkLock (cli_hex_encode salt) (cli_hex_encode verify_nonce) (cli_hex_encode verify_ciphertext) in
  locked ← values_mut (lock_key derived) (keys ks);
  mret (mkKeystore locked (Some l)).

Definition unlock_key (derived : bytes) (key : StoredKey) : M StoredKey :=
  match encrypted_seed_hex key with
  | None => mret key
  | Some enc => seed ← lift (decrypt_seed derived enc); mret (set_seed (Some seed) None key)
  end.
Definition unlock_keystore (ks : Keystore) (password : str) : M Keystore :=
  match lock ks with
  | None => bail (Bail "wallet is not locked")
  | Some l =>
    derived ← lift (open_lock l password);
    unlocked ← values_mut (unlock_key derived) (keys ks);
    mret (mkKeystore unlocked None)
  end.
Definition encrypt_new_key (ks : Keystore) (key : StoredKey) (password : str) : M StoredKey :=
  match lock ks with
  | None => bail (Bail "wallet is not locked")
  | Some l => derived ← lift (open_lock l password); lock_key derived key
  end.
Definition change_password (ks : Keystore) (old_password new_password : str) : M Keystore :=
  ks ← unlock_keystore ks old_password; lock_keystore ks new_password.
End wallet.
