(* ===== verification/KeystoreLaws.v ===== *)
(** Theorems about the keys of the command line: a locked key file holds no
    seed in the clear, opens with its password to what was locked, and signs as
    before; what a key signs, the node accepts under the method of that key, up
    to the validation of the whole operation. *)

From S2P Require Import Prelude Types Store Memory SysCommon State Auth Session Address Keystore.
Open Scope Z_scope.

(** ** Text *)

Lemma cli_hex_roundtrip b : digits_of 256 b -> cli_hex_decode (cli_hex_encode b) = Done b.
Proof.
  intros Hb. destruct (hex_encode_digits b Hb) as [Hd Hlow]. unfold cli_hex_decode, cli_hex_encode.
  destruct (proj1 (unhex_spec b (chars (hex_encode b))) (conj Hb Hlow)) as (_ & Hl & Hu).
  rewrite strip_0x_digits, hexdigits_ascii, Hl by done.
  assert (E : ((2 * length b + 1) / 2 = length b)%nat).
  { symmetry. apply (Nat.div_unique (2 * length b + 1) 2 (length b) 1); lia. }
  rewrite E, (hex_pairs_digits (length b)) by done. by rewrite Hu.
Qed.

(** A Unicode scalar value. *)
Definition is_scalar (c : Z) : Prop := 0 <= c < 55296 \/ 57344 <= c < 1114112.
#[export] Instance is_scalar_dec c : Decision (is_scalar c).
Proof. unfold is_scalar. apply _. Defined.

(** Sequences of two, three and four bytes. *)
Lemma utf8_chars_2 c b : 128 <= c < 2048 ->
  utf8_chars ([192 + c / 64; 128 + c mod 64] ++ b) = option_map (cons c) (utf8_chars b).
Proof.
  intros Hc.
  cbn [app utf8_chars]. pose proof (Z.div_mod c 64 ltac:(lia)). pose proof (Z.mod_pos_bound c 64 ltac:(lia)).
  assert (2 <= c / 64 < 32) by lia.
  destruct (Z.ltb_spec (192 + c / 64) 128); [lia|]. unfold in_range, is_cont, in_range.
  rewrite !(proj2 (Z.leb_le _ _)) by lia. cbn [andb].
  destruct (utf8_chars b); [|done]. cbn. do 2 f_equal. lia.
Qed.
Lemma utf8_chars_3 c b : is_scalar c -> 2048 <= c < 65536 ->
  utf8_chars ([224 + c / 4096; 128 + c / 64 mod 64; 128 + c mod 64] ++ b) = option_map (cons c) (utf8_chars b).
Proof.
  intros Hc Hr.
  cbn [app utf8_chars].
  assert (E : c / 4096 = c / 64 / 64) by (rewrite Z.div_div by lia; f_equal).
  pose proof (Z.div_mod c 64 ltac:(lia)). pose proof (Z.mod_pos_bound c 64 ltac:(lia)).
  pose proof (Z.div_mod (c / 64) 64 ltac:(lia)). pose proof (Z.mod_pos_bound (c / 64) 64 ltac:(lia)).
  rewrite E. set (x := c / 64 / 64) in *. set (y := (c / 64) mod 64) in *. set (z := c mod 64) in *.
  assert (Hx : 0 <= x < 16) by lia.
  destruct (Z.ltb_spec (224 + x) 128); [lia|]. unfold second3_ok, is_cont, in_range.
  rewrite (proj2 (Z.leb_gt (224 + x) 223)) by lia. rewrite andb_false_r.
  rewrite !(proj2 (Z.leb_le 224 _)), (proj2 (Z.leb_le (224 + x) 239)) by lia. cbn [andb].
  rewrite (proj2 (Z.leb_le 128 (128 + z))), (proj2 (Z.leb_le (128 + z) 191)) by lia. cbn [andb].
  assert (Es : (if 224 + x =? 224 then (160 <=? 128 + y) && (128 + y <=? 191)
    else if 224 + x =? 237 then (128 <=? 128 + y) && (128 + y <=? 159)
    else (128 <=? 128 + y) && (128 + y <=? 191)) = true).
  { destruct (Z.eqb_spec (224 + x) 224); [|destruct (Z.eqb_spec (224 + x) 237)]; unfold is_scalar in Hc; lia. }
  rewrite Es. cbn [andb]. destruct (utf8_chars b); [|done]. cbn. do 2 f_equal. lia.
Qed.
Lemma utf8_chars_4 c b : is_scalar c -> 65536 <= c ->
  utf8_chars ([240 + c / 262144; 128 + c / 4096 mod 64; 128 + c / 64 mod 64; 128 + c mod 64] ++ b)
  = option_map (cons c) (utf8_chars b).
Proof.
  intros Hc Hr.
  cbn [app utf8_chars].
  assert (E : c / 4096 = c / 64 / 64) by (rewrite Z.div_div by lia; f_equal).
  assert (E2 : c / 262144 = c / 64 / 64 / 64) by (rewrite !Z.div_div by lia; f_equal).
  pose proof (Z.div_mod c 64 ltac:(lia)). pose proof (Z.mod_pos_bound c 64 ltac:(lia)).
  pose proof (Z.div_mod (c / 64) 64 ltac:(lia)). pose proof (Z.mod_pos_bound (c / 64) 64 ltac:(lia)).
  pose proof (Z.div_mod (c / 64 / 64) 64 ltac:(lia)). pose proof (Z.mod_pos_bound (c / 64 / 64) 64 ltac:(lia)).
  rewrite E, E2. set (x := c / 64 / 64 / 64) in *. set (u := (c / 64 / 64) mod 64) in *.
  set (y := (c / 64) mod 64) in *. set (z := c mod 64) in *.
  assert (Hx : 0 <= x < 5) by (unfold is_scalar in Hc; lia).
  destruct (Z.ltb_spec (240 + x) 128); [lia|]. unfold second4_ok, is_cont, in_range.
  rewrite (proj2 (Z.leb_gt (240 + x) 223)), (proj2 (Z.leb_gt (240 + x) 239)) by lia. rewrite !andb_false_r.
  rewrite (proj2 (Z.leb_le 240 _)), (proj2 (Z.leb_le (240 + x) 244)) by lia. cbn [andb].
  rewrite (proj2 (Z.leb_le 128 (128 + z))), (proj2 (Z.leb_le (128 + z) 191)) by lia.
  rewrite (proj2 (Z.leb_le 128 (128 + y))), (proj2 (Z.leb_le (128 + y) 191)) by lia. cbn [andb].
  assert (Es : (if 240 + x =? 240 then (144 <=? 128 + u) && (128 + u <=? 191)
    else if 240 + x =? 244 then (128 <=? 128 + u) && (128 + u <=? 143)
    else (128 <=? 128 + u) && (128 + u <=? 191)) = true).
  { destruct (Z.eqb_spec (240 + x) 240); [|destruct (Z.eqb_spec (240 + x) 244)]; unfold is_scalar in Hc; lia. }
  rewrite Es. cbn [andb]. destruct (utf8_chars b); [|done]. cbn. do 2 f_equal. lia.
Qed.
Lemma utf8_chars_cons c b : is_scalar c ->
  utf8_chars (utf8_char c ++ b) = option_map (cons c) (utf8_chars b).
Proof.
  intros Hc. unfold utf8_char.
  destruct (Z.ltb_spec c 128) as [H1|H1].
  { cbn [app utf8_chars]. destruct (Z.ltb_spec c 128); [|lia]. by destruct (utf8_chars b). }
  destruct (Z.ltb_spec c 2048) as [H2|H2]; [by apply utf8_chars_2|].
  destruct (Z.ltb_spec c 65536) as [H3|H3]; [by apply utf8_chars_3|by apply utf8_chars_4].
Qed.

Lemma utf8_roundtrip s : Forall is_scalar s -> from_utf8 (str_bytes s) = Done s.
Proof.
  intros Hs. unfold from_utf8. assert (E : utf8_chars (str_bytes s) = Some s); [|by rewrite E].
  induction Hs as [|c s Hc Hs IH]; [done|]. cbn [str_bytes flat_map].
  rewrite utf8_chars_cons by done. unfold str_bytes in IH. by rewrite IH.
Qed.

(** ** Passes over the keys *)

Lemma each_key_ok f l w w' l' :
  each_key f l w = (w', Done l') ->
  Forall2 (fun p p' => p.1 = p'.1 /\ exists v v', f p.2 v = (v', Done p'.2)) l l'.
Proof.
  revert w l'. induction l as [|[n k] l IH]; intros w l'; cbn [each_key].
  { intros [= _ <-]. constructor. }
  unfold mbind, M_bind. destruct (f k w) as [w1 [k'| |]] eqn:Ek; [|done..].
  destruct (each_key f l w1) as [w2 [l2| |]] eqn:El; [|done..]. intros [= <- <-].
  constructor; [|by eapply IH]. cbn. eauto.
Qed.
Lemma each_key_pure f g l w :
  (forall n k, (n, k) ∈ l -> f k w = (w, Done (g k))) ->
  each_key f l w = (w, Done (map (fun p => (p.1, g p.2)) l)).
Proof.
  induction l as [|[n k] l IH]; intros H; [done|]. cbn [each_key]. unfold mbind, M_bind.
  rewrite (H n k) by left. rewrite IH; [done|]. intros n' k' ?. apply (H n'). by right.
Qed.

Lemma list_to_map_related (R : StoredKey -> StoredKey -> Prop) l l' n :
  Forall2 (fun p p' => p.1 = p'.1 /\ R p.2 p'.2) l l' ->
  option_Forall2 R (list_to_map (M := gmap str StoredKey) l !! n) (list_to_map (M := gmap str StoredKey) l' !! n).
Proof.
  induction 1 as [|[m k] [m' k'] l l' [Hm Hk] _ IH]; cbn in *; [rewrite !lookup_empty; constructor|]. subst m'.
  destruct (decide (m = n)) as [->|]; [rewrite !lookup_insert_eq; by constructor|by rewrite !lookup_insert_ne].
Qed.
Lemma values_mut_ok f m w w' m' n :
  values_mut f m w = (w', Done m') ->
  option_Forall2 (fun k k' => exists v v', f k v = (v', Done k')) (m !! n) (m' !! n).
Proof.
  unfold values_mut, mbind, M_bind. destruct (each_key f (map_to_list m) w) as [w1 [l| |]] eqn:E; [|done..].
  intros [= _ <-]. rewrite <- (list_to_map_to_list m) at 1. apply list_to_map_related.
  by eapply each_key_ok.
Qed.
Lemma values_mut_pure f g m w :
  (forall n k, m !! n = Some k -> f k w = (w, Done (g k))) -> values_mut f m w = (w, Done (g <$> m)).
Proof.
  intros H. unfold values_mut, mbind, M_bind. rewrite (each_key_pure f g).
  - cbn. do 2 f_equal. rewrite <- (list_to_map_to_list m) at 2. by rewrite <- list_to_map_fmap.
  - intros n k Hk%elem_of_map_to_list. by apply (H n).
Qed.

Lemma str_bytes_digits s : Forall is_scalar s -> digits_of 256 (str_bytes s).
Proof.
  intros Hs. unfold digits_of, str_bytes. induction Hs as [|c s Hc _ IH]; [constructor|].
  cbn [flat_map]. apply Forall_app. split; [|exact IH]. unfold utf8_char, is_scalar in *.
  pose proof (Z.mod_pos_bound c 64 ltac:(lia)). pose proof (Z.mod_pos_bound (c / 64) 64 ltac:(lia)).
  pose proof (Z.mod_pos_bound (c / 4096) 64 ltac:(lia)).
  destruct (Z.ltb_spec c 128); [|destruct (Z.ltb_spec c 2048); [|destruct (Z.ltb_spec c 65536)]];
    repeat (apply Forall_cons; split); try apply Forall_nil_2; try lia.
  all: split; [|apply Z.lt_add_lt_sub_l, Z.div_lt_upper_bound]; try lia.
  all: match goal with |- 0 <= _ + ?q => assert (0 <= q) by (apply Z.div_pos; lia); lia end.
Qed.

(** ** Locking *)

Section vault.
Context `{!Crypto} `{!Signing} `{!Host} `{!HostLaws} `{!Vault} `{!VaultLaws}.

(** A file that is not locked: no encrypted seed, and texts of characters. *)
Definition plain_stored (k : StoredKey) : Prop :=
  encrypted_seed_hex k = None /\ Forall is_scalar (default [] (seed_hex k)).
Definition plain (ks : Keystore) : Prop := lock ks = None /\ map_Forall (fun _ k => plain_stored k) (keys ks).

Lemma decrypt_seed_encrypted key nonce seed cipher :
  length nonce = NONCE_LEN -> digits_of 256 nonce -> Forall is_scalar seed ->
  encrypt_bytes key nonce (str_bytes seed) = Done cipher ->
  decrypt_seed key (cli_hex_encode (nonce ++ cipher)) = Done seed.
Proof.
  intros Hn Hb Hs. unfold encrypt_bytes. destruct (aes_encrypt key nonce (str_bytes seed)) as [c|] eqn:E; [|done].
  intros [= ->]. unfold decrypt_seed. rewrite cli_hex_roundtrip.
  2:{ apply Forall_app. split; [exact Hb|]. eapply aes_bytes; [exact E|by apply str_bytes_digits]. }
  cbn [mbind run_bind]. rewrite length_app, Hn, (aes_length _ _ _ _ E).
  destruct (Nat.ltb_spec (NONCE_LEN + (length (str_bytes seed) + 16)) (NONCE_LEN + 1)); [lia|].
  unfold decrypt_bytes. rewrite take_app_length', drop_app_length', Hn, (aes_roundtrip _ _ _ _ E) by lia.
  cbn. by apply utf8_roundtrip.
Qed.

(** A sealed key has no seed in the clear, and its seed is there to decrypt. *)
Definition sealed (derived : bytes) (k k' : StoredKey) : Prop :=
  seed_hex k' = None /\ account_id_hex k' = account_id_hex k /\ k_scheme k' = k_scheme k
  /\ match seed_hex k, encrypted_seed_hex k' with
     | Some s, Some enc => decrypt_seed derived enc = Done s /\ k = set_seed (Some s) None k'
     | None, None => k = k'
     | _, _ => False
     end.
Lemma lock_key_opens derived k v v' k' :
  plain_stored k -> lock_key derived k v = (v', Done k') -> sealed derived k k'.
Proof.
  intros [He Hs]. unfold lock_key, sealed. destruct k as [name [s|] pub acc enc sch]; cbn in *; subst enc.
  2:{ intros [= _ <-]. done. }
  unfold mbind, M_bind, random_bytes, lift, encrypt_bytes.
  destruct (aes_encrypt _ _ _) as [c|] eqn:E; [|done]. intros [= _ <-]. cbn.
  do 3 (split; [done|]). split; [|done]. apply decrypt_seed_encrypted; [apply h_random_length|apply h_random_bytes|done|].
  unfold encrypt_bytes. by rewrite E.
Qed.

(** The lock that is made fits the password it is made with. *)
Definition opens_with (l : LockMeta) (password : str) (derived : bytes) : Prop := open_lock l password = Done derived.

Lemma lock_opens password derived nonce cipher salt :
  digits_of 256 salt -> digits_of 256 nonce -> length nonce = NONCE_LEN ->
  derive_key password salt = Done derived -> encrypt_bytes derived nonce VERIFY_TOKEN = Done cipher ->
  opens_with (mkLock (cli_hex_encode salt) (cli_hex_encode nonce) (cli_hex_encode cipher)) password derived.
Proof.
  intros Hs Hn Hl Hd. unfold encrypt_bytes. destruct (aes_encrypt _ _ _) as [c|] eqn:E; [|done]. intros [= ->].
  unfold opens_with, open_lock, verify_password. cbn [salt_hex verify_nonce_hex verify_ciphertext_hex].
  rewrite (cli_hex_roundtrip salt) by done. cbn [mbind run_bind]. rewrite Hd. cbn [mbind run_bind].
  rewrite (cli_hex_roundtrip nonce) by done. cbn [mbind run_bind]. rewrite (cli_hex_roundtrip cipher).
  2:{ eapply aes_bytes; [exact E|]. apply (bool_decide_unpack _). by vm_compute. }
  cbn [mbind run_bind]. unfold decrypt_bytes. rewrite Hl, (aes_roundtrip _ _ _ _ E). cbn [negb Nat.eqb NONCE_LEN mbind run_bind].
  by rewrite (bool_decide_eq_false_2 (VERIFY_TOKEN ≠ VERIFY_TOKEN)) by congruence.
Qed.

(** What locking gives: a lock that opens with the password, and the keys, each
    sealed under the key derived from it. *)
Lemma lock_keystore_ok ks password w w' ks' :
  plain ks -> lock_keystore ks password w = (w', Done ks') ->
  exists l derived, lock ks' = Some l /\ opens_with l password derived
    /\ forall n, option_Forall2 (sealed derived) (keys ks !! n) (keys ks' !! n).
Proof.
  intros [_ Hk]. unfold lock_keystore. destruct (is_locked ks); [done|]. case_bool_decide; [done|].
  unfold mbind, M_bind, random_bytes at 1 2, lift. cbv zeta.
  destruct (derive_key password _) as [derived| |] eqn:Ed; [|done..].
  destruct (encrypt_bytes derived _ VERIFY_TOKEN) as [c| |] eqn:Ec; [|done..].
  match goal with |- context [values_mut ?f ?m ?v] => destruct (values_mut f m v) as [w2 [m'| |]] eqn:Ev end; [|done..].
  intros [= _ <-]. eexists _, derived. cbn [lock keys]. split; [done|]. split.
  { eapply lock_opens; [..|exact Ec]; try exact Ed; apply h_random_bytes || apply h_random_length. }
  intros n. pose proof (values_mut_ok _ _ _ _ _ n Ev) as Hn. destruct (keys ks !! n) as [k|] eqn:E, (m' !! n) as [k'|];
    inversion_clear Hn as [? ? (v & v' & Hf)|]; constructor.
  eapply lock_key_opens; [|exact Hf]. by apply (Hk n).
Qed.

Lemma sealed_unlocks derived k k' v :
  plain_stored k -> sealed derived k k' -> unlock_key derived k' v = (v, Done k).
Proof.
  intros [He _] (_ & _ & _ & Hm). unfold unlock_key.
  destruct (seed_hex k) as [s|] eqn:Es, (encrypted_seed_hex k') as [enc|] eqn:Ee; try done.
  - destruct Hm as [Hd ->]. unfold mbind, M_bind, lift. by rewrite Hd.
  - by subst k'.
Qed.

(** With the same key, and the right password, the locked file gives the same
    signer. *)
Lemma sealed_loads ks ks' l derived password n v :
  plain ks -> lock ks' = Some l -> opens_with l password derived -> password <> [] ->
  option_Forall2 (sealed derived) (keys ks !! n) (keys ks' !! n) ->
  h_password (w_prompts v) = Some password ->
  snd (load_keypair ks' n v) = snd (load_keypair ks n v).
Proof.
  intros [_ Hp] Hl Ho Hne Hn Hpw. unfold load_keypair.
  destruct (keys ks !! n) as [k|] eqn:Ek, (keys ks' !! n) as [k'|]; inversion_clear Hn as [? ? Hs|]; [|done].
  destruct (Hp n k Ek) as [He _]. destruct Hs as (Hs' & Ha & Hsch & Hm).
  unfold seed_text. rewrite Hs'. destruct (seed_hex k) as [s|] eqn:Es, (encrypted_seed_hex k') as [enc|] eqn:Ee; try done.
  - rewrite Hl. unfold mbind, M_bind, prompt_password, ask_password, mbind, M_bind. rewrite Hpw.
    rewrite bool_decide_eq_false_2 by done. destruct Hm as [Hd _]. unfold lift, mret, M_ret.
    unfold opens_with in Ho. rewrite Ho. cbn [mbind run_bind]. rewrite Hd. unfold signer_from. by rewrite Ha, Hsch.
  - by rewrite He.
Qed.

(** Locking does not fail if the derivation and the encryption do not. *)
Lemma lock_keystore_total ks password w :
  lock ks = None -> keys ks <> ∅ -> (forall p s, is_Some (argon2 p s)) ->
  (forall key nonce text, is_Some (aes_encrypt key nonce text)) ->
  exists w' ks', lock_keystore ks password w = (w', Done ks').
Proof.
  intros Hl Hne Ha He. unfold lock_keystore, is_locked. rewrite Hl, !bool_decide_eq_false_2; [|done|by intros [? ?]].
  unfold mbind, M_bind, random_bytes, lift, derive_key, encrypt_bytes. cbv zeta.
  destruct (Ha (str_bytes password) (h_random (w_draws w) SALT_LEN)) as [key ->].
  match goal with |- context [aes_encrypt key ?n ?t] => destruct (He key n t) as [c ->] end.
  match goal with |- context [values_mut _ _ ?v] => generalize v end. intros v.
  assert (E : exists v' l, each_key (lock_key key) (map_to_list (keys ks)) v = (v', Done l)).
  { generalize (map_to_list (keys ks)). intros l. revert v. induction l as [|[n k] l IH]; intros v; [by eexists _, _|].
    cbn [each_key]. unfold mbind, M_bind, lock_key at 1. destruct (seed_hex k) as [s|].
    - unfold mbind, M_bind, random_bytes, lift, encrypt_bytes.
      match goal with |- context [aes_encrypt key ?n ?t] => destruct (He key n t) as [c' ->] end.
      unfold mret, M_ret. match goal with |- context [each_key _ l ?u] => destruct (IH u) as (v' & l' & ->) end. by eexists _, _.
    - unfold mret, M_ret. destruct (IH v) as (v' & l' & ->). by eexists _, _. }
  destruct E as (v' & l & E). unfold values_mut, mbind, M_bind. rewrite E. by eexists _, _.
Qed.

End vault.

(** ** Signatures *)

Section signatures.
Context `{!Crypto} `{!Signing} `{!SigningLaws}.

(** What a signer of the command line signs, the node accepts under the method
    the signer stands for; post-quantum methods once they are active. *)
Theorem signer_accepted s msg pq :
  (pq = true \/ exists seed, s = SignEd25519 seed) ->
  option_map chars (verify_auth (auth_method s) msg (signer_sign s msg) pq) = Some (signer_scheme s).
Proof.
  intros Hpq. destruct s as [seed|seed|ed ml]; cbn [auth_method signer_sign verify_auth signer_scheme].
  - by rewrite ed_sign_length, ed_sign_verifies.
  - destruct Hpq as [->|[? ?]]; [|done]. cbn [negb]. by rewrite ml_sign_verifies.
  - destruct Hpq as [->|[? ?]]; [|done]. cbn [negb].
    rewrite length_app, ed_sign_length, ml_sign_length, Nat.eqb_refl. cbn [negb].
    rewrite take_app_length', drop_app_length' by by rewrite ed_sign_length.
    by rewrite ed_sign_verifies, ml_sign_verifies.
Qed.
End signatures.

(** ** Validation *)

Section validation.
Context {S : Type} `{!StateStore S} `{!StateStoreLaws S} `{!Codec Account} `{!CodecLaws Account}.
Context `{!Crypto} `{!Signing} `{!SigningLaws} `{!Codec (list Action)}.
Implicit Types s : S.

Lemma signature_not_system signer msg : bytes_eqb (signer_sign signer msg) [255] = false.
Proof.
  unfold bytes_eqb. apply bool_decide_eq_false_2. intros E. apply (f_equal (@length Z)) in E.
  change (length [255]) with 1%nat in E. revert E.
  destruct signer; cbn [signer_sign]; rewrite ?length_app, ?ed_sign_length, ?ml_sign_length; unfold ML_DSA_SIG_LEN; lia.
Qed.

(** An operation signed with a key passes the validation of the node if the
    account is under the method of that key alone, the nonce is the next one
    and the chain is the right one; post-quantum keys once they are active. *)
Theorem signed_operation_validates cfg s op height account signer :
  load_account s (op_sender op) = Ok (Some account) -> auth_methods account = [auth_method signer] ->
  nonce account = op_nonce op -> op_nonce op <> u64_max ->
  op_signature op = signer_sign signer (signing_message (chain_id cfg) op) ->
  (pq_auth_height cfg <= height \/ exists seed, signer = SignEd25519 seed) ->
  exists s', validate_and_prepare cfg s op height = Ok (s', prepared_plain).
Proof.
  intros Hl Hm Hn Hmax Hsig Hpq. unfold validate_and_prepare. rewrite Hl.
  assert (Hsys : is_system_authorized op = false) by (unfold is_system_authorized; by rewrite Hsig, signature_not_system).
  rewrite Hsys, Hm. unfold operation_signing_message. rewrite Hsig. cbn [existsb].
  pose proof (signer_accepted signer (signing_message (chain_id cfg) op) (pq_auth_height cfg <=? height)) as Ha.
  destruct (verify_auth _ _ _ _) as [name|]; [|exfalso; assert (Hbad : None = Some (signer_scheme signer)); [|done];
    apply Ha; destruct Hpq as [Hpq|?]; [left; by apply Z.leb_le|by right]].
  rewrite bool_decide_eq_true_2 by done. cbn [orb negb List.find].
  assert (Hs : forall msg sig, is_matching_session msg sig (auth_method signer) = false) by by destruct signer.
  rewrite Hs. cbn [rbind]. unfold consume_nonce.
  assert (Hr : require_account s (op_sender op) = Ok account) by by apply require_account_spec.
  rewrite Hr. cbn [rbind]. rewrite Hn, Z.eqb_refl. cbn [negb].
  rewrite (proj2 (Z.eqb_neq _ _)) by done. rewrite save_or_keep_eq. by eexists.
Qed.
End validation.

(** ** A small wallet *)

#[export] Instance toy_vault : Vault := {|
  argon2 p s := Some (p ++ s);
  aes_encrypt _ _ t := Some (t ++ replicate 16 0);
  aes_decrypt _ _ c := Some (take (length c - 16) c);
|}.
#[export] Instance toy_vault_laws : VaultLaws.
Proof.
  split; cbn; intros key nonce text cipher [= <-].
  - rewrite length_app. cbn [length]. f_equal. apply take_app_length'. lia.
  - by rewrite length_app.
  - intros Ht. apply Forall_app. split; [exact Ht|]. repeat constructor; lia.
Qed.
#[export] Instance toy_host : Host := {|
  h_password _ := Some (chars "correct horse");
  h_write_fails _ := false;
  h_random i n := replicate n (Z.of_nat i mod 256);
|}.
#[export] Instance toy_host_laws : HostLaws.
Proof. split; intros i n; cbn; [apply length_replicate|]. apply Forall_replicate. by apply Z.mod_pos_bound. Qed.
#[export] Instance toy_signing : Signing := {|
  ed_public seed := take 32 (map (fun x => x mod 256) seed ++ replicate 32 0);
  ed_sign seed msg := take 64 (replicate 32 1 ++ replicate 32 2);
  ml_public seed := 3 :: seed;
  ml_sign seed msg := replicate ML_DSA_SIG_LEN 4;
|}.

Definition toy_world : World := mkWorld NoFile [] [] 0 0.
Definition toy_seed : bytes := replicate 32 5.
Definition toy_keystore : Keystore :=
  mkKeystore {[chars "alice" := plain_key (chars "alice") toy_seed; chars "bob" := plain_key (chars "bob") (replicate 32 6)]} None.

Lemma toy_keystore_plain : plain toy_keystore.
Proof.
  split; [done|]. unfold toy_keystore. cbn [keys].
  apply map_Forall_insert_2; [|apply map_Forall_singleton].
  all: split; [done|]; apply (bool_decide_unpack _); by vm_compute.
Qed.


Example toy_loads : snd (load_keypair toy_keystore (chars "alice") toy_world)
  = Done (SignEd25519 toy_seed, ed_public toy_seed).
Proof. by vm_compute. Qed.
