(* ===== verification/Cli.v ===== *)
(** The commands of the command line ([crates/solen-cli/src/commands.rs],
    [main.rs], [rpc.rs]): what each asks of a node, signs, submits, stores and
    prints. The answers of the node are parameters; they may depend on all that
    was asked before. *)

From S2P Require Import Prelude Types Store SysCommon State Auth Address Rpc Keystore.
Open Scope Z_scope.

(** ** The node, as the client sees it ([rpc.rs]) *)

Record AccountView : Type := mkAccountView {
  av_id : str; av_balance : str; av_nonce : u64; av_code_hash : str;
}.
Record SubmitReply : Type := mkSubmitReply { sr_accepted : bool; sr_reason : option str }.
Record SimReply : Type := mkSimReply { sim_ok : bool; sim_gas_used : u64; sim_error : option str }.
Record ProposalInfo : Type := mkProposalInfo {
  pi_id : u64; pi_proposer : str; pi_voting_end_epoch : u64; pi_execute_after_epoch : u64;
}.
Record StatusView : Type := mkStatusView { sv_height : u64; sv_state_root : str; sv_pending_ops : u64 }.
Record BlockView : Type := mkBlockView {
  bv_height : u64; bv_epoch : u64; bv_parent_hash : str; bv_state_root : str; bv_proposer : str;
  bv_timestamp_ms : u64; bv_tx_count : u64; bv_gas_used : u64;
}.
Record ValidatorView : Type := mkValidatorView {
  vv_address : str; vv_self_stake : str; vv_total_delegated : str; vv_total_stake : str;
  vv_is_active : bool; vv_is_genesis : bool;
}.

(** The node and the surroundings of the process: each answer may depend on
    the requests so far. [n_to_value] is whether [serde_json] can represent an
    operation, [n_auth_json] its text of a list of methods, [n_read_file] the
    contents of a file, [n_f64_2] a float with two decimals, [n_now] the time
    in seconds. *)
Class Node : Type := {
  n_account : list Request -> result AccountView str;
  n_next_nonce : list Request -> result u64 str;
  n_balance : list Request -> result str str;
  n_submit : list Request -> result SubmitReply str;
  n_simulate : list Request -> result SimReply str;
  n_proposals : list Request -> result (list ProposalInfo) str;
  n_status : list Request -> result StatusView str;
  n_block : list Request -> result BlockView str;
  n_validators : list Request -> result (list ValidatorView) str;
  n_to_value : UserOperation -> bool;
  n_auth_json : list AuthMethod -> bytes;
  n_read_file : str -> result bytes str;
  n_f64_2 : u128 -> str;
  n_now : u64;
}.

Definition ask {A} (r : Request) (answer : list Request -> result A str) : M A := fun w =>
  let reqs := w_requests w ++ [r] in
  (mkWorld (w_file w) reqs (w_out w) (w_draws w) (w_prompts w),
   match answer reqs with Ok a => Done a | Err m => Failed (RpcFailed m) end).

(** [.await.unwrap_or(d)] and [.await.ok()]. *)
Definition unwrap_or {A} (d : A) (m : M A) : M A := fun w =>
  match m w with (w, Failed _) => (w, Done d) | r => r end.
Definition ok {A} (m : M A) : M (option A) := fun w =>
  let '(w, r) := m w in
  (w, match r with Done a => Done (Some a) | Failed _ => Done None | Crashed => Crashed end).

Section rpc.
Context `{!Node}.

Definition get_account (id : str) : M AccountView := ask (GetAccount id) n_account.
Definition get_next_nonce (id : str) : M u64 := ask (GetNextNonce id) n_next_nonce.
Definition rpc_get_balance (id : str) : M str := ask (GetBalance id) n_balance.
Definition submit_op (op : UserOperation) : M SubmitReply := ask (Submit op) n_submit.
Definition simulate_op (op : UserOperation) : M SimReply := ask (Simulate op) n_simulate.
Definition get_governance_proposals : M (list ProposalInfo) := ask GetProposals n_proposals.
Definition chain_status : M StatusView := ask ChainStatusReq n_status.
Definition get_block (height : option u64) : M BlockView := ask (GetBlock height) n_block.
Definition get_validators : M (list ValidatorView) := ask GetValidators n_validators.
Definition to_value (op : UserOperation) : M unit :=
  if n_to_value op then mret tt else bail (Bail "number out of range").
End rpc.

(** ** Text *)

Definition RULE (n : nat) : str := replicate n 9472.

(** [&s[..n]] and [&s[s.len() - n..]], by bytes. *)
Fixpoint slice_to (n : nat) (s : str) : run str :=
  match n, s with
  | O, _ => Done []
  | _, [] => Crashed
  | _, c :: s =>
    if (str_len [c] <=? n)%nat then rest ← slice_to (n - str_len [c]) s; Done (c :: rest) else Crashed
  end.
Fixpoint slice_from (n : nat) (s : str) : run str :=
  match n, s with
  | O, _ => Done s
  | _, [] => Crashed
  | _, c :: s => if (str_len [c] <=? n)%nat then slice_from (n - str_len [c]) s else Crashed
  end.
Definition last_bytes (n : nat) (s : str) : run str :=
  if (str_len s <? n)%nat then Crashed else slice_from (str_len s - n) s.

(** [{:<n}] and [{:>n}]. *)
Definition pad_right (n : nat) (s : str) : str := s ++ replicate (n - length s) 32.
Definition pad_left (n : nat) (s : str) : str := replicate (n - length s) 32 ++ s.

Fixpoint find_dot (s : str) : option (str * str) :=
  match s with
  | [] => None
  | c :: s' => if c =? 46 then Some ([], s')
               else match find_dot s' with Some (a, b) => Some (c :: a, b) | None => None end
  end.
Definition parse_or (e : CliError) (s : str) : run u128 :=
  match parse_u128 s with Some n => Done n | None => Failed e end.

(** [main.rs]. *)
Definition parse_solen_amount (s : str) : run u128 :=
  let multiplier := 10 ^ 8 in
  match find_dot s with
  | Some (whole_str, frac_str) =>
    whole ← parse_or (Bail "invalid amount") whole_str;
    let frac_len := str_len frac_str in
    if (8 <? frac_len)%nat then Failed (Bail "too many decimal places (max 8)")
    else
    frac ← parse_or (Bail "invalid amount") frac_str;
    let frac_multiplier := 10 ^ (8 - Z.of_nat frac_len) in
    Done (u128_add (u128_mul whole multiplier) (u128_mul frac frac_multiplier))
  | None => whole ← parse_or (Bail "invalid amount") s; Done (u128_mul whole multiplier)
  end.
(** The other one, of [commands.rs]. *)
Definition parse_bridge_amount (s : str) : run u128 :=
  let DECIMALS := 100000000 in
  match find_dot s with
  | Some (whole_str, frac_str) =>
    whole ← parse_or BadNumber whole_str;
    let frac_len := Nat.min (str_len frac_str) 8 in
    frac_digits ← slice_to frac_len frac_str;
    frac ← parse_or BadNumber frac_digits;
    let multiplier := 10 ^ (8 - Z.of_nat frac_len) in
    Done (u128_add (u128_mul whole DECIMALS) (u128_mul frac multiplier))
  | None => whole ← parse_or BadNumber s; Done (u128_mul whole DECIMALS)
  end.

Definition zero_padded (n : nat) (s : str) : str := replicate (n - length s) 48 ++ s.
Definition trim_end_zeros (s : str) : str := rev (drop_while (fun c => c =? 48) (rev s)).
Definition format_solen (base_units : u128) : str :=
  let whole := base_units / 100000000 in
  let frac := base_units mod 100000000 in
  if frac =? 0 then decimal whole
  else decimal whole ++ [46] ++ trim_end_zeros (zero_padded 8 (decimal frac)).

(** ** Commands *)

(** The reserved address [t] with [t[31] = n]. *)
Definition system_address (n : Z) : AccountId := replicate 31 255 ++ [n].

Section commands.
Context `{!Crypto} `{!Signing} `{!Host} `{!Vault} `{!Node} `{!Codec (list Action)}.

Definition resolve_account_id (input : str) : M AccountId :=
  match parse_address input with
  | Returned (Ok id) => mret id
  | Panicked => lift Crashed
  | Returned (Err _) =>
    ks ← load_keystore;
    match keys ks !! input with
    | Some key => lift (address_or "invalid stored account_id" (account_id_hex key))
    | None => mret (name_to_account_id input)
    end
  end.

Definition sign_op (op : UserOperation) (signer : Signer) (chain_id : u64) : UserOperation :=
  mkUserOperation (op_sender op) (op_nonce op) (op_actions op) (op_max_fee op)
    (signer_sign signer (signing_message chain_id op)).

Definition load_sender (from : str) : M (Signer * AccountId) := ks ← load_keystore; load_keypair ks from.

(** The operation with the next nonce, or [fallback] if the node does not
    tell, signed. *)
Definition signed_with (signer : Signer) (sender : AccountId) (fallback : u64) (actions : list Action)
    (max_fee : u128) (chain_id : u64) : M UserOperation :=
  nonce ← unwrap_or fallback (get_next_nonce (account_to_base58 sender));
  mret (sign_op (mkUserOperation sender nonce actions max_fee []) signer chain_id).

Definition print_all (lines : list str) : M unit := foldr (fun l m => println l;; m) (mret tt) lines.
(** What is printed of the reply to a submission. *)
Definition report (result : SubmitReply) (accepted : list str) (refused : string) : M unit :=
  if sr_accepted result then print_all accepted else println (chars refused ++ default [] (sr_reason result)).
(** Submission of an operation of one action, and the report. *)
Definition send (op : UserOperation) (accepted : list str) (refused : string) : M unit :=
  to_value op;;
  result ← submit_op op;
  report result accepted refused.
(** The same after a simulation. *)
Definition simulate_and_send (op : UserOperation) (simulated : u64 -> str) (accepted : list str) : M unit :=
  to_value op;;
  sim ← simulate_op op;
  if negb (sim_ok sim) then println (chars "Simulation failed: " ++ default [] (sim_error sim))
  else
  println (simulated (sim_gas_used sim));;
  result ← submit_op op;
  report result accepted "Rejected: ".

(** *** Queries *)

Definition cmd_status : M unit :=
  status ← chain_status;
  block ← get_block None;
  println (chars "Solen Network Status");;
  println (RULE 40);;
  println (chars "  Height:      " ++ decimal (sv_height status));;
  head ← lift (slice_to 12 (sv_state_root status));
  tail ← lift (last_bytes 8 (sv_state_root status));
  println (chars "  State root:  " ++ head ++ chars "..." ++ tail);;
  println (chars "  Pending ops: " ++ decimal (sv_pending_ops status));;
  println (chars "  Epoch:       " ++ decimal (bv_epoch block));;
  proposer ← lift (slice_to 16 (bv_proposer block));
  println (chars "  Proposer:    " ++ proposer ++ chars "...");;
  println (chars "  Gas used:    " ++ decimal (bv_gas_used block)).

Definition validator_status (v : ValidatorView) : str :=
  if vv_is_active v then if vv_is_genesis v then chars "GENSIS" else chars "ACTIVE" else chars "INACTV".
Definition print_validator (v : ValidatorView) : M unit :=
  short ← lift (slice_to 16 (vv_address v));
  println (pad_right 6 (validator_status v) ++ chars " " ++ short ++ chars "...  "
    ++ pad_left 14 (vv_self_stake v) ++ chars " " ++ pad_left 14 (vv_total_delegated v) ++ chars " "
    ++ pad_left 14 (vv_total_stake v)).
Definition cmd_validators : M unit :=
  validators ← get_validators;
  if bool_decide (length validators = 0%nat) then println (chars "No validators registered.")
  else
  println (pad_right 6 (chars "STATUS") ++ chars " " ++ pad_right 18 (chars "ADDRESS") ++ chars " "
    ++ pad_left 14 (chars "SELF STAKE") ++ chars " " ++ pad_left 14 (chars "DELEGATED") ++ chars " "
    ++ pad_left 14 (chars "TOTAL"));;
  println (RULE 70);;
  foldr (fun v m => print_validator v;; m) (mret tt) validators;;
  println [];;
  println (decimal (Z.of_nat (length validators)) ++ chars " validators ("
    ++ decimal (Z.of_nat (length (List.filter vv_is_active validators))) ++ chars " active)").

Definition cmd_balance (account : str) : M unit :=
  account_id ← resolve_account_id account;
  balance ← rpc_get_balance (account_to_base58 account_id);
  println balance.

Definition code_hash_text (h : str) : run str :=
  if forallb (fun c => c =? 48) h then Done (chars "(none)")
  else short ← slice_to 16 h; Done (short ++ chars "...").
Definition cmd_account (account : str) : M unit :=
  account_id ← resolve_account_id account;
  info ← get_account (account_to_base58 account_id);
  print_all [chars "Account"; RULE 40; chars "  ID:        " ++ av_id info;
             chars "  Balance:   " ++ av_balance info; chars "  Nonce:     " ++ decimal (av_nonce info)];;
  hash ← lift (code_hash_text (av_code_hash info));
  println (chars "  Code hash: " ++ hash).

Definition format_timestamp (ms : u64) : str :=
  let ago := sat_sub n_now (ms / 1000) in
  if ago <? 60 then decimal ago ++ chars "s ago"
  else if ago <? 3600 then decimal (ago / 60) ++ chars "m ago"
  else decimal (ago / 3600) ++ chars "h ago".
Definition cmd_block (height : option u64) : M unit :=
  block ← get_block height;
  print_all [chars "Block #" ++ decimal (bv_height block); RULE 40; chars "  Epoch:      " ++ decimal (bv_epoch block)];;
  proposer ← lift (slice_to 16 (bv_proposer block));
  println (chars "  Proposer:   " ++ proposer ++ chars "...");;
  root ← lift (slice_to 16 (bv_state_root block));
  print_all [chars "  State root: " ++ root ++ chars "..."; chars "  Txs:        " ++ decimal (bv_tx_count block);
             chars "  Gas used:   " ++ decimal (bv_gas_used block);
             chars "  Time:       " ++ format_timestamp (bv_timestamp_ms block)].

(** *** Governance *)

Definition as_i64 (x : u64) : Z := if x <? 2 ^ 63 then x else x - 2 ^ 64.
Definition current_max_proposal_id : M Z :=
  o ← ok get_governance_proposals;
  mret (match o with
        | Some (p :: l) => foldl (fun m p => Z.max m (as_i64 (pi_id p))) (as_i64 (pi_id p)) l
        | _ => -1
        end).

(** [filter(..).max_by_key(|p| p.id)]: the last of the largest. *)
Definition newest_of (proposer_b58 : str) (prev_max_id : Z) (l : list ProposalInfo) : option ProposalInfo :=
  foldl (fun best p =>
    if (prev_max_id <? as_i64 (pi_id p)) && bool_decide (pi_proposer p = proposer_b58) then
      match best with
      | Some b => if pi_id b <=? pi_id p then Some p else best
      | None => Some p
      end
    else best) None l.
Definition print_proposal (p : ProposalInfo) : M unit :=
  let id := decimal (pi_id p) in
  print_all [[]; chars "Proposal #" ++ id ++ chars " is now Active.";
    chars "  Voting ends at epoch " ++ decimal (pi_voting_end_epoch p) ++ chars "; executable after epoch "
      ++ decimal (pi_execute_after_epoch p) ++ chars " (post-timelock).";
    chars "  Vote:     solen vote <key> " ++ id ++ chars " --yes --weight <stake>";
    chars "  Finalize: solen finalize-proposal <key> " ++ id ++ chars "   (after epoch "
      ++ decimal (pi_voting_end_epoch p) ++ chars ")";
    chars "  Execute:  solen execute-proposal <key> " ++ id ++ chars "    (after epoch "
      ++ decimal (pi_execute_after_epoch p) ++ chars ")"].
(** Polls at most ten times. *)
Fixpoint announce_loop (n : nat) (proposer_b58 : str) (prev_max_id : Z) : M unit :=
  match n with
  | O => print_all [[]; chars "Proposal submitted; it will appear within a block or two.";
           chars "  Use `solen_getGovernanceProposals` to get its id and voting window."]
  | S n =>
    o ← ok get_governance_proposals;
    match o with
    | None => announce_loop n proposer_b58 prev_max_id
    | Some l =>
      match newest_of proposer_b58 prev_max_id l with
      | Some p => print_proposal p
      | None => announce_loop n proposer_b58 prev_max_id
      end
    end
  end.
Definition announce_proposal (proposer_b58 : str) (prev_max_id : Z) : M unit := announce_loop 10 proposer_b58 prev_max_id.

Definition send_proposal (sender : AccountId) (op : UserOperation) (done : str) (description : str) : M unit :=
  to_value op;;
  prev_max_id ← current_max_proposal_id;
  result ← submit_op op;
  if sr_accepted result then
    println (chars "Proposal submitted: " ++ done);;
    println (chars "  Description: " ++ description);;
    announce_proposal (account_to_base58 sender) prev_max_id
  else println (chars "Failed: " ++ default [] (sr_reason result)).

Definition cmd_propose_set_bridge_relayer (from relayer description : str) (chain_id : u64) : M unit :=
  '(kp, sender) ← load_sender from;
  info ← get_account (account_to_base58 sender);
  relayer_id ← resolve_account_id relayer;
  op ← signed_with kp sender (av_nonce info)
         [Call (system_address 2) "propose_set_bridge_relayer" (relayer_id ++ str_bytes description)] 100000 chain_id;
  send_proposal sender op (chars "set bridge relayer to " ++ account_to_base58 relayer_id) description.
Definition cmd_propose_set_vesting_admin (from admin description : str) (chain_id : u64) : M unit :=
  '(kp, sender) ← load_sender from;
  info ← get_account (account_to_base58 sender);
  admin_id ← resolve_account_id admin;
  op ← signed_with kp sender (av_nonce info)
         [Call (system_address 2) "propose_set_vesting_admin" (admin_id ++ str_bytes description)] 100000 chain_id;
  send_proposal sender op (chars "set vesting admin to " ++ account_to_base58 admin_id) description.
Definition cmd_propose_set_voting_period (from : str) (epochs : u64) (description : str) (chain_id : u64) : M unit :=
  '(kp, sender) ← load_sender from;
  info ← get_account (account_to_base58 sender);
  op ← signed_with kp sender (av_nonce info)
         [Call (system_address 2) "propose_set_voting_period" (le_bytes 8 epochs ++ str_bytes description)] 100000 chain_id;
  send_proposal sender op (chars "set governance voting period to " ++ decimal epochs ++ chars " epochs") description.
Definition cmd_propose_migrate_team_pool_to_vesting (from description : str) (chain_id : u64) : M unit :=
  '(kp, sender) ← load_sender from;
  info ← get_account (account_to_base58 sender);
  op ← signed_with kp sender (av_nonce info)
         [Call (system_address 2) "propose_migrate_team_pool_to_vesting" (str_bytes description)] 100000 chain_id;
  send_proposal sender op (chars "migrate team pool -> vesting vault") description.
Definition cmd_propose_block_time (from : str) (new_block_time_ms : u64) (description : str) (chain_id : u64) : M unit :=
  '(kp, sender) ← load_sender from;
  info ← get_account (account_to_base58 sender);
  op ← signed_with kp sender (av_nonce info)
         [Call (system_address 2) "propose_set_block_time" (le_bytes 8 new_block_time_ms ++ str_bytes description)]
         100000 chain_id;
  send_proposal sender op (chars "change block time to " ++ decimal new_block_time_ms ++ chars "ms") description.
Definition cmd_propose_min_stake (from : str) (new_min_stake : u128) (description : str) (chain_id : u64) : M unit :=
  '(kp, sender) ← load_sender from;
  info ← get_account (account_to_base58 sender);
  op ← signed_with kp sender (av_nonce info)
         [Call (system_address 2) "propose_set_min_validator_stake" (le_bytes 16 new_min_stake ++ str_bytes description)]
         100000 chain_id;
  send_proposal sender op (chars "change minimum validator stake to " ++ decimal new_min_stake ++ chars " base units")
    description.

Definition vote_args (proposal_id : u64) (support : bool) (weight : u128) : bytes :=
  le_bytes 8 proposal_id ++ [if support then 1 else 0] ++ le_bytes 16 weight.
Definition cmd_vote (from : str) (proposal_id : u64) (support : bool) (weight : u128) (chain_id : u64) : M unit :=
  '(kp, sender) ← load_sender from;
  info ← get_account (account_to_base58 sender);
  op ← signed_with kp sender (av_nonce info)
         [Call (system_address 2) "vote" (vote_args proposal_id support weight)] 100000 chain_id;
  send op [chars "Vote submitted: " ++ (if support then chars "YES" else chars "NO") ++ chars " on proposal #"
           ++ decimal proposal_id] "Failed: ".

(** The calls with an identifier as their only argument. *)
Definition call_with_id (from : str) (target : Z) (method : string) (id : u64) (done : str) (chain_id : u64) : M unit :=
  '(kp, sender) ← load_sender from;
  info ← get_account (account_to_base58 sender);
  op ← signed_with kp sender (av_nonce info) [Call (system_address target) method (le_bytes 8 id)] 100000 chain_id;
  send op [done] "Failed: ".
Definition cmd_finalize_proposal (from : str) (id : u64) (chain_id : u64) : M unit :=
  call_with_id from 2 "finalize" id (chars "Proposal #" ++ decimal id ++ chars " finalized.") chain_id.
Definition cmd_execute_proposal (from : str) (id : u64) (chain_id : u64) : M unit :=
  call_with_id from 2 "execute" id (chars "Proposal #" ++ decimal id ++ chars " executed!") chain_id.
Definition cmd_confirm_recovery (from : str) (id : u64) (chain_id : u64) : M unit :=
  call_with_id from 8 "confirm_recovery" id (chars "Recovery #" ++ decimal id ++ chars " confirmed.") chain_id.
Definition cmd_cancel_recovery (from : str) (id : u64) (chain_id : u64) : M unit :=
  call_with_id from 8 "cancel_recovery" id (chars "Recovery #" ++ decimal id ++ chars " cancelled.") chain_id.
Definition cmd_execute_recovery (from : str) (id : u64) (chain_id : u64) : M unit :=
  call_with_id from 8 "execute_recovery" id
    (chars "Recovery #" ++ decimal id ++ chars " executed! Account auth methods have been replaced.") chain_id.

(** *** Staking *)

Definition cmd_register_validator (from : str) (amount : u128) (chain_id : u64) : M unit :=
  '(kp, sender) ← load_sender from;
  info ← get_account (account_to_base58 sender);
  let args_hex := chars (hex_encode (le_bytes 16 amount)) in
  nonce ← unwrap_or (av_nonce info) (get_next_nonce (account_to_base58 sender));
  args ← lift (cli_hex_decode args_hex);
  let op := sign_op (mkUserOperation sender nonce [Call (system_address 1) "register" args] 100000 []) kp chain_id in
  send op [chars "Validator registered successfully."; chars "  Validator ID: " ++ account_to_base58 sender;
           chars "  Self-stake:   " ++ format_solen amount ++ chars " SOLEN"; [];
           chars "Start your validator node with --validator-seed to begin producing blocks."] "Failed: ".

Definition cmd_stake (from validator : str) (amount : u128) (chain_id : u64) : M unit :=
  '(kp, sender) ← load_sender from;
  validator_id ← resolve_account_id validator;
  info ← get_account (account_to_base58 sender);
  op ← signed_with kp sender (av_nonce info)
         [Call (system_address 1) "delegate" (validator_id ++ le_bytes 16 amount)] 100000 chain_id;
  send op [chars "Stake submitted successfully.";
           chars "  Delegated " ++ format_solen amount ++ chars " SOLEN to " ++ account_to_base58 validator_id] "Rejected: ".
Definition cmd_unstake (from validator : str) (amount : u128) (chain_id : u64) : M unit :=
  '(kp, sender) ← load_sender from;
  validator_id ← resolve_account_id validator;
  info ← get_account (account_to_base58 sender);
  op ← signed_with kp sender (av_nonce info)
         [Call (system_address 1) "undelegate" (validator_id ++ le_bytes 16 amount ++ le_bytes 8 0)] 100000 chain_id;
  send op [chars "Unstake submitted successfully.";
           chars "  Undelegating " ++ format_solen amount ++ chars " SOLEN from " ++ account_to_base58 validator_id;
           chars "  Funds available after unbonding period (7 epochs)."] "Rejected: ".

(** The calls without arguments. *)
Definition call_bare (from : str) (target : Z) (method : string) (done : list str) (refused : string)
    (chain_id : u64) : M unit :=
  '(kp, sender) ← load_sender from;
  info ← get_account (account_to_base58 sender);
  op ← signed_with kp sender (av_nonce info) [Call (system_address target) method []] 100000 chain_id;
  send op done refused.
Definition cmd_claim_vesting (from : str) (chain_id : u64) : M unit :=
  call_bare from 6 "claim" [chars "Vesting claim submitted successfully.";
    chars "  Vested tokens will be credited to your account."] "Rejected: " chain_id.
Definition cmd_withdraw_stake (from : str) (chain_id : u64) : M unit :=
  call_bare from 1 "withdraw"
    [chars "Withdraw submitted. Matured unstaked tokens will be credited to your balance."] "Rejected: " chain_id.
Definition cmd_unjail (from : str) (chain_id : u64) : M unit :=
  call_bare from 1 "unjail"
    [chars "Unjail submitted. Validator will be reactivated at the next epoch."] "Rejected: " chain_id.
Definition cmd_unregister_paymaster (from : str) (chain_id : u64) : M unit :=
  call_bare from 7 "unregister" [chars "Paymaster unregistered successfully."] "Failed: " chain_id.
Definition cmd_register_paymaster (from : str) (chain_id : u64) : M unit :=
  '(kp, sender) ← load_sender from;
  info ← get_account (account_to_base58 sender);
  op ← signed_with kp sender (av_nonce info) [Call (system_address 7) "register" []] 100000 chain_id;
  send op [chars "Paymaster registered successfully."; chars "  Contract: " ++ account_to_base58 sender; [];
           chars "Your contract must implement a 'willSponsor' view method."] "Failed: ".

(** *** Vesting *)

Definition cmd_set_vesting_admin (from new_admin : str) (chain_id : u64) : M unit :=
  '(kp, sender) ← load_sender from;
  admin_id ← resolve_account_id new_admin;
  op ← signed_with kp sender 0 [Call VESTING_ADDRESS "set_vesting_admin" admin_id] 100000 chain_id;
  send op [chars "Vesting admin set to " ++ account_to_base58 admin_id] "Failed: ".

Definition u64_mul (a b : u64) : u64 := (a * b) mod 2 ^ 64.
Definition CLI_EPOCHS_PER_MONTH : u64 := 52596 / 12.
(** The bytes of the type and its name. *)
Definition vesting_type_args (vesting_type : str) (cliff_months vest_months : option u64) : run (bytes * str) :=
  if bool_decide (vesting_type = chars "team") then Done ([0], chars "Team (1yr cliff, 3yr vest)")
  else if bool_decide (vesting_type = chars "investor") then Done ([1], chars "Investor (6mo cliff, 2yr vest)")
  else if bool_decide (vesting_type = chars "validator") then Done ([2], chars "Validator (3mo cliff, 1yr vest)")
  else if bool_decide (vesting_type = chars "custom") then
    let cliff := default 3 cliff_months in
    let vest := default 12 vest_months in
    let cliff_ep := u64_mul cliff CLI_EPOCHS_PER_MONTH in
    let total_ep := u64_add cliff_ep (u64_mul vest CLI_EPOCHS_PER_MONTH) in
    Done ([3] ++ le_bytes 8 cliff_ep ++ le_bytes 8 total_ep, chars "Custom")
  else Failed (BailWith (chars "invalid vesting type: " ++ vesting_type
                 ++ chars " (use team, investor, validator, or custom)")).
Definition cmd_add_vesting (from recipient : str) (amount : u128) (vesting_type : str)
    (cliff_months vest_months : option u64) (chain_id : u64) : M unit :=
  '(kp, sender) ← load_sender from;
  recipient_id ← resolve_account_id recipient;
  '(type_args, type_name) ← lift (vesting_type_args vesting_type cliff_months vest_months);
  op ← signed_with kp sender 0
         [Call VESTING_ADDRESS "add_vesting" (recipient_id ++ le_bytes 16 amount ++ type_args)] 100000 chain_id;
  send op [chars "Vesting schedule added:"; chars "  Recipient: " ++ account_to_base58 recipient_id;
           chars "  Amount:    " ++ n_f64_2 amount ++ chars " SOLEN"; chars "  Type:      " ++ type_name;
           chars "  Starts:    current epoch (vesting clock begins now)"] "Failed: ".

(** *** Bridge, rollups and recovery *)

Definition cmd_bridge_to_base (from base_address amount_str : str) (chain_id : u64) : M unit :=
  '(kp, sender) ← load_sender from;
  let base_hex := strip_0x base_address in
  if negb (str_len base_hex =? 40)%nat then
    bail (BailWith (chars "invalid Base address: expected 40 hex chars (20 bytes), got "
      ++ decimal (Z.of_nat (str_len base_hex))))
  else
  base_bytes ← lift (cli_hex_decode base_hex);
  amount ← lift (parse_bridge_amount amount_str);
  op ← signed_with kp sender 0
         [Call (system_address 3) "bridge_to_base" (base_bytes ++ le_bytes 16 amount)] 100000 chain_id;
  simulate_and_send op
    (fun _ => chars "Simulated OK. Bridging " ++ amount_str ++ chars " SOLEN to Base address " ++ base_address ++ chars "...")
    [chars "Bridge deposit submitted."; chars "  From:         " ++ from ++ chars " (" ++ account_to_base58 sender ++ chars ")";
     chars "  To (Base):    " ++ base_address; chars "  Amount:       " ++ amount_str ++ chars " SOLEN"; [];
     chars "The relayer will mint wSOLEN on Base once this transaction is finalized."].

Definition cmd_initiate_recovery (from target new_public_key_hex : str) (chain_id : u64) : M unit :=
  '(kp, sender) ← load_sender from;
  info ← get_account (account_to_base58 sender);
  target_id ← resolve_account_id target;
  let new_pk_hex := strip_0x new_public_key_hex in
  new_pk ← lift (cli_hex_decode new_pk_hex);
  if negb (length new_pk =? 32)%nat then bail (Bail "new public key must be 32 bytes (64 hex chars)")
  else
  op ← signed_with kp sender (av_nonce info)
         [Call (system_address 8) "initiate_recovery" (target_id ++ n_auth_json [Ed25519 new_pk])] 100000 chain_id;
  send op [chars "Recovery initiated successfully."; chars "  Target:     " ++ account_to_base58 target_id;
           chars "  New key:    " ++ new_pk_hex; chars "  Timelock:   ~1 week (151,200 blocks)"; [];
           chars "Other guardians must confirm with: confirm-recovery";
           chars "The account owner can cancel with: cancel-recovery"] "Failed: ".

(** [(b.len() as u32).to_le_bytes()] and the bytes. *)
Definition sized (b : bytes) : bytes := le_bytes 4 (Z.of_nat (length b) mod 2 ^ 32) ++ b.
Definition rollup_args (rollup_id : u64) (name proof_type : str) (sequencer : AccountId) (root : bytes) : bytes :=
  le_bytes 8 rollup_id ++ sized (str_bytes name) ++ sized (str_bytes proof_type) ++ sequencer ++ root.
Definition cmd_register_rollup (from : str) (rollup_id : u64) (name proof_type genesis_state_root_hex : str)
    (chain_id : u64) : M unit :=
  '(kp, sender) ← load_sender from;
  info ← get_account (account_to_base58 sender);
  root_bytes ← lift (cli_hex_decode (strip_0x genesis_state_root_hex));
  if negb (length root_bytes =? 32)%nat then bail (Bail "genesis state root must be 32 bytes (64 hex chars)")
  else
  op ← signed_with kp sender (av_nonce info)
         [Call (system_address 3) "register_rollup" (rollup_args rollup_id name proof_type sender root_bytes)] 100000 chain_id;
  send op [chars "Rollup registered successfully."; chars "  Rollup ID:    " ++ decimal rollup_id;
           chars "  Name:         " ++ name; chars "  Proof type:   " ++ proof_type;
           chars "  Sequencer:    " ++ account_to_base58 sender; chars "  Deposit:      10,000 SOLEN"] "Failed: ".

(** *** Transfers and contracts *)

Definition cmd_transfer (from to : str) (amount : u128) (chain_id : u64) : M unit :=
  '(kp, sender) ← load_sender from;
  to_arr ← resolve_account_id to;
  nonce ← get_next_nonce (account_to_base58 sender);
  let op := sign_op (mkUserOperation sender nonce [Transfer to_arr amount] 100000 []) kp chain_id in
  simulate_and_send op
    (fun gas => chars "Simulated OK (gas: " ++ decimal gas ++ chars "). Submitting...")
    [chars "Transaction submitted successfully.";
     chars "  From:   " ++ from ++ chars " (" ++ account_to_base58 sender ++ chars ")";
     chars "  To:     " ++ to ++ chars " (" ++ account_to_base58 to_arr ++ chars ")";
     chars "  Amount: " ++ decimal amount].

Definition cmd_deploy (from wasm_path : str) (chain_id : u64) : M unit :=
  '(kp, sender) ← load_sender from;
  match n_read_file wasm_path with
  | Err e => bail (BailWith (chars "cannot read " ++ wasm_path ++ chars ": " ++ e))
  | Ok code =>
    let code_hash := blake3 code in
    info ← get_account (account_to_base58 sender);
    let salt := blake3 (sender ++ le_bytes 8 (av_nonce info)) in
    let contract_id := blake3 (sender ++ salt ++ code_hash) in
    op ← signed_with kp sender (av_nonce info) [Deploy code salt] 1000000 chain_id;
    simulate_and_send op
      (fun gas => chars "Simulated OK (gas: " ++ decimal gas ++ chars "). Deploying...")
      [chars "Contract deployed successfully."; chars "  Contract ID: " ++ account_to_base58 contract_id;
       chars "  Code hash:   " ++ take 16 (chars (hex_encode code_hash)) ++ chars "..."]
  end.

Definition cmd_call (from target : str) (method : string) (args_hex : option str) (chain_id : u64) : M unit :=
  '(kp, sender) ← load_sender from;
  target_id ← resolve_account_id target;
  args ← match args_hex with Some hex => lift (cli_hex_decode hex) | None => mret [] end;
  info ← get_account (account_to_base58 sender);
  op ← signed_with kp sender (av_nonce info) [Call target_id method args] 1000000 chain_id;
  simulate_and_send op
    (fun gas => chars "Simulated OK (gas: " ++ decimal gas ++ chars "). Submitting...")
    [chars "Call submitted successfully."; chars "  Target: " ++ account_to_base58 target_id;
     chars "  Method: " ++ chars method].

(** *** Accounts with several signers *)

Fixpoint parse_signers (l : list str) : run (list bytes) :=
  match l with
  | [] => Done []
  | a :: l => key ← address_or "invalid signer address" a; rest ← parse_signers l; Done (key :: rest)
  end.
Definition signer_lines (signers : list bytes) : list str :=
  zip_with (fun i s => chars "  " ++ decimal (Z.of_nat i) ++ chars ": " ++ account_to_base58 s)
    (seq 1 (length signers)) signers.
Definition cmd_multisig (from : str) (threshold : Z) (signer_hexes : list str) (chain_id : u64) : M unit :=
  if bool_decide (signer_hexes = []) then bail (Bail "at least one signer is required")
  else if (threshold =? 0) || (Z.of_nat (length signer_hexes) <? threshold) then
    bail (BailWith (chars "threshold must be between 1 and " ++ decimal (Z.of_nat (length signer_hexes))
      ++ chars " (number of signers)"))
  else
  '(kp, sender) ← load_sender from;
  info ← get_account (account_to_base58 sender);
  signers ← lift (parse_signers signer_hexes);
  op ← signed_with kp sender (av_nonce info) [SetAuth [Threshold signers threshold]] 100000 chain_id;
  send op ([chars "Account converted to " ++ decimal threshold ++ chars "-of-" ++ decimal (Z.of_nat (length signers))
            ++ chars " multi-sig."; chars "Signers:"] ++ signer_lines signers
           ++ [[]; chars "All future operations require " ++ decimal threshold ++ chars " signature(s)."]) "Failed: ".

(** *** Keys *)

Definition name_leb (a b : StoredKey) : bool := bytes_leb (str_bytes (k_name a)) (str_bytes (k_name b)).
Definition add_key (ks : Keystore) (name : str) (key : StoredKey) : Keystore :=
  mkKeystore (<[name := key]> (keys ks)) (lock ks).
(** The key as it is stored: encrypted if the file is locked. *)
Definition sealed_if_locked (ks : Keystore) (key : StoredKey) (unlocked : list str) : M StoredKey :=
  if is_locked ks then
    password ← prompt_password;
    key ← encrypt_new_key ks key password;
    println (chars "  Seed encrypted (wallet is locked)");;
    mret key
  else print_all unlocked;; mret key.

Definition cmd_key_generate (name : str) : M unit :=
  ks ← load_keystore;
  match keys ks !! name with
  | Some _ => println (chars "Key '" ++ name ++ chars "' already exists.")
  | None =>
    key ← generate_key name;
    print_all [chars "Generated key '" ++ name ++ chars "'"; chars "  Account ID:  " ++ account_id_hex key;
               chars "  Public key:  " ++ public_key_hex key];;
    key ← sealed_if_locked ks key [chars "  Seed:        stored in keystore (use 'solen key lock' to encrypt)"];
    save_keystore (add_key ks name key);;
    print_all [[]; chars "Saved to ~/.solen/keys.json"]
  end.
Definition cmd_key_import (name seed_hex : str) : M unit :=
  ks ← load_keystore;
  key ← lift (import_key name seed_hex);
  print_all [chars "Imported key '" ++ name ++ chars "'"; chars "  Account ID: " ++ account_id_hex key;
             chars "  Public key: " ++ public_key_hex key];;
  key ← sealed_if_locked ks key [];
  save_keystore (add_key ks name key).

Definition print_key (key : StoredKey) : M unit :=
  account ← lift (slice_to 16 (account_id_hex key));
  public ← lift (slice_to 16 (public_key_hex key));
  println (pad_right 12 (k_name key) ++ chars " " ++ account ++ chars "...  " ++ public ++ chars "...").
Definition cmd_key_list : M unit :=
  ks ← load_keystore;
  if bool_decide (keys ks = ∅) then println (chars "No keys found. Generate one with: solen key generate <name>")
  else
  println (if is_locked ks then chars "Wallet status: LOCKED" else chars "Wallet status: unlocked");;
  print_all [[]; pad_right 12 (chars "NAME") ++ chars " " ++ pad_right 20 (chars "ACCOUNT ID") ++ chars " PUBLIC KEY";
             RULE 70];;
  foldr (fun k m => print_key k;; m) (mret tt) (stable_sort name_leb (map snd (map_to_list (keys ks)))).

Definition cmd_key_lock : M unit :=
  ks ← load_keystore;
  if is_locked ks then println (chars "Wallet is already locked.")
  else if bool_decide (keys ks = ∅)
  then println (chars "No keys to lock. Generate one first with: solen key generate <name>")
  else
  password ← prompt_new_password;
  ks ← lock_keystore ks password;
  save_keystore ks;;
  print_all [chars "Wallet locked. " ++ decimal (Z.of_nat (size (keys ks))) ++ chars " key(s) encrypted.";
             chars "You will be prompted for your password when signing transactions."].
Definition cmd_key_unlock : M unit :=
  ks ← load_keystore;
  if negb (is_locked ks) then println (chars "Wallet is not locked.")
  else
  password ← prompt_password;
  ks ← unlock_keystore ks password;
  save_keystore ks;;
  println (chars "Wallet unlocked. Seeds are now stored in plaintext.").
Definition cmd_key_change_password : M unit :=
  ks ← load_keystore;
  if negb (is_locked ks) then println (chars "Wallet is not locked. Use 'solen key lock' first.")
  else
  old_password ← prompt_password;
  new_password ← prompt_new_password;
  ks ← change_password ks old_password new_password;
  save_keystore ks;;
  println (chars "Password changed successfully.").

(** The new key, and the method the account will have. *)
Inductive Pending : Type := PendingMlDsa (seed pk : bytes) | PendingHybrid (seed ed_pub : bytes).
Definition new_pending (hybrid : bool) : M (AuthMethod * Pending) :=
  if hybrid then
    '(seed, ed_pub, ml_pub) ← new_hybrid; mret (Hybrid ed_pub ml_pub, PendingHybrid seed ed_pub)
  else '(seed, ml_pub) ← new_ml_dsa; mret (MlDsa ml_pub, PendingMlDsa seed ml_pub).
Definition persist (ks : Keystore) (name : str) (pending : Pending) : run Keystore :=
  match pending with
  | PendingMlDsa seed pk => persist_ml_dsa ks name seed pk
  | PendingHybrid seed ed_pub => persist_hybrid ks name seed ed_pub
  end.
Definition upgrade_lines (sender : AccountId) (name : str) (hybrid : bool) : list str :=
  [chars "Account upgraded to post-quantum authentication."; chars "  Account:  " ++ account_to_base58 sender;
   chars "  Scheme:   Ed25519  ->  " ++ (if hybrid then chars "Hybrid (Ed25519 + ML-DSA-65)" else chars "ML-DSA-65 (FIPS 204)");
   chars "  Key '" ++ name ++ chars "' now signs with "
     ++ (if hybrid then chars "BOTH schemes (a signature needs both to verify)" else chars "ML-DSA")
     ++ chars "; the address is unchanged."; [];
   chars "  NOTE: post-quantum auth must be ACTIVE on the network (--pq-auth-height)";
   chars "  for this account to transact. On a chain where it is still dormant, the";
   chars "  account cannot sign until activation."].
Definition cmd_key_quantum_upgrade (name : str) (hybrid : bool) (chain_id : u64) : M unit :=
  ks ← load_keystore;
  '(signer, sender) ← load_keypair ks name;
  if bool_decide (signer_scheme signer <> chars "ed25519") then
    bail (BailWith (chars "key '" ++ name ++ chars "' is already post-quantum (" ++ signer_scheme signer ++ chars ")"))
  else
  '(target_auth, pending) ← new_pending hybrid;
  op ← signed_with signer sender 0 [SetAuth [target_auth]] 1000000 chain_id;
  to_value op;;
  sim ← simulate_op op;
  if negb (sim_ok sim) then bail (BailWith (chars "simulation failed: " ++ default [] (sim_error sim)))
  else
  result ← submit_op op;
  if negb (sr_accepted result) then bail (BailWith (chars "rejected: " ++ default [] (sr_reason result)))
  else
  ks ← lift (persist ks name pending);
  save_keystore ks;;
  print_all (upgrade_lines sender name hybrid).
End commands.

(** ** The command line ([main.rs]) *)

Inductive KeyAction : Type :=
| KGenerate (name : str) | KImport (name seed : str) | KList | KLock | KUnlock | KChangePassword
| KQuantumUpgrade (name : str) (hybrid : bool).
Inductive Commands : Type :=
| CStatus | CBalance (account : str) | CAccount (account : str) | CBlock (height : option u64) | CValidators
| CClaimVesting (from : str)
| CProposeBlockTime (from : str) (new_block_time_ms : u64) (description : str)
| CProposeMinStake (from new_min_stake description : str)
| CProposeMigrateTeamPoolToVesting (from description : str)
| CProposeSetVotingPeriod (from : str) (epochs : u64) (description : str)
| CProposeSetBridgeRelayer (from relayer description : str)
| CProposeSetVestingAdmin (from admin description : str)
| CVote (from : str) (proposal_id : u64) (yes : bool) (weight : str)
| CFinalizeProposal (from : str) (proposal_id : u64) | CExecuteProposal (from : str) (proposal_id : u64)
| CRegisterValidator (from amount : str) | CStake (from validator amount : str) | CUnstake (from validator amount : str)
| CWithdrawStake (from : str) | CSetVestingAdmin (from new_admin : str)
| CAddVesting (from recipient amount vesting_type : str) (cliff_months vest_months : option u64)
| CUnjail (from : str) | CBridgeToBase (from base_address amount : str) | CTransfer (from to amount : str)
| CDeploy (from wasm_file : str) | CCall (from target : str) (method : string) (args : option str)
| CRegisterRollup (from : str) (rollup_id : u64) (name proof_type genesis_state_root : str)
| CRegisterPaymaster (from : str) | CUnregisterPaymaster (from : str)
| CInitiateRecovery (from target new_public_key : str) | CConfirmRecovery (from : str) (recovery_id : u64)
| CCancelRecovery (from : str) (recovery_id : u64) | CExecuteRecovery (from : str) (recovery_id : u64)
| CMultisig (from : str) (threshold : Z) (signers : list str) | CKey (action : KeyAction).

(** The address of the node and the chain, if not given. *)
Definition network_defaults (network : option str) : run (string * u64) :=
  match network with
  | None => Done ("http://127.0.0.1:29944"%string, 1337)
  | Some n =>
    if bool_decide (n = chars "mainnet") then Done ("https://rpc.solenchain.io"%string, 1)
    else if bool_decide (n = chars "testnet") then Done ("https://testnet-rpc.solenchain.io"%string, 9000)
    else if bool_decide (n = chars "devnet") then Done ("http://127.0.0.1:29944"%string, 1337)
    else Failed (BailWith (chars "unknown network '" ++ n ++ chars "' (use devnet, testnet, or mainnet)"))
  end.

Section main.
Context `{!Crypto} `{!Signing} `{!Host} `{!Vault} `{!Node} `{!Codec (list Action)}.

Definition run_key (a : KeyAction) (chain_id : u64) : M unit :=
  match a with
  | KGenerate name => cmd_key_generate name
  | KImport name seed => cmd_key_import name seed
  | KList => cmd_key_list
  | KLock => cmd_key_lock
  | KUnlock => cmd_key_unlock
  | KChangePassword => cmd_key_change_password
  | KQuantumUpgrade name hybrid => cmd_key_quantum_upgrade name hybrid chain_id
  end.
Definition run_command (c : Commands) (chain_id : u64) : M unit :=
  match c with
  | CStatus => cmd_status
  | CBalance account => cmd_balance account
  | CAccount account => cmd_account account
  | CBlock height => cmd_block height
  | CValidators => cmd_validators
  | CClaimVesting from => cmd_claim_vesting from chain_id
  | CProposeBlockTime from ms description => cmd_propose_block_time from ms description chain_id
  | CProposeMinStake from new_min_stake description =>
      base ← lift (parse_solen_amount new_min_stake); cmd_propose_min_stake from base description chain_id
  | CProposeMigrateTeamPoolToVesting from description => cmd_propose_migrate_team_pool_to_vesting from description chain_id
  | CProposeSetVotingPeriod from epochs description => cmd_propose_set_voting_period from epochs description chain_id
  | CProposeSetBridgeRelayer from relayer description => cmd_propose_set_bridge_relayer from relayer description chain_id
  | CProposeSetVestingAdmin from admin description => cmd_propose_set_vesting_admin from admin description chain_id
  | CVote from id yes weight => base ← lift (parse_solen_amount weight); cmd_vote from id yes base chain_id
  | CFinalizeProposal from id => cmd_finalize_proposal from id chain_id
  | CExecuteProposal from id => cmd_execute_proposal from id chain_id
  | CRegisterValidator from amount =>
      base ← lift (parse_solen_amount amount); cmd_register_validator from base chain_id
  | CStake from validator amount => base ← lift (parse_solen_amount amount); cmd_stake from validator base chain_id
  | CUnstake from validator amount => base ← lift (parse_solen_amount amount); cmd_unstake from validator base chain_id
  | CWithdrawStake from => cmd_withdraw_stake from chain_id
  | CSetVestingAdmin from new_admin => cmd_set_vesting_admin from new_admin chain_id
  | CAddVesting from recipient amount vesting_type cliff vest =>
      base ← lift (parse_solen_amount amount); cmd_add_vesting from recipient base vesting_type cliff vest chain_id
  | CUnjail from => cmd_unjail from chain_id
  | CBridgeToBase from base_address amount => cmd_bridge_to_base from base_address amount chain_id
  | CTransfer from to amount => base ← lift (parse_solen_amount amount); cmd_transfer from to base chain_id
  | CDeploy from wasm_file => cmd_deploy from wasm_file chain_id
  | CCall from target method args => cmd_call from target method args chain_id
  | CRegisterRollup from id name proof_type root => cmd_register_rollup from id name proof_type root chain_id
  | CRegisterPaymaster from => cmd_register_paymaster from chain_id
  | CUnregisterPaymaster from => cmd_unregister_paymaster from chain_id
  | CInitiateRecovery from target new_public_key => cmd_initiate_recovery from target new_public_key chain_id
  | CConfirmRecovery from id => cmd_confirm_recovery from id chain_id
  | CCancelRecovery from id => cmd_cancel_recovery from id chain_id
  | CExecuteRecovery from id => cmd_execute_recovery from id chain_id
  | CMultisig from threshold signers => cmd_multisig from threshold signers chain_id
  | CKey a => run_key a chain_id
  end.
Definition main (network : option str) (chain_id : option u64) (c : Commands) : M unit :=
  '(_, default_chain_id) ← lift (network_defaults network);
  run_command c (default default_chain_id chain_id).
End main.
