(* ===== verification/CliLaws.v ===== *)
(** What the commands of the command line submit: at most one operation, of the
    account of the named key, signed with that key for the chain, whose single
    action is the one that was asked for, as the readers of the node decode it;
    and such an operation passes the validation of the node. *)

From S2P Require Import Prelude Types Store Memory Overlay State SysCommon.
From S2P Require Import Staking Governance Vesting Guardian Bridge SysStaking SysVesting SysGovernance SysGuardian SysBridge.
From S2P Require Import Auth Session Address Rpc Keystore KeystoreLaws Cli.
Open Scope Z_scope.

(** ** Reasoning about commands *)

Definition submits (reqs : list Request) : list UserOperation :=
  omap (fun r => match r with Submit op | SubmitConfirm op _ => Some op | _ => None end) reqs.

Lemma submits_app r1 r2 : submits (r1 ++ r2) = submits r1 ++ submits r2.
Proof. apply omap_app. Qed.

(** [m] submits nothing. *)
Definition silent {A} (m : M A) : Prop := forall w,
  exists reqs, w_requests (fst (m w)) = w_requests w ++ reqs /\ submits reqs = [].
(** [m] submits nothing, leaves the key file [f] and returns values in [Q]. *)
Definition quiet {A} (f : KeyFile) (m : M A) (Q : A -> Prop) : Prop :=
  silent m /\ forall w a, w_file w = f -> snd (m w) = Done a -> Q a /\ w_file (fst (m w)) = f.
(** [m], run with the key file [f], submits at most one operation, in [P]. *)
Definition once {A} (f : KeyFile) (m : M A) (P : UserOperation -> Prop) : Prop := forall w, w_file w = f ->
  exists reqs, w_requests (fst (m w)) = w_requests w ++ reqs
    /\ (submits reqs = [] \/ exists op, submits reqs = [op] /\ P op).

Lemma silent_ret {A} (a : A) : silent (mret a).
Proof. intros w. exists []. by rewrite app_nil_r. Qed.
Lemma silent_lift {A} (r : run A) : silent (lift r).
Proof. intros w. exists []. by rewrite app_nil_r. Qed.
Lemma silent_println l : silent (println l).
Proof. intros w. exists []. by rewrite app_nil_r. Qed.
Lemma silent_bind {A B} (m : M A) (k : A -> M B) : silent m -> (forall a, silent (k a)) -> silent (m ≫= k).
Proof.
  intros Hm Hk w. destruct (Hm w) as (r1 & E1 & N1). unfold mbind, M_bind.
  destruct (m w) as [w1 [a| |]]; cbn [fst] in *; [|by exists r1..].
  destruct (Hk a w1) as (r2 & E2 & N2). exists (r1 ++ r2). by rewrite E2, E1, submits_app, N1, N2, app_assoc.
Qed.
Lemma silent_ask {A} r (answer : list Request -> result A str) : submits [r] = [] -> silent (ask r answer).
Proof. intros Hr w. by exists [r]. Qed.
Lemma silent_unwrap_or {A} (d : A) m : silent m -> silent (unwrap_or d m).
Proof.
  intros Hm w. destruct (Hm w) as (reqs & E & N). exists reqs. unfold unwrap_or.
  by destruct (m w) as [w' [a|e|]].
Qed.
Lemma silent_ok {A} (m : M A) : silent m -> silent (ok m).
Proof.
  intros Hm w. destruct (Hm w) as (reqs & E & N). exists reqs. unfold ok. by destruct (m w) as [w' r].
Qed.
Lemma silent_if {A} (b : bool) (m n : M A) : silent m -> silent n -> silent (if b then m else n).
Proof. by destruct b. Qed.

Create HintDb cli discriminated.
#[export] Hint Resolve silent_ret silent_lift silent_println silent_unwrap_or silent_ok silent_if : cli.
#[export] Hint Extern 1 (silent (_ ≫= _)) => (apply silent_bind; [|intros ?]) : cli.
#[export] Hint Extern 1 (silent (ask _ _)) => (by apply silent_ask) : cli.
#[export] Hint Extern 2 (silent (bail _)) => apply silent_lift : cli.
#[export] Hint Extern 4 (silent (match ?x with _ => _ end)) => destruct x : cli.

Section effects.
Context `{!Signing} `{!Host} `{!Vault} `{!Node}.

Lemma silent_load : silent load_keystore.
Proof. intros w. exists []. rewrite app_nil_r. unfold load_keystore. by destruct (w_file w). Qed.
Lemma silent_save ks : silent (save_keystore ks).
Proof. intros w. exists []. rewrite app_nil_r. unfold save_keystore. by destruct (h_write_fails w). Qed.
Lemma silent_random n : silent (random_bytes n).
Proof. intros w. exists []. by rewrite app_nil_r. Qed.
Lemma silent_ask_password : silent ask_password.
Proof. intros w. exists []. by rewrite app_nil_r. Qed.
Hint Resolve silent_load silent_save silent_random silent_ask_password : cli.
Lemma silent_prompt : silent prompt_password.
Proof. unfold prompt_password. eauto 6 with cli. Qed.
Lemma silent_prompt_new : silent prompt_new_password.
Proof. unfold prompt_new_password. eauto 12 with cli. Qed.
Lemma silent_each_key f l : (forall k, silent (f k)) -> silent (each_key f l).
Proof.
  intros Hf. induction l as [|[n k] l IH]; cbn [each_key]; [eauto with cli|].
  apply silent_bind; [apply Hf|]. intros k'. eauto with cli.
Qed.
Hint Resolve silent_prompt silent_prompt_new silent_each_key : cli.
Lemma silent_lock_key derived k : silent (lock_key derived k).
Proof. unfold lock_key. eauto 8 with cli. Qed.
Lemma silent_unlock_key derived k : silent (unlock_key derived k).
Proof. unfold unlock_key. eauto 8 with cli. Qed.
Hint Resolve silent_lock_key silent_unlock_key : cli.
Lemma silent_unlock ks p : silent (unlock_keystore ks p).
Proof. unfold unlock_keystore, values_mut. eauto 12 with cli. Qed.
Lemma silent_lock ks p : silent (lock_keystore ks p).
Proof. unfold lock_keystore, values_mut. cbv zeta. eauto 16 with cli. Qed.
Lemma silent_load_keypair ks n : silent (load_keypair ks n).
Proof. unfold load_keypair, seed_text. eauto 12 with cli. Qed.
Lemma silent_print_all l : silent (print_all l).
Proof. unfold print_all. induction l; cbn [foldr]; eauto with cli. Qed.
End effects.
#[export] Hint Resolve silent_load silent_save silent_random silent_ask_password silent_prompt silent_prompt_new
  silent_each_key silent_lock_key silent_unlock_key silent_unlock silent_lock silent_load_keypair silent_print_all : cli.

(** ** Sequences *)

Lemma once_silent {A} f (m : M A) P : silent m -> once f m P.
Proof. intros Hm w _. destruct (Hm w) as (reqs & E & N). exists reqs. auto. Qed.
Lemma once_bind {A B} f (m : M A) (k : A -> M B) Q P :
  quiet f m Q -> (forall a, Q a -> once f (k a) P) -> once f (m ≫= k) P.
Proof.
  intros [Hs Hm] Hk w Hw. destruct (Hs w) as (r1 & E1 & N1). specialize (Hm w). unfold mbind, M_bind.
  destruct (m w) as [w1 [a| |]]; cbn [fst snd] in *; [|exists r1; auto..].
  destruct (Hm a Hw eq_refl) as [HQ Hf]. destruct (Hk a HQ w1 Hf) as (r2 & E2 & H2).
  exists (r1 ++ r2). rewrite E2, E1, submits_app, N1, app_assoc. auto.
Qed.
Lemma once_submit {B} `{!Node} f op (k : SubmitReply -> M B) (P : UserOperation -> Prop) :
  P op -> (forall a, silent (k a)) -> once f (submit_op op ≫= k) P.
Proof.
  intros HP Hk w _. unfold mbind, M_bind, submit_op, ask.
  destruct (n_submit (w_requests w ++ [Submit op])) as [a|m]; cbn [fst].
  - match goal with |- context [k a ?v] => destruct (Hk a v) as (r2 & E2 & N2) end. cbn in E2.
    exists ([Submit op] ++ r2). rewrite E2, submits_app, N2. rewrite <- app_assoc. split; [done|]. right. by exists op.
  - exists [Submit op]. split; [done|]. right. by exists op.
Qed.

Lemma quiet_bind {A B} f (m : M A) (k : A -> M B) Q R :
  quiet f m Q -> (forall a, silent (k a)) -> (forall a, Q a -> quiet f (k a) R) -> quiet f (m ≫= k) R.
Proof.
  intros [Hs Hm] Hk HR. split; [by apply silent_bind|]. intros w b Hw. specialize (Hm w). unfold mbind, M_bind.
  destruct (m w) as [w1 [a| |]]; cbn [fst snd] in *; [|done..]. destruct (Hm a Hw eq_refl) as [HQ Hf].
  by apply (HR a HQ).
Qed.
Lemma quiet_ret {A} f (a : A) : quiet f (mret a) (eq a).
Proof. split; [apply silent_ret|]. intros w b Hw [= ->]. done. Qed.
Lemma quiet_lift {A} f (r : run A) : quiet f (lift r) (fun a => r = Done a).
Proof. split; [apply silent_lift|]. done. Qed.
Lemma quiet_println f l : quiet f (println l) (fun _ => True).
Proof. split; [apply silent_println|]. done. Qed.
Lemma quiet_ask {A} f r (answer : list Request -> result A str) : submits [r] = [] -> quiet f (ask r answer) (fun _ => True).
Proof. intros Hr. split; [by apply silent_ask|]. done. Qed.
Lemma quiet_unwrap_or {A} f (d : A) m Q : quiet f m Q -> (forall w, w_file (fst (m w)) = w_file w) ->
  quiet f (unwrap_or d m) (fun _ => True).
Proof.
  intros [Hs _] Hf. split; [by apply silent_unwrap_or|]. intros w a Hw _. split; [done|]. rewrite <- Hw, <- (Hf w).
  unfold unwrap_or. by destruct (m w) as [w' [? | |]].
Qed.
Lemma quiet_true {A} f (m : M A) Q : quiet f m Q -> quiet f m (fun _ => True).
Proof. intros [Hs Hm]. split; [done|]. intros w a Hw Ha. split; [done|]. by apply (Hm w a). Qed.

(** ** What a key and a name stand for *)

Section keys.
Context `{!Vault}.

(** The text of the seed of a key: as the file has it, or as the lock opens it
    with some password. *)
Definition seed_of (ks : Keystore) (key : StoredKey) (text : str) : Prop :=
  match seed_hex key, encrypted_seed_hex key, lock ks with
  | Some t, _, _ => text = t
  | None, Some enc, Some l => exists password derived,
      open_lock l password = Done derived /\ decrypt_seed derived enc = Done text
  | _, _, _ => False
  end.
(** The signer and the account of the key of that name. *)
Definition key_of (f : KeyFile) (name : str) (signer : Signer) (account : AccountId) : Prop :=
  exists ks key text, f = Holds ks /\ keys ks !! name = Some key /\ seed_of ks key text
    /\ signer_from key text = Done (signer, account).
End keys.
(** An account as the client reads it: an address, else the name of a key, or
    else the text itself. *)
Definition resolved (f : KeyFile) (input : str) (id : AccountId) : Prop :=
  length id = 32%nat
  /\ (parse_address input = Returned (Ok id)
      \/ ((forall id', parse_address input <> Returned (Ok id'))
          /\ ((exists ks key, f = Holds ks /\ keys ks !! input = Some key
                 /\ parse_address (account_id_hex key) = Returned (Ok id))
              \/ ((forall ks, f = Holds ks -> keys ks !! input = None) /\ id = name_to_account_id input)))).

Lemma parse_address_length s id : parse_address s = Returned (Ok id) -> length id = 32%nat.
Proof. by intros (? & _)%parse_address_spec. Qed.
Lemma address_or_ok what s id : address_or what s = Done id -> parse_address s = Returned (Ok id).
Proof. unfold address_or. by destruct (parse_address s) as [[a|e]|]; intros [= ->]. Qed.

Section parts.
Context `{!Crypto} `{!Signing} `{!Host} `{!Vault} `{!Node} `{!Codec (list Action)}.

Lemma quiet_load_keystore f :
  quiet f load_keystore (fun ks => f = Holds ks \/ (f = NoFile /\ ks = keystore_default)).
Proof.
  split; [apply silent_load|]. intros w a Hw. unfold load_keystore. rewrite Hw.
  destruct f; intros [= <-]; auto.
Qed.
Lemma prompt_file w : w_file (fst (prompt_password w)) = w_file w.
Proof.
  unfold prompt_password, mbind, M_bind, ask_password. destruct (h_password _); [|done]. by case_bool_decide.
Qed.
Lemma seed_text_seed ks n key w text : snd (seed_text ks n key w) = Done text -> seed_of ks key text.
Proof.
  unfold seed_text, seed_of. destruct (seed_hex key); [by intros [= <-]|].
  destruct (encrypted_seed_hex key) as [enc|]; [|done]. destruct (lock ks) as [l|]; [|done].
  unfold mbind at 1, M_bind. destruct (prompt_password w) as [w' [pw| |]]; [|done..]. cbn.
  destruct (open_lock l pw) as [d| |] eqn:Ed; [|done..]. cbn [mbind run_bind]. eauto.
Qed.
Lemma seed_text_file ks n key w : w_file (fst (seed_text ks n key w)) = w_file w.
Proof.
  unfold seed_text. destruct (seed_hex key); [done|]. destruct (encrypted_seed_hex key); [|done].
  destruct (lock ks); [|done]. unfold mbind at 1, M_bind.
  pose proof (prompt_file w). by destruct (prompt_password w) as [w' [?| |]].
Qed.
Definition in_file (f : KeyFile) (ks : Keystore) : Prop := f = Holds ks \/ (f = NoFile /\ ks = keystore_default).
Lemma quiet_load_keypair f ks from :
  in_file f ks -> quiet f (load_keypair ks from) (fun p => key_of f from (fst p) (snd p)).
Proof.
  intros Hks. split; [apply silent_load_keypair|]. intros w [kp sender] Hw. unfold load_keypair.
  destruct (keys ks !! from) as [key|] eqn:Ek; [|done]. unfold mbind, M_bind.
  pose proof (seed_text_file ks from key w) as Hf. pose proof (seed_text_seed ks from key w) as Ht.
  destruct (seed_text ks from key w) as [w' [text| |]]; [|done..]. specialize (Ht text eq_refl).
  cbn in *. intros Hs. split; [|congruence]. destruct Hks as [->|[-> ->]]; [|cbn in Ek; by rewrite lookup_empty in Ek].
  by exists ks, key, text.
Qed.
Lemma quiet_load_sender f from :
  quiet f (load_sender from) (fun p => key_of f from (fst p) (snd p)).
Proof.
  unfold load_sender. eapply quiet_bind; [apply quiet_load_keystore|intros ks; apply silent_load_keypair|].
  intros ks. apply quiet_load_keypair.
Qed.
Lemma name_to_account_id_length n : length (name_to_account_id n) = 32%nat.
Proof. unfold name_to_account_id. rewrite length_app, length_take, length_replicate. lia. Qed.
Lemma quiet_resolve f input : quiet f (resolve_account_id input) (resolved f input).
Proof.
  unfold resolve_account_id. destruct (parse_address input) as [[id|e]|] eqn:E.
  - split; [apply silent_ret|]. intros w a Hw [= <-]. split; [|done]. split; [by eapply parse_address_length|auto].
  - eapply quiet_bind; [apply quiet_load_keystore|eauto with cli|]. intros ks Hks.
    destruct (keys ks !! input) as [key|] eqn:Ek.
    + split; [apply silent_lift|]. intros w a Hw Ha%address_or_ok. split; [|done].
      split; [by eapply parse_address_length|]. right. split; [intros ? E'; by rewrite E in E'|]. left.
      destruct Hks as [->|[-> ->]]; [|cbn in Ek; by rewrite lookup_empty in Ek]. by exists ks, key.
    + split; [apply silent_ret|]. intros w a Hw [= <-]. split; [|done].
      split; [apply name_to_account_id_length|]. right. split; [intros ? E'; by rewrite E in E'|]. right. split; [|done].
      intros ks' ->. destruct Hks as [[= <-]|[? _]]; done.
  - split; [apply silent_lift|]. done.
Qed.
Lemma quiet_account f id : quiet f (get_account id) (fun _ => True).
Proof. by apply quiet_ask. Qed.
Lemma quiet_nonce f id : quiet f (get_next_nonce id) (fun _ => True).
Proof. by apply quiet_ask. Qed.
Lemma quiet_nonce_or f d id : quiet f (unwrap_or d (get_next_nonce id)) (fun _ => True).
Proof. eapply quiet_unwrap_or; [apply quiet_nonce|done]. Qed.

(** The operation as it is signed. *)
Definition signed (kp : Signer) (sender : AccountId) (actions : list Action) (fee : u128) (chain_id : u64)
    (op : UserOperation) : Prop :=
  exists nonce, op = sign_op (mkUserOperation sender nonce actions fee []) kp chain_id.
Lemma quiet_signed f kp sender d actions fee chain_id :
  quiet f (signed_with kp sender d actions fee chain_id) (signed kp sender actions fee chain_id).
Proof.
  unfold signed_with. eapply quiet_bind; [apply quiet_nonce_or|intros; apply silent_ret|]. intros nonce _.
  split; [apply silent_ret|]. intros w op Hw [= <-]. split; [by exists nonce|done].
Qed.

Lemma quiet_to_value f op : quiet f (to_value op) (fun _ => True).
Proof. unfold to_value. destruct (n_to_value op); [|by split; [apply silent_lift|]]. by split; [apply silent_ret|]. Qed.
Lemma quiet_simulate f op : quiet f (simulate_op op) (fun _ => True).
Proof. by apply quiet_ask. Qed.
Lemma silent_report r l s : silent (report r l s).
Proof. unfold report. eauto with cli. Qed.
Lemma once_send f op l s (P : UserOperation -> Prop) : P op -> once f (send op l s) P.
Proof.
  intros HP. unfold send. eapply once_bind; [apply quiet_to_value|]. intros _ _.
  apply once_submit; [done|]. intros r. apply silent_report.
Qed.
Lemma once_simulate_and_send f op g l (P : UserOperation -> Prop) : P op -> once f (simulate_and_send op g l) P.
Proof.
  intros HP. unfold simulate_and_send. eapply once_bind; [apply quiet_to_value|]. intros _ _.
  eapply once_bind; [apply quiet_simulate|]. intros sim _. destruct (negb _); [apply once_silent, silent_println|].
  eapply once_bind; [apply quiet_println|]. intros _ _. apply once_submit; [done|]. intros r. apply silent_report.
Qed.
Lemma silent_announce n b58 m : silent (announce_loop n b58 m).
Proof.
  induction n as [|n IH]; cbn [announce_loop]; [apply silent_print_all|].
  apply silent_bind; [unfold get_governance_proposals; eauto with cli|]. intros [l|]; [|done].
  destruct (newest_of _ _ _); [apply silent_print_all|done].
Qed.
Lemma quiet_current_max f : quiet f current_max_proposal_id (fun _ => True).
Proof.
  unfold current_max_proposal_id. split; [unfold get_governance_proposals; eauto 6 with cli|].
  intros w a Hw _. split; [done|]. unfold mbind, M_bind, ok, get_governance_proposals, ask. by destruct (n_proposals _).
Qed.
Lemma once_send_proposal f sender op d desc (P : UserOperation -> Prop) : P op -> once f (send_proposal sender op d desc) P.
Proof.
  intros HP. unfold send_proposal. eapply once_bind; [apply quiet_to_value|]. intros _ _.
  eapply once_bind; [apply quiet_current_max|]. intros m _. apply once_submit; [done|]. intros r.
  unfold announce_proposal. apply silent_if; [|eauto with cli].
  apply silent_bind; [eauto with cli|]. intros _. apply silent_bind; [eauto with cli|]. intros _. apply silent_announce.
Qed.
End parts.

(** ** What the node reads *)

Lemma slice_at off n pre x rest : length pre = off -> length x = n -> slice off n (pre ++ x ++ rest) = x.
Proof. intros <- <-. unfold slice. by rewrite drop_app_length, take_app_length. Qed.
Lemma read_id_at off pre id rest :
  length pre = off -> length id = 32%nat -> read_account_id (pre ++ id ++ rest) off = Some id.
Proof.
  intros Hp Hi. unfold read_account_id. rewrite !length_app, Hp, Hi, slice_at by done.
  by destruct (Nat.ltb_spec (off + (32 + length rest)) (off + 32)); [lia|].
Qed.
Lemma read_u128_within off pre n rest :
  length pre = off -> in_u128 n -> SysCommon.read_u128 (pre ++ le_bytes 16 n ++ rest) off = Some n.
Proof.
  intros Hp Hn. unfold SysCommon.read_u128. rewrite !length_app, Hp, length_le_bytes.
  rewrite slice_at by (done || apply length_le_bytes). rewrite from_le_u128 by done.
  by destruct (Nat.ltb_spec (off + (16 + length rest)) (off + 16)); [lia|].
Qed.
Lemma read_u64_at off pre n rest :
  length pre = off -> in_u64 n -> SysCommon.read_u64 (pre ++ le_bytes 8 n ++ rest) off = Some n.
Proof.
  intros Hp Hn. unfold SysCommon.read_u64. rewrite !length_app, Hp, length_le_bytes.
  rewrite slice_at by (done || apply length_le_bytes). rewrite from_le_u64 by done.
  by destruct (Nat.ltb_spec (off + (8 + length rest)) (off + 8)); [lia|].
Qed.
Lemma read_u64_only n : in_u64 n -> SysCommon.read_u64 (le_bytes 8 n) 0 = Some n.
Proof. intros Hn. rewrite <- (app_nil_r (le_bytes 8 n)). by apply (read_u64_at 0 []). Qed.
Lemma le_bytes_digits n z : digits_of 256 (le_bytes n z).
Proof.
  revert z. induction n as [|n IH]; intros z; constructor; [|apply IH]. by apply Z.mod_pos_bound.
Qed.
Lemma slice_first n x rest : length x = n -> slice 0 n (x ++ rest) = x.
Proof. by apply (slice_at 0 n []). Qed.
Lemma read_id_first id rest : length id = 32%nat -> read_account_id (id ++ rest) 0 = Some id.
Proof. by apply (read_id_at 0 []). Qed.
Lemma read_u128_first n rest : in_u128 n -> SysCommon.read_u128 (le_bytes 16 n ++ rest) 0 = Some n.
Proof. by apply (read_u128_within 0 []). Qed.
Lemma read_u64_first n rest : in_u64 n -> SysCommon.read_u64 (le_bytes 8 n ++ rest) 0 = Some n.
Proof. by apply (read_u64_at 0 []). Qed.
