(* ===== verification/CliOrders.v ===== *)
(** Every command submits what it says: the orders of the command line as the
    node understands them, end to end from the arguments to the handlers of the
    system calls and to the validation of the operation. *)

From S2P Require Import Prelude Types Store Memory Codec Overlay State SysCommon.
From S2P Require Import Staking Governance Vesting Guardian Bridge SysStaking SysVesting SysGovernance SysGuardian SysBridge.
From S2P Require Import Auth Session Address Rpc Keystore KeystoreLaws Cli CliLaws.
Open Scope Z_scope.

(** ** Text

    What the arguments of a command mean, said without the readers of the
    client: a number is its digits, an account its spelling. *)

Definition is_digits (s : str) : Prop := s <> [] /\ Forall (fun c => 48 <= c <= 57) s.
Definition digits_value (s : str) : Z := fold_left (fun n c => 10 * n + (c - 48)) s 0.
(** [n] hundred-millionths, as a decimal number of coins: [n / 10^8] is the
    number that the digits are, [digits_value (w ++ f) / 10^k] with [k] of them after the
    point. *)
Definition amount_text (s : str) (n : Z) : Prop :=
  (is_digits s /\ n = digits_value s * 10 ^ 8)
  \/ exists w f, s = w ++ 46 :: f /\ is_digits w /\ is_digits f
       /\ n * 10 ^ Z.of_nat (length f) = digits_value (w ++ f) * 10 ^ 8.
(** The spellings of an account: Base58, or hexadecimal in either case with or
    without [0x], with white space around. *)
Definition address_text (s : str) (id : AccountId) : Prop :=
  length id = 32%nat /\ digits_of 256 id
  /\ (trim s = base58_encode id \/ map to_ascii_lowercase (strip_0x (trim s)) = chars (hex_encode id)).
(** An account by its address, or by the name of a key of the file that is not
    an address itself. *)
Definition account_text (f : KeyFile) (s : str) (id : AccountId) : Prop :=
  address_text s id
  \/ ((forall id', ~ address_text s id')
      /\ exists ks key, f = Holds ks /\ keys ks !! s = Some key /\ address_text (account_id_hex key) id).
Definition hex_text (s : str) (b : bytes) : Prop :=
  digits_of 256 b /\ map to_ascii_lowercase (strip_0x s) = chars (hex_encode b).

Lemma digits_value_app a b : digits_value (a ++ b) = digits_value a * 10 ^ Z.of_nat (length b) + digits_value b.
Proof.
  assert (G : forall s n, fold_left (fun n c => 10 * n + (c - 48)) s n = n * 10 ^ Z.of_nat (length s) + digits_value s).
  { induction s as [|c s IH]; intros n; [cbn; lia|]. unfold digits_value. cbn [fold_left length]. rewrite IH, (IH (10 * 0 + _)).
    rewrite Nat2Z.inj_succ, Z.pow_succ_r by lia. lia. }
  unfold digits_value at 1. by rewrite fold_left_app, G.
Qed.
Lemma digits_value_bounds s : Forall (fun c => 48 <= c <= 57) s -> 0 <= digits_value s < 10 ^ Z.of_nat (length s).
Proof.
  induction s as [|c s IH] using rev_ind; [cbn; lia|]. intros [Hs Hc]%Forall_app.
  rewrite digits_value_app, length_app. specialize (IH Hs). cbn [length].
  assert (Hd : digits_value [c] = c - 48) by (cbn; lia). rewrite Hd.
  replace (Z.of_nat (length s + 1)) with (Z.of_nat (length s) + 1) by lia.
  rewrite Z.pow_add_r, Z.pow_1_r by lia. change (Z.of_nat 1) with 1. rewrite Z.pow_1_r. inversion Hc; subst. lia.
Qed.
Lemma parse_digits_read s acc :
  Forall (fun c => 48 <= c <= 57) s -> 0 <= acc -> acc * 10 ^ Z.of_nat (length s) + digits_value s <= u128_max ->
  parse_digits s acc = Some (acc * 10 ^ Z.of_nat (length s) + digits_value s).
Proof.
  intros Hs. revert acc. induction Hs as [|c s Hc Hs IH]; intros acc Ha Hm.
  { cbn. f_equal. lia. }
  cbn [parse_digits]. rewrite (proj2 (Z.leb_le 48 c)), (proj2 (Z.leb_le c 57)) by lia. cbn [andb].
  change (c :: s) with ([c] ++ s) in *. rewrite digits_value_app in *. cbn [length app] in *.
  assert (Hd : digits_value [c] = c - 48) by (cbn; lia). rewrite Hd in *.
  rewrite Nat2Z.inj_succ, Z.pow_succ_r in * by lia. pose proof (digits_value_bounds s Hs).
  assert (E : acc * (10 * 10 ^ Z.of_nat (length s)) + ((c - 48) * 10 ^ Z.of_nat (length s) + digits_value s)
    = (acc * 10 + (c - 48)) * 10 ^ Z.of_nat (length s) + digits_value s) by lia.
  rewrite E in *. assert (acc * 10 + (c - 48) <= u128_max) by nia.
  destruct (Z.ltb_spec u128_max (acc * 10 + (c - 48))); [lia|]. apply IH; lia.
Qed.
Lemma parse_u128_dec s : is_digits s -> digits_value s <= u128_max -> parse_u128 s = Some (digits_value s).
Proof.
  intros [Hne Hs] Hm. unfold parse_u128. pose proof (parse_digits_read s 0 Hs ltac:(lia) ltac:(lia)) as E.
  destruct s as [|c s]; [done|]. inversion Hs; subst. repeat case_match; try lia; done.
Qed.
Lemma find_dot_app w f : Forall (fun c => 48 <= c <= 57) w -> find_dot (w ++ 46 :: f) = Some (w, f).
Proof. induction 1 as [|c w Hc _ IH]; [done|]. cbn. rewrite IH. by destruct (Z.eqb_spec c 46); [lia|]. Qed.
Lemma find_dot_absent w : Forall (fun c => 48 <= c <= 57) w -> find_dot w = None.
Proof. induction 1 as [|c w Hc _ IH]; [done|]. cbn. rewrite IH. by destruct (Z.eqb_spec c 46); [lia|]. Qed.
Lemma digits_len s : Forall (fun c => 48 <= c <= 57) s -> str_len s = length s.
Proof. intros Hs. unfold str_len. rewrite str_bytes_ascii; [done|]. eapply Forall_impl; [exact Hs|]. cbn. intros; lia. Qed.
Lemma slice_to_take n s :
  Forall (fun c => 48 <= c <= 57) s -> (n <= length s)%nat -> slice_to n s = Done (take n s).
Proof.
  intros Hs. revert n. induction Hs as [|c s Hc Hs IH]; intros [|n] Hn; cbn in Hn; [done|lia|done|].
  cbn [slice_to take]. rewrite (digits_len [c]) by by constructor. cbn. rewrite Nat.sub_0_r, IH by lia. done.
Qed.

(** The digits after the eighth are zeros, or there is no such amount. *)
Lemma amount_value w f n :
  is_digits f -> n * 10 ^ Z.of_nat (length f) = digits_value (w ++ f) * 10 ^ 8 ->
  n = digits_value w * 10 ^ 8 + digits_value (take 8 f) * 10 ^ (8 - Z.of_nat (Nat.min (length f) 8)).
Proof.
  intros [_ Hf] E. rewrite digits_value_app in E. destruct (Nat.le_gt_cases (length f) 8) as [Hl|Hl].
  - rewrite take_ge, Nat.min_l by done. assert (0 <= Z.of_nat (length f) <= 8) by lia. set (k := Z.of_nat (length f)) in *.
    assert (Hk : 10 ^ 8 = 10 ^ k * 10 ^ (8 - k)) by (rewrite <- Z.pow_add_r by lia; f_equal; lia).
    assert (0 < 10 ^ k) by (apply Z.pow_pos_nonneg; lia).
    apply (Z.mul_cancel_r _ _ (10 ^ k)); [lia|]. rewrite E, Hk. ring.
  - rewrite Nat.min_r by lia. change (8 - Z.of_nat 8) with 0. rewrite Z.pow_0_r, Z.mul_1_r.
    assert (Hc : digits_value f = digits_value (take 8 f) * 10 ^ Z.of_nat (length (drop 8 f)) + digits_value (drop 8 f))
      by (rewrite <- digits_value_app, take_drop; done).
    assert (Hd : 0 <= digits_value (drop 8 f) < 10 ^ Z.of_nat (length (drop 8 f))) by (apply digits_value_bounds; by apply Forall_drop).
    set (k := Z.of_nat (length (drop 8 f))) in *.
    assert (Hk : 10 ^ Z.of_nat (length f) = 10 ^ 8 * 10 ^ k).
    { rewrite <- Z.pow_add_r by lia. f_equal. unfold k. rewrite length_drop. lia. }
    rewrite Hk, Hc in E. set (x := digits_value w * 10 ^ 8 + digits_value (take 8 f)).
    assert (Hx : (n - x) * 10 ^ k = digits_value (drop 8 f)) by (unfold x; lia). clearbody x. clear E Hc Hk.
    destruct (Z.lt_trichotomy n x) as [|[->|]]; [nia|done|nia].
Qed.
Lemma take_digits n f : (0 < n)%nat -> is_digits f -> is_digits (take n f).
Proof. intros Hn [Hne Hf]. split; [|by apply Forall_take]. by destruct f, n; try lia. Qed.

(** Both readers of amounts agree with the digits where these are of an amount
    of 128 bits: neither wraps, nor drops a digit, nor takes a sign for one. *)
Lemma amounts_read s n :
  amount_text s n -> n <= u128_max ->
  parse_bridge_amount s = Done n /\ (forall m, parse_solen_amount s = Done m -> m = n).
Proof.
  assert (Hw : forall x y, 0 <= x -> 0 <= y -> x * 10 ^ 8 + y <= u128_max -> x <= u128_max
    /\ u128_add (u128_mul x (10 ^ 8)) y = x * 10 ^ 8 + y).
  { intros x y Hx Hy Hm. pose proof u128_max_val. unfold u128_add, u128_mul. rewrite (Z.mod_small (x * _)) by lia.
    rewrite Z.mod_small by lia. lia. }
  intros [[Hs ->]|(w & f & -> & Hds & Hdf & E)] Hm; unfold parse_bridge_amount, parse_solen_amount, parse_or.
  - pose proof (digits_value_bounds s (proj2 Hs)). rewrite (find_dot_absent s) by apply Hs.
    rewrite parse_u128_dec by (done || lia). cbn [mbind run_bind].
    destruct (Hw (digits_value s) 0) as [_ Hv]; [lia..|]. assert (Hq : u128_mul (digits_value s) (10 ^ 8) = digits_value s * 10 ^ 8).
    { unfold u128_mul. pose proof u128_max_val. rewrite Z.mod_small; lia. }
    change 100000000 with (10 ^ 8). rewrite Hq. split; [done|]. by intros m [= <-].
  - apply amount_value in E; [|done]. assert (Hd8 : is_digits (take 8 f)) by (apply take_digits; [lia|done]).
    pose proof (digits_value_bounds w (proj2 Hds)). pose proof (digits_value_bounds _ (proj2 Hd8)) as Hb.
    rewrite length_take in Hb. set (j := Nat.min 8 (length f)) in *.
    rewrite (Nat.min_comm (length f) 8) in E. fold j in E.
    assert (Hp : 10 ^ Z.of_nat j * 10 ^ (8 - Z.of_nat j) = 10 ^ 8) by (rewrite <- Z.pow_add_r by lia; f_equal; lia).
    assert (0 < 10 ^ (8 - Z.of_nat j)) by (apply Z.pow_pos_nonneg; lia).
    assert (Hf8 : 0 <= digits_value (take 8 f) * 10 ^ (8 - Z.of_nat j) < 10 ^ 8) by nia.
    destruct (Hw (digits_value w) (digits_value (take 8 f) * 10 ^ (8 - Z.of_nat j))) as [Hx Hv]; [lia..|].
    rewrite (find_dot_app w f) by apply Hds. rewrite (parse_u128_dec w) by done. cbn [mbind run_bind].
    rewrite (digits_len f) by apply Hdf. change 100000000 with (10 ^ 8).
    assert (Hf : parse_u128 (take 8 f) = Some (digits_value (take 8 f))).
    { apply parse_u128_dec; [done|]. pose proof u128_max_val.
      assert (10 ^ Z.of_nat j <= 10 ^ 8) by (apply Z.pow_le_mono_r; lia). lia. }
    assert (Hmul : u128_mul (digits_value (take 8 f)) (10 ^ (8 - Z.of_nat j)) = digits_value (take 8 f) * 10 ^ (8 - Z.of_nat j))
      by (unfold u128_mul; pose proof u128_max_val; rewrite Z.mod_small; lia).
    assert (Hj : Nat.min (length f) 8 = j /\ take j f = take 8 f).
    { unfold j. split; [lia|]. destruct (Nat.le_gt_cases (length f) 8); [|by rewrite Nat.min_l by lia].
      rewrite Nat.min_r by lia. by rewrite !take_ge by lia. }
    destruct Hj as [-> Hj]. split.
    + rewrite slice_to_take by (apply Hdf || lia). cbn [mbind run_bind].
      rewrite Hj, Hf. cbn [mbind run_bind]. by rewrite Hmul, Hv, E.
    + intros m. destruct (Nat.ltb_spec 8 (length f)) as [|Hl]; [done|].
      rewrite take_ge in Hf, Hmul, Hv, E by lia. rewrite Hf. cbn [mbind run_bind].
      replace (Z.of_nat (length f)) with (Z.of_nat j) by lia. rewrite Hmul, Hv, E. by intros [= <-].
Qed.
Lemma address_read s id : parse_address s = Returned (Ok id) <-> address_text s id.
Proof. apply parse_address_spec. Qed.
Lemma account_read f s id id' : account_text f s id -> resolved f s id' -> id' = id.
Proof.
  intros [Ha%address_read|(Hno & ks & key & -> & Hk & Ha%address_read)] (_ & [Hr|(Hf & Hr)]).
  - congruence.
  - by destruct (Hf id).
  - destruct (Hno id'). by apply address_read.
  - destruct Hr as [(ks' & key' & [= <-] & Hk' & Hr)|[Hnone _]]; [|by rewrite Hnone in Hk]. congruence.
Qed.
Lemma hex_read s b :
  hex_text s b -> cli_hex_decode s = Done b /\ cli_hex_decode (strip_0x s) = Done b
    /\ str_len (strip_0x s) = (2 * length b)%nat.
Proof.
  intros [Hb Hs]. destruct (proj1 (unhex_spec b (strip_0x s)) (conj Hb Hs)) as (Hd & Hl & Hu).
  unfold cli_hex_decode. rewrite (strip_0x_digits (strip_0x s)), hexdigits_ascii, Hl by done.
  assert (E : ((2 * length b + 1) / 2 = length b)%nat).
  { symmetry. apply (Nat.div_unique (2 * length b + 1) 2 (length b) 1); lia. }
  rewrite E, (hex_pairs_digits (length b)) by done. by rewrite Hu.
Qed.
Lemma signers_read l keys : parse_signers l = Done keys -> Forall2 address_text l keys.
Proof.
  revert keys. induction l as [|a l IH]; intros keys; cbn [parse_signers]; [by intros [= <-]|].
  destruct (address_or _ a) as [id| |] eqn:E; [|done..]. cbn [mbind run_bind].
  destruct (parse_signers l) as [rest| |]; [|done..]. cbn. intros [= <-]. constructor; [|by apply IH].
  apply address_or_ok in E. by apply address_read.
Qed.

(** Every text of a command has a meaning: amounts are decimal numbers of
    hundred-millionths that fit 128 bits, accounts are addresses or names of keys
    of the file, byte strings are hexadecimal, and the months of a vesting
    schedule are as many epochs as 64 bits hold. *)
Definition has_amount (s : str) : Prop := exists n, amount_text s n /\ n <= u128_max.
Definition names (f : KeyFile) (s : str) : Prop := exists id, account_text f s id.
Definition is_hex (s : str) : Prop := exists b, hex_text s b.
Definition written (f : KeyFile) (c : Commands) : Prop :=
  match c with
  | CProposeMinStake _ amount _ | CVote _ _ _ amount | CRegisterValidator _ amount => has_amount amount
  | CProposeSetBridgeRelayer _ s _ | CProposeSetVestingAdmin _ s _ | CSetVestingAdmin _ s => names f s
  | CStake _ s amount | CUnstake _ s amount | CTransfer _ s amount => names f s /\ has_amount amount
  | CAddVesting _ s amount _ cliff vest => names f s /\ has_amount amount
      /\ 0 <= default 3 cliff /\ 0 <= default 12 vest
      /\ (default 3 cliff + default 12 vest) * EPOCHS_PER_MONTH <= u64_max
  | CBridgeToBase _ address amount => is_hex address /\ has_amount amount
  | CCall _ s _ args => names f s /\ match args with Some h => is_hex h | None => True end
  | CRegisterRollup _ _ _ _ root => is_hex root
  | CInitiateRecovery _ s key => names f s /\ is_hex key
  | _ => True
  end.

Lemma names_read f s id : names f s -> resolved f s id -> account_text f s id.
Proof. intros [id' Ha] Hr. by rewrite (account_read f s id' id Ha Hr). Qed.
Lemma amount_read s n : has_amount s -> parse_solen_amount s = Done n -> amount_text s n.
Proof. intros (m & Ha & Hm) Hp. by rewrite (proj2 (amounts_read s m Ha Hm) n Hp). Qed.
Lemma bridge_read s n : has_amount s -> parse_bridge_amount s = Done n -> amount_text s n.
Proof. intros (m & Ha & Hm) Hp. rewrite (proj1 (amounts_read s m Ha Hm)) in Hp. congruence. Qed.
Lemma bytes_read s b : is_hex s -> cli_hex_decode s = Done b -> hex_text s b.
Proof. intros (b' & Ha) Hp. rewrite (proj1 (hex_read s b' Ha)) in Hp. congruence. Qed.
Lemma stripped_read s b : is_hex s -> cli_hex_decode (strip_0x s) = Done b -> hex_text s b.
Proof. intros (b' & Ha) Hp. rewrite (proj1 (proj2 (hex_read s b' Ha))) in Hp. congruence. Qed.
Ltac read := first [assumption | by eapply names_read | by eapply amount_read | by eapply bridge_read
  | by eapply bytes_read | by eapply stripped_read | by eapply signers_read].

(** ** Orders *)

(** The key a command signs with. *)
Definition signing_key (c : Commands) : str :=
  match c with
  | CClaimVesting from | CProposeBlockTime from _ _ | CProposeMinStake from _ _
  | CProposeMigrateTeamPoolToVesting from _ | CProposeSetVotingPeriod from _ _ | CProposeSetBridgeRelayer from _ _
  | CProposeSetVestingAdmin from _ _ | CVote from _ _ _ | CFinalizeProposal from _ | CExecuteProposal from _
  | CRegisterValidator from _ | CStake from _ _ | CUnstake from _ _ | CWithdrawStake from | CSetVestingAdmin from _
  | CAddVesting from _ _ _ _ _ | CUnjail from | CBridgeToBase from _ _ | CTransfer from _ _ | CDeploy from _
  | CCall from _ _ _ | CRegisterRollup from _ _ _ _ | CRegisterPaymaster from | CUnregisterPaymaster from
  | CInitiateRecovery from _ _ | CConfirmRecovery from _ | CCancelRecovery from _ | CExecuteRecovery from _
  | CMultisig from _ _ | CKey (KQuantumUpgrade from _) => from
  | _ => []
  end.

(** The numbers that the parser of the command line gives. *)
Definition typed (c : Commands) : Prop :=
  match c with
  | CProposeBlockTime _ n _ | CProposeSetVotingPeriod _ n _ | CVote _ n _ _ | CFinalizeProposal _ n
  | CExecuteProposal _ n | CConfirmRecovery _ n | CCancelRecovery _ n | CExecuteRecovery _ n
  | CRegisterRollup _ n _ _ _ => in_u64 n
  | CMultisig _ t _ => 0 <= t < 2 ^ 16
  | _ => True
  end.

Section orders.
Context {S : Type} `{!StateStore S} `{!Codec Account} `{!Codec GovernanceContract} `{!Codec StakingContract}
        `{!Codec VestingContract}.
Context (debug_str : string -> string).
Context `{!Crypto} `{!Signing} `{!Host} `{!Vault} `{!Node} `{!Codec (list Action)}.

(** A call that the handler of governance takes as a proposal of [action]. *)
Definition proposes (action : ProposalAction) (description : str) (a : Action) : Prop :=
  exists method args, a = Call GOVERNANCE_ADDRESS method args /\ is_proposal_method method = true
    /\ forall (s : S) gov sender,
         governance_method debug_str s gov sender method args = created s gov sender action (str_bytes description).
(** A call of a method with an identifier. *)
Definition calls_with_id (target : AccountId) (method : string) (id : u64) (a : Action) : Prop :=
  exists args, a = Call target method args /\ SysCommon.read_u64 args 0 = Some id.

(** The vesting type that is meant. *)
Definition vesting_type_of (name : str) (cliff vest : option u64) (t : VestingType) : Prop :=
  (name = chars "team" /\ t = Team) \/ (name = chars "investor" /\ t = Investor)
  \/ (name = chars "validator" /\ t = Validator)
  \/ (name = chars "custom" /\ t = Custom (default 3 cliff * EPOCHS_PER_MONTH)
        ((default 3 cliff + default 12 vest) * EPOCHS_PER_MONTH)).

(** What the action of the operation has to be, as the node reads it. *)
Definition asked (f : KeyFile) (c : Commands) (sender : AccountId) (a : Action) : Prop :=
  match c with
  | CClaimVesting _ => a = Call VESTING_ADDRESS "claim" []
  | CProposeBlockTime _ ms desc => proposes (SetBlockTime ms) desc a
  | CProposeMinStake _ amount desc => exists n, amount_text amount n /\ proposes (SetMinValidatorStake n) desc a
  | CProposeMigrateTeamPoolToVesting _ desc => proposes MigrateTeamPoolToVesting desc a
  | CProposeSetVotingPeriod _ epochs desc => proposes (SetGovernanceVotingPeriod epochs) desc a
  | CProposeSetBridgeRelayer _ relayer desc => exists id, account_text f relayer id /\ proposes (SetBridgeRelayer id) desc a
  | CProposeSetVestingAdmin _ admin desc => exists id, account_text f admin id /\ proposes (SetVestingAdmin id) desc a
  | CVote _ id yes weight => exists n args, amount_text weight n
      /\ a = Call GOVERNANCE_ADDRESS "vote" args /\ SysCommon.read_u64 args 0 = Some id
      /\ args !! 8%nat = Some (if yes then 1 else 0) /\ SysCommon.read_u128 args 9 = Some n
  | CFinalizeProposal _ id => calls_with_id GOVERNANCE_ADDRESS "finalize" id a
  | CExecuteProposal _ id => calls_with_id GOVERNANCE_ADDRESS "execute" id a
  | CRegisterValidator _ amount => exists n args, amount_text amount n
      /\ a = Call STAKING_ADDRESS "register" args /\ SysCommon.read_u128 args 0 = Some n
  | CStake _ validator amount => exists id n args, account_text f validator id /\ amount_text amount n
      /\ a = Call STAKING_ADDRESS "delegate" args
      /\ read_account_id args 0 = Some id /\ SysCommon.read_u128 args 32 = Some n
  | CUnstake _ validator amount => exists id n args, account_text f validator id /\ amount_text amount n
      /\ a = Call STAKING_ADDRESS "undelegate" args
      /\ read_account_id args 0 = Some id /\ SysCommon.read_u128 args 32 = Some n
  | CWithdrawStake _ => a = Call STAKING_ADDRESS "withdraw" []
  | CSetVestingAdmin _ admin => exists id, account_text f admin id /\ a = Call VESTING_ADDRESS "set_vesting_admin" id
  | CAddVesting _ recipient amount t cliff vest => exists id n vt args, account_text f recipient id
      /\ amount_text amount n /\ vesting_type_of t cliff vest vt
      /\ a = Call VESTING_ADDRESS "add_vesting" args /\ (49 <= length args)%nat
      /\ slice 0 32 args = id /\ from_le (slice 32 16 args) = n /\ read_vesting_type args = Ok vt
  | CUnjail _ => a = Call STAKING_ADDRESS "unjail" []
  | CBridgeToBase _ address amount => exists b n args, hex_text address b
      /\ amount_text amount n /\ a = Call BRIDGE_ADDRESS "bridge_to_base" args
      /\ length b = 20%nat /\ slice 0 20 args = b /\ SysCommon.read_u128 args 20 = Some n
  | CTransfer _ to amount => exists id n, account_text f to id /\ amount_text amount n /\ a = Transfer id n
  | CDeploy _ file => exists code salt, n_read_file file = Ok code /\ a = Deploy code salt
  | CCall _ target method args_hex => exists id args, account_text f target id
      /\ match args_hex with Some h => hex_text h args | None => args = [] end /\ a = Call id method args
  | CRegisterRollup _ id name proof_type root => exists b args, hex_text root b
      /\ a = Call BRIDGE_ADDRESS "register_rollup" args
      /\ (Z.of_nat (str_len name) < 2 ^ 32 -> Z.of_nat (str_len proof_type) < 2 ^ 32 ->
          forall s : S, is_mainnet s = false ->
          String.eqb (from_utf8_lossy (str_bytes proof_type)) "committee" = false ->
          parse_register s args = Ok (mkRegisterArgs id (from_utf8_lossy (str_bytes name))
            (from_utf8_lossy (str_bytes proof_type)) sender b 0 []))
  | CRegisterPaymaster _ => a = Call PAYMASTER_REGISTRY_ADDRESS "register" []
  | CUnregisterPaymaster _ => a = Call PAYMASTER_REGISTRY_ADDRESS "unregister" []
  | CInitiateRecovery _ target key => exists id pk args, account_text f target id
      /\ hex_text key pk /\ a = Call GUARDIAN_ADDRESS "initiate_recovery" args
      /\ read_account_id args 0 = Some id /\ drop 32 args = n_auth_json [Ed25519 pk]
  | CConfirmRecovery _ id => calls_with_id GUARDIAN_ADDRESS "confirm_recovery" id a
  | CCancelRecovery _ id => calls_with_id GUARDIAN_ADDRESS "cancel_recovery" id a
  | CExecuteRecovery _ id => calls_with_id GUARDIAN_ADDRESS "execute_recovery" id a
  | CMultisig _ t l => exists signers, Forall2 address_text l signers /\ 1 <= t <= Z.of_nat (length signers)
      /\ a = SetAuth [Threshold signers t]
  | CKey (KQuantumUpgrade _ hybrid) => exists seed, a = SetAuth [auth_method (if hybrid then SignHybrid seed seed else SignMlDsa seed)]
  | _ => False
  end.

(** The key of that name in the file: its seed, which is the one the hexadecimal
    text stands for, and its account. *)
Definition signs_as (f : KeyFile) (name : str) (signer : Signer) (account : AccountId) : Prop :=
  exists ks key text seed, f = Holds ks /\ keys ks !! name = Some key /\ seed_of ks key text
    /\ address_text (account_id_hex key) account
    /\ signer = signer_of (k_scheme key) seed /\ length seed = 32%nat /\ (forall b, hex_text text b -> seed = b).
(** The operation: of the account of the key, signed with it for the chain. *)
Definition ordered (f : KeyFile) (c : Commands) (chain_id : u64) (op : UserOperation) : Prop :=
  exists signer a, signs_as f (signing_key c) signer (op_sender op)
    /\ op_signature op = signer_sign signer (signing_message chain_id op)
    /\ op_actions op = [a] /\ asked f c (op_sender op) a.

Lemma key_of_length f n kp sender : key_of f n kp sender -> length sender = 32%nat.
Proof.
  intros (ks & key & text & _ & _ & _ & Hs). unfold signer_from in Hs.
  destruct (cli_hex_decode text) as [b| |]; [|done..]. cbn [mbind run_bind] in Hs.
  destruct (negb _); [done|]. destruct (address_or _ _) as [id| |] eqn:E; [|done..].
  injection Hs as _ <-. apply address_or_ok in E. by eapply parse_address_length.
Qed.
Lemma key_signs f n kp sender : key_of f n kp sender -> signs_as f n kp sender.
Proof.
  intros (ks & key & text & Hf & Hk & Ht & Hs). unfold signer_from in Hs.
  destruct (cli_hex_decode text) as [b| |] eqn:Eb; [|done..]. cbn [mbind run_bind] in Hs.
  destruct (Nat.eqb_spec (length b) 32) as [Hb|]; [|done]. cbn [negb] in Hs.
  destruct (address_or _ _) as [id| |] eqn:E; [|done..]. injection Hs as <- <-.
  apply address_or_ok, address_read in E. exists ks, key, text, b. do 6 (split; [done|]).
  intros b' Hb'. rewrite (proj1 (hex_read text b' Hb')) in Eb. congruence.
Qed.
Lemma ordered_signed f c chain_id kp sender a fee op :
  signed kp sender [a] fee chain_id op -> key_of f (signing_key c) kp sender -> asked f c sender a ->
  ordered f c chain_id op.
Proof. intros [nonce ->] Hk%key_signs Ha. exists kp, a. done. Qed.

(** Amounts are of 128 bits. *)
Lemma u128_mod_in x : in_u128 (x mod 2 ^ 128).
Proof. unfold in_u128. pose proof u128_max_val. pose proof (Z.mod_pos_bound x (2 ^ 128)). lia. Qed.
Lemma u64_mod_in x : in_u64 (x mod 2 ^ 64).
Proof. unfold in_u64. pose proof u64_max_val. pose proof (Z.mod_pos_bound x (2 ^ 64)). lia. Qed.
Lemma u128_add_in x y : in_u128 (u128_add x y).
Proof. apply u128_mod_in. Qed.
Lemma u128_mul_in x y : in_u128 (u128_mul x y).
Proof. apply u128_mod_in. Qed.
Lemma parse_solen_amount_range s n : parse_solen_amount s = Done n -> in_u128 n.
Proof.
  unfold parse_solen_amount, parse_or.
  destruct (find_dot s) as [[w fr]|]; cbn [mbind run_bind].
  - destruct (parse_u128 w); [|done]. cbn [mbind run_bind]. destruct (Nat.ltb _ _); [done|].
    destruct (parse_u128 fr); [|done]. intros [= <-]; auto using u128_add_in, u128_mul_in.
  - destruct (parse_u128 s); [|done]. intros [= <-]; auto using u128_add_in, u128_mul_in.
Qed.
Lemma parse_bridge_amount_range s n : parse_bridge_amount s = Done n -> in_u128 n.
Proof.
  unfold parse_bridge_amount, parse_or.
  destruct (find_dot s) as [[w fr]|]; cbn [mbind run_bind].
  - destruct (parse_u128 w); [|done]. cbn [mbind run_bind]. destruct (slice_to _ _) as [d| |]; [|done..].
    cbn [mbind run_bind]. destruct (parse_u128 d); [|done]. intros [= <-]; auto using u128_add_in, u128_mul_in.
  - destruct (parse_u128 s); [|done]. intros [= <-]; auto using u128_add_in, u128_mul_in.
Qed.
End orders.

(** One step of a command: a part that submits nothing. *)
Ltac cli_step :=
  match goal with
  | |- once _ (load_sender _ ≫= _) _ =>
      eapply once_bind; [apply quiet_load_sender|]; intros [?kp ?sender] ?Hkey; cbn [fst snd] in *
  | |- once _ (resolve_account_id _ ≫= _) _ => eapply once_bind; [apply quiet_resolve|]; intros ?id ?Hres
  | |- once _ (get_account _ ≫= _) _ => eapply once_bind; [apply quiet_account|]; intros ?info _
  | |- once _ (get_next_nonce _ ≫= _) _ => eapply once_bind; [apply quiet_nonce|]; intros ?nonce _
  | |- once _ (unwrap_or _ (get_next_nonce _) ≫= _) _ => eapply once_bind; [apply quiet_nonce_or|]; intros ?nonce _
  | |- once _ (signed_with _ _ _ _ _ _ ≫= _) _ => eapply once_bind; [apply quiet_signed|]; intros ?op ?Hop
  | |- once _ (lift _ ≫= _) _ => eapply once_bind; [apply quiet_lift|];
      let x := fresh "x" in let Hx := fresh "Hx" in intros x Hx; cbn beta in Hx
  | |- once _ (if ?b then bail _ else _) _ => destruct b eqn:?; [apply once_silent, silent_lift|]
  | |- once _ (send _ _ _) _ => apply once_send
  | |- once _ (send_proposal _ _ _ _) _ => apply once_send_proposal
  | |- once _ (simulate_and_send _ _ _) _ => apply once_simulate_and_send
  end.

Section agreement.
Context {S : Type} `{!StateStore S} `{!Codec Account} `{!Codec GovernanceContract} `{!Codec StakingContract}
        `{!Codec VestingContract}.
Context (debug_str : string -> string).
Context `{!Crypto} `{!Signing} `{!Host} `{!Vault} `{!Node} `{!Codec (list Action)}.
Abbreviation ordered := (ordered (S := S) debug_str).

Ltac cli_steps := repeat cli_step; try (eapply ordered_signed; [eassumption|done|]).

Lemma drop_le n z rest : drop n (le_bytes n z ++ rest) = rest.
Proof. by rewrite drop_app_length' by by rewrite length_le_bytes. Qed.

(** *** Proposals *)

Lemma block_time_proposes ms desc :
  in_u64 ms -> proposes (S := S) debug_str (SetBlockTime ms) desc
    (Call (system_address 2) "propose_set_block_time" (le_bytes 8 ms ++ str_bytes desc)).
Proof.
  intros Hn. do 2 eexists. split; [done|]. split; [done|]. intros s gov sender.
  change (propose_set_block_time s gov sender (le_bytes 8 ms ++ str_bytes desc)
    = created s gov sender (SetBlockTime ms) (str_bytes desc)).
  unfold propose_set_block_time. by rewrite read_u64_first, drop_le.
Qed.
Lemma min_stake_proposes n desc :
  in_u128 n -> proposes (S := S) debug_str (SetMinValidatorStake n) desc
    (Call (system_address 2) "propose_set_min_validator_stake" (le_bytes 16 n ++ str_bytes desc)).
Proof.
  intros Hn. do 2 eexists. split; [done|]. split; [done|]. intros s gov sender.
  change (propose_set_min_validator_stake s gov sender (le_bytes 16 n ++ str_bytes desc)
    = created s gov sender (SetMinValidatorStake n) (str_bytes desc)).
  unfold propose_set_min_validator_stake. by rewrite read_u128_first, drop_le.
Qed.
Lemma voting_period_proposes n desc :
  in_u64 n -> proposes (S := S) debug_str (SetGovernanceVotingPeriod n) desc
    (Call (system_address 2) "propose_set_voting_period" (le_bytes 8 n ++ str_bytes desc)).
Proof.
  intros Hn. do 2 eexists. split; [done|]. split; [done|]. intros s gov sender.
  change (propose_set_voting_period s gov sender (le_bytes 8 n ++ str_bytes desc)
    = created s gov sender (SetGovernanceVotingPeriod n) (str_bytes desc)).
  unfold propose_set_voting_period. rewrite length_app, length_le_bytes, drop_le.
  rewrite slice_first by done. by rewrite from_le_u64.
Qed.
Lemma relayer_proposes id desc :
  length id = 32%nat -> proposes (S := S) debug_str (SetBridgeRelayer id) desc
    (Call (system_address 2) "propose_set_bridge_relayer" (id ++ str_bytes desc)).
Proof.
  intros Hn. do 2 eexists. split; [done|]. split; [done|]. intros s gov sender.
  change (propose_set_bridge_relayer s gov sender (id ++ str_bytes desc)
    = created s gov sender (SetBridgeRelayer id) (str_bytes desc)).
  unfold propose_set_bridge_relayer. rewrite length_app, Hn, slice_first by done.
  by rewrite drop_app_length' by done.
Qed.
Lemma admin_proposes id desc :
  length id = 32%nat -> proposes (S := S) debug_str (SetVestingAdmin id) desc
    (Call (system_address 2) "propose_set_vesting_admin" (id ++ str_bytes desc)).
Proof.
  intros Hn. do 2 eexists. split; [done|]. split; [done|]. intros s gov sender.
  change (propose_set_vesting_admin s gov sender (id ++ str_bytes desc)
    = created s gov sender (SetVestingAdmin id) (str_bytes desc)).
  unfold propose_set_vesting_admin. rewrite length_app, Hn, slice_first by done.
  by rewrite drop_app_length' by done.
Qed.
Lemma migrate_proposes desc :
  proposes (S := S) debug_str MigrateTeamPoolToVesting desc
    (Call (system_address 2) "propose_migrate_team_pool_to_vesting" (str_bytes desc)).
Proof. do 2 eexists. split; [done|]. split; [done|]. done. Qed.

Definition proposal_command (c : Commands) : bool :=
  match c with
  | CProposeBlockTime _ _ _ | CProposeMinStake _ _ _ | CProposeMigrateTeamPoolToVesting _ _
  | CProposeSetVotingPeriod _ _ _ | CProposeSetBridgeRelayer _ _ _ | CProposeSetVestingAdmin _ _ _ => true
  | _ => false
  end.
Lemma proposal_ordered f c chain_id :
  proposal_command c = true -> typed c -> written f c -> once f (run_command c chain_id) (ordered f c chain_id).
Proof.
  intros Hc Ht Hw. destruct c; try done; cbn [run_command typed written] in *.
  - unfold cmd_propose_block_time. cli_steps. by apply block_time_proposes.
  - unfold cmd_propose_min_stake. cli_steps. eexists. split; [read|].
    apply min_stake_proposes. by eapply parse_solen_amount_range.
  - unfold cmd_propose_migrate_team_pool_to_vesting. cli_steps. apply migrate_proposes.
  - unfold cmd_propose_set_voting_period. cli_steps. by apply voting_period_proposes.
  - unfold cmd_propose_set_bridge_relayer. cli_steps. eexists. split; [read|]. by apply relayer_proposes, Hres.
  - unfold cmd_propose_set_vesting_admin. cli_steps. eexists. split; [read|]. by apply admin_proposes, Hres.
Qed.

(** *** System calls *)

Lemma ids_ordered f c chain_id :
  match c with
  | CFinalizeProposal _ _ | CExecuteProposal _ _ | CConfirmRecovery _ _ | CCancelRecovery _ _ | CExecuteRecovery _ _
  | CClaimVesting _ | CWithdrawStake _ | CUnjail _ | CRegisterPaymaster _ | CUnregisterPaymaster _ => True
  | _ => False
  end -> typed c -> once f (run_command c chain_id) (ordered f c chain_id).
Proof.
  intros Hc Ht. destruct c; try done; cbn [run_command typed] in *.
  1: unfold cmd_claim_vesting, call_bare.
  2: unfold cmd_finalize_proposal, call_with_id. 3: unfold cmd_execute_proposal, call_with_id.
  4: unfold cmd_withdraw_stake, call_bare. 5: unfold cmd_unjail, call_bare. 6: unfold cmd_register_paymaster.
  7: unfold cmd_unregister_paymaster, call_bare. 8: unfold cmd_confirm_recovery, call_with_id.
  9: unfold cmd_cancel_recovery, call_with_id. 10: unfold cmd_execute_recovery, call_with_id.
  all: cli_steps; first [reflexivity|eexists; split; [reflexivity|]; by apply read_u64_only].
Qed.

Lemma vote_ordered f from id yes weight chain_id :
  in_u64 id -> has_amount weight -> once f (run_command (CVote from id yes weight) chain_id) (ordered f (CVote from id yes weight) chain_id).
Proof.
  intros Hid Hw. cbn [run_command]. unfold cmd_vote. cli_steps. do 2 eexists. split; [read|]. split; [done|].
  unfold vote_args. split; [by apply read_u64_first|]. split; [done|].
  rewrite app_assoc, <- (app_nil_r (le_bytes 16 x)). apply read_u128_within; [done|]. by eapply parse_solen_amount_range.
Qed.

Lemma staking_ordered f c chain_id :
  match c with CRegisterValidator _ _ | CStake _ _ _ | CUnstake _ _ _ => True | _ => False end ->
  written f c -> once f (run_command c chain_id) (ordered f c chain_id).
Proof.
  intros Hc Hw. destruct c; try done; cbn [run_command written] in *.
  - unfold cmd_register_validator. cbv zeta. cli_steps. assert (Hn : in_u128 x) by by eapply parse_solen_amount_range.
    change (chars _) with (cli_hex_encode (le_bytes 16 x)) in Hx0. rewrite cli_hex_roundtrip in Hx0 by apply le_bytes_digits.
    assert (E : x0 = le_bytes 16 x) by congruence. subst x0.
    eapply (ordered_signed _ _ _ _ kp sender); [by eexists|done|]. do 2 eexists. split; [read|]. split; [done|].
    rewrite <- (app_nil_r (le_bytes 16 x)). by apply read_u128_first.
  - destruct Hw. unfold cmd_stake. cli_steps. do 3 eexists. split; [read|]. split; [read|]. split; [done|].
    split; [apply read_id_first, Hres|]. rewrite <- (app_nil_r (le_bytes 16 x)).
    apply read_u128_within; [apply Hres|]. by eapply parse_solen_amount_range.
  - destruct Hw. unfold cmd_unstake. cli_steps. do 3 eexists. split; [read|]. split; [read|]. split; [done|].
    split; [apply read_id_first, Hres|].
    apply read_u128_within; [apply Hres|]. by eapply parse_solen_amount_range.
Qed.

Lemma done_fst (a c : bytes) (b d : str) : Done (a, b) = Done (c, d) -> c = a.
Proof. congruence. Qed.
Lemma vesting_decoded id n t cliff vest type_args name :
  length id = 32%nat -> 0 <= default 3 cliff -> 0 <= default 12 vest ->
  (default 3 cliff + default 12 vest) * EPOCHS_PER_MONTH <= u64_max -> vesting_type_args t cliff vest = Done (type_args, name) ->
  exists vt, vesting_type_of t cliff vest vt /\ (1 <= length type_args)%nat
    /\ read_vesting_type (id ++ le_bytes 16 n ++ type_args) = Ok vt.
Proof.
  intros Hid Hcl Hve Hfit. unfold vesting_type_args, vesting_type_of.
  assert (Hpre : forall x rest, (id ++ le_bytes 16 n ++ x :: rest) !!! 48%nat = x).
  { intros x rest. rewrite app_assoc, lookup_total_app_r; rewrite length_app, Hid, length_le_bytes; done. }
  case_bool_decide; [|case_bool_decide; [|case_bool_decide; [|case_bool_decide; [|done]]]];
    intros E; apply done_fst in E; subst type_args.
  1: exists Team. 2: exists Investor. 3: exists Validator.
  4: set (c := u64_mul (default 3 cliff) CLI_EPOCHS_PER_MONTH);
     set (v := u64_add c (u64_mul (default 12 vest) CLI_EPOCHS_PER_MONTH)); exists (Custom c v).
  1-3: split; [auto 10|].
  4: assert (Hm : 0 < EPOCHS_PER_MONTH) by done; change CLI_EPOCHS_PER_MONTH with EPOCHS_PER_MONTH in *;
     pose proof u64_max_val;
     assert (Ec : c = default 3 cliff * EPOCHS_PER_MONTH) by (unfold c, u64_mul; rewrite Z.mod_small; nia);
     assert (Ev0 : v = (default 3 cliff + default 12 vest) * EPOCHS_PER_MONTH)
       by (unfold v; rewrite Ec; unfold u64_add, u64_mul; rewrite (Z.mod_small (_ * _)), Z.mod_small; nia);
     split; [do 3 right; split; [done|]; by rewrite Ec, Ev0|].
  all: split; [cbn; lia|].
  1-3: unfold read_vesting_type; by rewrite Hpre.
  unfold read_vesting_type.
  rewrite (Hpre 3 (le_bytes 8 c ++ le_bytes 8 v)
    : (id ++ le_bytes 16 n ++ [3] ++ le_bytes 8 c ++ le_bytes 8 v) !!! 48%nat = 3).
  assert (Hc : in_u64 c) by apply u64_mod_in. assert (Hv : in_u64 v) by apply u64_mod_in.
  set (pre := id ++ le_bytes 16 n ++ [3]). assert (Hp : length pre = 49%nat) by (unfold pre; rewrite !length_app, length_le_bytes, Hid; done).
  assert (E : id ++ le_bytes 16 n ++ [3] ++ le_bytes 8 c ++ le_bytes 8 v = pre ++ le_bytes 8 c ++ le_bytes 8 v)
    by (unfold pre; by rewrite <- !app_assoc).
  rewrite E, !length_app, !length_le_bytes, Hp, slice_at by (done || apply length_le_bytes).
  assert (Ev : slice 57 8 (pre ++ le_bytes 8 c ++ le_bytes 8 v) = le_bytes 8 v).
  { rewrite app_assoc, <- (app_nil_r (le_bytes 8 v)). apply slice_at; rewrite ?length_app, ?length_le_bytes, ?Hp; done. }
  by rewrite Ev, !from_le_u64.
Qed.
Lemma vesting_ordered f c chain_id :
  match c with CSetVestingAdmin _ _ | CAddVesting _ _ _ _ _ _ => True | _ => False end ->
  written f c -> once f (run_command c chain_id) (ordered f c chain_id).
Proof.
  intros Hc Hw. destruct c; try done; cbn [run_command written] in *.
  - unfold cmd_set_vesting_admin. cli_steps. eexists. split; [read|done].
  - destruct Hw as (Hn & Ha & Hcl & Hve & Hfit). unfold cmd_add_vesting. cli_step. cli_step. cli_step. eapply once_bind; [apply quiet_lift|]. intros [type_args name] Ht.
    cli_steps. destruct (vesting_decoded id x _ _ _ _ _ (proj1 Hres) Hcl Hve Hfit Ht) as (vt & Hvt & Hl & Hr).
    do 4 eexists. do 2 (split; [read|]). do 2 (split; [done|]). rewrite !length_app, length_le_bytes, (proj1 Hres). split; [lia|].
    split; [by apply slice_first, Hres|]. split; [|done].
    rewrite slice_at by (apply Hres || apply length_le_bytes). apply from_le_u128. by eapply parse_solen_amount_range.
Qed.

(** *** Bridge, rollups and recovery *)

Lemma bridge_ordered f from address amount chain_id :
  is_hex address -> has_amount amount -> once f (run_command (CBridgeToBase from address amount) chain_id)
    (ordered f (CBridgeToBase from address amount) chain_id).
Proof.
  intros Hh Ha. cbn [run_command]. unfold cmd_bridge_to_base. cbv zeta. cli_steps.
  assert (Hb : hex_text address x) by read.
  assert (Hl : length x = 20%nat).
  { destruct (hex_read address x Hb) as (_ & _ & Hl).
    destruct (Nat.eqb_spec (str_len (strip_0x address)) 40); [lia|done]. }
  do 3 eexists. do 2 (split; [read|]). do 2 (split; [done|]).
  split; [by apply slice_first|]. rewrite <- (app_nil_r (le_bytes 16 x0)). apply read_u128_within; [done|].
  by eapply parse_bridge_amount_range.
Qed.

Lemma recovery_ordered f from target key chain_id :
  names f target -> is_hex key -> once f (run_command (CInitiateRecovery from target key) chain_id)
    (ordered f (CInitiateRecovery from target key) chain_id).
Proof.
  intros Hn Hh. cbn [run_command]. unfold cmd_initiate_recovery. cbv zeta. cli_steps. do 3 eexists.
  do 2 (split; [read|]). split; [done|].
  split; [by apply read_id_first, Hres|]. apply drop_app_length'. symmetry. apply Hres.
Qed.

Lemma read_u32_sized off pre b rest :
  length pre = off -> Z.of_nat (length b) < 2 ^ 32 -> read_u32_at (pre ++ sized b ++ rest) off = length b.
Proof.
  intros Hp Hb. unfold read_u32_at, sized. rewrite <- app_assoc, slice_at by (done || apply length_le_bytes).
  rewrite Z.mod_small by lia. rewrite from_le_bytes; [lia|]. change (256 ^ Z.of_nat 4) with (2 ^ 32). lia.
Qed.
Lemma slice_sized off pre b rest :
  (length pre + 4)%nat = off -> slice off (length b) (pre ++ sized b ++ rest) = b.
Proof.
  intros Hp. unfold sized. rewrite <- app_assoc, app_assoc. apply slice_at; [|done].
  rewrite length_app, length_le_bytes. lia.
Qed.
Lemma length_sized b : length (sized b) = (4 + length b)%nat.
Proof. unfold sized. by rewrite length_app, length_le_bytes. Qed.

(** The node reads the arguments of a rollup as they were given. *)
Lemma rollup_decoded (s : S) id name proof_type sequencer root :
  in_u64 id -> length sequencer = 32%nat -> length root = 32%nat ->
  Z.of_nat (length name) < 2 ^ 32 -> Z.of_nat (length proof_type) < 2 ^ 32 ->
  is_mainnet s = false -> String.eqb (from_utf8_lossy proof_type) "committee" = false ->
  parse_register s (le_bytes 8 id ++ sized name ++ sized proof_type ++ sequencer ++ root)
  = Ok (mkRegisterArgs id (from_utf8_lossy name) (from_utf8_lossy proof_type) sequencer root 0 []).
Proof.
  intros Hid Hs Hr Hn Hp Hm Hc. set (args := le_bytes 8 id ++ _).
  assert (L : length args = (8 + (4 + length name) + (4 + length proof_type) + 64)%nat)
    by (unfold args; rewrite !length_app, !length_sized, length_le_bytes, Hs, Hr; lia).
  unfold parse_register. unfold args at 1. rewrite read_u64_first by done. fold args.
  assert (E1 : read_u32_at args 8 = length name)
    by (apply (read_u32_sized 8 (le_bytes 8 id)); [apply length_le_bytes|done]).
  assert (E2 : slice 12 (12 + length name - 12) args = name).
  { replace (12 + length name - 12)%nat with (length name) by lia. apply (slice_sized 12 (le_bytes 8 id)). by rewrite length_le_bytes. }
  set (pre := le_bytes 8 id ++ sized name). assert (Lp : length pre = (12 + length name)%nat)
    by (unfold pre; rewrite length_app, length_sized, length_le_bytes; lia).
  assert (Ea : args = pre ++ sized proof_type ++ sequencer ++ root) by (unfold args, pre; by rewrite <- app_assoc).
  assert (E3 : read_u32_at args (12 + length name) = length proof_type) by (rewrite Ea; by apply read_u32_sized).
  assert (E4 : slice (12 + length name + 4) (length proof_type) args = proof_type)
    by (rewrite Ea; apply slice_sized; lia).
  assert (E5 : read_account_id args (12 + length name + 4 + length proof_type) = Some sequencer).
  { rewrite Ea, app_assoc. apply read_id_at; [|done]. rewrite length_app, length_sized. lia. }
  assert (E6 : slice (12 + length name + 4 + length proof_type + 32) 32 args = root).
  { replace args with ((pre ++ sized proof_type ++ sequencer) ++ root ++ []) by (rewrite Ea, app_nil_r; by rewrite <- !app_assoc).
    apply slice_at; [|done]. rewrite !length_app, length_sized. lia. }
  rewrite E1. cbv zeta. rewrite E2, E3, E4, E5, E6, L, Hm, Hc.
  do 3 (rewrite (proj2 (Nat.ltb_ge _ _)) by lia). done.
Qed.
Lemma rollup_ordered f from id name proof_type root chain_id :
  in_u64 id -> is_hex root -> once f (run_command (CRegisterRollup from id name proof_type root) chain_id)
    (ordered f (CRegisterRollup from id name proof_type root) chain_id).
Proof.
  intros Hid Hh. cbn [run_command]. unfold cmd_register_rollup. cli_steps. do 2 eexists. split; [read|].
  split; [done|].
  intros Hn Hp s Hm Hc. apply rollup_decoded; [done|by eapply key_of_length| |done..].
  apply Nat.eqb_eq. by apply negb_false_iff.
Qed.

(** *** Transfers, contracts and methods *)

Lemma parse_signers_length l keys : parse_signers l = Done keys -> length keys = length l.
Proof.
  revert keys. induction l as [|a l IH]; intros keys; cbn [parse_signers]; [by intros [= <-]|].
  destruct (address_or _ a); [|done..]. cbn [mbind run_bind]. destruct (parse_signers l); [|done..].
  cbn. intros [= <-]. cbn. f_equal. by apply IH.
Qed.
Lemma simple_ordered f c chain_id :
  match c with CTransfer _ _ _ | CDeploy _ _ | CCall _ _ _ _ | CMultisig _ _ _ => True | _ => False end ->
  typed c -> written f c -> once f (run_command c chain_id) (ordered f c chain_id).
Proof.
  intros Hc Ht Hw. destruct c; try done; cbn [run_command typed written] in *.
  - destruct Hw. unfold cmd_transfer. cbv zeta. cli_steps. eapply (ordered_signed _ _ _ _ kp sender); [by eexists|done|].
    do 2 eexists. split; [read|]. split; [read|done].
  - unfold cmd_deploy. cli_step. destruct (n_read_file wasm_file) as [code|e] eqn:E; [|apply once_silent, silent_lift].
    cbv zeta. cli_steps. by do 2 eexists.
  - unfold cmd_call. cli_step. cli_step. eapply (once_bind _ _ _ (fun args0 =>
      match args with Some h => cli_hex_decode h = Done args0 | None => args0 = [] end)).
    { destruct args; [apply quiet_lift|]. split; [apply silent_ret|]. by intros w a Hv [= <-]. }
    destruct Hw as [Hn Hh]. intros x Hx. cli_steps. do 2 eexists. split; [read|]. split; [|done].
    destruct args; [read|done].
  - unfold cmd_multisig. cli_steps. eexists. split; [read|]. split; [|done].
    rewrite (parse_signers_length _ _ Hx). lia.
Qed.

Lemma quiet_pending f hybrid :
  quiet f (new_pending hybrid) (fun p => exists seed,
    fst p = auth_method (if hybrid then SignHybrid seed seed else SignMlDsa seed)).
Proof.
  unfold new_pending, new_hybrid, new_ml_dsa. split.
  - destruct hybrid; repeat (apply silent_bind; [|intros ?]); eauto with cli; by repeat destruct a as [? a].
  - intros w [m p] Hw. destruct hybrid; intros [= <- <-]; (split; [by eexists|done]).
Qed.
Lemma upgrade_ordered f name hybrid chain_id :
  once f (run_command (CKey (KQuantumUpgrade name hybrid)) chain_id)
    (ordered f (CKey (KQuantumUpgrade name hybrid)) chain_id).
Proof.
  cbn [run_command run_key]. unfold cmd_key_quantum_upgrade.
  eapply once_bind; [apply quiet_load_keystore|]. intros ks Hks.
  eapply once_bind; [by apply quiet_load_keypair|]. intros [kp sender] Hkey. cbn [fst snd] in *. cli_step.
  eapply once_bind; [apply quiet_pending|]. intros [m p] [seed Hm]. cbn [fst] in Hm. cli_step.
  eapply once_bind; [apply quiet_to_value|]. intros _ _. eapply once_bind; [apply quiet_simulate|]. intros sim _. cli_step.
  apply once_submit.
  - eapply ordered_signed; [eassumption|done|]. exists seed. by rewrite Hm.
  - intros r. apply silent_if; [apply silent_lift|]. unfold print_all.
    apply silent_bind; [apply silent_lift|]. intros ks'. apply silent_bind; [apply silent_save|]. intros _. apply silent_print_all.
Qed.

(** *** Commands that submit nothing *)

Lemma silent_foldr {A} (f : A -> M unit) l : (forall a, silent (f a)) -> silent (foldr (fun a m => f a;; m) (mret tt) l).
Proof. intros Hf. induction l; cbn [foldr]; [apply silent_ret|]. apply silent_bind; [apply Hf|done]. Qed.
Lemma silent_resolve s : silent (resolve_account_id s).
Proof. apply (quiet_resolve NoFile s). Qed.
Lemma silent_sealed ks key l : silent (sealed_if_locked ks key l).
Proof.
  unfold sealed_if_locked, encrypt_new_key. apply silent_if; [|eauto with cli].
  apply silent_bind; [eauto with cli|]. intros p. apply silent_bind; [|eauto with cli].
  destruct (lock ks); [|apply silent_lift]. eauto with cli.
Qed.
Lemma queries_silent f c chain_id P :
  match c with CStatus | CBalance _ | CAccount _ | CBlock _ | CValidators => True | _ => False end ->
  once f (run_command c chain_id) P.
Proof.
  intros Hc. apply once_silent. destruct c; try done; cbn [run_command].
  - unfold cmd_status, chain_status, get_block. eauto 30 with cli.
  - unfold cmd_balance, rpc_get_balance. eauto using silent_resolve with cli.
  - unfold cmd_account, get_account. eauto 10 using silent_resolve with cli.
  - unfold cmd_block, get_block. eauto 20 with cli.
  - unfold cmd_validators, get_validators. apply silent_bind; [eauto with cli|]. intros l.
    apply silent_if; [eauto with cli|]. do 2 (apply silent_bind; [eauto with cli|]; intros _).
    apply silent_bind; [|eauto with cli]. apply silent_foldr. intros v. unfold print_validator. eauto with cli.
Qed.
Lemma key_commands_silent f a chain_id P :
  match a with KQuantumUpgrade _ _ => False | _ => True end -> once f (run_key a chain_id) P.
Proof.
  intros Ha. apply once_silent. destruct a; try done; cbn [run_key].
  - unfold cmd_key_generate, generate_key. apply silent_bind; [eauto with cli|]. intros ks.
    destruct (keys ks !! name); [eauto with cli|]. eauto 12 using silent_sealed with cli.
  - unfold cmd_key_import. eauto 12 using silent_sealed with cli.
  - unfold cmd_key_list. apply silent_bind; [eauto with cli|]. intros ks. apply silent_if; [eauto with cli|].
    do 2 (apply silent_bind; [eauto with cli|]; intros _). apply silent_foldr. intros k. unfold print_key. eauto with cli.
  - unfold cmd_key_lock. eauto 14 with cli.
  - unfold cmd_key_unlock. eauto 14 with cli.
  - unfold cmd_key_change_password, change_password. eauto 16 with cli.
Qed.

(** C33: Take a command every text of which has a meaning: its amounts are decimal
    numbers with at most 128 bits of hundred-millionths, its accounts addresses or
    names of keys of the file, its byte strings hexadecimal. Whatever the node
    answers, a run submits at most one operation. It is of the account that the
    file has under the named key, signed with the seed the file has there for the
    chain in use, and its single action is the order in the words of the command
    as the readers of the node decode it: the account spelled, the amount the
    digits say, the identifier, the proposal, the vesting type, the rollup (off
    the main network and not of the committee type). The meaning of a text is
    defined by its spelling, not by the readers of the client; a text that is no
    such spelling may be taken for another one and is not covered. *)
Theorem command_submits_order f c chain_id w :
  w_file w = f -> typed c -> written f c ->
  exists reqs, w_requests (fst (run_command c chain_id w)) = w_requests w ++ reqs
    /\ (submits reqs = [] \/ exists op, submits reqs = [op] /\ ordered f c chain_id op).
Proof.
  intros Hw Ht Hc. revert w Hw. change (once f (run_command c chain_id) (ordered f c chain_id)).
  destruct c; cbn [written typed] in *; repeat match goal with Hc : _ /\ _ |- _ => destruct Hc end;
    first [by apply queries_silent | by apply ids_ordered | by apply proposal_ordered
    | by apply staking_ordered | by apply vesting_ordered | by apply simple_ordered | by apply bridge_ordered
    | by apply recovery_ordered | by apply vote_ordered | by apply rollup_ordered | idtac].
  destruct action; first [apply upgrade_ordered|by apply key_commands_silent].
Qed.
End agreement.

(** ** A run *)

#[export] Instance toy_node : Node := {|
  n_account _ := Ok (mkAccountView [] [] 7 []);
  n_next_nonce _ := Ok 8;
  n_balance _ := Ok (chars "0");
  n_submit _ := Ok (mkSubmitReply true None);
  n_simulate _ := Ok (mkSimReply true 100 None);
  n_proposals _ := Ok [];
  n_status _ := Err [];
  n_block _ := Err [];
  n_validators _ := Ok [];
  n_to_value _ := true;
  n_auth_json _ := [];
  n_read_file _ := Err [];
  n_f64_2 _ := [];
  n_now := 0;
|}.
Definition file_world : World := mkWorld (Holds toy_keystore) [] [] 0 0.
Definition stake_command : Commands := CStake (chars "alice") (chars "bob") (chars "1.5").

Lemma stake_written : written (Holds toy_keystore) stake_command.
Proof.
  split.
  - set (key := plain_key (chars "bob") (replicate 32 6)).
    destruct (parse_address (account_id_hex key)) as [[id|]|] eqn:E; [|vm_compute in E; discriminate..]. exists id.
    right. split; [intros id' Hb%address_read; vm_compute in Hb; discriminate|].
    exists toy_keystore, key. split; [reflexivity|]. split; [vm_compute; reflexivity|]. by apply address_read.
  - exists 150000000. split; [|vm_compute; discriminate]. right. exists (chars "1"), (chars "5").
    split; [reflexivity|]. split; [|split; [|reflexivity]];
      (split; [discriminate|vm_compute; repeat constructor; discriminate]).
Qed.

(** One and a half coins, to the account of the key called bob. *)
Lemma command_submits_order_witness :
  exists op, submits (w_requests (fst (run_command stake_command 1337 file_world))) = [op]
     /\ ordered (S := MemoryStore) (fun s => s) (Holds toy_keystore) stake_command 1337 op.
Proof.
  assert (Hl : length (submits (w_requests (fst (run_command stake_command 1337 file_world)))) = 1%nat) by by vm_compute.
  pose proof (command_submits_order (S := MemoryStore) (fun s => s) (Holds toy_keystore) stake_command 1337 file_world
    eq_refl I stake_written) as Ho.
  revert Hl Ho. generalize (run_command stake_command 1337 file_world). intros [w r] Hl (reqs & E & Hop).
  change (w_requests file_world) with (@nil Request) in E. rewrite app_nil_l in E. rewrite E in Hl |- *.
  destruct Hop as [Hn|Hop]; [by rewrite Hn in Hl|exact Hop].
Defined.
