(* ===== verification/CliChecks.v ===== *)
(** More of the command line: a key that was upgraded still controls its
    account; amounts are read as they are printed; and where the commands go
    wrong. *)

From stdpp Require Import pretty.
From S2P Require Import Prelude Types Store Memory Codec Overlay State SysCommon.
From S2P Require Import Staking Governance Vesting Guardian Bridge SysBridge.
From S2P Require Import Auth Session Executor Address Rpc RpcLaws Keystore KeystoreLaws Cli CliLaws CliOrders.
Open Scope Z_scope.

(** ** Upgraded keys *)

Section upgrade.
Context `{!Crypto} `{!Signing} `{!Host} `{!HostLaws} `{!Vault} `{!Node} `{!Codec (list Action)}.

Definition pending_signer (p : Pending) : Signer :=
  match p with PendingMlDsa seed _ => SignMlDsa seed | PendingHybrid seed _ => SignHybrid seed seed end.

Lemma cli_seed_roundtrip key seed account :
  length seed = 32%nat -> digits_of 256 seed -> parse_address (account_id_hex key) = Returned (Ok account) ->
  signer_from key (cli_hex_encode seed) = Done (signer_of (k_scheme key) seed, account).
Proof.
  intros Hl Hd Ha. unfold signer_from. rewrite cli_hex_roundtrip by done. cbn [mbind run_bind].
  rewrite Hl. cbn [negb Nat.eqb]. unfold address_or. by rewrite Ha.
Qed.

(** The key stored after an upgrade loads as the new signer, without a
    password, for the same account. *)
Lemma persist_loads ks name hybrid w w' m p ks' key account v :
  new_pending hybrid w = (w', Done (m, p)) -> persist ks name p = Done ks' ->
  keys ks !! name = Some key -> parse_address (account_id_hex key) = Returned (Ok account) ->
  m = auth_method (pending_signer p) /\ load_keypair ks' name v = (v, Done (pending_signer p, account))
  /\ lock ks' = lock ks.
Proof.
  intros Hp Hks Hkey Ha. unfold new_pending, new_hybrid, new_ml_dsa in Hp.
  destruct hybrid; cbn in Hp; injection Hp as _ <- <-; cbn [persist] in Hks;
    unfold persist_hybrid, persist_ml_dsa, persist_key in Hks; rewrite Hkey in Hks; injection Hks as <-.
  all: split; [done|]; split; [|done].
  all: unfold load_keypair; cbn [keys]; rewrite lookup_insert_eq; unfold seed_text, mbind, M_bind; cbn [seed_hex rotate_key].
  all: unfold mret, M_ret, lift; f_equal; rewrite (cli_seed_roundtrip _ _ account); [done|apply h_random_length|apply h_random_bytes|done].
Qed.

Lemma print_all_ok l v :
  print_all l v = (fst (print_all l v), Done tt) /\ w_file (fst (print_all l v)) = w_file v
  /\ w_requests (fst (print_all l v)) = w_requests v.
Proof. revert v. induction l as [|x l IH]; intros v; [done|]. apply (IH (fst (println x v))). Qed.
Lemma bind_done {A B} (m : M A) (k : A -> M B) w w' b :
  (m ≫= k) w = (w', Done b) -> exists w1 a, m w = (w1, Done a) /\ k a w1 = (w', Done b).
Proof.
  unfold mbind, M_bind. destruct (m w) as [w1 [a| |]]; [|done..]. by exists w1, a.
Qed.
Lemma load_keypair_key ks name w w' signer account :
  load_keypair ks name w = (w', Done (signer, account)) ->
  exists key, keys ks !! name = Some key /\ parse_address (account_id_hex key) = Returned (Ok account).
Proof.
  unfold load_keypair. destruct (keys ks !! name) as [key|]; [|done]. intros (w1 & text & _ & Ht)%bind_done.
  exists key. split; [done|]. injection Ht as _ Hs. unfold signer_from in Hs.
  destruct (cli_hex_decode text) as [b| |]; [|done..]. cbn [mbind run_bind] in Hs. destruct (negb _); [done|].
  destruct (address_or _ _) as [id| |] eqn:E; [|done..]. injection Hs as _ <-. by apply address_or_ok in E.
Qed.

(** After an upgrade to a post-quantum key that ends well, the key file
    holds under the same name, readable without a password, the very signer
    whose method the submitted operation gives to the account, for the same
    account: the user does not lose it. *)
Theorem upgrade_keeps_control name hybrid chain_id w w' :
  cmd_key_quantum_upgrade name hybrid chain_id w = (w', Done tt) ->
  exists ks' op signer, w_file w' = Holds ks' /\ Submit op ∈ w_requests w'
    /\ op_actions op = [SetAuth [auth_method signer]]
    /\ forall v, load_keypair ks' name v = (v, Done (signer, op_sender op)).
Proof.
  unfold cmd_key_quantum_upgrade. intros (w1 & ks & _ & G1)%bind_done.
  apply bind_done in G1 as (w2 & [old sender] & Hk & G2). apply load_keypair_key in Hk as (key & Hkey & Ha).
  case_bool_decide; [done|]. apply bind_done in G2 as (w3 & [m p] & Hp & G3).
  apply bind_done in G3 as (w4 & op & Hop & G4). apply bind_done in G4 as (w5 & [] & _ & G5).
  apply bind_done in G5 as (w6 & sim & _ & G6). destruct (negb _); [done|].
  apply bind_done in G6 as (w7 & r & Hs & G7). destruct (negb _); [done|].
  apply bind_done in G7 as (w8 & ks' & Hks & G8). injection Hks as <- Hks.
  apply bind_done in G8 as (w9 & [] & Hsave & Hprint).
  assert (Hact : op_sender op = sender /\ op_actions op = [SetAuth [m]]).
  { unfold signed_with in Hop. apply bind_done in Hop as (w10 & n & _ & Hop). by injection Hop as _ <-. }
  destruct Hact as [<- Hact].
  assert (Hin : Submit op ∈ w_requests w7).
  { unfold submit_op, ask in Hs. injection Hs as <- _. cbn. apply elem_of_app. right. by apply list_elem_of_singleton. }
  assert (Hf : w_file w9 = Holds ks' /\ w_requests w9 = w_requests w7).
  { unfold save_keystore in Hsave. destruct (h_write_fails w7); [done|]. by injection Hsave as <-. }
  pose proof (print_all_ok (upgrade_lines (op_sender op) name hybrid) w9) as Hpr. rewrite Hprint in Hpr. cbn [fst] in Hpr.
  destruct Hpr as (_ & Hpf & Hpq), Hf as [Hf1 Hf2].
  exists ks', op, (pending_signer p). rewrite Hpf, Hpq, Hf1, Hf2. split; [done|]. split; [done|].
  destruct (persist_loads ks name hybrid _ _ m p ks' key (op_sender op) w Hp Hks Hkey Ha) as (-> & _ & _).
  split; [done|]. intros v. by destruct (persist_loads ks name hybrid _ _ _ p ks' key (op_sender op) v Hp Hks Hkey Ha) as (_ & Hl & _).
Qed.
End upgrade.

(** ** Amounts *)

Definition is_digit (c : Z) : Prop := 48 <= c <= 57.
(** The value of decimal digits after [acc]. *)
Definition dec (s : str) (acc : Z) : Z := foldl (fun a c => a * 10 + (c - 48)) acc s.

Lemma dec_app a b acc : dec (a ++ b) acc = dec b (dec a acc).
Proof. apply foldl_app. Qed.
Lemma dec_zeros k acc : dec (replicate k 48) acc = acc * 10 ^ Z.of_nat k.
Proof.
  revert acc. induction k as [|k IH]; intros acc; [cbn; lia|]. cbn [replicate dec foldl]. fold (dec (replicate k 48) (acc * 10 + (48 - 48))).
  rewrite IH, Nat2Z.inj_succ, Z.pow_succ_r by lia. lia.
Qed.
Lemma parse_digits_inv s acc n : parse_digits s acc = Some n -> Forall is_digit s /\ n = dec s acc.
Proof.
  revert acc. induction s as [|c s IH]; intros acc; cbn [parse_digits]; [by intros [= ->]|].
  destruct ((48 <=? c) && (c <=? 57)) eqn:Ec; [|done]. destruct (u128_max <? _); [done|]. intros [Hs ->]%IH.
  split; [|done]. constructor; [unfold is_digit; lia|done].
Qed.
Lemma dec_ge s acc : 0 <= acc -> Forall is_digit s -> acc <= dec s acc.
Proof.
  intros Ha Hs. revert acc Ha. induction Hs as [|c s Hc Hs IH]; intros acc Ha; [done|].
  cbn [dec foldl]. fold (dec s (acc * 10 + (c - 48))). unfold is_digit in Hc. specialize (IH (acc * 10 + (c - 48))). lia.
Qed.
Lemma parse_digits_dec s acc : 0 <= acc -> Forall is_digit s -> dec s acc <= u128_max -> parse_digits s acc = Some (dec s acc).
Proof.
  intros Ha Hs. revert acc Ha. induction Hs as [|c s Hc Hs IH]; intros acc Ha Hd; [done|].
  cbn [parse_digits]. cbn [dec foldl] in *. fold (dec s (acc * 10 + (c - 48))) in *.
  unfold is_digit in Hc. rewrite (proj2 (Z.leb_le 48 c)), (proj2 (Z.leb_le c 57)) by lia. cbn [andb].
  pose proof (dec_ge s (acc * 10 + (c - 48)) ltac:(lia) Hs). rewrite (proj2 (Z.ltb_ge _ _)) by lia. apply IH; lia.
Qed.
Lemma decimal_digits n : in_u128 n -> Forall is_digit (decimal n) /\ dec (decimal n) 0 = n.
Proof. intros Hn. by destruct (parse_digits_inv _ _ _ (parse_digits_decimal n Hn)). Qed.

Lemma pretty_length k x s : (x < 10 ^ N.of_nat k)%N ->
  (length (chars (pretty_N_go x s)) <= k + length (chars s))%nat.
Proof.
  revert x s. induction k as [|k IH]; intros x s Hx.
  { assert (x = 0%N) as -> by lia. done. }
  destruct (decide (x = 0)%N) as [->|Hne]; [rewrite pretty_N_go_0; lia|].
  rewrite pretty_N_go_step by lia. etransitivity; [apply IH|unfold chars; cbn [bytes_of_string length]; lia].
  apply N.Div0.div_lt_upper_bound. rewrite Nat2N.inj_succ, N.pow_succ_r' in Hx. lia.
Qed.
Lemma decimal_length n : 0 < n < 10 ^ 8 -> (length (decimal n) <= 8)%nat.
Proof.
  intros Hn. destruct n as [|p|p]; try lia. unfold decimal. change (pretty (Z.pos p)) with (pretty (N.pos p)).
  unfold pretty, pretty_N. rewrite decide_False by done. etransitivity; [apply (pretty_length 8)|done].
  change (10 ^ N.of_nat 8)%N with 100000000%N. lia.
Qed.

Lemma digits_ascii s : Forall is_digit s -> str_len s = length s.
Proof.
  intros Hs. unfold str_len. rewrite str_bytes_ascii; [done|]. eapply Forall_impl; [exact Hs|]. unfold is_digit. lia.
Qed.
Lemma find_dot_digits s rest : Forall is_digit s -> find_dot (s ++ 46 :: rest) = Some (s, rest).
Proof.
  induction 1 as [|c s Hc _ IH]; [done|]. cbn [app find_dot]. unfold is_digit in Hc.
  rewrite (proj2 (Z.eqb_neq c 46)) by lia. by rewrite IH.
Qed.
Lemma find_dot_none s : Forall is_digit s -> find_dot s = None.
Proof.
  induction 1 as [|c s Hc _ IH]; [done|]. cbn [find_dot]. unfold is_digit in Hc.
  rewrite (proj2 (Z.eqb_neq c 46)) by lia. by rewrite IH.
Qed.
Lemma slice_to_all s : Forall is_digit s -> slice_to (length s) s = Done s.
Proof.
  induction 1 as [|c s Hc Hs IH]; [done|]. cbn [length slice_to].
  rewrite (digits_ascii [c]) by (by apply Forall_singleton). cbn [length Nat.leb Nat.sub]. rewrite Nat.sub_0_r, IH. done.
Qed.
Lemma trim_end_zeros_split s : exists k, s = trim_end_zeros s ++ replicate k 48.
Proof.
  unfold trim_end_zeros. assert (H : forall l, exists k, l = replicate k 48 ++ drop_while (fun c => c =? 48) l).
  { induction l as [|c l [k IH]]; [by exists 0%nat|]. cbn [drop_while]. destruct (Z.eqb_spec c 48) as [->|]; [|by exists 0%nat].
    exists (Datatypes.S k). cbn. by f_equal. }
  destruct (H (rev s)) as [k E]. exists k. rewrite <- (rev_involutive s) at 1. rewrite E at 1.
  by rewrite rev_app_distr, rev_replicate.
Qed.

(** The digits after the point: trimmed, they still stand for the fraction. *)
Lemma fraction_text frac :
  0 < frac < 10 ^ 8 ->
  let t := trim_end_zeros (zero_padded 8 (decimal frac)) in
  t <> [] /\ Forall is_digit t /\ (length t <= 8)%nat /\ dec t 0 * 10 ^ (8 - Z.of_nat (length t)) = frac.
Proof.
  intros Hf. assert (Hu : in_u128 frac) by (unfold in_u128; pose proof u128_max_val; lia).
  destruct (decimal_digits frac Hu) as [Hd Hv]. pose proof (decimal_length frac Hf) as Hl. cbv zeta.
  set (d := zero_padded 8 (decimal frac)). set (t := trim_end_zeros d).
  assert (Hdd : Forall is_digit d).
  { apply Forall_app. split; [|exact Hd]. apply Forall_replicate. unfold is_digit. lia. }
  assert (Hdl : length d = 8%nat) by (unfold d, zero_padded; rewrite length_app, length_replicate; lia).
  assert (Hdv : dec d 0 = frac) by (unfold d, zero_padded; by rewrite dec_app, dec_zeros).
  destruct (trim_end_zeros_split d) as [k Ek]. fold t in Ek.
  assert (Hk : (length t + k = 8)%nat) by (rewrite <- Hdl, Ek at 1; rewrite length_app, length_replicate; lia).
  rewrite Ek in Hdd, Hdv. apply Forall_app in Hdd as [Ht _]. rewrite dec_app, dec_zeros in Hdv.
  split; [|split; [done|split; [lia|]]].
  - intros E. rewrite E in Hdv. cbn in Hdv. lia.
  - rewrite <- Hdv. f_equal. f_equal. lia.
Qed.

Lemma parse_u128_digits s : s <> [] -> Forall is_digit s -> dec s 0 <= u128_max -> parse_u128 s = Some (dec s 0).
Proof.
  intros Hne Hs Hd. destruct s as [|c s]; [done|]. rewrite parse_u128_unsigned by by apply Forall_inv in Hs.
  by apply parse_digits_dec.
Qed.

(** Amounts are read as they are printed: the text of any amount, with its
    eight decimals trimmed, is parsed back to the same number of base units, by
    both parsers of the command line. *)
Theorem amount_roundtrip n :
  in_u128 n -> parse_solen_amount (format_solen n) = Done n /\ parse_bridge_amount (format_solen n) = Done n.
Proof.
  intros Hn. pose proof u128_max_val as Hmax. pose proof (Z.div_mod n 100000000 ltac:(lia)) as Hdm.
  pose proof (Z.mod_pos_bound n 100000000 ltac:(lia)) as Hfr. unfold in_u128 in Hn.
  assert (Hw : 0 <= n / 100000000) by (apply Z.div_pos; lia). unfold format_solen.
  set (whole := n / 100000000) in *. set (frac := n mod 100000000) in *.
  assert (Hwu : in_u128 whole) by (unfold in_u128; lia). destruct (decimal_digits whole Hwu) as [Hwd _].
  assert (Em : forall x, 0 <= x <= u128_max -> x mod 2 ^ 128 = x) by (intros; apply Z.mod_small; lia).
  unfold parse_solen_amount, parse_bridge_amount, parse_or. change (10 ^ 8) with 100000000.
  destruct (Z.eqb_spec frac 0) as [E0|Hne].
  - rewrite find_dot_none by done. cbn [mbind run_bind]. rewrite parse_decimal by done. cbn [mbind run_bind].
    unfold u128_mul. rewrite Em by lia. split; f_equal; lia.
  - destruct (fraction_text frac ltac:(lia)) as (Ht & Hd & Hl & Hv). set (t := trim_end_zeros _) in *.
    change (decimal whole ++ [46] ++ t) with (decimal whole ++ 46 :: t). rewrite find_dot_digits by done.
    cbn [mbind run_bind]. rewrite parse_decimal by done. cbn [mbind run_bind].
    rewrite (digits_ascii t), (Nat.min_l (length t) 8), slice_to_all by done. rewrite (proj2 (Nat.ltb_ge _ _)) by lia.
    assert (Hp1 : 0 < 10 ^ (8 - Z.of_nat (length t))) by (apply Z.pow_pos_nonneg; lia).
    assert (Hd0 : 0 <= dec t 0) by by apply dec_ge.
    assert (Hle : dec t 0 <= frac) by (rewrite <- Hv; nia).
    cbn [mbind run_bind]. rewrite parse_u128_digits by (done || lia). cbn [mbind run_bind].
    unfold u128_add, u128_mul. rewrite Hv, (Em (whole * 100000000)), (Em frac), Em by lia. split; f_equal; lia.
Qed.
Lemma amount_roundtrip_witness : in_u128 150000000 /\ format_solen 150000000 = chars "1.5"
  /\ parse_solen_amount (format_solen 150000000) = Done 150000000.
Proof.
  assert (H : in_u128 150000000) by (unfold in_u128; pose proof u128_max_val; lia).
  split; [exact H|]. split; [by vm_compute|]. exact (proj1 (amount_roundtrip 150000000 H)).
Defined.

(** ** Where the commands go wrong *)

(** An amount that does not fit wraps around: this one, of more than 10^30, is
    taken as less than half a coin. *)
Theorem large_amount_wraps :
  parse_solen_amount (chars "3402823669209384634633746074318") = Done 31788544.
Proof. by vm_compute. Qed.
(** The bridge cuts further decimals off where the other commands refuse them,
    and reports the amount as it was typed. *)
Theorem bridge_amount_truncated :
  parse_bridge_amount (chars "1.999999999") = Done 199999999
  /\ parse_solen_amount (chars "1.999999999") = Failed (Bail "too many decimal places (max 8)").
Proof. by vm_compute. Qed.
(** A sign after the point is read as a digit place. *)
Theorem signed_fraction : parse_solen_amount (chars "1.+5") = Done 105000000.
Proof. by vm_compute. Qed.

Section defects.
Context `{!Crypto} `{!Signing} `{!Host} `{!Vault} `{!Node} `{!Codec (list Action)}.

(** A text that is neither an address nor the name of a key is taken as an
    account all the same: its first 32 bytes, not a hash of it. *)
Theorem typo_is_an_account input w ks e :
  parse_address input = Returned (Err e) -> w_file w = Holds ks -> keys ks !! input = None ->
  resolve_account_id input w = (w, Done (name_to_account_id input)).
Proof.
  intros Hp Hw Hk. unfold resolve_account_id. rewrite Hp. unfold mbind, M_bind, load_keystore. rewrite Hw. by rewrite Hk.
Qed.

(** Importing under the name of a key that is there replaces it without a word. *)
Theorem import_replaces name seed w ks old key :
  w_file w = Holds ks -> lock ks = None -> keys ks !! name = Some old -> import_key name seed = Done key ->
  (forall v, h_write_fails v = false) ->
  exists w', cmd_key_import name seed w = (w', Done tt) /\ w_file w' = Holds (mkKeystore (<[name := key]> (keys ks)) None).
Proof.
  intros Hw Hl Ho Hi Hd. unfold cmd_key_import, mbind, M_bind, load_keystore. rewrite Hw. unfold lift. rewrite Hi.
  unfold sealed_if_locked, is_locked. rewrite Hl. rewrite bool_decide_eq_false_2 by by intros [? ?].
  destruct (print_all_ok [chars "Imported key '" ++ name ++ chars "'"; chars "  Account ID: " ++ account_id_hex key;
    chars "  Public key: " ++ public_key_hex key] w) as (-> & _).
  unfold print_all at 1, mbind at 1, M_bind, mret, M_ret. cbn [foldr]. unfold save_keystore. rewrite Hd. eexists. split; [done|]. cbn. unfold add_key. by rewrite Hl.
Qed.

(** The upgrade of a key of a locked file stores its seed in the clear, and
    the file still counts as locked, so that locking it again is refused. *)
Theorem upgrade_of_locked_stores_seed ks name p ks' l v password :
  lock ks = Some l -> persist ks name p = Done ks' ->
  (exists key seed, keys ks' !! name = Some key /\ seed_hex key = Some seed)
  /\ is_locked ks' = true /\ snd (lock_keystore ks' password v) = Failed (Bail "wallet is already locked").
Proof.
  intros Hl Hp. assert (Hex : exists f, persist_key ks name f = Done ks' /\ forall k, exists s, seed_hex (f k) = Some s).
  { destruct p; eexists; (split; [exact Hp|]); intros k; by eexists. }
  destruct Hex as (f & Hf & Hs). unfold persist_key in Hf. destruct (keys ks !! name) as [k|]; [|done]. injection Hf as <-.
  destruct (Hs k) as [s Es]. split; [exists (f k), s; cbn; by rewrite lookup_insert_eq|].
  assert (Hk : is_locked (mkKeystore (<[name := f k]> (keys ks)) (lock ks)) = true)
    by (unfold is_locked; cbn; rewrite Hl; by apply bool_decide_eq_true).
  split; [done|]. unfold lock_keystore. by rewrite Hk.
Qed.

(** The accounts that a threshold counts are distinct: with repeated signers a
    threshold can be out of reach, and the account is lost. Neither the command
    nor the node looks for repetitions. *)
Theorem duplicate_signers_lock_out signers threshold msg signature pq :
  Z.of_nat (size (list_to_set signers : gset bytes)) < threshold ->
  verify_auth (Threshold signers threshold) msg signature pq = None.
Proof.
  intros Ht. cbn [verify_auth]. destruct (_ || _); [done|].
  destruct (negb (length signature mod 96 =? 0)%nat || _) eqn:El; [done|].
  apply orb_false_iff in El as [El _]. apply negb_false_iff, Nat.eqb_eq in El.
  destruct (count_signers_sound (length signature / 96) signers msg signature ∅ 0) as (ks & Hnd & _ & Hc & _ & Hin).
  { pose proof (Nat.div_mod_eq (length signature) 96). lia. }
  { lia. }
  assert (Hle : (length ks <= size (list_to_set signers : gset bytes))%nat).
  { rewrite <- (size_list_to_set (C := gset bytes) ks) by done. apply subseteq_size. intros k Hk%elem_of_list_to_set.
    apply elem_of_list_to_set. rewrite Forall_forall in Hin. by apply Hin. }
  rewrite (proj2 (Z.leb_gt _ _)); [done|]. lia.
Qed.
End defects.

Section rollups.
Context {S : Type} `{!StateStore S}.

(** The command never sends a committee, so that a rollup of proof type
    [committee] is refused; and on mainnet every other type is. *)
Theorem rollup_refused_on_mainnet (s : S) id name proof_type sequencer root :
  in_u64 id -> length sequencer = 32%nat -> length root = 32%nat ->
  Z.of_nat (str_len name) < 2 ^ 32 -> Z.of_nat (str_len proof_type) < 2 ^ 32 -> is_mainnet s = true ->
  exists e, parse_register s (rollup_args id name proof_type sequencer root) = Err e.
Proof.
  intros Hid Hs Hr Hn Hp Hm. unfold rollup_args. unfold str_len in *. revert Hn Hp.
  generalize (str_bytes name), (str_bytes proof_type). intros nm pt Hn Hp. set (args := le_bytes 8 id ++ _).
  assert (L : length args = (8 + (4 + length nm) + (4 + length pt) + 64)%nat)
    by (unfold args; rewrite !length_app, !length_sized, length_le_bytes, Hs, Hr; lia).
  assert (E1 : read_u32_at args 8 = length nm)
    by (apply (read_u32_sized 8 (le_bytes 8 id)); [apply length_le_bytes|done]).
  assert (E3 : read_u32_at args (12 + length nm) = length pt).
  { unfold args. rewrite app_assoc. apply read_u32_sized; [|done]. rewrite length_app, length_sized, length_le_bytes. lia. }
  unfold parse_register. destruct (SysCommon.read_u64 args 0); [|by eexists]. rewrite E1. cbv zeta. rewrite E3, L, Hm.
  do 3 (rewrite (proj2 (Nat.ltb_ge _ _)) by lia). cbn [andb].
  destruct (String.eqb _ "committee") eqn:Ec; cbn [negb]; [|by eexists].
  destruct (read_account_id args _); [|by eexists]. unfold parse_committee. rewrite L.
  rewrite (proj2 (Nat.ltb_lt _ _)) by lia. by eexists.
Qed.
End rollups.

(** ** A run *)

(** An upgrade that ends well, and the theorem at it. *)
Lemma upgrade_keeps_control_witness :
  snd (cmd_key_quantum_upgrade (chars "alice") true 1337 file_world) = Done tt
  /\ exists ks' op signer,
     w_file (fst (cmd_key_quantum_upgrade (chars "alice") true 1337 file_world)) = Holds ks'
     /\ op_actions op = [SetAuth [auth_method signer]]
     /\ forall v, load_keypair ks' (chars "alice") v = (v, Done (signer, op_sender op)).
Proof.
  assert (Hd : snd (cmd_key_quantum_upgrade (chars "alice") true 1337 file_world) = Done tt) by by vm_compute.
  split; [exact Hd|].
  pose proof (fun w' => upgrade_keeps_control (chars "alice") true 1337 file_world w') as Hu.
  revert Hd Hu. generalize (cmd_key_quantum_upgrade (chars "alice") true 1337 file_world). intros [w r] Hd Hu.
  cbn [fst snd] in *. subst r. destruct (Hu w eq_refl) as (ks' & op & signer & Hf & _ & Ha & Hl). by exists ks', op, signer.
Defined.
