(* ===== verification/WalletSdk.v ===== *)
(** The wallet library ([sdks/wallet-sdk-rs]): operations and their signatures,
    accounts, spending policies, sponsorship and recovery by guardians. *)

From S2P Require Import Prelude Types Store Memory Codec State SysCommon Auth Session Address Keystore KeystoreLaws.
Open Scope Z_scope.

(** ** Operations ([tx.rs]) *)

Definition build_transfer (sender : AccountId) (nonce : u64) (to : AccountId) (amount : u128) : UserOperation :=
  mkUserOperation sender nonce [Transfer to amount] 10000 [].
Definition build_call (sender : AccountId) (nonce : u64) (target : AccountId) (method : string) (args : bytes) :
    UserOperation := mkUserOperation sender nonce [Call target method args] 50000 [].
Definition build_deploy (sender : AccountId) (nonce : u64) (code salt : bytes) : UserOperation :=
  mkUserOperation sender nonce [Deploy code salt] 100000 [].
Definition build_quantum_upgrade (sender : AccountId) (nonce : u64) (ml_dsa_public_key : bytes) : UserOperation :=
  mkUserOperation sender nonce [SetAuth [MlDsa ml_dsa_public_key]] 1000000 [].
Definition build_hybrid_upgrade (sender : AccountId) (nonce : u64) (ed25519_public_key ml_dsa_public_key : bytes) :
    UserOperation :=
  mkUserOperation sender nonce [SetAuth [Hybrid ed25519_public_key ml_dsa_public_key]] 1000000 [].

Definition with_signature (op : UserOperation) (sig : bytes) : UserOperation :=
  mkUserOperation (op_sender op) (op_nonce op) (op_actions op) (op_max_fee op) sig.

Section signing.
Context `{!Crypto} `{!Signing} `{!Codec (list Action)}.
Definition sign_operation (op : UserOperation) (keypair : bytes) (chain_id : u64) : UserOperation :=
  with_signature op (ed_sign keypair (signing_message chain_id op)).
Definition sign_operation_ml_dsa (op : UserOperation) (keypair : bytes) (chain_id : u64) : UserOperation :=
  with_signature op (ml_sign keypair (signing_message chain_id op)).
Definition sign_operation_hybrid (op : UserOperation) (ed ml : bytes) (chain_id : u64) : UserOperation :=
  let msg := signing_message chain_id op in with_signature op (ed_sign ed msg ++ ml_sign ml msg).
End signing.

(** ** Accounts ([account.rs]) and signatures ([auth.rs]) *)

Definition Builder : Type := list AuthMethod.
Definition builder_new : Builder := [].
Definition with_ed25519_owner (public_key : bytes) (b : Builder) : Builder := b ++ [Ed25519 public_key].
Definition with_keypair `{!Signing} (kp : bytes) (b : Builder) : Builder := with_ed25519_owner (ed_public kp) b.
Definition with_passkey (credential_id x y : bytes) (rp_id : string) (origins : list string) (b : Builder) : Builder :=
  b ++ [Passkey credential_id x y rp_id origins].
Definition with_guardian (guardian_id : AccountId) (b : Builder) : Builder := b ++ [Guardian guardian_id].
Definition with_threshold (signers : list bytes) (threshold : Z) (b : Builder) : Builder := b ++ [Threshold signers threshold].
Definition build (id : AccountId) (b : Builder) : Account := mkAccount id zero_hash b 0 0.

Section auth.
Context `{!Crypto}.
Definition verify_against_auth_methods (methods : list AuthMethod) (message signature : bytes) : bool :=
  if negb (length signature =? 64)%nat then false
  else existsb (fun m => match m with Ed25519 pk => ed25519_verify pk message signature | _ => false end) methods.
Definition ed25519_auth `{!Signing} (kp : bytes) : AuthMethod := Ed25519 (ed_public kp).
End auth.

(** ** Spending policies ([policy.rs]) *)

Inductive PolicyRule : Type :=
| MaxPerTransaction (max : u128)
| AllowedRecipients (allowed : list AccountId)
| Frozen.
Inductive PolicyDecision : Type := Allow | Deny (reason : str).

Definition transfer_amount (a : Action) : option u128 := match a with Transfer _ amount => Some amount | _ => None end.
(** [filter_map(..).sum()]. *)
Definition total_spend (op : UserOperation) : u128 := u128_sum (omap transfer_amount (op_actions op)).
Definition recipient_ok (allowed : list AccountId) (a : Action) : bool :=
  match a with Transfer to _ => bool_decide (to ∈ allowed) | _ => true end.
Definition rule_denies (op : UserOperation) (r : PolicyRule) : option str :=
  match r with
  | Frozen => Some (chars "account is frozen")
  | MaxPerTransaction max =>
      if max <? total_spend op
      then Some (chars "exceeds per-tx limit: " ++ chars (pretty (total_spend op)) ++ chars " > " ++ chars (pretty max))
      else None
  | AllowedRecipients allowed =>
      if forallb (recipient_ok allowed) (op_actions op) then None else Some (chars "recipient not in allowed list")
  end.
Fixpoint evaluate (rules : list PolicyRule) (op : UserOperation) : PolicyDecision :=
  match rules with
  | [] => Allow
  | r :: rules => match rule_denies op r with Some reason => Deny reason | None => evaluate rules op end
  end.
Definition policy_new : list PolicyRule := [].
Definition add_rule (rule : PolicyRule) (rules : list PolicyRule) : list PolicyRule := rules ++ [rule].

(** ** Sponsorship ([sponsor.rs]) *)

Record SponsorshipPolicy : Type := mkSponsor {
  sponsor : AccountId; max_gas_per_op : u64; max_daily_spend : u128; allowed_targets : list AccountId;
  current_daily_spend : u128;
}.
Inductive SponsorshipDecision : Type := Approved | DeniedOverBudget | DeniedTargetNotAllowed | DeniedGasTooHigh.
Definition sponsor_new (s : AccountId) : SponsorshipPolicy := mkSponsor s 100000 1000000 [] 0.
Definition target_ok (targets : list AccountId) (a : Action) : bool :=
  match a with Call target _ _ => bool_decide (target ∈ targets) | _ => true end.
Definition sponsor_check (p : SponsorshipPolicy) (op : UserOperation) (estimated_gas : u64) : SponsorshipDecision :=
  if max_gas_per_op p <? estimated_gas then DeniedGasTooHigh
  else if max_daily_spend p <? u128_add (current_daily_spend p) estimated_gas then DeniedOverBudget
  else if negb (bool_decide (allowed_targets p = [])) && negb (forallb (target_ok (allowed_targets p)) (op_actions op))
  then DeniedTargetNotAllowed
  else Approved.

(** ** Recovery ([recovery.rs]) *)

Inductive RecoveryError : Type :=
| InsufficientApprovals (have need : nat) | TimelockActive | DuplicateApproval | NotAGuardian.
Record WalletRecovery : Type := mkRecovery {
  rq_account : AccountId; rq_new_owner : bytes; approvals : list AccountId;
  initiated_at_epoch : u64; rq_timelock_epochs : u64;
}.
Record RecoveryManager : Type := mkManager {
  rm_account : AccountId; guardians : list AccountId; threshold : nat; timelock_epochs : u64;
  pending_request : option WalletRecovery;
}.
Definition with_pending (r : option WalletRecovery) (m : RecoveryManager) : RecoveryManager :=
  mkManager (rm_account m) (guardians m) (threshold m) (timelock_epochs m) r.

Definition manager_new (account : AccountId) (guardians : list AccountId) (threshold : nat) (timelock_epochs : u64) :
    RecoveryManager := mkManager account guardians threshold timelock_epochs None.
Definition initiate (new_owner : bytes) (current_epoch : u64) (m : RecoveryManager) : RecoveryManager :=
  with_pending (Some (mkRecovery (rm_account m) new_owner [] current_epoch (timelock_epochs m))) m.
Definition approve (guardian : AccountId) (m : RecoveryManager) : result RecoveryManager RecoveryError :=
  if negb (bool_decide (guardian ∈ guardians m)) then Err NotAGuardian
  else match pending_request m with
       | None => Err (InsufficientApprovals 0 (threshold m))
       | Some r =>
         if bool_decide (guardian ∈ approvals r) then Err DuplicateApproval
         else Ok (with_pending (Some (mkRecovery (rq_account r) (rq_new_owner r) (approvals r ++ [guardian])
                                        (initiated_at_epoch r) (rq_timelock_epochs r))) m)
       end.
Definition recovery_can_execute (current_epoch : u64) (m : RecoveryManager) : result WalletRecovery RecoveryError :=
  match pending_request m with
  | None => Err (InsufficientApprovals 0 (threshold m))
  | Some r =>
    if (length (approvals r) <? threshold m)%nat then Err (InsufficientApprovals (length (approvals r)) (threshold m))
    else if current_epoch <? u64_add (initiated_at_epoch r) (rq_timelock_epochs r) then Err TimelockActive
    else Ok r
  end.
Definition recovery_execute (current_epoch : u64) (m : RecoveryManager) : result (RecoveryManager * bytes) RecoveryError :=
  match recovery_can_execute current_epoch m with
  | Err e => Err e
  | Ok r => Ok (with_pending None m, rq_new_owner r)
  end.

(** ** Theorems *)

Section accepted.
Context {S : Type} `{!StateStore S} `{!StateStoreLaws S} `{!Codec Account} `{!CodecLaws Account}.
Context `{!Crypto} `{!Signing} `{!SigningLaws} `{!Codec (list Action)}.

(** The three signatures of the library, for any operation that was built. *)
Definition sign_with (signer : Signer) (op : UserOperation) (chain_id : u64) : UserOperation :=
  match signer with
  | SignEd25519 kp => sign_operation op kp chain_id
  | SignMlDsa kp => sign_operation_ml_dsa op kp chain_id
  | SignHybrid ed ml => sign_operation_hybrid op ed ml chain_id
  end.

(** An operation signed by the library passes the validation of the node when
    the account is under the method of the key and the nonce is the next. *)
Theorem sdk_operation_validates cfg (s : S) op height account signer :
  load_account s (op_sender op) = Ok (Some account) -> auth_methods account = [auth_method signer] ->
  nonce account = op_nonce op -> op_nonce op <> u64_max ->
  (pq_auth_height cfg <= height \/ exists seed, signer = SignEd25519 seed) ->
  exists s', validate_and_prepare cfg s (sign_with signer op (chain_id cfg)) height = Ok (s', prepared_plain).
Proof.
  intros Hl Hm Hn Hmax Hpq. eapply (signed_operation_validates cfg s _ height account signer); [| |..|exact Hpq]; destruct signer; done.
Qed.

(** What the library accepts for an account, the node accepts too. *)
Theorem sdk_verification_sound methods msg sig pq :
  verify_against_auth_methods methods msg sig = true ->
  exists m, m ∈ methods /\ verify_auth m msg sig pq = Some "ed25519"%string.
Proof.
  unfold verify_against_auth_methods. destruct (negb _) eqn:El; [done|]. intros (m & Hin & Hv)%existsb_exists.
  exists m. split; [by apply list_elem_of_In|]. destruct m; try done. cbn [verify_auth]. by rewrite El, Hv.
Qed.
End accepted.

(** *** Policies *)

Lemma evaluate_allows rules op : evaluate rules op = Allow -> forall r, r ∈ rules -> rule_denies op r = None.
Proof.
  induction rules as [|r rules IH]; cbn [evaluate]; [by intros _ ? ?%elem_of_nil|].
  destruct (rule_denies op r) eqn:E; [done|]. intros H r' [->|Hr]%elem_of_cons; [done|by apply IH].
Qed.

(** An operation that the policy allows is not of a frozen account, transfers
    to allowed recipients only, and, if the sum of its transfers fits in 128
    bits, transfers at most the limit in all. *)
Theorem policy_sound rules op :
  evaluate rules op = Allow ->
  Frozen ∉ rules
  /\ (forall allowed to amount, AllowedRecipients allowed ∈ rules -> Transfer to amount ∈ op_actions op -> to ∈ allowed)
  /\ (forall max, MaxPerTransaction max ∈ rules -> Forall (fun x => 0 <= x) (omap transfer_amount (op_actions op)) ->
        sumZ (omap transfer_amount (op_actions op)) <= u128_max ->
        sumZ (omap transfer_amount (op_actions op)) <= max).
Proof.
  intros He. pose proof (evaluate_allows _ _ He) as Hr. split; [|split].
  - intros Hf%Hr. done.
  - intros allowed to amount Ha%Hr Ht. cbn in Ha. destruct (forallb _ _) eqn:E; [|done].
    rewrite forallb_forall in E. apply list_elem_of_In in Ht. specialize (E _ Ht). cbn in E. by apply bool_decide_eq_true in E.
  - intros max Hm%Hr Hf Hs. cbn in Hm. unfold total_spend in Hm. rewrite u128_sum_exact in Hm by done.
    destruct (Z.ltb_spec max (sumZ (omap transfer_amount (op_actions op)))); [done|lia].
Qed.

(** The sum is not checked: two transfers of half the range count as nothing. *)
Theorem policy_overflow sender to :
  evaluate [MaxPerTransaction 0] (mkUserOperation sender 0 [Transfer to (2 ^ 127); Transfer to (2 ^ 127)] 0 []) = Allow.
Proof. by vm_compute. Qed.
(** Calls are not limited at all: neither are deposits to the bridge. *)
Theorem policy_ignores_calls sender max allowed target method args :
  0 <= max ->
  evaluate [MaxPerTransaction max; AllowedRecipients allowed] (build_call sender 0 target method args) = Allow.
Proof. intros Hm. cbn. destruct (Z.ltb_spec max 0); [lia|done]. Qed.

(** *** Recovery *)

(** Any caller may start a request; guardians approve it. *)
Inductive recovery_step (m : RecoveryManager) : RecoveryManager -> Prop :=
| step_initiate new_owner epoch : recovery_step m (initiate new_owner epoch m)
| step_approve guardian m' : approve guardian m = Ok m' -> recovery_step m m'.

Definition recovery_inv (m0 m : RecoveryManager) : Prop :=
  guardians m = guardians m0 /\ threshold m = threshold m0 /\ timelock_epochs m = timelock_epochs m0
  /\ forall r, pending_request m = Some r ->
       NoDup (approvals r) /\ Forall (fun g => g ∈ guardians m0) (approvals r) /\ rq_timelock_epochs r = timelock_epochs m0.
Lemma recovery_step_inv m0 m m' : recovery_inv m0 m -> recovery_step m m' -> recovery_inv m0 m'.
Proof.
  intros (Hg & Ht & Hl & Hp) Hs. destruct Hs as [new_owner epoch|g m' Ha].
  - split; [done|]. split; [done|]. split; [done|]. intros r [= <-]. cbn. split; [constructor|]. split; [constructor|done].
  - unfold approve in Ha. case_bool_decide as Hin; [|done]. cbn in Ha. destruct (pending_request m) as [r|] eqn:E; [|done].
    case_bool_decide as Hdup; [done|]. injection Ha as <-. split; [done|]. split; [done|]. split; [done|].
    intros r' [= <-]. cbn. destruct (Hp r eq_refl) as (Hn & Hf & Hr). split; [|split; [|done]].
    + apply NoDup_app. split; [done|]. split; [|apply NoDup_singleton]. by intros x Hx ->%list_elem_of_singleton.
    + apply Forall_app. split; [done|]. apply Forall_singleton. by rewrite <- Hg.
Qed.

(** Whatever the sequence of calls, a recovery is executed only with the
    approvals of as many distinct guardians as the threshold, given since it
    was started, and after the timelock, if the sum of the epochs fits. *)
Theorem recovery_sound account gs thr lock m epoch m' owner :
  rtc recovery_step (manager_new account gs thr lock) m -> recovery_execute epoch m = Ok (m', owner) ->
  exists r, pending_request m = Some r /\ owner = rq_new_owner r
    /\ NoDup (approvals r) /\ (thr <= length (approvals r))%nat /\ Forall (fun g => g ∈ gs) (approvals r)
    /\ (0 <= initiated_at_epoch r -> 0 <= lock -> initiated_at_epoch r + lock <= u64_max -> initiated_at_epoch r + lock <= epoch)
    /\ pending_request m' = None.
Proof.
  intros Hr He. assert (Hi : recovery_inv (manager_new account gs thr lock) m).
  { eapply (rtc_ind_r (recovery_inv (manager_new account gs thr lock))); [| |exact Hr]; [by repeat split|].
    intros y z _ Hs Hy. by eapply recovery_step_inv. }
  destruct Hi as (_ & Ht & _ & Hp). unfold recovery_execute, recovery_can_execute in He.
  destruct (pending_request m) as [r|]; [|done]. destruct (Nat.ltb_spec (length (approvals r)) (threshold m)) as [|Hl]; [done|].
  destruct (Z.ltb_spec epoch (u64_add (initiated_at_epoch r) (rq_timelock_epochs r))) as [|Hep]; [done|]. injection He as <- <-.
  destruct (Hp r eq_refl) as (Hn & Hf & Hq). exists r. do 3 (split; [done|]). split; [by rewrite Ht in Hl|]. split; [done|].
  split; [|done]. intros H0 H1 H2. cbn in Hq. rewrite Hq in Hep. unfold u64_add in Hep. pose proof u64_max_val.
  rewrite Z.mod_small in Hep by lia. lia.
Qed.

(** With a threshold of none, whoever starts a request takes the account. *)
Theorem zero_threshold_open account gs new_owner epoch :
  0 <= epoch -> epoch <= u64_max ->
  exists m', recovery_execute epoch (initiate new_owner epoch (manager_new account gs 0 0)) = Ok (m', new_owner).
Proof.
  intros H0 H1. unfold recovery_execute, recovery_can_execute. cbn. unfold u64_add. rewrite Z.add_0_r, Z.mod_small.
  - rewrite Z.ltb_irrefl. by eexists.
  - pose proof u64_max_val. lia.
Qed.
