(* ===== verification/Faucet.v ===== *)
(** The faucet ([crates/solen-faucet/src/main.rs]): limits per client and per
    recipient, and the transfer it signs.

    A request is served by a task that gives up control where it waits for the
    node and between its critical sections; [advance] runs one task up to the
    next such point, with the readings of the clock and the answer of the node
    that it meets there. The clock is in nanoseconds. *)

From S2P Require Import Prelude Types SysCommon State Auth Address Rpc Reputation Keystore.
Open Scope Z_scope.

(** ** Configuration *)

Record Config : Type := mkConfig {
  fc_seed : bytes;
  fc_drip_amount : u128;
  fc_cooldown : Z;
  fc_chain_id : u64;
  fc_rpc_url : str;
}.
(** [hex_decode_32] of the seed option. *)
Definition faucet_hex_decode_32 (s : str) : run bytes :=
  match hex_decode (strip_0x s) with
  | Panicked => Crashed
  | Returned (Err e) => Failed (BadAddress "" e)
  | Returned (Ok b) => if (length b =? 32)%nat then Done b else Failed (Bail "expected 32 bytes")
  end.
(** [main], up to the router. *)
Definition faucet_config (seed : str) (drip_amount : u128) (cooldown_secs chain_id : u64) (rpc : str) : run Config :=
  seed ← faucet_hex_decode_32 seed; Done (mkConfig seed drip_amount (secs cooldown_secs) chain_id rpc).

(** ** State *)

(** The two maps behind their locks. A panic while the second lock is held
    leaves it poisoned; no section under the first can panic. *)
Record AppState : Type := mkApp {
  rate_limit : gmap str Instant;
  ip_rate_limit : gmap str (Instant * Z);
  ip_poisoned : bool;
}.
Definition app_new : AppState := mkApp ∅ ∅ false.

Inductive StatusCode : Type := OK | BAD_REQUEST | TOO_MANY_REQUESTS | INTERNAL_SERVER_ERROR | SERVICE_UNAVAILABLE.
Record DripResponse : Type := mkDrip {
  dr_status : StatusCode;
  dr_success : bool;
  dr_amount : str;
  dr_recipient : str;
  dr_error : option str;
  dr_retry_after_secs : option u64;
}.
Definition refusal (code : StatusCode) (recipient error : str) (retry : option u64) : DripResponse :=
  mkDrip code false (chars "0") recipient (Some error) retry.

Record StatusResponse : Type := mkStatus {
  st_faucet_account : str; st_drip_amount : str; st_cooldown_secs : u64; st_rpc_endpoint : str;
}.

(** ** The client and the recipient *)

Fixpoint before_comma (s : str) : str :=
  match s with
  | [] => []
  | c :: s => if c =? 44 then [] else c :: before_comma s
  end.
(** The two headers, where they are present and readable as text. *)
Definition client_ip (forwarded_for real_ip : option str) : str :=
  match forwarded_for with
  | Some s => trim (before_comma s)
  | None => default (chars "unknown") real_ip
  end.

Section faucet.
Context `{!Crypto} `{!Signing} `{!Codec (list Action)}.
Variable cfg : Config.

Definition faucet_id : AccountId := ed_public (fc_seed cfg).

Definition resolve_account (input : str) : run str :=
  match parse_address input with
  | Panicked => Crashed
  | Returned (Ok id) => Done (account_to_base58 id)
  | Returned (Err _) => Done (account_to_base58 (blake3 (str_bytes input)))
  end.

Definition handle_status : StatusResponse :=
  mkStatus (account_to_base58 faucet_id) (decimal (fc_drip_amount cfg)) (fc_cooldown cfg / secs 1) (fc_rpc_url cfg).
Definition handle_health : StatusCode := OK.

(** ** The limit per client *)

Definition MAX_DRIPS_PER_IP : Z := 5.
(** The longest [Duration]; a product beyond it panics. *)
Definition DURATION_MAX : Z := (2 ^ 64 - 1) * secs 1 + (secs 1 - 1).

(** The readings of the clock: for a new entry, for the test of its age, for
    the second use of it, and for each entry when old ones are removed. *)
Record Readings : Type := mkReadings {
  rd_entry : Instant; rd_check : Instant; rd_again : Instant; rd_prune : str -> Instant;
}.
Inductive IpVerdict : Type := IpPass | IpLimited (remaining : u64) | IpPanic.

Definition prune_ips (rd : Readings) (m : gmap str (Instant * Z)) (st : AppState) : AppState * IpVerdict :=
  if (10000 <? size m)%nat then
    if DURATION_MAX <? fc_cooldown cfg * 2 then (mkApp (rate_limit st) m true, IpPanic)
    else (mkApp (rate_limit st)
            (filter (fun kv => (elapsed (rd_prune rd (fst kv)) (fst (snd kv)) <? fc_cooldown cfg * 2) = true) m)
            false, IpPass)
  else (mkApp (rate_limit st) m false, IpPass).

Definition check_ip (rd : Readings) (ip : str) (st : AppState) : AppState * IpVerdict :=
  if ip_poisoned st then (st, IpPanic)
  else
  let '(start, count) := default (rd_entry rd, 0) (ip_rate_limit st !! ip) in
  if fc_cooldown cfg <? elapsed (rd_check rd) start then
    prune_ips rd (<[ip := (rd_again rd, 1)]> (ip_rate_limit st)) st
  else
  let count := (count + 1) mod 2 ^ 32 in
  let m := <[ip := (start, count)]> (ip_rate_limit st) in
  if MAX_DRIPS_PER_IP <? count then
    if fc_cooldown cfg <? elapsed (rd_again rd) start then (mkApp (rate_limit st) m true, IpPanic)
    else (mkApp (rate_limit st) m false,
          IpLimited ((fc_cooldown cfg - elapsed (rd_again rd) start) / secs 1))
  else prune_ips rd m st.

(** ** The limit per recipient *)

(** The seconds to wait, if any. *)
Definition check_recipient (now : Instant) (recipient : str) (st : AppState) : option u64 :=
  match rate_limit st !! recipient with
  | Some last =>
    if elapsed now last <? fc_cooldown cfg
    then Some ((fc_cooldown cfg - elapsed now last) / secs 1) else None
  | None => None
  end.
Definition record_drip (now : Instant) (recipient : str) (st : AppState) : AppState :=
  mkApp (<[recipient := now]> (rate_limit st)) (ip_rate_limit st) (ip_poisoned st).

(** ** The node *)

(** The field read from the answer, if it is there and of its type; or the
    failure of the request. *)
Definition get_nonce (answer : result (option u64) str) : result u64 str :=
  let! field := answer in
  match field with Some n => Ok n | None => Err (chars "failed to parse nonce") end.
Definition submitted_ok (answer : result (option bool) str) : result bool str :=
  let! field := answer in Ok (default false field).

Definition drip_op (nonce : u64) (to : AccountId) : UserOperation :=
  mkUserOperation faucet_id nonce [Transfer to (fc_drip_amount cfg)] 100000 [].
Definition sign_drip (op : UserOperation) : UserOperation :=
  mkUserOperation (op_sender op) (op_nonce op) (op_actions op) (op_max_fee op)
    (ed_sign (fc_seed cfg) (signing_message (fc_chain_id cfg) op)).

(** ** The handler *)

Record Inputs : Type := mkInputs {
  in_readings : Readings;
  in_now : Instant;
  in_nonce : result (option u64) str;
  in_submit : result (option bool) str;
}.
Inductive Task : Type :=
| Arrived (account ip : str)
| WithinIpLimit (recipient : str)
| Cleared (recipient : str)
| Signed (recipient : str) (op : UserOperation)
| Answered (r : DripResponse)
| Unwound.

Definition ip_text (remaining : u64) : str :=
  chars "IP rate limited (5 drips per " ++ decimal remaining ++ chars "s), retry later".

Definition arrive (rd : Readings) (account ip : str) (st : AppState) : AppState * Task :=
  match resolve_account account with
  | Done recipient =>
    let '(st, v) := check_ip rd ip st in
    (st, match v with
         | IpPass => WithinIpLimit recipient
         | IpLimited remaining =>
           Answered (refusal TOO_MANY_REQUESTS recipient (ip_text remaining) (Some remaining))
         | IpPanic => Unwound
         end)
  | _ => (st, Unwound)
  end.
Definition clear (now : Instant) (recipient : str) (st : AppState) : Task :=
  match check_recipient now recipient st with
  | Some remaining =>
    Answered (refusal TOO_MANY_REQUESTS recipient
                (chars "rate limited, retry in " ++ decimal remaining ++ chars "s") (Some remaining))
  | None => Cleared recipient
  end.
Definition prepare (answer : result (option u64) str) (recipient : str) : Task :=
  match get_nonce answer with
  | Err _ => Answered (refusal SERVICE_UNAVAILABLE recipient (chars "node unavailable") None)
  | Ok nonce =>
    match parse_address recipient with
    | Panicked => Unwound
    | Returned (Err _) => Answered (refusal BAD_REQUEST recipient (chars "invalid account ID") None)
    | Returned (Ok to) => Signed recipient (sign_drip (drip_op nonce to))
    end
  end.
Definition conclude (now : Instant) (answer : result (option bool) str) (recipient : str) (st : AppState) :
    AppState * Task :=
  match submitted_ok answer with
  | Ok true =>
    (record_drip now recipient st,
     Answered (mkDrip OK true (decimal (fc_drip_amount cfg)) recipient None None))
  | Ok false =>
    (st, Answered (refusal INTERNAL_SERVER_ERROR recipient (chars "transaction rejected by node") None))
  | Err e =>
    (st, Answered (refusal SERVICE_UNAVAILABLE recipient (chars "submission failed: " ++ e) None))
  end.

Definition advance (i : Inputs) (t : Task) (st : AppState) : AppState * Task :=
  match t with
  | Arrived account ip => arrive (in_readings i) account ip st
  | WithinIpLimit recipient => (st, clear (in_now i) recipient st)
  | Cleared recipient => (st, prepare (in_nonce i) recipient)
  | Signed recipient _ => conclude (in_now i) (in_submit i) recipient st
  | Answered _ | Unwound => (st, t)
  end.

(** [handle_drip] of one request that nothing interrupts. *)
Definition handle_drip (forwarded_for real_ip : option str) (account : str) (i1 i2 i3 i4 : Inputs) (st : AppState) :
    AppState * Task :=
  let '(st, t) := advance i1 (Arrived account (client_ip forwarded_for real_ip)) st in
  let '(st, t) := advance i2 t st in
  let '(st, t) := advance i3 t st in
  advance i4 t st.

(** ** The service: tasks in any order *)

Inductive Event : Type :=
| NewRequest (id : nat) (forwarded_for real_ip : option str) (account : str)
| Resume (id : nat) (i : Inputs).

Record Service : Type := mkService {
  sv_app : AppState;
  sv_tasks : gmap nat Task;
  sv_submitted : list UserOperation;
}.
Definition service_new : Service := mkService app_new ∅ [].

(** What the task sends to the node when it goes on. *)
Definition sent (t : Task) : list UserOperation := match t with Signed _ op => [op] | _ => [] end.

Definition service_step (e : Event) (s : Service) : Service :=
  match e with
  | NewRequest id forwarded_for real_ip account =>
    if bool_decide (is_Some (sv_tasks s !! id)) then s
    else mkService (sv_app s) (<[id := Arrived account (client_ip forwarded_for real_ip)]> (sv_tasks s)) (sv_submitted s)
  | Resume id i =>
    match sv_tasks s !! id with
    | None => s
    | Some t =>
      let '(st, t') := advance i t (sv_app s) in
      mkService st (<[id := t']> (sv_tasks s)) (sv_submitted s ++ sent t)
    end
  end.
Definition service_run (events : list Event) (s : Service) : Service := fold_left (fun s e => service_step e s) events s.
End faucet.
