(* ===== verification/FaucetLaws.v ===== *)
(** Theorems on the faucet ([Faucet]): what it signs, the limits it keeps and
    the ones it does not. *)

From S2P Require Import Prelude Types Store Codec SysCommon State Session Auth Address Rpc Reputation Network Keystore KeystoreLaws Faucet.
Open Scope Z_scope.

(** ** Recipients *)

Section recipients.
Context `{!Crypto}.
Hypothesis blake3_length : forall b, length (blake3 b) = 32%nat.
Hypothesis blake3_bytes : forall b, digits_of 256 (blake3 b).

Definition is_id (id : AccountId) : Prop := length id = 32%nat /\ digits_of 256 id.

(** Every text names an account: the one it spells, or else the hash of it. *)
Lemma resolve_account_total input :
  exists id, is_id id /\ resolve_account input = Done (account_to_base58 id)
  /\ parse_address (account_to_base58 id) = Returned (Ok id)
  /\ (forall id', parse_address input = Returned (Ok id') -> id' = id).
Proof.
  unfold resolve_account. pose proof (parse_address_never_panics input) as Hp.
  assert (Hb : forall id, is_id id -> parse_address (account_to_base58 id) = Returned (Ok id)).
  { intros id [Hl Hd]. apply parse_address_spec. split_and!; [done..|]. left. apply trim_plain.
    eapply Forall_impl; [by apply base58_encode_chars|]. intros c Hc. by apply is_base58_plain. }
  destruct (parse_address input) as [[id|e]|] eqn:E; [| |done].
  - apply parse_address_spec in E as (Hl & Hd & _). exists id. split_and!; [done..|by apply Hb|by intros ? [= ->]].
  - exists (blake3 (str_bytes input)). split_and!; [done..|by apply Hb|done].
Qed.

(** Spellings of one account share one limit. *)
Theorem spellings_share_limit a b id :
  parse_address a = Returned (Ok id) -> parse_address b = Returned (Ok id) -> resolve_account a = resolve_account b.
Proof. unfold resolve_account. by intros -> ->. Qed.
End recipients.

(** The client is the first name in the header, which the request itself
    carries: any text without a comma or white space. *)
Theorem client_names_itself name rest real_ip :
  Forall (fun c => c <> 44 /\ is_whitespace c = false) name -> client_ip (Some (name ++ [44] ++ rest)) real_ip = name.
Proof.
  intros Hn. cbn [client_ip]. assert (Hb : before_comma (name ++ [44] ++ rest) = name).
  { induction Hn as [|c name [Hc _] _ IH]; [done|]. apply Z.eqb_neq in Hc. cbn. cbn in IH. by rewrite Hc, IH. }
  rewrite Hb. apply trim_plain. eapply Forall_impl; [exact Hn|]. by intros c [_ ?].
Qed.

(** ** What is signed *)

Section signed.
Context `{!Crypto} `{!Signing} `{!Codec (list Action)}.
Hypothesis blake3_length : forall b, length (blake3 b) = 32%nat.
Hypothesis blake3_bytes : forall b, digits_of 256 (blake3 b).
Variable cfg : Config.

(** A signed transfer of the drip from the faucet to an account. *)
Definition is_drip (op : UserOperation) (to : AccountId) : Prop :=
  exists nonce, op = sign_drip cfg (drip_op cfg nonce to).

(** A task between its sections holds the spelling of an account. *)
Definition task_ok (t : Task) : Prop :=
  match t with
  | Arrived _ _ | Unwound => True
  | WithinIpLimit r | Cleared r => exists id, is_id id /\ parse_address r = Returned (Ok id)
  | Signed r op => exists id, is_id id /\ parse_address r = Returned (Ok id) /\ is_drip op id
  | Answered r => dr_status r <> BAD_REQUEST /\ (dr_success r = true <-> dr_status r = OK)
  end.

Lemma advance_ok i t st : task_ok t -> task_ok (snd (advance cfg i t st)).
Proof.
  destruct t as [account ip|r|r|r op|resp|]; cbn [advance].
  - intros _. unfold arrive. destruct (resolve_account_total blake3_length blake3_bytes account) as (id & Hid & -> & Hp & _).
    destruct (check_ip cfg (in_readings i) ip st) as [st' []]; cbn; [by exists id|done|done].
  - intros Hr. unfold clear. cbn [snd]. by destruct (check_recipient _ _ _ _).
  - intros (id & Hid & Hp). cbn [snd]. unfold prepare. destruct (get_nonce _) as [n|e]; [|done].
    rewrite Hp. exists id. split_and!; [done..|]. by exists n.
  - intros _. unfold conclude. destruct (submitted_ok _) as [[]|]; done.
  - done.
  - done.
Qed.

Definition service_ok (s : Service) : Prop :=
  map_Forall (fun _ t => task_ok t) (sv_tasks s)
  /\ Forall (fun op => exists to, is_id to /\ is_drip op to) (sv_submitted s).

Lemma service_step_ok e s : service_ok s -> service_ok (service_step cfg e s).
Proof.
  intros [Ht Hs]. destruct e as [id ff ri account|id i]; cbn [service_step].
  - case_bool_decide; [done|]. split; [|done]. by apply map_Forall_insert_2.
  - destruct (sv_tasks s !! id) as [t|] eqn:E; [|done]. pose proof (Ht _ _ E) as Hok. cbn beta in Hok.
    pose proof (advance_ok i t (sv_app s) Hok) as Ha. destruct (advance cfg i t (sv_app s)) as [st t']. split.
    + by apply map_Forall_insert_2.
    + apply Forall_app. split; [done|]. destruct t; cbn; [by constructor..| |by constructor|by constructor].
      destruct Hok as (to & Hto & _ & Hd). apply Forall_singleton. by exists to.
Qed.

(** Whatever the clients ask, in whatever order the tasks go on and whatever
    the node answers: all that the faucet ever sends are transfers of the drip
    from its account to some account, no request is answered as malformed, and
    an answer is a success exactly when its status says so. *)
Theorem faucet_sends_only_drips events :
  let s := service_run cfg events service_new in
  Forall (fun op => exists to, is_id to /\ is_drip op to) (sv_submitted s)
  /\ forall id r, sv_tasks s !! id = Some (Answered r) ->
       dr_status r <> BAD_REQUEST /\ (dr_success r = true <-> dr_status r = OK).
Proof.
  assert (Hall : service_ok (service_run cfg events service_new)).
  { unfold service_run. assert (Hfirst : service_ok service_new) by (split; [apply map_Forall_empty|constructor]).
    revert Hfirst. generalize service_new. induction events as [|e events IH]; [done|].
    intros s Hs. apply IH. by apply service_step_ok. }
  destruct Hall as [Ht Hs]. split; [done|]. intros id r Hr. exact (Ht _ _ Hr).
Qed.
End signed.

(** The node accepts a drip when the account of the faucet is under its key
    and the nonce is the next one. *)
Section accepted.
Context {S : Type} `{!StateStore S} `{!StateStoreLaws S} `{!Codec Account} `{!CodecLaws Account}.
Context `{!Crypto} `{!Signing} `{!SigningLaws} `{!Codec (list Action)}.

Theorem drip_validates cfg xcfg (s : S) n to height account :
  fc_chain_id cfg = chain_id xcfg ->
  load_account s (faucet_id cfg) = Ok (Some account) -> auth_methods account = [Ed25519 (ed_public (fc_seed cfg))] ->
  nonce account = n -> n <> u64_max ->
  exists s', validate_and_prepare xcfg s (sign_drip cfg (drip_op cfg n to)) height = Ok (s', prepared_plain).
Proof.
  intros Hc Hl Hm Hn Hmax.
  eapply (signed_operation_validates xcfg s _ height account (SignEd25519 (fc_seed cfg)));
    [exact Hl|exact Hm|exact Hn|exact Hmax| |right; by eexists].
  cbn [signer_sign sign_drip op_signature]. by rewrite Hc.
Qed.
End accepted.

(** ** The limit per recipient *)

Section recipient_limit.
Context `{!Crypto} `{!Signing} `{!Codec (list Action)}.
Variable cfg : Config.

(** The clock does not go back: a drip is recorded no earlier than [t]. *)
Definition not_before (t : Instant) (e : Event) : Prop :=
  match e with Resume _ i => t <= in_now i | _ => True end.

Lemma check_ip_rate_limit rd ip st : rate_limit (fst (check_ip cfg rd ip st)) = rate_limit st.
Proof.
  unfold check_ip, prune_ips. destruct (default _ _) as [start count]. by repeat case_match.
Qed.

Lemma advance_last t r i task st :
  t <= in_now i -> (exists t', rate_limit st !! r = Some t' /\ t <= t') ->
  exists t', rate_limit (fst (advance cfg i task st)) !! r = Some t' /\ t <= t'.
Proof.
  intros Ht Hl. destruct task as [account ip|r'|r'|r' op|resp|]; cbn [advance fst]; [| done..| |done|done].
  - unfold arrive. destruct (resolve_account account); [|done..].
    pose proof (check_ip_rate_limit (in_readings i) ip st) as E. destruct (check_ip _ _ _ _) as [st' v].
    cbn [fst] in *. by rewrite E.
  - unfold conclude. destruct (submitted_ok _) as [[]|]; [|done..]. cbn.
    destruct (decide (r' = r)) as [->|Hr]; [rewrite lookup_insert_eq; eauto|by rewrite lookup_insert_ne].
Qed.

(** A recipient whose drip was recorded at [t] is refused by every request
    that reaches the limit less than the cooldown after it, whatever was served
    in between, with the whole seconds that are left. *)
Theorem recipient_cooldown events s t r id i :
  rate_limit (sv_app s) !! r = Some t -> Forall (not_before t) events ->
  let s' := service_run cfg events s in
  sv_tasks s' !! id = Some (WithinIpLimit r) -> t <= in_now i < t + fc_cooldown cfg ->
  exists remaining msg, 0 <= remaining /\ secs remaining <= fc_cooldown cfg
  /\ sv_tasks (service_step cfg (Resume id i) s') !! id
     = Some (Answered (refusal TOO_MANY_REQUESTS r msg (Some remaining)))
  /\ sv_submitted (service_step cfg (Resume id i) s') = sv_submitted s'.
Proof.
  intros Hr Hev s' Hid Hi.
  assert (Hl : exists t', rate_limit (sv_app s') !! r = Some t' /\ t <= t').
  { assert (Hfirst : exists t', rate_limit (sv_app s) !! r = Some t' /\ t <= t') by (exists t; split; [done|lia]).
    unfold s', service_run. clear Hr Hid s'. revert s Hfirst.
    induction Hev as [|e events He Hev IH]; [done|]. intros s Hfirst. apply IH.
    destruct e as [id' ff ri account|id' i']; cbn [service_step]; [by case_bool_decide|].
    destruct (sv_tasks s !! id') as [task|]; [|done].
    pose proof (advance_last t r i' task (sv_app s) He Hfirst) as Ha. by destruct (advance _ _ _ _). }
  destruct Hl as (t' & Hl & Ht'). cbn [service_step]. rewrite Hid. cbn [advance]. unfold clear, check_recipient.
  rewrite Hl. unfold elapsed, sat_sub.
  destruct (Z.ltb_spec (Z.max 0 (in_now i - t')) (fc_cooldown cfg)) as [Hlt|]; [|lia].
  eexists _, _. split_and!; [| |cbn [sv_tasks]; by rewrite lookup_insert_eq|cbn; by rewrite app_nil_r].
  - apply Z.div_pos; unfold secs; lia.
  - unfold secs at 1. pose proof (Z.mul_div_le (fc_cooldown cfg - Z.max 0 (in_now i - t')) (secs 1) ltac:(done)).
    unfold secs in *. lia.
Qed.
End recipient_limit.

(** ** The limit per client *)

Section ip_limit.
Context `{!Crypto} `{!Signing}.
Variable cfg : Config.

(** The checks of several requests, in the order in which they take the lock. *)
Fixpoint ip_log (calls : list (str * Readings)) (st : AppState) : list (str * IpVerdict) :=
  match calls with
  | [] => []
  | (ip, rd) :: calls => let '(st, v) := check_ip cfg rd ip st in (ip, v) :: ip_log calls st
  end.
Definition passes (ip : str) (e : str * IpVerdict) : bool :=
  match e with (ip', IpPass) => bool_decide (ip' = ip) | _ => false end.
Definition passed (ip : str) (log : list (str * IpVerdict)) : Z := Z.of_nat (length (List.filter (passes ip) log)).

(** All readings of the clock lie in one cooldown. *)
Definition reads_within (a : Instant) (rd : Readings) : Prop :=
  let inside t := a <= t <= a + fc_cooldown cfg in
  inside (rd_entry rd) /\ inside (rd_check rd) /\ inside (rd_again rd) /\ forall k, inside (rd_prune rd k).

(** How many requests of a client may still pass. *)
Definition entry_left (a : Instant) (e : option (Instant * Z)) : Z :=
  match e with None => MAX_DRIPS_PER_IP | Some (start, count) => allowance a start MAX_DRIPS_PER_IP count end.
Definition ip_left (a : Instant) (ip : str) (st : AppState) : Z := entry_left a (ip_rate_limit st !! ip).
(** No counter wraps for [k] more requests. *)
Definition counts_fit (k : Z) (m : gmap str (Instant * Z)) : Prop :=
  map_Forall (fun _ e => 0 <= snd e /\ snd e + k < 2 ^ 32) m.

Lemma prune_left a rd m st ip k :
  0 < fc_cooldown cfg -> reads_within a rd -> counts_fit k m ->
  counts_fit k (ip_rate_limit (fst (prune_ips cfg rd m st)))
  /\ ip_left a ip (fst (prune_ips cfg rd m st)) <= entry_left a (m !! ip).
Proof.
  intros Hc (_ & _ & _ & Hp) Hf. unfold prune_ips. destruct (_ <? _)%nat; [|split; [done|unfold ip_left; cbn; lia]].
  destruct (DURATION_MAX <? _); [split; [done|unfold ip_left; cbn; lia]|]. cbn [fst ip_rate_limit]. split.
  - intros q e He. apply map_lookup_filter_Some in He as [He _]. exact (Hf q e He).
  - unfold ip_left. cbn [ip_rate_limit]. rewrite map_lookup_filter. specialize (Hp ip).
    destruct (m !! ip) as [[start count]|] eqn:E; cbn [mbind option_bind]; [|cbn; lia].
    destruct (Hf _ _ E) as [H1 _]. cbn [snd] in H1.
    case_guard as Hg; [cbn; lia|]. cbn [fst snd] in Hg. apply not_true_iff_false, Z.ltb_ge in Hg.
    unfold elapsed, sat_sub in Hg. change (MAX_DRIPS_PER_IP <= allowance a start MAX_DRIPS_PER_IP count).
    unfold allowance, MAX_DRIPS_PER_IP. destruct (Z.leb_spec a start); lia.
Qed.

Lemma check_ip_left a rd ip st p k :
  0 < fc_cooldown cfg -> reads_within a rd -> 0 <= k < 2 ^ 32 - 1 -> counts_fit (k + 1) (ip_rate_limit st) ->
  let '(st', v) := check_ip cfg rd ip st in
  counts_fit k (ip_rate_limit st')
  /\ ip_left a p st' + (if passes p (ip, v) then 1 else 0) <= ip_left a p st.
Proof.
  intros Hc Hrd Hk Hf. pose proof Hrd as (He & Hch & Hag & _). unfold check_ip.
  assert (Hweak : counts_fit k (ip_rate_limit st)).
  { intros q e Hq. destruct (Hf q e Hq). lia. }
  destruct (ip_poisoned st). { cbn. split; [done|lia]. }
  destruct (default (rd_entry rd, 0) (ip_rate_limit st !! ip)) as [start count] eqn:Ed.
  assert (Hcount : 0 <= count /\ count + (k + 1) < 2 ^ 32 /\ allowance a start MAX_DRIPS_PER_IP count <= ip_left a ip st).
  { unfold ip_left. destruct (ip_rate_limit st !! ip) as [e|] eqn:E; cbn in Ed.
    - destruct (Hf _ _ E) as [Hf1 Hf2]. subst e. cbn [fst snd entry_left] in *. split; [done|]. split; [done|lia].
    - injection Ed as <- <-. cbn [entry_left]. unfold allowance, MAX_DRIPS_PER_IP. destruct (Z.leb_spec a (rd_entry rd)); lia. }
  destruct Hcount as (Hc0 & Hck & Hleft).
  (* the entry that is stored, and what it leaves *)
  assert (Hstore : forall e, 0 <= snd e /\ snd e + k < 2 ^ 32 ->
    counts_fit k (<[ip := e]> (ip_rate_limit st))
    /\ forall d, entry_left a (Some e) + d <= ip_left a ip st -> 0 <= d ->
         entry_left a (<[ip := e]> (ip_rate_limit st) !! p) + (if bool_decide (ip = p) then d else 0) <= ip_left a p st).
  { intros e He'. split; [by apply map_Forall_insert_2|]. intros d Hd Hd0. case_bool_decide as Hip.
    - subst p. by rewrite lookup_insert_eq.
    - rewrite lookup_insert_ne by done. unfold ip_left. lia. }
  assert (Hprune : forall e, 0 <= snd e /\ snd e + k < 2 ^ 32 -> entry_left a (Some e) + 1 <= ip_left a ip st ->
    let '(st', v) := prune_ips cfg rd (<[ip := e]> (ip_rate_limit st)) st in
    counts_fit k (ip_rate_limit st') /\ ip_left a p st' + (if passes p (ip, v) then 1 else 0) <= ip_left a p st).
  { intros e He' Hd. destruct (Hstore e He') as [Hfit Hle]. specialize (Hle 1 Hd ltac:(lia)).
    destruct (prune_left a rd _ st p k Hc Hrd Hfit) as [Hpf Hpl].
    destruct (prune_ips cfg rd _ st) as [st' v]. cbn [fst] in *. split; [done|].
    unfold passes. destruct v; case_bool_decide; lia. }
  destruct (Z.ltb_spec (fc_cooldown cfg) (elapsed (rd_check rd) start)) as [Hold|Hnew].
  - apply Hprune; cbn [snd]; [lia|]. etrans; [|exact Hleft]. cbn [entry_left].
    unfold elapsed, sat_sub in Hold. unfold allowance, MAX_DRIPS_PER_IP.
    destruct (Z.leb_spec a (rd_again rd)), (Z.leb_spec a start); lia.
  - rewrite Z.mod_small by lia.
    assert (Hall : allowance a start MAX_DRIPS_PER_IP (count + 1) + (if MAX_DRIPS_PER_IP <? count + 1 then 0 else 1)
      <= ip_left a ip st).
    { etrans; [|exact Hleft]. unfold allowance, MAX_DRIPS_PER_IP.
      destruct (Z.ltb_spec 5 (count + 1)), (Z.leb_spec a start); lia. }
    destruct (MAX_DRIPS_PER_IP <? count + 1).
    + destruct (Hstore (start, count + 1) ltac:(cbn; lia)) as [Hfit Hle]. specialize (Hle 0 Hall ltac:(lia)).
      destruct (_ <? _); cbn [passes ip_rate_limit]; (split; [done|]); unfold ip_left at 1; cbn [ip_rate_limit];
        case_bool_decide; lia.
    + apply Hprune; cbn [snd]; [lia|exact Hall].
Qed.

Lemma passed_cons ip e log : passed ip (e :: log) = (if passes ip e then 1 else 0) + passed ip log.
Proof. unfold passed. cbn [List.filter]. destruct (passes ip e); cbn [length]; lia. Qed.
Lemma ip_left_range a ip st k :
  0 <= k -> counts_fit k (ip_rate_limit st) -> 0 <= ip_left a ip st <= 2 * MAX_DRIPS_PER_IP.
Proof.
  intros Hk Hf. unfold ip_left. destruct (ip_rate_limit st !! ip) as [[start count]|] eqn:E; cbn [entry_left].
  - destruct (Hf _ _ E). cbn [snd] in *. unfold allowance, MAX_DRIPS_PER_IP. destruct (Z.leb_spec a start); lia.
  - unfold MAX_DRIPS_PER_IP. lia.
Qed.

Lemma ip_log_left a calls st p :
  0 < fc_cooldown cfg -> Forall (fun c => reads_within a (snd c)) calls ->
  Z.of_nat (length calls) < 2 ^ 32 -> counts_fit (Z.of_nat (length calls)) (ip_rate_limit st) ->
  passed p (ip_log calls st) <= ip_left a p st.
Proof.
  intros Hc Hin. revert st. induction Hin as [|[ip rd] calls Hrd Hin IH]; intros st Hlen Hf.
  - by apply (ip_left_range a p st 0).
  - cbn [length] in *. cbn [ip_log].
    pose proof (check_ip_left a rd ip st p (Z.of_nat (length calls)) Hc Hrd ltac:(lia)) as Hstep.
    destruct (check_ip cfg rd ip st) as [st' v]. destruct Hstep as [Hf' Hle].
    { by rewrite Z.add_1_r, <- Nat2Z.inj_succ. }
    rewrite passed_cons. specialize (IH st' ltac:(lia) Hf'). lia.
Qed.

(** In the time of one cooldown, at most ten requests of one client get past
    the limit: the rest of a window and a whole one. This holds from any state
    whose counters do not wrap, for any requests of any clients. *)
Theorem ip_limit_bound a calls st p :
  0 < fc_cooldown cfg -> Forall (fun c => reads_within a (snd c)) calls ->
  Z.of_nat (length calls) < 2 ^ 32 -> counts_fit (Z.of_nat (length calls)) (ip_rate_limit st) ->
  passed p (ip_log calls st) <= 2 * MAX_DRIPS_PER_IP.
Proof.
  intros Hc Hin Hlen Hf. etrans; [by apply (ip_log_left a)|].
  by eapply ip_left_range; [|done]; lia.
Qed.

(** Once a panic has poisoned the lock, every later request panics. *)
Theorem poisoned_for_good i account ip st :
  ip_poisoned st = true ->
  ip_poisoned (fst (arrive cfg i account ip st)) = true /\ snd (arrive cfg i account ip st) = Unwound.
Proof.
  intros Hp. unfold arrive, check_ip. rewrite Hp. by destruct (resolve_account account).
Qed.
End ip_limit.

(** ** Runs *)

Definition toy_faucet : Config := mkConfig toy_seed 100000000 (secs 300) 1337 [].
Definition read_at (t : Instant) : Readings := mkReadings t t t (fun _ => t).
Definition input_at (t : Instant) (n : u64) : Inputs := mkInputs (read_at t) t (Ok (Some n)) (Ok (Some true)).
Lemma read_within cfg a t : a <= t <= a + fc_cooldown cfg -> reads_within cfg a (read_at t).
Proof. intros Ht. split; [exact Ht|]. split; [exact Ht|]. split; [exact Ht|]. intros k. exact Ht. Qed.
Definition alice_text : str := chars (hex_encode (addr 1)).

(** One request, uninterrupted: the drip is sent and recorded; a second one
    within the cooldown is refused. *)
Lemma drip_then_refused :
  let i := input_at 5 in
  let '(st, t) := handle_drip toy_faucet (Some (chars "10.0.0.1, 10.0.0.2")) None alice_text (i 0) (i 0) (i 0) (i 0) app_new in
  t = Answered (mkDrip OK true (chars "100000000") (account_to_base58 (addr 1)) None None)
  /\ rate_limit st !! account_to_base58 (addr 1) = Some 5
  /\ let j := input_at (secs 100) in
     snd (handle_drip toy_faucet None None (account_to_base58 (addr 1)) (j 1) (j 1) (j 1) (j 1) st)
     = Answered (refusal TOO_MANY_REQUESTS (account_to_base58 (addr 1)) (chars "rate limited, retry in 200s") (Some 200)).
Proof. vm_compute. split_and!; reflexivity. Qed.

(** The check of a recipient and the record of the drip are two sections: of
    two requests that are served at the same time, both are paid. *)
Definition race_events : list Event :=
  [NewRequest 1 None None alice_text; NewRequest 2 None None alice_text;
   Resume 1 (input_at 5 0); Resume 2 (input_at 5 0); Resume 1 (input_at 5 0); Resume 2 (input_at 5 0);
   Resume 1 (input_at 5 0); Resume 2 (input_at 5 1); Resume 1 (input_at 5 0); Resume 2 (input_at 5 0)].
Theorem concurrent_requests_both_paid :
  map op_actions (sv_submitted (service_run toy_faucet race_events service_new))
  = [[Transfer (addr 1) 100000000]; [Transfer (addr 1) 100000000]].
Proof. vm_compute. reflexivity. Qed.

(** The window is fixed: nine requests of one client pass within a nanosecond,
    four at the end of a window and five at the start of the next. *)
Definition burst : list (str * Readings) :=
  replicate 4 ([1], read_at (secs 300)) ++ replicate 5 ([1], read_at (secs 300 + 1)).
Definition opened : AppState := fst (check_ip toy_faucet (read_at 0) [1] app_new).
Theorem window_boundary_burst : passed [1] (ip_log toy_faucet burst opened) = 9.
Proof. vm_compute. reflexivity. Qed.

Lemma ip_limit_bound_witness :
  Forall (fun c => reads_within toy_faucet 1 (snd c)) burst /\ passed [1] (ip_log toy_faucet burst opened) <= 10.
Proof.
  assert (Hin : Forall (fun c => reads_within toy_faucet 1 (snd c)) burst).
  { unfold burst. apply Forall_app. split; apply Forall_replicate; apply read_within; unfold toy_faucet, secs; cbn; lia. }
  split; [exact Hin|]. apply (ip_limit_bound toy_faucet 1 burst opened [1] ltac:(reflexivity) Hin ltac:(reflexivity)).
  apply (bool_decide_unpack (map_Forall _ _)). vm_compute. exact I.
Defined.

(** The age of the window is read twice: if it passes the cooldown in between,
    the subtraction panics with the lock held, and the faucet pays no more. *)
Definition late : Readings := mkReadings 0 (secs 300) (secs 300 + 1) (fun _ => 0).
Definition full : AppState := mkApp ∅ {[ [1] := (0, 5) ]} false.
Theorem late_reading_poisons account ip rd :
  let st := fst (arrive toy_faucet late alice_text [1] full) in
  snd (arrive toy_faucet rd account ip st) = Unwound.
Proof. apply poisoned_for_good. vm_compute. reflexivity. Qed.

Lemma recipient_cooldown_witness :
  let s := mkService (mkApp {[ account_to_base58 (addr 1) := 5 ]} ∅ false)
                     {[ 1%nat := WithinIpLimit (account_to_base58 (addr 1)) ]} [] in
  exists remaining msg, 0 <= remaining /\ secs remaining <= fc_cooldown toy_faucet
  /\ sv_tasks (service_step toy_faucet (Resume 1 (input_at 7 0)) s) !! 1%nat
     = Some (Answered (refusal TOO_MANY_REQUESTS (account_to_base58 (addr 1)) msg (Some remaining))).
Proof.
  intros s. destruct (recipient_cooldown toy_faucet [] s 5 (account_to_base58 (addr 1)) 1 (input_at 7 0))
    as (remaining & msg & H1 & H2 & H3 & _);
    [vm_compute; reflexivity|by constructor|vm_compute; reflexivity|vm_compute; split; [discriminate|reflexivity]|].
  exists remaining, msg. split; [exact H1|]. split; [exact H2|exact H3].
Defined.
