(* ===== verification/Tools.v ===== *)
(** The operator tools ([tools/stsolen-deploy], [tools/stsolen-deposit],
    [tools/stsolen-admin], [tools/account-census]).

    The first three build one operation, sign it with the key of a seed file and
    submit it. They are written in the monad of the command line; what they log
    is left out, what they print is not. The crate [hex], the files and the node
    are parameters. The theorems say what they submit, what the contract makes of
    it, and what the census tells. *)

From S2P Require Import Prelude Types Store Codec SysCommon State Auth.
From S2P Require Import Executor Vm StSolen StSolenLedger StSolenQueue StSolenRate.
From S2P Require Import Address Rpc Keystore KeystoreLaws Cli CliLaws.
Open Scope Z_scope.

(** ** The node and the files *)

Record SubmitResult : Type := mkSubmitResult { sub_accepted : bool; sub_error : option str }.
Record SubmitConfirmResult : Type := mkConfirmResult {
  con_accepted : bool; con_confirmed : bool; con_success : bool; con_tx_hash : str; con_error : option str;
}.

(** [t_hex_decode] is [hex::decode]; [t_read_text] is [fs::read_to_string],
    [t_read] is [fs::read]. An answer of the node is the [result] of the
    response, or the reason why there is none. *)
Class ToolHost : Type := {
  t_hex_decode : str -> option bytes;
  t_read_text : str -> option str;
  t_read : str -> option bytes;
  t_next_nonce : list Request -> result u64 str;
  t_balance : list Request -> result str str;
  t_submit : list Request -> result SubmitResult str;
  t_submit_confirm : list Request -> result SubmitConfirmResult str;
}.

(** ** Arguments *)

(** [trim_start_matches]: the prefix is removed as often as it occurs. *)
Fixpoint trim_start_0x (s : str) : str :=
  match s with
  | 48 :: ((120 :: s'') as s') => trim_start_0x s''
  | _ => s
  end.

Fixpoint split_on (sep : Z) (s : str) : list str :=
  match s with
  | [] => [[]]
  | c :: s =>
    if c =? sep then [] :: split_on sep s
    else match split_on sep s with [] => [[c]] | p :: ps => (c :: p) :: ps end
  end.

Definition MAX_OPERATORS_PER_OP : nat := 11.

Section tools.
Context `{!Crypto} `{!Signing} `{!Codec (list Action)} `{!ToolHost}.

Definition of_option {A} (e : string) (o : option A) : run A :=
  match o with Some a => Done a | None => Failed (Bail e) end.
Definition decode_32 (hex_error length_error : string) (s : str) : run bytes :=
  raw ← of_option hex_error (t_hex_decode (trim_start_0x (trim s)));
  if (length raw =? 32)%nat then Done raw else Failed (Bail length_error).

Definition decode_account : str -> run AccountId := decode_32 "decode hex" "must decode to 32 bytes".
Definition decode_32_seed (path : str) : run bytes :=
  raw ← of_option "read seed file" (t_read_text path);
  decode_32 "decode seed hex" "seed file must contain 32 bytes" raw.

Fixpoint decode_all (l : list str) : run (list AccountId) :=
  match l with
  | [] => Done []
  | s :: l => id ← decode_account s; ids ← decode_all l; Done (id :: ids)
  end.
Definition parse_operators (s : str) : run (list AccountId) :=
  let parts := List.filter (fun p => negb (bool_decide (p = []))) (map trim (split_on 44 s)) in
  if bool_decide (parts = []) then Failed (Bail "--operators must list at least one validator")
  else if (MAX_OPERATORS_PER_OP <? length parts)%nat then Failed (Bail "--operators lists too many entries")
  else decode_all parts.

Definition parse_salt (salt : option str) : run bytes :=
  match salt with
  | Some s => decode_32 "decode --salt hex" "--salt must decode to 32 bytes" s
  | None => Done (replicate 32 0)
  end.

(** ** The client *)

Definition tool_id (account : AccountId) : str := chars (hex_encode account).
Definition next_nonce (account : AccountId) : M u64 := ask (GetNextNonce (tool_id account)) t_next_nonce.
Definition tool_balance (account : AccountId) : M u128 :=
  s ← ask (GetBalance (tool_id account)) t_balance;
  lift (of_option "parse balance" (parse_u128 s)).
Definition submit_operation (op : UserOperation) : M SubmitResult := ask (Submit op) t_submit.
Definition submit_operation_confirm (op : UserOperation) (timeout_secs : u64) : M SubmitConfirmResult :=
  ask (SubmitConfirm op timeout_secs) t_submit_confirm.

Definition reason (what : string) (e : option str) : CliError :=
  BailWith (chars what ++ default (chars "(no error)") e).

(** The end of each tool: submission, with or without confirmation. *)
Definition submit_and_check (confirm : bool) (op : UserOperation) (unconfirmed reverted : string) : M unit :=
  if confirm then
    result ← submit_operation_confirm op 60;
    if negb (con_accepted result) then bail (reason "submit rejected: " (con_error result))
    else if negb (con_confirmed result) then bail (reason unconfirmed (con_error result))
    else if negb (con_success result)
    then bail (BailWith (chars reverted ++ con_tx_hash result ++ chars "): "
                         ++ default (chars "(no error)") (con_error result)))
    else mret tt
  else
    result ← submit_operation op;
    if negb (sub_accepted result) then bail (reason "submit rejected: " (sub_error result)) else mret tt.

Definition signed_op (seed : bytes) (nonce : u64) (actions : list Action) (max_fee : u128) (chain_id : u64) : UserOperation :=
  sign_op (mkUserOperation (ed_public seed) nonce actions max_fee []) (SignEd25519 seed) chain_id.

(** ** [stsolen-deploy] *)

Definition derive_contract_addr (sender : AccountId) (salt code : bytes) : AccountId :=
  blake3 (sender ++ salt ++ blake3 code).
Definition build_init_args (treasury slash_oracle : AccountId) : bytes := treasury ++ slash_oracle.
Definition build_set_operator_args (index : u64) (validator : AccountId) : bytes := le_bytes 8 index ++ validator.

Definition deploy_calls (target treasury slash_oracle : AccountId) (operators : list AccountId) : list Action :=
  [Call target "init" (build_init_args treasury slash_oracle)]
  ++ imap (fun i op => Call target "set_operator" (build_set_operator_args (Z.of_nat i) op)) operators
  ++ [Call target "set_op_count" (le_bytes 8 (Z.of_nat (length operators)))].
Definition deploy_actions (owner : AccountId) (wasm salt : bytes) (treasury slash_oracle : AccountId)
    (operators : list AccountId) : list Action :=
  Deploy wasm salt :: deploy_calls (derive_contract_addr owner salt wasm) treasury slash_oracle operators.

Record DeployCli : Type := mkDeployCli {
  dc_chain_id : u64; dc_owner_seed : str; dc_stsolen_wasm : str; dc_treasury : str; dc_slash_oracle : str;
  dc_operators : str; dc_salt : option str; dc_max_fee : u128; dc_confirm : bool; dc_live : bool;
}.
Definition stsolen_deploy (cli : DeployCli) : M unit :=
  treasury ← lift (decode_account (dc_treasury cli));
  slash_oracle ← lift (decode_account (dc_slash_oracle cli));
  operators ← lift (parse_operators (dc_operators cli));
  owner_seed ← lift (decode_32_seed (dc_owner_seed cli));
  wasm ← lift (of_option "read wasm" (t_read (dc_stsolen_wasm cli)));
  salt ← lift (parse_salt (dc_salt cli));
  let owner_pk := ed_public owner_seed in
  if negb (dc_live cli) then mret tt
  else
  nonce ← next_nonce owner_pk;
  let op := signed_op owner_seed nonce (deploy_actions owner_pk wasm salt treasury slash_oracle operators)
              (dc_max_fee cli) (dc_chain_id cli) in
  submit_and_check (dc_confirm cli) op "not confirmed within timeout: " "deploy reverted on-chain (tx ";;
  println (chars (hex_encode (derive_contract_addr owner_pk salt wasm))).

(** ** [stsolen-deposit] *)

Record DepositCli : Type := mkDepositCli {
  dp_chain_id : u64; dp_depositor_seed : str; dp_stsolen : str; dp_amount : u128; dp_max_fee : u128;
  dp_confirm : bool; dp_live : bool;
}.
Definition deposit_actions (stsolen : AccountId) (amount : u128) : list Action :=
  [Transfer stsolen amount; Call stsolen "deposit" []].
Definition stsolen_deposit (cli : DepositCli) : M unit :=
  stsolen ← lift (decode_account (dp_stsolen cli));
  seed ← lift (decode_32_seed (dp_depositor_seed cli));
  let depositor := ed_public seed in
  if dp_amount cli =? 0 then bail (Bail "--amount must be > 0")
  else if negb (dp_live cli) then mret tt
  else
  bal ← tool_balance depositor;
  let need := Z.min u128_max (dp_amount cli + dp_max_fee cli) in
  if bal <? need
  then bail (BailWith (chars "depositor balance " ++ decimal bal ++ chars " < amount + max_fee (" ++ decimal need
                       ++ chars "); fund the account before retrying"))
  else
  nonce ← next_nonce depositor;
  submit_and_check (dp_confirm cli)
    (signed_op seed nonce (deposit_actions stsolen (dp_amount cli)) (dp_max_fee cli) (dp_chain_id cli))
    "not confirmed within timeout: " "deposit reverted on-chain (tx ".

(** ** [stsolen-admin] *)

Record AdminCli : Type := mkAdminCli {
  ad_chain_id : u64; ad_signer_seed : str; ad_target : str; ad_method : string; ad_args : str; ad_max_fee : u128;
  ad_confirm : bool; ad_live : bool;
}.
Definition admin_args (args : str) : run bytes :=
  if bool_decide (args = []) then Done []
  else of_option "decode --args hex" (t_hex_decode (trim_start_0x (trim args))).
Definition stsolen_admin (cli : AdminCli) : M unit :=
  target ← lift (decode_account (ad_target cli));
  seed ← lift (decode_32_seed (ad_signer_seed cli));
  args ← lift (admin_args (ad_args cli));
  let signer := ed_public seed in
  if negb (ad_live cli) then mret tt
  else
  nonce ← next_nonce signer;
  submit_and_check (ad_confirm cli)
    (signed_op seed nonce [Call target (ad_method cli) args] (ad_max_fee cli) (ad_chain_id cli))
    "not confirmed: " "reverted on-chain (tx ".
End tools.

(** ** [account-census] *)

(** The layout of accounts that the tool decodes. *)
Inductive DeployedAuth : Type :=
| DPasskey (credential_id public_key_x public_key_y : bytes)
| DEd25519 (public_key : bytes)
| DThreshold (signers : list bytes) (threshold : Z)
| DGuardian (guardian_id : AccountId)
| DSession (session_key : bytes) (expires_at : u64) (spending_limit : u128) (allowed_targets : list AccountId)
    (allowed_methods : list string).
Record DeployedAccount : Type := mkDeployed {
  da_id : AccountId; da_code_hash : bytes; da_auth_methods : list DeployedAuth; da_nonce : u64; da_balance : u128;
}.

Record Census : Type := mkCensus {
  cs_accounts : u64; cs_ed25519 : u64; cs_threshold : u64; cs_guardian : u64; cs_passkey : u64; cs_session : u64;
  cs_decode_errors : u64; cs_passkey_ids : list str; cs_session_ids : list str;
}.
Definition census_default : Census := mkCensus 0 0 0 0 0 0 0 [] [].

Definition count_method (id : AccountId) (c : Census) (m : DeployedAuth) : Census :=
  let 'mkCensus a e t g p s d pi si := c in
  match m with
  | DPasskey _ _ _ => mkCensus a e t g (u64_add p 1) s d (pi ++ [chars (hex_encode id)]) si
  | DEd25519 _ => mkCensus a (u64_add e 1) t g p s d pi si
  | DThreshold _ _ => mkCensus a e (u64_add t 1) g p s d pi si
  | DGuardian _ => mkCensus a e t (u64_add g 1) p s d pi si
  | DSession _ _ _ _ _ => mkCensus a e t g p (u64_add s 1) d pi (si ++ [chars (hex_encode id)])
  end.

Definition ACCOUNT_PREFIX_BYTES : bytes := Eval vm_compute in bytes_of_string "acc/".

Section census.
Context `{!Codec DeployedAccount}.

Definition count_entry (c : Census) (kv : bytes * bytes) : Census :=
  let '(k, v) := kv in
  if negb (starts_with ACCOUNT_PREFIX_BYTES k) || negb (length k =? 4 + 32)%nat then c
  else
  match de v with
  | Some acct =>
    let 'mkCensus a e t g p s d pi si := c in
    fold_left (count_method (da_id acct)) (da_auth_methods acct) (mkCensus (u64_add a 1) e t g p s d pi si)
  | None =>
    let 'mkCensus a e t g p s d pi si := c in mkCensus a e t g p s (u64_add d 1) pi si
  end.
Definition census (entries : list (bytes * bytes)) : Census := fold_left count_entry entries census_default.
(** The verdict of [main], which is its exit status too. *)
Definition census_safe (c : Census) : bool := (cs_passkey c =? 0) && (cs_session c =? 0) && (cs_decode_errors c =? 0).
End census.

(** ** What is submitted *)

Section submitted.
Context `{!Crypto} `{!Signing} `{!Codec (list Action)} `{!ToolHost}.
Variable f : KeyFile.

Lemma once_ask {A B} r op (answer : list Request -> result A str) (k : A -> M B) (P : UserOperation -> Prop) :
  submits [r] = [op] -> P op -> (forall a, silent (k a)) -> once f (ask r answer ≫= k) P.
Proof.
  intros Hr HP Hk w _. unfold mbind, M_bind, ask.
  destruct (answer (w_requests w ++ [r])) as [a|m]; cbn [fst].
  - match goal with |- context [k a ?v] => destruct (Hk a v) as (r2 & E2 & N2) end. cbn in E2.
    exists ([r] ++ r2). rewrite E2, submits_app, N2, Hr, <- app_assoc. split; [done|]. right. by exists op.
  - exists [r]. split; [done|]. right. by exists op.
Qed.

Lemma once_check confirm op unconfirmed reverted (P : UserOperation -> Prop) :
  P op -> once f (submit_and_check confirm op unconfirmed reverted) P.
Proof.
  intros HP. unfold submit_and_check. destruct confirm; (eapply once_ask; [done|done|]); intros r;
    repeat (apply silent_if; [eauto with cli|]); eauto with cli.
Qed.
Lemma once_then {A B} (m : M A) (k : A -> M B) (P : UserOperation -> Prop) :
  once f m P -> (forall a, silent (k a)) -> once f (m ≫= k) P.
Proof.
  intros Hm Hk w Hw. destruct (Hm w Hw) as (r1 & E1 & N1). unfold mbind, M_bind.
  destruct (m w) as [w1 [a| |]]; cbn [fst] in *; [|by exists r1..].
  destruct (Hk a w1) as (r2 & E2 & N2). exists (r1 ++ r2). rewrite E2, E1, submits_app, N2, app_nil_r, app_assoc. done.
Qed.

(** The operation of a seed file: signed with its key, for its account. *)
Definition from_seed (path : str) (actions : list Action) (max_fee : u128) (chain_id : u64) (op : UserOperation) : Prop :=
  exists seed nonce, decode_32_seed path = Done seed /\ length seed = 32%nat
    /\ op = signed_op seed nonce actions max_fee chain_id.

Lemma decode_32_length e1 e2 s b : decode_32 e1 e2 s = Done b -> length b = 32%nat.
Proof.
  unfold decode_32, of_option. destruct (t_hex_decode _) as [raw|]; [|done]. cbn.
  destruct (Nat.eqb_spec (length raw) 32); [by intros [= <-]|done].
Qed.
Lemma decode_32_seed_length p b : decode_32_seed p = Done b -> length b = 32%nat.
Proof.
  unfold decode_32_seed, of_option. destruct (t_read_text p) as [s|]; [|done]. apply decode_32_length.
Qed.
Lemma decode_all_lengths l ids : decode_all l = Done ids -> length ids = length l /\ Forall (fun id => length id = 32%nat) ids.
Proof.
  revert ids. induction l as [|s l IH]; intros ids; cbn [decode_all]; [by intros [= <-]|].
  destruct (decode_account s) as [id| |] eqn:E; [|done..]. cbn.
  destruct (decode_all l) as [ids'| |]; [|done..]. intros [= <-]. destruct (IH ids' eq_refl) as [Hl Hf].
  split; [cbn; by rewrite Hl|]. constructor; [|done]. by eapply decode_32_length.
Qed.
Lemma parse_operators_spec s ids :
  parse_operators s = Done ids ->
  (1 <= length ids <= MAX_OPERATORS_PER_OP)%nat /\ Forall (fun id => length id = 32%nat) ids.
Proof.
  unfold parse_operators. set (parts := List.filter _ _). case_bool_decide as Hn; [done|].
  destruct (Nat.ltb_spec MAX_OPERATORS_PER_OP (length parts)); [done|]. intros [Hl Hf]%decode_all_lengths.
  split; [|done]. destruct parts; [done|]. rewrite Hl in *. cbn [length] in *. lia.
Qed.

Lemma quiet_next_nonce id : quiet f (next_nonce id) (fun _ => True).
Proof. by apply quiet_ask. Qed.
Lemma quiet_tool_balance id : quiet f (tool_balance id) (fun _ => True).
Proof.
  unfold tool_balance. eapply quiet_bind; [by apply quiet_ask|intros; apply silent_lift|]. intros s _.
  split; [apply silent_lift|]. done.
Qed.

(** The deployment: one operation at most, and only with [--live]; it deploys
    the file and configures the contract at the address where it will be. *)
Theorem deploy_tool_submits cli w :
  w_file w = f ->
  exists reqs, w_requests (fst (stsolen_deploy cli w)) = w_requests w ++ reqs
  /\ (submits reqs = [] \/ dc_live cli = true /\ exists op wasm salt treasury oracle operators,
        submits reqs = [op] /\ t_read (dc_stsolen_wasm cli) = Some wasm
        /\ length salt = 32%nat /\ decode_account (dc_treasury cli) = Done treasury
        /\ decode_account (dc_slash_oracle cli) = Done oracle /\ parse_operators (dc_operators cli) = Done operators
        /\ from_seed (dc_owner_seed cli)
             (deploy_actions (op_sender op) wasm salt treasury oracle operators) (dc_max_fee cli) (dc_chain_id cli) op).
Proof.
  intros Hw. set (P := fun op => dc_live cli = true /\ exists wasm salt treasury oracle operators,
        t_read (dc_stsolen_wasm cli) = Some wasm
        /\ length salt = 32%nat /\ decode_account (dc_treasury cli) = Done treasury
        /\ decode_account (dc_slash_oracle cli) = Done oracle /\ parse_operators (dc_operators cli) = Done operators
        /\ from_seed (dc_owner_seed cli)
             (deploy_actions (op_sender op) wasm salt treasury oracle operators) (dc_max_fee cli) (dc_chain_id cli) op).
  assert (Ho : once f (stsolen_deploy cli) P).
  { unfold stsolen_deploy.
    eapply once_bind; [apply quiet_lift|]; intros treasury Ht. eapply once_bind; [apply quiet_lift|]; intros oracle Hor.
    eapply once_bind; [apply quiet_lift|]; intros operators Hops. eapply once_bind; [apply quiet_lift|]; intros seed Hseed.
    eapply once_bind; [apply quiet_lift|]; intros wasm Hwasm. eapply once_bind; [apply quiet_lift|]; intros salt Hsalt.
    destruct (dc_live cli) eqn:Hlive; cbn [negb]; [|apply once_silent, silent_ret].
    eapply once_bind; [apply quiet_next_nonce|]. intros nonce _.
    apply once_then; [|intros _; apply silent_println]. apply once_check. split; [done|].
    exists wasm, salt, treasury, oracle, operators. split_and!; [|..|done|done|done|].
    - destruct (t_read _); [by injection Hwasm as ->|done].
    - unfold parse_salt in Hsalt. destruct (dc_salt cli); [by eapply decode_32_length|by injection Hsalt as <-].
    - exists seed, nonce. split_and!; [done|exact (decode_32_seed_length _ _ Hseed)|done]. }
  destruct (Ho w Hw) as (reqs & E & [Hn|(op & Hs & Hl & Hp)]); exists reqs; (split; [done|]); [by left|].
  right. split; [done|]. exists op. destruct Hp as (wasm & salt & t & o & ops & Hp). by exists wasm, salt, t, o, ops.
Qed.

(** The deposit: the transfer and the call, only with [--live] and a positive
    amount. *)
Theorem deposit_tool_submits cli w :
  w_file w = f ->
  exists reqs, w_requests (fst (stsolen_deposit cli w)) = w_requests w ++ reqs
  /\ (submits reqs = [] \/ dp_live cli = true /\ dp_amount cli <> 0 /\ exists op stsolen,
        submits reqs = [op] /\ decode_account (dp_stsolen cli) = Done stsolen
        /\ from_seed (dp_depositor_seed cli) (deposit_actions stsolen (dp_amount cli)) (dp_max_fee cli) (dp_chain_id cli) op).
Proof.
  intros Hw. set (P := fun op => dp_live cli = true /\ dp_amount cli <> 0 /\ exists stsolen,
        decode_account (dp_stsolen cli) = Done stsolen
        /\ from_seed (dp_depositor_seed cli) (deposit_actions stsolen (dp_amount cli)) (dp_max_fee cli) (dp_chain_id cli) op).
  assert (Ho : once f (stsolen_deposit cli) P).
  { unfold stsolen_deposit.
    eapply once_bind; [apply quiet_lift|]; intros stsolen Hst. eapply once_bind; [apply quiet_lift|]; intros seed Hseed.
    destruct (Z.eqb_spec (dp_amount cli) 0) as [|Hpos]; [apply once_silent, silent_lift|].
    destruct (dp_live cli) eqn:Hlive; cbn [negb]; [|apply once_silent, silent_ret].
    eapply once_bind; [apply quiet_tool_balance|]. intros bal _. destruct (bal <? _); [apply once_silent, silent_lift|].
    eapply once_bind; [apply quiet_next_nonce|]. intros nonce _. apply once_check. split; [done|]. split; [done|].
    exists stsolen. split; [done|]. exists seed, nonce. split_and!; [done|exact (decode_32_seed_length _ _ Hseed)|done]. }
  destruct (Ho w Hw) as (reqs & E & [Hn|(op & Hs & Hl & Ha & st & Hp)]); exists reqs; (split; [done|]); [by left|].
  right. split; [done|]. split; [done|]. by exists op, st.
Qed.

(** The general tool: the one call, only with [--live]. *)
Theorem admin_tool_submits cli w :
  w_file w = f ->
  exists reqs, w_requests (fst (stsolen_admin cli w)) = w_requests w ++ reqs
  /\ (submits reqs = [] \/ ad_live cli = true /\ exists op target args,
        submits reqs = [op] /\ decode_account (ad_target cli) = Done target /\ admin_args (ad_args cli) = Done args
        /\ from_seed (ad_signer_seed cli) [Call target (ad_method cli) args] (ad_max_fee cli) (ad_chain_id cli) op).
Proof.
  intros Hw. set (P := fun op => ad_live cli = true /\ exists target args,
        decode_account (ad_target cli) = Done target /\ admin_args (ad_args cli) = Done args
        /\ from_seed (ad_signer_seed cli) [Call target (ad_method cli) args] (ad_max_fee cli) (ad_chain_id cli) op).
  assert (Ho : once f (stsolen_admin cli) P).
  { unfold stsolen_admin.
    eapply once_bind; [apply quiet_lift|]; intros target Ht. eapply once_bind; [apply quiet_lift|]; intros seed Hseed.
    eapply once_bind; [apply quiet_lift|]; intros args Hargs.
    destruct (ad_live cli) eqn:Hlive; cbn [negb]; [|apply once_silent, silent_ret].
    eapply once_bind; [apply quiet_next_nonce|]. intros nonce _. apply once_check. split; [done|].
    exists target, args. split; [done|]. split; [done|]. exists seed, nonce.
    split_and!; [done|exact (decode_32_seed_length _ _ Hseed)|done]. }
  destruct (Ho w Hw) as (reqs & E & [Hn|(op & Hs & Hl & t & a & Hp)]); exists reqs; (split; [done|]); [by left|].
  right. split; [done|]. by exists op, t, a.
Qed.

(** The deployment fits the limit on the actions of an operation. *)
Theorem deploy_fits owner wasm salt treasury oracle operators s :
  parse_operators s = Done operators ->
  (length (deploy_actions owner wasm salt treasury oracle operators) <= MAX_ACTIONS_PER_OP)%nat.
Proof.
  intros [Hl _]%parse_operators_spec. unfold deploy_actions, deploy_calls, MAX_ACTIONS_PER_OP, MAX_OPERATORS_PER_OP in *.
  cbn [length]. rewrite !length_app, length_imap. cbn [length]. lia.
Qed.
End submitted.

(** ** What the contract makes of the deployment *)

Section deployment.
Context `{!Crypto}.

(** The contract serves the calls of an operation in turn; it may find another
    frame at each of them. *)
Fixpoint serve (f : nat -> Frame) (i : nat) (actions : list Action) (g : Guest) : Guest * list Reply :=
  match actions with
  | [] => (g, [])
  | Call _ method args :: actions =>
    let '(g, r) := call (f i) (input_of method args) (fresh g) in
    let '(g, rs) := serve f (S i) actions g in (g, r :: rs)
  | _ :: actions => serve f (S i) actions g
  end.

Lemma call_init f args g : call f (input_of "init" args) g = do_init f args g.
Proof. reflexivity. Qed.
Lemma call_set_operator f args g : call f (input_of "set_operator" args) g = do_set_operator f args g.
Proof. reflexivity. Qed.
Lemma call_set_op_count f args g : call f (input_of "set_op_count" args) g = do_admin_set_op_count f args g.
Proof. reflexivity. Qed.

Lemma read_32_same k v g : length v = 32%nat -> read_32 k (storage_set (key k) v g) = Some v.
Proof.
  intros Hv. unfold read_32, storage_get, storage_set. cbn [g_storage]. rewrite lookup_insert_eq. cbn.
  rewrite Hv. cbn. by rewrite firstn_all2 by lia.
Qed.
Lemma read_32_other k k' v g : separate k k' -> read_32 k' (storage_set (key k) v g) = read_32 k' g.
Proof.
  intros Hs. unfold read_32, storage_get, storage_set. cbn [g_storage]. by rewrite lookup_insert_ne by by apply key_separate.
Qed.
Lemma read_32_emit k t d g : read_32 k (emit t d g) = read_32 k g.
Proof. done. Qed.
Lemma read_32_fresh k g : read_32 k (fresh g) = read_32 k g.
Proof. done. Qed.

Variables (owner treasury oracle : AccountId).
Hypothesis owner_length : length owner = 32%nat.
Hypothesis treasury_length : length treasury = 32%nat.
Hypothesis oracle_length : length oracle = 32%nat.

(** The contract under its owner, with the operators [ops] in the first slots
    and none after them, before they are counted. *)
Definition configured (ops : list AccountId) (g : Guest) : Prop :=
  read_32 KOwner g = Some owner /\ read_32 KTreasury g = Some treasury /\ read_32 KSlashOracle g = Some oracle
  /\ (forall j : nat, (j < 32)%nat -> read_32 (KOp (Z.of_nat j)) g = ops !! j)
  /\ ld64 0 KOpCount g = 0.

Lemma init_configures f g :
  g_storage g = ∅ -> f_caller f = owner ->
  exists g', do_init f (build_init_args treasury oracle) g = (g', ret "ok") /\ configured [] g'.
Proof.
  intros Hg Hf. assert (Hread : forall k, read_32 k g = None) by (intros k; unfold read_32, storage_get; by rewrite Hg, lookup_empty).
  unfold do_init, build_init_args, arg_account, ld32. rewrite Hread. cbn [default].
  change (negb (bytes_eqb ZERO_ID ZERO_ID)) with false. cbn iota.
  rewrite length_app, treasury_length, oracle_length. cbn [Nat.add Nat.ltb Nat.leb].
  unfold slice. rewrite drop_0, take_app_length' by done. rewrite drop_app_length' by done. rewrite firstn_all2 by lia.
  eexists. split; [done|]. rewrite Hf. unfold configured. rewrite !read_32_emit. unfold st64, set_u64.
  split_and!; [by rewrite !read_32_other, read_32_same by done..| |].
  - intros j Hj. by rewrite read_32_emit, !read_32_other, Hread by done.
  - change (ld64 0 KOpCount (emit ?t ?d ?x)) with (ld64 0 KOpCount x). rewrite !ld64_other by done.
    unfold ld64, get_u64, storage_get. by rewrite Hg, lookup_empty.
Qed.

Lemma operator_configures f op ops g :
  f_caller f = owner -> (length ops < 32)%nat -> length op = 32%nat -> configured ops g ->
  exists g', do_set_operator f (build_set_operator_args (Z.of_nat (length ops)) op) g = (g', ret "ok")
  /\ configured (ops ++ [op]) g'.
Proof.
  intros Hf Hi Hop (Ho & Ht & Hs & Hops & Hn).
  assert (Hu : forall j : nat, (j < 32)%nat -> in_u64 (Z.of_nat j)) by (intros j Hj; unfold in_u64, u64_max; lia).
  unfold do_set_operator, owner_only, is_owner, ld32, op_at, arg_u64, arg_account, build_set_operator_args.
  rewrite Ho, Hf. cbn [default]. rewrite bytes_eqb_refl.
  rewrite length_app, length_le_bytes, Hop. cbn [Nat.add Nat.ltb Nat.leb].
  unfold slice. rewrite drop_0, take_app_length' by by rewrite length_le_bytes.
  rewrite drop_app_length' by by rewrite length_le_bytes. rewrite firstn_all2 by lia. rewrite from_le_u64 by by apply Hu.
  unfold MAX_OPERATORS. destruct (Z.leb_spec 32 (Z.of_nat (length ops))) as [|_]; [lia|].
  unfold ld32. rewrite Hops by done. rewrite lookup_ge_None_2 by done. cbn [default].
  change (negb (bytes_eqb ZERO_ID ZERO_ID)) with false. cbn [andb]. eexists. split; [done|].
  unfold configured. rewrite !read_32_emit, !read_32_other by done. split_and!; [done..| |].
  - intros j Hj. rewrite read_32_emit. destruct (decide (j = length ops)) as [->|Hne].
    + by rewrite read_32_same, lookup_app_r, Nat.sub_diag by done.
    + rewrite read_32_other by (cbn; split_and!; [by apply Hu..|lia]). rewrite Hops by done.
      destruct (decide (j < length ops)%nat); [by rewrite lookup_app_l|].
      rewrite !lookup_ge_None_2; [done|rewrite length_app; cbn; lia|lia].
  - change (ld64 0 KOpCount (emit ?t ?d ?x)) with (ld64 0 KOpCount x). by rewrite ld64_other.
Qed.

Lemma operators_configure f target i ops done_ops rest g :
  (forall i, f_caller (f i) = owner) -> (length done_ops + length ops <= 32)%nat ->
  Forall (fun op => length op = 32%nat) ops -> configured done_ops g ->
  exists g' j, configured (done_ops ++ ops) g'
  /\ serve f i (imap (fun k op => Call target "set_operator"
        (build_set_operator_args (Z.of_nat (length done_ops + k)) op)) ops ++ rest) g
     = (fst (serve f j rest g'), replicate (length ops) (ret "ok") ++ snd (serve f j rest g')).
Proof.
  intros Hf Hl Hops. revert i done_ops g Hl. induction Hops as [|op ops Hop Hops IH]; intros i done_ops g Hl Hg.
  - exists g, i. rewrite app_nil_r. split; [done|]. cbn. by destruct (serve f i rest g).
  - cbn [length] in Hl. rewrite imap_cons. cbn [app serve]. rewrite call_set_operator, Nat.add_0_r.
    destruct (operator_configures (f i) op done_ops (fresh g) (Hf i) ltac:(lia) Hop Hg) as (g1 & E1 & Hg1). rewrite E1.
    destruct (IH (S i) (done_ops ++ [op]) g1) as (g2 & j & Hg2 & E2); [rewrite length_app; cbn; lia|done|].
    exists g2, j. rewrite <- app_assoc in Hg2. split; [done|].
    rewrite (imap_ext _ (fun k op0 => Call target "set_operator"
      (build_set_operator_args (Z.of_nat (length (done_ops ++ [op]) + k)) op0))).
    2: { intros k x _. cbn. rewrite length_app. cbn [length]. by replace (length done_ops + 1 + k)%nat with (length done_ops + S k)%nat by lia. }
    rewrite E2. done.
Qed.

Lemma count_configures f ops g :
  f_caller f = owner -> (length ops <= 32)%nat -> configured ops g ->
  do_admin_set_op_count f (le_bytes 8 (Z.of_nat (length ops))) g = (st64 KOpCount (Z.of_nat (length ops)) g, ret "ok").
Proof.
  intros Hf Hl (Ho & _ & _ & _ & Hn).
  unfold do_admin_set_op_count, owner_only, is_owner, arg_u64, ld32. rewrite Ho, Hf. cbn [default].
  rewrite bytes_eqb_refl, length_le_bytes. cbn [Nat.add Nat.ltb Nat.leb].
  unfold slice. rewrite drop_0, firstn_all2 by (rewrite length_le_bytes; lia).
  rewrite from_le_u64 by (unfold in_u64, u64_max; lia).
  unfold MAX_OPERATORS. destruct (Z.ltb_spec 32 (Z.of_nat (length ops))) as [|_]; [lia|].
  rewrite Hn, Z.sub_0_l. by rewrite (Z2Nat.nonpos (- Z.of_nat (length ops))) by lia.
Qed.

(** The calls that follow the deployment configure a new contract: each of
    them is accepted, the sender is the owner, treasury and oracle are the ones
    given, and the operators are counted, each in its slot. *)
Theorem deploy_configures f target operators g :
  (forall i, f_caller (f i) = owner) -> g_storage g = ∅ ->
  (length operators <= MAX_OPERATORS_PER_OP)%nat -> Forall (fun op => length op = 32%nat) operators ->
  let '(g', replies) := serve f 1 (deploy_calls target treasury oracle operators) g in
  replies = replicate (2 + length operators) (ret "ok")
  /\ ld32 KOwner g' = owner /\ ld32 KTreasury g' = treasury /\ ld32 KSlashOracle g' = oracle
  /\ ld64 0 KOpCount g' = Z.of_nat (length operators)
  /\ forall i op, operators !! i = Some op -> op_at (Z.of_nat i) g' = op.
Proof.
  intros Hf Hg Hl Hops. unfold MAX_OPERATORS_PER_OP in Hl. unfold deploy_calls. cbn [app serve]. rewrite call_init.
  destruct (init_configures (f 1%nat) (fresh g) Hg (Hf 1%nat)) as (g1 & E1 & Hg1). rewrite E1.
  destruct (operators_configure f target 2 operators [] [Call target "set_op_count" (le_bytes 8 (Z.of_nat (length operators)))]
    g1 Hf ltac:(cbn; lia) Hops Hg1) as (g2 & j & Hg2 & E2). cbn [length Nat.add] in E2. rewrite E2. clear E1 E2.
  cbn [serve app] in *. rewrite call_set_op_count, (count_configures (f j) operators (fresh g2)) by (done || lia). cbn [fst snd].
  destruct Hg2 as (Ho & Ht & Hs & Hsl & _).
  assert (Hr : forall k, separate KOpCount k -> read_32 k (st64 KOpCount (Z.of_nat (length operators)) (fresh g2)) = read_32 k g2).
  { intros k Hk. unfold st64, set_u64. by rewrite read_32_other. }
  unfold op_at, ld32. split_and!; [|by rewrite Hr, ?Ho, ?Ht, ?Hs by done..| |].
  - cbn [Nat.add replicate]. by rewrite <- replicate_cons_app.
  - rewrite ld64_same. apply Z.mod_small. lia.
  - intros i op Hi. pose proof (lookup_lt_Some _ _ _ Hi). by rewrite Hr, Hsl, Hi by (done || lia).
Qed.
End deployment.

(** The address that the tool predicts is the one where the node puts the
    contract. *)
Section address.
Context {S : Type} `{!StateStore S} `{!StateStoreLaws S} `{!Codec Account} `{!CodecLaws Account} `{!Crypto}.

Theorem deploy_lands (s : S) events owner wasm salt s' events' gas :
  execute_deploy s events owner wasm salt = (s', events', Ok gas) ->
  exists a, load_account s' (derive_contract_addr owner salt wasm) = Ok (Some a)
  /\ code_hash a = blake3 wasm /\ load_bytecode s' (code_hash a) = Some wasm.
Proof.
  intros H1. destruct (deploy_sound _ _ _ _ _ _ _ _ H1) as ((methods & Hl & _) & Hb & _).
  eexists. split; [exact Hl|]. split; [reflexivity|exact Hb].
Qed.
End address.

Lemma deploy_configures_witness :
  let f := fun _ : nat => mkFrame (addr 7) 1 0 0 in
  let '(g', replies) := serve f 1 (deploy_calls (addr 9) (addr 4) (addr 5) [addr 1; addr 2]) (mkGuest ∅ [] [] []) in
  replies = replicate 4 (ret "ok") /\ ld32 KOwner g' = addr 7 /\ op_at 1 g' = addr 2.
Proof.
  pose proof (deploy_configures (addr 7) (addr 4) (addr 5) eq_refl eq_refl eq_refl (fun _ => mkFrame (addr 7) 1 0 0)
    (addr 9) [addr 1; addr 2] (mkGuest ∅ [] [] []) (fun _ => eq_refl) eq_refl ltac:(vm_compute; lia)
    ltac:(repeat constructor)) as Hd. cbv zeta.
  destruct (serve _ 1 (deploy_calls _ _ _ _) _) as [g' replies]. destruct Hd as (H1 & H2 & _ & _ & _ & H6).
  split; [exact H1|]. split; [exact H2|]. exact (H6 1%nat (addr 2) eq_refl).
Defined.

(** ** The census *)

Section census.
Context `{!Codec DeployedAccount}.

(** A field that a step raises by a weight, at the width of 64 bits. *)
Definition tracks {A} (step : Census -> A -> Census) (field : Census -> Z) (weight : A -> Z) : Prop :=
  forall c a, 0 <= field c < 2 ^ 64 -> field (step c a) = (field c + weight a) mod 2 ^ 64.
Lemma tracks_fold {A} step field (weight : A -> Z) :
  tracks step field weight -> tracks (fun c l => fold_left step l c) field (fun l => sumZ (map weight l)).
Proof.
  intros Ht c l. revert c. induction l as [|a l IH]; intros c Hc; [cbn; by rewrite Z.add_0_r, Z.mod_small|].
  cbn [fold_left map sumZ]. rewrite IH, Ht, Zplus_mod_idemp_l by (rewrite ?Ht by done; try done; by apply Z.mod_pos_bound).
  f_equal. lia.
Qed.

Definition is_passkey (m : DeployedAuth) : Z := match m with DPasskey _ _ _ => 1 | _ => 0 end.
Definition is_session (m : DeployedAuth) : Z := match m with DSession _ _ _ _ _ => 1 | _ => 0 end.
Definition account_entry (kv : bytes * bytes) : bool := starts_with ACCOUNT_PREFIX_BYTES (fst kv) && (length (fst kv) =? 36)%nat.
(** The weight of the methods of an entry; and the entries that do not decode. *)
Definition methods_weight (w : DeployedAuth -> Z) (kv : bytes * bytes) : Z :=
  if account_entry kv then
    match de (snd kv) with Some acct => sumZ (map w (da_auth_methods acct)) | None => 0 end
  else 0.
Definition undecoded (kv : bytes * bytes) : Z :=
  if account_entry kv then match de (snd kv) : option DeployedAccount with Some _ => 0 | None => 1 end else 0.

Lemma method_passkey id : tracks (count_method id) cs_passkey is_passkey.
Proof. intros [] [] Hc; cbn in *; rewrite ?Z.add_0_r; [done|by rewrite Z.mod_small..]. Qed.
Lemma method_session id : tracks (count_method id) cs_session is_session.
Proof. intros [] [] Hc; cbn in *; rewrite ?Z.add_0_r; [by rewrite Z.mod_small..|done]. Qed.
Lemma method_errors id : tracks (count_method id) cs_decode_errors (fun _ => 0).
Proof. intros [] [] Hc; cbn in *; by rewrite Z.add_0_r, Z.mod_small. Qed.

Lemma entry_tracks field w werr :
  (forall id, tracks (count_method id) field w) ->
  (forall a a' e t g p s d pi si, field (mkCensus a e t g p s d pi si) = field (mkCensus a' e t g p s d pi si)) ->
  (forall a e t g p s d pi si, 0 <= field (mkCensus a e t g p s d pi si) < 2 ^ 64 ->
     field (mkCensus a e t g p s (u64_add d 1) pi si) = (field (mkCensus a e t g p s d pi si) + werr) mod 2 ^ 64) ->
  tracks count_entry field (fun kv => methods_weight w kv + werr * undecoded kv).
Proof.
  intros Hm Ha He c [k v] Hc. unfold count_entry, methods_weight, undecoded, account_entry. cbn [fst snd].
  change (4 + 32)%nat with 36%nat.
  destruct (starts_with ACCOUNT_PREFIX_BYTES k), (length k =? 36)%nat; cbn [negb orb andb];
    try (by rewrite Z.mul_0_r, !Z.add_0_r, Z.mod_small).
  destruct (de v) as [acct|]; destruct c as [a e t g p s d pi si].
  - rewrite (tracks_fold _ _ _ (Hm (da_id acct))), (Ha _ a) by by rewrite (Ha _ a). f_equal. lia.
  - rewrite He by done. f_equal. lia.
Qed.

Lemma census_fields entries :
  cs_passkey (census entries) = sumZ (map (methods_weight is_passkey) entries) mod 2 ^ 64
  /\ cs_session (census entries) = sumZ (map (methods_weight is_session) entries) mod 2 ^ 64
  /\ cs_decode_errors (census entries) = sumZ (map undecoded entries) mod 2 ^ 64.
Proof.
  assert (Hz : forall kv, methods_weight (fun _ => 0) kv = 0).
  { intros kv. unfold methods_weight. destruct (account_entry kv), (de (snd kv)) as [acct|]; try done.
    by induction (da_auth_methods acct). }
  unfold census. split_and!.
  - rewrite (tracks_fold _ _ _ (entry_tracks cs_passkey is_passkey 0 method_passkey ltac:(done)
      ltac:(intros; cbn in *; by rewrite Z.add_0_r, Z.mod_small)) census_default) by done.
    cbn. f_equal. apply sumZ_map_ext. intros kv _. lia.
  - rewrite (tracks_fold _ _ _ (entry_tracks cs_session is_session 0 method_session ltac:(done)
      ltac:(intros; cbn in *; by rewrite Z.add_0_r, Z.mod_small)) census_default) by done.
    cbn. f_equal. apply sumZ_map_ext. intros kv _. lia.
  - rewrite (tracks_fold _ _ _ (entry_tracks cs_decode_errors (fun _ => 0) 1 method_errors ltac:(done)
      ltac:(done)) census_default) by done.
    cbn. f_equal. apply sumZ_map_ext. intros kv _. rewrite Hz. lia.
Qed.

Lemma account_entry_spec k v :
  account_entry (k, v) = true <-> exists id, length id = 32%nat /\ k = account_key id.
Proof.
  unfold account_entry, account_key. cbn [fst]. split.
  - intros [Hs Hl%Nat.eqb_eq]%andb_prop. apply starts_with_spec in Hs as [id ->]. exists id.
    rewrite length_app in Hl. split; [|done]. change (length ACCOUNT_PREFIX_BYTES) with 4%nat in Hl. lia.
  - intros (id & Hl & ->). apply andb_true_intro. split; [apply starts_with_spec; by exists id|].
    rewrite length_app, Hl. done.
Qed.

Lemma sumZ_zero {A} (f : A -> Z) l : (forall x, 0 <= f x) -> sumZ (map f l) = 0 <-> Forall (fun x => f x = 0) l.
Proof.
  intros Hf. induction l as [|x l IH]; cbn; [done|]. rewrite Forall_cons, <- IH.
  assert (0 <= sumZ (map f l)) by (apply sumZ_map_nonneg; auto). specialize (Hf x). lia.
Qed.

Lemma weight_bounds w kv : (forall m, 0 <= w m <= 1) -> 0 <= methods_weight w kv <= methods_weight (fun _ => 1) kv.
Proof.
  intros Hr. unfold methods_weight. destruct (account_entry kv), (de (snd kv)) as [acct|]; try lia. split.
  - apply sumZ_map_nonneg. intros m _. apply Hr.
  - apply sumZ_map_le. intros m _. apply Hr.
Qed.
Lemma undecoded_bounds kv : 0 <= undecoded kv <= 1.
Proof. unfold undecoded. destruct (account_entry kv), (de (snd kv)); lia. Qed.
Lemma is_passkey_bounds m : 0 <= is_passkey m <= 1.
Proof. destruct m; cbn; lia. Qed.
Lemma is_session_bounds m : 0 <= is_session m <= 1.
Proof. destruct m; cbn; lia. Qed.

(** No counter wraps. *)
Lemma census_exact entries :
  sumZ (map (methods_weight (fun _ => 1)) entries) < 2 ^ 64 -> Z.of_nat (length entries) < 2 ^ 64 ->
  cs_passkey (census entries) = sumZ (map (methods_weight is_passkey) entries)
  /\ cs_session (census entries) = sumZ (map (methods_weight is_session) entries)
  /\ cs_decode_errors (census entries) = sumZ (map undecoded entries).
Proof.
  intros Hm He. destruct (census_fields entries) as (-> & -> & ->).
  assert (Hsmall : forall w, (forall m, 0 <= w m <= 1) ->
    sumZ (map (methods_weight w) entries) mod 2 ^ 64 = sumZ (map (methods_weight w) entries)).
  { intros w Hr. apply Z.mod_small. split; [apply sumZ_map_nonneg; intros kv _; by apply weight_bounds|].
    eapply Z.le_lt_trans; [|exact Hm]. apply sumZ_map_le. intros kv _. by apply weight_bounds. }
  split_and!; [apply Hsmall, is_passkey_bounds|apply Hsmall, is_session_bounds|]. apply Z.mod_small.
  split; [apply sumZ_map_nonneg; intros kv _; apply undecoded_bounds|].
  eapply Z.le_lt_trans; [|exact He]. clear. induction entries as [|kv l IH]; [done|]. cbn [map sumZ length].
  pose proof (undecoded_bounds kv). lia.
Qed.

(** Below the width of its counters, the census says that the change is safe
    exactly if every account of the store decodes and none has a passkey or a
    session among its methods. *)
Theorem census_sound entries :
  sumZ (map (methods_weight (fun _ => 1)) entries) < 2 ^ 64 -> Z.of_nat (length entries) < 2 ^ 64 ->
  census_safe (census entries) = true
  <-> forall id v, length id = 32%nat -> (account_key id, v) ∈ entries ->
        exists acct, de v = Some acct /\ Forall (fun m => is_passkey m = 0 /\ is_session m = 0) (da_auth_methods acct).
Proof.
  intros Hm He. destruct (census_exact entries Hm He) as (Hp & Hs & Hd).
  unfold census_safe. rewrite Hp, Hs, Hd, !andb_true_iff, !Z.eqb_eq.
  rewrite !sumZ_zero by (intros kv; first [apply undecoded_bounds|apply weight_bounds, is_passkey_bounds|apply weight_bounds, is_session_bounds]).
  rewrite !List.Forall_forall. split.
  - intros ((H1 & H2) & H3) id v Hl Hin%list_elem_of_In. specialize (H1 _ Hin). specialize (H2 _ Hin). specialize (H3 _ Hin).
    assert (Ha : account_entry (account_key id, v) = true) by (apply account_entry_spec; eauto).
    unfold methods_weight, undecoded in *. rewrite Ha in *. cbn [snd] in *. destruct (de v) as [acct|]; [|done].
    exists acct. split; [done|]. apply Forall_and. split; (eapply sumZ_zero; [|done]); intros m; [apply is_passkey_bounds|apply is_session_bounds].
  - intros Hall. assert (Hz : forall kv, In kv entries -> methods_weight is_passkey kv = 0 /\ methods_weight is_session kv = 0 /\ undecoded kv = 0).
    { intros [k v] Hin. unfold methods_weight, undecoded. destruct (account_entry (k, v)) eqn:Ha; [|done].
      apply account_entry_spec in Ha as (id & Hl & ->). apply list_elem_of_In in Hin.
      destruct (Hall id v Hl Hin) as (acct & Ed & Hf). cbn [snd]. rewrite Ed. apply Forall_and in Hf as [H1 H2].
      split_and!; [apply sumZ_zero; [apply is_passkey_bounds|done]|apply sumZ_zero; [apply is_session_bounds|done]|done]. }
    split_and!; intros kv Hin; by apply Hz.
Qed.
End census.
